(* ===== verification/_CoqProject ===== *)
-Q . S2P
Prelude.v
Memory.v
Bits.v
Endian.v
Intset.v
IntsetFacts.v
IntsetSpec.v
Util.v
UtilFacts.v
Glob.v
GlobSpec.v
Sds.v
SdsSpec.v
Listpack.v
ListpackFacts.v
ListpackOps.v
ListpackSpec.v
Ziplist.v
ZiplistFacts.v
ZiplistOps.v
ZiplistUpdate.v
ZiplistDelete.v
ZiplistNav.v
ZiplistSpec.v
Dict.v
DictFacts.v
DictSpec.v
DictIter.v
DictScan.v
DictIterSpec.v
Zskiplist.v
ZslFacts.v
ZslSpec.v
ZslDelete.v
ZslRank.v
ZslRange.v
Zset.v
Lzf.v
LzfDecode.v
LzfSpec.v
Server.v
Protocol.v
ProtocolFacts.v
ProtocolParse.v
ProtocolSpec.v
ProtocolSafety.v
Multi.v
MultiFacts.v
MultiSpec.v
SdsNumber.v
Rdb.v
RdbSpec.v
Cluster.v
ClusterFacts.v
ClusterRoles.v
ClusterSafe.v
ClusterSpec.v
ClusterElection.v
ClusterRun.v
Crc.v
CrcSpec.v
KeySlotSpec.v
Keyspace.v
KeyspaceFacts.v
KeyspaceSpec.v
SetType.v
SetTypeFacts.v
SetCmd.v
SetCmdFacts.v
SetCmdSpec.v
SetOpSpec.v
SetExamples.v
StringCmd.v
StringSpec.v
StringOpSpec.v
Lcs.v
Repl.v
ReplFacts.v
ReplSpec.v
ReplRun.v
