(* ===== verification/Prelude.v ===== *)
(** * Verification of the core of Redis 6.0.8

    ** The program

    The repository holds Redis, an in-memory data store, under src/redis-6.0.8/src (C).  A client
    connection feeds bytes to the request parser (networking.c), which splits them into commands;
    processCommand (server.c) queues a command of a transaction (multi.c) or calls it; the commands
    work on the containers (dict.c, intset.c, listpack.c, t_zset.c, with the strings of sds.c and
    the conversions of util.c); values are written to disk in the RDB format (rdb.c), compressed
    by LZF (lzf_c.c, lzf_d.c), checksummed (crc64.c, crcspeed.c) and portable across byte orders
    (endianconv.c), and commands in the RESP format (aof.c).  Commands are also fed to replicas (replication.c), which catch up from a
    circular backlog after a lost connection.  In a cluster (cluster.c) the keys
    are spread over 16384 slots by a checksum (crc16.c); the nodes exchange messages to agree on
    who owns a slot, and the replicas of a failed master elect one of them to replace it.

    ** Conventions

    C integers are [Z] with the wrap-around written out ([uN], [sN] and the abbreviations [u8] ..
    [i64] below).  A heap block is a list of byte values; a pointer into it is an offset, and an
    access outside it is [None] (file Memory).  [None] is also a failed assertion or the
    dereference of NULL, so that a theorem whose conclusion is [Some ...] shows that the code does
    none of these.  What allocation leaves in fresh memory, what random() returns, whether a write
    succeeds, are arguments.  Loops with no structural argument take fuel, which is part of the
    definition and not of the statements: it is computed from the size of the data (the length of
    the buffer, the number of elements, the number of buckets), and every theorem shows a result,
    so that the fuel given is always enough.

    ** Files

    - Prelude: the notation [let!], machine integers, the tactics [zlia], [boolsimp], [casif],
      [mstep] and the hint databases; Memory: byte blocks, layout of integers; Bits: shifts and
      masks as arithmetic.
    - Endian: endianconv.c, for a host of either byte order (class [Host]).
    - Intset, IntsetFacts, IntsetSpec: intset.c at byte level; [intset_rep] relates a block to a
      finite set of 64 bit integers.
    - Util, UtilFacts: the integer conversions of util.c, against the canonical decimal
      notation [decimal]; Glob, GlobSpec: stringmatchlen, against a reference matcher.
    - Sds, SdsSpec: quoting, splitting, trimming and comparison of sds.c on byte strings;
      SdsNumber: sdsll2str and its relatives.
    - Listpack, ListpackFacts, ListpackOps, ListpackSpec: listpack.c at byte level; [wf lp ss]
      relates a block to the sequence of its strings.
    - Dict (tables, rehash, lookup, update), DictIter (scan, iterators, sampling), DictFacts,
      DictSpec, DictScan, DictIterSpec: dict.c; [dict_rep]
      relates a dictionary, at any stage of an incremental rehash, to a finite map.
    - Zskiplist: the zsl functions of t_zset.c on a heap of nodes (the fields of a node and, by
      node and level, the fields of its levels); ZslFacts, ZslSpec: the representation
      [zrep] of a sorted sequence of scored elements by the heap, its spans included, and what a
      search, a link and an unlink do to it; ZslDelete, ZslRank, ZslRange: the contracts of
      insertion, deletion, score update, ranks, range queries and range deletions.
    - Zset: the sorted set API (zsetAdd, zsetDel, zsetRank, zsetScore,
      zsetLength) for the skiplist encoding, composed from Dict and Zskiplist; [zset_rep] relates
      the pair to a finite map from elements to scores.
    - Ziplist: ziplist.c; ZiplistFacts: the codecs of entries and header; ZiplistOps: the invariant
      [zwf] and the cascading update; ZiplistUpdate, ZiplistDelete, ZiplistNav:
      insertion, deletion, merging, walks and searches; ZiplistSpec: the refinement of lists.
    - Lzf: lzf_compress and lzf_decompress; LzfDecode: the format as a relation [dec], and the
      decompressor against it; LzfSpec: the compressor and the round trip.
    - Server (constants of server.h), Protocol, ProtocolFacts, ProtocolParse, ProtocolSpec,
      ProtocolSafety: readQueryFromClient and what it calls in networking.c, with the RESP encoder
      of aof.c.
    - Multi, MultiFacts, MultiSpec: multi.c and the queue-or-call decision of processCommand, as a
      transition system over all clients.
    - Rdb, RdbSpec: lengths, integers, strings (compressed ones with Lzf) and times of rdb.c.
    - Crc: crc16.c, crc64.c, crcspeed.c and keyHashSlot of cluster.c; CrcSpec, KeySlotSpec: against
      polynomial division.
    - Cluster: the state of cluster.c and the handlers that change slots, roles, epochs and votes;
      a node is addressed by its name, and what a handler sends is a list of effects.
      ClusterFacts, ClusterRoles: what each primitive does to bitmaps, owners and
      roles; ClusterSafe: the invariant [wf] and its preservation by the handlers; ClusterSpec:
      their contracts and the collisions of configuration epochs; ClusterElection:
      elections as runs of many nodes over a network that delays, reorders, duplicates and loses
      messages; ClusterRun: a cluster of three masters and runs of it.
    - Keyspace: the databases of db.c, with the deletions of lazyfree.c, the commands of expire.c
      and the access clocks of evict.c; replies, notifications and propagation are a list of
      events.  KeyspaceFacts: Hoare triples [does] for every function, on a finite map from keys
      to values with expiration times; KeyspaceSpec: the contracts.
    - SetType, SetTypeFacts: the set type of t_set.c, an integer set or a dictionary; [set_rep]
      relates either to a finite set of strings.  SetCmd: the set commands; SetCmdFacts:
      their loops over sets of the keyspace, where a pointer is a key, so that two
      arguments may be one set; SetCmdSpec, SetOpSpec: the contracts; SetExamples: a keyspace
      reached by commands.
    - StringCmd: string objects with their encodings (object.c) and the commands of t_string.c;
      StringSpec, StringOpSpec: their contracts on a finite map of byte strings, and a keyspace
      with strings.  Lcs: STRALGO LCS, its table in 32 bit indices, and longest common
      subsequences.
    - Repl: replication.c for the server that is followed: backlog, stream, SYNC and PSYNC,
      identifiers, saves for replicas.  ReplFacts: the circular buffer as the end of the stream, and
      commands as bytes; ReplSpec: the replicas after every handler; ReplRun: runs of a server
      with ghost histories, and an example.

    ** Interfaces

    [dictType] is the pair of hooks (hash and comparison of keys) of a dictionary, with its laws;
    the skiplist and the sorted set are clients of the dictionary through [dict_rep] only.
    [Alloc] and [Stack] give the indeterminate bytes of fresh memory and of an uninitialised
    table; [ZAlloc] gives the address of a new node, and its law [ZAllocOk] says it is not in use.
    [Commands], with the laws [PlainCommands] and [SafeCommands], is what the parser relies on
    from command execution; [Engine] is what transactions see of the other commands; [Rio] says
    which writes succeed; [Value] and [Rep] are what the keyspace asks of values and how these
    stand for abstract ones, so that the keyspace is proved once for all types and the set
    and string commands are its clients; [Qsort] is a sort known only to permute.  Each class has an instance in the examples at the end of the files,
    where the theorems with hypotheses are applied to concrete data.

    ** What is proved

    - Containers refine their abstract data types on every branch: integer sets, listpacks,
      dictionaries (insertion, deletion, lookup, replacement, resizing), skiplists and sorted
      sets, the ranks and spans included; the blocks of integer sets are the same bytes on every
      host.
    - dictScan returns every element present throughout an iteration whatever happens to the
      table in between, terminates, and is exact on an unchanged table; a rehash completes.
    - The parser executes exactly the requests sent, however they are cut into reads, and is safe
      on arbitrary bytes.
    - EXEC runs its queue exactly when no watched key was touched since it was watched, in every
      interleaving of clients and of changes in the background; a run keeps the history of state changes with
      the signals sent in each, so that with every change signalled the watched values are the
      same at EXEC.  The tables of watched keys stay consistent.
    - Round trips: decimal numbers, quoting and splitting, back lengths, RDB lengths, strings and
      times across hosts, LZF; truncated RDB strings and malformed LZF data are refused.
    - Cluster: none of the modelled handlers fails from a consistent state and each leaves one; a slot moves exactly
      by the rule of epochs; no master votes twice in an epoch, and an epoch elects at most one
      replica provided no vote arrives between two elections of a replica, a condition that is
      needed ([late_votes_elect_two]); collisions of epochs end.
    - Checksums: the tables and sliced loops agree with polynomial division, and a hash slot
      depends on the hash tag only.
    - The keyspace: lookups find exactly the keys that have not expired, a master deletes and
      propagates expired keys and a replica waits; DEL, EXISTS, RENAME, MOVE, EXPIRE, TTL, PERSIST,
      setting, flushing and swapping do what they mean to a finite map, and every change is
      signalled and propagated.
    - Sets: the commands compute on finite sets whatever the encodings, rehashing, sort order and
      algorithm; no empty set stays in the keyspace.
    - Strings: the commands compute on byte strings whatever the encodings and shared integers,
      with the options of SET specified apart from the code, where no sum overflows; a
      SETRANGE whose sum does passes the length check and stops the server.
      STRALGO LCS finds a longest common subsequence and its ranges unless the size of its table
      overflows, and then it writes outside it.
    - Replication: in every run each attached replica has been given exactly the stream from where
      it began, unless its offset was not a number, it could not be told to continue, it executed commands of
      its own or may have taken over the buffer of such a replica; a replica is let to continue only from a prefix of the
      stream and gets the rest, and may continue as long as the backlog covers what it missed.
    - Bounds: the 32 bit sizes of integer sets and listpacks and where they wrap.

    ** Not modelled

    The replica's side of the handshake and the transfer of data sets; sockets, files, threads, processes and the event loop (the operating system); Lua, hiredis,
    jemalloc and linenoise (third-party); command handlers other than those of transactions, the
    keyspace, strings and sets; in cluster.c the bodies of PING, PONG and MEET, gossip, clusterCron, PUBLISH and the
    CLUSTER commands; INCRBYFLOAT (long doubles); SPOP, SRANDMEMBER and the SCAN family of commands; the ziplist encoding
    of sorted sets; the headers of the five classes of sds strings (an sds is its bytes).  The hash function and random() are parameters.  Memory exhaustion ends the process in
    zmalloc and is not a result here.  The clock does not advance during a command.

    ** Plan

    Next: the zzl functions on the ziplist, so that both encodings of the sorted set are covered;
    then quicklists, the radix tree and streams. *)

From Stdlib Require Import ZArith Lia.
From stdpp Require Import base numbers option list.

Local Open Scope Z_scope.

(** ** Notations: the checked-access monad *)

Declare Scope redis_scope.
Delimit Scope redis_scope with redis.

(** A computation that may touch memory outside its buffer is an [option]:
    [None] is the undefined behaviour the C program would have there. *)
Notation "'let!' x ':=' e 'in' k" := (mbind (fun x => k) e)
  (at level 10, x pattern, e at level 100, k at level 200,
   format "'[v' 'let!'  x  ':='  e  'in' '/' k ']'") : redis_scope.

(** ** Machine integers *)

(** [uN w z]: the w-bit unsigned representative; [sN w z]: the two's
    complement signed one. *)
Definition uN (w z : Z) : Z := z mod 2 ^ w.
Definition sN (w z : Z) : Z := (z + 2 ^ (w - 1)) mod 2 ^ w - 2 ^ (w - 1).

Abbreviation u8 := (uN 8).
Abbreviation u16 := (uN 16).
Abbreviation u32 := (uN 32).
Abbreviation u64 := (uN 64).
Abbreviation i16 := (sN 16).
Abbreviation i32 := (sN 32).
Abbreviation i64 := (sN 64).

Definition INT16_MIN : Z := - 2 ^ 15.
Definition INT16_MAX : Z := 2 ^ 15 - 1.
Definition INT32_MIN : Z := - 2 ^ 31.
Definition INT32_MAX : Z := 2 ^ 31 - 1.
Definition INT64_MIN : Z := - 2 ^ 63.
Definition INT64_MAX : Z := 2 ^ 63 - 1.
Definition UINT16_MAX : Z := 2 ^ 16 - 1.
Definition UINT32_MAX : Z := 2 ^ 32 - 1.
Definition UINT64_MAX : Z := 2 ^ 64 - 1.

(** [is_u w z] and [is_s w z]: the value fits the width. *)
Definition is_u (w z : Z) : Prop := 0 <= z < 2 ^ w.
Definition is_s (w z : Z) : Prop := - 2 ^ (w - 1) <= z < 2 ^ (w - 1).

#[global] Instance is_u_dec w z : Decision (is_u w z).
Proof. unfold is_u. apply _. Defined.
#[global] Instance is_s_dec w z : Decision (is_s w z).
Proof. unfold is_s. apply _. Defined.

(** C's [&&] on conditions and truth values of [int] results. *)
Definition b2z (b : bool) : Z := if b then 1 else 0.

Lemma b2z_bound b : 0 <= b2z b <= 1.
Proof. destruct b; simpl; lia. Qed.

(** ** Lists indexed by [Z] *)

Definition zlen {A} (l : list A) : Z := Z.of_nat (length l).

(** ** Automation *)

Create HintDb redis.
Create Rewrite HintDb zlen.

Lemma zlen_nil {A} : zlen (@nil A) = 0.
Proof. reflexivity. Qed.
Lemma zlen_cons {A} (x : A) l : zlen (x :: l) = 1 + zlen l.
Proof. unfold zlen. simpl length. lia. Qed.
Lemma zlen_app {A} (l k : list A) : zlen (l ++ k) = zlen l + zlen k.
Proof. unfold zlen. rewrite length_app. lia. Qed.
Lemma zlen_nonneg {A} (l : list A) : 0 <= zlen l.
Proof. unfold zlen. lia. Qed.
Lemma zlen_map {A B} (f : A -> B) l : zlen (map f l) = zlen l.
Proof. unfold zlen. rewrite length_map. reflexivity. Qed.
Lemma zlen_rev {A} (l : list A) : zlen (rev l) = zlen l.
Proof. unfold zlen. rewrite length_rev. reflexivity. Qed.
Lemma zlen_replicate {A} n (x : A) : zlen (replicate n x) = Z.of_nat n.
Proof. unfold zlen. rewrite length_replicate. reflexivity. Qed.
Lemma zlen_take {A} n (l : list A) : zlen (take n l) = Z.min (Z.of_nat n) (zlen l).
Proof. unfold zlen. rewrite length_take. lia. Qed.
Lemma zlen_drop {A} n (l : list A) : zlen (drop n l) = Z.max 0 (zlen l - Z.of_nat n).
Proof. unfold zlen. rewrite length_drop. lia. Qed.
Lemma zlen_0_inv {A} (l : list A) : zlen l = 0 -> l = [].
Proof. destruct l; [done|]. rewrite zlen_cons. pose proof (zlen_nonneg l). lia. Qed.

Global Hint Rewrite @zlen_nil @zlen_cons @zlen_app @zlen_map @zlen_rev
  @zlen_replicate @zlen_take @zlen_drop : zlen.
#[export] Hint Resolve zlen_nonneg : redis.

(** Poses [0 <= zlen l] for every list length in sight. *)
Ltac zlen_pos :=
  repeat match goal with
  | |- context [zlen ?l] =>
      lazymatch goal with H : 0 <= zlen l |- _ => fail | _ => pose proof (zlen_nonneg l) end
  | _ : context [zlen ?l] |- _ =>
      lazymatch goal with H : 0 <= zlen l |- _ => fail | _ => pose proof (zlen_nonneg l) end
  end.

(** Linear arithmetic over list lengths. *)
Ltac zlia := autorewrite with zlen in *; zlen_pos; lia.

(** Destructs the [if decide]s of the goal, discharging by [zlia]. *)
Ltac decide_by tac :=
  match goal with
  | |- context [decide ?P] =>
      first [ rewrite (decide_True (P := P)) by tac
            | rewrite (decide_False (P := P)) by tac ]
  end.

(** Turns boolean comparisons of hypotheses into [Prop]. *)
Ltac boolsimp :=
  repeat match goal with
  | H : (_ && _)%bool = true |- _ => apply andb_prop in H as [? ?]
  | H : (_ =? _) = true |- _ => apply Z.eqb_eq in H
  | H : (_ =? _) = false |- _ => apply Z.eqb_neq in H
  | H : (_ <? _) = true |- _ => apply Z.ltb_lt in H
  | H : (_ <? _) = false |- _ => apply Z.ltb_ge in H
  | H : (_ <=? _) = true |- _ => apply Z.leb_le in H
  | H : (_ <=? _) = false |- _ => apply Z.leb_gt in H
  | H : (_ >? _) = true |- _ => rewrite Z.gtb_ltb in H
  | H : (_ >? _) = false |- _ => rewrite Z.gtb_ltb in H
  | H : (_ >=? _) = true |- _ => rewrite Z.geb_leb in H
  | H : (_ >=? _) = false |- _ => rewrite Z.geb_leb in H
  | H : negb _ = true |- _ => apply negb_true_iff in H
  | H : negb _ = false |- _ => apply negb_false_iff in H
  end.

(** Reduces the binds whose first computation has succeeded. *)
Ltac mstep := cbn [mbind option_bind].

(** Splits the first [if] on a boolean test found in the goal. *)
Ltac casif :=
  match goal with
  | |- context [if ?b then _ else _] =>
      let E := fresh "E" in destruct b eqn:E; boolsimp
  end.

(** ** Integer lemmas *)

Lemma uN_small w z : 0 <= z < 2 ^ w -> uN w z = z.
Proof. apply Z.mod_small. Qed.
Lemma uN_bound w z : 0 <= w -> 0 <= uN w z < 2 ^ w.
Proof. intros. apply Z.mod_pos_bound. lia. Qed.
Lemma sN_small w z : 0 < w -> is_s w z -> sN w z = z.
Proof.
  unfold is_s, sN. intros Hw Hz.
  assert (2 ^ w = 2 * 2 ^ (w - 1)).
  { rewrite <- Z.pow_succ_r by lia. f_equal. lia. }
  rewrite Z.mod_small by lia. lia.
Qed.
Lemma sN_bound w z : 0 < w -> is_s w (sN w z).
Proof.
  unfold is_s, sN. intros Hw.
  assert (2 ^ w = 2 * 2 ^ (w - 1)).
  { rewrite <- Z.pow_succ_r by lia. f_equal. lia. }
  pose proof (Z.mod_pos_bound (z + 2 ^ (w - 1)) (2 ^ w)). lia.
Qed.
Lemma sN_uN w z : 0 < w -> sN w (uN w z) = sN w z.
Proof. intros. unfold sN, uN. f_equal. apply Zplus_mod_idemp_l. Qed.
Lemma sN_uN_id w z : 0 < w -> is_s w z -> sN w (uN w z) = z.
Proof. intros. rewrite sN_uN, sN_small by done. reflexivity. Qed.
