(* ===== verification/Memory.v ===== *)
(** * Byte buffers

    The heap blocks of the C program (the body of an intset, a listpack, a
    destination [char] buffer) as lists of byte values, with bounds-checked
    loads and stores: an access outside the block is [None].  Also the layout of
    integers in memory, for a host of either byte order. *)

From Stdlib Require Import ZArith Lia.
From stdpp Require Import base numbers option list.
From S2P Require Import Prelude.

Local Open Scope Z_scope.
Local Open Scope redis_scope.

Abbreviation bytes := (list Z).

Definition byte_ok (b : Z) : Prop := 0 <= b < 256.
Definition bytes_ok (m : bytes) : Prop := Forall byte_ok m.

#[global] Instance byte_ok_dec b : Decision (byte_ok b).
Proof. unfold byte_ok. apply _. Defined.

(** ** Access *)

(** [load m p n]: the [n] bytes at offset [p]. *)
Definition load (m : bytes) (p n : Z) : option bytes :=
  if decide (0 <= p /\ 0 <= n /\ p + n <= zlen m)
  then Some (take (Z.to_nat n) (drop (Z.to_nat p) m)) else None.

(** [store m p bs]: [bs] written at offset [p]. *)
Definition store (m : bytes) (p : Z) (bs : bytes) : option bytes :=
  if decide (0 <= p /\ p + zlen bs <= zlen m)
  then Some (take (Z.to_nat p) m ++ bs ++ drop (Z.to_nat (p + zlen bs)) m) else None.

(** One byte: [p[i]] as an rvalue and as an lvalue (the value is truncated to
    [unsigned char]). *)
Definition load1 (m : bytes) (p : Z) : option Z :=
  if decide (0 <= p) then m !! Z.to_nat p else None.
Definition store1 (m : bytes) (p v : Z) : option bytes := store m p [u8 v].

(** [memmove(dst,src,n)] inside one block (also [memcpy] when the ranges are
    disjoint). *)
Definition memmove (m : bytes) (dst src n : Z) : option bytes :=
  let! bs := load m src n in store m dst bs.

(** [realloc]: keeps the common prefix; the bytes of a grown area are
    indeterminate: [junk] is what the allocator leaves there, an argument of every
    definition that allocates. *)
Class Alloc := junk : Z -> Z.
Definition realloc `{Alloc} (m : bytes) (n : Z) : bytes :=
  take (Z.to_nat n) m
  ++ map (fun i => u8 (junk (Z.of_nat i))) (seq (length m) (Z.to_nat n - length m)).

(** ** Integer layout *)

Fixpoint le_dec (bs : bytes) : Z :=
  match bs with [] => 0 | b :: t => b + 256 * le_dec t end.
Fixpoint le_enc (n : nat) (z : Z) : bytes :=
  match n with O => [] | S n' => z mod 256 :: le_enc n' (z / 256) end.

(** The byte order of the host: [true] for big endian. *)
Class Host := big_endian : bool.

Definition host_dec `{Host} (bs : bytes) : Z :=
  if big_endian then le_dec (rev bs) else le_dec bs.
Definition host_enc `{Host} (n : nat) (z : Z) : bytes :=
  if big_endian then rev (le_enc n z) else le_enc n z.

(** ** Lemmas on access *)

Lemma load_app A B C p n :
  p = zlen A -> n = zlen B -> load (A ++ B ++ C) p n = Some B.
Proof.
  intros -> ->. unfold load. decide_by ltac:(zlia). f_equal.
  unfold zlen. rewrite !Nat2Z.id, drop_app_length, take_app_length. done.
Qed.

Lemma load_app_r A B p n :
  p = zlen A -> n = zlen B -> load (A ++ B) p n = Some B.
Proof. intros. rewrite <- (app_nil_r B) at 1. by apply load_app. Qed.

Lemma store_app A B B' C p :
  p = zlen A -> zlen B' = zlen B -> store (A ++ B ++ C) p B' = Some (A ++ B' ++ C).
Proof.
  intros -> HB. unfold store. decide_by ltac:(zlia). f_equal.
  f_equal.
  - unfold zlen. rewrite Nat2Z.id. apply take_app_length.
  - f_equal. rewrite HB, <- zlen_app, app_assoc. unfold zlen. rewrite Nat2Z.id.
    apply drop_app_length.
Qed.

Lemma store_app_r A B B' p :
  p = zlen A -> zlen B' = zlen B -> store (A ++ B) p B' = Some (A ++ B').
Proof.
  intros. pose proof (store_app A B B' [] p) as Hs. rewrite !app_nil_r in Hs. auto.
Qed.

(** Every in-range access splits its block. *)
Lemma split_range (m : bytes) p n :
  0 <= p -> 0 <= n -> p + n <= zlen m ->
  exists A B C, m = A ++ B ++ C /\ zlen A = p /\ zlen B = n.
Proof.
  intros Hp Hn Hm.
  exists (take (Z.to_nat p) m), (take (Z.to_nat n) (drop (Z.to_nat p) m)),
    (drop (Z.to_nat n) (drop (Z.to_nat p) m)).
  rewrite take_drop, take_drop. split; [done|]. zlia.
Qed.

Lemma load_inv m p n bs :
  load m p n = Some bs ->
  exists A C, m = A ++ bs ++ C /\ zlen A = p /\ zlen bs = n.
Proof.
  unfold load. case_decide as Hd; [|done]. intros [= <-].
  destruct (split_range m p n) as (A & B & C & -> & HA & HB); [lia..|].
  exists A, C. subst p n. unfold zlen. rewrite !Nat2Z.id, drop_app_length, take_app_length.
  done.
Qed.

Lemma load1_app A b C p : p = zlen A -> load1 (A ++ b :: C) p = Some b.
Proof.
  intros ->. unfold load1. rewrite decide_True by auto with redis.
  unfold zlen. rewrite Nat2Z.id. apply list_lookup_middle. done.
Qed.

Lemma load1_load m p : load1 m p = let! bs := load m p 1 in head bs.
Proof.
  unfold load1, load. case_decide as Hp.
  - destruct (decide (p + 1 <= zlen m)) as [Hlt|Hge].
    + rewrite decide_True by lia. simpl.
      destruct (split_range m p 1) as (A & B & C & -> & HA & HB); [lia..|].
      destruct B as [|b [|]]; [done| |zlia]. simpl.
      assert (Z.to_nat p = length A) as -> by (unfold zlen in *; lia).
      rewrite drop_app_length, list_lookup_middle by done. done.
    + rewrite decide_False by lia. simpl. apply lookup_ge_None_2.
      unfold zlen in *. lia.
  - rewrite decide_False by lia. done.
Qed.


Lemma realloc_shrink `{Alloc} A B n : n = zlen A -> realloc (A ++ B) n = A.
Proof.
  intros ->. unfold realloc, zlen. rewrite Nat2Z.id, take_app_length, length_app.
  replace (length A - (length A + length B))%nat with 0%nat by lia. apply app_nil_r.
Qed.

Lemma realloc_grow `{Alloc} m n :
  zlen m <= n ->
  exists J, realloc m n = m ++ J /\ zlen J = n - zlen m /\ bytes_ok J.
Proof.
  intros Hn. unfold realloc. rewrite take_ge by (unfold zlen in *; lia).
  eexists. split; [done|]. split.
  - rewrite zlen_map. unfold zlen in *. rewrite length_seq. lia.
  - apply Forall_map, Forall_true. intros. apply uN_bound. lia.
Qed.

(** ** Lemmas on integer layout *)

Lemma zlen_le_enc n z : zlen (le_enc n z) = Z.of_nat n.
Proof. revert z. induction n; intros z; [done|]. cbn [le_enc]. rewrite zlen_cons, IHn. lia. Qed.
Lemma zlen_host_enc `{Host} n z : zlen (host_enc n z) = Z.of_nat n.
Proof. unfold host_enc. destruct big_endian; rewrite ?zlen_rev; apply zlen_le_enc. Qed.
Global Hint Rewrite @zlen_le_enc @zlen_host_enc : zlen.

Lemma le_enc_ok n z : bytes_ok (le_enc n z).
Proof.
  revert z. induction n; intros z; constructor; [|apply IHn].
  apply Z.mod_pos_bound. lia.
Qed.

Lemma le_dec_enc n z : le_dec (le_enc n z) = uN (8 * Z.of_nat n) z.
Proof.
  unfold uN. revert z. induction n; intros z; cbn [le_enc le_dec].
  - symmetry. apply Z.mod_1_r.
  - rewrite IHn. replace (8 * Z.of_nat (S n)) with (8 + 8 * Z.of_nat n) by lia.
    rewrite Z.pow_add_r by lia. rewrite Z.rem_mul_r by lia. done.
Qed.

Lemma le_enc_dec bs : bytes_ok bs -> le_enc (length bs) (le_dec bs) = bs.
Proof.
  induction 1 as [|b bs Hb _ IH]; [done|]. cbn [length le_enc le_dec].
  unfold byte_ok in Hb. rewrite (Z.add_comm b), (Z.mul_comm 256).
  rewrite Z.div_add_l, Z.div_small, Z.add_0_r, IH by lia.
  rewrite Z.add_comm, Z.mod_add, Z.mod_small by lia. done.
Qed.

Lemma le_dec_bound bs : bytes_ok bs -> 0 <= le_dec bs < 2 ^ (8 * zlen bs).
Proof.
  induction 1 as [|b bs Hb _ IH]; cbn [le_dec]; [done|].
  unfold byte_ok in Hb. rewrite zlen_cons, Z.mul_add_distr_l, Z.pow_add_r by zlia. lia.
Qed.

Lemma host_dec_enc `{Host} n z : host_dec (host_enc n z) = uN (8 * Z.of_nat n) z.
Proof.
  unfold host_dec, host_enc. destruct big_endian; rewrite ?rev_involutive; apply le_dec_enc.
Qed.

Arguments le_enc : simpl never.
Arguments le_dec : simpl never.
