(* ===== verification/Bits.v ===== *)
(** * Bit operations as arithmetic

    The shifts, masks and ors by which the C code packs and unpacks integers, as sums
    and quotients; properties of bytes proved by running through the 256 of them. *)

From Stdlib Require Import ZArith Lia.
From stdpp Require Import base numbers option list.
From S2P Require Import Prelude Memory.

Local Open Scope Z_scope.
Local Open Scope redis_scope.

(** ** Disjoint or, masks *)

Lemma lor_add x y : Z.land x y = 0 -> Z.lor x y = x + y.
Proof. intros H. pose proof (Z.add_lor_land x y). lia. Qed.

Lemma land_shiftl_disjoint x y n : 0 <= n -> 0 <= x < 2 ^ n -> Z.land x (Z.shiftl y n) = 0.
Proof.
  intros Hn Hx. apply Z.bits_inj'. intros i Hi.
  rewrite Z.land_spec, Z.shiftl_spec, Z.bits_0 by done.
  destruct (decide (n <= i)).
  - rewrite <- (Z.mod_small x (2 ^ n)) by done. rewrite Z.mod_pow2_bits_high by lia. done.
  - rewrite (Z.testbit_neg_r y) by lia. apply andb_false_r.
Qed.

Lemma lor_shiftl x y n :
  0 <= n -> 0 <= x < 2 ^ n -> Z.lor x (Z.shiftl y n) = x + 2 ^ n * y.
Proof.
  intros Hn Hx. rewrite lor_add by by apply land_shiftl_disjoint.
  rewrite Z.shiftl_mul_pow2 by done. lia.
Qed.

Lemma land_255 x : Z.land x 255 = x mod 256.
Proof. apply (Z.land_ones x 8). lia. Qed.
Lemma land_127 x : Z.land x 127 = x mod 128.
Proof. apply (Z.land_ones x 7). lia. Qed.

Lemma shiftr_div x n : 0 <= n -> Z.shiftr x n = x / 2 ^ n.
Proof. apply Z.shiftr_div_pow2. Qed.

(** ** Single bits *)

Lemma land_bit b k : 0 <= k -> negb (Z.land b (Z.shiftl 1 k) =? 0) = Z.testbit b k.
Proof.
  intros Hk. rewrite Z.shiftl_1_l. destruct (Z.testbit b k) eqn:E.
  - apply negb_true_iff, Z.eqb_neq. intros H0. apply (f_equal (fun z => Z.testbit z k)) in H0.
    rewrite Z.land_spec, Z.pow2_bits_true, E, Z.bits_0 in H0 by done. done.
  - apply negb_false_iff, Z.eqb_eq. apply Z.bits_inj'. intros n Hn. rewrite Z.land_spec, Z.bits_0.
    destruct (decide (n = k)) as [->|Hne]; [by rewrite E|]. rewrite Z.pow2_bits_false by done. by rewrite andb_false_r.
Qed.

(** The numbers of [w] bits *)
Lemma bits_bound w b : 0 <= w -> 0 <= b < 2 ^ w <-> 0 <= b /\ forall n, w <= n -> Z.testbit b n = false.
Proof.
  intros Hw. split.
  - intros [H0 H1]. split; [done|]. intros n Hn. rewrite <- (Z.mod_small b (2 ^ w)) by done. by apply Z.mod_pow2_bits_high.
  - intros [H0 H1]. split; [done|]. destruct (decide (b < 2 ^ w)) as [?|Hge]; [done|exfalso]. pose proof (Z.pow_pos_nonneg 2 w).
    assert (w <= Z.log2 b) as Hl by (apply Z.log2_le_pow2; lia). specialize (H1 _ Hl). rewrite Z.bit_log2 in H1 by lia. done.
Qed.

Lemma lxor_bound w a b : 0 <= w -> 0 <= a < 2 ^ w -> 0 <= b < 2 ^ w -> 0 <= Z.lxor a b < 2 ^ w.
Proof.
  intros Hw. rewrite !bits_bound by done. intros [H1 H2] [H3 H4]. split; [by apply Z.lxor_nonneg|]. intros n Hn. by rewrite Z.lxor_spec, H2, H4.
Qed.

(** ** Properties of bytes by enumeration *)

Lemma byte_forall (P : Z -> bool) :
  forallb P (map Z.of_nat (seq 0 256)) = true -> forall b, byte_ok b -> P b = true.
Proof.
  intros HP b Hb. rewrite forallb_forall in HP. apply HP, in_map_iff.
  exists (Z.to_nat b). unfold byte_ok in Hb. split; [lia|]. apply in_seq. lia.
Qed.

(** Proves [lo <= b < hi -> f b = g b] on bytes by evaluation. *)
Ltac byte_cases lo hi f :=
  let b := fresh "b" in let Hb := fresh "Hb" in
  intros b Hb;
  pose proof (byte_forall (fun b => negb ((lo <=? b) && (b <? hi)) || f b)
                ltac:(vm_compute; reflexivity) b ltac:(unfold byte_ok; lia)) as He;
  cbn beta in He;
  rewrite (proj2 (Z.leb_le lo b)), (proj2 (Z.ltb_lt b hi)) in He by lia; simpl in He.

(** ** Little endian sums *)

Lemma le_dec_cons b bs : le_dec (b :: bs) = b + 256 * le_dec bs.
Proof. reflexivity. Qed.
Lemma le_dec_nil : le_dec [] = 0.
Proof. reflexivity. Qed.
Lemma le_enc_S n z : le_enc (S n) z = z mod 256 :: le_enc n (z / 256).
Proof. reflexivity. Qed.
Lemma le_enc_0 z : le_enc 0 z = [].
Proof. reflexivity. Qed.

(** One more byte at the top of a little endian sum. *)
Lemma le_dec_snoc bs b :
  bytes_ok bs -> Z.lor (le_dec bs) (Z.shiftl b (8 * zlen bs)) = le_dec (bs ++ [b]).
Proof.
  intros Hbs. rewrite lor_shiftl by (try apply le_dec_bound; zlia || done).
  induction Hbs as [|c bs Hc Hbs IH]; cbn [app].
  - rewrite le_dec_cons, le_dec_nil. change (2 ^ (8 * zlen (@nil Z))) with 1. lia.
  - rewrite !le_dec_cons, <- IH, zlen_cons, Z.mul_add_distr_l, Z.pow_add_r by zlia. lia.
Qed.

Section Lor.
  Context (b0 b1 b2 b3 b4 b5 b6 b7 : Z).

Lemma lor_le2 : bytes_ok [b0] -> Z.lor b0 (Z.shiftl b1 8) = le_dec [b0; b1].
Proof.
  intros H. rewrite <- (le_dec_snoc [b0] b1 H : _ = le_dec [b0; b1]).
  rewrite le_dec_cons, le_dec_nil. f_equal. lia.
Qed.
Lemma lor_le3 : bytes_ok [b0; b1] ->
  Z.lor (Z.lor b0 (Z.shiftl b1 8)) (Z.shiftl b2 16) = le_dec [b0; b1; b2].
Proof.
  intros H. rewrite lor_le2 by by apply (Forall_take _ 1) in H.
  apply (le_dec_snoc [b0; b1] b2 H).
Qed.
Lemma lor_le4 : bytes_ok [b0; b1; b2] ->
  Z.lor (Z.lor (Z.lor b0 (Z.shiftl b1 8)) (Z.shiftl b2 16)) (Z.shiftl b3 24)
  = le_dec [b0; b1; b2; b3].
Proof.
  intros H. rewrite lor_le3 by by apply (Forall_take _ 2) in H.
  apply (le_dec_snoc [b0; b1; b2] b3 H).
Qed.
Lemma lor_le8 : bytes_ok [b0; b1; b2; b3; b4; b5; b6] ->
  Z.lor (Z.lor (Z.lor (Z.lor (Z.lor (Z.lor (Z.lor b0 (Z.shiftl b1 8)) (Z.shiftl b2 16))
    (Z.shiftl b3 24)) (Z.shiftl b4 32)) (Z.shiftl b5 40)) (Z.shiftl b6 48)) (Z.shiftl b7 56)
  = le_dec [b0; b1; b2; b3; b4; b5; b6; b7].
Proof.
  intros H. rewrite lor_le4 by by apply (Forall_take _ 3) in H.
  pose proof (Forall_take _ 4 _ H) as H4. pose proof (Forall_take _ 5 _ H) as H5.
  pose proof (Forall_take _ 6 _ H) as H6. cbn [take] in H4, H5, H6.
  rewrite <- (le_dec_snoc _ b7 H : _ = le_dec [b0; b1; b2; b3; b4; b5; b6; b7]).
  rewrite <- (le_dec_snoc _ b6 H6 : _ = le_dec [b0; b1; b2; b3; b4; b5; b6]).
  rewrite <- (le_dec_snoc _ b5 H5 : _ = le_dec [b0; b1; b2; b3; b4; b5]).
  rewrite <- (le_dec_snoc _ b4 H4 : _ = le_dec [b0; b1; b2; b3; b4]).
  reflexivity.
Qed.
End Lor.

(** The bytes of an integer as the code extracts them. *)
Lemma u8_land x n : 0 <= n -> u8 (Z.land (Z.shiftr x n) 255) = (x / 2 ^ n) mod 256.
Proof. intros. unfold uN. rewrite land_255, shiftr_div by done. apply Z.mod_mod. done. Qed.
Lemma u8_land0 x : u8 (Z.land x 255) = x mod 256.
Proof. unfold uN. rewrite land_255. apply Z.mod_mod. done. Qed.
Lemma u8_shiftr x n : 0 <= n -> u8 (Z.shiftr x n) = (x / 2 ^ n) mod 256.
Proof. intros. unfold uN. rewrite shiftr_div by done. reflexivity. Qed.

(** Rewrites a byte list written with shifts and masks to [le_enc]. *)
Ltac to_le_enc :=
  repeat rewrite le_enc_S; rewrite ?le_enc_0;
  repeat (rewrite Z.div_div by lia);
  repeat (rewrite u8_land by lia); rewrite ?u8_land0; repeat (rewrite u8_shiftr by lia);
  reflexivity.

Lemma chars_le2 v : [u8 (Z.land v 255); u8 (Z.shiftr v 8)] = le_enc 2 v.
Proof. to_le_enc. Qed.
Lemma chars_le2' v : [u8 (Z.land v 255); u8 (Z.land (Z.shiftr v 8) 255)] = le_enc 2 v.
Proof. to_le_enc. Qed.
Lemma chars_le3 v :
  [u8 (Z.land v 255); u8 (Z.land (Z.shiftr v 8) 255); u8 (Z.shiftr v 16)] = le_enc 3 v.
Proof. to_le_enc. Qed.
Lemma chars_le4 v :
  [u8 (Z.land v 255); u8 (Z.land (Z.shiftr v 8) 255); u8 (Z.land (Z.shiftr v 16) 255);
   u8 (Z.shiftr v 24)] = le_enc 4 v.
Proof. to_le_enc. Qed.
Lemma chars_le4' v :
  [u8 (Z.land v 255); u8 (Z.land (Z.shiftr v 8) 255); u8 (Z.land (Z.shiftr v 16) 255);
   u8 (Z.land (Z.shiftr v 24) 255)] = le_enc 4 v.
Proof. to_le_enc. Qed.
Lemma chars_le8 v :
  [u8 (Z.land v 255); u8 (Z.land (Z.shiftr v 8) 255); u8 (Z.land (Z.shiftr v 16) 255);
   u8 (Z.land (Z.shiftr v 24) 255); u8 (Z.land (Z.shiftr v 32) 255);
   u8 (Z.land (Z.shiftr v 40) 255); u8 (Z.land (Z.shiftr v 48) 255); u8 (Z.shiftr v 56)]
  = le_enc 8 v.
Proof. to_le_enc. Qed.

(** ** Shifted access *)

Lemma load1_shift (A B : bytes) k : 0 <= k -> load1 (A ++ B) (zlen A + k) = load1 B k.
Proof.
  intros Hk. unfold load1. rewrite !decide_True by zlia.
  rewrite lookup_app_r by (unfold zlen; lia). f_equal. unfold zlen. lia.
Qed.
Lemma load1_shift0 (A B : bytes) : load1 (A ++ B) (zlen A) = load1 B 0.
Proof. rewrite <- (Z.add_0_r (zlen A)). by apply load1_shift. Qed.

(** A block of two consecutive parts may be written part by part. *)
Lemma store_app_split m p X Y :
  (let! m' := store m p X in store m' (p + zlen X) Y) = store m p (X ++ Y).
Proof.
  unfold store at 3. case_decide as Hd.
  - destruct (split_range m p (zlen (X ++ Y))) as (A & B & C & -> & HA & HB); [zlia..|].
    destruct (split_range B 0 (zlen X)) as (N & B1 & B2 & -> & HN & HB1); [zlia..|].
    apply zlen_0_inv in HN as ->. cbn [app] in *. rewrite !zlen_app in HB.
    subst p. rewrite <- (app_assoc B1), store_app by zlia. mstep.
    rewrite (app_assoc A X), store_app by zlia.
    unfold zlen at 1. rewrite Nat2Z.id, take_app_length, <- !app_assoc.
    do 4 f_equal. replace (A ++ B1 ++ B2 ++ C) with ((A ++ B1 ++ B2) ++ C) by by rewrite <- !app_assoc.
    replace (zlen A + zlen (X ++ Y)) with (zlen (A ++ B1 ++ B2)) by zlia.
    unfold zlen. rewrite Nat2Z.id, drop_app_length. done.
  - destruct (store m p X) as [m'|] eqn:E; [|done]. mstep. revert E. unfold store.
    case_decide; [|done]. intros [= <-]. rewrite decide_False; [done|]. zlia.
Qed.

(** ** Two's complement and the bytes of an integer *)

Lemma le_enc_uN n z : le_enc n (uN (8 * Z.of_nat n) z) = le_enc n z.
Proof.
  rewrite <- le_dec_enc. pose proof (le_enc_dec (le_enc n z) (le_enc_ok n z)) as He.
  pose proof (zlen_le_enc n z) as Hl. unfold zlen in Hl. apply Nat2Z.inj in Hl.
  by rewrite Hl in He.
Qed.

(** Two's complement as the encoder computes it. *)
Lemma twos w v : 0 < w -> is_s w v -> (if v <? 0 then 2 ^ w + v else v) = uN w v.
Proof.
  unfold is_s, uN. intros Hw Hv.
  assert (2 ^ w = 2 * 2 ^ (w - 1)) by (rewrite <- Z.pow_succ_r by lia; f_equal; lia).
  casif.
  - rewrite <- (Z.mod_add v 1), Z.mod_small; lia.
  - rewrite Z.mod_small; lia.
Qed.

Lemma i64_small v : - 2 ^ 63 <= v < 2 ^ 63 -> i64 v = v.
Proof. intros. by apply sN_small. Qed.

(** Exposes the bytes of [le_enc n v] in the goal, with what is known of them. *)
Ltac le_bytes n v :=
  let Hok := fresh "Hok" in let Hd := fresh "Hd" in
  pose proof (le_enc_ok n v) as Hok; pose proof (le_dec_enc n v) as Hd;
  rewrite !le_enc_S, le_enc_0 in Hok, Hd |- *.

(** Evaluates the byte loads at known offsets, and the tests on known bytes. *)
Ltac loads :=
  repeat match goal with
  | |- context [load1 (?b :: ?L) ?k] =>
      let n := eval vm_compute in (Z.to_nat k) in
      let r := eval cbn [lookup list_lookup] in ((b :: L) !! n) in
      change (load1 (b :: L) k) with r
  end; mstep.
Ltac tags :=
  repeat match goal with
  | |- context [if ?f (Zpos ?c) then _ else _] =>
      let r := eval vm_compute in (f (Zpos c)) in
      change (f (Zpos c)) with r; cbv iota
  end.
