(* ===== verification/Endian.v ===== *)
(** * Byte order conversion (endianconv.c, endianconv.h)

    [memrevNN] swap bytes in place; [intrevNN] do it on a value held in a host
    variable; the [..ifbe] macros do it on big endian hosts only, which is how the
    on-disk formats stay little endian on every host. *)

From Stdlib Require Import ZArith Lia.
From stdpp Require Import base numbers option list.
From S2P Require Import Prelude Memory.

Local Open Scope Z_scope.
Local Open Scope redis_scope.

(** [t = x[i]; x[i] = x[j]; x[j] = t;] *)
Definition swap1 (m : bytes) (i j : Z) : option bytes :=
  let! t := load1 m i in
  let! u := load1 m j in
  let! m := store1 m i u in
  store1 m j t.

Definition memrev16 (m : bytes) (p : Z) : option bytes := swap1 m p (p + 1).

Definition memrev32 (m : bytes) (p : Z) : option bytes :=
  let! m := swap1 m p (p + 3) in
  swap1 m (p + 1) (p + 2).

Definition memrev64 (m : bytes) (p : Z) : option bytes :=
  let! m := swap1 m p (p + 7) in
  let! m := swap1 m (p + 1) (p + 6) in
  let! m := swap1 m (p + 2) (p + 5) in
  swap1 m (p + 3) (p + 4).

(** The C functions reverse the bytes of the variable [v] and read it back. *)
Definition intrev16 `{Host} (v : Z) : option Z :=
  let! b := memrev16 (host_enc 2 v) 0 in Some (host_dec b).
Definition intrev32 `{Host} (v : Z) : option Z :=
  let! b := memrev32 (host_enc 4 v) 0 in Some (host_dec b).
Definition intrev64 `{Host} (v : Z) : option Z :=
  let! b := memrev64 (host_enc 8 v) 0 in Some (host_dec b).

Definition memrev16ifbe `{Host} (m : bytes) (p : Z) : option bytes :=
  if big_endian then memrev16 m p else Some m.
Definition memrev32ifbe `{Host} (m : bytes) (p : Z) : option bytes :=
  if big_endian then memrev32 m p else Some m.
Definition memrev64ifbe `{Host} (m : bytes) (p : Z) : option bytes :=
  if big_endian then memrev64 m p else Some m.
Definition intrev16ifbe `{Host} (v : Z) : option Z :=
  if big_endian then intrev16 v else Some v.
Definition intrev32ifbe `{Host} (v : Z) : option Z :=
  if big_endian then intrev32 v else Some v.
Definition intrev64ifbe `{Host} (v : Z) : option Z :=
  if big_endian then intrev64 v else Some v.

(** ** Lemmas *)

Lemma swap1_app A a M b C i j :
  byte_ok a -> byte_ok b -> i = zlen A -> j = zlen A + 1 + zlen M ->
  swap1 (A ++ a :: M ++ b :: C) i j = Some (A ++ b :: M ++ a :: C).
Proof.
  intros Ha Hb -> ->. unfold swap1.
  pose proof (uN_small 8 a Ha) as Ea. pose proof (uN_small 8 b Hb) as Eb.
  rewrite (load1_app A a (M ++ b :: C) (zlen A)) by done. simpl.
  replace (A ++ a :: M ++ b :: C) with ((A ++ a :: M) ++ b :: C)
    by (by rewrite <- app_assoc).
  rewrite (load1_app (A ++ a :: M) b C) by zlia. simpl. unfold store1. rewrite Ea, Eb.
  replace ((A ++ a :: M) ++ b :: C) with (A ++ [a] ++ M ++ b :: C)
    by (by rewrite <- app_assoc).
  rewrite (store_app A [a] [b]) by done. simpl.
  replace (A ++ b :: M ++ b :: C) with ((A ++ b :: M) ++ [b] ++ C)
    by (by rewrite <- app_assoc).
  rewrite (store_app (A ++ b :: M) [b] [a]) by zlia.
  by rewrite <- app_assoc.
Qed.

(** The three routines reverse the 2, 4 or 8 bytes they are given. *)
Lemma memrev16_app A B C p :
  bytes_ok B -> zlen B = 2 -> p = zlen A ->
  memrev16 (A ++ B ++ C) p = Some (A ++ rev B ++ C).
Proof.
  intros HB HL ->.
  destruct B as [|a [|b [|]]]; try zlia.
  unfold bytes_ok in HB. decompose_Forall_hyps.
  apply (swap1_app A a [] b C); (done || zlia).
Qed.

Lemma memrev32_app A B C p :
  bytes_ok B -> zlen B = 4 -> p = zlen A ->
  memrev32 (A ++ B ++ C) p = Some (A ++ rev B ++ C).
Proof.
  intros HB HL ->.
  destruct B as [|a [|b [|c [|d [|]]]]]; try zlia.
  unfold bytes_ok in HB. decompose_Forall_hyps.
  unfold memrev32. simpl.
  rewrite (swap1_app A a [b; c] d C) by (done || zlia). simpl.
  pose proof (swap1_app (A ++ [d]) b [] c (a :: C) (zlen A + 1) (zlen A + 2)) as E.
  rewrite <- !app_assoc in E. apply E; (done || zlia).
Qed.

Lemma memrev64_app A B C p :
  bytes_ok B -> zlen B = 8 -> p = zlen A ->
  memrev64 (A ++ B ++ C) p = Some (A ++ rev B ++ C).
Proof.
  intros HB HL ->.
  destruct B as [|a [|b [|c [|d [|e [|f [|g [|h [|]]]]]]]]]; try zlia.
  unfold bytes_ok in HB. decompose_Forall_hyps.
  unfold memrev64. simpl.
  rewrite (swap1_app A a [b; c; d; e; f; g] h C) by (done || zlia). simpl.
  pose proof (swap1_app (A ++ [h]) b [c; d; e; f] g (a :: C) (zlen A + 1) (zlen A + 6)) as E1.
  rewrite <- !app_assoc in E1. simpl in E1. rewrite E1 by (done || zlia). simpl.
  pose proof (swap1_app (A ++ [h; g]) c [d; e] f (b :: a :: C) (zlen A + 2) (zlen A + 5)) as E2.
  rewrite <- !app_assoc in E2. simpl in E2. rewrite E2 by (done || zlia). simpl.
  pose proof (swap1_app (A ++ [h; g; f]) d [] e (c :: b :: a :: C) (zlen A + 3) (zlen A + 4)) as E3.
  rewrite <- !app_assoc in E3. apply E3; (done || zlia).
Qed.

(** A value stored in host order and then passed to [memrevNNifbe] is little
    endian in memory, whatever the host. *)
Lemma memrev16ifbe_host `{Host} A v C p :
  p = zlen A -> memrev16ifbe (A ++ host_enc 2 v ++ C) p = Some (A ++ le_enc 2 v ++ C).
Proof.
  intros ->. unfold memrev16ifbe, host_enc. destruct big_endian; [|done].
  rewrite memrev16_app; [by rewrite rev_involutive| |zlia|done].
  apply Forall_rev, le_enc_ok.
Qed.
Lemma memrev32ifbe_host `{Host} A v C p :
  p = zlen A -> memrev32ifbe (A ++ host_enc 4 v ++ C) p = Some (A ++ le_enc 4 v ++ C).
Proof.
  intros ->. unfold memrev32ifbe, host_enc. destruct big_endian; [|done].
  rewrite memrev32_app; [by rewrite rev_involutive| |zlia|done].
  apply Forall_rev, le_enc_ok.
Qed.
Lemma memrev64ifbe_host `{Host} A v C p :
  p = zlen A -> memrev64ifbe (A ++ host_enc 8 v ++ C) p = Some (A ++ le_enc 8 v ++ C).
Proof.
  intros ->. unfold memrev64ifbe, host_enc. destruct big_endian; [|done].
  rewrite memrev64_app; [by rewrite rev_involutive| |zlia|done].
  apply Forall_rev, le_enc_ok.
Qed.

(** Conversely a little endian field passed to [memrevNNifbe] reads, in host
    order, as the value it encodes. *)
Lemma memrev16ifbe_dec `{Host} B :
  bytes_ok B -> zlen B = 2 ->
  exists B', memrev16ifbe B 0 = Some B' /\ host_dec B' = le_dec B.
Proof.
  intros HB HL. unfold memrev16ifbe, host_dec. destruct big_endian; [|by exists B].
  exists (rev B). split; [|by rewrite rev_involutive].
  pose proof (memrev16_app [] B [] 0) as E. rewrite !app_nil_r in E. by apply E.
Qed.
Lemma memrev32ifbe_dec `{Host} B :
  bytes_ok B -> zlen B = 4 ->
  exists B', memrev32ifbe B 0 = Some B' /\ host_dec B' = le_dec B.
Proof.
  intros HB HL. unfold memrev32ifbe, host_dec. destruct big_endian; [|by exists B].
  exists (rev B). split; [|by rewrite rev_involutive].
  pose proof (memrev32_app [] B [] 0) as E. rewrite !app_nil_r in E. by apply E.
Qed.
Lemma memrev64ifbe_dec `{Host} B :
  bytes_ok B -> zlen B = 8 ->
  exists B', memrev64ifbe B 0 = Some B' /\ host_dec B' = le_dec B.
Proof.
  intros HB HL. unfold memrev64ifbe, host_dec. destruct big_endian; [|by exists B].
  exists (rev B). split; [|by rewrite rev_involutive].
  pose proof (memrev64_app [] B [] 0) as E. rewrite !app_nil_r in E. by apply E.
Qed.

Lemma host_enc_ok `{Host} n z : bytes_ok (host_enc n z).
Proof.
  unfold host_enc. destruct big_endian; [apply Forall_rev|]; apply le_enc_ok.
Qed.

(** [intrev32] swaps the four bytes; it is an involution on [uint32_t]. *)
Definition bswap32 (v : Z) : Z := le_dec (rev (le_enc 4 v)).

Lemma intrev32_bswap `{Host} v : intrev32 v = Some (bswap32 v).
Proof.
  unfold intrev32. pose proof (memrev32_app [] (host_enc 4 v) [] 0) as E.
  rewrite !app_nil_r in E. cbn [app] in E. rewrite E; [|apply host_enc_ok|zlia|done].
  simpl. f_equal. unfold host_dec, host_enc, bswap32.
  destruct big_endian; by rewrite ?rev_involutive.
Qed.

Lemma bswap32_bound v : is_u 32 (bswap32 v).
Proof.
  unfold bswap32, is_u. pose proof (le_dec_bound (rev (le_enc 4 v))) as B.
  autorewrite with zlen in B. apply B, Forall_rev, le_enc_ok.
Qed.

Lemma bswap32_involutive v : is_u 32 v -> bswap32 (bswap32 v) = v.
Proof.
  intros Hv. unfold bswap32 at 1.
  assert (le_enc 4 (bswap32 v) = rev (le_enc 4 v)) as ->.
  { unfold bswap32. apply (le_enc_dec (rev (le_enc 4 v))), Forall_rev, le_enc_ok. }
  rewrite rev_involutive, le_dec_enc. by apply uN_small.
Qed.

(** The representation of a [uint32_t] field on the host: what
    [intrev32ifbe(v)] yields, and reading it back. *)
Definition rep32 `{Host} (v : Z) : Z := if big_endian then bswap32 v else v.

Lemma intrev32ifbe_rep `{Host} v : intrev32ifbe v = Some (rep32 v).
Proof. unfold intrev32ifbe, rep32. destruct big_endian; [apply intrev32_bswap|done]. Qed.
Lemma intrev32ifbe_unrep `{Host} v : is_u 32 v -> intrev32ifbe (rep32 v) = Some v.
Proof.
  intros. rewrite intrev32ifbe_rep. unfold rep32.
  destruct big_endian; [by rewrite bswap32_involutive|done].
Qed.
Lemma rep32_bound `{Host} v : is_u 32 v -> is_u 32 (rep32 v).
Proof. unfold rep32. destruct big_endian; [|done]. intros. apply bswap32_bound. Qed.

(** The same for 16 bit fields *)
Definition bswap16 (v : Z) : Z := le_dec (rev (le_enc 2 v)).

Lemma intrev16_bswap `{Host} v : intrev16 v = Some (bswap16 v).
Proof.
  unfold intrev16. pose proof (memrev16_app [] (host_enc 2 v) [] 0) as E.
  rewrite !app_nil_r in E. cbn [app] in E. rewrite E; [|apply host_enc_ok|zlia|done].
  simpl. f_equal. unfold host_dec, host_enc, bswap16.
  destruct big_endian; by rewrite ?rev_involutive.
Qed.

Lemma le_enc_bswap16 v : le_enc 2 (bswap16 v) = rev (le_enc 2 v).
Proof. unfold bswap16. apply (le_enc_dec (rev (le_enc 2 v))), Forall_rev, le_enc_ok. Qed.
Lemma le_enc_bswap32 v : le_enc 4 (bswap32 v) = rev (le_enc 4 v).
Proof. unfold bswap32. apply (le_enc_dec (rev (le_enc 4 v))), Forall_rev, le_enc_ok. Qed.

Definition rep16 `{Host} (v : Z) : Z := if big_endian then bswap16 v else v.

Lemma intrev16ifbe_rep `{Host} v : intrev16ifbe v = Some (rep16 v).
Proof. unfold intrev16ifbe, rep16. destruct big_endian; [apply intrev16_bswap|done]. Qed.
Lemma intrev16ifbe_unrep `{Host} v : is_u 16 v -> intrev16ifbe (rep16 v) = Some v.
Proof.
  intros Hv. rewrite intrev16ifbe_rep. unfold rep16. destruct big_endian; [|done].
  unfold bswap16 at 1. rewrite le_enc_bswap16, rev_involutive, le_dec_enc. by rewrite uN_small.
Qed.

(** A field holds the little endian bytes of its value on every host. *)
Lemma host_enc_rep32 `{Host} v : host_enc 4 (rep32 v) = le_enc 4 v.
Proof. unfold host_enc, rep32. destruct big_endian; [|done]. by rewrite le_enc_bswap32, rev_involutive. Qed.
Lemma host_enc_rep16 `{Host} v : host_enc 2 (rep16 v) = le_enc 2 v.
Proof. unfold host_enc, rep16. destruct big_endian; [|done]. by rewrite le_enc_bswap16, rev_involutive. Qed.
Lemma host_dec_le32 `{Host} v : is_u 32 v -> host_dec (le_enc 4 v) = rep32 v.
Proof. intros. unfold host_dec, rep32. destruct big_endian; [done|]. rewrite le_dec_enc. by apply uN_small. Qed.
Lemma host_dec_le16 `{Host} v : is_u 16 v -> host_dec (le_enc 2 v) = rep16 v.
Proof. intros. unfold host_dec, rep16. destruct big_endian; [done|]. rewrite le_dec_enc. by apply uN_small. Qed.
