(* ===== verification/Intset.v ===== *)
(** * Integer sets (intset.c, intset.h)

    A sorted array of distinct integers in one heap block, all elements of one
    width (2, 4 or 8 bytes), little endian whatever the host.  The definitions
    follow the C functions; [None] is an access outside the block. *)

From Stdlib Require Import ZArith Lia.
From stdpp Require Import base numbers option list.
From S2P Require Import Prelude Memory Endian.

Local Open Scope Z_scope.
Local Open Scope redis_scope.

Definition INTSET_ENC_INT16 : Z := 2.
Definition INTSET_ENC_INT32 : Z := 4.
Definition INTSET_ENC_INT64 : Z := 8.

(** [struct intset]: the two header fields as the host holds them. *)
Record intset := Intset {
  iencoding : Z;
  ilength : Z;
  icontents : bytes;
}.

Definition set_contents (iset : intset) (c : bytes) : intset :=
  Intset (iencoding iset) (ilength iset) c.

Definition _intsetValueEncoding (v : Z) : Z :=
  if (v <? INT32_MIN) || (v >? INT32_MAX) then INTSET_ENC_INT64
  else if (v <? INT16_MIN) || (v >? INT16_MAX) then INTSET_ENC_INT32
  else INTSET_ENC_INT16.

Section Operations.
  Context `{Host, Alloc}.

Definition _intsetGetEncoded (iset : intset) (pos enc : Z) : option Z :=
  if enc =? INTSET_ENC_INT64 then
    let! v64 := load (icontents iset) (pos * 8) 8 in
    let! v64 := memrev64ifbe v64 0 in
    Some (i64 (host_dec v64))
  else if enc =? INTSET_ENC_INT32 then
    let! v32 := load (icontents iset) (pos * 4) 4 in
    let! v32 := memrev32ifbe v32 0 in
    Some (i32 (host_dec v32))
  else
    let! v16 := load (icontents iset) (pos * 2) 2 in
    let! v16 := memrev16ifbe v16 0 in
    Some (i16 (host_dec v16)).

Definition _intsetGet (iset : intset) (pos : Z) : option Z :=
  let! enc := intrev32ifbe (iencoding iset) in
  _intsetGetEncoded iset pos (u8 enc).

Definition _intsetSet (iset : intset) (pos value : Z) : option intset :=
  let! enc := intrev32ifbe (iencoding iset) in
  if enc =? INTSET_ENC_INT64 then
    let! c := store (icontents iset) (pos * 8) (host_enc 8 value) in
    let! c := memrev64ifbe c (pos * 8) in
    Some (set_contents iset c)
  else if enc =? INTSET_ENC_INT32 then
    let! c := store (icontents iset) (pos * 4) (host_enc 4 value) in
    let! c := memrev32ifbe c (pos * 4) in
    Some (set_contents iset c)
  else
    let! c := store (icontents iset) (pos * 2) (host_enc 2 value) in
    let! c := memrev16ifbe c (pos * 2) in
    Some (set_contents iset c).

Definition intsetNew : option intset :=
  let! enc := intrev32ifbe INTSET_ENC_INT16 in
  Some (Intset enc 0 []).

(** The byte size is computed in [uint32_t], where it may wrap. *)
Definition intsetResize (iset : intset) (len : Z) : option intset :=
  let! enc := intrev32ifbe (iencoding iset) in
  let size := u32 (len * enc) in
  Some (set_contents iset (realloc (icontents iset) size)).

(** The binary search loop of [intsetSearch]: state [min], [max], [mid], [cur]. *)
Fixpoint intsetSearch_loop (fuel : nat) (iset : intset) (value min max mid cur : Z)
    : option (Z * Z * Z) :=
  match fuel with
  | O => None
  | S fuel =>
      if max >=? min then
        let mid := i32 (Z.shiftr (u32 (u32 min + u32 max)) 1) in
        let! cur := _intsetGet iset mid in
        if value >? cur then intsetSearch_loop fuel iset value (i32 (mid + 1)) max mid cur
        else if value <? cur then intsetSearch_loop fuel iset value min (i32 (mid - 1)) mid cur
        else Some (min, mid, cur)
      else Some (min, mid, cur)
  end.

(** Returns the C result and the value left in [*pos]. *)
Definition intsetSearch (iset : intset) (value : Z) : option (bool * Z) :=
  let! len := intrev32ifbe (ilength iset) in
  let min := 0 in
  let max := i32 (len - 1) in
  if len =? 0 then Some (false, 0) else
  let! last := _intsetGet iset max in
  if value >? last then Some (false, len) else
  let! first := _intsetGet iset 0 in
  if value <? first then Some (false, 0) else
  let! (min, mid, cur) := intsetSearch_loop (S (Z.to_nat len)) iset value min max (-1) (-1) in
  if value =? cur then Some (true, u32 mid) else Some (false, u32 min).

(** [while(length--) _intsetSet(is,length+prepend,_intsetGetEncoded(is,length,curenc));] *)
Fixpoint upgrade_loop (n : nat) (iset : intset) (prepend curenc : Z) : option intset :=
  match n with
  | O => Some iset
  | S n =>
      let! v := _intsetGetEncoded iset (Z.of_nat n) curenc in
      let! iset := _intsetSet iset (i32 (Z.of_nat n + prepend)) v in
      upgrade_loop n iset prepend curenc
  end.

Definition intsetUpgradeAndAdd (iset : intset) (value : Z) : option intset :=
  let! enc := intrev32ifbe (iencoding iset) in
  let curenc := u8 enc in
  let newenc := _intsetValueEncoding value in
  let! len := intrev32ifbe (ilength iset) in
  let n := i32 len in
  let prepend := if value <? 0 then 1 else 0 in
  let! newenc' := intrev32ifbe newenc in
  let! iset := intsetResize (Intset newenc' (ilength iset) (icontents iset)) (u32 (len + 1)) in
  if n <? 0 then None else (* the countdown would start below zero *)
  let! iset := upgrade_loop (Z.to_nat n) iset prepend curenc in
  let! iset := (if prepend =? 1 then _intsetSet iset 0 value
              else let! len := intrev32ifbe (ilength iset) in _intsetSet iset (i32 len) value) in
  let! len := intrev32ifbe (ilength iset) in
  let! len' := intrev32ifbe (u32 (len + 1)) in
  Some (Intset (iencoding iset) len' (icontents iset)).

Definition intsetMoveTail (iset : intset) (from to : Z) : option intset :=
  let! len := intrev32ifbe (ilength iset) in
  let! enc := intrev32ifbe (iencoding iset) in
  let bytes := u32 (len - from) in
  let! c :=
    (if enc =? INTSET_ENC_INT64 then
       memmove (icontents iset) (to * 8) (from * 8) (u32 (bytes * 8))
     else if enc =? INTSET_ENC_INT32 then
       memmove (icontents iset) (to * 4) (from * 4) (u32 (bytes * 4))
     else
       memmove (icontents iset) (to * 2) (from * 2) (u32 (bytes * 2))) in
  Some (set_contents iset c).

(** Returns the set and the value left in [*success]. *)
Definition intsetAdd (iset : intset) (value : Z) : option (intset * bool) :=
  let valenc := _intsetValueEncoding value in
  let! enc := intrev32ifbe (iencoding iset) in
  if valenc >? enc then
    let! iset := intsetUpgradeAndAdd iset value in
    Some (iset, true)
  else
    let! (found, pos) := intsetSearch iset value in
    if (found : bool) then Some (iset, false) else
    let! len := intrev32ifbe (ilength iset) in
    let! iset := intsetResize iset (u32 (len + 1)) in
    let! len := intrev32ifbe (ilength iset) in
    let! iset := (if pos <? len then intsetMoveTail iset pos (u32 (pos + 1)) else Some iset) in
    let! iset := _intsetSet iset (i32 pos) value in
    let! len := intrev32ifbe (ilength iset) in
    let! len' := intrev32ifbe (u32 (len + 1)) in
    Some (Intset (iencoding iset) len' (icontents iset), true).

Definition intsetRemove (iset : intset) (value : Z) : option (intset * bool) :=
  let valenc := _intsetValueEncoding value in
  let! enc := intrev32ifbe (iencoding iset) in
  if negb (valenc <=? enc) then Some (iset, false) else
  let! (found, pos) := intsetSearch iset value in
  if negb found then Some (iset, false) else
  let! len := intrev32ifbe (ilength iset) in
  let! iset := (if pos <? u32 (len - 1) then intsetMoveTail iset (u32 (pos + 1)) pos else Some iset) in
  let! iset := intsetResize iset (u32 (len - 1)) in
  let! len' := intrev32ifbe (u32 (len - 1)) in
  Some (Intset (iencoding iset) len' (icontents iset), true).

Definition intsetFind (iset : intset) (value : Z) : option bool :=
  let valenc := _intsetValueEncoding value in
  let! enc := intrev32ifbe (iencoding iset) in
  if negb (valenc <=? enc) then Some false else
  let! (found, _) := intsetSearch iset value in Some found.

(** [rnd] is the value [rand()] returns; [%] by a zero length is undefined. *)
Definition intsetRandom (iset : intset) (rnd : Z) : option Z :=
  let! len := intrev32ifbe (ilength iset) in
  if len =? 0 then None else _intsetGet iset (i32 (u32 rnd mod len)).

(** [Some None]: the position is out of range and the function returns 0. *)
Definition intsetGet (iset : intset) (pos : Z) : option (option Z) :=
  let! len := intrev32ifbe (ilength iset) in
  if pos <? len then let! v := _intsetGet iset (i32 pos) in Some (Some v)
  else Some None.

Definition intsetLen (iset : intset) : option Z := intrev32ifbe (ilength iset).

(** [sizeof(intset)] is 8; the product is computed in [uint32_t]. *)
Definition intsetBlobLen (iset : intset) : option Z :=
  let! len := intrev32ifbe (ilength iset) in
  let! enc := intrev32ifbe (iencoding iset) in
  Some (u64 (8 + u32 (len * enc))).

End Operations.

(** ** Smoke tests, on both kinds of host *)

#[local] Instance test_alloc : Alloc := fun i => i * 7 + 165.

Definition run_adds `{Host} (vs : list Z) : option intset :=
  fold_left (fun r v => let! iset := r in let! (iset, _) := intsetAdd iset v in Some iset) vs intsetNew.

Example intset_le :
  @run_adds false [5; 1; 300; -3; 5; 70000] =
  Some (Intset 4 5 [253;255;255;255; 1;0;0;0; 5;0;0;0; 44;1;0;0; 112;17;1;0]).
Proof. vm_compute. reflexivity. Qed.

Example intset_be :
  option_map icontents (@run_adds true [5; 1; 300; -3; 5; 70000]) =
  option_map icontents (@run_adds false [5; 1; 300; -3; 5; 70000]).
Proof. vm_compute. reflexivity. Qed.
