(* ===== verification/IntsetFacts.v ===== *)
(** * Correctness of the integer sets

    A well-formed intset represents a finite set of 64 bit integers; every
    operation of intset.c implements the set operation, stays inside its block and
    leaves the same bytes on hosts of either byte order. *)

From Stdlib Require Import ZArith Lia.
From stdpp Require Import base numbers option list gmap sorting.
From S2P Require Import Prelude Memory Endian Intset.

Local Open Scope Z_scope.
Local Open Scope redis_scope.

(** ** Representation *)

Definition enc_ok (enc : Z) : Prop := enc = 2 \/ enc = 4 \/ enc = 8.

(** The block of a list of elements of width [enc]. *)
Definition flat (enc : Z) (vs : list Z) : bytes := concat (map (le_enc (Z.to_nat enc)) vs).

Record repr `{Host} (iset : intset) (enc : Z) (vs : list Z) : Prop := Repr {
  repr_enc : iencoding iset = rep32 enc;
  repr_enc_ok : enc_ok enc;
  repr_len : ilength iset = rep32 (zlen vs);
  repr_contents : icontents iset = flat enc vs;
  repr_fits : Forall (is_s (8 * enc)) vs;
  repr_bound : zlen vs < 2 ^ 29;
}.

(** Well-formed: elements strictly increasing. *)
Definition wf `{Host} (iset : intset) (vs : list Z) : Prop :=
  exists enc, repr iset enc vs /\ StronglySorted Z.lt vs.

(** The abstract set. *)
Definition intset_rep `{Host} (iset : intset) (X : gset Z) : Prop :=
  exists vs, wf iset vs /\ list_to_set vs = X.

(** ** Blocks *)

Lemma flat_app enc u v : flat enc (u ++ v) = flat enc u ++ flat enc v.
Proof. unfold flat. by rewrite map_app, concat_app. Qed.
Lemma flat_cons enc x v : flat enc (x :: v) = le_enc (Z.to_nat enc) x ++ flat enc v.
Proof. done. Qed.
Lemma zlen_flat enc vs : enc_ok enc -> zlen (flat enc vs) = zlen vs * enc.
Proof.
  intros He. induction vs as [|x vs IH]; [done|].
  rewrite flat_cons, zlen_app, zlen_cons, IH, zlen_le_enc.
  destruct He as [-> | [-> | ->]]; lia.
Qed.
Lemma flat_ok enc vs : bytes_ok (flat enc vs).
Proof.
  induction vs as [|x vs IH]; [constructor|].
  apply Forall_app. split; [apply le_enc_ok|apply IH].
Qed.

Lemma enc_ok_u32 enc : enc_ok enc -> is_u 32 enc.
Proof. unfold is_u. intros [-> | [-> | ->]]; lia. Qed.
Lemma len_u32 `{Host} iset enc vs : repr iset enc vs -> is_u 32 (zlen vs).
Proof. intros R. pose proof (repr_bound _ _ _ R). unfold is_u. zlia. Qed.

#[export] Hint Resolve enc_ok_u32 repr_enc_ok len_u32 : redis.

Lemma valueEncoding_ok v : enc_ok (_intsetValueEncoding v).
Proof. unfold _intsetValueEncoding, enc_ok. repeat casif; auto. Qed.

(** [_intsetValueEncoding] is the least width the value fits. *)
Lemma valueEncoding_spec v enc :
  is_s 64 v -> enc_ok enc -> is_s (8 * enc) v <-> _intsetValueEncoding v <= enc.
Proof.
  unfold _intsetValueEncoding, is_s, INTSET_ENC_INT64, INTSET_ENC_INT32, INTSET_ENC_INT16,
    INT32_MIN, INT32_MAX, INT16_MIN, INT16_MAX.
  intros Hv [-> | [-> | ->]]; simpl in *; repeat casif;
    repeat match goal with H : (_ || _)%bool = _ |- _ =>
      apply orb_true_iff in H || apply orb_false_iff in H end;
    destruct_or?; destruct_and?; boolsimp; lia.
Qed.

Section Proofs.
  Context `{Host, Alloc}.
  Implicit Types iset : intset.

(** ** Element access *)

Lemma getEncoded_app iset enc A v C pos :
  enc_ok enc -> icontents iset = A ++ le_enc (Z.to_nat enc) v ++ C ->
  pos * enc = zlen A -> is_s (8 * enc) v ->
  _intsetGetEncoded iset pos enc = Some v.
Proof.
  intros He Hc Hp Hv. unfold _intsetGetEncoded, INTSET_ENC_INT64, INTSET_ENC_INT32.
  rewrite Hc. destruct He as [-> | [-> | ->]]; cbn [Z.eqb Pos.eqb].
  - rewrite (load_app A (le_enc 2 v) C) by zlia. mstep.
    destruct (memrev16ifbe_dec (le_enc 2 v)) as (B' & -> & Hd);
      [apply le_enc_ok|done|]. mstep.
    rewrite Hd, le_dec_enc. by rewrite (sN_uN_id 16).
  - rewrite (load_app A (le_enc 4 v) C) by zlia. mstep.
    destruct (memrev32ifbe_dec (le_enc 4 v)) as (B' & -> & Hd);
      [apply le_enc_ok|done|]. mstep.
    rewrite Hd, le_dec_enc. by rewrite (sN_uN_id 32).
  - rewrite (load_app A (le_enc 8 v) C) by zlia. mstep.
    destruct (memrev64ifbe_dec (le_enc 8 v)) as (B' & -> & Hd);
      [apply le_enc_ok|done|]. mstep.
    rewrite Hd, le_dec_enc. by rewrite (sN_uN_id 64).
Qed.

Lemma intsetSet_app iset enc A B C v pos :
  iencoding iset = rep32 enc -> enc_ok enc ->
  icontents iset = A ++ B ++ C -> zlen B = enc -> pos * enc = zlen A ->
  _intsetSet iset pos v = Some (set_contents iset (A ++ le_enc (Z.to_nat enc) v ++ C)).
Proof.
  intros Hi He Hc HB Hp. unfold _intsetSet, INTSET_ENC_INT64, INTSET_ENC_INT32.
  rewrite Hi, intrev32ifbe_unrep by auto with redis.
  mstep. rewrite Hc.
  destruct He as [-> | [-> | ->]]; cbn [Z.eqb Pos.eqb].
  - rewrite (store_app A B) by zlia. mstep. by rewrite memrev16ifbe_host.
  - rewrite (store_app A B) by zlia. mstep. by rewrite memrev32ifbe_host.
  - rewrite (store_app A B) by zlia. mstep. by rewrite memrev64ifbe_host.
Qed.

Lemma intsetGet_app iset enc A v B :
  repr iset enc (A ++ v :: B) -> _intsetGet iset (zlen A) = Some v.
Proof.
  intros [Hi He Hl Hc Hf Hb]. unfold _intsetGet.
  rewrite Hi, intrev32ifbe_unrep by auto with redis. mstep.
  rewrite (uN_small 8 enc) by (destruct He as [-> | [-> | ->]]; lia).
  apply Forall_app in Hf as [_ Hf]. apply Forall_cons in Hf as [Hv _].
  eapply (getEncoded_app _ _ (flat enc A) v (flat enc B)); try done.
  - by rewrite Hc, flat_app, flat_cons.
  - by rewrite zlen_flat.
Qed.

Lemma intsetGet_lookup iset enc vs (i : nat) v pos :
  repr iset enc vs -> vs !! i = Some v -> pos = Z.of_nat i -> _intsetGet iset pos = Some v.
Proof.
  intros R Hi ->. apply list_elem_of_split_length in Hi as (A & B & -> & ->).
  by eapply intsetGet_app.
Qed.

(** ** Search *)

Lemma sorted_lookup_lt (vs : list Z) (i j : nat) x y :
  StronglySorted Z.lt vs -> vs !! i = Some x -> vs !! j = Some y -> (i < j)%nat -> x < y.
Proof.
  intros HS. revert i j. induction HS as [|a vs HS IH HF]; intros i j Hi Hj Hij; [done|].
  destruct j as [|j]; [lia|]. destruct i as [|i]; simpl in *.
  - simplify_eq. rewrite Forall_lookup in HF. eauto.
  - apply (IH i j); auto. lia.
Qed.

(** The elements below index [m] are smaller than [value], those from [m] on are
    greater. *)
Definition below (vs : list Z) (value m : Z) : Prop :=
  forall (i : nat) x, vs !! i = Some x -> Z.of_nat i < m -> x < value.
Definition above (vs : list Z) (value m : Z) : Prop :=
  forall (i : nat) x, vs !! i = Some x -> m <= Z.of_nat i -> value < x.

Lemma mid_spec min max :
  0 <= min -> min <= max -> max < 2 ^ 29 ->
  i32 (Z.shiftr (u32 (u32 min + u32 max)) 1) = (min + max) / 2.
Proof.
  intros. rewrite Z.shiftr_div_pow2 by lia.
  rewrite (uN_small 32 min), (uN_small 32 max), uN_small by lia.
  change (2 ^ 1) with 2. apply sN_small; [lia|]. unfold is_s.
  split; [|apply Z.div_lt_upper_bound; lia].
  pose proof (Z.div_pos (min + max) 2). lia.
Qed.

Lemma search_loop_spec fuel iset enc vs value min max mid cur :
  repr iset enc vs -> StronglySorted Z.lt vs ->
  0 <= min -> min <= max + 1 -> max < zlen vs -> max - min + 1 < Z.of_nat fuel ->
  below vs value min -> above vs value (max + 1) -> (min <= max \/ cur <> value) ->
  exists min' mid' cur',
    intsetSearch_loop fuel iset value min max mid cur = Some (min', mid', cur') /\
    (cur' = value /\ 0 <= mid' /\ vs !! Z.to_nat mid' = Some value \/
     cur' <> value /\ 0 <= min' <= zlen vs /\ below vs value min' /\ above vs value min').
Proof.
  intros R HS. pose proof (repr_bound _ _ _ R) as Hb.
  revert min max mid cur. induction fuel as [|fuel IH];
    intros min max mid cur Hmin Hmm Hmax Hfuel HB HA Hcur; [lia|].
  cbn [intsetSearch_loop]. casif; last first.
  { do 3 eexists. split; [done|]. right. replace (max + 1) with min in HA by lia.
    split_and!; auto; lia. }
  rewrite mid_spec by lia.
  assert (min <= (min + max) / 2 <= max) as Hm.
  { split; [apply Z.div_le_lower_bound|apply Z.div_le_upper_bound]; lia. }
  set (m := (min + max) / 2) in *. clearbody m.
  destruct (lookup_lt_is_Some_2 vs (Z.to_nat m)) as [x Hx]; [unfold zlen in *; lia|].
  rewrite (intsetGet_lookup _ _ _ _ x m R Hx) by lia. mstep.
  repeat casif.
  - rewrite (sN_small 32) by (unfold is_s; lia). apply IH; try lia; try done.
    intros i y Hy Hi. destruct (decide (i = Z.to_nat m)) as [->|Hne]; [by simplify_eq|].
    pose proof (sorted_lookup_lt vs i (Z.to_nat m) y x HS Hy Hx). lia.
  - rewrite (sN_small 32) by (unfold is_s; lia). apply IH; try lia; try done.
    intros i y Hy Hi. destruct (decide (i = Z.to_nat m)) as [->|Hne]; [by simplify_eq|].
    pose proof (sorted_lookup_lt vs (Z.to_nat m) i x y HS Hx Hy). lia.
  - do 3 eexists. split; [done|]. left. assert (x = value) as -> by lia.
    split_and!; [done|lia|done].
Qed.

(** What a search reports: the split of the elements at the returned position. *)
Definition search_result (vs : list Z) (value : Z) (r : bool * Z) : Prop :=
  exists A B, snd r = zlen A /\
    (fst r = true /\ vs = A ++ value :: B \/
     fst r = false /\ vs = A ++ B /\ Forall (fun x => x < value) A /\ Forall (Z.lt value) B).

Lemma split_below_above vs value m :
  0 <= m <= zlen vs -> below vs value m -> above vs value m ->
  search_result vs value (false, m).
Proof.
  intros Hm HB HA. exists (take (Z.to_nat m) vs), (drop (Z.to_nat m) vs).
  split; [simpl; zlia|]. right. rewrite take_drop. split_and!; [done..| |].
  - apply Forall_lookup. intros i x Hx. apply lookup_take_Some in Hx as [Hx Hi].
    apply (HB i x Hx). lia.
  - apply Forall_lookup. intros i x Hx. rewrite lookup_drop in Hx.
    apply (HA _ x Hx). lia.
Qed.

Lemma intsetSearch_spec iset enc vs value :
  repr iset enc vs -> StronglySorted Z.lt vs ->
  exists r, intsetSearch iset value = Some r /\ search_result vs value r.
Proof.
  intros R HS. pose proof (repr_bound _ _ _ R) as Hb. unfold intsetSearch.
  rewrite (repr_len _ _ _ R), intrev32ifbe_unrep by eauto with redis. mstep. casif.
  { eexists. split; [done|]. exists [], []. apply zlen_0_inv in E as ->.
    split; [done|]. right. auto. }
  zlen_pos. rewrite (sN_small 32) by (unfold is_s; lia).
  destruct (lookup_lt_is_Some_2 vs (Z.to_nat (zlen vs - 1))) as [l Hl]; [unfold zlen in *; lia|].
  rewrite (intsetGet_lookup _ _ _ _ l (zlen vs - 1) R Hl) by lia. mstep. casif.
  { eexists. split; [done|]. apply split_below_above; [lia| |].
    - intros i x Hx Hi. destruct (decide (i = Z.to_nat (zlen vs - 1))) as [->|]; [by simplify_eq|].
      pose proof (sorted_lookup_lt vs i _ x l HS Hx Hl). lia.
    - intros i x Hx Hi. apply lookup_lt_Some in Hx. unfold zlen in *. lia. }
  destruct (lookup_lt_is_Some_2 vs 0) as [f Hf]; [unfold zlen in *; lia|].
  rewrite (intsetGet_lookup _ _ _ 0 f 0 R Hf) by lia. mstep. casif.
  { eexists. split; [done|]. apply split_below_above; [lia| |].
    - intros i x Hx Hi. lia.
    - intros i x Hx Hi. destruct i; [by simplify_eq|].
      pose proof (sorted_lookup_lt vs 0 _ f x HS Hf Hx). lia. }
  destruct (search_loop_spec (S (Z.to_nat (zlen vs))) iset enc vs value 0 (zlen vs - 1) (-1) (-1))
    as (mn & md & cur & -> & Hres); try done; try lia.
  { intros i x Hx Hi. lia. }
  { intros i x Hx Hi. apply lookup_lt_Some in Hx. unfold zlen in *. lia. }
  mstep. destruct Hres as [(-> & Hmd & Hv)|(Hne & Hmn & HB & HA)].
  - rewrite Z.eqb_refl. eexists. split; [done|].
    pose proof (lookup_lt_Some _ _ _ Hv). unfold zlen in *.
    rewrite uN_small by lia.
    apply list_elem_of_split_length in Hv as (A & B & -> & HlA).
    exists A, B. unfold zlen. simpl. split; [lia|]. auto.
  - rewrite (proj2 (Z.eqb_neq value cur)) by done. rewrite uN_small by lia.
    eexists. split; [done|]. by apply split_below_above.
Qed.

(** ** Resizing and moving *)

Lemma intsetResize_spec iset enc n :
  iencoding iset = rep32 enc -> enc_ok enc -> 0 <= n < 2 ^ 29 ->
  intsetResize iset n = Some (set_contents iset (realloc (icontents iset) (n * enc))).
Proof.
  intros Hi He Hn. unfold intsetResize.
  rewrite Hi, intrev32ifbe_unrep by auto with redis. mstep.
  rewrite uN_small by (destruct He as [-> | [-> | ->]]; lia). done.
Qed.

Lemma intsetMoveTail_spec iset enc n from to :
  iencoding iset = rep32 enc -> enc_ok enc -> ilength iset = rep32 n ->
  0 <= from <= n -> n < 2 ^ 29 ->
  intsetMoveTail iset from to =
    let! c := memmove (icontents iset) (to * enc) (from * enc) ((n - from) * enc) in
    Some (set_contents iset c).
Proof.
  intros Hi He Hl Hf Hn. unfold intsetMoveTail, INTSET_ENC_INT64, INTSET_ENC_INT32.
  rewrite Hi, Hl, !intrev32ifbe_unrep by (auto with redis; unfold is_u; lia). mstep.
  destruct He as [-> | [-> | ->]]; cbn [Z.eqb Pos.eqb];
    rewrite !(uN_small 32) by (rewrite ?(uN_small 32); lia); done.
Qed.

(** Shifting a tail up over [zlen G] spare bytes, and down over a hole. *)
Lemma memmove_up A B J k :
  zlen J = k -> 0 <= k ->
  exists G, zlen G = k /\
    memmove (A ++ B ++ J) (zlen A + k) (zlen A) (zlen B) = Some (A ++ G ++ B).
Proof.
  intros HJ Hk. unfold memmove. rewrite load_app by done. mstep.
  destruct (split_range (B ++ J) 0 k) as (N & G & R & E & HN & HG); [zlia..|].
  apply zlen_0_inv in HN as ->. simpl in E. exists G. split; [done|].
  assert (zlen R = zlen B) by (apply (f_equal zlen) in E; zlia).
  rewrite E, !app_assoc. apply store_app_r; zlia.
Qed.

Lemma memmove_down A H' B p :
  p = zlen A ->
  exists R, zlen R = zlen H' /\
    memmove (A ++ H' ++ B) p (p + zlen H') (zlen B) = Some (A ++ B ++ R).
Proof.
  intros ->. unfold memmove.
  rewrite (app_assoc A H' B), (load_app_r (A ++ H') B) by zlia. mstep.
  destruct (split_range (H' ++ B) 0 (zlen B)) as (N & G & R & E & HN & HG); [zlia..|].
  apply zlen_0_inv in HN as ->. simpl in E. exists R.
  split; [apply (f_equal zlen) in E; zlia|].
  rewrite <- app_assoc, E. by apply store_app.
Qed.

(** ** Sortedness of the updated element lists *)

Lemma sorted_app (A B : list Z) :
  StronglySorted Z.lt (A ++ B) <->
  StronglySorted Z.lt A /\ StronglySorted Z.lt B /\
  (forall x y, x ∈ A -> y ∈ B -> x < y).
Proof. rewrite StronglySorted_app. tauto. Qed.

Lemma sorted_insert A B v :
  StronglySorted Z.lt (A ++ B) -> Forall (fun x => x < v) A -> Forall (Z.lt v) B ->
  StronglySorted Z.lt (A ++ v :: B).
Proof.
  intros (HA & HB & HAB)%sorted_app FA FB. apply sorted_app. split_and!; [done| |].
  - by constructor.
  - intros x y Hx [->|Hy]%elem_of_cons; [|auto]. by rewrite Forall_forall in FA; apply FA.
Qed.

Lemma sorted_delete A B v :
  StronglySorted Z.lt (A ++ v :: B) ->
  StronglySorted Z.lt (A ++ B) /\ v ∉ A ++ B.
Proof.
  intros (HA & HB & HAB)%sorted_app. apply StronglySorted_inv in HB as [HB HF].
  split.
  - apply sorted_app. split_and!; auto. intros. apply HAB; rewrite ?elem_of_cons; auto.
  - intros [Hv|Hv]%elem_of_app.
    + pose proof (HAB v v Hv). set_unfold. lia.
    + rewrite Forall_forall in HF. pose proof (HF v Hv). lia.
Qed.

(** ** Upgrading *)

(** During the back-to-front conversion the block is the old prefix, a gap, the
    converted suffix and (when appending) the free slot at the end. *)
Lemma upgrade_loop_spec (vs us : list Z) iset cur new p J T :
  iencoding iset = rep32 new -> enc_ok cur -> enc_ok new -> cur <= new ->
  0 <= p <= 1 -> zlen vs < 2 ^ 29 -> Forall (is_s (8 * cur)) vs ->
  icontents iset = flat cur vs ++ J ++ flat new us ++ T ->
  zlen J = (zlen vs + p) * new - zlen vs * cur ->
  exists J', zlen J' = p * new /\
    upgrade_loop (List.length vs) iset p cur =
      Some (set_contents iset (J' ++ flat new (vs ++ us) ++ T)).
Proof.
  intros Hi Hcur Hnew Hle Hp. revert us iset J Hi.
  induction vs as [|v vs IH] using rev_ind; intros us iset J Hi Hn Hf Hc HJ.
  - exists J. split; [zlia|]. simpl. f_equal. destruct iset. unfold set_contents.
    simpl in *. by rewrite Hc.
  - apply Forall_app in Hf as [Hf Hv]. apply Forall_cons in Hv as [Hv _].
    rewrite length_app, Nat.add_comm. cbn [List.length Nat.add upgrade_loop].
    rewrite flat_app, flat_cons, app_nil_r, <- app_assoc in Hc.
    rewrite zlen_app, zlen_cons, zlen_nil in *.
    rewrite (getEncoded_app iset cur (flat cur vs) v (J ++ flat new us ++ T));
      [|done|done|by rewrite zlen_flat|done]. mstep.
    (* the slot to write: the last [new] bytes of old element plus gap *)
    set (M := le_enc (Z.to_nat cur) v ++ J).
    assert (zlen M = (zlen vs + 1 + p) * new - zlen vs * cur) as HM.
    { unfold M. rewrite zlen_app, zlen_le_enc. destruct Hcur as [-> | [-> | ->]]; lia. }
    zlen_pos.
    destruct (split_range M (zlen M - new) new) as (G & S & N & EM & HG & HS);
      [destruct Hnew as [-> | [-> | ->]]; destruct Hcur as [-> | [-> | ->]]; lia
      |destruct Hnew as [-> | [-> | ->]]; lia|lia|].
    assert (N = []) as ->.
    { apply zlen_0_inv. apply (f_equal zlen) in EM. rewrite !zlen_app in EM. lia. }
    rewrite app_nil_r in EM.
    rewrite (intsetSet_app iset new (flat cur vs ++ G) S (flat new us ++ T) v);
      [|done|done| |done|].
    + mstep.
      destruct (IH (v :: us) (set_contents iset
          ((flat cur vs ++ G) ++ le_enc (Z.to_nat new) v ++ flat new us ++ T)) G)
        as (J' & HJ' & ->); [done|lia|done| |lia|].
      * simpl. by rewrite flat_cons, <- !app_assoc.
      * exists J'. split; [done|]. by rewrite <- (app_assoc vs).
    + rewrite Hc, (app_assoc (le_enc _ v) J). fold M. by rewrite EM, <- !app_assoc.
    + rewrite (sN_small 32) by (unfold is_s, zlen in *; lia).
      rewrite zlen_app, zlen_flat, HG, HM by done. unfold zlen. lia.
Qed.

Lemma fits_weaken cur new vs :
  enc_ok cur -> enc_ok new -> cur <= new -> Forall (is_s (8 * cur)) vs ->
  Forall (is_s (8 * new)) vs.
Proof.
  intros Hc Hn Hle HF. eapply Forall_impl; [exact HF|]. intros x. unfold is_s.
  destruct Hc as [-> | [-> | ->]], Hn as [-> | [-> | ->]]; simpl; lia.
Qed.

Lemma intsetUpgradeAndAdd_spec iset cur vs v :
  repr iset cur vs -> is_s 64 v -> cur < _intsetValueEncoding v -> zlen vs + 1 < 2 ^ 29 ->
  exists iset', intsetUpgradeAndAdd iset v = Some iset' /\
    repr iset' (_intsetValueEncoding v) (if v <? 0 then v :: vs else vs ++ [v]).
Proof.
  intros R Hv Hlt Hb. pose proof (valueEncoding_ok v) as Hnew.
  assert (is_s (8 * _intsetValueEncoding v) v) as Hvf by (apply valueEncoding_spec; done).
  set (new := _intsetValueEncoding v) in *. destruct R as [Hi Hcur Hl Hc Hf Hn].
  zlen_pos. unfold intsetUpgradeAndAdd. fold new. clearbody new.
  assert (0 < cur) by (destruct Hcur as [-> | [-> | ->]]; lia).
  rewrite Hi, Hl, !intrev32ifbe_unrep by (auto with redis; unfold is_u; lia). mstep.
  rewrite intrev32ifbe_rep. mstep.
  rewrite (uN_small 8 cur), (uN_small 32) by (try (destruct Hcur as [-> | [-> | ->]]); lia).
  rewrite (intsetResize_spec _ new) by (done || lia). mstep. simpl icontents. rewrite Hc.
  rewrite (sN_small 32) by (unfold is_s; lia). rewrite (proj2 (Z.ltb_ge (zlen vs) 0)) by lia.
  destruct (realloc_grow (flat cur vs) ((zlen vs + 1) * new)) as (J & -> & HJ & _).
  { rewrite zlen_flat by done. nia. }
  rewrite zlen_flat in HJ by done.
  set (p := if v <? 0 then 1 else 0).
  assert (0 < new) by (destruct Hnew as [-> | [-> | ->]]; lia).
  destruct (split_range J (zlen J - (1 - p) * new) ((1 - p) * new)) as (J1 & T & N & -> & HJ1 & HT);
    [unfold p; casif; nia|unfold p; casif; lia|lia|].
  assert (N = []) as -> by (apply zlen_0_inv; rewrite !zlen_app in *; lia).
  rewrite app_nil_r in *. unfold zlen at 1. rewrite Nat2Z.id.
  destruct (upgrade_loop_spec vs [] (set_contents
      (Intset (rep32 new) (rep32 (zlen vs)) (flat cur vs)) (flat cur vs ++ J1 ++ T))
      cur new p J1 T) as (J' & HJ' & ->); try done; try lia.
  { unfold p. casif; lia. }
  mstep. rewrite app_nil_r. unfold p in *. destruct (v <? 0) eqn:Es in *; cbn [Z.eqb Pos.eqb].
  - assert (T = []) as -> by (apply zlen_0_inv; lia). rewrite !app_nil_r.
    rewrite (intsetSet_app _ new [] J' (flat new vs)) by (done || zlia). mstep. simpl ilength.
    rewrite intrev32ifbe_unrep by (unfold is_u; lia). mstep.
    rewrite intrev32ifbe_rep, uN_small by lia. mstep.
    eexists. split; [done|]. constructor; simpl; try done; try zlia.
    + f_equal. zlia.
    + constructor; [done|]. eapply fits_weaken; [apply Hcur|..]; eauto. lia.
  - assert (J' = []) as -> by (apply zlen_0_inv; lia). simpl ilength.
    rewrite intrev32ifbe_unrep by (unfold is_u; lia). mstep.
    rewrite (sN_small 32) by (unfold is_s; lia).
    rewrite (intsetSet_app _ new (flat new vs) T []) by
      (rewrite ?zlen_flat by done; rewrite ?app_nil_r; done || lia). mstep. simpl ilength.
    rewrite intrev32ifbe_unrep by (unfold is_u; lia). mstep.
    rewrite intrev32ifbe_rep, uN_small by lia. mstep.
    eexists. split; [done|]. constructor; simpl; try done; try zlia.
    + f_equal. zlia.
    + by rewrite flat_app.
    + apply Forall_app. split; [|by constructor]. eapply fits_weaken; [apply Hcur|..]; eauto. lia.
Qed.

(** A value too wide for the current encoding is beyond all elements. *)
Lemma upgrade_outside cur vs v :
  enc_ok cur -> is_s 64 v -> cur < _intsetValueEncoding v -> Forall (is_s (8 * cur)) vs ->
  if v <? 0 then Forall (Z.lt v) vs else Forall (fun x => x < v) vs.
Proof.
  intros Hc Hv Hlt Hf.
  assert (~ is_s (8 * cur) v) as Hnv by (rewrite valueEncoding_spec by done; lia).
  casif; (eapply Forall_impl; [exact Hf|]); unfold is_s in *; simpl; lia.
Qed.

(** ** Insertion *)

Lemma intsetAdd_spec iset enc vs v :
  repr iset enc vs -> StronglySorted Z.lt vs -> is_s 64 v -> zlen vs + 1 < 2 ^ 29 ->
  exists iset' vs', intsetAdd iset v = Some (iset', bool_decide (v ∉ vs)) /\
    repr iset' (Z.max enc (_intsetValueEncoding v)) vs' /\ StronglySorted Z.lt vs' /\
    (forall x, x ∈ vs' <-> x = v \/ x ∈ vs).
Proof.
  intros R HS Hv Hb. unfold intsetAdd.
  rewrite (repr_enc _ _ _ R), intrev32ifbe_unrep by eauto with redis. mstep. casif.
  { destruct (intsetUpgradeAndAdd_spec iset enc vs v) as (iset' & -> & R'); [done..|lia|].
    mstep. pose proof (upgrade_outside enc vs v (repr_enc_ok _ _ _ R) Hv) as HO.
    specialize (HO ltac:(lia) (repr_fits _ _ _ R)).
    assert (v ∉ vs) as Hni.
    { intros Hin. destruct (v <? 0); rewrite Forall_forall in HO; specialize (HO v Hin); lia. }
    rewrite bool_decide_true by done. do 2 eexists. split; [done|].
    rewrite Z.max_r by lia. split; [exact R'|]. split.
    - destruct (v <? 0).
      + by constructor.
      + apply sorted_insert; by rewrite ?app_nil_r.
    - intros x. destruct (v <? 0); set_solver. }
  destruct (intsetSearch_spec iset enc vs v R HS) as ([b pos] & -> & A & B & Hpos & Hr).
  simpl in Hpos, Hr. subst pos. mstep. destruct Hr as [[-> ->]|(-> & -> & HA & HB)].
  { do 2 eexists. split; [rewrite bool_decide_false; [done|set_solver]|].
    rewrite Z.max_l by lia. split_and!; [done..|set_solver]. }
  assert (v ∉ A ++ B) as Hni.
  { intros Hin%elem_of_app. rewrite Forall_forall in HA. rewrite Forall_forall in HB.
    destruct Hin as [Hin|Hin]; [specialize (HA _ Hin)|specialize (HB _ Hin)]; lia. }
  rewrite bool_decide_true by done.
  assert (is_s (8 * enc) v) as Hvf by (apply valueEncoding_spec; eauto with redis).
  destruct R as [Hi He Hl Hc Hf Hn]. autorewrite with zlen in *. zlen_pos.
  rewrite Hl, intrev32ifbe_unrep by (unfold is_u; lia). mstep.
  rewrite !(uN_small 32) by lia. rewrite (intsetResize_spec _ enc) by (done || lia). mstep.
  simpl ilength. rewrite Hl, intrev32ifbe_unrep by (unfold is_u; lia). mstep.
  rewrite Hc. destruct (realloc_grow (flat enc (A ++ B)) ((zlen A + zlen B + 1) * enc))
    as (J & -> & HJ & _).
  { rewrite zlen_flat, zlen_app by done. destruct He as [-> | [-> | ->]]; lia. }
  rewrite zlen_flat, zlen_app in HJ by done. rewrite flat_app, <- app_assoc.
  assert (exists G, zlen G = enc /\
    (if zlen A <? zlen A + zlen B then
      intsetMoveTail (set_contents iset (flat enc A ++ flat enc B ++ J)) (zlen A)
        (zlen A + 1)
     else Some (set_contents iset (flat enc A ++ flat enc B ++ J))) =
    Some (set_contents iset (flat enc A ++ G ++ flat enc B))) as (G & HG & ->).
  { casif.
    - rewrite (intsetMoveTail_spec _ enc (zlen A + zlen B)) by (done || lia).
      simpl icontents.
      destruct (memmove_up (flat enc A) (flat enc B) J enc) as (G & HG & HM);
        [lia|destruct He as [-> | [-> | ->]]; lia|].
      rewrite !zlen_flat in HM by done. exists G. split; [done|].
      replace ((zlen A + 1) * enc) with (zlen A * enc + enc) by lia.
      replace ((zlen A + zlen B - zlen A) * enc) with (zlen B * enc) by lia.
      by rewrite HM.
    - assert (B = []) as -> by (apply zlen_0_inv; lia). exists J. split; [lia|].
      by rewrite app_nil_r. }
  mstep. rewrite (sN_small 32) by (unfold is_s; lia).
  rewrite (intsetSet_app _ enc (flat enc A) G (flat enc B)) by
    (rewrite ?zlen_flat by done; done). mstep. simpl ilength.
  rewrite Hl, intrev32ifbe_unrep by (unfold is_u; lia). mstep.
  rewrite intrev32ifbe_rep, uN_small by lia. mstep.
  eexists _, (A ++ v :: B). split; [done|]. rewrite Z.max_l by lia. split_and!.
  - constructor; simpl; try done; try zlia.
    + f_equal. zlia.
    + by rewrite flat_app, flat_cons.
    + apply Forall_app in Hf as [HfA HfB]. apply Forall_app. split; [done|by constructor].
  - by apply sorted_insert.
  - set_solver.
Qed.

(** ** Removal *)

Lemma intsetRemove_spec iset enc vs v :
  repr iset enc vs -> StronglySorted Z.lt vs -> is_s 64 v ->
  exists iset' vs', intsetRemove iset v = Some (iset', bool_decide (v ∈ vs)) /\
    repr iset' enc vs' /\ StronglySorted Z.lt vs' /\ (forall x, x ∈ vs' <-> x <> v /\ x ∈ vs).
Proof.
  intros R HS Hv. unfold intsetRemove.
  rewrite (repr_enc _ _ _ R), intrev32ifbe_unrep by eauto with redis. mstep. casif.
  { assert (v ∉ vs) as Hni.
    { intros Hin. pose proof (repr_fits _ _ _ R) as HF. rewrite Forall_forall in HF.
      apply HF, valueEncoding_spec in Hin; eauto with redis. lia. }
    rewrite bool_decide_false by done. do 2 eexists. split; [done|].
    split_and!; [done..|]. intros x. split; [|tauto]. intros Hx. split; [|done].
    by intros ->. }
  destruct (intsetSearch_spec iset enc vs v R HS) as ([b pos] & -> & A & B & Hpos & Hr).
  simpl in Hpos, Hr. subst pos. mstep. destruct Hr as [[-> ->]|(-> & -> & HA & HB)]; last first.
  { simpl negb. cbv iota.
    assert (v ∉ A ++ B) as Hni.
    { intros Hin%elem_of_app. rewrite Forall_forall in HA. rewrite Forall_forall in HB.
      destruct Hin as [Hin|Hin]; [specialize (HA _ Hin)|specialize (HB _ Hin)]; lia. }
    rewrite bool_decide_false by done. do 2 eexists. split; [done|].
    split_and!; [done..|]. intros x. split; [|tauto]. intros Hx. split; [|done].
    by intros ->. }
  simpl negb. cbv iota. rewrite bool_decide_true by set_solver.
  apply sorted_delete in HS as [HS Hni].
  destruct R as [Hi He Hl Hc Hf Hn]. autorewrite with zlen in *. zlen_pos.
  rewrite Hl, intrev32ifbe_unrep by (unfold is_u; lia). mstep.
  rewrite !(uN_small 32) by lia.
  rewrite flat_app, flat_cons in Hc.
  assert (exists R, 
    (if zlen A <? zlen A + (1 + zlen B) - 1
     then intsetMoveTail iset (zlen A + 1) (zlen A) else Some iset) =
    Some (set_contents iset (flat enc A ++ flat enc B ++ R))) as (R & ->).
  { casif.
    - rewrite (intsetMoveTail_spec _ enc (zlen A + (1 + zlen B))) by (done || lia).
      rewrite Hc.
      destruct (memmove_down (flat enc A) (le_enc (Z.to_nat enc) v) (flat enc B) (zlen A * enc))
        as (R & HR & HM); [by rewrite zlen_flat|].
      rewrite zlen_le_enc, !zlen_flat in HM by done.
      replace ((zlen A + 1) * enc) with (zlen A * enc + Z.of_nat (Z.to_nat enc))
        by (destruct He as [-> | [-> | ->]]; lia).
      replace ((zlen A + (1 + zlen B) - (zlen A + 1)) * enc) with (zlen B * enc) by lia.
      rewrite HM. mstep. eauto.
    - assert (B = []) as -> by (apply zlen_0_inv; lia).
      exists (le_enc (Z.to_nat enc) v). simpl. rewrite app_nil_r in Hc. rewrite <- Hc.
      by destruct iset. }
  mstep. rewrite (intsetResize_spec _ enc) by (done || lia). mstep. simpl icontents.
  rewrite intrev32ifbe_rep. mstep. rewrite app_assoc, realloc_shrink by
    (rewrite <- flat_app, zlen_flat, zlen_app by done; f_equal; lia).
  eexists _, (A ++ B). split; [done|]. split_and!.
  - constructor; simpl; try done.
    + f_equal. zlia.
    + by rewrite flat_app.
    + apply Forall_app in Hf as [HfA HfB]. apply Forall_cons in HfB as [_ HfB].
      apply Forall_app. by split.
    + zlia.
  - done.
  - intros x. rewrite !elem_of_app, elem_of_cons. split.
    + intros Hx. split; [|tauto]. intros ->. set_solver.
    + tauto.
Qed.
End Proofs.
