(* ===== verification/IntsetSpec.v ===== *)
(** * Integer sets against their abstract specification

    [intset_rep iset X]: the block [iset] represents the finite set [X].  The
    theorems of this file are the contract of intset.c. *)

From Stdlib Require Import ZArith Lia.
From stdpp Require Import base numbers option list gmap sorting.
From S2P Require Import Prelude Memory Endian Intset IntsetFacts.

Local Open Scope Z_scope.
Local Open Scope redis_scope.

(** ** Sorted lists and the sets they enumerate *)

Lemma sorted_NoDup vs : StronglySorted Z.lt vs -> NoDup vs.
Proof.
  induction 1 as [|x vs _ IH HF]; constructor; [|done].
  intros Hin. rewrite Forall_forall in HF. specialize (HF x Hin). lia.
Qed.

Lemma sorted_ext us vs :
  StronglySorted Z.lt us -> StronglySorted Z.lt vs -> (forall x, x ∈ us <-> x ∈ vs) -> us = vs.
Proof.
  intros Hu Hv Hx. apply (StronglySorted_unique_strong Z.lt); [lia|done|done|].
  apply NoDup_Permutation; auto using sorted_NoDup.
Qed.

Lemma zlen_size vs (X : gset Z) :
  StronglySorted Z.lt vs -> list_to_set vs = X -> zlen vs = Z.of_nat (size X).
Proof. intros HS <-. by rewrite size_list_to_set by by apply sorted_NoDup. Qed.

Section Contract.
  Context `{Host, Alloc}.
  Implicit Types (iset : intset) (X : gset Z).

(** C18. [intsetAdd] inserts: from a set of fewer than 2^29 - 1 elements it never
    leaves the block, reports whether the value was new, and the result
    represents the set with the value added. *)
Theorem intsetAdd_correct iset X v :
  intset_rep iset X -> is_s 64 v -> Z.of_nat (size X) + 1 < 2 ^ 29 ->
  exists iset', intsetAdd iset v = Some (iset', bool_decide (v ∉ X)) /\
    intset_rep iset' ({[ v ]} ∪ X).
Proof.
  intros (vs & (enc & R & HS) & HX) Hv Hb.
  rewrite <- (zlen_size vs X) in Hb by done.
  destruct (intsetAdd_spec iset enc vs v) as (iset' & vs' & -> & R' & HS' & Hin); [done..|].
  exists iset'. split.
  - f_equal. f_equal. apply bool_decide_ext. subst X. by rewrite elem_of_list_to_set.
  - exists vs'. split; [by eexists|]. apply set_eq. intros x. subst X.
    rewrite elem_of_union, elem_of_singleton, !elem_of_list_to_set. apply Hin.
Qed.

(** [intsetRemove] deletes: it never leaves the block, reports whether the
    value was a member, and the result represents the set without the value. *)
Theorem intsetRemove_correct iset X v :
  intset_rep iset X -> is_s 64 v ->
  exists iset', intsetRemove iset v = Some (iset', bool_decide (v ∈ X)) /\
    intset_rep iset' (X ∖ {[ v ]}).
Proof.
  intros (vs & (enc & R & HS) & HX) Hv.
  destruct (intsetRemove_spec iset enc vs v) as (iset' & vs' & -> & R' & HS' & Hin); [done..|].
  exists iset'. split.
  - f_equal. f_equal. apply bool_decide_ext. subst X. by rewrite elem_of_list_to_set.
  - exists vs'. split; [by eexists|]. apply set_eq. intros x. subst X.
    rewrite elem_of_difference, elem_of_singleton, !elem_of_list_to_set, Hin. tauto.
Qed.

(** [intsetFind] decides membership. *)
Theorem intsetFind_correct iset X v :
  intset_rep iset X -> is_s 64 v -> intsetFind iset v = Some (bool_decide (v ∈ X)).
Proof.
  intros (vs & (enc & R & HS) & <-) Hv. unfold intsetFind.
  rewrite (repr_enc _ _ _ R), intrev32ifbe_unrep by eauto with redis. mstep.
  rewrite (bool_decide_ext _ (v ∈ vs)) by apply elem_of_list_to_set. casif.
  - rewrite bool_decide_false; [done|]. intros Hin.
    pose proof (repr_fits _ _ _ R) as HF. rewrite Forall_forall in HF.
    apply HF, valueEncoding_spec in Hin; eauto with redis. lia.
  - destruct (intsetSearch_spec iset enc vs v R HS) as ([b pos] & -> & A & B & _ & Hr).
    mstep. f_equal. simpl in Hr. destruct Hr as [[-> ->]|(-> & -> & HA & HB)].
    + rewrite bool_decide_true; [done|]. set_solver.
    + rewrite bool_decide_false; [done|]. intros Hin%elem_of_app.
      rewrite Forall_forall in HA. rewrite Forall_forall in HB.
      destruct Hin as [Hin|Hin]; [specialize (HA _ Hin)|specialize (HB _ Hin)]; lia.
Qed.

(** [intsetLen], [intsetGet] and [intsetRandom] enumerate the set in
    increasing order: positions below the cardinality give the sorted elements,
    any other position is reported out of range, and a random draw from a
    non-empty set is a member. *)
Theorem intset_enumerates iset X :
  intset_rep iset X ->
  exists vs, StronglySorted Z.lt vs /\ list_to_set vs = X /\
    intsetLen iset = Some (Z.of_nat (size X)) /\
    (forall pos, is_u 32 pos -> intsetGet iset pos = Some (vs !! Z.to_nat pos)) /\
    (forall rnd, X <> ∅ -> exists v, intsetRandom iset rnd = Some v /\ v ∈ X).
Proof.
  intros (vs & (enc & R & HS) & HX). exists vs.
  pose proof (zlen_size vs X HS HX) as Hz. pose proof (repr_bound _ _ _ R) as Hb.
  assert (intrev32ifbe (ilength iset) = Some (zlen vs)) as Hl.
  { rewrite (repr_len _ _ _ R), intrev32ifbe_unrep by eauto with redis. done. }
  split_and!; [done|done|by rewrite <- Hz| |].
  - intros pos Hp. unfold intsetGet. rewrite Hl. mstep. unfold is_u in Hp. casif.
    + destruct (lookup_lt_is_Some_2 vs (Z.to_nat pos)) as [v Hv]; [unfold zlen in *; lia|].
      rewrite (sN_small 32) by (unfold is_s; lia).
      rewrite (intsetGet_lookup _ _ _ _ v pos R Hv) by lia. mstep. by rewrite Hv.
    + f_equal. symmetry. apply lookup_ge_None_2. unfold zlen in *. lia.
  - intros rnd Hne. unfold intsetRandom. rewrite Hl. mstep. zlen_pos. casif.
    { apply zlen_0_inv in E as ->. by subst X. }
    pose proof (Z.mod_pos_bound (u32 rnd) (zlen vs)) as Hm.
    rewrite (sN_small 32) by (unfold is_s; lia).
    set (pos := u32 rnd mod zlen vs) in *. clearbody pos.
    destruct (lookup_lt_is_Some_2 vs (Z.to_nat pos)) as [v Hv]; [unfold zlen in *; lia|].
    rewrite (intsetGet_lookup _ _ _ _ v pos R Hv) by lia.
    exists v. split; [done|]. subst X. apply elem_of_list_to_set.
    by eapply list_elem_of_lookup_2.
Qed.

End Contract.

(** ** Portability of the block *)

(** The bytes of the C object, header included, as they lie in memory (this is
    what rdb.c writes to disk). *)
Definition intset_blob `{Host} (iset : intset) : bytes :=
  host_enc 4 (iencoding iset) ++ host_enc 4 (ilength iset) ++ icontents iset.

Inductive iop := IAdd (v : Z) | IRemove (v : Z).
Definition iop_value (o : iop) : Z := match o with IAdd v => v | IRemove v => v end.

Fixpoint run_ops `{Host, Alloc} (ops : list iop) (iset : intset) : option intset :=
  match ops with
  | [] => Some iset
  | IAdd v :: ops => let! (iset, _) := intsetAdd iset v in run_ops ops iset
  | IRemove v :: ops => let! (iset, _) := intsetRemove iset v in run_ops ops iset
  end.

(** A history from the empty set, on a given host. *)
Definition history `{Host, Alloc} (ops : list iop) : option intset :=
  let! iset := intsetNew in run_ops ops iset.

Lemma repr_blob `{Host} iset enc vs :
  repr iset enc vs -> intset_blob iset = le_enc 4 enc ++ le_enc 4 (zlen vs) ++ flat enc vs.
Proof.
  intros R. unfold intset_blob.
  rewrite (repr_enc _ _ _ R), (repr_len _ _ _ R), (repr_contents _ _ _ R).
  by rewrite !host_enc_rep32.
Qed.

(** One abstract history [(enc, vs)] is shared by every host. *)
Lemma run_ops_agree (h1 h2 : Host) (a1 a2 : Alloc) ops s1 s2 enc vs :
  Forall (fun o => is_s 64 (iop_value o)) ops -> zlen vs + zlen ops < 2 ^ 29 ->
  @repr h1 s1 enc vs -> @repr h2 s2 enc vs -> StronglySorted Z.lt vs ->
  exists s1' s2' enc' vs',
    @run_ops h1 a1 ops s1 = Some s1' /\ @run_ops h2 a2 ops s2 = Some s2' /\
    @repr h1 s1' enc' vs' /\ @repr h2 s2' enc' vs'.
Proof.
  intros Hops. revert s1 s2 enc vs.
  induction Hops as [|o ops Ho _ IH]; intros s1 s2 enc vs Hb R1 R2 HS.
  { by exists s1, s2, enc, vs. }
  rewrite zlen_cons in Hb. zlen_pos. destruct o as [v|v]; cbn [run_ops]; simpl in Ho.
  - destruct (@intsetAdd_spec h1 a1 s1 enc vs v) as (t1 & w1 & -> & Q1 & S1 & I1); [done..|lia|].
    destruct (@intsetAdd_spec h2 a2 s2 enc vs v) as (t2 & w2 & -> & Q2 & S2 & I2); [done..|lia|].
    mstep. assert (w2 = w1) as -> by (apply sorted_ext; auto; intros; by rewrite I1, I2).
    eapply IH; [|done..].
    assert (zlen w1 <= 1 + zlen vs); [|lia].
    rewrite <- zlen_cons with (x := v). unfold zlen. apply inj_le.
    apply NoDup_incl_length; [apply NoDup_ListNoDup; by apply sorted_NoDup|].
    intros x Hx. apply list_elem_of_In in Hx. apply I1 in Hx. apply list_elem_of_In.
    by rewrite elem_of_cons.
  - destruct (@intsetRemove_spec h1 a1 s1 enc vs v) as (t1 & w1 & -> & Q1 & S1 & I1); [done..|].
    destruct (@intsetRemove_spec h2 a2 s2 enc vs v) as (t2 & w2 & -> & Q2 & S2 & I2); [done..|].
    mstep. assert (w2 = w1) as -> by (apply sorted_ext; auto; intros; by rewrite I1, I2).
    eapply IH; [|done..].
    assert (zlen w1 <= zlen vs); [|lia]. unfold zlen. apply inj_le.
    apply NoDup_incl_length; [apply NoDup_ListNoDup; by apply sorted_NoDup|].
    intros x Hx. apply list_elem_of_In in Hx. apply I1 in Hx. apply list_elem_of_In. tauto.
Qed.

Lemma intsetNew_repr `{Host} :
  exists s, intsetNew = Some s /\ repr s INTSET_ENC_INT16 [].
Proof.
  unfold intsetNew. rewrite intrev32ifbe_rep. mstep. eexists. split; [done|].
  constructor; simpl; try done; try (unfold enc_ok, INTSET_ENC_INT16; lia).
  unfold rep32. destruct big_endian; done.
Qed.

(** The block is portable: the same history of insertions and removals leaves
    byte for byte the same block on hosts of any byte order, whatever the
    allocator leaves in grown areas, and [intsetBlobLen] is its size. *)
Theorem intset_blob_portable (h1 h2 : Host) (a1 a2 : Alloc) (ops : list iop) :
  Forall (fun o => is_s 64 (iop_value o)) ops -> zlen ops < 2 ^ 29 ->
  exists s1 s2, @history h1 a1 ops = Some s1 /\ @history h2 a2 ops = Some s2 /\
    @intset_blob h1 s1 = @intset_blob h2 s2 /\
    @intsetBlobLen h1 s1 = Some (zlen (@intset_blob h1 s1)).
Proof.
  intros Hops Hb. unfold history.
  destruct (@intsetNew_repr h1) as (n1 & -> & R1), (@intsetNew_repr h2) as (n2 & -> & R2).
  mstep. destruct (run_ops_agree h1 h2 a1 a2 ops n1 n2 INTSET_ENC_INT16 [])
    as (s1 & s2 & enc & vs & -> & -> & Q1 & Q2); [done|done|done|done|constructor|].
  exists s1, s2. split; [done|]. split; [done|].
  rewrite !(repr_blob _ _ _ Q1), (repr_blob _ _ _ Q2). split; [done|].
  unfold intsetBlobLen. rewrite (repr_len _ _ _ Q1), (repr_enc _ _ _ Q1).
  rewrite !intrev32ifbe_unrep by eauto with redis. mstep. f_equal.
  pose proof (repr_bound _ _ _ Q1). pose proof (repr_enc_ok _ _ _ Q1) as He.
  autorewrite with zlen. rewrite zlen_flat by done. zlen_pos.
  destruct He as [-> | [-> | ->]]; rewrite (uN_small 32), uN_small by lia; lia.
Qed.

(** ** Overflow of the size computation *)

Lemma realloc_zero `{Alloc} m : realloc m 0 = [].
Proof. unfold realloc. by rewrite Z2Nat.inj_0. Qed.

Lemma load_nil_None p n : 0 < n -> load [] p n = None.
Proof. intros. unfold load. by rewrite decide_False by zlia. Qed.
Lemma store_nil_None p bs : 0 < zlen bs -> store [] p bs = None.
Proof. intros. unfold store. by rewrite decide_False by zlia. Qed.

(** The byte size [len*encoding] of [intsetResize] is computed in 32 bits: a
    set of 2^29 - 1 elements of 8 bytes is resized to zero bytes when one more
    element is added, and [intsetAdd] then writes outside its block. *)
Theorem intsetAdd_overflow `{Host, Alloc} iset vs v :
  repr iset INTSET_ENC_INT64 vs -> StronglySorted Z.lt vs -> zlen vs = 2 ^ 29 - 1 ->
  is_s 64 v -> v ∉ vs -> intsetAdd iset v = None.
Proof.
  intros R HS Hn Hv Hni. unfold intsetAdd.
  rewrite (repr_enc _ _ _ R), intrev32ifbe_unrep by eauto with redis. mstep.
  assert (_intsetValueEncoding v <= INTSET_ENC_INT64) as Hle.
  { by apply valueEncoding_spec; [|eapply repr_enc_ok|]. }
  rewrite Z.gtb_ltb, (proj2 (Z.ltb_ge _ _) Hle).
  destruct (intsetSearch_spec iset _ vs v R HS) as ([b pos] & -> & A & B & Hpos & Hr).
  mstep. simpl in Hpos, Hr. destruct Hr as [[-> ->]|(-> & HAB & _)]; [set_solver|].
  destruct R as [Hi He Hl Hc Hf Hb]. rewrite Hl, intrev32ifbe_unrep by (unfold is_u; lia). mstep.
  unfold intsetResize at 1. rewrite Hi, intrev32ifbe_unrep by auto with redis. mstep.
  rewrite Hn. change (u32 (u32 (2 ^ 29 - 1 + 1) * INTSET_ENC_INT64)) with 0.
  rewrite realloc_zero. simpl ilength. rewrite Hl, intrev32ifbe_unrep by (unfold is_u; lia). mstep.
  rewrite HAB, zlen_app in Hn. zlen_pos. subst pos. rewrite !uN_small by lia. casif.
  - unfold intsetMoveTail. simpl iencoding. simpl ilength. simpl icontents.
    rewrite Hi, Hl, !intrev32ifbe_unrep by (auto with redis; unfold is_u; lia). mstep.
    change (INTSET_ENC_INT64 =? INTSET_ENC_INT64) with true. cbv iota.
    unfold memmove. rewrite load_nil_None; [done|].
    rewrite HAB, zlen_app, !uN_small by (rewrite ?uN_small; lia). lia.
  - mstep. unfold _intsetSet. simpl iencoding. simpl icontents.
    rewrite Hi, intrev32ifbe_unrep by auto with redis. mstep.
    change (INTSET_ENC_INT64 =? INTSET_ENC_INT64) with true. cbv iota.
    by rewrite store_nil_None by zlia.
Qed.

(** ** Concrete instances of the contract *)

Module Example_intset.

Definition le_host : Host := false.
Definition some_alloc : Alloc := fun i => 165 + i.

(** The 16 bit block of [{-2; 1; 300}]. *)
Definition sample : intset := Intset 2 3 [254; 255; 1; 0; 44; 1].
Definition sample_set : gset Z := list_to_set [-2; 1; 300].

Lemma sample_rep : @intset_rep le_host sample sample_set.
Proof.
  exists [-2; 1; 300]. split; [|done]. exists 2. split.
  - constructor; try done; [by left|]. repeat constructor; done.
  - repeat constructor; lia.
Qed.

Lemma intsetAdd_correct_witness :
  exists iset', @intsetAdd le_host some_alloc sample 70000 = Some (iset', true) /\
    @intset_rep le_host iset' ({[ 70000 ]} ∪ sample_set).
Proof.
  apply (@intsetAdd_correct le_host some_alloc sample sample_set 70000);
    [apply sample_rep | split; vm_compute; congruence | vm_compute; reflexivity].
Defined.

Lemma intsetRemove_correct_witness :
  exists iset', @intsetRemove le_host some_alloc sample 1 = Some (iset', true) /\
    @intset_rep le_host iset' (sample_set ∖ {[ 1 ]}).
Proof.
  apply (@intsetRemove_correct le_host some_alloc sample sample_set 1);
    [apply sample_rep | split; vm_compute; congruence].
Defined.

Lemma intsetFind_correct_witness : @intsetFind le_host sample 300 = Some true.
Proof.
  apply (@intsetFind_correct le_host sample sample_set 300);
    [apply sample_rep | split; vm_compute; congruence].
Defined.

Lemma intset_enumerates_witness :
  exists vs, StronglySorted Z.lt vs /\ list_to_set vs = sample_set /\
    @intsetLen le_host sample = Some 3 /\
    (forall pos, is_u 32 pos -> @intsetGet le_host sample pos = Some (vs !! Z.to_nat pos)) /\
    (forall rnd, sample_set <> ∅ ->
       exists v, @intsetRandom le_host sample rnd = Some v /\ v ∈ sample_set).
Proof. apply (@intset_enumerates le_host sample sample_set), sample_rep. Defined.

Lemma intset_blob_portable_witness :
  exists s1 s2,
    @history true (fun _ => 0) [IAdd 5; IAdd 70000; IRemove 5; IAdd (-3)] = Some s1 /\
    @history false some_alloc [IAdd 5; IAdd 70000; IRemove 5; IAdd (-3)] = Some s2 /\
    @intset_blob true s1 = @intset_blob false s2 /\
    @intsetBlobLen true s1 = Some (zlen (@intset_blob true s1)).
Proof.
  apply (intset_blob_portable true false (fun _ => 0) some_alloc);
    [repeat constructor; vm_compute; congruence | vm_compute; reflexivity].
Defined.

(** The set [{0, ..., n-1}] in 64 bit encoding. *)
Definition iota_set (n : Z) : intset := Intset 8 n (flat 8 (seqZ 0 n)).

Lemma iota_sorted n k : StronglySorted Z.lt (seqZ k n).
Proof.
  unfold seqZ. generalize (Z.to_nat n). clear n. intros n.
  change 0 with (Z.of_nat 0). generalize 0%nat. induction n as [|n IH]; intros m; [constructor|].
  cbn [seq fmap list_fmap]. constructor; [apply IH|].
  apply Forall_forall. intros x (y & -> & Hy)%list_elem_of_fmap. apply elem_of_seq in Hy. lia.
Qed.

Lemma iota_repr n : 0 <= n < 2 ^ 29 -> @repr le_host (iota_set n) 8 (seqZ 0 n).
Proof.
  intros Hn. assert (zlen (seqZ 0 n) = n) as Hz by (unfold zlen; rewrite length_seqZ; lia).
  constructor; rewrite ?Hz; try done; [by right; right| |lia].
  apply Forall_forall. intros x Hx%elem_of_seqZ. unfold is_s. simpl. lia.
Qed.

Lemma intsetAdd_overflow_witness :
  @intsetAdd le_host some_alloc (iota_set (2 ^ 29 - 1)) (-1) = None.
Proof.
  apply (@intsetAdd_overflow le_host some_alloc _ (seqZ 0 (2 ^ 29 - 1))).
  - apply iota_repr. lia.
  - apply iota_sorted.
  - unfold zlen. rewrite length_seqZ. lia.
  - unfold is_s. lia.
  - intros Hx%elem_of_seqZ. lia.
Defined.

End Example_intset.
