(* ===== verification/Util.v ===== *)
(** * Number and string conversions (util.c)

    [digits10], [sdigits10], [ll2string], [string2ll] and [string2l].  Strings are
    byte lists; the parser's cursor [p] with its count [plen] is the suffix still
    to be read. *)

From Stdlib Require Import ZArith Lia.
From stdpp Require Import base numbers option list.
From S2P Require Import Prelude Memory.

Local Open Scope Z_scope.
Local Open Scope redis_scope.

Definition ULLONG_MAX : Z := UINT64_MAX.
Definition LLONG_MAX : Z := INT64_MAX.
Definition LLONG_MIN : Z := INT64_MIN.

(** ** Printing *)

(** The recursion divides by 10^12, so two levels cover every [uint64_t]; the
    fuel is 2. *)
Fixpoint digits10_fuel (fuel : nat) (v : Z) : Z :=
  if v <? 10 then 1 else
  if v <? 100 then 2 else
  if v <? 1000 then 3 else
  if v <? 1000000000000 then
    if v <? 100000000 then
      if v <? 1000000 then
        if v <? 10000 then 4
        else 5 + b2z (v >=? 100000)
      else 7 + b2z (v >=? 10000000)
    else if v <? 10000000000 then 9 + b2z (v >=? 1000000000)
    else 11 + b2z (v >=? 100000000000)
  else match fuel with
       | O => 0
       | S fuel => u32 (12 + digits10_fuel fuel (v / 1000000000000))
       end.
Definition digits10 (v : Z) : Z := digits10_fuel 2 v.

Definition sdigits10 (v : Z) : Z :=
  if v <? 0 then
    let uv := if v =? LLONG_MIN then u64 (LLONG_MAX + 1) else u64 (- v) in
    u32 (digits10 uv + 1)
  else digits10 v.

(** The table [static const char digits[201]]: the pairs 00, 01, ..., 99. *)
Definition digits_table : bytes :=
  flat_map (fun i => [48 + Z.of_nat i / 10; 48 + Z.of_nat i mod 10]) (seq 0 100) ++ [0].

Definition digits_at (i : Z) : option Z := load1 digits_table i.

(** [while (value >= 100) ...]: returns the last value, [next] and the buffer.
    Each turn divides by 100: ten turns are enough for 64 bits. *)
Fixpoint ll2string_loop (fuel : nat) (dst : bytes) (value next : Z) : option (bytes * Z * Z) :=
  if value >=? 100 then
    match fuel with
    | O => None
    | S fuel =>
        let i := (value mod 100) * 2 in
        let value := value / 100 in
        let! d1 := digits_at (i + 1) in
        let! dst := store1 dst next d1 in
        let! d0 := digits_at i in
        let! dst := store1 dst (u32 (next - 1)) d0 in
        ll2string_loop fuel dst value (u32 (next - 2))
    end
  else Some (dst, value, next).

(** [dst] is the destination block; the result is the C return value and the
    block afterwards. *)
Definition ll2string (dst : bytes) (dstlen svalue : Z) : option (Z * bytes) :=
  let negative := b2z (svalue <? 0) in
  let value :=
    if svalue <? 0 then
      if svalue =? LLONG_MIN then u64 (LLONG_MAX + 1) else u64 (- svalue)
    else u64 svalue in
  let length := u32 (digits10 value + negative) in
  if length >=? dstlen then Some (0, dst) else
  let! dst := store1 dst length 0 in
  let! (dst, value, next) := ll2string_loop 10 dst value (u32 (length - 1)) in
  let! dst :=
    (if value <? 10 then store1 dst next (48 + u32 value)
     else
       let i := u32 value * 2 in
       let! d1 := digits_at (i + 1) in
       let! dst := store1 dst next d1 in
       let! d0 := digits_at i in
       store1 dst (u32 (next - 1)) d0) in
  let! dst := (if negative =? 1 then store1 dst 0 45 else Some dst) in
  Some (length, dst).

(** ** Parsing *)

Definition isdigit (c : Z) : bool := (48 <=? c) && (c <=? 57).

(** The loop over the remaining digits: [None] on overflow, otherwise the value
    and the unread suffix. *)
Fixpoint string2ll_loop (p : bytes) (v : Z) : option (Z * bytes) :=
  match p with
  | c :: p' =>
      if isdigit c then
        if v >? ULLONG_MAX / 10 then None else
        let v := u64 (v * 10) in
        if v >? ULLONG_MAX - (c - 48) then None else
        string2ll_loop p' (u64 (v + (c - 48)))
      else Some (v, p)
  | [] => Some (v, [])
  end.

(** From the first digit (1-9) to the end of the string, all bytes used. *)
Definition string2ll_magnitude (p : bytes) : option Z :=
  match p with
  | [] => None
  | d :: p =>
      if (49 <=? d) && (d <=? 57) then
        let! (v, rest) := string2ll_loop p (d - 48) in
        match rest with [] => Some v | _ :: _ => None end
      else None
  end.

(** [None]: the function returns 0; [Some v]: it returns 1 with [*value = v]. *)
Definition string2ll (s : bytes) : option Z :=
  match s with
  | [] => None
  | c :: p =>
      if (zlen s =? 1) && (c =? 48) then Some 0 else
      let negative := c =? 45 in
      let! v := string2ll_magnitude (if negative then p else s) in
      if negative then
        if v >? - (LLONG_MIN + 1) + 1 then None else Some (i64 (u64 (- v)))
      else
        if v >? LLONG_MAX then None else Some (i64 v)
  end.

(** [long] has 64 bits on the modelled platform (LP64). *)
Definition LONG_MAX : Z := INT64_MAX.
Definition LONG_MIN : Z := INT64_MIN.
Definition string2l (s : bytes) : option Z :=
  let! llval := string2ll s in
  if (llval <? LONG_MIN) || (llval >? LONG_MAX) then None else Some llval.

Example ll2string_test :
  ll2string (replicate 24 7) 24 LLONG_MIN =
  Some (20, [45;57;50;50;51;51;55;50;48;51;54;56;53;52;55;55;53;56;48;56;0;7;7;7]).
Proof. vm_compute. reflexivity. Qed.
Example string2ll_test :
  string2ll [45;57;50;50;51;51;55;50;48;51;54;56;53;52;55;55;53;56;48;56] = Some LLONG_MIN /\
  string2ll [57;50;50;51;51;55;50;48;51;54;56;53;52;55;55;53;56;48;56] = None /\
  string2ll [45;48] = None /\ string2ll [48;49] = None.
Proof. vm_compute. done. Qed.
