(* ===== verification/UtilFacts.v ===== *)
(** * Decimal strings: parsing and printing are inverse

    [decimal s v]: [s] is the canonical decimal notation of [v] (no sign but a
    leading minus, no leading zero, no other byte).  [string2ll] accepts exactly the
    canonical notations of 64 bit integers, and [ll2string] writes them. *)

From Stdlib Require Import ZArith Lia.
From stdpp Require Import base numbers option list.
From S2P Require Import Prelude Memory Util.

Local Open Scope Z_scope.
Local Open Scope redis_scope.

(** ** Canonical decimal notation *)

Definition digit (c : Z) : Prop := 48 <= c <= 57.

Fixpoint dec_val (acc : Z) (s : bytes) : Z :=
  match s with [] => acc | c :: s => dec_val (acc * 10 + (c - 48)) s end.

Definition udecimal (s : bytes) (v : Z) : Prop :=
  s <> [] /\ Forall digit s /\ (head s <> Some 48 \/ s = [48]) /\ dec_val 0 s = v.

Definition decimal (s : bytes) (v : Z) : Prop :=
  udecimal s v \/ exists t, s = 45 :: t /\ v < 0 /\ udecimal t (- v).

Lemma dec_val_acc acc s : dec_val acc s = acc * 10 ^ zlen s + dec_val 0 s.
Proof.
  revert acc. induction s as [|c s IH]; intros acc; cbn [dec_val].
  - rewrite zlen_nil. lia.
  - rewrite (IH (acc * 10 + (c - 48))), (IH (0 * 10 + (c - 48))), zlen_cons, Z.pow_add_r by zlia. lia.
Qed.
Lemma dec_val_app a s t : dec_val a (s ++ t) = dec_val (dec_val a s) t.
Proof. revert a. induction s as [|c s IH]; intros a; [done|]. apply IH. Qed.

Lemma dec_val_bound s : Forall digit s -> 0 <= dec_val 0 s < 10 ^ zlen s.
Proof.
  induction 1 as [|c s Hc _ IH]; cbn [dec_val]; [done|].
  rewrite dec_val_acc, zlen_cons, Z.pow_add_r by zlia. unfold digit in Hc. nia.
Qed.
Lemma dec_val_mono acc s : 0 <= acc -> Forall digit s -> acc <= dec_val acc s.
Proof.
  intros Ha HF. rewrite dec_val_acc. pose proof (dec_val_bound s HF).
  assert (0 < 10 ^ zlen s) by (apply Z.pow_pos_nonneg; zlia). nia.
Qed.

Lemma udecimal_nonneg s v : udecimal s v -> 0 <= v.
Proof. intros (_ & HF & _ & <-). apply dec_val_bound, HF. Qed.

(** The number of digits of a canonical notation. *)
Definition ndigits (n v : Z) : Prop := 1 <= n /\ v < 10 ^ n /\ (n = 1 /\ 0 <= v \/ 10 ^ (n - 1) <= v).

Lemma udecimal_ndigits s v : udecimal s v -> ndigits (zlen s) v.
Proof.
  intros (Hne & HF & Hh & <-). pose proof (dec_val_bound s HF) as [H0 H1].
  destruct s as [|c s]; [done|]. unfold ndigits. rewrite zlen_cons in *. zlen_pos.
  split; [lia|]. split; [done|].
  destruct Hh as [Hh | [= -> ->]]; [right|left; rewrite zlen_nil; lia].
  apply Forall_cons in HF as [Hc HF]. simpl in Hh. cbn [dec_val]. rewrite dec_val_acc.
  pose proof (dec_val_bound s HF). replace (1 + zlen s - 1) with (zlen s) by lia.
  assert (1 <= c - 48) by (unfold digit in Hc; assert (c <> 48) by congruence; lia).
  assert (0 < 10 ^ zlen s) by (apply Z.pow_pos_nonneg; zlia). nia.
Qed.

Lemma ndigits_unique n m v : ndigits n v -> ndigits m v -> n = m.
Proof.
  assert (forall n m, ndigits n v -> ndigits m v -> ~ n < m) as Hlt.
  { intros a b (Ha & Hva & _) (Hb & _ & [[-> _] | Hvb]) ?; [lia|].
    pose proof (Z.pow_le_mono_r 10 a (b - 1)). lia. }
  intros Hn Hm. pose proof (Hlt n m Hn Hm). pose proof (Hlt m n Hm Hn). lia.
Qed.

(** Canonical notations are unique. *)
Lemma dec_val_inj s t :
  Forall digit s -> Forall digit t -> zlen s = zlen t -> dec_val 0 s = dec_val 0 t -> s = t.
Proof.
  intros HS. revert t. induction HS as [|c s Hc HF IH]; intros t HT HL HE.
  - symmetry. by apply zlen_0_inv.
  - destruct t as [|d t]; [zlia|]. apply Forall_cons in HT as [Hd HT].
    cbn [dec_val] in HE. rewrite dec_val_acc, (dec_val_acc (0 * 10 + (d - 48))) in HE.
    pose proof (dec_val_bound s HF). pose proof (dec_val_bound t HT).
    rewrite !zlen_cons in HL. assert (zlen s = zlen t) as HL' by lia.
    rewrite HL' in *. set (P := 10 ^ zlen t) in *.
    assert (c = d) as -> by nia. f_equal. apply IH; [done..|lia].
Qed.

Lemma udecimal_unique s t v : udecimal s v -> udecimal t v -> s = t.
Proof.
  intros Hs Ht. pose proof (ndigits_unique _ _ _ (udecimal_ndigits _ _ Hs) (udecimal_ndigits _ _ Ht)).
  destruct Hs as (_ & Hs & _ & Es), Ht as (_ & Ht & _ & Et).
  apply dec_val_inj; congruence.
Qed.

(** ** [string2ll] *)

Lemma isdigit_true c : isdigit c = true <-> digit c.
Proof. unfold isdigit, digit. rewrite andb_true_iff, !Z.leb_le. done. Qed.

Lemma string2ll_loop_ok p v :
  Forall digit p -> 0 <= v -> dec_val v p <= ULLONG_MAX ->
  string2ll_loop p v = Some (dec_val v p, []).
Proof.
  intros HF. revert v. induction HF as [|c p Hc HF IH]; intros v Hv Hb; [done|].
  cbn [string2ll_loop dec_val] in *. rewrite (proj2 (isdigit_true c) Hc).
  unfold digit in Hc. unfold ULLONG_MAX, UINT64_MAX in *.
  pose proof (dec_val_mono (v * 10 + (c - 48)) p ltac:(lia) HF).
  rewrite !uN_small by (rewrite ?uN_small; lia).
  rewrite !Z.gtb_ltb, !(proj2 (Z.ltb_ge _ _)).
  - apply IH; lia.
  - lia.
  - apply Z.div_le_lower_bound; lia.
Qed.

Lemma string2ll_loop_inv p v v' :
  0 <= v <= ULLONG_MAX -> string2ll_loop p v = Some (v', []) ->
  Forall digit p /\ v' = dec_val v p /\ v' <= ULLONG_MAX.
Proof.
  revert v. induction p as [|c p IH]; intros v Hv; cbn [string2ll_loop dec_val].
  { intros [= <-]. repeat split; [constructor|lia]. }
  destruct (isdigit c) eqn:Hd; [|done]. apply isdigit_true in Hd.
  pose proof Hd as Hd'. unfold digit in Hd'. unfold ULLONG_MAX, UINT64_MAX in *.
  repeat casif; [done|done|].
  assert (v * 10 <= 2 ^ 64 - 1) as Hv10.
  { change ((2 ^ 64 - 1) / 10) with 1844674407370955161 in E. lia. }
  rewrite (uN_small 64 (v * 10)) in * by lia. rewrite uN_small by lia.
  intros HL. apply IH in HL as (HF & -> & Hb); [|lia]. by repeat split; [constructor|].
Qed.

Lemma string2ll_magnitude_spec p v :
  string2ll_magnitude p = Some v <-> udecimal p v /\ 0 < v <= ULLONG_MAX.
Proof.
  unfold string2ll_magnitude. destruct p as [|d p].
  { split; [done|]. by intros [[[] _] _]. }
  assert (dec_val 0 (d :: p) = dec_val (d - 48) p) as Hdv by done. split.
  - casif; [|done].
    destruct (string2ll_loop p (d - 48)) as [[u [|]]|] eqn:EL; [|done..]. mstep. intros [= <-].
    apply string2ll_loop_inv in EL as (HF & -> & Hb); [|unfold ULLONG_MAX, UINT64_MAX; lia].
    pose proof (dec_val_mono (d - 48) p ltac:(lia) HF). split; [|lia].
    repeat split; [done| |left; intros [= ->]; lia].
    constructor; [unfold digit; lia|done].
  - intros [(_ & HF & Hh & Hv) Hb]. apply Forall_cons in HF as [Hd HF]. unfold digit in Hd.
    rewrite Hdv in Hv. assert (d <> 48) as Hd48.
    { destruct Hh as [Hh | [= -> ->]]; [simpl in Hh; congruence|simpl in Hv; lia]. }
    rewrite (proj2 (Z.leb_le 49 d)), (proj2 (Z.leb_le d 57)) by lia. simpl andb. cbv iota.
    rewrite string2ll_loop_ok by (done || lia). mstep. by rewrite Hv.
Qed.

Lemma udecimal_fun s u v : udecimal s u -> udecimal s v -> u = v.
Proof. intros (_ & _ & _ & <-) (_ & _ & _ & <-). done. Qed.

Lemma udecimal_zero s : udecimal s 0 <-> s = [48].
Proof.
  assert (udecimal [48] 0) as H0.
  { repeat split; [done| |by right]. constructor; [unfold digit; lia|done]. }
  split; [|by intros ->]. intros HU. eapply udecimal_unique; eauto.
Qed.

Lemma decimal_minus p v : decimal (45 :: p) v <-> v < 0 /\ udecimal p (- v).
Proof.
  split.
  - intros [(_ & [Hd _]%Forall_cons & _)|(t & [= <-] & ?)]; [unfold digit in Hd; lia|done].
  - intros [Hv HU]. right. eauto.
Qed.
Lemma decimal_plain c p v : c <> 45 -> decimal (c :: p) v <-> udecimal (c :: p) v.
Proof. intros Hc. split; [intros [?|(t & [= -> ->] & _)]; done|by left]. Qed.

Lemma string2ll_iff s v :
  string2ll s = Some v <-> decimal s v /\ is_s 64 v.
Proof.
  unfold is_s. change (64 - 1) with 63. destruct s as [|c p].
  { split; [done|]. intros [[(Hne & _)|(t & [=] & _)] _]. by destruct Hne. }
  unfold string2ll, LLONG_MIN, LLONG_MAX, INT64_MIN, INT64_MAX. casif.
  { subst c. assert (p = []) as -> by (apply zlen_0_inv; zlia).
    rewrite decimal_plain by done. split.
    - intros [= <-]. split; [by apply udecimal_zero|lia].
    - intros [HU _]. f_equal. eapply udecimal_fun; [|done]. by apply udecimal_zero. }
  apply andb_false_iff in E. rewrite bind_Some. setoid_rewrite string2ll_magnitude_spec.
  unfold ULLONG_MAX, UINT64_MAX.
  destruct (c =? 45) eqn:Eneg; boolsimp.
  - subst c. rewrite decimal_minus. split.
    + intros (u & [HU Hu] & Hr). revert Hr. casif; [done|]. intros [= <-].
      rewrite sN_uN, sN_small by (unfold is_s; lia).
      rewrite Z.opp_involutive. split_and!; (done || lia).
    + intros [[Hneg HU] Hv]. exists (- v). split; [split; [done|lia]|].
      rewrite Z.gtb_ltb, (proj2 (Z.ltb_ge _ _)) by lia.
      by rewrite Z.opp_involutive, sN_uN, sN_small by (unfold is_s; lia).
  - rewrite decimal_plain by done. split.
    + intros (u & [HU Hu] & Hr). revert Hr. casif; [done|]. intros [= <-].
      rewrite sN_small by (unfold is_s; lia). split; [done|lia].
    + intros [HU Hv]. exists v. pose proof (udecimal_nonneg _ _ HU).
      assert (v <> 0) by (intros ->; apply udecimal_zero in HU as [= -> ->]; destruct E; boolsimp; done).
      split; [split; [done|lia]|].
      rewrite Z.gtb_ltb, (proj2 (Z.ltb_ge _ _)) by lia.
      by rewrite sN_small by (unfold is_s; lia).
Qed.

(** ** [digits10] *)

Lemma digits10_small fuel v : 0 <= v < 10 ^ 12 -> ndigits (digits10_fuel fuel v) v.
Proof.
  intros Hv. change (10 ^ 12) with 1000000000000 in Hv. unfold ndigits.
  destruct fuel; cbn [digits10_fuel]; rewrite (proj2 (Z.ltb_lt v 1000000000000)) by lia;
    unfold b2z; repeat casif;
    repeat match goal with |- context [Z.pow 10 ?n] =>
      let m := eval vm_compute in (10 ^ n) in change (10 ^ n) with m end; lia.
Qed.

Lemma digits10_spec v : 0 <= v < 2 ^ 64 -> ndigits (digits10 v) v.
Proof.
  intros Hv. unfold digits10.
  destruct (decide (v < 10 ^ 12)) as [Hs|Hb]; [apply digits10_small; lia|].
  change (10 ^ 12) with 1000000000000 in Hb. cbn [digits10_fuel].
  do 4 (match goal with |- context [v <? ?k] => rewrite (proj2 (Z.ltb_ge v k)) by lia end).
  change (ndigits (u32 (12 + digits10_fuel 1 (v / 1000000000000))) v).
  assert (0 <= v / 1000000000000 < 100000000) as Hq.
  { split; [apply Z.div_pos; lia|apply Z.div_lt_upper_bound; lia]. }
  destruct (digits10_small 1 (v / 1000000000000)) as (Hn & Hlt & Hge); [lia|].
  set (n := digits10_fuel 1 _) in *. clearbody n.
  assert (n < 9) as Hn9.
  { destruct Hge as [[-> _]|Hge]; [lia|]. destruct (decide (n < 9)); [done|].
    pose proof (Z.pow_le_mono_r 10 8 (n - 1)). lia. }
  rewrite uN_small by lia. pose proof (Z.div_mod v 1000000000000).
  pose proof (Z.mod_pos_bound v 1000000000000). unfold ndigits. split; [lia|].
  rewrite Z.pow_add_r by lia. change (10 ^ 12) with 1000000000000.
  split; [lia|]. right. replace (12 + n - 1) with (12 + (n - 1)) by lia.
  rewrite Z.pow_add_r by lia. change (10 ^ 12) with 1000000000000.
  destruct Hge as [[-> Hge]|Hge]; [simpl; lia|lia].
Qed.

(** ** [ll2string] *)

Lemma digits_at_pair v :
  0 <= v < 100 ->
  digits_at (v * 2) = Some (48 + v / 10) /\ digits_at (v * 2 + 1) = Some (48 + v mod 10).
Proof.
  intros Hv. rewrite <- (Z2Nat.id v) by lia.
  assert (Z.to_nat v < 100)%nat as Hn by lia. revert Hn. generalize (Z.to_nat v). intros n Hn.
  do 100 (destruct n as [|n]; [by vm_compute|]). lia.
Qed.

Lemma dig_ok c : digit c -> u8 c = c.
Proof. unfold digit. intros. apply uN_small. lia. Qed.

Lemma store1_app A a C v p :
  p = zlen A -> store1 (A ++ a :: C) p v = Some (A ++ u8 v :: C).
Proof. intros. unfold store1. by apply (store_app A [a] [u8 v] C). Qed.

(** Splitting the last element(s) off a list. *)
Lemma zlen_snoc_inv (F : bytes) : 1 <= zlen F -> exists F' a, F = F' ++ [a].
Proof. intros HF. destruct F as [|a F' _] using rev_ind; [zlia|eauto]. Qed.

(** Writing the two digits of [v] at the end of the free area [F]. *)
Lemma write_pair F D R v :
  0 <= v < 100 -> 2 <= zlen F < 2 ^ 32 ->
  exists F', zlen F' = zlen F - 2 /\
    (let! d1 := digits_at (v * 2 + 1) in
     let! dst := store1 (F ++ D ++ R) (zlen F - 1) d1 in
     let! d0 := digits_at (v * 2) in
     store1 dst (u32 (zlen F - 1 - 1)) d0) =
    Some (F' ++ (48 + v / 10 :: 48 + v mod 10 :: D) ++ R).
Proof.
  intros Hv HF. destruct (digits_at_pair v Hv) as [-> ->]. mstep.
  destruct (zlen_snoc_inv F) as (F1 & a & ->); [lia|]. rewrite zlen_app, zlen_cons, zlen_nil in *.
  destruct (zlen_snoc_inv F1) as (F2 & b & ->); [lia|]. rewrite zlen_app, zlen_cons, zlen_nil in *.
  exists F2. split; [lia|].
  pose proof (Z.mod_pos_bound v 10). pose proof (Z.div_mod v 10).
  assert (0 <= v / 10 < 10) by (split; [apply Z.div_pos; lia|apply Z.div_lt_upper_bound; lia]).
  rewrite <- !app_assoc. simpl app.
  pose proof (store1_app (F2 ++ [b]) a (D ++ R) (48 + v mod 10) (zlen F2 + (1 + 0) + (1 + 0) - 1)) as E1.
  rewrite <- app_assoc in E1. simpl in E1. rewrite E1 by zlia. mstep.
  rewrite (uN_small 32) by zlia. rewrite <- app_assoc. simpl app. rewrite store1_app by zlia.
  rewrite !dig_ok by (unfold digit; lia). done.
Qed.

Lemma ndigits_100 n v : ndigits n v -> 100 <= v -> 3 <= n /\ ndigits (n - 2) (v / 100).
Proof.
  intros (Hn & Hlt & Hge) Hv.
  assert (3 <= n) as Hn3.
  { destruct (decide (n <= 2)); [|lia]. pose proof (Z.pow_le_mono_r 10 n 2). lia. }
  split; [done|]. destruct Hge as [[-> _]|Hge]; [lia|].
  replace n with (2 + (n - 2)) in Hlt by lia. rewrite Z.pow_add_r in Hlt by lia.
  replace (n - 1) with (2 + (n - 2 - 1)) in Hge by lia. rewrite Z.pow_add_r in Hge by lia.
  change (10 ^ 2) with 100 in *. unfold ndigits. split; [lia|]. split.
  - apply Z.div_lt_upper_bound; lia.
  - right. apply Z.div_le_lower_bound; lia.
Qed.

Lemma dec_val_pair v D :
  0 <= v < 100 ->
  dec_val 0 (48 + v / 10 :: 48 + v mod 10 :: D) = v * 10 ^ zlen D + dec_val 0 D.
Proof.
  intros Hv. cbn [dec_val]. rewrite dec_val_acc. f_equal. f_equal.
  pose proof (Z.div_mod v 10). lia.
Qed.

Lemma ll2string_loop_spec fuel F D R value n :
  ndigits n value -> 0 <= value < 100 ^ (1 + Z.of_nat fuel) -> n <= zlen F < 2 ^ 32 ->
  Forall digit D ->
  exists F' D' value' n',
    ll2string_loop fuel (F ++ D ++ R) value (zlen F - 1) = Some (F' ++ D' ++ R, value', zlen F' - 1) /\
    0 <= value' < 100 /\ ndigits n' value' /\ zlen F' - n' = zlen F - n /\
    zlen F' + zlen D' = zlen F + zlen D /\ Forall digit D' /\
    value' * 10 ^ zlen D' + dec_val 0 D' = value * 10 ^ zlen D + dec_val 0 D.
Proof.
  revert F D value n. induction fuel as [|fuel IH]; intros F D value n Hn Hv HF HD.
  { cbn [ll2string_loop]. rewrite Z.geb_leb, (proj2 (Z.leb_gt 100 value)) by lia.
    exists F, D, value, n. split_and!; (done || lia). }
  cbn [ll2string_loop]. casif; last first.
  { exists F, D, value, n. split_and!; (done || lia). }
  destruct (ndigits_100 n value Hn) as [Hn3 Hn']; [lia|].
  pose proof (Z.mod_pos_bound value 100). pose proof (Z.div_mod value 100).
  destruct (write_pair F D R (value mod 100)) as (F1 & HF1 & HW); [lia|lia|].
  destruct (digits_at_pair (value mod 100)) as [Hd0 Hd1]; [lia|].
  rewrite Hd0, Hd1 in *. cbn [mbind option_bind] in *.
  destruct (store1 (F ++ D ++ R) (zlen F - 1) _) as [dst|]; [|done].
  cbn [mbind option_bind] in *. rewrite HW. mstep.
  rewrite (uN_small 32) by lia. replace (zlen F - 1 - 2) with (zlen F1 - 1) by lia.
  destruct (IH F1 (48 + (value mod 100) / 10 :: 48 + (value mod 100) mod 10 :: D)
              (value / 100) (n - 2)) as (F' & D' & v' & n' & HL & Hv' & Hn'' & HF' & Hlen & HD' & Hval).
  - done.
  - split; [apply Z.div_pos; lia|]. apply Z.div_lt_upper_bound; [lia|].
    replace (100 * 100 ^ (1 + Z.of_nat fuel)) with (100 ^ (1 + Z.of_nat (S fuel))); [lia|].
    rewrite <- Z.pow_succ_r by lia. f_equal. lia.
  - lia.
  - assert (0 <= value mod 100 / 10 < 10)
      by (split; [apply Z.div_pos; lia|apply Z.div_lt_upper_bound; lia]).
    pose proof (Z.mod_pos_bound (value mod 100) 10).
    repeat constructor; unfold digit; (done || lia).
  - exists F', D', v', n'. split; [exact HL|]. rewrite !zlen_cons in *. zlen_pos.
    split_and!; try (done || lia). rewrite Hval, dec_val_pair by lia.
    replace (1 + (1 + zlen D)) with (2 + zlen D) by lia.
    rewrite Z.pow_add_r by lia. change (10 ^ 2) with 100. lia.
Qed.

Lemma udecimal_intro D v :
  Forall digit D -> ndigits (zlen D) v -> dec_val 0 D = v -> udecimal D v.
Proof.
  intros HD (Hn & _ & Hge) HV. destruct D as [|c D]; [zlia|].
  repeat split; [done|done| |done].
  destruct (decide (c = 48)) as [->|Hc]; [right|left; simpl; congruence].
  apply Forall_cons in HD as [_ HD]. pose proof (dec_val_bound D HD) as Hb.
  change (dec_val 0 D = v) in HV. rewrite zlen_cons in *.
  f_equal. apply zlen_0_inv. destruct Hge as [[Hz _]|Hge]; [lia|].
  replace (1 + zlen D - 1) with (zlen D) in Hge by lia. lia.
Qed.

(** The last one or two digits. *)
Lemma ll2string_last F D R value n :
  ndigits n value -> 0 <= value < 100 -> n <= zlen F < 2 ^ 32 -> Forall digit D ->
  exists F' D',
    (if value <? 10 then store1 (F ++ D ++ R) (zlen F - 1) (48 + u32 value)
     else
       let! d1 := digits_at (u32 value * 2 + 1) in
       let! dst := store1 (F ++ D ++ R) (zlen F - 1) d1 in
       let! d0 := digits_at (u32 value * 2) in
       store1 dst (u32 (zlen F - 1 - 1)) d0) = Some (F' ++ D' ++ R) /\
    zlen F' = zlen F - n /\ zlen D' = zlen D + n /\ Forall digit D' /\
    dec_val 0 D' = value * 10 ^ zlen D + dec_val 0 D.
Proof.
  intros Hn Hv HF HD. rewrite (uN_small 32) by lia. casif.
  - assert (n = 1) as ->.
    { apply (ndigits_unique n 1 value Hn). unfold ndigits. simpl. lia. }
    destruct (zlen_snoc_inv F) as (F' & a & ->); [lia|]. rewrite zlen_app, zlen_cons, zlen_nil in *.
    exists F', (48 + value :: D). rewrite <- app_assoc. simpl app.
    rewrite store1_app by lia. rewrite dig_ok by (unfold digit; lia).
    rewrite zlen_cons. split_and!; [done|lia|lia| |].
    + constructor; [unfold digit; lia|done].
    + cbn [dec_val]. rewrite dec_val_acc. f_equal. f_equal. lia.
  - assert (n = 2) as ->.
    { apply (ndigits_unique n 2 value Hn). unfold ndigits. simpl. lia. }
    destruct (write_pair F D R value) as (F' & HF' & ->); [lia|lia|].
    exists F', (48 + value / 10 :: 48 + value mod 10 :: D). rewrite !zlen_cons.
    split_and!; [done|lia|lia| |by apply dec_val_pair].
    assert (0 <= value / 10 < 10)
      by (split; [apply Z.div_pos; lia|apply Z.div_lt_upper_bound; lia]).
    pose proof (Z.mod_pos_bound value 10). repeat constructor; unfold digit; (done || lia).
Qed.

(** The magnitude [ll2string] and [sdigits10] work on. *)
Lemma magnitude_spec v :
  is_s 64 v ->
  (if v <? 0 then if v =? LLONG_MIN then u64 (LLONG_MAX + 1) else u64 (- v) else u64 v)
  = Z.abs v /\ 0 <= Z.abs v < 2 ^ 64.
Proof.
  unfold is_s, LLONG_MIN, LLONG_MAX, INT64_MIN, INT64_MAX. change (64 - 1) with 63. intros Hv.
  repeat casif; rewrite uN_small by lia; lia.
Qed.

(** The printed length: digits and sign. *)
Definition printed_length (v : Z) : Z := digits10 (Z.abs v) + b2z (v <? 0).

Lemma printed_length_bound v : is_s 64 v -> 1 <= printed_length v <= 21.
Proof.
  intros Hv. destruct (magnitude_spec v Hv) as [_ Hm].
  destruct (digits10_spec _ Hm) as (Hn & _ & Hge). unfold printed_length.
  assert (digits10 (Z.abs v) <= 20).
  { destruct Hge as [[-> _]|Hge]; [lia|]. destruct (decide (digits10 (Z.abs v) <= 20)); [done|].
    pose proof (Z.pow_le_mono_r 10 20 (digits10 (Z.abs v) - 1)). lia. }
  destruct (v <? 0); simpl; lia.
Qed.

Lemma decimal_printed_length s v : is_s 64 v -> decimal s v -> zlen s = printed_length v.
Proof.
  intros Hv HD. destruct (magnitude_spec v Hv) as [_ Hm]. unfold printed_length.
  destruct HD as [HU|(t & -> & Hneg & HU)].
  - pose proof (udecimal_nonneg _ _ HU). rewrite (proj2 (Z.ltb_ge v 0)) by lia. simpl b2z.
    rewrite Z.abs_eq in * by lia. rewrite Z.add_0_r.
    eapply ndigits_unique; [by apply udecimal_ndigits|by apply digits10_spec].
  - rewrite (proj2 (Z.ltb_lt v 0)) by lia. simpl b2z. rewrite zlen_cons.
    rewrite Z.abs_neq in * by lia.
    rewrite (ndigits_unique (zlen t) (digits10 (- v)) (- v));
      [lia|by apply udecimal_ndigits|by apply digits10_spec].
Qed.

Lemma ll2string_write dst dstlen v :
  is_s 64 v -> dstlen <= zlen dst -> printed_length v < dstlen ->
  exists s, decimal s v /\
    ll2string dst dstlen v = Some (zlen s, s ++ 0 :: drop (Z.to_nat (zlen s + 1)) dst).
Proof.
  intros Hv Hd Hlen. destruct (magnitude_spec v Hv) as [Hmag Hm].
  pose proof (printed_length_bound v Hv) as Hpb.
  pose proof (b2z_bound (v <? 0)) as Hbz.
  unfold ll2string. rewrite Hmag. fold (printed_length v).
  rewrite (uN_small 32 (printed_length v)) by lia.
  rewrite Z.geb_leb, (proj2 (Z.leb_gt dstlen (printed_length v))) by lia.
  destruct (split_range dst (printed_length v) 1) as (F & X & R & -> & HF & HX); [lia..|].
  destruct X as [|x [|]]; [done| |zlia].
  rewrite <- HF. simpl app. rewrite store1_app by done. mstep. change (u8 0) with 0.
  rewrite (uN_small 32) by lia. pose proof (digits10_spec _ Hm) as Hnd.
  destruct (ll2string_loop_spec 10 F [] (0 :: R) (Z.abs v) (digits10 (Z.abs v)))
    as (F1 & D1 & v1 & n1 & HL & Hv1 & Hn1' & HF1 & Hlen1 & HD1 & Hval1);
    [done|lia|unfold printed_length in *; lia|constructor|].
  simpl app in HL. rewrite HL. mstep.
  destruct (ll2string_last F1 D1 (0 :: R) v1 n1) as (F2 & D2 & HW & HF2 & Hlen2 & HD2 & Hval2);
    [done|done|unfold printed_length in *; zlia|done|].
  rewrite HW. mstep. rewrite zlen_nil, Z.pow_0_r, Z.mul_1_r in *. simpl (dec_val 0 []) in Hval1.
  assert (udecimal D2 (Z.abs v)) as HU.
  { apply udecimal_intro; [done| |lia].
    replace (zlen D2) with (digits10 (Z.abs v)) by lia. done. }
  assert (forall s : bytes, zlen s = zlen F -> drop (Z.to_nat (zlen s + 1)) (F ++ x :: R) = R) as Hdrop.
  { intros s0 ->. change (F ++ x :: R) with (F ++ [x] ++ R). rewrite app_assoc.
    replace (Z.to_nat (zlen F + 1)) with (List.length (F ++ [x]))
      by (rewrite length_app; unfold zlen; simpl; lia). apply drop_app_length. }
  unfold printed_length in HF. destruct (v <? 0) eqn:Es in *; simpl b2z in *; boolsimp.
  - cbn [Z.eqb Pos.eqb]. destruct F2 as [|a [|]]; [zlia| |zlia].
    pose proof (store1_app [] a (D2 ++ 0 :: R) 45 0) as E. simpl app in E |- *. rewrite E by done.
    mstep. change (u8 45) with 45. exists (45 :: D2). split.
    + right. exists D2. rewrite Z.abs_neq in HU by lia. done.
    + rewrite Hdrop by zlia. do 2 f_equal. zlia.
  - cbn [Z.eqb Pos.eqb]. assert (F2 = []) as -> by (apply zlen_0_inv; lia). exists D2. split.
    + left. by rewrite Z.abs_eq in HU by lia.
    + rewrite Hdrop by lia. simpl. do 2 f_equal. zlia.
Qed.

Lemma decimal_exists v : is_s 64 v -> exists s, decimal s v.
Proof.
  intros Hv. pose proof (printed_length_bound v Hv).
  destruct (ll2string_write (replicate 32 0) 32 v) as (s & Hs & _); [done|done|lia|eauto].
Qed.

Lemma ll2string_prints dst dstlen v :
  is_s 64 v -> dstlen <= zlen dst ->
  exists s, decimal s v /\ sdigits10 v = zlen s /\
    ll2string dst dstlen v =
      Some (if zlen s <? dstlen
            then (zlen s, s ++ 0 :: drop (Z.to_nat (zlen s + 1)) dst)
            else (0, dst)).
Proof.
  intros Hv Hd. destruct (magnitude_spec v Hv) as [Hmag Hm].
  pose proof (printed_length_bound v Hv) as Hpb.
  assert (sdigits10 v = printed_length v) as Hsd.
  { unfold sdigits10, printed_length in *. destruct (v <? 0) eqn:Es; boolsimp; simpl b2z in *.
    - rewrite Hmag, uN_small by lia. done.
    - rewrite Z.abs_eq by lia. lia. }
  destruct (decide (printed_length v < dstlen)) as [Hl|Hl].
  - destruct (ll2string_write dst dstlen v) as (s & Hs & HW); [done..|].
    exists s. rewrite (decimal_printed_length s v) in * by done.
    split_and!; [done|done|]. by rewrite (proj2 (Z.ltb_lt _ dstlen)) by lia.
  - destruct (decimal_exists v Hv) as (s & Hs). exists s.
    rewrite (decimal_printed_length s v) by done. split_and!; [done|done|].
    rewrite (proj2 (Z.ltb_ge _ dstlen)) by lia.
    unfold ll2string. rewrite Hmag. fold (printed_length v).
    rewrite uN_small by lia. by rewrite Z.geb_leb, (proj2 (Z.leb_le dstlen _)) by lia.
Qed.

Lemma decimal_unique s t v : decimal s v -> decimal t v -> s = t.
Proof.
  intros [Hs|(s' & -> & Hn & Hs)] [Ht|(t' & -> & Hn' & Ht)].
  - by eapply udecimal_unique.
  - apply udecimal_nonneg in Hs. lia.
  - apply udecimal_nonneg in Ht. lia.
  - f_equal. by eapply udecimal_unique.
Qed.

(** * Contract of the number conversions of util.c *)

(** C33. [string2ll] accepts exactly the canonical decimal notations of 64 bit
    signed integers, and returns the integer: no sign, space, leading zero or
    overflowing number is accepted. *)
Theorem string2ll_correct s v :
  string2ll s = Some v <-> decimal s v /\ is_s 64 v.
Proof. apply string2ll_iff. Qed.

(** [ll2string] prints: for every 64 bit integer and every destination block of
    at least [dstlen] bytes it never writes outside the block; when the canonical
    notation and its terminator fit in [dstlen] it writes exactly them at the start
    and returns the length, otherwise it returns 0 and writes nothing.  [sdigits10]
    predicts the length. *)
Theorem ll2string_correct dst dstlen v :
  is_s 64 v -> dstlen <= zlen dst ->
  exists s, decimal s v /\ sdigits10 v = zlen s /\
    ll2string dst dstlen v =
      Some (if zlen s <? dstlen
            then (zlen s, s ++ 0 :: drop (Z.to_nat (zlen s + 1)) dst)
            else (0, dst)).
Proof. apply ll2string_prints. Qed.

(** Round trip: a non-empty string [string2ll] accepts is recovered byte for byte from
    the number by [ll2string], and a number printed by [ll2string] is recovered by
    [string2ll] from the bytes written. *)
Theorem number_roundtrip dst dstlen s v :
  0 < zlen s < dstlen -> dstlen <= zlen dst -> is_s 64 v ->
  (string2ll s = Some v <->
   ll2string dst dstlen v = Some (zlen s, s ++ 0 :: drop (Z.to_nat (zlen s + 1)) dst)).
Proof.
  intros Hs0 Hd Hv. rewrite string2ll_iff.
  destruct (ll2string_prints dst dstlen v) as (t & Ht & _ & ->); [done|lia|]. split.
  - intros [Hs _]. assert (s = t) as -> by by eapply decimal_unique.
    by rewrite (proj2 (Z.ltb_lt _ dstlen)) by lia.
  - intros HE. injection HE as HE. split; [|done].
    enough (s = t) as -> by done. revert HE. casif; intros [= HL HB].
    + apply (f_equal (take (Z.to_nat (zlen s)))) in HB. rewrite <- HL in HB at 1.
      unfold zlen in HB. rewrite !Nat2Z.id, !take_app_length in HB. done.
    + lia.
Qed.

Lemma ll2string_correct_witness :
  exists s, decimal s (-120) /\ sdigits10 (-120) = zlen s /\
    ll2string (replicate 6 7) 6 (-120) =
      Some (if zlen s <? 6
            then (zlen s, s ++ 0 :: drop (Z.to_nat (zlen s + 1)) (replicate 6 7))
            else (0, replicate 6 7)).
Proof. apply (ll2string_correct (replicate 6 7) 6 (-120)); vm_compute; intuition discriminate. Defined.

Lemma number_roundtrip_witness :
  string2ll [45; 49; 50] = Some (-12) <->
  ll2string (replicate 6 7) 6 (-12) = Some (3, [45; 49; 50; 0; 7; 7]).
Proof.
  apply (number_roundtrip (replicate 6 7) 6 [45; 49; 50] (-12)); vm_compute; intuition discriminate.
Defined.
