(* ===== verification/Glob.v ===== *)
(** * Glob patterns (util.c: [stringmatchlen], [stringmatch])

    The pattern is a byte block with the cursor [p] and the count [plen] of the C
    code, because the code also looks at the byte after the pattern; the subject is
    the suffix still to be matched, of which only the first byte is read.  [char] is
    signed, as on the platforms Redis targets. *)

From Stdlib Require Import ZArith Lia.
From stdpp Require Import base numbers option list.
From S2P Require Import Prelude Memory.

Local Open Scope Z_scope.
Local Open Scope redis_scope.

Definition schar (b : Z) : Z := if b <? 128 then b else b - 256.
Definition tolower (c : Z) : Z := if (65 <=? c) && (c <=? 90) then c + 32 else c.

Definition same_char (nocase : bool) (a b : Z) : bool :=
  if negb nocase then schar a =? schar b
  else tolower (schar a) =? tolower (schar b).

(** The [a-z] test of a bracket expression. *)
Definition in_range (nocase : bool) (first last c : Z) : bool :=
  let start := schar first in
  let end_ := schar last in
  let c := schar c in
  let '(start, end_) := if start >? end_ then (end_, start) else (start, end_) in
  let '(start, end_, c) :=
    if nocase then (tolower start, tolower end_, tolower c) else (start, end_, c) in
  (c >=? start) && (c <=? end_).

(** The [while(1)] of a bracket expression: the cursor, the count and [match] where
    it breaks.  At least one pattern byte is consumed per turn. *)
Fixpoint class_loop (fuel : nat) (m : bytes) (p plen c : Z) (nocase mt : bool)
    : option (Z * Z * bool) :=
  match fuel with
  | O => None
  | S fuel =>
      let! p0 := load1 m p in
      if (p0 =? 92) && (plen >=? 2) then
        let! p1 := load1 m (p + 1) in
        class_loop fuel m (p + 2) (plen - 2) c nocase (mt || (schar p1 =? schar c))
      else if p0 =? 93 then Some (p, plen, mt)
      else if plen =? 0 then Some (p - 1, plen + 1, mt)
      else
        let! range := (if plen >=? 3 then let! p1 := load1 m (p + 1) in Some (p1 =? 45)
                       else Some false) in
        if (range : bool) then
          let! p2 := load1 m (p + 2) in
          class_loop fuel m (p + 3) (plen - 3) c nocase (mt || in_range nocase p0 p2 c)
        else class_loop fuel m (p + 1) (plen - 1) c nocase (mt || same_char nocase p0 c)
  end.

(** [while (patternLen && pattern[1] == '*')] *)
Fixpoint skip_stars (fuel : nat) (m : bytes) (p plen : Z) : option (Z * Z) :=
  match fuel with
  | O => None
  | S fuel =>
      if plen =? 0 then Some (p, plen) else
      let! p1 := load1 m (p + 1) in
      if p1 =? 42 then skip_stars fuel m (p + 1) (plen - 1) else Some (p, plen)
  end.

(** The trailing-star skip, with no check of the count. *)
Fixpoint skip_trailing (fuel : nat) (m : bytes) (p plen : Z) : option Z :=
  match fuel with
  | O => None
  | S fuel =>
      let! p0 := load1 m p in
      if p0 =? 42 then skip_trailing fuel m (p + 1) (plen - 1) else Some plen
  end.

(** [while(stringLen) { if (rec(string)) return 1; string++; } return 0;] *)
Fixpoint star_loop (rec : bytes -> option bool) (s : bytes) : option bool :=
  match s with
  | [] => Some false
  | _ :: s' =>
      let! r := rec s in
      if (r : bool) then Some true else star_loop rec s'
  end.

Section Match.
  Context (m : bytes) (nocase : bool).

(** One turn of the main loop for a pattern byte other than a star: the cursor and
    count on the last byte used, or [None] inside for [return 0]. *)
Definition match_one (p plen c : Z) : option (option (Z * Z)) :=
  let! p0 := load1 m p in
  if p0 =? 63 then Some (Some (p, plen))
  else if p0 =? 91 then
    let p := p + 1 in
    let plen := plen - 1 in
    let! p1 := load1 m p in
    let not := p1 =? 94 in
    let p := if not then p + 1 else p in
    let plen := if not then plen - 1 else plen in
    let! (p, plen, mt) := class_loop (S (length m)) m p plen c nocase false in
    let mt := if not then negb mt else mt in
    if negb mt then Some None else Some (Some (p, plen))
  else
    let esc := (p0 =? 92) && (plen >=? 2) in
    let p := if esc then p + 1 else p in
    let plen := if esc then plen - 1 else plen in
    let! p0 := load1 m p in
    if negb (same_char nocase p0 c) then Some None else Some (Some (p, plen)).

(** Every turn and every recursive call consumes a pattern byte: fuel above
    [plen] suffices. *)
Fixpoint stringmatchlen_fuel (fuel : nat) (p plen : Z) (s : bytes) : option bool :=
  match fuel with
  | O => None
  | S fuel =>
      match s with
      | [] => Some (plen =? 0)
      | c :: s' =>
          if plen =? 0 then Some false else
          let! p0 := load1 m p in
          if p0 =? 42 then
            let! (p, plen) := skip_stars (S (length m)) m p plen in
            if plen =? 1 then Some true
            else star_loop (stringmatchlen_fuel fuel (p + 1) (plen - 1)) s
          else
            let! r := match_one p plen c in
            match r with
            | None => Some false
            | Some (p, plen) =>
                let p := p + 1 in
                let plen := plen - 1 in
                match s' with
                | [] =>
                    let! plen := skip_trailing (S (length m)) m p plen in
                    Some (plen =? 0)
                | _ :: _ => stringmatchlen_fuel fuel p plen s'
                end
            end
      end
  end.
End Match.

(** [stringmatchlen(pattern,patternLen,string,stringLen,nocase)], [pattern] the
    start of the block [m]. *)
Definition stringmatchlen (m : bytes) (patternLen : Z) (string : bytes) (nocase : bool)
    : option bool :=
  stringmatchlen_fuel m nocase (S (Z.to_nat patternLen)) 0 patternLen string.

(** ** Reference semantics: patterns as token lists *)

Inductive citem := CChar (c : Z) | CEsc (c : Z) | CRange (a b : Z).
Inductive token := TStar | TAny | TClass (neg : bool) (items : list citem) | TLit (c : Z).

(** [cls] holds the items of an open bracket expression, latest first. *)
Fixpoint parse (l : bytes) (cls : option (bool * list citem)) : list token :=
  match cls with
  | None =>
      match l with
      | [] => []
      | a :: l1 =>
          if a =? 42 then TStar :: parse l1 None
          else if a =? 63 then TAny :: parse l1 None
          else match l1 with
               | [] => if a =? 91 then [TClass false []] else [TLit a]
               | b :: l2 =>
                   if a =? 91 then
                     if b =? 94 then parse l2 (Some (true, [])) else parse l1 (Some (false, []))
                   else if a =? 92 then TLit b :: parse l2 None
                   else TLit a :: parse l1 None
               end
      end
  | Some (neg, items) =>
      match l with
      | [] => [TClass neg items]
      | a :: l1 =>
          match l1 with
          | [] => if a =? 93 then [TClass neg items] else [TClass neg (CChar a :: items)]
          | b :: l2 =>
              if a =? 92 then parse l2 (Some (neg, CEsc b :: items))
              else if a =? 93 then TClass neg items :: parse l1 None
              else match l2 with
                   | c :: l3 =>
                       if b =? 45 then parse l3 (Some (neg, CRange a c :: items))
                       else parse l1 (Some (neg, CChar a :: items))
                   | [] => parse l1 (Some (neg, CChar a :: items))
                   end
          end
      end
  end.

(** Bytes are the same, or differ in the case of a letter when that is ignored. *)
Definition same_letter (nocase : bool) (a c : Z) : bool :=
  bool_decide (a = c \/ nocase = true /\ (65 <= a <= 90 /\ c = a + 32 \/ 65 <= c <= 90 /\ a = c + 32)).
(** A byte lies between two others, in either order, as signed numbers; when case is ignored capital letters are
    replaced by small ones in all three. *)
Definition signed_byte (c : Z) : Z := if bool_decide (c < 128) then c else c - 256.
Definition small_letter (c : Z) : Z := if bool_decide (65 <= c <= 90) then c + 32 else c.
Definition within (nocase : bool) (a b c : Z) : bool :=
  let f := if nocase then small_letter else fun c => c in
  bool_decide (f (Z.min (signed_byte a) (signed_byte b)) <= f (signed_byte c) <= f (Z.max (signed_byte a) (signed_byte b))).

Definition item_match (nocase : bool) (c : Z) (i : citem) : bool :=
  match i with
  | CChar a => same_letter nocase a c
  | CEsc a => bool_decide (a = c)
  | CRange a b => within nocase a b c
  end.

Definition class_match (nocase neg : bool) (items : list citem) (c : Z) : bool :=
  xorb neg (existsb (item_match nocase c) items).

Inductive gmatch (nocase : bool) : list token -> bytes -> Prop :=
| gm_nil : gmatch nocase [] []
| gm_star_stop ts s : gmatch nocase ts s -> gmatch nocase (TStar :: ts) s
| gm_star_eat ts c s : gmatch nocase (TStar :: ts) s -> gmatch nocase (TStar :: ts) (c :: s)
| gm_any ts c s : gmatch nocase ts s -> gmatch nocase (TAny :: ts) (c :: s)
| gm_class neg items ts c s :
    class_match nocase neg items c = true -> gmatch nocase ts s ->
    gmatch nocase (TClass neg items :: ts) (c :: s)
| gm_lit a ts c s :
    same_letter nocase a c = true -> gmatch nocase ts s ->
    gmatch nocase (TLit a :: ts) (c :: s).
