(* ===== verification/GlobSpec.v ===== *)
(** * Correctness of the glob matcher

    On a pattern followed by a zero byte (as every sds string is), the matcher
    stays inside the block, terminates, and decides the reference semantics. *)

From Stdlib Require Import ZArith Lia.
From stdpp Require Import base numbers option list.
From S2P Require Import Prelude Memory Glob.

Local Open Scope Z_scope.
Local Open Scope redis_scope.

(** The cursor stands at [rest], which the terminator follows. *)
Definition at_rest (m : bytes) (p plen : Z) (rest : bytes) : Prop :=
  exists A, m = A ++ rest ++ [0] /\ p = zlen A /\ plen = zlen rest.

Lemma at_rest_step m p plen a rest :
  at_rest m p plen (a :: rest) ->
  load1 m p = Some a /\ at_rest m (p + 1) (plen - 1) rest.
Proof.
  intros (A & -> & -> & ->). split; [by apply load1_app|].
  exists (A ++ [a]). rewrite <- app_assoc. split; [done|]. zlia.
Qed.
Lemma at_rest_end m p plen : at_rest m p plen [] -> load1 m p = Some 0 /\ plen = 0.
Proof. intros (A & -> & -> & ->). split; [by apply load1_app|done]. Qed.
Lemma at_rest_len m p plen rest : at_rest m p plen rest -> plen = zlen rest.
Proof. by intros (A & _ & _ & ->). Qed.
Lemma at_rest_block m p plen rest : at_rest m p plen rest -> (length rest < length m)%nat.
Proof. intros (A & -> & _). rewrite !length_app. simpl. lia. Qed.

(** Peels the known first bytes of the pattern off an [at_rest] hypothesis. *)
Ltac peel H :=
  let L := fresh "L" in
  match type of H with
  | at_rest _ _ _ (_ :: _) => apply at_rest_step in H as [L H]
  | at_rest _ _ _ [] => apply at_rest_end in H as [L H]
  end.
Ltac at_off H :=
  match type of H with
  | at_rest ?m ?a ?b ?r =>
      match goal with
      | |- at_rest m ?c ?d r => replace c with a by lia; replace d with b by lia; exact H
      end
  | load1 ?m ?a = ?v =>
      match goal with
      | |- context [load1 m ?c] => replace c with a by lia; rewrite H
      end
  end.

(** ** The skipping loops *)

Fixpoint drop_stars (l : bytes) : bytes :=
  match l with [] => [] | a :: l' => if a =? 42 then drop_stars l' else l end.

Lemma drop_stars_head l a r : drop_stars l = a :: r -> a <> 42.
Proof. induction l as [|b l IH]; simpl; [done|]. casif; [done|]. intros [= <- _]. done. Qed.
Lemma drop_stars_length l : (length (drop_stars l) <= length l)%nat.
Proof. induction l as [|b l IH]; simpl; [done|]. casif; simpl; lia. Qed.

Lemma skip_stars_spec fuel m p plen rest :
  at_rest m (p + 1) (plen - 1) rest -> (length rest < fuel)%nat ->
  exists p' plen', skip_stars fuel m p plen = Some (p', plen') /\
    at_rest m (p' + 1) (plen' - 1) (drop_stars rest).
Proof.
  revert p plen rest. induction fuel as [|fuel IH]; intros p plen rest HR HF; [lia|].
  cbn [skip_stars]. pose proof (at_rest_len _ _ _ _ HR). zlen_pos.
  rewrite (proj2 (Z.eqb_neq plen 0)) by lia. destruct rest as [|a rest].
  - pose proof HR as HR'. peel HR'. rewrite L. mstep. simpl. eauto.
  - pose proof HR as HR'. peel HR'. rewrite L. mstep. simpl drop_stars. casif.
    + apply IH; [done|]. simpl in HF. lia.
    + eauto.
Qed.

Lemma skip_trailing_spec fuel m p plen rest :
  at_rest m p plen rest -> (length rest < fuel)%nat ->
  skip_trailing fuel m p plen = Some (zlen (drop_stars rest)).
Proof.
  revert p plen rest. induction fuel as [|fuel IH]; intros p plen rest HR HF; [lia|].
  cbn [skip_trailing]. pose proof (at_rest_len _ _ _ _ HR) as HL. destruct rest as [|a rest].
  - peel HR. rewrite L. mstep. simpl. by rewrite HR.
  - peel HR. rewrite L. mstep. simpl drop_stars. casif.
    + apply IH; [done|]. simpl in HF. lia.
    + by rewrite HL.
Qed.

(** ** Characters *)

Lemma schar_eq a c : byte_ok a -> byte_ok c -> (schar a =? schar c) = bool_decide (a = c).
Proof.
  unfold byte_ok, schar. intros Ha Hc. apply eq_true_iff_eq. rewrite Z.eqb_eq, bool_decide_eq_true.
  destruct (Z.ltb_spec a 128), (Z.ltb_spec c 128); lia.
Qed.
Lemma same_char_spec nocase a c : byte_ok a -> byte_ok c -> same_char nocase a c = same_letter nocase a c.
Proof.
  unfold same_char, same_letter. intros Ha Hc. destruct nocase; simpl.
  - apply eq_true_iff_eq. rewrite Z.eqb_eq, bool_decide_eq_true. unfold byte_ok, schar, tolower in *.
    destruct (Z.ltb_spec a 128), (Z.ltb_spec c 128); repeat match goal with |- context [?x <=? ?y] => destruct (Z.leb_spec x y) end; simpl; lia.
  - rewrite schar_eq by done. apply bool_decide_ext. naive_solver.
Qed.
Lemma tolower_small c : tolower c = small_letter c.
Proof. unfold tolower, small_letter. case_bool_decide; destruct (Z.leb_spec 65 c), (Z.leb_spec c 90); simpl; lia. Qed.
Lemma in_range_spec nocase a b c : in_range nocase a b c = within nocase a b c.
Proof.
  unfold in_range, within. assert (forall x, schar x = signed_byte x) as Hs.
  { intros x. unfold schar, signed_byte. case_bool_decide; destruct (Z.ltb_spec x 128); lia. }
  rewrite !Hs. generalize (signed_byte a), (signed_byte b), (signed_byte c). clear. intros a b c.
  apply eq_true_iff_eq. rewrite bool_decide_eq_true.
  destruct (Z.gtb_spec a b); [rewrite Z.min_r, Z.max_l by lia|rewrite Z.min_l, Z.max_r by lia];
    destruct nocase; cbv beta iota; rewrite ?tolower_small, andb_true_iff, Z.geb_leb, !Z.leb_le; lia.
Qed.

(** ** Bracket expressions *)

Lemma parse_class_eq a b l2 neg items :
  parse (a :: b :: l2) (Some (neg, items)) =
    if a =? 92 then parse l2 (Some (neg, CEsc b :: items))
    else if a =? 93 then TClass neg items :: parse (b :: l2) None
    else match l2 with
         | c :: l3 =>
             if b =? 45 then parse l3 (Some (neg, CRange a c :: items))
             else parse (b :: l2) (Some (neg, CChar a :: items))
         | [] => parse (b :: l2) (Some (neg, CChar a :: items))
         end.
Proof. done. Qed.

Lemma class_loop_spec fuel m p plen rest c nocase neg items :
  at_rest m p plen rest -> (length rest < fuel)%nat -> byte_ok c -> bytes_ok rest ->
  exists p' plen' items' rest',
    class_loop fuel m p plen c nocase (existsb (item_match nocase c) items) =
      Some (p', plen', existsb (item_match nocase c) items') /\
    at_rest m (p' + 1) (plen' - 1) rest' /\ (length rest' <= length rest)%nat /\ bytes_ok rest' /\
    parse rest (Some (neg, items)) = TClass neg items' :: parse rest' None.
Proof.
  intros HR HF Hc. revert p plen rest items HR HF. induction fuel as [|fuel IH]; intros p plen rest items HR HF Hok; [lia|].
  cbn [class_loop]. pose proof (at_rest_len _ _ _ _ HR) as HL.
  (* a plain character, the last case of the loop *)
  assert (forall a l1, rest = a :: l1 ->
    parse rest (Some (neg, items)) = parse l1 (Some (neg, CChar a :: items)) ->
    exists p' plen' items' rest',
      class_loop fuel m (p + 1) (plen - 1) c nocase
        (existsb (item_match nocase c) items || same_char nocase a c) =
        Some (p', plen', existsb (item_match nocase c) items') /\
      at_rest m (p' + 1) (plen' - 1) rest' /\ (length rest' <= length rest)%nat /\ bytes_ok rest' /\
      parse rest (Some (neg, items)) = TClass neg items' :: parse rest' None) as Hplain.
  { intros a l1 -> ->. apply Forall_cons in Hok as [Ha Hok]. peel HR. rewrite orb_comm, same_char_spec by done.
    destruct (IH (p + 1) (plen - 1) l1 (CChar a :: items)) as (p' & plen' & it & r & HC & HR' & HL' & Hok' & HP);
      [done|simpl in HF; lia|done|].
    exists p', plen', it, r. split_and!; [exact HC|done|simpl; lia|done|done]. }
  destruct rest as [|a l1].
  - pose proof HR as HR'. peel HR'. rewrite L. mstep. subst plen. simpl.
    exists (p - 1), 1, items, []. split_and!; [done| |done|done|done].
    by replace (p - 1 + 1) with p by lia.
  - pose proof HR as HR1. peel HR1. rewrite L. mstep. rewrite zlen_cons in HL. zlen_pos.
    rewrite (proj2 (Z.eqb_neq plen 0)) by lia.
    destruct l1 as [|b l2].
    + rewrite zlen_nil in HL. subst plen. rewrite andb_false_r. simpl (1 + 0 >=? 3). cbv iota. mstep.
      destruct (a =? 93) eqn:E93.
      * exists p, (1 + 0), items, []. split_and!; [done|done|simpl; lia|constructor|]. simpl. by rewrite E93.
      * apply (Hplain a []); [done|]. simpl. by rewrite E93.
    + rewrite zlen_cons in HL. zlen_pos. rewrite Z.geb_leb, (proj2 (Z.leb_le 2 plen)) by lia.
      rewrite andb_true_r. pose proof HR1 as HR2. peel HR2.
      destruct (a =? 92) eqn:E92; [|destruct (a =? 93) eqn:E93].
      * apply Forall_cons in Hok as [_ [Hb Hok]%Forall_cons]. rewrite L0. mstep. rewrite orb_comm, schar_eq by done.
        destruct (IH (p + 2) (plen - 2) l2 (CEsc b :: items))
          as (p' & plen' & it & r & HC & HR' & HL' & Hok' & HP); [at_off HR2|simpl in HF; lia|done|].
        exists p', plen', it, r. split_and!; [exact HC|done|simpl; lia|done|].
        rewrite parse_class_eq. by rewrite E92.
      * exists p, plen, items, (b :: l2). split_and!; [done|done|simpl; lia|by apply (Forall_inv_tail Hok)|].
        rewrite parse_class_eq. by rewrite E92, E93.
      * destruct l2 as [|d l3].
        { rewrite zlen_nil in HL. rewrite Z.geb_leb, (proj2 (Z.leb_gt 3 plen)) by lia. mstep.
          apply (Hplain a [b]); [done|]. rewrite parse_class_eq. by rewrite E92, E93. }
        rewrite zlen_cons in HL. zlen_pos. rewrite Z.geb_leb, (proj2 (Z.leb_le 3 plen)) by lia.
        rewrite L0. mstep. destruct (b =? 45) eqn:E45; last first.
        { apply (Hplain a (b :: d :: l3)); [done|]. rewrite parse_class_eq. by rewrite E92, E93, E45. }
        peel HR2. at_off L1. mstep. rewrite orb_comm, in_range_spec.
        destruct (IH (p + 3) (plen - 3) l3 (CRange a d :: items))
          as (p' & plen' & it & r & HC & HR' & HL' & Hok' & HP); [at_off HR2|simpl in HF; lia|by do 3 apply Forall_inv_tail in Hok|].
        exists p', plen', it, r. split_and!; [exact HC|done|simpl; lia|done|].
        rewrite parse_class_eq. by rewrite E92, E93, E45.
Qed.

(** ** The reference semantics *)

Section Reference.
  Context (nocase : bool).
  Abbreviation gm := (gmatch nocase).

Lemma gm_star_iff ts s :
  gm (TStar :: ts) s <-> exists s1 s2, s = s1 ++ s2 /\ gm ts s2.
Proof.
  split.
  - remember (TStar :: ts) as t eqn:Et. induction 1; simplify_eq.
    + by exists [], s.
    + destruct IHgmatch as (s1 & s2 & -> & Hm); [done|]. by exists (c :: s1), s2.
  - intros (s1 & s2 & -> & Hm). induction s1 as [|c s1 IH]; [by apply gm_star_stop|].
    by apply gm_star_eat.
Qed.

Lemma gm_drop_stars l s :
  gm (TStar :: parse l None) s <-> gm (TStar :: parse (drop_stars l) None) s.
Proof.
  revert s. induction l as [|a l IH]; intros s; [done|]. cbn [parse drop_stars].
  destruct (a =? 42) eqn:E; [|cbn [parse]; by rewrite E].
  rewrite <- IH, !gm_star_iff. split.
  - intros (s1 & s2 & -> & (s3 & s4 & -> & Hm)%gm_star_iff).
    exists (s1 ++ s3), s4. by rewrite app_assoc.
  - intros (s1 & s2 & -> & Hm). exists s1, s2. split; [done|]. by apply gm_star_stop.
Qed.

(** Patterns that match the empty suffix are runs of stars. *)
Lemma parse_class_cons l neg items :
  exists it ts, parse l (Some (neg, items)) = TClass neg it :: ts.
Proof.
  remember (length l) as n eqn:Hn. revert l items Hn.
  induction n as [n IH] using lt_wf_ind. intros l items Hn.
  destruct l as [|a [|b l2]]; [by do 2 eexists|simpl; casif; by do 2 eexists|].
  rewrite parse_class_eq. destruct (a =? 92); [eapply IH; [|done]; simpl in *; lia|].
  destruct (a =? 93); [by do 2 eexists|].
  destruct l2 as [|c l3]; [eapply IH; [|done]; simpl in *; lia|].
  destruct (b =? 45); (eapply IH; [|done]; simpl in *; lia).
Qed.

Lemma gm_empty l : gm (parse l None) [] <-> drop_stars l = [].
Proof.
  induction l as [|a l IH]; cbn [parse drop_stars]; [split; [done|constructor]|].
  destruct (a =? 42) eqn:E42.
  - rewrite <- IH. split.
    + intros (s1 & s2 & Hs & Hm)%gm_star_iff. symmetry in Hs.
      apply app_eq_nil in Hs as [-> ->]. done.
    + apply gm_star_stop.
  - split; [|done]. intros Hm. exfalso. revert Hm. casif; [by inversion 1|].
    destruct l as [|b l2]; [casif; by inversion 1|]. repeat casif; try by inversion 1.
    + destruct (parse_class_cons l2 true []) as (it & ts & ->). by inversion 1.
    + destruct (parse_class_cons (b :: l2) false []) as (it & ts & ->). by inversion 1.
Qed.

(** What one non-star token does to a subject [c :: s]. *)
Definition consumes (l l' : bytes) (c : Z) (r : bool) : Prop :=
  forall s, gm (parse l None) (c :: s) <-> r = true /\ gm (parse l' None) s.

Lemma gm_lit_iff a ts c s :
  gm (TLit a :: ts) (c :: s) <-> same_letter nocase a c = true /\ gm ts s.
Proof. split; [by inversion 1|]. intros [? ?]. by constructor. Qed.
Lemma gm_any_iff ts c s : gm (TAny :: ts) (c :: s) <-> gm ts s.
Proof. split; [by inversion 1|]. by constructor. Qed.
Lemma gm_class_iff neg items ts c s :
  gm (TClass neg items :: ts) (c :: s) <-> class_match nocase neg items c = true /\ gm ts s.
Proof. split; [by inversion 1|]. intros [? ?]. by constructor. Qed.

Lemma match_one_spec m p plen a l c :
  at_rest m p plen (a :: l) -> a <> 42 -> byte_ok c -> bytes_ok (a :: l) ->
  exists (r : bool) p' plen' l', match_one m nocase p plen c =
      Some (if r then Some (p', plen') else None) /\
    (length l' <= length l)%nat /\ bytes_ok l' /\ consumes (a :: l) l' c r /\
    (r = true -> at_rest m (p' + 1) (plen' - 1) l').
Proof.
  intros HR Ha Hc Hok. pose proof (at_rest_len _ _ _ _ HR) as HL. rewrite zlen_cons in HL. zlen_pos.
  apply Forall_cons in Hok as [Hoka Hok]. pose proof (at_rest_block _ _ _ _ HR) as HB. simpl in HB.
  pose proof HR as HR1. peel HR1. unfold match_one. rewrite L. mstep.
  destruct (a =? 63) eqn:E63; boolsimp.
  { exists true, p, plen, l. split_and!; [done|done|done| |done]. subst a. intros s.
    cbn [parse]. simpl Z.eqb. cbv iota. rewrite gm_any_iff. tauto. }
  destruct (a =? 91) eqn:E91; boolsimp.
  - (* a bracket expression *)
    assert (forall neg p1 plen1 l1, at_rest m p1 plen1 l1 -> (length l1 <= length l)%nat -> bytes_ok l1 ->
      parse (a :: l) None = parse l1 (Some (neg, [])) ->
      exists (r : bool) p' plen' l',
        (let! (p, plen, mt) := class_loop (S (length m)) m p1 plen1 c nocase false in
         let mt := if neg then negb mt else mt in
         if negb mt then Some None else Some (Some (p, plen))) =
          Some (if r then Some (p', plen') else None) /\
        (length l' <= length l)%nat /\ bytes_ok l' /\ consumes (a :: l) l' c r /\
        (r = true -> at_rest m (p' + 1) (plen' - 1) l')) as Hcls.
    { intros neg p1 plen1 l1 HR' Hl1 Hok1 HP.
      destruct (class_loop_spec (S (length m)) m p1 plen1 l1 c nocase neg [])
        as (p' & plen' & it & r & HC & HR2 & Hr & Hok2 & HP'); [done|lia|done|done|].
      cbn [existsb] in HC. rewrite HC. mstep.
      exists (class_match nocase neg it c), p', plen', r. split_and!; [|lia|done| |done].
      - unfold class_match. destruct neg, (existsb _ it); done.
      - intros s. rewrite HP, HP'. apply gm_class_iff. }
    destruct l as [|b l2].
    + peel HR1. rewrite L0. mstep. simpl Z.eqb. cbv iota.
      assert (at_rest m (p + 1) (plen - 1) []) as HR2.
      { destruct HR as (A & -> & -> & ->). exists (A ++ [a]). rewrite <- app_assoc.
        split; [done|]. zlia. }
      destruct (class_loop_spec (S (length m)) m (p + 1) (plen - 1) [] c nocase false [])
        as (p' & plen' & it & r & HC & HR3 & Hr & Hok2 & HP'); [done|simpl; lia|done|done|].
      injection HP' as <- HP'. cbn [existsb] in HC. rewrite HC. mstep.
      exists false, p', plen', r. split_and!; [done|done|done| |done].
      intros s. subst a. simpl. rewrite gm_class_iff. unfold class_match. simpl. naive_solver.
    + pose proof HR1 as HR2. peel HR2. rewrite L0. mstep. destruct (b =? 94) eqn:E94.
      * apply (Hcls true _ _ l2); [at_off HR2|simpl; lia|by apply (Forall_inv_tail Hok)|]. subst a. simpl. by rewrite E94.
      * apply (Hcls false _ _ (b :: l2)); [done|done|done|]. subst a.
        cbn [parse Z.eqb Pos.eqb]. by rewrite E94.
  - destruct l as [|b l2].
    + rewrite zlen_nil in HL. rewrite Z.geb_leb, (proj2 (Z.leb_gt 2 plen)), andb_false_r by lia.
      rewrite L. mstep. rewrite same_char_spec by done. exists (same_letter nocase a c), p, plen, [].
      split_and!; [by destruct (same_letter nocase a c)|done|done| |done].
      intros s. cbn [parse].
      rewrite (proj2 (Z.eqb_neq a 42)), (proj2 (Z.eqb_neq a 63)), (proj2 (Z.eqb_neq a 91)) by done.
      apply gm_lit_iff.
    + rewrite zlen_cons in HL. zlen_pos.
      rewrite Z.geb_leb, (proj2 (Z.leb_le 2 plen)), andb_true_r by lia.
      pose proof HR1 as HR2. peel HR2.
      destruct (a =? 92) eqn:E92.
      * rewrite L0. mstep. apply Forall_cons in Hok as [Hb Hok]. rewrite same_char_spec by done. exists (same_letter nocase b c), (p + 1), (plen - 1), l2.
        split_and!; [by destruct (same_letter nocase b c)|simpl; lia|done| |done].
        intros s. cbn [parse]. rewrite (proj2 (Z.eqb_neq a 42)), (proj2 (Z.eqb_neq a 63)),
          (proj2 (Z.eqb_neq a 91)), E92 by done. apply gm_lit_iff.
      * rewrite L. mstep. rewrite same_char_spec by done. exists (same_letter nocase a c), p, plen, (b :: l2).
        split_and!; [by destruct (same_letter nocase a c)|done|done| |done].
        intros s. cbn [parse]. rewrite (proj2 (Z.eqb_neq a 42)), (proj2 (Z.eqb_neq a 63)),
          (proj2 (Z.eqb_neq a 91)), E92 by done. apply gm_lit_iff.
Qed.

(** ** The matcher *)

Lemma star_loop_spec (P : bytes -> Prop) rec s :
  bytes_ok s -> (forall c s', bytes_ok (c :: s') -> exists b, rec (c :: s') = Some b /\ (b = true <-> P (c :: s'))) -> ~ P [] ->
  exists b, star_loop rec s = Some b /\ (b = true <-> exists s1 s2, s = s1 ++ s2 /\ P s2).
Proof.
  intros Hs Hrec HPn. induction s as [|c s IH]; cbn [star_loop].
  - exists false. split; [done|]. split; [done|]. intros (s1 & s2 & Hn & HP).
    symmetry in Hn. apply app_eq_nil in Hn as [-> ->]. done.
  - specialize (IH (Forall_inv_tail Hs)). destruct (Hrec c s Hs) as (b & -> & Hb). mstep. destruct b.
    + exists true. split; [done|]. split; [|done]. intros _. exists [], (c :: s). split; [done|].
      by apply Hb.
    + destruct IH as (b & -> & IH). exists b. split; [done|]. rewrite IH. split.
      * intros (s1 & s2 & -> & HP). by exists (c :: s1), s2.
      * intros (s1 & s2 & He & HP). destruct s1 as [|d s1].
        { simpl in He. subst s2. apply Hb in HP. done. }
        injection He as -> ->. eauto.
Qed.

Lemma stringmatchlen_fuel_spec fuel m p plen rest c s :
  at_rest m p plen rest -> (length rest < fuel)%nat -> bytes_ok rest -> bytes_ok (c :: s) ->
  exists b, stringmatchlen_fuel m nocase fuel p plen (c :: s) = Some b /\
    (b = true <-> gm (parse rest None) (c :: s)).
Proof.
  revert p plen rest c s. induction fuel as [|fuel IH]; intros p plen rest c s HR HF Hok Hs; [lia|].
  cbn [stringmatchlen_fuel]. pose proof (at_rest_len _ _ _ _ HR) as HL.
  pose proof (at_rest_block _ _ _ _ HR) as HB.
  destruct rest as [|a l].
  { rewrite HL. simpl. exists false. split; [done|]. split; [done|]. inversion 1. }
  rewrite zlen_cons in HL. zlen_pos. rewrite (proj2 (Z.eqb_neq plen 0)) by lia.
  pose proof HR as HR1. peel HR1. rewrite L. mstep. simpl in HB, HF.
  destruct (a =? 42) eqn:E42; boolsimp.
  - destruct (skip_stars_spec (S (length m)) m p plen l) as (p' & plen' & -> & HR2); [done|lia|].
    mstep. assert (parse (a :: l) None = TStar :: parse l None) as -> by (subst a; done).
    setoid_rewrite (gm_drop_stars l). pose proof (at_rest_len _ _ _ _ HR2) as HL2.
    destruct (drop_stars l) as [|d l'] eqn:Ed.
    + rewrite zlen_nil in HL2. rewrite (proj2 (Z.eqb_eq plen' 1)) by lia.
      exists true. split; [done|]. split; [|done]. intros _. apply gm_star_iff.
      exists (c :: s), []. rewrite app_nil_r. split; [done|constructor].
    + rewrite zlen_cons in HL2. zlen_pos. rewrite (proj2 (Z.eqb_neq plen' 1)) by lia.
      pose proof (drop_stars_length l) as Hd. rewrite Ed in Hd. simpl in Hd.
      assert (bytes_ok (d :: l')) as Hokd.
      { rewrite <- Ed. clear - Hok. apply Forall_inv_tail in Hok. induction Hok as [|x l Hx Hl IHl]; simpl; [constructor|]. casif; [done|by constructor]. }
      setoid_rewrite gm_star_iff. apply star_loop_spec; [done| |].
      * intros c' s' Hs'. apply IH; [done|simpl; lia|done|done].
      * rewrite gm_empty. pose proof (drop_stars_head l d l' Ed) as Hne.
        cbn [drop_stars]. by rewrite (proj2 (Z.eqb_neq d 42)).
  - destruct (match_one_spec m p plen a l c) as (r & p' & plen' & l' & -> & Hl' & Hok' & HC & HR2);
      [done|done|by apply (Forall_inv Hs)|done|]. mstep. setoid_rewrite (HC s). destruct r; mstep; last first.
    { exists false. split; [done|]. naive_solver. }
    specialize (HR2 eq_refl). destruct s as [|d s].
    + rewrite (skip_trailing_spec _ _ _ _ l') by (done || lia). mstep.
      eexists. split; [done|]. rewrite gm_empty, Z.eqb_eq. split.
      * intros Hz. split; [done|]. by apply zlen_0_inv.
      * by intros [_ ->].
    + destruct (IH (p' + 1) (plen' - 1) l' d s) as (b & -> & Hb); [done|lia|done|by apply (Forall_inv_tail Hs)|].
      exists b. split; [done|]. rewrite Hb. naive_solver.
Qed.
End Reference.

(** C34. The glob matcher on a terminated pattern never reads outside the pattern and its terminator, always
    returns, and answers whether a non-empty subject matches the pattern: literals, [?], [*], escapes, bracket expressions
    with ranges and negation, with or without case folding.  The empty subject is accepted by the empty pattern only, not
    by a run of stars. *)
Theorem stringmatchlen_correct nocase pat s :
  bytes_ok pat -> bytes_ok s ->
  exists b, stringmatchlen (pat ++ [0]) (zlen pat) s nocase = Some b /\
    (b = true <-> if decide (s = []) then pat = [] else gmatch nocase (parse pat None) s).
Proof.
  intros Hp Hs. unfold stringmatchlen. destruct s as [|c s].
  - cbn [stringmatchlen_fuel]. eexists. split; [done|]. rewrite decide_True, Z.eqb_eq by done. split; [apply zlen_0_inv|by intros ->].
  - rewrite decide_False by done. apply stringmatchlen_fuel_spec; [by exists []| |done|done]. unfold zlen. lia.
Qed.

(** The empty subject is the one exception: the matcher then accepts only the
    empty pattern, although a run of stars matches the empty string too. *)
Theorem stringmatchlen_empty_subject nocase pat :
  (stringmatchlen (pat ++ [0]) (zlen pat) [] nocase = Some true <-> pat = []) /\
  (gmatch nocase (parse pat None) [] <-> drop_stars pat = []) /\
  stringmatchlen ([42] ++ [0]) (zlen [42]) [] nocase = Some false /\
  gmatch nocase (parse [42] None) [].
Proof.
  split_and!; [|apply gm_empty|done|by apply gm_empty].
  unfold stringmatchlen. cbn [stringmatchlen_fuel]. split.
  - intros [= Hz]. boolsimp. by apply zlen_0_inv.
  - by intros ->.
Qed.

(** [h[a-e]*l?] against "HELLO", ignoring case. *)
Lemma stringmatchlen_correct_witness :
  exists b, stringmatchlen ([104;91;97;45;101;93;42;108;63] ++ [0]) 9 [72;69;76;76;79] true = Some b /\
    (b = true <-> gmatch true (parse [104;91;97;45;101;93;42;108;63] None) [72;69;76;76;79]).
Proof.
  apply (stringmatchlen_correct true [104;91;97;45;101;93;42;108;63] [72;69;76;76;79]); repeat constructor; lia.
Defined.

Example glob_run :
  stringmatchlen ([104;91;97;45;101;93;42;108;63] ++ [0]) 9 [72;69;76;76;79] true = Some true.
Proof. vm_compute. reflexivity. Qed.
