(* ===== verification/Sds.v ===== *)
(** * Dynamic strings (sds.c): quoting, splitting, ranges

    An [sds] is its byte list.  A C string argument is the list of the bytes before the
    terminator: [at_ p i] is [*(p+i)], 0 at the end, and [p++] is the tail. *)

From Stdlib Require Import ZArith Lia.
From stdpp Require Import base numbers option list.
From S2P Require Import Prelude Memory.

Local Open Scope Z_scope.
Local Open Scope redis_scope.

Definition at_ (p : bytes) (i : nat) : Z := default 0 (p !! i).

(** The C string at the start of a block. *)
Fixpoint cstr (l : bytes) : bytes :=
  match l with
  | [] => []
  | c :: l => if c =? 0 then [] else c :: cstr l
  end.

(** [isprint] and [isspace] in the C locale. *)
Definition isprint (c : Z) : bool := (32 <=? c) && (c <=? 126).
Definition isspace (c : Z) : bool := (c =? 32) || ((9 <=? c) && (c <=? 13)).

(** ** Quoted representation *)

Definition hex_char (d : Z) : Z := if d <? 10 then 48 + d else 87 + d.

Definition repr_char (c : Z) : bytes :=
  if (c =? 92) || (c =? 34) then [92; c]
  else if c =? 10 then [92; 110]
  else if c =? 13 then [92; 114]
  else if c =? 9 then [92; 116]
  else if c =? 7 then [92; 97]
  else if c =? 8 then [92; 98]
  else if isprint c then [c]
  else [92; 120; hex_char (c / 16); hex_char (c mod 16)].

Definition sdscatrepr (s p : bytes) : bytes := s ++ [34] ++ flat_map repr_char p ++ [34].

Definition is_hex_digit (c : Z) : bool :=
  ((48 <=? c) && (c <=? 57)) || ((97 <=? c) && (c <=? 102)) || ((65 <=? c) && (c <=? 70)).

Definition hex_digit_to_int (c : Z) : Z :=
  if (48 <=? c) && (c <=? 57) then c - 48
  else if (97 <=? c) && (c <=? 102) then c - 87
  else if (65 <=? c) && (c <=? 70) then c - 55
  else 0.

(** ** Splitting a line into arguments *)

(** [inq] and [insq]: inside double or single quotes. *)
Inductive quotes := NoQuotes | InQ | InSq.

Definition unescape (c : Z) : Z :=
  if c =? 110 then 10 else if c =? 114 then 13 else if c =? 116 then 9
  else if c =? 98 then 8 else if c =? 97 then 7 else c.

(** [while(!done)]: the token and the rest of the line, or [None] inside for [goto err].
    Each turn consumes a byte or ends the loop. *)
Fixpoint token_loop (fuel : nat) (q : quotes) (p current : bytes) : option (option (bytes * bytes)) :=
  match fuel with
  | O => None
  | S fuel =>
      let c0 := at_ p 0 in
      let closing :=
        if negb (at_ p 1 =? 0) && negb (isspace (at_ p 1)) then Some None
        else Some (Some (current, tail p)) in
      match q with
      | InQ =>
          if (c0 =? 92) && (at_ p 1 =? 120) && is_hex_digit (at_ p 2) && is_hex_digit (at_ p 3) then
            let byte := u8 (hex_digit_to_int (at_ p 2) * 16 + hex_digit_to_int (at_ p 3)) in
            token_loop fuel InQ (tail (drop 3 p)) (current ++ [byte])
          else if (c0 =? 92) && negb (at_ p 1 =? 0) then
            token_loop fuel InQ (tail (tail p)) (current ++ [unescape (at_ p 1)])
          else if c0 =? 34 then closing
          else if c0 =? 0 then Some None
          else token_loop fuel InQ (tail p) (current ++ [c0])
      | InSq =>
          if (c0 =? 92) && (at_ p 1 =? 39) then
            token_loop fuel InSq (tail (tail p)) (current ++ [39])
          else if c0 =? 39 then closing
          else if c0 =? 0 then Some None
          else token_loop fuel InSq (tail p) (current ++ [c0])
      | NoQuotes =>
          if (c0 =? 32) || (c0 =? 10) || (c0 =? 13) || (c0 =? 9) || (c0 =? 0) then
            Some (Some (current, tail p))
          else if c0 =? 34 then token_loop fuel InQ (tail p) current
          else if c0 =? 39 then token_loop fuel InSq (tail p) current
          else token_loop fuel NoQuotes (tail p) (current ++ [c0])
      end
  end.

(** [while ( *p && isspace( *p)) p++;] *)
Fixpoint skip_blanks (p : bytes) : bytes :=
  match p with
  | c :: p' => if isspace c then skip_blanks p' else p
  | [] => []
  end.

(** The outer loop; every token consumes at least one byte. *)
Fixpoint splitargs_loop (fuel : nat) (p : bytes) (vector : list bytes) : option (option (list bytes)) :=
  match fuel with
  | O => None
  | S fuel =>
      match skip_blanks p with
      | [] => Some (Some vector)
      | p =>
          let! t := token_loop (S (length p)) NoQuotes p [] in
          match t with
          | None => Some None
          | Some (current, p) => splitargs_loop fuel p (vector ++ [current])
          end
      end
  end.

(** The inner option is the returned vector, [None] for NULL. *)
Definition sdssplitargs (line : bytes) : option (option (list bytes)) :=
  splitargs_loop (S (length (cstr line))) (cstr line) [].

(** ** Splitting by a separator and joining *)

(** The loop over [j] from the position [j] on, [start] being the beginning of the
    current token; [None] inside never occurs, since memory is available. *)
Fixpoint splitlen_loop (fuel : nat) (s sep : bytes) (start j : Z) (tokens : list bytes)
    : option (list bytes * Z) :=
  if j <? zlen s - (zlen sep - 1) then
    match fuel with
    | O => None
    | S fuel =>
        let! w := load s j (zlen sep) in
        if decide (w = sep) then
          let! t := load s start (j - start) in
          splitlen_loop fuel s sep (j + zlen sep) (j + zlen sep - 1 + 1) (tokens ++ [t])
        else splitlen_loop fuel s sep start (j + 1) tokens
    end
  else Some (tokens, start).

Definition sdssplitlen (s sep : bytes) : option (option (list bytes)) :=
  if zlen sep <? 1 then Some None else
  if zlen s =? 0 then Some (Some []) else
  let! (tokens, start) := splitlen_loop (S (length s)) s sep 0 0 [] in
  let! t := load s start (zlen s - start) in
  Some (Some (tokens ++ [t])).

Fixpoint sdsjoinsds (argv : list bytes) (sep : bytes) : bytes :=
  match argv with
  | [] => []
  | [a] => a
  | a :: argv => a ++ sep ++ sdsjoinsds argv sep
  end.

(** ** Ranges, trimming, comparison *)

Definition sdsrange (s : bytes) (start end_ : Z) : option bytes :=
  let len := zlen s in
  if len =? 0 then Some s else
  let start := if start <? 0 then (if len + start <? 0 then 0 else len + start) else start in
  let end_ := if end_ <? 0 then (if len + end_ <? 0 then 0 else len + end_) else end_ in
  let newlen := if start >? end_ then 0 else end_ - start + 1 in
  let '(start, newlen) :=
    if negb (newlen =? 0) then
      if start >=? len then (start, 0)
      else if end_ >=? len then
        let end_ := len - 1 in (start, if start >? end_ then 0 else end_ - start + 1)
      else (start, newlen)
    else (0, newlen) in
  let! s := (if negb (start =? 0) && negb (newlen =? 0) then memmove s 0 start newlen else Some s) in
  load s 0 newlen.

(** [strchr(cset,c)] also finds the terminator of [cset]. *)
Definition in_cset (cset : bytes) (c : Z) : bool := (c =? 0) || existsb (Z.eqb c) (cstr cset).

(** [while(sp <= end && strchr(cset, *sp)) sp++;] *)
Fixpoint trim_left (fuel : nat) (s cset : bytes) (sp : Z) : option Z :=
  if sp <=? zlen s - 1 then
    let! c := load1 s sp in
    if in_cset cset c then
      match fuel with O => None | S fuel => trim_left fuel s cset (sp + 1) end
    else Some sp
  else Some sp.
(** [while(ep > sp && strchr(cset, *ep)) ep--;] *)
Fixpoint trim_right (fuel : nat) (s cset : bytes) (sp ep : Z) : option Z :=
  if ep >? sp then
    let! c := load1 s ep in
    if in_cset cset c then
      match fuel with O => None | S fuel => trim_right fuel s cset sp (ep - 1) end
    else Some ep
  else Some ep.

Definition sdstrim (s cset : bytes) : option bytes :=
  let! sp := trim_left (length s) s cset 0 in
  let! ep := trim_right (length s) s cset sp (zlen s - 1) in
  let len := if sp >? ep then 0 else ep - sp + 1 in
  let! s := (if negb (sp =? 0) then memmove s 0 sp len else Some s) in
  load s 0 len.

(** [memcmp] on equal lengths, then the lengths. *)
Fixpoint memcmp (a b : bytes) : Z :=
  match a, b with
  | x :: a, y :: b => if x =? y then memcmp a b else x - y
  | _, _ => 0
  end.
Definition sdscmp (s1 s2 : bytes) : Z :=
  let minlen := if zlen s1 <? zlen s2 then zlen s1 else zlen s2 in
  let cmp := memcmp (take (Z.to_nat minlen) s1) (take (Z.to_nat minlen) s2) in
  if cmp =? 0 then (if zlen s1 >? zlen s2 then 1 else if zlen s1 <? zlen s2 then -1 else 0)
  else cmp.
