(* ===== verification/SdsSpec.v ===== *)
(** * Contract of the string functions of sds.c *)

From Stdlib Require Import ZArith Lia.
From stdpp Require Import base numbers option list.
From S2P Require Import Prelude Memory Bits Sds.

Local Open Scope Z_scope.
Local Open Scope redis_scope.

(** ** Quoting and splitting *)

(** The shapes of [repr_char], checked on the 256 bytes. *)
Definition repr_check (c : Z) : bool :=
  match repr_char c with
  | [a] => (a =? c) && negb (a =? 92) && negb (a =? 34) && negb (a =? 0)
  | [a; b] => (a =? 92) && (unescape b =? c) && negb (b =? 0) && negb (b =? 120)
  | [a; x; h1; h2] => (a =? 92) && (x =? 120) && is_hex_digit h1 && is_hex_digit h2 &&
      (u8 (hex_digit_to_int h1 * 16 + hex_digit_to_int h2) =? c) && negb (h1 =? 0) && negb (h2 =? 0)
  | _ => false
  end.
Lemma repr_checked c : byte_ok c -> repr_check c = true.
Proof. by apply byte_forall; vm_compute. Qed.

(** A quoted string consists of printable characters. *)
Definition printable (b : Z) : Prop := 32 <= b <= 126.

Lemma repr_printable c : byte_ok c -> Forall printable (repr_char c).
Proof.
  intros Hc. apply (byte_forall (fun c => forallb isprint (repr_char c))) in Hc; [|by vm_compute].
  apply Forall_forall. intros b Hb. rewrite forallb_forall in Hc. apply list_elem_of_In, Hc in Hb.
  unfold isprint in Hb. unfold printable. boolsimp. lia.
Qed.

(** One quoted byte. *)
Lemma repr_step fuel c X cur :
  byte_ok c ->
  token_loop (S fuel) InQ (repr_char c ++ X) cur = token_loop fuel InQ X (cur ++ [c]).
Proof.
  intros Hc%repr_checked. unfold repr_check in Hc. cbn [token_loop].
  destruct (repr_char c) as [|a [|b [|x [|y [|]]]]]; try done; boolsimp; subst;
    unfold at_; simpl; simpl in *.
  - rewrite (proj2 (Z.eqb_neq c 92)), (proj2 (Z.eqb_neq c 34)), (proj2 (Z.eqb_neq c 0)) by done. done.
  - rewrite (proj2 (Z.eqb_neq b 120)), (proj2 (Z.eqb_neq b 0)) by done. done.
  - repeat match goal with H : is_hex_digit _ = true |- _ => rewrite H; clear H end. done.
Qed.

(** What may follow a closing quote. *)
Definition after_token (X : bytes) : Prop := X = [] \/ exists Y, X = 32 :: Y.

Lemma quoted_loop p X cur fuel :
  bytes_ok p -> after_token X -> (length p < fuel)%nat ->
  token_loop fuel InQ (flat_map repr_char p ++ 34 :: X) cur = Some (Some (cur ++ p, X)).
Proof.
  intros Hp HX. revert cur fuel. induction Hp as [|c p Hc Hp IH]; intros cur fuel Hf.
  - destruct fuel as [|fuel]; [simpl in Hf; lia|]. simpl. rewrite app_nil_r.
    destruct HX as [-> | [Y ->]]; done.
  - destruct fuel as [|fuel]; [simpl in Hf; lia|]. cbn [flat_map].
    rewrite <- app_assoc, repr_step, IH by (simpl in Hf; done || lia). by rewrite <- app_assoc.
Qed.

Lemma repr_length p : (length p <= length (flat_map repr_char p))%nat \/ ~ bytes_ok p.
Proof.
  induction p as [|c p [IH | Hn]]; [left; simpl; lia| |right; by intros [_ ?]%Forall_cons].
  destruct (decide (byte_ok c)) as [Hc%repr_checked | Hn]; [left|right; by intros [? _]%Forall_cons].
  simpl. rewrite length_app. unfold repr_check in Hc. destruct (repr_char c); [done|]. simpl. lia.
Qed.

Lemma open_quote fuel Y cur : token_loop (S fuel) NoQuotes (34 :: Y) cur = token_loop fuel InQ Y cur.
Proof. done. Qed.

(** A quoted string is read back as one token. *)
Lemma quoted_token p X :
  bytes_ok p -> after_token X ->
  token_loop (S (length (sdscatrepr [] p ++ X))) NoQuotes (sdscatrepr [] p ++ X) [] = Some (Some (p, X)).
Proof.
  intros Hp HX. unfold sdscatrepr. simpl app. rewrite <- app_assoc. simpl app.
  rewrite open_quote, quoted_loop; [done|done|done|].
  destruct (repr_length p) as [Hl | Hn]; [|done]. simpl. rewrite length_app. simpl. lia.
Qed.

Definition quote_line (ss : list bytes) : bytes := sdsjoinsds (map (sdscatrepr []) ss) [32].

Lemma quote_line_printable ss : Forall bytes_ok ss -> Forall printable (quote_line ss).
Proof.
  assert (forall p, bytes_ok p -> Forall printable (sdscatrepr [] p)) as Hq.
  { intros p Hp. unfold sdscatrepr. simpl. apply Forall_cons. split; [done|].
    apply Forall_app. split; [|by apply Forall_cons].
    induction Hp as [|c p Hc Hp IH]; simpl; [done|]. apply Forall_app. split; [by apply repr_printable|done]. }
  unfold quote_line. induction 1 as [|s ss Hs Hss IH]; cbn [map sdsjoinsds]; [done|].
  destruct (map (sdscatrepr []) ss) eqn:E; [by apply Hq|].
  apply Forall_app. split; [by apply Hq|]. simpl app. apply Forall_cons. by split.
Qed.
Lemma cstr_id l : Forall (fun b => b <> 0) l -> cstr l = l.
Proof. induction 1 as [|c l Hc _ IH]; simpl; [done|]. by rewrite (proj2 (Z.eqb_neq c 0)), IH. Qed.

Lemma skip_quoted p X : skip_blanks (sdscatrepr [] p ++ X) = sdscatrepr [] p ++ X.
Proof. done. Qed.

Lemma splitargs_quoted ss fuel vector :
  Forall bytes_ok ss -> (length ss < fuel)%nat ->
  splitargs_loop fuel (quote_line ss) vector = Some (Some (vector ++ ss)) /\
  splitargs_loop fuel (32 :: quote_line ss) vector = Some (Some (vector ++ ss)).
Proof.
  intros Hss. revert fuel vector. induction Hss as [|s ss Hs Hss IH]; intros fuel vector Hf.
  { destruct fuel; [simpl in Hf; lia|]. by rewrite app_nil_r. }
  destruct fuel as [|fuel]; [simpl in Hf; lia|]. simpl in Hf. cbn [splitargs_loop skip_blanks].
  change (isspace 32) with true. cbv iota.
  assert (exists X, quote_line (s :: ss) = sdscatrepr [] s ++ X /\ after_token X /\
    forall v, splitargs_loop fuel X v = Some (Some (v ++ ss))) as (X & -> & HX & HL).
  { unfold quote_line. simpl. destruct ss as [|s2 ss].
    - exists []. simpl. rewrite app_nil_r. split; [done|]. split; [by left|]. intros v.
      apply (IH fuel v). simpl in *. lia.
    - eexists. split; [done|]. split; [right; eauto|]. intros v. apply (IH fuel v). lia. }
  rewrite skip_quoted. pose proof (quoted_token s X Hs HX) as Ht. unfold sdscatrepr in *.
  simpl app in *. cbv iota. rewrite Ht. mstep. rewrite HL, <- app_assoc. done.
Qed.

(** A quoted line is split into the arguments it was made of. *)
Lemma sdssplitargs_quoted ss :
  Forall bytes_ok ss -> sdssplitargs (quote_line ss) = Some (Some ss).
Proof.
  intros Hss. unfold sdssplitargs. rewrite cstr_id
    by (eapply Forall_impl; [by apply quote_line_printable|unfold printable; intros; lia]).
  apply (splitargs_quoted ss _ [] Hss).
  assert (length ss <= length (quote_line ss))%nat; [|lia].
  unfold quote_line. clear. induction ss as [|s ss IH]; simpl; [lia|].
  destruct (map (sdscatrepr []) ss) eqn:E; simpl in *.
  - destruct ss; [|done]. simpl. lia.
  - rewrite !length_app in *. simpl in *. lia.
Qed.

(** Round trip: a line of arguments quoted by [sdscatrepr] and separated by spaces is
    split by [sdssplitargs] into exactly the arguments, whatever bytes they contain. *)
Theorem sdssplitargs_roundtrip ss :
  Forall bytes_ok ss -> sdssplitargs (quote_line ss) = Some (Some ss).
Proof. apply sdssplitargs_quoted. Qed.

(** Whatever the line, the splitter stops: every turn of its loops consumes a byte. *)
Lemma tail_length {A} (l : list A) : (length (tail l) <= length l)%nat.
Proof. destruct l; simpl; lia. Qed.

Lemma token_loop_total fuel q p cur :
  (length p < fuel)%nat ->
  exists r, token_loop fuel q p cur = Some r /\
    forall cur' p', r = Some (cur', p') -> (length p' <= length (tail p))%nat.
Proof.
  revert q p cur. induction fuel as [|fuel IH]; intros q p cur Hf; [lia|].
  assert (forall q p' cur', p <> [] -> (length p' <= length (tail p))%nat ->
    exists r, token_loop fuel q p' cur' = Some r /\
      forall c p2, r = Some (c, p2) -> (length p2 <= length (tail p))%nat) as Hrec.
  { intros q' p' cur' Hp Hp'. destruct (IH q' p' cur') as (r & -> & Hr); [destruct p; [done|]; simpl in *; lia|].
    exists r. split; [done|]. intros c p2 Hc%Hr. pose proof (tail_length p'). lia. }
  assert (forall r : option (bytes * bytes), r = None \/ (exists c, r = Some (c, tail p)) ->
    exists r', Some r = Some r' /\ forall c p2, r' = Some (c, p2) -> (length p2 <= length (tail p))%nat) as Hstop.
  { intros r Hr. exists r. split; [done|]. intros c p2 ->. destruct Hr as [|[c' [= _ <-]]]; [done|lia]. }
  cbn [token_loop]. destruct p as [|x p].
  { unfold at_. simpl. destruct q; simpl; apply Hstop; eauto. }
  assert (at_ (x :: p) 0 = x) as -> by done. cbn [tail drop] in *.
  pose proof (tail_length p). pose proof (tail_length (drop 2 p)). pose proof (length_drop p 2).
  repeat casif; try (apply Hstop; by eauto); destruct q; repeat casif;
    try (apply Hstop; by eauto); apply Hrec; try done; lia.
Qed.

Lemma skip_blanks_length p : (length (skip_blanks p) <= length p)%nat.
Proof. induction p as [|c p IH]; simpl; [lia|]. destruct (isspace c); simpl; lia. Qed.

Lemma splitargs_loop_total fuel p vector :
  (length p < fuel)%nat -> exists r, splitargs_loop fuel p vector = Some r.
Proof.
  revert p vector. induction fuel as [|fuel IH]; intros p vector Hf; [lia|]. cbn [splitargs_loop].
  pose proof (skip_blanks_length p). destruct (skip_blanks p) as [|x q]; [by eexists|].
  destruct (token_loop_total (S (length (x :: q))) NoQuotes (x :: q) []) as (r & -> & Hr); [lia|]. mstep.
  destruct r as [[cur p']|]; [|by eexists]. apply IH. specialize (Hr _ _ eq_refl). simpl in *. lia.
Qed.

Lemma sdssplitargs_total line : exists r, sdssplitargs line = Some r.
Proof. apply splitargs_loop_total. lia. Qed.

(** ** Splitting by a separator *)

Definition joined_prefix (sep : bytes) (tokens : list bytes) : bytes :=
  flat_map (fun t => t ++ sep) tokens.

Lemma join_last sep tokens t : sdsjoinsds (tokens ++ [t]) sep = joined_prefix sep tokens ++ t.
Proof.
  induction tokens as [|a tokens IH]; [done|]. cbn [joined_prefix flat_map app].
  rewrite <- !app_assoc. fold (joined_prefix sep tokens). rewrite <- IH.
  by destruct tokens.
Qed.

Lemma load_range (s : bytes) p n :
  0 <= p -> 0 <= n -> p + n <= zlen s -> load s p n = Some (take (Z.to_nat n) (drop (Z.to_nat p) s)).
Proof. intros. unfold load. by rewrite decide_True by lia. Qed.

Lemma take_range (s : bytes) a b :
  0 <= a <= b -> take (Z.to_nat a) s ++ take (Z.to_nat (b - a)) (drop (Z.to_nat a) s) = take (Z.to_nat b) s.
Proof.
  intros Hab. replace (Z.to_nat b) with (Z.to_nat a + Z.to_nat (b - a))%nat by lia.
  apply take_take_drop.
Qed.

Lemma splitlen_loop_spec fuel s sep start j tokens :
  0 < zlen sep -> 0 <= start <= j -> start <= zlen s -> joined_prefix sep tokens = take (Z.to_nat start) s ->
  zlen s - j < Z.of_nat fuel ->
  exists tokens' start', splitlen_loop fuel s sep start j tokens = Some (tokens', start') /\
    0 <= start' <= zlen s /\ joined_prefix sep tokens' = take (Z.to_nat start') s.
Proof.
  intros Hsep. revert start j tokens. induction fuel as [|fuel IH]; intros start j tokens Hj Hs Hpre Hf;
    cbn [splitlen_loop]; casif; try lia; try (exists tokens, start; split_and!; done || lia).
  rewrite (load_range s j) by lia. mstep. case_decide as Hw.
  - rewrite load_range by lia. mstep. apply IH; try lia.
    unfold joined_prefix in *. rewrite flat_map_app, Hpre. cbn [flat_map]. rewrite app_nil_r, app_assoc, take_range by lia.
    rewrite <- Hw at 1. pose proof (take_range s j (j + zlen sep) ltac:(lia)) as Ht.
    by replace (j + zlen sep - j) with (zlen sep) in Ht by lia.
  - by apply IH; try lia.
Qed.

(** Round trip: joining the tokens of [sdssplitlen] with the separator gives the
    string back; it never reads outside the string. *)
Theorem sdssplitlen_roundtrip s sep :
  s <> [] -> sep <> [] ->
  exists tokens, sdssplitlen s sep = Some (Some tokens) /\ sdsjoinsds tokens sep = s.
Proof.
  intros Hs Hsep. unfold sdssplitlen.
  assert (0 < zlen sep) by (destruct sep; [done|]; rewrite zlen_cons; zlia).
  assert (0 < zlen s) by (destruct s; [done|]; rewrite zlen_cons; zlia).
  rewrite (proj2 (Z.ltb_ge _ _)), (proj2 (Z.eqb_neq _ _)) by lia.
  destruct (splitlen_loop_spec (S (length s)) s sep 0 0 []) as (tokens & start & -> & Hst & Hpre);
    [lia|lia|lia|done|unfold zlen; lia|]. mstep.
  rewrite load_range by lia. mstep. eexists. split; [done|].
  rewrite join_last, Hpre, take_range by lia. apply take_ge. unfold zlen. lia.
Qed.

(** ** Ranges and trimming *)

(** The functional behaviour of [sdsrange]. *)
Lemma sdsrange_spec s start end_ :
  let len := zlen s in
  let first := if start <? 0 then Z.max 0 (len + start) else start in
  let last := Z.min (len - 1) (if end_ <? 0 then Z.max 0 (len + end_) else end_) in
  sdsrange s start end_ = Some (take (Z.to_nat (last - first + 1)) (drop (Z.to_nat first) s)).
Proof.
  intros len first last. unfold sdsrange. fold len.
  destruct (len =? 0) eqn:E0; boolsimp.
  { apply zlen_0_inv in E0. subst s. by rewrite drop_nil, take_nil. }
  assert (0 < len) by (unfold len in *; zlia).
  replace (if start <? 0 then if len + start <? 0 then 0 else len + start else start) with first
    by (subst first; repeat casif; lia).
  set (e0 := if end_ <? 0 then Z.max 0 (len + end_) else end_) in *.
  replace (if end_ <? 0 then if len + end_ <? 0 then 0 else len + end_ else end_) with e0
    by (subst e0; repeat casif; lia).
  assert (0 <= first) by (subst first; casif; lia). clearbody first e0.
  assert (forall st n, 0 <= st -> 0 <= n -> (n = 0 \/ st + n <= len) ->
    (let! s0 := (if negb (st =? 0) && negb (n =? 0) then memmove s 0 st n else Some s) in load s0 0 n)
    = Some (take (Z.to_nat n) (drop (Z.to_nat st) s))) as Hmove.
  { intros st n Hst Hn Hor. destruct (st =? 0) eqn:Es; boolsimp; simpl.
    { subst st. rewrite load_range by (unfold len in *; lia). by rewrite drop_0. }
    destruct (n =? 0) eqn:En; boolsimp; simpl.
    { subst n. rewrite load_range by (unfold len in *; lia). by rewrite !take_0. }
    unfold memmove. rewrite load_range by (unfold len in *; lia). mstep.
    set (w := take (Z.to_nat n) (drop (Z.to_nat st) s)).
    assert (zlen w = n) as Hw by (subst w; rewrite zlen_take, zlen_drop; unfold len in *; lia).
    unfold store. rewrite decide_True by (unfold len in *; lia). mstep. rewrite take_0. simpl app.
    apply (load_app [] w); done. }
  subst last. rewrite Z.gtb_ltb, Z.geb_leb.
  destruct (e0 <? first) eqn:E1; boolsimp; simpl negb; cbv iota.
  { rewrite Hmove by lia. rewrite (Z2Nat.nonpos (Z.min _ _ - _ + _)) by lia. done. }
  rewrite (proj2 (Z.eqb_neq (e0 - first + 1) 0)) by lia. simpl negb. cbv iota.
  destruct (len <=? first) eqn:E2; boolsimp.
  { rewrite Hmove by lia. rewrite (Z2Nat.nonpos (Z.min _ _ - _ + _)) by lia. done. }
  rewrite Z.geb_leb. destruct (len <=? e0) eqn:E3; boolsimp.
  - rewrite Z.gtb_ltb, (proj2 (Z.ltb_ge _ _)) by lia. rewrite Hmove by lia.
    do 3 f_equal. lia.
  - rewrite Hmove by lia. do 3 f_equal. lia.
Qed.

(** [sdsrange] keeps the bytes from [start] to [end], counted from the tail when
    negative and clipped to the string; it never moves bytes from outside. *)
Theorem sdsrange_correct s start end_ :
  let len := zlen s in
  let first := if start <? 0 then Z.max 0 (len + start) else start in
  let last := Z.min (len - 1) (if end_ <? 0 then Z.max 0 (len + end_) else end_) in
  sdsrange s start end_ = Some (take (Z.to_nat (last - first + 1)) (drop (Z.to_nat first) s)).
Proof. apply sdsrange_spec. Qed.

Lemma load1_cons (s : bytes) i : 0 <= i < zlen s -> exists c, load1 s i = Some c /\ s !! Z.to_nat i = Some c.
Proof.
  intros Hi. unfold load1. rewrite decide_True by lia.
  destruct (lookup_lt_is_Some_2 s (Z.to_nat i)) as [c Hc]; [unfold zlen in *; lia|]. eauto.
Qed.

(** All bytes of a range belong to the set. *)
Definition range_in (s cset : bytes) (a b : Z) : Prop :=
  forall i c, a <= Z.of_nat i < b -> s !! i = Some c -> in_cset cset c = true.

Lemma trim_left_spec fuel s cset sp :
  0 <= sp <= zlen s -> range_in s cset 0 sp -> zlen s - sp <= Z.of_nat fuel ->
  exists sp', trim_left fuel s cset sp = Some sp' /\ sp <= sp' <= zlen s /\ range_in s cset 0 sp' /\
    (sp' = zlen s \/ exists c, s !! Z.to_nat sp' = Some c /\ in_cset cset c = false).
Proof.
  revert sp. induction fuel as [|fuel IH]; intros sp Hsp Hr Hf; cbn [trim_left]; casif; try lia;
    try (exists sp; split_and!; auto; lia).
  destruct (load1_cons s sp) as (c & Hc & Hl); [lia|]. rewrite Hc. mstep.
  destruct (in_cset cset c) eqn:Ec; [|exists sp; split_and!; eauto; lia].
  destruct (IH (sp + 1)) as (sp' & -> & Hle & Hr' & Hend); [lia| |lia|].
  - intros i c' Hi Hl'. destruct (decide (Z.of_nat i = sp)) as [E' | Hn]; [|by apply (Hr i); [lia|]].
    subst sp. rewrite Nat2Z.id in Hl. by simplify_eq.
  - exists sp'. split_and!; try done; lia.
Qed.

Lemma trim_right_spec fuel s cset sp ep :
  0 <= sp -> ep < zlen s -> range_in s cset (ep + 1) (zlen s) -> ep - sp <= Z.of_nat fuel ->
  exists ep', trim_right fuel s cset sp ep = Some ep' /\ ep' <= ep /\ (sp <= ep -> sp <= ep') /\
    range_in s cset (ep' + 1) (zlen s) /\
    (ep' <= sp \/ exists c, s !! Z.to_nat ep' = Some c /\ in_cset cset c = false).
Proof.
  revert ep. induction fuel as [|fuel IH]; intros ep Hsp Hep Hr Hf; cbn [trim_right]; casif; try lia;
    try (exists ep; split_and!; auto; lia).
  destruct (load1_cons s ep) as (c & Hc & Hl); [lia|]. rewrite Hc. mstep.
  destruct (in_cset cset c) eqn:Ec; [|exists ep; split_and!; eauto; lia].
  destruct (IH (ep - 1)) as (ep' & -> & Hle & Hsp' & Hr' & Hend); [lia|lia| |lia|].
  - intros i c' Hi Hl'. destruct (decide (Z.of_nat i = ep)) as [E' | Hn]; [|by apply (Hr i); [lia|]].
    subst ep. rewrite Nat2Z.id in Hl. by simplify_eq.
  - exists ep'. split_and!; try done; lia.
Qed.

Lemma range_in_sub s cset a b A B C :
  s = A ++ B ++ C -> a <= zlen A -> zlen A + zlen B <= b -> range_in s cset a b ->
  Forall (fun c => in_cset cset c = true) B.
Proof.
  intros -> Ha Hb Hr. apply Forall_lookup_2. intros i c Hc. apply (Hr (length A + i)%nat).
  - pose proof (lookup_lt_Some _ _ _ Hc). unfold zlen in *. lia.
  - rewrite lookup_app_r by lia. replace (length A + i - length A)%nat with i by lia.
    rewrite lookup_app_l; [done|]. by eapply lookup_lt_Some.
Qed.

(** [sdstrim] removes from both ends exactly the bytes of the set (and NUL bytes,
    which [strchr] finds in every set): what is left neither starts nor ends with one. *)
Theorem sdstrim_correct s cset :
  exists A r B, sdstrim s cset = Some r /\ s = A ++ r ++ B /\
    Forall (fun c => in_cset cset c = true) A /\ Forall (fun c => in_cset cset c = true) B /\
    (r = [] \/ exists c c', head r = Some c /\ last r = Some c' /\
       in_cset cset c = false /\ in_cset cset c' = false).
Proof.
  unfold sdstrim. pose proof (zlen_nonneg s) as Hz.
  destruct (trim_left_spec (length s) s cset 0) as (sp & -> & Hsp & HrA & Hl);
    [lia|intros i c Hi; lia|unfold zlen; lia|]. mstep.
  destruct (trim_right_spec (length s) s cset sp (zlen s - 1)) as (ep & -> & Hep & Hle & HrB & Hr);
    [lia|lia|intros i c Hi; lia|unfold zlen; lia|]. mstep.
  set (len := if sp >? ep then 0 else ep - sp + 1).
  assert (0 <= len /\ sp + len <= zlen s /\ (sp < zlen s -> len = ep - sp + 1 /\ 1 <= len) /\ (sp = zlen s -> len = 0))
    as (Hlen & Hspl & Hlt & Heq) by (subst len; casif; lia).
  clearbody len. destruct (split_range s sp len) as (A & r & B & -> & HA & Hr'); [lia..|].
  exists A, r, B. split; [|split; [done|]].
  - destruct (sp =? 0) eqn:E0; boolsimp; simpl negb; cbv iota.
    + mstep. assert (A = []) as -> by (apply zlen_0_inv; lia). apply (load_app []); done.
    + unfold memmove. rewrite load_app by done. mstep. unfold store. rewrite decide_True by zlia. mstep.
      rewrite take_0. simpl app. by apply (load_app []).
  - assert (Forall (fun c => in_cset cset c = true) A) as HFA.
    { apply (range_in_sub (A ++ r ++ B) cset 0 sp [] A (r ++ B)); try done; change (zlen (@nil Z)) with 0; lia. }
    split; [done|]. rewrite !zlen_app in *. zlen_pos.
    destruct (decide (sp = zlen A + (zlen r + zlen B))) as [Hall | Hne].
    { assert (zlen B = 0 /\ zlen r = 0) as [HB0 Hr0] by lia. apply zlen_0_inv in HB0, Hr0. subst. auto. }
    destruct Hlt as [Hlt Hpos]; [lia|]. split.
    { apply (range_in_sub (A ++ r ++ B) cset (ep + 1) (zlen A + (zlen r + zlen B)) (A ++ r) B []);
        [by rewrite app_nil_r, <- app_assoc|zlia|zlia|]. by rewrite <- !zlen_app in HrB |- *. }
    right. destruct Hl as [Hl | (c & Hc & Ec)]; [lia|].
    rewrite <- HA in Hc. unfold zlen in Hc at 1. rewrite Nat2Z.id, lookup_app_r, Nat.sub_diag in Hc by lia.
    destruct r as [|c0 r0]; [change (zlen (@nil Z)) with 0 in *; lia|]. simpl in Hc. injection Hc as ->.
    destruct Hr as [Hr | (c' & Hc' & Ec')].
    + assert (r0 = []) as -> by (apply zlen_0_inv; rewrite zlen_cons in *; zlia). exists c, c. auto.
    + exists c, c'. split_and!; try done. rewrite last_lookup, <- Hc'.
      rewrite lookup_app_r, lookup_app_l by (unfold zlen in *; simpl length in *; lia).
      f_equal. unfold zlen in *. simpl length in *. lia.
Qed.

(** ** Comparison *)

(** The sign of [sdscmp]: the lexicographic order of byte strings. *)
Fixpoint lex (a b : bytes) : comparison :=
  match a, b with
  | [], [] => Eq
  | [], _ :: _ => Lt
  | _ :: _, [] => Gt
  | x :: a, y :: b => match x ?= y with Eq => lex a b | c => c end
  end.

Lemma sdscmp_cons x y a b :
  sdscmp (x :: a) (y :: b) = if x =? y then sdscmp a b else x - y.
Proof.
  unfold sdscmp. rewrite !zlen_cons.
  replace (1 + zlen a <? 1 + zlen b) with (zlen a <? zlen b) by (destruct (Z.ltb_spec (zlen a) (zlen b)); lia).
  replace (1 + zlen a >? 1 + zlen b) with (zlen a >? zlen b)
    by (rewrite !Z.gtb_ltb; destruct (Z.ltb_spec (zlen b) (zlen a)); lia).
  set (m := if zlen a <? zlen b then zlen a else zlen b).
  replace (if zlen a <? zlen b then 1 + zlen a else 1 + zlen b) with (1 + m) by (subst m; by destruct (zlen a <? zlen b)).
  assert (0 <= m) by (subst m; destruct (zlen a <? zlen b); zlia).
  replace (Z.to_nat (1 + m)) with (S (Z.to_nat m)) by lia. cbn [take memcmp].
  destruct (x =? y) eqn:E; boolsimp; [done|]. by rewrite (proj2 (Z.eqb_neq (x - y) 0)) by lia.
Qed.

Lemma sdscmp_nil_r x a : sdscmp (x :: a) [] = 1.
Proof.
  unfold sdscmp. rewrite zlen_cons, (proj2 (Z.ltb_ge _ (zlen (@nil Z)))) by zlia. change (zlen (@nil Z)) with 0.
  simpl take. rewrite Z.gtb_ltb, (proj2 (Z.ltb_lt _ _)) by zlia. done.
Qed.

Lemma sdscmp_lex a b : sdscmp a b ?= 0 = lex a b.
Proof.
  revert b. induction a as [|x a IH]; intros [|y b]; [done|done| |].
  - by rewrite sdscmp_nil_r.
  - rewrite sdscmp_cons. cbn [lex]. rewrite <- IH. destruct (Z.compare_spec x y) as [-> | Hlt | Hgt].
    + by rewrite Z.eqb_refl.
    + rewrite (proj2 (Z.eqb_neq x y)) by lia. apply Z.compare_lt_iff. lia.
    + rewrite (proj2 (Z.eqb_neq x y)) by lia. apply Z.compare_gt_iff. lia.
Qed.

Lemma lex_eq a b : lex a b = Eq <-> a = b.
Proof.
  revert b. induction a as [|x a IH]; intros [|y b]; cbn [lex]; try done.
  destruct (Z.compare_spec x y) as [-> | Hlt | Hgt]; [rewrite IH; naive_solver|..]; split; try done; intros [= -> ->]; lia.
Qed.
Lemma lex_antisym a b : lex b a = CompOpp (lex a b).
Proof.
  revert b. induction a as [|x a IH]; intros [|y b]; cbn [lex]; try done.
  rewrite (Z.compare_antisym x y). destruct (x ?= y); [apply IH|done|done].
Qed.
Lemma lex_trans a b c : lex a b = Lt -> lex b c = Lt -> lex a c = Lt.
Proof.
  revert b c. induction a as [|x a IH]; intros [|y b] [|z c]; cbn [lex]; try done.
  destruct (Z.compare_spec x y) as [-> | Hxy | Hxy], (Z.compare_spec y z) as [-> | Hyz | Hyz]; try done.
  - apply IH.
  - by rewrite (proj2 (Z.compare_lt_iff x z)).
  - intros _ _. by rewrite (proj2 (Z.compare_lt_iff x z)) by lia.
Qed.

(** [sdscmp] orders strings: it is zero on equal strings only, its sign is antisymmetric
    and negative results compose. *)
Theorem sdscmp_order a b c :
  (sdscmp a b = 0 <-> a = b) /\ (sdscmp a b < 0 <-> 0 < sdscmp b a) /\
  (sdscmp a b < 0 -> sdscmp b c < 0 -> sdscmp a c < 0).
Proof.
  rewrite <- !Z.compare_lt_iff, <- Z.compare_eq_iff, (Z.compare_antisym (sdscmp b a) 0), !sdscmp_lex.
  split_and!; [apply lex_eq| |apply lex_trans].
  rewrite (lex_antisym a b). destruct (lex a b); done.
Qed.

(** ** Examples *)

Module Example_sds.

Lemma sdssplitargs_roundtrip_witness :
  sdssplitargs (quote_line [[104; 105]; []; [0; 34; 10; 255]]) = Some (Some [[104; 105]; []; [0; 34; 10; 255]]).
Proof. apply (sdssplitargs_roundtrip [[104; 105]; []; [0; 34; 10; 255]]). by repeat constructor. Defined.

Lemma sdssplitlen_roundtrip_witness :
  exists tokens, sdssplitlen [97; 45; 45; 98; 45; 45] [45; 45] = Some (Some tokens) /\
    sdsjoinsds tokens [45; 45] = [97; 45; 45; 98; 45; 45].
Proof. by apply (sdssplitlen_roundtrip [97; 45; 45; 98; 45; 45] [45; 45]). Defined.

Lemma sdscmp_order_witness :
  (sdscmp [97] [97; 98] = 0 <-> [97] = [97; 98]) /\ (sdscmp [97] [97; 98] < 0 <-> 0 < sdscmp [97; 98] [97]) /\
  (sdscmp [97] [97; 98] < 0 -> sdscmp [97; 98] [98] < 0 -> sdscmp [97] [98] < 0).
Proof. apply (sdscmp_order [97] [97; 98] [98]). Defined.
End Example_sds.
