(* ===== verification/Listpack.v ===== *)
(** * Listpacks (listpack.c)

    A listpack is one heap block: a six byte header (total bytes, number of
    elements), the entries, and an end byte 0xFF.  An entry is the encoded element
    followed by its length, written so that it can be read backwards.  The block is a
    byte list, a [char*] into it an offset; [None] is an access outside the block.
    [lp_realloc] is [zrealloc], which does not return on exhausted memory. *)

From Stdlib Require Import ZArith Lia.
From stdpp Require Import base numbers option list.
From S2P Require Import Prelude Memory Util.

Local Open Scope Z_scope.
Local Open Scope redis_scope.

Definition LP_HDR_SIZE : Z := 6.
Definition LP_HDR_NUMELE_UNKNOWN : Z := UINT16_MAX.
Definition LP_EOF : Z := 255.

Inductive lp_where := LP_BEFORE | LP_AFTER | LP_REPLACE.

(** ** Encoding tags of the first byte *)

Definition LP_ENCODING_IS_7BIT_UINT (b : Z) : bool := Z.land b 128 =? 0.
Definition LP_ENCODING_IS_6BIT_STR (b : Z) : bool := Z.land b 192 =? 128.
Definition LP_ENCODING_IS_13BIT_INT (b : Z) : bool := Z.land b 224 =? 192.
Definition LP_ENCODING_IS_12BIT_STR (b : Z) : bool := Z.land b 240 =? 224.
Definition LP_ENCODING_IS_16BIT_INT (b : Z) : bool := Z.land b 255 =? 241.
Definition LP_ENCODING_IS_24BIT_INT (b : Z) : bool := Z.land b 255 =? 242.
Definition LP_ENCODING_IS_32BIT_INT (b : Z) : bool := Z.land b 255 =? 243.
Definition LP_ENCODING_IS_64BIT_INT (b : Z) : bool := Z.land b 255 =? 244.
Definition LP_ENCODING_IS_32BIT_STR (b : Z) : bool := Z.land b 255 =? 240.

Definition LP_ENCODING_6BIT_STR_LEN (lp : bytes) (p : Z) : option Z :=
  let! p0 := load1 lp p in Some (Z.land p0 63).
Definition LP_ENCODING_12BIT_STR_LEN (lp : bytes) (p : Z) : option Z :=
  let! p0 := load1 lp p in
  let! p1 := load1 lp (p + 1) in
  Some (Z.lor (Z.shiftl (Z.land p0 15) 8) p1).
Definition LP_ENCODING_32BIT_STR_LEN (lp : bytes) (p : Z) : option Z :=
  let! p1 := load1 lp (p + 1) in
  let! p2 := load1 lp (p + 2) in
  let! p3 := load1 lp (p + 3) in
  let! p4 := load1 lp (p + 4) in
  Some (Z.lor (Z.lor (Z.lor p1 (Z.shiftl p2 8)) (Z.shiftl p3 16)) (Z.shiftl p4 24)).

(** ** Header *)

Definition lpGetTotalBytes (lp : bytes) : option Z :=
  let! p0 := load1 lp 0 in
  let! p1 := load1 lp 1 in
  let! p2 := load1 lp 2 in
  let! p3 := load1 lp 3 in
  Some (Z.lor (Z.lor (Z.lor p0 (Z.shiftl p1 8)) (Z.shiftl p2 16)) (Z.shiftl p3 24)).

Definition lpGetNumElements (lp : bytes) : option Z :=
  let! p4 := load1 lp 4 in
  let! p5 := load1 lp 5 in
  Some (Z.lor p4 (Z.shiftl p5 8)).

Definition lpSetTotalBytes (lp : bytes) (v : Z) : option bytes :=
  let! lp := store1 lp 0 (Z.land v 255) in
  let! lp := store1 lp 1 (Z.land (Z.shiftr v 8) 255) in
  let! lp := store1 lp 2 (Z.land (Z.shiftr v 16) 255) in
  store1 lp 3 (Z.land (Z.shiftr v 24) 255).

Definition lpSetNumElements (lp : bytes) (v : Z) : option bytes :=
  let! lp := store1 lp 4 (Z.land v 255) in
  store1 lp 5 (Z.land (Z.shiftr v 8) 255).

(** ** Integers in strings *)

Fixpoint lpStringToInt64_loop (p : bytes) (v : Z) : option (Z * bytes) :=
  match p with
  | c :: p' =>
      if (48 <=? c) && (c <=? 57) then
        if v >? UINT64_MAX / 10 then None else
        let v := u64 (v * 10) in
        if v >? UINT64_MAX - (c - 48) then None else
        lpStringToInt64_loop p' (u64 (v + (c - 48)))
      else Some (v, p)
  | [] => Some (v, [])
  end.

(** [None]: the function returns 0. *)
Definition lpStringToInt64 (s : bytes) : option Z :=
  match s with
  | [] => None
  | c :: p0 =>
      let slen := zlen s in
      if (slen =? 1) && (c =? 48) then Some 0 else
      let negative := c =? 45 in
      match (if negative then p0 else s) with
      | [] => None
      | d :: p =>
          if (49 <=? d) && (d <=? 57) then
            let! (v, rest) := lpStringToInt64_loop p (d - 48) in
            match rest with
            | _ :: _ => None
            | [] =>
                if negative then
                  if v >? - (INT64_MIN + 1) + 1 then None else Some (i64 (u64 (- v)))
                else
                  if v >? INT64_MAX then None else Some (i64 v)
            end
          else if (d =? 48) && (slen =? 1) then Some 0
          else None
      end
  end.

(** ** Encoding *)

(** The bytes of an [unsigned char] buffer assigned from integer expressions. *)
Definition chars (l : list Z) : bytes := map u8 l.

(** [(true, intenc, enclen)] for [LP_ENCODING_INT], [(false, _, enclen)] for
    [LP_ENCODING_STRING].  [size] is a [uint32_t], so that [5+size] is computed
    modulo 2^32. *)
Definition lpEncodeGetType (ele : bytes) : bool * bytes * Z :=
  match lpStringToInt64 ele with
  | Some v =>
      if (v >=? 0) && (v <=? 127) then (true, chars [v], 1)
      else if (v >=? -4096) && (v <=? 4095) then
        let v := if v <? 0 then 2 ^ 13 + v else v in
        (true, chars [Z.lor (Z.shiftr v 8) 192; Z.land v 255], 2)
      else if (v >=? -32768) && (v <=? 32767) then
        let v := if v <? 0 then 2 ^ 16 + v else v in
        (true, chars [241; Z.land v 255; Z.shiftr v 8], 3)
      else if (v >=? -8388608) && (v <=? 8388607) then
        let v := if v <? 0 then 2 ^ 24 + v else v in
        (true, chars [242; Z.land v 255; Z.land (Z.shiftr v 8) 255; Z.shiftr v 16], 4)
      else if (v >=? -2147483648) && (v <=? 2147483647) then
        let v := if v <? 0 then 2 ^ 32 + v else v in
        (true, chars [243; Z.land v 255; Z.land (Z.shiftr v 8) 255;
                      Z.land (Z.shiftr v 16) 255; Z.shiftr v 24], 5)
      else
        let uv := u64 v in
        (true, chars [244; Z.land uv 255; Z.land (Z.shiftr uv 8) 255;
                      Z.land (Z.shiftr uv 16) 255; Z.land (Z.shiftr uv 24) 255;
                      Z.land (Z.shiftr uv 32) 255; Z.land (Z.shiftr uv 40) 255;
                      Z.land (Z.shiftr uv 48) 255; Z.shiftr uv 56], 9)
  | None =>
      let size := zlen ele in
      if size <? 64 then (false, [], 1 + size)
      else if size <? 4096 then (false, [], 2 + size)
      else (false, [], u32 (5 + size))
  end.

(** The bytes written to [buf] when it is not NULL; the return value is their
    number in both cases. *)
Definition lpEncodeBacklen (l : Z) : bytes :=
  if l <=? 127 then chars [l]
  else if l <? 16383 then chars [Z.shiftr l 7; Z.lor (Z.land l 127) 128]
  else if l <? 2097151 then
    chars [Z.shiftr l 14; Z.lor (Z.land (Z.shiftr l 7) 127) 128; Z.lor (Z.land l 127) 128]
  else if l <? 268435455 then
    chars [Z.shiftr l 21; Z.lor (Z.land (Z.shiftr l 14) 127) 128;
           Z.lor (Z.land (Z.shiftr l 7) 127) 128; Z.lor (Z.land l 127) 128]
  else
    chars [Z.shiftr l 28; Z.lor (Z.land (Z.shiftr l 21) 127) 128;
           Z.lor (Z.land (Z.shiftr l 14) 127) 128; Z.lor (Z.land (Z.shiftr l 7) 127) 128;
           Z.lor (Z.land l 127) 128].
Definition lpEncodeBacklen_size (l : Z) : Z := zlen (lpEncodeBacklen l).

(** At most five bytes are read: fuel 5. *)
Fixpoint lpDecodeBacklen_loop (fuel : nat) (lp : bytes) (p val shift : Z) : option Z :=
  match fuel with
  | O => None
  | S fuel =>
      let! p0 := load1 lp p in
      let val := Z.lor val (u64 (Z.shiftl (Z.land p0 127) shift)) in
      if Z.land p0 128 =? 0 then Some val else
      let shift := shift + 7 in
      if shift >? 28 then Some UINT64_MAX
      else lpDecodeBacklen_loop fuel lp (p - 1) val shift
  end.
Definition lpDecodeBacklen (lp : bytes) (p : Z) : option Z := lpDecodeBacklen_loop 5 lp p 0 0.

Definition lpEncodeString (lp : bytes) (buf : Z) (s : bytes) : option bytes :=
  let len := zlen s in
  if len <? 64 then
    let! lp := store1 lp buf (Z.lor len 128) in
    store lp (buf + 1) s
  else if len <? 4096 then
    let! lp := store1 lp buf (Z.lor (Z.shiftr len 8) 224) in
    let! lp := store1 lp (buf + 1) (Z.land len 255) in
    store lp (buf + 2) s
  else
    let! lp := store1 lp buf 240 in
    let! lp := store1 lp (buf + 1) (Z.land len 255) in
    let! lp := store1 lp (buf + 2) (Z.land (Z.shiftr len 8) 255) in
    let! lp := store1 lp (buf + 3) (Z.land (Z.shiftr len 16) 255) in
    let! lp := store1 lp (buf + 4) (Z.land (Z.shiftr len 24) 255) in
    store lp (buf + 5) s.

Definition lpCurrentEncodedSize (lp : bytes) (p : Z) : option Z :=
  let! p0 := load1 lp p in
  if LP_ENCODING_IS_7BIT_UINT p0 then Some 1
  else if LP_ENCODING_IS_6BIT_STR p0 then
    let! l := LP_ENCODING_6BIT_STR_LEN lp p in Some (1 + l)
  else if LP_ENCODING_IS_13BIT_INT p0 then Some 2
  else if LP_ENCODING_IS_16BIT_INT p0 then Some 3
  else if LP_ENCODING_IS_24BIT_INT p0 then Some 4
  else if LP_ENCODING_IS_32BIT_INT p0 then Some 5
  else if LP_ENCODING_IS_64BIT_INT p0 then Some 9
  else if LP_ENCODING_IS_12BIT_STR p0 then
    let! l := LP_ENCODING_12BIT_STR_LEN lp p in Some (2 + l)
  else if LP_ENCODING_IS_32BIT_STR p0 then
    let! l := LP_ENCODING_32BIT_STR_LEN lp p in Some (u32 (5 + l))
  else if p0 =? LP_EOF then Some 1
  else Some 0.

(** ** Navigation *)

Definition lpSkip (lp : bytes) (p : Z) : option Z :=
  let! entrylen := lpCurrentEncodedSize lp p in
  Some (p + (entrylen + lpEncodeBacklen_size entrylen)).

(** The inner option is the returned pointer, [None] for NULL. *)
Definition lpNext (lp : bytes) (p : Z) : option (option Z) :=
  let! p := lpSkip lp p in
  let! p0 := load1 lp p in
  if p0 =? LP_EOF then Some None else Some (Some p).

Definition lpPrev (lp : bytes) (p : Z) : option (option Z) :=
  if p =? LP_HDR_SIZE then Some None else
  let p := p - 1 in
  let! prevlen := lpDecodeBacklen lp p in
  let prevlen := u64 (prevlen + lpEncodeBacklen_size prevlen) in
  Some (Some (p - prevlen + 1)).

Definition lpFirst (lp : bytes) : option (option Z) :=
  let p := LP_HDR_SIZE in
  let! p0 := load1 lp p in
  if p0 =? LP_EOF then Some None else Some (Some p).

Definition lpLast (lp : bytes) : option (option Z) :=
  let! total := lpGetTotalBytes lp in
  lpPrev lp (total - 1).

(** [while(p) { count++; p = lpNext(lp,p); }]: entries take at least two bytes, so
    the block length bounds the turns. *)
Fixpoint lpLength_loop (fuel : nat) (lp : bytes) (p : option Z) (count : Z) : option Z :=
  match p with
  | None => Some count
  | Some p =>
      match fuel with
      | O => None
      | S fuel =>
          let! p := lpNext lp p in
          lpLength_loop fuel lp p (u32 (count + 1))
      end
  end.

(** Returns the count and the block, whose header may be updated. *)
Definition lpLength (lp : bytes) : option (Z * bytes) :=
  let! numele := lpGetNumElements lp in
  if negb (numele =? LP_HDR_NUMELE_UNKNOWN) then Some (numele, lp) else
  let! p := lpFirst lp in
  let! count := lpLength_loop (length lp) lp p 0 in
  let! lp := (if count <? LP_HDR_NUMELE_UNKNOWN then lpSetNumElements lp count else Some lp) in
  Some (count, lp).

(** ** Element access *)

(** The result of [lpGet]: an integer by reference, or a range of the block. *)
Inductive lp_value := LPInt (v : Z) | LPStr (off count : Z).

Definition lpGet (lp : bytes) (p : Z) : option lp_value :=
  let signed (uval negstart negmax : Z) : option lp_value :=
    if uval >=? negstart then
      let uval := u64 (negmax - uval) in
      let val := i64 uval in
      Some (LPInt (i64 (- val - 1)))
    else Some (LPInt (i64 uval)) in
  let at_ (i : Z) := load1 lp (p + i) in
  let! p0 := at_ 0 in
  if LP_ENCODING_IS_7BIT_UINT p0 then signed (Z.land p0 127) UINT64_MAX 0
  else if LP_ENCODING_IS_6BIT_STR p0 then
    let! l := LP_ENCODING_6BIT_STR_LEN lp p in Some (LPStr (p + 1) l)
  else if LP_ENCODING_IS_13BIT_INT p0 then
    let! p1 := at_ 1 in
    signed (Z.lor (Z.shiftl (Z.land p0 31) 8) p1) (2 ^ 12) 8191
  else if LP_ENCODING_IS_16BIT_INT p0 then
    let! p1 := at_ 1 in let! p2 := at_ 2 in
    signed (Z.lor p1 (Z.shiftl p2 8)) (2 ^ 15) UINT16_MAX
  else if LP_ENCODING_IS_24BIT_INT p0 then
    let! p1 := at_ 1 in let! p2 := at_ 2 in let! p3 := at_ 3 in
    signed (Z.lor (Z.lor p1 (Z.shiftl p2 8)) (Z.shiftl p3 16)) (2 ^ 23) (Z.shiftr UINT32_MAX 8)
  else if LP_ENCODING_IS_32BIT_INT p0 then
    let! p1 := at_ 1 in let! p2 := at_ 2 in let! p3 := at_ 3 in let! p4 := at_ 4 in
    signed (Z.lor (Z.lor (Z.lor p1 (Z.shiftl p2 8)) (Z.shiftl p3 16)) (Z.shiftl p4 24))
      (2 ^ 31) UINT32_MAX
  else if LP_ENCODING_IS_64BIT_INT p0 then
    let! p1 := at_ 1 in let! p2 := at_ 2 in let! p3 := at_ 3 in let! p4 := at_ 4 in
    let! p5 := at_ 5 in let! p6 := at_ 6 in let! p7 := at_ 7 in let! p8 := at_ 8 in
    signed (Z.lor (Z.lor (Z.lor (Z.lor (Z.lor (Z.lor (Z.lor
              p1 (Z.shiftl p2 8)) (Z.shiftl p3 16)) (Z.shiftl p4 24)) (Z.shiftl p5 32))
              (Z.shiftl p6 40)) (Z.shiftl p7 48)) (Z.shiftl p8 56)) (2 ^ 63) UINT64_MAX
  else if LP_ENCODING_IS_12BIT_STR p0 then
    let! l := LP_ENCODING_12BIT_STR_LEN lp p in Some (LPStr (p + 2) l)
  else if LP_ENCODING_IS_32BIT_STR p0 then
    let! l := LP_ENCODING_32BIT_STR_LEN lp p in Some (LPStr (p + 5) l)
  else signed (12345678900000000 + p0) UINT64_MAX 0.

(** ** Updates *)

Section Update.
  Context `{Alloc}.

(** [ele = None] is a NULL element (deletion).  The inner option is the returned
    listpack, [None] for NULL; with it the value left in [*newp]. *)
Definition lpInsert (lp : bytes) (ele : option bytes) (p : Z) (where_ : lp_where)
    : option (option (bytes * option Z)) :=
  let where_ := match ele with None => LP_REPLACE | Some _ => where_ end in
  let! (p, where_) :=
    match where_ with
    | LP_AFTER => let! p := lpSkip lp p in Some (p, LP_BEFORE)
    | w => Some (p, w)
    end in
  let poff := p in
  let '(is_int, intenc, enclen) :=
    match ele with Some e => lpEncodeGetType e | None => (false, [], 0) end in
  let backlen := match ele with Some _ => lpEncodeBacklen enclen | None => [] end in
  let backlen_size := zlen backlen in
  let! old_listpack_bytes := lpGetTotalBytes lp in
  let! replaced_len :=
    match where_ with
    | LP_REPLACE =>
        let! l := lpCurrentEncodedSize lp p in
        Some (u32 (l + lpEncodeBacklen_size l))
    | _ => Some 0
    end in
  let new_listpack_bytes :=
    u64 (old_listpack_bytes + enclen + backlen_size - replaced_len) in
  if new_listpack_bytes >? UINT32_MAX then Some None else
  let dst := poff in
  let lp := if new_listpack_bytes >? old_listpack_bytes
            then realloc lp new_listpack_bytes else lp in
  let! lp :=
    match where_ with
    | LP_BEFORE => memmove lp (dst + enclen + backlen_size) dst (old_listpack_bytes - poff)
    | _ =>
        let lendiff := i64 (enclen + backlen_size - replaced_len) in
        memmove lp (dst + replaced_len + lendiff) (dst + replaced_len)
          (old_listpack_bytes - poff - replaced_len)
    end in
  let lp := if new_listpack_bytes <? old_listpack_bytes
            then realloc lp new_listpack_bytes else lp in
  let! newp :=
    match ele with
    | Some _ => Some (Some dst)
    | None => let! d0 := load1 lp dst in
              Some (if d0 =? LP_EOF then None else Some dst)
    end in
  let! lp :=
    match ele with
    | Some e =>
        let! lp := (if (is_int : bool) then store lp dst (take (Z.to_nat enclen) intenc)
                    else lpEncodeString lp dst e) in
        store lp (dst + enclen) backlen
    | None => Some lp
    end in
  let! lp :=
    match where_, ele with
    | LP_REPLACE, Some _ => Some lp
    | _, _ =>
        let! num_elements := lpGetNumElements lp in
        if negb (num_elements =? LP_HDR_NUMELE_UNKNOWN) then
          match ele with
          | Some _ => lpSetNumElements lp (u32 (num_elements + 1))
          | None => lpSetNumElements lp (u32 (num_elements - 1))
          end
        else Some lp
    end in
  let! lp := lpSetTotalBytes lp new_listpack_bytes in
  Some (Some (lp, newp)).

Definition lpAppend (lp : bytes) (ele : bytes) : option (option (bytes * option Z)) :=
  let! listpack_bytes := lpGetTotalBytes lp in
  let eofptr := listpack_bytes - 1 in
  lpInsert lp (Some ele) eofptr LP_BEFORE.

Definition lpDelete (lp : bytes) (p : Z) : option (option (bytes * option Z)) :=
  lpInsert lp None p LP_REPLACE.

Definition lpNew : option bytes :=
  let lp := realloc [] (LP_HDR_SIZE + 1) in
  let! lp := lpSetTotalBytes lp (LP_HDR_SIZE + 1) in
  let! lp := lpSetNumElements lp 0 in
  store1 lp LP_HDR_SIZE LP_EOF.
End Update.

Definition lpBytes (lp : bytes) : option Z := lpGetTotalBytes lp.

(** ** Seeking *)

Fixpoint seek_forward (n : nat) (lp : bytes) (ele : option Z) : option (option Z) :=
  match n, ele with
  | S n, Some p => let! ele := lpNext lp p in seek_forward n lp ele
  | _, _ => Some ele
  end.
Fixpoint seek_backward (n : nat) (lp : bytes) (ele : option Z) : option (option Z) :=
  match n, ele with
  | S n, Some p => let! ele := lpPrev lp p in seek_backward n lp ele
  | _, _ => Some ele
  end.

(** The scan itself, once the direction is chosen. *)
Definition lpSeek_scan (lp : bytes) (forward : bool) (index : Z) : option (option Z) :=
  if forward then
    let! ele := lpFirst lp in seek_forward (Z.to_nat index) lp ele
  else
    let! ele := lpLast lp in seek_backward (Z.to_nat (-1 - index)) lp ele.

Definition lpSeek (lp : bytes) (index : Z) : option (option Z) :=
  let! numele := lpGetNumElements lp in
  if negb (numele =? LP_HDR_NUMELE_UNKNOWN) then
    let index := if index <? 0 then numele + index else index in
    if index <? 0 then Some None
    else if index >=? numele then Some None
    else if index >? numele / 2 then lpSeek_scan lp false (index - numele)
    else lpSeek_scan lp true index
  else lpSeek_scan lp (negb (index <? 0)) index.
