(* ===== verification/ListpackFacts.v ===== *)
(** * Listpack entries: the codecs

    The encoding of one element ([enc]), of the backward length, and that the reading
    functions invert them wherever the entry lies in a block. *)

From Stdlib Require Import ZArith Lia.
From stdpp Require Import base numbers option list.
From S2P Require Import Prelude Memory Bits Util UtilFacts Listpack.

Local Open Scope Z_scope.
Local Open Scope redis_scope.

(** ** The integer parser is [string2ll] *)

Lemma lpStringToInt64_loop_eq p v : lpStringToInt64_loop p v = string2ll_loop p v.
Proof.
  revert v. induction p as [|c p IH]; intros v; [done|]. simpl.
  unfold isdigit, ULLONG_MAX. by repeat (casif; try done; rewrite ?IH).
Qed.

Lemma lpStringToInt64_eq s : lpStringToInt64 s = string2ll s.
Proof.
  destruct s as [|c p0]; [done|]. unfold lpStringToInt64, string2ll.
  destruct ((zlen (c :: p0) =? 1) && (c =? 48)) eqn:E1; [done|].
  unfold string2ll_magnitude.
  destruct (if c =? 45 then p0 else c :: p0) as [|d p] eqn:E2; [done|].
  destruct ((49 <=? d) && (d <=? 57)) eqn:E3.
  - rewrite lpStringToInt64_loop_eq. destruct string2ll_loop as [[v rest]|]; [|done].
    mstep. by destruct rest.
  - mstep. destruct ((d =? 48) && (zlen (c :: p0) =? 1)) eqn:E4; [|done]. boolsimp. subst d.
    assert (p0 = []) as -> by (apply zlen_0_inv; zlia).
    destruct (c =? 45); [done|]. injection E2 as -> _. done.
Qed.

(** ** Classification of the first byte *)

Lemma tag_7bit : forall b, 0 <= b < 128 -> LP_ENCODING_IS_7BIT_UINT b = true.
Proof. byte_cases 0 128 (fun b => LP_ENCODING_IS_7BIT_UINT b). done. Qed.
Lemma tag_high : forall b, 128 <= b < 256 -> LP_ENCODING_IS_7BIT_UINT b = false.
Proof.
  byte_cases 128 256 (fun b => negb (LP_ENCODING_IS_7BIT_UINT b)). by apply negb_true_iff.
Qed.
Lemma tag_6str : forall b, 128 <= b < 192 -> LP_ENCODING_IS_6BIT_STR b = true.
Proof. byte_cases 128 192 (fun b => LP_ENCODING_IS_6BIT_STR b). done. Qed.
Lemma tag_not_6str : forall b, 192 <= b < 256 -> LP_ENCODING_IS_6BIT_STR b = false.
Proof.
  byte_cases 192 256 (fun b => negb (LP_ENCODING_IS_6BIT_STR b)). by apply negb_true_iff.
Qed.
Lemma tag_13int : forall b, 192 <= b < 224 -> LP_ENCODING_IS_13BIT_INT b = true.
Proof. byte_cases 192 224 (fun b => LP_ENCODING_IS_13BIT_INT b). done. Qed.
Lemma tag_not_13int : forall b, 224 <= b < 256 -> LP_ENCODING_IS_13BIT_INT b = false.
Proof.
  byte_cases 224 256 (fun b => negb (LP_ENCODING_IS_13BIT_INT b)). by apply negb_true_iff.
Qed.
Lemma tag_12str : forall b, 224 <= b < 240 ->
  LP_ENCODING_IS_16BIT_INT b = false /\ LP_ENCODING_IS_24BIT_INT b = false /\
  LP_ENCODING_IS_32BIT_INT b = false /\ LP_ENCODING_IS_64BIT_INT b = false /\
  LP_ENCODING_IS_12BIT_STR b = true.
Proof.
  byte_cases 224 240 (fun b =>
    negb (LP_ENCODING_IS_16BIT_INT b) && negb (LP_ENCODING_IS_24BIT_INT b) &&
    negb (LP_ENCODING_IS_32BIT_INT b) && negb (LP_ENCODING_IS_64BIT_INT b) &&
    LP_ENCODING_IS_12BIT_STR b).
  by boolsimp.
Qed.

(** Masks that strip the tag. *)
Lemma mask_127 : forall b, 0 <= b < 128 -> Z.land b 127 = b.
Proof. intros. rewrite land_127, Z.mod_small; lia. Qed.
Lemma mask_63 : forall b, 128 <= b < 192 -> Z.land b 63 = b - 128.
Proof. byte_cases 128 192 (fun b => Z.land b 63 =? b - 128). by boolsimp. Qed.
Lemma mask_31 : forall b, 192 <= b < 224 -> Z.land b 31 = b - 192.
Proof. byte_cases 192 224 (fun b => Z.land b 31 =? b - 192). by boolsimp. Qed.
Lemma mask_15 : forall b, 224 <= b < 240 -> Z.land b 15 = b - 224.
Proof. byte_cases 224 240 (fun b => Z.land b 15 =? b - 224). by boolsimp. Qed.
Lemma set_128 : forall b, 0 <= b < 128 -> Z.lor b 128 = 128 + b.
Proof. byte_cases 0 128 (fun b => Z.lor b 128 =? 128 + b). by boolsimp. Qed.
Lemma set_192 : forall b, 0 <= b < 32 -> Z.lor b 192 = 192 + b.
Proof. byte_cases 0 32 (fun b => Z.lor b 192 =? 192 + b). by boolsimp. Qed.
Lemma set_224 : forall b, 0 <= b < 16 -> Z.lor b 224 = 224 + b.
Proof. byte_cases 0 16 (fun b => Z.lor b 224 =? 224 + b). by boolsimp. Qed.
Lemma cont_mask : forall b, 128 <= b < 256 -> Z.land b 127 = b - 128 /\ (Z.land b 128 =? 0) = false.
Proof.
  byte_cases 128 256 (fun b => (Z.land b 127 =? b - 128) && negb (Z.land b 128 =? 0)).
  boolsimp. split; [done|by apply Z.eqb_neq].
Qed.
Lemma last_mask : forall b, 0 <= b < 128 -> Z.land b 127 = b /\ (Z.land b 128 =? 0) = true.
Proof.
  byte_cases 0 128 (fun b => (Z.land b 127 =? b) && (Z.land b 128 =? 0)).
  boolsimp. split; [done|by apply Z.eqb_eq].
Qed.

(** ** The encoded element *)

(** The integer encodings, by value. *)
Definition intenc (v : Z) : bytes :=
  if (0 <=? v) && (v <=? 127) then [v]
  else if (-4096 <=? v) && (v <=? 4095) then [192 + uN 13 v / 256; uN 13 v mod 256]
  else if (-32768 <=? v) && (v <=? 32767) then 241 :: le_enc 2 v
  else if (-8388608 <=? v) && (v <=? 8388607) then 242 :: le_enc 3 v
  else if (-2147483648 <=? v) && (v <=? 2147483647) then 243 :: le_enc 4 v
  else 244 :: le_enc 8 v.

Definition strhdr (n : Z) : bytes :=
  if n <? 64 then [128 + n]
  else if n <? 4096 then [224 + n / 256; n mod 256]
  else 240 :: le_enc 4 n.

Definition enc (s : bytes) : bytes :=
  match string2ll s with
  | Some v => intenc v
  | None => strhdr (zlen s) ++ s
  end.

(** What the entry of an element must satisfy to be representable. *)
Definition elem_ok (s : bytes) : Prop := bytes_ok s /\ zlen s < 2 ^ 32 - 5.

Lemma encodeGetType_int s v :
  string2ll s = Some v -> lpEncodeGetType s = (true, intenc v, zlen (intenc v)).
Proof.
  intros Hs. pose proof Hs as [_ Hv]%string2ll_iff. unfold lpEncodeGetType, intenc, chars.
  rewrite lpStringToInt64_eq, Hs, !Z.geb_leb.
  destruct ((0 <=? v) && (v <=? 127)) eqn:E1; boolsimp.
  { cbn [map]. rewrite uN_small by lia. done. }
  destruct ((-4096 <=? v) && (v <=? 4095)) eqn:E2; boolsimp.
  { rewrite (twos 13) by (unfold is_s; lia). pose proof (uN_bound 13 v ltac:(lia)).
    cbn [map]. rewrite u8_land0, shiftr_div by lia. change (2 ^ 8) with 256.
    assert (0 <= uN 13 v / 256 < 32).
    { split; [apply Z.div_pos; lia|apply Z.div_lt_upper_bound; lia]. }
    rewrite set_192, uN_small by lia. done. }
  destruct ((-32768 <=? v) && (v <=? 32767)) eqn:E3; boolsimp.
  { rewrite (twos 16) by (unfold is_s; lia). cbn [map].
    rewrite chars_le2, (le_enc_uN 2). done. }
  destruct ((-8388608 <=? v) && (v <=? 8388607)) eqn:E4; boolsimp.
  { rewrite (twos 24) by (unfold is_s; lia). cbn [map].
    rewrite chars_le3, (le_enc_uN 3). done. }
  destruct ((-2147483648 <=? v) && (v <=? 2147483647)) eqn:E5; boolsimp.
  { rewrite (twos 32) by (unfold is_s; lia). cbn [map].
    rewrite chars_le4, (le_enc_uN 4). done. }
  cbn [map]. rewrite chars_le8, (le_enc_uN 8). done.
Qed.

Lemma zlen_strhdr n : zlen (strhdr n) = if n <? 64 then 1 else if n <? 4096 then 2 else 5.
Proof. unfold strhdr. by repeat casif. Qed.

Lemma encodeGetType_str s :
  string2ll s = None -> zlen s < 2 ^ 32 - 5 ->
  lpEncodeGetType s = (false, [], zlen (enc s)).
Proof.
  intros Hs Hl. unfold lpEncodeGetType, enc. rewrite lpStringToInt64_eq, Hs.
  rewrite zlen_app, zlen_strhdr. repeat casif; try done. by rewrite uN_small by zlia.
Qed.

(** ** Reading an entry back *)

Lemma sizes_shift A B : lpCurrentEncodedSize (A ++ B) (zlen A) = lpCurrentEncodedSize B 0.
Proof.
  unfold lpCurrentEncodedSize, LP_ENCODING_6BIT_STR_LEN, LP_ENCODING_12BIT_STR_LEN,
    LP_ENCODING_32BIT_STR_LEN.
  by rewrite load1_shift0, !load1_shift by done.
Qed.

(** The value of a two's complement pattern, as [lpGet] computes it. *)
Lemma signed_dec w v :
  0 < w <= 64 -> is_s w v ->
  (if uN w v >=? 2 ^ (w - 1)
   then Some (LPInt (i64 (- i64 (u64 (2 ^ w - 1 - uN w v)) - 1)))
   else Some (LPInt (i64 (uN w v)))) = Some (LPInt v).
Proof.
  intros Hw Hv. rewrite <- (twos w v) by (lia || done). unfold is_s in Hv.
  assert (2 ^ w = 2 * 2 ^ (w - 1)) by (rewrite <- Z.pow_succ_r by lia; f_equal; lia).
  assert (2 ^ (w - 1) <= 2 ^ 63) by (apply Z.pow_le_mono_r; lia).
  destruct (v <? 0) eqn:E; boolsimp; rewrite Z.geb_leb.
  - rewrite (proj2 (Z.leb_le _ _)) by lia. rewrite (uN_small 64) by lia.
    rewrite (i64_small (2 ^ w - 1 - _)) by lia.
    rewrite i64_small by lia. do 2 f_equal. lia.
  - rewrite (proj2 (Z.leb_gt _ _)) by lia. rewrite i64_small by lia. done.
Qed.

(** The range of the top bits of a 13 bit integer. *)
Lemma top13 v : 0 <= uN 13 v / 256 < 32.
Proof.
  pose proof (uN_bound 13 v ltac:(lia)).
  split; [apply Z.div_pos; lia|apply Z.div_lt_upper_bound; lia].
Qed.

Lemma size_intenc v C : is_s 64 v -> lpCurrentEncodedSize (intenc v ++ C) 0 = Some (zlen (intenc v)).
Proof.
  intros Hv. pose proof (top13 v). unfold lpCurrentEncodedSize, intenc.
  repeat casif; cbn [app]; unfold load1; rewrite decide_True by done; simpl lookup; mstep;
    try done.
  - by rewrite tag_7bit by lia.
  - by rewrite tag_high, tag_not_6str, tag_13int by lia.
Qed.

Lemma lpGet_int A v C : is_s 64 v -> lpGet (A ++ intenc v ++ C) (zlen A) = Some (LPInt v).
Proof.
  intros Hv. pose proof (top13 v) as Ht. pose proof (uN_bound 13 v ltac:(lia)).
  unfold lpGet. rewrite !load1_shift by done. unfold intenc.
  destruct ((0 <=? v) && (v <=? 127)) eqn:E1; boolsimp.
  { cbn [app]. change (load1 (v :: C) 0) with (Some v). mstep. rewrite tag_7bit, mask_127 by lia.
    rewrite Z.geb_leb, (proj2 (Z.leb_gt _ _)) by (unfold UINT64_MAX; lia).
    by rewrite i64_small by lia. }
  destruct ((-4096 <=? v) && (v <=? 4095)) eqn:E2; boolsimp.
  { cbn [app]. set (h := uN 13 v / 256) in *. set (l := uN 13 v mod 256).
    change (load1 (192 + h :: l :: C) 0) with (Some (192 + h)).
    change (load1 (192 + h :: l :: C) 1) with (Some l). mstep.
    rewrite tag_high, tag_not_6str, tag_13int, mask_31 by lia.
    replace (Z.lor (Z.shiftl (192 + h - 192) 8) l) with (uN 13 v);
      [apply (signed_dec 13); unfold is_s; lia|].
    rewrite Z.lor_comm, lor_shiftl by (subst l; lia || (apply Z.mod_pos_bound; lia)).
    pose proof (Z.div_mod (uN 13 v) 256). subst h l. lia. }
  destruct ((-32768 <=? v) && (v <=? 32767)) eqn:E3; boolsimp.
  { le_bytes 2%nat v. cbn [app]. loads. tags. rewrite lor_le2, Hd.
    - apply (signed_dec 16); unfold is_s; lia.
    - apply (Forall_take _ 1 _ Hok). }
  destruct ((-8388608 <=? v) && (v <=? 8388607)) eqn:E4; boolsimp.
  { le_bytes 3%nat v. cbn [app]. loads. tags. rewrite lor_le3, Hd.
    - apply (signed_dec 24); unfold is_s; lia.
    - apply (Forall_take _ 2 _ Hok). }
  destruct ((-2147483648 <=? v) && (v <=? 2147483647)) eqn:E5; boolsimp.
  { le_bytes 4%nat v. cbn [app]. loads. tags. rewrite lor_le4, Hd.
    - apply (signed_dec 32); unfold is_s; lia.
    - apply (Forall_take _ 3 _ Hok). }
  le_bytes 8%nat v. cbn [app]. loads. tags. rewrite lor_le8, Hd.
  - by apply (signed_dec 64).
  - apply (Forall_take _ 7 _ Hok).
Qed.

(** Top bits of a 12 bit length. *)
Lemma top12 n : 64 <= n < 4096 -> 0 <= n / 256 < 16.
Proof. intros. split; [apply Z.div_pos; lia|apply Z.div_lt_upper_bound; lia]. Qed.

Lemma len_6 B n C p :
  0 <= n < 64 -> p = zlen B -> LP_ENCODING_6BIT_STR_LEN (B ++ strhdr n ++ C) p = Some n.
Proof.
  intros Hn ->. unfold LP_ENCODING_6BIT_STR_LEN, strhdr. rewrite load1_shift0.
  rewrite (proj2 (Z.ltb_lt n 64)) by lia. cbn [app]. loads. rewrite mask_63 by lia.
  f_equal. lia.
Qed.
Lemma len_12 B n C p :
  64 <= n < 4096 -> p = zlen B -> LP_ENCODING_12BIT_STR_LEN (B ++ strhdr n ++ C) p = Some n.
Proof.
  intros Hn ->. pose proof (top12 n Hn). unfold LP_ENCODING_12BIT_STR_LEN, strhdr.
  rewrite load1_shift0, load1_shift by done.
  rewrite (proj2 (Z.ltb_ge n 64)), (proj2 (Z.ltb_lt n 4096)) by lia. cbn [app]. loads.
  rewrite mask_15, Z.lor_comm, lor_shiftl by (lia || (apply Z.mod_pos_bound; lia)).
  pose proof (Z.div_mod n 256). f_equal. lia.
Qed.
Lemma len_32 B n C p :
  4096 <= n < 2 ^ 32 -> p = zlen B -> LP_ENCODING_32BIT_STR_LEN (B ++ strhdr n ++ C) p = Some n.
Proof.
  intros Hn ->. unfold LP_ENCODING_32BIT_STR_LEN, strhdr.
  rewrite !load1_shift by done.
  rewrite (proj2 (Z.ltb_ge n 64)), (proj2 (Z.ltb_ge n 4096)) by lia.
  le_bytes 4%nat n. cbn [app]. loads. rewrite lor_le4, Hd.
  - rewrite uN_small by lia. done.
  - apply (Forall_take _ 3 _ Hok).
Qed.

Lemma size_str n C :
  0 <= n < 2 ^ 32 - 5 ->
  lpCurrentEncodedSize (strhdr n ++ C) 0 = Some (zlen (strhdr n) + n).
Proof.
  intros Hn. unfold lpCurrentEncodedSize.
  assert (n < 64 \/ 64 <= n < 4096 \/ 4096 <= n) as [H6 | [H12 | H32]] by lia.
  - rewrite (len_6 [] n C) by (lia || done). unfold strhdr.
    rewrite (proj2 (Z.ltb_lt n 64)) by lia. cbn [app]. loads.
    by rewrite tag_high, tag_6str by lia.
  - pose proof (top12 n H12). rewrite (len_12 [] n C) by (lia || done). unfold strhdr.
    rewrite (proj2 (Z.ltb_ge n 64)), (proj2 (Z.ltb_lt n 4096)) by lia. cbn [app]. loads.
    destruct (tag_12str (224 + n / 256)) as (-> & -> & -> & -> & ->); [lia|].
    by rewrite tag_high, tag_not_6str, tag_not_13int by lia.
  - rewrite (len_32 [] n C) by (lia || done). unfold strhdr.
    rewrite (proj2 (Z.ltb_ge n 64)), (proj2 (Z.ltb_ge n 4096)) by lia. cbn [app]. loads. tags.
    mstep. rewrite uN_small by lia. done.
Qed.

Lemma lpGet_str A n C :
  0 <= n < 2 ^ 32 - 5 ->
  lpGet (A ++ strhdr n ++ C) (zlen A) = Some (LPStr (zlen A + zlen (strhdr n)) n).
Proof.
  intros Hn. unfold lpGet. rewrite !load1_shift by done.
  assert (n < 64 \/ 64 <= n < 4096 \/ 4096 <= n) as [H6 | [H12 | H32]] by lia.
  - rewrite (len_6 A n C) by (lia || done). unfold strhdr.
    rewrite (proj2 (Z.ltb_lt n 64)) by lia. cbn [app]. loads.
    by rewrite tag_high, tag_6str by lia.
  - pose proof (top12 n H12). rewrite (len_12 A n C) by (lia || done). unfold strhdr.
    rewrite (proj2 (Z.ltb_ge n 64)), (proj2 (Z.ltb_lt n 4096)) by lia. cbn [app]. loads.
    destruct (tag_12str (224 + n / 256)) as (-> & -> & -> & -> & ->); [lia|].
    by rewrite tag_high, tag_not_6str, tag_not_13int by lia.
  - rewrite (len_32 A n C) by (lia || done). unfold strhdr.
    rewrite (proj2 (Z.ltb_ge n 64)), (proj2 (Z.ltb_ge n 4096)) by lia. cbn [app]. loads. by tags.
Qed.

(** [lpCurrentEncodedSize] measures the encoded element. *)
Lemma size_enc A s C :
  elem_ok s -> lpCurrentEncodedSize (A ++ enc s ++ C) (zlen A) = Some (zlen (enc s)).
Proof.
  intros [Hs Hl]. rewrite sizes_shift. unfold enc. destruct (string2ll s) as [v|] eqn:E.
  - apply string2ll_iff in E as [_ Hv]. by apply size_intenc.
  - rewrite <- app_assoc, size_str by zlia. f_equal. zlia.
Qed.

(** ** Backward lengths *)

Lemma backlen_len l : 1 <= zlen (lpEncodeBacklen l) <= 5.
Proof. unfold lpEncodeBacklen, chars. repeat casif; zlia. Qed.

(** A byte of the length field: the lowest ones carry the continuation bit. *)
Lemma cont_byte x : u8 (Z.lor (Z.land x 127) 128) = 128 + x mod 128.
Proof.
  pose proof (Z.mod_pos_bound x 128). rewrite land_127, set_128, uN_small; lia.
Qed.

(** One turn of the decoding loop. *)
Lemma decode_cont fuel lp b p val shift :
  load1 lp p = Some b -> 128 <= b < 256 -> 0 <= shift <= 21 -> 0 <= val < 2 ^ shift ->
  lpDecodeBacklen_loop (S fuel) lp p val shift =
  lpDecodeBacklen_loop fuel lp (p - 1) (val + 2 ^ shift * (b - 128)) (shift + 7).
Proof.
  intros Hp Hb Hs Hv. cbn [lpDecodeBacklen_loop]. rewrite Hp. mstep.
  destruct (cont_mask b Hb) as [-> ->].
  assert (2 ^ shift <= 2 ^ 21) by (apply Z.pow_le_mono_r; lia).
  rewrite uN_small.
  - rewrite lor_shiftl by lia. rewrite Z.gtb_ltb, (proj2 (Z.ltb_ge _ _)) by lia. done.
  - rewrite Z.shiftl_mul_pow2 by lia. nia.
Qed.
Lemma decode_last fuel lp b p val shift :
  load1 lp p = Some b -> 0 <= b < 128 -> 0 <= shift <= 28 -> 0 <= val < 2 ^ shift ->
  lpDecodeBacklen_loop (S fuel) lp p val shift = Some (val + 2 ^ shift * b).
Proof.
  intros Hp Hb Hs Hv. cbn [lpDecodeBacklen_loop]. rewrite Hp. mstep.
  destruct (last_mask b Hb) as [-> ->].
  assert (2 ^ shift <= 2 ^ 28) by (apply Z.pow_le_mono_r; lia).
  rewrite uN_small.
  - by rewrite lor_shiftl by lia.
  - rewrite Z.shiftl_mul_pow2 by lia. nia.
Qed.

(** The bytes of the length field as base 128 digits. *)
Lemma backlen_digits l : 0 <= l < 2 ^ 35 ->
  exists d0 d1 d2 d3 d4,
    l = d0 + 128 * d1 + 128 ^ 2 * d2 + 128 ^ 3 * d3 + 128 ^ 4 * d4 /\
    0 <= d0 < 128 /\ 0 <= d1 < 128 /\ 0 <= d2 < 128 /\ 0 <= d3 < 128 /\ 0 <= d4 < 128 /\
    lpEncodeBacklen l =
      if l <=? 127 then [d0]
      else if l <? 16383 then [d1; 128 + d0]
      else if l <? 2097151 then [d2; 128 + d1; 128 + d0]
      else if l <? 268435455 then [d3; 128 + d2; 128 + d1; 128 + d0]
      else [d4; 128 + d3; 128 + d2; 128 + d1; 128 + d0].
Proof.
  intros Hl. exists (l mod 128), (l / 2 ^ 7 mod 128), (l / 2 ^ 14 mod 128),
    (l / 2 ^ 21 mod 128), (l / 2 ^ 28 mod 128).
  split_and!; try (apply Z.mod_pos_bound; lia).
  - pose proof (Z.div_mod l 128). pose proof (Z.div_mod (l / 2 ^ 7) 128).
    pose proof (Z.div_mod (l / 2 ^ 14) 128). pose proof (Z.div_mod (l / 2 ^ 21) 128).
    rewrite (Z.mod_small (l / 2 ^ 28)).
    + rewrite !Z.div_div in * by lia.
      change (2 ^ 7 * 128) with (2 ^ 14) in *. change (2 ^ 14 * 128) with (2 ^ 21) in *.
      change (2 ^ 21 * 128) with (2 ^ 28) in *. change (2 ^ 7) with 128 in *. lia.
    + split; [apply Z.div_pos; lia|apply Z.div_lt_upper_bound; lia].
  - unfold lpEncodeBacklen, chars. cbn [map]. rewrite !cont_byte, !shiftr_div by lia.
    assert (forall k, 0 <= k -> l < 128 * 2 ^ k -> u8 (l / 2 ^ k) = (l / 2 ^ k) mod 128) as Htop.
    { intros k Hk Hlk. assert (0 < 2 ^ k) by lia.
      assert (0 <= l / 2 ^ k < 128).
      { split; [apply Z.div_pos; lia|apply Z.div_lt_upper_bound; lia]. }
      rewrite uN_small, Z.mod_small by lia. done. }
    repeat casif; rewrite ?Htop by lia; try done.
    rewrite uN_small, Z.mod_small by lia. done.
Qed.

Ltac dload Hld L k := apply (Hld L k); [reflexivity|lia|zlia].
Ltac dcont Hld L k b := rewrite (decode_cont _ _ b);
  [|dload Hld L k|lia|lia|lia]; change (0 + 7) with 7; change (7 + 7) with 14;
  change (14 + 7) with 21; change (21 + 7) with 28.
Ltac dlast Hld L b := rewrite (decode_last _ _ b);
  [f_equal; lia|dload Hld L 0|lia|lia|lia].

(** [lpDecodeBacklen] reads, from its last byte, the length [lpEncodeBacklen] wrote. *)
Lemma decode_backlen A l C p :
  0 <= l < 2 ^ 35 -> p = zlen A + zlen (lpEncodeBacklen l) - 1 ->
  lpDecodeBacklen (A ++ lpEncodeBacklen l ++ C) p = Some l.
Proof.
  intros Hl ->. destruct (backlen_digits l Hl) as (d0 & d1 & d2 & d3 & d4 & E & ? & ? & ? & ? & ? & ->).
  unfold lpDecodeBacklen.
  assert (forall L k b, load1 (L ++ C) k = Some b -> 0 <= k -> forall q, q = zlen A + k ->
          load1 (A ++ L ++ C) q = Some b) as Hld.
  { intros L k b Hb Hk q ->. by rewrite load1_shift by done. }
  repeat casif.
  - dlast Hld [d0] d0.
  - let L := constr:([d1; 128 + d0]) in
    dcont Hld L 1 (128 + d0); dlast Hld L d1.
  - let L := constr:([d2; 128 + d1; 128 + d0]) in
    dcont Hld L 2 (128 + d0); dcont Hld L 1 (128 + d1); dlast Hld L d2.
  - let L := constr:([d3; 128 + d2; 128 + d1; 128 + d0]) in
    dcont Hld L 3 (128 + d0); dcont Hld L 2 (128 + d1); dcont Hld L 1 (128 + d2); dlast Hld L d3.
  - let L := constr:([d4; 128 + d3; 128 + d2; 128 + d1; 128 + d0]) in
    dcont Hld L 4 (128 + d0); dcont Hld L 3 (128 + d1); dcont Hld L 2 (128 + d2); dcont Hld L 1 (128 + d3); dlast Hld L d4.
Qed.
