(* ===== verification/ListpackOps.v ===== *)
(** * Listpacks as sequences of strings: navigation and updates

    [wf lp ss]: the block [lp] is a listpack that holds the strings [ss]. *)

From Stdlib Require Import ZArith Lia.
From stdpp Require Import base numbers option list.
From S2P Require Import Prelude Memory Bits Util UtilFacts IntsetFacts Listpack ListpackFacts.

Local Open Scope Z_scope.
Local Open Scope redis_scope.

(** ** Representation *)

Definition entry (s : bytes) : bytes := enc s ++ lpEncodeBacklen (zlen (enc s)).
Definition body (ss : list bytes) : bytes := concat (map entry ss).
Definition hdr (total num : Z) : bytes := le_enc 4 total ++ le_enc 2 num.

(** The element count of the header is exact, or the mark "unknown". *)
Definition num_ok (num n : Z) : Prop :=
  num = n /\ n < LP_HDR_NUMELE_UNKNOWN \/ num = LP_HDR_NUMELE_UNKNOWN.

Record wf (lp : bytes) (ss : list bytes) : Prop := {
  wf_elems : Forall elem_ok ss;
  wf_size : zlen lp <= UINT32_MAX;
  wf_block : exists num, num_ok num (zlen ss) /\ lp = hdr (zlen lp) num ++ body ss ++ [LP_EOF] }.

(** The offset of element number [i]. *)
Definition off (ss : list bytes) (i : nat) : Z := LP_HDR_SIZE + zlen (body (take i ss)).

Lemma body_app X Y : body (X ++ Y) = body X ++ body Y.
Proof. unfold body. by rewrite map_app, concat_app. Qed.
Lemma body_cons s X : body (s :: X) = entry s ++ body X.
Proof. done. Qed.
Lemma body_one s : body [s] = entry s.
Proof. apply app_nil_r. Qed.
Lemma zlen_hdr t n : zlen (hdr t n) = LP_HDR_SIZE.
Proof. unfold hdr, LP_HDR_SIZE. zlia. Qed.
Global Hint Rewrite zlen_hdr body_app : zlen.

Lemma num_ok_u16 num n : 0 <= n -> num_ok num n -> 0 <= num < 2 ^ 16.
Proof. unfold num_ok, LP_HDR_NUMELE_UNKNOWN, UINT16_MAX. lia. Qed.

(** ** The header *)

Lemma getTotal_hdr t n X : 0 <= t < 2 ^ 32 -> lpGetTotalBytes (hdr t n ++ X) = Some t.
Proof.
  intros Ht. unfold lpGetTotalBytes, hdr. rewrite <- app_assoc.
  le_bytes 4%nat t. cbn [app]. loads. rewrite lor_le4, Hd.
  - by rewrite uN_small by lia.
  - apply (Forall_take _ 3 _ Hok).
Qed.
Lemma getNum_hdr t n X : 0 <= n < 2 ^ 16 -> lpGetNumElements (hdr t n ++ X) = Some n.
Proof.
  intros Hn. unfold lpGetNumElements, hdr. rewrite <- app_assoc.
  pose proof (zlen_le_enc 4 t) as Hl.
  rewrite (load1_shift (le_enc 4 t) _ 0 : _ -> load1 _ 4 = _) by done.
  rewrite (load1_shift (le_enc 4 t) _ 1 : _ -> load1 _ 5 = _) by done.
  le_bytes 2%nat n. cbn [app]. loads. rewrite lor_le2, Hd.
  - by rewrite uN_small by lia.
  - apply (Forall_take _ 1 _ Hok).
Qed.

Lemma setTotal_hdr t t' n X : lpSetTotalBytes (hdr t n ++ X) t' = Some (hdr t' n ++ X).
Proof.
  unfold lpSetTotalBytes, hdr. rewrite <- !app_assoc, <- (chars_le4' t').
  rewrite !le_enc_S, le_enc_0. cbn [app].
  rewrite (store1_app [] _ _ _ 0 eq_refl : store1 (_ :: _) 0 _ = Some (_ :: _)). mstep.
  rewrite (store1_app [_] _ _ _ 1 eq_refl : store1 (_ :: _) 1 _ = Some (_ :: _)). mstep.
  rewrite (store1_app [_; _] _ _ _ 2 eq_refl : store1 (_ :: _) 2 _ = Some (_ :: _)). mstep.
  by rewrite (store1_app [_; _; _] _ _ _ 3 eq_refl : store1 (_ :: _) 3 _ = Some (_ :: _)).
Qed.
Lemma setNum_hdr t n n' X : lpSetNumElements (hdr t n ++ X) n' = Some (hdr t n' ++ X).
Proof.
  unfold lpSetNumElements, hdr. rewrite <- !app_assoc, <- (chars_le2' n').
  rewrite (le_enc_S 1 n), (le_enc_S 0), le_enc_0. cbn [app].
  rewrite (store1_app (le_enc 4 t)) by zlia. mstep.
  rewrite cons_middle, app_assoc, (store1_app (le_enc 4 t ++ [_])) by zlia.
  by rewrite <- app_assoc.
Qed.

(** ** Entries *)

Lemma zlen_intenc v : 1 <= zlen (intenc v) <= 9.
Proof. unfold intenc. repeat casif; zlia. Qed.

Lemma zlen_enc s : elem_ok s -> 1 <= zlen (enc s) < 2 ^ 32.
Proof.
  intros [_ Hs]. unfold enc. destruct (string2ll s) as [v|].
  - pose proof (zlen_intenc v). lia.
  - rewrite zlen_app, zlen_strhdr. repeat casif; zlia.
Qed.

(** The first byte of an entry is never the end mark. *)
Lemma enc_head s X : elem_ok s -> exists b, load1 (enc s ++ X) 0 = Some b /\ 0 <= b < 255.
Proof.
  intros [_ Hs]. unfold enc. destruct (string2ll s) as [v|].
  - pose proof (top13 v). unfold intenc. repeat casif; (eexists; split; [reflexivity|lia]).
  - unfold strhdr. zlen_pos. repeat casif; (eexists; split; [reflexivity|]); try lia.
    pose proof (top12 (zlen s)). lia.
Qed.

Lemma entry_backlen s : zlen (entry s) = zlen (enc s) + lpEncodeBacklen_size (zlen (enc s)).
Proof. unfold entry, lpEncodeBacklen_size. zlia. Qed.

Lemma zlen_entry s : elem_ok s -> 2 <= zlen (entry s) < 2 ^ 32 + 5.
Proof.
  intros Hs. rewrite entry_backlen. pose proof (zlen_enc s Hs).
  pose proof (backlen_len (zlen (enc s))). unfold lpEncodeBacklen_size. lia.
Qed.

(** ** Stepping *)

Lemma skip_entry A s X : elem_ok s -> lpSkip (A ++ entry s ++ X) (zlen A) = Some (zlen A + zlen (entry s)).
Proof.
  intros Hs. rewrite entry_backlen. unfold lpSkip, entry.
  by rewrite <- app_assoc, size_enc.
Qed.

Lemma size_entry A s X :
  elem_ok s -> lpCurrentEncodedSize (A ++ entry s ++ X) (zlen A) = Some (zlen (enc s)).
Proof. intros Hs. unfold entry. rewrite <- app_assoc. by apply size_enc. Qed.

(** The first byte after the entries before position [zlen A]: an entry or the end. *)
Lemma eof_test A R : Forall elem_ok R -> 
  exists b, load1 (A ++ body R ++ [LP_EOF]) (zlen A) = Some b /\
    (b =? LP_EOF) = match R with [] => true | _ => false end.
Proof.
  intros HR. rewrite load1_shift0. destruct R as [|s R]; [by exists LP_EOF|].
  apply Forall_cons in HR as [Hs _]. rewrite body_cons. unfold entry. rewrite <- !app_assoc.
  destruct (enc_head s (lpEncodeBacklen (zlen (enc s)) ++ body R ++ [LP_EOF]) Hs) as (b & -> & Hb).
  exists b. split; [done|]. apply Z.eqb_neq. unfold LP_EOF. lia.
Qed.

Lemma next_entry A s R :
  Forall elem_ok (s :: R) ->
  lpNext (A ++ body (s :: R) ++ [LP_EOF]) (zlen A) =
  Some (match R with [] => None | _ => Some (zlen A + zlen (entry s)) end).
Proof.
  intros [Hs HR]%Forall_cons. unfold lpNext. rewrite body_cons, <- app_assoc, skip_entry by done.
  mstep. rewrite <- zlen_app, app_assoc.
  destruct (eof_test (A ++ entry s) R HR) as (b & -> & Hb). mstep. rewrite Hb. by destruct R.
Qed.

Lemma prev_entry A s X p :
  elem_ok s -> zlen A >= LP_HDR_SIZE -> p = zlen (A ++ entry s) ->
  lpPrev (A ++ entry s ++ X) p = Some (Some (zlen A)).
Proof.
  intros Hs HA ->. pose proof (zlen_entry s Hs). pose proof (zlen_enc s Hs).
  unfold lpPrev. rewrite (proj2 (Z.eqb_neq _ _)) by zlia.
  unfold entry. rewrite <- (app_assoc (enc s) _ X), (app_assoc A (enc s) (_ ++ X)).
  rewrite decode_backlen by zlia. mstep.
  pose proof (backlen_len (zlen (enc s))). unfold lpEncodeBacklen_size.
  rewrite uN_small by lia. do 2 f_equal. zlia.
Qed.

(** ** Making room in a block *)

Lemma memmove_any A R T J k :
  0 <= k <= zlen R + zlen J ->
  exists G J', zlen G = k /\ zlen J' = zlen R + zlen J - k /\
    memmove (A ++ R ++ T ++ J) (zlen A + k) (zlen A + zlen R) (zlen T) = Some (A ++ G ++ T ++ J').
Proof.
  intros Hk. unfold memmove.
  rewrite (app_assoc A R), (load_app (A ++ R) T J) by zlia. mstep. rewrite <- app_assoc.
  destruct (split_range (R ++ T ++ J) k (zlen T)) as (G & M & J' & E & HG & HM); [zlia..|].
  exists G, J'. split; [done|]. split; [apply (f_equal zlen) in E; zlia|].
  rewrite E, !(app_assoc A G). apply store_app; zlia.
Qed.

(** [R] between [A] and [T] gives way to [k] bytes: reallocation before the move when
    the block grows, after it when it shrinks. *)
Lemma splice `{Alloc} A R T k :
  0 <= k ->
  let old := zlen (A ++ R ++ T) in let new := old + k - zlen R in
  exists G m, zlen G = k /\
    memmove (if new >? old then realloc (A ++ R ++ T) new else A ++ R ++ T)
      (zlen A + k) (zlen A + zlen R) (zlen T) = Some m /\
    (if new <? old then realloc m new else m) = A ++ G ++ T.
Proof.
  intros Hk old new. subst old new. rewrite Z.gtb_ltb.
  destruct (zlen R <? k) eqn:E; boolsimp.
  - rewrite (proj2 (Z.ltb_lt _ _)), (proj2 (Z.ltb_ge _ _)) by lia.
    destruct (realloc_grow (A ++ R ++ T) (zlen (A ++ R ++ T) + k - zlen R))
      as (J & -> & HJ & _); [lia|].
    rewrite <- !app_assoc.
    destruct (memmove_any A R T J k) as (G & J' & HG & HJ' & ->); [lia|].
    exists G, (A ++ G ++ T ++ J'). split_and!; [done|done|].
    assert (J' = []) as -> by (apply zlen_0_inv; lia). by rewrite app_nil_r.
  - rewrite (proj2 (Z.ltb_ge (zlen (A ++ R ++ T)) _)) by lia.
    destruct (memmove_any A R T [] k) as (G & J' & HG & HJ' & HM); [zlia|].
    rewrite app_nil_r in HM. exists G, (A ++ G ++ T ++ J'). split_and!; [done|done|].
    change (zlen (@nil Z)) with 0 in HJ'. casif.
    + rewrite !app_assoc, <- (app_assoc A). apply realloc_shrink. zlia.
    + assert (J' = []) as -> by (apply zlen_0_inv; zlia). by rewrite app_nil_r.
Qed.

(** ** Writing the entry *)

Definition write_entry (lp : bytes) (dst : Z) (e : bytes) : option bytes :=
  let '(is_int, intenc, enclen) := lpEncodeGetType e in
  let! lp := (if (is_int : bool) then store lp dst (take (Z.to_nat enclen) intenc)
              else lpEncodeString lp dst e) in
  store lp (dst + enclen) (lpEncodeBacklen enclen).

Lemma encodeString_app A G T s :
  zlen s < 2 ^ 32 -> zlen G = zlen (strhdr (zlen s) ++ s) ->
  lpEncodeString (A ++ G ++ T) (zlen A) s = Some (A ++ (strhdr (zlen s) ++ s) ++ T).
Proof.
  intros Hs HG. unfold lpEncodeString, strhdr in *. zlen_pos.
  destruct (zlen s <? 64) eqn:E1; [|destruct (zlen s <? 4096) eqn:E2]; boolsimp.
  - destruct G as [|g0 G]; [zlia|]. cbn [app]. rewrite store1_app by done. mstep.
    rewrite set_128, uN_small by lia. rewrite cons_middle, app_assoc, store_app by zlia.
    by rewrite <- app_assoc.
  - pose proof (top12 (zlen s)). destruct G as [|g0 [|g1 G]]; [zlia..|]. cbn [app].
    rewrite store1_app by done. mstep. rewrite cons_middle, app_assoc, store1_app by zlia. mstep.
    rewrite cons_middle, app_assoc, store_app by zlia. rewrite <- !app_assoc. cbn [app].
    rewrite shiftr_div, u8_land0 by lia. change (2 ^ 8) with 256.
    by rewrite set_224, uN_small by lia.
  - destruct G as [|g0 [|g1 [|g2 [|g3 [|g4 G]]]]]; [zlia..|]. cbn [app].
    rewrite store1_app by done. mstep. 
    do 4 (rewrite cons_middle, app_assoc, store1_app by zlia; mstep).
    rewrite cons_middle, app_assoc, store_app by zlia. rewrite <- !app_assoc. cbn [app].
    by rewrite <- chars_le4'.
Qed.

Lemma write_entry_spec A G T s :
  elem_ok s -> zlen G = zlen (entry s) ->
  write_entry (A ++ G ++ T) (zlen A) s = Some (A ++ entry s ++ T).
Proof.
  intros [Hb Hs] HG. unfold write_entry.
  assert (exists G1 G2, G = G1 ++ G2 /\ zlen G1 = zlen (enc s) /\
            zlen G2 = zlen (lpEncodeBacklen (zlen (enc s)))) as (G1 & G2 & -> & HG1 & HG2).
  { unfold entry in HG. destruct (split_range G 0 (zlen (enc s))) as (N & G1 & G2 & -> & HN & ?); [zlia..|].
    apply zlen_0_inv in HN as ->. exists G1, G2. split; [done|]. split; [done|]. zlia. }
  rewrite <- app_assoc.
  unfold enc in *. destruct (string2ll s) as [v|] eqn:E.
  - rewrite (encodeGetType_int s v) by done. rewrite take_ge by (unfold zlen; lia).
    rewrite store_app by done. mstep. rewrite (app_assoc A), store_app by zlia.
    unfold entry, enc. rewrite E. by rewrite <- !app_assoc.
  - rewrite encodeGetType_str by done. rewrite encodeString_app by (done || lia). mstep.
    unfold entry, enc. rewrite E. rewrite (app_assoc A (_ ++ s)), store_app by zlia.
    by rewrite <- !app_assoc.
Qed.

(** ** Updates *)

Definition opt_list (ele : option bytes) : list bytes :=
  match ele with Some e => [e] | None => [] end.

(** The part of the code between the move and the header update, on a block whose gap
    [G] has the size of the new entry. *)
Lemma store_new A G T ele :
  match ele with Some e => elem_ok e | None => True end ->
  zlen G = zlen (body (opt_list ele)) ->
  (let '(is_int, intenc, enclen) :=
     match ele with Some e => lpEncodeGetType e | None => (false, [], 0) end in
   match ele with
   | Some e =>
       let! lp := (if (is_int : bool) then store (A ++ G ++ T) (zlen A) (take (Z.to_nat enclen) intenc)
                   else lpEncodeString (A ++ G ++ T) (zlen A) e) in
       store lp (zlen A + enclen) (lpEncodeBacklen enclen)
   | None => Some (A ++ G ++ T)
   end) = Some (A ++ body (opt_list ele) ++ T).
Proof.
  intros He HG. destruct ele as [e|]; cbn [opt_list] in *.
  - rewrite body_one in *. by apply write_entry_spec.
  - assert (G = []) as -> by (apply zlen_0_inv; done). done.
Qed.

(** The lengths computed before the move. *)
Lemma new_lengths ele :
  match ele with Some e => elem_ok e | None => True end ->
  let '(_, _, enclen) :=
    match ele with Some e => lpEncodeGetType e | None => (false, [], 0) end in
  0 <= enclen < 2 ^ 32 /\
  enclen + zlen (match ele with Some _ => lpEncodeBacklen enclen | None => [] end)
  = zlen (body (opt_list ele)).
Proof.
  intros He. destruct ele as [e|]; [|done]. cbn [opt_list]. rewrite body_one, entry_backlen.
  pose proof (zlen_enc e He) as Hz. unfold lpEncodeBacklen_size. destruct He as [Hb Hs].
  destruct (string2ll e) as [v|] eqn:E.
  - rewrite (encodeGetType_int e v) by done. unfold enc in *. rewrite E in *. lia.
  - rewrite encodeGetType_str by done. lia.
Qed.

Lemma num_ok_step num n m d :
  num_ok num n -> 0 <= n -> m = n + d -> d = 1 \/ d = -1 /\ 1 <= n ->
  num_ok (if negb (num =? LP_HDR_NUMELE_UNKNOWN) then u32 (num + d) else num) m.
Proof.
  unfold num_ok, LP_HDR_NUMELE_UNKNOWN, UINT16_MAX. intros Hn H0 -> Hd. casif; [|lia].
  rewrite uN_small by lia. lia.
Qed.

(** The header after the update. *)
Definition new_num (w : lp_where) (ele : option bytes) (num : Z) : Z :=
  match w, ele with
  | LP_REPLACE, Some _ => num
  | _, Some _ => if negb (num =? LP_HDR_NUMELE_UNKNOWN) then u32 (num + 1) else num
  | _, None => if negb (num =? LP_HDR_NUMELE_UNKNOWN) then u32 (num - 1) else num
  end.

Lemma set_header w ele t num X new :
  0 <= num < 2 ^ 16 ->
  (let! lp :=
    match w, ele with
    | LP_REPLACE, Some _ => Some (hdr t num ++ X)
    | _, _ =>
        let! num_elements := lpGetNumElements (hdr t num ++ X) in
        if negb (num_elements =? LP_HDR_NUMELE_UNKNOWN) then
          match ele with
          | Some _ => lpSetNumElements (hdr t num ++ X) (u32 (num_elements + 1))
          | None => lpSetNumElements (hdr t num ++ X) (u32 (num_elements - 1))
          end
        else Some (hdr t num ++ X)
    end in
  lpSetTotalBytes lp new) = Some (hdr new (new_num w ele num) ++ X).
Proof.
  intros Hn. unfold new_num.
  destruct w, ele; rewrite ?getNum_hdr by done; mstep;
    try (destruct (negb _)); rewrite ?setNum_hdr; mstep; apply setTotal_hdr.
Qed.

Lemma new_num_ok w ele num n (M : list bytes) :
  num_ok num n -> w <> LP_AFTER ->
  match w with LP_BEFORE => M = [] | _ => exists r, M = [r] end ->
  match ele with Some e => True | None => w = LP_REPLACE end ->
  zlen M <= n ->
  num_ok (new_num w ele num) (n + zlen (opt_list ele) - zlen M).
Proof.
  intros Hn Hw HM He Hl. zlen_pos.
  destruct w; [|done|]; destruct ele as [e|]; try done; simpl; cbn [opt_list].
  - subst M. apply (num_ok_step num n _ 1); zlia || done.
  - destruct HM as [r ->]. replace (_ - _) with n by zlia. done.
  - destruct HM as [r ->]. apply (num_ok_step num n _ (-1)); zlia || done.
Qed.

Lemma replaced_size A M T w :
  Forall elem_ok M -> zlen (body M) < 2 ^ 32 -> w <> LP_AFTER ->
  match w with LP_BEFORE => M = [] | _ => exists r, M = [r] end ->
  match w with
  | LP_REPLACE =>
      let! l := lpCurrentEncodedSize (A ++ body M ++ T) (zlen A) in
      Some (u32 (l + lpEncodeBacklen_size l))
  | _ => Some 0
  end = Some (zlen (body M)).
Proof.
  intros HF Hl Hw HM. destruct w; [by subst M|done|]. destruct HM as [r ->].
  apply Forall_cons in HF as [Hr _]. rewrite body_one in *. rewrite size_entry by done. mstep.
  rewrite <- entry_backlen, uN_small by zlia. done.
Qed.

(** The value left in [newp]: after a deletion NULL when no element follows. *)
Lemma new_pointer A G R (ele : option bytes) :
  Forall elem_ok R -> zlen G = zlen (body (opt_list ele)) ->
  match ele with
  | Some _ => Some (Some (zlen A))
  | None => let! d0 := load1 (A ++ G ++ body R ++ [LP_EOF]) (zlen A) in
            Some (if d0 =? LP_EOF then None else Some (zlen A))
  end = Some (match ele, R with None, [] => None | _, _ => Some (zlen A) end).
Proof.
  intros HR HG. destruct ele; [done|]. assert (G = []) as -> by (apply zlen_0_inv; done).
  cbn [app]. destruct (eof_test A R HR) as (b & -> & Hb). mstep. rewrite Hb. by destruct R.
Qed.

(** The block after the update represents the updated sequence. *)
Lemma wf_spliced L M R ele w num size :
  Forall elem_ok (L ++ M ++ R) -> num_ok num (zlen (L ++ M ++ R)) -> w <> LP_AFTER ->
  match w with LP_BEFORE => M = [] | _ => exists r, M = [r] end ->
  match ele with Some e => elem_ok e | None => w = LP_REPLACE end ->
  size = LP_HDR_SIZE + zlen (body (L ++ opt_list ele ++ R)) + 1 -> size <= UINT32_MAX ->
  let lp := hdr size (new_num w ele num) ++ body L ++ body (opt_list ele) ++ body R ++ [LP_EOF] in
  zlen lp = size /\ wf lp (L ++ opt_list ele ++ R).
Proof.
  intros HF Hnum Hw HM He Hsize Hmax lp.
  apply Forall_app in HF as [HL [HFM HR]%Forall_app].
  assert (zlen lp = size) as Hz by (subst lp; rewrite Hsize; clear; zlia).
  split; [done|]. constructor.
  - apply Forall_app. split; [done|]. apply Forall_app. split; [|done].
    destruct ele; cbn; auto.
  - lia.
  - exists (new_num w ele num). split.
    + replace (zlen (L ++ _)) with (zlen (L ++ M ++ R) + zlen (opt_list ele) - zlen M)
        by (clear; zlia).
      apply new_num_ok; try done; [by destruct ele|clear; zlia].
    + rewrite Hz, !body_app. subst lp. by rewrite <- !app_assoc.
Qed.

(** The core of [lpInsert]: the elements [M] at [p] are replaced by the new one. *)
Lemma insert_spec `{Alloc} lp L M R ele w :
  wf lp (L ++ M ++ R) -> w <> LP_AFTER ->
  match w with LP_BEFORE => M = [] | _ => exists r, M = [r] end ->
  match ele with Some e => elem_ok e | None => w = LP_REPLACE end ->
  let p := LP_HDR_SIZE + zlen (body L) in
  let size := zlen lp + zlen (body (opt_list ele)) - zlen (body M) in
  exists lp', (size <= UINT32_MAX -> zlen lp' = size /\ wf lp' (L ++ opt_list ele ++ R)) /\
    lpInsert lp ele p w =
    Some (if size >? UINT32_MAX then None
          else Some (lp', match ele, R with None, [] => None | _, _ => Some p end)).
Proof.
  intros [HF Hsz (num & Hnum & E)] Hw HM He p size.
  apply Forall_app in HF as [HL [HFM HR]%Forall_app].
  pose proof (num_ok_u16 _ _ (zlen_nonneg _) Hnum) as Hn16.
  remember (zlen lp) as total eqn:Etot.
  assert (0 <= total < 2 ^ 32) as Ht by (unfold UINT32_MAX in *; zlia).
  set (A := hdr total num ++ body L). set (T := body R ++ [LP_EOF]).
  assert (lp = A ++ body M ++ T) as Elp.
  { rewrite E. subst A T. rewrite !body_app, <- !app_assoc. done. }
  assert (zlen A = p) as HA by (subst A p; zlia).
  assert (total = zlen A + zlen (body M) + zlen T) as Htot by (rewrite Etot, Elp; clear; zlia).
  assert (match ele with Some e => elem_ok e | None => True end) as He' by (destruct ele; done).
  set (N := body (opt_list ele)) in *.
  assert (size = total + zlen N - zlen (body M)) as Hsize by done. clearbody size.
  exists (hdr size (new_num w ele num) ++ body L ++ N ++ T). split.
  { intros Hmax. apply (wf_spliced L M R ele w); try done.
    - apply Forall_app. split; [done|]. by apply Forall_app.
    - rewrite Hsize, Htot, HA. subst p N T. clear. zlia. }
  assert (lpGetTotalBytes lp = Some total) as HT by (rewrite E; by apply getTotal_hdr).
  pose proof (new_lengths ele He') as Hnew. pose proof (fun G => store_new A G T ele He') as Hst.
  pose proof (splice A (body M) T (zlen N) ltac:(zlia)) as (G & m & HG & Hmv & Hfin).
  rewrite <- Elp, <- Etot, <- Hsize in Hmv, Hfin.   unfold lpInsert.
  replace (match ele with Some _ => w | None => LP_REPLACE end) with w by (by destruct ele).
  replace (match w with LP_AFTER => _ | _ => _ end) with (Some (p, w)) by (by destruct w).
  mstep. destruct (match ele with Some e => lpEncodeGetType e | None => (false, [], 0) end)
    as [[is_int ie] enclen] eqn:Eenc.
  destruct Hnew as [Hel Hlen]. fold N in Hlen, Hst.
  set (bl := match ele with Some _ => lpEncodeBacklen enclen | None => [] end) in *.
  assert (0 <= zlen N < 2 ^ 33) as HN.
  { split; [auto with redis|]. subst N. destruct ele as [e|]; [|done]. cbn [opt_list].
    rewrite body_one. pose proof (zlen_entry e He). lia. }
  rewrite HT. mstep.
  pose proof (replaced_size A M T w HFM ltac:(zlen_pos; lia) Hw HM) as Hrep.
  rewrite <- Elp, HA in Hrep. rewrite Hrep. mstep. rewrite HA in Hmv, Hst.
  replace (u64 (total + enclen + zlen bl - zlen (body M))) with size
    by (rewrite uN_small; zlen_pos; lia).
  destruct (size >? UINT32_MAX) eqn:Emax; [done|].
  match goal with
  |- context [mbind _ (match w with LP_BEFORE => ?a | LP_AFTER => ?b | LP_REPLACE => ?c end)] =>
    assert (match w with LP_BEFORE => a | LP_AFTER => b | LP_REPLACE => c end = Some m) as ->
  end.
  { rewrite <- Hmv. destruct w; [subst M|done|].
    - f_equal; rewrite ?Hlen; change (zlen (body [])) with 0 in *; lia.
    - rewrite i64_small by (zlen_pos; lia). f_equal; lia. }
  mstep. rewrite Hfin.
  pose proof (new_pointer A G R ele HR HG) as Hnp. rewrite HA in Hnp. fold T in Hnp.
  rewrite Hnp.
  mstep. specialize (Hst G HG).
  replace (match ele with Some e => _ | None => Some (A ++ G ++ T) end) with (Some (A ++ N ++ T))
    by (rewrite <- Hst; subst bl; by destruct ele).
  mstep. subst A. rewrite <- (app_assoc (hdr _ _)).
  pose proof (set_header w ele total num (body L ++ N ++ T) size Hn16) as Hset.
  destruct w, ele as [e|]; try done; apply bind_Some in Hset as (x & Hx & Htt);
    cbv beta in Hx; rewrite Hx; mstep; by rewrite Htt.
Qed.

(** ** Offsets by element number *)

Lemma off_0 ss : off ss 0 = LP_HDR_SIZE.
Proof. unfold off. rewrite take_0. done. Qed.
Lemma off_S ss i s : ss !! i = Some s -> off ss (S i) = off ss i + zlen (entry s).
Proof.
  intros Hs. unfold off. rewrite (take_S_r ss i s) by done.
  rewrite body_app, zlen_app, body_one. lia.
Qed.

(** The block around element [i]. *)
Lemma wf_at lp ss i s :
  wf lp ss -> ss !! i = Some s ->
  exists A, zlen A = off ss i /\ elem_ok s /\ Forall elem_ok (drop (S i) ss) /\
    lp = A ++ body (s :: drop (S i) ss) ++ [LP_EOF].
Proof.
  intros [HF _ (num & _ & E)] Hs.
  exists (hdr (zlen lp) num ++ body (take i ss)). split_and!.
  - unfold off. zlia.
  - by eapply Forall_lookup_1.
  - by apply Forall_drop.
  - rewrite E at 1. rewrite <- (take_drop_middle ss i s Hs) at 1.
    rewrite body_app, <- !app_assoc. done.
Qed.

(** NULL past the end. *)
Definition opt_off (ss : list bytes) (i : nat) : option Z :=
  if decide (i < length ss)%nat then Some (off ss i) else None.

Lemma drop_opt_off (ss : list bytes) i (x : Z) :
  match drop i ss with [] => None | _ => Some x end =
  if decide (i < length ss)%nat then Some x else None.
Proof.
  case_decide as Hd.
  - destruct (drop i ss) eqn:E; [|done]. apply (f_equal length) in E.
    rewrite length_drop in E. simpl in E. lia.
  - by rewrite drop_ge by lia.
Qed.

Lemma wf_next lp ss i :
  wf lp ss -> (i < length ss)%nat -> lpNext lp (off ss i) = Some (opt_off ss (S i)).
Proof.
  intros Hwf Hi. apply lookup_lt_is_Some_2 in Hi as [s Hs].
  destruct (wf_at lp ss i s Hwf Hs) as (A & HA & Hok & HR & E).
  rewrite E, <- HA, next_entry by by constructor.
  unfold opt_off. rewrite (off_S ss i s Hs), HA. f_equal. apply drop_opt_off.
Qed.

Lemma wf_prev lp ss i :
  wf lp ss -> (i < length ss)%nat -> lpPrev lp (off ss (S i)) = Some (Some (off ss i)).
Proof.
  intros Hwf Hi. apply lookup_lt_is_Some_2 in Hi as [s Hs].
  destruct (wf_at lp ss i s Hwf Hs) as (A & HA & Hok & HR & E).
  rewrite E, body_cons, <- app_assoc, <- HA. apply prev_entry; [done| |].
  - rewrite HA. unfold off. zlia.
  - rewrite (off_S ss i s Hs). zlia.
Qed.

Lemma wf_first lp ss : wf lp ss -> lpFirst lp = Some (opt_off ss 0).
Proof.
  intros [HF _ (num & _ & E)]. unfold lpFirst. rewrite E.
  pose proof (eof_test (hdr (zlen lp) num) ss HF) as (b & Hb & Hb').
  rewrite zlen_hdr in Hb. rewrite Hb. mstep. rewrite Hb'. unfold opt_off. rewrite off_0.
  by destruct ss.
Qed.

Lemma wf_total lp ss :
  wf lp ss -> lpGetTotalBytes lp = Some (zlen lp) /\ zlen lp = off ss (length ss) + 1.
Proof.
  intros [_ Hsz (num & _ & E)]. unfold UINT32_MAX in Hsz. split.
  - rewrite E at 1. apply getTotal_hdr. zlia.
  - rewrite E. unfold off. rewrite firstn_all. zlia.
Qed.

Lemma wf_num lp ss :
  wf lp ss -> exists num, num_ok num (zlen ss) /\ lpGetNumElements lp = Some num.
Proof.
  intros [_ _ (num & Hn & E)]. exists num. split; [done|]. rewrite E. apply getNum_hdr.
  eapply num_ok_u16; [|done]. zlia.
Qed.

Lemma wf_last lp ss :
  wf lp ss -> lpLast lp = Some (if decide (ss = []) then None else Some (off ss (length ss - 1))).
Proof.
  intros Hwf. destruct (wf_total lp ss Hwf) as [HT HL]. unfold lpLast. rewrite HT. mstep.
  replace (zlen lp - 1) with (off ss (length ss)) by lia. case_decide as Hd.
  - subst ss. unfold lpPrev. rewrite off_0, Z.eqb_refl. done.
  - destruct ss as [|s ss] using rev_ind; [done|]. clear IHss.
    assert (length (ss ++ [s]) = S (length ss)) as Hl by (rewrite length_app; simpl; lia).
    rewrite Hl, wf_prev by (done || lia). by replace (S (length ss) - 1)%nat with (length ss) by lia.
Qed.

(** ** Scans *)

Lemma length_scan fuel lp ss i count :
  wf lp ss -> (i <= length ss)%nat -> (length ss - i <= fuel)%nat -> 0 <= count ->
  count + zlen ss - Z.of_nat i < 2 ^ 32 ->
  lpLength_loop fuel lp (opt_off ss i) count = Some (count + zlen ss - Z.of_nat i).
Proof.
  intros Hwf. revert i count. induction fuel as [|fuel IH]; intros i count Hi Hf Hc Hb;
    unfold opt_off; case_decide as Hd; cbn [lpLength_loop]; try lia;
    try (f_equal; unfold zlen; lia).
  rewrite (wf_next lp ss i) by done. mstep. unfold zlen in *.
  rewrite uN_small, IH by lia. f_equal. lia.
Qed.

Lemma forward_scan n lp ss i :
  wf lp ss -> seek_forward n lp (opt_off ss i) = Some (opt_off ss (i + n)).
Proof.
  intros Hwf. revert i. induction n as [|n IH]; intros i; [by rewrite Nat.add_0_r|].
  unfold opt_off at 1. case_decide as Hd; cbn [seek_forward].
  - rewrite wf_next by done. mstep. rewrite IH. do 2 f_equal. lia.
  - unfold opt_off. rewrite decide_False by lia. done.
Qed.

Lemma backward_scan n lp ss i :
  wf lp ss -> (i < length ss)%nat ->
  seek_backward n lp (Some (off ss i)) =
  Some (if decide (n <= i)%nat then Some (off ss (i - n)) else None).
Proof.
  intros Hwf. revert i. induction n as [|n IH]; intros i Hi.
  { cbn. by rewrite decide_True, Nat.sub_0_r by lia. }
  cbn [seek_backward]. destruct i as [|i].
  - unfold lpPrev. rewrite off_0, Z.eqb_refl, decide_False by lia. mstep. by destruct n.
  - rewrite wf_prev by (done || lia). mstep. rewrite IH by lia.
    destruct (decide (n <= i)%nat); [rewrite decide_True by lia|by rewrite decide_False by lia].
    do 3 f_equal.
Qed.
