(* ===== verification/ListpackSpec.v ===== *)
(** * Contract of listpack.c

    A listpack is a sequence of byte strings: [wf lp ss] relates the block to the
    sequence, [off ss i] is the offset of element number [i].  Every operation of the
    module is described by its effect on the sequence. *)

From Stdlib Require Import ZArith Lia.
From stdpp Require Import base numbers option list.
From S2P Require Import Prelude Memory Bits Util UtilFacts Listpack ListpackFacts ListpackOps.

Local Open Scope Z_scope.
Local Open Scope redis_scope.

(** The size of the listpack that holds [ss]. *)
Definition lp_size (ss : list bytes) : Z := LP_HDR_SIZE + zlen (body ss) + 1.

Definition insert_at (w : lp_where) (i : nat) (e : bytes) (ss : list bytes) : list bytes * nat :=
  match w with
  | LP_BEFORE => (take i ss ++ e :: drop i ss, i)
  | LP_AFTER => (take (S i) ss ++ e :: drop (S i) ss, S i)
  | LP_REPLACE => (take i ss ++ e :: drop (S i) ss, i)
  end.

Section Contract.
  Context `{Alloc}.

Lemma wf_lp_size lp ss : wf lp ss -> zlen lp = lp_size ss.
Proof.
  intros Hwf. destruct (wf_total lp ss Hwf) as [_ ->]. unfold off, lp_size.
  by rewrite firstn_all.
Qed.

(** An insertion before [p], or in place of the element at [p]. *)
Lemma insert_split lp L M R e w :
  wf lp (L ++ M ++ R) -> w <> LP_AFTER ->
  match w with LP_BEFORE => M = [] | _ => exists r, M = [r] end -> elem_ok e ->
  exists lp', (lp_size (L ++ e :: R) <= UINT32_MAX -> wf lp' (L ++ e :: R)) /\
    lpInsert lp (Some e) (LP_HDR_SIZE + zlen (body L)) w =
    Some (if lp_size (L ++ e :: R) >? UINT32_MAX then None
          else Some (lp', Some (off (L ++ e :: R) (length L)))).
Proof.
  intros Hwf Hw HM He. destruct (insert_spec lp L M R (Some e) w) as (lp' & Hok & ->); try done.
  cbn [opt_list] in *. rewrite (wf_lp_size _ _ Hwf) in *.
  replace (lp_size (L ++ M ++ R) + zlen (body [e]) - zlen (body M)) with (lp_size (L ++ e :: R)) in *
    by (unfold lp_size; rewrite !body_app, body_cons, body_one; zlia).
  exists lp'. split; [by apply Hok|]. do 4 f_equal. unfold off. by rewrite take_app_length.
Qed.

(** C20. [lpInsert] of an element before, after or in place of element [i] yields the
    listpack of the updated sequence and, in [newp], the new element's offset; when
    the result would exceed 2^32-1 bytes it returns NULL.  No access leaves the
    block, for every content of freshly allocated memory. *)
Theorem lpInsert_correct lp ss i s e w :
  wf lp ss -> ss !! i = Some s -> elem_ok e ->
  let '(ss', j) := insert_at w i e ss in
  exists lp', (lp_size ss' <= UINT32_MAX -> wf lp' ss') /\
    lpInsert lp (Some e) (off ss i) w =
    Some (if lp_size ss' >? UINT32_MAX then None else Some (lp', Some (off ss' j))).
Proof.
  intros Hwf Hs He.
  assert (length (take i ss) = i) as Hi.
  { apply length_take_le. apply lookup_lt_Some in Hs. lia. }
  assert (length (take (S i) ss) = S i) as HSi.
  { apply length_take_le. apply lookup_lt_Some in Hs. lia. }
  destruct w; cbn [insert_at].
  - pose proof (insert_split lp (take i ss) [] (drop i ss) e LP_BEFORE) as Hb.
    rewrite Hi in Hb. apply Hb; try done. cbn [app]. by rewrite take_drop.
  - pose proof (insert_split lp (take (S i) ss) [] (drop (S i) ss) e LP_BEFORE) as Hb.
    rewrite HSi in Hb. destruct Hb as (lp' & Hok & Hb); try done.
    { cbn [app]. by rewrite take_drop. }
    exists lp'. split; [done|]. rewrite <- Hb. unfold lpInsert at 1.
    destruct (wf_at lp ss i s Hwf Hs) as (A & HA & Hsk & HR & E).
    assert (lpSkip lp (off ss i) = Some (off ss (S i))) as ->; [|done].
    rewrite (off_S ss i s Hs), <- HA, E, body_cons, <- app_assoc. by apply skip_entry.
  - pose proof (insert_split lp (take i ss) [s] (drop (S i) ss) e LP_REPLACE) as Hb.
    rewrite Hi in Hb. apply Hb; try done; [|by exists s].
    cbn [app]. by rewrite take_drop_middle.
Qed.

(** [lpDelete] removes exactly element [i]; [newp] is the element that followed it,
    NULL when there is none. *)
Theorem lpDelete_correct lp ss i :
  wf lp ss -> (i < length ss)%nat ->
  exists lp', wf lp' (delete i ss) /\
    lpDelete lp (off ss i) = Some (Some (lp', opt_off (delete i ss) i)).
Proof.
  intros Hwf Hi. pose proof Hi as [s Hs]%lookup_lt_is_Some_2.
  pose proof (take_drop_middle ss i s Hs) as Ess. rewrite <- Ess in Hwf at 1.
  destruct (insert_spec lp (take i ss) [s] (drop (S i) ss) None LP_REPLACE)
    as (lp' & Hok & Hins); [done|done|by exists s|done|].
  cbn [opt_list app] in *. rewrite <- delete_take_drop in Hok.
  assert (zlen lp + zlen (body []) - zlen (body [s]) <= UINT32_MAX) as Hsz.
  { destruct Hwf as [_ Hsz _]. change (zlen (body [])) with 0. zlia. }
  exists lp'. split; [by apply Hok|]. unfold lpDelete, off at 1. rewrite Hins, Z.gtb_ltb.
  rewrite (proj2 (Z.ltb_ge _ _)) by done. do 3 f_equal.
  rewrite drop_opt_off. unfold opt_off, off.
  assert (take i (delete i ss) = take i ss) as ->.
  { rewrite delete_take_drop, take_app_le, take_take, Nat.min_id by (rewrite length_take; lia). done. }
  pose proof (length_delete ss i ltac:(eauto)). repeat case_decide; try done; lia.
Qed.

Lemma append_spec lp ss e :
  wf lp ss -> elem_ok e ->
  exists lp', (lp_size (ss ++ [e]) <= UINT32_MAX -> wf lp' (ss ++ [e])) /\
    lpAppend lp e =
    Some (if lp_size (ss ++ [e]) >? UINT32_MAX then None
          else Some (lp', Some (off (ss ++ [e]) (length ss)))).
Proof.
  intros Hwf He. destruct (wf_total lp ss Hwf) as [HT HL].
  unfold lpAppend. rewrite HT. mstep.
  replace (zlen lp - 1) with (LP_HDR_SIZE + zlen (body ss))
    by (rewrite HL; unfold off; rewrite firstn_all; lia).
  apply (insert_split lp ss [] []); try done. cbn [app]. by rewrite app_nil_r.
Qed.

Lemma new_spec : exists lp, lpNew = Some lp /\ wf lp [].
Proof.
  destruct (realloc_grow [] 7) as (J & HJ & HJl & Hok); [done|]. unfold lpNew.
  change (LP_HDR_SIZE + 1) with 7. rewrite HJ. cbn [app]. change (zlen (@nil Z)) with 0 in HJl.
  assert (exists t n b, J = hdr t n ++ [b]) as (t & n & b & ->).
  { destruct J as [|b0 [|b1 [|b2 [|b3 [|b4 [|b5 [|b6 [|]]]]]]]]; try (exfalso; zlia).
    exists (le_dec [b0; b1; b2; b3]), (le_dec [b4; b5]), b6. unfold hdr.
    rewrite (le_enc_dec [b0; b1; b2; b3] (Forall_take _ 4 _ Hok) : le_enc 4 _ = _).
    rewrite (le_enc_dec [b4; b5] (Forall_take _ 2 _ (Forall_drop _ 4 _ Hok)) : le_enc 2 _ = _).
    done. }
  rewrite setTotal_hdr. mstep. rewrite setNum_hdr. mstep. rewrite store1_app by by rewrite zlen_hdr.
  eexists. split; [done|]. constructor; [done|by vm_compute|].
  exists 0. split; [by left|]. done.
Qed.

(** [lpAppend] adds an element at the end, or returns NULL when the size would
    exceed 2^32-1 bytes. *)
Theorem lpAppend_correct lp ss e :
  wf lp ss -> elem_ok e ->
  exists lp', (lp_size (ss ++ [e]) <= UINT32_MAX -> wf lp' (ss ++ [e])) /\
    lpAppend lp e =
    Some (if lp_size (ss ++ [e]) >? UINT32_MAX then None
          else Some (lp', Some (off (ss ++ [e]) (length ss)))).
Proof. apply append_spec. Qed.

(** [lpNew] followed by one [lpAppend] for each element. *)
Fixpoint append_all (lp : bytes) (ss : list bytes) : option bytes :=
  match ss with
  | [] => Some lp
  | e :: ss =>
      let! r := lpAppend lp e in
      let! (lp, _) := r in
      append_all lp ss
  end.

Lemma append_all_spec lp ss es :
  wf lp ss -> Forall elem_ok es -> lp_size (ss ++ es) <= UINT32_MAX ->
  exists lp', append_all lp es = Some lp' /\ wf lp' (ss ++ es).
Proof.
  intros Hwf Hes. revert lp ss Hwf. induction Hes as [|e es He Hes IH]; intros lp ss Hwf Hsz.
  { exists lp. by rewrite app_nil_r. }
  cbn [append_all]. destruct (append_spec lp ss e Hwf He) as (lp' & Hok & ->). mstep.
  assert (lp_size (ss ++ [e]) <= UINT32_MAX) as Hle.
  { revert Hsz. unfold lp_size. rewrite !body_app, (body_cons e es), body_one. zlia. }
  rewrite Z.gtb_ltb, (proj2 (Z.ltb_ge _ _)) by done. mstep.
  rewrite cons_middle, app_assoc in Hsz. rewrite cons_middle, app_assoc. auto.
Qed.

(** Every sequence of strings that fits in 2^32-1 bytes has a listpack, which the
    module's own operations build from nothing. *)
Theorem listpack_build ss :
  Forall elem_ok ss -> lp_size ss <= UINT32_MAX ->
  exists lp, (let! lp0 := lpNew in append_all lp0 ss) = Some lp /\ wf lp ss.
Proof.
  intros Hss Hsz. destruct new_spec as (lp0 & -> & Hwf). mstep.
  by apply (append_all_spec lp0 []).
Qed.
End Contract.

(** Reading back: [lpGet] on element [i] returns the integer exactly when the string
    is the canonical notation of a 64 bit integer, which it then denotes; otherwise a
    range of the block that holds the string itself. *)
Theorem lpGet_correct lp ss i s :
  wf lp ss -> ss !! i = Some s ->
  match string2ll s with
  | Some v => decimal s v /\ lpGet lp (off ss i) = Some (LPInt v)
  | None => exists o, lpGet lp (off ss i) = Some (LPStr o (zlen s)) /\ load lp o (zlen s) = Some s
  end.
Proof.
  intros Hwf Hs. destruct (wf_at lp ss i s Hwf Hs) as (A & HA & [Hb Hl] & HR & E).
  rewrite E, <- HA, body_cons, <- app_assoc. unfold entry, enc.
  destruct (string2ll s) as [v|] eqn:Es.
  - apply string2ll_iff in Es as [Hd Hv]. split; [done|]. rewrite <- app_assoc. by apply lpGet_int.
  - rewrite <- !app_assoc. rewrite lpGet_str by zlia. eexists. split; [done|].
    rewrite app_assoc. apply load_app; zlia.
Qed.

(** Navigation: from element to element in both directions, from either end, with
    NULL exactly at the ends. *)
Theorem listpack_navigation lp ss i :
  wf lp ss -> (i < length ss)%nat ->
  lpFirst lp = Some (Some (off ss 0)) /\
  lpLast lp = Some (Some (off ss (length ss - 1))) /\
  lpNext lp (off ss i) = Some (if decide (S i < length ss)%nat then Some (off ss (S i)) else None) /\
  lpPrev lp (off ss i) = Some (if decide (i = 0)%nat then None else Some (off ss (i - 1))).
Proof.
  intros Hwf Hi. split_and!.
  - rewrite (wf_first lp ss Hwf). unfold opt_off. by rewrite decide_True by lia.
  - rewrite (wf_last lp ss) by done. by rewrite decide_False by by intros ->; simpl in Hi; lia.
  - by rewrite wf_next.
  - destruct i as [|i].
    + unfold lpPrev. by rewrite off_0, Z.eqb_refl.
    + rewrite wf_prev by (done || lia). rewrite decide_False by lia.
      by replace (S i - 1)%nat with i by lia.
Qed.

(** [lpLength] is the number of elements, cached or counted, and what it writes to the
    header keeps the listpack's contents. *)
Theorem lpLength_correct lp ss :
  wf lp ss -> exists lp', lpLength lp = Some (zlen ss, lp') /\ wf lp' ss.
Proof.
  intros Hwf. destruct (wf_num lp ss Hwf) as (num & Hn & HN). unfold lpLength. rewrite HN. mstep.
  destruct Hn as [[-> Hlt] | ->].
  { rewrite (proj2 (Z.eqb_neq _ _)) by lia. simpl. eauto. }
  rewrite Z.eqb_refl. simpl negb. cbv iota. rewrite (wf_first lp ss Hwf). mstep.
  destruct Hwf as [HF Hsz (n & Hn & E)]. pose proof (Build_wf lp ss HF Hsz (ex_intro _ n (conj Hn E))) as Hwf.
  assert (2 * zlen ss <= zlen (body ss)) as Hb.
  { clear -HF. induction HF as [|s ss Hs _ IH]; [done|]. rewrite body_cons, zlen_cons, zlen_app.
    pose proof (zlen_entry s Hs). lia. }
  pose proof (wf_lp_size lp ss Hwf) as Hlp. unfold lp_size in Hlp.
  rewrite (length_scan _ lp ss 0 0) by
    (try done; unfold zlen, UINT32_MAX, LP_HDR_SIZE in *; lia). mstep.
  change (Z.of_nat 0) with 0. rewrite Z.add_0_l, Z.sub_0_r. casif.
  - rewrite E, setNum_hdr. mstep. eexists. split; [done|].
    assert (zlen (hdr (zlen lp) (zlen ss) ++ body ss ++ [LP_EOF]) = zlen lp) as Hz.
    { rewrite Hlp. zlia. }
    constructor; [done|lia|]. exists (zlen ss). split; [by left|]. by rewrite Hz.
  - eauto.
Qed.

(** [lpSeek] finds element [index] counted from the head, or from the tail when
    negative, whether or not the header knows the number of elements; NULL when out of
    range. *)
Theorem lpSeek_correct lp ss index :
  wf lp ss ->
  lpSeek lp index =
  Some (let i := if index <? 0 then zlen ss + index else index in
        if (0 <=? i) && (i <? zlen ss) then Some (off ss (Z.to_nat i)) else None).
Proof.
  intros Hwf. destruct (wf_num lp ss Hwf) as (num & Hn & HN).
  assert (forall k, 0 <= k -> lpSeek_scan lp true k =
            Some (if k <? zlen ss then Some (off ss (Z.to_nat k)) else None)) as Hfwd.
  { intros k Hk. unfold lpSeek_scan. rewrite (wf_first lp ss Hwf). mstep.
    rewrite forward_scan by done. unfold opt_off, zlen. rewrite Nat.add_0_l.
    case_decide; [by rewrite (proj2 (Z.ltb_lt _ _)) by lia|by rewrite (proj2 (Z.ltb_ge _ _)) by lia]. }
  assert (forall k, k < 0 -> lpSeek_scan lp false k =
            Some (if 0 <=? zlen ss + k then Some (off ss (Z.to_nat (zlen ss + k))) else None)) as Hbwd.
  { intros k Hk. unfold lpSeek_scan. rewrite (wf_last lp ss Hwf). mstep. case_decide as Hd.
    - subst ss. rewrite (proj2 (Z.leb_gt _ _)) by done. by destruct (Z.to_nat (-1 - k)).
    - assert (0 < length ss)%nat by (destruct ss; [done|simpl; lia]).
      rewrite backward_scan by (done || lia). unfold zlen. f_equal.
      case_decide; [rewrite (proj2 (Z.leb_le _ _)) by lia; do 2 f_equal; lia|].
      by rewrite (proj2 (Z.leb_gt _ _)) by lia. }
  unfold lpSeek. rewrite HN. mstep. zlen_pos. destruct Hn as [[-> Hlt] | ->].
  - rewrite (proj2 (Z.eqb_neq _ _)) by lia. simpl negb. cbv iota.
    set (i := if index <? 0 then zlen ss + index else index).
    destruct (0 <=? i) eqn:E0; boolsimp; [rewrite (proj2 (Z.ltb_ge _ _)) by lia|by rewrite (proj2 (Z.ltb_lt _ _)) by lia].
    rewrite Z.geb_leb. destruct (i <? zlen ss) eqn:E1; boolsimp;
      [rewrite (proj2 (Z.leb_gt _ _)) by lia|by rewrite (proj2 (Z.leb_le _ _)) by lia].
    simpl andb. cbv iota. casif.
    + rewrite Hbwd by lia. replace (zlen ss + (i - zlen ss)) with i by lia.
      by rewrite (proj2 (Z.leb_le _ _)) by lia.
    + rewrite Hfwd by lia. by rewrite (proj2 (Z.ltb_lt _ _)) by lia.
  - rewrite Z.eqb_refl. simpl negb. cbv iota. destruct (index <? 0) eqn:Ei; boolsimp; simpl negb.
    + rewrite Hbwd by lia. rewrite (proj2 (Z.ltb_lt (_ + _) _)), andb_true_r by lia. done.
    + rewrite Hfwd by lia. by rewrite (proj2 (Z.leb_le 0 index)) by lia.
Qed.

(** The backward length: [lpDecodeBacklen], started on the last byte of what
    [lpEncodeBacklen] wrote, returns the length, for every entry a listpack can
    hold (up to 2^35-1); one to five bytes are used. *)
Theorem backlen_roundtrip A l C :
  0 <= l < 2 ^ 35 ->
  1 <= zlen (lpEncodeBacklen l) <= 5 /\
  lpDecodeBacklen (A ++ lpEncodeBacklen l ++ C) (zlen A + zlen (lpEncodeBacklen l) - 1) = Some l.
Proof. intros Hl. split; [apply backlen_len|by apply decode_backlen]. Qed.

(** ** The 32 bit length computation *)

Lemma store_zlen m p bs m' : store m p bs = Some m' -> zlen m' = zlen m.
Proof. unfold store. case_decide; [|done]. intros [= <-]. zlia. Qed.
Lemma store_oob m p bs : 0 <= p -> zlen m < p + zlen bs -> store m p bs = None.
Proof. intros. unfold store. rewrite decide_False by lia. done. Qed.
Lemma memmove_zlen m d s n m' : memmove m d s n = Some m' -> zlen m' = zlen m.
Proof. unfold memmove. destruct load; [|done]. apply store_zlen. Qed.

Lemma store_then {A} m p bs (k : bytes -> option A) :
  (forall m', zlen m' = zlen m -> k m' = None) -> (let! m' := store m p bs in k m') = None.
Proof. intros Hk. destruct (store m p bs) eqn:E; [|done]. by apply Hk, (store_zlen _ p bs). Qed.

(** A string longer than its block cannot be written into it. *)
Lemma encodeString_oob m p s : 0 <= p -> zlen m < zlen s -> lpEncodeString m p s = None.
Proof.
  intros Hp Hm. unfold lpEncodeString, store1. zlen_pos.
  repeat casif; repeat (apply store_then; intros ? ?); apply store_oob; lia.
Qed.

(** C37. [5+size] of [lpEncodeGetType] is computed in 32 bits: for a string of 2^32-5 bytes
    or more the encoded length wraps to less than 5, the listpack is made just a few
    bytes longer, and [lpAppend] writes the string outside its block. *)
Theorem lpAppend_overflow `{Alloc} lp ss e :
  wf lp ss -> string2ll e = None -> 2 ^ 32 - 5 <= zlen e < 2 ^ 32 -> zlen lp <= 2 ^ 31 ->
  lpAppend lp e = None.
Proof.
  intros Hwf He Hl Hlp. destruct (wf_total lp ss Hwf) as [HT _]. unfold lpAppend. rewrite HT. mstep.
  unfold lpInsert. mstep. unfold lpEncodeGetType. rewrite lpStringToInt64_eq, He.
  rewrite (proj2 (Z.ltb_ge (zlen e) 64)), (proj2 (Z.ltb_ge (zlen e) 4096)) by lia.
  rewrite HT. mstep.
  assert (u32 (5 + zlen e) = zlen e + 5 - 2 ^ 32) as ->.
  { unfold uN. rewrite <- (Z.mod_small (zlen e + 5 - 2 ^ 32) (2 ^ 32)) by lia.
    rewrite <- (Z.mod_add (zlen e + 5 - 2 ^ 32) 1) by lia. f_equal. lia. }
  set (n := zlen e + 5 - 2 ^ 32) in *. pose proof (backlen_len n). zlen_pos.
  rewrite uN_small by lia. rewrite Z.gtb_ltb, (proj2 (Z.ltb_ge UINT32_MAX _)) by (unfold UINT32_MAX; lia).
  rewrite Z.gtb_ltb, (proj2 (Z.ltb_lt (zlen lp) _)) by lia.
  destruct (realloc_grow lp (zlen lp + n + zlen (lpEncodeBacklen n) - 0)) as (J & -> & HJ & _); [lia|].
  destruct (memmove _ _ _ _) as [m|] eqn:Em; [|done]. mstep. apply memmove_zlen in Em.
  rewrite zlen_app in Em. rewrite (proj2 (Z.ltb_ge _ (zlen lp))) by lia.
  destruct (wf_total lp ss Hwf) as [_ Hoff]. unfold off, LP_HDR_SIZE in Hoff. zlen_pos.
  rewrite encodeString_oob by lia. done.
Qed.

(** ** Concrete instances of the contract *)

Module Example_listpack.

Definition some_alloc : Alloc := fun i => 90 + i.
Definition hello : bytes := [104; 101; 108; 108; 111].
Definition minus12 : bytes := [45; 49; 50].
Definition sample_ss : list bytes := [hello; minus12; []].
Definition sample : bytes :=
  [19; 0; 0; 0; 3; 0; 133; 104; 101; 108; 108; 111; 6; 223; 244; 2; 128; 1; 255].

Lemma elem_ok_small (s : bytes) :
  forallb (fun b => (0 <=? b) && (b <? 256)) s && (zlen s <? 1000) = true -> elem_ok s.
Proof.
  intros [Hf Hl]%andb_prop. split; [|boolsimp; lia]. apply Forall_forall. intros x Hx.
  rewrite forallb_forall in Hf. specialize (Hf x ltac:(by apply list_elem_of_In)).
  boolsimp. done.
Qed.

Lemma sample_elems_ok : Forall elem_ok sample_ss.
Proof. do 3 (apply Forall_cons; split; [apply elem_ok_small; vm_compute; done|]). done. Qed.

Lemma sample_wf : wf sample sample_ss.
Proof.
  constructor; [apply sample_elems_ok|by vm_compute|]. exists 3. split; [left; by vm_compute|].
  vm_compute. reflexivity.
Qed.

Lemma lpInsert_correct_witness :
  exists lp', wf lp' [hello; minus12; hello; []] /\
    @lpInsert some_alloc sample (Some hello) 13 LP_AFTER = Some (Some (lp', Some 16)).
Proof.
  destruct (@lpInsert_correct some_alloc sample sample_ss 1 minus12 hello LP_AFTER
              sample_wf eq_refl (elem_ok_small hello eq_refl)) as (lp' & Hok & HE).
  exists lp'. split; [apply Hok; by vm_compute|]. apply HE.
Defined.

Lemma lpDelete_correct_witness :
  exists lp', wf lp' [hello; []] /\ @lpDelete some_alloc sample 13 = Some (Some (lp', Some 13)).
Proof.
  apply (@lpDelete_correct some_alloc sample sample_ss 1 sample_wf). simpl. lia.
Defined.

Lemma lpAppend_correct_witness :
  exists lp', wf lp' [hello; minus12; []; hello] /\
    @lpAppend some_alloc sample hello = Some (Some (lp', Some 18)).
Proof.
  destruct (@lpAppend_correct some_alloc sample sample_ss hello sample_wf
              (elem_ok_small hello eq_refl)) as (lp' & Hok & HE).
  exists lp'. split; [apply Hok; by vm_compute|]. apply HE.
Defined.

Lemma listpack_build_witness :
  exists lp, (let! lp0 := @lpNew some_alloc in @append_all some_alloc lp0 sample_ss) = Some lp /\
    wf lp sample_ss.
Proof. apply (@listpack_build some_alloc sample_ss sample_elems_ok). by vm_compute. Defined.

Lemma lpGet_correct_witness :
  decimal minus12 (-12) /\ lpGet sample 13 = Some (LPInt (-12)).
Proof. apply (lpGet_correct sample sample_ss 1 minus12 sample_wf eq_refl). Defined.

Lemma listpack_navigation_witness :
  lpFirst sample = Some (Some 6) /\ lpLast sample = Some (Some 16) /\
  lpNext sample 13 = Some (Some 16) /\ lpPrev sample 13 = Some (Some 6).
Proof. apply (listpack_navigation sample sample_ss 1 sample_wf). simpl. lia. Defined.

Lemma lpLength_correct_witness : exists lp', lpLength sample = Some (3, lp') /\ wf lp' sample_ss.
Proof. apply (lpLength_correct sample sample_ss sample_wf). Defined.

Lemma lpSeek_correct_witness : lpSeek sample (-2) = Some (Some 13).
Proof. apply (lpSeek_correct sample sample_ss (-2) sample_wf). Defined.

Lemma backlen_roundtrip_witness :
  1 <= zlen (lpEncodeBacklen 300) <= 5 /\
  lpDecodeBacklen ([7] ++ lpEncodeBacklen 300 ++ [9]) (1 + zlen (lpEncodeBacklen 300) - 1) = Some 300.
Proof. apply (backlen_roundtrip [7] 300 [9]). lia. Defined.

(** A string of 2^32-1 letters. *)
Definition huge : bytes := 97 :: replicate (Z.to_nat (2 ^ 32 - 2)) 97.

Lemma letter_not_decimal s : string2ll (97 :: s) = None.
Proof.
  destruct (string2ll (97 :: s)) as [v|] eqn:E; [|done]. apply string2ll_iff in E as [Hd _].
  destruct Hd as [(_ & HF & _) | (t & [=] & _)]. apply Forall_cons in HF as [HF _].
  unfold digit in HF. lia.
Qed.

Lemma zlen_huge : zlen huge = 2 ^ 32 - 1.
Proof. unfold huge. rewrite zlen_cons, zlen_replicate, Z2Nat.id by lia. lia. Qed.

Lemma lpAppend_overflow_witness : @lpAppend some_alloc sample huge = None.
Proof.
  apply (@lpAppend_overflow some_alloc sample sample_ss huge sample_wf).
  - apply letter_not_decimal.
  - rewrite zlen_huge. lia.
  - by vm_compute.
Defined.
End Example_listpack.
