(* ===== verification/Ziplist.v ===== *)
(** * Ziplists (ziplist.c)

    A ziplist is one heap block: a ten byte header (total bytes, offset of the last entry,
    number of entries), the entries, and an end byte 0xFF.  An entry starts with the length of
    the previous entry, in one byte or in five, followed by its encoding and its data.  The
    block is a byte list, a [char*] into it an offset; [None] is an access outside the block, a
    failed assertion or a panic. *)

From Stdlib Require Import ZArith Lia.
From stdpp Require Import base numbers option list.
From S2P Require Import Prelude Memory Endian Util.

Local Open Scope Z_scope.
Local Open Scope redis_scope.

Definition ZIP_END : Z := 255.
Definition ZIP_BIG_PREVLEN : Z := 254.
Definition ZIP_STR_MASK : Z := 192.
Definition ZIP_STR_06B : Z := Z.shiftl 0 6.
Definition ZIP_STR_14B : Z := Z.shiftl 1 6.
Definition ZIP_STR_32B : Z := Z.shiftl 2 6.
Definition ZIP_INT_16B : Z := Z.lor 192 (Z.shiftl 0 4).
Definition ZIP_INT_32B : Z := Z.lor 192 (Z.shiftl 1 4).
Definition ZIP_INT_64B : Z := Z.lor 192 (Z.shiftl 2 4).
Definition ZIP_INT_24B : Z := Z.lor 192 (Z.shiftl 3 4).
Definition ZIP_INT_8B : Z := 254.
Definition ZIP_INT_IMM_MASK : Z := 15.
Definition ZIP_INT_IMM_MIN : Z := 241.
Definition ZIP_INT_IMM_MAX : Z := 253.
Definition INT24_MAX : Z := 8388607.
Definition INT24_MIN : Z := - INT24_MAX - 1.
Definition ZIPLIST_HEADER_SIZE : Z := 10.
Definition ZIPLIST_END_SIZE : Z := 1.

Definition ZIP_IS_STR (enc : Z) : bool := Z.land enc ZIP_STR_MASK <? ZIP_STR_MASK.

Record zlentry := Zlentry {
  prevrawlensize : Z; prevrawlen : Z; lensize : Z; len : Z; headersize : Z; encoding : Z; ep : Z }.

(** What [ziplistGet] reports: a string inside the block, or an integer. *)
Inductive zipvalue := ZipStr (sstr slen : Z) | ZipInt (sval : Z).

Section Ziplist.
Context `{Host} `{Alloc}.

(** ** Header fields, as the host holds them *)

Definition ZIPLIST_BYTES (zl : bytes) : option Z := let! b := load zl 0 4 in Some (host_dec b).
Definition ZIPLIST_TAIL_OFFSET (zl : bytes) : option Z := let! b := load zl 4 4 in Some (host_dec b).
Definition ZIPLIST_LENGTH (zl : bytes) : option Z := let! b := load zl 8 2 in Some (host_dec b).
Definition set_ZIPLIST_BYTES (zl : bytes) (v : Z) : option bytes := store zl 0 (host_enc 4 v).
Definition set_ZIPLIST_TAIL_OFFSET (zl : bytes) (v : Z) : option bytes := store zl 4 (host_enc 4 v).
Definition set_ZIPLIST_LENGTH (zl : bytes) (v : Z) : option bytes := store zl 8 (host_enc 2 v).

Definition ZIPLIST_ENTRY_HEAD : Z := ZIPLIST_HEADER_SIZE.
Definition ZIPLIST_ENTRY_TAIL (zl : bytes) : option Z :=
  let! t := ZIPLIST_TAIL_OFFSET zl in intrev32ifbe t.
Definition ZIPLIST_ENTRY_END (zl : bytes) : option Z :=
  let! b := ZIPLIST_BYTES zl in
  let! b := intrev32ifbe b in
  Some (b - 1).

Definition ZIPLIST_INCR_LENGTH (zl : bytes) (incr : Z) : option bytes :=
  let! l := ZIPLIST_LENGTH zl in
  if l <? UINT16_MAX then
    let! n := intrev16ifbe l in
    let! n := intrev16ifbe (u16 (n + incr)) in
    set_ZIPLIST_LENGTH zl n
  else Some zl.

(** ** Entries *)

Definition ZIP_ENTRY_ENCODING (zl : bytes) (p : Z) : option Z :=
  let! e := load1 zl p in
  Some (if e <? ZIP_STR_MASK then Z.land e ZIP_STR_MASK else e).

Definition zipIntSize (encoding : Z) : option Z :=
  if encoding =? ZIP_INT_8B then Some 1
  else if encoding =? ZIP_INT_16B then Some 2
  else if encoding =? ZIP_INT_24B then Some 3
  else if encoding =? ZIP_INT_32B then Some 4
  else if encoding =? ZIP_INT_64B then Some 8
  else if (encoding >=? ZIP_INT_IMM_MIN) && (encoding <=? ZIP_INT_IMM_MAX) then Some 0
  else None.

(** [zipStoreEntryEncoding]: the bytes of [buf], [len] of which are copied to [p]; their number
    is the result, also when [p] is NULL. *)
Definition entry_encoding (encoding rawlen : Z) : bytes :=
  if ZIP_IS_STR encoding then
    if rawlen <=? 63 then [u8 (Z.lor ZIP_STR_06B rawlen)]
    else if rawlen <=? 16383 then
      [u8 (Z.lor ZIP_STR_14B (Z.land (Z.shiftr rawlen 8) 63)); u8 (Z.land rawlen 255)]
    else
      [u8 ZIP_STR_32B; u8 (Z.land (Z.shiftr rawlen 24) 255); u8 (Z.land (Z.shiftr rawlen 16) 255);
       u8 (Z.land (Z.shiftr rawlen 8) 255); u8 (Z.land rawlen 255)]
  else [u8 encoding].
Definition zipStoreEntryEncoding (zl : bytes) (p encoding rawlen : Z) : option (bytes * Z) :=
  let buf := entry_encoding encoding rawlen in
  let! zl := store zl p buf in
  Some (zl, zlen buf).

(** The encoding, [lensize] and [len]. *)
Definition ZIP_DECODE_LENGTH (zl : bytes) (p : Z) : option (Z * Z * Z) :=
  let! encoding := ZIP_ENTRY_ENCODING zl p in
  if encoding <? ZIP_STR_MASK then
    if encoding =? ZIP_STR_06B then
      let! b0 := load1 zl p in
      Some (encoding, 1, Z.land b0 63)
    else if encoding =? ZIP_STR_14B then
      let! b0 := load1 zl p in
      let! b1 := load1 zl (p + 1) in
      Some (encoding, 2, Z.lor (Z.shiftl (Z.land b0 63) 8) b1)
    else if encoding =? ZIP_STR_32B then
      let! b1 := load1 zl (p + 1) in
      let! b2 := load1 zl (p + 2) in
      let! b3 := load1 zl (p + 3) in
      let! b4 := load1 zl (p + 4) in
      Some (encoding, 5, u32 (Z.lor (Z.lor (Z.lor (Z.shiftl b1 24) (Z.shiftl b2 16)) (Z.shiftl b3 8)) b4))
    else None
  else
    let! n := zipIntSize encoding in
    Some (encoding, 1, n).

Definition zipStorePrevEntryLengthLarge (zl : bytes) (p len : Z) : option bytes :=
  let! zl := store1 zl p ZIP_BIG_PREVLEN in
  let! zl := store zl (p + 1) (host_enc 4 len) in
  memrev32ifbe zl (p + 1).

(** [zipStorePrevEntryLength(NULL,len)], and with a place to write to *)
Definition prev_entry_length_size (len : Z) : Z := if len <? ZIP_BIG_PREVLEN then 1 else 5.
Definition zipStorePrevEntryLength (zl : bytes) (p len : Z) : option (bytes * Z) :=
  if len <? ZIP_BIG_PREVLEN then
    let! zl := store1 zl p len in Some (zl, 1)
  else
    let! zl := zipStorePrevEntryLengthLarge zl p len in Some (zl, 5).

Definition ZIP_DECODE_PREVLENSIZE (zl : bytes) (p : Z) : option Z :=
  let! b := load1 zl p in
  Some (if b <? ZIP_BIG_PREVLEN then 1 else 5).

(** [prevlensize] and [prevlen] *)
Definition ZIP_DECODE_PREVLEN (zl : bytes) (p : Z) : option (Z * Z) :=
  let! prevlensize := ZIP_DECODE_PREVLENSIZE zl p in
  if prevlensize =? 1 then
    let! b := load1 zl p in Some (1, b)
  else
    let! b := load zl (p + 1) 4 in
    let! b := memrev32ifbe b 0 in
    Some (5, host_dec b).

Definition zipPrevLenByteDiff (zl : bytes) (p len : Z) : option Z :=
  let! prevlensize := ZIP_DECODE_PREVLENSIZE zl p in
  Some (i32 (prev_entry_length_size len - prevlensize)).

Definition zipRawEntryLength (zl : bytes) (p : Z) : option Z :=
  let! prevlensize := ZIP_DECODE_PREVLENSIZE zl p in
  let! (_, lensize, len) := ZIP_DECODE_LENGTH zl (p + prevlensize) in
  Some (u32 (prevlensize + lensize + len)).

(** The value and its encoding, [None] for the result 0. *)
Definition zipTryEncoding (entry : bytes) : option (Z * Z) :=
  if (zlen entry >=? 32) || (zlen entry =? 0) then None else
  match string2ll entry with
  | None => None
  | Some value =>
      Some (value,
        if (value >=? 0) && (value <=? 12) then u8 (ZIP_INT_IMM_MIN + value)
        else if (value >=? -128) && (value <=? 127) then ZIP_INT_8B
        else if (value >=? INT16_MIN) && (value <=? INT16_MAX) then ZIP_INT_16B
        else if (value >=? INT24_MIN) && (value <=? INT24_MAX) then ZIP_INT_24B
        else if (value >=? INT32_MIN) && (value <=? INT32_MAX) then ZIP_INT_32B
        else ZIP_INT_64B)
  end.

Definition zipSaveInteger (zl : bytes) (p value encoding : Z) : option bytes :=
  if encoding =? ZIP_INT_8B then store1 zl p value
  else if encoding =? ZIP_INT_16B then
    let! zl := store zl p (host_enc 2 value) in memrev16ifbe zl p
  else if encoding =? ZIP_INT_24B then
    let! i32 := memrev32ifbe (host_enc 4 (Z.shiftl value 8)) 0 in
    let! b := load i32 1 3 in
    store zl p b
  else if encoding =? ZIP_INT_32B then
    let! zl := store zl p (host_enc 4 value) in memrev32ifbe zl p
  else if encoding =? ZIP_INT_64B then
    let! zl := store zl p (host_enc 8 value) in memrev64ifbe zl p
  else if (encoding >=? ZIP_INT_IMM_MIN) && (encoding <=? ZIP_INT_IMM_MAX) then Some zl
  else None.

Definition zipLoadInteger (zl : bytes) (p encoding : Z) : option Z :=
  if encoding =? ZIP_INT_8B then let! b := load1 zl p in Some (sN 8 b)
  else if encoding =? ZIP_INT_16B then
    let! b := load zl p 2 in
    let! b := memrev16ifbe b 0 in Some (i16 (host_dec b))
  else if encoding =? ZIP_INT_32B then
    let! b := load zl p 4 in
    let! b := memrev32ifbe b 0 in Some (i32 (host_dec b))
  else if encoding =? ZIP_INT_24B then
    let! b := load zl p 3 in
    let! b := store (host_enc 4 0) 1 b in
    let! b := memrev32ifbe b 0 in Some (Z.shiftr (i32 (host_dec b)) 8)
  else if encoding =? ZIP_INT_64B then
    let! b := load zl p 8 in
    let! b := memrev64ifbe b 0 in Some (i64 (host_dec b))
  else if (encoding >=? ZIP_INT_IMM_MIN) && (encoding <=? ZIP_INT_IMM_MAX) then
    Some (Z.land encoding ZIP_INT_IMM_MASK - 1)
  else None.

Definition zipEntry (zl : bytes) (p : Z) : option zlentry :=
  let! (prevrawlensize, prevrawlen) := ZIP_DECODE_PREVLEN zl p in
  let! (encoding, lensize, len) := ZIP_DECODE_LENGTH zl (p + prevrawlensize) in
  Some (Zlentry prevrawlensize prevrawlen lensize len (u32 (prevrawlensize + lensize)) encoding p).

(** ** Blocks *)

Definition ziplistNew : option bytes :=
  let bytes := ZIPLIST_HEADER_SIZE + ZIPLIST_END_SIZE in
  let zl := realloc [] bytes in
  let! n := intrev32ifbe bytes in
  let! zl := set_ZIPLIST_BYTES zl n in
  let! t := intrev32ifbe ZIPLIST_HEADER_SIZE in
  let! zl := set_ZIPLIST_TAIL_OFFSET zl t in
  let! zl := set_ZIPLIST_LENGTH zl 0 in
  store1 zl (bytes - 1) ZIP_END.

(** The argument is an [unsigned int]. *)
Definition ziplistResize (zl : bytes) (len : Z) : option bytes :=
  let len := u32 len in
  let zl := realloc zl len in
  let! n := intrev32ifbe len in
  let! zl := set_ZIPLIST_BYTES zl n in
  store1 zl (u32 (len - 1)) ZIP_END.

(** [ZIPLIST_TAIL_OFFSET(zl) = intrev32ifbe(intrev32ifbe(ZIPLIST_TAIL_OFFSET(zl))+d);] *)
Definition move_tail_offset (zl : bytes) (d : Z) : option bytes :=
  let! t := ZIPLIST_TAIL_OFFSET zl in
  let! t := intrev32ifbe t in
  let! t := intrev32ifbe (u32 (t + d)) in
  set_ZIPLIST_TAIL_OFFSET zl t.

(** A turn of the loop of [__ziplistCascadeUpdate]: the block, and the new [p] and [curlen]
    unless the loop is left. *)
Definition cascade_turn (zl : bytes) (p curlen : Z) : option (bytes * option (Z * Z)) :=
  let! cur := zipEntry zl p in
  let rawlen := u32 (headersize cur + len cur) in
  let rawlensize := prev_entry_length_size rawlen in
  let! e := load1 zl (p + rawlen) in
  if e =? ZIP_END then Some (zl, None) else
  let! next := zipEntry zl (p + rawlen) in
  if prevrawlen next =? rawlen then Some (zl, None) else
  if prevrawlensize next <? rawlensize then
    let extra := u64 (rawlensize - prevrawlensize next) in
    let! zl := ziplistResize zl (u64 (curlen + extra)) in
    let np := p + rawlen in
    let! t := ZIPLIST_ENTRY_TAIL zl in
    let! zl := (if negb (t =? np) then move_tail_offset zl extra else Some zl) in
    let! zl := memmove zl (np + rawlensize) (np + prevrawlensize next)
                 (u64 (curlen - np - prevrawlensize next - 1)) in
    let! (zl, _) := zipStorePrevEntryLength zl np rawlen in
    Some (zl, Some (np, u64 (curlen + extra)))
  else
    let! zl := (if prevrawlensize next >? rawlensize then
                  zipStorePrevEntryLengthLarge zl (p + rawlen) rawlen
                else let! (zl, _) := zipStorePrevEntryLength zl (p + rawlen) rawlen in Some zl) in
    Some (zl, None).

Fixpoint cascade_loop (fuel : nat) (zl : bytes) (p curlen : Z) : option bytes :=
  match fuel with
  | O => None
  | S fuel =>
      let! b := load1 zl p in
      if b =? ZIP_END then Some zl else
      let! (zl, again) := cascade_turn zl p curlen in
      match again with
      | None => Some zl
      | Some (p, curlen) => cascade_loop fuel zl p curlen
      end
  end.

Definition __ziplistCascadeUpdate (zl : bytes) (p : Z) : option bytes :=
  let! curlen := ZIPLIST_BYTES zl in
  let! curlen := intrev32ifbe curlen in
  cascade_loop (S (length zl)) zl p curlen.

(** [for (i = 0; p[0] != ZIP_END && i < num; i++) { p += zipRawEntryLength(p); deleted++; }] *)
Fixpoint skip_entries (fuel : nat) (zl : bytes) (p i num : Z) : option (Z * Z) :=
  match fuel with
  | O => None
  | S fuel =>
      let! b := load1 zl p in
      if negb (b =? ZIP_END) && (i <? num) then
        let! n := zipRawEntryLength zl p in
        skip_entries fuel zl (p + n) (i + 1) num
      else Some (p, i)
  end.

Definition __ziplistDelete (zl : bytes) (p num : Z) : option bytes :=
  let! first := zipEntry zl p in
  let! (p, deleted) := skip_entries (S (length zl)) zl p 0 num in
  let totlen := u32 (p - ep first) in
  if totlen >? 0 then
    let! b := load1 zl p in
    let! (zl, nextdiff) :=
      (if negb (b =? ZIP_END) then
         let! nextdiff := zipPrevLenByteDiff zl p (prevrawlen first) in
         let p := p - nextdiff in
         let! (zl, _) := zipStorePrevEntryLength zl p (prevrawlen first) in
         let! zl := move_tail_offset zl (- totlen) in
         let! tail := zipEntry zl p in
         let! b := load1 zl (p + u32 (headersize tail + len tail)) in
         let! zl := (if negb (b =? ZIP_END) then move_tail_offset zl nextdiff else Some zl) in
         let! n := ZIPLIST_BYTES zl in
         let! n := intrev32ifbe n in
         let! zl := memmove zl (ep first) p (n - p - 1) in
         Some (zl, nextdiff)
       else
         let! t := intrev32ifbe (u32 (ep first - prevrawlen first)) in
         let! zl := set_ZIPLIST_TAIL_OFFSET zl t in
         Some (zl, 0)) in
    let offset := ep first in
    let! n := ZIPLIST_BYTES zl in
    let! n := intrev32ifbe n in
    let! zl := ziplistResize zl (n - totlen + nextdiff) in
    let! zl := ZIPLIST_INCR_LENGTH zl (- deleted) in
    if negb (nextdiff =? 0) then __ziplistCascadeUpdate zl offset else Some zl
  else Some zl.

(** [slen] is an [unsigned int]. *)
Definition __ziplistInsert (zl : bytes) (p : Z) (s : bytes) : option bytes :=
  let slen := zlen s in
  let! curlen := ZIPLIST_BYTES zl in
  let! curlen := intrev32ifbe curlen in
  let! b := load1 zl p in
  let! prevlen :=
    (if negb (b =? ZIP_END) then
       let! (_, prevlen) := ZIP_DECODE_PREVLEN zl p in Some prevlen
     else
       let! ptail := ZIPLIST_ENTRY_TAIL zl in
       let! t := load1 zl ptail in
       if negb (t =? ZIP_END) then zipRawEntryLength zl ptail else Some 0) in
  let enc := zipTryEncoding s in
  let '(value, encoding) := match enc with Some ve => ve | None => (123456789, 0) end in
  let! reqlen := match enc with Some _ => zipIntSize encoding | None => Some slen end in
  let reqlen := reqlen + prev_entry_length_size prevlen + zlen (entry_encoding encoding slen) in
  let! nextdiff := (if negb (b =? ZIP_END) then zipPrevLenByteDiff zl p (u32 reqlen) else Some 0) in
  let forcelarge := (nextdiff =? -4) && (reqlen <? 4) in
  let nextdiff := if forcelarge then 0 else nextdiff in
  let! zl := ziplistResize zl (curlen + reqlen + nextdiff) in
  let! b := load1 zl p in
  let! zl :=
    (if negb (b =? ZIP_END) then
       let! zl := memmove zl (p + reqlen) (p - nextdiff) (u64 (curlen - p - 1 + nextdiff)) in
       let! zl := (if forcelarge then zipStorePrevEntryLengthLarge zl (p + reqlen) (u32 reqlen)
                   else let! (zl, _) := zipStorePrevEntryLength zl (p + reqlen) (u32 reqlen) in Some zl) in
       let! zl := move_tail_offset zl reqlen in
       let! tail := zipEntry zl (p + reqlen) in
       let! b := load1 zl (p + (reqlen + headersize tail + len tail)) in
       if negb (b =? ZIP_END) then move_tail_offset zl nextdiff else Some zl
     else
       let! t := intrev32ifbe (u32 p) in
       set_ZIPLIST_TAIL_OFFSET zl t) in
  let! zl := (if negb (nextdiff =? 0) then __ziplistCascadeUpdate zl (p + reqlen) else Some zl) in
  let! (zl, n) := zipStorePrevEntryLength zl p prevlen in
  let p := p + n in
  let! (zl, n) := zipStoreEntryEncoding zl p encoding slen in
  let p := p + n in
  let! zl := (if ZIP_IS_STR encoding then store zl p s else zipSaveInteger zl p value encoding) in
  ZIPLIST_INCR_LENGTH zl 1.

(** ** Merging two blocks: the result, and whether it is in the place of the first *)

Definition ziplistMerge (first second : bytes) : option (bytes * bool) :=
  let! first_bytes := ZIPLIST_BYTES first in
  let! first_bytes := intrev32ifbe first_bytes in
  let! first_len := ZIPLIST_LENGTH first in
  let! first_len := intrev16ifbe first_len in
  let! second_bytes := ZIPLIST_BYTES second in
  let! second_bytes := intrev32ifbe second_bytes in
  let! second_len := ZIPLIST_LENGTH second in
  let! second_len := intrev16ifbe second_len in
  let append := first_len >=? second_len in
  let '(target, target_bytes, source, source_bytes) :=
    if append then (first, first_bytes, second, second_bytes)
    else (second, second_bytes, first, first_bytes) in
  let zlbytes := u64 (first_bytes + second_bytes - ZIPLIST_HEADER_SIZE - ZIPLIST_END_SIZE) in
  let zllength := first_len + second_len in
  let zllength := if zllength <? UINT16_MAX then zllength else UINT16_MAX in
  let! first_offset := ZIPLIST_ENTRY_TAIL first in
  let! second_offset := ZIPLIST_ENTRY_TAIL second in
  let target := realloc target zlbytes in
  let! target :=
    (if append then
       let! b := load source ZIPLIST_HEADER_SIZE (source_bytes - ZIPLIST_HEADER_SIZE) in
       store target (target_bytes - ZIPLIST_END_SIZE) b
     else
       let! target := memmove target (source_bytes - ZIPLIST_END_SIZE) ZIPLIST_HEADER_SIZE
                        (target_bytes - ZIPLIST_HEADER_SIZE) in
       let! b := load source 0 (source_bytes - ZIPLIST_END_SIZE) in
       store target 0 b) in
  let! n := intrev32ifbe (u32 zlbytes) in
  let! target := set_ZIPLIST_BYTES target n in
  let! n := intrev16ifbe (u16 zllength) in
  let! target := set_ZIPLIST_LENGTH target n in
  let! t := intrev32ifbe (u32 ((first_bytes - ZIPLIST_END_SIZE) + (second_offset - ZIPLIST_HEADER_SIZE))) in
  let! target := set_ZIPLIST_TAIL_OFFSET target t in
  let! target := __ziplistCascadeUpdate target first_offset in
  Some (target, append).

(** ** Operations *)

Inductive where_ := ZIPLIST_HEAD | ZIPLIST_TAIL.

Definition ziplistPush (zl s : bytes) (where_ : where_) : option bytes :=
  let! p := match where_ with ZIPLIST_HEAD => Some ZIPLIST_ENTRY_HEAD | ZIPLIST_TAIL => ZIPLIST_ENTRY_END zl end in
  __ziplistInsert zl p s.

(** [while (prevlen > 0 && index--)] and [while (p[0] != ZIP_END && index--)]: [p] and [index]
    when the loop ends *)
Fixpoint index_backward (fuel : nat) (zl : bytes) (p prevlen index : Z) : option (Z * Z) :=
  match fuel with
  | O => None
  | S fuel =>
      if prevlen >? 0 then
        if index =? 0 then Some (p, index - 1) else
        let p := p - prevlen in
        let! (_, prevlen) := ZIP_DECODE_PREVLEN zl p in
        index_backward fuel zl p prevlen (index - 1)
      else Some (p, index)
  end.
Fixpoint index_forward (fuel : nat) (zl : bytes) (p index : Z) : option (Z * Z) :=
  match fuel with
  | O => None
  | S fuel =>
      let! b := load1 zl p in
      if negb (b =? ZIP_END) then
        if index =? 0 then Some (p, index - 1) else
        let! n := zipRawEntryLength zl p in
        index_forward fuel zl (p + n) (index - 1)
      else Some (p, index)
  end.

(** The offset, [None] for NULL.  The negation of INT_MIN overflows. *)
Definition ziplistIndex (zl : bytes) (index : Z) : option (option Z) :=
  if index =? INT32_MIN then None else
  let! (p, index) :=
    (if index <? 0 then
       let index := - index - 1 in
       let! p := ZIPLIST_ENTRY_TAIL zl in
       let! b := load1 zl p in
       if negb (b =? ZIP_END) then
         let! (_, prevlen) := ZIP_DECODE_PREVLEN zl p in
         index_backward (S (length zl)) zl p prevlen index
       else Some (p, index)
     else index_forward (S (length zl)) zl ZIPLIST_ENTRY_HEAD index) in
  let! b := load1 zl p in
  Some (if (b =? ZIP_END) || (index >? 0) then None else Some p).

Definition ziplistNext (zl : bytes) (p : Z) : option (option Z) :=
  let! b := load1 zl p in
  if b =? ZIP_END then Some None else
  let! n := zipRawEntryLength zl p in
  let p := p + n in
  let! b := load1 zl p in
  Some (if b =? ZIP_END then None else Some p).

Definition ziplistPrev (zl : bytes) (p : Z) : option (option Z) :=
  let! b := load1 zl p in
  if b =? ZIP_END then
    let! p := ZIPLIST_ENTRY_TAIL zl in
    let! b := load1 zl p in
    Some (if b =? ZIP_END then None else Some p)
  else if p =? ZIPLIST_ENTRY_HEAD then Some None else
  let! (_, prevlen) := ZIP_DECODE_PREVLEN zl p in
  if prevlen >? 0 then Some (Some (p - prevlen)) else None.

(** [None] inside for the result 0 *)
Definition ziplistGet (zl : bytes) (p : option Z) : option (option zipvalue) :=
  match p with
  | None => Some None
  | Some p =>
      let! b := load1 zl p in
      if b =? ZIP_END then Some None else
      let! entry := zipEntry zl p in
      if ZIP_IS_STR (encoding entry) then Some (Some (ZipStr (p + headersize entry) (len entry)))
      else
        let! v := zipLoadInteger zl (p + headersize entry) (encoding entry) in
        Some (Some (ZipInt v))
  end.

Definition ziplistInsert := __ziplistInsert.

Definition ziplistDelete (zl : bytes) (p : Z) : option (bytes * Z) :=
  let! zl := __ziplistDelete zl p 1 in
  Some (zl, p).

Definition ziplistDeleteRange (zl : bytes) (index num : Z) : option bytes :=
  let! p := ziplistIndex zl index in
  match p with
  | None => Some zl
  | Some p => __ziplistDelete zl p num
  end.

Definition ziplistCompare (zl : bytes) (p : Z) (sstr : bytes) : option bool :=
  let! b := load1 zl p in
  if b =? ZIP_END then Some false else
  let! entry := zipEntry zl p in
  if ZIP_IS_STR (encoding entry) then
    if len entry =? zlen sstr then
      let! b := load zl (p + headersize entry) (zlen sstr) in
      Some (bool_decide (b = sstr))
    else Some false
  else
    match zipTryEncoding sstr with
    | Some (sval, _) =>
        let! zval := zipLoadInteger zl (p + headersize entry) (encoding entry) in
        Some (zval =? sval)
    | None => Some false
    end.

(** The search of [ziplistFind]; [venc] is the pair of [vll] and [vencoding]. *)
Fixpoint find_loop (fuel : nat) (zl : bytes) (p : Z) (vstr : bytes) (skip skipcnt : Z) (venc : Z * Z)
    : option (option Z) :=
  match fuel with
  | O => None
  | S fuel =>
      let! b := load1 zl p in
      if b =? ZIP_END then Some None else
      let! prevlensize := ZIP_DECODE_PREVLENSIZE zl p in
      let! (encoding, lensize, len) := ZIP_DECODE_LENGTH zl (p + prevlensize) in
      let q := p + prevlensize + lensize in
      if skipcnt =? 0 then
        if ZIP_IS_STR encoding then
          let! eq := (if len =? zlen vstr then
                        let! b := load zl q (zlen vstr) in Some (bool_decide (b = vstr))
                      else Some false) in
          if (eq : bool) then Some (Some p) else find_loop fuel zl (q + len) vstr skip skip venc
        else
          let venc := if snd venc =? 0 then
                        match zipTryEncoding vstr with Some (v, e) => (v, e) | None => (fst venc, 255) end
                      else venc in
          if snd venc =? 0 then None else
          let! eq := (if negb (snd venc =? 255) then
                        let! ll := zipLoadInteger zl q encoding in Some (ll =? fst venc)
                      else Some false) in
          if (eq : bool) then Some (Some p) else find_loop fuel zl (q + len) vstr skip skip venc
      else find_loop fuel zl (q + len) vstr skip (skipcnt - 1) venc
  end.

(** [skipcnt] is an [int], assigned from an [unsigned int]. *)
Definition ziplistFind (zl : bytes) (p : Z) (vstr : bytes) (skip : Z) : option (option Z) :=
  find_loop (S (length zl)) zl p vstr (i32 skip) 0 (0, 0).

(** The number of entries counted from [p] on *)
Fixpoint count_entries (fuel : nat) (zl : bytes) (p n : Z) : option Z :=
  match fuel with
  | O => None
  | S fuel =>
      let! b := load1 zl p in
      if negb (b =? ZIP_END) then
        let! k := zipRawEntryLength zl p in
        count_entries fuel zl (p + k) (u32 (n + 1))
      else Some n
  end.

(** The count, and the block with the count stored again when it is small enough *)
Definition ziplistLen (zl : bytes) : option (Z * bytes) :=
  let! l := ZIPLIST_LENGTH zl in
  let! l := intrev16ifbe l in
  if l <? UINT16_MAX then Some (l, zl) else
  let! n := count_entries (S (length zl)) zl ZIPLIST_HEADER_SIZE 0 in
  if n <? UINT16_MAX then
    let! v := intrev16ifbe (u16 n) in
    let! zl := set_ZIPLIST_LENGTH zl v in
    Some (n, zl)
  else Some (n, zl).

Definition ziplistBlobLen (zl : bytes) : option Z :=
  let! b := ZIPLIST_BYTES zl in intrev32ifbe b.
End Ziplist.

(** "2", "hello", "-300" at the head, then "hello" removed, on either host *)
Example ziplist_test (be : bool) : let H : Host := be in let A : Alloc := fun _ => 77 in
  (let! zl := ziplistNew in
   let! zl := ziplistPush zl [50] ZIPLIST_TAIL in
   let! zl := ziplistPush zl [104; 101; 108; 108; 111] ZIPLIST_TAIL in
   let! zl := ziplistPush zl [45; 51; 48; 48] ZIPLIST_HEAD in
   let! p := ziplistFind zl 10 [104; 101; 108; 108; 111] 0 in
   let! zl' := ziplistDeleteRange zl (-1) 1 in
   Some (zl, p, zl')) =
  Some ([24; 0; 0; 0; 16; 0; 0; 0; 3; 0;  0; 192; 212; 254;  4; 243;  2; 5; 104; 101; 108; 108; 111; 255], Some 16,
        [17; 0; 0; 0; 14; 0; 0; 0; 2; 0;  0; 192; 212; 254;  4; 243; 255]).
Proof. destruct be; vm_compute; reflexivity. Qed.
