(* ===== verification/ZiplistFacts.v ===== *)
(** * Ziplists: the codecs of an entry, and the header

    What the code writes for the length of the previous entry ([prev_field]) and for a string
    ([body]), and that the reading functions invert it wherever the entry lies in a block, on
    hosts of either byte order. *)

From Stdlib Require Import ZArith Lia.
From stdpp Require Import base numbers option list.
From S2P Require Import Prelude Memory Bits Endian Util UtilFacts Ziplist.

Local Open Scope Z_scope.
Local Open Scope redis_scope.

(** ** The encoding of a string *)

Definition int_enc (v : Z) : Z :=
  if (0 <=? v) && (v <=? 12) then 241 + v
  else if (-128 <=? v) && (v <=? 127) then 254
  else if (-32768 <=? v) && (v <=? 32767) then 192
  else if (-8388608 <=? v) && (v <=? 8388607) then 240
  else if (-2147483648 <=? v) && (v <=? 2147483647) then 208
  else 224.
Definition int_data (v : Z) : bytes :=
  if (0 <=? v) && (v <=? 12) then []
  else if (-128 <=? v) && (v <=? 127) then le_enc 1 v
  else if (-32768 <=? v) && (v <=? 32767) then le_enc 2 v
  else if (-8388608 <=? v) && (v <=? 8388607) then le_enc 3 v
  else if (-2147483648 <=? v) && (v <=? 2147483647) then le_enc 4 v
  else le_enc 8 v.
Definition str_hdr (n : Z) : bytes :=
  if n <=? 63 then [n]
  else if n <=? 16383 then [64 + n / 256; n mod 256]
  else 128 :: rev (le_enc 4 n).
Definition str_enc (n : Z) : Z := if n <=? 63 then 0 else if n <=? 16383 then 64 else 128.

Definition enc_of (s : bytes) : Z :=
  match string2ll s with Some v => int_enc v | None => str_enc (zlen s) end.
Definition hdr_of (s : bytes) : bytes :=
  match string2ll s with Some v => [int_enc v] | None => str_hdr (zlen s) end.
Definition data_of (s : bytes) : bytes :=
  match string2ll s with Some v => int_data v | None => s end.
Definition body (s : bytes) : bytes := hdr_of s ++ data_of s.

Lemma int_range s v : string2ll s = Some v -> is_s 64 v.
Proof. by intros [_ ?]%string2ll_iff. Qed.

Lemma string2ll_short s v : string2ll s = Some v -> 1 <= zlen s <= 21.
Proof.
  intros [Hd Hv]%string2ll_iff. rewrite (decimal_printed_length s v) by done. by apply printed_length_bound.
Qed.

Lemma zlen_int_data v : 0 <= zlen (int_data v) <= 8.
Proof. unfold int_data. repeat casif; zlia. Qed.
Lemma zlen_str_hdr n : 1 <= zlen (str_hdr n) <= 5.
Proof. unfold str_hdr. repeat casif; zlia. Qed.
Lemma zlen_hdr_of s : 1 <= zlen (hdr_of s) <= 5.
Proof. unfold hdr_of. destruct (string2ll s); [zlia|apply zlen_str_hdr]. Qed.

(** The integer and the string encodings differ in the two top bits. *)
Lemma int_enc_range v : 192 <= int_enc v <= 254.
Proof. unfold int_enc. repeat casif; lia. Qed.
Lemma tag_int : forall b, 192 <= b < 256 -> ZIP_IS_STR b = false.
Proof. byte_cases 192 256 (fun b => negb (ZIP_IS_STR b)). by apply negb_true_iff. Qed.
Lemma int_enc_not_str v : ZIP_IS_STR (int_enc v) = false.
Proof. pose proof (int_enc_range v). apply tag_int. lia. Qed.
Lemma str_enc_str n : ZIP_IS_STR (str_enc n) = true.
Proof. unfold str_enc. by repeat casif. Qed.

Lemma zipTryEncoding_eq s :
  zipTryEncoding s = match string2ll s with Some v => Some (v, int_enc v) | None => None end.
Proof.
  unfold zipTryEncoding. destruct (string2ll s) as [v|] eqn:E; [|by casif].
  pose proof (string2ll_short s v E). rewrite Z.geb_leb, (proj2 (Z.leb_gt _ _)) by lia.
  rewrite (proj2 (Z.eqb_neq _ _)) by lia. cbn [orb]. do 2 f_equal.
  unfold int_enc, INT24_MIN, INT24_MAX, INT16_MIN, INT16_MAX, INT32_MIN, INT32_MAX. rewrite !Z.geb_leb.
  repeat match goal with |- context [if ?b then _ else _] => destruct b eqn:?; boolsimp end; try done; try lia.
  by rewrite uN_small by (unfold ZIP_INT_IMM_MIN; lia).
Qed.

Lemma zipIntSize_eq v : zipIntSize (int_enc v) = Some (zlen (int_data v)).
Proof.
  unfold int_enc, int_data. repeat casif; try done.
  unfold zipIntSize. change ZIP_INT_8B with 254. change ZIP_INT_16B with 192. change ZIP_INT_24B with 240.
  change ZIP_INT_32B with 208. change ZIP_INT_64B with 224. change ZIP_INT_IMM_MIN with 241. change ZIP_INT_IMM_MAX with 253.
  rewrite !(proj2 (Z.eqb_neq _ _)) by lia.
  rewrite Z.geb_leb, (proj2 (Z.leb_le 241 _)), (proj2 (Z.leb_le _ 253)) by lia. done.
Qed.

Lemma entry_encoding_int v n : entry_encoding (int_enc v) n = [int_enc v].
Proof.
  unfold entry_encoding. rewrite int_enc_not_str. pose proof (int_enc_range v). by rewrite uN_small by lia.
Qed.

Lemma str_tag14 : forall b, 0 <= b < 64 -> u8 (Z.lor 64 b) = 64 + b.
Proof. byte_cases 0 64 (fun b => u8 (Z.lor 64 b) =? 64 + b). by boolsimp. Qed.

Lemma entry_encoding_str n : 0 <= n < 2 ^ 32 -> entry_encoding 0 n = str_hdr n.
Proof.
  intros Hn. unfold entry_encoding, str_hdr. change (ZIP_IS_STR 0) with true. cbv iota.
  change ZIP_STR_06B with 0. change ZIP_STR_14B with 64. change ZIP_STR_32B with 128. casif.
  - by rewrite Z.lor_0_l, uN_small by lia.
  - casif.
    + rewrite shiftr_div by lia. change (2 ^ 8) with 256. change 63 with (Z.ones 6). rewrite Z.land_ones by lia.
      assert (0 <= n / 256 < 64) by (split; [apply Z.div_pos; lia|apply Z.div_lt_upper_bound; lia]).
      rewrite Z.mod_small, str_tag14, u8_land0 by (change (2 ^ 6) with 64; lia). done.
    + rewrite !le_enc_S, le_enc_0. simpl rev. rewrite !u8_land, u8_land0 by lia.
      rewrite !Z.div_div by lia. done.
Qed.

(** ** Reading the encoding *)

Lemma encoding_int_byte b : 192 <= b < 256 -> (if b <? ZIP_STR_MASK then Z.land b ZIP_STR_MASK else b) = b.
Proof. intros. unfold ZIP_STR_MASK. by rewrite (proj2 (Z.ltb_ge _ _)) by lia. Qed.
Lemma encoding_str_byte : forall b, 0 <= b < 192 ->
  (if b <? ZIP_STR_MASK then Z.land b ZIP_STR_MASK else b) = (if b <? 64 then 0 else if b <? 128 then 64 else 128).
Proof.
  byte_cases 0 192 (fun b => (if b <? ZIP_STR_MASK then Z.land b ZIP_STR_MASK else b) =?
    (if b <? 64 then 0 else if b <? 128 then 64 else 128)). by boolsimp.
Qed.
Lemma mask63_low : forall b, 0 <= b < 64 -> Z.land b 63 = b.
Proof. byte_cases 0 64 (fun b => Z.land b 63 =? b). by boolsimp. Qed.
Lemma mask63_mid : forall b, 64 <= b < 128 -> Z.land b 63 = b - 64.
Proof. byte_cases 64 128 (fun b => Z.land b 63 =? b - 64). by boolsimp. Qed.

Lemma decode_length_int A v C :
  ZIP_DECODE_LENGTH (A ++ int_enc v :: C) (zlen A) = Some (int_enc v, 1, zlen (int_data v)).
Proof.
  pose proof (int_enc_range v). unfold ZIP_DECODE_LENGTH, ZIP_ENTRY_ENCODING.
  rewrite (load1_app A (int_enc v) C) by done. mstep. rewrite encoding_int_byte by lia.
  rewrite (proj2 (Z.ltb_ge _ _)) by (unfold ZIP_STR_MASK; lia). by rewrite zipIntSize_eq.
Qed.

Lemma lor_rev4 a b c d : Z.lor (Z.lor (Z.lor d c) b) a = Z.lor (Z.lor (Z.lor a b) c) d.
Proof. apply Z.bits_inj'. intros k _. rewrite !Z.lor_spec. by repeat destruct (Z.testbit _ k). Qed.

Lemma decode_length_str A n C :
  0 <= n < 2 ^ 32 ->
  ZIP_DECODE_LENGTH (A ++ str_hdr n ++ C) (zlen A) = Some (str_enc n, zlen (str_hdr n), n).
Proof.
  intros Hn. unfold ZIP_DECODE_LENGTH, ZIP_ENTRY_ENCODING, str_hdr, str_enc.
  rewrite load1_shift0, !load1_shift by done. destruct (n <=? 63) eqn:E6; boolsimp; [|destruct (n <=? 16383) eqn:E14; boolsimp].
  - cbn [app]. loads. rewrite encoding_str_byte by lia. rewrite (proj2 (Z.ltb_lt n 64)) by lia.
    change (0 <? ZIP_STR_MASK) with true. change (0 =? ZIP_STR_06B) with true. cbv iota.
    by rewrite mask63_low by lia.
  - assert (0 <= n / 256 < 64) by (split; [apply Z.div_pos; lia|apply Z.div_lt_upper_bound; lia]).
    cbn [app]. loads. rewrite encoding_str_byte by lia.
    rewrite (proj2 (Z.ltb_ge _ 64)), (proj2 (Z.ltb_lt _ 128)) by lia.
    change (64 <? ZIP_STR_MASK) with true. change (64 =? ZIP_STR_06B) with false. change (64 =? ZIP_STR_14B) with true. cbv iota.
    rewrite mask63_mid, Z.lor_comm, lor_shiftl by (lia || (apply Z.mod_pos_bound; lia)).
    pose proof (Z.div_mod n 256). f_equal. f_equal. change (2 ^ 8) with 256. lia.
  - le_bytes 4%nat n. simpl rev. cbn [app].
    set (a := n mod 256) in *. set (b := n / 256 mod 256) in *. set (c := n / 256 / 256 mod 256) in *.
    set (d := n / 256 / 256 / 256 mod 256) in *. loads.
    change (if 128 <? ZIP_STR_MASK then Z.land 128 ZIP_STR_MASK else 128) with 128.
    change (128 <? ZIP_STR_MASK) with true. change (128 =? ZIP_STR_06B) with false. change (128 =? ZIP_STR_14B) with false.
    change (128 =? ZIP_STR_32B) with true. cbv iota. do 2 f_equal.
    rewrite lor_rev4, lor_le4, Hd by (apply (Forall_take _ 3 _ Hok)). by rewrite !uN_small by (rewrite ?uN_small; lia).
Qed.

Lemma decode_length A s C p :
  zlen s < 2 ^ 32 -> p = zlen A ->
  ZIP_DECODE_LENGTH (A ++ hdr_of s ++ C) p = Some (enc_of s, zlen (hdr_of s), zlen (data_of s)).
Proof.
  intros Hs ->. unfold hdr_of, enc_of, data_of. destruct (string2ll s) as [v|].
  - apply decode_length_int.
  - apply decode_length_str. zlia.
Qed.

(** ** Integers *)

Section Host.
Context `{Host}.

Lemma le_enc_shift8 v : le_enc 4 (Z.shiftl v 8) = 0 :: le_enc 3 v.
Proof.
  rewrite Z.shiftl_mul_pow2 by lia. change (2 ^ 8) with 256. rewrite le_enc_S, Z.mod_mul, Z.div_mul by lia. done.
Qed.

Lemma host_enc_0 : host_enc 4 0 = [0; 0; 0; 0].
Proof. unfold host_enc. by destruct big_endian. Qed.

Lemma save_integer A D v C p :
  zlen D = zlen (int_data v) -> p = zlen A ->
  zipSaveInteger (A ++ D ++ C) p v (int_enc v) = Some (A ++ int_data v ++ C).
Proof.
  intros HD ->. unfold zipSaveInteger, int_enc, int_data in *.
  destruct ((0 <=? v) && (v <=? 12)) eqn:E1; boolsimp.
  { apply zlen_0_inv in HD as ->. change ZIP_INT_8B with 254. change ZIP_INT_16B with 192. change ZIP_INT_24B with 240.
    change ZIP_INT_32B with 208. change ZIP_INT_64B with 224. change ZIP_INT_IMM_MIN with 241. change ZIP_INT_IMM_MAX with 253.
    rewrite !(proj2 (Z.eqb_neq _ _)) by lia. by rewrite Z.geb_leb, (proj2 (Z.leb_le 241 _)), (proj2 (Z.leb_le _ 253)) by lia. }
  destruct ((-128 <=? v) && (v <=? 127)) eqn:E2; boolsimp.
  { change (254 =? ZIP_INT_8B) with true. cbv iota. unfold store1. rewrite store_app by (done || zlia). done. }
  destruct ((-32768 <=? v) && (v <=? 32767)) eqn:E3; boolsimp.
  { simpl (192 =? _). cbv iota. rewrite store_app by zlia. mstep. by apply memrev16ifbe_host. }
  destruct ((-8388608 <=? v) && (v <=? 8388607)) eqn:E4; boolsimp.
  { simpl (240 =? _). cbv iota. pose proof (memrev32ifbe_host [] (Z.shiftl v 8) [] 0 eq_refl) as Hm.
    rewrite !app_nil_r in Hm. cbn [app] in Hm. rewrite Hm, le_enc_shift8. mstep.
    rewrite (load_app_r [0] (le_enc 3 v)) by zlia. mstep. apply store_app; zlia. }
  destruct ((-2147483648 <=? v) && (v <=? 2147483647)) eqn:E5; boolsimp.
  { simpl (208 =? _). cbv iota. rewrite store_app by zlia. mstep. by apply memrev32ifbe_host. }
  simpl (224 =? _). cbv iota. rewrite store_app by zlia. mstep. by apply memrev64ifbe_host.
Qed.

Lemma load_integer A v C p :
  is_s 64 v -> p = zlen A -> zipLoadInteger (A ++ int_data v ++ C) p (int_enc v) = Some v.
Proof.
  intros Hv ->. unfold zipLoadInteger, int_enc, int_data.
  destruct ((0 <=? v) && (v <=? 12)) eqn:E1; boolsimp.
  { change ZIP_INT_8B with 254. change ZIP_INT_16B with 192. change ZIP_INT_24B with 240.
    change ZIP_INT_32B with 208. change ZIP_INT_64B with 224. change ZIP_INT_IMM_MIN with 241. change ZIP_INT_IMM_MAX with 253.
    rewrite !(proj2 (Z.eqb_neq _ _)) by lia. rewrite Z.geb_leb, (proj2 (Z.leb_le 241 _)), (proj2 (Z.leb_le _ 253)) by lia. cbn [andb].
    unfold ZIP_INT_IMM_MASK. change 15 with (Z.ones 4). rewrite Z.land_ones by lia.
    replace (241 + v) with ((v + 1) + 15 * 2 ^ 4) by lia. rewrite Z.mod_add, Z.mod_small by lia. f_equal. lia. }
  destruct ((-128 <=? v) && (v <=? 127)) eqn:E2; boolsimp.
  { change (254 =? ZIP_INT_8B) with true. cbv iota. rewrite le_enc_S, le_enc_0. cbn [app]. rewrite load1_app by done. mstep.
    f_equal. apply (sN_uN_id 8); unfold is_s; lia. }
  destruct ((-32768 <=? v) && (v <=? 32767)) eqn:E3; boolsimp.
  { simpl (192 =? _). cbv iota. rewrite load_app by zlia. mstep.
    destruct (memrev16ifbe_dec (le_enc 2 v)) as (B & -> & HB); [apply le_enc_ok|zlia|]. mstep.
    rewrite HB, le_dec_enc. f_equal. apply (sN_uN_id 16); unfold is_s; lia. }
  destruct ((-8388608 <=? v) && (v <=? 8388607)) eqn:E4; boolsimp.
  { simpl (240 =? _). cbv iota. rewrite load_app by zlia. mstep. rewrite host_enc_0.
    rewrite (store_app_r [0] [0; 0; 0]) by zlia. mstep. cbn [app]. rewrite <- le_enc_shift8.
    destruct (memrev32ifbe_dec (le_enc 4 (Z.shiftl v 8))) as (B & -> & HB); [apply le_enc_ok|zlia|]. mstep.
    rewrite HB, le_dec_enc. rewrite Z.shiftl_mul_pow2 by lia.
    rewrite (sN_uN_id 32) by (unfold is_s; lia). f_equal. rewrite shiftr_div by lia. apply Z.div_mul. lia. }
  destruct ((-2147483648 <=? v) && (v <=? 2147483647)) eqn:E5; boolsimp.
  { simpl (208 =? _). cbv iota. rewrite load_app by zlia. mstep.
    destruct (memrev32ifbe_dec (le_enc 4 v)) as (B & -> & HB); [apply le_enc_ok|zlia|]. mstep.
    rewrite HB, le_dec_enc. f_equal. apply (sN_uN_id 32); unfold is_s; lia. }
  simpl (224 =? _). cbv iota. rewrite load_app by zlia. mstep.
  destruct (memrev64ifbe_dec (le_enc 8 v)) as (B & -> & HB); [apply le_enc_ok|zlia|]. mstep.
  rewrite HB, le_dec_enc. f_equal. by apply (sN_uN_id 64).
Qed.

(** ** The length of the previous entry *)

Definition prev_field (big : bool) (n : Z) : bytes := if big then 254 :: le_enc 4 n else [n].
Definition prev_ok (big : bool) (n : Z) : Prop := 0 <= n < 2 ^ 32 /\ (big = false -> n < 254).

Lemma zlen_prev_field big n : zlen (prev_field big n) = if big then 5 else 1.
Proof. destruct big; [|done]. unfold prev_field. zlia. Qed.

Lemma decode_prevlensize A big n C p :
  prev_ok big n -> p = zlen A ->
  ZIP_DECODE_PREVLENSIZE (A ++ prev_field big n ++ C) p = Some (zlen (prev_field big n)).
Proof.
  intros [Hn Hb] ->. unfold ZIP_DECODE_PREVLENSIZE. rewrite zlen_prev_field. destruct big; unfold prev_field; cbn [app].
  - by rewrite load1_app by done.
  - rewrite load1_app by done. mstep. rewrite (proj2 (Z.ltb_lt _ _)) by (apply Hb; done). done.
Qed.

Lemma decode_prevlen A big n C p :
  prev_ok big n -> p = zlen A ->
  ZIP_DECODE_PREVLEN (A ++ prev_field big n ++ C) p = Some (zlen (prev_field big n), n).
Proof.
  intros Hok ->. unfold ZIP_DECODE_PREVLEN. rewrite decode_prevlensize by done. mstep.
  rewrite zlen_prev_field. destruct Hok as [Hn Hb]. destruct big; simpl (_ =? 1); cbv iota; unfold prev_field.
  - cbn [app]. replace (A ++ 254 :: le_enc 4 n ++ C) with ((A ++ [254]) ++ le_enc 4 n ++ C) by by rewrite <- app_assoc.
    rewrite load_app by zlia. mstep.
    destruct (memrev32ifbe_dec (le_enc 4 n)) as (B & -> & HB); [apply le_enc_ok|zlia|]. mstep.
    by rewrite HB, le_dec_enc, uN_small by lia.
  - cbn [app]. rewrite load1_app by done. done.
Qed.

Lemma store_prevlen_large A X C p n :
  zlen X = 5 -> p = zlen A ->
  zipStorePrevEntryLengthLarge (A ++ X ++ C) p n = Some (A ++ prev_field true n ++ C).
Proof.
  intros HX ->. unfold zipStorePrevEntryLengthLarge, store1.
  destruct X as [|x X]; [done|]. cbn [app]. rewrite (store_app A [x] [254] (X ++ C)) by done. mstep.
  replace (A ++ [254] ++ X ++ C) with ((A ++ [254]) ++ X ++ C) by by rewrite <- app_assoc.
  rewrite store_app by zlia. mstep. rewrite memrev32ifbe_host by zlia. by rewrite <- app_assoc.
Qed.

Lemma store_prevlen A X C p n :
  0 <= n -> zlen X = prev_entry_length_size n -> p = zlen A ->
  zipStorePrevEntryLength (A ++ X ++ C) p n =
  Some (A ++ prev_field (254 <=? n) n ++ C, prev_entry_length_size n).
Proof.
  intros Hn HX ->. unfold zipStorePrevEntryLength, prev_entry_length_size in *. change ZIP_BIG_PREVLEN with 254 in *.
  destruct (n <? 254) eqn:E; boolsimp.
  - rewrite (proj2 (Z.leb_gt _ _)) by lia. unfold store1. rewrite store_app by (done || zlia). mstep.
    by rewrite uN_small by lia.
  - rewrite (proj2 (Z.leb_le _ _)) by lia. by rewrite store_prevlen_large.
Qed.

Lemma prev_size_field n : prev_entry_length_size n = zlen (prev_field (254 <=? n) n).
Proof.
  rewrite zlen_prev_field. unfold prev_entry_length_size, ZIP_BIG_PREVLEN. rewrite Z.ltb_antisym. by destruct (254 <=? n).
Qed.
(** ** The header *)

Definition hdr (total tail count : Z) : bytes := le_enc 4 total ++ le_enc 4 tail ++ le_enc 2 count.

Lemma zlen_ziphdr total tail count : zlen (hdr total tail count) = 10.
Proof. unfold hdr. zlia. Qed.

Section Header.
Context (total tail count : Z) (R : bytes).
Context (Htotal : is_u 32 total) (Htail : is_u 32 tail) (Hcount : is_u 16 count).
Abbreviation zl := (hdr total tail count ++ R).

Lemma get_bytes : ZIPLIST_BYTES zl = Some (rep32 total).
Proof.
  unfold ZIPLIST_BYTES, hdr. rewrite <- !app_assoc.
  pose proof (load_app [] (le_enc 4 total) ((le_enc 4 tail ++ le_enc 2 count) ++ R) 0 4) as Hl. rewrite <- app_assoc in Hl.
  cbn [app] in Hl. rewrite Hl by zlia. mstep. by rewrite host_dec_le32.
Qed.
Lemma get_tail : ZIPLIST_TAIL_OFFSET zl = Some (rep32 tail).
Proof.
  unfold ZIPLIST_TAIL_OFFSET, hdr. rewrite <- !app_assoc. rewrite (load_app (le_enc 4 total) (le_enc 4 tail)) by zlia. mstep.
  by rewrite host_dec_le32.
Qed.
Lemma get_count : ZIPLIST_LENGTH zl = Some (rep16 count).
Proof.
  unfold ZIPLIST_LENGTH, hdr. rewrite <- !app_assoc, (app_assoc (le_enc 4 total)).
  rewrite (load_app (le_enc 4 total ++ le_enc 4 tail)) by zlia. mstep. by rewrite host_dec_le16.
Qed.
Lemma entry_tail : ZIPLIST_ENTRY_TAIL zl = Some tail.
Proof. unfold ZIPLIST_ENTRY_TAIL. rewrite get_tail. mstep. by apply intrev32ifbe_unrep. Qed.
Lemma entry_end : ZIPLIST_ENTRY_END zl = Some (total - 1).
Proof. unfold ZIPLIST_ENTRY_END. rewrite get_bytes. mstep. by rewrite intrev32ifbe_unrep. Qed.

Lemma put_bytes total' : set_ZIPLIST_BYTES zl (rep32 total') = Some (hdr total' tail count ++ R).
Proof.
  unfold set_ZIPLIST_BYTES, hdr. rewrite host_enc_rep32, <- !app_assoc. apply (store_app []); zlia.
Qed.
Lemma put_tail tail' : set_ZIPLIST_TAIL_OFFSET zl (rep32 tail') = Some (hdr total tail' count ++ R).
Proof.
  unfold set_ZIPLIST_TAIL_OFFSET, hdr. rewrite host_enc_rep32, <- !app_assoc. apply store_app; zlia.
Qed.
Lemma put_count count' : set_ZIPLIST_LENGTH zl (rep16 count') = Some (hdr total tail count' ++ R).
Proof.
  unfold set_ZIPLIST_LENGTH, hdr. rewrite host_enc_rep16, <- !app_assoc, !(app_assoc (le_enc 4 total)).
  apply store_app; zlia.
Qed.

Lemma move_tail d : is_u 32 (tail + d) -> move_tail_offset zl d = Some (hdr total (tail + d) count ++ R).
Proof.
  intros Hd. unfold move_tail_offset. rewrite get_tail. mstep. rewrite intrev32ifbe_unrep by done. mstep.
  rewrite (uN_small 32) by done. rewrite intrev32ifbe_rep. mstep. apply put_tail.
Qed.

(** The count stays at its maximum once there. *)
Lemma incr_length d :
  (count = 65535 \/ is_u 16 (count + d)) ->
  ZIPLIST_INCR_LENGTH zl d = Some (hdr total tail (if count <? 65535 then count + d else count) ++ R).
Proof.
  intros Hd. unfold ZIPLIST_INCR_LENGTH. rewrite get_count. mstep.
  assert ((rep16 count <? UINT16_MAX) = (count <? 65535)) as ->.
  { unfold UINT16_MAX, is_u in *. change (2 ^ 16 - 1) with 65535. unfold rep16. destruct big_endian; [|done].
    pose proof (le_dec_bound (rev (le_enc 2 count)) ltac:(apply Forall_rev, le_enc_ok)) as Hb. autorewrite with zlen in Hb.
    fold (bswap16 count) in Hb. destruct (decide (count = 65535)) as [->|Hne]; [done|].
    rewrite !(proj2 (Z.ltb_lt _ _)); [done|lia|].
    destruct (decide (bswap16 count = 65535)) as [He|]; [exfalso|lia]. apply Hne.
    pose proof (f_equal (le_enc 2) He) as He2. rewrite le_enc_bswap16 in He2. apply (f_equal (fun l => le_dec (rev l))) in He2.
    rewrite rev_involutive, le_dec_enc, uN_small in He2 by done. by rewrite He2. }
  casif; [|done]. rewrite intrev16ifbe_unrep by done. mstep. destruct Hd as [|Hd]; [lia|].
  rewrite (uN_small 16) by done. rewrite intrev16ifbe_rep. mstep. apply put_count.
Qed.
End Header.
End Host.

(** ** Resizing and moving *)

Section Alloc.
Context `{Host} `{Alloc}.

Lemma resize_grow total tail count R k :
  is_u 32 (11 + zlen R + k) -> 0 <= k ->
  exists J, ziplistResize (hdr total tail count ++ R ++ [255]) (11 + zlen R + k) =
            Some (hdr (11 + zlen R + k) tail count ++ R ++ J ++ [255]) /\ zlen J = k /\
            (0 < k -> exists J', J = 255 :: J').
Proof.
  intros Hu Hk. unfold ziplistResize. rewrite (uN_small 32 (11 + zlen R + k)) by done.
  destruct (realloc_grow (hdr total tail count ++ R ++ [255]) (11 + zlen R + k)) as (J & -> & HJ & _).
  { rewrite !zlen_app, zlen_ziphdr. zlia. }
  rewrite !zlen_app, zlen_ziphdr in HJ. rewrite intrev32ifbe_rep. mstep.
  rewrite <- !app_assoc, put_bytes. mstep. unfold is_u in Hu. rewrite uN_small by zlia. unfold store1.
  change (u8 ZIP_END) with 255. change ([255] ++ J) with (255 :: J).
  assert (exists J1 x, 255 :: J = J1 ++ [x] /\ (0 < k -> exists J', J1 = 255 :: J')) as (J1 & x & HJ1 & Hhd).
  { destruct (exists_last (l := 255 :: J)) as (J1 & x & E); [done|]. exists J1, x. split; [done|].
    intros. destruct J1 as [|y J1]; [|injection E as <- _; eauto].
    apply (f_equal zlen) in E. zlia. }
  exists J1. assert (zlen J1 = k) as HJ1l.
  { apply (f_equal zlen) in HJ1. zlia. }
  split; [|done]. rewrite HJ1.
  replace (hdr (11 + zlen R + k) tail count ++ R ++ J1 ++ [x]) with ((hdr (11 + zlen R + k) tail count ++ R ++ J1) ++ [x])
    by by rewrite <- !app_assoc.
  rewrite store_app_r; [by rewrite <- !app_assoc| |done]. rewrite !zlen_app, zlen_ziphdr. lia.
Qed.

Lemma resize_shrink total tail count R X :
  is_u 32 (11 + zlen R) -> 0 < zlen X ->
  ziplistResize (hdr total tail count ++ R ++ X) (11 + zlen R) = Some (hdr (11 + zlen R) tail count ++ R ++ [255]).
Proof.
  intros Hu HX. unfold ziplistResize. rewrite (uN_small 32 (11 + zlen R)) by done. destruct X as [|x X]; [zlia|].
  replace (hdr total tail count ++ R ++ x :: X) with ((hdr total tail count ++ R ++ [x]) ++ X) by by rewrite <- !app_assoc.
  rewrite realloc_shrink by (rewrite !zlen_app, zlen_ziphdr; zlia). rewrite intrev32ifbe_rep. mstep. rewrite put_bytes. mstep.
  unfold is_u in Hu. rewrite uN_small by zlia. unfold store1. rewrite app_assoc.
  rewrite store_app_r; [by rewrite <- !app_assoc| |done]. rewrite !zlen_app, zlen_ziphdr. lia.
Qed.

Lemma zl_memmove_up A M J Z p :
  p = zlen A ->
  exists X, memmove (A ++ M ++ J ++ Z) (p + zlen J) p (zlen M) = Some (A ++ X ++ M ++ Z) /\ zlen X = zlen J.
Proof.
  intros ->. unfold memmove. rewrite load_app by done. mstep.
  destruct (split_range (M ++ J) 0 (zlen J)) as (E & X & M' & HX & HE & HXl); [zlia..|].
  apply zlen_0_inv in HE as ->. cbn [app] in HX. exists X. split; [|done].
  replace (A ++ M ++ J ++ Z) with ((A ++ X) ++ M' ++ Z) by (by rewrite (app_assoc M), HX, <- !app_assoc).
  rewrite store_app; [by rewrite <- app_assoc|zlia|].
  apply (f_equal zlen) in HX. rewrite !zlen_app in HX. lia.
Qed.

Lemma zl_memmove_down A X M Z p q :
  p = zlen A -> q = zlen A + zlen X ->
  exists Y, memmove (A ++ X ++ M ++ Z) p q (zlen M) = Some (A ++ M ++ Y) /\ zlen Y = zlen X + zlen Z.
Proof.
  intros -> ->. unfold memmove. rewrite (app_assoc A X), load_app by zlia. mstep. rewrite <- app_assoc.
  destruct (split_range (X ++ M) 0 (zlen M)) as (E & M' & Y & HX & HE & HMl); [zlia..|].
  apply zlen_0_inv in HE as ->. cbn [app] in HX. exists (Y ++ Z).
  replace (A ++ X ++ M ++ Z) with (A ++ M' ++ Y ++ Z) by (by rewrite (app_assoc X), HX, <- !app_assoc).
  split; [by apply store_app|]. apply (f_equal zlen) in HX. rewrite !zlen_app in HX. zlia.
Qed.
End Alloc.
