(* ===== verification/ZiplistOps.v ===== *)
(** * Ziplists as sequences of strings: the invariant, and the cascading update

    An item is the string of an entry and whether the entry stores the length of its
    predecessor in five bytes; it must when that length does not fit one byte, and it may
    otherwise.  [zwf zl items]: the block [zl] is a ziplist that holds [items]. *)

From Stdlib Require Import ZArith Lia.
From stdpp Require Import base numbers option list.
From S2P Require Import Prelude Memory Bits Endian Util UtilFacts Ziplist ZiplistFacts.

Local Open Scope Z_scope.
Local Open Scope redis_scope.

Abbreviation item := (bool * bytes)%type.

Definition psize (it : item) : Z := if it.1 then 5 else 1.
Definition rawlen (it : item) : Z := psize it + zlen (body it.2).
Definition chunk (prev : Z) (it : item) : bytes := prev_field it.1 prev ++ body it.2.

Fixpoint size (items : list item) : Z :=
  match items with [] => 0 | it :: its => rawlen it + size its end.

(** The entries, the first after an entry of [prev] bytes. *)
Fixpoint rend (prev : Z) (items : list item) : bytes :=
  match items with [] => [] | it :: its => chunk prev it ++ rend (rawlen it) its end.
Fixpoint items_ok (prev : Z) (items : list item) : Prop :=
  match items with [] => True | it :: its => (it.1 = false -> prev < 254) /\ items_ok (rawlen it) its end.

(** The length of the last entry, and its offset *)
Fixpoint lastlen (prev : Z) (items : list item) : Z :=
  match items with [] => prev | it :: its => lastlen (rawlen it) its end.
Fixpoint last_ofs (items : list item) : Z :=
  match items with [] => 0 | it :: its => match its with [] => 0 | _ => rawlen it + last_ofs its end end.

Definition count_ok (count : Z) (items : list item) : Prop :=
  count = zlen items /\ count < 65535 \/ count = 65535.

Definition zwf (zl : bytes) (items : list item) : Prop :=
  items_ok 0 items /\ 11 + size items < 2 ^ 32 /\
  exists count, count_ok count items /\
    zl = hdr (11 + size items) (10 + last_ofs items) count ++ rend 0 items ++ [255].

(** ** Sizes *)

Lemma zlen_body_bounds s : 1 <= zlen (body s) /\ zlen s <= zlen (body s) + 21.
Proof.
  unfold body, hdr_of, data_of. rewrite zlen_app. destruct (string2ll s) as [v|] eqn:E.
  - pose proof (string2ll_short s v E). zlia.
  - pose proof (zlen_str_hdr (zlen s)). zlia.
Qed.

Lemma zlen_body_le s : zlen (body s) <= zlen s + 9.
Proof.
  unfold body, hdr_of, data_of. rewrite zlen_app. destruct (string2ll s) as [v|] eqn:E.
  - pose proof (zlen_int_data v). zlia.
  - pose proof (zlen_str_hdr (zlen s)). zlia.
Qed.

Lemma psize_bound it : 1 <= psize it <= 5.
Proof. unfold psize. destruct it.1; lia. Qed.
Lemma rawlen_pos it : 2 <= rawlen it.
Proof. unfold rawlen. pose proof (psize_bound it). pose proof (zlen_body_bounds it.2). lia. Qed.
Lemma zlen_chunk prev it : zlen (chunk prev it) = rawlen it.
Proof. unfold chunk, rawlen. by rewrite zlen_app, zlen_prev_field. Qed.
Lemma size_nonneg items : 2 * zlen items <= size items.
Proof. induction items as [|it its IH]; [done|]. simpl. pose proof (rawlen_pos it). zlia. Qed.
Lemma zlen_rend prev items : zlen (rend prev items) = size items.
Proof. revert prev. induction items as [|it its IH]; intros; [done|]. simpl. by rewrite zlen_app, zlen_chunk, IH. Qed.

Lemma size_app l k : size (l ++ k) = size l + size k.
Proof. induction l as [|it l IH]; [done|]. simpl. rewrite IH. lia. Qed.
Lemma rend_app prev l k : rend prev (l ++ k) = rend prev l ++ rend (lastlen prev l) k.
Proof. revert prev. induction l as [|it l IH]; intros; [done|]. simpl. by rewrite IH, <- app_assoc. Qed.
Lemma items_ok_app prev l k : items_ok prev (l ++ k) <-> items_ok prev l /\ items_ok (lastlen prev l) k.
Proof. revert prev. induction l as [|it l IH]; intros; simpl; [tauto|]. rewrite IH. tauto. Qed.
Lemma last_ofs_app l k : k <> [] -> last_ofs (l ++ k) = size l + last_ofs k.
Proof.
  intros Hk. induction l as [|it l IH]; [done|]. change ((it :: l) ++ k) with (it :: (l ++ k)). cbn [last_ofs size].
  destruct (l ++ k) eqn:E; [apply app_eq_nil in E as [_ ->]; done|]. rewrite IH. lia.
Qed.
Lemma last_ofs_bound items : 0 <= last_ofs items <= size items.
Proof.
  induction items as [|it its IH]; [done|]. cbn [last_ofs size]. pose proof (rawlen_pos it). destruct its; simpl in *; lia.
Qed.
Lemma lastlen_app prev l k : lastlen prev (l ++ k) = lastlen (lastlen prev l) k.
Proof. revert prev. induction l as [|it l IH]; intros; [done|]. simpl. apply IH. Qed.
Lemma lastlen_bound prev items : 0 <= prev -> 0 <= lastlen prev items <= Z.max prev (size items).
Proof.
  revert prev. induction items as [|it its IH]; intros prev Hp; simpl; [lia|]. pose proof (rawlen_pos it).
  specialize (IH (rawlen it) ltac:(lia)). pose proof (size_nonneg its). zlia.
Qed.
Lemma last_ofs_lastlen items : last_ofs items + lastlen 0 items = size items.
Proof.
  assert (forall it its, last_ofs (it :: its) + lastlen (rawlen it) its = size (it :: its)) as Hg.
  { intros it its. revert it. induction its as [|it' its IH]; intros it; [simpl; lia|].
    specialize (IH it'). cbn [last_ofs lastlen size] in *. lia. }
  destruct items as [|it its]; [done|]. apply Hg.
Qed.

Global Hint Rewrite zlen_chunk zlen_rend size_app zlen_ziphdr : zlen.

Lemma count_ok_u16 count items : count_ok count items -> is_u 16 count.
Proof. unfold count_ok, is_u. pose proof (zlen_nonneg items). lia. Qed.

(** Side conditions: the same list associated otherwise, or lengths. *)
Ltac zside := first [done | by rewrite <- ?app_assoc | zlia].

(** There are more bytes than entries. *)
Lemma fuel_enough h prev items : zlen items + 1 < Z.of_nat (S (length (h ++ rend prev items ++ [255]))).
Proof.
  rewrite !length_app, Nat2Z.inj_succ, !Nat2Z.inj_add. pose proof (zlen_rend prev items). pose proof (size_nonneg items).
  unfold zlen in *. simpl. lia.
Qed.

(** ** Reading one entry *)

Section Ops.
Context `{Host} `{Alloc}.

Lemma decode_length_at A s C p :
  zlen (body s) < 2 ^ 32 -> p = zlen A ->
  ZIP_DECODE_LENGTH (A ++ body s ++ C) p = Some (enc_of s, zlen (hdr_of s), zlen (data_of s)).
Proof.
  intros Hs Hp. unfold body. rewrite <- app_assoc. apply decode_length; [|done].
  unfold body, hdr_of, data_of in Hs. rewrite zlen_app in Hs. destruct (string2ll s) as [v|] eqn:E.
  - pose proof (string2ll_short s v E). lia.
  - pose proof (zlen_str_hdr (zlen s)). lia.
Qed.

Section At.
Context (zl A C : bytes) (prev : Z) (it : item) (p : Z).
Context (Hzl : zl = A ++ chunk prev it ++ C) (Hp : p = zlen A).
Context (Hprev : 0 <= prev < 2 ^ 32) (Hit : it.1 = false -> prev < 254) (Hraw : rawlen it < 2 ^ 32).

Lemma prevlensize_at : ZIP_DECODE_PREVLENSIZE zl p = Some (psize it).
Proof. rewrite Hzl. unfold chunk. rewrite <- app_assoc. rewrite decode_prevlensize by done. by rewrite zlen_prev_field. Qed.
Lemma prevlen_at : ZIP_DECODE_PREVLEN zl p = Some (psize it, prev).
Proof. rewrite Hzl. unfold chunk. rewrite <- app_assoc. rewrite decode_prevlen by done. by rewrite zlen_prev_field. Qed.
Lemma decode_at : ZIP_DECODE_LENGTH zl (p + psize it) = Some (enc_of it.2, zlen (hdr_of it.2), zlen (data_of it.2)).
Proof.
  rewrite Hzl. unfold chunk. rewrite <- app_assoc, app_assoc. apply decode_length_at.
  - unfold rawlen in Hraw. pose proof (psize_bound it). lia.
  - rewrite zlen_app, zlen_prev_field. by rewrite Hp.
Qed.
Lemma body_sum : zlen (hdr_of it.2) + zlen (data_of it.2) = zlen (body it.2).
Proof. unfold body. by rewrite zlen_app. Qed.
Lemma raw_at : zipRawEntryLength zl p = Some (rawlen it).
Proof.
  unfold zipRawEntryLength. rewrite prevlensize_at. mstep. rewrite decode_at. mstep.
  pose proof body_sum. pose proof (rawlen_pos it). unfold rawlen in *. rewrite uN_small by lia. f_equal. lia.
Qed.
Lemma entry_at_ :
  zipEntry zl p = Some (Zlentry (psize it) prev (zlen (hdr_of it.2)) (zlen (data_of it.2))
                          (psize it + zlen (hdr_of it.2)) (enc_of it.2) p).
Proof.
  unfold zipEntry. rewrite prevlen_at. mstep. rewrite decode_at. mstep.
  pose proof body_sum. pose proof (psize_bound it). pose proof (zlen_hdr_of it.2). by rewrite uN_small by lia.
Qed.
Lemma entry_raw : u32 (psize it + zlen (hdr_of it.2) + zlen (data_of it.2)) = rawlen it.
Proof. pose proof body_sum. pose proof (rawlen_pos it). unfold rawlen in *. rewrite uN_small; lia. Qed.
Lemma diff_at n : zipPrevLenByteDiff zl p n = Some (prev_entry_length_size n - psize it).
Proof.
  unfold zipPrevLenByteDiff. rewrite prevlensize_at. mstep. pose proof (psize_bound it). f_equal. apply sN_small; [lia|].
  unfold is_s, prev_entry_length_size. change (2 ^ (32 - 1)) with 2147483648. casif; lia.
Qed.
Lemma not_end_at : exists b, load1 zl p = Some b /\ (b =? ZIP_END) = false.
Proof.
  rewrite Hzl. unfold chunk, prev_field. destruct it.1; cbn [app].
  - exists 254. split; [by apply load1_app|done].
  - exists prev. split; [by apply load1_app|]. apply Z.eqb_neq. unfold ZIP_END. specialize (Hit eq_refl). lia.
Qed.
End At.

Lemma end_at A C p : p = zlen A -> load1 (A ++ [255] ++ C) p = Some 255.
Proof. intros. by apply load1_app. Qed.
(** ** The cascading update *)

(** The items after an entry whose length has become [prev]: the fields that cannot hold the
    length of their predecessor any more grow, until one can. *)
Fixpoint widen (prev : Z) (items : list item) : list item :=
  match items with
  | [] => []
  | it :: its => if it.1 || (prev <? 254) then it :: its
                 else (true, it.2) :: widen (rawlen (true, it.2)) its
  end.

Lemma widen_strings prev items : map snd (widen prev items) = map snd items.
Proof.
  revert prev. induction items as [|[b s] its IH]; intros prev; [done|]. simpl. casif; [done|]. simpl. by rewrite IH.
Qed.
Lemma zlen_widen prev items : zlen (widen prev items) = zlen items.
Proof. rewrite <- (zlen_map snd (widen prev items)), widen_strings. apply zlen_map. Qed.
Lemma widen_size prev items : size items <= size (widen prev items) <= size items + 4 * zlen items.
Proof.
  revert prev. induction items as [|[b s] its IH]; intros prev; [done|]. rewrite zlen_cons. simpl. pose proof (zlen_nonneg its).
  destruct b; simpl; [lia|]. casif; simpl; [lia|]. specialize (IH (rawlen (true, s))). unfold rawlen, psize in *. simpl in *. lia.
Qed.
Lemma widen_ok old prev items : items_ok old items -> items_ok prev (widen prev items).
Proof.
  revert old prev. induction items as [|[b s] its IH]; intros old prev; [done|]. simpl. intros [Hb Hi].
  destruct b; simpl; [split; [done|done]|]. casif; simpl; [by split|]. split; [done|]. by eapply IH.
Qed.
Lemma widen_fits prev items : items_ok prev items -> widen prev items = items.
Proof.
  destruct items as [|[[] s] its]; [done|done|]. simpl. intros [Hb _]. by rewrite (proj2 (Z.ltb_lt _ _)) by auto.
Qed.
Lemma widen_nil prev items : widen prev items = [] -> items = [].
Proof. destruct items as [|it its]; [done|]. simpl. by casif. Qed.

Lemma last_ofs_cons it its : its <> [] -> last_ofs (it :: its) = rawlen it + last_ofs its.
Proof. by destruct its. Qed.

Section Turn.
Context (P : bytes) (pv : Z) (it0 : item) (count : Z).
Context (Hpv : 0 <= pv < 2 ^ 32) (Hit0 : it0.1 = false -> pv < 254) (Hcount : is_u 16 count).
Abbreviation r0 := (rawlen it0).
Abbreviation block total tail X := (hdr total tail count ++ P ++ chunk pv it0 ++ X ++ [255]).

(** The first entry is the last. *)
Lemma turn_last total tail :
  r0 < 2 ^ 32 -> cascade_turn (block total tail []) (10 + zlen P) total = Some (block total tail [], None).
Proof.
  intros Hr. unfold cascade_turn. cbn [app].
  rewrite (entry_at_ _ (hdr total tail count ++ P) [255] pv it0) by zside.
  mstep. cbn [headersize len]. rewrite entry_raw by done.
  replace (hdr total tail count ++ P ++ chunk pv it0 ++ [255]) with ((hdr total tail count ++ P ++ chunk pv it0) ++ [255] ++ [])
    by (by rewrite <- !app_assoc).
  rewrite end_at by zlia. done.
Qed.

Context (it1 : item) (rest : list item) (old : Z).
Context (Hold : 0 <= old < 2 ^ 32) (Hit1 : it1.1 = false -> old < 254).
Abbreviation R := (rend (rawlen it1) rest).

(** What [zipEntry] and the test for the end see of the first two entries *)
Lemma turn_reads total tail :
  r0 < 2 ^ 32 -> rawlen it1 < 2 ^ 32 ->
  let zl := block total tail (chunk old it1 ++ R) in
  zipEntry zl (10 + zlen P) = Some (Zlentry (psize it0) pv (zlen (hdr_of it0.2)) (zlen (data_of it0.2))
                                      (psize it0 + zlen (hdr_of it0.2)) (enc_of it0.2) (10 + zlen P)) /\
  zipEntry zl (10 + zlen P + r0) = Some (Zlentry (psize it1) old (zlen (hdr_of it1.2)) (zlen (data_of it1.2))
                                      (psize it1 + zlen (hdr_of it1.2)) (enc_of it1.2) (10 + zlen P + r0)) /\
  exists b, load1 zl (10 + zlen P + r0) = Some b /\ (b =? ZIP_END) = false.
Proof.
  intros Hr0 Hr1. cbv zeta. split; [|split].
  - apply (entry_at_ _ (hdr total tail count ++ P) (chunk old it1 ++ R ++ [255])); zside.
  - apply (entry_at_ _ (hdr total tail count ++ P ++ chunk pv it0) (R ++ [255])); zside.
  - apply (not_end_at _ (hdr total tail count ++ P ++ chunk pv it0) (R ++ [255]) old it1); zside.
Qed.

Lemma turn_stop total tail :
  r0 < 2 ^ 32 -> rawlen it1 < 2 ^ 32 -> it1.1 || (r0 <? 254) = true ->
  cascade_turn (block total tail (chunk old it1 ++ R)) (10 + zlen P) total =
  Some (block total tail (chunk r0 it1 ++ R), None).
Proof.
  intros Hr0 Hr1 Hfit. destruct (turn_reads total tail Hr0 Hr1) as (He0 & He1 & b & Hb & Hbe).
  unfold cascade_turn. rewrite He0. mstep. cbn [headersize len]. rewrite entry_raw by done.
  rewrite Hb. mstep. rewrite Hbe, He1. mstep. cbn [prevrawlen prevrawlensize].
  destruct (old =? r0) eqn:Eo; boolsimp; [by rewrite Eo|].
  pose proof (rawlen_pos it0). unfold prev_entry_length_size. change ZIP_BIG_PREVLEN with 254.
  assert (forall n, n = zlen (prev_field it1.1 old) ->
    (hdr total tail count ++ P ++ chunk pv it0) ++ prev_field it1.1 old ++ body it1.2 ++ R ++ [255] =
    block total tail (chunk old it1 ++ R)) as Hsplit.
  { intros _ _. unfold chunk. by rewrite <- !app_assoc. }
  rewrite <- (Hsplit _ eq_refl). unfold psize. destruct it1.1 eqn:Eb.
  - rewrite (proj2 (Z.ltb_ge 5 _)) by (casif; lia).
    destruct (r0 <? 254) eqn:E254; boolsimp.
    + rewrite store_prevlen_large by first [by rewrite zlen_prev_field | zlia]. mstep. unfold chunk. rewrite Eb. by rewrite <- !app_assoc.
    + simpl (5 >? 5). cbv iota. rewrite store_prevlen; [mstep|lia|by rewrite zlen_prev_field; unfold prev_entry_length_size, ZIP_BIG_PREVLEN; casif; lia|zlia].
      rewrite (proj2 (Z.leb_le 254 _)) by lia. unfold chunk. rewrite Eb. by rewrite <- !app_assoc.
  - cbn [orb] in Hfit. rewrite Hfit. simpl (1 <? 1). simpl (1 >? 1). cbv iota. boolsimp.
    rewrite store_prevlen; [mstep|lia|by rewrite zlen_prev_field; unfold prev_entry_length_size, ZIP_BIG_PREVLEN; casif; lia|zlia].
    rewrite (proj2 (Z.leb_gt 254 _)) by lia. unfold chunk. rewrite Eb. by rewrite <- !app_assoc.
Qed.
Lemma turn_grow :
  11 + zlen P + r0 + size (it1 :: rest) + 4 < 2 ^ 32 -> it1.1 = false -> 254 <= r0 ->
  let total := 11 + zlen P + r0 + size (it1 :: rest) in
  cascade_turn (block total (10 + zlen P + last_ofs (it0 :: it1 :: rest)) (chunk old it1 ++ R)) (10 + zlen P) total =
  Some (block (total + 4) (10 + zlen P + last_ofs (it0 :: (true, it1.2) :: rest)) (chunk r0 (true, it1.2) ++ R),
        Some (10 + zlen P + r0, total + 4)).
Proof.
  intros Hsz Hb Hr. cbv zeta. cbn [size] in *. pose proof (size_nonneg rest). pose proof (rawlen_pos it1).
  assert (rawlen it1 = 1 + zlen (body it1.2)) as Hr1 by (unfold rawlen, psize; by rewrite Hb).
  set (total := 11 + zlen P + r0 + (rawlen it1 + size rest)). set (tail := 10 + zlen P + last_ofs (it0 :: it1 :: rest)).
  pose proof (last_ofs_bound (it0 :: it1 :: rest)) as Hlo. cbn [size] in Hlo. zlen_pos.
  destruct (turn_reads total tail) as (He0 & He1 & b & Hb' & Hbe); [lia..|].
  unfold cascade_turn. rewrite He0. mstep. cbn [headersize len]. rewrite entry_raw by zlia.
  rewrite Hb'. mstep. rewrite Hbe, He1. mstep. cbn [prevrawlen prevrawlensize].
  specialize (Hit1 Hb). rewrite (proj2 (Z.eqb_neq old _)) by lia. unfold psize. rewrite Hb. cbv iota.
  assert (prev_entry_length_size r0 = 5) as Hps.
  { unfold prev_entry_length_size, ZIP_BIG_PREVLEN. by rewrite (proj2 (Z.ltb_ge _ _)) by lia. }
  rewrite !Hps. simpl (1 <? 5). cbv iota. rewrite !(uN_small 64 (5 - 1)) by lia. change (5 - 1) with 4.
  rewrite (uN_small 64 (total + 4)) by (unfold total; lia).
  pose proof (resize_grow total tail count (P ++ chunk pv it0 ++ chunk old it1 ++ R) 4) as Hgrow.
  replace (11 + zlen (P ++ chunk pv it0 ++ chunk old it1 ++ R) + 4) with (total + 4) in Hgrow by (unfold total; zlia).
  replace (hdr total tail count ++ (P ++ chunk pv it0 ++ chunk old it1 ++ R) ++ [255])
    with (block total tail (chunk old it1 ++ R)) in Hgrow by by rewrite <- !app_assoc.
  destruct Hgrow as (J & Hgrow & HJ & _); [unfold is_u, total; lia|lia|]. rewrite Hgrow. mstep. clear Hgrow.
  assert (is_u 32 tail /\ is_u 32 (total + 4)) as [Htl Htot] by (unfold is_u, tail, total; lia).
  rewrite entry_tail by done. mstep.
  set (tail' := 10 + zlen P + last_ofs (it0 :: (true, it1.2) :: rest)).
  assert ((if negb (tail =? 10 + zlen P + r0) then move_tail_offset (hdr (total + 4) tail count ++ (P ++ chunk pv it0 ++ chunk old it1 ++ R) ++ J ++ [255]) 4
           else Some (hdr (total + 4) tail count ++ (P ++ chunk pv it0 ++ chunk old it1 ++ R) ++ J ++ [255]))
          = Some (hdr (total + 4) tail' count ++ (P ++ chunk pv it0 ++ chunk old it1 ++ R) ++ J ++ [255])) as ->.
  { unfold tail, tail'. rewrite !(last_ofs_cons it0) by done. destruct rest as [|it2 rest'].
    - simpl last_ofs. rewrite (proj2 (Z.eqb_eq _ _)) by lia. done.
    - rewrite !(last_ofs_cons _ (it2 :: rest')) by done. pose proof (last_ofs_bound (it2 :: rest')).
      rewrite (proj2 (Z.eqb_neq _ _)) by lia. cbn [negb].
      assert (rawlen (true, it1.2) = rawlen it1 + 4) as -> by (rewrite Hr1; unfold rawlen, psize; simpl; lia).
      unfold is_u, total, tail in *. rewrite !(last_ofs_cons it0), !(last_ofs_cons _ (it2 :: rest')) in * by done. cbn [size] in *.
      rewrite move_tail by (unfold is_u; lia). do 2 f_equal. f_equal. lia. }
  mstep. clear He0 He1 Hb' Hbe.
  replace (hdr (total + 4) tail' count ++ (P ++ chunk pv it0 ++ chunk old it1 ++ R) ++ J ++ [255])
    with ((hdr (total + 4) tail' count ++ P ++ chunk pv it0 ++ [old]) ++ (body it1.2 ++ R) ++ J ++ [255]).
  2: { unfold chunk, prev_field. rewrite Hb. by rewrite <- !app_assoc. }
  destruct (zl_memmove_up (hdr (total + 4) tail' count ++ P ++ chunk pv it0 ++ [old]) (body it1.2 ++ R) J [255] (10 + zlen P + r0 + 1))
    as (X & Hmv & HX); [zlia|].
  rewrite (uN_small 64) by (unfold total; lia).
  replace (10 + zlen P + r0 + 5) with (10 + zlen P + r0 + 1 + zlen J) by lia.
  replace (total - (10 + zlen P + r0) - 1 - 1) with (zlen (body it1.2 ++ R)) by (unfold total; zlia).
  rewrite Hmv. mstep. clear Hmv.
  replace ((hdr (total + 4) tail' count ++ P ++ chunk pv it0 ++ [old]) ++ X ++ (body it1.2 ++ R) ++ [255])
    with ((hdr (total + 4) tail' count ++ P ++ chunk pv it0) ++ (old :: X) ++ (body it1.2 ++ R) ++ [255])
    by (by rewrite <- !app_assoc).
  rewrite store_prevlen; [mstep|lia| |zlia].
  2: { rewrite Hps. zlia. }
  rewrite (proj2 (Z.leb_le 254 r0)) by lia. unfold chunk. by rewrite <- !app_assoc.
Qed.
End Turn.

Lemma cascade_loop_spec its : forall fuel P pv it0 old count,
  0 <= pv < 2 ^ 32 -> (it0.1 = false -> pv < 254) -> is_u 16 count -> 0 <= old < 2 ^ 32 -> items_ok old its ->
  11 + zlen P + rawlen it0 + size (widen (rawlen it0) its) < 2 ^ 32 -> (length its < fuel)%nat ->
  cascade_loop fuel (hdr (11 + zlen P + rawlen it0 + size its) (10 + zlen P + last_ofs (it0 :: its)) count
                     ++ P ++ chunk pv it0 ++ rend old its ++ [255])
    (10 + zlen P) (11 + zlen P + rawlen it0 + size its) =
  Some (hdr (11 + zlen P + rawlen it0 + size (widen (rawlen it0) its)) (10 + zlen P + last_ofs (it0 :: widen (rawlen it0) its)) count
        ++ P ++ chunk pv it0 ++ rend (rawlen it0) (widen (rawlen it0) its) ++ [255]).
Proof.
  induction its as [|it1 rest IH]; intros fuel P pv it0 old count Hpv Hit0 Hcount Hold Hok Hsz Hf;
    (destruct fuel as [|fuel]; [simpl in Hf; lia|]); cbn [cascade_loop];
    pose proof (rawlen_pos it0); zlen_pos.
  - set (zl := hdr _ _ _ ++ _). destruct (not_end_at zl (hdr (11 + zlen P + rawlen it0 + size []) (10 + zlen P + last_ofs [it0]) count ++ P) [255] pv it0 (10 + zlen P))
      as (b & -> & Hb); [unfold zl; zside|zside|done..|]. mstep. rewrite Hb. unfold zl.
    cbn [widen rend size] in *. rewrite turn_last by (done || lia). done.
  - cbn [items_ok] in Hok. destruct Hok as [Hit1 Hok].
    pose proof (widen_size (rawlen it0) (it1 :: rest)) as Hws. cbn [size] in Hws. pose proof (rawlen_pos it1). pose proof (size_nonneg rest).
    set (zl := hdr _ _ _ ++ _).
    destruct (not_end_at zl (hdr (11 + zlen P + rawlen it0 + size (it1 :: rest)) (10 + zlen P + last_ofs (it0 :: it1 :: rest)) count ++ P)
      (rend old (it1 :: rest) ++ [255]) pv it0 (10 + zlen P)) as (b & -> & Hb); [unfold zl; zside|zside|done..|].
    mstep. rewrite Hb. unfold zl. cbn [widen rend] in *. destruct (it1.1 || (rawlen it0 <? 254)) eqn:Efit.
    + cbn [size] in Hsz. rewrite turn_stop; try done; zlia.
    + apply orb_false_iff in Efit as [Eb Er]. boolsimp.
      assert (rawlen (true, it1.2) = rawlen it1 + 4) as Hr1 by (unfold rawlen, psize; rewrite Eb; simpl; lia).
      cbn [size] in *. pose proof (widen_size (rawlen (true, it1.2)) rest).
      rewrite <- app_assoc. pose proof (turn_grow P pv it0 count Hpv Hit0 it1 rest old Hold Hit1) as Hg. cbv zeta in Hg. cbn [size] in Hg.
      rewrite <- !app_assoc in Hg. rewrite Hg; [mstep|lia|done|done]. clear Hg.
      pose proof (IH fuel (P ++ chunk pv it0) (rawlen it0) (true, it1.2) (rawlen it1) count) as Hi.
      replace (10 + zlen P + rawlen it0) with (10 + zlen (P ++ chunk pv it0)) by zlia.
      replace (11 + zlen P + rawlen it0 + (rawlen it1 + size rest) + 4)
        with (11 + zlen (P ++ chunk pv it0) + rawlen (true, it1.2) + size rest) by zlia.
      replace (10 + zlen P + last_ofs (it0 :: (true, it1.2) :: rest))
        with (10 + zlen (P ++ chunk pv it0) + last_ofs ((true, it1.2) :: rest)) by (rewrite (last_ofs_cons it0) by done; zlia).
      rewrite <- !app_assoc in Hi. rewrite Hi; [|lia|done|done|lia|done|zlia|simpl in Hf; lia].
      rewrite (last_ofs_cons it0) by done. f_equal. f_equal; [f_equal; zlia|]. cbn [rend]. by rewrite <- ?app_assoc.
Qed.

Lemma cascade_spec its P pv it0 old count :
  0 <= pv < 2 ^ 32 -> (it0.1 = false -> pv < 254) -> is_u 16 count -> 0 <= old < 2 ^ 32 -> items_ok old its ->
  11 + zlen P + rawlen it0 + size (widen (rawlen it0) its) < 2 ^ 32 ->
  __ziplistCascadeUpdate (hdr (11 + zlen P + rawlen it0 + size its) (10 + zlen P + last_ofs (it0 :: its)) count
                     ++ P ++ chunk pv it0 ++ rend old its ++ [255]) (10 + zlen P) =
  Some (hdr (11 + zlen P + rawlen it0 + size (widen (rawlen it0) its)) (10 + zlen P + last_ofs (it0 :: widen (rawlen it0) its)) count
        ++ P ++ chunk pv it0 ++ rend (rawlen it0) (widen (rawlen it0) its) ++ [255]).
Proof.
  intros Hpv Hit0 Hcount Hold Hok Hsz. unfold __ziplistCascadeUpdate.
  pose proof (widen_size (rawlen it0) its). pose proof (size_nonneg its). pose proof (rawlen_pos it0). zlen_pos.
  pose proof (last_ofs_bound (it0 :: its)) as Hlo. cbn [size] in Hlo.
  rewrite get_bytes by (unfold is_u; lia). mstep. rewrite intrev32ifbe_unrep by (unfold is_u; lia). mstep.
  apply cascade_loop_spec; try done.
  rewrite !length_app. pose proof (zlen_rend old its). unfold zlen in *. lia.
Qed.
End Ops.
