(* ===== verification/ZiplistUpdate.v ===== *)
(** * Ziplists: insertion *)

From Stdlib Require Import ZArith Lia.
From stdpp Require Import base numbers option list.
From S2P Require Import Prelude Memory Bits Endian Util UtilFacts Ziplist ZiplistFacts ZiplistOps.

Local Open Scope Z_scope.
Local Open Scope redis_scope.

(** The items after the insertion of [s] between [l1] and [l2]. *)
Definition ins (l1 : list item) (s : bytes) (l2 : list item) : list item :=
  let it := (254 <=? lastlen 0 l1, s) in
  l1 ++ it ::
  match l2 with
  | [] => []
  | it2 :: rest => let it2' := (it2.1 && (rawlen it <? 4) || (254 <=? rawlen it), it2.2) in
                   it2' :: widen (rawlen it2') rest
  end.

(** The items after the removal of what was between [l1] and [l2]. *)
Definition del (l1 l2 : list item) : list item :=
  l1 ++ match l2 with
        | [] => []
        | it2 :: rest => let it2' := (254 <=? lastlen 0 l1, it2.2) in it2' :: widen (rawlen it2') rest
        end.

Lemma ins_strings l1 s l2 : map snd (ins l1 s l2) = map snd l1 ++ s :: map snd l2.
Proof. unfold ins. rewrite map_app. destruct l2; [done|]. simpl. by rewrite widen_strings. Qed.
Lemma del_strings l1 l2 : map snd (del l1 l2) = map snd l1 ++ map snd l2.
Proof. unfold del. rewrite map_app. destruct l2; [done|]. simpl. by rewrite widen_strings. Qed.

Lemma rawlen_pair b s : rawlen (b, s) = (if b then 5 else 1) + zlen (body s).
Proof. done. Qed.

Lemma ins_ok l1 s l2 : items_ok 0 (l1 ++ l2) -> items_ok 0 (ins l1 s l2).
Proof.
  unfold ins. rewrite !items_ok_app. intros [H1 H2]. split; [done|]. split; [intros ?%Z.leb_gt; simpl in *; lia|].
  destruct l2 as [|it2 rest]; [done|]. destruct H2 as [_ Hr]. split.
  - simpl. intros [_ ?]%orb_false_iff. boolsimp. done.
  - by eapply widen_ok.
Qed.
Lemma del_ok l1 d l2 : items_ok 0 (l1 ++ d ++ l2) -> items_ok 0 (del l1 l2).
Proof.
  unfold del. rewrite !items_ok_app. intros (H1 & H2 & H3). split; [done|].
  destruct l2 as [|it2 rest]; [done|]. destruct H3 as [_ Hr]. split.
  - simpl. intros ?%Z.leb_gt. lia.
  - by eapply widen_ok.
Qed.

Lemma ins_size l1 s l2 : size (ins l1 s l2) <= size (l1 ++ l2) + zlen s + 14 + 4 * zlen l2.
Proof.
  unfold ins. rewrite !size_app. cbn [size]. rewrite rawlen_pair. pose proof (zlen_body_le s).
  destruct l2 as [|it2 rest]; [simpl; casif; zlia|]. cbn [size]. rewrite rawlen_pair.
  match goal with |- context [widen ?q rest] => pose proof (widen_size q rest) end.
  assert (rawlen it2 = psize it2 + zlen (body it2.2)) by done. pose proof (psize_bound it2). rewrite zlen_cons. repeat casif; lia.
Qed.
Lemma del_size l1 d l2 : d <> [] -> size (del l1 l2) <= size (l1 ++ d ++ l2) + 2 + 4 * zlen l2.
Proof.
  intros Hd. unfold del. rewrite !size_app. pose proof (size_nonneg d). destruct d as [|it d]; [done|]. rewrite zlen_cons in *.
  pose proof (zlen_nonneg d).
  cbn [size] in *. destruct l2 as [|it2 rest]; [cbn [size]; zlia|]. cbn [size] in *. rewrite rawlen_pair.
  match goal with |- context [widen ?q rest] => pose proof (widen_size q rest) end.
  assert (rawlen it2 = psize it2 + zlen (body it2.2)) by done. pose proof (psize_bound it2). rewrite zlen_cons. repeat casif; lia.
Qed.

Section Update.
Context `{Host} `{Alloc}.

(** [memmove] when source and destination are known parts of the block *)
Lemma memmove_parts m A M C A' M' C' dst src n :
  m = A ++ M ++ C -> m = A' ++ M' ++ C' -> src = zlen A -> dst = zlen A' -> n = zlen M -> zlen M' = zlen M ->
  memmove m dst src n = Some (A' ++ M ++ C').
Proof.
  intros Hm Hm' -> -> -> HM. unfold memmove. rewrite Hm at 1. rewrite load_app by done. mstep.
  rewrite Hm'. by apply store_app.
Qed.

(** ** Writing an entry *)

Lemma insert_encoding s :
  zlen s < 2 ^ 32 ->
  exists value e, match zipTryEncoding s with Some ve => ve | None => (123456789, 0) end = (value, e) /\
    entry_encoding e (zlen s) = hdr_of s /\
    match zipTryEncoding s with Some _ => zipIntSize e | None => Some (zlen s) end = Some (zlen (data_of s)) /\
    (forall A D C p, zlen D = zlen (data_of s) -> p = zlen A ->
      (if ZIP_IS_STR e then store (A ++ D ++ C) p s else zipSaveInteger (A ++ D ++ C) p value e) = Some (A ++ data_of s ++ C)).
Proof.
  intros Hs. rewrite zipTryEncoding_eq. unfold hdr_of, data_of. destruct (string2ll s) as [v|] eqn:E.
  - exists v, (int_enc v). split; [done|]. split; [apply entry_encoding_int|]. split; [apply zipIntSize_eq|].
    intros. rewrite int_enc_not_str. by apply save_integer.
  - exists 123456789, 0. split; [done|]. split; [apply entry_encoding_str; zlia|]. split; [done|].
    intros A D C p HD ->. change (ZIP_IS_STR 0) with true. cbv iota. by apply store_app.
Qed.

Section WriteEntry.
Context (s : bytes) (prev : Z) (Hprev : 0 <= prev).
Abbreviation it := (254 <=? prev, s).

Lemma write_entry (k : bytes -> option bytes) A D C e (value : Z) p :
  entry_encoding e (zlen s) = hdr_of s ->
  (forall A D C p, zlen D = zlen (data_of s) -> p = zlen A ->
      (if ZIP_IS_STR e then store (A ++ D ++ C) p s else zipSaveInteger (A ++ D ++ C) p value e) = Some (A ++ data_of s ++ C)) ->
  zlen D = rawlen it -> p = zlen A ->
  (let! (zl, n) := zipStorePrevEntryLength (A ++ D ++ C) p prev in
   let p := p + n in
   let! (zl, n) := zipStoreEntryEncoding zl p e (zlen s) in
   let p := p + n in
   let! zl := (if ZIP_IS_STR e then store zl p s else zipSaveInteger zl p value e) in
   k zl) = k (A ++ chunk prev it ++ C).
Proof.
  intros He Hw HD ->. pose proof (zlen_hdr_of s).
  assert (rawlen it = prev_entry_length_size prev + zlen (hdr_of s) + zlen (data_of s)) as Hraw.
  { rewrite prev_size_field, zlen_prev_field, rawlen_pair. unfold body. rewrite zlen_app. lia. }
  assert (1 <= prev_entry_length_size prev) by (unfold prev_entry_length_size; casif; lia).
  destruct (split_range D 0 (prev_entry_length_size prev)) as (N & D1 & D' & -> & HN & HD1); [zlia..|].
  apply zlen_0_inv in HN as ->. cbn [app] in *. rewrite zlen_app in HD.
  destruct (split_range D' 0 (zlen (hdr_of s))) as (N & D2 & D3 & -> & HN & HD2); [zlia..|].
  apply zlen_0_inv in HN as ->. cbn [app] in *. rewrite zlen_app in HD.
  replace (A ++ (D1 ++ D2 ++ D3) ++ C) with (A ++ D1 ++ (D2 ++ D3 ++ C)) by by rewrite <- !app_assoc.
  rewrite store_prevlen by done. mstep. unfold zipStoreEntryEncoding. rewrite He.
  rewrite (app_assoc A), (store_app (A ++ prev_field _ prev)); [mstep|by rewrite prev_size_field; zlia|done].
  rewrite (app_assoc (A ++ prev_field _ prev)).
  rewrite (Hw (_ ++ hdr_of s) D3 C); [|lia|by rewrite prev_size_field; zlia].
  unfold chunk, body. simpl. by rewrite <- !app_assoc.
Qed.
End WriteEntry.

(** The length of the last entry, as the code finds it from the tail offset *)
Lemma zl_tail_length l1 count :
  items_ok 0 l1 -> 11 + size l1 < 2 ^ 32 -> is_u 16 count ->
  let zl := hdr (11 + size l1) (10 + last_ofs l1) count ++ rend 0 l1 ++ [255] in
  (let! ptail := ZIPLIST_ENTRY_TAIL zl in
   let! t := load1 zl ptail in
   if negb (t =? ZIP_END) then zipRawEntryLength zl ptail else Some 0) = Some (lastlen 0 l1).
Proof.
  intros Hok Hsz Hc. cbv zeta. pose proof (last_ofs_bound l1). pose proof (size_nonneg l1). zlen_pos.
  rewrite entry_tail by (unfold is_u; lia). mstep.
  destruct (decide (l1 = [])) as [->|Hne].
  { assert (load1 (hdr (11 + size []) (10 + last_ofs []) count ++ rend 0 [] ++ [255]) (10 + last_ofs []) = Some 255) as ->; [|done].
    apply (end_at (hdr _ _ _) []). by rewrite zlen_ziphdr. }
  destruct (exists_last Hne) as (l & it & ->). rewrite items_ok_app in Hok. destruct Hok as [Hok1 [Hit _]].
  rewrite rend_app, lastlen_app. cbn [rend lastlen]. rewrite app_nil_r. rewrite last_ofs_app, size_app in * by done. cbn [last_ofs size] in *.
  pose proof (lastlen_bound 0 l ltac:(lia)). pose proof (size_nonneg l). pose proof (rawlen_pos it). zlen_pos.
  set (h := hdr _ _ _).
  destruct (not_end_at (h ++ (rend 0 l ++ chunk (lastlen 0 l) it) ++ [255]) (h ++ rend 0 l) [255] (lastlen 0 l) it (10 + (size l + 0)))
    as (b & Hb & Hbe); [zside|unfold h; zlia|done|]. rewrite Hb. mstep. rewrite Hbe. cbn [negb].
  apply (raw_at _ (h ++ rend 0 l) [255] (lastlen 0 l)); [zside|unfold h; zlia|lia|done|lia].
Qed.

Lemma insert_tail l1 count s :
  items_ok 0 l1 -> 11 + size (ins l1 s []) < 2 ^ 32 -> count_ok count l1 -> zlen s < 2 ^ 32 ->
  exists count', count_ok count' (ins l1 s []) /\
  __ziplistInsert (hdr (11 + size l1) (10 + last_ofs l1) count ++ rend 0 l1 ++ [255]) (10 + size l1) s =
  Some (hdr (11 + size (ins l1 s [])) (10 + last_ofs (ins l1 s [])) count' ++ rend 0 (ins l1 s []) ++ [255]).
Proof.
  intros Hok Hsz Hcount Hs. pose proof (count_ok_u16 _ _ Hcount) as Hc16. unfold ins in *.
  rewrite size_app, last_ofs_app, rend_app in * by done. cbn [size last_ofs rend] in *. rewrite !app_nil_r in *.
  set (prev := lastlen 0 l1) in *. set (it := (254 <=? prev, s)) in *.
  pose proof (last_ofs_bound l1). pose proof (size_nonneg l1). pose proof (rawlen_pos it). zlen_pos.
  pose proof (lastlen_bound 0 l1 ltac:(lia)) as Hprev. fold prev in Hprev.
  unfold __ziplistInsert. rewrite get_bytes by (unfold is_u; lia). mstep. rewrite intrev32ifbe_unrep by (unfold is_u; lia). mstep.
  assert (load1 (hdr (11 + size l1) (10 + last_ofs l1) count ++ rend 0 l1 ++ [255]) (10 + size l1) = Some 255) as ->.
  { rewrite app_assoc. apply (end_at _ []). zlia. }
  mstep. change (255 =? ZIP_END) with true. cbn [negb].
  pose proof (zl_tail_length l1 count Hok ltac:(lia) Hc16) as Htl. cbv zeta in Htl. rewrite Htl. mstep. clear Htl. fold prev.
  destruct (insert_encoding s Hs) as (value & e & Hve & Hee & Hreq & Hw). rewrite Hve, Hreq. mstep.
  assert (zlen (data_of s) + prev_entry_length_size prev + zlen (entry_encoding e (zlen s)) = rawlen it) as ->.
  { rewrite Hee, prev_size_field, zlen_prev_field. unfold it. rewrite rawlen_pair. unfold body. rewrite zlen_app. lia. }
  change (0 =? -4) with false. cbn [andb]. cbv iota. rewrite (Z.add_0_r (11 + size l1 + rawlen it)).
  destruct (resize_grow (11 + size l1) (10 + last_ofs l1) count (rend 0 l1) (rawlen it)) as (J & Hrs & HJ & HJ255);
    [unfold is_u; zlia|lia|]. rewrite zlen_rend in Hrs. rewrite Hrs. mstep. clear Hrs.
  destruct HJ255 as [J' HJ']; [lia|].
  assert (load1 (hdr (11 + size l1 + rawlen it) (10 + last_ofs l1) count ++ rend 0 l1 ++ J ++ [255]) (10 + size l1) = Some 255) as ->.
  { rewrite app_assoc, HJ'. apply load1_app. zlia. }
  mstep. change (255 =? ZIP_END) with true. cbn [negb]. rewrite (uN_small 32) by lia. rewrite intrev32ifbe_rep. mstep.
  rewrite put_tail. mstep. change (0 =? 0) with true. cbn [negb]. mstep.
  pose proof (write_entry s prev ltac:(lia) (fun zl => ZIPLIST_INCR_LENGTH zl 1) (hdr (11 + size l1 + rawlen it) (10 + size l1) count ++ rend 0 l1)
    J [255] e value (10 + size l1) Hee Hw HJ ltac:(zlia)) as Hwe. cbv zeta in Hwe. rewrite <- !app_assoc in Hwe. rewrite Hwe. clear Hwe.
  exists (if count <? 65535 then count + 1 else count). split.
  - unfold count_ok in *. autorewrite with zlen. casif; lia.
  - rewrite incr_length by (first [done | unfold count_ok, is_u in *; lia]).
    f_equal. f_equal; [f_equal; lia|]. by rewrite <- app_assoc.
Qed.

(** ** The entry after the change *)

(** [it'] is the entry [it] with another width of its first field. *)
Section Next.
Context (it it' : item) (rest : list item).
Context (Hstr : it'.2 = it.2).
Abbreviation nd := (psize it' - psize it).

Lemma rawlen_diff : rawlen it' = rawlen it + nd.
Proof. unfold rawlen. rewrite Hstr. lia. Qed.

Lemma last_ofs_diff : last_ofs (it' :: rest) = last_ofs (it :: rest) + (if decide (rest = []) then 0 else nd).
Proof. destruct rest; [done|]. rewrite decide_False by done. rewrite (last_ofs_cons it), (last_ofs_cons it') by done. rewrite rawlen_diff. lia. Qed.

(** The byte after [it']: the end, or the next entry *)
Lemma after_entry Q pv r total tail count :
  (forall it2 rest', rest = it2 :: rest' -> it2.1 = false -> r < 254) -> 0 <= r < 2 ^ 32 ->
  exists b, load1 (hdr total tail count ++ Q ++ chunk pv it' ++ rend r rest ++ [255]) (10 + zlen Q + rawlen it') = Some b /\
    (b =? ZIP_END) = bool_decide (rest = []).
Proof.
  intros Hr Hr'. destruct rest as [|it2 rest'].
  - exists 255. split; [|done]. rewrite !app_assoc. apply (end_at _ []). zlia.
  - cbn [rend]. destruct (not_end_at (hdr total tail count ++ Q ++ chunk pv it' ++ (chunk r it2 ++ rend (rawlen it2) rest') ++ [255])
      (hdr total tail count ++ Q ++ chunk pv it') (rend (rawlen it2) rest' ++ [255]) r it2 (10 + zlen Q + rawlen it')) as (b & Hb & He);
      [zside|zlia|by eapply Hr|]. exists b. split; [done|]. by rewrite bool_decide_false.
Qed.

(** The adjustment of the tail offset when the entry is not the last *)
Lemma adjust_tail base Q R total count b :
  is_u 32 total -> is_u 16 count -> is_u 32 (base + last_ofs (it :: rest)) -> is_u 32 (base + last_ofs (it' :: rest)) ->
  (b =? ZIP_END) = bool_decide (rest = []) ->
  (if negb (b =? ZIP_END) then move_tail_offset (hdr total (base + last_ofs (it :: rest)) count ++ Q ++ R) nd
   else Some (hdr total (base + last_ofs (it :: rest)) count ++ Q ++ R)) =
  Some (hdr total (base + last_ofs (it' :: rest)) count ++ Q ++ R).
Proof.
  intros Ht Hc Hb Hb' ->. pose proof last_ofs_diff as Hd. destruct (decide (rest = [])) as [Hr|Hr].
  - rewrite bool_decide_true by done. cbn [negb]. by rewrite Hd, Z.add_0_r.
  - rewrite bool_decide_false by done. cbn [negb]. rewrite Hd in *. rewrite move_tail; [do 3 f_equal; lia|done..|].
    by replace (base + last_ofs (it :: rest) + nd) with (base + (last_ofs (it :: rest) + nd)) by lia.
Qed.

Lemma cascade_if P pv count :
  0 <= pv < 2 ^ 32 -> (it'.1 = false -> pv < 254) -> is_u 16 count -> items_ok (rawlen it) rest -> rawlen it < 2 ^ 32 ->
  11 + zlen P + rawlen it' + size (widen (rawlen it') rest) < 2 ^ 32 ->
  (if negb (nd =? 0) then
     __ziplistCascadeUpdate (hdr (11 + zlen P + rawlen it' + size rest) (10 + zlen P + last_ofs (it' :: rest)) count
                             ++ P ++ chunk pv it' ++ rend (rawlen it) rest ++ [255]) (10 + zlen P)
   else Some (hdr (11 + zlen P + rawlen it' + size rest) (10 + zlen P + last_ofs (it' :: rest)) count
              ++ P ++ chunk pv it' ++ rend (rawlen it) rest ++ [255])) =
  Some (hdr (11 + zlen P + rawlen it' + size (widen (rawlen it') rest)) (10 + zlen P + last_ofs (it' :: widen (rawlen it') rest)) count
        ++ P ++ chunk pv it' ++ rend (rawlen it') (widen (rawlen it') rest) ++ [255]).
Proof.
  intros Hpv Hit' Hc Hok Hr Hsz. pose proof (rawlen_pos it). destruct (nd =? 0) eqn:E; boolsimp; cbn [negb].
  - pose proof rawlen_diff as Hd. rewrite E, Z.add_0_r in Hd. rewrite Hd in *. by rewrite widen_fits.
  - by apply cascade_spec; [..|lia|done|].
Qed.
End Next.

(** ** Insertion before an entry *)

Section Gap.
Context (B R J : bytes) (prev req : Z) (it it' : item) (force : bool).
Context (HB : 4 <= zlen B) (Hstr : it'.2 = it.2) (Hreq : 2 <= req < 2 ^ 32).
Context (Hforce : force = true -> it'.1 = true) (Hnof : force = false -> it'.1 = (254 <=? req)).
Abbreviation nd := (psize it' - psize it).
Context (HJ : zlen J = req + nd).

(** The bytes at and after the gap, and the new first field of the next entry *)
Lemma open_gap (k : bytes -> option bytes) n :
  n = rawlen it + zlen R + nd ->
  exists X, zlen X = req /\
  (let! zl := memmove (B ++ (chunk prev it ++ R) ++ J ++ [255]) (zlen B + req) (zlen B - nd) n in
   let! zl := (if force then zipStorePrevEntryLengthLarge zl (zlen B + req) (u32 req)
               else let! (zl, _) := zipStorePrevEntryLength zl (zlen B + req) (u32 req) in Some zl) in
   k zl) = k (B ++ X ++ chunk req it' ++ R ++ [255]).
Proof.
  intros ->. pose proof (psize_bound it). pose proof (psize_bound it'). zlen_pos.
  assert (zlen (prev_field it.1 prev) = psize it) as Hpf by by rewrite zlen_prev_field.
  assert (zlen (body it.2) = rawlen it - psize it) as Hbd by (unfold rawlen; lia).
  destruct (split_range (B ++ prev_field it.1 prev) (zlen B - nd) (psize it')) as (A0 & F & E & HF & HA0 & HFl); [rewrite ?zlen_app; lia..|].
  assert (E = []) as -> by (apply zlen_0_inv; apply (f_equal zlen) in HF; rewrite !zlen_app in HF; lia). rewrite app_nil_r in HF.
  destruct (split_range ((chunk prev it ++ R) ++ J) 0 req) as (N & X & M' & HX & HN & HXl); [unfold nd in *; zlia..|].
  apply zlen_0_inv in HN as ->. cbn [app] in HX. exists X. split; [done|].
  rewrite (memmove_parts _ A0 (F ++ body it.2 ++ R) (J ++ [255]) (B ++ X) M' [255]).
  - mstep. rewrite (uN_small 32) by lia. rewrite <- !app_assoc, (app_assoc B).
    unfold chunk. rewrite Hstr. destruct force eqn:Ef.
    + specialize (Hforce eq_refl).
      assert (zlen F = 5) as HF5 by (rewrite HFl; unfold psize; by rewrite Hforce).
      rewrite store_prevlen_large by (done || zlia). mstep. rewrite Hforce.
      by rewrite <- !app_assoc.
    + specialize (Hnof eq_refl). rewrite store_prevlen; [mstep|lia| |zlia].
      * rewrite Hnof. by rewrite <- !app_assoc.
      * rewrite prev_size_field, zlen_prev_field, HFl. unfold psize. by rewrite Hnof.
  - unfold chunk. rewrite <- !app_assoc. rewrite (app_assoc B), HF. by rewrite <- !app_assoc.
  - rewrite (app_assoc (chunk prev it ++ R)), HX. by rewrite <- !app_assoc.
  - lia.
  - zlia.
  - rewrite !zlen_app. lia.
  - apply (f_equal zlen) in HX. rewrite !zlen_app, zlen_chunk in *. lia.
Qed.
End Gap.

Section InsertMid.
Context (l1 rest : list item) (it2 : item) (s : bytes).
Abbreviation prev := (lastlen 0 l1).
Abbreviation it := (254 <=? prev, s).
Abbreviation it2' := (it2.1 && (rawlen it <? 4) || (254 <=? rawlen it), it2.2).
Abbreviation nd := (psize it2' - psize it2).

(** [nextdiff] and [forcelarge] as the code computes them *)
Lemma insert_nextdiff :
  let nextdiff := prev_entry_length_size (rawlen it) - psize it2 in
  let force := (nextdiff =? -4) && (rawlen it <? 4) in
  (if force then 0 else nextdiff) = nd /\ (force = true -> it2'.1 = true) /\ (force = false -> it2'.1 = (254 <=? rawlen it)).
Proof.
  cbv zeta. unfold prev_entry_length_size, ZIP_BIG_PREVLEN, psize. rewrite Z.ltb_antisym. simpl.
  destruct (254 <=? rawlen it) eqn:E254, it2.1 eqn:Eb; boolsimp; simpl; try (destruct (rawlen it <? 4) eqn:E4; boolsimp; simpl);
    (lia || (split; [done|split; done])).
Qed.

Lemma insert_mid_start count :
  let l2 := it2 :: rest in
  items_ok 0 (l1 ++ l2) -> 11 + size (l1 ++ l2) < 2 ^ 32 -> 0 <= rawlen it < 2 ^ 32 ->
  let zl := hdr (11 + size (l1 ++ l2)) (10 + last_ofs (l1 ++ l2)) count ++ rend 0 (l1 ++ l2) ++ [255] in
  exists b, load1 zl (10 + size l1) = Some b /\ (b =? ZIP_END) = false /\
    ZIP_DECODE_PREVLEN zl (10 + size l1) = Some (psize it2, prev) /\
    zipPrevLenByteDiff zl (10 + size l1) (u32 (rawlen it)) = Some (prev_entry_length_size (rawlen it) - psize it2).
Proof.
  cbv zeta. rewrite items_ok_app, size_app, rend_app. intros [Hok1 [Hit2 Hok2]] Hsz Hreq. cbn [size rend] in *.
  pose proof (lastlen_bound 0 l1 ltac:(lia)) as Hprev. pose proof (size_nonneg l1). pose proof (size_nonneg rest). pose proof (rawlen_pos it2). zlen_pos.
  set (h := hdr _ _ _). assert (zlen h = 10) by apply zlen_ziphdr.
  assert (h ++ (rend 0 l1 ++ chunk prev it2 ++ rend (rawlen it2) rest) ++ [255] =
    (h ++ rend 0 l1) ++ chunk prev it2 ++ (rend (rawlen it2) rest ++ [255])) as Hzl by zside.
  destruct (not_end_at _ _ _ prev it2 (10 + size l1) Hzl) as (b & Hb & Hbe); [zlia|done|].
  exists b. split; [done|]. split; [done|]. split.
  - apply (prevlen_at _ _ _ _ _ _ Hzl); [zlia|lia|done].
  - rewrite uN_small by lia. apply (diff_at _ _ _ _ _ _ Hzl); [zlia|lia|done].
Qed.

Lemma insert_grows : rawlen it + nd >= 0.
Proof.
  pose proof (rawlen_pos it). unfold psize. cbn [fst]. destruct it2.1 eqn:Eb, (254 <=? rawlen it) eqn:E, (rawlen it <? 4) eqn:E4; boolsimp; cbn; lia.
Qed.

(** The gap is opened and the entry after it and the tail offset are adjusted. *)
Lemma insert_move (k : bytes -> option bytes) count J force nextdiff reqlen :
  items_ok 0 (l1 ++ it2 :: rest) -> 11 + size (l1 ++ it2 :: rest) + rawlen it + 4 < 2 ^ 32 -> is_u 16 count ->
  zlen J = rawlen it + nd -> (force = true -> it2'.1 = true) -> (force = false -> it2'.1 = (254 <=? rawlen it)) ->
  nextdiff = nd -> reqlen = rawlen it ->
  let total := 11 + size (l1 ++ it2 :: rest) + rawlen it + nd in
  let zl := hdr total (10 + last_ofs (l1 ++ it2 :: rest)) count ++ (rend 0 l1 ++ chunk prev it2 ++ rend (rawlen it2) rest) ++ J ++ [255] in
  let p := 10 + size l1 in
  exists X, zlen X = rawlen it /\
  (let! zl := memmove zl (p + reqlen) (p - nextdiff) (u64 (11 + size (l1 ++ it2 :: rest) - p - 1 + nextdiff)) in
   let! zl := (if (force : bool) then zipStorePrevEntryLengthLarge zl (p + reqlen) (u32 reqlen)
               else let! (zl, _) := zipStorePrevEntryLength zl (p + reqlen) (u32 reqlen) in Some zl) in
   k zl) =
  k (hdr total (10 + last_ofs (l1 ++ it2 :: rest)) count ++ rend 0 l1 ++ X ++ chunk (rawlen it) it2' ++ rend (rawlen it2) rest ++ [255]).
Proof.
  intros Hok Hsz Hc HJ Hf Hnf -> ->. cbv zeta. rewrite size_app in *. cbn [size] in *.
  set (h := hdr _ _ _). assert (zlen h = 10) as Hh by apply zlen_ziphdr.
  pose proof (size_nonneg l1). pose proof (size_nonneg rest). pose proof (rawlen_pos it). pose proof (rawlen_pos it2).
  pose proof (psize_bound it2). pose proof (psize_bound it2'). zlen_pos.
  destruct (open_gap (h ++ rend 0 l1) (rend (rawlen it2) rest) J prev (rawlen it) it2 it2' force ltac:(zlia) eq_refl ltac:(lia) Hf Hnf HJ
    k (u64 (11 + (size l1 + (rawlen it2 + size rest)) - (10 + size l1) - 1 + nd))) as (X & HX & Hg).
  { rewrite zlen_rend. assert (rawlen it2 = psize it2 + zlen (body it2.2)) by done. pose proof (zlen_body_bounds it2.2). rewrite uN_small; lia. }
  exists X. split; [done|]. rewrite zlen_app, zlen_rend, Hh in Hg.
  replace (h ++ (rend 0 l1 ++ chunk prev it2 ++ rend (rawlen it2) rest) ++ J ++ [255]) with
    ((h ++ rend 0 l1) ++ (chunk prev it2 ++ rend (rawlen it2) rest) ++ J ++ [255]) by (by rewrite <- !app_assoc).
  rewrite Hg. by rewrite <- !app_assoc.
Qed.

(** The tail offset after the gap was opened *)
Lemma insert_tail_offset count X (total := 11 + size (l1 ++ it2 :: rest) + rawlen it + nd) (p := 10 + size l1) :
  items_ok 0 (l1 ++ it2 :: rest) -> 11 + size (l1 ++ it2 :: rest) + rawlen it + 4 < 2 ^ 32 -> is_u 16 count ->
  zlen X = rawlen it -> 
  (let! zl := move_tail_offset (hdr total (10 + last_ofs (l1 ++ it2 :: rest)) count ++ rend 0 l1 ++ X ++
      chunk (rawlen it) it2' ++ rend (rawlen it2) rest ++ [255]) (rawlen it) in
   let! tail := zipEntry zl (p + rawlen it) in
   let! b := load1 zl (p + (rawlen it + headersize tail + len tail)) in
   if negb (b =? ZIP_END) then move_tail_offset zl nd else Some zl) =
  Some (hdr total (10 + size l1 + rawlen it + last_ofs (it2' :: rest)) count ++ (rend 0 l1 ++ X) ++
      chunk (rawlen it) it2' ++ rend (rawlen it2) rest ++ [255]).
Proof.
  intros Hok Hsz Hc HX. unfold total, p. clear total p. rewrite items_ok_app, size_app in *. cbn [size] in *. destruct Hok as [Hok1 [Hit2 Hok2]].
  rewrite last_ofs_app by done.
  pose proof (size_nonneg l1). pose proof (size_nonneg rest). pose proof (rawlen_pos it). pose proof (rawlen_pos it2).
  pose proof (psize_bound it2). pose proof (psize_bound it2'). zlen_pos. pose proof (last_ofs_bound (it2 :: rest)). cbn [size] in *.
  pose proof (last_ofs_bound (it2' :: rest)). cbn [size] in *. pose proof (rawlen_diff it2 it2' eq_refl). pose proof insert_grows.
  set (total := 11 + _ + _ + nd).
  rewrite (move_tail total); [|unfold is_u; lia..]. mstep.
  assert (it2'.1 = false -> rawlen it < 254) as Hit2'. { cbn. intros [_ ?]%orb_false_iff. by boolsimp. }
  set (h := hdr _ _ _). assert (zlen h = 10) as Hh by apply zlen_ziphdr.
  rewrite (entry_at_ _ (h ++ rend 0 l1 ++ X) (rend (rawlen it2) rest ++ [255]) (rawlen it) it2'); [|zside|zlia|lia|done|lia].
  mstep. cbn [headersize len].
  pose proof (body_sum it2') as Hbs. assert (rawlen it2' = psize it2' + zlen (body it2'.2)) as Hr2 by done.
  destruct (after_entry it2' rest (rend 0 l1 ++ X) (rawlen it) (rawlen it2) total (10 + (size l1 + last_ofs (it2 :: rest)) + rawlen it) count) as (b & Hb & Hbe).
  { intros it3 rest' -> ?. cbn [items_ok] in Hok2. by apply Hok2. } { lia. }
  rewrite <- !app_assoc in Hb. fold h in Hb.
  replace (10 + size l1 + (rawlen it + (psize it2' + zlen (hdr_of it2'.2)) + zlen (data_of it2'.2))) with
    (10 + zlen (rend 0 l1 ++ X) + rawlen it2') by zlia.
  rewrite Hb. mstep. unfold h.
  replace (10 + (size l1 + last_ofs (it2 :: rest)) + rawlen it) with (10 + size l1 + rawlen it + last_ofs (it2 :: rest)) by lia.
  rewrite (app_assoc (rend 0 l1) X). apply adjust_tail; try done; unfold is_u; unfold total; lia.
Qed.

(** The cascade behind the gap, and the new entry in it *)
Lemma insert_finish count X e (value : Z) (p := 10 + size l1) :
  items_ok 0 (l1 ++ it2 :: rest) -> 11 + size (ins l1 s (it2 :: rest)) < 2 ^ 32 -> rawlen it2 < 2 ^ 32 -> count_ok count (l1 ++ it2 :: rest) ->
  entry_encoding e (zlen s) = hdr_of s ->
  (forall A D C p, zlen D = zlen (data_of s) -> p = zlen A ->
      (if ZIP_IS_STR e then store (A ++ D ++ C) p s else zipSaveInteger (A ++ D ++ C) p value e) = Some (A ++ data_of s ++ C)) ->
  zlen X = rawlen it ->
  let zl := hdr (11 + size (l1 ++ it2 :: rest) + rawlen it + nd) (10 + size l1 + rawlen it + last_ofs (it2' :: rest)) count ++
      (rend 0 l1 ++ X) ++ chunk (rawlen it) it2' ++ rend (rawlen it2) rest ++ [255] in
  exists count', count_ok count' (ins l1 s (it2 :: rest)) /\
  (let! zl := (if negb (nd =? 0) then __ziplistCascadeUpdate zl (p + rawlen it) else Some zl) in
   let! (zl, n) := zipStorePrevEntryLength zl p prev in
   let! (zl, n0) := zipStoreEntryEncoding zl (p + n) e (zlen s) in
   let! zl := (if ZIP_IS_STR e then store zl (p + n + n0) s else zipSaveInteger zl (p + n + n0) value e) in
   ZIPLIST_INCR_LENGTH zl 1) =
  Some (hdr (11 + size (ins l1 s (it2 :: rest))) (10 + last_ofs (ins l1 s (it2 :: rest))) count'
        ++ rend 0 (ins l1 s (it2 :: rest)) ++ [255]).
Proof.
  intros Hok Hsz Hr2 Hcount He Hw HX. cbv zeta. unfold p. clear p. pose proof (count_ok_u16 _ _ Hcount) as Hc16.
  pose proof (ins_strings l1 s (it2 :: rest)) as Hstr. apply (f_equal zlen) in Hstr. autorewrite with zlen in Hstr.
  apply items_ok_app in Hok as [Hok1 [Hit2 Hok2]].
  unfold ins in Hsz |- *. rewrite size_app in *. rewrite last_ofs_app by done. rewrite rend_app. cbn [size rend] in *.
  pose proof (rawlen_diff it2 it2' eq_refl) as Hd. pose proof (rawlen_pos it). pose proof (size_nonneg l1). zlen_pos.
  pose proof (lastlen_bound 0 l1 ltac:(lia)) as Hprev. pose proof (rawlen_pos it2'). pose proof (size_nonneg (widen (rawlen it2') rest)).
  pose proof (zlen_nonneg (widen (rawlen it2') rest)).
  assert (it2'.1 = false -> rawlen it < 254) as Hit2'. { cbn. intros [_ ?]%orb_false_iff. by boolsimp. }
  pose proof (cascade_if it2 it2' rest eq_refl (rend 0 l1 ++ X) (rawlen it) count ltac:(lia) Hit2' Hc16 Hok2 Hr2) as Hcas.
  rewrite zlen_app, zlen_rend, HX in Hcas. specialize (Hcas ltac:(lia)).
  replace (11 + (size l1 + (rawlen it2 + size rest)) + rawlen it + nd) with (11 + (size l1 + rawlen it) + rawlen it2' + size rest) by lia.
  rewrite <- (Z.add_assoc 10). rewrite Hcas. mstep. clear Hcas.
  set (h := hdr _ _ _). assert (zlen h = 10) as Hh by apply zlen_ziphdr.
  pose proof (write_entry s prev ltac:(lia) (fun zl => ZIPLIST_INCR_LENGTH zl 1) (h ++ rend 0 l1) X
    (chunk (rawlen it) it2' ++ rend (rawlen it2') (widen (rawlen it2') rest) ++ [255]) e value (10 + size l1) He Hw HX ltac:(zlia)) as Hwe.
  cbv zeta in Hwe. rewrite <- !app_assoc in Hwe. rewrite <- (app_assoc (rend 0 l1)). rewrite Hwe. clear Hwe. unfold h.
  exists (if count <? 65535 then count + 1 else count). split.
  - unfold count_ok, ins in *. autorewrite with zlen in *. casif; lia.
  - rewrite incr_length by (first [done | unfold count_ok, is_u in *; lia]). f_equal. rewrite (last_ofs_cons it) by done.
    f_equal; [f_equal; rewrite ?size_app; cbn [size]; lia|]. by rewrite <- !app_assoc.
Qed.

Lemma insert_mid count :
  items_ok 0 (l1 ++ it2 :: rest) -> 11 + size (l1 ++ it2 :: rest) + rawlen it + 4 < 2 ^ 32 -> 11 + size (ins l1 s (it2 :: rest)) < 2 ^ 32 ->
  count_ok count (l1 ++ it2 :: rest) -> zlen s < 2 ^ 32 ->
  exists count', count_ok count' (ins l1 s (it2 :: rest)) /\
  __ziplistInsert (hdr (11 + size (l1 ++ it2 :: rest)) (10 + last_ofs (l1 ++ it2 :: rest)) count ++ rend 0 (l1 ++ it2 :: rest) ++ [255])
    (10 + size l1) s =
  Some (hdr (11 + size (ins l1 s (it2 :: rest))) (10 + last_ofs (ins l1 s (it2 :: rest))) count'
        ++ rend 0 (ins l1 s (it2 :: rest)) ++ [255]).
Proof.
  intros Hok Hsz0 Hsz Hcount Hs. pose proof (count_ok_u16 _ _ Hcount) as Hc16.
  pose proof (last_ofs_bound (l1 ++ it2 :: rest)) as Hlo. pose proof (rawlen_pos it). pose proof insert_grows as Hgr.
  pose proof (psize_bound it2). pose proof (psize_bound it2').
  assert (0 <= rawlen it < 2 ^ 32) as Hreq by lia.
  destruct (insert_mid_start count Hok ltac:(lia) Hreq) as (b & Hb & Hbe & Hpl & Hdiff).
  destruct insert_nextdiff as (Hnd & Hforce & Hnof).
  set (force := (prev_entry_length_size (rawlen it) - psize it2 =? -4) && (rawlen it <? 4)) in *.
  unfold __ziplistInsert. rewrite get_bytes by (unfold is_u; lia). mstep. rewrite intrev32ifbe_unrep by (unfold is_u; lia). mstep.
  rewrite Hb. mstep. rewrite Hbe. cbn [negb]. rewrite Hpl. mstep.
  destruct (insert_encoding s Hs) as (value & e & Hve & Hee & Hreqe & Hw). rewrite Hve, Hreqe. mstep.
  assert (zlen (data_of s) + prev_entry_length_size prev + zlen (entry_encoding e (zlen s)) = rawlen it) as ->.
  { rewrite Hee, prev_size_field, zlen_prev_field. rewrite rawlen_pair. unfold body. rewrite zlen_app. lia. }
  rewrite Hdiff. mstep. fold force. rewrite Hnd. clear Hb b Hbe Hpl Hdiff.
  pose proof Hok as [Hok1 [Hit2 Hok2]]%items_ok_app. pose proof (lastlen_bound 0 l1 ltac:(lia)) as Hprev.
  rewrite rend_app. cbn [rend].
  destruct (resize_grow (11 + size (l1 ++ it2 :: rest)) (10 + last_ofs (l1 ++ it2 :: rest)) count
    (rend 0 l1 ++ chunk prev it2 ++ rend (rawlen it2) rest) (rawlen it + nd)) as (J & Hrs & HJ & _); [|lia|].
  { unfold is_u. autorewrite with zlen. rewrite size_app in *. cbn [size] in *. lia. }
  assert (11 + zlen (rend 0 l1 ++ chunk prev it2 ++ rend (rawlen it2) rest) + (rawlen it + nd) =
    11 + size (l1 ++ it2 :: rest) + rawlen it + nd) as Etot by (rewrite !zlen_app, !zlen_rend, zlen_chunk, size_app; cbn [size]; lia).
  rewrite Etot in Hrs. rewrite Hrs. mstep. clear Hrs Etot.
  set (total := 11 + size (l1 ++ it2 :: rest) + rawlen it + nd) in *. set (h := hdr total _ count).
  destruct (not_end_at (h ++ (rend 0 l1 ++ chunk prev it2 ++ rend (rawlen it2) rest) ++ J ++ [255])
    (h ++ rend 0 l1) (rend (rawlen it2) rest ++ J ++ [255]) prev it2 (10 + size l1)) as (b & Hb & Hbe); [zside|unfold h; zlia|done|].
  rewrite Hb. mstep. rewrite Hbe. cbn [negb]. clear b Hb Hbe.
  destruct (insert_move (fun zl => let! zl := move_tail_offset zl (rawlen it) in
     let! tail := zipEntry zl (10 + size l1 + rawlen it) in
     let! b := load1 zl (10 + size l1 + (rawlen it + headersize tail + len tail)) in
     if negb (b =? ZIP_END) then move_tail_offset zl nd else Some zl) count J force nd (rawlen it)
     Hok Hsz0 Hc16 HJ Hforce Hnof eq_refl eq_refl) as (X & HX & Hmv). cbv zeta in Hmv. fold total h in Hmv. rewrite Hmv. clear Hmv.
  pose proof (insert_tail_offset count X Hok Hsz0 Hc16 HX) as Hto. cbv zeta in Hto. fold total h in Hto. rewrite Hto. mstep. clear Hto.
  apply insert_finish; try done. rewrite size_app in *. cbn [size] in *. pose proof (size_nonneg l1). pose proof (size_nonneg rest). zlen_pos. lia.
Qed.
End InsertMid.

(** ** Insertion *)

Lemma zl_insert_spec zl l1 l2 s :
  zwf zl (l1 ++ l2) -> 25 + size (l1 ++ l2) + zlen s + 4 * zlen l2 < 2 ^ 32 ->
  exists zl', __ziplistInsert zl (10 + size l1) s = Some zl' /\ zwf zl' (ins l1 s l2).
Proof.
  intros (Hok & Hsz & count & Hcount & ->) Hb. pose proof (ins_size l1 s l2) as Hins.
  pose proof (size_nonneg (l1 ++ l2)). zlen_pos.
  assert (exists count', count_ok count' (ins l1 s l2) /\
    __ziplistInsert (hdr (11 + size (l1 ++ l2)) (10 + last_ofs (l1 ++ l2)) count ++ rend 0 (l1 ++ l2) ++ [255]) (10 + size l1) s =
    Some (hdr (11 + size (ins l1 s l2)) (10 + last_ofs (ins l1 s l2)) count' ++ rend 0 (ins l1 s l2) ++ [255])) as (count' & Hc' & Hi).
  { destruct l2 as [|it2 rest].
    - rewrite app_nil_r in *. apply insert_tail; try done; lia.
    - rewrite zlen_cons in *. apply insert_mid; try done; try lia.
      rewrite rawlen_pair. pose proof (zlen_body_le s). casif; zlia. }
  eexists. split; [exact Hi|]. split; [by apply ins_ok|]. split; [lia|]. by exists count'.
Qed.
End Update.
