(* ===== verification/ZiplistDelete.v ===== *)
(** * Ziplists: deletion *)

From Stdlib Require Import ZArith Lia.
From stdpp Require Import base numbers option list.
From S2P Require Import Prelude Memory Bits Endian Util UtilFacts Ziplist ZiplistFacts ZiplistOps ZiplistUpdate.

Local Open Scope Z_scope.
Local Open Scope redis_scope.

Section Delete.
Context `{Host} `{Alloc}.

(** ** The entries to delete *)

Lemma skip_entries_spec total tail count l1 d l2 fuel i num :
  items_ok 0 (l1 ++ d ++ l2) -> 11 + size (l1 ++ d ++ l2) < 2 ^ 32 ->
  zlen d = num - i \/ l2 = [] /\ zlen d <= num - i -> zlen d < Z.of_nat fuel ->
  skip_entries fuel (hdr total tail count ++ rend 0 (l1 ++ d ++ l2) ++ [255]) (10 + size l1) i num =
  Some (10 + size l1 + size d, i + zlen d).
Proof.
  revert l1 i fuel. induction d as [|it d IH]; intros l1 i fuel Hok Hsz Hnum Hf; zlen_pos; (destruct fuel as [|fuel]; [lia|]); cbn [skip_entries].
  - cbn [app size] in *. rewrite !Z.add_0_r in *. rewrite rend_app. set (h := hdr _ _ _).
    destruct l2 as [|it2 rest].
    + assert (load1 (h ++ (rend 0 l1 ++ rend (lastlen 0 l1) []) ++ [255]) (10 + size l1) = Some 255) as ->.
      { cbn [rend]. rewrite app_nil_r, app_assoc. apply (end_at _ []). unfold h. zlia. }
      done.
    + apply items_ok_app in Hok as [_ [Hit _]]. cbn [rend].
      destruct (not_end_at (h ++ (rend 0 l1 ++ chunk (lastlen 0 l1) it2 ++ rend (rawlen it2) rest) ++ [255]) (h ++ rend 0 l1)
        (rend (rawlen it2) rest ++ [255]) (lastlen 0 l1) it2 (10 + size l1)) as (b & -> & Hbe); [zside|unfold h; zlia|done|].
      mstep. rewrite Hbe. rewrite (proj2 (Z.ltb_ge i num)) by (destruct Hnum as [?|[? _]]; [zlia|done]). done.
  - rewrite !zlen_cons in *. pose proof Hok as Hok'. apply items_ok_app in Hok' as [_ [Hit _]].
    pose proof (lastlen_bound 0 l1 ltac:(lia)). pose proof (rawlen_pos it). pose proof (size_nonneg l1). pose proof (size_nonneg (d ++ l2)). zlen_pos.
    set (h := hdr _ _ _).
    assert (h ++ rend 0 (l1 ++ (it :: d) ++ l2) ++ [255] = (h ++ rend 0 l1) ++ chunk (lastlen 0 l1) it ++ (rend (rawlen it) (d ++ l2) ++ [255])) as Hz.
    { rewrite rend_app. cbn [app rend]. by rewrite <- !app_assoc. }
    rewrite size_app in Hsz. cbn [app size] in Hsz.
    destruct (not_end_at _ _ _ (lastlen 0 l1) it (10 + size l1) Hz) as (b & Hb & Hbe); [unfold h; zlia|done|].
    rewrite Hb. mstep. rewrite Hbe, (proj2 (Z.ltb_lt i num)) by lia. cbn [negb andb].
    rewrite (raw_at _ _ _ _ _ _ Hz); [mstep|unfold h; zlia|lia|done|lia].
    specialize (IH (l1 ++ [it]) (i + 1) fuel). rewrite <- app_assoc in IH. cbn [app] in IH.
    assert (size (l1 ++ [it]) = size l1 + rawlen it) as Hs1 by (rewrite size_app; cbn [size]; lia). rewrite Hs1, Z.add_assoc in IH. unfold h. cbn [app].
    rewrite IH; [f_equal; f_equal; cbn [size]; lia|done|rewrite size_app; cbn [size]; lia|destruct Hnum as [?|[? ?]]; [left; lia|right; split; [done|lia]]|lia].
Qed.
(** ** What is left *)

Section Remove.
Context (l1 d l2 : list item) (count : Z).
Abbreviation prev := (lastlen 0 l1).
Abbreviation all := (l1 ++ d ++ l2).
Context (Hok : items_ok 0 all) (Hsz : 11 + size all < 2 ^ 32) (Hd : d <> []).
Abbreviation total := (11 + size all).
Abbreviation tail := (10 + last_ofs all).
Abbreviation zl := (hdr total tail count ++ rend 0 all ++ [255]).

Lemma delete_first :
  exists f, zipEntry zl (10 + size l1) = Some f /\ prevrawlen f = prev /\ ep f = 10 + size l1.
Proof.
  destruct d as [|it d']; [done|]. apply items_ok_app in Hok as [_ [Hit _]]. rewrite rend_app. cbn [app rend].
  rewrite size_app in Hsz. cbn [app size] in Hsz.
  pose proof (lastlen_bound 0 l1 ltac:(lia)). pose proof (rawlen_pos it). pose proof (size_nonneg l1). pose proof (size_nonneg (d' ++ l2)). zlen_pos.
  set (h := hdr _ _ _). assert (zlen h = 10) as Hh by apply zlen_ziphdr.
  eexists. split; [apply (entry_at_ _ (h ++ rend 0 l1) (rend (rawlen it) (d' ++ l2) ++ [255]) prev it); [zside|zlia|lia|done|lia]|done].
Qed.

Lemma delete_sizes : size all = size l1 + size d + size l2 /\ 2 <= size d /\ (254 <= prev -> 6 <= size d) /\ 0 <= size l1 /\ 0 <= size l2 /\ 0 <= prev <= size l1.
Proof.
  rewrite !size_app. pose proof (size_nonneg l1). pose proof (size_nonneg l2). pose proof (lastlen_bound 0 l1 ltac:(lia)). zlen_pos.
  split; [lia|]. destruct d as [|it d']; [done|]. apply items_ok_app in Hok as [_ [Hit _]]. cbn [size].
  pose proof (rawlen_pos it). pose proof (size_nonneg d'). zlen_pos. repeat split; try lia.
  intros Hp. destruct it as [[] s]; [|by specialize (Hit eq_refl); lia]. unfold rawlen, psize. cbn. pose proof (zlen_body_bounds s). lia.
Qed.

Lemma delete_count k : count_ok count all -> is_u 16 count /\ (zlen k = zlen l1 + zlen l2 -> count_ok (if count <? 65535 then count + - zlen d else count) k) /\
  (count = 65535 \/ is_u 16 (count + - zlen d)).
Proof.
  intros Hcount. pose proof (count_ok_u16 _ _ Hcount). split; [done|]. unfold count_ok, is_u in *. rewrite !zlen_app in Hcount. zlen_pos. split; [intros ->; casif; lia|lia].
Qed.
End Remove.

Lemma delete_last l1 d count num :
  let all := l1 ++ d ++ [] in
  items_ok 0 all -> 11 + size all < 2 ^ 32 -> count_ok count all -> d <> [] -> zlen d <= num ->
  exists count', count_ok count' (del l1 []) /\
  __ziplistDelete (hdr (11 + size all) (10 + last_ofs all) count ++ rend 0 all ++ [255]) (10 + size l1) num =
  Some (hdr (11 + size (del l1 [])) (10 + last_ofs (del l1 [])) count' ++ rend 0 (del l1 []) ++ [255]).
Proof.
  cbv zeta. intros Hok Hsz Hcount Hd Hnum. unfold del. rewrite (app_nil_r l1).
  destruct (delete_first l1 d [] count Hok Hsz Hd) as (f & Hf & Hfp & Hfe).
  destruct (delete_sizes l1 d [] Hok Hsz Hd) as (Hsa & Hsd & _ & Hs1 & _ & Hpb). cbn [size] in Hsa.
  destruct (delete_count l1 d [] count l1 Hcount) as (Hc16 & Hcok & Hcu).
  exists (if count <? 65535 then count + - zlen d else count). split; [apply Hcok; zlia|].
  unfold __ziplistDelete. rewrite Hf. mstep. rewrite Hfe, Hfp.
  rewrite skip_entries_spec; [mstep|done|done|right; split; [done|lia]|].
  2: { eapply Z.lt_trans; [|apply fuel_enough]. zlia. }
  rewrite (uN_small 32) by lia. replace (10 + size l1 + size d - (10 + size l1)) with (size d) by lia.
  rewrite Z.gtb_ltb, (proj2 (Z.ltb_lt 0 (size d))) by lia.
  assert (forall h, zlen h = 10 -> load1 (h ++ rend 0 (l1 ++ d ++ []) ++ [255]) (10 + size l1 + size d) = Some 255) as Hend.
  { intros h Hh. rewrite app_assoc. apply (end_at _ []). rewrite zlen_app, zlen_rend. lia. }
  rewrite Hend by apply zlen_ziphdr. mstep. change (255 =? ZIP_END) with true. cbn [negb].
  pose proof (last_ofs_lastlen l1). pose proof (last_ofs_bound l1). rewrite (uN_small 32) by lia.
  replace (10 + size l1 - lastlen 0 l1) with (10 + last_ofs l1) by lia.
  rewrite intrev32ifbe_rep. mstep. rewrite put_tail. mstep. rewrite get_bytes by (unfold is_u; lia). mstep.
  rewrite intrev32ifbe_unrep by (unfold is_u; lia). mstep.
  replace (11 + size (l1 ++ d ++ []) - size d + 0) with (11 + zlen (rend 0 l1)) by (rewrite zlen_rend; lia).
  rewrite (rend_app 0 l1), <- app_assoc. rewrite resize_shrink by (unfold is_u; zlia). mstep. rewrite zlen_rend.
  by rewrite incr_length.
Qed.

(** The entry after the deleted ones, moved over them *)
Section Join.
Context (l1 d rest : list item) (it2 : item) (count : Z).
Abbreviation prev := (lastlen 0 l1).
Abbreviation all := (l1 ++ d ++ it2 :: rest).
Abbreviation it2' := (254 <=? prev, it2.2).
Abbreviation nd := (psize it2' - psize it2).
Abbreviation R := (rend (rawlen it2) rest).
Context (Hok : items_ok 0 all) (Hsz : 11 + size all < 2 ^ 32) (Hc : is_u 16 count) (Hd : d <> []).

Lemma join_nd : prev_entry_length_size prev - psize it2 = nd /\ nd <= 4 /\ nd <= size d /\ (it2'.1 = false -> prev < 254).
Proof.
  destruct (delete_sizes l1 d _ Hok Hsz Hd) as (_ & ? & ? & _). unfold prev_entry_length_size, ZIP_BIG_PREVLEN, psize. cbn [fst].
  rewrite Z.ltb_antisym. destruct (254 <=? prev) eqn:E, it2.1; boolsimp; cbn; repeat split; try lia; done.
Qed.

(** The next entry with its new first field, which may reach into the deleted ones *)
Lemma join_field h :
  exists D, zlen D = size d - nd /\
  zipStorePrevEntryLength (h ++ rend 0 all ++ [255]) (zlen h + size l1 + size d - nd) prev =
  Some (h ++ rend 0 l1 ++ D ++ chunk prev it2' ++ R ++ [255], psize it2').
Proof.
  destruct join_nd as (Hnd & Hn4 & Hn & Hb). pose proof (psize_bound it2). pose proof (psize_bound it2').
  destruct (delete_sizes l1 d _ Hok Hsz Hd) as (_ & ? & _ & ? & _ & ?).
  rewrite !rend_app. cbn [rend]. set (D0 := rend prev d). set (pf := prev_field it2.1 (lastlen prev d)).
  assert (zlen D0 = size d) as HD0 by apply zlen_rend. assert (zlen pf = psize it2) as Hpf by apply zlen_prev_field.
  destruct (split_range (D0 ++ pf) (size d - nd) (psize it2')) as (D & F & E & HDF & HD & HF); [rewrite ?zlen_app; lia..|].
  assert (E = []) as -> by (apply zlen_0_inv; apply (f_equal zlen) in HDF; rewrite !zlen_app in HDF; lia). rewrite app_nil_r in HDF.
  exists D. split; [done|].
  replace (h ++ (rend 0 l1 ++ D0 ++ chunk (lastlen prev d) it2 ++ R) ++ [255]) with
    ((h ++ rend 0 l1 ++ D) ++ F ++ (body it2.2 ++ R ++ [255])).
  2: { unfold chunk. fold pf. rewrite <- !app_assoc, (app_assoc D0), HDF. by rewrite <- !app_assoc. }
  rewrite store_prevlen; [|lia|lia|zlia].
  unfold chunk. cbn [fst snd]. rewrite <- !app_assoc. do 2 f_equal. lia.
Qed.
(** The whole of the branch that joins the two parts *)
Lemma join_spec (total := 11 + size all) (p := 10 + size l1 + size d) :
  exists Y, 0 < zlen Y /\
  (let! nextdiff := zipPrevLenByteDiff (hdr total (10 + last_ofs all) count ++ rend 0 all ++ [255]) p prev in
   let p := p - nextdiff in
   let! (zl, _) := zipStorePrevEntryLength (hdr total (10 + last_ofs all) count ++ rend 0 all ++ [255]) p prev in
   let! zl := move_tail_offset zl (- size d) in
   let! tail := zipEntry zl p in
   let! b := load1 zl (p + u32 (headersize tail + len tail)) in
   let! zl := (if negb (b =? ZIP_END) then move_tail_offset zl nextdiff else Some zl) in
   let! n := ZIPLIST_BYTES zl in
   let! n := intrev32ifbe n in
   let! zl := memmove zl (10 + size l1) p (n - p - 1) in
   Some (zl, nextdiff)) =
  Some (hdr total (10 + size l1 + last_ofs (it2' :: rest)) count ++ (rend 0 l1 ++ chunk prev it2' ++ R) ++ Y, nd).
Proof.
  unfold total, p. clear total p. destruct join_nd as (Hnd & Hn4 & Hn & Hb). pose proof (psize_bound it2). pose proof (psize_bound it2').
  destruct (delete_sizes l1 d _ Hok Hsz Hd) as (Hsa & Hsd & _ & Hs1 & Hs2 & Hpb). cbn [size] in *.
  pose proof (rawlen_diff it2 it2' eq_refl) as Hrd. pose proof (rawlen_pos it2). pose proof (rawlen_pos it2'). pose proof (size_nonneg rest). zlen_pos.
  pose proof (last_ofs_bound (it2 :: rest)). pose proof (last_ofs_bound (it2' :: rest)). cbn [size] in *.
  pose proof Hok as Hok'. rewrite !items_ok_app in Hok'. destruct Hok' as (_ & _ & Hit2 & Hok2).
  rewrite last_ofs_app by (intros [_ [=]]%app_eq_nil). rewrite last_ofs_app by done.
  set (h := hdr _ _ count). assert (zlen h = 10) as Hh by apply zlen_ziphdr.
  assert (h ++ rend 0 all ++ [255] = (h ++ rend 0 l1 ++ rend prev d) ++ chunk (lastlen prev d) it2 ++ (R ++ [255])) as Hz.
  { rewrite !rend_app. cbn [rend]. by rewrite <- !app_assoc. }
  pose proof (lastlen_bound prev d ltac:(lia)).
  rewrite (diff_at _ _ _ _ _ _ Hz); [mstep|zlia|lia|done]. rewrite Hnd.
  destruct (join_field h) as (D & HD & Hst). rewrite Hh in Hst. rewrite Hst. mstep. clear Hst Hz. unfold h. clear h Hh.
  rewrite move_tail; [mstep|unfold is_u; lia..].
  replace (10 + (size l1 + (size d + last_ofs (it2 :: rest))) + - size d) with (10 + size l1 + last_ofs (it2 :: rest)) by lia.
  set (h := hdr _ _ count). assert (zlen h = 10) as Hh by apply zlen_ziphdr.
  rewrite (entry_at_ _ (h ++ rend 0 l1 ++ D) (R ++ [255]) prev it2'); [mstep|zside|zlia|lia|done|lia].
  cbn [headersize len]. rewrite entry_raw by lia.
  destruct (after_entry it2' rest (rend 0 l1 ++ D) prev (rawlen it2) (11 + size all) (10 + size l1 + last_ofs (it2 :: rest)) count) as (b & Hbl & Hbe).
  { intros it3 rest' -> ?. cbn [items_ok] in Hok2. by apply Hok2. } { lia. }
  rewrite <- !app_assoc in Hbl. fold h in Hbl.
  replace (10 + size l1 + size d - nd + rawlen it2') with (10 + zlen (rend 0 l1 ++ D) + rawlen it2') by zlia.
  rewrite Hbl. mstep. unfold h. clear h Hh Hbl.
  rewrite (adjust_tail it2 it2' rest eq_refl (10 + size l1)); [mstep|unfold is_u in *; lia..|done].
  rewrite get_bytes by (unfold is_u; lia). mstep. rewrite intrev32ifbe_unrep by (unfold is_u; lia). mstep.
  set (h := hdr _ _ count). assert (zlen h = 10) as Hh by apply zlen_ziphdr.
  destruct (zl_memmove_down (h ++ rend 0 l1) D (chunk prev it2' ++ R) [255] (10 + size l1) (10 + size l1 + size d - nd)) as (Y & Hmm & HY);
    [zlia..|]. exists Y. split; [rewrite HY, zlen_cons; zlia|].
  replace (11 + size all - (10 + size l1 + size d - nd) - 1) with (zlen (chunk prev it2' ++ R)) by (rewrite zlen_app, zlen_chunk, zlen_rend; lia).
  rewrite <- !app_assoc in Hmm. rewrite Hmm. mstep. by rewrite <- !app_assoc.
Qed.
End Join.

Lemma delete_mid l1 d it2 rest count num :
  let all := l1 ++ d ++ it2 :: rest in
  items_ok 0 all -> 11 + size all < 2 ^ 32 -> 11 + size (del l1 (it2 :: rest)) < 2 ^ 32 -> count_ok count all -> d <> [] -> zlen d = num ->
  exists count', count_ok count' (del l1 (it2 :: rest)) /\
  __ziplistDelete (hdr (11 + size all) (10 + last_ofs all) count ++ rend 0 all ++ [255]) (10 + size l1) num =
  Some (hdr (11 + size (del l1 (it2 :: rest))) (10 + last_ofs (del l1 (it2 :: rest))) count' ++ rend 0 (del l1 (it2 :: rest)) ++ [255]).
Proof.
  cbv zeta. intros Hok Hsz Hsz' Hcount Hd Hnum.
  destruct (delete_first l1 d _ count Hok Hsz Hd) as (f & Hf & Hfp & Hfe).
  destruct (delete_sizes l1 d _ Hok Hsz Hd) as (Hsa & Hsd & _ & Hs1 & Hs2 & Hpb).
  destruct (delete_count l1 d _ count (del l1 (it2 :: rest)) Hcount) as (Hc16 & Hcok & Hcu).
  destruct (join_spec l1 d rest it2 count Hok Hsz Hc16 Hd) as (Y & HY & Hj). cbv zeta in Hj.
  exists (if count <? 65535 then count + - zlen d else count). split.
  { apply Hcok. pose proof (del_strings l1 (it2 :: rest)) as Hs. apply (f_equal zlen) in Hs. by autorewrite with zlen in Hs |- *. }
  unfold __ziplistDelete. rewrite Hf. mstep. rewrite Hfe, Hfp.
  rewrite skip_entries_spec; [mstep|done|done|left; lia|].
  2: { eapply Z.lt_trans; [|apply fuel_enough]. zlia. }
  rewrite (uN_small 32) by lia. replace (10 + size l1 + size d - (10 + size l1)) with (size d) by lia.
  rewrite Z.gtb_ltb, (proj2 (Z.ltb_lt 0 (size d))) by lia.
  pose proof Hok as Hok'. rewrite !items_ok_app in Hok'. destruct Hok' as (_ & _ & Hit2 & Hok2).
  set (h := hdr _ _ count). assert (zlen h = 10) as Hh by apply zlen_ziphdr.
  destruct (not_end_at (h ++ rend 0 (l1 ++ d ++ it2 :: rest) ++ [255]) (h ++ rend 0 l1 ++ rend (lastlen 0 l1) d)
    (rend (rawlen it2) rest ++ [255]) (lastlen (lastlen 0 l1) d) it2 (10 + size l1 + size d)) as (b & Hb & Hbe);
    [by rewrite !rend_app, <- !app_assoc; cbn [rend]; rewrite <- !app_assoc|zlia|done|].
  rewrite Hb. mstep. rewrite Hbe. cbn [negb]. unfold h. rewrite Hj. mstep. clear Hj Hb h Hh b Hbe.
  set (it2' := (254 <=? lastlen 0 l1, it2.2)) in *. pose proof (rawlen_diff it2 it2' eq_refl) as Hrd.
  rewrite get_bytes by (unfold is_u; lia). mstep. rewrite intrev32ifbe_unrep by (unfold is_u; lia). mstep.
  unfold del in *. fold it2' in Hsz' |- *. rewrite last_ofs_app, rend_app by done. cbn [rend]. rewrite (size_app l1 (it2' :: _)) in Hsz' |- *. cbn [size] in *.
  pose proof (widen_size (rawlen it2') rest). pose proof (rawlen_pos it2'). pose proof (rawlen_pos it2). pose proof (size_nonneg rest). zlen_pos.
  replace (11 + size (l1 ++ d ++ it2 :: rest) - size d + (psize it2' - psize it2)) with
    (11 + zlen (rend 0 l1 ++ chunk (lastlen 0 l1) it2' ++ rend (rawlen it2) rest)) by (rewrite !zlen_app, !zlen_rend, zlen_chunk; lia).
  rewrite resize_shrink by (unfold is_u; zlia). mstep. rewrite incr_length by done. mstep.
  rewrite !zlen_app, !zlen_rend, zlen_chunk.
  assert (it2'.1 = false -> lastlen 0 l1 < 254) as Hb'. { cbn. intros ?. by boolsimp. }
  pose proof (cascade_if it2 it2' rest eq_refl (rend 0 l1) (lastlen 0 l1) (if count <? 65535 then count + - zlen d else count)
    ltac:(lia) Hb' ltac:(casif; unfold is_u in *; lia) Hok2 ltac:(lia)) as Hcas. rewrite zlen_rend in Hcas. specialize (Hcas ltac:(lia)).
  rewrite <- !app_assoc. replace (11 + (size l1 + (rawlen it2' + size rest))) with (11 + size l1 + rawlen it2' + size rest) by lia.
  rewrite Z.add_0_l, Hcas. f_equal. f_equal. f_equal; lia.
Qed.

(** The block after the deletion of the entries [d], all that [num] asks for or all there are *)
Lemma zl_delete_spec zl l1 d l2 num :
  zwf zl (l1 ++ d ++ l2) -> d <> [] -> zlen d = num \/ l2 = [] /\ zlen d <= num ->
  13 + size (l1 ++ d ++ l2) + 4 * zlen l2 < 2 ^ 32 ->
  exists zl', __ziplistDelete zl (10 + size l1) num = Some zl' /\ zwf zl' (del l1 l2).
Proof.
  intros (Hok & Hsz & count & Hcount & ->) Hd Hnum Hb. pose proof (del_size l1 d l2 Hd) as Hdel.
  assert (exists count', count_ok count' (del l1 l2) /\
    __ziplistDelete (hdr (11 + size (l1 ++ d ++ l2)) (10 + last_ofs (l1 ++ d ++ l2)) count ++ rend 0 (l1 ++ d ++ l2) ++ [255]) (10 + size l1) num =
    Some (hdr (11 + size (del l1 l2)) (10 + last_ofs (del l1 l2)) count' ++ rend 0 (del l1 l2) ++ [255])) as (count' & Hc' & Hi).
  { destruct l2 as [|it2 rest].
    - apply delete_last; try done. destruct Hnum as [?|[_ ?]]; lia.
    - apply delete_mid; try done; [lia|]. by destruct Hnum as [?|[? _]]. }
  eexists. split; [exact Hi|]. split; [by eapply del_ok|]. split; [lia|]. by exists count'.
Qed.
End Delete.
