(* ===== verification/ZiplistNav.v ===== *)
(** * Ziplists: reading, walking and searching *)

From Stdlib Require Import ZArith Lia.
From stdpp Require Import base numbers option list.
From S2P Require Import Prelude Memory Bits Endian Util UtilFacts Ziplist ZiplistFacts ZiplistOps ZiplistUpdate.

Local Open Scope Z_scope.
Local Open Scope redis_scope.

(** The offset of the entry with index [i], of the end when there is none *)
Definition offset (items : list item) (i : Z) : Z := 10 + size (take (Z.to_nat i) items).

Lemma offset_app l1 l2 : offset (l1 ++ l2) (zlen l1) = 10 + size l1.
Proof. unfold offset, zlen. by rewrite Nat2Z.id, take_app_length. Qed.
Lemma offset_0 items : offset items 0 = 10.
Proof. done. Qed.

Section Nav.
Context `{Host} `{Alloc}.

Lemma zwf_size zl items : zwf zl items -> zlen zl = 11 + size items /\ 11 + size items < 2 ^ 32 /\ zlen items < 2 ^ 31.
Proof. intros (_ & Hsz & count & _ & ->). pose proof (size_nonneg items). zlia. Qed.
Lemma zwf_tail zl items : zwf zl items -> ZIPLIST_ENTRY_TAIL zl = Some (10 + last_ofs items).
Proof.
  intros (_ & Hsz & count & Hc & ->). pose proof (last_ofs_bound items). apply count_ok_u16 in Hc. rewrite entry_tail by (unfold is_u; lia). done.
Qed.
Lemma zwf_bytes zl items : zwf zl items -> (let! b := ZIPLIST_BYTES zl in intrev32ifbe b) = Some (11 + size items).
Proof.
  intros (_ & Hsz & count & Hc & ->). pose proof (size_nonneg items). zlen_pos. rewrite get_bytes by (unfold is_u; lia). mstep.
  by rewrite intrev32ifbe_unrep by (unfold is_u; lia).
Qed.
Lemma zwf_end zl items : zwf zl items -> load1 zl (10 + size items) = Some 255.
Proof. intros (_ & _ & count & _ & ->). rewrite app_assoc. apply (end_at _ []). zlia. Qed.
Lemma zwf_fuel zl items : zwf zl items -> zlen items + 1 < Z.of_nat (S (length zl)).
Proof. intros (_ & _ & count & _ & ->). apply fuel_enough. Qed.

(** What is read at an entry *)
Section Entry.
Context (zl : bytes) (l1 l2 : list item) (it : item) (Hwf : zwf zl (l1 ++ it :: l2)).
Abbreviation p := (10 + size l1).

Lemma entry_split :
  exists A, zl = A ++ chunk (lastlen 0 l1) it ++ (rend (rawlen it) l2 ++ [255]) /\ zlen A = p /\
    0 <= lastlen 0 l1 < 2 ^ 32 /\ (it.1 = false -> lastlen 0 l1 < 254) /\ rawlen it < 2 ^ 32.
Proof.
  destruct Hwf as (Hok & Hsz & count & _ & ->). apply items_ok_app in Hok as [_ [Hit _]].
  pose proof (size_nonneg l1). pose proof (size_nonneg l2). pose proof (rawlen_pos it). pose proof (lastlen_bound 0 l1 ltac:(lia)). zlen_pos.
  eexists (hdr _ _ _ ++ rend 0 l1). rewrite size_app in Hsz. cbn [size] in Hsz.
  split; [rewrite rend_app; cbn [rend]; by rewrite <- !app_assoc|]. split; [zlia|]. repeat split; (done || lia).
Qed.
Lemma nav_not_end : exists b, load1 zl p = Some b /\ (b =? ZIP_END) = false.
Proof. destruct entry_split as (A & Hz & HA & Hp & Hi & Hr). by apply (not_end_at _ _ _ _ _ _ Hz). Qed.
Lemma nav_raw : zipRawEntryLength zl p = Some (rawlen it).
Proof. destruct entry_split as (A & Hz & HA & Hp & Hi & Hr). by apply (raw_at _ _ _ _ _ _ Hz). Qed.
Lemma nav_prevlen : ZIP_DECODE_PREVLEN zl p = Some (psize it, lastlen 0 l1).
Proof. destruct entry_split as (A & Hz & HA & Hp & Hi & Hr). by apply (prevlen_at _ _ _ _ _ _ Hz). Qed.
Lemma nav_prevlensize : ZIP_DECODE_PREVLENSIZE zl p = Some (psize it).
Proof. destruct entry_split as (A & Hz & HA & Hp & Hi & Hr). by apply (prevlensize_at _ _ _ _ _ _ Hz). Qed.
Lemma nav_decode : ZIP_DECODE_LENGTH zl (p + psize it) = Some (enc_of it.2, zlen (hdr_of it.2), zlen (data_of it.2)).
Proof. destruct entry_split as (A & Hz & HA & Hp & Hi & Hr). by apply (decode_at _ _ _ _ _ _ Hz). Qed.
Lemma nav_entry : zipEntry zl p = Some (Zlentry (psize it) (lastlen 0 l1) (zlen (hdr_of it.2)) (zlen (data_of it.2))
                                          (psize it + zlen (hdr_of it.2)) (enc_of it.2) p).
Proof. destruct entry_split as (A & Hz & HA & Hp & Hi & Hr). by apply (entry_at_ _ _ _ _ _ _ Hz). Qed.

(** The data of a string, and of an integer *)
Lemma nav_str : string2ll it.2 = None ->
  ZIP_IS_STR (enc_of it.2) = true /\ data_of it.2 = it.2 /\ load zl (p + (psize it + zlen (hdr_of it.2))) (zlen it.2) = Some it.2.
Proof.
  intros Hs. assert (data_of it.2 = it.2) as Hd by (unfold data_of; by rewrite Hs). split; [unfold enc_of; rewrite Hs; apply str_enc_str|].
  split; [done|]. destruct entry_split as (A & -> & HA & _ & _ & _). unfold chunk, body. rewrite Hd, <- !app_assoc.
  rewrite (app_assoc A), (app_assoc (A ++ _)). apply load_app; [|done]. autorewrite with zlen. rewrite zlen_prev_field. unfold psize. lia.
Qed.
Lemma nav_int v : string2ll it.2 = Some v ->
  ZIP_IS_STR (enc_of it.2) = false /\ zipLoadInteger zl (p + (psize it + zlen (hdr_of it.2))) (enc_of it.2) = Some v.
Proof.
  intros Hs. unfold enc_of. rewrite Hs. split; [apply int_enc_not_str|].
  destruct entry_split as (A & -> & HA & _ & _ & _). unfold chunk, body. assert (data_of it.2 = int_data v) as -> by (unfold data_of; by rewrite Hs).
  rewrite <- !app_assoc. rewrite (app_assoc A), (app_assoc (A ++ _)). apply load_integer; [by eapply int_range|].
  autorewrite with zlen. rewrite zlen_prev_field. unfold psize. lia.
Qed.

End Entry.

(** ** Walking *)

Lemma lastlen_pos l : l <> [] -> 2 <= lastlen 0 l.
Proof.
  intros Hl. destruct (exists_last Hl) as (l' & x & ->). rewrite lastlen_app. cbn [lastlen]. apply rawlen_pos.
Qed.

Lemma string2ll_inj s t v : string2ll s = Some v -> string2ll t = Some v -> s = t.
Proof. intros [Hs _]%string2ll_iff [Ht _]%string2ll_iff. by eapply decimal_unique. Qed.
Lemma string2ll_eqb s t v w : string2ll s = Some v -> string2ll t = Some w -> (v =? w) = bool_decide (s = t).
Proof.
  intros Hs Ht. destruct (v =? w) eqn:E; boolsimp.
  - subst. by rewrite bool_decide_true by by eapply string2ll_inj.
  - rewrite bool_decide_false; [done|congruence].
Qed.

Section Walk.
Context (zl : bytes) (l1 l2 : list item) (it : item) (Hwf : zwf zl (l1 ++ it :: l2)).
Abbreviation p := (10 + size l1).

Lemma zl_next_entry : ziplistNext zl p = Some (if decide (l2 = []) then None else Some (p + rawlen it)).
Proof.
  unfold ziplistNext. destruct (nav_not_end _ _ _ _ Hwf) as (b & -> & Hb). mstep. rewrite Hb, (nav_raw _ _ _ _ Hwf). mstep.
  destruct l2 as [|it2 rest].
  - pose proof (zwf_end _ _ Hwf) as He. rewrite size_app in He. cbn [size] in He. rewrite Z.add_0_r, Z.add_assoc in He. by rewrite He.
  - rewrite decide_False by done. pose proof Hwf as Hwf'. rewrite (cons_middle it l1 (it2 :: rest)), app_assoc in Hwf'.
    destruct (entry_split zl (l1 ++ [it]) rest it2 Hwf') as (A & Hz & HA & _ & Hi & _).
    destruct (not_end_at zl A (rend (rawlen it2) rest ++ [255]) (lastlen 0 (l1 ++ [it])) it2 (p + rawlen it)) as (b' & -> & Hb');
      [done|rewrite HA, size_app; cbn [size]; lia|done|]. mstep. by rewrite Hb'.
Qed.

Lemma zl_prev_entry : ziplistPrev zl p = Some (if decide (l1 = []) then None else Some (10 + last_ofs l1)).
Proof.
  unfold ziplistPrev. destruct (nav_not_end _ _ _ _ Hwf) as (b & -> & Hb). mstep. rewrite Hb. unfold ZIPLIST_ENTRY_HEAD, ZIPLIST_HEADER_SIZE.
  pose proof (size_nonneg l1). destruct (decide (l1 = [])) as [->|Hne].
  - done.
  - pose proof (last_ofs_lastlen l1). pose proof (lastlen_pos l1 Hne). pose proof (last_ofs_bound l1).
    rewrite (proj2 (Z.eqb_neq _ _)) by lia. rewrite (nav_prevlen _ _ _ _ Hwf). mstep. rewrite Z.gtb_ltb, (proj2 (Z.ltb_lt _ _)) by lia. do 2 f_equal. lia.
Qed.

(** ** Values *)

Lemma get_entry : exists v, ziplistGet zl (Some p) = Some (Some v) /\
  match v with
  | ZipInt n => string2ll it.2 = Some n
  | ZipStr q n => n = zlen it.2 /\ load zl q n = Some it.2 /\ string2ll it.2 = None
  end.
Proof.
  unfold ziplistGet. destruct (nav_not_end _ _ _ _ Hwf) as (b & -> & Hb). mstep. rewrite Hb, (nav_entry _ _ _ _ Hwf). mstep. cbn [encoding headersize len].
  destruct (string2ll it.2) as [v|] eqn:Es.
  - destruct (nav_int _ _ _ _ Hwf v Es) as [-> ->]. mstep. by exists (ZipInt v).
  - destruct (nav_str _ _ _ _ Hwf Es) as (-> & -> & Hl). eexists. split; [done|]. simpl. done.
Qed.

Lemma compare_entry s : ziplistCompare zl p s = Some (bool_decide (it.2 = s)).
Proof.
  unfold ziplistCompare. destruct (nav_not_end _ _ _ _ Hwf) as (b & -> & Hb). mstep. rewrite Hb, (nav_entry _ _ _ _ Hwf). mstep. cbn [encoding headersize len].
  destruct (string2ll it.2) as [v|] eqn:Es.
  - destruct (nav_int _ _ _ _ Hwf v Es) as [-> ->]. rewrite zipTryEncoding_eq. destruct (string2ll s) as [w|] eqn:Ew.
    + mstep. by rewrite (string2ll_eqb it.2 s v w).
    + f_equal. symmetry. apply bool_decide_false. congruence.
  - destruct (nav_str _ _ _ _ Hwf Es) as (-> & -> & Hl). destruct (zlen it.2 =? zlen s) eqn:E; boolsimp.
    + rewrite <- E, Hl. mstep. done.
    + f_equal. symmetry. apply bool_decide_false. congruence.
Qed.
End Walk.

(** Entry by entry: a list with one more entry before the rest *)
Lemma zwf_shift zl l1 it l2 : zwf zl (l1 ++ it :: l2) -> zwf zl ((l1 ++ [it]) ++ l2).
Proof. by rewrite <- app_assoc. Qed.
Lemma size_snoc l it : size (l ++ [it]) = size l + rawlen it.
Proof. rewrite size_app. cbn [size]. lia. Qed.

Lemma zlen_snoc (l : list item) it : zlen (l ++ [it]) = zlen l + 1.
Proof. zlia. Qed.

Section Loops.
Context (zl : bytes).

Lemma forward_spec fuel l1 l2 index :
  zwf zl (l1 ++ l2) -> zlen l2 < Z.of_nat fuel -> 0 <= index ->
  index_forward fuel zl (10 + size l1) index =
  Some (offset (l1 ++ l2) (zlen l1 + index), if index <? zlen l2 then -1 else index - zlen l2).
Proof.
  revert fuel l1 index. induction l2 as [|it l2 IH]; intros fuel l1 index Hwf Hf Hi; zlen_pos; (destruct fuel as [|fuel]; [lia|]); cbn [index_forward].
  - pose proof (zwf_end _ _ Hwf) as He. rewrite app_nil_r in *. rewrite He. mstep. change (255 =? ZIP_END) with true. cbn [negb].
    unfold offset. rewrite take_ge by (unfold zlen; lia). rewrite (proj2 (Z.ltb_ge index _)) by zlia. by rewrite Z.sub_0_r.
  - destruct (nav_not_end _ _ _ _ Hwf) as (b & -> & Hb). mstep. rewrite Hb. cbn [negb]. rewrite zlen_cons in *.
    destruct (index =? 0) eqn:E; boolsimp.
    + subst. rewrite Z.add_0_r, offset_app. by rewrite (proj2 (Z.ltb_lt 0 _)) by lia.
    + rewrite (nav_raw _ _ _ _ Hwf). mstep. apply zwf_shift in Hwf.
      specialize (IH fuel (l1 ++ [it]) (index - 1) Hwf ltac:(lia) ltac:(lia)). rewrite size_snoc, Z.add_assoc in IH. rewrite IH.
      rewrite <- app_assoc. cbn [app]. autorewrite with zlen. f_equal. f_equal; [f_equal; lia|].
      destruct (index <? 1 + zlen l2) eqn:E1; boolsimp; [rewrite (proj2 (Z.ltb_lt _ _)) by lia; done|rewrite (proj2 (Z.ltb_ge _ _)) by lia; lia].
Qed.

Lemma backward_spec fuel l1 it l2 index :
  zwf zl (l1 ++ it :: l2) -> zlen l1 < Z.of_nat fuel -> 0 <= index ->
  index_backward fuel zl (10 + size l1) (lastlen 0 l1) index =
  Some (offset (l1 ++ it :: l2) (Z.max 0 (zlen l1 - index)), if index <=? zlen l1 then (if index <? zlen l1 then -1 else 0) else index - zlen l1).
Proof.
  revert fuel it l2 index. induction l1 as [|it1 l1 IH] using rev_ind; intros fuel it l2 index Hwf Hf Hi; zlen_pos; (destruct fuel as [|fuel]; [lia|]); cbn [index_backward].
  - cbn [lastlen]. change (0 >? 0) with false. cbv iota. change (zlen (@nil item)) with 0 in *. rewrite Z.max_l by lia. cbn [app size].
    rewrite offset_0, Z.sub_0_r. casif; [|done]. rewrite (proj2 (Z.ltb_ge index 0)) by lia. by replace index with 0 by lia.
  - rewrite lastlen_app. cbn [lastlen]. pose proof (rawlen_pos it1). rewrite Z.gtb_ltb, (proj2 (Z.ltb_lt _ _)) by lia.
    rewrite zlen_snoc in *. destruct (index =? 0) eqn:E; boolsimp.
    + subst. rewrite Z.max_r, Z.sub_0_r by lia. rewrite <- (zlen_snoc l1 it1), offset_app.
      autorewrite with zlen. rewrite (proj2 (Z.leb_le _ _)), (proj2 (Z.ltb_lt _ _)) by lia. done.
    + rewrite size_snoc. replace (10 + (size l1 + rawlen it1) - rawlen it1) with (10 + size l1) by lia.
      rewrite <- app_assoc in *. cbn [app] in *. rewrite (nav_prevlen _ _ _ _ Hwf). mstep.
      rewrite (IH fuel it1 (it :: l2) (index - 1) Hwf ltac:(lia) ltac:(lia)). f_equal. f_equal; [f_equal; lia|].
      repeat casif; lia.
Qed.

Lemma at_offset items j :
  zwf zl items -> 0 <= j -> exists b, load1 zl (offset items j) = Some b /\ (b =? ZIP_END) = bool_decide (zlen items <= j).
Proof.
  intros Hwf Hj. destruct (decide (zlen items <= j)) as [Hge|Hlt].
  - exists 255. rewrite bool_decide_true by done. unfold offset. rewrite take_ge by (unfold zlen in *; lia). split; [by apply zwf_end|done].
  - rewrite bool_decide_false by done. destruct (lookup_lt_is_Some_2 items (Z.to_nat j)) as [it Hit]; [unfold zlen in *; lia|].
    pose proof (take_drop_middle items _ it Hit) as Hs. rewrite <- Hs in Hwf. destruct (nav_not_end _ _ _ _ Hwf) as (b & Hb & He). by exists b.
Qed.

Lemma index_spec items index :
  zwf zl items -> INT32_MIN < index ->
  ziplistIndex zl index =
  Some (let i := if index <? 0 then zlen items + index else index in
        if (0 <=? i) && (i <? zlen items) then Some (offset items i) else None).
Proof.
  intros Hwf Hmin. unfold ziplistIndex. rewrite (proj2 (Z.eqb_neq _ _)) by lia. cbv zeta. pose proof (zwf_fuel _ _ Hwf) as Hfuel. zlen_pos.
  destruct (index <? 0) eqn:E; boolsimp.
  - rewrite (zwf_tail _ _ Hwf). mstep. destruct (decide (items = [])) as [->|Hne].
    { pose proof (zwf_end _ _ Hwf) as He. cbn [size last_ofs] in *. rewrite He. mstep. change (255 =? ZIP_END) with true. cbn [negb]. mstep.
      rewrite He. mstep. change (255 =? ZIP_END) with true. cbn [orb]. change (zlen (@nil item)) with 0.
      rewrite (proj2 (Z.leb_gt 0 _)) by lia. done. }
    destruct (exists_last Hne) as (l & it & ->). rewrite last_ofs_app by done. cbn [last_ofs]. rewrite Z.add_0_r.
    destruct (nav_not_end _ _ _ _ Hwf) as (b & -> & Hb). mstep. rewrite Hb. cbn [negb]. rewrite (nav_prevlen _ _ _ _ Hwf). mstep.
    rewrite zlen_snoc in *. rewrite (backward_spec _ l it [] _ Hwf) by lia. mstep.
    destruct (at_offset (l ++ [it]) (Z.max 0 (zlen l - (- index - 1))) Hwf ltac:(lia)) as (b' & -> & Hb'). mstep. rewrite Hb', zlen_snoc.
    zlen_pos. rewrite bool_decide_false by lia. cbn [orb]. rewrite (proj2 (Z.ltb_lt (zlen l + 1 + index) _)) by lia. rewrite andb_true_r.
    destruct (0 <=? zlen l + 1 + index) eqn:E0; boolsimp.
    + rewrite (proj2 (Z.leb_le (- index - 1) _)) by lia. replace (Z.max 0 (zlen l - (- index - 1))) with (zlen l + 1 + index) by lia.
      rewrite Z.gtb_ltb, (proj2 (Z.ltb_ge _ _)) by (casif; lia). done.
    + rewrite (proj2 (Z.leb_gt (- index - 1) _)) by lia. by rewrite Z.gtb_ltb, (proj2 (Z.ltb_lt _ _)) by lia.
  - pose proof (forward_spec (S (length zl)) [] items index Hwf ltac:(lia) E) as Hfw. cbn [app size] in Hfw. rewrite Z.add_0_r in Hfw.
    change (zlen (@nil item)) with 0 in Hfw. rewrite Z.add_0_l in Hfw. unfold ZIPLIST_ENTRY_HEAD, ZIPLIST_HEADER_SIZE. rewrite Hfw. mstep.
    destruct (at_offset items index Hwf E) as (b' & -> & Hb'). mstep. rewrite Hb'. rewrite (proj2 (Z.leb_le 0 index)) by lia. cbn [andb].
    destruct (index <? zlen items) eqn:E1; boolsimp.
    + rewrite bool_decide_false by lia. done.
    + by rewrite bool_decide_true by lia.
Qed.

(** ** Searching *)

(** The cached encoding of the string looked for: not computed yet, an integer, or none *)
Definition venc_ok (vstr : bytes) (venc : Z * Z) : Prop :=
  venc = (0, 0) \/ (string2ll vstr = Some venc.1 /\ venc.2 <> 0 /\ venc.2 <> 255) \/ (string2ll vstr = None /\ venc.2 = 255).

Lemma venc_step vstr venc :
  venc_ok vstr venc ->
  let venc' := if snd venc =? 0 then match zipTryEncoding vstr with Some (v, e) => (v, e) | None => (fst venc, 255) end else venc in
  venc_ok vstr venc' /\ venc'.2 <> 0 /\
  match string2ll vstr with Some v => venc'.1 = v /\ venc'.2 <> 255 | None => venc'.2 = 255 end.
Proof.
  intros Hok. cbv zeta. rewrite zipTryEncoding_eq. destruct (venc.2 =? 0) eqn:E; boolsimp.
  - destruct (string2ll vstr) as [v|] eqn:Es; cbn [fst snd].
    + pose proof (int_enc_range v). split; [right; left; cbn; split; [done|lia]|]. split; [lia|]. split; [done|lia].
    + split; [by right; right|done].
  - destruct Hok as [->|[(Hs & H1 & H2)|(Hs & H1)]]; [done|rewrite Hs..]; split; try done; [right; left|right; right]; done.
Qed.

Fixpoint find_items (skip cnt : Z) (vstr : bytes) (l : list item) (i : Z) : option Z :=
  match l with
  | [] => None
  | it :: l => if (cnt =? 0) && bool_decide (it.2 = vstr) then Some i
               else find_items skip (if cnt =? 0 then skip else cnt - 1) vstr l (i + 1)
  end.

(** The entries compared: every [skip + 1]-th, after [cnt] others *)
Definition candidate (skip cnt k : Z) : Prop := 0 <= k - cnt /\ (k - cnt) mod (skip + 1) = 0.

Lemma candidate_zero skip cnt : 0 <= cnt -> candidate skip cnt 0 <-> cnt = 0.
Proof. intros Hc. unfold candidate. split; [lia|]. intros ->. split; [lia|]. by rewrite Z.sub_0_r, Zmod_0_l. Qed.
Lemma candidate_succ skip cnt k :
  0 <= skip -> 0 <= cnt -> 0 <= k -> candidate skip cnt (k + 1) <-> candidate skip (if cnt =? 0 then skip else cnt - 1) k.
Proof.
  intros Hs Hc Hk. unfold candidate. destruct (cnt =? 0) eqn:E; boolsimp.
  - subst. replace (k - skip) with (k + 1 - 0 + -1 * (skip + 1)) by lia. rewrite Z_mod_plus_full. split; intros [_ Hm]; split; try done; [|lia].
    apply Z.div_exact in Hm; [|lia]. assert (0 < (k + 1 - 0) / (skip + 1)) by nia. nia.
  - replace (k + 1 - cnt) with (k - (cnt - 1)) by lia. tauto.
Qed.

Lemma find_items_spec skip cnt vstr l i :
  0 <= skip -> 0 <= cnt ->
  match find_items skip cnt vstr l i with
  | Some j => exists k, j = i + k /\ 0 <= k < zlen l /\ candidate skip cnt k /\ map snd l !! Z.to_nat k = Some vstr /\
                forall k', 0 <= k' < k -> candidate skip cnt k' -> map snd l !! Z.to_nat k' <> Some vstr
  | None => forall k, 0 <= k < zlen l -> candidate skip cnt k -> map snd l !! Z.to_nat k <> Some vstr
  end.
Proof.
  intros Hs. revert cnt i. induction l as [|it l IH]; intros cnt i Hc; cbn [find_items]; [intros k Hk; change (zlen (@nil item)) with 0 in Hk; lia|].
  pose proof (candidate_zero skip cnt Hc) as Hz. rewrite zlen_cons. pose proof (zlen_nonneg l).
  assert ((cnt =? 0) && bool_decide (it.2 = vstr) = false -> forall k, 0 <= k -> candidate skip cnt k -> (k = 0 -> it.2 <> vstr)) as Hfirst.
  { intros Hb k _ Hk -> He. rewrite bool_decide_true, andb_true_r in Hb by done. boolsimp. tauto. }
  destruct ((cnt =? 0) && bool_decide (it.2 = vstr)) eqn:E.
  - apply andb_true_iff in E as [E1 E2]. apply bool_decide_eq_true in E2. boolsimp. exists 0. split; [lia|]. split; [lia|]. split; [by apply Hz|].
    split; [cbn; by rewrite E2|lia].
  - assert (0 <= (if cnt =? 0 then skip else cnt - 1)) as Hc' by (casif; lia). specialize (IH _ (i + 1) Hc').
    assert (forall k, 0 < k -> map snd (it :: l) !! Z.to_nat k = map snd l !! Z.to_nat (k - 1)) as Hsh.
    { intros k Hk. replace (Z.to_nat k) with (S (Z.to_nat (k - 1))) by lia. done. }
    destruct (find_items _ _ vstr l (i + 1)) as [j|].
    + destruct IH as (k & -> & Hk & Hcd & Hl & Hmin). exists (k + 1). split; [lia|]. split; [lia|]. split; [by apply candidate_succ; [lia..|]|].
      rewrite Hsh by lia. replace (k + 1 - 1) with k by lia. split; [done|]. intros k' Hk' Hc1. destruct (decide (k' = 0)) as [->|Hne].
      * cbn. intros [= He]. by eapply (Hfirst eq_refl 0).
      * rewrite Hsh by lia. apply Hmin; [lia|]. apply candidate_succ; [lia..|]. by replace (k' - 1 + 1) with k' by lia.
    + intros k' Hk' Hc1. destruct (decide (k' = 0)) as [->|Hne].
      * cbn. intros [= He]. by eapply (Hfirst eq_refl 0).
      * rewrite Hsh by lia. apply IH; [lia|]. apply candidate_succ; [lia..|]. by replace (k' - 1 + 1) with k' by lia.
Qed.

Lemma zl_find_spec fuel l1 l2 vstr skip cnt venc :
  zwf zl (l1 ++ l2) -> zlen l2 < Z.of_nat fuel -> venc_ok vstr venc ->
  find_loop fuel zl (10 + size l1) vstr skip cnt venc = Some (offset (l1 ++ l2) <$> find_items skip cnt vstr l2 (zlen l1)).
Proof.
  revert fuel l1 cnt venc. induction l2 as [|it l2 IH]; intros fuel l1 cnt venc Hwf Hf Hv; zlen_pos; (destruct fuel as [|fuel]; [lia|]); cbn [find_loop find_items].
  { pose proof (zwf_end _ _ Hwf) as He. rewrite app_nil_r in *. rewrite He. by mstep. }
  destruct (nav_not_end _ _ _ _ Hwf) as (b & -> & Hb). mstep. rewrite Hb. rewrite (nav_prevlensize _ _ _ _ Hwf). mstep. rewrite (nav_decode _ _ _ _ Hwf). mstep.
  rewrite zlen_cons in *. pose proof (zwf_shift _ _ _ _ Hwf) as Hwf'. pose proof (body_sum it) as Hbs. assert (rawlen it = psize it + zlen (body it.2)) as Hr by done.
  assert (forall cnt venc, venc_ok vstr venc -> find_loop fuel zl (10 + size l1 + psize it + zlen (hdr_of it.2) + zlen (data_of it.2)) vstr skip cnt venc =
    Some (offset (l1 ++ it :: l2) <$> find_items skip cnt vstr l2 (zlen l1 + 1))) as Hnext.
  { intros cnt' venc' Hv'. specialize (IH fuel (l1 ++ [it]) cnt' venc' Hwf' ltac:(lia) Hv').
    rewrite size_snoc, zlen_snoc, <- app_assoc in IH. cbn [app] in IH. rewrite <- IH. f_equal. lia. }
  destruct (cnt =? 0) eqn:Ec; cbn [andb]; [|by apply Hnext].
  replace (10 + size l1 + psize it + zlen (hdr_of it.2)) with (10 + size l1 + (psize it + zlen (hdr_of it.2))) in * by lia.
  destruct (string2ll it.2) as [v|] eqn:Es.
  - destruct (nav_int _ _ _ _ Hwf v Es) as [-> ->]. destruct (venc_step vstr venc Hv) as (Hv' & Hn0 & Hs').
    set (venc' := if snd venc =? 0 then _ else _) in *. rewrite (proj2 (Z.eqb_neq _ _) Hn0).
    destruct (string2ll vstr) as [w|] eqn:Ew.
    + destruct Hs' as [<- H255]. rewrite (proj2 (Z.eqb_neq _ _) H255). cbn [negb]. mstep. rewrite (string2ll_eqb it.2 vstr v venc'.1) by done.
      case_bool_decide; [cbn [fmap option_fmap option_map]; by rewrite offset_app|by apply Hnext].
    + rewrite Hs'. change (255 =? 255) with true. cbn [negb]. mstep. rewrite bool_decide_false by congruence. by apply Hnext.
  - destruct (nav_str _ _ _ _ Hwf Es) as (-> & Hd & Hl). rewrite Hd in *. destruct (zlen it.2 =? zlen vstr) eqn:E; boolsimp.
    + rewrite <- E, Hl. mstep. case_bool_decide; [cbn [fmap option_fmap option_map]; by rewrite offset_app|by apply Hnext].
    + mstep. rewrite bool_decide_false by congruence. by apply Hnext.
Qed.

(** ** Counting *)

Lemma count_spec fuel l1 l2 n :
  zwf zl (l1 ++ l2) -> zlen l2 < Z.of_nat fuel -> 0 <= n -> n + zlen l2 < 2 ^ 32 -> count_entries fuel zl (10 + size l1) n = Some (n + zlen l2).
Proof.
  revert fuel l1 n. induction l2 as [|it l2 IH]; intros fuel l1 n Hwf Hf Hn Hb; zlen_pos; (destruct fuel as [|fuel]; [lia|]); cbn [count_entries].
  - pose proof (zwf_end _ _ Hwf) as He. rewrite app_nil_r in He. rewrite He. mstep. f_equal. zlia.
  - destruct (nav_not_end _ _ _ _ Hwf) as (b & -> & He). mstep. rewrite He. cbn [negb]. rewrite (nav_raw _ _ _ _ Hwf). mstep. rewrite zlen_cons in *.
    rewrite uN_small by lia. apply zwf_shift in Hwf. specialize (IH fuel (l1 ++ [it]) (n + 1) Hwf ltac:(lia) ltac:(lia) ltac:(lia)).
    rewrite size_snoc, Z.add_assoc in IH. rewrite IH. f_equal. lia.
Qed.

Lemma len_spec items : zwf zl items -> exists zl', ziplistLen zl = Some (zlen items, zl') /\ zwf zl' items.
Proof.
  intros Hwf. pose proof (zwf_size _ _ Hwf) as (_ & Hs & Hn). pose proof (zwf_fuel _ _ Hwf) as Hfu. zlen_pos.
  pose proof (count_spec (S (length zl)) [] items 0 Hwf ltac:(lia) ltac:(lia) ltac:(lia)) as Hcs. rewrite Z.add_0_l in Hcs. cbn [size] in Hcs.
  destruct Hwf as (Hok & Hsz & count & Hc & Hz). pose proof (count_ok_u16 _ _ Hc) as Hu. unfold ziplistLen.
  assert (ZIPLIST_LENGTH zl = Some (rep16 count)) as -> by (rewrite Hz; by apply get_count).
  assert (forall n, set_ZIPLIST_LENGTH zl (rep16 n) = Some (hdr (11 + size items) (10 + last_ofs items) n ++ rend 0 items ++ [255])) as Hput
    by (intros; rewrite Hz; apply put_count). mstep. rewrite intrev16ifbe_unrep by done. mstep. unfold UINT16_MAX. change (2 ^ 16 - 1) with 65535.
  casif; [exists zl; split; [f_equal; f_equal; unfold count_ok in Hc; lia|by repeat (split; [done|]); exists count]|].
  unfold ZIPLIST_HEADER_SIZE. change (10 + 0) with 10 in Hcs. rewrite Hcs. mstep. casif.
  - unfold is_u in *. rewrite uN_small by lia. rewrite intrev16ifbe_rep. mstep. rewrite Hput. mstep. eexists. split; [done|].
    split; [done|]. split; [done|]. exists (zlen items). split; [left; lia|done].
  - exists zl. split; [done|]. split; [done|]. split; [done|]. by exists count.
Qed.
End Loops.
End Nav.

(** * Ziplists: merging two blocks *)

(** The items of the result: the entries of the second after the last of the first *)
Definition merged (items1 items2 : list item) : list item := items1 ++ widen (lastlen 0 items1) items2.

Lemma merged_strings items1 items2 : map snd (merged items1 items2) = map snd items1 ++ map snd items2.
Proof. unfold merged. by rewrite map_app, widen_strings. Qed.
Lemma merged_ok items1 items2 : items_ok 0 items1 -> items_ok 0 items2 -> items_ok 0 (merged items1 items2).
Proof. intros Hn1 Hn2. unfold merged. apply items_ok_app. split; [done|]. by eapply widen_ok. Qed.

Section Merge.
Context `{Host} `{Alloc}.

(** The copy of the entries of one block behind those of the other *)
Lemma merge_body h1 h2 R1 R2 (append : bool) :
  zlen h1 = 10 -> zlen h2 = 10 ->
  let first := h1 ++ R1 ++ [255] in let second := h2 ++ R2 ++ [255] in
  let target := if append then first else second in let source := if append then second else first in
  let tb := zlen target in let sb := zlen source in
  (if append then
     let! b := load source ZIPLIST_HEADER_SIZE (sb - ZIPLIST_HEADER_SIZE) in
     store (realloc target (11 + zlen R1 + zlen R2)) (tb - ZIPLIST_END_SIZE) b
   else
     let! target := memmove (realloc target (11 + zlen R1 + zlen R2)) (sb - ZIPLIST_END_SIZE) ZIPLIST_HEADER_SIZE (tb - ZIPLIST_HEADER_SIZE) in
     let! b := load source 0 (sb - ZIPLIST_END_SIZE) in
     store target 0 b) = Some (h1 ++ R1 ++ R2 ++ [255]).
Proof.
  intros Hh1 Hh2. cbv zeta. unfold ZIPLIST_HEADER_SIZE, ZIPLIST_END_SIZE. destruct append.
  - rewrite load_app_r by zlia. mstep.
    destruct (realloc_grow (h1 ++ R1 ++ [255]) (11 + zlen R1 + zlen R2)) as (J & -> & HJ & _); [zlia|].
    replace ((h1 ++ R1 ++ [255]) ++ J) with ((h1 ++ R1) ++ ([255] ++ J)) by (by rewrite <- !app_assoc).
    rewrite store_app_r by zlia. by rewrite <- !app_assoc.
  - destruct (realloc_grow (h2 ++ R2 ++ [255]) (11 + zlen R1 + zlen R2)) as (J & -> & HJ & _); [zlia|].
    destruct (zl_memmove_up h2 (R2 ++ [255]) J [] 10) as (X & Hm & HX); [done|]. rewrite app_nil_r in Hm.
    replace ((h2 ++ R2 ++ [255]) ++ J) with (h2 ++ (R2 ++ [255]) ++ J) by (by rewrite <- !app_assoc).
    replace (zlen (h1 ++ R1 ++ [255]) - 1) with (10 + zlen J) by zlia. replace (zlen (h2 ++ R2 ++ [255]) - 10) with (zlen (R2 ++ [255])) by zlia.
    rewrite Hm. mstep. replace (h1 ++ R1 ++ [255]) with ([] ++ (h1 ++ R1) ++ [255]) by (by rewrite <- !app_assoc).
    rewrite (load_app []) by zlia. mstep.
    replace (h2 ++ X ++ (R2 ++ [255]) ++ []) with ([] ++ (h2 ++ X) ++ (R2 ++ [255])) by (by rewrite app_nil_r, <- !app_assoc).
    rewrite (store_app []) by zlia. cbn [app]. by rewrite <- !app_assoc.
Qed.

(** The seam *)
Lemma merge_seam items1 items2 count :
  items_ok 0 items1 -> items_ok 0 items2 -> is_u 16 count -> (items2 = [] -> items1 = []) -> 11 + size (merged items1 items2) < 2 ^ 32 ->
  __ziplistCascadeUpdate (hdr (11 + size items1 + size items2) (10 + size items1 + last_ofs items2) count
                          ++ rend 0 items1 ++ rend 0 items2 ++ [255]) (10 + last_ofs items1) =
  Some (hdr (11 + size (merged items1 items2)) (10 + last_ofs (merged items1 items2)) count ++ rend 0 (merged items1 items2) ++ [255]).
Proof.
  intros Hok1 Hok2 Hc Hne Hsz. unfold merged in *. pose proof (widen_size (lastlen 0 items1) items2) as Hws. rewrite size_app in Hsz.
  pose proof (size_nonneg items1). pose proof (size_nonneg items2). zlen_pos.
  destruct (decide (items1 = [])) as [->|Hn1].
  - cbn [lastlen app size last_ofs rend] in *. rewrite widen_fits in * by done. destruct items2 as [|it its].
    + cbn. unfold __ziplistCascadeUpdate. rewrite get_bytes by (unfold is_u; lia). mstep. rewrite intrev32ifbe_unrep by (unfold is_u; lia). mstep.
      cbn [cascade_loop]. by rewrite (end_at (hdr 11 10 count) []) by (by rewrite zlen_ziphdr).
    + destruct Hok2 as [Hb Hok2]. cbn [size] in *. pose proof (rawlen_pos it). pose proof (size_nonneg its). pose proof (zlen_nonneg its).
      pose proof (cascade_spec its [] 0 it (rawlen it) count ltac:(lia) Hb Hc ltac:(lia) Hok2) as Hcas. rewrite widen_fits in Hcas by done.
      rewrite !zlen_nil in Hcas. specialize (Hcas ltac:(zlia)). cbn [app rend] in *. rewrite !Z.add_0_r in *.
      rewrite <- app_assoc. rewrite Z.add_assoc. rewrite Hcas. done.
  - assert (items2 <> []) as Hn2 by tauto. destruct (exists_last Hn1) as (l & it & ->). apply items_ok_app in Hok1 as [Hokl [Hb _]].
    pose proof (lastlen_bound 0 l ltac:(lia)). pose proof (size_nonneg l). pose proof (rawlen_pos it). zlen_pos.
    rewrite lastlen_app in *. cbn [lastlen] in *. rewrite !size_app in *. cbn [size] in *.
    pose proof (cascade_spec items2 (rend 0 l) (lastlen 0 l) it 0 count ltac:(lia) Hb Hc ltac:(lia) Hok2) as Hcas. rewrite zlen_rend in Hcas.
    specialize (Hcas ltac:(lia)). rewrite (last_ofs_cons it items2) in Hcas by done. rewrite (last_ofs_app l [it]) by done.
    rewrite (last_ofs_app (l ++ [it])) by (intros ?%widen_nil; done). rewrite !rend_app. rewrite lastlen_app. cbn [rend lastlen last_ofs].
    rewrite size_app. cbn [size]. rewrite app_nil_r, <- !app_assoc.
    rewrite (last_ofs_cons it (widen _ _)) in Hcas by (intros ?%widen_nil; done).
    replace (11 + (size l + (rawlen it + 0)) + size items2) with (11 + size l + rawlen it + size items2) by lia.
    replace (10 + (size l + (rawlen it + 0)) + last_ofs items2) with (10 + size l + (rawlen it + last_ofs items2)) by lia.
    replace (10 + (size l + 0)) with (10 + size l) by lia. rewrite Hcas. f_equal. f_equal. f_equal; lia.
Qed.

Lemma merge_spec first second items1 items2 :
  zwf first items1 -> zwf second items2 -> (items2 = [] -> items1 = []) -> 11 + size items1 + size items2 + 4 * zlen items2 < 2 ^ 32 ->
  exists zl append, ziplistMerge first second = Some (zl, append) /\ zwf zl (merged items1 items2).
Proof.
  intros (Hok1 & Hsz1 & c1 & Hc1 & ->) (Hok2 & Hsz2 & c2 & Hc2 & ->) Hne Hsz.
  pose proof (count_ok_u16 _ _ Hc1). pose proof (count_ok_u16 _ _ Hc2). pose proof (size_nonneg items1). pose proof (size_nonneg items2).
  pose proof (last_ofs_bound items1). pose proof (last_ofs_bound items2). pose proof (widen_size (lastlen 0 items1) items2). zlen_pos.
  unfold ziplistMerge. rewrite !get_bytes by (unfold is_u; lia). mstep. rewrite !intrev32ifbe_unrep by (unfold is_u; lia). mstep.
  rewrite !get_count by done. mstep. rewrite !intrev16ifbe_unrep by done. mstep.
  set (append := c1 >=? c2). set (h1 := hdr _ _ c1). set (h2 := hdr _ _ c2).
  assert ((if append then (h1 ++ rend 0 items1 ++ [255], 11 + size items1, h2 ++ rend 0 items2 ++ [255], 11 + size items2)
    else (h2 ++ rend 0 items2 ++ [255], 11 + size items2, h1 ++ rend 0 items1 ++ [255], 11 + size items1)) =
    (if append then h1 ++ rend 0 items1 ++ [255] else h2 ++ rend 0 items2 ++ [255],
     zlen (if append then h1 ++ rend 0 items1 ++ [255] else h2 ++ rend 0 items2 ++ [255]),
     if append then h2 ++ rend 0 items2 ++ [255] else h1 ++ rend 0 items1 ++ [255],
     zlen (if append then h2 ++ rend 0 items2 ++ [255] else h1 ++ rend 0 items1 ++ [255]))) as ->.
  { unfold h1, h2. destruct append; repeat f_equal; zlia. }
  assert (ZIPLIST_ENTRY_TAIL (h1 ++ rend 0 items1 ++ [255]) = Some (10 + last_ofs items1)) as -> by (unfold h1; apply entry_tail; unfold is_u; lia).
  assert (ZIPLIST_ENTRY_TAIL (h2 ++ rend 0 items2 ++ [255]) = Some (10 + last_ofs items2)) as -> by (unfold h2; apply entry_tail; unfold is_u; lia).
  mstep. assert (u64 (11 + size items1 + (11 + size items2) - ZIPLIST_HEADER_SIZE - ZIPLIST_END_SIZE) = 11 + zlen (rend 0 items1) + zlen (rend 0 items2)) as ->.
  { rewrite !zlen_rend. unfold ZIPLIST_HEADER_SIZE, ZIPLIST_END_SIZE. rewrite uN_small; lia. }
  pose proof (merge_body h1 h2 (rend 0 items1) (rend 0 items2) append (zlen_ziphdr _ _ _) (zlen_ziphdr _ _ _)) as Hmb. cbv zeta in Hmb. rewrite Hmb. mstep. clear Hmb.
  rewrite !zlen_rend. unfold ZIPLIST_END_SIZE, ZIPLIST_HEADER_SIZE. rewrite !(uN_small 32) by lia. rewrite !intrev32ifbe_rep. mstep. unfold h1.
  rewrite put_bytes. mstep. set (count := if c1 + c2 <? UINT16_MAX then c1 + c2 else UINT16_MAX).
  assert (count_ok count (merged items1 items2)) as Hcount.
  { unfold count, count_ok, UINT16_MAX, merged, is_u in *. rewrite zlen_app, zlen_widen. casif; lia. }
  pose proof (count_ok_u16 _ _ Hcount) as Hcu. rewrite (uN_small 16 count) by done. rewrite !intrev16ifbe_rep. mstep. rewrite put_count. mstep.
  rewrite put_tail. mstep.
  replace (11 + size items1 - 1 + (10 + last_ofs items2 - 10)) with (10 + size items1 + last_ofs items2) by lia.
  assert (11 + size (merged items1 items2) < 2 ^ 32) by (unfold merged; rewrite size_app; lia).
  rewrite merge_seam by done. mstep. eexists _, append. split; [done|]. split; [by apply merged_ok|]. split; [done|]. by exists count.
Qed.
End Merge.
