(* ===== verification/ZiplistSpec.v ===== *)
(** * Ziplists: what the operations do

    [holds zl strs]: the block [zl] is a ziplist whose entries hold the strings [strs].  The
    operations refine the operations on that list.  The bounds exclude the blocks of four
    gigabytes and more, whose size the header cannot store. *)

From Stdlib Require Import ZArith Lia.
From stdpp Require Import base numbers option list.
From S2P Require Import Prelude Memory Bits Endian Util UtilFacts Ziplist ZiplistFacts ZiplistOps ZiplistUpdate ZiplistDelete ZiplistNav.

Local Open Scope Z_scope.
Local Open Scope redis_scope.

(** An index from the end is negative. *)
Definition position (n index : Z) : option nat :=
  let i := if index <? 0 then n + index else index in
  if (0 <=? i) && (i <? n) then Some (Z.to_nat i) else None.

(** Operations of a client, and what they do to the list of strings *)
Inductive zop :=
  | OpPush (s : bytes) (w : where_)
  | OpInsert (index : Z) (s : bytes)
  | OpDelete (index : Z)
  | OpDeleteRange (index num : Z).

Definition apply_op (strs : list bytes) (op : zop) : list bytes :=
  match op with
  | OpPush s ZIPLIST_HEAD => s :: strs
  | OpPush s ZIPLIST_TAIL => strs ++ [s]
  | OpInsert index s => match position (zlen strs) index with Some i => take i strs ++ s :: drop i strs | None => strs end
  | OpDelete index => match position (zlen strs) index with Some i => take i strs ++ drop (S i) strs | None => strs end
  | OpDeleteRange index num =>
      match position (zlen strs) index with Some i => take i strs ++ drop (i + Z.to_nat num) strs | None => strs end
  end.

(** The most bytes the entries of these strings can take *)
Definition weight (strs : list bytes) : Z := foldr (fun s n => zlen s + 14 + n) 0 strs.

(** The arguments are in the range of their C types and the block stays small enough. *)
Definition fits (strs : list bytes) (op : zop) : Prop :=
  match op with
  | OpPush s _ => 3 * weight strs + zlen s < 2 ^ 32 - 33
  | OpInsert index s => INT32_MIN < index /\ 3 * weight strs + zlen s < 2 ^ 32 - 33
  | OpDelete index => INT32_MIN < index /\ 3 * weight strs < 2 ^ 32 - 33
  | OpDeleteRange index num => INT32_MIN < index /\ 0 <= num < 2 ^ 32 /\ 3 * weight strs < 2 ^ 32 - 33
  end.

Fixpoint fits_all (strs : list bytes) (ops : list zop) : Prop :=
  match ops with [] => True | op :: ops => fits strs op /\ fits_all (apply_op strs op) ops end.

Section Spec.
Context `{Host} `{Alloc}.

Definition holds (zl : bytes) (strs : list bytes) : Prop := exists items, zwf zl items /\ map snd items = strs.

(** ** Positions *)

Lemma zlen_items (items : list item) strs : map snd items = strs -> zlen items = zlen strs.
Proof. intros <-. by rewrite zlen_map. Qed.

Lemma split_items (items : list item) n : exists l1 l2, items = l1 ++ l2 /\ l1 = take n items /\ l2 = drop n items.
Proof. exists (take n items), (drop n items). by rewrite take_drop. Qed.

Lemma insert_room zl l1 l2 (s : bytes) : zwf zl (l1 ++ l2) -> 3 * zlen zl + zlen s < 2 ^ 32 -> 25 + size (l1 ++ l2) + zlen s + 4 * zlen l2 < 2 ^ 32.
Proof.
  intros (Hl & _ & _)%zwf_size Hb. pose proof (size_nonneg (l1 ++ l2)). rewrite zlen_app in *. pose proof (zlen_nonneg l1). lia.
Qed.

Lemma insert_at zl items n s :
  zwf zl items -> 3 * zlen zl + zlen s < 2 ^ 32 ->
  exists zl', __ziplistInsert zl (10 + size (take n items)) s = Some zl' /\ holds zl' (take n (map snd items) ++ s :: drop n (map snd items)).
Proof.
  intros Hwf Hb. rewrite <- (take_drop n items) in Hwf. destruct (zl_insert_spec zl (take n items) (drop n items) s Hwf) as (zl' & Hi & Hw).
  { by eapply insert_room. }
  exists zl'. split; [done|]. eexists. split; [done|]. by rewrite ins_strings, firstn_map, skipn_map.
Qed.

Lemma size_weight items : size items <= weight (map snd items).
Proof.
  induction items as [|it its IH]; [done|]. cbn [size map weight foldr]. fold (weight (map snd its)).
  unfold rawlen. pose proof (zlen_body_le it.2). pose proof (psize_bound it). lia.
Qed.
Lemma zlen_weight zl items : zwf zl items -> zlen zl <= 11 + weight (map snd items).
Proof. intros (-> & _ & _)%zwf_size. pose proof (size_weight items). lia. Qed.

Lemma index_at zl items index :
  zwf zl items -> INT32_MIN < index ->
  ziplistIndex zl index = Some ((fun i => 10 + size (take i items)) <$> position (zlen items) index).
Proof. intros Hwf Hi. rewrite (index_spec zl items index Hwf Hi). unfold position, offset. cbv zeta. by case_match. Qed.

Lemma position_lt n index i : position n index = Some i -> Z.of_nat i < n.
Proof. unfold position. cbv zeta. case_match eqn:E; [|done]. intros [= <-]. boolsimp. lia. Qed.

Lemma new_holds : exists zl, ziplistNew = Some zl /\ zwf zl [].
Proof.
  unfold ziplistNew, ZIPLIST_HEADER_SIZE, ZIPLIST_END_SIZE. change (10 + 1) with 11.
  destruct (realloc_grow [] 11) as (J & -> & HJ & _); [done|]. cbn [app]. rewrite !intrev32ifbe_rep. mstep.
  change (zlen (@nil Z)) with 0 in HJ. destruct (split_range J 0 4) as (N & A & J1 & -> & HN & HA); [lia..|]. apply zlen_0_inv in HN as ->. cbn [app] in *.
  rewrite zlen_app in HJ. destruct (split_range J1 0 4) as (N & B & J2 & -> & HN & HB); [lia..|]. apply zlen_0_inv in HN as ->. cbn [app] in *.
  rewrite zlen_app in HJ. destruct (split_range J2 0 2) as (N & C & E & -> & HN & HC); [lia..|]. apply zlen_0_inv in HN as ->. cbn [app] in *. rewrite zlen_app in HJ.
  unfold set_ZIPLIST_BYTES, set_ZIPLIST_TAIL_OFFSET, set_ZIPLIST_LENGTH. rewrite !host_enc_rep32.
  assert (store (A ++ B ++ C ++ E) 0 (le_enc 4 11) = Some (le_enc 4 11 ++ B ++ C ++ E)) as -> by (apply (store_app []); zlia). mstep. rewrite (store_app (le_enc 4 11) B) by zlia. mstep.
  assert (host_enc 2 0 = le_enc 2 0) as -> by (unfold host_enc; by destruct big_endian).
  rewrite (app_assoc (le_enc 4 11)), (store_app (le_enc 4 11 ++ le_enc 4 10) C) by zlia. mstep. unfold store1.
  rewrite (app_assoc (le_enc 4 11 ++ le_enc 4 10)), store_app_r by zlia. eexists. split; [done|].
  split; [done|]. split; [done|]. exists 0. split; [by left|]. by rewrite <- !app_assoc.
Qed.

Lemma delete_zero zl l1 it l2 : zwf zl (l1 ++ it :: l2) -> __ziplistDelete zl (10 + size l1) 0 = Some zl.
Proof.
  intros Hwf. unfold __ziplistDelete. rewrite (nav_entry _ _ _ _ Hwf). mstep. cbn [ep skip_entries].
  destruct (nav_not_end _ _ _ _ Hwf) as (b & -> & Hb). mstep. rewrite Hb. change (negb false && (0 <? 0)) with false. cbv iota. mstep. by rewrite Z.sub_diag.
Qed.

Lemma delete_at zl items i num :
  zwf zl items -> Z.of_nat i < zlen items -> 0 <= num -> 3 * zlen zl < 2 ^ 32 ->
  exists zl', __ziplistDelete zl (10 + size (take i items)) num = Some zl' /\ holds zl' (take i (map snd items) ++ drop (i + Z.to_nat num) (map snd items)).
Proof.
  intros Hwf Hi Hn Hb. destruct (lookup_lt_is_Some_2 items i) as [it Hit]; [unfold zlen in *; lia|].
  pose proof (take_drop_middle items i it Hit) as Hs. pose proof (zwf_size _ _ Hwf) as (Hz & _ & _). pose proof (size_nonneg items) as Hsn.
  destruct (decide (num = 0)) as [->|Hne].
  - exists zl. rewrite Nat.add_0_r, take_drop. split; [|by exists items]. rewrite <- Hs in Hwf. by apply (delete_zero _ _ it (drop (S i) items)).
  - set (d := take (Z.to_nat num) (drop i items)). set (l2 := drop (i + Z.to_nat num) items).
    assert (items = take i items ++ d ++ l2) as Hsp.
    { unfold d, l2. by rewrite <- drop_drop, take_drop, take_drop. }
    assert (drop i items = it :: drop (S i) items) as Hdi by (by apply drop_S).
    destruct (zl_delete_spec zl (take i items) d l2 num) as (zl' & Hd & Hw).
    + by rewrite <- Hsp.
    + unfold d. rewrite Hdi. destruct (Z.to_nat num) eqn:E; [lia|done].
    + unfold d, l2. destruct (decide (num <= zlen (drop i items))) as [Hle|Hgt].
      * left. unfold zlen in *. rewrite length_take. lia.
      * right. split; [apply drop_ge; unfold zlen in *; rewrite length_drop in *; lia|]. unfold zlen. rewrite length_take. lia.
    + rewrite <- Hsp. assert (zlen l2 <= zlen items) by (unfold l2, zlen; rewrite length_drop; lia). lia.
    + exists zl'. split; [done|]. eexists. split; [done|]. rewrite del_strings. unfold l2. by rewrite firstn_map, skipn_map.
Qed.

(** ** Updates *)

Definition exec_op (zl : bytes) (op : zop) : option bytes :=
  match op with
  | OpPush s w => ziplistPush zl s w
  | OpInsert index s =>
      let! p := ziplistIndex zl index in
      match p with Some p => ziplistInsert zl p s | None => Some zl end
  | OpDelete index =>
      let! p := ziplistIndex zl index in
      match p with Some p => let! (zl, _) := ziplistDelete zl p in Some zl | None => Some zl end
  | OpDeleteRange index num => ziplistDeleteRange zl index num
  end.
Fixpoint exec_ops (zl : bytes) (ops : list zop) : option bytes :=
  match ops with [] => Some zl | op :: ops => let! zl := exec_op zl op in exec_ops zl ops end.

Lemma push_spec zl strs s w :
  holds zl strs -> 3 * weight strs + zlen s < 2 ^ 32 - 33 -> exists zl', ziplistPush zl s w = Some zl' /\ holds zl' (apply_op strs (OpPush s w)).
Proof.
  intros (items & Hwf & <-) Hb. pose proof (zlen_weight _ _ Hwf) as Hw. unfold ziplistPush. destruct w.
  - destruct (insert_at zl items 0 s Hwf ltac:(lia)) as (zl' & Hi & Hh). exists zl'. split; [exact Hi|done].
  - unfold ZIPLIST_ENTRY_END. pose proof (zwf_bytes _ _ Hwf) as Hbytes.
    destruct (ZIPLIST_BYTES zl) as [b|]; [|done]. cbn in Hbytes |- *. rewrite Hbytes. mstep.
    destruct (insert_at zl items (length items) s Hwf ltac:(lia)) as (zl' & Hi & Hh). rewrite take_ge in Hi by done.
    replace (11 + size items - 1) with (10 + size items) by lia. exists zl'. split; [exact Hi|].
    rewrite (take_ge (map snd items)), (drop_ge (map snd items)) in Hh by (by rewrite length_map). exact Hh.
Qed.

Lemma op_spec zl strs op :
  holds zl strs -> fits strs op -> exists zl', exec_op zl op = Some zl' /\ holds zl' (apply_op strs op).
Proof.
  intros Hh. destruct op as [s w|index s|index|index num]; cbn [fits exec_op].
  { by apply push_spec. }
  all: destruct Hh as (items & Hwf & <-); pose proof (zlen_weight _ _ Hwf) as Hw; unfold ziplistDeleteRange, ziplistDelete, ziplistInsert; cbn [apply_op].
  - intros [Hmin Hb]. rewrite (index_at zl items index Hwf Hmin). mstep. rewrite zlen_map.
    destruct (position (zlen items) index) as [i|] eqn:E; cbn [fmap option_fmap option_map]; [|exists zl; split; [done|by exists items]].
    apply insert_at; [done|lia].
  - intros [Hmin Hb]. rewrite (index_at zl items index Hwf Hmin). mstep. rewrite zlen_map.
    destruct (position (zlen items) index) as [i|] eqn:E; cbn [fmap option_fmap option_map]; [|exists zl; split; [done|by exists items]].
    destruct (delete_at zl items i 1 Hwf (position_lt _ _ _ E) ltac:(lia) ltac:(lia)) as (zl' & -> & Hh'). mstep. exists zl'. split; [done|].
    change (Z.to_nat 1) with 1%nat in Hh'. by rewrite Nat.add_1_r in Hh'.
  - intros (Hmin & Hn & Hb). rewrite (index_at zl items index Hwf Hmin). mstep. rewrite zlen_map.
    destruct (position (zlen items) index) as [i|] eqn:E; cbn [fmap option_fmap option_map]; [|exists zl; split; [done|by exists items]].
    apply delete_at; [done|by eapply position_lt|lia|lia].
Qed.

Lemma ops_spec zl strs ops :
  holds zl strs -> fits_all strs ops -> exists zl', exec_ops zl ops = Some zl' /\ holds zl' (fold_left apply_op ops strs).
Proof.
  revert zl strs. induction ops as [|op ops IH]; intros zl strs Hh Hf; cbn [exec_ops fold_left]; [by exists zl|].
  destruct Hf as [Hf Hfs]. destruct (op_spec zl strs op Hh Hf) as (zl1 & -> & Hh1). mstep. by apply IH.
Qed.

(** C14. Ziplists refine lists of strings: a block created empty and changed by any sequence of pushes at
    either end, insertions before an entry, deletions of an entry and of a range of entries, whose arguments
    fit their types and whose strings fit a block, always holds exactly the list of strings that the same
    operations give on lists, and no operation reads or writes outside the block or fails an assertion, on
    hosts of either byte order and whatever [realloc] leaves in new memory. *)
Theorem ziplist_refines ops :
  fits_all [] ops ->
  exists zl zl', ziplistNew = Some zl /\ exec_ops zl ops = Some zl' /\ holds zl' (fold_left apply_op ops []).
Proof.
  intros Hf. destruct new_holds as (zl & Hn & Hwf).
  destruct (ops_spec zl [] ops) as (zl' & He & Hh); [by exists []|done|]. by exists zl, zl'.
Qed.

(** [ziplistMerge] concatenates: the result, in the place of the block with more entries, holds the
    strings of the first block and then those of the second, and is well formed: the tail offset, the count
    and the lengths of the previous entries are right across the seam.  It is right when the second block
    has an entry or both are empty. *)
Theorem ziplistMerge_correct first second strs1 strs2 :
  holds first strs1 -> holds second strs2 -> (strs2 = [] -> strs1 = []) ->
  zlen first + 3 * zlen second < 2 ^ 32 ->
  exists zl append, ziplistMerge first second = Some (zl, append) /\ holds zl (strs1 ++ strs2).
Proof.
  intros (items1 & Hw1 & <-) (items2 & Hw2 & <-) Hne Hb.
  pose proof (zwf_size _ _ Hw1) as (? & _ & _). pose proof (zwf_size _ _ Hw2) as (? & _ & _). pose proof (size_nonneg items2).
  destruct (merge_spec first second items1 items2 Hw1 Hw2) as (zl & append & Hm & Hw).
  - intros ->. specialize (Hne eq_refl). by destruct items1.
  - lia.
  - exists zl, append. split; [done|]. eexists. split; [done|]. apply merged_strings.
Qed.

(** ** Walks *)

Definition offsets (items : list item) : list Z := (fun i => 10 + size (take i items)) <$> seq 0 (length items).

Lemma length_offsets items : length (offsets items) = length items.
Proof. unfold offsets. by rewrite length_fmap, length_seq. Qed.
Lemma offsets_lookup items i : offsets items !! i = if decide (i < length items)%nat then Some (10 + size (take i items)) else None.
Proof.
  unfold offsets. rewrite list_lookup_fmap. destruct (decide (i < length items)%nat).
  - by rewrite lookup_seq_lt by done.
  - by rewrite lookup_seq_ge by lia.
Qed.

Lemma offsets_inv items i p : offsets items !! i = Some p ->
  exists it, items = take i items ++ it :: drop (S i) items /\ items !! i = Some it /\ p = 10 + size (take i items).
Proof.
  rewrite offsets_lookup. case_decide as Hlt; [|done]. intros [= <-]. destruct (lookup_lt_is_Some_2 items i Hlt) as [it Hit].
  exists it. by rewrite take_drop_middle.
Qed.

Lemma last_ofs_snoc l it : last_ofs (l ++ [it]) = size l.
Proof. rewrite last_ofs_app by done. cbn [last_ofs]. lia. Qed.

Lemma walk_next zl items i p : zwf zl items -> offsets items !! i = Some p -> ziplistNext zl p = Some (offsets items !! S i).
Proof.
  intros Hwf (it & Hs & Hit & ->)%offsets_inv. rewrite Hs in Hwf. rewrite (zl_next_entry _ _ _ _ Hwf). f_equal. rewrite offsets_lookup.
  pose proof (f_equal length Hs) as Hl. rewrite length_app in Hl. cbn [length] in Hl. rewrite length_drop, length_take in Hl.
  pose proof (lookup_lt_Some _ _ _ Hit). destruct (decide (drop (S i) items = [])) as [Hd|Hd].
  - apply (f_equal length) in Hd. rewrite length_drop in Hd. simpl in Hd. by rewrite decide_False by lia.
  - rewrite decide_True. 2: { assert (length (drop (S i) items) <> 0%nat) as Hn by (by destruct (drop (S i) items)). rewrite length_drop in Hn. lia. }
    rewrite (take_S_r _ _ it) by done. rewrite size_snoc. f_equal. lia.
Qed.

Lemma walk_prev zl items i p : zwf zl items -> offsets items !! i = Some p ->
  ziplistPrev zl p = Some (match i with O => None | S i => offsets items !! i end).
Proof.
  intros Hwf (it & Hs & Hit & ->)%offsets_inv. rewrite Hs in Hwf. rewrite (zl_prev_entry _ _ _ _ Hwf). f_equal. pose proof (lookup_lt_Some _ _ _ Hit).
  destruct i as [|i]; [done|]. destruct (lookup_lt_is_Some_2 items i) as [it' Hit']; [lia|]. rewrite (take_S_r _ _ it') by done.
  rewrite decide_False by (by intros [_ [=]]%app_eq_nil). rewrite last_ofs_snoc, offsets_lookup. by rewrite decide_True by lia.
Qed.

Lemma offsets_last items : last (offsets items) = if decide (items = []) then None else Some (10 + last_ofs items).
Proof.
  rewrite last_lookup, length_offsets, offsets_lookup. destruct (decide (items = [])) as [->|Hne]; [done|].
  destruct (exists_last Hne) as (l & it & ->). rewrite last_ofs_snoc, length_app. cbn [length]. rewrite decide_True by lia.
  replace (pred (length l + 1)) with (length l) by lia. by rewrite take_app_length.
Qed.

Lemma walk_end zl items : zwf zl items ->
  exists e, ZIPLIST_ENTRY_END zl = Some e /\ ziplistNext zl e = Some None /\ ziplistPrev zl e = Some (last (offsets items)).
Proof.
  intros Hwf. exists (10 + size items). pose proof (zwf_bytes _ _ Hwf) as Hb. pose proof (zwf_end _ _ Hwf) as He. split; [|split].
  - unfold ZIPLIST_ENTRY_END. destruct (ZIPLIST_BYTES zl) as [b|]; [|done]. cbn in Hb |- *. rewrite Hb. mstep. f_equal. lia.
  - unfold ziplistNext. by rewrite He.
  - unfold ziplistPrev. rewrite He. mstep. change (255 =? ZIP_END) with true. cbv iota. rewrite (zwf_tail _ _ Hwf). mstep. rewrite offsets_last.
    destruct (decide (items = [])) as [->|Hne]; [cbn [size last_ofs] in *; by rewrite He|].
    destruct (exists_last Hne) as (l & it & ->). rewrite last_ofs_snoc. destruct (nav_not_end _ _ _ _ Hwf) as (b & -> & Hbe). mstep. by rewrite Hbe.
Qed.

(** The walks agree: the entries of a block have offsets such that [ziplistIndex] gives the offset of the
    entry with that index, counted from the head or, when negative, from the tail, and NULL when there is
    none; [ziplistNext] gives the offset of the following entry or NULL after the last; and [ziplistPrev]
    that of the preceding one, NULL before the first, and the last one from the end of the block. *)
Theorem ziplist_walk zl strs :
  holds zl strs ->
  exists ofs : list Z, length ofs = length strs /\
    (forall index, INT32_MIN < index ->
       ziplistIndex zl index = Some (match position (zlen strs) index with Some i => ofs !! i | None => None end)) /\
    (forall i p, ofs !! i = Some p ->
       ziplistNext zl p = Some (ofs !! S i) /\
       ziplistPrev zl p = Some (match i with O => None | S i => ofs !! i end)) /\
    (exists e, ZIPLIST_ENTRY_END zl = Some e /\ ziplistNext zl e = Some None /\ ziplistPrev zl e = Some (last ofs)).
Proof.
  intros (items & Hwf & <-). exists (offsets items). split; [by rewrite length_offsets, length_map|]. split; [|split].
  - intros index Hi. rewrite (index_at zl items index Hwf Hi), zlen_map. f_equal. destruct (position (zlen items) index) as [i|] eqn:E; [|done].
    apply position_lt in E. cbn. rewrite offsets_lookup. rewrite decide_True; [done|unfold zlen in *; lia].
  - intros i p Hp. split; [by apply walk_next|by apply walk_prev].
  - by apply walk_end.
Qed.

(** ** Reading *)

(** What [ziplistGet] gives for a string: the place of its bytes, or the integer they are the decimal notation of. *)
Definition reads (zl : bytes) (v : zipvalue) (s : bytes) : Prop :=
  match v with
  | ZipInt n => decimal s n /\ is_s 64 n
  | ZipStr q n => n = zlen s /\ load zl q n = Some s /\ forall n, ~ (decimal s n /\ is_s 64 n)
  end.

Lemma entry_of zl strs index i :
  holds zl strs -> INT32_MIN < index -> position (zlen strs) index = Some i ->
  exists items it, zwf zl (take i items ++ it :: drop (S i) items) /\ strs !! i = Some it.2 /\ map snd items = strs /\
    ziplistIndex zl index = Some (Some (10 + size (take i items))).
Proof.
  intros (items & Hwf & <-) Hi Hp. rewrite zlen_map in Hp. pose proof (position_lt _ _ _ Hp).
  destruct (lookup_lt_is_Some_2 items i) as [it Hit]; [unfold zlen in *; lia|]. exists items, it.
  rewrite take_drop_middle by done. split; [done|]. assert (map snd items !! i = snd <$> items !! i) as -> by apply list_lookup_fmap. rewrite Hit. split; [done|]. split; [done|].
  by rewrite (index_at zl items index Hwf Hi), Hp.
Qed.

(** What was put in comes out: at the offset [ziplistIndex] gives for an index, [ziplistGet] returns the
    string stored there, as bytes of the block or, when the string is the canonical decimal notation of a 64
    bit integer, as that integer, whatever of the nine encodings the entry has; and [ziplistCompare] says
    whether a string is the stored one. *)
Theorem ziplistGet_correct zl strs index i s :
  holds zl strs -> INT32_MIN < index -> position (zlen strs) index = Some i -> strs !! i = Some s ->
  exists p v, ziplistIndex zl index = Some (Some p) /\ ziplistGet zl (Some p) = Some (Some v) /\ reads zl v s /\
    forall t, ziplistCompare zl p t = Some (bool_decide (s = t)).
Proof.
  intros Hh Hi Hp Hs. destruct (entry_of zl strs index i Hh Hi Hp) as (items & it & Hwf & Hit & _ & Hix). simplify_eq.
  destruct (get_entry _ _ _ _ Hwf) as (v & Hg & Hv). exists (10 + size (take i items)), v. split; [done|]. split; [done|].
  split; [|intros t; by apply (compare_entry _ _ _ _ Hwf)].
  unfold reads. destruct v as [q n|n]; [|by apply string2ll_iff]. destruct Hv as (-> & Hl & Hn).
  split; [done|]. split; [done|]. intros n Hn'%string2ll_iff. congruence.
Qed.

(** [ziplistLen] is the number of entries, also when the header's 16 bits cannot hold it, and at most stores
    the count again; [ziplistBlobLen] is the size of the block. *)
Theorem ziplistLen_correct zl strs :
  holds zl strs -> ziplistBlobLen zl = Some (zlen zl) /\ exists zl', ziplistLen zl = Some (zlen strs, zl') /\ holds zl' strs /\ zlen zl' = zlen zl.
Proof.
  intros (items & Hwf & <-). rewrite zlen_map. pose proof (zwf_size _ _ Hwf) as (Hz & _). split.
  - rewrite Hz. apply (zwf_bytes _ _ Hwf).
  - destruct (len_spec zl items Hwf) as (zl' & Hl & Hw). exists zl'. split; [done|]. split; [by exists items|].
    apply zwf_size in Hw as (-> & _). lia.
Qed.

(** [ziplistFind], from an entry on, finds the nearest of the entries [skip + 1] apart that holds the string
    looked for, and NULL only if none of them does. *)
Theorem ziplistFind_correct zl strs i p vstr skip :
  holds zl strs -> (i < length strs)%nat -> ziplistIndex zl (Z.of_nat i) = Some (Some p) -> 0 <= skip < 2 ^ 31 ->
  exists r, ziplistFind zl p vstr skip = Some r /\
  match r with
  | Some q => exists k : nat, let j := (i + k * S (Z.to_nat skip))%nat in
      strs !! j = Some vstr /\ ziplistIndex zl (Z.of_nat j) = Some (Some q) /\
      forall k', (k' < k)%nat -> strs !! (i + k' * S (Z.to_nat skip))%nat <> Some vstr
  | None => forall k, strs !! (i + k * S (Z.to_nat skip))%nat <> Some vstr
  end.
Proof.
  intros (items & Hwf & <-) Hi Hp Hs. rewrite length_map in Hi. unfold ziplistFind. assert (i32 skip = skip) as -> by (apply sN_small; [lia|unfold is_s; lia]).
  assert (forall j, (j < length items)%nat -> ziplistIndex zl (Z.of_nat j) = Some (Some (10 + size (take j items)))) as Hix.
  { intros j Hj. rewrite (index_spec zl items _ Hwf) by (unfold INT32_MIN; lia). rewrite (proj2 (Z.ltb_ge (Z.of_nat j) 0)) by lia. cbv zeta.
    rewrite (proj2 (Z.leb_le 0 _)), (proj2 (Z.ltb_lt _ _)) by (unfold zlen; lia). unfold offset. by rewrite Nat2Z.id. }
  rewrite (Hix i Hi) in Hp. injection Hp as <-. pose proof (zwf_fuel _ _ Hwf) as Hfu.
  pose proof Hwf as Hwf'. rewrite <- (take_drop i items) in Hwf'.
  assert (zlen (drop i items) <= zlen items) as Hdl by (unfold zlen; rewrite length_drop; lia).
  rewrite (zl_find_spec zl _ _ _ vstr skip 0 (0, 0) Hwf') by (lia || by left). rewrite take_drop.
  eexists. split; [done|]. pose proof (find_items_spec skip 0 vstr (drop i items) (zlen (take i items)) ltac:(lia) ltac:(lia)) as Hfi.
  assert (zlen (take i items) = Z.of_nat i) as Hti by (unfold zlen; rewrite length_take; lia). rewrite Hti in *.
  assert (forall k : Z, 0 <= k -> map snd (drop i items) !! Z.to_nat k = map snd items !! (i + Z.to_nat k)%nat) as Hdr.
  { intros k Hk. by rewrite <- skipn_map, lookup_drop. }
  assert (forall k : nat, candidate skip 0 (Z.of_nat (k * S (Z.to_nat skip)))) as Hcand.
  { intros k. split; [lia|]. rewrite Z.sub_0_r, Nat2Z.inj_mul, Nat2Z.inj_succ, Z2Nat.id by lia. apply Z_mod_mult. }
  destruct (find_items skip 0 vstr (drop i items) (Z.of_nat i)) as [j|]; cbn [fmap option_fmap option_map].
  - destruct Hfi as (k & -> & Hk & [_ Hc] & Hl & Hmin). rewrite Z.sub_0_r in Hc. apply Z.div_exact in Hc; [|lia].
    set (m := k / (skip + 1)) in *. assert (0 <= m) by (apply Z.div_pos; lia). exists (Z.to_nat m). cbv zeta.
    assert ((Z.to_nat m * S (Z.to_nat skip))%nat = Z.to_nat k) as Hm by nia. rewrite Hm. rewrite Hdr in Hl by lia. split; [done|].
    unfold zlen in Hk. rewrite length_drop in Hk. split.
    + rewrite Hix by lia. do 2 f_equal. unfold offset. f_equal. f_equal. f_equal. lia.
    + intros k' Hk' Hl'. assert (Z.of_nat (k' * S (Z.to_nat skip)) < k) by nia. apply (Hmin (Z.of_nat (k' * S (Z.to_nat skip)))); [lia|done|].
      rewrite Hdr by lia. by rewrite Nat2Z.id.
  - intros k Hl. assert (Z.of_nat (k * S (Z.to_nat skip)) < zlen (drop i items)) as Hlt.
    { apply lookup_lt_Some in Hl. rewrite length_map in Hl. unfold zlen. rewrite length_drop. lia. }
    apply (Hfi (Z.of_nat (k * S (Z.to_nat skip)))); [lia|done|]. rewrite Hdr by lia. by rewrite Nat2Z.id.
Qed.
End Spec.

(** The size is cut to 32 bits: a block asked to grow past four gigabytes shrinks instead. *)
Lemma ziplistResize_wraps `{Host} `{Alloc} zl n : ziplistResize zl (2 ^ 32 + n) = ziplistResize zl n.
Proof.
  unfold ziplistResize. assert (u32 (2 ^ 32 + n) = u32 n) as ->; [|done].
  unfold uN. rewrite <- (Z.mul_1_l (2 ^ 32)) at 1. rewrite Z.add_comm. apply Z_mod_plus_full.
Qed.

(** ** Instances *)

Definition little : Host := false.
Definition alloc77 : Alloc := fun _ => 77.

(** "-300", "2" and "hello" *)
Definition block3 : bytes := [24; 0; 0; 0; 16; 0; 0; 0; 3; 0;  0; 192; 212; 254;  4; 243;  2; 5; 104; 101; 108; 108; 111; 255].
Definition strings3 : list bytes := [[45; 51; 48; 48]; [50]; [104; 101; 108; 108; 111]].
Lemma block3_holds : holds block3 strings3.
Proof.
  exists [(false, [45; 51; 48; 48]); (false, [50]); (false, [104; 101; 108; 108; 111])]. split; [|done].
  split; [by vm_compute|]. split; [by vm_compute|]. exists 3. split; [by left|by vm_compute].
Qed.

Lemma ziplist_refines_witness :
  exists zl zl', @ziplistNew little alloc77 = Some zl /\
    @exec_ops little alloc77 zl [OpPush [50] ZIPLIST_TAIL; OpPush [104; 101] ZIPLIST_HEAD; OpInsert (-1) [55]; OpDelete 0; OpDeleteRange 1 9] = Some zl' /\
    holds zl' [[55]].
Proof.
  apply (@ziplist_refines little alloc77 [OpPush [50] ZIPLIST_TAIL; OpPush [104; 101] ZIPLIST_HEAD; OpInsert (-1) [55]; OpDelete 0; OpDeleteRange 1 9]).
  vm_compute. repeat split; discriminate.
Defined.

Lemma ziplistMerge_correct_witness :
  exists zl append, @ziplistMerge little alloc77 block3 block3 = Some (zl, append) /\ holds zl (strings3 ++ strings3).
Proof.
  apply (@ziplistMerge_correct little alloc77 block3 block3 strings3 strings3 block3_holds block3_holds); [discriminate|vm_compute; reflexivity].
Defined.

Lemma ziplist_walk_witness :
  exists ofs : list Z, length ofs = 3%nat /\ @ziplistIndex little block3 (-1) = Some (ofs !! 2%nat).
Proof.
  destruct (@ziplist_walk little block3 strings3 block3_holds) as (ofs & Hl & Hi & _). exists ofs. split; [exact Hl|].
  apply (Hi (-1)). vm_compute. reflexivity.
Defined.

Lemma ziplistGet_correct_witness :
  exists p v, @ziplistIndex little block3 (-3) = Some (Some p) /\ @ziplistGet little block3 (Some p) = Some (Some v) /\
    reads block3 v [45; 51; 48; 48].
Proof.
  destruct (@ziplistGet_correct little block3 strings3 (-3) 0 [45; 51; 48; 48] block3_holds) as (p & v & Hp & Hg & Hr & _);
    [vm_compute; reflexivity..|]. exists p, v. split; [exact Hp|split; [exact Hg|exact Hr]].
Defined.

Lemma ziplistLen_correct_witness : exists zl', @ziplistLen little block3 = Some (3, zl') /\ holds zl' strings3.
Proof.
  destruct (@ziplistLen_correct little block3 strings3 block3_holds) as (_ & zl' & Hl & Hh & _). exists zl'. split; [exact Hl|exact Hh].
Defined.

Lemma ziplistFind_correct_witness : exists r, @ziplistFind little block3 10 [104; 101; 108; 108; 111] 1 = Some r.
Proof.
  destruct (@ziplistFind_correct little block3 strings3 0 10 [104; 101; 108; 108; 111] 1 block3_holds) as (r & Hr & _);
    [vm_compute; lia|vm_compute; reflexivity|vm_compute; split; [discriminate|reflexivity]|]. exists r. exact Hr.
Defined.

(** Merging an empty block behind one with entries leaves the tail offset at the end byte: the entries are there
    from the head, none from the tail. *)
Example ziplistMerge_empty_second : let H := little in let A := alloc77 in
  (let! empty := ziplistNew in
   let! (zl, _) := ziplistMerge block3 empty in
   let! head := ziplistIndex zl 0 in
   let! tail := ziplistIndex zl (-1) in
   Some (head, tail)) = Some (Some 10, None).
Proof. vm_compute. reflexivity. Qed.
