(* ===== verification/Dict.v ===== *)
(** * Hash tables (dict.c, dict.h)

    A dictionary has two tables of chained entries; the second is used while the
    first is rehashed incrementally.  A chain is the list of its entries, a table the
    list of its chains ([NULL] is the empty list), a [dictEntry*] the place of an entry.
    [None] is an access outside a table, a NULL dereference or a failed [assert].
    Hashing and comparison of keys are hooks of the dictionary's type, the class
    [dictType]; [keyDup] and [valDup] are NULL. *)

From Stdlib Require Import ZArith Lia.
From stdpp Require Import base numbers option list.
From S2P Require Import Prelude Memory.

Local Open Scope Z_scope.
Local Open Scope redis_scope.

Definition DICT_OK : Z := 0.
Definition DICT_ERR : Z := 1.
Definition DICT_HT_INITIAL_SIZE : Z := 4.
Definition LONG_MAX : Z := INT64_MAX.

Class dictType (K : Type) := {
  hashFunction : K -> Z;
  keyCompare : K -> K -> bool }.

(** What the callers of dict.c provide: 64 bit hashes, and a comparison that
    identifies keys. *)
Class DictTypeOk (K : Type) `{dictType K} := {
  hash_u64 : forall k, is_u 64 (hashFunction k);
  keyCompare_eq : forall k1 k2, keyCompare k1 k2 = true <-> k1 = k2 }.

Record dictht (K V : Type) := Dictht {
  table : list (list (K * V));
  size : Z;
  sizemask : Z;
  used : Z }.
Arguments Dictht {K V}.
Arguments table {K V}.
Arguments size {K V}.
Arguments sizemask {K V}.
Arguments used {K V}.

Record dict (K V : Type) := Dict {
  ht0 : dictht K V;
  ht1 : dictht K V;
  rehashidx : Z;
  iterators : Z }.
Arguments Dict {K V}.
Arguments ht0 {K V}.
Arguments ht1 {K V}.
Arguments rehashidx {K V}.
Arguments iterators {K V}.

(** The place of an entry: in the second table or not, bucket, rank in the chain. *)
Definition loc : Type := bool * Z * nat.

(** [assert(c)] *)
Definition assert_ (c : bool) : option unit := if c then Some tt else None.

(** ** Sizes *)

(** [while(1) { if (i >= size) return i; i *= 2; }]: at most 61 turns below [LONG_MAX]. *)
Fixpoint nextPower_loop (fuel : nat) (i size : Z) : option Z :=
  if i >=? size then Some i else
  match fuel with
  | O => None
  | S fuel => nextPower_loop fuel (u64 (i * 2)) size
  end.
Definition _dictNextPower (size : Z) : option Z :=
  if size >=? LONG_MAX then Some (u64 (LONG_MAX + 1))
  else nextPower_loop 61 DICT_HT_INITIAL_SIZE size.

Section Dict.
  Context {K V : Type} `{!dictType K}.

Abbreviation dictht := (dictht K V).
Abbreviation dict := (dict K V).

Definition ht (d : dict) (second : bool) : dictht := if second then ht1 d else ht0 d.
Definition set_ht (d : dict) (second : bool) (t : dictht) : dict :=
  if second then Dict (ht0 d) t (rehashidx d) (iterators d)
  else Dict t (ht1 d) (rehashidx d) (iterators d).

Definition dictSize (d : dict) : Z := u64 (used (ht0 d) + used (ht1 d)).
Definition dictSlots (d : dict) : Z := u64 (size (ht0 d) + size (ht1 d)).
Definition dictIsRehashing (d : dict) : bool := negb (rehashidx d =? -1).

(** [t->table[idx]] *)
Definition bucket (t : dictht) (idx : Z) : option (list (K * V)) :=
  if decide (0 <= idx) then table t !! Z.to_nat idx else None.
Definition set_bucket (t : dictht) (idx : Z) (c : list (K * V)) : dictht :=
  Dictht (<[Z.to_nat idx := c]> (table t)) (size t) (sizemask t) (used t).

Definition entry_at (d : dict) (l : loc) : option (K * V) :=
  let '(second, idx, pos) := l in
  let! c := bucket (ht d second) idx in c !! pos.

(** [entry->v.val = val] *)
Definition dictSetVal (d : dict) (l : loc) (val : V) : option dict :=
  let '(second, idx, pos) := l in
  let! c := bucket (ht d second) idx in
  let! (k, _) := c !! pos in
  Some (set_ht d second (set_bucket (ht d second) idx (<[pos := (k, val)]> c))).

(** ** Creation *)

Definition _dictReset : dictht := Dictht [] 0 0 0.
Definition _dictInit : dict := Dict _dictReset _dictReset (-1) 0.
Definition dictCreate : dict := _dictInit.

(** ** Resizing *)

Definition dictExpand (d : dict) (sz : Z) : option (Z * dict) :=
  if dictIsRehashing d || (used (ht0 d) >? sz) then Some (DICT_ERR, d) else
  let! realsize := _dictNextPower sz in
  if realsize =? size (ht0 d) then Some (DICT_ERR, d) else
  let n := Dictht (replicate (Z.to_nat (u64 (realsize * 8) / 8)) []) realsize
             (u64 (realsize - 1)) 0 in
  match table (ht0 d) with
  | [] => Some (DICT_OK, Dict n (ht1 d) (rehashidx d) (iterators d))
  | _ => Some (DICT_OK, Dict (ht0 d) n 0 (iterators d))
  end.

(** [dict_can_resize] is a global variable, an argument here. *)
Definition dictResize (dict_can_resize : bool) (d : dict) : option (Z * dict) :=
  if negb dict_can_resize || dictIsRehashing d then Some (DICT_ERR, d) else
  let minimal := used (ht0 d) in
  let minimal := if minimal <? DICT_HT_INITIAL_SIZE then DICT_HT_INITIAL_SIZE else minimal in
  dictExpand d minimal.

Definition dict_force_resize_ratio : Z := 5.

Definition _dictExpandIfNeeded (dict_can_resize : bool) (d : dict) : option (Z * dict) :=
  if dictIsRehashing d then Some (DICT_OK, d) else
  if size (ht0 d) =? 0 then dictExpand d DICT_HT_INITIAL_SIZE else
  if (used (ht0 d) >=? size (ht0 d)) &&
     (dict_can_resize || (used (ht0 d) / size (ht0 d) >? dict_force_resize_ratio))
  then dictExpand d (u64 (used (ht0 d) * 2))
  else Some (DICT_OK, d).

(** ** Incremental rehashing *)

(** [while(table[rehashidx] == NULL) { rehashidx++; if (--empty_visits == 0) return 1; }]:
    whether the function returned, [rehashidx] and [empty_visits]. *)
Fixpoint skip_empty (fuel : nat) (t : dictht) (idx empty_visits : Z) : option (bool * Z * Z) :=
  let! c := bucket t idx in
  match c with
  | _ :: _ => Some (false, idx, empty_visits)
  | [] =>
      let idx := idx + 1 in
      let empty_visits := empty_visits - 1 in
      if empty_visits =? 0 then Some (true, idx, empty_visits) else
      match fuel with
      | O => None
      | S fuel => skip_empty fuel t idx empty_visits
      end
  end.

(** Moves the entries of one bucket, in order, to the heads of their new chains. *)
Fixpoint move_chain (de : list (K * V)) (t0 t1 : dictht) : option (dictht * dictht) :=
  match de with
  | [] => Some (t0, t1)
  | (key, val) :: nextde =>
      let h := Z.land (hashFunction key) (sizemask t1) in
      let! c := bucket t1 h in
      let t1 := set_bucket t1 h ((key, val) :: c) in
      let t0 := Dictht (table t0) (size t0) (sizemask t0) (u64 (used t0 - 1)) in
      let t1 := Dictht (table t1) (size t1) (sizemask t1) (u64 (used t1 + 1)) in
      move_chain nextde t0 t1
  end.

(** The outer loop; [true]: the function returned 1 inside it. *)
Fixpoint dictRehash_loop (n : nat) (d : dict) (empty_visits : Z) : option (bool * dict) :=
  match n with
  | O => Some (false, d)
  | S n =>
      if used (ht0 d) =? 0 then Some (false, d) else
      let! _ := assert_ (size (ht0 d) >? u64 (rehashidx d)) in
      let! (returned, idx, empty_visits) :=
        skip_empty (length (table (ht0 d))) (ht0 d) (rehashidx d) empty_visits in
      let d := Dict (ht0 d) (ht1 d) idx (iterators d) in
      if (returned : bool) then Some (true, d) else
      let! de := bucket (ht0 d) idx in
      let! (t0, t1) := move_chain de (ht0 d) (ht1 d) in
      let t0 := set_bucket t0 idx [] in
      dictRehash_loop n (Dict t0 t1 (idx + 1) (iterators d)) empty_visits
  end.

(** [n] is the (non-negative) number of steps. *)
Definition dictRehash (d : dict) (n : nat) : option (Z * dict) :=
  let empty_visits := i32 (Z.of_nat n * 10) in
  if negb (dictIsRehashing d) then Some (0, d) else
  let! (returned, d) := dictRehash_loop n d empty_visits in
  if (returned : bool) then Some (1, d) else
  if used (ht0 d) =? 0 then Some (0, Dict (ht1 d) _dictReset (-1) (iterators d))
  else Some (1, d).

Definition _dictRehashStep (d : dict) : option dict :=
  if iterators d =? 0 then let! (_, d) := dictRehash d 1 in Some d else Some d.

(** [if (dictIsRehashing(d)) _dictRehashStep(d);] *)
Definition rehash_if_rehashing (d : dict) : option dict :=
  if dictIsRehashing d then _dictRehashStep d else Some d.

(** ** Searching a chain *)

Fixpoint chain_find (he : list (K * V)) (key : K) (pos : nat) : option nat :=
  match he with
  | [] => None
  | (k, _) :: next => if keyCompare key k then Some pos else chain_find next key (S pos)
  end.

Definition search_table (d : dict) (second : bool) (hash : Z) (key : K) : option (Z * option loc) :=
  let idx := Z.land hash (sizemask (ht d second)) in
  let! he := bucket (ht d second) idx in
  Some (idx, match chain_find he key 0 with
             | Some pos => Some (second, idx, pos)
             | None => None
             end).

(** The loop [for (table = 0; table <= 1; table++)] of the lookups: the index in the
    last table searched, and the entry found. *)
Definition search_tables (d : dict) (hash : Z) (key : K) : option (Z * option loc) :=
  let! (idx, found) := search_table d false hash key in
  match found with
  | Some l => Some (idx, Some l)
  | None => if negb (dictIsRehashing d) then Some (idx, None)
            else search_table d true hash key
  end.

(** ** Adding *)

(** The index, or -1 with the content of [*existing]. *)
Definition _dictKeyIndex (dict_can_resize : bool) (d : dict) (key : K) (hash : Z)
    : option (Z * option loc * dict) :=
  let! (r, d) := _dictExpandIfNeeded dict_can_resize d in
  if r =? DICT_ERR then Some (-1, None, d) else
  let! (idx, found) := search_tables d hash key in
  match found with
  | Some l => Some (-1, Some l, d)
  | None => Some (idx, None, d)
  end.

(** The new entry and [*existing]; the value field of a new entry is what [zmalloc]
    left there, [fresh]. *)
Definition dictAddRaw (dict_can_resize : bool) (d : dict) (key : K) (fresh : V)
    : option (option loc * option loc * dict) :=
  let! d := rehash_if_rehashing d in
  let! (index, existing, d) := _dictKeyIndex dict_can_resize d key (hashFunction key) in
  if index =? -1 then Some (None, existing, d) else
  let second := dictIsRehashing d in
  let t := ht d second in
  let! next := bucket t index in
  let t := set_bucket t index ((key, fresh) :: next) in
  let t := Dictht (table t) (size t) (sizemask t) (u64 (used t + 1)) in
  Some (Some (second, index, 0%nat), existing, set_ht d second t).

Definition dictAdd (dict_can_resize : bool) (d : dict) (key : K) (val fresh : V)
    : option (Z * dict) :=
  let! (entry, _, d) := dictAddRaw dict_can_resize d key fresh in
  match entry with
  | None => Some (DICT_ERR, d)
  | Some e => let! d := dictSetVal d e val in Some (DICT_OK, d)
  end.

Definition dictReplace (dict_can_resize : bool) (d : dict) (key : K) (val fresh : V)
    : option (Z * dict) :=
  let! (entry, existing, d) := dictAddRaw dict_can_resize d key fresh in
  match entry with
  | Some e => let! d := dictSetVal d e val in Some (1, d)
  | None => let! e := existing in let! d := dictSetVal d e val in Some (0, d)
  end.

Definition dictAddOrFind (dict_can_resize : bool) (d : dict) (key : K) (fresh : V)
    : option (option loc * dict) :=
  let! (entry, existing, d) := dictAddRaw dict_can_resize d key fresh in
  Some (match entry with Some e => Some e | None => existing end, d).

(** ** Deleting *)

(** One turn of the table loop: the entry removed and the new dictionary. *)
Definition delete_in_table (d : dict) (second : bool) (h : Z) (key : K)
    : option (option (K * V) * dict) :=
  let t := ht d second in
  let idx := Z.land h (sizemask t) in
  let! he := bucket t idx in
  match chain_find he key 0 with
  | Some pos =>
      let t := set_bucket t idx (delete pos he) in
      let t := Dictht (table t) (size t) (sizemask t) (u64 (used t - 1)) in
      Some (he !! pos, set_ht d second t)
  | None => Some (None, d)
  end.

(** The entry found, whether it is freed or handed to the caller ([nofree]). *)
Definition dictGenericDelete (d : dict) (key : K) : option (option (K * V) * dict) :=
  if (used (ht0 d) =? 0) && (used (ht1 d) =? 0) then Some (None, d) else
  let! d := rehash_if_rehashing d in
  let h := hashFunction key in
  let! (he, d) := delete_in_table d false h key in
  match he with
  | Some e => Some (Some e, d)
  | None => if negb (dictIsRehashing d) then Some (None, d) else delete_in_table d true h key
  end.

Definition dictDelete (d : dict) (key : K) : option (Z * dict) :=
  let! (he, d) := dictGenericDelete d key in
  Some (match he with Some _ => DICT_OK | None => DICT_ERR end, d).

Definition dictUnlink (d : dict) (key : K) : option (option (K * V) * dict) :=
  dictGenericDelete d key.

(** [for (i = 0; i < ht->size && ht->used > 0; i++)]: the entries freed, in order. *)
Fixpoint clear_loop (chains : list (list (K * V))) (u : Z) : list (K * V) :=
  match chains with
  | [] => []
  | c :: chains => if u >? 0 then c ++ clear_loop chains (u64 (u - zlen c)) else []
  end.
Definition _dictClear (t : dictht) : list (K * V) * dictht :=
  (clear_loop (table t) (used t), _dictReset).

(** The entries freed, and the empty dictionary. *)
Definition dictEmpty (d : dict) : list (K * V) * dict :=
  let (freed0, t0) := _dictClear (ht0 d) in
  let (freed1, t1) := _dictClear (ht1 d) in
  (freed0 ++ freed1, Dict t0 t1 (-1) 0).

(** ** Lookup *)

Definition dictFind (d : dict) (key : K) : option (option loc * dict) :=
  if dictSize d =? 0 then Some (None, d) else
  let! d := rehash_if_rehashing d in
  let h := hashFunction key in
  let! (_, found) := search_tables d h key in
  Some (found, d).

Definition dictFetchValue (d : dict) (key : K) : option (option V * dict) :=
  let! (he, d) := dictFind d key in
  match he with
  | Some l => let! (_, v) := entry_at d l in Some (Some v, d)
  | None => Some (None, d)
  end.
End Dict.

(** ** When a table is worth shrinking (server.c) *)

Definition HASHTABLE_MIN_FILL : Z := 10.

Definition htNeedsResize {K V} (d : dict K V) : bool :=
  let size := i64 (dictSlots d) in
  let used := i64 (dictSize d) in
  (size >? DICT_HT_INITIAL_SIZE) && (Z.quot (i64 (used * 100)) size <? HASHTABLE_MIN_FILL).
