(* ===== verification/DictFacts.v ===== *)
(** * Dictionaries as finite maps: invariant and lemmas *)

From Stdlib Require Import ZArith Lia.
From stdpp Require Import base numbers option fin_maps gmap list.
From S2P Require Import Prelude Memory Bits Dict.

Local Open Scope Z_scope.
Local Open Scope redis_scope.

(** ** Concatenated chains *)

Section Chains.
  Context {A : Type}.
  Implicit Types (T : list (list A)) (c : list A).

(** The chains but number [i]. *)
Definition others T (i : nat) : list A := concat (take i T) ++ concat (drop (S i) T).

Lemma concat_split T i c : T !! i = Some c -> concat T ≡ₚ c ++ others T i.
Proof.
  intros Hc. rewrite <- (take_drop_middle T i c Hc) at 1. unfold others.
  rewrite concat_app. simpl. by rewrite !app_assoc, (Permutation_app_comm (concat _) c).
Qed.
Lemma concat_insert T i c : (i < length T)%nat -> concat (<[i := c]> T) ≡ₚ c ++ others T i.
Proof.
  intros Hi. rewrite (insert_take_drop T i c) by done. unfold others.
  rewrite concat_app. simpl. by rewrite !app_assoc, (Permutation_app_comm (concat _) c).
Qed.
Lemma elem_of_concat T x : x ∈ concat T <-> exists i c, T !! i = Some c /\ x ∈ c.
Proof.
  induction T as [|c T IH]; simpl.
  - split; [by intros ?%elem_of_nil|by intros (? & ? & ? & _)].
  - rewrite elem_of_app, IH. split.
    + intros [Hx | (i & c' & ? & ?)]; [by exists 0%nat, c|by exists (S i), c'].
    + intros ([|i] & c' & Hl & Hx); simplify_eq/=; eauto.
Qed.
Lemma zlen_perm (l k : list A) : l ≡ₚ k -> zlen l = zlen k.
Proof. unfold zlen. by intros ->. Qed.
Lemma concat_replicate_nil n : concat (replicate n (@nil A)) = [].
Proof. induction n; done. Qed.
Lemma all_nil T : (forall i c, T !! i = Some c -> c = []) -> concat T = [].
Proof.
  induction T as [|c T IH]; intros HT; [done|]. simpl. rewrite (HT 0%nat c) by done.
  apply IH. intros i. apply (HT (S i)).
Qed.
End Chains.

(** ** Powers of two *)

Lemma nextPower_loop_spec fuel sz e :
  0 <= e -> 2 ^ (e + Z.of_nat fuel) <= 2 ^ 63 -> sz <= 2 ^ (e + Z.of_nat fuel) ->
  exists e', nextPower_loop fuel (2 ^ e) sz = Some (2 ^ e') /\ e <= e' <= e + Z.of_nat fuel /\
    sz <= 2 ^ e' /\ (e' = e \/ 2 ^ (e' - 1) < sz).
Proof.
  revert e. induction fuel as [|fuel IH]; intros e He Hb Hs; cbn [nextPower_loop]; rewrite Z.geb_leb.
  - replace (e + Z.of_nat 0) with e in * by lia. rewrite (proj2 (Z.leb_le _ _)) by lia.
    exists e. split_and!; try done; lia.
  - destruct (sz <=? 2 ^ e) eqn:E; boolsimp.
    + exists e. split_and!; try done; lia.
    + assert (2 ^ (e + 1) <= 2 ^ 63).
      { etransitivity; [|exact Hb]. apply Z.pow_le_mono_r; lia. }
      replace (2 ^ e * 2) with (2 ^ (e + 1)) by (rewrite Z.pow_add_r by lia; lia).
      rewrite uN_small by lia. replace (e + Z.of_nat (S fuel)) with (e + 1 + Z.of_nat fuel) in * by lia.
      destruct (IH (e + 1)) as (e' & -> & He' & Hsz & Hmin); [lia|done|done|].
      exists e'. split_and!; try done; try lia. destruct Hmin as [-> | Hmin]; [right|by right].
      replace (e + 1 - 1) with e by lia. done.
Qed.

(** The least power of two, at least 4, that is not below the request. *)
Lemma nextPower_spec sz :
  sz < LONG_MAX ->
  exists e, _dictNextPower sz = Some (2 ^ e) /\ 2 <= e <= 63 /\ sz <= 2 ^ e /\
    (e = 2 \/ 2 ^ (e - 1) < sz).
Proof.
  unfold _dictNextPower, LONG_MAX, INT64_MAX. intros Hs.
  rewrite Z.geb_leb, (proj2 (Z.leb_gt _ _)) by done.
  destruct (nextPower_loop_spec 61 sz 2) as (e & He & ?); [lia|done|simpl; lia|].
  exists e. split; [exact He|]. lia.
Qed.

(** ** The invariant *)

Section Inv.
  Context {K V : Type} `{!dictType K, !DictTypeOk K}.
  Implicit Types (t : dictht K V) (d : dict K V).

Definition contents t : list (K * V) := concat (table t).
Definition all d : list (K * V) := contents (ht0 d) ++ contents (ht1 d).

(** An allocated table: a power of two of chains, each entry in the bucket of its
    hash, [used] the number of entries. *)
Record ht_ok t : Prop := {
  ht_pow : exists e, 2 <= e <= 63 /\ size t = 2 ^ e;
  ht_mask : sizemask t = size t - 1;
  ht_len : zlen (table t) = size t;
  ht_used : used t = zlen (contents t);
  ht_hash : forall i c k v, table t !! i = Some c -> (k, v) ∈ c ->
    Z.land (hashFunction k) (sizemask t) = Z.of_nat i }.

(** During a rehash the buckets before [idx] of the first table are empty. *)
Definition moved t (idx : Z) : Prop :=
  0 <= idx /\ forall i : nat, Z.of_nat i < idx -> table t !! i = Some [].

Record dict_ok d : Prop := {
  ok_tables :
    (rehashidx d = -1 /\ (ht0 d = _dictReset \/ ht_ok (ht0 d)) /\ ht1 d = _dictReset) \/
    (rehashidx d < size (ht0 d) /\ moved (ht0 d) (rehashidx d) /\ ht_ok (ht0 d) /\ ht_ok (ht1 d));
  ok_nodup : NoDup (all d).*1;
  ok_count : zlen (all d) < 2 ^ 63 }.

(** ** Buckets *)

Lemma mask_bound t h : ht_ok t -> 0 <= Z.land h (sizemask t) < size t.
Proof.
  intros [(e & He & Hs) Hm _ _ _]. rewrite Hm, Hs, Z.sub_1_r, <- Z.ones_equiv, Z.land_ones by lia.
  apply Z.mod_pos_bound. lia.
Qed.
Lemma bucket_some t i : ht_ok t -> 0 <= i < size t -> exists c, bucket t i = Some c.
Proof.
  intros Ht Hi. unfold bucket. rewrite decide_True by lia. apply lookup_lt_is_Some_2.
  pose proof (ht_len t Ht). unfold zlen in *. lia.
Qed.
Lemma bucket_lookup t i c : bucket t i = Some c -> table t !! Z.to_nat i = Some c /\ 0 <= i.
Proof. unfold bucket. by case_decide. Qed.
Lemma bucket_hash t i c k v :
  ht_ok t -> bucket t i = Some c -> (k, v) ∈ c -> Z.land (hashFunction k) (sizemask t) = i.
Proof.
  intros Ht [Hc Hi]%bucket_lookup Hk. rewrite (ht_hash t Ht _ _ _ _ Hc Hk). lia.
Qed.
(** An entry of a table is in the bucket of its hash. *)
Lemma in_bucket t k v c :
  ht_ok t -> bucket t (Z.land (hashFunction k) (sizemask t)) = Some c ->
  (k, v) ∈ contents t <-> (k, v) ∈ c.
Proof.
  intros Ht Hb. pose proof (bucket_lookup _ _ _ Hb) as [Hc Hi]. unfold contents.
  rewrite elem_of_concat. split; [|eauto].
  intros (i & c' & Hc' & Hk). pose proof (ht_hash t Ht _ _ _ _ Hc' Hk) as Hh.
  rewrite Hh, Nat2Z.id in Hc. by simplify_eq.
Qed.

Definition put t (idx : Z) (c : list (K * V)) (u : Z) : dictht K V :=
  Dictht (table (set_bucket t idx c)) (size t) (sizemask t) u.

Lemma put_perm t idx c c' u X :
  bucket t idx = Some c -> contents t ≡ₚ c ++ X -> contents (put t idx c' u) ≡ₚ c' ++ X.
Proof.
  intros [Hc Hi]%bucket_lookup HX. unfold contents, put, set_bucket in *. simpl.
  rewrite concat_insert by (by eapply lookup_lt_Some).
  apply Permutation_app_head, (Permutation_app_inv_l c). rewrite <- HX. symmetry. by apply concat_split.
Qed.

Lemma put_ok t idx c c' u :
  ht_ok t -> bucket t idx = Some c ->
  (forall k v, (k, v) ∈ c' -> Z.land (hashFunction k) (sizemask t) = idx) ->
  u = used t - zlen c + zlen c' -> ht_ok (put t idx c' u).
Proof.
  intros Ht Hb Hc' ->. pose proof (bucket_lookup _ _ _ Hb) as [Hc Hi].
  pose proof Ht as [Hp Hm Hl Hu Hh]. constructor; try done.
  - simpl. by rewrite <- Hl; unfold zlen; rewrite length_insert.
  - simpl. pose proof (concat_split _ _ _ Hc) as Hs.
    pose proof (put_perm t idx c c' 0 _ Hb Hs) as Hs'.
    apply zlen_perm in Hs, Hs'. unfold contents in *. simpl in *. rewrite Hu, Hs', Hs. zlia.
  - simpl. intros i c0 k v Hc0 Hk. destruct (decide (i = Z.to_nat idx)) as [-> | Hne].
    + rewrite list_lookup_insert in Hc0. case_decide; [|naive_solver].
      simplify_eq. rewrite (Hc' k v) by done. lia.
    + rewrite list_lookup_insert_ne in Hc0 by done. by eapply Hh.
Qed.

(** ** Updating one bucket of a dictionary *)

Lemma set_ht_id d second : set_ht d second (ht d second) = d.
Proof. by destruct d, second. Qed.

Lemma all_put d second idx c :
  bucket (ht d second) idx = Some c ->
  exists Y, all d ≡ₚ c ++ Y /\
    forall c' u, all (set_ht d second (put (ht d second) idx c' u)) ≡ₚ c' ++ Y.
Proof.
  intros Hb. pose proof (bucket_lookup _ _ _ Hb) as [Hc _]. pose proof (concat_split _ _ _ Hc) as Hs.
  destruct second; unfold all; simpl in *.
  - exists (contents (ht0 d) ++ others (table (ht1 d)) (Z.to_nat idx)). split.
    + unfold contents at 2. by rewrite Hs, (Permutation_app_swap_app (contents _)).
    + intros c' u. rewrite (put_perm _ _ _ c' u _ Hb Hs).
      by rewrite (Permutation_app_swap_app (contents _)).
  - exists (others (table (ht0 d)) (Z.to_nat idx) ++ contents (ht1 d)). split.
    + unfold contents at 1. by rewrite Hs, app_assoc.
    + intros c' u. by rewrite (put_perm _ _ _ c' u _ Hb Hs), app_assoc.
Qed.

(** The table an entry is looked for in, or put into, is allocated. *)
Definition searched d (second : bool) : Prop :=
  ht_ok (ht d second) /\ (second = true -> dictIsRehashing d = true).

Lemma put_moved t idx c c' u j :
  bucket t idx = Some c -> c <> [] -> moved t j -> moved (put t idx c' u) j.
Proof.
  intros [Hc Hi]%bucket_lookup Hne [H0 Hm]. split; [done|]. intros i Hij. simpl.
  rewrite list_lookup_insert_ne; [by apply Hm|]. intros <-. rewrite Hm in Hc by done. by simplify_eq.
Qed.

Lemma dict_ok_put d second idx c c' u :
  dict_ok d -> searched d second -> bucket (ht d second) idx = Some c ->
  (second = dictIsRehashing d \/ c <> []) ->
  (forall k v, (k, v) ∈ c' -> Z.land (hashFunction k) (sizemask (ht d second)) = idx) ->
  u = used (ht d second) - zlen c + zlen c' ->
  let d' := set_ht d second (put (ht d second) idx c' u) in
  NoDup (all d').*1 -> zlen (all d') < 2 ^ 63 -> dict_ok d'.
Proof.
  intros Hd [Ht Hsec] Hb Hor Hc' Hu d' Hnd Hct. constructor; [|done|done].
  pose proof (put_ok _ _ _ c' u Ht Hb Hc' Hu) as Hput. unfold dictIsRehashing in *.
  destruct Hd as [[(Hr & H0 & H1) | (Hr & Hm & H0 & H1)] _ _].
  - destruct second; [rewrite Hr in Hsec; naive_solver|]. left. subst d'. simpl in *. auto.
  - right. destruct Hm as [Hm0 Hm]. rewrite (proj2 (Z.eqb_neq _ _)) in Hor by lia.
    subst d'. destruct second; simpl in *.
    + split_and!; try done.
    + split_and!; try done. destruct Hor as [? | Hne]; [done|]. eapply put_moved; done.
Qed.

(** ** Searching *)

Lemma chain_find_some (c : list (K * V)) k pos0 pos :
  chain_find c k pos0 = Some pos ->
  (pos0 <= pos)%nat /\ exists v, c !! (pos - pos0)%nat = Some (k, v).
Proof.
  revert pos0. induction c as [|[k' v'] c IH]; intros pos0; simpl; [done|].
  destruct (keyCompare k k') eqn:E.
  - apply keyCompare_eq in E as ->. intros [= ->]. rewrite Nat.sub_diag. split; [lia|eauto].
  - intros [Hle [v Hv]]%IH. split; [lia|]. exists v.
    by replace (pos - pos0)%nat with (S (pos - S pos0)) by lia.
Qed.
Lemma chain_find_none (c : list (K * V)) k pos0 v : chain_find c k pos0 = None -> (k, v) ∉ c.
Proof.
  revert pos0. induction c as [|[k' v'] c IH]; intros pos0; simpl; [by intros _ ?%elem_of_nil|].
  destruct (keyCompare k k') eqn:E; [done|]. intros Hf [[= -> ->] | Hin]%elem_of_cons.
  - rewrite (proj2 (keyCompare_eq k' k') eq_refl) in E. done.
  - by eapply IH.
Qed.

(** What the search of one table returns. *)
Definition table_result d (second : bool) (k : K) (r : Z * option loc) : Prop :=
  let idx := Z.land (hashFunction k) (sizemask (ht d second)) in
  fst r = idx /\
  match snd r with
  | Some l => exists pos c v, l = (second, idx, pos) /\ bucket (ht d second) idx = Some c /\
                c !! pos = Some (k, v)
  | None => forall v, (k, v) ∉ contents (ht d second)
  end.

Lemma search_table_spec d second k :
  ht_ok (ht d second) ->
  exists r, search_table d second (hashFunction k) k = Some r /\ table_result d second k r.
Proof.
  intros Ht. unfold search_table, table_result.
  destruct (bucket_some _ _ Ht (mask_bound _ (hashFunction k) Ht)) as [c Hc]. rewrite Hc. mstep.
  eexists. split; [done|]. split; [done|]. simpl snd. destruct (chain_find c k 0) as [pos|] eqn:E.
  - apply chain_find_some in E as (_ & v & Hv). rewrite Nat.sub_0_r in Hv. by exists pos, c, v.
  - intros v Hin. rewrite in_bucket in Hin by done. by eapply chain_find_none.
Qed.

(** The result of the loop over the tables. *)
Definition search_result d (k : K) (r : Z * option loc) : Prop :=
  match snd r with
  | Some (second, idx, pos) => searched d second /\
      exists c v, bucket (ht d second) idx = Some c /\ c !! pos = Some (k, v)
  | None => (forall v, (k, v) ∉ all d) /\
      fst r = Z.land (hashFunction k) (sizemask (ht d (dictIsRehashing d))) /\
      searched d (dictIsRehashing d)
  end.

Lemma search_tables_spec d k :
  dict_ok d -> ht0 d <> _dictReset ->
  exists r, search_tables d (hashFunction k) k = Some r /\ search_result d k r.
Proof.
  intros Hd Hne. pose proof (ok_tables d Hd) as Ht. unfold search_tables.
  assert (ht_ok (ht0 d)) as H0 by (destruct Ht as [(_ & [? | ?] & _) | (_ & _ & ? & _)]; done).
  destruct (search_table_spec d false k H0) as ([i0 f0] & -> & Hi0 & Hf0). mstep. simpl in Hi0, Hf0.
  destruct f0 as [l|].
  { destruct Hf0 as (pos & c & v & -> & Hb & Hc). eexists. split; [done|]. split; [done|].
    by exists c, v. }
  destruct (dictIsRehashing d) eqn:Er; simpl.
  - assert (ht_ok (ht1 d)) as H1.
    { unfold dictIsRehashing in Er. destruct Ht as [(Hr & _) | (_ & _ & _ & ?)]; [|done].
      rewrite Hr in Er. done. }
    destruct (search_table_spec d true k H1) as ([i1 f1] & -> & Hi1 & Hf1). simpl in Hi1, Hf1.
    eexists. split; [done|]. unfold search_result. simpl. destruct f1 as [l|].
    + destruct Hf1 as (pos & c & v & -> & Hb & Hc). split; [done|]. by exists c, v.
    + rewrite Er. split; [|done]. intros v [Hin | Hin]%elem_of_app; naive_solver.
  - eexists. split; [done|]. unfold search_result. simpl. rewrite Er. split; [|done].
    unfold dictIsRehashing in Er. destruct Ht as [(_ & _ & H1) | (_ & [Hr _] & _)].
    + intros v. unfold all. rewrite H1. simpl. rewrite app_nil_r. apply Hf0.
    + apply negb_false_iff, Z.eqb_eq in Er. lia.
Qed.
End Inv.

(** * Incremental rehashing: safety, preservation of the entries, progress *)

Section Rehash.
  Context {K V : Type} `{!dictType K, !DictTypeOk K}.
  Implicit Types (t : dictht K V) (d : dict K V).

(** ** Moving one bucket *)

Lemma move_chain_spec (de : list (K * V)) t0 t1 :
  ht_ok t1 -> used t1 + zlen de < 2 ^ 64 -> zlen de <= used t0 < 2 ^ 64 ->
  exists t1', move_chain de t0 t1 =
      Some (Dictht (table t0) (size t0) (sizemask t0) (used t0 - zlen de), t1') /\
    ht_ok t1' /\ size t1' = size t1 /\ contents t1' ≡ₚ de ++ contents t1.
Proof.
  revert t0 t1. induction de as [|[k v] de IH]; intros t0 t1 H1 Hu1 Hu0; cbn [move_chain].
  { exists t1. split; [|done]. do 2 f_equal. destruct t0; simpl. f_equal. change (zlen []) with 0. lia. }
  rewrite zlen_cons in *. zlen_pos. pose proof (ht_used t1 H1) as Hlen. zlen_pos.
  destruct (bucket_some t1 _ H1 (mask_bound t1 (hashFunction k) H1)) as [c Hc]. rewrite Hc. mstep.
  set (h := Z.land (hashFunction k) (sizemask t1)) in *.
  rewrite (uN_small 64 (used t0 - 1)) by lia. simpl used. rewrite (uN_small 64 (used t1 + 1)) by lia.
  assert (ht_ok (put t1 h ((k, v) :: c) (used t1 + 1))) as Hput.
  { apply (put_ok t1 h c); [done|done| |rewrite zlen_cons; lia].
    intros k' v' [[= -> ->] | Hin]%elem_of_cons; [done|by eapply bucket_hash]. }
  destruct (IH (Dictht (table t0) (size t0) (sizemask t0) (used t0 - 1)) _ Hput)
    as (t1' & HE & Hok & Hs & HP); [simpl; lia..|].
  exists t1'. split; [|split; [done|split; [done|]]].
  - etransitivity; [apply HE|]. simpl. do 3 f_equal. lia.
  - rewrite HP. pose proof (bucket_lookup _ _ _ Hc) as [Hl _].
    rewrite (put_perm t1 h c ((k, v) :: c) (used t1 + 1) _ Hc (concat_split _ _ _ Hl)).
    unfold contents at 1. rewrite (concat_split _ _ _ Hl). simpl. by rewrite <- Permutation_middle.
Qed.

(** ** Skipping empty buckets *)

Lemma moved_nonempty t idx : ht_ok t -> moved t idx -> contents t <> [] -> idx < size t.
Proof.
  intros Ht [H0 Hm] Hne. destruct (decide (idx < size t)) as [? | Hge]; [done|].
  destruct Hne. apply all_nil. intros i c Hc. pose proof (ht_len t Ht) as Hl.
  pose proof (lookup_lt_Some _ _ _ Hc). unfold zlen in Hl.
  rewrite Hm in Hc by lia. by simplify_eq.
Qed.

Lemma skip_empty_spec fuel t idx ev :
  ht_ok t -> moved t idx -> contents t <> [] -> size t - idx <= Z.of_nat fuel + 1 ->
  exists b idx' ev', skip_empty fuel t idx ev = Some (b, idx', ev') /\ moved t idx' /\
    idx <= idx' /\ (b = true -> idx < idx') /\
    (b = false -> exists c, bucket t idx' = Some c /\ c <> []).
Proof.
  intros Ht. revert idx ev. induction fuel as [|fuel IH]; intros idx ev Hm Hne Hf;
    pose proof (moved_nonempty t idx Ht Hm Hne) as Hlt; pose proof Hm as [H0 Hm'];
    destruct (bucket_some t idx Ht) as [c Hc]; [lia| |lia|]; cbn [skip_empty]; rewrite Hc; mstep;
    (destruct c as [|kv c]; [|by exists false, idx, ev; split_and!; eauto; lia]);
    assert (moved t (idx + 1)) as Hm1 by
      (split; [lia|]; intros i Hi; destruct (decide (Z.of_nat i = idx)) as [E | Hn];
       [apply bucket_lookup in Hc as [Hc _]; by rewrite <- E, Nat2Z.id in Hc|apply Hm'; lia]).
  - pose proof (moved_nonempty t _ Ht Hm1 Hne). lia.
  - casif; [by eexists true, _, _; split_and!; eauto; lia|].
    destruct (IH (idx + 1) (ev - 1) Hm1 Hne) as (b & idx' & ev' & -> & Hm2 & Hle & Hb1 & Hb2); [lia|].
    exists b, idx', ev'. split_and!; try done; lia.
Qed.

(** ** The outer loop *)

(** The state between two turns: as during a rehash, but the last bucket may have
    just been moved. *)
Record mid d : Prop := {
  mid_moved : moved (ht0 d) (rehashidx d);
  mid_ok0 : ht_ok (ht0 d);
  mid_ok1 : ht_ok (ht1 d);
  mid_count : zlen (all d) < 2 ^ 63 }.

Lemma mid_lt d : mid d -> used (ht0 d) <> 0 -> rehashidx d < size (ht0 d).
Proof.
  intros [Hm H0 _ _] Hu. apply moved_nonempty; try done.
  intros HE. apply Hu. rewrite (ht_used _ H0), HE. done.
Qed.

(** One turn: bucket [idx] of the first table goes to the second one. *)
Lemma move_bucket d idx c :
  mid d -> moved (ht0 d) idx -> bucket (ht0 d) idx = Some c ->
  exists t1, move_chain c (ht0 d) (ht1 d) =
      Some (Dictht (table (ht0 d)) (size (ht0 d)) (sizemask (ht0 d)) (used (ht0 d) - zlen c), t1) /\
    let d' := Dict (put (ht0 d) idx [] (used (ht0 d) - zlen c)) t1 (idx + 1) (iterators d) in
    mid d' /\ all d' ≡ₚ all d.
Proof.
  intros [_ H0 H1 Hct] Hm Hb. pose proof (bucket_lookup _ _ _ Hb) as [Hl Hi].
  pose proof (concat_split _ _ _ Hl : contents (ht0 d) ≡ₚ _) as Hs.
  pose proof (zlen_perm _ _ Hs) as Hz.
  pose proof (ht_used _ H0) as Hu0. pose proof (ht_used _ H1) as Hu1.
  pose proof Hct as Hct2. unfold all in Hct2. rewrite zlen_app in Hct2, Hz. zlen_pos.
  destruct (move_chain_spec c (ht0 d) (ht1 d) H1) as (t1 & -> & Hok1 & Hs1 & HP1); [lia..|].
  exists t1. split; [done|].
  assert (all (Dict (put (ht0 d) idx [] (used (ht0 d) - zlen c)) t1 (idx + 1) (iterators d)) ≡ₚ
          all d) as HP.
  { unfold all. simpl. rewrite HP1, (put_perm _ _ _ [] _ _ Hb Hs), Hs. simpl.
    by rewrite (Permutation_app_swap_app _ c), app_assoc. }
  split; [|done]. constructor; simpl.
  - split; [lia|]. intros i Hlt. simpl. destruct (decide (i = Z.to_nat idx)) as [-> | Hne].
    + apply list_lookup_insert_eq. by eapply lookup_lt_Some.
    + rewrite list_lookup_insert_ne by done. apply Hm. lia.
  - apply (put_ok _ _ c); [done|done| |change (zlen []) with 0; lia].
    intros k v ?%elem_of_nil. done.
  - done.
  - by rewrite (zlen_perm _ _ HP).
Qed.

Lemma rehash_loop_spec n d ev :
  mid d -> 
  exists b d', dictRehash_loop n d ev = Some (b, d') /\ mid d' /\ all d' ≡ₚ all d /\
    iterators d' = iterators d /\ rehashidx d <= rehashidx d' /\ size (ht0 d') = size (ht0 d) /\
    (b = true -> used (ht0 d') <> 0) /\
    (n <> 0%nat -> used (ht0 d') <> 0 -> rehashidx d < rehashidx d').
Proof.
  revert d ev. induction n as [|n IH]; intros d ev Hd; cbn [dictRehash_loop].
  { exists false, d. split_and!; try done. }
  destruct (used (ht0 d) =? 0) eqn:Eu; boolsimp.
  { exists false, d. split_and!; try done. }
  pose proof (mid_lt d Hd Eu) as Hlt. pose proof Hd as [Hm H0 H1 Hct]. pose proof Hm as [Hi _].
  pose proof (ht_pow _ H0) as (e & He & Hsz). pose proof (Z.pow_le_mono_r 2 e 63).
  rewrite uN_small, Z.gtb_ltb, (proj2 (Z.ltb_lt _ _)) by lia. cbn [assert_]. mstep.
  destruct (skip_empty_spec (length (table (ht0 d))) (ht0 d) (rehashidx d) ev)
    as (b & idx & ev' & -> & Hm' & Hle & Hb1 & Hb2); try done.
  { intros HE. apply Eu. by rewrite (ht_used _ H0), HE. }
  { pose proof (ht_len _ H0). unfold zlen in *. lia. }
  mstep. destruct b.
  { exists true, (Dict (ht0 d) (ht1 d) idx (iterators d)). split_and!; try done; simpl; auto. }
  destruct Hb2 as (c & Hc & Hne); [done|]. simpl ht0. simpl ht1. rewrite Hc. mstep.
  destruct (move_bucket d idx c Hd Hm' Hc) as (t1 & -> & Hmid & HP). mstep.
  destruct (IH _ ev' Hmid) as (b & d' & HE & Hmd' & HP' & Hit & Hr & Hs & Hb & Hadv).
  exists b, d'. split; [apply HE|]. simpl in *. split_and!; try done; try lia.
  by rewrite HP'.
Qed.

(** ** The whole function *)

Lemma mid_dict_ok d : mid d -> NoDup (all d).*1 -> used (ht0 d) <> 0 -> dict_ok d.
Proof.
  intros Hd Hnd Hu. pose proof (mid_lt d Hd Hu). destruct Hd. constructor; try done. right. done.
Qed.

(** [dictRehash] of at least one step: never outside its tables, the same entries, and
    either the rehash is over or [rehashidx] has advanced. *)
Lemma rehash_spec d n :
  dict_ok d ->
  exists r d', dictRehash d n = Some (r, d') /\ dict_ok d' /\ all d' ≡ₚ all d /\
    iterators d' = iterators d /\ r = b2z (dictIsRehashing d') /\
    (dictIsRehashing d = false -> d' = d) /\
    (dictIsRehashing d' = true -> size (ht0 d') = size (ht0 d) /\
       (n <> 0%nat -> rehashidx d < rehashidx d')).
Proof.
  intros Hd. unfold dictRehash. destruct (dictIsRehashing d) eqn:Er; simpl.
  2: { exists 0, d. rewrite Er. by split_and!. }
  pose proof Hd as [Ht Hnd Hct]. unfold dictIsRehashing in Er. boolsimp.
  destruct Ht as [(Hr & _) | (Hlt & Hm & H0 & H1)]; [done|].
  destruct (rehash_loop_spec n d (i32 (Z.of_nat n * 10))) as
    (b & d' & -> & Hmid & HP & Hit & Hle & Hs & Hb & Hadv); [done|]. mstep.
  assert (NoDup (all d').*1) as Hnd' by by rewrite HP.
  destruct Hm as [Hm0 _].
  assert (used (ht0 d') <> 0 -> dict_ok d' /\ dictIsRehashing d' = true) as Hgo.
  { intros Hu. split; [by apply mid_dict_ok|]. unfold dictIsRehashing. apply negb_true_iff, Z.eqb_neq. lia. }
  destruct b; [|destruct (used (ht0 d') =? 0) eqn:Eu; boolsimp].
  - destruct Hgo as [Hok Hre]; [auto|]. exists 1, d'. rewrite Hre. split_and!; auto; done.
  - exists 0. eexists. split; [done|]. destruct Hmid as [Hm' Hok0 Hok1 Hct'].
    assert (contents (ht0 d') = []) as Hnil by (apply zlen_0_inv; by rewrite <- (ht_used _ Hok0)).
    assert (all (Dict (ht1 d') _dictReset (-1) (iterators d')) = all d') as HE.
    { unfold all. simpl. by rewrite Hnil, app_nil_r. }
    split_and!; try done.
    + constructor; rewrite ?HE; try done. left. simpl. auto.
    + by rewrite HE.
  - destruct Hgo as [Hok Hre]; [auto|]. exists 1, d'. rewrite Hre. split_and!; auto; done.
Qed.
End Rehash.
