(* ===== verification/DictSpec.v ===== *)
(** * Contract of dict.c: a finite map

    [dict_rep d m]: the dictionary [d] is well formed and holds the map [m]. *)

From Stdlib Require Import ZArith Lia.
From stdpp Require Import base numbers option fin_maps gmap list.
From S2P Require Import Prelude Memory Bits Dict DictFacts.

Local Open Scope Z_scope.
Local Open Scope redis_scope.

Section Spec.
  Context {K V : Type} `{!EqDecision K, !Countable K, !dictType K, !DictTypeOk K}.
  Implicit Types (t : dictht K V) (d : dict K V) (m : gmap K V).

Definition dict_rep d m : Prop := dict_ok d /\ list_to_map (all d) = m.

(** ** Maps and entries *)

Lemma rep_elem d m k v : dict_rep d m -> m !! k = Some v <-> (k, v) ∈ all d.
Proof. intros [Hd <-]. symmetry. apply elem_of_list_to_map, Hd. Qed.
Lemma rep_none d m k : dict_rep d m -> m !! k = None <-> forall v, (k, v) ∉ all d.
Proof.
  intros Hr. rewrite eq_None_not_Some. split.
  - intros Hn v Hv. apply Hn. exists v. by apply (rep_elem d m).
  - intros Hn [v Hv]. by apply (Hn v), (rep_elem d m).
Qed.
Lemma rep_perm d d' m : dict_rep d m -> dict_ok d' -> all d' ≡ₚ all d -> dict_rep d' m.
Proof. intros [Hd <-] Hd' HP. split; [done|]. apply list_to_map_proper; [apply Hd'|done]. Qed.

Lemma rehash_if_rehashing_spec d m :
  dict_rep d m -> exists d', rehash_if_rehashing d = Some d' /\ dict_rep d' m /\ all d' ≡ₚ all d.
Proof.
  intros Hr. pose proof Hr as [Hd _]. unfold rehash_if_rehashing, _dictRehashStep.
  destruct (dictIsRehashing d); [|eauto]. destruct (iterators d =? 0); [|eauto].
  destruct (rehash_spec d 1 Hd) as (r & d' & -> & Hd' & HP & _). mstep.
  exists d'. split; [done|]. split; [by eapply rep_perm|done].
Qed.

(** ** Growth *)

Definition fresh_ht (e : Z) : dictht K V :=
  Dictht (replicate (Z.to_nat (2 ^ e)) []) (2 ^ e) (2 ^ e - 1) 0.

Lemma fresh_ok e : 2 <= e <= 63 -> ht_ok (fresh_ht e) /\ contents (fresh_ht e) = [].
Proof.
  intros He. pose proof (concat_replicate_nil (A := K * V) (Z.to_nat (2 ^ e))) as Hn.
  split; [|done]. constructor; simpl; try done; eauto.
  - rewrite zlen_replicate. lia.
  - unfold contents. simpl. by rewrite Hn.
  - intros i c k v [-> _]%lookup_replicate ?%elem_of_nil. done.
Qed.

(** The table that receives new entries has the least suitable size. *)
Definition new_size d (sz : Z) : Prop :=
  exists e, size (ht d (dictIsRehashing d)) = 2 ^ e /\ sz <= 2 ^ e /\ (e = 2 \/ 2 ^ (e - 1) < sz).

(** [dictExpand] to a size that memory can hold either refuses, changing nothing, or
    starts a rehash with no entry lost. *)
Lemma expand_spec d sz :
  dict_ok d -> 0 <= sz <= 2 ^ 60 ->
  exists r d', dictExpand d sz = Some (r, d') /\ dict_ok d' /\ all d' = all d /\
    (r = DICT_ERR /\ d' = d \/
     r = DICT_OK /\ ht_ok (ht0 d') /\ new_size d' sz) /\
    (dictIsRehashing d = false -> used (ht0 d) <= sz -> size (ht0 d) < sz \/ size (ht0 d) = 0 ->
     r = DICT_OK).
Proof.
  intros Hd Hsz. unfold dictExpand.
  destruct (dictIsRehashing d) eqn:Er; simpl.
  { exists DICT_ERR, d. split_and!; auto; done. }
  destruct (used (ht0 d) >? sz) eqn:Eu; boolsimp.
  { exists DICT_ERR, d. split_and!; auto; lia. }
  destruct (nextPower_spec sz) as (e & -> & He & Hle & Hmin);
    [unfold LONG_MAX, INT64_MAX; lia|]. mstep.
  assert (e <= 60) as He60.
  { destruct (decide (e <= 60)); [done|]. destruct Hmin as [-> | Hmin]; [lia|].
    assert (2 ^ 60 <= 2 ^ (e - 1)) by (apply Z.pow_le_mono_r; lia). lia. }
  assert (2 ^ e <= 2 ^ 60) as Hp60 by (apply Z.pow_le_mono_r; lia).
  assert (4 <= 2 ^ e) as Hp4 by (apply (Z.pow_le_mono_r 2 2); lia).
  destruct (2 ^ e =? size (ht0 d)) eqn:Es; boolsimp.
  { exists DICT_ERR, d. split_and!; auto; lia. }
  rewrite (uN_small 64 (2 ^ e * 8)), Z.div_mul, uN_small by lia. fold (fresh_ht e).
  destruct (fresh_ok e) as [Hf Hfc]; [lia|].
  pose proof Hd as [Ht Hnd Hct]. unfold dictIsRehashing in Er. boolsimp.
  destruct Ht as [(Hr & H0 & H1) | (_ & [Hr _] & _)]; [|lia].
  destruct (table (ht0 d)) as [|c0 T] eqn:ET.
  - assert (all (Dict (fresh_ht e) (ht1 d) (rehashidx d) (iterators d)) = all d) as HA.
    { unfold all, contents at 3. simpl. by rewrite Hfc, ET. }
    eexists _, _. split; [done|]. split; [|split; [done|]].
    + constructor; rewrite ?HA; try done. left. simpl. auto.
    + split; [right; split_and!; auto; exists e|done].
      unfold dictIsRehashing. simpl. rewrite Hr. done.
  - assert (ht_ok (ht0 d)) as Hok0 by (destruct H0 as [E | ?]; [by rewrite E in ET|done]).
    assert (all (Dict (ht0 d) (fresh_ht e) 0 (iterators d)) = all d) as HA.
    { unfold all. simpl. by rewrite Hfc, H1. }
    eexists _, _. split; [done|]. split; [|split; [done|]].
    + constructor; rewrite ?HA; try done. right. simpl. split_and!; try done.
      * destruct (ht_pow _ Hok0) as (e0 & ? & ->). lia.
      * split; [done|]. intros i Hi. lia.
    + split; [right; split_and!; auto; by exists e|done].
Qed.

(** Room for one more entry: [_dictExpandIfNeeded] never fails for a dictionary that
    fits in memory. *)
Lemma expandIfNeeded_spec can_resize d m :
  dict_rep d m -> zlen (all d) < 2 ^ 58 ->
  exists d', _dictExpandIfNeeded can_resize d = Some (DICT_OK, d') /\
    dict_rep d' m /\ all d' = all d /\ ht0 d' <> _dictReset.
Proof.
  intros Hrep Hct. pose proof Hrep as [Hd _]. unfold _dictExpandIfNeeded.
  assert (forall d', ht_ok (ht0 d') -> ht0 d' <> _dictReset) as Hnr.
  { intros d' Ht E. destruct (ht_pow _ Ht) as (e & He & Hs). rewrite E in Hs. simpl in Hs. lia. }
  assert (forall sz, 0 <= sz <= 2 ^ 60 -> dictIsRehashing d = false ->
     used (ht0 d) <= sz -> size (ht0 d) < sz \/ size (ht0 d) = 0 ->
     exists d', dictExpand d sz = Some (DICT_OK, d') /\
       dict_rep d' m /\ all d' = all d /\ ht0 d' <> _dictReset) as Hexp.
  { intros sz Hsz Er Hu Hs.
    destruct (expand_spec d sz Hd Hsz) as (r & d' & HE & Hd' & HA & Hr & Hok).
    rewrite (Hok Er Hu Hs) in *. exists d'. split; [done|].
    destruct Hr as [[? _] | (_ & H0 & _)]; [done|]. split_and!; auto.
    apply (rep_perm d); try done. by rewrite HA. }
  destruct (dictIsRehashing d) eqn:Er.
  { exists d. split_and!; try done. apply Hnr. unfold dictIsRehashing in Er.
    destruct (ok_tables d Hd) as [(Hr & _) | (_ & _ & ? & _)]; [by rewrite Hr in Er|done]. }
  pose proof (ok_tables d Hd) as Ht. pose proof Er as Er'. unfold dictIsRehashing in Er'. boolsimp.
  destruct Ht as [(Hr & H0 & H1) | (_ & [Hr _] & _)]; [|lia].
  destruct (size (ht0 d) =? 0) eqn:Es; boolsimp.
  { apply Hexp; [done|done| |by right]. destruct H0 as [-> | H0]; [done|].
    destruct (ht_pow _ H0) as (e & ? & He). lia. }
  destruct H0 as [E | H0]; [by rewrite E in Es|].
  pose proof (ht_used _ H0) as Hu. pose proof (ht_pow _ H0) as (e & He & Hs).
  assert (4 <= 2 ^ e) as Hp4 by (apply (Z.pow_le_mono_r 2 2); lia).
  unfold all in Hct. rewrite zlen_app in Hct. zlen_pos.
  destruct ((used (ht0 d) >=? size (ht0 d)) && _) eqn:Eg; boolsimp.
  - rewrite uN_small by lia. apply Hexp; [lia|done|lia|lia].
  - exists d. split_and!; auto.
Qed.

(** ** Adding *)

Lemma set_ht_rehashing d second t : dictIsRehashing (set_ht d second t) = dictIsRehashing d.
Proof. by destruct second. Qed.
Lemma ht_set_ht d second t : ht (set_ht d second t) second = t.
Proof. by destruct second. Qed.

(** Writing the value of an entry. *)
Lemma setVal_spec d m second idx pos c k v val :
  dict_rep d m -> searched d second -> bucket (ht d second) idx = Some c ->
  c !! pos = Some (k, v) ->
  exists d', dictSetVal d (second, idx, pos) val = Some d' /\ dict_rep d' (<[k := val]> m).
Proof.
  intros Hrep Hs Hb Hc. pose proof Hrep as [Hd _]. unfold dictSetVal. rewrite Hb. mstep. rewrite Hc. mstep.
  eexists. split; [done|].
  destruct (all_put d second idx c Hb) as (Y & HY & HY').
  set (c' := <[pos:=(k, val)]> c).
  assert (c ≡ₚ (k, v) :: delete pos c) as HPc by by apply delete_Permutation.
  assert (c' ≡ₚ (k, val) :: delete pos c) as HPc'.
  { subst c'. rewrite (delete_Permutation _ pos (k, val)).
    - by rewrite !delete_take_drop, take_insert_ge, drop_insert_lt by lia.
    - apply list_lookup_insert_eq. by eapply lookup_lt_Some. }
  change (set_bucket (ht d second) idx c') with (put (ht d second) idx c' (used (ht d second))).
  specialize (HY' c' (used (ht d second))).
  set (d' := set_ht d second (put (ht d second) idx c' (used (ht d second)))) in *.
  rewrite HPc' in HY'. rewrite HPc in HY.
  assert (NoDup (all d').*1) as Hnd.
  { rewrite HY'. pose proof (ok_nodup d Hd) as Hnd. rewrite HY in Hnd. exact Hnd. }
  split.
  - apply (dict_ok_put d second idx c c'); try done.
    + right. by intros ->.
    + intros k' v' Hin. assert (k' = k \/ (k', v') ∈ c) as [-> | Hin'].
      { rewrite HPc' in Hin. apply elem_of_cons in Hin as [[= -> _] | Hin]; [by left|right].
        rewrite HPc. by right. }
      * eapply bucket_hash; [apply Hs|done|]. by eapply list_elem_of_lookup_2.
      * by eapply bucket_hash; [apply Hs| |].
    + subst c'. unfold zlen. rewrite length_insert. lia.
    + change (zlen (all d') < 2 ^ 63). rewrite (zlen_perm _ _ HY'). pose proof (ok_count d Hd) as Hct. rewrite (zlen_perm _ _ HY) in Hct.
      simpl app in *. rewrite zlen_cons in Hct |- *. done.
  - rewrite (list_to_map_proper _ _ Hnd HY'). destruct Hrep as [_ <-].
    pose proof (ok_nodup d Hd) as Hnd0.
    rewrite (list_to_map_proper _ _ Hnd0 HY). simpl. by rewrite insert_insert_eq.
Qed.

(** [l] is the place of the entry of [k], with value [v]. *)
Definition points d (l : loc) (k : K) (v : V) : Prop :=
  let '(second, idx, pos) := l in
  searched d second /\ exists c, bucket (ht d second) idx = Some c /\ c !! pos = Some (k, v).

Lemma points_in d l k v : points d l k v -> (k, v) ∈ all d.
Proof.
  destruct l as [[second idx] pos]. intros (_ & c & [Hb _]%bucket_lookup & Hc).
  assert ((k, v) ∈ contents (ht d second)) as Hin.
  { apply elem_of_concat. eexists _, c. split; [done|]. by eapply list_elem_of_lookup_2. }
  unfold all. rewrite elem_of_app. destruct second; auto.
Qed.
Lemma points_entry d l k v : points d l k v -> entry_at d l = Some (k, v).
Proof.
  destruct l as [[second idx] pos]. intros (_ & c & Hb & Hc). unfold entry_at.
  rewrite Hb. mstep. done.
Qed.
Lemma setVal_points d m l k v val :
  dict_rep d m -> points d l k v ->
  exists d', dictSetVal d l val = Some d' /\ dict_rep d' (<[k := val]> m).
Proof.
  destruct l as [[second idx] pos]. intros Hrep (Hs & c & Hb & Hc). by eapply setVal_spec.
Qed.

(** The search of both tables finds exactly the entry of the map. *)
Lemma search_rep d m k :
  dict_rep d m -> ht0 d <> _dictReset ->
  exists idx found, search_tables d (hashFunction k) k = Some (idx, found) /\
    match m !! k with
    | Some v => exists l, found = Some l /\ points d l k v
    | None => found = None /\ searched d (dictIsRehashing d) /\
        idx = Z.land (hashFunction k) (sizemask (ht d (dictIsRehashing d)))
    end.
Proof.
  intros Hrep Hne. pose proof Hrep as [Hd _].
  destruct (search_tables_spec d k Hd Hne) as ([idx found] & -> & Hr). exists idx, found.
  split; [done|]. unfold search_result in Hr. simpl in Hr. destruct found as [[[second i] pos]|].
  - destruct Hr as (Hs & c & v & Hb & Hc).
    assert (points d (second, i, pos) k v) as Hp by (split; [done|by exists c]).
    pose proof (points_in _ _ _ _ Hp) as Hin. apply (rep_elem d m k v Hrep) in Hin. rewrite Hin. eauto.
  - destruct Hr as (Hn & Hi & Hs). apply (rep_none d m k Hrep) in Hn. rewrite Hn. done.
Qed.

(** Putting a new entry at the head of its chain. *)
Lemma add_entry d m k v idx c :
  dict_rep d m -> m !! k = None -> zlen (all d) < 2 ^ 58 -> searched d (dictIsRehashing d) ->
  let second := dictIsRehashing d in let t := ht d second in
  idx = Z.land (hashFunction k) (sizemask t) -> bucket t idx = Some c ->
  let d' := set_ht d second (put t idx ((k, v) :: c) (used t + 1)) in
  dict_rep d' (<[k := v]> m) /\ points d' (second, idx, 0%nat) k v.
Proof.
  intros Hrep Hk Hct Hs second t Hidx Hb d'. pose proof Hrep as [Hd Hm].
  destruct (all_put d second idx c Hb) as (Y & HY & HY').
  specialize (HY' ((k, v) :: c) (used t + 1)).
  assert (all d' ≡ₚ (k, v) :: all d) as HP by (rewrite HY; exact HY').
  assert (NoDup (all d').*1) as Hnd.
  { rewrite HP. simpl. apply NoDup_cons. split; [|apply Hd].
    intros ([k' v'] & -> & Hin)%list_elem_of_fmap. simpl in Hk.
    by eapply (rep_none d m k' Hrep) in Hk. }
  assert (forall k' v', (k', v') ∈ (k, v) :: c -> Z.land (hashFunction k') (sizemask t) = idx) as Hh.
  { intros k' v' [[= -> ->] | Hin]%elem_of_cons; [done|]. eapply bucket_hash; [apply Hs|done|done]. }
  assert (used t + 1 = used t - zlen c + zlen ((k, v) :: c)) as Hu by (rewrite zlen_cons; lia).
  split; [split|].
  - apply (dict_ok_put d second idx c); try done; [by left|].
    change (zlen (all d') < 2 ^ 63). rewrite (zlen_perm _ _ HP), zlen_cons. lia.
  - rewrite (list_to_map_proper _ _ Hnd HP). simpl. by rewrite Hm.
  - split; [split|].
    + subst d'. rewrite ht_set_ht. eapply put_ok; try done. apply Hs.
    + subst d'. rewrite set_ht_rehashing. done.
    + exists ((k, v) :: c). split; [|done]. subst d'. rewrite ht_set_ht.
      pose proof (bucket_lookup _ _ _ Hb) as [Hl Hi]. unfold bucket. rewrite decide_True by done. simpl.
      apply list_lookup_insert_eq. by eapply lookup_lt_Some.
Qed.

Lemma addRaw_spec can_resize d m k fresh :
  dict_rep d m -> zlen (all d) < 2 ^ 58 ->
  match m !! k with
  | Some v => exists l d', dictAddRaw can_resize d k fresh = Some (None, Some l, d') /\
      dict_rep d' m /\ points d' l k v
  | None => exists l d', dictAddRaw can_resize d k fresh = Some (Some l, None, d') /\
      dict_rep d' (<[k := fresh]> m) /\ points d' l k fresh
  end.
Proof.
  intros Hrep Hct. unfold dictAddRaw, _dictKeyIndex.
  destruct (rehash_if_rehashing_spec d m Hrep) as (d1 & -> & Hrep1 & HP1). mstep.
  rewrite <- (zlen_perm _ _ HP1) in Hct.
  destruct (expandIfNeeded_spec can_resize d1 m Hrep1 Hct) as (d2 & -> & Hrep2 & HA2 & Hne). mstep.
  rewrite <- HA2 in Hct. change (DICT_OK =? DICT_ERR) with false. cbv iota.
  destruct (search_rep d2 m k Hrep2 Hne) as (idx & found & -> & Hf). mstep.
  destruct (m !! k) as [v|] eqn:Ek.
  - destruct Hf as (l & -> & Hl). mstep. simpl. eauto.
  - destruct Hf as (-> & Hs & Hidx). mstep. pose proof Hs as [Ht _].
    pose proof (mask_bound _ (hashFunction k) Ht) as Hb. rewrite <- Hidx in Hb.
    rewrite (proj2 (Z.eqb_neq _ _)) by lia.
    destruct (bucket_some _ _ Ht Hb) as [c Hc]. rewrite Hc. mstep. simpl.
    assert (used (ht d2 (dictIsRehashing d2)) < 2 ^ 58 /\ 0 <= used (ht d2 (dictIsRehashing d2))) as [Hu Hu0].
    { rewrite (ht_used _ Ht). unfold all in Hct. rewrite zlen_app in Hct. zlen_pos.
      destruct (dictIsRehashing d2); simpl; lia. }
    rewrite uN_small by lia. eexists _, _. split; [done|].
    by apply add_entry.
Qed.

(** ** Deleting *)

Lemma used_bound d second : dict_ok d -> ht_ok (ht d second) -> 0 <= used (ht d second) < 2 ^ 63.
Proof.
  intros [_ _ Hct] Ht. rewrite (ht_used _ Ht). unfold all in Hct. rewrite zlen_app in Hct. zlen_pos.
  destruct second; simpl; lia.
Qed.

Lemma remove_entry d m second idx pos c k v :
  dict_rep d m -> points d (second, idx, pos) k v -> bucket (ht d second) idx = Some c ->
  let t := ht d second in
  dict_rep (set_ht d second (put t idx (delete pos c) (u64 (used t - 1)))) (delete k m).
Proof.
  intros Hrep (Hs & c0 & Hb0 & Hc) Hb t. rewrite Hb in Hb0. injection Hb0 as <-.
  pose proof Hrep as [Hd Hm]. destruct (all_put d second idx c Hb) as (Y & HY & HY').
  specialize (HY' (delete pos c) (u64 (used t - 1))). fold t in HY'.
  set (d' := set_ht d second (put t idx (delete pos c) (u64 (used t - 1)))) in *.
  assert (c ≡ₚ (k, v) :: delete pos c) as HPc by by apply delete_Permutation.
  assert (all d ≡ₚ (k, v) :: all d') as HP by (rewrite HY, HPc, HY'; done).
  pose proof (ok_nodup d Hd) as Hnd. rewrite HP in Hnd. simpl in Hnd. apply NoDup_cons in Hnd as [Hni Hnd].
  pose proof (used_bound d second Hd (proj1 Hs)) as Hub. fold t in Hub.
  assert (1 <= used t) as Hu1.
  { subst t. rewrite (ht_used _ (proj1 Hs)). pose proof (bucket_lookup _ _ _ Hb) as [Hl _].
    unfold contents. rewrite (zlen_perm _ _ (concat_split _ _ _ Hl)), zlen_app, (zlen_perm _ _ HPc), zlen_cons.
    zlen_pos. lia. }
  split.
  - apply (dict_ok_put d second idx c); try done.
    + right. by intros ->.
    + intros k' v' Hin. eapply bucket_hash; [apply Hs|done|]. rewrite HPc. by right.
    + rewrite uN_small by lia. rewrite (zlen_perm _ _ HPc), zlen_cons. subst t. lia.
    + change (zlen (all d') < 2 ^ 63). pose proof (ok_count d Hd) as Hct.
      rewrite (zlen_perm _ _ HP), zlen_cons in Hct. lia.
  - rewrite <- Hm, (list_to_map_proper _ _ (ok_nodup d Hd) HP). simpl.
    rewrite delete_insert_id; [done|]. by apply not_elem_of_list_to_map.
Qed.

Lemma delete_in_table_spec d m second k :
  dict_rep d m -> searched d second ->
  exists he d', delete_in_table d second (hashFunction k) k = Some (he, d') /\
    ((exists v, he = Some (k, v) /\ m !! k = Some v /\ dict_rep d' (delete k m)) \/
     (he = None /\ d' = d /\ forall v, (k, v) ∉ contents (ht d second))).
Proof.
  intros Hrep Hs. pose proof Hs as [Ht _]. unfold delete_in_table.
  destruct (bucket_some _ _ Ht (mask_bound _ (hashFunction k) Ht)) as [c Hc]. rewrite Hc. mstep.
  destruct (chain_find c k 0) as [pos|] eqn:E.
  - apply chain_find_some in E as (_ & v & Hv). rewrite Nat.sub_0_r in Hv.
    assert (points d (second, Z.land (hashFunction k) (sizemask (ht d second)), pos) k v) as Hp
      by (split; [done|by exists c]).
    eexists _, _. split; [done|]. left. exists v. split; [done|]. split.
    + apply (rep_elem d m k v Hrep). by eapply points_in.
    + by apply (remove_entry d m _ _ pos c k v).
  - eexists _, _. split; [done|]. right. split_and!; try done. intros v Hin.
    rewrite in_bucket in Hin by done. by eapply chain_find_none.
Qed.

Lemma all_nonempty_ht0 d : dict_ok d -> all d <> [] -> searched d false.
Proof.
  intros Hd Hne. split; [|done].
  destruct (ok_tables d Hd) as [(_ & [E | ?] & E1) | (_ & _ & ? & _)]; try done.
  destruct Hne. unfold all. by rewrite E, E1.
Qed.

(** The tests by which the functions recognise an empty dictionary. *)
Lemma used_empty d : dict_ok d -> all d = [] <-> used (ht0 d) = 0 /\ used (ht1 d) = 0.
Proof.
  intros Hd. assert (forall t, t = _dictReset \/ ht_ok t -> contents t = [] <-> used t = 0) as Hz.
  { intros t [-> | Ht]; [done|]. rewrite (ht_used t Ht). split; [by intros ->|apply zlen_0_inv]. }
  unfold all. rewrite <- !Hz.
  - split; [apply app_eq_nil|by intros [-> ->]].
  - destruct (ok_tables d Hd) as [(_ & _ & ?) | (_ & _ & _ & ?)]; auto.
  - destruct (ok_tables d Hd) as [(_ & ? & _) | (_ & _ & ? & _)]; auto.
Qed.
Lemma dictSize_all d : dict_ok d -> dictSize d = zlen (all d).
Proof.
  intros Hd. assert (forall t, t = _dictReset \/ ht_ok t -> used t = zlen (contents t)) as Hz.
  { intros t [-> | Ht]; [done|]. apply (ht_used t Ht). }
  unfold dictSize. rewrite (Hz (ht0 d)), (Hz (ht1 d)), <- zlen_app.
  - pose proof (ok_count d Hd). unfold all in *. rewrite uN_small; [done|]. zlia.
  - destruct (ok_tables d Hd) as [(_ & _ & ?) | (_ & _ & _ & ?)]; auto.
  - destruct (ok_tables d Hd) as [(_ & ? & _) | (_ & _ & ? & _)]; auto.
Qed.

Lemma genericDelete_spec d m k :
  dict_rep d m ->
  exists d', dictGenericDelete d k = Some ((fun v => (k, v)) <$> m !! k, d') /\
    dict_rep d' (delete k m).
Proof.
  intros Hrep. pose proof Hrep as [Hd Hm]. unfold dictGenericDelete.
  destruct ((used (ht0 d) =? 0) && (used (ht1 d) =? 0)) eqn:Eu; boolsimp.
  { assert (all d = []) as HE by by apply used_empty.
    exists d. rewrite HE in Hm. simpl in Hm. subst m. split; [by rewrite lookup_empty|].
    rewrite delete_empty. by split; [|rewrite HE]. }
  assert (all d <> []) as Hne.
  { rewrite used_empty by done. intros [E0 E1]. by rewrite E0, E1 in Eu. }
  destruct (rehash_if_rehashing_spec d m Hrep) as (d1 & -> & Hrep1 & HP1). mstep.
  pose proof Hrep1 as [Hd1 _].
  assert (all d1 <> []) as Hne1.
  { intros HE. rewrite HE in HP1. apply Hne. by apply Permutation_nil. }
  destruct (delete_in_table_spec d1 m false k Hrep1 (all_nonempty_ht0 d1 Hd1 Hne1))
    as (he & d' & -> & [(v & -> & -> & Hrep') | (-> & -> & Hn0)]); mstep; [eauto|].
  destruct (dictIsRehashing d1) eqn:Er; simpl.
  - assert (searched d1 true) as Hs1.
    { split; [|done]. unfold dictIsRehashing in Er.
      destruct (ok_tables d1 Hd1) as [(Hr & _) | (_ & _ & _ & ?)]; [by rewrite Hr in Er|done]. }
    destruct (delete_in_table_spec d1 m true k Hrep1 Hs1)
      as (he & d' & -> & [(v & -> & -> & Hrep') | (-> & -> & Hn1)]); [eauto|].
    assert (m !! k = None) as Hk.
    { apply (rep_none d1 m k Hrep1). intros v [? | ?]%elem_of_app; naive_solver. }
    rewrite Hk. exists d1. by rewrite delete_id.
  - assert (m !! k = None) as Hk.
    { apply (rep_none d1 m k Hrep1). intros v [? | Hin]%elem_of_app; [naive_solver|].
      unfold dictIsRehashing in Er. boolsimp.
      destruct (ok_tables d1 Hd1) as [(_ & _ & E1) | (_ & [Hr _] & _)]; [|lia].
      rewrite E1 in Hin. by apply elem_of_nil in Hin. }
    rewrite Hk. exists d1. by rewrite delete_id.
Qed.

(** ** The contract *)

(** C19. [dictAdd]: a key of the map is refused, changing nothing; another one is added
    with its value.  At every moment of an incremental rehash, and whatever the
    resize policy, no access leaves the tables. *)
Theorem dictAdd_correct can_resize d m k v fresh :
  dict_rep d m -> dictSize d < 2 ^ 58 ->
  exists d', dictAdd can_resize d k v fresh =
      Some (match m !! k with Some _ => DICT_ERR | None => DICT_OK end, d') /\
    dict_rep d' (match m !! k with Some _ => m | None => <[k := v]> m end).
Proof.
  intros Hrep Hct. rewrite (dictSize_all d (proj1 Hrep)) in Hct. unfold dictAdd.
  pose proof (addRaw_spec can_resize d m k fresh Hrep Hct) as Ha. destruct (m !! k) as [w|].
  - destruct Ha as (l & d' & -> & Hrep' & _). mstep. eauto.
  - destruct Ha as (l & d' & -> & Hrep' & Hl). mstep.
    destruct (setVal_points d' _ l k fresh v Hrep' Hl) as (d'' & -> & Hrep''). mstep.
    exists d''. by rewrite insert_insert_eq in Hrep''.
Qed.

(** [dictReplace]: the key has the new value afterwards, and the result tells whether
    it was added. *)
Theorem dictReplace_correct can_resize d m k v fresh :
  dict_rep d m -> dictSize d < 2 ^ 58 ->
  exists d', dictReplace can_resize d k v fresh =
      Some (match m !! k with Some _ => 0 | None => 1 end, d') /\
    dict_rep d' (<[k := v]> m).
Proof.
  intros Hrep Hct. rewrite (dictSize_all d (proj1 Hrep)) in Hct. unfold dictReplace.
  pose proof (addRaw_spec can_resize d m k fresh Hrep Hct) as Ha. destruct (m !! k) as [w|].
  - destruct Ha as (l & d' & -> & Hrep' & Hl). mstep.
    destruct (setVal_points d' _ l k w v Hrep' Hl) as (d'' & -> & Hrep''). mstep. eauto.
  - destruct Ha as (l & d' & -> & Hrep' & Hl). mstep.
    destruct (setVal_points d' _ l k fresh v Hrep' Hl) as (d'' & -> & Hrep''). mstep.
    exists d''. by rewrite insert_insert_eq in Hrep''.
Qed.

(** [dictUnlink] removes the key and returns its entry, NULL when there is none;
    [dictDelete] reports the same as DICT_OK or DICT_ERR. *)
Theorem dictDelete_correct d m k :
  dict_rep d m ->
  exists d', dictUnlink d k = Some ((fun v => (k, v)) <$> m !! k, d') /\
    dictDelete d k = Some (match m !! k with Some _ => DICT_OK | None => DICT_ERR end, d') /\
    dict_rep d' (delete k m).
Proof.
  intros Hrep. destruct (genericDelete_spec d m k Hrep) as (d' & HE & Hrep').
  exists d'. split; [done|]. split; [|done]. unfold dictDelete. rewrite HE. mstep.
  by destruct (m !! k).
Qed.

Lemma find_spec d m k :
  dict_rep d m ->
  exists found d', dictFind d k = Some (found, d') /\ dict_rep d' m /\
    match m !! k with
    | Some v => exists l, found = Some l /\ points d' l k v
    | None => found = None
    end.
Proof.
  intros Hrep. pose proof Hrep as [Hd Hm]. unfold dictFind. rewrite (dictSize_all d Hd).
  destruct (zlen (all d) =? 0) eqn:E; boolsimp.
  { apply zlen_0_inv in E. rewrite E in Hm. simpl in Hm. exists None, d.
    rewrite <- Hm at 2. rewrite lookup_empty. done. }
  destruct (rehash_if_rehashing_spec d m Hrep) as (d1 & -> & Hrep1 & HP1). mstep.
  destruct (search_rep d1 m k Hrep1) as (idx & found & -> & Hf).
  { assert (all d1 <> []) as Hne by (intros HE; rewrite HE in HP1; apply Permutation_nil in HP1; by rewrite HP1 in E).
    destruct (all_nonempty_ht0 d1 (proj1 Hrep1) Hne) as [Ht _]. intros HE.
    destruct (ht_pow _ Ht) as (e & He & Hs). simpl in Hs. rewrite HE in Hs. simpl in Hs. lia. }
  mstep. exists found, d1. split; [done|]. split; [done|]. destruct (m !! k); naive_solver.
Qed.

(** [dictFind] finds exactly the keys of the map, at their entry, and
    [dictFetchValue] returns the value; the rehash step they make changes nothing. *)
Theorem dictFind_correct d m k :
  dict_rep d m ->
  exists found d', dictFind d k = Some (found, d') /\ dictFetchValue d k = Some (m !! k, d') /\
    dict_rep d' m /\
    match found with Some l => snd <$> entry_at d' l = m !! k | None => m !! k = None end.
Proof.
  intros Hrep. destruct (find_spec d m k Hrep) as (found & d' & HE & Hrep' & Hf).
  exists found, d'. unfold dictFetchValue. rewrite HE. mstep. destruct (m !! k) as [v|].
  - destruct Hf as (l & -> & Hl). rewrite (points_entry _ _ _ _ Hl). mstep. done.
  - subst found. done.
Qed.

(** C36. Rehashing: any number of steps keeps the map, and returns 1 exactly when the
    rehash is not over; every call with at least one step makes progress. *)
Theorem dictRehash_correct d m n :
  dict_rep d m ->
  exists r d', dictRehash d n = Some (r, d') /\ dict_rep d' m /\ r = b2z (dictIsRehashing d') /\
    (dictIsRehashing d' = true -> n <> 0%nat ->
     size (ht0 d') - rehashidx d' < size (ht0 d) - rehashidx d).
Proof.
  intros Hrep. destruct (rehash_spec d n (proj1 Hrep)) as (r & d' & HE & Hd' & HP & _ & Hr & _ & Hp).
  exists r, d'. split_and!; try done; [by eapply rep_perm|]. intros Hre Hn.
  destruct (Hp Hre) as [-> Hlt]. specialize (Hlt Hn). lia.
Qed.

(** [while(dictRehash(d,n));] *)
Fixpoint rehash_all (fuel : nat) d (n : nat) : option (dict K V) :=
  match fuel with
  | O => None
  | S fuel =>
      let! (r, d) := dictRehash d n in
      if r =? 0 then Some d else rehash_all fuel d n
  end.

Lemma rehash_all_spec fuel d m n :
  dict_rep d m -> n <> 0%nat -> size (ht0 d) - rehashidx d <= Z.of_nat fuel ->
  exists d', rehash_all (S fuel) d n = Some d' /\ dict_rep d' m /\ dictIsRehashing d' = false.
Proof.
  revert d. induction fuel as [|fuel IH]; intros d Hrep Hn Hf; cbn [rehash_all];
    destruct (rehash_spec d n (proj1 Hrep)) as (r & d' & -> & Hd' & HP & _ & -> & _ & Hp); mstep;
    (destruct (dictIsRehashing d') eqn:Er; simpl b2z;
      [|by exists d'; split_and!; try done; eapply rep_perm]);
    destruct (Hp eq_refl) as [Hs Hlt]; specialize (Hlt Hn).
  - destruct (ok_tables d' Hd') as [(Hr & _) | (Hr & [Hr0 _] & _)]; [|lia].
    unfold dictIsRehashing in Er. by rewrite Hr in Er.
  - change (1 =? 0) with false. cbv iota.
    apply (IH d'); [by eapply rep_perm|done|lia].
Qed.

(** Termination: a rehash is over after at most as many calls as the old table has
    buckets, with the same map in one table. *)
Theorem rehash_completes d m n :
  dict_rep d m -> n <> 0%nat ->
  exists d', rehash_all (S (S (Z.to_nat (size (ht0 d))))) d n = Some d' /\ dict_rep d' m /\
    ht1 d' = _dictReset.
Proof.
  intros Hrep Hn. destruct (rehash_all_spec (S (Z.to_nat (size (ht0 d)))) d m n) as (d' & HE & Hrep' & Hr);
    [done|done| |].
  - destruct (ok_tables d (proj1 Hrep)) as [(-> & [-> | Ht] & _) | (_ & [? _] & Ht & _)];
      [simpl; lia| |]; destruct (ht_pow _ Ht) as (e & He & Hs); rewrite Hs; lia.
  - exists d'. split_and!; try done. unfold dictIsRehashing in Hr. boolsimp.
    destruct (ok_tables d' (proj1 Hrep')) as [(_ & _ & ?) | (_ & [? _] & _)]; [done|lia].
Qed.

Lemma expand_rep d m sz :
  dict_rep d m -> 0 <= sz <= 2 ^ 60 ->
  exists r d', dictExpand d sz = Some (r, d') /\ dict_rep d' m /\
    (r = DICT_ERR /\ d' = d \/ r = DICT_OK /\ new_size d' sz).
Proof.
  intros Hrep Hs. destruct (expand_spec d sz (proj1 Hrep) Hs) as (r & d' & HE & Hd' & HA & Hr & _).
  exists r, d'. split_and!; [done|apply (rep_perm d); try done; by rewrite HA|].
  destruct Hr as [? | (? & _ & ?)]; auto.
Qed.
Lemma resize_rep can_resize d m :
  dict_rep d m -> dictSize d <= 2 ^ 60 ->
  exists r d', dictResize can_resize d = Some (r, d') /\ dict_rep d' m /\
    (r = DICT_ERR /\ d' = d \/ r = DICT_OK /\ new_size d' (Z.max 4 (used (ht0 d)))).
Proof.
  intros Hrep Hct. pose proof (proj1 Hrep) as Hd. rewrite (dictSize_all d Hd) in Hct.
  unfold dictResize. casif; [exists DICT_ERR, d; auto|].
  replace (if used (ht0 d) <? DICT_HT_INITIAL_SIZE then DICT_HT_INITIAL_SIZE else used (ht0 d))
    with (Z.max 4 (used (ht0 d))) by (unfold DICT_HT_INITIAL_SIZE; casif; lia).
  apply expand_rep; [done|]. pose proof (ok_tables d Hd) as Ht.
  enough (0 <= used (ht0 d) <= 2 ^ 60) by lia.
  assert (used (ht0 d) = zlen (contents (ht0 d))) as ->.
  { destruct Ht as [(_ & [-> | Ht] & _) | (_ & _ & Ht & _)]; [done|apply (ht_used _ Ht)..]. }
  unfold all in Hct. rewrite zlen_app in Hct. zlen_pos. lia.
Qed.

(** [dictExpand] keeps the map; it either refuses and changes nothing, or allocates a
    table whose size is the least power of two, from 4, with the room asked for.
    [dictResize] keeps the map in the same way. *)
Theorem dictExpand_correct can_resize d m sz :
  dict_rep d m -> 0 <= sz <= 2 ^ 60 -> dictSize d <= 2 ^ 60 ->
  exists r d' r' d'', dictExpand d sz = Some (r, d') /\ dict_rep d' m /\
    (r = DICT_ERR /\ d' = d \/ r = DICT_OK /\ new_size d' sz) /\
    dictResize can_resize d = Some (r', d'') /\ dict_rep d'' m /\
    (r' = DICT_ERR /\ d'' = d \/ r' = DICT_OK /\ new_size d'' (Z.max 4 (used (ht0 d)))).
Proof.
  intros Hrep Hsz Hct. destruct (expand_rep d m sz Hrep Hsz) as (r & d' & HE & Hrep' & Hr).
  destruct (resize_rep can_resize d m Hrep Hct) as (r' & d'' & HE' & Hrep'' & Hr'). exists r, d', r', d''. auto 10.
Qed.

Lemma clear_all (T : list (list (K * V))) u : u = zlen (concat T) -> u < 2 ^ 63 -> clear_loop T u = concat T.
Proof.
  revert u. induction T as [|c T IH]; intros u Hu Hb; simpl in *; [done|]. rewrite zlen_app in Hu. zlen_pos.
  rewrite Z.gtb_ltb. destruct (0 <? u) eqn:E; boolsimp.
  - rewrite uN_small by lia. rewrite IH by lia. done.
  - assert (c = []) as -> by (apply zlen_0_inv; lia).
    assert (concat T = []) as -> by (apply zlen_0_inv; lia). done.
Qed.

Lemma create_rep : dict_rep dictCreate ∅.
Proof. split; [|done]. constructor; [left; simpl; auto|constructor|done]. Qed.

(** [dictCreate] is the empty map; [dictEmpty] leaves the empty map and frees every
    entry of the dictionary exactly once. *)
Theorem dictEmpty_correct d m :
  dict_rep d m -> dict_rep dictCreate ∅ /\
  exists d', dictEmpty d = (all d, d') /\ dict_rep d' ∅.
Proof.
  intros [Hd _]. split; [apply create_rep|]. eexists. split; [|apply create_rep].
  unfold dictEmpty, _dictClear, all, contents.
  assert (forall t, t = _dictReset \/ ht_ok t -> zlen (contents t) < 2 ^ 63 ->
            clear_loop (table t) (used t) = concat (table t)) as Hc.
  { intros t [-> | Ht] Hb; [done|]. apply clear_all; [apply (ht_used t Ht)|].
    by rewrite (ht_used t Ht). }
  pose proof (ok_count d Hd) as Hct. unfold all in Hct. rewrite zlen_app in Hct. zlen_pos.
  rewrite !Hc; [done|..]; try lia;
    destruct (ok_tables d Hd) as [(_ & ? & ?) | (_ & _ & ? & ?)]; auto.
Qed.

(** ** The contracts clients use *)

Lemma size_rep d m : dict_rep d m -> dictSize d = Z.of_nat (base.size m).
Proof.
  intros [Hd <-]. rewrite (dictSize_all d Hd). unfold zlen. f_equal.
  rewrite <- length_map_to_list. by rewrite map_to_list_to_map by apply Hd.
Qed.

Lemma add_new can_resize d m k v fresh :
  dict_rep d m -> dictSize d < 2 ^ 58 -> m !! k = None ->
  exists d', dictAdd can_resize d k v fresh = Some (DICT_OK, d') /\ dict_rep d' (<[k := v]> m).
Proof.
  intros Hd Hsz Hk. rewrite (dictSize_all d (proj1 Hd)) in Hsz.
  pose proof (addRaw_spec can_resize d m k fresh Hd Hsz) as Ha. rewrite Hk in Ha.
  destruct Ha as (l & d1 & Hr & Hd1 & Hl). unfold dictAdd. rewrite Hr. mstep.
  destruct (setVal_points d1 _ l k fresh v Hd1 Hl) as (d2 & -> & Hd2). mstep.
  exists d2. by rewrite insert_insert_eq in Hd2.
Qed.

Lemma add_old can_resize d m k v w fresh :
  dict_rep d m -> dictSize d < 2 ^ 58 -> m !! k = Some w ->
  exists d', dictAdd can_resize d k v fresh = Some (DICT_ERR, d') /\ dict_rep d' m.
Proof.
  intros Hd Hsz Hk. rewrite (dictSize_all d (proj1 Hd)) in Hsz.
  pose proof (addRaw_spec can_resize d m k fresh Hd Hsz) as Ha. rewrite Hk in Ha.
  destruct Ha as (l & d1 & Hr & Hd1 & _). unfold dictAdd. rewrite Hr. mstep. eauto.
Qed.

Lemma addOrFind_rep can_resize d m k fresh :
  dict_rep d m -> dictSize d < 2 ^ 58 ->
  exists l d' v, dictAddOrFind can_resize d k fresh = Some (Some l, d') /\ points d' l k v /\
    dict_rep d' (<[k := v]> m) /\ v = default fresh (m !! k).
Proof.
  intros Hd Hsz. rewrite (dictSize_all d (proj1 Hd)) in Hsz. unfold dictAddOrFind.
  pose proof (addRaw_spec can_resize d m k fresh Hd Hsz) as Ha. destruct (m !! k) as [v|] eqn:E.
  - destruct Ha as (l & d1 & -> & Hd1 & Hl). mstep. exists l, d1, v. split_and!; try done.
    by rewrite insert_id.
  - destruct Ha as (l & d1 & -> & Hd1 & Hl). mstep. by exists l, d1, fresh.
Qed.

Lemma delete_rep d m k :
  dict_rep d m ->
  exists d', dictDelete d k = Some (match m !! k with Some _ => DICT_OK | None => DICT_ERR end, d') /\
    dict_rep d' (delete k m).
Proof.
  intros Hd. destruct (genericDelete_spec d m k Hd) as (d' & HE & Hd'). exists d'. split; [|done].
  unfold dictDelete. rewrite HE. mstep. by destruct (m !! k).
Qed.

Lemma unlink_rep d m k :
  dict_rep d m -> exists d', dictUnlink d k = Some ((fun v => (k, v)) <$> m !! k, d') /\ dict_rep d' (delete k m).
Proof. apply genericDelete_spec. Qed.

Lemma fetch_rep d m k : dict_rep d m -> exists d', dictFetchValue d k = Some (m !! k, d') /\ dict_rep d' m.
Proof.
  intros Hd. destruct (find_spec d m k Hd) as (found & d' & HE & Hd' & Hf). exists d'. split; [|done].
  unfold dictFetchValue. rewrite HE. mstep. destruct (m !! k) as [v|].
  - destruct Hf as (l & -> & Hl). by rewrite (points_entry _ _ _ _ Hl).
  - by subst found.
Qed.
End Spec.
