(* ===== verification/DictIter.v ===== *)
(** * Iteration over hash tables (dict.c): cursors, iterators, sampling

    [dictScan] with its reversed cursor, [dictIterator], and the random sampling
    functions.  A callback is modelled by the list of the entries it is called with; the
    numbers returned by [random()] are the stream [rnd], of which a call uses the next
    element. *)

From Stdlib Require Import ZArith Lia.
From stdpp Require Import base numbers option list.
From S2P Require Import Prelude Memory Dict.

Local Open Scope Z_scope.
Local Open Scope redis_scope.

(** ** Bit reversal *)

(** [while ((s >>= 1) > 0)]: from 64, six turns. *)
Fixpoint rev_loop (fuel : nat) (s mask v : Z) : Z :=
  match fuel with
  | O => v
  | S fuel =>
      let s := Z.shiftr s 1 in
      if s >? 0 then
        let mask := Z.lxor mask (u64 (Z.shiftl mask s)) in
        let v := Z.lor (Z.land (Z.shiftr v s) mask)
                       (Z.land (u64 (Z.shiftl v s)) (u64 (Z.lnot mask))) in
        rev_loop fuel s mask v
      else v
  end.
Definition rev (v : Z) : Z := rev_loop 7 64 UINT64_MAX v.

(** [v |= ~m; v = rev(v); v++; v = rev(v);] *)
Definition next_cursor (m v : Z) : Z :=
  let v := Z.lor v (u64 (Z.lnot m)) in
  let v := rev v in
  let v := u64 (v + 1) in
  rev v.

Section Iter.
  Context {K V : Type} `{!dictType K}.

Abbreviation dictht := (dictht K V).
Abbreviation dict := (dict K V).

(** ** Scan *)

(** The [do ... while (v & (m0 ^ m1))] loop over the larger table, whose size bounds
    the number of turns. *)
Fixpoint scan_expansions (fuel : nat) (t1 : dictht) (m0 m1 v : Z)
    : option (list (K * V) * Z) :=
  let! de := bucket t1 (Z.land v m1) in
  let v := next_cursor m1 v in
  if Z.land v (Z.lxor m0 m1) =? 0 then Some (de, v) else
  match fuel with
  | O => None
  | S fuel =>
      let! (rest, v) := scan_expansions fuel t1 m0 m1 v in
      Some (de ++ rest, v)
  end.

(** The entries [fn] is called with, and the new cursor.  The dictionary is unchanged:
    [iterators] is incremented and decremented. *)
Definition dictScan (d : dict) (v : Z) : option (list (K * V) * Z) :=
  if dictSize d =? 0 then Some ([], 0) else
  if negb (dictIsRehashing d) then
    let t0 := ht0 d in
    let m0 := sizemask t0 in
    let! de := bucket t0 (Z.land v m0) in
    Some (de, next_cursor m0 v)
  else
    let '(t0, t1) := if size (ht0 d) >? size (ht1 d) then (ht1 d, ht0 d) else (ht0 d, ht1 d) in
    let m0 := sizemask t0 in
    let m1 := sizemask t1 in
    let! de := bucket t0 (Z.land v m0) in
    let! (rest, v) := scan_expansions (Z.to_nat (size t1)) t1 m0 m1 v in
    Some (de ++ rest, v).

(** ** Iterators *)

(** [entry] and [nextEntry] point into a chain: its rest from there, [] for NULL.  The
    fingerprint of unsafe iterators, which only serves to detect misuse, is left out. *)
Record dictIterator := Iterator {
  index : Z;
  second : bool;
  safe : bool;
  entry : list (K * V);
  nextEntry : list (K * V) }.

Definition dictGetIterator : dictIterator := Iterator (-1) false false [] [].
Definition dictGetSafeIterator : dictIterator := Iterator (-1) false true [] [].

(** One turn of [while (1)]: the function returns, or goes on. *)
Inductive turn :=
  | Returned (e : option (K * V)) (it : dictIterator) (d : dict)
  | Again (it : dictIterator) (d : dict).

(** The end of the body, [iter->entry] having been set to [e]. *)
Definition set_entry (it : dictIterator) (d : dict) (e : list (K * V)) : turn :=
  match e with
  | kv :: next => Returned (Some kv) (Iterator (index it) (second it) (safe it) e next) d
  | [] => Again (Iterator (index it) (second it) (safe it) [] (nextEntry it)) d
  end.

Definition dictNext_turn (it : dictIterator) (d : dict) : option turn :=
  match entry it with
  | _ :: _ => Some (set_entry it d (nextEntry it))
  | [] =>
      let d := if (index it =? -1) && negb (second it) && safe it
               then Dict (ht0 d) (ht1 d) (rehashidx d) (u64 (iterators d + 1)) else d in
      let it := Iterator (index it + 1) (second it) (safe it) [] (nextEntry it) in
      if index it >=? size (ht d (second it)) then
        if dictIsRehashing d && negb (second it) then
          let it := Iterator 0 true (safe it) [] (nextEntry it) in
          let! e := bucket (ht1 d) (index it) in
          Some (set_entry it d e)
        else Some (Returned None it d)
      else
        let! e := bucket (ht d (second it)) (index it) in
        Some (set_entry it d e)
  end.

(** [fuel] bounds the number of empty buckets passed. *)
Fixpoint dictNext_loop (fuel : nat) (it : dictIterator) (d : dict)
    : option (option (K * V) * dictIterator * dict) :=
  let! t := dictNext_turn it d in
  match t with
  | Returned e it d => Some (e, it, d)
  | Again it d =>
      match fuel with
      | O => None
      | S fuel => dictNext_loop fuel it d
      end
  end.
Definition dictNext (it : dictIterator) (d : dict) : option (option (K * V) * dictIterator * dict) :=
  dictNext_loop (S (length (table (ht0 d)) + length (table (ht1 d)))) it d.

(** The dictionary after the release of the iterator. *)
Definition dictReleaseIterator (it : dictIterator) (d : dict) : dict :=
  if negb ((index it =? -1) && negb (second it)) && safe it
  then Dict (ht0 d) (ht1 d) (rehashidx d) (u64 (iterators d - 1)) else d.

(** ** Random entries *)

(** [do { h = ...; he = ...; } while(he == NULL);]: the chain and the number of
    random numbers used. *)
Fixpoint random_bucket (fuel : nat) (pick : Z -> option (list (K * V))) (rnd : nat -> Z) (n : nat)
    : option (list (K * V) * nat) :=
  match fuel with
  | O => None
  | S fuel =>
      let! he := pick (rnd n) in
      match he with
      | [] => random_bucket fuel pick rnd (S n)
      | _ :: _ => Some (he, S n)
      end
  end.

(** Where a random number falls: [random()] is a non-negative [long]. *)
Definition pick_rehashing (d : dict) (r : Z) : option (list (K * V)) :=
  let h := u64 (rehashidx d + r mod u64 (size (ht0 d) + size (ht1 d) - rehashidx d)) in
  if h >=? size (ht0 d) then bucket (ht1 d) (h - size (ht0 d)) else bucket (ht0 d) h.
Definition pick_stable (d : dict) (r : Z) : option (list (K * V)) :=
  bucket (ht0 d) (Z.land r (sizemask (ht0 d))).

Definition dictGetRandomKey (fuel : nat) (d : dict) (rnd : nat -> Z)
    : option (option (K * V) * dict) :=
  if dictSize d =? 0 then Some (None, d) else
  let! d := rehash_if_rehashing d in
  let pick := if dictIsRehashing d then pick_rehashing d else pick_stable d in
  let! (he, n) := random_bucket fuel pick rnd 0 in
  let listlen := zlen he in
  let listele := rnd n mod listlen in
  let! e := he !! Z.to_nat listele in
  Some (Some e, d).
End Iter.

Arguments dictIterator : clear implicits.
Arguments turn : clear implicits.
