(* ===== verification/DictScan.v ===== *)
(** * The reversed cursor of [dictScan]

    [rev] reverses the 64 bits of a word.  Seen through [rev], a scan step covers the
    hashes of one aligned block that contains the cursor and moves the cursor to the
    block's end, whatever the sizes of the tables are. *)

From Stdlib Require Import ZArith Lia.
From stdpp Require Import base numbers option list fin_maps gmap.
From S2P Require Import Prelude Memory Bits Dict DictFacts DictIter DictSpec.

Local Open Scope Z_scope.
Local Open Scope redis_scope.

(** ** Bits of a word *)

Lemma u64_bit x i : 0 <= i < 64 -> Z.testbit (u64 x) i = Z.testbit x i.
Proof. intros. unfold uN. by rewrite Z.mod_pow2_bits_low by lia. Qed.
Lemma word_bit_high v i : is_u 64 v -> 64 <= i -> Z.testbit v i = false.
Proof.
  intros Hv Hi. unfold is_u in Hv. rewrite <- (Z.mod_small v (2 ^ 64)) by done.
  by rewrite Z.mod_pow2_bits_high by lia.
Qed.
Lemma word_ext a b : is_u 64 a -> is_u 64 b ->
  (forall i, 0 <= i < 64 -> Z.testbit a i = Z.testbit b i) -> a = b.
Proof.
  intros Ha Hb H. apply Z.bits_inj'. intros i Hi. destruct (decide (i < 64)); [by apply H|].
  by rewrite !word_bit_high by (done || lia).
Qed.
Lemma word_intro a : 0 <= a -> (forall i, 64 <= i -> Z.testbit a i = false) -> is_u 64 a.
Proof.
  intros Ha Hb. unfold is_u. split; [done|].
  assert (a = a mod 2 ^ 64) as ->; [|apply Z.mod_pos_bound; lia].
  apply Z.bits_inj'. intros i Hi. destruct (decide (i < 64)).
  - by rewrite Z.mod_pow2_bits_low by lia.
  - rewrite Z.mod_pow2_bits_high by lia. apply Hb. lia.
Qed.
Lemma u64_word x : is_u 64 (u64 x).
Proof. apply uN_bound. lia. Qed.
Lemma land_word a b : is_u 64 b -> is_u 64 (Z.land a b).
Proof.
  intros Hb. apply word_intro; [apply Z.land_nonneg; right; apply Hb|].
  intros i Hi. rewrite Z.land_spec, (word_bit_high b) by done. apply andb_false_r.
Qed.
Lemma lor_word a b : is_u 64 a -> is_u 64 b -> is_u 64 (Z.lor a b).
Proof.
  intros Ha Hb. apply word_intro; [apply Z.lor_nonneg; split; [apply Ha|apply Hb]|].
  intros i Hi. by rewrite Z.lor_spec, !word_bit_high.
Qed.

(** ** [rev] reverses bits *)

Definition swap_step (s mask v : Z) : Z :=
  Z.lor (Z.land (Z.shiftr v s) mask) (Z.land (u64 (Z.shiftl v s)) (u64 (Z.lnot mask))).

Lemma swap_step_bit s mask v i :
  0 <= s -> 0 <= i < 64 ->
  Z.testbit (swap_step s mask v) i =
  Z.testbit v (if Z.testbit mask i then i + s else i - s).
Proof.
  intros Hs Hi. unfold swap_step.
  rewrite Z.lor_spec, !Z.land_spec, Z.shiftr_spec, !u64_bit, Z.shiftl_spec, Z.lnot_spec by lia.
  destruct (Z.testbit mask i); simpl; by rewrite ?andb_true_r, ?andb_false_r, ?orb_false_r.
Qed.
Lemma swap_step_word s mask v : is_u 64 mask -> is_u 64 (swap_step s mask v).
Proof. intros. apply lor_word; apply land_word; [done|apply u64_word]. Qed.

Definition M32 : Z := 0x00000000FFFFFFFF.
Definition M16 : Z := 0x0000FFFF0000FFFF.
Definition M8 : Z := 0x00FF00FF00FF00FF.
Definition M4 : Z := 0x0F0F0F0F0F0F0F0F.
Definition M2 : Z := 0x3333333333333333.
Definition M1 : Z := 0x5555555555555555.

Lemma rev_loop_step fuel s mask mask' v :
  (Z.shiftr s 1 >? 0) = true -> Z.lxor mask (u64 (Z.shiftl mask (Z.shiftr s 1))) = mask' ->
  rev_loop (S fuel) s mask v =
  rev_loop fuel (Z.shiftr s 1) mask' (swap_step (Z.shiftr s 1) mask' v).
Proof. intros Hs <-. cbn [rev_loop]. by rewrite Hs. Qed.

Lemma rev_steps v :
  rev v = swap_step 1 M1 (swap_step 2 M2 (swap_step 4 M4 (swap_step 8 M8
            (swap_step 16 M16 (swap_step 32 M32 v))))).
Proof.
  unfold rev.
  rewrite (rev_loop_step 6 64 UINT64_MAX M32 v eq_refl eq_refl). change (Z.shiftr 64 1) with 32.
  rewrite (rev_loop_step 5 32 M32 M16 _ eq_refl eq_refl). change (Z.shiftr 32 1) with 16.
  rewrite (rev_loop_step 4 16 M16 M8 _ eq_refl eq_refl). change (Z.shiftr 16 1) with 8.
  rewrite (rev_loop_step 3 8 M8 M4 _ eq_refl eq_refl). change (Z.shiftr 8 1) with 4.
  rewrite (rev_loop_step 2 4 M4 M2 _ eq_refl eq_refl). change (Z.shiftr 4 1) with 2.
  rewrite (rev_loop_step 1 2 M2 M1 _ eq_refl eq_refl). change (Z.shiftr 2 1) with 1.
  reflexivity.
Qed.

Definition hop (s mask i : Z) : Z := if Z.testbit mask i then i + s else i - s.

(** The six hops of a bit, all inside the word, end on its mirror image. *)
Lemma hops : forall i, 0 <= i < 64 ->
  0 <= hop 1 M1 i < 64 /\ 0 <= hop 2 M2 (hop 1 M1 i) < 64 /\
  0 <= hop 4 M4 (hop 2 M2 (hop 1 M1 i)) < 64 /\
  0 <= hop 8 M8 (hop 4 M4 (hop 2 M2 (hop 1 M1 i))) < 64 /\
  0 <= hop 16 M16 (hop 8 M8 (hop 4 M4 (hop 2 M2 (hop 1 M1 i)))) < 64 /\
  hop 32 M32 (hop 16 M16 (hop 8 M8 (hop 4 M4 (hop 2 M2 (hop 1 M1 i))))) = 63 - i.
Proof.
  byte_cases 0 64 (fun i =>
    let inw x := (0 <=? x) && (x <? 64) in
    inw (hop 1 M1 i) && inw (hop 2 M2 (hop 1 M1 i)) &&
    inw (hop 4 M4 (hop 2 M2 (hop 1 M1 i))) &&
    inw (hop 8 M8 (hop 4 M4 (hop 2 M2 (hop 1 M1 i)))) &&
    inw (hop 16 M16 (hop 8 M8 (hop 4 M4 (hop 2 M2 (hop 1 M1 i))))) &&
    (hop 32 M32 (hop 16 M16 (hop 8 M8 (hop 4 M4 (hop 2 M2 (hop 1 M1 i))))) =? 63 - i)).
  boolsimp. auto 10.
Qed.

Lemma rev_bit v i : 0 <= i < 64 -> Z.testbit (rev v) i = Z.testbit v (63 - i).
Proof.
  intros Hi. destruct (hops i Hi) as (H1 & H2 & H3 & H4 & H5 & <-). rewrite rev_steps.
  rewrite swap_step_bit by lia. fold (hop 1 M1 i). rewrite swap_step_bit by lia. fold (hop 2 M2 (hop 1 M1 i)).
  rewrite swap_step_bit by lia. rewrite swap_step_bit by (unfold hop in *; lia).
  rewrite swap_step_bit by (unfold hop in *; lia). rewrite swap_step_bit by (unfold hop in *; lia).
  reflexivity.
Qed.
Lemma rev_word v : is_u 64 (rev v).
Proof. rewrite rev_steps. by apply swap_step_word. Qed.
Lemma rev_rev v : is_u 64 v -> rev (rev v) = v.
Proof.
  intros Hv. apply word_ext; [apply rev_word|done|]. intros i Hi.
  rewrite !rev_bit by lia. f_equal. lia.
Qed.

#[local] Opaque rev.

(** ** The cursor *)

(** [block n c]: the number of the aligned block of width 2^(64-n) that contains [c]. *)
Definition block (n c : Z) : Z := c / 2 ^ (64 - n).
Definition block_end (n c : Z) : Z := (block n c + 1) * 2 ^ (64 - n).

Lemma lor_ones_succ c k : 0 <= k -> Z.lor c (Z.ones k) + 1 = (c / 2 ^ k + 1) * 2 ^ k.
Proof.
  intros Hk. assert (Z.lor c (Z.ones k) = Z.lor (Z.ones k) (Z.shiftl (Z.shiftr c k) k)) as ->.
  { apply Z.bits_inj'. intros i Hi. rewrite !Z.lor_spec, Z.shiftl_spec by done.
    destruct (decide (i < k)).
    - rewrite Z.ones_spec_low by lia. by rewrite orb_true_r.
    - rewrite Z.ones_spec_high by lia. rewrite Z.shiftr_spec, orb_false_r by lia. simpl. f_equal. lia. }
  rewrite lor_shiftl by (rewrite ?Z.ones_equiv; lia). rewrite Z.shiftr_div_pow2, Z.ones_equiv by done. lia.
Qed.

Lemma rev_lor_notmask n v :
  0 <= n <= 64 -> is_u 64 v ->
  rev (Z.lor v (u64 (Z.lnot (2 ^ n - 1)))) = Z.lor (rev v) (Z.ones (64 - n)).
Proof.
  intros Hn Hv. apply word_ext; [apply rev_word| |].
  { apply lor_word; [apply rev_word|]. unfold is_u. rewrite Z.ones_equiv.
    assert (2 ^ (64 - n) <= 2 ^ 64) by (apply Z.pow_le_mono_r; lia). lia. }
  intros i Hi. rewrite rev_bit, !Z.lor_spec, rev_bit, u64_bit, Z.lnot_spec by lia. f_equal.
  rewrite Z.sub_1_r, <- Z.ones_equiv. destruct (decide (i < 64 - n)).
  - rewrite Z.ones_spec_high, Z.ones_spec_low by lia. done.
  - rewrite Z.ones_spec_low, Z.ones_spec_high by lia. done.
Qed.

Lemma next_cursor_word m v : is_u 64 (next_cursor m v).
Proof. apply rev_word. Qed.

(** The new cursor is the end of the block, modulo 2^64. *)
Lemma rev_next_cursor n v :
  0 <= n <= 64 -> is_u 64 v -> rev (next_cursor (2 ^ n - 1) v) = u64 (block_end n (rev v)).
Proof.
  intros Hn Hv. unfold next_cursor. rewrite rev_rev by apply u64_word.
  rewrite rev_lor_notmask, lor_ones_succ by (done || lia). done.
Qed.

Lemma mask_bit n j : 0 <= n -> 0 <= j -> Z.testbit (2 ^ n - 1) j = (j <? n).
Proof.
  intros. rewrite Z.sub_1_r, <- Z.ones_equiv. destruct (j <? n) eqn:E; boolsimp.
  - by apply Z.ones_spec_low.
  - by apply Z.ones_spec_high.
Qed.

Lemma block_bit n c i : 0 <= n <= 64 -> 0 <= i -> Z.testbit (block n c) i = Z.testbit c (i + (64 - n)).
Proof. intros. unfold block. rewrite <- Z.shiftr_div_pow2, Z.shiftr_spec by lia. done. Qed.

(** Two words are in the same bucket of a table of size 2^n exactly when their reverses
    are in the same block. *)
Lemma same_bucket n a b :
  0 <= n <= 64 -> is_u 64 a -> is_u 64 b ->
  Z.land a (2 ^ n - 1) = Z.land b (2 ^ n - 1) <-> block n (rev a) = block n (rev b).
Proof.
  intros Hn Ha Hb. split; intros HE; apply Z.bits_inj'; intros i Hi.
  - rewrite !block_bit by lia. destruct (decide (i < n)).
    + rewrite !rev_bit by lia. apply (f_equal (fun z => Z.testbit z (63 - (i + (64 - n))))) in HE.
      rewrite !Z.land_spec, !mask_bit in HE by lia.
      by rewrite (proj2 (Z.ltb_lt _ _)), !andb_true_r in HE by lia.
    + rewrite !word_bit_high by (lia || apply rev_word). done.
  - rewrite !Z.land_spec, !mask_bit by lia. destruct (i <? n) eqn:E; boolsimp; [|by rewrite !andb_false_r].
    rewrite !andb_true_r. apply (f_equal (fun z => Z.testbit z (n - 1 - i))) in HE.
    rewrite !block_bit, !rev_bit in HE by lia. by replace (63 - (n - 1 - i + (64 - n))) with i in HE by lia.
Qed.

Lemma block_bounds n c : 0 <= n <= 64 -> block n c * 2 ^ (64 - n) <= c < block_end n c.
Proof.
  intros Hn. unfold block_end, block.
  assert (0 < 2 ^ (64 - n)) by lia. pose proof (Z.div_mod c (2 ^ (64 - n))).
  pose proof (Z.mod_pos_bound c (2 ^ (64 - n))). lia.
Qed.
Lemma block_end_le n c : 0 <= n <= 64 -> is_u 64 c -> 0 < block_end n c <= 2 ^ 64.
Proof.
  intros Hn [Hc0 Hc]. pose proof (block_bounds n c Hn). split; [lia|].
  unfold block_end, block in *.
  assert (2 ^ 64 = 2 ^ n * 2 ^ (64 - n)) as E by (rewrite <- Z.pow_add_r by lia; f_equal; lia).
  assert (0 < 2 ^ (64 - n)) by lia.
  assert (c / 2 ^ (64 - n) < 2 ^ n) by (apply Z.div_lt_upper_bound; lia). nia.
Qed.

(** Between [c] and the end of its block, the block does not change. *)
Lemma block_within n c x :
  0 <= n <= 64 -> c <= x < block_end n c -> block n x = block n c.
Proof.
  intros Hn Hx. pose proof (block_bounds n c Hn). unfold block_end, block in *.
  symmetry. apply (Z.div_unique x _ _ (x - c / 2 ^ (64 - n) * 2 ^ (64 - n))); lia.
Qed.

(** The loop condition: are the bits of the larger table alone all zero? *)
Lemma mod_pow2_0 r k : 0 <= k -> r mod 2 ^ k = 0 <-> (forall i, 0 <= i < k -> Z.testbit r i = false).
Proof.
  intros Hk. split.
  - intros HE i Hi. rewrite <- (Z.mod_pow2_bits_low r k) by lia. by rewrite HE, Z.bits_0.
  - intros HB. apply Z.bits_inj_0. intros i. destruct (decide (0 <= i < k)).
    + rewrite Z.mod_pow2_bits_low by lia. by apply HB.
    + destruct (decide (i < 0)); [by rewrite Z.testbit_neg_r|]. by rewrite Z.mod_pow2_bits_high by lia.
Qed.

Lemma expansion_test n0 n1 v :
  0 <= n0 <= n1 -> n1 <= 64 -> is_u 64 v -> rev v mod 2 ^ (64 - n1) = 0 ->
  Z.land v (Z.lxor (2 ^ n0 - 1) (2 ^ n1 - 1)) = 0 <-> rev v mod 2 ^ (64 - n0) = 0.
Proof.
  intros Hn Hn1 Hv H1. rewrite mod_pow2_0 in H1 by lia. rewrite mod_pow2_0 by lia. split.
  - intros HE i Hi. destruct (decide (i < 64 - n1)); [apply H1; lia|].
    rewrite rev_bit by lia. apply (f_equal (fun z => Z.testbit z (63 - i))) in HE.
    rewrite Z.land_spec, Z.lxor_spec, !mask_bit, Z.bits_0 in HE by lia.
    rewrite (proj2 (Z.ltb_ge _ n0)), (proj2 (Z.ltb_lt _ n1)) in HE by lia.
    simpl in HE. by rewrite andb_true_r in HE.
  - intros HB. apply Z.bits_inj_0. intros j. destruct (decide (j < 0)); [by rewrite Z.testbit_neg_r|].
    rewrite Z.land_spec, Z.lxor_spec, !mask_bit by lia.
    destruct (j <? n0) eqn:E0, (j <? n1) eqn:E1; boolsimp; simpl; rewrite ?andb_false_r; try done; [lia|].
    rewrite andb_true_r. rewrite <- (rev_rev v Hv), rev_bit by lia. apply HB. lia.
Qed.

(** Ends of nested blocks. *)
Lemma nested_ends n0 n1 c :
  0 <= n0 <= n1 -> n1 <= 64 -> block_end n1 c <= block_end n0 c.
Proof.
  intros Hn Hn1. unfold block_end, block.
  assert (2 ^ (64 - n0) = 2 ^ (n1 - n0) * 2 ^ (64 - n1)) as E by (rewrite <- Z.pow_add_r by lia; f_equal; lia).
  assert (0 < 2 ^ (64 - n1)) by lia. assert (0 < 2 ^ (n1 - n0)) by lia.
  pose proof (Z.div_mod c (2 ^ (64 - n0))). pose proof (Z.mod_pos_bound c (2 ^ (64 - n0))).
  assert (c / 2 ^ (64 - n1) < (c / 2 ^ (64 - n0) + 1) * 2 ^ (n1 - n0)).
  { apply Z.div_lt_upper_bound; nia. }
  nia.
Qed.
Lemma block_end_mod n c : 0 <= n <= 64 -> u64 (block_end n c) mod 2 ^ (64 - n) = 0.
Proof.
  intros Hn. unfold uN, block_end.
  assert (2 ^ 64 = 2 ^ (64 - n) * 2 ^ n) as -> by (rewrite <- Z.pow_add_r by lia; f_equal; lia).
  rewrite (Z.mul_comm (_ + 1)), Z.mul_mod_distr_l, Z.mul_comm by lia. apply Z.mod_mul. lia.
Qed.

Lemma block_iff n x c :
  0 <= n <= 64 -> block n x = block n c <-> block n c * 2 ^ (64 - n) <= x < block_end n c.
Proof.
  intros Hn. split.
  - intros HE. pose proof (block_bounds n x Hn) as Hb. unfold block_end in *. by rewrite HE in Hb.
  - intros Hx. symmetry. unfold block_end in Hx.
    apply (Z.div_unique x _ _ (x - block n c * 2 ^ (64 - n))); lia.
Qed.

(** One turn of the loop over the larger table: either it reaches the end of the
    smaller table's block and stops, or it goes on inside that block. *)
Lemma expansion_turn n0 n1 v :
  0 <= n0 <= n1 -> n1 <= 63 -> is_u 64 v ->
  let c := rev v in let v' := next_cursor (2 ^ n1 - 1) v in
  let test := Z.land v' (Z.lxor (2 ^ n0 - 1) (2 ^ n1 - 1)) =? 0 in
  (block_end n1 c = block_end n0 c /\ test = true /\ rev v' = u64 (block_end n0 c)) \/
  (block_end n1 c < block_end n0 c /\ test = false /\ rev v' = block_end n1 c /\
   block_end n0 (rev v') = block_end n0 c /\ block n1 (rev v') * 2 ^ (64 - n1) = block_end n1 c).
Proof.
  intros Hn Hn1 Hv c v' test.
  pose proof (rev_next_cursor n1 v ltac:(lia) Hv : rev v' = u64 (block_end n1 c)) as Hr.
  pose proof (expansion_test n0 n1 v' ltac:(lia) ltac:(lia) (next_cursor_word _ _)) as Ht.
  rewrite Hr in Ht. specialize (Ht (block_end_mod n1 c ltac:(lia))).
  pose proof (nested_ends n0 n1 c ltac:(lia) ltac:(lia)) as Hle.
  pose proof (block_bounds n1 c ltac:(lia)) as Hb1.
  pose proof (block_end_le n0 c ltac:(lia) (rev_word v)) as Hb.
  pose proof (block_end_le n1 c ltac:(lia) (rev_word v)) as Hb'.
  destruct (decide (block_end n1 c = block_end n0 c)) as [HE | Hne].
  - left. split; [done|]. rewrite <- HE. split; [|done]. apply Z.eqb_eq, Ht.
    rewrite HE. apply block_end_mod. lia.
  - right. rewrite uN_small in Hr, Ht by lia. rewrite Hr.
    assert (block n0 (block_end n1 c) = block n0 c) as HB by (apply block_within; lia).
    split_and!; [lia| |done|unfold block_end at 1; by rewrite HB|].
    + apply Z.eqb_neq. rewrite Ht. intros Hz. unfold block in HB.
      pose proof (Z.div_mod (block_end n1 c) (2 ^ (64 - n0)) ltac:(lia)) as Hd. rewrite Hz, HB in Hd.
      pose proof (block_bounds n0 c ltac:(lia)). unfold block in *. lia.
    + unfold block_end, block at 1. by rewrite Z.div_mul by lia.
Qed.

Section Scan.
  Context {K V : Type} `{!dictType K, !DictTypeOk K}.
  Implicit Types (t : dictht K V) (d : dict K V).

(** The entries of the bucket of a cursor: those whose reversed hash is in its block. *)
Lemma bucket_block t n v :
  ht_ok t -> sizemask t = 2 ^ n - 1 -> 0 <= n <= 63 -> is_u 64 v ->
  exists de, bucket t (Z.land v (sizemask t)) = Some de /\
    forall k x, (k, x) ∈ de <-> (k, x) ∈ contents t /\ block n (rev (hashFunction k)) = block n (rev v).
Proof.
  intros Ht Hm Hn Hv. destruct (bucket_some t _ Ht (mask_bound t v Ht)) as [de Hde].
  exists de. split; [done|]. intros k x.
  rewrite <- same_bucket by (lia || done || apply hash_u64). rewrite <- Hm. split.
  - intros Hk. pose proof (bucket_hash _ _ _ _ _ Ht Hde Hk) as Hh. split; [|done].
    rewrite <- Hh in Hde. by apply (in_bucket _ _ _ _ Ht Hde).
  - intros [Hk Hh]. rewrite <- Hh in Hde. by apply (in_bucket _ _ _ _ Ht Hde).
Qed.

Lemma expansions_spec fuel t1 n0 n1 v :
  ht_ok t1 -> sizemask t1 = 2 ^ n1 - 1 -> 0 <= n0 <= n1 -> n1 <= 63 -> is_u 64 v ->
  block_end n0 (rev v) - block n1 (rev v) * 2 ^ (64 - n1) <= (Z.of_nat fuel + 1) * 2 ^ (64 - n1) ->
  exists es v', scan_expansions fuel t1 (2 ^ n0 - 1) (2 ^ n1 - 1) v = Some (es, v') /\
    is_u 64 v' /\ rev v' = u64 (block_end n0 (rev v)) /\
    (forall k x, (k, x) ∈ es <-> (k, x) ∈ contents t1 /\
       block n1 (rev v) * 2 ^ (64 - n1) <= rev (hashFunction k) < block_end n0 (rev v)).
Proof.
  intros Ht Hm Hn Hn1. revert v. induction fuel as [|fuel IH]; intros v Hv Hf;
    destruct (bucket_block t1 n1 v Ht Hm) as (de & Hde & Hin); [lia|done| |lia|done|];
    rewrite Hm in Hde; cbn [scan_expansions]; rewrite Hde; mstep;
    setoid_rewrite block_iff in Hin; [|lia| |lia];
    destruct (expansion_turn n0 n1 v) as [(HE & -> & Hr) | (HE & -> & Hr & H0 & H1)]; try done; try lia.
  1,3: rewrite HE in Hin; eexists _, _; split_and!; [done|apply next_cursor_word|done|done].
  1: { unfold block_end in HE at 1. lia. }
  destruct (IH (next_cursor (2 ^ n1 - 1) v)) as (rest & v' & -> & Hv' & Hr' & Hin').
  - apply next_cursor_word.
  - rewrite H0, H1. unfold block_end in HE at 1 |- * at 2. lia.
  - mstep. eexists _, _. split; [done|]. rewrite H0 in *. rewrite H1 in Hin'. split_and!; try done.
    intros k x. rewrite elem_of_app, Hin, Hin'.
    pose proof (block_bounds n1 (rev v) ltac:(lia)). split.
    + intros [[Hk Hx] | [Hk Hx]]; (split; [done|lia]).
    + intros [Hk Hx]. destruct (decide (rev (hashFunction k) < block_end n1 (rev v))).
      * left. split; [done|lia].
      * right. split; [done|lia].
Qed.

(** ** One scan step *)

Lemma ht_bits t : ht_ok t -> exists n, 2 <= n <= 63 /\ size t = 2 ^ n /\ sizemask t = 2 ^ n - 1.
Proof. intros [(n & Hn & Hs) Hm _ _ _]. exists n. rewrite Hm, Hs. done. Qed.

(** The step covers every entry whose reversed hash lies between the cursor and the
    end of the block of the smaller table, and the cursor moves there. *)
Lemma scan_step d v :
  dict_ok d -> all d <> [] -> is_u 64 v -> dictSize d = zlen (all d) ->
  exists n es v', dictScan d v = Some (es, v') /\ 2 <= n <= 63 /\ is_u 64 v' /\
    rev v' = u64 (block_end n (rev v)) /\
    (forall k x, (k, x) ∈ all d -> rev v <= rev (hashFunction k) < block_end n (rev v) -> (k, x) ∈ es) /\
    (forall k x, (k, x) ∈ es -> (k, x) ∈ all d) /\
    (dictIsRehashing d = false -> size (ht0 d) = 2 ^ n /\ bucket (ht0 d) (Z.land v (2 ^ n - 1)) = Some es) /\
    (size (ht0 d) = 2 ^ n \/ size (ht1 d) = 2 ^ n).
Proof.
  intros Hd Hne Hv Hsz. unfold dictScan. rewrite Hsz.
  rewrite (proj2 (Z.eqb_neq _ _)) by (intros HE; apply Hne; by apply zlen_0_inv).
  destruct (dictIsRehashing d) eqn:Er; unfold dictIsRehashing in Er; boolsimp; simpl negb; cbv iota.
  2: { destruct (ok_tables d Hd) as [(_ & H0 & H1) | (_ & [Hr _] & _)]; [|lia].
    assert (ht_ok (ht0 d)) as Ht by (destruct H0 as [E | ?]; [destruct Hne; unfold all; by rewrite E, H1|done]).
    destruct (ht_bits _ Ht) as (n & Hn & Hs & Hm).
    destruct (bucket_block (ht0 d) n v Ht Hm) as (de & Hde & Hin); [lia|done|]. rewrite Hde. mstep.
    rewrite Hm in *. exists n, de, (next_cursor (2 ^ n - 1) v).
    assert (all d = contents (ht0 d)) as HA by (unfold all; rewrite H1; apply app_nil_r).
    rewrite HA. split_and!; try done; try lia.
    - apply next_cursor_word.
    - apply rev_next_cursor; [lia|done].
    - intros k x Hk Hx. apply Hin. split; [done|]. apply block_within; [lia|done].
    - intros k x Hk. by apply Hin in Hk as [? _]. }
  destruct (ok_tables d Hd) as [(Hr & _) | (_ & _ & H0 & H1)]; [done|].
  assert (exists t0 t1, (if size (ht0 d) >? size (ht1 d) then (ht1 d, ht0 d) else (ht0 d, ht1 d)) = (t0, t1) /\
    ht_ok t0 /\ ht_ok t1 /\ size t0 <= size t1 /\ all d ≡ₚ contents t0 ++ contents t1 /\
    (t0 = ht0 d \/ t0 = ht1 d))
    as (t0 & t1 & -> & Ht0 & Ht1 & Hle & HP & Hor).
  { casif; [exists (ht1 d), (ht0 d)|exists (ht0 d), (ht1 d)]; split_and!; auto; try lia.
    apply Permutation_app_comm. }
  destruct (ht_bits _ Ht0) as (n0 & Hn0 & Hs0 & Hm0), (ht_bits _ Ht1) as (n1 & Hn1 & Hs1 & Hm1).
  assert (n0 <= n1) as Hnn by (rewrite Hs0, Hs1 in Hle; apply (Z.pow_le_mono_r_iff 2); lia).
  destruct (bucket_block t0 n0 v Ht0 Hm0) as (de & Hde & Hin); [lia|done|]. rewrite Hde. mstep.
  rewrite Hm0, Hm1.
  destruct (expansions_spec (Z.to_nat (size t1)) t1 n0 n1 v Ht1 Hm1) as (es & v' & -> & Hv' & Hr & Hin');
    [lia|lia|done| |].
  { rewrite Hs1, Z2Nat.id by lia.
    pose proof (block_end_le n0 (rev v) ltac:(lia) (rev_word v)).
    assert (2 ^ 64 = 2 ^ n1 * 2 ^ (64 - n1)) by (rewrite <- Z.pow_add_r by lia; f_equal; lia).
    assert (0 <= block n1 (rev v)) by (apply Z.div_pos; [apply rev_word|lia]). nia. }
  mstep. exists n0, (de ++ es), v'. split_and!; try done; try lia; [..|destruct Hor as [<- | <-]; auto].
  - intros k x Hk Hx. rewrite HP in Hk. apply elem_of_app in Hk as [Hk | Hk]; apply elem_of_app.
    + left. apply Hin. split; [done|]. apply block_within; [lia|done].
    + right. apply Hin'. split; [done|]. pose proof (block_bounds n1 (rev v)). lia.
  - intros k x Hk. rewrite HP. apply elem_of_app in Hk as [Hk | Hk]; apply elem_of_app.
    + left. by apply Hin in Hk as [? _].
    + right. by apply Hin' in Hk as [? _].
Qed.

(** ** Whole scans *)

(** The calls of one iteration: the dictionary may change between them, so that each
    call has its own; the iteration ends when the cursor is 0 again. *)
Fixpoint scan_from (v : Z) (ds : list (dict K V)) : option (list (K * V)) :=
  match ds with
  | [] => None
  | d :: ds =>
      let! (es, v) := dictScan d v in
      if v =? 0 then Some es else
      let! rest := scan_from v ds in
      Some (es ++ rest)
  end.
End Scan.

(** * Contract of [dictScan] and of the iterators *)

#[local] Opaque rev.

(** [rev] reverses the 64 bits of a word, and is its own inverse. *)
Theorem rev_correct v i :
  is_u 64 v -> 0 <= i < 64 ->
  Z.testbit (rev v) i = Z.testbit v (63 - i) /\ rev (rev v) = v /\ is_u 64 (rev v).
Proof.
  intros Hv Hi. split_and!; [by apply rev_bit|by apply rev_rev|apply rev_word..].
Qed.

Section ScanSpec.
  Context {K V : Type} `{!dictType K, !DictTypeOk K}.
  Implicit Types (d : dict K V) (ds : list (dict K V)).

Lemma rev_0 : rev 0 = 0.
Proof. reflexivity. Qed.
Lemma rev_eq_0 v : is_u 64 v -> rev v = 0 -> v = 0.
Proof. intros Hv HE. by rewrite <- (rev_rev v Hv), HE. Qed.

Lemma scan_empty d v : dict_ok d -> all d = [] -> dictScan d v = Some ([], 0).
Proof. intros Hd HE. unfold dictScan. by rewrite (dictSize_all d Hd), HE. Qed.

(** The invariant of an iteration: the hashes whose reverse is not below that of the
    cursor are still to be covered, and are. *)
Lemma scan_covers ds v es k :
  is_u 64 v -> Forall dict_ok ds -> Forall (fun d => k ∈ (all d).*1) ds ->
  rev v <= rev (hashFunction k) -> scan_from v ds = Some es -> k ∈ es.*1.
Proof.
  intros Hv Hok Hk. revert v es Hv. induction ds as [|d ds IH]; intros v es Hv Hle; simpl; [done|].
  apply Forall_cons in Hok as [Hd Hok], Hk as [Hkd Hk]. specialize (IH Hok Hk).
  pose proof Hkd as ([k' x] & Ek & Hin)%list_elem_of_fmap. simpl in Ek. subst k'.
  destruct (scan_step d v Hd) as (n & es1 & v' & -> & Hn & Hv' & Hr & Hcov & _);
    [by intros HE; rewrite HE in Hin; apply elem_of_nil in Hin|done|by apply dictSize_all|]. mstep.
  destruct (decide (rev (hashFunction k) < block_end n (rev v))) as [Hlt | Hge].
  - assert (k ∈ es1.*1) as Hin1.
    { apply list_elem_of_fmap. exists (k, x). split; [done|]. by apply Hcov. }
    destruct (v' =? 0); [by intros [= <-]|].
    destruct (scan_from v' ds) as [rest|]; [|done]. mstep. intros [= <-]. rewrite fmap_app.
    apply elem_of_app. by left.
  - assert (rev v' = block_end n (rev v)) as Hr'.
    { rewrite Hr. apply uN_small. pose proof (block_end_le n (rev v) ltac:(lia) (rev_word v)).
      pose proof (rev_word (hashFunction k)) as [_ ?]. lia. }
    pose proof (block_bounds n (rev v) ltac:(lia)). pose proof (rev_word v) as [? _].
    rewrite (proj2 (Z.eqb_neq v' 0)) by (intros ->; rewrite rev_0 in Hr'; lia).
    destruct (scan_from v' ds) as [rest|] eqn:Es; [|done]. mstep. intros [= <-]. rewrite fmap_app.
    apply elem_of_app. right. apply (IH v'); [done|lia|done].
Qed.

(** C1. The guarantee of [dictScan]: an iteration from cursor 0 back to cursor 0 returns
    every key that is in the dictionary during the whole iteration, whatever is added,
    deleted, resized or rehashed between the calls. *)
Theorem dictScan_guarantee ds es k :
  Forall dict_ok ds -> Forall (fun d => k ∈ (all d).*1) ds ->
  scan_from 0 ds = Some es -> k ∈ es.*1.
Proof.
  intros Hok Hk Hs. apply (scan_covers ds 0 es k); try done. rewrite rev_0. apply rev_word.
Qed.

(** The cursor passes at least one block of the largest table size at each call. *)
Lemma scan_finishes N ds v :
  2 <= N <= 63 -> is_u 64 v -> Forall dict_ok ds ->
  Forall (fun d => size (ht0 d) <= 2 ^ N /\ size (ht1 d) <= 2 ^ N) ds ->
  2 ^ N - block N (rev v) <= zlen ds -> exists es, scan_from v ds = Some es.
Proof.
  intros HN Hv Hok HN'. revert v Hv. induction ds as [|d ds IH]; intros v Hv Hlen.
  { pose proof (block_end_le N (rev v) ltac:(lia) (rev_word v)) as Hb. unfold block_end in Hb.
    assert (2 ^ 64 = 2 ^ N * 2 ^ (64 - N)) by (rewrite <- Z.pow_add_r by lia; f_equal; lia).
    assert (0 < 2 ^ (64 - N)) by lia. change (zlen (@nil (dict K V))) with 0 in Hlen. nia. }
  apply Forall_cons in Hok as [Hd Hok], HN' as [Hsz HN']. specialize (IH Hok HN'). simpl.
  destruct (all d) as [|e l] eqn:HE.
  { rewrite scan_empty by done. mstep. eauto. }
  destruct (scan_step d v Hd) as (n & es1 & v' & -> & Hn & Hv' & Hr & _ & _ & _ & Hsn);
    [by rewrite HE|done|by apply dictSize_all|]. mstep.
  destruct (v' =? 0) eqn:E0; boolsimp; [eauto|].
  destruct (IH v' Hv') as (rest & ->); [|mstep; eauto].
  pose proof (block_end_le n (rev v) ltac:(lia) (rev_word v)) as Hb.
  assert (block_end n (rev v) < 2 ^ 64) as Hlt.
  { destruct (decide (block_end n (rev v) = 2 ^ 64)) as [HE2 | ?]; [|lia].
    destruct E0. apply rev_eq_0; [done|]. rewrite Hr, HE2. done. }
  rewrite Hr, uN_small by lia. rewrite zlen_cons in Hlen.
  assert (n <= N) as HnN.
  { apply (Z.pow_le_mono_r_iff 2); lia. }
  pose proof (nested_ends n N (rev v) ltac:(lia) ltac:(lia)) as Hne.
  enough (block N (rev v) + 1 <= block N (block_end n (rev v))) by lia.
  unfold block at 2. apply Z.div_le_lower_bound; [lia|]. unfold block_end in Hne at 1. lia.
Qed.

(** An iteration ends: when no table ever has more than 2^N buckets, the cursor is 0
    again after at most 2^N calls, even if the dictionary changes between them. *)
Theorem dictScan_terminates N ds :
  2 <= N <= 63 -> Forall dict_ok ds ->
  Forall (fun d => size (ht0 d) <= 2 ^ N /\ size (ht1 d) <= 2 ^ N) ds ->
  2 ^ N <= zlen ds -> exists es, scan_from 0 ds = Some es.
Proof.
  intros HN Hok Hsz Hl. apply (scan_finishes N); try done.
  rewrite rev_0. unfold block. rewrite Z.div_0_l by lia. lia.
Qed.

(** One call on a table that does not change, at the start of block [j]. *)
Lemma static_step d n v j :
  dict_ok d -> dictIsRehashing d = false -> size (ht0 d) = 2 ^ n -> 2 <= n <= 63 -> all d <> [] ->
  is_u 64 v -> rev v = j * 2 ^ (64 - n) -> 0 <= j < 2 ^ n ->
  exists es v', dictScan d v = Some (es, v') /\ is_u 64 v' /\ NoDup es /\
    (forall k x, (k, x) ∈ es <->
       (k, x) ∈ all d /\ j * 2 ^ (64 - n) <= rev (hashFunction k) < (j + 1) * 2 ^ (64 - n)) /\
    (j + 1 = 2 ^ n /\ v' = 0 \/ v' <> 0 /\ rev v' = (j + 1) * 2 ^ (64 - n)).
Proof.
  intros Hd Hr Hs Hn Hne Hv Hrv Hj.
  destruct (scan_step d v Hd Hne Hv (dictSize_all d Hd))
    as (n' & es & v' & HE & Hn' & Hv' & Hrv' & _ & _ & Hb & _).
  destruct (Hb Hr) as [Hs' Hde]. rewrite Hs in Hs'. apply Z.pow_inj_r in Hs' as <-; [|lia..].
  assert (block n (rev v) = j) as Hbl by (rewrite Hrv; unfold block; apply Z.div_mul; lia).
  unfold dictIsRehashing in Hr. boolsimp.
  destruct (ok_tables d Hd) as [(_ & H0 & H1) | (_ & [? _] & _)]; [|lia].
  assert (ht_ok (ht0 d)) as Ht by (destruct H0 as [E0 | ?]; [destruct Hne; unfold all; by rewrite E0, H1|done]).
  assert (all d = contents (ht0 d)) as HA by (unfold all; rewrite H1; apply app_nil_r).
  assert (sizemask (ht0 d) = 2 ^ n - 1) as Hm by by rewrite (ht_mask _ Ht), Hs.
  destruct (bucket_block (ht0 d) n v Ht Hm) as (de & Hde' & Hin); [lia|done|].
  rewrite Hm, Hde in Hde'. injection Hde' as <-. unfold block_end in Hrv'. rewrite Hbl in *.
  exists es, v'. split_and!; try done.
  - pose proof (bucket_lookup _ _ _ Hde) as [Hl _].
    assert (NoDup (contents (ht0 d))) as Hnd by (rewrite <- HA; eapply NoDup_fmap_1, Hd).
    unfold contents in Hnd. rewrite (concat_split _ _ _ Hl) in Hnd. by apply NoDup_app in Hnd as [? _].
  - intros k x. rewrite Hin, HA, <- Hbl, block_iff by lia. unfold block_end. by rewrite Hbl.
  - assert (2 ^ 64 = 2 ^ n * 2 ^ (64 - n)) as Hw by (rewrite <- Z.pow_add_r by lia; f_equal; lia).
    assert (0 < 2 ^ (64 - n)) by lia. destruct (decide (j + 1 = 2 ^ n)) as [Hlast | Hnl].
    + left. split; [done|]. apply rev_eq_0; [done|]. rewrite Hrv', Hlast, <- Hw. done.
    + right. rewrite uN_small in Hrv' by nia. split; [|done]. intros ->. rewrite rev_0 in Hrv'. nia.
Qed.

Lemma scan_from_cons v d ds :
  scan_from v (d :: ds) =
  (let! (es, v) := dictScan d v in
   if v =? 0 then Some es else let! rest := scan_from v ds in Some (es ++ rest)).
Proof. reflexivity. Qed.

(** Scanning a table that does not change, from the start of a block on. *)
Lemma scan_static d n m :
  dict_ok d -> dictIsRehashing d = false -> size (ht0 d) = 2 ^ n -> 2 <= n <= 63 -> all d <> [] ->
  forall v j, is_u 64 v -> 0 <= j -> rev v = j * 2 ^ (64 - n) -> j + Z.of_nat (S m) = 2 ^ n ->
  exists es, scan_from v (replicate (S m) d) = Some es /\ NoDup es /\
    forall k x, (k, x) ∈ es <-> (k, x) ∈ all d /\ rev v <= rev (hashFunction k).
Proof.
  intros Hd Hr Hs Hn Hne. induction m as [|m IH]; intros v j Hv Hj Hrv Hjm;
    destruct (static_step d n v j) as (es & v' & HE & Hv' & Hnd & Hin & Hend); try done; try lia;
    rewrite replicate_S, scan_from_cons, HE; mstep.
  - destruct Hend as [[Hlast ->] | [_ Hrv']].
    + exists es. split_and!; try done. intros k x. rewrite Hin, Hrv, Hlast.
      pose proof (rev_word (hashFunction k)) as [_ Hb].
      assert (2 ^ 64 = 2 ^ n * 2 ^ (64 - n)) as Hw by (rewrite <- Z.pow_add_r by lia; f_equal; lia).
      rewrite <- Hw. naive_solver.
    + pose proof (rev_word v') as [_ Hb]. rewrite Hrv' in Hb.
      assert (2 ^ 64 = 2 ^ n * 2 ^ (64 - n)) as Hw by (rewrite <- Z.pow_add_r by lia; f_equal; lia).
      replace (j + 1) with (2 ^ n) in Hb by lia. lia.
  - destruct Hend as [[Hlast _] | [Hnz Hrv']]; [lia|]. rewrite (proj2 (Z.eqb_neq _ _)) by done.
    destruct (IH v' (j + 1)) as (rest & HR & Hnd' & Hin'); [done|lia|done|lia|].
    rewrite HR. mstep. eexists. split; [done|]. rewrite Hrv' in Hin'. split.
    + apply NoDup_app. split_and!; try done. intros [k x] [_ Hlt]%Hin [_ Hge]%Hin'. lia.
    + intros k x. rewrite elem_of_app, Hin, Hin', Hrv. split.
      * intros [[? ?] | [? ?]]; (split; [done|nia]).
      * intros [? ?]. destruct (decide (rev (hashFunction k) < (j + 1) * 2 ^ (64 - n)));
          [left|right]; (split; [done|lia]).
Qed.

(** Without changes in between, and outside of a rehash, an iteration takes as many
    calls as there are buckets and returns every entry exactly once. *)
Theorem dictScan_exact d :
  dict_ok d -> dictIsRehashing d = false -> all d <> [] ->
  exists es, scan_from 0 (replicate (Z.to_nat (size (ht0 d))) d) = Some es /\ es ≡ₚ all d.
Proof.
  intros Hd Hr Hne.
  assert (ht_ok (ht0 d)) as Ht by apply (all_nonempty_ht0 d Hd Hne).
  destruct (ht_bits _ Ht) as (n & Hn & Hs & _).
  destruct (Z.to_nat (size (ht0 d))) as [|m] eqn:Em; [lia|].
  destruct (scan_static d n m Hd Hr Hs Hn Hne 0 0) as (es & HE & Hnd & Hin); try done; [lia|].
  exists es. split; [done|]. apply NoDup_Permutation; [done|eapply NoDup_fmap_1, Hd|].
  intros [k x]. rewrite Hin, rev_0. pose proof (rev_word (hashFunction k)) as [? _]. naive_solver.
Qed.
End ScanSpec.
