(* ===== verification/DictIterSpec.v ===== *)
(** * Contract of the iterators and of [dictGetRandomKey] *)

From Stdlib Require Import ZArith Lia.
From stdpp Require Import base numbers option fin_maps gmap list.
From S2P Require Import Prelude Memory Bits Dict DictFacts DictSpec DictIter DictScan.

Local Open Scope Z_scope.
Local Open Scope redis_scope.

Section IterSpec.
  Context {K V : Type} `{!dictType K, !DictTypeOk K}.
  Implicit Types (d : dict K V) (it : dictIterator K V).

(** The dictionary with another count of iterators. *)
Definition with_iterators d (n : Z) : dict K V := Dict (ht0 d) (ht1 d) (rehashidx d) n.

(** What an iterator has still to return. *)
Definition rest_of it d : list (K * V) :=
  concat (drop (Z.to_nat (index it + 1)) (table (ht d (second it)))) ++
  (if negb (second it) && dictIsRehashing d then contents (ht1 d) else []).
Definition remaining it d : list (K * V) :=
  (match entry it with [] => [] | _ => nextEntry it end) ++ rest_of it d.

(** The number of turns the loop can still make. *)
Definition turns it d : nat :=
  (match entry it with [] => 0 | _ => 1 end +
   (length (table (ht d (second it))) - Z.to_nat (index it + 1)) +
   (if negb (second it) && dictIsRehashing d then length (table (ht1 d)) else 0))%nat.

(** Tables as the iterator reads them. *)
Record readable d : Prop := {
  rd_len0 : zlen (table (ht0 d)) = size (ht0 d);
  rd_len1 : zlen (table (ht1 d)) = size (ht1 d);
  rd_ht1 : dictIsRehashing d = true -> 0 < size (ht1 d) }.

Lemma ok_readable d : dict_ok d -> readable d.
Proof.
  intros Hd. assert (forall t : dictht K V, t = _dictReset \/ ht_ok t -> zlen (table t) = size t) as Hl.
  { intros t [-> | Ht]; [done|apply (ht_len t Ht)]. }
  destruct (ok_tables d Hd) as [(Hr & H0 & H1) | (_ & _ & H0 & H1)]; constructor; auto.
  - unfold dictIsRehashing. by rewrite Hr.
  - intros _. destruct (ht_pow _ H1) as (e & He & ->). lia.
Qed.

Lemma readable_len d s : readable d -> zlen (table (ht d s)) = size (ht d s).
Proof. intros [H0 H1 _]. by destruct s. Qed.

Lemma drop_bucket d s i :
  readable d -> 0 <= i < size (ht d s) ->
  exists c, bucket (ht d s) i = Some c /\
    concat (drop (Z.to_nat i) (table (ht d s))) = c ++ concat (drop (Z.to_nat (i + 1)) (table (ht d s))).
Proof.
  intros Hrd Hi. pose proof (readable_len d s Hrd) as Hl. unfold bucket. rewrite decide_True by lia.
  destruct (lookup_lt_is_Some_2 (table (ht d s)) (Z.to_nat i)) as [c Hc]; [unfold zlen in Hl; lia|].
  exists c. split; [done|]. rewrite (drop_S _ c) by done.
  by replace (Z.to_nat (i + 1)) with (S (Z.to_nat i)) by lia.
Qed.

(** An iterator that has started is inside a table. *)
Definition it_ok it : Prop :=
  -1 <= index it /\ (entry it <> [] \/ second it = true -> 0 <= index it).

(** The first call of a safe iterator registers it. *)
Definition registered it d : dict K V :=
  if (index it =? -1) && safe it then with_iterators d (u64 (iterators d + 1)) else d.

Definition next_result it d (r : option (option (K * V) * dictIterator K V * dict K V)) : Prop :=
  exists it', safe it' = safe it /\ it_ok it' /\ 0 <= index it' /\
    match remaining it d with
    | [] => r = Some (None, it', registered it d)
    | kv :: rest => r = Some (Some kv, it', registered it d) /\ remaining it' d = rest
    end.

Lemma registered_started it d : 0 <= index it -> registered it d = d.
Proof. intros Hi. unfold registered. by rewrite (proj2 (Z.eqb_neq _ _)) by lia. Qed.
Lemma registered_ht it d s : ht (registered it d) s = ht d s.
Proof. unfold registered. by casif. Qed.
Lemma registered_rehashing it d : dictIsRehashing (registered it d) = dictIsRehashing d.
Proof. unfold registered. by casif. Qed.

Lemma rest_past it d :
  readable d -> size (ht d (second it)) <= index it + 1 -> 0 <= index it + 1 ->
  rest_of it d = if negb (second it) && dictIsRehashing d then contents (ht1 d) else [].
Proof.
  intros Hrd Hi Hi0. unfold rest_of. rewrite drop_ge; [done|].
  pose proof (readable_len d (second it) Hrd). unfold zlen in *. lia.
Qed.

(** What one turn does. *)
Definition turn_result it d (t : turn K V) : Prop :=
  match t with
  | Returned e it' d' =>
      remaining it d = match e with Some kv => kv :: remaining it' d | None => [] end /\
      d' = registered it d /\ safe it' = safe it /\ it_ok it' /\ 0 <= index it'
  | Again it' d' =>
      remaining it' d = remaining it d /\ d' = registered it d /\ safe it' = safe it /\
      it_ok it' /\ 0 <= index it' /\ (turns it' d < turns it d)%nat
  end.

Lemma set_entry_result it0 it d e :
  0 <= index it -> safe it = safe it0 -> remaining it0 d = e ++ rest_of it d ->
  (turns (Iterator (index it) (second it) (safe it) [] (nextEntry it)) d < turns it0 d)%nat ->
  turn_result it0 d (set_entry it (registered it0 d) e).
Proof.
  intros Hi Hs Hrem Ht. destruct e as [|kv next]; simpl.
  - split_and!; try done. split; simpl; auto; lia.
  - rewrite Hrem. split_and!; try done. split; simpl; auto; lia.
Qed.

Lemma turn_spec it d :
  it_ok it -> readable d -> exists t, dictNext_turn it d = Some t /\ turn_result it d t.
Proof.
  intros Hok Hrd. pose proof Hok as [Hi0 Hi1]. unfold dictNext_turn.
  destruct (entry it) as [|kv es] eqn:Ee.
  2: { eexists. split; [done|]. assert (0 <= index it) by (apply Hi1; by left).
    rewrite <- (registered_started it d) at 2 by done. apply set_entry_result; try done.
    - unfold remaining. by rewrite Ee.
    - unfold turns. rewrite Ee. simpl. lia. }
  replace (if (index it =? -1) && negb (second it) && safe it then _ else d) with (registered it d).
  2: { unfold registered. destruct (index it =? -1) eqn:Ei; [|done]. boolsimp.
       destruct (second it); [|done]. rewrite Ei in Hi1. lia. }
  simpl. rewrite registered_ht, registered_rehashing, Z.geb_leb.
  pose proof (readable_len d (second it) Hrd) as Hl.
  destruct (size (ht d (second it)) <=? index it + 1) eqn:Eb; boolsimp.
  - destruct (dictIsRehashing d && negb (second it)) eqn:Er.
    + apply andb_prop in Er as [Er Es]. apply negb_true_iff in Es.
      pose proof (rd_ht1 d Hrd Er) as H1. change (ht1 (registered it d)) with (ht (registered it d) true).
      rewrite registered_ht. destruct (drop_bucket d true 0 Hrd) as (c & Hc & Hcat); [simpl; lia|].
      rewrite Hc. mstep. eexists. split; [done|]. apply set_entry_result; try done.
      * unfold remaining. rewrite Ee, rest_past by (done || lia). rewrite Er, Es. simpl.
        unfold rest_of. simpl. rewrite app_nil_r. exact Hcat.
      * unfold turns. rewrite Ee, Es, Er. simpl. pose proof (rd_len1 d Hrd) as Hl1. unfold zlen in Hl1. lia.
    + eexists. split; [done|]. simpl. unfold remaining. rewrite Ee, rest_past by (done || lia).
      rewrite andb_comm, Er. split_and!; try done; [|lia]. split; simpl; [lia|]. lia.
  - destruct (drop_bucket d (second it) (index it + 1) Hrd) as (c & Hc & Hcat); [lia|].
    rewrite Hc. mstep. eexists. split; [done|]. apply set_entry_result; try done.
    + simpl. lia.
    + unfold remaining. rewrite Ee. simpl. unfold rest_of. simpl. rewrite Hcat, <- app_assoc. done.
    + unfold turns. rewrite Ee. simpl. unfold zlen in Hl. lia.
Qed.

Lemma registered_readable it d : readable d -> readable (registered it d).
Proof. intros [H0 H1 H2]. unfold registered. casif; by constructor. Qed.

Lemma next_loop_spec fuel it d :
  it_ok it -> (turns it d <= fuel)%nat -> readable d ->
  exists e it', dictNext_loop fuel it d = Some (e, it', registered it d) /\
    remaining it d = match e with Some kv => kv :: remaining it' d | None => [] end /\
    safe it' = safe it /\ it_ok it' /\ 0 <= index it'.
Proof.
  revert it d. induction fuel as [|fuel IH]; intros it d Hok Ht Hrd; cbn [dictNext_loop];
    destruct (turn_spec it d Hok Hrd) as (t & -> & Hres); mstep; destruct t as [e it' d' | it' d']; simpl in Hres.
  - destruct Hres as (Hrem & -> & Hs & Hok' & Hi). eauto 10.
  - lia.
  - destruct Hres as (Hrem & -> & Hs & Hok' & Hi). eauto 10.
  - destruct Hres as (Hrem & -> & Hs & Hok' & Hi & Hlt).
    destruct (IH it' (registered it d)) as (e & it'' & HE & Hrem' & Hs' & Hok'' & Hi''); [done| |by apply registered_readable|].
    + assert (turns it' (registered it d) = turns it' d) as -> by (unfold registered; by casif). lia.
    + exists e, it''. rewrite (registered_started it') in HE by done. rewrite HE. split; [done|].
      rewrite <- Hrem. split_and!; try done; [|by rewrite Hs'].
      assert (forall i, remaining i (registered it d) = remaining i d) as Hsame
        by (intros; unfold registered; by casif).
      rewrite Hsame in Hrem'. destruct e; [|done]. by rewrite Hsame in Hrem'.
Qed.

(** ** Whole iterations *)

(** [while((de = dictNext(it)) != NULL)]: the entries, the iterator and the dictionary. *)
Fixpoint drain (fuel : nat) it d : option (list (K * V) * dictIterator K V * dict K V) :=
  match fuel with
  | O => None
  | S fuel =>
      let! (e, it, d) := dictNext it d in
      match e with
      | None => Some ([], it, d)
      | Some kv => let! (rest, it, d) := drain fuel it d in Some (kv :: rest, it, d)
      end
  end.

Lemma turns_bound it d : (turns it d <= S (length (table (ht0 d)) + length (table (ht1 d))))%nat.
Proof. unfold turns. destruct (entry it), (second it), (dictIsRehashing d); simpl; lia. Qed.

Lemma drain_spec fuel it d :
  it_ok it -> readable d -> (length (remaining it d) < fuel)%nat ->
  exists it', drain fuel it d = Some (remaining it d, it', registered it d) /\
    safe it' = safe it /\ 0 <= index it'.
Proof.
  revert it d. induction fuel as [|fuel IH]; intros it d Hok Hrd Hl; [lia|]. cbn [drain]. unfold dictNext.
  destruct (next_loop_spec _ it d Hok (turns_bound it d) Hrd) as (e & it' & -> & Hrem & Hs & Hok' & Hi). mstep.
  destruct e as [kv|]; rewrite Hrem.
  - assert (remaining it' (registered it d) = remaining it' d) as Hsame by (unfold registered; by casif).
    destruct (IH it' (registered it d)) as (it'' & -> & Hs' & Hi'); [done|by apply registered_readable| |].
    + rewrite Hsame. rewrite Hrem in Hl. simpl in Hl. lia.
    + mstep. exists it''. rewrite Hsame, (registered_started it') by done. split_and!; try done. by rewrite Hs'.
  - exists it'. done.
Qed.

(** An iterator, safe or not, of a dictionary that is not changed meanwhile returns each
    entry exactly once, the first table before the second, and then NULL; the release
    of the iterator gives back the dictionary as it was. *)
Theorem dictNext_enumerates d (is_safe : bool) :
  dict_ok d -> is_u 64 (iterators d) ->
  let it := if is_safe then dictGetSafeIterator else dictGetIterator in
  exists it' d', drain (S (length (all d))) it d = Some (all d, it', d') /\
    dictReleaseIterator it' d' = d /\ NoDup (all d).*1.
Proof.
  intros Hd Hit it. assert (it_ok it) as Hok.
  { subst it. destruct is_safe; (split; simpl; [lia|]; intros [? | ?]; done). }
  assert (remaining it d = all d) as HR.
  { assert (remaining it d = contents (ht0 d) ++ if dictIsRehashing d then contents (ht1 d) else []) as ->
      by (subst it; by destruct is_safe).
    unfold all, dictIsRehashing. destruct (ok_tables d Hd) as [(-> & _ & ->) | (_ & [Hr _] & _)]; [done|].
    by rewrite (proj2 (Z.eqb_neq _ _)) by lia. }
  destruct (drain_spec (S (length (all d))) it d Hok (ok_readable d Hd)) as (it' & HE & Hs & Hi); [rewrite HR; lia|].
  rewrite HR in HE. exists it', (registered it d). split; [done|]. split; [|apply Hd].
  unfold dictReleaseIterator. rewrite (proj2 (Z.eqb_neq _ _)), Hs by lia. simpl.
  subst it. unfold registered. destruct is_safe; simpl; [|done]. destruct d as [t0 t1 r n]. simpl in *. f_equal.
  unfold uN. rewrite Zminus_mod_idemp_l. replace (n + 1 - 1) with n by lia. by apply Z.mod_small.
Qed.

(** ** Random entries *)

(** The numbers [random()] returns. *)
Definition random_range (rnd : nat -> Z) : Prop := forall i, 0 <= rnd i < 2 ^ 31.

Definition picker d : Z -> option (list (K * V)) :=
  if dictIsRehashing d then pick_rehashing d else pick_stable d.

Lemma bucket_in d s i c kv : bucket (ht d s) i = Some c -> kv ∈ c -> kv ∈ all d.
Proof.
  intros [Hc _]%bucket_lookup Hin. unfold all. apply elem_of_app.
  assert (kv ∈ contents (ht d s)) by (apply elem_of_concat; eauto). destruct s; auto.
Qed.
Lemma pick_in d r c kv : picker d r = Some c -> kv ∈ c -> kv ∈ all d.
Proof.
  unfold picker, pick_rehashing, pick_stable. destruct (dictIsRehashing d); [casif|].
  - apply (bucket_in d true).
  - apply (bucket_in d false).
  - apply (bucket_in d false).
Qed.

Lemma pick_length d r c : picker d r = Some c -> zlen c <= zlen (all d).
Proof.
  assert (forall s i, bucket (ht d s) i = Some c -> zlen c <= zlen (all d)) as Hb.
  { intros s i Hb. destruct (all_put d s i c Hb) as (Y & HY & _). rewrite (zlen_perm _ _ HY). zlia. }
  unfold picker, pick_rehashing, pick_stable. destruct (dictIsRehashing d); [casif|].
  - apply (Hb true).
  - apply (Hb false).
  - apply (Hb false).
Qed.

Lemma random_bucket_in fuel d rnd n c n' :
  random_bucket fuel (picker d) rnd n = Some (c, n') -> c <> [] /\ forall kv, kv ∈ c -> kv ∈ all d.
Proof.
  revert n. induction fuel as [|fuel IH]; intros n; simpl; [done|].
  destruct (picker d (rnd n)) as [[|kv c']|] eqn:E; mstep; [apply IH| |done].
  intros [= <- _]. split; [done|]. intros kv' Hin. by eapply pick_in.
Qed.

(** Every non-empty bucket is the choice of some random number. *)
Lemma pick_reaches d kv :
  dict_ok d -> dictSlots d <= 2 ^ 31 -> size (ht0 d) + size (ht1 d) < 2 ^ 64 -> kv ∈ all d ->
  exists r c, 0 <= r < 2 ^ 31 /\ picker d r = Some c /\ kv ∈ c.
Proof.
  intros Hd Hsl Hov Hin. destruct kv as [k v].
  assert (exists s, ht_ok (ht d s) /\ (k, v) ∈ contents (ht d s) /\ (s = true -> dictIsRehashing d = true))
    as (s & Ht & Hk & Hre).
  { unfold dictIsRehashing. destruct (ok_tables d Hd) as [(Hr & H0 & H1) | (_ & [Hr _] & H0 & H1)].
    - unfold all in Hin. rewrite H1 in Hin. simpl in Hin. rewrite app_nil_r in Hin. exists false.
      destruct H0 as [E | H0]; [by rewrite E in Hin; apply elem_of_nil in Hin|done].
    - apply elem_of_app in Hin as [Hin | Hin]; [exists false|exists true]; split_and!; try done.
      intros _. apply negb_true_iff, Z.eqb_neq. lia. }
  pose proof (mask_bound _ (hashFunction k) Ht) as Hb. set (i := Z.land (hashFunction k) (sizemask (ht d s))) in *.
  destruct (bucket_some _ _ Ht Hb) as [c Hc]. assert ((k, v) ∈ c) as Hkc by by apply (in_bucket _ _ _ _ Ht Hc).
  assert (0 <= size (ht0 d) /\ 0 <= size (ht1 d)) as [Hs0 Hs1].
  { destruct (ok_tables d Hd) as [(_ & [-> | H0] & ->) | (_ & _ & H0 & H1)]; simpl; try lia;
      destruct (ht_pow _ H0) as (e0 & ? & ->); try destruct (ht_pow _ H1) as (e1 & ? & ->); lia. }
  unfold dictSlots in Hsl. rewrite uN_small in Hsl by lia. unfold picker.
  destruct (dictIsRehashing d) eqn:Er.
  - unfold dictIsRehashing in Er. boolsimp.
    destruct (ok_tables d Hd) as [(Hr & _) | (Hlt & [Hr Hmv] & _ & _)]; [done|].
    set (pos := if s then size (ht0 d) + i else i).
    assert (rehashidx d <= pos) as Hpos.
    { subst pos. destruct s; simpl in *; [lia|]. destruct (decide (rehashidx d <= i)); [done|].
      apply bucket_lookup in Hc as [Hc _]. rewrite Hmv in Hc by lia. injection Hc as <-. by apply elem_of_nil in Hkc. }
    assert (pos < size (ht0 d) + size (ht1 d)) by (subst pos; destruct s; simpl in *; lia).
    exists (pos - rehashidx d), c. split; [lia|]. split; [|done]. unfold pick_rehashing.
    rewrite (uN_small 64 (_ - rehashidx d)), Z.mod_small by lia.
    replace (rehashidx d + (pos - rehashidx d)) with pos by lia. rewrite uN_small by lia.
    rewrite Z.geb_leb. subst pos. destruct s; simpl in *.
    + rewrite (proj2 (Z.leb_le _ _)) by lia. replace (size (ht0 d) + i - size (ht0 d)) with i by lia. done.
    + rewrite (proj2 (Z.leb_gt _ _)) by lia. done.
  - destruct s; [naive_solver|]. exists i, c. simpl in *. split; [lia|]. split; [|done]. unfold pick_stable.
    subst i. by rewrite <- Z.land_assoc, Z.land_diag.
Qed.
End IterSpec.

Section RandomSpec.
  Context {K V : Type} `{!EqDecision K, !Countable K, !dictType K, !DictTypeOk K}.

(** [dictGetRandomKey] only returns entries of the dictionary, whatever [random()]
    gives, and every entry is the result for some random numbers. *)
Theorem dictGetRandomKey_correct (d : dict K V) m :
  dict_rep d m -> m <> ∅ ->
  (forall fuel rnd r, dictGetRandomKey fuel d rnd = Some r ->
     exists k v, fst r = Some (k, v) /\ m !! k = Some v) /\
  exists d', rehash_if_rehashing d = Some d' /\ dict_rep d' m /\
    (dictSize d <= 2 ^ 31 -> dictSlots d' <= 2 ^ 31 -> size (ht0 d') + size (ht1 d') < 2 ^ 64 ->
     forall k v, m !! k = Some v ->
     exists rnd, random_range rnd /\ dictGetRandomKey 1 d rnd = Some (Some (k, v), d')).
Proof.
  intros Hrep Hne. pose proof Hrep as [Hd Hm]. unfold dictGetRandomKey. rewrite (dictSize_all d Hd).
  rewrite (proj2 (Z.eqb_neq _ _)) by
    (intros HE%zlen_0_inv; apply Hne; rewrite <- Hm, HE; done).
  destruct (rehash_if_rehashing_spec d m Hrep) as (d' & -> & Hrep' & HP). mstep.
  change (if dictIsRehashing d' then pick_rehashing d' else pick_stable d') with (picker d'). split.
  - intros fuel rnd r. destruct (random_bucket fuel (picker d') rnd 0) as [[c n]|] eqn:E; [|done]. mstep.
    destruct (random_bucket_in _ _ _ _ _ _ E) as [_ Hin].
    destruct (c !! _) as [[k v]|] eqn:Ec; [|done]. mstep. intros [= <-]. exists k, v. split; [done|].
    apply (rep_elem d' m k v Hrep'), Hin. by eapply list_elem_of_lookup_2.
  - exists d'. split_and!; try done. intros Hsz Hsl Hov k v Hk. rewrite <- (zlen_perm _ _ HP) in Hsz. apply (rep_elem d' m k v Hrep') in Hk.
    destruct (pick_reaches d' (k, v) (proj1 Hrep') Hsl Hov Hk) as (r & c & Hr & Hp & Hin).
    apply list_elem_of_lookup_1 in Hin as [pos Hpos]. pose proof (lookup_lt_Some _ _ _ Hpos) as Hlt.
    assert (zlen c <= zlen (all d')) as Hc by by eapply pick_length.
    exists (fun i => match i with O => r | _ => Z.of_nat pos end). split.
    + intros [|i]; [done|]. unfold zlen in Hc, Hsz |- *. lia.
    + cbn [random_bucket]. rewrite Hp. mstep. destruct c as [|kv c]; [done|]. mstep.
      rewrite Z.mod_small by (unfold zlen; simpl in *; lia). rewrite Nat2Z.id, Hpos. done.
Qed.
End RandomSpec.

(** * Concrete dictionaries
    
    The contracts of dict.c at work on a dictionary in the middle of a rehash. *)

Module Example_dict.

(** Integer keys, hashed by their value. *)
#[global] Instance int_type : dictType Z := {| hashFunction := u64; keyCompare := Z.eqb |}.
#[global] Instance int_type_ok : DictTypeOk Z.
Proof. constructor; [intros; apply uN_bound; lia|intros; apply Z.eqb_eq]. Qed.

(** Bucket 0 of the first table has been moved. *)
Definition old_table : dictht Z Z := Dictht [[]; [(1, 10); (5, 50)]; []; []] 4 3 2.
Definition new_table : dictht Z Z :=
  Dictht [[]; []; [(2, 20)]; []; [(4, 40)]; []; []; []] 8 7 2.
Definition sample : dict Z Z := Dict old_table new_table 1 0.
Definition stable : dict Z Z := Dict new_table _dictReset (-1) 0.
Definition sample_map : gmap Z Z := list_to_map [(1, 10); (5, 50); (2, 20); (4, 40)].

Definition hashes_ok (t : dictht Z Z) : bool :=
  forallb (fun ic : nat * list (Z * Z) =>
    forallb (fun kv => Z.land (u64 kv.1) (sizemask t) =? Z.of_nat ic.1) ic.2)
    (imap pair (table t)).

Lemma hashes_ok_spec t i c k v :
  hashes_ok t = true -> table t !! i = Some c -> (k, v) ∈ c ->
  Z.land (hashFunction k) (sizemask t) = Z.of_nat i.
Proof.
  unfold hashes_ok. rewrite forallb_forall. intros Ht Hc Hk.
  specialize (Ht (i, c)). rewrite forallb_forall in Ht.
  apply Z.eqb_eq, (fun H => Ht H (k, v)); [|by apply list_elem_of_In].
  apply list_elem_of_In, elem_of_lookup_imap. eauto.
Qed.

Lemma old_ok : ht_ok old_table.
Proof.
  constructor; try done; [by exists 2|]. intros i c k v. by apply hashes_ok_spec.
Qed.
Lemma new_ok : ht_ok new_table.
Proof.
  constructor; try done; [by exists 3|]. intros i c k v. by apply hashes_ok_spec.
Qed.

Lemma sample_dict_ok : dict_ok sample.
Proof.
  constructor; [right|by apply (bool_decide_unpack _); vm_compute|done].
  split_and!; [done| |apply old_ok|apply new_ok]. split; [done|].
  intros [|i] Hi; [done|]. simpl in Hi. lia.
Qed.
Lemma sample_dict_rep : dict_rep sample sample_map.
Proof. split; [apply sample_dict_ok|]. vm_compute. reflexivity. Qed.
Lemma stable_ok : dict_ok stable.
Proof.
  constructor; [left|by apply (bool_decide_unpack _); vm_compute|done].
  split_and!; [done|right; apply new_ok|done].
Qed.

Lemma dictAdd_correct_witness :
  exists d', dictAdd true sample 9 90 0 = Some (DICT_OK, d') /\ dict_rep d' (<[9 := 90]> sample_map).
Proof. apply (dictAdd_correct true sample sample_map 9 90 0 sample_dict_rep). by vm_compute. Defined.

Lemma dictReplace_correct_witness :
  exists d', dictReplace false sample 5 51 0 = Some (0, d') /\ dict_rep d' (<[5 := 51]> sample_map).
Proof. apply (dictReplace_correct false sample sample_map 5 51 0 sample_dict_rep). by vm_compute. Defined.

Lemma dictDelete_correct_witness :
  exists d', dictUnlink sample 1 = Some (Some (1, 10), d') /\
    dictDelete sample 1 = Some (DICT_OK, d') /\ dict_rep d' (delete 1 sample_map).
Proof. apply (dictDelete_correct sample sample_map 1 sample_dict_rep). Defined.

Lemma dictFind_correct_witness :
  exists found d', dictFind sample 4 = Some (found, d') /\
    dictFetchValue sample 4 = Some (Some 40, d') /\ dict_rep d' sample_map.
Proof.
  destruct (dictFind_correct sample sample_map 4 sample_dict_rep) as (found & d' & HF & HV & HR & _). eauto.
Defined.

Lemma dictRehash_correct_witness :
  exists r d', dictRehash sample 1 = Some (r, d') /\ dict_rep d' sample_map /\
    r = b2z (dictIsRehashing d') /\
    (dictIsRehashing d' = true -> 1%nat <> 0%nat ->
     size (ht0 d') - rehashidx d' < size (ht0 sample) - rehashidx sample).
Proof. apply (dictRehash_correct sample sample_map 1 sample_dict_rep). Defined.

Lemma rehash_completes_witness :
  exists d', rehash_all 6 sample 1 = Some d' /\ dict_rep d' sample_map /\ ht1 d' = _dictReset.
Proof. apply (rehash_completes sample sample_map 1 sample_dict_rep). done. Defined.

Lemma dictExpand_correct_witness :
  exists r d' r' d'', dictExpand stable 100 = Some (r, d') /\ dict_rep d' (list_to_map (all stable)) /\
    (r = DICT_ERR /\ d' = stable \/ r = DICT_OK /\ new_size d' 100) /\
    dictResize true stable = Some (r', d'') /\ dict_rep d'' (list_to_map (all stable)) /\
    (r' = DICT_ERR /\ d'' = stable \/ r' = DICT_OK /\ new_size d'' (Z.max 4 (used (ht0 stable)))).
Proof.
  apply (dictExpand_correct true stable (list_to_map (all stable)) 100).
  - split; [apply stable_ok|done].
  - lia.
  - by vm_compute.
Defined.

Lemma dictEmpty_correct_witness :
  dict_rep (dictCreate : dict Z Z) ∅ /\
  exists d', dictEmpty sample = ([(1, 10); (5, 50); (2, 20); (4, 40)], d') /\ dict_rep d' ∅.
Proof. apply (dictEmpty_correct sample sample_map sample_dict_rep). Defined.

Lemma rev_correct_witness :
  Z.testbit (rev 6) 62 = true /\ rev (rev 6) = 6 /\ is_u 64 (rev 6).
Proof. apply (rev_correct 6 62); [done|lia]. Defined.

(** The rehash is over when the scan continues. *)
Lemma dictScan_guarantee_witness :
  exists es, scan_from 0 (sample :: replicate 6 stable) = Some es /\ 4 ∈ es.*1.
Proof.
  eexists. split; [vm_compute; reflexivity|].
  apply (dictScan_guarantee (sample :: replicate 6 stable) _ 4).
  - constructor; [apply sample_dict_ok|apply Forall_replicate, stable_ok].
  - constructor; [apply (bool_decide_unpack _); vm_compute; done|].
    apply Forall_replicate, (bool_decide_unpack _). vm_compute. done.
  - vm_compute. reflexivity.
Defined.

Lemma dictScan_terminates_witness : exists es, scan_from 0 (replicate 8 sample) = Some es.
Proof.
  apply (dictScan_terminates 3).
  - lia.
  - apply Forall_replicate, sample_dict_ok.
  - apply Forall_replicate. by vm_compute.
  - by vm_compute.
Defined.

Lemma dictScan_exact_witness :
  exists es, scan_from 0 (replicate 8 stable) = Some es /\ es ≡ₚ [(2, 20); (4, 40)].
Proof. apply (dictScan_exact stable stable_ok); done. Defined.

Lemma dictNext_enumerates_witness :
  exists it' d', drain 5 dictGetSafeIterator sample = Some (all sample, it', d') /\
    dictReleaseIterator it' d' = sample /\ NoDup (all sample).*1.
Proof. apply (dictNext_enumerates sample true sample_dict_ok). by vm_compute. Defined.

Lemma dictGetRandomKey_correct_witness :
  exists d' rnd, random_range rnd /\ dictGetRandomKey 1 sample rnd = Some (Some (2, 20), d').
Proof.
  destruct (dictGetRandomKey_correct sample sample_map sample_dict_rep) as [_ (d' & HE & _ & Hr)]; [done|].
  exists d'. vm_compute in HE. injection HE as <-.
  apply Hr; by vm_compute.
Defined.
End Example_dict.
