(* ===== verification/Zskiplist.v ===== *)
(** * Skiplists of sorted sets (t_zset.c)

    The nodes live in a heap: a gmap from addresses to their [ele], [score] and
    [backward] fields, and one from (address, i) to the cell [level[i]] of the flexible
    array at their end.  [None] is a NULL or dangling dereference, an access past the
    array of levels or a failed [serverAssert].  A [double] is the [spec_float] of its
    IEEE 754 class, sign, mantissa and exponent, with the comparisons of that standard.
    Addresses come from the allocator, the class [ZAlloc]; the numbers drawn by
    [random()] are a list that is consumed. *)

From Stdlib Require Import ZArith Lia SpecFloat.
From stdpp Require Import base numbers option fin_maps gmap list.
From S2P Require Import Prelude Memory Sds Dict.

Local Open Scope Z_scope.
Local Open Scope redis_scope.

Abbreviation double := spec_float.
Definition isnan (x : double) : bool := match x with S754_nan => true | _ => false end.

Definition ZSKIPLIST_MAXLEVEL : nat := 32.

Record zskiplistLevel := Level { forward : option nat; span : Z }.
Record zskiplistNode := Node { ele : option bytes; score : double; backward : option nat }.
Record heap := Heap {
  nodes : gmap nat zskiplistNode;
  levels : gmap (nat * nat) zskiplistLevel }.
Record zskiplist := Zskiplist {
  header : nat;
  tail : option nat;
  zlength : Z;
  zlevel : nat }.

(** [zmalloc] returns an unused block with any content. *)
Class ZAlloc := {
  zmalloc_node : heap -> nat;
  junk_level : zskiplistLevel;
  junk_backward : option nat }.
Class ZAllocOk `{ZAlloc} := {
  zmalloc_nodes : forall h, nodes h !! zmalloc_node h = None;
  zmalloc_levels : forall h i, levels h !! (zmalloc_node h, i) = None }.

(** ** Fields *)

Definition set_forward (h : heap) (p i : nat) (f : option nat) : option heap :=
  let! l := levels h !! (p, i) in
  Some (Heap (nodes h) (<[(p, i) := Level f (span l)]> (levels h))).
Definition set_span (h : heap) (p i : nat) (s : Z) : option heap :=
  let! l := levels h !! (p, i) in
  Some (Heap (nodes h) (<[(p, i) := Level (forward l) s]> (levels h))).
Definition set_backward (h : heap) (p : nat) (b : option nat) : option heap :=
  let! n := nodes h !! p in
  Some (Heap (<[p := Node (ele n) (score n) b]> (nodes h)) (levels h)).
Definition set_score (h : heap) (p : nat) (s : double) : option heap :=
  let! n := nodes h !! p in
  Some (Heap (<[p := Node (ele n) s (backward n)]> (nodes h)) (levels h)).

(** [for (i = first; i < first + n; i++) body] *)
Fixpoint for_levels (n first : nat) (body : nat -> heap -> option heap) (h : heap) : option heap :=
  match n with
  | O => Some h
  | S n => let! h := body first h in for_levels n (S first) body h
  end.

(** ** Creation *)

Section Create.
Context `{ZAlloc}.

Fixpoint alloc_levels (p n : nat) (m : gmap (nat * nat) zskiplistLevel) :=
  match n with
  | O => m
  | S n => <[(p, n) := junk_level]> (alloc_levels p n m)
  end.

Definition zslCreateNode (h : heap) (level : nat) (score : double) (ele : option bytes)
    : nat * heap :=
  let zn := zmalloc_node h in
  (zn, Heap (<[zn := Node ele score junk_backward]> (nodes h)) (alloc_levels zn level (levels h))).

Definition clear_level (p j : nat) (h : heap) : option heap :=
  let! h := set_forward h p j None in
  set_span h p j 0.

Definition zslCreate (h : heap) : option (heap * zskiplist) :=
  let (hd, h) := zslCreateNode h ZSKIPLIST_MAXLEVEL (S754_zero false) None in
  let! h := for_levels ZSKIPLIST_MAXLEVEL 0 (clear_level hd) h in
  let! h := set_backward h hd None in
  Some (h, Zskiplist hd None 0 1).
End Create.

Definition zslFreeNode (h : heap) (p : nat) : heap :=
  Heap (delete p (nodes h)) (filter (fun kv => kv.1.1 <> p) (levels h)).

(** The loop of [zslFree] over the nodes, with more fuel than they are. *)
Fixpoint free_loop (fuel : nat) (node : option nat) (h : heap) : option heap :=
  match fuel with
  | O => None
  | S fuel =>
      match node with
      | None => Some h
      | Some p => let! l := levels h !! (p, 0%nat) in
                  free_loop fuel (forward l) (zslFreeNode h p)
      end
  end.
Definition zslFree (h : heap) (zsl : zskiplist) : option heap :=
  let! l := levels h !! (header zsl, 0%nat) in
  free_loop (S (Z.to_nat (zlength zsl))) (forward l) (zslFreeNode h (header zsl)).

(** [(random()&0xFFFF) < (ZSKIPLIST_P * 0xFFFF)], where ZSKIPLIST_P is 1/4 *)
Definition coin (r : Z) : bool := Z.land r 65535 * 4 <? 65535.

(** The level and the numbers not drawn; [None] when the list is exhausted or the
    [int] overflows. *)
Fixpoint random_level_loop (rs : list Z) (level : Z) : option (Z * list Z) :=
  match rs with
  | [] => None
  | r :: rs => if coin r then
                 if level =? INT32_MAX then None else random_level_loop rs (level + 1)
               else Some (level, rs)
  end.
Definition zslRandomLevel (rs : list Z) : option (nat * list Z) :=
  let! (level, rs) := random_level_loop rs 1 in
  Some (if level <? Z.of_nat ZSKIPLIST_MAXLEVEL then Z.to_nat level else ZSKIPLIST_MAXLEVEL, rs).

(** ** Walking *)

(** The condition of a walk, on the next node and the distance it would make. *)
Definition walk_cond : Type := zskiplistNode -> Z -> option bool.

(** [while (x->level[i].forward && cond) { acc += x->level[i].span; x = x->level[i].forward; }]
    where [acc] is unsigned of [w] bits. *)
Fixpoint walk (h : heap) (cond : walk_cond) (w : Z) (fuel i x : nat) (acc : Z) : option (nat * Z) :=
  match fuel with
  | O => None
  | S fuel =>
      let! l := levels h !! (x, i) in
      match forward l with
      | None => Some (x, acc)
      | Some p =>
          let! n := nodes h !! p in
          let acc' := uN w (acc + span l) in
          let! go := cond n acc' in
          if (go : bool) then walk h cond w fuel i p acc' else Some (x, acc)
      end
  end.

(** The loop over the levels i-1, ..., 0 around the walk: [(update[j], rank[j])] for
    every level [j]. *)
Fixpoint descend (h : heap) (cond : walk_cond) (w : Z) (fuel i x : nat) (acc : Z)
    : option (list (nat * Z)) :=
  match i with
  | O => Some []
  | S i =>
      let! (x, acc) := walk h cond w fuel i x acc in
      let! us := descend h cond w fuel i x acc in
      Some (us ++ [(x, acc)])
  end.

(** More than the turns any walk can make. *)
Definition walk_fuel (zsl : zskiplist) : nat := S (Z.to_nat (zlength zsl)).
Definition search (h : heap) (cond : walk_cond) (w : Z) (zsl : zskiplist) : option (list (nat * Z)) :=
  descend h cond w (walk_fuel zsl) (zlevel zsl) (header zsl) 0.
(** The node where the search stops: [update[0]]. *)
Definition stop (zsl : zskiplist) (us : list (nat * Z)) : nat * Z :=
  match us with u :: _ => u | [] => (header zsl, 0) end.

(** [forward->score < score || (forward->score == score && sdscmp(forward->ele,ele) < 0)] *)
Definition before (s : double) (e : bytes) : walk_cond := fun n _ =>
  if SFltb (score n) s then Some true
  else if SFeqb (score n) s then let! e' := ele n in Some (sdscmp e' e <? 0)
  else Some false.

(** ** Insertion *)

(** The body of [for (i = 0; i < level; i++)] *)
Definition link_level (x : nat) (rank0 : Z) (i u : nat) (rank : Z) (h : heap) : option heap :=
  let! l := levels h !! (u, i) in
  let! h := set_forward h x i (forward l) in
  let! h := set_forward h u i (Some x) in
  let! l := levels h !! (u, i) in
  let! h := set_span h x i (u64 (span l - u32 (rank0 - rank))) in
  set_span h u i (u32 (u32 (rank0 - rank) + 1)).
Definition link_step (x : nat) (rank0 : Z) (us : list (nat * Z)) (i : nat) (h : heap) : option heap :=
  let! (u, rank) := us !! i in
  link_level x rank0 i u rank h.

(** [update[i]->level[i].span++;] *)
Definition untouched_step (us : list (nat * Z)) (i : nat) (h : heap) : option heap :=
  let! (u, _) := us !! i in
  let! l := levels h !! (u, i) in
  set_span h u i (u64 (span l + 1)).

Section Insert.
Context `{ZAlloc}.

(** The new node, the numbers left, the heap and the list. *)
Definition zslInsert (rs : list Z) (h : heap) (zsl : zskiplist) (s : double) (e : bytes)
    : option (nat * list Z * heap * zskiplist) :=
  if isnan s then None else
  let! us := search h (before s e) 32 zsl in
  let! (level, rs) := zslRandomLevel rs in
  let us := us ++ replicate (level - zlevel zsl) (header zsl, 0) in
  let! h := for_levels (level - zlevel zsl) (zlevel zsl)
              (fun i h => set_span h (header zsl) i (zlength zsl)) h in
  let zlevel' := Nat.max level (zlevel zsl) in
  let (x, h) := zslCreateNode h level s (Some e) in
  let! (u0, rank0) := us !! 0%nat in
  let! h := for_levels level 0 (link_step x rank0 us) h in
  let! h := for_levels (zlevel' - level) level (untouched_step us) h in
  let! h := set_backward h x (if Nat.eqb u0 (header zsl) then None else Some u0) in
  let! l := levels h !! (x, 0%nat) in
  let! (h, tail') :=
    match forward l with
    | Some f => let! h := set_backward h f (Some x) in Some (h, tail zsl)
    | None => Some (h, Some x)
    end in
  Some (x, rs, h, Zskiplist (header zsl) tail' (u64 (zlength zsl + 1)) zlevel').
End Insert.

(** ** Deletion *)

Definition unlink_level (x i u : nat) (h : heap) : option heap :=
  let! l := levels h !! (u, i) in
  if decide (forward l = Some x) then
    let! lx := levels h !! (x, i) in
    let! h := set_span h u i (u64 (span l + u64 (span lx - 1))) in
    let! lx := levels h !! (x, i) in
    set_forward h u i (forward lx)
  else set_span h u i (u64 (span l - 1)).
Definition unlink_step (x : nat) (us : list (nat * Z)) (i : nat) (h : heap) : option heap :=
  let! (u, _) := us !! i in
  unlink_level x i u h.

(** [while(zsl->level > 1 && zsl->header->level[zsl->level-1].forward == NULL) zsl->level--;] *)
Fixpoint lower_loop (h : heap) (hd level : nat) : option nat :=
  match level with
  | S (S _ as level') =>
      let! l := levels h !! (hd, level') in
      match forward l with None => lower_loop h hd level' | Some _ => Some level end
  | _ => Some level
  end.

Definition zslDeleteNode (h : heap) (zsl : zskiplist) (x : nat) (us : list (nat * Z))
    : option (heap * zskiplist) :=
  let! h := for_levels (zlevel zsl) 0 (unlink_step x us) h in
  let! l := levels h !! (x, 0%nat) in
  let! n := nodes h !! x in
  let! (h, tail') :=
    match forward l with
    | Some f => let! h := set_backward h f (backward n) in Some (h, tail zsl)
    | None => Some (h, backward n)
    end in
  let! zlevel' := lower_loop h (header zsl) (zlevel zsl) in
  Some (h, Zskiplist (header zsl) tail' (u64 (zlength zsl - 1)) zlevel').

(** [x && score == x->score && sdscmp(x->ele,ele) == 0], of a node *)
Definition is_element (n : zskiplistNode) (s : double) (e : bytes) : option bool :=
  if SFeqb s (score n) then let! e' := ele n in Some (sdscmp e' e =? 0) else Some false.

(** The result, [*node] when the caller asked for it ([keep]), the heap and the list. *)
Definition zslDelete (h : heap) (zsl : zskiplist) (s : double) (e : bytes) (keep : bool)
    : option (Z * option nat * heap * zskiplist) :=
  let! us := search h (before s e) 64 zsl in
  let! l := levels h !! ((stop zsl us).1, 0%nat) in
  match forward l with
  | None => Some (0, None, h, zsl)
  | Some x =>
      let! n := nodes h !! x in
      let! found := is_element n s e in
      if (found : bool) then
        let! (h, zsl) := zslDeleteNode h zsl x us in
        if keep then Some (1, Some x, h, zsl) else Some (1, None, zslFreeNode h x, zsl)
      else Some (0, None, h, zsl)
  end.

Section Update.
Context `{ZAlloc}.

(** [x->backward == NULL || x->backward->score < newscore] and its mirror image *)
Definition fits_after (h : heap) (b : option nat) (s : double) : option bool :=
  match b with None => Some true | Some p => let! n := nodes h !! p in Some (SFltb (score n) s) end.
Definition fits_before (h : heap) (f : option nat) (s : double) : option bool :=
  match f with None => Some true | Some p => let! n := nodes h !! p in Some (SFltb s (score n)) end.

Definition zslUpdateScore (rs : list Z) (h : heap) (zsl : zskiplist) (curscore : double) (e : bytes)
    (newscore : double) : option (nat * list Z * heap * zskiplist) :=
  let! us := search h (before curscore e) 64 zsl in
  let! l := levels h !! ((stop zsl us).1, 0%nat) in
  let! x := forward l in
  let! n := nodes h !! x in
  let! found := is_element n curscore e in
  if negb found then None else
  let! l := levels h !! (x, 0%nat) in
  let! ok_back := fits_after h (backward n) newscore in
  let! ok := (if (ok_back : bool) then fits_before h (forward l) newscore else Some false) in
  if (ok : bool) then
    let! h := set_score h x newscore in
    Some (x, rs, h, zsl)
  else
    let! (h, zsl) := zslDeleteNode h zsl x us in
    let! n := nodes h !! x in
    let! xe := ele n in
    let! (newnode, rs, h, zsl) := zslInsert rs h zsl newscore xe in
    Some (newnode, rs, zslFreeNode h x, zsl).
End Update.

(** ** Ranks *)

(** The walk of zslGetRank: [before], or the element itself. *)
Definition before_or_at (s : double) (e : bytes) : walk_cond := fun n _ =>
  if SFltb (score n) s then Some true
  else if SFeqb (score n) s then let! e' := ele n in Some (sdscmp e' e <=? 0)
  else Some false.

Fixpoint rank_loop (h : heap) (s : double) (e : bytes) (fuel i x : nat) (rank : Z) : option Z :=
  match i with
  | O => Some 0
  | S i =>
      let! (x, rank) := walk h (before_or_at s e) 64 fuel i x rank in
      let! n := nodes h !! x in
      if match ele n with Some e' => sdscmp e' e =? 0 | None => false end then Some rank
      else rank_loop h s e fuel i x rank
  end.
Definition zslGetRank (h : heap) (zsl : zskiplist) (s : double) (e : bytes) : option Z :=
  rank_loop h s e (walk_fuel zsl) (zlevel zsl) (header zsl) 0.

Fixpoint by_rank_loop (h : heap) (rank : Z) (fuel i x : nat) (traversed : Z) : option (option nat) :=
  match i with
  | O => Some None
  | S i =>
      let! (x, traversed) := walk h (fun _ t => Some (t <=? rank)) 64 fuel i x traversed in
      if traversed =? rank then Some (Some x) else by_rank_loop h rank fuel i x traversed
  end.
Definition zslGetElementByRank (h : heap) (zsl : zskiplist) (rank : Z) : option (option nat) :=
  by_rank_loop h rank (walk_fuel zsl) (zlevel zsl) (header zsl) 0.

(** ** Ranges by score *)

Record zrangespec := Zrangespec { zmin : double; zmax : double; minex : bool; maxex : bool }.

Definition zslValueGteMin (value : double) (spec : zrangespec) : bool :=
  if minex spec then SFltb (zmin spec) value else SFleb (zmin spec) value.
Definition zslValueLteMax (value : double) (spec : zrangespec) : bool :=
  if maxex spec then SFltb value (zmax spec) else SFleb value (zmax spec).

(** A test on the node at [p], false for NULL *)
Definition node_test (h : heap) (p : option nat) (f : zskiplistNode -> option bool) : option bool :=
  match p with None => Some false | Some p => let! n := nodes h !! p in f n end.

Definition zslIsInRange (h : heap) (zsl : zskiplist) (range : zrangespec) : option bool :=
  if SFltb (zmax range) (zmin range) ||
     (SFeqb (zmin range) (zmax range) && (minex range || maxex range)) then Some false else
  let! ok := node_test h (tail zsl) (fun n => Some (zslValueGteMin (score n) range)) in
  if negb ok then Some false else
  let! l := levels h !! (header zsl, 0%nat) in
  node_test h (forward l) (fun n => Some (zslValueLteMax (score n) range)).

Definition zslFirstInRange (h : heap) (zsl : zskiplist) (range : zrangespec) : option (option nat) :=
  let! any := zslIsInRange h zsl range in
  if negb any then Some None else
  let! us := search h (fun n _ => Some (negb (zslValueGteMin (score n) range))) 64 zsl in
  let! l := levels h !! ((stop zsl us).1, 0%nat) in
  let! x := forward l in
  let! n := nodes h !! x in
  Some (if zslValueLteMax (score n) range then Some x else None).

Definition zslLastInRange (h : heap) (zsl : zskiplist) (range : zrangespec) : option (option nat) :=
  let! any := zslIsInRange h zsl range in
  if negb any then Some None else
  let! us := search h (fun n _ => Some (zslValueLteMax (score n) range)) 64 zsl in
  let x := (stop zsl us).1 in
  let! n := nodes h !! x in
  Some (if zslValueGteMin (score n) range then Some x else None).

(** ** Ranges by name *)

(** [shared.minstring], [shared.maxstring], or a string. *)
Inductive lexbound := minstring | maxstring | string_ (s : bytes).
Record zlexrangespec := Zlexrangespec { lmin : lexbound; lmax : lexbound; lminex : bool; lmaxex : bool }.

Definition sdscmplex (a b : lexbound) : Z :=
  match a, b with
  | minstring, minstring | maxstring, maxstring => 0
  | minstring, _ | _, maxstring => -1
  | maxstring, _ | _, minstring => 1
  | string_ a, string_ b => sdscmp a b
  end.

(** The bound and whether it is exclusive; [None] is C_ERR. *)
Definition zslParseLexRangeItem (item : bytes) : option (lexbound * bool) :=
  let c i := nth i item 0 in
  if c 0%nat =? 43 then if negb (c 1%nat =? 0) then None else Some (maxstring, true)
  else if c 0%nat =? 45 then if negb (c 1%nat =? 0) then None else Some (minstring, true)
  else if c 0%nat =? 40 then Some (string_ (drop 1 item), true)
  else if c 0%nat =? 91 then Some (string_ (drop 1 item), false)
  else None.
(** An argument that is encoded as an integer is [inl]. *)
Definition zslParseLexRange (min max : Z + bytes) : option zlexrangespec :=
  match min, max with
  | inr min, inr max =>
      let! (mn, mnex) := zslParseLexRangeItem min in
      let! (mx, mxex) := zslParseLexRangeItem max in
      Some (Zlexrangespec mn mx mnex mxex)
  | _, _ => None
  end.

Definition zslLexValueGteMin (value : bytes) (spec : zlexrangespec) : bool :=
  if lminex spec then sdscmplex (string_ value) (lmin spec) >? 0
  else sdscmplex (string_ value) (lmin spec) >=? 0.
Definition zslLexValueLteMax (value : bytes) (spec : zlexrangespec) : bool :=
  if lmaxex spec then sdscmplex (string_ value) (lmax spec) <? 0
  else sdscmplex (string_ value) (lmax spec) <=? 0.

Definition lex_gte (range : zlexrangespec) (n : zskiplistNode) : option bool :=
  let! e := ele n in Some (zslLexValueGteMin e range).
Definition lex_lte (range : zlexrangespec) (n : zskiplistNode) : option bool :=
  let! e := ele n in Some (zslLexValueLteMax e range).

Definition zslIsInLexRange (h : heap) (zsl : zskiplist) (range : zlexrangespec) : option bool :=
  let cmp := sdscmplex (lmin range) (lmax range) in
  if (cmp >? 0) || ((cmp =? 0) && (lminex range || lmaxex range)) then Some false else
  let! ok := node_test h (tail zsl) (lex_gte range) in
  if negb ok then Some false else
  let! l := levels h !! (header zsl, 0%nat) in
  node_test h (forward l) (lex_lte range).

Definition zslFirstInLexRange (h : heap) (zsl : zskiplist) (range : zlexrangespec)
    : option (option nat) :=
  let! any := zslIsInLexRange h zsl range in
  if negb any then Some None else
  let! us := search h (fun n _ => negb <$> lex_gte range n) 64 zsl in
  let! l := levels h !! ((stop zsl us).1, 0%nat) in
  let! x := forward l in
  let! n := nodes h !! x in
  let! ok := lex_lte range n in
  Some (if (ok : bool) then Some x else None).

Definition zslLastInLexRange (h : heap) (zsl : zskiplist) (range : zlexrangespec)
    : option (option nat) :=
  let! any := zslIsInLexRange h zsl range in
  if negb any then Some None else
  let! us := search h (fun n _ => lex_lte range n) 64 zsl in
  let x := (stop zsl us).1 in
  let! n := nodes h !! x in
  let! ok := lex_gte range n in
  Some (if (ok : bool) then Some x else None).

(** ** Deletion of ranges *)

Section DeleteRange.
Context `{dictType bytes}.

(** [while (x && cond) { next = ...; zslDeleteNode(zsl,x,update); dictDelete(dict,x->ele);
    zslFreeNode(x); removed++; traversed++; x = next; }] *)
Fixpoint delete_while (fuel : nat) (cond : walk_cond) (us : list (nat * Z)) (x : option nat)
    (traversed removed : Z) (h : heap) (zsl : zskiplist) (d : dict bytes nat)
    : option (Z * heap * zskiplist * dict bytes nat) :=
  match fuel with
  | O => None
  | S fuel =>
      match x with
      | None => Some (removed, h, zsl, d)
      | Some x =>
          let! n := nodes h !! x in
          let! go := cond n traversed in
          if negb go then Some (removed, h, zsl, d) else
          let! l := levels h !! (x, 0%nat) in
          let next := forward l in
          let! (h, zsl) := zslDeleteNode h zsl x us in
          let! e := ele n in
          let! (_, d) := dictDelete d e in
          let h := zslFreeNode h x in
          delete_while fuel cond us next (u64 (traversed + 1)) (u64 (removed + 1)) h zsl d
      end
  end.

(** The search for the first node to delete, and the deletions. *)
Definition delete_range (out inr : walk_cond) (h : heap) (zsl : zskiplist) (d : dict bytes nat)
    : option (Z * heap * zskiplist * dict bytes nat) :=
  let! us := search h out 64 zsl in
  let! l := levels h !! ((stop zsl us).1, 0%nat) in
  delete_while (walk_fuel zsl) inr us (forward l) (u64 ((stop zsl us).2 + 1)) 0 h zsl d.

Definition zslDeleteRangeByScore (h : heap) (zsl : zskiplist) (range : zrangespec) (d : dict bytes nat) :=
  delete_range
    (fun n _ => Some (if minex range then SFleb (score n) (zmin range) else SFltb (score n) (zmin range)))
    (fun n _ => Some (if maxex range then SFltb (score n) (zmax range) else SFleb (score n) (zmax range)))
    h zsl d.
Definition zslDeleteRangeByLex (h : heap) (zsl : zskiplist) (range : zlexrangespec) (d : dict bytes nat) :=
  delete_range (fun n _ => negb <$> lex_gte range n) (fun n _ => lex_lte range n) h zsl d.
(** [start] and [end] are [unsigned int] and count from 1. *)
Definition zslDeleteRangeByRank (h : heap) (zsl : zskiplist) (start end_ : Z) (d : dict bytes nat) :=
  delete_range (fun _ t => Some (t <? start)) (fun _ t => Some (t <=? end_)) h zsl d.
End DeleteRange.
