(* ===== verification/ZslFacts.v ===== *)
(** * Skiplists: order, links and walks

    Scores and elements are ordered as one sequence of integers, compared
    lexicographically.  A skiplist is described by the sequence of its entries: the cell
    [level[i]] of each node of height above [i] must describe the next such entry.  The
    walks of t_zset.c are followed on that sequence. *)

From Stdlib Require Import ZArith Lia SpecFloat.
From stdpp Require Import base numbers option fin_maps gmap list sorting.
From S2P Require Import Prelude Memory Sds SdsSpec Dict Zskiplist.

Local Open Scope Z_scope.
Local Open Scope redis_scope.

(** ** Scores *)

(** A number as a sequence that is ordered lexicographically like the scores. *)
Definition fkey (x : double) : bytes :=
  match x with
  | S754_infinity true => [-2; 0; 0]
  | S754_finite true m e => [-1; - e; - Z.pos m]
  | S754_zero _ => [0; 0; 0]
  | S754_finite false m e => [1; e; Z.pos m]
  | S754_infinity false => [2; 0; 0]
  | S754_nan => [3; 0; 0]
  end.

Lemma compare_opp a b : (- a ?= - b) = CompOpp (a ?= b).
Proof. rewrite Z.compare_opp. apply Z.compare_antisym. Qed.

Lemma SFcompare_key a b :
  isnan a = false -> isnan b = false -> SFcompare a b = Some (lex (fkey a) (fkey b)).
Proof.
  intros Ha Hb.
  destruct a as [[]|[]| |[] ma ea], b as [[]|[]| |[] mb eb]; try done; cbn [SFcompare fkey lex];
    rewrite ?Z.compare_refl, ?compare_opp; try done.
  all: change (PosDef.Pos.compare_cont Eq ma mb) with (Z.pos ma ?= Z.pos mb);
    destruct (ea ?= eb); [|done|done]; by destruct (Z.pos ma ?= Z.pos mb).
Qed.

Lemma lex_refl a : lex a a = Eq.
Proof. by apply lex_eq. Qed.
Lemma lex_gt a b : lex a b = Gt <-> lex b a = Lt.
Proof. rewrite (lex_antisym a b). by destruct (lex a b). Qed.
Lemma lex_le_lt a b c : lex a b <> Gt -> lex b c = Lt -> lex a c = Lt.
Proof.
  intros Hab Hbc. destruct (lex a b) eqn:E; [|by eapply lex_trans|done].
  apply lex_eq in E. by subst.
Qed.
Lemma lex_lt_le a b c : lex a b = Lt -> lex b c <> Gt -> lex a c = Lt.
Proof.
  intros Hab Hbc. destruct (lex b c) eqn:E; [|by eapply lex_trans|done].
  apply lex_eq in E. by subst.
Qed.

Section Floats.
Context (a b : double) (Ha : isnan a = false) (Hb : isnan b = false).
Lemma SFltb_key : SFltb a b = true <-> lex (fkey a) (fkey b) = Lt.
Proof. unfold SFltb. rewrite SFcompare_key by done. by destruct (lex _ _). Qed.
Lemma SFeqb_key : SFeqb a b = true <-> fkey a = fkey b.
Proof. unfold SFeqb. rewrite SFcompare_key, <- lex_eq by done. by destruct (lex _ _). Qed.
Lemma SFleb_key : SFleb a b = true <-> lex (fkey a) (fkey b) <> Gt.
Proof. unfold SFleb. rewrite SFcompare_key by done. by destruct (lex _ _). Qed.
End Floats.

Lemma length_fkey x : length (fkey x) = 3%nat.
Proof. by destruct x as [[]|[]| |[] ? ?]. Qed.

(** Keys have the same length, so that a sequence that starts with one is ordered by it first. *)
Lemma lex_app a b a' b' :
  length a = length b -> lex (a ++ a') (b ++ b') = match lex a b with Eq => lex a' b' | c => c end.
Proof.
  revert b. induction a as [|x a IH]; intros [|y b]; intros Hl; try done; [].
  cbn [lex app]. destruct (x ?= y); [|done|done]. apply IH. simpl in Hl. lia.
Qed.

Definition skey (s : double) (e : bytes) : bytes := fkey s ++ e.
Lemma lex_skey s e s' e' :
  lex (skey s e) (skey s' e') = match lex (fkey s) (fkey s') with Eq => lex e e' | c => c end.
Proof. apply lex_app. by rewrite !length_fkey. Qed.

Lemma sdscmp_sign a b :
  (sdscmp a b <? 0) = bool_decide (lex a b = Lt) /\ (sdscmp a b =? 0) = bool_decide (lex a b = Eq) /\
  (sdscmp a b <=? 0) = bool_decide (lex a b <> Gt).
Proof.
  rewrite <- sdscmp_lex. destruct (Z.compare_spec (sdscmp a b) 0) as [E | E | E];
    split_and!; case_bool_decide; try done; rewrite ?Z.ltb_lt, ?Z.ltb_ge, ?Z.eqb_eq, ?Z.eqb_neq, ?Z.leb_le, ?Z.leb_gt; lia.
Qed.

(** ** Entries and links *)

(** A node of the list: its address, height, element and score. *)
Record entry := Entry { ap : nat; ah : nat; aele : bytes; ascore : double }.

#[global] Instance double_eq_dec : EqDecision double.
Proof. solve_decision. Defined.
#[global] Instance entry_eq_dec : EqDecision entry.
Proof. solve_decision. Defined.

Definition akey (a : entry) : bytes := skey (ascore a) (aele a).
Definition entry_lt (a b : entry) : Prop := lex (akey a) (akey b) = Lt.
Definition low (i : nat) (a : entry) : Prop := (ah a <= i)%nat.
#[global] Instance low_dec i a : Decision (low i a) := decide (ah a <= i)%nat.

(** What [level[i]] must hold in a node followed by [T]: the next node that has a level
    [i] and its distance; at the end NULL and the distance to the end. *)
Fixpoint nxt (i : nat) (T : list entry) : zskiplistLevel :=
  match T with
  | [] => Level None 0
  | a :: T => if decide (low i a) then Level (forward (nxt i T)) (span (nxt i T) + 1)
              else Level (Some (ap a)) 1
  end.

(** The level [i] of the nodes [N] is linked properly in the memory [m]. *)
Fixpoint linked (m : gmap (nat * nat) zskiplistLevel) (i : nat) (N : list entry) : Prop :=
  match N with
  | [] => True
  | a :: T => (~ low i a -> m !! (ap a, i) = Some (nxt i T)) /\ linked m i T
  end.

Lemma nxt_low i P T :
  Forall (low i) P -> nxt i (P ++ T) = Level (forward (nxt i T)) (zlen P + span (nxt i T)).
Proof.
  induction 1 as [|a P Ha HP IH]; simpl.
  - by destruct (nxt i T).
  - rewrite decide_True by done. rewrite IH. simpl. f_equal. zlia.
Qed.
Lemma nxt_found i P u T T' : ~ low i u -> nxt i (P ++ u :: T) = nxt i (P ++ u :: T').
Proof.
  intros Hu. induction P as [|a P IH]; simpl; [by rewrite !decide_False|].
  by rewrite IH.
Qed.
Lemma nxt_cases i T :
  (Forall (low i) T /\ nxt i T = Level None (zlen T)) \/
  exists T1 b T2, T = T1 ++ b :: T2 /\ Forall (low i) T1 /\ ~ low i b /\
    nxt i T = Level (Some (ap b)) (zlen T1 + 1).
Proof.
  induction T as [|a T IH]; [by left|]. simpl. destruct (decide (low i a)) as [Ha|Ha].
  - destruct IH as [[HT ->] | (T1 & b & T2 & -> & HT1 & Hb & ->)]; simpl.
    + left. split; [by constructor|]. f_equal. zlia.
    + right. exists (a :: T1), b, T2. split_and!; try done; [by constructor|]. f_equal. zlia.
  - right. by exists [], a, T.
Qed.
Lemma span_bound i T : 0 <= span (nxt i T) <= zlen T.
Proof.
  destruct (nxt_cases i T) as [[_ ->] | (T1 & b & T2 & -> & _ & _ & ->)]; simpl; zlia.
Qed.

Lemma linked_suffix m i P T : linked m i (P ++ T) -> linked m i T.
Proof. induction P as [|a P IH]; [done|]. simpl. intros [_ ?]. auto. Qed.
Lemma linked_at m i P u T : linked m i (P ++ u :: T) -> ~ low i u -> m !! (ap u, i) = Some (nxt i T).
Proof. intros [? _]%linked_suffix. auto. Qed.
Lemma linked_ext m m' i N :
  (forall a, a ∈ N -> ~ low i a -> m' !! (ap a, i) = m !! (ap a, i)) -> linked m i N -> linked m' i N.
Proof.
  induction N as [|a N IH]; [done|]. simpl. intros Heq [Ha HN]. split.
  - intros Hl. rewrite Heq by (done || apply list_elem_of_here). auto.
  - apply IH; [|done]. intros b Hb. apply Heq. by apply list_elem_of_further.
Qed.
Lemma linked_other m i p j l N : i <> j -> linked m i N -> linked (<[(p, j) := l]> m) i N.
Proof. intros Hij. apply linked_ext. intros a _ _. apply lookup_insert_ne. congruence. Qed.

Lemma linked_low m i P T : Forall (low i) P -> linked m i T -> linked m i (P ++ T).
Proof. induction 1 as [|a P Ha HP IH]; [done|]. simpl. intros HT. split; [done|auto]. Qed.

(** Changing what follows [u], the last node of its part that has a level [i]. *)
Lemma linked_change m i P u Q Q' :
  linked m i (P ++ u :: Q) -> ~ low i u -> linked m i Q' -> NoDup (ap <$> P ++ u :: Q') ->
  linked (<[(ap u, i) := nxt i Q']> m) i (P ++ u :: Q').
Proof.
  intros HL Hu HQ' Hnd. induction P as [|a P IH]; simpl in *.
  - split; [intros _; by rewrite lookup_insert_eq|]. apply NoDup_cons in Hnd as [Hn _].
    revert HQ'. apply linked_ext. intros b Hb _. apply lookup_insert_ne. intros [= E].
    apply Hn. rewrite E. by apply list_elem_of_fmap_2.
  - apply NoDup_cons in Hnd as [Hn Hnd]. destruct HL as [Ha HL]. split; [|auto].
    intros Hl. rewrite lookup_insert_ne, Ha by (try done; intros [= E]; apply Hn; rewrite <- E;
      apply list_elem_of_fmap_2; rewrite elem_of_app; right; apply list_elem_of_here).
    f_equal. by apply nxt_found.
Qed.

(** The last node of [P] that has a level [i]. *)
Definition last_at (i : nat) (P P1 : list entry) (u : entry) (P2 : list entry) : Prop :=
  P = P1 ++ u :: P2 /\ ~ low i u /\ Forall (low i) P2.

(** ** Walks *)

(** The condition of a walk holds of the nodes of [N] at the positions below [k], the
    header at position 0 apart, and of no other. *)
Definition steers (h : heap) (cond : walk_cond) (w : Z) (N : list entry) (k : nat) : Prop :=
  zlen N <= 2 ^ w /\ 0 <= w /\
  forall j a, N !! j = Some a -> (0 < j)%nat ->
    exists n, nodes h !! ap a = Some n /\ cond n (Z.of_nat j) = Some (bool_decide (j < k)%nat).

Lemma steers_at h cond w N k Q a R :
  steers h cond w N k -> N = Q ++ a :: R -> Q <> [] ->
  exists n, nodes h !! ap a = Some n /\ cond n (uN w (zlen Q)) = Some (bool_decide (zlen Q < Z.of_nat k)).
Proof.
  intros (Hw & Hw0 & Hs) -> HQ. destruct (Hs (length Q) a) as (n & Hn & Hc).
  - by rewrite lookup_app_r, Nat.sub_diag by lia.
  - destruct Q; [done|]. simpl. lia.
  - exists n. split; [done|]. rewrite uN_small by zlia. unfold zlen at 1. rewrite Hc. f_equal.
    apply bool_decide_ext. unfold zlen. lia.
Qed.

Lemma walk_spec h cond w i P T Q x R fuel :
  linked (levels h) i (P ++ T) -> steers h cond w (P ++ T) (length P) ->
  P = Q ++ x :: R -> ~ low i x -> (length R < fuel)%nat ->
  exists P1 u P2, last_at i P P1 u P2 /\
    walk h cond w fuel i (ap x) (zlen Q) = Some (ap u, zlen P1).
Proof.
  intros HL Hs. revert Q x R. induction fuel as [|fuel IH]; intros Q x R HP Hx Hf; [lia|].
  assert (P ++ T = Q ++ x :: (R ++ T)) as HN by (subst P; by rewrite <- app_assoc).
  cbn [walk]. rewrite (linked_at _ i Q x (R ++ T)) by (done || by rewrite <- HN). mstep.
  destruct (nxt_cases i R) as [[HR ER] | (R1 & b & R2 & -> & HR1 & Hb & ER)].
  - exists Q, x, R. split; [done|]. rewrite nxt_low by done.
    destruct (nxt_cases i T) as [[HT ET] | (T1 & b & T2 & -> & HT1 & Hb & ET)]; rewrite ET; simpl; [done|].
    destruct (steers_at h cond w (P ++ T1 ++ b :: T2) (length P) (P ++ T1) b T2 Hs) as (n & -> & Hc).
    { by rewrite <- app_assoc. }
    { intros [-> _]%app_eq_nil. by destruct Q. }
    mstep. replace (zlen Q + (zlen R + (zlen T1 + 1))) with (zlen (P ++ T1)) by (rewrite HP; zlia).
    rewrite Hc. mstep. rewrite bool_decide_false; [done|]. rewrite zlen_app. unfold zlen. lia.
  - rewrite <- (app_assoc R1). simpl. rewrite (nxt_found i R1 b (R2 ++ T) R2), ER by done. simpl.
    destruct (steers_at h cond w (P ++ T) (length P) (Q ++ x :: R1) b (R2 ++ T) Hs) as (n & -> & Hc).
    { rewrite HN. by simplify_list_eq. }
    { by destruct Q. }
    mstep. replace (zlen Q + (zlen R1 + 1)) with (zlen (Q ++ x :: R1)) by zlia. rewrite Hc. mstep.
    rewrite bool_decide_true.
    + destruct Hs as (Hw & Hw0 & _). rewrite uN_small by (rewrite HN in Hw; zlia).
      apply IH with R2; [by rewrite HP; simplify_list_eq|done|]. rewrite length_app in Hf. simpl in Hf. lia.
    + rewrite HP, <- (Nat2Z.id (length _)). fold (zlen (Q ++ x :: R1 ++ b :: R2)). zlia.
Qed.

(** [update] and [rank], as the search leaves them for the part [P] of the list. *)
Definition update_ok (P : list entry) (us : list (nat * Z)) (level : nat) : Prop :=
  length us = level /\
  forall i, (i < level)%nat -> exists P1 u P2, last_at i P P1 u P2 /\ us !! i = Some (ap u, zlen P1).

Lemma descend_spec h cond w P T fuel level Q x R :
  (forall i, (i < level)%nat -> linked (levels h) i (P ++ T)) ->
  steers h cond w (P ++ T) (length P) ->
  P = Q ++ x :: R -> (level <= ah x)%nat -> (length P <= fuel)%nat ->
  exists us, descend h cond w fuel level (ap x) (zlen Q) = Some us /\ update_ok P us level.
Proof.
  intros HL Hs. revert Q x R. induction level as [|i IH]; intros Q x R HP Hx Hf.
  { exists []. split; [done|]. split; [done|]. lia. }
  cbn [descend]. destruct (walk_spec h cond w i P T Q x R fuel) as (P1 & u & P2 & Hu & ->);
    [apply HL; lia|done|done|unfold low; lia|rewrite HP, length_app in Hf; simpl in Hf; lia|].
  mstep. destruct Hu as (HP1 & Hu & HP2).
  destruct (IH ltac:(intros; apply HL; lia) P1 u P2 HP1) as (us & -> & Hlen & Hus);
    [unfold low in Hu; lia|done|]. mstep.
  eexists. split; [done|]. split; [rewrite length_app; simpl; lia|]. intros j Hj.
  destruct (decide (j = i)) as [-> | Hne].
  - exists P1, u, P2. split; [done|]. by rewrite lookup_app_r, Hlen, Nat.sub_diag by lia.
  - destruct (Hus j) as (P1' & u' & P2' & ? & ?); [lia|]. exists P1', u', P2'. split; [done|].
    by rewrite lookup_app_l by lia.
Qed.

(** * Skiplists: linking and unlinking a node
    
    The loops over the levels of [zslInsert] and [zslDeleteNode]: each turn changes one
    level of the list, from the links of one sequence of entries to those of another. *)

Abbreviation cells := (gmap (nat * nat) zskiplistLevel).

(** The cells of a level are the same. *)
Definition same_level (j : nat) (m m' : cells) : Prop := forall q, m' !! (q, j) = m !! (q, j).
Definition level_stable (Pr : nat -> cells -> Prop) : Prop :=
  forall j m m', same_level j m m' -> Pr j m -> Pr j m'.

(** A loop whose turns each change one level. *)
Lemma for_levels_spec (Pre Post : nat -> cells -> Prop) body nd n i m :
  level_stable Pre -> level_stable Post ->
  (forall j m, (i <= j < i + n)%nat -> Pre j m ->
     exists m', body j (Heap nd m) = Some (Heap nd m') /\ Post j m' /\
       forall j', j' <> j -> same_level j' m m') ->
  (forall j, (i <= j < i + n)%nat -> Pre j m) ->
  exists m', for_levels n i body (Heap nd m) = Some (Heap nd m') /\
    (forall j, (i <= j < i + n)%nat -> Post j m') /\
    forall j, ~ (i <= j < i + n)%nat -> same_level j m m'.
Proof.
  intros HPre HPost. revert i m. induction n as [|n IH]; intros i m Hb Hm.
  { exists m. split; [done|]. split; [lia|]. by intros j _ q. }
  destruct (Hb i m ltac:(lia) (Hm i ltac:(lia))) as (m1 & E1 & Hp1 & Hs1).
  destruct (IH (S i) m1) as (m2 & E2 & Hp2 & Hs2).
  { intros j m' Hj. apply Hb. lia. }
  { intros j Hj. apply (HPre j m); [apply Hs1; lia|apply Hm; lia]. }
  exists m2. cbn [for_levels]. rewrite E1. mstep. split; [done|]. split.
  - intros j Hj. destruct (decide (j = i)) as [-> | Hne]; [|apply Hp2; lia].
    apply (HPost i m1); [apply Hs2; lia|done].
  - intros j Hj q. rewrite Hs2 by lia. apply Hs1. lia.
Qed.

Lemma linked_stable N : level_stable (fun j m => linked m j N).
Proof. intros j m m' Hs. apply linked_ext. intros a _ _. apply Hs. Qed.

Lemma same_level_insert (j p i : nat) (l : zskiplistLevel) (m : cells) : j <> i -> same_level j m (<[(p, i) := l]> m).
Proof. intros Hj q. apply lookup_insert_ne. congruence. Qed.
Lemma same_level_trans (j : nat) (m1 m2 m3 : cells) :
  same_level j m1 m2 -> same_level j m2 m3 -> same_level j m1 m3.
Proof. intros H1 H2 q. by rewrite H2. Qed.
#[export] Hint Resolve same_level_insert : redis.

(** ** The turns *)

Section Turns.
Context (nd : gmap nat zskiplistNode) (P T : list entry) (us : list (nat * Z)) (x : entry).
Context (Hnd : NoDup (ap <$> P ++ x :: T)) (Hlen : zlen (P ++ x :: T) <= 2 ^ 32).

Definition updates (i : nat) : Prop :=
  exists P1 u P2, last_at i P P1 u P2 /\ us !! i = Some (ap u, zlen P1).

Lemma apart a : a ∈ P ++ T -> ap a <> ap x.
Proof.
  intros Ha E. revert Hnd. rewrite fmap_app, NoDup_app. simpl. rewrite NoDup_cons.
  intros (_ & Hd & Hn & _). apply elem_of_app in Ha as [Ha | Ha].
  - apply (Hd (ap a)); [by apply list_elem_of_fmap_2|]. rewrite E. apply list_elem_of_here.
  - apply Hn. rewrite <- E. by apply list_elem_of_fmap_2.
Qed.
Lemma apart_P u P1 P2 : P = P1 ++ u :: P2 -> ap u <> ap x.
Proof. intros HP. apply apart. rewrite HP, !elem_of_app, elem_of_cons. auto. Qed.
Lemma NoDup_without : NoDup (ap <$> P ++ T).
Proof.
  revert Hnd. rewrite !fmap_app. simpl. rewrite !NoDup_app. setoid_rewrite elem_of_cons.
  rewrite NoDup_cons. naive_solver.
Qed.

(** [x] enters a level it has. *)
Lemma link_turn i m :
  updates i -> linked m i (P ++ T) -> ~ low i x -> is_Some (m !! (ap x, i)) ->
  exists m', link_step (ap x) (zlen P - 1) us i (Heap nd m) = Some (Heap nd m') /\
    linked m' i (P ++ x :: T) /\ forall j, j <> i -> same_level j m m'.
Proof.
  intros (P1 & u & P2 & (HP & Hu & HP2) & Hus) HL Hx [lx Hlx]. unfold link_step. rewrite Hus. mstep.
  pose proof (apart_P u P1 P2 HP) as Hne.
  assert (P ++ T = P1 ++ u :: P2 ++ T) as HN by (rewrite HP; by simplify_list_eq).
  assert (P ++ x :: T = P1 ++ u :: P2 ++ x :: T) as HN' by (rewrite HP; by simplify_list_eq).
  pose proof HL as HL0. rewrite HN in HL. pose proof (linked_at m i P1 u (P2 ++ T) HL Hu) as Hlu.
  rewrite nxt_low in Hlu by done. unfold link_level, set_forward, set_span.
  repeat (cbn [levels nodes mbind option_bind];
    rewrite ?lookup_insert_eq, ?lookup_insert_ne by congruence; rewrite ?Hlu, ?Hlx).
  cbn [levels nodes mbind option_bind forward span].
  pose proof (span_bound i T) as HsT. rewrite HN' in Hlen.
  assert (u32 (zlen P - 1 - zlen P1) = zlen P2) as -> by (rewrite uN_small; rewrite HP; zlia).
  rewrite (uN_small 32 (zlen P2 + 1)), (uN_small 64) by zlia.
  replace (zlen P2 + span (nxt i T) - zlen P2) with (span (nxt i T)) by lia.
  eexists. split; [done|]. split.
  - rewrite HN'. assert (Level (Some (ap x)) (zlen P2 + 1) = nxt i (P2 ++ x :: T)) as ->.
    { rewrite nxt_low by done. simpl. by rewrite decide_False. }
    eapply linked_ext; [|apply (linked_change (<[(ap x, i) := nxt i T]> m) i P1 u (P2 ++ T) (P2 ++ x :: T))].
    + intros a _ _. destruct (decide (ap a = ap u)) as [-> | Hau];
        [by rewrite !lookup_insert_eq|rewrite !(lookup_insert_ne _ (ap u, i)) by congruence].
      destruct (decide (ap a = ap x)) as [-> | Hax]; [|by rewrite !lookup_insert_ne by congruence].
      rewrite !lookup_insert_eq. by destruct (nxt i T).
    + rewrite <- HN. revert HL0. apply linked_ext. intros a Ha%apart _.
      apply lookup_insert_ne. congruence.
    + done.
    + apply linked_low; [done|]. split; [intros _; apply lookup_insert_eq|].
      apply linked_suffix in HL0. revert HL0. apply linked_ext. intros a Ha _.
      apply lookup_insert_ne. intros [= E]. apply (apart a); [|done]. rewrite elem_of_app. auto.
    + by rewrite <- HN'.
  - intros j Hj q. by rewrite !lookup_insert_ne by congruence.
Qed.

(** [x] enters the list below a level it does not have. *)
Lemma untouched_turn i m :
  updates i -> linked m i (P ++ T) -> low i x ->
  exists m', untouched_step us i (Heap nd m) = Some (Heap nd m') /\
    linked m' i (P ++ x :: T) /\ forall j, j <> i -> same_level j m m'.
Proof.
  intros (P1 & u & P2 & (HP & Hu & HP2) & Hus) HL Hx. unfold untouched_step. rewrite Hus. mstep.
  assert (P ++ T = P1 ++ u :: P2 ++ T) as HN by (rewrite HP; by simplify_list_eq).
  assert (P ++ x :: T = P1 ++ u :: P2 ++ x :: T) as HN' by (rewrite HP; by simplify_list_eq).
  pose proof (linked_suffix _ _ _ _ HL) as HLT. rewrite HN in HL.
  pose proof (linked_at m i P1 u (P2 ++ T) HL Hu) as Hlu.
  rewrite nxt_low in Hlu by done. unfold set_span. cbn [levels nodes]. rewrite Hlu. mstep.
  cbn [forward span].
  pose proof (span_bound i T) as HsT. rewrite HN' in Hlen. rewrite uN_small by zlia.
  eexists. split; [done|]. split; [|intros; by apply same_level_insert].
  rewrite HN'. assert (Level (forward (nxt i T)) (zlen P2 + span (nxt i T) + 1) = nxt i (P2 ++ x :: T)) as ->.
  { rewrite nxt_low by done. simpl. rewrite decide_True by done. simpl. f_equal. lia. }
  eapply linked_change; [done|done| |by rewrite <- HN'].
  apply linked_low; [done|]. by split.
Qed.

(** [x] leaves a level; its own cell keeps what it held. *)
Lemma unlink_turn i m :
  updates i -> linked m i (P ++ x :: T) ->
  exists m', unlink_step (ap x) us i (Heap nd m) = Some (Heap nd m') /\
    (linked m' i (P ++ T) /\ (~ low i x -> m' !! (ap x, i) = Some (nxt i T))) /\
    forall j, j <> i -> same_level j m m'.
Proof.
  intros (P1 & u & P2 & (HP & Hu & HP2) & Hus) HL. unfold unlink_step. rewrite Hus. mstep.
  pose proof (apart_P u P1 P2 HP) as Hne. pose proof NoDup_without as Hnd'.
  assert (P ++ T = P1 ++ u :: P2 ++ T) as HN by (rewrite HP; by simplify_list_eq).
  assert (P ++ x :: T = P1 ++ u :: P2 ++ x :: T) as HN' by (rewrite HP; by simplify_list_eq).
  pose proof (linked_suffix _ _ _ _ HL) as [Hlx HLT]. rewrite HN' in HL, Hlen. rewrite HN in Hnd' |- *.
  pose proof (linked_at m i P1 u (P2 ++ x :: T) HL Hu) as Hlu. rewrite nxt_low in Hlu by done.
  pose proof (span_bound i T) as HsT. unfold unlink_level, set_span, set_forward.
  assert (forall m0, m0 = <[(ap u, i) := nxt i (P2 ++ T)]> m ->
    (linked m0 i (P1 ++ u :: P2 ++ T) /\ (~ low i x -> m0 !! (ap x, i) = Some (nxt i T))) /\
    forall j, j <> i -> same_level j m m0) as Hgoal.
  { intros m0 ->. split; [split|].
    - eapply linked_change; [done|done| |done]. by apply linked_low.
    - intros Hx. rewrite lookup_insert_ne by congruence. auto.
    - intros. by apply same_level_insert. }
  rewrite nxt_low in Hgoal by done. cbn [levels nodes]. rewrite Hlu. mstep. simpl in Hlu |- *.
  destruct (decide (low i x)) as [Hx|Hx]; simpl in Hlu |- *.
  - rewrite decide_False. 2:{ intros E. destruct (nxt_cases i T) as [[_ ET] | (T1 & b & T2 & ET1 & _ & _ & ET)];
      rewrite ET in E; simpl in E; [done|]. injection E as E. apply (apart b); [|done]. rewrite ET1, !elem_of_app, elem_of_cons. auto. }
    eexists. split; [done|]. apply Hgoal. do 2 f_equal. simpl. rewrite uN_small by zlia. lia.
  - rewrite decide_True by done. rewrite (Hlx Hx). mstep. cbn [levels nodes].
    rewrite (lookup_insert_ne _ (ap u, i) (ap x, i)) by congruence. rewrite (Hlx Hx). mstep. rewrite lookup_insert_eq. mstep.
    eexists. split; [done|]. apply Hgoal. rewrite insert_insert_eq. do 2 f_equal. simpl.
    destruct (decide (1 <= span (nxt i T))) as [H1 | H1].
    + rewrite (uN_small 64 (span (nxt i T) - 1)) by zlia. rewrite uN_small by zlia. lia.
    + replace (span (nxt i T)) with 0 by lia. change (u64 (0 - 1)) with (2 ^ 64 - 1). unfold uN.
      replace (zlen P2 + 1 + (2 ^ 64 - 1)) with (zlen P2 + 1 * 2 ^ 64) by lia.
      rewrite Z_mod_plus_full, Z.mod_small by zlia. lia.
Qed.
End Turns.

(** The header takes part in a level nobody had. *)
Lemma raise_turn nd i m hd E s :
  m !! (ap hd, i) = Some (Level None s) -> Forall (low i) E ->
  exists m', set_span (Heap nd m) (ap hd) i (zlen E) = Some (Heap nd m') /\
    linked m' i (hd :: E) /\ forall j, j <> i -> same_level j m m'.
Proof.
  intros Hm HE. unfold set_span. simpl. rewrite Hm. mstep. eexists. split; [done|]. split.
  - split; [|rewrite <- (app_nil_r E); by apply linked_low]. intros _. rewrite lookup_insert_eq. simpl.
    rewrite <- (app_nil_r E) at 2. rewrite nxt_low by done. simpl. do 2 f_equal. lia.
  - intros. by apply same_level_insert.
Qed.
