(* ===== verification/ZslSpec.v ===== *)
(** * Skiplists: representation, insertion, deletion, update

    [zrep h zsl E]: in the heap [h] the list [zsl] holds the entries [E], in increasing
    order of score and element, with every link, span, back pointer, the tail, the length
    and the level right. *)

From Stdlib Require Import ZArith Lia SpecFloat.
From stdpp Require Import base numbers option fin_maps gmap list sorting.
From S2P Require Import Prelude Memory Sds SdsSpec Dict Zskiplist ZslFacts.

Local Open Scope Z_scope.
Local Open Scope redis_scope.

Abbreviation cells := (gmap (nat * nat) zskiplistLevel).

(** ** Back pointers *)

Fixpoint backs (nd : gmap nat zskiplistNode) (prev : option nat) (E : list entry) : Prop :=
  match E with
  | [] => True
  | a :: E => nd !! ap a = Some (Node (Some (aele a)) (ascore a) prev) /\ backs nd (Some (ap a)) E
  end.
Fixpoint last_ptr (prev : option nat) (E : list entry) : option nat :=
  match E with [] => prev | a :: E => last_ptr (Some (ap a)) E end.

Lemma last_ptr_snoc prev A a : last_ptr prev (A ++ [a]) = Some (ap a).
Proof. revert prev. induction A as [|b A IH]; intros prev; simpl; auto. Qed.
Lemma last_ptr_app prev A B : last_ptr prev (A ++ B) = last_ptr (last_ptr prev A) B.
Proof. revert prev. induction A as [|b A IH]; intros prev; simpl; auto. Qed.
Lemma last_ptr_in prev A : A = [] \/ exists a, a ∈ A /\ last_ptr prev A = Some (ap a).
Proof.
  destruct A as [|a A _] using rev_ind; [by left|]. right. exists a.
  rewrite last_ptr_snoc, elem_of_app, list_elem_of_singleton. auto.
Qed.
Lemma backs_app nd prev A B : backs nd prev (A ++ B) <-> backs nd prev A /\ backs nd (last_ptr prev A) B.
Proof. revert prev. induction A as [|a A IH]; intros prev; simpl; [tauto|]. rewrite IH. tauto. Qed.
Lemma backs_ext nd nd' prev E :
  (forall a, a ∈ E -> nd' !! ap a = nd !! ap a) -> backs nd prev E -> backs nd' prev E.
Proof.
  revert prev. induction E as [|a E IH]; intros prev Heq; [done|]. simpl. intros [Ha HE]. split.
  - rewrite Heq by apply list_elem_of_here. done.
  - apply IH; [|done]. intros b Hb. apply Heq. by apply list_elem_of_further.
Qed.
Lemma backs_node nd prev E a :
  backs nd prev E -> a ∈ E -> exists b, nd !! ap a = Some (Node (Some (aele a)) (ascore a) b).
Proof.
  intros HE [A [B ->]]%list_elem_of_split. apply backs_app in HE as [_ [Ha _]]. eauto.
Qed.

(** ** Representation *)

Definition hd (zsl : zskiplist) : entry :=
  Entry (header zsl) ZSKIPLIST_MAXLEVEL [] (S754_zero false).

Record zrep (h : heap) (zsl : zskiplist) (E : list entry) : Prop := {
  zr_header : nodes h !! header zsl = Some (Node None (S754_zero false) None);
  zr_nodup : NoDup (ap <$> hd zsl :: E);
  zr_linked : forall i, (i < zlevel zsl)%nat -> linked (levels h) i (hd zsl :: E);
  zr_above : forall i, (zlevel zsl <= i < ZSKIPLIST_MAXLEVEL)%nat ->
    exists s, levels h !! (header zsl, i) = Some (Level None s);
  zr_backs : backs (nodes h) None E;
  zr_tail : tail zsl = last_ptr None E;
  zr_length : zlength zsl = zlen E;
  zr_bound : zlen E < 2 ^ 32;
  zr_level : (1 <= zlevel zsl <= ZSKIPLIST_MAXLEVEL)%nat;
  zr_heights : Forall (fun a => (1 <= ah a <= zlevel zsl)%nat) E;
  zr_top : zlevel zsl = 1%nat \/ Exists (fun a => ah a = zlevel zsl) E;
  zr_sorted : StronglySorted entry_lt E;
  zr_numbers : Forall (fun a => isnan (ascore a) = false) E;
  zr_names : NoDup (aele <$> E) }.

(** ** Searches *)

Lemma sorted_partition (f : entry -> bool) E :
  StronglySorted entry_lt E -> (forall a b, entry_lt a b -> f b = true -> f a = true) ->
  exists A B, E = A ++ B /\ Forall (fun a => f a = true) A /\ Forall (fun a => f a = false) B.
Proof.
  intros HS Hf. induction HS as [|a E HS IH Ha]; [by exists [], []|].
  destruct IH as (A & B & -> & HA & HB). destruct (f a) eqn:Efa.
  - exists (a :: A), B. split_and!; [done|by constructor|done].
  - exists [], (a :: A ++ B). split_and!; [done|constructor|]. constructor; [done|].
    apply Forall_app. split; [|done]. rewrite Forall_forall in Ha, HA |- *. intros b Hb.
    rewrite (Hf a b) in Efa; [done|apply Ha; rewrite elem_of_app; auto|by apply HA].
Qed.

Section Rep.
Context {h : heap} {zsl : zskiplist} {E : list entry} (HR : zrep h zsl E).

Lemma rep_node a : a ∈ E -> exists b, nodes h !! ap a = Some (Node (Some (aele a)) (ascore a) b).
Proof. apply backs_node with None, HR. Qed.

Lemma search_spec cond w P T :
  hd zsl :: E = P ++ T -> P <> [] -> steers h cond w (P ++ T) (length P) ->
  exists us, search h cond w zsl = Some us /\ update_ok P us (zlevel zsl).
Proof.
  intros HN HP Hs. destruct P as [|x R]; [done|]. injection HN as Hx HE. unfold search.
  destruct (descend_spec h cond w (x :: R) T (walk_fuel zsl) (zlevel zsl) [] x R) as (us & Hd & Hus).
  - intros i Hi. simpl. rewrite <- Hx, <- HE. by apply HR.
  - done.
  - done.
  - rewrite <- Hx. simpl. apply HR.
  - unfold walk_fuel. rewrite (zr_length _ _ _ HR), HE, zlen_app. unfold zlen. simpl. lia.
  - exists us. rewrite <- Hx in Hd. by split.
Qed.

(** A search by a condition on the element and the score of a node. *)
Lemma steers_key cond w A B :
  E = A ++ B -> 32 <= w ->
  (forall a b t, a ∈ A -> cond (Node (Some (aele a)) (ascore a) b) t = Some true) ->
  (forall a b t, a ∈ B -> cond (Node (Some (aele a)) (ascore a) b) t = Some false) ->
  steers h cond w ((hd zsl :: A) ++ B) (length (hd zsl :: A)).
Proof.
  intros HE Hw HA HB. split_and!; [|lia|].
  - simpl. rewrite <- HE, zlen_cons. pose proof (zr_bound _ _ _ HR).
    assert (2 ^ 32 <= 2 ^ w) by (apply Z.pow_le_mono_r; lia). lia.
  - intros [|j] a Ha Hj; [lia|]. simpl in Ha.
    destruct (rep_node a) as [b Hb]; [rewrite HE; by eapply list_elem_of_lookup_2|].
    eexists. split; [done|]. destruct (decide (j < length A)%nat) as [Hlt|Hge].
    + rewrite bool_decide_true by (simpl; lia). apply HA. rewrite lookup_app_l in Ha by done.
      by eapply list_elem_of_lookup_2.
    + rewrite bool_decide_false by (simpl; lia). apply HB. rewrite lookup_app_r in Ha by lia.
      by eapply list_elem_of_lookup_2.
Qed.

Lemma search_key cond w A B :
  E = A ++ B -> 32 <= w ->
  (forall a b t, a ∈ A -> cond (Node (Some (aele a)) (ascore a) b) t = Some true) ->
  (forall a b t, a ∈ B -> cond (Node (Some (aele a)) (ascore a) b) t = Some false) ->
  exists us, search h cond w zsl = Some us /\ update_ok (hd zsl :: A) us (zlevel zsl).
Proof.
  intros HE Hw HA HB. apply (search_spec cond w (hd zsl :: A) B); [by rewrite HE|done|].
  by apply steers_key.
Qed.

(** Where the search stops. *)
Lemma stop_spec A B us :
  E = A ++ B -> update_ok (hd zsl :: A) us (zlevel zsl) ->
  exists p, last_ptr (Some (header zsl)) A = Some p /\ stop zsl us = (p, zlen A) /\
    us !! 0%nat = Some (p, zlen A) /\ levels h !! (p, 0%nat) = Some (nxt 0 B).
Proof.
  intros HE [Hlen Hus]. pose proof (zr_level _ _ _ HR).
  destruct (Hus 0%nat ltac:(lia)) as (P1 & u & P2 & (HP & Hu & HP2) & Hu0).
  assert (P2 = []) as ->.
  { destruct P2 as [|c P2 _] using rev_ind; [done|]. exfalso.
    rewrite Forall_app, Forall_singleton in HP2. destruct HP2 as [_ Hc]. unfold low in Hc.
    assert (c ∈ A) as Hin. { destruct P1 as [|y P1]; injection HP as _ ->; [|rewrite elem_of_app, elem_of_cons];
      rewrite elem_of_app, list_elem_of_singleton; auto. }
    pose proof (zr_heights _ _ _ HR) as Hh. rewrite HE, Forall_app, Forall_forall in Hh.
    destruct Hh as [Hh _]. apply Hh in Hin. lia. }
  exists (ap u).
  assert (last_ptr (Some (header zsl)) A = Some (ap u)) as Hl.
  { change (last_ptr None (hd zsl :: A) = Some (ap u)). by rewrite HP, last_ptr_snoc. }
  assert (zlen P1 = zlen A) as Hz by (apply (f_equal zlen) in HP; rewrite zlen_cons, zlen_app, zlen_cons in HP; change (zlen (@nil entry)) with 0 in HP; lia).
  rewrite Hz in Hu0. split_and!; [done| |done|].
  - destruct us as [|u0 us]; [done|]. by injection Hu0 as ->.
  - apply (linked_at _ 0 P1 u B); [|done]. replace (P1 ++ u :: B) with (hd zsl :: E).
    + apply HR. lia.
    + rewrite HE. change (hd zsl :: A ++ B) with ((hd zsl :: A) ++ B). rewrite HP. by simplify_list_eq.
Qed.
End Rep.

(** ** The place of an element *)

Lemma before_spec s e a b t :
  isnan s = false -> isnan (ascore a) = false ->
  before s e (Node (Some (aele a)) (ascore a) b) t = Some (bool_decide (lex (akey a) (skey s e) = Lt)).
Proof.
  intros Hs Ha. unfold before, akey. simpl. rewrite lex_skey.
  pose proof (SFltb_key (ascore a) s Ha Hs) as Hlt. pose proof (SFeqb_key (ascore a) s Ha Hs) as Heq.
  destruct (SFltb (ascore a) s).
  { rewrite (proj1 Hlt eq_refl). by rewrite bool_decide_true. }
  destruct (SFeqb (ascore a) s).
  { rewrite (proj1 Heq eq_refl), lex_refl. mstep. f_equal. apply sdscmp_sign. }
  destruct (lex (fkey (ascore a)) (fkey s)) eqn:El; [|exfalso; by destruct Hlt as [_ Hlt]; discriminate Hlt|done].
  apply lex_eq in El. apply Heq in El. done.
Qed.

Section Place.
Context {h : heap} {zsl : zskiplist} {E : list entry} (HR : zrep h zsl E).
Context (s : double) (e : bytes) (Hs : isnan s = false).

Lemma rep_number a : a ∈ E -> isnan (ascore a) = false.
Proof. pose proof (zr_numbers _ _ _ HR) as Hn. rewrite Forall_forall in Hn. auto. Qed.

Lemma place : exists A B, E = A ++ B /\
  Forall (fun a => lex (akey a) (skey s e) = Lt) A /\ Forall (fun a => lex (akey a) (skey s e) <> Lt) B.
Proof.
  destruct (sorted_partition (fun a => bool_decide (lex (akey a) (skey s e) = Lt)) E)
    as (A & B & HE & HA & HB).
  - apply HR.
  - intros a b Hab Hb. rewrite bool_decide_eq_true in Hb |- *. by eapply lex_trans.
  - exists A, B. split; [done|]. split; [eapply Forall_impl; [exact HA|]|eapply Forall_impl; [exact HB|]]; intros a.
    + apply bool_decide_eq_true.
    + apply bool_decide_eq_false.
Qed.

Lemma search_place w A B :
  E = A ++ B -> 32 <= w ->
  Forall (fun a => lex (akey a) (skey s e) = Lt) A -> Forall (fun a => lex (akey a) (skey s e) <> Lt) B ->
  exists us, search h (before s e) w zsl = Some us /\ update_ok (hd zsl :: A) us (zlevel zsl).
Proof.
  intros HE Hw HA HB. rewrite Forall_forall in HA, HB. apply (search_key HR _ w A B); try done.
  - intros a b t Ha. rewrite before_spec; [|done|apply rep_number; rewrite HE, elem_of_app; auto].
    by rewrite bool_decide_true by auto.
  - intros a b t Ha. rewrite before_spec; [|done|apply rep_number; rewrite HE, elem_of_app; auto].
    by rewrite bool_decide_false by auto.
Qed.
End Place.

(** ** Insertion *)

Lemma random_level_bound rs level rs' : zslRandomLevel rs = Some (level, rs') -> (1 <= level <= ZSKIPLIST_MAXLEVEL)%nat.
Proof.
  assert (forall l r, 1 <= l -> random_level_loop rs l = Some r -> 1 <= r.1) as Hl.
  { induction rs as [|x rs IH]; intros l r Hl; [done|]. simpl. destruct (coin x).
    - destruct (l =? INT32_MAX); [done|]. apply IH. lia.
    - intros [= <-]. done. }
  unfold zslRandomLevel. destruct (random_level_loop rs 1) as [[l r]|] eqn:Er; [|done]. mstep.
  specialize (Hl 1 (l, r) ltac:(lia) Er). simpl in Hl. intros [= <- _]. unfold ZSKIPLIST_MAXLEVEL.
  destruct (l <? Z.of_nat 32) eqn:E32; boolsimp; lia.
Qed.

Lemma nxt_0 h zsl E A B :
  zrep h zsl E -> E = A ++ B -> forward (nxt 0 B) = ap <$> head B.
Proof.
  intros HR HE. destruct B as [|b B]; [done|]. simpl. rewrite decide_False; [done|]. unfold low.
  pose proof (zr_heights _ _ _ HR) as Hh. rewrite HE, Forall_app, Forall_cons in Hh. lia.
Qed.

Lemma fmap_ap_ne (a : entry) p (A : list entry) : p ∉ ap <$> A -> a ∈ A -> ap a <> p.
Proof. intros Hp Ha <-. by apply Hp, list_elem_of_fmap_2. Qed.

(** The back pointers after an insertion between [A] and [B]. *)
Lemma backs_insert nd A B x :
  backs nd None (A ++ B) -> NoDup (ap <$> A ++ x :: B) ->
  let nd1 := <[ap x := Node (Some (aele x)) (ascore x) (last_ptr None A)]> nd in
  let nd' := match B with
             | [] => nd1
             | b :: _ => <[ap b := Node (Some (aele b)) (ascore b) (Some (ap x))]> nd1
             end in
  backs nd' None (A ++ x :: B) /\ forall q, q <> ap x -> q ∉ ap <$> B -> nd' !! q = nd !! q.
Proof.
  intros [HA HB]%backs_app Hnd nd1 nd'. rewrite fmap_app, NoDup_app in Hnd. simpl in Hnd.
  rewrite NoDup_cons in Hnd. destruct Hnd as (HndA & HAx & Hx & HndB).
  assert (forall q, q <> ap x -> q ∉ ap <$> B -> nd' !! q = nd !! q) as Hq.
  { intros q Hqx HqB. subst nd' nd1. destruct B as [|b B]; [by rewrite lookup_insert_ne|].
    rewrite fmap_cons, not_elem_of_cons in HqB. by rewrite !lookup_insert_ne by naive_solver. }
  split; [|done]. apply backs_app. split.
  - revert HA. apply backs_ext. intros a Ha. apply Hq.
    + intros E. apply (HAx (ap a)); [by apply list_elem_of_fmap_2|]. rewrite E. apply list_elem_of_here.
    + intros E. apply (HAx (ap a)); [by apply list_elem_of_fmap_2|]. by apply list_elem_of_further.
  - simpl. subst nd' nd1. destruct B as [|b B]; [by rewrite lookup_insert_eq|].
    rewrite fmap_cons, not_elem_of_cons in Hx. destruct Hx as [Hxb HxB].
    apply NoDup_cons in HndB as [HbB HndB]. split; [by rewrite lookup_insert_ne, lookup_insert_eq by congruence|].
    split; [by rewrite lookup_insert_eq|]. destruct HB as [_ HB]. revert HB. apply backs_ext.
    intros a Ha. rewrite !lookup_insert_ne; [done| |]; apply not_eq_sym; by eapply fmap_ap_ne.
Qed.

Lemma set_backward_at nd m p n b :
  nd !! p = Some n -> set_backward (Heap nd m) p b = Some (Heap (<[p := Node (ele n) (score n) b]> nd) m).
Proof. intros Hp. unfold set_backward. simpl. by rewrite Hp. Qed.

(** The last step of an insertion: the back pointer of the next node, or the tail. *)
Lemma next_back nd m A B x tl :
  (forall b, b ∈ B -> exists p, nd !! ap b = Some (Node (Some (aele b)) (ascore b) p)) ->
  tl = last_ptr None (A ++ B) ->
  match ap <$> head B with
  | Some f => let! h := set_backward (Heap nd m) f (Some (ap x)) in Some (h, tl)
  | None => Some (Heap nd m, Some (ap x))
  end = Some (Heap match B with
                   | [] => nd
                   | b :: _ => <[ap b := Node (Some (aele b)) (ascore b) (Some (ap x))]> nd
                   end m, last_ptr None (A ++ x :: B)).
Proof.
  intros HB ->. rewrite !last_ptr_app. destruct B as [|b B]; [done|]. simpl.
  destruct (HB b) as [p Hp]; [apply list_elem_of_here|]. by rewrite (set_backward_at _ _ _ _ _ Hp).
Qed.

Lemma zsorted_insert A B x :
  StronglySorted entry_lt (A ++ B) -> Forall (fun a => entry_lt a x) A -> Forall (entry_lt x) B ->
  StronglySorted entry_lt (A ++ x :: B).
Proof.
  induction A as [|a A IH]; simpl; intros HS HA HB; [by constructor|].
  apply StronglySorted_inv in HS as [HS Ha]. apply Forall_cons in HA as [Hax HA]. constructor; [auto|].
  rewrite Forall_app in Ha |- *. rewrite Forall_cons. naive_solver.
Qed.

Section Alloc.
Context `{ZAllocOk}.

Lemma alloc_levels_in x n m j : (j < n)%nat -> alloc_levels x n m !! (x, j) = Some junk_level.
Proof.
  induction n as [|n IH]; [lia|]. intros Hj. simpl. destruct (decide (j = n)) as [-> | Hne].
  - apply lookup_insert_eq.
  - rewrite lookup_insert_ne by congruence. apply IH. lia.
Qed.
Lemma alloc_levels_out x n m q j : q <> x -> alloc_levels x n m !! (q, j) = m !! (q, j).
Proof.
  intros Hq. induction n as [|n IH]; [done|]. simpl. by rewrite lookup_insert_ne by congruence.
Qed.

(** The levels between the height of the list and that of the new node. *)
Lemma raise_spec h zsl E level :
  zrep h zsl E -> (level <= ZSKIPLIST_MAXLEVEL)%nat ->
  exists m, for_levels (level - zlevel zsl) (zlevel zsl)
      (fun i h => set_span h (header zsl) i (zlength zsl)) h = Some (Heap (nodes h) m) /\
    (forall i, (i < Nat.max level (zlevel zsl))%nat -> linked m i (hd zsl :: E)) /\
    (forall i, (Nat.max level (zlevel zsl) <= i)%nat -> same_level i (levels h) m).
Proof.
  intros HR Hlv. destruct (for_levels_spec (fun i m => exists s, m !! (header zsl, i) = Some (Level None s))
    (fun i m => linked m i (hd zsl :: E)) (fun i h => set_span h (header zsl) i (zlength zsl))
    (nodes h) (level - zlevel zsl) (zlevel zsl) (levels h)) as (m & Hm & Hin & Hout).
  - intros j m m' Hsame [s Hs]. exists s. by rewrite Hsame.
  - apply linked_stable.
  - intros j m Hj [s Hs]. rewrite (zr_length _ _ _ HR). eapply (raise_turn _ _ _ (hd zsl)); [done|].
    eapply Forall_impl; [apply HR|]. simpl. unfold low. lia.
  - intros j Hj. apply HR. lia.
  - exists m. destruct h as [nd lv]. split; [done|]. split.
    + intros i Hi. destruct (decide (i < zlevel zsl)%nat) as [Hlt|Hge]; [|apply Hin; lia].
      apply (linked_stable _ i lv); [apply Hout; lia|]. by apply HR.
    + intros i Hi. apply Hout. lia.
Qed.

Lemma update_raised P us zsl level E A B :
  zrep P zsl E -> E = A ++ B -> update_ok (hd zsl :: A) us (zlevel zsl) -> (level <= ZSKIPLIST_MAXLEVEL)%nat ->
  forall i, (i < Nat.max level (zlevel zsl))%nat ->
    updates (hd zsl :: A) (us ++ replicate (level - zlevel zsl) (header zsl, 0)) i.
Proof.
  intros HR HE [Hlen Hus] Hlv i Hi. destruct (decide (i < zlevel zsl)%nat) as [Hlt|Hge].
  - destruct (Hus i Hlt) as (P1 & u & P2 & Hu & Hi0). exists P1, u, P2. split; [done|].
    by rewrite lookup_app_l by lia.
  - exists [], (hd zsl), A. split; [split_and!; [done|unfold low; simpl; lia|]|].
    + pose proof (zr_heights _ _ _ HR) as Hh. rewrite HE, Forall_app in Hh. destruct Hh as [Hh _].
      eapply Forall_impl; [exact Hh|]. simpl. unfold low. lia.
    + rewrite lookup_app_r, Hlen by lia. rewrite lookup_replicate_2 by lia. done.
Qed.

(** The new node enters every level. *)
Lemma relink_spec nd m P T x us level n :
  NoDup (ap <$> P ++ x :: T) -> zlen (P ++ x :: T) <= 2 ^ 32 -> ah x = level ->
  (forall i, (i < level + n)%nat -> linked m i (P ++ T)) ->
  (forall i, (i < level + n)%nat -> updates P us i) ->
  (forall i, (i < level)%nat -> is_Some (m !! (ap x, i))) ->
  exists m1 m2, for_levels level 0 (link_step (ap x) (zlen P - 1) us) (Heap nd m) = Some (Heap nd m1) /\
    for_levels n level (untouched_step us) (Heap nd m1) = Some (Heap nd m2) /\
    (forall i, (i < level + n)%nat -> linked m2 i (P ++ x :: T)) /\
    (forall i, (level + n <= i)%nat -> same_level i m m2).
Proof.
  intros Hnd Hlen Hx HL Hus Hal.
  destruct (for_levels_spec (fun i m => linked m i (P ++ T) /\ is_Some (m !! (ap x, i)))
    (fun i m => linked m i (P ++ x :: T)) (link_step (ap x) (zlen P - 1) us) nd level 0 m) as (m1 & Hm1 & Hin1 & Hout1).
  - intros j m1 m2 Hsame [H1 H2]. split; [by apply (linked_stable _ j m1)|by rewrite Hsame].
  - apply linked_stable.
  - intros j m1 Hj [H1 H2]. apply (link_turn nd P T us x); try done; [apply Hus; lia|unfold low; lia].
  - intros j Hj. split; [apply HL; lia|apply Hal; lia].
  - destruct (for_levels_spec (fun i m => linked m i (P ++ T)) (fun i m => linked m i (P ++ x :: T))
      (untouched_step us) nd n level m1) as (m2 & Hm2 & Hin2 & Hout2).
    + apply linked_stable.
    + apply linked_stable.
    + intros j m2 Hj H1. apply (untouched_turn nd P T us x); try done; [apply Hus; lia|unfold low; lia].
    + intros j Hj. apply (linked_stable _ j m); [apply Hout1; lia|apply HL; lia].
    + exists m1, m2. split_and!; [done|done| |].
      * intros i Hi. destruct (decide (i < level)%nat) as [Hlt|Hge]; [|apply Hin2; lia].
        apply (linked_stable _ i m1); [apply Hout2; lia|apply Hin1; lia].
      * intros i Hi. eapply same_level_trans; [apply Hout1; lia|apply Hout2; lia].
Qed.

(** The levels after the loops of an insertion. *)
Lemma insert_links h zsl E A B us level s e :
  zrep h zsl E -> E = A ++ B -> zlen E + 1 < 2 ^ 32 -> (1 <= level <= ZSKIPLIST_MAXLEVEL)%nat ->
  update_ok (hd zsl :: A) us (zlevel zsl) ->
  exists m x m1 m2, x = Entry (zmalloc_node (Heap (nodes h) m)) level e s /\
    let us' := us ++ replicate (level - zlevel zsl) (header zsl, 0) in
    let nd := <[ap x := Node (Some e) s junk_backward]> (nodes h) in
    for_levels (level - zlevel zsl) (zlevel zsl)
      (fun i h => set_span h (header zsl) i (zlength zsl)) h = Some (Heap (nodes h) m) /\
    for_levels level 0 (link_step (ap x) (zlen A) us') (Heap nd (alloc_levels (ap x) level m)) =
      Some (Heap nd m1) /\
    for_levels (Nat.max level (zlevel zsl) - level) level (untouched_step us') (Heap nd m1) =
      Some (Heap nd m2) /\
    nodes h !! ap x = None /\ NoDup (ap <$> (hd zsl :: A) ++ x :: B) /\
    (forall i, (i < Nat.max level (zlevel zsl))%nat -> linked m2 i ((hd zsl :: A) ++ x :: B)) /\
    (forall i, (Nat.max level (zlevel zsl) <= i)%nat ->
       m2 !! (header zsl, i) = levels h !! (header zsl, i)).
Proof.
  intros HR HE Hbound Hlv Hus.
  destruct (raise_spec h zsl E level HR ltac:(lia)) as (m & Hm & Hml & Hma).
  pose (x := Entry (zmalloc_node (Heap (nodes h) m)) level e s).
  assert (nodes h !! ap x = None) as Hfresh by apply (zmalloc_nodes (Heap (nodes h) m)).
  assert (ap x ∉ ap <$> hd zsl :: E) as Hxn.
  { intros [a [Ea Ha]]%list_elem_of_fmap. apply elem_of_cons in Ha as [-> | Ha].
    - change (ap x = header zsl) in Ea. rewrite Ea, (zr_header _ _ _ HR) in Hfresh. done.
    - destruct (rep_node HR a Ha) as [b Hb]. rewrite Ea, Hb in Hfresh. done. }
  assert (NoDup (ap <$> (hd zsl :: A) ++ x :: B)) as Hnd.
  { pose proof (zr_nodup _ _ _ HR) as Hnd. rewrite HE in Hnd, Hxn.
    change (hd zsl :: A ++ B) with ((hd zsl :: A) ++ B) in Hnd, Hxn. revert Hnd Hxn. rewrite !fmap_app.
    rewrite (fmap_cons ap x B), elem_of_app, !NoDup_app, NoDup_cons. setoid_rewrite elem_of_cons. naive_solver. }
  destruct (relink_spec (<[ap x := Node (Some e) s junk_backward]> (nodes h)) (alloc_levels (ap x) level m)
    (hd zsl :: A) B x (us ++ replicate (level - zlevel zsl) (header zsl, 0)) level
    (Nat.max level (zlevel zsl) - level)) as (m1 & m2 & Hm1 & Hm2 & Hin & Hout);
    [done|rewrite HE in Hbound; zlia|done| | | |].
  { intros i Hi. change ((hd zsl :: A) ++ B) with (hd zsl :: A ++ B). rewrite <- HE.
    apply (linked_ext m); [|apply Hml; lia]. intros a Ha _. apply alloc_levels_out.
    by eapply fmap_ap_ne. }
  { intros i Hi. eapply update_raised; [done|done|done|lia|lia]. }
  { intros i Hi. rewrite alloc_levels_in by done. done. }
  exists m, x, m1, m2. rewrite zlen_cons in Hm1. replace (1 + zlen A - 1) with (zlen A) in Hm1 by lia.
  cbv zeta. split_and!; try done.
  - intros i Hi. apply Hin. lia.
  - intros i Hi. rewrite (Hout i) by lia. rewrite alloc_levels_out; [apply Hma; lia|].
    intros E0. apply Hxn. rewrite <- E0. apply list_elem_of_here.
Qed.

Lemma insert_zrep h zsl E A B x m nd :
  zrep h zsl E -> E = A ++ B -> zlen E + 1 < 2 ^ 32 -> (1 <= ah x <= ZSKIPLIST_MAXLEVEL)%nat ->
  isnan (ascore x) = false -> aele x ∉ aele <$> E ->
  Forall (fun a => lex (akey a) (akey x) = Lt) A -> Forall (fun a => lex (akey a) (akey x) <> Lt) B ->
  NoDup (ap <$> (hd zsl :: A) ++ x :: B) ->
  (forall i, (i < Nat.max (ah x) (zlevel zsl))%nat -> linked m i ((hd zsl :: A) ++ x :: B)) ->
  (forall i, (Nat.max (ah x) (zlevel zsl) <= i)%nat -> m !! (header zsl, i) = levels h !! (header zsl, i)) ->
  nd !! header zsl = nodes h !! header zsl -> backs nd None (A ++ x :: B) ->
  zrep (Heap nd m) (Zskiplist (header zsl) (last_ptr None (A ++ x :: B)) (u64 (zlength zsl + 1))
    (Nat.max (ah x) (zlevel zsl))) (A ++ x :: B).
Proof.
  intros HR HE Hbound Hlv Hnum Hname HA HB Hnd HL Habove Hhdr Hbacks.
  pose proof (zr_level _ _ _ HR) as Hlevel.
  constructor; simpl; try done.
  - rewrite Hhdr. apply HR.
  - intros i Hi. rewrite Habove by lia. apply HR. lia.
  - rewrite (zr_length _ _ _ HR), HE, uN_small; rewrite HE in Hbound; zlia.
  - rewrite HE in Hbound. zlia.
  - lia.
  - pose proof (zr_heights _ _ _ HR) as Hh. rewrite HE, Forall_app in Hh. rewrite Forall_app, Forall_cons.
    destruct Hh as [Hh1 Hh2]. split_and!; [eapply Forall_impl; [exact Hh1|]; simpl; lia|lia|lia|].
    eapply Forall_impl; [exact Hh2|]. simpl. lia.
  - rewrite Exists_app, Exists_cons. destruct (decide (zlevel zsl <= ah x)%nat); [right; right; left; lia|].
    replace (Nat.max (ah x) (zlevel zsl)) with (zlevel zsl) by lia.
    pose proof (zr_top _ _ _ HR) as Ht. rewrite HE, Exists_app in Ht. tauto.
  - apply zsorted_insert; [rewrite <- HE; apply HR|done|]. pose proof (zr_sorted _ _ _ HR) as HS.
    rewrite Forall_forall in HB |- *. intros b Hb. unfold entry_lt. rewrite <- lex_gt.
    destruct (lex (akey b) (akey x)) eqn:El; [|by destruct (HB b Hb)|done]. exfalso. apply Hname.
    apply lex_eq in El. unfold akey, skey in El. apply app_inj_1 in El as [_ <-]; [|by rewrite !length_fkey].
    apply list_elem_of_fmap_2. rewrite HE, elem_of_app. auto.
  - pose proof (zr_numbers _ _ _ HR) as Hn. rewrite HE, Forall_app in Hn. rewrite Forall_app, Forall_cons. tauto.
  - pose proof (zr_names _ _ _ HR) as Hn. rewrite HE in Hn, Hname. rewrite <- Permutation_middle. simpl. by constructor.
Qed.

(** The new node at its place, whatever the height drawn. *)
Lemma zsl_insert_spec rs h zsl E s e level rs' :
  zrep h zsl E -> isnan s = false -> e ∉ aele <$> E -> zlen E + 1 < 2 ^ 32 ->
  zslRandomLevel rs = Some (level, rs') ->
  exists A B x h' zsl', E = A ++ B /\ zslInsert rs h zsl s e = Some (ap x, rs', h', zsl') /\
    zrep h' zsl' (A ++ x :: B) /\ header zsl' = header zsl /\ aele x = e /\ ascore x = s /\
    nodes h !! ap x = None /\
    forall q, q <> ap x -> q ∉ ap <$> E -> nodes h' !! q = nodes h !! q.
Proof.
  intros HR Hs He Hbound Hrs. pose proof (random_level_bound _ _ _ Hrs) as Hlv.
  destruct (place HR s e) as (A & B & HE & HA & HB).
  destruct (search_place HR s e Hs 32 A B HE) as (us & Hsearch & Hus); [lia|done|done|].
  destruct (stop_spec HR A B us HE Hus) as (u0 & Hu0 & _ & Hus0 & _).
  destruct (insert_links h zsl E A B us level s e HR HE Hbound Hlv Hus)
    as (m & x & m1 & m2 & Hx & Hm & Hm1 & Hm2 & Hfresh & Hnd & Hin & Hout).
  unfold zslInsert. rewrite Hs, Hsearch. mstep. rewrite Hrs. mstep. rewrite Hm. mstep.
  unfold zslCreateNode. cbn [nodes levels].
  replace (zmalloc_node (Heap (nodes h) m)) with (ap x) by by rewrite Hx.
  rewrite lookup_app_l, Hus0 by (apply lookup_lt_Some in Hus0; lia). mstep. rewrite Hm1. mstep. rewrite Hm2. mstep.
  assert (aele x = e /\ ascore x = s /\ ah x = level) as (Hxe & Hxs & Hxl) by by rewrite Hx.
  clear Hx. subst e s level.
  assert (header zsl ∉ ap <$> A ++ x :: B) as Hh by by apply NoDup_cons in Hnd as [? _].
  replace (if (u0 =? header zsl)%nat then None else Some u0) with (last_ptr None A).
  2:{ destruct (last_ptr_in (Some (header zsl)) A) as [-> | (a & Ha & Hla)].
      - injection Hu0 as <-. by rewrite Nat.eqb_refl.
      - rewrite Hla in Hu0. injection Hu0 as <-. destruct (Nat.eqb_spec (ap a) (header zsl)) as [E0|_].
        + exfalso. apply Hh. rewrite <- E0. apply list_elem_of_fmap_2. rewrite elem_of_app. auto.
        + revert Hla. destruct A; [by apply not_elem_of_nil in Ha|done]. }
  destruct (backs_insert (nodes h) A B x) as [Hb Hframe];
    [rewrite <- HE; apply HR|by apply NoDup_cons in Hnd as [_ ?]|].
  pose proof (nxt_0 h zsl E A B HR HE) as Hn0.
  assert (m2 !! (ap x, 0%nat) = Some (nxt 0 B)) as Hx0.
  { apply (linked_at _ 0 (hd zsl :: A) x B); [apply Hin; lia|unfold low; lia]. }
  erewrite set_backward_at by apply lookup_insert_eq. mstep. cbn [levels].
  rewrite Hx0. mstep. rewrite Hn0. cbn [ele score]. rewrite insert_insert_eq.
  rewrite (next_back _ m2 A B x (tail zsl)).
  - mstep. eexists A, B, x, _, _. split; [done|]. split; [done|].
    split_and!; [|done|done|done|done|].
    + eapply insert_zrep; try done.
      apply Hframe; [|intros Hin'; apply Hh; rewrite fmap_app, elem_of_app; right; by apply list_elem_of_further].
      intros E0. apply Hh. rewrite E0. apply list_elem_of_fmap_2. rewrite elem_of_app, elem_of_cons. auto.
    + intros q Hq HqE. apply Hframe; [done|]. rewrite HE, fmap_app, elem_of_app in HqE. auto.
  - intros b Hbin. destruct (rep_node HR b) as [c Hc]; [rewrite HE, elem_of_app; auto|]. exists c.
    rewrite lookup_insert_ne; [done|]. assert (NoDup (ap <$> A ++ x :: B)) as Hnd2 by by apply NoDup_cons in Hnd as [_ ?]. clear Hnd. rename Hnd2 into Hnd. rewrite fmap_app, NoDup_app in Hnd.
    simpl in Hnd. rewrite NoDup_cons in Hnd. destruct Hnd as (_ & _ & Hn & _). intros E0. apply Hn.
    rewrite E0. by apply list_elem_of_fmap_2.
  - rewrite <- HE. apply HR.
Qed.
End Alloc.
