(* ===== verification/ZslDelete.v ===== *)
(** * Skiplists: deletion and change of score *)

From Stdlib Require Import ZArith Lia SpecFloat.
From stdpp Require Import base numbers option fin_maps gmap list sorting.
From S2P Require Import Prelude Memory Sds SdsSpec Dict Zskiplist ZslFacts ZslSpec.

Local Open Scope Z_scope.
Local Open Scope redis_scope.

(** ** Unlinking a node *)

Lemma lower_spec nd m hd F level :
  (forall i, (i < level)%nat -> linked m i (hd :: F)) -> (level <= ah hd)%nat ->
  (1 <= level)%nat -> Forall (fun a => (1 <= ah a <= level)%nat) F ->
  exists level', lower_loop (Heap nd m) (ap hd) level = Some level' /\ (1 <= level' <= level)%nat /\
    Forall (fun a => (1 <= ah a <= level')%nat) F /\
    (level' = 1%nat \/ Exists (fun a => ah a = level') F).
Proof.
  induction level as [|level IH]; [lia|]. intros HL Hhd _ HF. destruct level as [|level].
  { exists 1%nat. split; [done|]. auto with lia. }
  cbn [lower_loop levels]. destruct (HL (S level) ltac:(lia)) as [Hc _]. rewrite Hc by (unfold low; lia). mstep.
  destruct (nxt_cases (S level) F) as [[HT ->] | (T1 & b & T2 & HT & HT1 & Hb & ->)]; cbn [forward].
  - destruct IH as (level' & Hl & Hb & Hl' & Ht); [intros; apply HL; lia|lia|lia| |].
    { rewrite Forall_forall in HF, HT |- *. intros a Ha. specialize (HF a Ha). specialize (HT a Ha).
      unfold low in HT. lia. }
    exists level'. split; [done|]. split; [lia|done].
  - exists (S (S level)). split; [done|]. split; [lia|]. split; [done|]. right. apply Exists_exists.
    exists b. assert (b ∈ F) as Hin by (rewrite HT, elem_of_app, elem_of_cons; auto). split; [done|].
    rewrite Forall_forall in HF. specialize (HF b Hin). unfold low in Hb. lia.
Qed.

Lemma backs_delete nd A B x :
  backs nd None (A ++ x :: B) -> NoDup (ap <$> A ++ x :: B) ->
  let nd' := match B with
             | [] => nd
             | b :: _ => <[ap b := Node (Some (aele b)) (ascore b) (last_ptr None A)]> nd
             end in
  backs nd' None (A ++ B) /\ forall q, q ∉ ap <$> B -> nd' !! q = nd !! q.
Proof.
  intros [HA [_ HB]]%backs_app Hnd nd'. rewrite fmap_app, NoDup_app in Hnd. simpl in Hnd.
  rewrite NoDup_cons in Hnd. destruct Hnd as (HndA & HAx & Hx & HndB).
  assert (forall q, q ∉ ap <$> B -> nd' !! q = nd !! q) as Hq.
  { intros q HqB. subst nd'. destruct B as [|b B]; [done|].
    rewrite fmap_cons, not_elem_of_cons in HqB. by rewrite !lookup_insert_ne by naive_solver. }
  split; [|done]. apply backs_app. split.
  - revert HA. apply backs_ext. intros a Ha. apply Hq. intros E. apply (HAx (ap a)).
    + by apply list_elem_of_fmap_2.
    + by apply list_elem_of_further.
  - subst nd'. destruct B as [|b B]; [done|]. apply NoDup_cons in HndB as [HbB HndB].
    split; [by rewrite lookup_insert_eq|]. destruct HB as [_ HB]. revert HB. apply backs_ext.
    intros a Ha. rewrite lookup_insert_ne; [done|]. apply not_eq_sym. by eapply fmap_ap_ne.
Qed.

Lemma sorted_remove A B x : StronglySorted entry_lt (A ++ x :: B) -> StronglySorted entry_lt (A ++ B).
Proof.
  induction A as [|a A IH]; simpl; intros [HS Ha]%StronglySorted_inv; [done|]. constructor; [auto|].
  rewrite Forall_app, Forall_cons in Ha. apply Forall_app. tauto.
Qed.

Section Delete.
Context {h : heap} {zsl : zskiplist} {E A B : list entry} {x : entry} {us : list (nat * Z)}.
Context (HR : zrep h zsl E) (HE : E = A ++ x :: B).
Context (Hus : forall i, (i < zlevel zsl)%nat -> updates (hd zsl :: A) us i).

Lemma delete_nodup : NoDup (ap <$> (hd zsl :: A) ++ x :: B).
Proof. change ((hd zsl :: A) ++ x :: B) with (hd zsl :: (A ++ x :: B)). rewrite <- HE. apply HR. Qed.
Lemma delete_nodup' : NoDup (ap <$> A ++ x :: B).
Proof. pose proof delete_nodup as Hnd. by apply NoDup_cons in Hnd as [_ ?]. Qed.

(** The levels after the loop of [zslDeleteNode]. *)
Lemma unlink_spec : exists m,
  for_levels (zlevel zsl) 0 (unlink_step (ap x) us) h = Some (Heap (nodes h) m) /\
  (forall i, (i < zlevel zsl)%nat -> linked m i (hd zsl :: A ++ B)) /\
  m !! (ap x, 0%nat) = Some (nxt 0 B) /\
  forall i, (zlevel zsl <= i)%nat -> same_level i (levels h) m.
Proof.
  pose proof (zr_bound _ _ _ HR) as Hb. rewrite HE in Hb. pose proof (zr_level _ _ _ HR) as Hlv.
  destruct (for_levels_spec (fun i m => linked m i ((hd zsl :: A) ++ x :: B))
    (fun i m => linked m i ((hd zsl :: A) ++ B) /\ (~ low i x -> m !! (ap x, i) = Some (nxt i B)))
    (unlink_step (ap x) us) (nodes h) (zlevel zsl) 0 (levels h)) as (m & Hm & Hin & Hout).
  - apply linked_stable.
  - intros j m m' Hsame [H1 H2]. split; [by apply (linked_stable _ j m)|by rewrite Hsame].
  - intros j m Hj H1. apply unlink_turn; [apply delete_nodup|zlia|apply Hus; lia|done].
  - intros j Hj. change ((hd zsl :: A) ++ x :: B) with (hd zsl :: (A ++ x :: B)). rewrite <- HE. apply HR. lia.
  - exists m. destruct h as [nd lv]. split; [done|]. split_and!.
    + intros i Hi. apply Hin. lia.
    + apply Hin; [lia|]. pose proof (zr_heights _ _ _ HR) as Hh. rewrite HE, Forall_app, Forall_cons in Hh.
      unfold low. lia.
    + intros i Hi. apply Hout. lia.
Qed.

Lemma delete_zrep nd m level :
  (forall i, (i < zlevel zsl)%nat -> linked m i (hd zsl :: A ++ B)) ->
  (forall i, (zlevel zsl <= i)%nat -> same_level i (levels h) m) ->
  (1 <= level <= zlevel zsl)%nat -> Forall (fun a => (1 <= ah a <= level)%nat) (A ++ B) ->
  level = 1%nat \/ Exists (fun a => ah a = level) (A ++ B) ->
  nd !! header zsl = nodes h !! header zsl -> backs nd None (A ++ B) ->
  zrep (Heap nd m) (Zskiplist (header zsl) (last_ptr None (A ++ B)) (u64 (zlength zsl - 1)) level) (A ++ B).
Proof.
  intros Hin Hout Hlv Hh Htop Hhdr Hb. pose proof (zr_level _ _ _ HR) as Hlevel.
  pose proof (zr_bound _ _ _ HR) as Hbound. constructor; simpl; try done.
  - rewrite Hhdr. apply HR.
  - exact (NoDup_without (hd zsl :: A) B x delete_nodup).
  - intros i Hi. apply Hin. lia.
  - intros i Hi. destruct (decide (i < zlevel zsl)%nat) as [Hlt|Hge].
    + destruct (Hin i Hlt) as [Hc _]. change (ap (hd zsl)) with (header zsl) in Hc.
      rewrite Hc by (unfold low; simpl; lia).
      destruct (nxt_cases i (A ++ B)) as [[_ ->] | (T1 & b & T2 & HT & _ & Hlow & _)]; [eauto|].
      exfalso. rewrite HT, Forall_app, Forall_cons in Hh. unfold low in Hlow. lia.
    + rewrite Hout by lia. apply HR. lia.
  - rewrite (zr_length _ _ _ HR), HE, uN_small; rewrite HE in Hbound; zlia.
  - rewrite HE in Hbound. zlia.
  - lia.
  - apply sorted_remove with x. rewrite <- HE. apply HR.
  - pose proof (zr_numbers _ _ _ HR) as Hn. rewrite HE, Forall_app, Forall_cons in Hn. apply Forall_app. tauto.
  - pose proof (zr_names _ _ _ HR) as Hn. rewrite HE, <- Permutation_middle in Hn. by apply NoDup_cons in Hn as [_ ?].
Qed.

Lemma deleteNode_spec : exists h' zsl',
  zslDeleteNode h zsl (ap x) us = Some (h', zsl') /\ zrep h' zsl' (A ++ B) /\
  header zsl' = header zsl /\ (zlevel zsl' <= zlevel zsl)%nat /\
  forall q, q ∉ ap <$> B -> nodes h' !! q = nodes h !! q.
Proof.
  destruct unlink_spec as (m & Hm & Hin & Hx0 & Hout). pose proof (zr_level _ _ _ HR) as Hlv.
  pose proof (zr_backs _ _ _ HR) as Hbacks. rewrite HE in Hbacks.
  destruct (backs_delete (nodes h) A B x Hbacks delete_nodup') as [Hb' Hframe].
  apply backs_app in Hbacks as [_ [Hnx HbB]]. unfold zslDeleteNode. rewrite Hm. mstep. cbn [levels nodes].
  rewrite Hx0. mstep. rewrite Hnx. mstep. cbn [backward].
  rewrite (nxt_0 h zsl E (A ++ [x]) B HR) by (rewrite HE; by simplify_list_eq).
  destruct (lower_spec match B with
             | [] => nodes h
             | b :: _ => <[ap b := Node (Some (aele b)) (ascore b) (last_ptr None A)]> (nodes h)
             end m (hd zsl) (A ++ B) (zlevel zsl)) as (level' & Hl & Hl1 & Hl2 & Hl3).
  { done. } { apply Hlv. } { lia. }
  { pose proof (zr_heights _ _ _ HR) as Hh. rewrite HE, Forall_app, Forall_cons in Hh. apply Forall_app. tauto. }
  match goal with |- context [mbind _ ?e] => assert (e = Some (Heap match B with
      | [] => nodes h
      | b :: _ => <[ap b := Node (Some (aele b)) (ascore b) (last_ptr None A)]> (nodes h)
      end m, last_ptr None (A ++ B))) as -> end.
  { rewrite last_ptr_app, (zr_tail _ _ _ HR), HE, last_ptr_app. destruct B as [|b B']; [done|]. simpl.
    destruct HbB as [Hnb _]. by erewrite set_backward_at by done. }
  mstep. change (ap (hd zsl)) with (header zsl) in Hl. rewrite Hl. mstep. eexists _, _. split; [done|].
  split_and!; [|done|apply Hl1|done].
  eapply delete_zrep; try done. apply Hframe. intros Hin'. pose proof delete_nodup as Hnd.
  apply NoDup_cons in Hnd as [Hn _]. apply Hn. change (header zsl ∈ ap <$> A ++ x :: B).
  rewrite fmap_app, elem_of_app. right. by apply list_elem_of_further.
Qed.
End Delete.

(** ** Deletion by element *)

Lemma zrep_free h zsl E p : zrep h zsl E -> p ∉ ap <$> hd zsl :: E -> zrep (zslFreeNode h p) zsl E.
Proof.
  intros HR Hp.
  assert (forall a, a ∈ hd zsl :: E -> p <> ap a) as Hne by (intros a Ha; apply not_eq_sym; by eapply fmap_ap_ne).
  assert (forall a i, a ∈ hd zsl :: E ->
    filter (fun kv : nat * nat * zskiplistLevel => kv.1.1 <> p) (levels h) !! (ap a, i) = levels h !! (ap a, i)) as Hlv.
  { intros a i Ha. specialize (Hne a Ha). destruct (levels h !! (ap a, i)) as [l|] eqn:El.
    - apply map_lookup_filter_Some. split; [done|]. simpl. congruence.
    - apply map_lookup_filter_None. by left. }
  assert (hd zsl ∈ hd zsl :: E) as Hhd by apply list_elem_of_here.
  destruct HR as [Hh ? HL Ha Hb]. constructor; try done; cbn [nodes levels zslFreeNode].
  - rewrite lookup_delete_ne by exact (Hne _ Hhd). done.
  - intros i Hi. apply (linked_ext (levels h)); [|auto]. intros a Hin _. by apply Hlv.
  - intros i Hi. pose proof (Hlv (hd zsl) i Hhd) as Heq. simpl in Heq. setoid_rewrite Heq. auto.
  - revert Hb. apply backs_ext. intros a Hin. apply lookup_delete_ne, Hne. by apply list_elem_of_further.
Qed.

(** An entry with this element and a score that compares equal. *)
Definition is_key (s : double) (e : bytes) (x : entry) : Prop :=
  aele x = e /\ SFeqb s (ascore x) = true.
#[global] Instance is_key_dec s e x : Decision (is_key s e x).
Proof. unfold is_key. apply _. Defined.

Lemma is_element_spec s e a b :
  is_element (Node (Some (aele a)) (ascore a) b) s e = Some (bool_decide (is_key s e a)).
Proof.
  unfold is_element. cbn [score ele]. pose proof (sdscmp_sign (aele a) e) as (_ & Heq & _).
  destruct (SFeqb s (ascore a)) eqn:Es; mstep; [rewrite Heq|]; f_equal; [apply bool_decide_ext; rewrite lex_eq|];
    unfold is_key; [naive_solver|]. rewrite bool_decide_false; [done|]. intros [_ ?]. congruence.
Qed.

Section Locate.
Context {h : heap} {zsl : zskiplist} {E : list entry} (HR : zrep h zsl E).
Context (s : double) (e : bytes) (Hs : isnan s = false).

(** The element at the place of a key, when it is in the list. *)
Lemma place_element A B x :
  E = A ++ B -> Forall (fun a => lex (akey a) (skey s e) = Lt) A ->
  Forall (fun a => lex (akey a) (skey s e) <> Lt) B ->
  x ∈ E -> aele x = e -> SFeqb s (ascore x) = true -> exists B', B = x :: B'.
Proof.
  intros HE HA HB Hx Hxe Hxs. pose proof (zr_numbers _ _ _ HR) as Hn. rewrite Forall_forall in Hn, HA, HB.
  apply (SFeqb_key s (ascore x) Hs (Hn x Hx)) in Hxs.
  assert (akey x = skey s e) as Hk by (unfold akey, skey; by rewrite Hxs, Hxe).
  rewrite HE, elem_of_app in Hx. destruct Hx as [Hx | Hx].
  { apply HA in Hx. by rewrite Hk, lex_refl in Hx. }
  destruct B as [|b B]; [by apply not_elem_of_nil in Hx|]. exists B. apply elem_of_cons in Hx as [<- | Hx]; [done|].
  exfalso. pose proof (zr_sorted _ _ _ HR) as HS. rewrite HE in HS. apply StronglySorted_app in HS as (_ & _ & HS).
  apply StronglySorted_inv in HS as [_ Hb]. rewrite Forall_forall in Hb. specialize (Hb x Hx).
  apply (HB b); [apply list_elem_of_here|]. rewrite <- Hk. exact Hb.
Qed.

(** The search, the node after it, and whether it is the element. *)
Lemma locate_spec : exists A B us p, E = A ++ B /\ search h (before s e) 64 zsl = Some us /\
  stop zsl us = (p, zlen A) /\ levels h !! (p, 0%nat) = Some (nxt 0 B) /\
  (forall i, (i < zlevel zsl)%nat -> updates (hd zsl :: A) us i) /\
  (forall x, x ∈ E -> is_key s e x -> exists B', B = x :: B').
Proof.
  destruct (place HR s e) as (A & B & HE & HA & HB).
  destruct (search_place HR s e Hs 64 A B HE) as (us & Hsearch & Hus); [lia|done|done|].
  destruct (stop_spec HR A B us HE Hus) as (p & _ & Hstop & _ & Hp).
  exists A, B, us, p. split_and!; [done..|apply Hus|].
  intros x Hx [Hxe Hxs]. by apply (place_element A B x).
Qed.
End Locate.

Lemma head_node h zsl E A B :
  zrep h zsl E -> E = A ++ B ->
  match B with
  | [] => True
  | x :: _ => nodes h !! ap x = Some (Node (Some (aele x)) (ascore x) (last_ptr None A))
  end.
Proof.
  intros HR HE. pose proof (zr_backs _ _ _ HR) as Hb. rewrite HE in Hb. apply backs_app in Hb as [_ Hb].
  destruct B; [done|]. apply Hb.
Qed.

Lemma is_key_next s e A x B : is_key s e x -> NoDup (aele <$> A ++ x :: B) -> forall y, y ∈ A ++ B -> aele y <> e.
Proof.
  intros [<- _] Hnd y Hy E. rewrite <- Permutation_middle in Hnd. apply NoDup_cons in Hnd as [Hn _].
  apply Hn. rewrite <- E. by apply list_elem_of_fmap_2.
Qed.

Lemma delete_spec h zsl E s e keep :
  zrep h zsl E -> isnan s = false ->
  (exists A x B h' zsl', E = A ++ x :: B /\ is_key s e x /\
     zslDelete h zsl s e keep = Some (1, if keep then Some (ap x) else None, h', zsl') /\
     zrep h' zsl' (A ++ B) /\ (nodes h' !! ap x = None <-> keep = false)) \/
  ((forall x, x ∈ E -> ~ is_key s e x) /\ zslDelete h zsl s e keep = Some (0, None, h, zsl)).
Proof.
  intros HR Hs. destruct (locate_spec HR s e Hs) as (A & B & us & p & HE & Hsearch & Hstop & Hp & Hus & Hcase).
  unfold zslDelete. rewrite Hsearch. mstep. rewrite Hstop. cbn [fst]. rewrite Hp. mstep.
  pose proof (head_node h zsl E A B HR HE) as Hnode.
  pose proof (nxt_0 h zsl E A B HR HE) as ->.
  destruct (decide (Exists (is_key s e) E)) as [(x & Hx & Hk)%Exists_exists|Hno].
  - left. destruct (Hcase x Hx Hk) as [B' ->]. clear Hx. simpl. rewrite Hnode. mstep. rewrite is_element_spec, bool_decide_true by done. mstep.
    destruct (deleteNode_spec HR HE Hus) as (h' & zsl' & -> & HR' & Hhd & _ & Hframe). mstep.
    pose proof (delete_nodup HR HE) as Hnd.
    assert (ap x ∉ ap <$> hd zsl' :: A ++ B') as Hx.
    { replace (hd zsl') with (hd zsl) by (unfold hd; by rewrite Hhd).
      change (hd zsl :: A ++ B') with ((hd zsl :: A) ++ B'). intros (a & Ea & Ha)%list_elem_of_fmap.
      by apply (apart (hd zsl :: A) B' x Hnd a Ha). }
    destruct keep.
    + exists A, x, B', h', zsl'. split_and!; try done. rewrite Hframe, Hnode; [done|].
      intros Hin. apply Hx. rewrite fmap_cons, fmap_app, elem_of_cons, elem_of_app. auto.
    + exists A, x, B', (zslFreeNode h' (ap x)), zsl'. split_and!; try done; [by apply zrep_free|].
      split; [done|]. intros _. apply lookup_delete_eq.
  - assert (forall x, x ∈ E -> ~ is_key s e x) as Hno' by (intros x Hx Hk; apply Hno, Exists_exists; eauto).
    clear Hno. rename Hno' into Hno. right. split; [done|]. destruct B as [|b B]; [done|]. simpl. rewrite Hnode. mstep.
    rewrite is_element_spec, bool_decide_false; [done|]. apply Hno. rewrite HE, elem_of_app, elem_of_cons. auto.
Qed.

(** [zslDelete] removes the node with the element and the score when there is one,
    frees it or hands it to the caller, and reports 1; otherwise it changes nothing and
    reports 0. *)
Theorem zslDelete_correct h zsl E s e keep :
  zrep h zsl E -> isnan s = false ->
  (exists A x B h' zsl', E = A ++ x :: B /\ is_key s e x /\
     zslDelete h zsl s e keep = Some (1, if keep then Some (ap x) else None, h', zsl') /\
     zrep h' zsl' (A ++ B) /\ (nodes h' !! ap x = None <-> keep = false)) \/
  ((forall x, x ∈ E -> ~ is_key s e x) /\ zslDelete h zsl s e keep = Some (0, None, h, zsl)).
Proof. apply delete_spec. Qed.

(** ** Change of score *)

Lemma nxt_replace i A x x' B : ap x' = ap x -> ah x' = ah x -> nxt i (A ++ x' :: B) = nxt i (A ++ x :: B).
Proof.
  intros Hp Hh. induction A as [|a A IH]; simpl; [|by rewrite IH].
  rewrite Hp. destruct (decide (low i x)), (decide (low i x')); unfold low in *; done || lia.
Qed.
Lemma linked_replace m i A x x' B :
  ap x' = ap x -> ah x' = ah x -> linked m i (A ++ x :: B) -> linked m i (A ++ x' :: B).
Proof.
  intros Hp Hh. induction A as [|a A IH]; simpl.
  - unfold low. by rewrite Hp, Hh.
  - rewrite (nxt_replace i A x x' B) by done. naive_solver.
Qed.
Lemma last_ptr_replace prev A x x' B : ap x' = ap x -> last_ptr prev (A ++ x' :: B) = last_ptr prev (A ++ x :: B).
Proof. intros Hp. rewrite !last_ptr_app. simpl. by rewrite Hp. Qed.

Lemma sorted_middle A B x : StronglySorted entry_lt (A ++ x :: B) ->
  Forall (fun a => entry_lt a x) A /\ Forall (entry_lt x) B.
Proof.
  intros (HAB & _ & HxB)%StronglySorted_app. apply StronglySorted_inv in HxB as [_ HB]. split; [|done].
  apply Forall_forall. intros a Ha. apply HAB; [done|apply list_elem_of_here].
Qed.

(** [x] with a new score. *)
Definition moved (x : entry) (s : double) : entry := Entry (ap x) (ah x) (aele x) s.

Section Move.
Context {h : heap} {zsl : zskiplist} {E A B : list entry} {x : entry}.
Context (HR : zrep h zsl E) (HE : E = A ++ x :: B) (s : double) (Hs : isnan s = false).

Lemma score_lt (a : double) e e' : isnan a = false -> SFltb a s = true -> lex (skey a e) (skey s e') = Lt.
Proof. intros Ha Hlt. rewrite lex_skey. apply (SFltb_key a s Ha Hs) in Hlt. by rewrite Hlt. Qed.
Lemma score_gt (a : double) e e' : isnan a = false -> SFltb s a = true -> lex (skey s e') (skey a e) = Lt.
Proof. intros Ha Hlt. rewrite lex_skey. apply (SFltb_key s a Hs Ha) in Hlt. by rewrite Hlt. Qed.

Lemma fits_after_spec : exists ok, fits_after h (last_ptr None A) s = Some ok /\
  (ok = true -> Forall (fun a => entry_lt a (moved x s)) A).
Proof.
  destruct A as [|a A' _] eqn:EA using rev_ind; [by exists true|].
  assert (a ∈ E) as Ha by (rewrite HE, !elem_of_app, list_elem_of_singleton; auto).
  rewrite last_ptr_snoc. unfold fits_after. destruct (rep_node HR a Ha) as [b ->]. mstep. eexists. split; [done|].
  simpl. intros Hlt. pose proof (score_lt (ascore a) (aele a) (aele x) (rep_number HR a Ha) Hlt) as Hl.
  pose proof (zr_sorted _ _ _ HR) as HS. rewrite HE, <- app_assoc in HS. apply sorted_middle in HS as [HS _].
  apply Forall_app. split; [|by apply Forall_singleton]. eapply Forall_impl; [exact HS|].
  intros c Hc. exact (lex_trans _ _ _ Hc Hl).
Qed.
Lemma fits_before_spec : exists ok, fits_before h (ap <$> head B) s = Some ok /\
  (ok = true -> Forall (entry_lt (moved x s)) B).
Proof.
  destruct B as [|a B'] eqn:EB; [by exists true|].
  assert (a ∈ E) as Ha by (rewrite HE, elem_of_app, !elem_of_cons; auto).
  simpl. unfold fits_before. destruct (rep_node HR a Ha) as [b ->]. mstep. eexists. split; [done|].
  simpl. intros Hlt. pose proof (score_gt (ascore a) (aele a) (aele x) (rep_number HR a Ha) Hlt) as Hl.
  pose proof (zr_sorted _ _ _ HR) as HS. rewrite HE in HS.
  replace (A ++ x :: a :: B') with ((A ++ [x]) ++ a :: B') in HS by by simplify_list_eq.
  apply sorted_middle in HS as [_ HS]. constructor; [exact Hl|]. eapply Forall_impl; [exact HS|].
  intros c Hc. exact (lex_trans _ _ _ Hl Hc).
Qed.

(** The score can be changed in place. *)
Lemma replace_zrep :
  Forall (fun a => entry_lt a (moved x s)) A -> Forall (entry_lt (moved x s)) B ->
  zrep (Heap (<[ap x := Node (Some (aele x)) s (last_ptr None A)]> (nodes h)) (levels h)) zsl (A ++ (moved x s) :: B).
Proof.
  intros HA HB. pose proof (delete_nodup HR HE) as Hnd. pose proof (delete_nodup' HR HE) as Hnd'.
  assert (ap <$> A ++ (moved x s) :: B = ap <$> A ++ x :: B) as Hptr by by rewrite !fmap_app.
  assert (forall a, a ∈ (hd zsl :: A) ++ B -> ap x <> ap a) as Hne
    by (intros a Ha; apply not_eq_sym, (apart (hd zsl :: A) B x Hnd a Ha)).
  destruct HR as [Hh Hn HL Ha Hb Ht Hlen Hbd Hlv Hhs Htop HS Hnum Hnames]. subst E.
  constructor; cbn [nodes levels]; try done.
  - rewrite lookup_insert_ne; [done|]. apply (Hne (hd zsl)), list_elem_of_here.
  - rewrite fmap_cons in Hn |- *. by rewrite Hptr.
  - intros i Hi. change (hd zsl :: A ++ (moved x s) :: B) with ((hd zsl :: A) ++ (moved x s) :: B).
    apply (linked_replace _ i (hd zsl :: A) x); [done|done|]. by apply HL.
  - apply backs_app in Hb as [HbA [Hbx HbB]]. apply backs_app. split; [|split].
    + revert HbA. apply backs_ext. intros a Hin. apply lookup_insert_ne, Hne. rewrite elem_of_app, elem_of_cons. auto.
    + apply lookup_insert_eq.
    + revert HbB. apply backs_ext. intros a Hin. apply lookup_insert_ne, Hne. rewrite elem_of_app. auto.
  - rewrite Ht. symmetry. by apply last_ptr_replace.
  - rewrite Hlen. zlia.
  - zlia.
  - rewrite Forall_app, Forall_cons in Hhs |- *. tauto.
  - destruct Htop as [Htop|Htop]; [by left|right]. rewrite Exists_app, Exists_cons in Htop |- *. tauto.
  - apply zsorted_insert; [|done|done]. by apply sorted_remove in HS.
  - rewrite Forall_app, Forall_cons in Hnum |- *. tauto.
  - rewrite fmap_app in Hnames |- *. done.
Qed.
End Move.

Section Update.
Context `{ZAllocOk}.

(** The node is deleted and its element inserted anew. *)
Lemma reinsert_spec rs level rs' h zsl E A B x us s :
  zrep h zsl E -> E = A ++ x :: B -> (forall i, (i < zlevel zsl)%nat -> updates (hd zsl :: A) us i) ->
  isnan s = false -> zslRandomLevel rs = Some (level, rs') ->
  exists y h' zsl' E',
    (let! (h, zsl) := zslDeleteNode h zsl (ap x) us in
     let! n := nodes h !! ap x in
     let! xe := ele n in
     let! (newnode, rs, h, zsl) := zslInsert rs h zsl s xe in
     Some (newnode, rs, zslFreeNode h (ap x), zsl)) = Some (ap y, rs', h', zsl') /\
    zrep h' zsl' E' /\ E' ≡ₚ y :: A ++ B /\ aele y = aele x /\ ascore y = s.
Proof.
  intros HR HE Hus Hs Hrs.
  destruct (deleteNode_spec HR HE Hus) as (h1 & zsl1 & -> & HR1 & Hhd & _ & Hframe). mstep.
  pose proof (delete_nodup HR HE) as Hnd.
  assert (forall a, a ∈ hd zsl1 :: A ++ B -> ap a <> ap x) as Hne.
  { replace (hd zsl1) with (hd zsl) by (unfold hd; by rewrite Hhd). apply (apart (hd zsl :: A) B x Hnd). }
  pose proof (head_node h zsl E A (x :: B) HR HE) as Hnode. cbv iota beta in Hnode.
  assert (nodes h1 !! ap x = nodes h !! ap x) as Hx1.
  { apply Hframe. intros (a & Ea & Ha)%list_elem_of_fmap. apply (Hne a); [|done].
    rewrite elem_of_cons, elem_of_app. auto. }
  rewrite Hx1, Hnode. mstep. cbn [ele]. mstep.
  destruct (zsl_insert_spec rs h1 zsl1 (A ++ B) s (aele x) level rs' HR1 Hs) as
    (A' & B' & y & h2 & zsl2 & HE' & HI & HR2 & Hhd2 & Hy & Hys & Hfresh & _); [| |done|].
  { pose proof (zr_names _ _ _ HR) as Hn. rewrite HE, <- Permutation_middle in Hn. by apply NoDup_cons in Hn as [? _]. }
  { pose proof (zr_bound _ _ _ HR) as Hb. rewrite HE in Hb. zlia. }
  rewrite HI. mstep. exists y, (zslFreeNode h2 (ap x)), zsl2, (A' ++ y :: B').
  split; [done|]. split_and!; [|by rewrite HE', Permutation_middle|done|done].
  apply zrep_free; [done|]. replace (hd zsl2) with (hd zsl1) by (unfold hd; by rewrite Hhd2).
  intros (a & Ea & Ha)%list_elem_of_fmap. rewrite elem_of_cons, elem_of_app, elem_of_cons in Ha.
  assert (a = y \/ a ∈ hd zsl1 :: A ++ B) as [-> | Hin].
  { rewrite elem_of_cons, HE', elem_of_app. naive_solver. }
  - rewrite <- Ea, Hx1, Hnode in Hfresh. done.
  - by apply (Hne a Hin).
Qed.

Lemma update_spec rs level rs' h zsl E x cur e s :
  zrep h zsl E -> x ∈ E -> is_key cur e x -> isnan cur = false -> isnan s = false ->
  zslRandomLevel rs = Some (level, rs') ->
  exists A B y rs2 h' zsl' E', E = A ++ x :: B /\
    zslUpdateScore rs h zsl cur e s = Some (ap y, rs2, h', zsl') /\
    zrep h' zsl' E' /\ E' ≡ₚ y :: A ++ B /\ aele y = e /\ ascore y = s.
Proof.
  intros HR Hx Hk Hcur Hs Hrs.
  destruct (locate_spec HR cur e Hcur) as (A & B0 & us & p & HE & Hsearch & Hstop & Hp & Hus & Hcase).
  destruct (Hcase x Hx Hk) as [B ->]. unfold zslUpdateScore. rewrite Hsearch. mstep. rewrite Hstop. cbn [fst].
  rewrite Hp. mstep. pose proof (head_node h zsl E A (x :: B) HR HE) as Hnode.
  pose proof (nxt_0 h zsl E A (x :: B) HR HE) as ->. cbn [head fmap option_fmap option_map]. mstep. rewrite Hnode. mstep.
  rewrite is_element_spec, bool_decide_true by done. mstep. cbn [negb backward].
  assert (levels h !! (ap x, 0%nat) = Some (nxt 0 B)) as ->.
  { apply (linked_at _ 0 (hd zsl :: A) x B).
    - change ((hd zsl :: A) ++ x :: B) with (hd zsl :: (A ++ x :: B)). rewrite <- HE. apply HR. apply HR.
    - pose proof (zr_heights _ _ _ HR) as Hh. rewrite Forall_forall in Hh. specialize (Hh x Hx). unfold low. lia. }
  mstep. rewrite (nxt_0 h zsl E (A ++ [x]) B HR) by (rewrite HE; by simplify_list_eq).
  destruct (fits_after_spec HR HE s Hs) as (ok1 & -> & Hok1). mstep.
  destruct (fits_before_spec HR HE s Hs) as (ok2 & Hf & Hok2).
  destruct Hk as [Hke _].
  destruct (ok1 && ok2) eqn:Eok.
  - apply andb_prop in Eok as [-> ->]. rewrite Hf. mstep. unfold set_score. rewrite Hnode. mstep.
    exists A, B, (moved x s), rs, (Heap (<[ap x := Node (Some (aele x)) s (last_ptr None A)]> (nodes h)) (levels h)), zsl, (A ++ moved x s :: B).
    split_and!; [done|done|by apply (replace_zrep HR HE s Hs); auto|by rewrite Permutation_middle|done|done].
  - replace (if ok1 then fits_before h (ap <$> head B) s else Some false) with (Some false)
      by (rewrite Hf; by destruct ok1, ok2). mstep.
    destruct (reinsert_spec rs level rs' h zsl E A B x us s HR HE Hus Hs Hrs)
      as (y & h' & zsl' & E' & HC & HR' & HP & Hy & Hys).
    exists A, B, y, rs', h', zsl', E'. split_and!; try done. congruence.
Qed.

(** [zslUpdateScore] gives an element of the list its new score, in place or by
    moving it to a new node; the other nodes stay and the list is sorted again. *)
Theorem zslUpdateScore_correct rs level rs' h zsl E x cur e s :
  zrep h zsl E -> x ∈ E -> is_key cur e x -> isnan cur = false -> isnan s = false ->
  zslRandomLevel rs = Some (level, rs') ->
  exists A B y rs2 h' zsl' E', E = A ++ x :: B /\
    zslUpdateScore rs h zsl cur e s = Some (ap y, rs2, h', zsl') /\
    zrep h' zsl' E' /\ E' ≡ₚ y :: A ++ B /\ aele y = e /\ ascore y = s.
Proof. apply update_spec. Qed.
End Update.

(** ** Creation and release *)

Section Lifecycle.
Context `{ZAllocOk}.

Lemma create_spec h : exists h' zsl, zslCreate h = Some (h', zsl) /\ zrep h' zsl [] /\
  nodes h !! header zsl = None /\ forall q, q <> header zsl -> nodes h' !! q = nodes h !! q.
Proof.
  unfold zslCreate, zslCreateNode. set (p := zmalloc_node h).
  destruct (for_levels_spec (fun j m => is_Some (m !! (p, j))) (fun j m => m !! (p, j) = Some (Level None 0))
    (clear_level p) (<[p := Node None (S754_zero false) junk_backward]> (nodes h)) ZSKIPLIST_MAXLEVEL 0
    (alloc_levels p ZSKIPLIST_MAXLEVEL (levels h))) as (m & Hm & Hin & _).
  - intros j m m' Hs. by rewrite Hs.
  - intros j m m' Hs. by rewrite Hs.
  - intros j m _ [l Hl]. unfold clear_level, set_forward, set_span. cbn [levels]. rewrite Hl. mstep.
    cbn [levels nodes]. rewrite lookup_insert_eq. mstep. eexists. split; [done|].
    split; [by rewrite lookup_insert_eq|]. intros j' Hj q. by rewrite !lookup_insert_ne by congruence.
  - intros j Hj. rewrite alloc_levels_in by lia. eauto.
  - rewrite Hm. mstep. erewrite set_backward_at by apply lookup_insert_eq. mstep. eexists _, _. split; [done|].
    cbn [header]. split; [|split].
    + assert (forall i, (i < ZSKIPLIST_MAXLEVEL)%nat -> m !! (p, i) = Some (Level None 0)) as Hall
        by (intros i Hi; apply Hin; lia).
      constructor; cbn [nodes levels header tail zlength zlevel ele score]; try done.
      * by rewrite lookup_insert_eq.
      * simpl. apply NoDup_singleton.
      * intros i Hi. split; [intros _; apply Hall; unfold ZSKIPLIST_MAXLEVEL; lia|done].
      * intros i Hi. exists 0. apply Hall. lia.
      * unfold ZSKIPLIST_MAXLEVEL. lia.
      * by left.
      * constructor.
      * constructor.
    + apply zmalloc_nodes.
    + intros q Hq. cbn [nodes]. by rewrite !lookup_insert_ne.
Qed.
End Lifecycle.

Lemma free_loop_spec fuel E : forall h m prev,
  linked m 0 E -> Forall (fun a => ~ low 0 a) E -> NoDup (ap <$> E) -> (length E < fuel)%nat ->
  (forall a, a ∈ E -> levels h !! (ap a, 0%nat) = m !! (ap a, 0%nat)) ->
  prev = ap <$> head E ->
  exists h', free_loop fuel prev h = Some h' /\
    forall q, nodes h' !! q = if decide (q ∈ ap <$> E) then None else nodes h !! q.
Proof.
  revert E. induction fuel as [|fuel IH]; intros E h m prev HL Hlow Hnd Hf Hlv ->; [lia|].
  destruct E as [|a E]; cbn [free_loop].
  { exists h. split; [done|]. done. }
  change (ap <$> head (a :: E)) with (Some (ap a)). cbv iota.
  destruct HL as [Ha HL]. apply Forall_cons in Hlow as [Hla Hlow]. apply NoDup_cons in Hnd as [Han Hnd].
  rewrite Hlv, Ha by (done || apply list_elem_of_here). mstep.
  destruct (IH E (zslFreeNode h (ap a)) m (forward (nxt 0 E))) as (h' & -> & Hq); try done.
  - simpl in Hf. lia.
  - intros b Hb. assert (ap b <> ap a) as Hne by (intros E0; apply Han; rewrite <- E0; by apply list_elem_of_fmap_2).
    rewrite <- Hlv by by apply list_elem_of_further. cbn [levels zslFreeNode].
    destruct (levels h !! (ap b, 0%nat)) eqn:El.
    + apply map_lookup_filter_Some. by split.
    + apply map_lookup_filter_None. by left.
  - destruct E as [|b E]; [done|]. simpl. by apply Forall_cons in Hlow as [Hb _]; rewrite decide_False.
  - exists h'. split; [done|]. intros q. rewrite Hq. cbn [nodes zslFreeNode].
    destruct (decide (q = ap a)) as [-> | Hne].
    + rewrite lookup_delete_eq. repeat case_decide; try done.
      match goal with Hn : ~ (ap a ∈ ap <$> a :: E) |- _ => destruct Hn; apply list_elem_of_here end.
    + rewrite lookup_delete_ne by done. apply decide_ext. rewrite fmap_cons, elem_of_cons. naive_solver.
Qed.

Lemma free_spec h zsl E :
  zrep h zsl E -> exists h', zslFree h zsl = Some h' /\
    forall q, nodes h' !! q = if decide (q ∈ ap <$> hd zsl :: E) then None else nodes h !! q.
Proof.
  intros HR. pose proof (zr_level _ _ _ HR) as Hlv. destruct (zr_linked _ _ _ HR 0%nat ltac:(lia)) as [Hl HL].
  pose proof (zr_nodup _ _ _ HR) as Hnd. apply NoDup_cons in Hnd as [Hh Hnd].
  unfold zslFree. change (header zsl) with (ap (hd zsl)). rewrite Hl by (unfold low; simpl; unfold ZSKIPLIST_MAXLEVEL; lia). mstep.
  destruct (free_loop_spec (S (Z.to_nat (zlength zsl))) E (zslFreeNode h (header zsl)) (levels h) (forward (nxt 0 E)))
    as (h' & HF & Hq); try done.
  - eapply Forall_impl; [apply HR|]. simpl. unfold low. lia.
  - rewrite (zr_length _ _ _ HR). unfold zlen. lia.
  - intros a Ha. cbn [levels zslFreeNode]. assert (ap a <> header zsl) as Hne by by apply (fmap_ap_ne a (header zsl) E).
    destruct (levels h !! (ap a, 0%nat)) eqn:El.
    + apply map_lookup_filter_Some. by split.
    + apply map_lookup_filter_None. by left.
  - by eapply (nxt_0 h zsl E []).
  - exists h'. split; [done|]. intros q. rewrite Hq. cbn [nodes zslFreeNode].
    destruct (decide (q = header zsl)) as [-> | Hne].
    + rewrite lookup_delete_eq. repeat case_decide; try done. exfalso.
      match goal with Hn : ~ (header zsl ∈ ap <$> hd zsl :: E) |- _ => apply Hn end. apply (list_elem_of_fmap_2 ap (hd zsl :: E) (hd zsl)), list_elem_of_here.
    + rewrite lookup_delete_ne by done. apply decide_ext. rewrite fmap_cons, elem_of_cons. naive_solver.
Qed.

(** ** The contract *)

Section Contract.
Context `{ZAllocOk}.

(** C16. [zslInsert] puts the new element at its place in the order, for every height that
    is drawn: all links, spans, back pointers, the tail, the length and the level are
    right again, and no other memory changes. *)
Theorem zslInsert_correct rs level rs' h zsl E s e :
  zrep h zsl E -> isnan s = false -> e ∉ aele <$> E -> zlength zsl + 1 < 2 ^ 32 ->
  zslRandomLevel rs = Some (level, rs') ->
  exists A B x h' zsl', E = A ++ B /\ zslInsert rs h zsl s e = Some (ap x, rs', h', zsl') /\
    zrep h' zsl' (A ++ x :: B) /\ aele x = e /\ ascore x = s /\ nodes h !! ap x = None /\
    forall q, q <> ap x -> q ∉ ap <$> E -> nodes h' !! q = nodes h !! q.
Proof.
  intros HR Hs He Hb Hrs. rewrite (zr_length _ _ _ HR) in Hb.
  destruct (zsl_insert_spec rs h zsl E s e level rs' HR Hs He Hb Hrs) as (A & B & x & h' & zsl' & ? & ? & ? & _ & ?).
  exists A, B, x, h', zsl'. auto.
Qed.

(** [zslCreate] makes an empty list in a node that was free; [zslFree] releases the
    header and every node of a list, each once, and nothing else. *)
Theorem zsl_lifecycle h :
  (exists h' zsl, zslCreate h = Some (h', zsl) /\ zrep h' zsl [] /\ nodes h !! header zsl = None /\
     forall q, q <> header zsl -> nodes h' !! q = nodes h !! q) /\
  (forall zsl E, zrep h zsl E -> exists h', zslFree h zsl = Some h' /\
     forall q, nodes h' !! q = if decide (q ∈ ap <$> hd zsl :: E) then None else nodes h !! q).
Proof. split; [apply create_spec|intros zsl E; apply free_spec]. Qed.
End Contract.
