(* ===== verification/ZslRank.v ===== *)
(** * Skiplists: ranks and ranges *)

From Stdlib Require Import ZArith Lia SpecFloat.
From stdpp Require Import base numbers option fin_maps gmap list sorting.
From S2P Require Import Prelude Memory Sds SdsSpec Dict Zskiplist ZslFacts ZslSpec ZslDelete.

Local Open Scope Z_scope.
Local Open Scope redis_scope.

Lemma nodup_split {X Y} (f : X -> Y) l1 x l1' l2 y l2' :
  NoDup (f <$> l1 ++ x :: l1') -> l1 ++ x :: l1' = l2 ++ y :: l2' -> f x = f y -> l1 = l2.
Proof.
  intros Hnd Heq Hf. assert (length l1 = length l2) as Hlen.
  { apply (NoDup_lookup _ _ _ (f x) Hnd).
    - rewrite list_lookup_fmap, lookup_app_r, Nat.sub_diag by lia. done.
    - rewrite Heq, list_lookup_fmap, lookup_app_r, Nat.sub_diag by lia. simpl. by rewrite Hf. }
  by apply app_inj_1 in Heq as [? _].
Qed.

(** ** Ranks *)

Section Rank.
Context {h : heap} {zsl : zskiplist} {E : list entry} (HR : zrep h zsl E).

Lemma low_0 a : a ∈ hd zsl :: E -> ~ low 0 a.
Proof.
  intros [-> | Ha]%elem_of_cons; unfold low.
  - simpl. unfold ZSKIPLIST_MAXLEVEL. lia.
  - pose proof (zr_heights _ _ _ HR) as Hh. rewrite Forall_forall in Hh. specialize (Hh a Ha). lia.
Qed.

(** At the lowest level a walk ends at the last node. *)
Lemma last_at_0 P T P1 u P2 : hd zsl :: E = P ++ T -> last_at 0 P P1 u P2 -> P2 = [].
Proof.
  intros HN (HP & _ & HP2). destruct P2 as [|b P2]; [done|]. exfalso. apply Forall_cons in HP2 as [Hb _].
  apply (low_0 b); [|done]. rewrite HN, HP, !elem_of_app, !elem_of_cons. auto.
Qed.

Section ByRank.
Context (rank : Z) (Hrank : 1 <= rank).
Let N := hd zsl :: E.
Let P := take (S (Z.to_nat rank)) N.
Let T := drop (S (Z.to_nat rank)) N.
Let cond : walk_cond := fun _ t => Some (t <=? rank).

Lemma rank_steers : steers h cond 64 (P ++ T) (length P).
Proof.
  subst P T. rewrite take_drop. subst N. pose proof (zr_bound _ _ _ HR) as Hb. split_and!; [zlia|lia|].
  intros [|j] a Ha Hj; [lia|]. simpl in Ha.
  destruct (rep_node HR a) as [b Hn]; [by eapply list_elem_of_lookup_2|]. eexists. split; [done|].
  subst cond. f_equal. apply lookup_lt_Some in Ha. rewrite length_take. cbn [length].
  destruct (Z.leb_spec (Z.of_nat (S j)) rank); f_equal; symmetry;
    [apply bool_decide_true|apply bool_decide_false]; lia.
Qed.

Lemma by_rank_spec fuel i Q x R :
  P = Q ++ x :: R -> (i <= ah x)%nat -> (i <= zlevel zsl)%nat -> (length P <= fuel)%nat ->
  (i = 0%nat -> N !! Z.to_nat rank = None) ->
  by_rank_loop h rank fuel i (ap x) (zlen Q) = Some (ap <$> N !! Z.to_nat rank).
Proof.
  pose proof rank_steers as Hst.
  revert Q x R. induction i as [|i IH]; intros Q x R HP Hx Hi Hf Hd; cbn [by_rank_loop].
  { by rewrite Hd. }
  destruct (walk_spec h cond 64 i P T Q x R fuel) as (P1 & u & P2 & Hu & Hw);
    [subst P T; rewrite take_drop; apply HR; lia|done|done|unfold low; lia
    |rewrite HP, length_app in Hf; simpl in Hf; lia|].
  unfold cond in Hw. rewrite Hw. mstep. clear Hw. pose proof Hu as (HP1 & Hlu & _).
  destruct (zlen P1 =? rank) eqn:Er; boolsimp.
  - assert (N !! Z.to_nat rank = Some u) as ->; [|done].
    rewrite <- (take_drop (S (Z.to_nat rank)) N). fold P. rewrite HP1, <- app_assoc.
    rewrite lookup_app_r by (unfold zlen in Er; lia).
    by replace (Z.to_nat rank - length P1)%nat with 0%nat by (unfold zlen in Er; lia).
  - apply IH with P2; [done|unfold low in Hlu; lia|lia|done|]. intros ->.
    assert (P2 = []) as -> by (eapply (last_at_0 P T); [subst P T N; by rewrite take_drop|done]).
    destruct (N !! Z.to_nat rank) as [a|] eqn:Ea; [|done]. exfalso. apply Er.
    apply lookup_lt_Some in Ea. apply (f_equal length) in HP1. subst P. rewrite length_take, length_app in HP1.
    subst N. cbn [length] in *. unfold zlen. lia.
Qed.
End ByRank.

Lemma get_by_rank rank : 1 <= rank ->
  zslGetElementByRank h zsl rank = Some (ap <$> E !! Z.to_nat (rank - 1)).
Proof.
  intros Hr. unfold zslGetElementByRank. pose proof (zr_level _ _ _ HR) as Hlv.
  replace (E !! Z.to_nat (rank - 1)) with ((hd zsl :: E) !! Z.to_nat rank)
    by (replace (Z.to_nat rank) with (S (Z.to_nat (rank - 1))) by lia; done).
  apply (by_rank_spec rank Hr (walk_fuel zsl) (zlevel zsl) [] (hd zsl) (take (Z.to_nat rank) E));
    [done|simpl; lia|lia| |lia].
  rewrite length_take. unfold walk_fuel. rewrite (zr_length _ _ _ HR). unfold zlen. simpl. lia.
Qed.

Lemma before_or_at_spec s e a b t :
  isnan s = false -> isnan (ascore a) = false ->
  before_or_at s e (Node (Some (aele a)) (ascore a) b) t = Some (bool_decide (lex (akey a) (skey s e) <> Gt)).
Proof.
  intros Hs Ha. unfold before_or_at, akey. cbn [score ele]. rewrite lex_skey.
  pose proof (SFltb_key (ascore a) s Ha Hs) as Hlt. pose proof (SFeqb_key (ascore a) s Ha Hs) as Heq.
  destruct (SFltb (ascore a) s).
  { rewrite (proj1 Hlt eq_refl). by rewrite bool_decide_true. }
  destruct (SFeqb (ascore a) s).
  { rewrite (proj1 Heq eq_refl), lex_refl. mstep. f_equal. apply sdscmp_sign. }
  destruct (lex (fkey (ascore a)) (fkey s)) eqn:El; [|exfalso; by destruct Hlt as [_ Hlt]; discriminate Hlt|done].
  apply lex_eq in El. apply Heq in El. done.
Qed.

Section GetRank.
Context (s : double) (e : bytes) (Hs : isnan s = false) (A B : list entry) (HE : E = A ++ B).
Context (HA : Forall (fun a => lex (akey a) (skey s e) <> Gt) A).
Context (HB : Forall (fun a => ~ lex (akey a) (skey s e) <> Gt) B).
Let P := hd zsl :: A.

Lemma get_rank_steers : steers h (before_or_at s e) 64 (P ++ B) (length P).
Proof.
  rewrite Forall_forall in HA, HB.
  apply (steers_key HR (before_or_at s e) 64 A B HE); [lia| |]; intros a b t Ha;
    (rewrite before_or_at_spec; [|done|apply (rep_number HR); rewrite HE, elem_of_app; auto]).
  - by rewrite bool_decide_true by auto.
  - by rewrite bool_decide_false by auto.
Qed.

(** The element, when it is there, is the last node that the walk can reach. *)
Lemma get_rank_spec fuel i Q x R r :
  P = Q ++ x :: R -> (i <= ah x)%nat -> (i <= zlevel zsl)%nat -> (length P <= fuel)%nat ->
  (forall P1 u P2, P = P1 ++ u :: P2 -> u ∈ E -> aele u = e -> zlen P1 = r) ->
  (exists P1 u, P = P1 ++ [u] /\ u ∈ E /\ aele u = e) /\ i <> 0%nat \/ e ∉ aele <$> A /\ r = 0 ->
  rank_loop h s e fuel i (ap x) (zlen Q) = Some r.
Proof.
  pose proof get_rank_steers as Hst.
  revert Q x R. induction i as [|i IH]; intros Q x R HP Hx Hi Hf Hr Hd; cbn [rank_loop].
  { destruct Hd as [[_ ?] | [_ ->]]; done. }
  destruct (walk_spec h (before_or_at s e) 64 i P B Q x R fuel) as (P1 & u & P2 & Hu & Hw);
    [subst P; simpl; rewrite <- HE; apply HR; lia|done|done|unfold low; lia
    |rewrite HP, length_app in Hf; simpl in Hf; lia|].
  rewrite Hw. mstep. clear Hw. pose proof Hu as (HP1 & Hlu & _).
  assert (u = hd zsl \/ u ∈ A) as HuP.
  { rewrite <- elem_of_cons. fold P. rewrite HP1, elem_of_app, elem_of_cons. auto. }
  destruct (decide (u ∈ E /\ aele u = e)) as [[HuE Hue]|Hnu].
  - destruct (rep_node HR u HuE) as [b ->]. mstep. cbn [ele].
    destruct (sdscmp_sign (aele u) e) as (_ & -> & _). rewrite bool_decide_true by by apply lex_eq.
    f_equal. by apply (Hr P1 u P2).
  - assert (exists n, nodes h !! ap u = Some n /\
      match ele n with Some e' => sdscmp e' e =? 0 | None => false end = false) as (n & -> & Hne).
    { destruct (decide (u ∈ E)) as [HuE|HuE].
      - destruct (rep_node HR u HuE) as [b Hb]. eexists. split; [done|]. cbn [ele].
        destruct (sdscmp_sign (aele u) e) as (_ & -> & _). apply bool_decide_false. rewrite lex_eq. naive_solver.
      - destruct HuP as [-> | HuA]; [|exfalso; apply HuE; rewrite HE, elem_of_app; auto].
        eexists. split; [exact (zr_header _ _ _ HR)|done]. }
    mstep. rewrite Hne. apply IH with P2; [done|unfold low in Hlu; lia|lia|done|done|].
    destruct Hd as [[Hx0 _] | ?]; [|by right]. left. split; [done|]. intros ->.
    destruct Hx0 as (P1' & x0 & HP0 & HxE & Hxe).
    assert (P2 = []) as -> by (eapply (last_at_0 P B); [subst P; by rewrite HE|done]).
    rewrite HP0 in HP1. apply app_inj_tail in HP1 as [_ ->]. by apply Hnu.
Qed.
End GetRank.

Lemma place_at s e : exists A B, E = A ++ B /\
  Forall (fun a => lex (akey a) (skey s e) <> Gt) A /\ Forall (fun a => ~ lex (akey a) (skey s e) <> Gt) B.
Proof.
  destruct (sorted_partition (fun a => bool_decide (lex (akey a) (skey s e) <> Gt)) E)
    as (A & B & HE & HA & HB).
  - apply HR.
  - intros a b Hab Hb. rewrite bool_decide_eq_true in Hb |- *. by rewrite (lex_lt_le _ _ _ Hab Hb).
  - exists A, B. split; [done|]. split; [eapply Forall_impl; [exact HA|]|eapply Forall_impl; [exact HB|]]; intros a.
    + apply bool_decide_eq_true.
    + apply bool_decide_eq_false.
Qed.

Lemma key_at s e x : isnan s = false -> x ∈ E -> is_key s e x -> akey x = skey s e.
Proof.
  intros Hs Hx [<- Hk]. apply (SFeqb_key s (ascore x) Hs (rep_number HR x Hx)) in Hk.
  unfold akey, skey. by rewrite Hk.
Qed.

(** The element with this key ends the part of the list up to the key. *)
Lemma place_at_last s e A0 x B0 A B :
  isnan s = false -> E = A0 ++ x :: B0 -> is_key s e x -> E = A ++ B ->
  Forall (fun a => lex (akey a) (skey s e) <> Gt) A -> Forall (fun a => ~ lex (akey a) (skey s e) <> Gt) B ->
  A = A0 ++ [x].
Proof.
  intros Hs HE0 Hk HE HA HB. pose proof (zr_sorted _ _ _ HR) as HS. rewrite HE0 in HS.
  apply sorted_middle in HS as [HltA HltB].
  assert (x ∈ E) as Hx by (rewrite HE0, elem_of_app, elem_of_cons; auto).
  pose proof (key_at s e x Hs Hx Hk) as Hkey. rewrite Forall_forall in HA, HB, HltA, HltB.
  rewrite HE in HE0. replace (A0 ++ x :: B0) with ((A0 ++ [x]) ++ B0) in HE0 by by simplify_list_eq.
  apply app_eq_app in HE0 as (k & [[HA' HB'] | [HA' HB']]).
  - destruct k as [|b k]; [by rewrite app_nil_r in HA'|]. exfalso.
    apply (HA b); [rewrite HA', elem_of_app, elem_of_cons; auto|]. rewrite <- Hkey. apply lex_gt, HltB.
    rewrite HB'. apply list_elem_of_here.
  - destruct k as [|b k]; [by rewrite app_nil_r in HA'|]. exfalso.
    apply (HB b); [rewrite HB'; apply list_elem_of_here|]. rewrite <- Hkey.
    assert (b ∈ A0 ++ [x]) as Hb by (rewrite HA', elem_of_app, elem_of_cons; auto).
    rewrite elem_of_app, list_elem_of_singleton in Hb. destruct Hb as [Hb | ->]; [by rewrite (HltA b Hb)|by rewrite lex_refl].
Qed.

Lemma get_rank_found s e A0 x B0 :
  isnan s = false -> E = A0 ++ x :: B0 -> is_key s e x -> zslGetRank h zsl s e = Some (zlen A0 + 1).
Proof.
  intros Hs HE0 Hk. destruct (place_at s e) as (A & B & HE & HA & HB).
  pose proof (place_at_last s e A0 x B0 A B Hs HE0 Hk HE HA HB) as HA0. pose proof (zr_level _ _ _ HR) as Hlv.
  assert (x ∈ E) as Hx by (rewrite HE0, elem_of_app, elem_of_cons; auto).
  unfold zslGetRank. apply (get_rank_spec s e Hs A B HE HA HB _ _ [] (hd zsl) A); [done|simpl; lia|lia| | |].
  - unfold walk_fuel. rewrite (zr_length _ _ _ HR), HE, zlen_app. unfold zlen. simpl. lia.
  - intros P1 u P2 HP HuE Hue. pose proof (zr_names _ _ _ HR) as Hn.
    destruct P1 as [|y P1]; simpl in HP; injection HP as Hy HP.
    { exfalso. pose proof (zr_nodup _ _ _ HR) as Hnd. apply NoDup_cons in Hnd as [Hh _]. apply Hh.
      rewrite Hy. by apply list_elem_of_fmap_2. }
    assert (A0 = P1) as ->; [|zlia]. rewrite HE0 in Hn. apply (nodup_split aele A0 x B0 P1 u (P2 ++ B) Hn).
    + rewrite <- HE0, HE, HP. by simplify_list_eq.
    + rewrite Hue. apply Hk.
  - left. split; [|lia]. exists (hd zsl :: A0), x. split_and!; [by rewrite HA0|done|apply Hk].
Qed.

Lemma get_rank_absent s e : isnan s = false -> e ∉ aele <$> E -> zslGetRank h zsl s e = Some 0.
Proof.
  intros Hs He. destruct (place_at s e) as (A & B & HE & HA & HB). pose proof (zr_level _ _ _ HR) as Hlv.
  unfold zslGetRank. apply (get_rank_spec s e Hs A B HE HA HB _ _ [] (hd zsl) A); [done|simpl; lia|lia| | |].
  - unfold walk_fuel. rewrite (zr_length _ _ _ HR), HE, zlen_app. unfold zlen. simpl. lia.
  - intros P1 u P2 _ Hu <-. exfalso. apply He. by apply list_elem_of_fmap_2.
  - right. split; [|done]. rewrite HE, fmap_app, elem_of_app in He. auto.
Qed.
End Rank.

(** Ranks: [zslGetRank] is the position of the element, counted from 1, 0 when it is
    not in the list; [zslGetElementByRank] is the node at that position, NULL beyond the
    end.  The spans they add up never mislead them. *)
Theorem zsl_ranks h zsl E s e :
  zrep h zsl E -> isnan s = false ->
  (forall A x B, E = A ++ x :: B -> is_key s e x ->
     zslGetRank h zsl s e = Some (zlen A + 1) /\
     zslGetElementByRank h zsl (zlen A + 1) = Some (Some (ap x))) /\
  (e ∉ aele <$> E -> zslGetRank h zsl s e = Some 0) /\
  (forall rank, zlen E < rank -> zslGetElementByRank h zsl rank = Some None).
Proof.
  intros HR Hs. split_and!.
  - intros A x B HE Hk. split; [by eapply get_rank_found|].
    rewrite (get_by_rank HR) by zlia. replace (Z.to_nat (zlen A + 1 - 1)) with (length A) by (unfold zlen; lia).
    by rewrite HE, lookup_app_r, Nat.sub_diag by lia.
  - by apply get_rank_absent.
  - intros rank Hr. rewrite (get_by_rank HR) by zlia. rewrite lookup_ge_None_2; [done|]. unfold zlen in Hr. lia.
Qed.
