(* ===== verification/ZslRange.v ===== *)
(** * Skiplists: ranges

    Queries and deletions of the elements in a range of scores, of names or of ranks. *)

From Stdlib Require Import ZArith Lia SpecFloat.
From stdpp Require Import base numbers option fin_maps gmap list sorting.
From S2P Require Import Prelude Memory Sds SdsSpec Dict DictFacts DictSpec.
From S2P Require Import Zskiplist ZslFacts ZslSpec ZslDelete ZslRank.

Local Open Scope Z_scope.
Local Open Scope redis_scope.

(** ** The ends of a range *)

Section Ends.
Context {h : heap} {zsl : zskiplist} {E : list entry} (HR : zrep h zsl E).
Lemma part (f : entry -> bool) :
  (forall a b, a ∈ E -> b ∈ E -> entry_lt a b -> f b = true -> f a = true) ->
  exists A B, E = A ++ B /\ Forall (fun a => f a = true) A /\
     Forall (fun a => f a = false) B.
Proof.
  intros f_down. pose proof (zr_sorted _ _ _ HR) as HS. assert (forall a, a ∈ E -> a ∈ E) as Hin by done. revert HS Hin.
  generalize E at 1 2 4 as L. induction L as [|a L IH]; intros HS Hin; [by exists [], []|].
  apply StronglySorted_inv in HS as [HS Ha]. destruct IH as (A & B & -> & HA & HB); [done| |].
  { intros b Hb. apply Hin. by apply list_elem_of_further. }
  destruct (f a) eqn:Ea.
  - exists (a :: A), B. split_and!; [done|by constructor|done].
  - exists [], (a :: A ++ B). split_and!; [done|done|]. constructor; [done|]. apply Forall_app. split; [|done].
    rewrite Forall_forall in HA, Ha |- *. intros b Hb. rewrite (f_down a b) in Ea; try done.
    + apply Hin, list_elem_of_here.
    + apply Hin. rewrite elem_of_cons, elem_of_app. auto.
    + apply Ha. rewrite elem_of_app. auto.
    + by apply HA.
Qed.

(** The test of the lower end and of the upper end, on entries and on their nodes. *)
Context (gte lte : entry -> bool).
Context (gte_up : forall a b, a ∈ E -> b ∈ E -> entry_lt a b -> gte a = true -> gte b = true).
Context (lte_down : forall a b, a ∈ E -> b ∈ E -> entry_lt a b -> lte b = true -> lte a = true).

Lemma part_gte : exists A B, E = A ++ B /\ Forall (fun a => gte a = false) A /\ Forall (fun a => gte a = true) B.
Proof.
  destruct (part (fun a => negb (gte a))) as (A & B & HE & HA & HB).
  - intros a b Ha Hb Hab. rewrite !negb_true_iff. intros Hg. destruct (gte a) eqn:Eg; [|done].
    by rewrite (gte_up a b) in Hg.
  - exists A, B. split; [done|]. split; [eapply Forall_impl; [exact HA|]|eapply Forall_impl; [exact HB|]]; intros a.
    + apply negb_true_iff.
    + apply negb_false_iff.
Qed.

Lemma first_gte cond :
  (forall a b t, a ∈ E -> cond (Node (Some (aele a)) (ascore a) b) t = Some (negb (gte a))) ->
  exists A B us p, E = A ++ B /\ Forall (fun a => gte a = false) A /\ Forall (fun a => gte a = true) B /\
    search h cond 64 zsl = Some us /\ stop zsl us = (p, zlen A) /\
    levels h !! (p, 0%nat) = Some (nxt 0 B) /\ forward (nxt 0 B) = ap <$> head B /\
    forall i, (i < zlevel zsl)%nat -> updates (hd zsl :: A) us i.
Proof.
  intros Hc. destruct part_gte as (A & B & HE & HA & HB). pose proof HA as HA0. pose proof HB as HB0.
  rewrite Forall_forall in HA0, HB0.
  destruct (search_key HR cond 64 A B HE) as (us & Hs & Hus); [lia| | |].
  - intros a b t Ha. rewrite Hc by (rewrite HE, elem_of_app; auto). by rewrite HA0.
  - intros a b t Ha. rewrite Hc by (rewrite HE, elem_of_app; auto). by rewrite HB0.
  - destruct (stop_spec HR A B us HE Hus) as (p & _ & Hst & _ & Hp).
    exists A, B, us, p. split_and!; try done; [by eapply nxt_0|apply Hus].
Qed.

Lemma last_lte cond :
  (forall a b t, a ∈ E -> cond (Node (Some (aele a)) (ascore a) b) t = Some (lte a)) ->
  exists A B us p, E = A ++ B /\ Forall (fun a => lte a = true) A /\ Forall (fun a => lte a = false) B /\
    search h cond 64 zsl = Some us /\ stop zsl us = (p, zlen A) /\ last_ptr (Some (header zsl)) A = Some p.
Proof.
  intros Hc. destruct (part lte lte_down) as (A & B & HE & HA & HB). pose proof HA as HA0. pose proof HB as HB0.
  rewrite Forall_forall in HA0, HB0.
  destruct (search_key HR cond 64 A B HE) as (us & Hs & Hus); [lia| | |].
  - intros a b t Ha. rewrite Hc by (rewrite HE, elem_of_app; auto). by rewrite HA0.
  - intros a b t Ha. rewrite Hc by (rewrite HE, elem_of_app; auto). by rewrite HB0.
  - destruct (stop_spec HR A B us HE Hus) as (p & Hl & Hst & _ & _).
    exists A, B, us, p. done.
Qed.

(** The elements in the range. *)
Definition in_range (a : entry) : bool := gte a && lte a.
Definition inside (L : list entry) : list entry := filter (fun a => in_range a = true) L.
Definition outside (L : list entry) : list entry := filter (fun a => in_range a = false) L.

Lemma inside_none L : Forall (fun a => in_range a = false) L -> inside L = [] /\ outside L = L.
Proof.
  unfold inside, outside. induction 1 as [|a L Ha HL [IH1 IH2]]; [done|].
  rewrite !filter_cons, decide_False, decide_True by congruence. by rewrite IH1, IH2.
Qed.
Lemma inside_all L : Forall (fun a => in_range a = true) L -> inside L = L /\ outside L = [].
Proof.
  unfold inside, outside. induction 1 as [|a L Ha HL [IH1 IH2]]; [done|].
  rewrite !filter_cons, decide_True, decide_False by congruence. by rewrite IH1, IH2.
Qed.
Lemma not_gte L : Forall (fun a => gte a = false) L -> Forall (fun a => in_range a = false) L.
Proof. intros HL. eapply Forall_impl; [exact HL|]. unfold in_range. intros a. simpl. by intros ->. Qed.
Lemma not_lte L : Forall (fun a => lte a = false) L -> Forall (fun a => in_range a = false) L.
Proof. intros HL. eapply Forall_impl; [exact HL|]. unfold in_range. intros a. simpl. intros ->. apply andb_false_r. Qed.

Lemma first_value A B :
  E = A ++ B -> Forall (fun a => gte a = false) A -> Forall (fun a => gte a = true) B ->
  head (inside E) = match B with b :: _ => if lte b then Some b else None | [] => None end.
Proof.
  intros HE HA HB. unfold inside. rewrite HE, filter_app. fold (inside A) (inside B).
  rewrite (proj1 (inside_none A (not_gte A HA))). simpl. destruct B as [|b B]; [done|].
  apply Forall_cons in HB as [Hb HB]. destruct (lte b) eqn:El.
  - unfold inside. rewrite filter_cons, decide_True; [done|]. unfold in_range. by rewrite Hb, El.
  - assert (Forall (fun a => lte a = false) (b :: B)) as HBl; [|by rewrite (proj1 (inside_none (b :: B) (not_lte _ HBl)))].
    constructor; [done|]. apply Forall_forall. intros a Ha. destruct (lte a) eqn:Ea; [|done]. rewrite (lte_down b a) in El; try done.
    + rewrite HE, elem_of_app, elem_of_cons. auto.
    + rewrite HE, elem_of_app, elem_of_cons. auto.
    + pose proof (zr_sorted _ _ _ HR) as HS. rewrite HE in HS. apply sorted_middle in HS as [_ HS].
      rewrite Forall_forall in HS. auto.
Qed.
Lemma last_value A B :
  E = A ++ B -> Forall (fun a => lte a = true) A -> Forall (fun a => lte a = false) B ->
  last (inside E) = match last A with Some c => if gte c then Some c else None | None => None end.
Proof.
  intros HE HA HB. unfold inside. rewrite HE, filter_app. fold (inside A) (inside B).
  rewrite (proj1 (inside_none B (not_lte B HB))), app_nil_r. destruct A as [|c A _] using rev_ind; [done|].
  rewrite last_snoc. rewrite Forall_app, Forall_singleton in HA. destruct HA as [HA Hc]. destruct (gte c) eqn:El.
  - unfold inside. rewrite filter_app, filter_cons, decide_True; [by rewrite filter_nil, last_snoc|].
    unfold in_range. by rewrite Hc, El.
  - assert (Forall (fun a => gte a = false) (A ++ [c])) as HAl; [|by rewrite (proj1 (inside_none (A ++ [c]) (not_gte _ HAl)))].
    apply Forall_app. split; [|by constructor]. apply Forall_forall. intros a Ha. destruct (gte a) eqn:Ea; [|done]. rewrite (gte_up a c) in El; try done.
    + rewrite HE, !elem_of_app. auto.
    + rewrite HE, !elem_of_app, list_elem_of_singleton. auto.
    + pose proof (zr_sorted _ _ _ HR) as HS. rewrite HE, <- app_assoc in HS. apply sorted_middle in HS as [HS _].
      rewrite Forall_forall in HS. auto.
Qed.

(** The quick tests on the ends of the list. *)
Lemma tail_test f (g : entry -> bool) :
  (forall a b, a ∈ E -> f (Node (Some (aele a)) (ascore a) b) = Some (g a)) ->
  node_test h (tail zsl) f = Some (match last E with Some a => g a | None => false end).
Proof.
  intros Hf. rewrite (zr_tail _ _ _ HR). assert (forall a, a ∈ E -> a ∈ E) as Hin by done. revert Hin.
  generalize E at 1 3 4 as L. intros L. destruct L as [|a L _] using rev_ind; [done|]. intros Hin.
  rewrite last_ptr_snoc, last_snoc. assert (a ∈ E) as Ha by (apply Hin; rewrite elem_of_app, list_elem_of_singleton; auto).
  unfold node_test. destruct (rep_node HR a Ha) as [b ->]. mstep. auto.
Qed.
Lemma head_test f (g : entry -> bool) :
  (forall a b, a ∈ E -> f (Node (Some (aele a)) (ascore a) b) = Some (g a)) ->
  exists l, levels h !! (header zsl, 0%nat) = Some l /\
    node_test h (forward l) f = Some (match head E with Some a => g a | None => false end).
Proof.
  clear gte_up lte_down gte lte. intros Hf. pose proof (zr_level _ _ _ HR) as Hlv. destruct (zr_linked _ _ _ HR 0%nat ltac:(lia)) as [Hl _].
  exists (nxt 0 E). split; [apply Hl; unfold low; simpl; unfold ZSKIPLIST_MAXLEVEL; lia|].
  rewrite (nxt_0 h zsl E [] E HR) by done. destruct E as [|a L] eqn:EL; [done|]. rewrite <- EL in HR.
  assert (a ∈ E) as Ha by (rewrite EL; apply list_elem_of_here). simpl. unfold node_test.
  destruct (rep_node HR a Ha) as [b ->]. mstep. apply Hf. apply list_elem_of_here.
Qed.

Definition ends : bool :=
  match last E with Some a => gte a | None => false end &&
  match head E with Some a => lte a | None => false end.

Lemma ends_false : ends = false -> inside E = [].
Proof.
  unfold ends. intros Hend. destruct part_gte as (A & B & HE & HA & HB).
  destruct (part lte lte_down) as (C & D & HE' & HC & HD).
  destruct B as [|b B _] using rev_ind.
  { rewrite HE, app_nil_r. by apply inside_none, not_gte. }
  destruct C as [|c C].
  { rewrite HE'. by apply inside_none, not_lte. }
  rewrite Forall_app, Forall_singleton in HB. apply Forall_cons in HC as [Hc _].
  rewrite HE, app_assoc, last_snoc in Hend. rewrite (proj2 HB) in Hend.
  rewrite <- app_assoc, <- HE, HE' in Hend. simpl in Hend. by rewrite Hc in Hend.
Qed.
Lemma ends_gte A B : ends = true -> E = A ++ B -> Forall (fun a => gte a = false) A -> B <> [].
Proof.
  unfold ends. intros [Hend _]%andb_prop HE HA ->. rewrite app_nil_r in HE. rewrite HE in Hend.
  destruct A as [|a A _] using rev_ind; [done|]. rewrite last_snoc in Hend.
  rewrite Forall_app, Forall_singleton in HA. destruct HA as [_ HA]. congruence.
Qed.
Lemma ends_lte A B : ends = true -> E = A ++ B -> Forall (fun a => lte a = false) B -> A <> [].
Proof.
  unfold ends. intros [_ Hend]%andb_prop HE HB ->. simpl in HE. rewrite HE in Hend.
  destruct B as [|b B]; [done|]. simpl in Hend. apply Forall_cons in HB as [Hb _]. congruence.
Qed.
End Ends.

Lemma last_ptr_last prev A : last_ptr prev A = match last A with Some a => Some (ap a) | None => prev end.
Proof. destruct A as [|a A _] using rev_ind; [done|]. by rewrite last_ptr_snoc, last_snoc. Qed.

(** ** Ranges of scores *)

Section Scores.
Context {h : heap} {zsl : zskiplist} {E : list entry} (HR : zrep h zsl E).
Context (range : zrangespec) (Hmin : isnan (zmin range) = false) (Hmax : isnan (zmax range) = false).

Definition score_gte (a : entry) : bool := zslValueGteMin (ascore a) range.
Definition score_lte (a : entry) : bool := zslValueLteMax (ascore a) range.

Lemma score_le a b : entry_lt a b -> lex (fkey (ascore a)) (fkey (ascore b)) <> Gt.
Proof. unfold entry_lt, akey. rewrite lex_skey. by destruct (lex (fkey (ascore a)) (fkey (ascore b))). Qed.

Lemma gte_key v : isnan v = false -> zslValueGteMin v range = true <->
  if minex range then lex (fkey (zmin range)) (fkey v) = Lt else lex (fkey (zmin range)) (fkey v) <> Gt.
Proof. intros Hv. unfold zslValueGteMin. destruct (minex range); [by apply SFltb_key|by apply SFleb_key]. Qed.
Lemma lte_key v : isnan v = false -> zslValueLteMax v range = true <->
  if maxex range then lex (fkey v) (fkey (zmax range)) = Lt else lex (fkey v) (fkey (zmax range)) <> Gt.
Proof. intros Hv. unfold zslValueLteMax. destruct (maxex range); [by apply SFltb_key|by apply SFleb_key]. Qed.

Lemma lex_le_trans a b c : lex a b <> Gt -> lex b c <> Gt -> lex a c <> Gt.
Proof.
  intros Hab Hbc. destruct (lex b c) eqn:Ebc; [|by rewrite (lex_le_lt _ _ _ Hab Ebc)|done].
  apply lex_eq in Ebc. by subst.
Qed.

Lemma score_gte_up a b : a ∈ E -> b ∈ E -> entry_lt a b -> score_gte a = true -> score_gte b = true.
Proof.
  intros Ha Hb Hab. unfold score_gte. rewrite !gte_key by by apply (rep_number HR).
  apply score_le in Hab. destruct (minex range).
  - intros Hm. by eapply lex_lt_le.
  - intros Hm. by eapply lex_le_trans.
Qed.
Lemma score_lte_down a b : a ∈ E -> b ∈ E -> entry_lt a b -> score_lte b = true -> score_lte a = true.
Proof.
  intros Ha Hb Hab. unfold score_lte. rewrite !lte_key by by apply (rep_number HR).
  apply score_le in Hab. destruct (maxex range).
  - intros Hm. by eapply lex_le_lt.
  - intros Hm. by eapply lex_le_trans.
Qed.

(** The test for ranges that are always empty. *)
Lemma void_range :
  SFltb (zmax range) (zmin range) || (SFeqb (zmin range) (zmax range) && (minex range || maxex range)) = true ->
  forall a, a ∈ E -> in_range score_gte score_lte a = false.
Proof.
  intros Hv a Ha. destruct (in_range score_gte score_lte a) eqn:Ei; [|done]. exfalso.
  apply andb_prop in Ei as [Hg Hl]. unfold score_gte in Hg. unfold score_lte in Hl.
  apply gte_key in Hg; [|by apply (rep_number HR)]. apply lte_key in Hl; [|by apply (rep_number HR)].
  apply orb_prop in Hv as [Hv | [He Hx]%andb_prop].
  - apply SFltb_key, lex_gt in Hv; [|done|done].
    assert (lex (fkey (zmin range)) (fkey (zmax range)) <> Gt) as Hn; [|done].
    eapply lex_le_trans; [|destruct (maxex range); [rewrite Hl; done|exact Hl]].
    destruct (minex range); [by rewrite Hg|done].
  - apply SFeqb_key in He; [|done|done]. rewrite <- He in Hl.
    destruct (minex range).
    + destruct (maxex range); [|apply lex_gt in Hg; congruence].
      pose proof (lex_trans _ _ _ Hg Hl) as Ht. by rewrite lex_refl in Ht.
    + simpl in Hx. rewrite Hx in Hl. apply lex_gt in Hl. congruence.
Qed.

Lemma score_gte_neg a : a ∈ E ->
  (if minex range then SFleb (ascore a) (zmin range) else SFltb (ascore a) (zmin range)) = negb (score_gte a).
Proof.
  intros Ha. unfold score_gte, zslValueGteMin. pose proof (rep_number HR a Ha) as Hn.
  destruct (minex range); unfold SFleb, SFltb; rewrite !SFcompare_key by done;
    rewrite (lex_antisym (fkey (ascore a))); by destruct (lex (fkey (ascore a)) (fkey (zmin range))).
Qed.

Lemma isInRange_spec : exists r, zslIsInRange h zsl range = Some r /\
  (r = false -> inside score_gte score_lte E = []) /\ (r = true -> @ends E score_gte score_lte = true).
Proof.
  unfold zslIsInRange. destruct (_ || _) eqn:Ev.
  { exists false. split; [done|]. split; [|done]. intros _. apply inside_none, Forall_forall. by apply void_range. }
  rewrite (tail_test HR _ score_gte) by done. mstep.
  destruct (head_test HR (fun n => Some (zslValueLteMax (score n) range)) score_lte) as (l & Hl & Ht); [done|].
  exists (@ends E score_gte score_lte). split.
  - unfold ends. destruct (match last E with Some a => score_gte a | None => false end); [|done].
    simpl. rewrite Hl. mstep. exact Ht.
  - split; [|done]. intros He. apply (ends_false HR _ _ score_gte_up score_lte_down He).
Qed.

Lemma firstInRange_spec : zslFirstInRange h zsl range = Some (ap <$> head (inside score_gte score_lte E)).
Proof.
  unfold zslFirstInRange. destruct isInRange_spec as (r & -> & Hf & Ht). mstep. destruct r; simpl.
  2:{ by rewrite Hf. }
  destruct (first_gte HR score_gte score_gte_up (fun n _ => Some (negb (zslValueGteMin (score n) range))))
    as (A & B & us & p & HE & HA & HB & -> & Hst & Hl & Hfw & _); [done|].
  rewrite (first_value HR _ _ score_lte_down A B HE HA HB). mstep. rewrite Hst. cbn [fst]. rewrite Hl. mstep.
  pose proof (ends_gte _ _ A B (Ht eq_refl) HE HA) as HB0. rewrite Hfw. destruct B as [|b B]; [done|]. simpl.
  pose proof (head_node h zsl E A (b :: B) HR HE) as Hn. cbv iota beta in Hn. rewrite Hn. mstep. cbn [score].
  fold (score_lte b). by destruct (score_lte b).
Qed.
Lemma lastInRange_spec : zslLastInRange h zsl range = Some (ap <$> last (inside score_gte score_lte E)).
Proof.
  unfold zslLastInRange. destruct isInRange_spec as (r & -> & Hf & Ht). mstep. destruct r; simpl.
  2:{ by rewrite Hf. }
  destruct (last_lte HR score_lte score_lte_down (fun n _ => Some (zslValueLteMax (score n) range)))
    as (A & B & us & p & HE & HA & HB & -> & Hst & Hl); [done|].
  rewrite (last_value HR _ _ score_gte_up A B HE HA HB). mstep. rewrite Hst. cbn [fst].
  pose proof (ends_lte _ _ A B (Ht eq_refl) HE HB) as HA0. rewrite last_ptr_last in Hl.
  destruct (last A) as [c|] eqn:El; [|by apply last_None in El]. injection Hl as <-.
  apply last_Some in El as [A' ->]. destruct (rep_node HR c) as [b ->];
    [rewrite HE, !elem_of_app, list_elem_of_singleton; auto|]. mstep. cbn [score].
  fold (score_gte c). by destruct (score_gte c).
Qed.
End Scores.

(** ** Ranges of names *)

Definition lkey (b : lexbound) : bytes :=
  match b with minstring => [-1] | string_ s => 0 :: s | maxstring => [1] end.
Lemma sdscmplex_key a b : (sdscmplex a b ?= 0) = lex (lkey a) (lkey b).
Proof. destruct a, b; simpl; try done. by rewrite sdscmp_lex. Qed.
Lemma sdscmplex_sign a b :
  (sdscmplex a b >? 0) = bool_decide (lex (lkey b) (lkey a) = Lt) /\
  (sdscmplex a b >=? 0) = bool_decide (lex (lkey b) (lkey a) <> Gt) /\
  (sdscmplex a b <? 0) = bool_decide (lex (lkey a) (lkey b) = Lt) /\
  (sdscmplex a b <=? 0) = bool_decide (lex (lkey a) (lkey b) <> Gt) /\
  (sdscmplex a b =? 0) = bool_decide (lkey a = lkey b).
Proof.
  pose proof (sdscmplex_key a b) as Hk. pose proof (lex_antisym (lkey a) (lkey b)) as Ha.
  pose proof (lex_eq (lkey a) (lkey b)) as Hq. rewrite Z.gtb_ltb, Z.geb_leb.
  destruct (Z.compare_spec (sdscmplex a b) 0) as [Hc | Hc | Hc]; rewrite <- Hk in Ha, Hq; simpl in Ha;
    split_and!; case_bool_decide as Hd; rewrite ?Ha, <- ?Hk, <- ?Hq in Hd; try done;
    rewrite ?Z.ltb_lt, ?Z.ltb_ge, ?Z.eqb_neq, ?Z.eqb_eq, ?Z.leb_le, ?Z.leb_gt; try lia; naive_solver.
Qed.

Section Names.
Context {h : heap} {zsl : zskiplist} {E : list entry} (HR : zrep h zsl E).
Context (range : zlexrangespec).
(** Ranges of names are meant for elements that all have the same score. *)
Context (Hsame : forall a b, a ∈ E -> b ∈ E -> SFeqb (ascore a) (ascore b) = true).

Definition name_gte (a : entry) : bool := zslLexValueGteMin (aele a) range.
Definition name_lte (a : entry) : bool := zslLexValueLteMax (aele a) range.

Lemma name_lt a b : a ∈ E -> b ∈ E -> entry_lt a b -> lex (lkey (string_ (aele a))) (lkey (string_ (aele b))) = Lt.
Proof.
  intros Ha Hb. pose proof (Hsame a b Ha Hb) as Heq.
  apply SFeqb_key in Heq; [|by apply (rep_number HR)|by apply (rep_number HR)].
  unfold entry_lt, akey. by rewrite lex_skey, Heq, lex_refl.
Qed.
Lemma name_gte_key v : zslLexValueGteMin v range = true <->
  if lminex range then lex (lkey (lmin range)) (lkey (string_ v)) = Lt
  else lex (lkey (lmin range)) (lkey (string_ v)) <> Gt.
Proof.
  unfold zslLexValueGteMin. destruct (sdscmplex_sign (string_ v) (lmin range)) as (-> & -> & _).
  destruct (lminex range); apply bool_decide_eq_true.
Qed.
Lemma name_lte_key v : zslLexValueLteMax v range = true <->
  if lmaxex range then lex (lkey (string_ v)) (lkey (lmax range)) = Lt
  else lex (lkey (string_ v)) (lkey (lmax range)) <> Gt.
Proof.
  unfold zslLexValueLteMax. destruct (sdscmplex_sign (string_ v) (lmax range)) as (_ & _ & -> & -> & _).
  destruct (lmaxex range); apply bool_decide_eq_true.
Qed.
Lemma name_gte_up a b : a ∈ E -> b ∈ E -> entry_lt a b -> name_gte a = true -> name_gte b = true.
Proof.
  intros Ha Hb Hab%name_lt; [|done|done]. unfold name_gte. rewrite !name_gte_key. destruct (lminex range).
  - intros Hm. by eapply lex_trans.
  - intros Hm. by rewrite (lex_le_lt _ _ _ Hm Hab).
Qed.
Lemma name_lte_down a b : a ∈ E -> b ∈ E -> entry_lt a b -> name_lte b = true -> name_lte a = true.
Proof.
  intros Ha Hb Hab%name_lt; [|done|done]. unfold name_lte. rewrite !name_lte_key. destruct (lmaxex range).
  - intros Hm. by eapply lex_trans.
  - intros Hm. by rewrite (lex_lt_le _ _ _ Hab Hm).
Qed.

Lemma void_names :
  let cmp := sdscmplex (lmin range) (lmax range) in
  (cmp >? 0) || ((cmp =? 0) && (lminex range || lmaxex range)) = true ->
  forall a, a ∈ E -> in_range name_gte name_lte a = false.
Proof.
  intros cmp Hv a Ha. destruct (in_range name_gte name_lte a) eqn:Ei; [|done]. exfalso.
  apply andb_prop in Ei as [Hg Hl]. apply name_gte_key in Hg. apply name_lte_key in Hl.
  subst cmp. destruct (sdscmplex_sign (lmin range) (lmax range)) as (Hgt & _ & _ & _ & Heq). rewrite Hgt, Heq in Hv.
  apply orb_prop in Hv as [Hv%bool_decide_eq_true | [He%bool_decide_eq_true Hx]%andb_prop].
  - apply lex_gt in Hv. assert (lex (lkey (lmin range)) (lkey (lmax range)) <> Gt) as Hn; [|done].
    eapply lex_le_trans; [|destruct (lmaxex range); [rewrite Hl; done|exact Hl]].
    destruct (lminex range); [by rewrite Hg|done].
  - rewrite <- He in Hl. destruct (lminex range).
    + destruct (lmaxex range); [|apply lex_gt in Hg; congruence].
      pose proof (lex_trans _ _ _ Hg Hl) as Ht. by rewrite lex_refl in Ht.
    + simpl in Hx. rewrite Hx in Hl. apply lex_gt in Hl. congruence.
Qed.

Lemma isInLexRange_spec : exists r, zslIsInLexRange h zsl range = Some r /\
  (r = false -> inside name_gte name_lte E = []) /\ (r = true -> @ends E name_gte name_lte = true).
Proof.
  unfold zslIsInLexRange. destruct (_ || _) eqn:Ev.
  { exists false. split; [done|]. split; [|done]. intros _. apply inside_none, Forall_forall. by apply void_names. }
  rewrite (tail_test HR _ name_gte) by done. mstep.
  destruct (head_test HR (lex_lte range) name_lte) as (l & Hl & Ht); [done|].
  exists (@ends E name_gte name_lte). split.
  - unfold ends. destruct (match last E with Some a => name_gte a | None => false end); [|done].
    simpl. rewrite Hl. mstep. exact Ht.
  - split; [|done]. intros He. apply (ends_false HR _ _ name_gte_up name_lte_down He).
Qed.

Lemma firstInLexRange_spec : zslFirstInLexRange h zsl range = Some (ap <$> head (inside name_gte name_lte E)).
Proof.
  unfold zslFirstInLexRange. destruct isInLexRange_spec as (r & -> & Hf & Ht). mstep. destruct r; simpl.
  2:{ by rewrite Hf. }
  destruct (first_gte HR name_gte name_gte_up (fun n _ => negb <$> lex_gte range n))
    as (A & B & us & p & HE & HA & HB & -> & Hst & Hl & Hfw & _); [done|].
  rewrite (first_value HR _ _ name_lte_down A B HE HA HB). mstep. rewrite Hst. cbn [fst]. rewrite Hl. mstep.
  pose proof (ends_gte _ _ A B (Ht eq_refl) HE HA) as HB0. rewrite Hfw. destruct B as [|b B]; [done|]. simpl.
  pose proof (head_node h zsl E A (b :: B) HR HE) as Hn. cbv iota beta in Hn. rewrite Hn. mstep.
  unfold lex_lte. mstep. cbn [ele]. mstep. fold (name_lte b). by destruct (name_lte b).
Qed.
Lemma lastInLexRange_spec : zslLastInLexRange h zsl range = Some (ap <$> last (inside name_gte name_lte E)).
Proof.
  unfold zslLastInLexRange. destruct isInLexRange_spec as (r & -> & Hf & Ht). mstep. destruct r; simpl.
  2:{ by rewrite Hf. }
  destruct (last_lte HR name_lte name_lte_down (fun n _ => lex_lte range n))
    as (A & B & us & p & HE & HA & HB & -> & Hst & Hl); [done|].
  rewrite (last_value HR _ _ name_gte_up A B HE HA HB). mstep. rewrite Hst. cbn [fst].
  pose proof (ends_lte _ _ A B (Ht eq_refl) HE HB) as HA0. rewrite last_ptr_last in Hl.
  destruct (last A) as [c|] eqn:El; [|by apply last_None in El]. injection Hl as <-.
  apply last_Some in El as [A' ->]. destruct (rep_node HR c) as [b ->];
    [rewrite HE, !elem_of_app, list_elem_of_singleton; auto|]. mstep.
  unfold lex_gte. cbn [ele]. mstep. fold (name_gte c). by destruct (name_gte c).
Qed.
End Names.

(** ** Deletion of ranges *)

Section DeleteRange.
Context `{!dictType bytes, !DictTypeOk bytes}.

(** The map without the elements of [M]. *)
Definition without (m m' : gmap bytes nat) (M : list entry) : Prop :=
  forall k, m' !! k = if decide (k ∈ aele <$> M) then None else m !! k.

Lemma without_cons m m' m'' x M :
  m' = delete (aele x) m -> without m' m'' M -> without m m'' (x :: M).
Proof.
  intros -> Hw k. rewrite Hw, fmap_cons. destruct (decide (k = aele x)) as [-> | Hne].
  - rewrite (decide_True (P := aele x ∈ aele x :: _)) by apply list_elem_of_here. rewrite lookup_delete_eq.
    by destruct (decide _).
  - rewrite lookup_delete_ne by done. apply decide_ext. rewrite elem_of_cons. naive_solver.
Qed.

Lemma delete_while_spec fuel cond us A M B t removed h zsl d m :
  zrep h zsl (A ++ M ++ B) -> (forall i, (i < zlevel zsl)%nat -> updates (hd zsl :: A) us i) ->
  dict_rep d m -> (length M < fuel)%nat ->
  0 <= t -> t + zlen M < 2 ^ 64 -> 0 <= removed -> removed + zlen M < 2 ^ 64 ->
  (forall M1 x M2 b, M = M1 ++ x :: M2 ->
     cond (Node (Some (aele x)) (ascore x) b) (t + zlen M1) = Some true) ->
  (forall x b, head B = Some x -> cond (Node (Some (aele x)) (ascore x) b) (t + zlen M) = Some false) ->
  exists h' zsl' d' m',
    delete_while fuel cond us (ap <$> head (M ++ B)) t removed h zsl d =
      Some (removed + zlen M, h', zsl', d') /\
    zrep h' zsl' (A ++ B) /\ dict_rep d' m' /\ without m m' M.
Proof.
  revert M t removed h zsl d m. induction fuel as [|fuel IH];
    intros M t removed h zsl d m HR Hus Hd Hf Ht0 Ht Hr0 Hr HM HB; [lia|].
  pose proof (head_node h zsl _ A (M ++ B) HR eq_refl) as Hnode.
  cbn [delete_while]. destruct M as [|x M]; cbn [app head fmap option_fmap option_map] in *.
  - change (zlen (@nil entry)) with 0 in *. rewrite Z.add_0_r in *. exists h, zsl, d, m.
    split_and!; [|done|done|done]. destruct B as [|b B]; [done|]. simpl. rewrite Hnode. mstep.
    by rewrite HB.
  - rewrite Hnode. mstep. specialize (HM [] x M) as Hx. change (zlen (@nil entry)) with 0 in Hx.
    rewrite Z.add_0_r in Hx. rewrite Hx by done. mstep. cbn [negb].
    assert (levels h !! (ap x, 0%nat) = Some (nxt 0 (M ++ B))) as ->.
    { apply (linked_at _ 0 (hd zsl :: A) x); [apply HR, HR|]. apply (low_0 HR).
      rewrite elem_of_cons, elem_of_app, elem_of_cons. auto. }
    mstep. destruct (deleteNode_spec HR eq_refl Hus) as (h1 & zsl1 & -> & HR1 & Hhd & Hlv & _). mstep.
    cbn [ele]. mstep. unfold dictDelete. destruct (genericDelete_spec d m (aele x) Hd) as (d1 & -> & Hd1). mstep.
    rewrite (nxt_0 h zsl _ (A ++ [x]) (M ++ B) HR) by by simplify_list_eq.
    rewrite zlen_cons in Ht, Hr. pose proof (zlen_nonneg M). rewrite (uN_small 64 (t + 1)), (uN_small 64 (removed + 1)) by lia.
    assert (ap x ∉ ap <$> hd zsl1 :: A ++ M ++ B) as Hfresh.
    { replace (hd zsl1) with (hd zsl) by (unfold hd; by rewrite Hhd).
      intros (a & Ea & Ha)%list_elem_of_fmap. by apply (apart (hd zsl :: A) (M ++ B) x (delete_nodup HR eq_refl) a Ha). }
    destruct (IH M (t + 1) (removed + 1) (zslFreeNode h1 (ap x)) zsl1 d1 (delete (aele x) m))
      as (h' & zsl' & d' & m' & HC & HR' & Hd' & Hw); try lia.
    + by apply zrep_free.
    + replace (hd zsl1) with (hd zsl) by (unfold hd; by rewrite Hhd). intros i Hi. apply Hus. lia.
    + done.
    + simpl in Hf. lia.
    + intros M1 y M2 b ->. replace (t + 1 + zlen M1) with (t + zlen (x :: M1)) by (rewrite zlen_cons; lia). by apply (HM (x :: M1) y M2).
    + intros y b Hy. replace (t + 1 + zlen M) with (t + zlen (x :: M)) by (rewrite zlen_cons; lia). by apply HB.
    + exists h', zsl', d', m'. rewrite zlen_cons. replace (removed + (1 + zlen M)) with (removed + 1 + zlen M) by lia.
      split_and!; try done. by eapply without_cons.
Qed.

(** A range given by two tests. *)
Lemma delete_range_spec gte lte out inn h zsl E d m :
  zrep h zsl E ->
  (forall a b, a ∈ E -> b ∈ E -> entry_lt a b -> gte a = true -> gte b = true) ->
  (forall a b, a ∈ E -> b ∈ E -> entry_lt a b -> lte b = true -> lte a = true) ->
  (forall a b t, a ∈ E -> out (Node (Some (aele a)) (ascore a) b) t = Some (negb (gte a))) ->
  (forall a b t, a ∈ E -> inn (Node (Some (aele a)) (ascore a) b) t = Some (lte a)) ->
  dict_rep d m ->
  exists h' zsl' d' m', delete_range out inn h zsl d = Some (zlen (inside gte lte E), h', zsl', d') /\
    zrep h' zsl' (outside gte lte E) /\ dict_rep d' m' /\ without m m' (inside gte lte E).
Proof.
  intros HR Hup Hdown Hout Hin Hd. unfold delete_range. pose proof (zr_bound _ _ _ HR) as Hb.
  destruct (first_gte HR gte Hup out Hout) as (A & B0 & us & p & HE & HA & HB0 & -> & Hst & Hl & Hfw & Hus). mstep.
  rewrite Hst. cbn [fst snd]. rewrite Hl. mstep. rewrite Hfw. clear Hfw Hl Hst.
  destruct (part HR lte Hdown) as (C & D & HE' & HC & HD).
  assert (exists M B, B0 = M ++ B /\ Forall (fun a => lte a = true) M /\ Forall (fun a => lte a = false) B) as (M & B & -> & HM & HB).
  { rewrite HE in HE'. apply app_eq_app in HE' as (k & [[-> ->] | [-> ->]]).
    - exists [], B0. rewrite Forall_app in HD. split_and!; [done|done|apply HD].
    - exists k, D. rewrite Forall_app in HC. split_and!; [done|apply HC|done]. }
  apply Forall_app in HB0 as [HgM HgB].
  assert (Forall (fun a => in_range gte lte a = true) M) as HinM.
  { rewrite Forall_forall in HgM, HM |- *. intros a Ha. unfold in_range. by rewrite HgM, HM. }
  assert (inside gte lte E = M /\ outside gte lte E = A ++ B) as [HiE HoE].
  { destruct (inside_none gte lte A (not_gte _ _ A HA)) as [HA1 HA2].
    destruct (inside_none gte lte B (not_lte _ _ B HB)) as [HB1 HB2]. destruct (inside_all gte lte M HinM) as [HM1 HM2].
    rewrite HE. unfold inside, outside in *. rewrite !filter_app. by rewrite HA1, HA2, HB1, HB2, HM1, HM2, app_nil_r. }
  rewrite HiE, HoE, HE, !zlen_app in *. zlen_pos. rewrite uN_small by lia.
  rewrite Forall_forall in HM, HB.
  destruct (delete_while_spec (walk_fuel zsl) inn us A M B (zlen A + 1) 0 h zsl d m)
    as (h' & zsl' & d' & m' & HC' & HR' & Hd' & Hw); try done; try lia.
  - unfold walk_fuel. rewrite (zr_length _ _ _ HR), !zlen_app. unfold zlen. lia.
  - intros M1 x M2 b ->. rewrite Hin, HM; [done| |]; rewrite ?elem_of_app, ?elem_of_cons; auto.
  - intros x b Hx. destruct B as [|y B]; [done|]. injection Hx as ->.
    rewrite Hin, HB; [done|apply list_elem_of_here|]. rewrite !elem_of_app, elem_of_cons. auto.
  - by exists h', zsl', d', m'.
Qed.

(** The elements of ranks [start..end], counted from 1. *)
Definition ranked (start end_ : Z) (E : list entry) : list entry :=
  take (Z.to_nat (end_ - start + 1)) (drop (Z.to_nat (start - 1)) E).
Definition unranked (start end_ : Z) (E : list entry) : list entry :=
  take (Z.to_nat (start - 1)) E ++ drop (Z.to_nat (end_ - start + 1)) (drop (Z.to_nat (start - 1)) E).

Lemma start_steers h zsl E start :
  zrep h zsl E -> 1 <= start ->
  let P := hd zsl :: take (Z.to_nat (start - 1)) E in
  steers h (fun _ t => Some (t <? start)) 64 (P ++ drop (Z.to_nat (start - 1)) E) (length P).
Proof.
  intros HR Hs P. subst P. simpl. rewrite take_drop. pose proof (zr_bound _ _ _ HR) as Hb.
  split_and!; [zlia|lia|]. intros [|j] a Ha Hj; [lia|]. simpl in Ha.
  destruct (rep_node HR a) as [b Hn]; [by eapply list_elem_of_lookup_2|]. eexists. split; [done|].
  apply lookup_lt_Some in Ha. rewrite length_take.
  destruct (Z.ltb_spec (Z.of_nat (S j)) start); f_equal; symmetry;
    [apply bool_decide_true|apply bool_decide_false]; lia.
Qed.

Lemma delete_ranks_spec h zsl E start end_ d m :
  zrep h zsl E -> 1 <= start < 2 ^ 32 -> 0 <= end_ < 2 ^ 32 -> dict_rep d m ->
  exists h' zsl' d' m', zslDeleteRangeByRank h zsl start end_ d =
      Some (zlen (ranked start end_ E), h', zsl', d') /\
    zrep h' zsl' (unranked start end_ E) /\ dict_rep d' m' /\ without m m' (ranked start end_ E).
Proof.
  intros HR Hs He Hd. unfold zslDeleteRangeByRank, delete_range, ranked, unranked.
  pose proof (zr_bound _ _ _ HR) as Hb.
  set (A := take (Z.to_nat (start - 1)) E). set (T := drop (Z.to_nat (start - 1)) E).
  set (n := Z.to_nat (end_ - start + 1)).
  assert (E = A ++ T) as HE by (symmetry; apply take_drop).
  destruct (search_spec HR (fun _ t => Some (t <? start)) 64 (hd zsl :: A) T) as (us & -> & Hus);
    [by rewrite HE|done|apply start_steers; [done|lia]|]. mstep.
  destruct (stop_spec HR A T us HE Hus) as (p & _ & -> & _ & Hp). cbn [fst snd]. rewrite Hp. mstep.
  rewrite (nxt_0 h zsl E A T HR HE). rewrite HE, zlen_app in Hb. zlen_pos. rewrite uN_small by lia.
  assert (zlen A + 1 <= start /\ (T <> [] -> zlen A + 1 = start)) as [HA1 HA2].
  { subst A T. unfold zlen. rewrite length_take. split; [lia|]. intros HT.
    destruct (decide (Z.to_nat (start - 1) < length E)%nat); [lia|]. by rewrite drop_ge in HT by lia. }
  rewrite <- (take_drop n T) in HE, Hb. rewrite zlen_app in Hb. replace (head T) with (head (take n T ++ drop n T)) by by rewrite take_drop. zlen_pos.
  rewrite HE in HR.
  destruct (delete_while_spec (walk_fuel zsl) (fun _ t => Some (t <=? end_)) us A (take n T) (drop n T)
    (zlen A + 1) 0 h zsl d m) as (h' & zsl' & d' & m' & HC' & HR' & Hd' & Hw); try done; try lia.
  - apply Hus.
  - unfold walk_fuel. rewrite (zr_length _ _ _ HR), !zlen_app. unfold zlen. lia.
  - intros M1 x M2 b HM. f_equal. apply Z.leb_le. rewrite HA2 by (intros HT; rewrite HT in HM; destruct n, M1; done).
    apply (f_equal length) in HM. rewrite length_take, length_app in HM. simpl in HM. subst n. unfold zlen. lia.
  - intros x b Hx. f_equal. apply Z.leb_gt. destruct (drop n T) as [|y B] eqn:ED; [done|].
    assert (n < length T)%nat as Hn. { destruct (decide (n < length T)%nat); [done|]. by rewrite drop_ge in ED by lia. }
    rewrite HA2 by (intros ->; simpl in Hn; lia). unfold zlen. rewrite length_take. lia.
  - by exists h', zsl', d', m'.
Qed.
End DeleteRange.

(** ** The contract *)

(** Queries by score: [zslFirstInRange] and [zslLastInRange] are the first and the last
    node whose score is in the range, NULL when there is none, for inclusive and
    exclusive ends; in particular their assertion never fails. *)
Theorem zsl_score_queries h zsl E range :
  zrep h zsl E -> isnan (zmin range) = false -> isnan (zmax range) = false ->
  zslFirstInRange h zsl range = Some (ap <$> head (inside (score_gte range) (score_lte range) E)) /\
  zslLastInRange h zsl range = Some (ap <$> last (inside (score_gte range) (score_lte range) E)).
Proof. intros HR Hmin Hmax. split; [by apply firstInRange_spec|by apply lastInRange_spec]. Qed.

(** Queries by name, among elements of equal score: the same with [zslFirstInLexRange]
    and [zslLastInLexRange], the bounds - and + being below and above every name. *)
Theorem zsl_name_queries h zsl E range :
  zrep h zsl E -> (forall a b, a ∈ E -> b ∈ E -> SFeqb (ascore a) (ascore b) = true) ->
  zslFirstInLexRange h zsl range = Some (ap <$> head (inside (name_gte range) (name_lte range) E)) /\
  zslLastInLexRange h zsl range = Some (ap <$> last (inside (name_gte range) (name_lte range) E)).
Proof. intros HR Hs. split; [by apply firstInLexRange_spec|by apply lastInLexRange_spec]. Qed.

(** C32. Deletion of ranges: exactly the elements in the range of scores, of names or of
    ranks leave the list, and their names leave the dictionary; the result is their number. *)
Theorem zsl_delete_ranges `{!dictType bytes, !DictTypeOk bytes} h zsl E d m :
  zrep h zsl E -> dict_rep d m ->
  (forall range, isnan (zmin range) = false -> isnan (zmax range) = false ->
     let M := inside (score_gte range) (score_lte range) E in
     exists h' zsl' d' m', zslDeleteRangeByScore h zsl range d = Some (zlen M, h', zsl', d') /\
       zrep h' zsl' (outside (score_gte range) (score_lte range) E) /\ dict_rep d' m' /\ without m m' M) /\
  (forall range, (forall a b, a ∈ E -> b ∈ E -> SFeqb (ascore a) (ascore b) = true) ->
     let M := inside (name_gte range) (name_lte range) E in
     exists h' zsl' d' m', zslDeleteRangeByLex h zsl range d = Some (zlen M, h', zsl', d') /\
       zrep h' zsl' (outside (name_gte range) (name_lte range) E) /\ dict_rep d' m' /\ without m m' M) /\
  (forall start end_, 1 <= start < 2 ^ 32 -> 0 <= end_ < 2 ^ 32 ->
     let M := ranked start end_ E in
     exists h' zsl' d' m', zslDeleteRangeByRank h zsl start end_ d = Some (zlen M, h', zsl', d') /\
       zrep h' zsl' (unranked start end_ E) /\ dict_rep d' m' /\ without m m' M).
Proof.
  intros HR Hd. split_and!.
  - intros range Hmin Hmax M. apply delete_range_spec; try done.
    + by apply (score_gte_up HR).
    + by apply (score_lte_down HR).
    + intros a b t Ha. cbn [score]. f_equal. by apply (score_gte_neg HR).
  - intros range Hs M. apply delete_range_spec; try done.
    + by apply (name_gte_up HR).
    + by apply (name_lte_down HR).
  - intros start end_ Hs He M. by apply delete_ranks_spec.
Qed.
