(* ===== verification/Zset.v ===== *)
(** * Sorted sets (t_zset.c): a dictionary and a skiplist

    The branches of the sorted set API for the encoding OBJ_ENCODING_SKIPLIST.  The
    dictionary maps an element to the address of its score, that of its node in the
    skiplist. *)

From Stdlib Require Import ZArith Lia SpecFloat.
From stdpp Require Import base numbers option fin_maps gmap list sorting.
From S2P Require Import Prelude Memory Sds Dict Zskiplist SdsSpec DictFacts DictSpec ZslFacts ZslSpec ZslDelete ZslRank ZslRange.

Local Open Scope Z_scope.
Local Open Scope redis_scope.

Definition ZADD_INCR : Z := 1.
Definition ZADD_NX : Z := 2.
Definition ZADD_XX : Z := 4.
Definition ZADD_NOP : Z := 8.
Definition ZADD_NAN : Z := 16.
Definition ZADD_ADDED : Z := 32.
Definition ZADD_UPDATED : Z := 64.

Record zset := Zset { zdict : dict bytes nat; zsl : zskiplist }.

Definition has_flag (flags f : Z) : bool := negb (Z.land flags f =? 0).

(** The sum of two doubles. *)
Definition add_double (x y : double) : double := SFadd 53 1024 x y.

Section Zset.
Context `{ZAlloc, dictType bytes}.

(** [*(double* )dictGetVal(de)] *)
Definition score_at (h : heap) (p : nat) : option double := let! n := nodes h !! p in Some (score n).

Definition zsetCreate (h : heap) : option (heap * zset) :=
  let! (h, zsl) := zslCreate h in
  Some (h, Zset dictCreate zsl).

Definition zsetLength (zs : zset) : Z := zlength (zsl zs).

(** The score, [None] for C_ERR; the lookup may rehash. *)
Definition zsetScore (h : heap) (zs : zset) (member : bytes) : option (option double * zset) :=
  let! (de, d) := dictFind (zdict zs) member in
  match de with
  | None => Some (None, Zset d (zsl zs))
  | Some de => let! (_, p) := entry_at d de in
               let! s := score_at h p in
               Some (Some s, Zset d (zsl zs))
  end.

(** [zsetAdd] of a sorted set encoded as a skiplist.  The result, [*flags], [*newscore] when it is written, the numbers left,
    the heap and the set.  [dict_can_resize] and [fresh] are those of [dictAdd]. *)
Definition zsetAdd_branch (dict_can_resize : bool) (fresh : nat) (rs : list Z) (h : heap) (zs : zset)
    (s : double) (e : bytes) (incr nx xx : bool)
    : option (Z * Z * option double * list Z * heap * zset) :=
  let! (de, d) := dictFind (zdict zs) e in
  let zs := Zset d (zsl zs) in
  match de with
  | Some de =>
      if nx then Some (1, ZADD_NOP, None, rs, h, zs) else
      let! (_, p) := entry_at d de in
      let! curscore := score_at h p in
      let s := if incr then add_double s curscore else s in
      if incr && isnan s then Some (0, ZADD_NAN, None, rs, h, zs) else
      let newscore := if incr then Some s else None in
      if negb (SFeqb s curscore) then
        let! (znode, rs, h, zsl) := zslUpdateScore rs h (zsl zs) curscore e s in
        let! d := dictSetVal d de znode in
        Some (1, ZADD_UPDATED, newscore, rs, h, Zset d zsl)
      else Some (1, 0, newscore, rs, h, zs)
  | None =>
      if negb xx then
        let! (znode, rs, h, zsl) := zslInsert rs h (zsl zs) s e in
        let! (retval, d) := dictAdd dict_can_resize d e znode fresh in
        if negb (retval =? DICT_OK) then None else
        Some (1, ZADD_ADDED, Some s, rs, h, Zset d zsl)
      else Some (1, ZADD_NOP, None, rs, h, zs)
  end.
Definition zsetAdd_skiplist (dict_can_resize : bool) (fresh : nat) (rs : list Z) (h : heap) (zs : zset)
    (s : double) (e : bytes) (flags : Z)
    : option (Z * Z * option double * list Z * heap * zset) :=
  let incr := has_flag flags ZADD_INCR in
  let nx := has_flag flags ZADD_NX in
  let xx := has_flag flags ZADD_XX in
  if isnan s then Some (0, ZADD_NAN, None, rs, h, zs) else
  zsetAdd_branch dict_can_resize fresh rs h zs s e incr nx xx.

Definition zsetDel (dict_can_resize : bool) (h : heap) (zs : zset) (e : bytes)
    : option (Z * heap * zset) :=
  let! (de, d) := dictUnlink (zdict zs) e in
  match de with
  | None => Some (0, h, Zset d (zsl zs))
  | Some (_, p) =>
      let! s := score_at h p in
      let! (retval, _, h, zsl) := zslDelete h (zsl zs) s e false in
      if retval =? 0 then None else
      let! d := (if htNeedsResize d then let! (_, d) := dictResize dict_can_resize d in Some d
                 else Some d) in
      Some (1, h, Zset d zsl)
  end.

(** The rank counted from 0, from the other end when [reverse], or -1. *)
Definition zsetRank (h : heap) (zs : zset) (e : bytes) (reverse : bool) : option (Z * zset) :=
  let llen := zsetLength zs in
  let! (de, d) := dictFind (zdict zs) e in
  match de with
  | None => Some (-1, Zset d (zsl zs))
  | Some de =>
      let! (_, p) := entry_at d de in
      let! s := score_at h p in
      let! rank := zslGetRank h (zsl zs) s e in
      if rank =? 0 then None else
      Some (i64 (u64 (if reverse then llen - rank else rank - 1)), Zset d (zsl zs))
  end.
End Zset.

(** * Contract of sorted sets: a map from elements to scores *)

(** ** Entries as maps *)

Section Assoc.
Context {V : Type} (f : entry -> V).

Definition assoc (E : list entry) : gmap bytes V := list_to_map ((fun a => (aele a, f a)) <$> E).

Lemma assoc_keys (E : list entry) : ((fun a => (aele a, f a)) <$> E).*1 = aele <$> E.
Proof. rewrite <- list_fmap_compose. by apply list_fmap_ext. Qed.
Lemma assoc_perm E E' : NoDup (aele <$> E) -> E ≡ₚ E' -> assoc E = assoc E'.
Proof.
  intros Hnd HP. unfold assoc. apply list_to_map_proper; [by rewrite assoc_keys|by rewrite HP].
Qed.
Lemma assoc_in E a : NoDup (aele <$> E) -> a ∈ E -> assoc E !! aele a = Some (f a).
Proof.
  intros Hnd Ha. apply elem_of_list_to_map; [by rewrite assoc_keys|].
  by apply (list_elem_of_fmap_2 (fun a => (aele a, f a))).
Qed.
Lemma assoc_inv E e v : NoDup (aele <$> E) -> assoc E !! e = Some v -> exists a, a ∈ E /\ aele a = e /\ f a = v.
Proof.
  intros Hnd Hl. apply elem_of_list_to_map in Hl; [|by rewrite assoc_keys].
  apply list_elem_of_fmap in Hl as (a & [= -> ->] & Ha). eauto.
Qed.
Lemma assoc_none E e : assoc E !! e = None <-> e ∉ aele <$> E.
Proof. unfold assoc. rewrite <- not_elem_of_list_to_map, assoc_keys. done. Qed.
Lemma assoc_insert E x A B :
  NoDup (aele <$> E) -> E ≡ₚ x :: A ++ B -> assoc E = <[aele x := f x]> (assoc (A ++ B)).
Proof. intros Hnd HP. by rewrite (assoc_perm E _ Hnd HP). Qed.
Lemma assoc_delete A x B : NoDup (aele <$> A ++ x :: B) -> assoc (A ++ B) = delete (aele x) (assoc (A ++ x :: B)).
Proof.
  intros Hnd. rewrite (assoc_insert (A ++ x :: B) x A B) by (try done; by rewrite Permutation_middle).
  rewrite delete_insert_id; [done|]. apply assoc_none. rewrite <- Permutation_middle in Hnd.
  by apply NoDup_cons in Hnd as [? _].
Qed.
End Assoc.

Section Contract.
Context `{ZAllocOk, !dictType bytes, !DictTypeOk bytes}.

(** The set [zs] maps elements to scores as [m] does: its skiplist holds the pairs in
    order, and its dictionary leads each element to its node. *)
Definition zset_entries (h : heap) (zs : zset) (E : list entry) : Prop :=
  zrep h (zsl zs) E /\ dict_rep (zdict zs) (assoc ap E).
Definition zset_rep (h : heap) (zs : zset) (m : gmap bytes double) : Prop :=
  exists E, zset_entries h zs E /\ m = assoc ascore E.

Lemma entries_count h zs E : zset_entries h zs E -> dictSize (zdict zs) = zlen E.
Proof.
  intros [HR [Hd Hm]]. rewrite (dictSize_all _ Hd). pose proof (zr_names _ _ _ HR) as Hn.
  assert (all (zdict zs) ≡ₚ (fun a => (aele a, ap a)) <$> E) as HP.
  { rewrite <- (map_to_list_to_map (M := gmap bytes) (all (zdict zs))), Hm by apply Hd.
    unfold assoc. by rewrite map_to_list_to_map by by rewrite assoc_keys. }
  rewrite (zlen_perm _ _ HP). unfold zlen. by rewrite length_fmap.
Qed.

Lemma rep_length h zs m : zset_rep h zs m -> zsetLength zs = Z.of_nat (base.size m).
Proof.
  intros (E & [HR _] & ->). unfold zsetLength. rewrite (zr_length _ _ _ HR). unfold zlen. f_equal.
  rewrite <- length_map_to_list. unfold assoc.
  rewrite map_to_list_to_map by (rewrite assoc_keys; apply HR). by rewrite length_fmap.
Qed.

(** Looking an element up leads to its entry. *)
Lemma find_entry h zs E e :
  zset_entries h zs E ->
  exists de d, dictFind (zdict zs) e = Some (de, d) /\ zset_entries h (Zset d (zsl zs)) E /\
    match assoc ascore E !! e with
    | Some s => exists x l, x ∈ E /\ aele x = e /\ ascore x = s /\ de = Some l /\ points d l e (ap x) /\
        score_at h (ap x) = Some s /\ is_key s e x
    | None => de = None /\ e ∉ aele <$> E
    end.
Proof.
  intros [HR Hd]. pose proof (zr_names _ _ _ HR) as Hn.
  destruct (find_spec (zdict zs) _ e Hd) as (de & d & HF & Hd' & Hde). exists de, d. split; [done|].
  split; [by split|]. destruct (assoc ascore E !! e) as [s|] eqn:Es.
  - apply (assoc_inv _ _ _ _ Hn) in Es as (x & Hx & <- & <-). rewrite (assoc_in _ E x Hn Hx) in Hde.
    destruct Hde as (l & -> & Hl). exists x, l. split_and!; try done.
    + unfold score_at. destruct (rep_node HR x Hx) as [b ->]. done.
    + split; [done|]. by apply SFeqb_key; [apply (rep_number HR)..|].
  - apply assoc_none in Es. rewrite (proj2 (assoc_none ap E e) Es) in Hde. done.
Qed.



(** A new score for an element that is there. *)
Lemma update_entry rs level rs' h (d : dict bytes nat) zl E x l cur e s :
  zset_entries h (Zset d zl) E -> x ∈ E -> is_key cur e x -> isnan s = false -> points d l e (ap x) ->
  zslRandomLevel rs = Some (level, rs') -> cur = ascore x ->
  exists y rs2 h' zl' d', zslUpdateScore rs h zl cur e s = Some (y, rs2, h', zl') /\
    dictSetVal d l y = Some d' /\ zset_rep h' (Zset d' zl') (<[e := s]> (assoc ascore E)).
Proof.
  intros [HR Hd] Hx Hk Hs Hl Hrs ->. simpl in HR, Hd. pose proof (zr_names _ _ _ HR) as Hn.
  destruct (update_spec rs level rs' h zl E x (ascore x) e s HR Hx Hk (rep_number HR x Hx) Hs Hrs)
    as (A & B & y & rs2 & h' & zl' & E' & HE & HU & HR' & HP & Hye & Hys).
  destruct (setVal_points d _ l e (ap x) (ap y) Hd Hl) as (d' & Hset & Hd').
  exists (ap y), rs2, h', zl', d'. split; [done|]. split; [done|]. exists E'.
  pose proof (zr_names _ _ _ HR') as Hn'. destruct Hk as [Hxe _].
  assert (E ≡ₚ x :: A ++ B) as HPE by (rewrite HE; by rewrite Permutation_middle).
  rewrite (assoc_insert ascore E x A B Hn HPE), (assoc_insert ascore E' y A B Hn' HP), Hye, Hys, <- Hxe, insert_insert_eq.
  split; [|done]. split; [done|]. simpl.
  rewrite (assoc_insert ap E' y A B Hn' HP), Hye, <- Hxe.
  by rewrite (assoc_insert ap E x A B Hn HPE), <- Hxe, insert_insert_eq in Hd'.
Qed.

(** A new element. *)
Lemma insert_entry can_resize fresh rs level rs' h (d : dict bytes nat) zl E e s :
  zset_entries h (Zset d zl) E -> e ∉ aele <$> E -> isnan s = false -> zlen E + 1 < 2 ^ 32 ->
  zslRandomLevel rs = Some (level, rs') ->
  exists y h' zl' d', zslInsert rs h zl s e = Some (y, rs', h', zl') /\
    dictAdd can_resize d e y fresh = Some (DICT_OK, d') /\
    zset_rep h' (Zset d' zl') (<[e := s]> (assoc ascore E)).
Proof.
  intros HZ He Hs Hlen Hrs. pose proof (entries_count _ _ _ HZ) as Hsz. destruct HZ as [HR Hd]. simpl in HR, Hd, Hsz.
  destruct (zsl_insert_spec rs h zl E s e level rs' HR Hs He Hlen Hrs)
    as (A & B & y & h' & zl' & HE & HI & HR' & _ & Hye & Hys & _).
  destruct (add_new can_resize d (assoc ap E) e (ap y) fresh Hd) as (d' & Hadd & Hd');
    [lia|by apply assoc_none|].
  exists (ap y), h', zl', d'. split; [done|]. split; [done|]. exists (A ++ y :: B).
  pose proof (zr_names _ _ _ HR') as Hn'.
  assert (A ++ y :: B ≡ₚ y :: A ++ B) as HP by by rewrite Permutation_middle.
  rewrite (assoc_insert ascore _ y A B Hn' HP), Hye, Hys, <- HE. split; [|done]. split; [done|]. simpl.
  by rewrite (assoc_insert ap _ y A B Hn' HP), Hye, <- HE.
Qed.

(** What ZADD and ZINCRBY mean for one element: the result, the flags, the score that is reported and the map.  A score is
    reported for a new element, and for an increment that is carried out. *)
Definition spec_add (m : gmap bytes double) (s : double) (e : bytes) (incr nx xx : bool)
    : Z * Z * option double * gmap bytes double :=
  if isnan s then (0, ZADD_NAN, None, m) else
  match m !! e with
  | Some cur =>
      if nx then (1, ZADD_NOP, None, m) else
      let s := if incr then add_double s cur else s in
      if isnan s then (0, ZADD_NAN, None, m) else
      let reported := if incr then Some s else None in
      if SFeqb s cur then (1, 0, reported, m) else (1, ZADD_UPDATED, reported, <[e := s]> m)
  | None =>
      if xx then (1, ZADD_NOP, None, m) else (1, ZADD_ADDED, Some s, <[e := s]> m)
  end.

Lemma flag_bit flags k : 0 <= k -> has_flag flags (Z.shiftl 1 k) = Z.testbit flags k.
Proof.
  intros Hk. unfold has_flag. rewrite Z.shiftl_mul_pow2, Z.mul_1_l by done. destruct (Z.testbit flags k) eqn:E.
  - apply negb_true_iff, Z.eqb_neq. intros Hz. assert (Z.testbit (Z.land flags (2 ^ k)) k = true) as Ht
      by (rewrite Z.land_spec, E, Z.pow2_bits_true by done; done). by rewrite Hz, Z.bits_0 in Ht.
  - apply negb_false_iff, Z.eqb_eq, Z.bits_inj. intros i. rewrite Z.land_spec, Z.bits_0.
    destruct (decide (i = k)) as [->|Hne]; [by rewrite E|]. rewrite Z.pow2_bits_false by done. apply andb_false_r.
Qed.

(** C10. On a sorted set in the skiplist encoding, [zsetAdd] implements the insertion or update of an element under the
    options INCR, NX and XX, bits 0, 1 and 2 of the flags: the result, the flags, the score reported and the new map, with the order, the ranks and the
    dictionary consistent again; an increment that is not a number changes nothing. *)
Theorem zsetAdd_correct can_resize fresh rs level rs' h zs m s e flags :
  zset_rep h zs m -> zsetLength zs + 1 < 2 ^ 32 -> zslRandomLevel rs = Some (level, rs') ->
  exists rs2 h' zs', let '(r, f, ns, m') := spec_add m s e (Z.testbit flags 0) (Z.testbit flags 1) (Z.testbit flags 2) in
    zsetAdd_skiplist can_resize fresh rs h zs s e flags = Some (r, f, ns, rs2, h', zs') /\ zset_rep h' zs' m'.
Proof.
  intros (E & HE & ->) Hlen Hrs. unfold spec_add, zsetAdd_skiplist, zsetAdd_branch. destruct (isnan s) eqn:Hs.
  { exists rs, h, zs. split; [done|]. by exists E. }
  rewrite (flag_bit flags 0 ltac:(done) : has_flag flags ZADD_INCR = _), (flag_bit flags 1 ltac:(done) : has_flag flags ZADD_NX = _),
    (flag_bit flags 2 ltac:(done) : has_flag flags ZADD_XX = _).
  destruct (find_entry h zs E e HE) as (de & d & -> & HE' & Hcase). mstep.
  destruct (assoc ascore E !! e) as [cur|] eqn:Ecur.
  - destruct Hcase as (x & l & Hx & Hxe & Hxs & -> & Hl & Hscore & Hk).
    destruct (Z.testbit flags 1).
    { eexists rs, h, _. split; [done|]. by exists E. }
    rewrite (points_entry _ _ _ _ Hl). mstep. rewrite Hscore. mstep.
    set (s' := if Z.testbit flags 0 then add_double s cur else s).
    set (ns := if Z.testbit flags 0 then Some s' else None).
    assert (Z.testbit flags 0 && isnan s' = isnan s') as ->.
    { subst s'. by destruct (Z.testbit flags 0). }
    destruct (isnan s') eqn:Hs'; [eexists rs, h, _; split; [done|by exists E]|].
    destruct (SFeqb s' cur); simpl negb; cbv iota.
    { eexists rs, h, _. split; [done|by exists E]. }
    destruct (update_entry rs level rs' h d (zsl zs) E x l cur e s') as (y & rs2 & h' & zl' & d' & HU & Hset & Hrep);
      try done. cbn [zsl zdict]. rewrite HU. mstep. rewrite Hset. mstep. eexists rs2, h', _. done.
  - destruct Hcase as [-> He]. destruct (Z.testbit flags 2); simpl negb; cbv iota.
    { eexists rs, h, _. split; [done|by exists E]. }
    assert (zlen E + 1 < 2 ^ 32) as Hb.
    { unfold zsetLength in Hlen. by rewrite (zr_length _ _ _ (proj1 HE)) in Hlen. }
    destruct (insert_entry can_resize fresh rs level rs' h d (zsl zs) E e s HE' He Hs Hb Hrs)
      as (y & h' & zl' & d' & HI & Hadd & Hrep).
    cbn [zsl zdict]. rewrite HI. mstep. rewrite Hadd. mstep. by exists rs', h', (Zset d' zl').
Qed.

(** [zsetDel] removes the element from both structures and tells whether it was there;
    neither its assertion nor the resize of the dictionary can fail. *)
Theorem zsetDel_correct can_resize h zs m e :
  zset_rep h zs m ->
  exists h' zs', zsetDel can_resize h zs e =
      Some (match m !! e with Some _ => 1 | None => 0 end, h', zs') /\
    zset_rep h' zs' (delete e m).
Proof.
  intros (E & HZ & ->). pose proof (entries_count _ _ _ HZ) as Hsz. destruct HZ as [HR Hd].
  pose proof (zr_names _ _ _ HR) as Hn. unfold zsetDel, dictUnlink.
  destruct (genericDelete_spec (zdict zs) _ e Hd) as (d & -> & Hd'). mstep.
  destruct (assoc ascore E !! e) as [s|] eqn:Es.
  - apply (assoc_inv _ _ _ _ Hn) in Es as (x & Hx & <- & <-). rewrite (assoc_in ap E x Hn Hx). simpl.
    unfold score_at. destruct (rep_node HR x Hx) as [b ->]. mstep. cbn [score].
    pose proof (rep_number HR x Hx) as Hnum.
    assert (is_key (ascore x) (aele x) x) as Hk by (split; [done|by apply SFeqb_key]).
    destruct (delete_spec h (zsl zs) E (ascore x) (aele x) false HR Hnum)
      as [(A & y & B & h' & zl' & HE & [Hye _] & -> & HR' & _) | [Hno _]]; [|by destruct (Hno x Hx)].
    mstep. change (1 =? 0) with false. cbv iota. rewrite HE in Hn, Hd' |- *.
    rewrite <- Hye, <- (assoc_delete ap A y B Hn) in Hd'. rewrite <- Hye, <- (assoc_delete ascore A y B Hn).
    assert (exists d2, (if htNeedsResize d then let! (_, d) := dictResize can_resize d in Some d else Some d) = Some d2 /\
      dict_rep d2 (assoc ap (A ++ B))) as (d2 & -> & Hd2).
    { destruct (htNeedsResize d); [|eauto]. destruct (resize_rep can_resize d _ Hd') as (r & d2 & -> & Hd2 & _); [|eauto].
      pose proof (entries_count h' (Zset d zl') (A ++ B) (conj HR' Hd')) as Hc. simpl in Hc.
      pose proof (zr_bound _ _ _ HR'). lia. }
    mstep. eexists _, _. split; [done|]. exists (A ++ B). done.
  - apply assoc_none in Es. rewrite (proj2 (assoc_none ap E e) Es). simpl. eexists _, _. split; [done|].
    exists E. split.
    + split; [done|]. simpl. rewrite delete_id in Hd' by by apply assoc_none. done.
    + apply delete_id. by apply assoc_none.
Qed.

(** The pairs below, and above, that of an element in the order of the set. *)
Definition below (s : double) (e : bytes) (kv : bytes * double) : Prop := lex (skey kv.2 kv.1) (skey s e) = Lt.
Definition above (s : double) (e : bytes) (kv : bytes * double) : Prop := lex (skey kv.2 kv.1) (skey s e) = Gt.
#[local] Instance below_dec s e kv : Decision (below s e kv).
Proof. unfold below. apply _. Defined.
#[local] Instance above_dec s e kv : Decision (above s e kv).
Proof. unfold above. apply _. Defined.

Lemma count_all {X} (P : X -> Prop) `{!forall x, Decision (P x)} L : Forall P L -> length (filter P L) = length L.
Proof. induction 1; [done|]. rewrite filter_cons, decide_True by done. simpl. auto. Qed.
Lemma count_none {X} (P : X -> Prop) `{!forall x, Decision (P x)} L : Forall (fun x => ~ P x) L -> length (filter P L) = 0%nat.
Proof. induction 1; [done|]. rewrite filter_cons, decide_False by done. auto. Qed.
Lemma count_fmap {X Y} (f : X -> Y) (P : Y -> Prop) `{!forall y, Decision (P y)} L :
  length (filter P (f <$> L)) = length (filter (fun x => P (f x)) L).
Proof.
  induction L as [|x L IH]; [done|]. rewrite fmap_cons, !filter_cons. destruct (decide (P (f x))); simpl; auto.
Qed.
Lemma count_split (P : bytes * double -> Prop) `{!forall kv, Decision (P kv)} E A x B :
  NoDup (aele <$> E) -> E = A ++ x :: B -> ~ P (aele x, ascore x) ->
  length (filter P (map_to_list (assoc ascore E))) =
    length (filter (fun a => P (aele a, ascore a)) (A ++ B)).
Proof.
  intros Hn HE Hx. unfold assoc.
  rewrite map_to_list_to_map by by rewrite assoc_keys.
  rewrite count_fmap, HE, !filter_app, filter_cons, decide_False by done. done.
Qed.

(** [zsetScore] is the score of the element; [zsetRank] is the number of elements below
    it in the order of scores, then names, or above it when [reverse]; -1 when the
    element is not there. *)
Theorem zsetRank_correct h zs m e :
  zset_rep h zs m ->
  exists zs', zset_rep h zs' m /\ zsetScore h zs e = Some (m !! e, zs') /\
    match m !! e with
    | Some s =>
        zsetRank h zs e false = Some (Z.of_nat (length (filter (below s e) (map_to_list m))), zs') /\
        zsetRank h zs e true = Some (Z.of_nat (length (filter (above s e) (map_to_list m))), zs')
    | None => forall reverse, zsetRank h zs e reverse = Some (-1, zs')
    end.
Proof.
  intros (E & HZ & ->). pose proof HZ as [HR _]. pose proof (zr_names _ _ _ HR) as Hn.
  pose proof (zr_bound _ _ _ HR) as Hb.
  destruct (find_entry h zs E e HZ) as (de & d & HF & HZ' & Hcase). exists (Zset d (zsl zs)).
  split; [by exists E|]. unfold zsetScore, zsetRank. rewrite HF. mstep.
  destruct (assoc ascore E !! e) as [s|]; [|by destruct Hcase as [-> _]].
  destruct Hcase as (x & l & Hx & Hxe & Hxs & -> & Hl & Hscore & Hk).
  rewrite (points_entry _ _ _ _ Hl). mstep. rewrite Hscore. mstep. split; [done|].
  apply list_elem_of_split in Hx as Hsp. destruct Hsp as (A & B & HE).
  pose proof (rep_number HR x Hx) as Hnum. rewrite Hxs in Hnum.
  rewrite (get_rank_found HR s e A x B Hnum HE Hk). mstep. pose proof (zlen_nonneg A). pose proof (zlen_nonneg B).
  rewrite (proj2 (Z.eqb_neq (zlen A + 1) 0)) by lia.
  pose proof (zr_sorted _ _ _ HR) as HS. rewrite HE in HS. apply sorted_middle in HS as [HA HB].
  assert (skey s e = akey x) as Hkey by (unfold akey; by rewrite Hxs, Hxe).
  unfold zsetLength. rewrite (zr_length _ _ _ HR).
  rewrite (count_split _ E A x B Hn HE), (count_split _ E A x B Hn HE)
    by (unfold below, above; cbn [fst snd]; rewrite Hkey; fold (akey x); by rewrite lex_refl).
  rewrite !filter_app, !length_app. rewrite HE, zlen_app, zlen_cons in Hb |- *.
  assert (length (filter (fun a => below s e (aele a, ascore a)) A) = length A /\
    length (filter (fun a => below s e (aele a, ascore a)) B) = 0%nat /\
    length (filter (fun a => above s e (aele a, ascore a)) A) = 0%nat /\
    length (filter (fun a => above s e (aele a, ascore a)) B) = length B) as (-> & -> & -> & ->).
  { unfold entry_lt, akey in HA, HB. fold (akey x) in HA, HB. rewrite <- Hkey in HA, HB.
    split_and!; [apply count_all|apply count_none|apply count_none|apply count_all];
      (eapply Forall_impl; [(exact HA || exact HB)|]); intros a; unfold below, above; cbn [fst snd]; simpl.
    - done.
    - intros Ha%lex_gt. congruence.
    - congruence.
    - apply lex_gt. }
  split; do 2 f_equal.
  - rewrite (uN_small 64) by lia. rewrite sN_small by (unfold is_s; lia). unfold zlen. lia.
  - rewrite (uN_small 64) by lia. rewrite sN_small by (unfold is_s; lia). unfold zlen. lia.
Qed.
End Contract.

(** * A concrete skiplist and sorted set *)

Module Example_zset.

(** An allocator that takes an address that is not in use. *)
Definition used_addresses (h : heap) : gset nat := dom (nodes h) ∪ set_map fst (dom (levels h)).
#[global] Instance first_free : ZAlloc :=
  {| zmalloc_node h := fresh (used_addresses h); junk_level := Level (Some 77%nat) 77; junk_backward := Some 77%nat |}.
#[global] Instance first_free_ok : ZAllocOk.
Proof.
  constructor; intros h; [|intros i]; simpl; pose proof (is_fresh (used_addresses h)) as Hf; unfold used_addresses at 2 in Hf.
  - apply not_elem_of_dom. set_solver.
  - apply not_elem_of_dom. intros Hin. apply Hf. apply elem_of_union_r, elem_of_map. eexists. split; [|exact Hin]. done.
Qed.

(** Names are hashed by their length. *)
#[global] Instance name_type : dictType bytes :=
  {| hashFunction k := u64 (zlen k); keyCompare k1 k2 := bool_decide (k1 = k2) |}.
#[global] Instance name_type_ok : DictTypeOk bytes.
Proof. constructor; [intros; apply uN_bound; lia|intros; apply bool_decide_eq_true]. Qed.

Definition one : double := S754_finite false 4503599627370496 (-52).
Definition two : double := S754_finite false 4503599627370496 (-51).
Definition three : double := S754_finite false 6755399441055744 (-51).

(** a and b with score 1, c with score 2, at the addresses 1, 2 and 3, with 2, 1 and 3
    levels. *)
Definition ea : entry := Entry 1 2 [97] one.
Definition eb : entry := Entry 2 1 [98] one.
Definition ec : entry := Entry 3 3 [99] two.
Definition abc : list entry := [ea; eb; ec].
Definition abc_heap : heap := Heap
  (list_to_map [(0%nat, Node None (S754_zero false) None); (1%nat, Node (Some [97]) one None);
                (2%nat, Node (Some [98]) one (Some 1%nat)); (3%nat, Node (Some [99]) two (Some 2%nat))])
  (list_to_map
     ([((0, 0)%nat, Level (Some 1%nat) 1); ((0, 1)%nat, Level (Some 1%nat) 1); ((0, 2)%nat, Level (Some 3%nat) 3);
       ((1, 0)%nat, Level (Some 2%nat) 1); ((1, 1)%nat, Level (Some 3%nat) 2); ((2, 0)%nat, Level (Some 3%nat) 1);
       ((3, 0)%nat, Level None 0); ((3, 1)%nat, Level None 0); ((3, 2)%nat, Level None 0)] ++
      ((fun i => ((0, i)%nat, Level None 0)) <$> seq 3 29))).
Definition abc_list : zskiplist := Zskiplist 0 (Some 3%nat) 3 3.

Lemma abc_rep : zrep abc_heap abc_list abc.
Proof.
  constructor; try (vm_compute; done).
  - vm_compute. apply (bool_decide_unpack (NoDup [0; 1; 2; 3]%nat)). vm_compute. done.
  - intros i Hi. destruct i as [|[|[|i]]]; [..|simpl in Hi; lia]; repeat split; intros Hn;
      first [vm_compute; reflexivity | exfalso; apply Hn; unfold low; simpl; lia].
  - intros i Hi. exists 0.
    assert (Forall (fun i => levels abc_heap !! (0%nat, i) = Some (Level None 0)) (seq 3 29)) as HF by (vm_compute; repeat constructor).
    rewrite Forall_forall in HF. apply HF. rewrite elem_of_seq. unfold ZSKIPLIST_MAXLEVEL in Hi. simpl in Hi. lia.
  - simpl. unfold ZSKIPLIST_MAXLEVEL. lia.
  - repeat constructor; simpl; lia.
  - right. apply Exists_cons_tl, Exists_cons_tl, Exists_cons_hd. done.
  - repeat constructor.
  - repeat constructor.
  - apply (bool_decide_unpack (NoDup (aele <$> abc))). vm_compute. done.
Qed.

(** Numbers that make the height 1. *)
Definition tails : list Z := [65535; 65535].

Lemma zslInsert_correct_witness :
  exists A B x h' zsl', abc = A ++ B /\ zslInsert tails abc_heap abc_list two [98; 98] = Some (ap x, [65535], h', zsl') /\
    zrep h' zsl' (A ++ x :: B) /\ aele x = [98; 98] /\ ascore x = two /\ nodes abc_heap !! ap x = None /\
    forall q, q <> ap x -> q ∉ ap <$> abc -> nodes h' !! q = nodes abc_heap !! q.
Proof.
  apply (zslInsert_correct tails 1 [65535] abc_heap abc_list abc two [98; 98] abc_rep);
    [reflexivity|apply (bool_decide_unpack ([98; 98] ∉ aele <$> abc)); vm_compute; done|reflexivity|reflexivity].
Defined.

Lemma zsl_lifecycle_witness :
  (exists h' zsl, zslCreate abc_heap = Some (h', zsl) /\ zrep h' zsl [] /\ nodes abc_heap !! header zsl = None /\
     forall q, q <> header zsl -> nodes h' !! q = nodes abc_heap !! q) /\
  exists h', zslFree abc_heap abc_list = Some h' /\
     forall q, nodes h' !! q = if decide (q ∈ ap <$> hd abc_list :: abc) then None else nodes abc_heap !! q.
Proof. split; [apply (zsl_lifecycle abc_heap)|apply (proj2 (zsl_lifecycle abc_heap)), abc_rep]. Defined.

Lemma zslDelete_correct_witness :
  (exists A x B h' zsl', abc = A ++ x :: B /\ is_key one [98] x /\
     zslDelete abc_heap abc_list one [98] false = Some (1, None, h', zsl') /\
     zrep h' zsl' (A ++ B) /\ (nodes h' !! ap x = None <-> false = false)) \/
  ((forall x, x ∈ abc -> ~ is_key one [98] x) /\ zslDelete abc_heap abc_list one [98] false = Some (0, None, abc_heap, abc_list)).
Proof. exact (zslDelete_correct abc_heap abc_list abc one [98] false abc_rep eq_refl). Defined.

Lemma zslUpdateScore_correct_witness :
  exists A B y rs2 h' zsl' E', abc = A ++ ea :: B /\
    zslUpdateScore tails abc_heap abc_list one [97] three = Some (ap y, rs2, h', zsl') /\
    zrep h' zsl' E' /\ E' ≡ₚ y :: A ++ B /\ aele y = [97] /\ ascore y = three.
Proof.
  apply (zslUpdateScore_correct tails 1 [65535] abc_heap abc_list abc ea one [97] three abc_rep);
    [apply list_elem_of_here|split; reflexivity|reflexivity|reflexivity|reflexivity].
Defined.

Lemma zsl_ranks_witness :
  zslGetRank abc_heap abc_list two [99] = Some 3 /\ zslGetElementByRank abc_heap abc_list 3 = Some (Some 3%nat) /\
  zslGetRank abc_heap abc_list two [100] = Some 0 /\ zslGetElementByRank abc_heap abc_list 4 = Some None.
Proof.
  destruct (zsl_ranks abc_heap abc_list abc two [99] abc_rep eq_refl) as (H1 & _ & H3).
  destruct (zsl_ranks abc_heap abc_list abc two [100] abc_rep eq_refl) as (_ & H2 & _).
  destruct (H1 [ea; eb] ec [] eq_refl) as [Ha Hb]; [split; reflexivity|]. split; [exact Ha|]. split; [exact Hb|]. split.
  - apply H2. apply (bool_decide_unpack ([100] ∉ aele <$> abc)). vm_compute. done.
  - apply H3. reflexivity.
Defined.

(** (1, 2\] *)
Definition above_one : zrangespec := Zrangespec one two true false.

Lemma zsl_score_queries_witness :
  zslFirstInRange abc_heap abc_list above_one =
    Some (ap <$> head (inside (score_gte above_one) (score_lte above_one) abc)) /\
  zslLastInRange abc_heap abc_list above_one =
    Some (ap <$> last (inside (score_gte above_one) (score_lte above_one) abc)).
Proof. exact (zsl_score_queries abc_heap abc_list abc above_one abc_rep eq_refl eq_refl). Defined.

(** a and b alone, which have the same score. *)
Definition fa : entry := Entry 1 1 [97] one.
Definition ab : list entry := [fa; eb].
Definition ab_heap : heap := Heap
  (list_to_map [(0%nat, Node None (S754_zero false) None); (1%nat, Node (Some [97]) one None);
                (2%nat, Node (Some [98]) one (Some 1%nat))])
  (list_to_map
     ([((0, 0)%nat, Level (Some 1%nat) 1); ((1, 0)%nat, Level (Some 2%nat) 1); ((2, 0)%nat, Level None 0)] ++
      ((fun i => ((0, i)%nat, Level None 0)) <$> seq 1 31))).
Definition ab_list : zskiplist := Zskiplist 0 (Some 2%nat) 2 1.

Lemma ab_rep : zrep ab_heap ab_list ab.
Proof.
  constructor; try (vm_compute; done).
  - vm_compute. apply (bool_decide_unpack (NoDup [0; 1; 2]%nat)). vm_compute. done.
  - intros i Hi. destruct i as [|i]; [..|simpl in Hi; lia]; repeat split; intros _; vm_compute; reflexivity.
  - intros i Hi. exists 0.
    assert (Forall (fun i => levels ab_heap !! (0%nat, i) = Some (Level None 0)) (seq 1 31)) as HF by (vm_compute; repeat constructor).
    rewrite Forall_forall in HF. apply HF. rewrite elem_of_seq. unfold ZSKIPLIST_MAXLEVEL in Hi. simpl in Hi. lia.
  - simpl. unfold ZSKIPLIST_MAXLEVEL. lia.
  - repeat constructor; simpl; lia.
  - by left.
  - repeat constructor.
  - repeat constructor.
  - apply (bool_decide_unpack (NoDup (aele <$> ab))). vm_compute. done.
Qed.

(** (a, +\] *)
Definition after_a : zlexrangespec := Zlexrangespec (string_ [97]) maxstring true true.
Lemma same_scores : forall a b, a ∈ ab -> b ∈ ab -> SFeqb (ascore a) (ascore b) = true.
Proof.
  assert (Forall (fun a => ascore a = one) ab) as HF by repeat constructor. rewrite Forall_forall in HF.
  intros a b Ha Hb. by rewrite (HF a Ha), (HF b Hb).
Qed.

Lemma zsl_name_queries_witness :
  zslFirstInLexRange ab_heap ab_list after_a =
    Some (ap <$> head (inside (name_gte after_a) (name_lte after_a) ab)) /\
  zslLastInLexRange ab_heap ab_list after_a =
    Some (ap <$> last (inside (name_gte after_a) (name_lte after_a) ab)).
Proof. exact (zsl_name_queries ab_heap ab_list ab after_a ab_rep same_scores). Defined.

Lemma empty_dict : dict_rep (dictCreate : dict bytes nat) ∅.
Proof. apply create_rep. Qed.

Lemma zsl_delete_ranges_witness :
  let M := inside (score_gte above_one) (score_lte above_one) ab in
  let L := inside (name_gte after_a) (name_lte after_a) ab in
  let R := ranked 2 2 ab in
  (exists h' zsl' d' m', zslDeleteRangeByScore ab_heap ab_list above_one dictCreate = Some (zlen M, h', zsl', d') /\
     zrep h' zsl' (outside (score_gte above_one) (score_lte above_one) ab) /\ dict_rep d' m' /\ without ∅ m' M) /\
  (exists h' zsl' d' m', zslDeleteRangeByLex ab_heap ab_list after_a dictCreate = Some (zlen L, h', zsl', d') /\
     zrep h' zsl' (outside (name_gte after_a) (name_lte after_a) ab) /\ dict_rep d' m' /\ without ∅ m' L) /\
  (exists h' zsl' d' m', zslDeleteRangeByRank ab_heap ab_list 2 2 dictCreate = Some (zlen R, h', zsl', d') /\
     zrep h' zsl' (unranked 2 2 ab) /\ dict_rep d' m' /\ without ∅ m' R).
Proof.
  destruct (zsl_delete_ranges ab_heap ab_list ab dictCreate ∅ ab_rep empty_dict) as (H1 & H2 & H3).
  split; [exact (H1 above_one eq_refl eq_refl)|]. split; [exact (H2 after_a same_scores)|].
  apply (H3 2 2); lia.
Defined.

(** A sorted set with the element a. *)
Lemma one_element : exists h zs, zset_rep h zs {[ [97] := one ]}.
Proof.
  destruct (create_spec (Heap ∅ ∅)) as (h & zl & _ & HR & _).
  destruct (insert_entry true 0 tails 1 [65535] h dictCreate zl [] [97] one) as (y & h' & zl' & d' & _ & _ & Hz);
    [by split; [|apply empty_dict]|apply not_elem_of_nil|done|done|done|]. eauto.
Qed.

Lemma zsetAdd_correct_witness : exists h zs, zset_rep h zs {[ [97] := one ]} /\ zsetLength zs + 1 < 2 ^ 32 /\
  exists rs2 h' zs', zsetAdd_skiplist true 0 tails h zs one [97] ZADD_INCR = Some (1, ZADD_UPDATED, Some (add_double one one), rs2, h', zs') /\
    zset_rep h' zs' {[ [97] := add_double one one ]}.
Proof.
  destruct one_element as (h & zs & Hz). exists h, zs. split; [exact Hz|].
  assert (zsetLength zs + 1 < 2 ^ 32) as Hl by (rewrite (rep_length h zs _ Hz); reflexivity).
  split; [exact Hl|]. apply (zsetAdd_correct true 0 tails 1 [65535] h zs _ one [97] ZADD_INCR Hz Hl). reflexivity.
Defined.

Lemma zsetDel_correct_witness : exists h zs, zset_rep h zs {[ [97] := one ]} /\
  exists h' zs', zsetDel true h zs [97] = Some (1, h', zs') /\ zset_rep h' zs' (delete [97] {[ [97] := one ]}).
Proof.
  destruct one_element as (h & zs & Hz). exists h, zs. split; [exact Hz|].
  exact (zsetDel_correct true h zs _ [97] Hz).
Defined.

Lemma zsetRank_correct_witness : exists h zs, zset_rep h zs {[ [97] := one ]} /\
  exists zs', zset_rep h zs' {[ [97] := one ]} /\ zsetScore h zs [97] = Some (Some one, zs') /\
    zsetRank h zs [97] false = Some (0, zs') /\ zsetRank h zs [97] true = Some (0, zs').
Proof.
  destruct one_element as (h & zs & Hz). exists h, zs. split; [exact Hz|].
  exact (zsetRank_correct h zs _ [97] Hz).
Defined.
End Example_zset.
