(* ===== verification/Lzf.v ===== *)
(** * LZF compression (lzf_c.c, lzf_d.c, lzfP.h)

    As the server builds it on a 64 bit host: HLOG 16, VERY_FAST, INIT_HTAB 0 (the hash
    table is not initialised: its contents are an argument), CHECK_INPUT, and hash slots
    that are 32 bit offsets.  Pointers into the two buffers are offsets; an access
    outside a buffer is [None]. *)

From Stdlib Require Import ZArith Lia.
From stdpp Require Import base numbers option list.
From S2P Require Import Prelude Memory.

Local Open Scope Z_scope.
Local Open Scope redis_scope.

Definition HLOG : Z := 16.
Definition HSIZE : Z := Z.shiftl 1 HLOG.
Definition MAX_LIT : Z := Z.shiftl 1 5.
Definition MAX_OFF : Z := Z.shiftl 1 13.
Definition MAX_REF : Z := Z.shiftl 1 8 + Z.shiftl 1 3.

Definition FRST (m : bytes) (p : Z) : option Z :=
  let! a := load1 m p in
  let! b := load1 m (p + 1) in
  Some (Z.lor (Z.shiftl a 8) b).
Definition NEXT (v : Z) (m : bytes) (p : Z) : option Z :=
  let! c := load1 m (p + 2) in
  Some (Z.lor (u32 (Z.shiftl v 8)) c).
Definition IDX (h : Z) : Z := Z.land (u32 (Z.shiftr h (3 * 8 - HLOG) - u32 (h * 5))) (HSIZE - 1).

(** [LZF_STATE], an array of [unsigned int] *)
Definition LZF_STATE : Type := Z -> Z.
Definition set_slot (htab : LZF_STATE) (i v : Z) : LZF_STATE := fun j => if j =? i then v else htab j.

Section Compress.
Context (inb : bytes) (out_end : Z).
Abbreviation in_end := (zlen inb).

Record cstate := CState { ip : Z; op : Z; lit : Z; hval : Z; htab : LZF_STATE; outb : bytes }.

(** What a turn of the main loop does: go on, leave the loop, or [return 0]. *)
Inductive turn := Go (s : cstate) | Leave (s : cstate) | Fail.

(** Two pointed-to bytes are equal. *)
Definition same (a b : Z) : option bool :=
  let! x := load1 inb a in
  let! y := load1 inb b in
  Some (x =? y).

(** [len++; if (ref [len] != ip [len]) break;], [n] times: the length and whether it broke. *)
Fixpoint unrolled (n : nat) (ref ip len : Z) : option (Z * bool) :=
  match n with
  | O => Some (len, false)
  | S n => let len := u32 (len + 1) in
           let! eq := same (ref + len) (ip + len) in
           if negb eq then Some (len, true) else unrolled n ref ip len
  end.

(** [do len++; while (len < maxlen && ref[len] == ip[len]);] *)
Fixpoint extend (fuel : nat) (ref ip len maxlen : Z) : option Z :=
  match fuel with
  | O => None
  | S fuel => let len := u32 (len + 1) in
              if len <? maxlen then
                let! eq := same (ref + len) (ip + len) in
                if (eq : bool) then extend fuel ref ip len maxlen else Some len
              else Some len
  end.

(** The [for (;;)] that measures a match. *)
Definition match_length (ref ip maxlen : Z) : option Z :=
  let! (len, broke) := (if maxlen >? 16 then unrolled 16 ref ip 2 else Some (2, false)) in
  if (broke : bool) then Some len else extend (Z.to_nat MAX_REF) ref ip len maxlen.

(** The back reference: the bytes written and their number. *)
Definition put_ref (out : bytes) (op off len : Z) : option (bytes * Z) :=
  let! (out, op) :=
    (if len <? 7 then
       let! out := store1 out op (Z.shiftr off 8 + Z.shiftl len 5) in Some (out, op + 1)
     else
       let! out := store1 out op (Z.shiftr off 8 + Z.shiftl 7 5) in
       let! out := store1 out (op + 1) (len - 7) in Some (out, op + 2)) in
  let! out := store1 out op off in
  Some (out, op + 1).

(** The hash slots after a match, when there is input left: [ip] is back where it was. *)
Definition rehash (ip : Z) (htab : LZF_STATE) : option (Z * LZF_STATE) :=
  let ip := ip - 2 in
  let! hval := FRST inb ip in
  let! hval := NEXT hval inb ip in
  let htab := set_slot htab (IDX hval) (u32 ip) in
  let ip := ip + 1 in
  let! hval := NEXT hval inb ip in
  let htab := set_slot htab (IDX hval) (u32 ip) in
  Some (hval, htab).

Definition not_lit (lit : Z) : Z := if lit =? 0 then 1 else 0.

(** The branch taken when a match was found at [ref]. *)
Definition take_match (ip op lit hval : Z) (htab : LZF_STATE) (out : bytes) (ref off : Z) : option turn :=
  let maxlen := u32 (in_end - ip - 2) in
  let maxlen := if maxlen >? MAX_REF then MAX_REF else maxlen in
  if (op + 3 + 1 >=? out_end) && (op - not_lit lit + 3 + 1 >=? out_end) then Some Fail else
  let! out := store1 out (op - lit - 1) (lit - 1) in
  let op := op - not_lit lit in
  let! len := match_length ref ip maxlen in
  let len := u32 (len - 2) in
  let ip := ip + 1 in
  let! (out, op) := put_ref out op off len in
  let op := op + 1 in
  let ip := ip + (len + 1) in
  if ip >=? in_end - 2 then Some (Leave (CState ip op 0 hval htab out)) else
  let! (hval, htab) := rehash ip htab in
  Some (Go (CState ip op 0 hval htab out)).

(** [lit++; *op++ = *ip++; if (lit == MAX_LIT) ...] *)
Definition put_literal (ip op lit : Z) (out : bytes) : option (Z * Z * Z * bytes) :=
  let lit := lit + 1 in
  let! b := load1 inb ip in
  let! out := store1 out op b in
  let ip := ip + 1 in
  let op := op + 1 in
  if lit =? MAX_LIT then
    let! out := store1 out (op - lit - 1) (lit - 1) in
    Some (ip, op + 1, 0, out)
  else Some (ip, op, lit, out).

(** The body of [while (ip < in_end - 2)] *)
Definition compress_turn (s : cstate) : option turn :=
  let '(CState ip op lit hval htab out) := s in
  let! hval := NEXT hval inb ip in
  let hslot := IDX hval in
  let ref := htab hslot in
  let htab := set_slot htab hslot (u32 ip) in
  let off := u64 (ip - ref - 1) in
  let! found :=
    (if (off <? MAX_OFF) && (ref >? 0) then
       let! e2 := same (ref + 2) (ip + 2) in
       if negb e2 then Some false else
       let! e0 := same ref ip in
       let! e1 := same (ref + 1) (ip + 1) in
       Some (e0 && e1)
     else Some false) in
  if (found : bool) then take_match ip op lit hval htab out ref off
  else if op >=? out_end then Some Fail else
  let! (ip, op, lit, out) := put_literal ip op lit out in
  Some (Go (CState ip op lit hval htab out)).

Fixpoint compress_loop (fuel : nat) (s : cstate) : option (option cstate) :=
  match fuel with
  | O => None
  | S fuel =>
      if ip s <? in_end - 2 then
        let! t := compress_turn s in
        match t with
        | Go s => compress_loop fuel s
        | Leave s => Some (Some s)
        | Fail => Some None
        end
      else Some (Some s)
  end.

(** [while (ip < in_end)] *)
Fixpoint tail_loop (fuel : nat) (ip op lit : Z) (out : bytes) : option (Z * Z * bytes) :=
  match fuel with
  | O => None
  | S fuel =>
      if ip <? in_end then
        let! (ip, op, lit, out) := put_literal ip op lit out in
        tail_loop fuel ip op lit out
      else Some (op, lit, out)
  end.
End Compress.

(** The size of the output and the output buffer; [Some None] when the result is 0, because
    the output does not fit.  [out_len] may be less than the size of the buffer. *)
Definition lzf_compress (htab : LZF_STATE) (inb : bytes) (out : bytes) (out_len : Z)
    : option (option (Z * bytes)) :=
  if (zlen inb =? 0) || (out_len =? 0) then Some None else
  let! hval := FRST inb 0 in
  let! s := compress_loop inb out_len (S (length inb)) (CState 0 1 0 hval htab out) in
  match s with
  | None => Some None
  | Some s =>
      if op s + 3 >? out_len then Some None else
      let! (op, lit, out) := tail_loop inb (S (length inb)) (ip s) (op s) (lit s) (outb s) in
      let! out := store1 out (op - lit - 1) (lit - 1) in
      Some (Some (op - not_lit lit, out))
  end.

(** ** Decompression *)

(** [do *op++ = *ref++; while (--len);] and the cases of the switch: [n] bytes, one by one *)
Fixpoint copy_bytes (n : nat) (out : bytes) (op ref : Z) : option bytes :=
  match n with
  | O => Some out
  | S n => let! b := load1 out ref in
           let! out := store1 out op b in
           copy_bytes n out (op + 1) (ref + 1)
  end.

(** The copy of a back reference of [len + 2] bytes *)
Definition copy_ref (out : bytes) (op ref len : Z) : option bytes :=
  if len <=? 9 then copy_bytes (Z.to_nat (len + 2)) out op ref
  else let len := len + 2 in
       if op >=? ref + len then memmove out op ref len
       else copy_bytes (Z.to_nat len) out op ref.

Section Decompress.
Context (inb : bytes) (out_end : Z).
Abbreviation in_end := (zlen inb).

(** A turn of the loop: the new [ip], [op] and output; [Some None] for E2BIG and EINVAL. *)
Definition decompress_turn (ip op : Z) (out : bytes) : option (option (Z * Z * bytes)) :=
  let! ctrl := load1 inb ip in
  let ip := ip + 1 in
  if ctrl <? Z.shiftl 1 5 then
    let ctrl := ctrl + 1 in
    if op + ctrl >? out_end then Some None else
    if ip + ctrl >? in_end then Some None else
    let! bs := load inb ip ctrl in
    let! out := store out op bs in
    Some (Some (ip + ctrl, op + ctrl, out))
  else
    let len := Z.shiftr ctrl 5 in
    let ref := op - Z.shiftl (Z.land ctrl 31) 8 - 1 in
    if ip >=? in_end then Some None else
    let! r :=
      (if len =? 7 then
         let! b := load1 inb ip in
         let ip := ip + 1 in
         Some (if ip >=? in_end then None else Some (ip, len + b))
       else Some (Some (ip, len))) in
    match r with
    | None => Some None
    | Some (ip, len) =>
        let! b := load1 inb ip in
        let ref := ref - b in
        let ip := ip + 1 in
        if op + len + 2 >? out_end then Some None else
        if ref <? 0 then Some None else
        let! out := copy_ref out op ref len in
        Some (Some (ip, op + len + 2, out))
    end.

(** [do ... while (ip < in_end);] *)
Fixpoint decompress_loop (fuel : nat) (ip op : Z) (out : bytes) : option (option (Z * bytes)) :=
  match fuel with
  | O => None
  | S fuel =>
      let! t := decompress_turn ip op out in
      match t with
      | None => Some None
      | Some (ip, op, out) =>
          if ip <? in_end then decompress_loop fuel ip op out else Some (Some (op, out))
      end
  end.
End Decompress.

(** The size of the output and the output buffer; [Some None] when the result is 0. *)
Definition lzf_decompress (inb out : bytes) (out_len : Z) : option (option (Z * bytes)) :=
  decompress_loop inb out_len (S (length inb)) 0 0 out.

(** abcd nine times, compressed to 12 bytes and back *)
Example lzf_test :
  let s := flat_map (fun _ => [97; 98; 99; 100]) (seq 0 9) in
  (let! r := lzf_compress (fun _ => 0) s (replicate 36 0) 32 in
   let! (n, c) := r in
   let! d := lzf_decompress (take (Z.to_nat n) c) (replicate 36 7) 36 in
   Some (n, d)) = Some (12, Some (36, s)).
Proof. vm_compute. reflexivity. Qed.
