(* ===== verification/LzfDecode.v ===== *)
(** * LZF: the format, and the decompressor against it

    [dec] gives the compressed format its meaning: a sequence of literal runs and back
    references.  [lzf_decompress] accepts exactly the inputs that have one, on any bytes at
    all and without an access outside its buffers. *)

From Stdlib Require Import ZArith Lia.
From stdpp Require Import base numbers option list.
From S2P Require Import Prelude Memory Lzf.

Local Open Scope Z_scope.
Local Open Scope redis_scope.

(** ** The format *)

(** [n] more bytes, each the one [off + 1] places before it. *)
Fixpoint back (n : nat) (o : bytes) (off : Z) : option bytes :=
  match n with
  | O => Some o
  | S n => let! b := load1 o (zlen o - off - 1) in back n (o ++ [b]) off
  end.

(** A back reference: a distance of 13 bits; a length up to 6, or 7 and a byte. *)
Definition enc_ref (off len : Z) : bytes :=
  (if len <? 7 then [off / 256 + len * 32] else [off / 256 + 224; len - 7]) ++ [off mod 256].

(** [dec c o s]: reading [c] after [o] has been written leaves [s]. *)
Inductive dec : bytes -> bytes -> bytes -> Prop :=
| dec_nil o : dec [] o o
| dec_lit bs c o s : 1 <= zlen bs <= 32 -> dec c (o ++ bs) s -> dec (zlen bs - 1 :: bs ++ c) o s
| dec_ref off len c o o' s :
    0 <= off < 8192 -> 1 <= len <= 262 -> back (Z.to_nat (len + 2)) o off = Some o' ->
    dec c o' s -> dec (enc_ref off len ++ c) o s.

Lemma dec_app c1 c2 o o' s : dec c1 o o' -> dec c2 o' s -> dec (c1 ++ c2) o s.
Proof.
  induction 1; intros; simpl; [done| |]; rewrite <- app_assoc; econstructor; eauto.
Qed.

Lemma enc_ref_pos off len : 0 < zlen (enc_ref off len).
Proof. unfold enc_ref. casif; zlia. Qed.

Lemma dec_nil_inv o s : dec [] o s -> s = o.
Proof.
  inversion 1 as [|? ? ? ? ? ?|off len ? ? ? ? ? ? ? ? Hn]; subst; try done.
  pose proof (enc_ref_pos off len). apply (f_equal zlen) in Hn. zlia.
Qed.

Lemma dec_lit1 bs o : 1 <= zlen bs <= 32 -> dec (zlen bs - 1 :: bs) o (o ++ bs).
Proof. intros. rewrite <- (app_nil_r bs) at 2. constructor; [done|]. constructor. Qed.

Lemma dec_ref1 off len o s :
  0 <= off < 8192 -> 1 <= len <= 262 -> back (Z.to_nat (len + 2)) o off = Some s -> dec (enc_ref off len) o s.
Proof. intros. rewrite <- (app_nil_r (enc_ref _ _)). econstructor; [done..|constructor]. Qed.

Lemma back_extends n o off s : back n o off = Some s -> exists t, s = o ++ t /\ length t = n.
Proof.
  revert o. induction n as [|n IH]; simpl; intros o.
  - intros [= ->]. exists []. by rewrite app_nil_r.
  - destruct (load1 _ _) as [b|]; [mstep|done]. intros (t & -> & Ht)%IH. exists (b :: t).
    rewrite <- app_assoc. simpl. auto.
Qed.

Lemma dec_extends c o s : dec c o s -> exists t, s = o ++ t.
Proof.
  induction 1 as [o|bs c o s _ _ [t ->]|off len c o o' s _ _ Hb _ [t ->]].
  - exists []. by rewrite app_nil_r.
  - exists (bs ++ t). by rewrite app_assoc.
  - apply back_extends in Hb as (u & -> & _). exists (u ++ t). by rewrite app_assoc.
Qed.

(** ** Accesses at the end of a prefix *)

Lemma store1_at X y Y p v : p = zlen X -> store1 (X ++ y :: Y) p v = Some (X ++ u8 v :: Y).
Proof. intros. unfold store1. by apply (store_app X [y] [u8 v] Y). Qed.

Lemma load1_prefix X Y p : 0 <= p < zlen X -> load1 (X ++ Y) p = load1 X p.
Proof.
  intros. unfold load1. rewrite !decide_True by lia. apply lookup_app_l. unfold zlen in *. lia.
Qed.

Lemma load1_in m p : 0 <= p < zlen m -> exists b, load1 m p = Some b.
Proof.
  intros. unfold load1. rewrite decide_True by lia. apply lookup_lt_is_Some_2. unfold zlen in *. lia.
Qed.

Lemma load1_ok m p b : bytes_ok m -> load1 m p = Some b -> byte_ok b.
Proof. unfold load1. case_decide; [|done]. intros Hm Hb. by eapply Forall_lookup_1 in Hm. Qed.

Lemma bytes_cons (m : bytes) : 0 < zlen m -> exists b t, m = b :: t.
Proof. destruct m; eauto. unfold zlen. simpl. lia. Qed.

(** ** Copying a back reference *)

Lemma back_total n o off :
  0 <= off -> 0 <= zlen o - off - 1 -> exists s, back n o off = Some s.
Proof.
  intros Hoff. revert o. induction n as [|n IH]; simpl; intros o Ho; [eauto|].
  destruct (load1_in o (zlen o - off - 1)) as [b ->]; [lia|]. apply IH. zlia.
Qed.

Lemma back_ok n o off s : bytes_ok o -> back n o off = Some s -> bytes_ok s.
Proof.
  revert o. induction n as [|n IH]; simpl; intros o Ho; [by intros [= <-]|].
  destruct (load1 o _) as [b|] eqn:Eb; [mstep|done]. apply IH, Forall_app. split; [done|].
  constructor; [by eapply load1_ok in Eb|constructor].
Qed.

Lemma back_range n o off s : back (S n) o off = Some s -> 0 <= zlen o - off - 1.
Proof. simpl. unfold load1. case_decide; done. Qed.

Lemma copy_bytes_back n o s rest off :
  bytes_ok o -> 0 <= off -> back n o off = Some s -> Z.of_nat n <= zlen rest ->
  copy_bytes n (o ++ rest) (zlen o) (zlen o - off - 1) = Some (s ++ drop n rest).
Proof.
  intros Hok Hoff. revert o rest Hok. induction n as [|n IH]; intros o rest Hok Hb Hr.
  - by injection Hb as ->.
  - pose proof (back_range _ _ _ _ Hb) as Hlo. cbn [back copy_bytes] in *.
    rewrite load1_prefix by lia. destruct (load1 o _) as [b|] eqn:Eb; [|done]. mstep.
    destruct (bytes_cons rest) as (r & R & ->); [lia|].
    rewrite store1_at by done. mstep. pose proof (load1_ok _ _ _ Hok Eb) as Hbyte.
    rewrite (uN_small 8 b) by apply Hbyte.
    replace (o ++ b :: R) with ((o ++ [b]) ++ R) by (by rewrite <- app_assoc).
    replace (zlen o + 1) with (zlen (o ++ [b])) by zlia.
    replace (zlen o - off - 1 + 1) with (zlen (o ++ [b]) - off - 1) by zlia.
    apply IH; [|done|zlia]. unfold bytes_ok. by rewrite Forall_app, Forall_singleton.
Qed.

(** When the source ends before the destination the copy is that of [memcpy]. *)
Lemma back_disjoint A B B' off :
  off = zlen (B ++ B') - 1 -> back (length B) (A ++ B ++ B') off = Some (A ++ B ++ B' ++ B).
Proof.
  intros ->. revert A B'. induction B as [|b B IH]; intros A B'; cbn [back length app].
  - by rewrite app_nil_r.
  - rewrite load1_app by zlia. mstep.
    replace ((A ++ b :: B ++ B') ++ [b]) with ((A ++ [b]) ++ B ++ (B' ++ [b]))
      by by list_simplifier.
    replace (zlen (b :: B ++ B') - 1) with (zlen (B ++ B' ++ [b]) - 1) by zlia.
    rewrite IH. by list_simplifier.
Qed.

Lemma copy_ref_back len o s rest off :
  bytes_ok o -> 0 <= off -> 1 <= len -> back (Z.to_nat (len + 2)) o off = Some s -> len + 2 <= zlen rest ->
  copy_ref (o ++ rest) (zlen o) (zlen o - off - 1) len = Some (s ++ drop (Z.to_nat (len + 2)) rest).
Proof.
  intros Hok Hoff Hlen Hb Hr. unfold copy_ref.
  assert (copy_bytes (Z.to_nat (len + 2)) (o ++ rest) (zlen o) (zlen o - off - 1)
          = Some (s ++ drop (Z.to_nat (len + 2)) rest)) as Hc by (apply copy_bytes_back; auto; lia).
  casif; [done|]. casif; [|done].
  assert (0 <= zlen o - off - 1) as Hlo.
  { destruct (Z.to_nat (len + 2)) eqn:En; [lia|]. by apply back_range in Hb. }
  destruct (split_range o (zlen o - off - 1) (len + 2)) as (A & B & B' & -> & HA & HB); [lia..|].
  replace (Z.to_nat (len + 2)) with (length B) in Hb by (unfold zlen in HB; lia).
  rewrite back_disjoint in Hb by zlia. injection Hb as <-.
  unfold memmove. rewrite <- !app_assoc. rewrite load_app by zlia. mstep.
  rewrite <- (take_drop (Z.to_nat (len + 2)) rest) at 1.
  pose proof (store_app (A ++ B ++ B') (take (Z.to_nat (len + 2)) rest) B (drop (Z.to_nat (len + 2)) rest)) as Hst.
  rewrite <- !app_assoc in Hst. apply Hst; [done|zlia].
Qed.

(** ** A turn of the decompressor *)

Lemma ctrl_split h l : 0 <= h < 32 -> 0 <= l -> Z.shiftr (h + l * 32) 5 = l /\ Z.land (h + l * 32) 31 = h.
Proof.
  intros. rewrite Z.shiftr_div_pow2 by lia. change 31 with (Z.ones 5). rewrite Z.land_ones by lia.
  change (2 ^ 5) with 32. rewrite Z.div_add, Z.mod_add, Z.div_small, Z.mod_small by lia. lia.
Qed.

Lemma off_split off : 0 <= off < 8192 -> 0 <= off / 256 < 32 /\ off = off / 256 * 256 + off mod 256.
Proof. intros. pose proof (Z.div_mod off 256). split; [|lia]. split; [apply Z.div_pos; lia|apply Z.div_lt_upper_bound; lia]. Qed.

Section Decompress.
Context (out_end : Z).

Lemma turn_lit pre bs c o rest :
  1 <= zlen bs <= 32 -> zlen o + zlen bs <= out_end <= zlen o + zlen rest ->
  decompress_turn (pre ++ zlen bs - 1 :: bs ++ c) out_end (zlen pre) (zlen o) (o ++ rest) =
  Some (Some (zlen (pre ++ zlen bs - 1 :: bs), zlen (o ++ bs), (o ++ bs) ++ drop (length bs) rest)).
Proof.
  intros Hbs Ho. unfold decompress_turn. rewrite (load1_app pre _ _ (zlen pre)) by done. mstep.
  change (Z.shiftl 1 5) with 32. rewrite (proj2 (Z.ltb_lt _ 32)) by lia.
  replace (zlen bs - 1 + 1) with (zlen bs) by lia.
  casif; [lia|]. casif; [zlia|].
  replace (pre ++ zlen bs - 1 :: bs ++ c) with ((pre ++ [zlen bs - 1]) ++ bs ++ c) by by list_simplifier.
  rewrite load_app by zlia. mstep.
  rewrite <- (take_drop (length bs) rest) at 1. rewrite store_app by (rewrite ?zlen_take; unfold zlen in *; lia). mstep.
  rewrite <- app_assoc. repeat f_equal; zlia.
Qed.

Lemma turn_ref_eq pre off len c op out :
  0 <= off < 8192 -> 1 <= len <= 262 ->
  decompress_turn (pre ++ enc_ref off len ++ c) out_end (zlen pre) op out =
  if op + len + 2 >? out_end then Some None else
  if op - off - 1 <? 0 then Some None else
  let! out := copy_ref out op (op - off - 1) len in
  Some (Some (zlen (pre ++ enc_ref off len), op + len + 2, out)).
Proof.
  intros Hoff Hlen. pose proof (off_split off Hoff) as [Hhi Heq].
  replace (op - off - 1) with (op - Z.shiftl (off / 256) 8 - 1 - off mod 256)
    by (rewrite Z.shiftl_mul_pow2 by lia; lia).
  unfold decompress_turn, enc_ref. destruct (len <? 7) eqn:E7; boolsimp; cbn [app];
    rewrite (load1_app pre _ _ (zlen pre)) by done; mstep.
  - destruct (ctrl_split (off / 256) len) as [-> ->]; [lia..|].
    change (Z.shiftl 1 5) with 32. rewrite (proj2 (Z.ltb_ge _ 32)) by lia.
    casif; [zlia|]. rewrite (proj2 (Z.eqb_neq len 7)) by lia. mstep.
    change (off / 256 + len * 32 :: off mod 256 :: c) with ([off / 256 + len * 32] ++ off mod 256 :: c).
    rewrite app_assoc, load1_app by zlia. mstep. by replace (zlen pre + 1 + 1) with
      (zlen (pre ++ [off / 256 + len * 32; off mod 256])) by zlia.
  - destruct (ctrl_split (off / 256) 7) as [Hl Hh]; [lia..|].
    change (off / 256 + 7 * 32) with (off / 256 + 224) in *. rewrite Hl, Hh.
    change (Z.shiftl 1 5) with 32. rewrite (proj2 (Z.ltb_ge _ 32)) by lia.
    casif; [zlia|]. rewrite Z.eqb_refl.
    set (a := off / 256 + 224).
    replace (pre ++ a :: len - 7 :: off mod 256 :: c) with ((pre ++ [a]) ++ len - 7 :: off mod 256 :: c) by by list_simplifier.
    rewrite load1_app by zlia. mstep. replace (zlen ((pre ++ [a]) ++ len - 7 :: off mod 256 :: c)) with
      (zlen pre + 3 + zlen c) by zlia. casif; [zlia|].
    replace ((pre ++ [a]) ++ len - 7 :: off mod 256 :: c) with ((pre ++ [a; len - 7]) ++ off mod 256 :: c) by by list_simplifier.
    rewrite load1_app by zlia. mstep. replace (7 + (len - 7)) with len by lia.
    by replace (zlen pre + 1 + 1 + 1) with (zlen (pre ++ [a; len - 7; off mod 256])) by zlia.
Qed.

Lemma turn_ref pre off len c o o' rest :
  bytes_ok o -> 0 <= off < 8192 -> 1 <= len <= 262 -> back (Z.to_nat (len + 2)) o off = Some o' ->
  zlen o' <= out_end <= zlen o + zlen rest ->
  decompress_turn (pre ++ enc_ref off len ++ c) out_end (zlen pre) (zlen o) (o ++ rest) =
  Some (Some (zlen (pre ++ enc_ref off len), zlen o', o' ++ drop (Z.to_nat (len + 2)) rest)).
Proof.
  intros Hok Hoff Hlen Hb Ho. destruct (back_extends _ _ _ _ Hb) as (t & Ho' & Ht).
  assert (zlen o' = zlen o + len + 2) as Hz by (subst o'; unfold zlen in *; rewrite length_app; lia).
  assert (0 <= zlen o - off - 1) as Hlo.
  { destruct (Z.to_nat (len + 2)) eqn:En; [lia|]. by apply back_range in Hb. }
  rewrite turn_ref_eq by done. casif; [lia|]. casif; [lia|].
  rewrite (copy_ref_back len o o' rest off); auto; [mstep|lia..]. by rewrite Hz.
Qed.

(** A turn accepts one token, or refuses the input. *)
Definition accepts (pre c o rest : bytes) : Prop :=
  exists tok c' o' rest', c = tok ++ c' /\ 0 < zlen tok /\ bytes_ok o' /\
    zlen o' <= out_end <= zlen o' + zlen rest' /\ (forall s, dec c' o' s -> dec c o s) /\
    decompress_turn (pre ++ c) out_end (zlen pre) (zlen o) (o ++ rest) =
    Some (Some (zlen (pre ++ tok), zlen o', o' ++ rest')).

Lemma accepts_lit pre bs c o rest :
  bytes_ok o -> bytes_ok bs -> 1 <= zlen bs <= 32 -> zlen o + zlen bs <= out_end <= zlen o + zlen rest ->
  accepts pre (zlen bs - 1 :: bs ++ c) o rest.
Proof.
  intros. exists (zlen bs - 1 :: bs), c, (o ++ bs), (drop (length bs) rest).
  split; [done|]. split; [zlia|]. split; [by apply Forall_app|].
  split; [rewrite zlen_drop, zlen_app; unfold zlen in *; lia|].
  split; [by constructor|]. by apply turn_lit.
Qed.

Lemma accepts_ref pre off len c o rest :
  bytes_ok o -> 0 <= off < 8192 -> 1 <= len <= 262 -> zlen o <= out_end <= zlen o + zlen rest ->
  decompress_turn (pre ++ enc_ref off len ++ c) out_end (zlen pre) (zlen o) (o ++ rest) = Some None \/
  accepts pre (enc_ref off len ++ c) o rest.
Proof.
  intros Hok Hoff Hlen Ho. destruct (decide (zlen o + len + 2 <= out_end /\ 0 <= zlen o - off - 1)) as [[Hr Hb]|Hbad].
  - right. destruct (back_total (Z.to_nat (len + 2)) o off) as [o' Hb']; [lia..|].
    destruct (back_extends _ _ _ _ Hb') as (t & Ht & Hl).
    assert (zlen o' = zlen o + len + 2) as Hz by (subst o'; unfold zlen in *; rewrite length_app; lia).
    exists (enc_ref off len), c, o', (drop (Z.to_nat (len + 2)) rest).
    split; [done|]. split; [apply enc_ref_pos|]. split; [by eapply back_ok|].
    split; [rewrite zlen_drop; lia|]. split; [by econstructor|]. by apply turn_ref; [..|lia].
  - left. rewrite turn_ref_eq by done. casif; [done|]. casif; [done|]. lia.
Qed.

Lemma enc_ref_form h b len : 0 <= b < 256 ->
  enc_ref (h * 256 + b) len = (if len <? 7 then [h + len * 32] else [h + 224; len - 7]) ++ [b].
Proof.
  intros. unfold enc_ref. rewrite Z.div_add_l, Z.div_small, Z.add_0_r by lia.
  by rewrite (Z.add_comm (h * 256)), Z.mod_add, Z.mod_small by lia.
Qed.

(** A back reference that the input cuts short *)
Lemma turn_short pre ctrl t op out :
  32 <= ctrl < 256 -> t = [] \/ (ctrl / 32 = 7 /\ zlen t = 1) ->
  decompress_turn (pre ++ ctrl :: t) out_end (zlen pre) op out = Some None.
Proof.
  intros Hc Ht. unfold decompress_turn. rewrite (load1_app pre _ _ (zlen pre)) by done. mstep.
  change (Z.shiftl 1 5) with 32. rewrite (proj2 (Z.ltb_ge _ 32)) by lia.
  casif; [done|]. destruct Ht as [->|[H7 Ht]]; [zlia|].
  rewrite Z.shiftr_div_pow2 by lia. change (2 ^ 5) with 32. rewrite H7. cbn [Z.eqb Pos.eqb].
  destruct (bytes_cons t) as (b & t' & ->); [lia|].
  replace (pre ++ ctrl :: b :: t') with ((pre ++ [ctrl]) ++ b :: t') by by list_simplifier.
  rewrite load1_app by zlia. mstep. casif; [done|]. zlia.
Qed.

Lemma turn_cases pre c o rest :
  0 < zlen c -> bytes_ok c -> bytes_ok o -> zlen o <= out_end <= zlen o + zlen rest ->
  decompress_turn (pre ++ c) out_end (zlen pre) (zlen o) (o ++ rest) = Some None \/ accepts pre c o rest.
Proof.
  intros Hc Hcok Hok Ho. destruct (bytes_cons c Hc) as (ctrl & c1 & ->).
  apply Forall_cons in Hcok as [Hctrl Hc1]. unfold byte_ok in Hctrl.
  destruct (decide (ctrl < 32)) as [Hlit|Href].
  - destruct (decide (zlen o + ctrl + 1 <= out_end /\ ctrl + 1 <= zlen c1)) as [[Hr Hin]|Hbad].
    + right. pose (bs := take (Z.to_nat (ctrl + 1)) c1).
      assert (zlen bs = ctrl + 1) as Hbs by (unfold bs; rewrite zlen_take; lia).
      rewrite <- (take_drop (Z.to_nat (ctrl + 1)) c1). fold bs.
      replace ctrl with (zlen bs - 1) at 1 by lia. apply accepts_lit; [done| |lia..].
      by apply Forall_take.
    + left. unfold decompress_turn. rewrite (load1_app pre _ _ (zlen pre)) by done. mstep.
      change (Z.shiftl 1 5) with 32. rewrite (proj2 (Z.ltb_lt _ 32)) by lia.
      casif; [done|]. casif; [done|]. zlia.
  - pose proof (Z.div_mod ctrl 32) as Hdm. pose proof (Z.mod_pos_bound ctrl 32).
    assert (Hctl : ctrl = ctrl mod 32 + ctrl / 32 * 32) by lia.
    destruct c1 as [|b c2]; [left; apply turn_short; [lia|by left]|].
    apply Forall_cons in Hc1 as [Hb Hc2]. unfold byte_ok in Hb.
    destruct (decide (ctrl / 32 = 7)) as [H7|H7].
    + destruct c2 as [|b2 c3]; [left; apply turn_short; [lia|by right]|].
      apply Forall_cons in Hc2 as [Hb2 Hc3]. unfold byte_ok in Hb2.
      replace (ctrl :: b :: b2 :: c3) with (enc_ref (ctrl mod 32 * 256 + b2) (7 + b) ++ c3).
      { apply accepts_ref; [done|lia..]. }
      rewrite enc_ref_form by lia. rewrite (proj2 (Z.ltb_ge _ 7)) by lia. simpl. repeat f_equal; lia.
    + replace (ctrl :: b :: c2) with (enc_ref (ctrl mod 32 * 256 + b) (ctrl / 32) ++ c2).
      { apply accepts_ref; [done|lia..]. }
      rewrite enc_ref_form by lia. rewrite (proj2 (Z.ltb_lt _ 7)) by lia. simpl. by rewrite <- Hctl.
Qed.
End Decompress.

(** ** Decompression *)

Lemma loop_step out_end fuel pre tok c op out op' out' r :
  0 < zlen tok ->
  decompress_turn (pre ++ tok ++ c) out_end (zlen pre) op out = Some (Some (zlen (pre ++ tok), op', out')) ->
  (c = [] -> r = Some (op', out')) ->
  (0 < zlen c -> decompress_loop ((pre ++ tok) ++ c) out_end fuel (zlen (pre ++ tok)) op' out' = Some r) ->
  decompress_loop (pre ++ tok ++ c) out_end (S fuel) (zlen pre) op out = Some r.
Proof.
  intros Htok Ht Hnil Hmore. cbn [decompress_loop]. rewrite Ht. mstep.
  destruct c as [|b c].
  - rewrite (proj2 (Z.ltb_ge _ _)) by zlia. by rewrite Hnil.
  - rewrite (proj2 (Z.ltb_lt _ _)) by zlia. rewrite app_assoc. apply Hmore. zlia.
Qed.

Lemma decompress_accepts out_end fuel pre c o s rest :
  0 < zlen c -> (length c <= fuel)%nat -> dec c o s -> bytes_ok o -> bytes_ok c ->
  zlen s <= out_end <= zlen o + zlen rest ->
  decompress_loop (pre ++ c) out_end fuel (zlen pre) (zlen o) (o ++ rest) =
  Some (Some (zlen s, s ++ drop (length s - length o) rest)).
Proof.
  intros Hc Hf Hd. revert pre fuel rest Hc Hf.
  induction Hd as [o|bs c o s Hbs Hd IH|off len c o o' s Hoff Hlen Hb Hd IH]; intros pre fuel rest Hc Hf Hok Hcok Hs;
    [done| |].
  - destruct fuel as [|fuel]; [simpl in Hf; lia|]. change (zlen bs - 1 :: bs ++ c) with ((zlen bs - 1 :: bs) ++ c) in *.
    destruct (dec_extends _ _ _ Hd) as [t Ht]. apply Forall_app in Hcok as [[_ Hbok]%Forall_cons Hcok].
    eapply loop_step; [zlia|apply turn_lit; subst s; zlia|..].
    + intros ->. apply dec_nil_inv in Hd as ->. rewrite !length_app. repeat f_equal. lia.
    + intros Hc'. rewrite IH; [|done|..].
      * rewrite drop_drop, Ht, !length_app. repeat f_equal. lia.
      * rewrite length_app in Hf. simpl in Hf. lia.
      * by apply Forall_app.
      * done.
      * rewrite zlen_app, zlen_drop. subst s. revert Hs. rewrite !zlen_app. unfold zlen. lia.
  - destruct fuel as [|fuel]; [exfalso; unfold zlen in Hc; lia|].
    destruct (dec_extends _ _ _ Hd) as [t Ht]. apply Forall_app in Hcok as [_ Hcok].
    destruct (back_extends _ _ _ _ Hb) as (u & Hu & Hlu).
    pose proof (enc_ref_pos off len).
    eapply loop_step; [done|apply turn_ref; eauto; subst s; zlia|..].
    + intros ->. apply dec_nil_inv in Hd as ->. rewrite Hu, !length_app. repeat f_equal. lia.
    + intros Hc'. rewrite IH; [|done|..].
      * rewrite drop_drop, Ht, Hu, !length_app. repeat f_equal. lia.
      * rewrite length_app in Hf. unfold zlen in *. lia.
      * eapply back_ok; [exact Hok|exact Hb].
      * done.
      * rewrite zlen_drop. subst s o'. revert Hs. rewrite !zlen_app. unfold zlen. lia.
Qed.

Lemma decompress_total out_end fuel pre c o rest :
  0 < zlen c -> (length c <= fuel)%nat -> bytes_ok o -> bytes_ok c -> zlen o <= out_end <= zlen o + zlen rest ->
  decompress_loop (pre ++ c) out_end fuel (zlen pre) (zlen o) (o ++ rest) = Some None \/
  exists s, dec c o s /\ zlen s <= out_end.
Proof.
  revert pre c o rest. induction fuel as [|fuel IH]; intros pre c o rest Hc Hf Hok Hcok Ho.
  { unfold zlen in Hc. lia. }
  destruct (turn_cases out_end pre c o rest Hc Hcok Hok Ho) as [Hbad|(tok & c' & o' & rest' & -> & Htok & Hok' & Ho' & Hd & Ht)].
  - left. cbn [decompress_loop]. by rewrite Hbad.
  - destruct c' as [|b c'].
    { right. exists o'. split; [apply Hd; constructor|lia]. }
    rewrite length_app in Hf. apply Forall_app in Hcok as [_ Hcok].
    destruct (IH (pre ++ tok) (b :: c') o' rest') as [Hn|(s & Hs & Hr)]; [zlia|unfold zlen in *; lia|done|done|lia| |].
    + left. eapply loop_step; [done|done|done|]. done.
    + right. eauto.
Qed.

Lemma decompress_spec c out out_len :
  0 < zlen c -> bytes_ok c -> 0 <= out_len <= zlen out ->
  (exists s, dec c [] s /\ zlen s <= out_len /\
     lzf_decompress c out out_len = Some (Some (zlen s, s ++ drop (length s) out))) \/
  (lzf_decompress c out out_len = Some None /\ ~ exists s, dec c [] s /\ zlen s <= out_len).
Proof.
  intros Hc Hok Ho. assert (bytes_ok []) as Hnil by apply List.Forall_nil. assert (Hacc : forall s, dec c [] s -> zlen s <= out_len ->
     lzf_decompress c out out_len = Some (Some (zlen s, s ++ drop (length s) out))).
  { intros s Hd Hs. pose proof (decompress_accepts out_len (S (length c)) [] c [] s out) as Ha.
    rewrite Nat.sub_0_r in Ha. apply Ha; auto; zlia. }
  destruct (decompress_total out_len (S (length c)) [] c [] out) as [Hn|(s & Hd & Hs)];
    auto.
  - right. split; [exact Hn|]. intros (s & Hd & Hs). specialize (Hacc s Hd Hs).
    change (lzf_decompress c out out_len = Some None) in Hn. congruence.
  - left. eauto.
Qed.
