(* ===== verification/LzfSpec.v ===== *)
(** * LZF: the compressor, and the round trip

    The invariant of the compressor's loop is that the output written before the current run
    decodes to the input consumed before it, and that the run holds the input since. *)

From Stdlib Require Import ZArith Lia.
From stdpp Require Import base numbers option list.
From S2P Require Import Prelude Memory Lzf LzfDecode.

Local Open Scope Z_scope.
Local Open Scope redis_scope.

(** ** Measuring a match *)

Section Match.
Context (inb : bytes).

Definition agree (ref ip n : Z) : Prop := forall i, 0 <= i < n -> load1 inb (ref + i) = load1 inb (ip + i).

Lemma same_spec a b : 0 <= a < zlen inb -> 0 <= b < zlen inb ->
  exists e, same inb a b = Some e /\ (e = true -> load1 inb a = load1 inb b).
Proof.
  intros Ha Hb. unfold same. destruct (load1_in inb a Ha) as [x ->], (load1_in inb b Hb) as [y ->]. mstep.
  eexists. split; [done|]. by intros ->%Z.eqb_eq.
Qed.

Lemma agree_snoc ref ip n :
  0 <= n -> agree ref ip n -> load1 inb (ref + n) = load1 inb (ip + n) -> agree ref ip (n + 1).
Proof. intros Hn Ha He i Hi. destruct (decide (i = n)) as [->|]; [done|]. apply Ha. lia. Qed.

Lemma unrolled_spec n ref ip len :
  0 <= ref < ip -> 0 <= len -> agree ref ip (len + 1) -> ip + len + Z.of_nat n < zlen inb -> zlen inb < 2 ^ 32 ->
  exists len' broke, unrolled inb n ref ip len = Some (len', broke) /\ agree ref ip len' /\
    if (broke : bool) then len < len' <= len + Z.of_nat n
    else len' = len + Z.of_nat n /\ agree ref ip (len' + 1).
Proof.
  intros Href. revert len. induction n as [|n IH]; intros len Hlen Hag Hin H32; cbn [unrolled].
  - exists len, false. split; [done|]. split; [intros i Hi; apply Hag; lia|].
    split; [lia|done].
  - rewrite (uN_small 32) by lia. destruct (same_spec (ref + (len + 1)) (ip + (len + 1))) as (e & -> & He); [lia..|].
    mstep. destruct e; cbn [negb].
    + destruct (IH (len + 1)) as (len' & broke & -> & Ha' & Hb); [lia| |lia..|].
      { apply agree_snoc; [lia|done|by apply He]. }
      exists len', broke. split; [done|]. split; [done|]. destruct broke; [lia|].
      destruct Hb. split; [lia|done].
    + exists (len + 1), true. split; [done|]. split; [done|lia].
Qed.

Lemma extend_spec fuel ref ip len maxlen :
  0 <= ref < ip -> 0 <= len -> agree ref ip (len + 1) -> ip + len + 1 <= zlen inb -> ip + maxlen <= zlen inb ->
  zlen inb < 2 ^ 32 -> Z.max 0 (maxlen - len - 1) < Z.of_nat fuel ->
  exists len', extend inb fuel ref ip len maxlen = Some len' /\ agree ref ip len' /\
    len < len' <= Z.max (len + 1) maxlen.
Proof.
  intros Href. revert len. induction fuel as [|fuel IH]; intros len Hlen Hag Hin Hmax H32 Hf; cbn [extend]; [lia|].
  rewrite (uN_small 32) by lia. casif; [|exists (len + 1); split; [done|]; split; [done|lia]].
  destruct (same_spec (ref + (len + 1)) (ip + (len + 1))) as (e & -> & He); [lia..|]. mstep. destruct e.
  - destruct (IH (len + 1)) as (len' & -> & Ha' & Hb); [lia| |lia..|].
    { apply agree_snoc; [lia|done|by apply He]. }
    exists len'. split; [done|]. split; [done|]. lia.
  - exists (len + 1). split; [done|]. split; [done|lia].
Qed.

Lemma match_length_spec ref ip :
  0 <= ref < ip -> ip < zlen inb - 2 -> agree ref ip 3 -> zlen inb < 2 ^ 32 ->
  exists len, match_length inb ref ip (Z.min 264 (zlen inb - ip - 2)) = Some len /\ agree ref ip len /\
    3 <= len <= 264 /\ ip + len <= zlen inb.
Proof.
  intros Href Hip Hag H32. unfold match_length.
  set (maxlen := Z.min 264 (zlen inb - ip - 2)).
  assert (exists len broke, (if maxlen >? 16 then unrolled inb 16 ref ip 2 else Some (2, false)) = Some (len, broke) /\
    agree ref ip len /\ if (broke : bool) then 3 <= len <= 18 /\ 16 < maxlen
                        else agree ref ip (len + 1) /\ (len = 2 \/ len = 18 /\ 16 < maxlen))
    as (len & broke & -> & Ha & Hb).
  { casif.
    - destruct (unrolled_spec 16 ref ip 2) as (len & broke & -> & Ha & Hb); [lia|lia|done|unfold maxlen in *; lia|lia|].
      exists len, broke. split; [done|]. split; [done|]. destruct broke; [lia|]. destruct Hb. split; [done|lia].
    - exists 2, false. split; [done|]. split; [intros i Hi; apply Hag; lia|]. split; [done|lia]. }
  mstep. destruct broke.
  - exists len. split; [done|]. split; [done|]. unfold maxlen in *. lia.
  - destruct Hb as [Hb Hlen]. destruct (extend_spec (Z.to_nat MAX_REF) ref ip len maxlen) as (len' & -> & Ha' & Hl);
      [done|lia|done|unfold maxlen in *; lia..|change MAX_REF with 264; unfold maxlen in *; lia|].
    exists len'. split; [done|]. split; [done|]. unfold maxlen in *. lia.
Qed.

(** The bytes that agree are those the back reference copies. *)
Lemma back_agree ip off n :
  0 <= off -> 0 <= ip - off - 1 -> agree (ip - off - 1) ip (Z.of_nat n) -> ip + Z.of_nat n <= zlen inb ->
  back n (take (Z.to_nat ip) inb) off = Some (take (Z.to_nat ip + n) inb).
Proof.
  intros Hoff. revert ip. induction n as [|n IH]; intros ip Hlo Hag Hin.
  - cbn [back]. by rewrite Nat.add_0_r.
  - cbn [back]. assert (zlen (take (Z.to_nat ip) inb) = ip) as -> by (rewrite zlen_take; lia).
    assert (load1 (take (Z.to_nat ip) inb) (ip - off - 1) = load1 inb ip) as ->.
    { rewrite <- (load1_prefix _ (drop (Z.to_nat ip) inb)) by (rewrite zlen_take; lia). rewrite take_drop.
      specialize (Hag 0). rewrite !Z.add_0_r in Hag. apply Hag. lia. }
    destruct (load1_in inb ip) as [b Hb]; [lia|]. rewrite Hb. mstep.
    unfold load1 in Hb. rewrite decide_True in Hb by lia. rewrite <- (take_S_r _ _ _ Hb).
    replace (S (Z.to_nat ip)) with (Z.to_nat (ip + 1)) by lia.
    rewrite IH; [f_equal; f_equal; lia|lia| |lia].
    intros i Hi. replace (ip + 1 - off - 1 + i) with (ip - off - 1 + (i + 1)) by lia.
    replace (ip + 1 + i) with (ip + (i + 1)) by lia. apply Hag. lia.
Qed.
End Match.

(** ** Compression *)

Lemma IDX_range h : 0 <= IDX h < HSIZE.
Proof. unfold IDX. change (HSIZE - 1) with (Z.ones 16). rewrite Z.land_ones by lia. by apply Z.mod_pos_bound. Qed.

Lemma put_ref_spec X Y op off len :
  op = zlen X -> 3 <= zlen Y -> 0 <= off < 8192 -> 1 <= len <= 262 ->
  exists Y', put_ref (X ++ Y) op off len = Some (X ++ enc_ref off len ++ Y', op + zlen (enc_ref off len)) /\
    zlen (enc_ref off len) + zlen Y' = zlen Y.
Proof.
  intros -> HY Hoff Hlen. pose proof (off_split off Hoff) as [Hhi Heq].
  destruct Y as [|y1 [|y2 [|y3 Y]]]; [zlia..|]. unfold put_ref, enc_ref.
  rewrite Z.shiftr_div_pow2, !Z.shiftl_mul_pow2 by lia. change (2 ^ 8) with 256. change (2 ^ 5) with 32. casif.
  - rewrite store1_at by done. mstep. rewrite (uN_small 8) by lia.
    set (a := off / 256 + len * 32).
    replace (X ++ a :: y2 :: y3 :: Y) with ((X ++ [a]) ++ y2 :: y3 :: Y) by by list_simplifier.
    rewrite store1_at by zlia. mstep. exists (y3 :: Y). split; [|zlia]. f_equal. f_equal; [by list_simplifier|zlia].
  - rewrite store1_at by done. mstep. change (7 * 32) with 224. rewrite (uN_small 8 (off / 256 + 224)) by lia.
    set (a := off / 256 + 224).
    replace (X ++ a :: y2 :: y3 :: Y) with ((X ++ [a]) ++ y2 :: y3 :: Y) by by list_simplifier.
    rewrite store1_at by zlia. mstep. rewrite (uN_small 8 (len - 7)) by lia.
    replace ((X ++ [a]) ++ len - 7 :: y3 :: Y) with ((X ++ [a; len - 7]) ++ y3 :: Y) by by list_simplifier.
    rewrite store1_at by zlia. mstep. exists Y. split; [|zlia]. f_equal. f_equal; [by list_simplifier|zlia].
Qed.

Section Compress.
Context (inb : bytes) (out_end : Z).
Context (H2 : 2 <= zlen inb) (H32 : zlen inb < 2 ^ 32) (Hok : bytes_ok inb).

(** The output is [C], which decodes to [A], the header's place, and the current run [L]. *)
Definition running (ip op lit : Z) (out : bytes) : Prop :=
  exists A L B C h R, inb = A ++ L ++ B /\ out = C ++ h :: L ++ R /\ lit = zlen L /\
    ip = zlen A + zlen L /\ op = zlen C + 1 + zlen L /\ dec C [] A.

(** [op] is one past the end when a run has just been started there. *)
Definition inv (ip op lit : Z) (out : bytes) : Prop :=
  0 <= lit < 32 /\ lit <= ip <= zlen inb /\ op <= out_end + 1 /\ 32 * (op - 1 - lit) <= 33 * (ip - lit) /\
  out_end <= zlen out /\ (op <= out_end -> running ip op lit out).

Definition htab_ok (htab : LZF_STATE) : Prop := forall i, is_u 32 (htab i).

(** The output buffer is too small for the input in the worst case. *)
Definition tight : Prop := 32 * out_end <= 33 * zlen inb + 160.

Definition turn_ok (ip0 : Z) (t : turn) : Prop :=
  match t with
  | Go s => inv (ip s) (op s) (lit s) (outb s) /\ htab_ok (htab s) /\ ip0 < ip s
  | Leave s => inv (ip s) (op s) (lit s) (outb s) /\ zlen inb - 2 <= ip s
  | Fail => tight
  end.

Lemma set_slot_ok htab i v : htab_ok htab -> htab_ok (set_slot htab i (u32 v)).
Proof. intros Hh j. unfold set_slot. casif; [by apply uN_bound|done]. Qed.

Lemma running_start X Y ip op :
  op = zlen X + 1 -> 0 <= ip <= zlen inb -> 0 < zlen Y -> dec X [] (take (Z.to_nat ip) inb) -> running ip op 0 (X ++ Y).
Proof.
  intros Hop Hip HY Hd. destruct (bytes_cons Y HY) as (h & R & ->).
  exists (take (Z.to_nat ip) inb), [], (drop (Z.to_nat ip) inb), X, h, R.
  split_and!; [by simpl; rewrite take_drop|done|done|rewrite zlen_take; zlia|zlia|done].
Qed.

(** Ending the current run, and taking back its header when it is empty *)
Lemma close_run ip op lit out :
  lit <= 32 -> running ip op lit out ->
  exists X Y, store1 out (op - lit - 1) (lit - 1) = Some (X ++ Y) /\ zlen X = op - not_lit lit /\
    zlen X + zlen Y = zlen out /\ dec X [] (take (Z.to_nat ip) inb) /\ 0 <= ip <= zlen inb.
Proof.
  intros Hl (A & L & B & C & h & R & Hin & -> & -> & -> & -> & Hd).
  rewrite store1_at by lia.
  replace (take _ inb) with (A ++ L).
  2: { rewrite Hin, app_assoc. rewrite take_app_length' by (unfold zlen; rewrite length_app; lia). done. }
  rewrite Hin. destruct L as [|x L].
  - exists C, (u8 (zlen (@nil Z) - 1) :: R). rewrite app_nil_r. split_and!; [done| |zlia|done|zlia..].
    change (not_lit (zlen [])) with 1. zlia.
  - exists (C ++ zlen (x :: L) - 1 :: x :: L), R.
    assert (1 <= zlen (x :: L) <= 32) as Hx by zlia. rewrite (uN_small 8) by lia.
    split_and!; [by list_simplifier| |zlia| |zlia..].
    + unfold not_lit. rewrite (proj2 (Z.eqb_neq _ 0)) by lia. rewrite !zlen_app, (zlen_cons (zlen (x :: L) - 1)). lia.
    + eapply dec_app; [exact Hd|by apply dec_lit1].
Qed.

Lemma put_literal_spec ip op lit out :
  inv ip op lit out -> op < out_end -> ip < zlen inb ->
  exists op' lit' out', put_literal inb ip op lit out = Some (ip + 1, op', lit', out') /\
    inv (ip + 1) op' lit' out' /\ zlen out' = zlen out /\
    ((lit' = lit + 1 /\ op' = op + 1) \/ (lit = 31 /\ lit' = 0 /\ op' = op + 2)).
Proof.
  intros (Hl & Hip & Hop & Hcost & Hend & Hrun) Hlt Hin.
  destruct Hrun as (A & L & B & C & h & R & HB & Hout & HL & HA & HC & Hd); [lia|].
  destruct (bytes_cons B) as (b & B' & ->); [rewrite HB in Hin; zlia|].
  destruct (bytes_cons R) as (r & R' & ->); [subst out; zlia|].
  assert (byte_ok b) as Hb.
  { rewrite HB in Hok. unfold bytes_ok in Hok. rewrite !Forall_app, Forall_cons in Hok. tauto. }
  assert (load1 inb ip = Some b) as Hload by (rewrite HB, (app_assoc A L); apply load1_app; zlia).
  assert (store1 out op b = Some ((C ++ h :: L) ++ b :: R')) as Hstore.
  { rewrite Hout. replace (C ++ h :: L ++ r :: R') with ((C ++ h :: L) ++ r :: R') by by list_simplifier.
    rewrite store1_at by zlia. by rewrite (uN_small 8 b) by apply Hb. }
  unfold put_literal. rewrite Hload. mstep. rewrite Hstore. mstep.
  assert (running (ip + 1) (op + 1) (lit + 1) ((C ++ h :: L) ++ b :: R')) as Hrun.
  { exists A, (L ++ [b]), B', C, h, R'. rewrite HB. split_and!; [by list_simplifier..|zlia|zlia|zlia|done]. }
  assert (zlen ((C ++ h :: L) ++ b :: R') = zlen out) as Hz by (subst out; zlia).
  change MAX_LIT with 32. casif.
  - destruct (close_run (ip + 1) (op + 1) (lit + 1) _ ltac:(lia) Hrun) as (X & Y & Hs & HX & HXY & HdX & _).
    rewrite Hs. mstep. replace (not_lit (lit + 1)) with 0 in HX by (unfold not_lit; by rewrite E).
    exists (op + 2), 0, (X ++ Y). split; [by replace (op + 1 + 1) with (op + 2) by lia|]. split; [|split; [zlia|lia]].
    split_and!; try lia; [zlia|]. intros. apply running_start; [lia|lia|zlia|done].
  - exists (op + 1), (lit + 1), ((C ++ h :: L) ++ b :: R'). split; [done|]. split; [|split; [done|lia]].
    split_and!; try lia. by intros.
Qed.

Lemma slots_spec ip htab :
  htab_ok htab -> 2 <= ip -> ip < zlen inb - 2 ->
  exists hval htab', rehash inb ip htab = Some (hval, htab') /\ htab_ok htab'.
Proof.
  intros Hh H0 Hip. unfold rehash, FRST, NEXT.
  destruct (load1_in inb (ip - 2)) as [a ->]; [lia|].
  destruct (load1_in inb (ip - 2 + 1)) as [b Hb]; [lia|]. rewrite Hb. mstep.
  destruct (load1_in inb (ip - 2 + 2)) as [c ->]; [lia|]. mstep.
  destruct (load1_in inb (ip - 2 + 1 + 2)) as [d ->]; [lia|]. mstep.
  do 2 eexists. split; [done|]. by do 2 apply set_slot_ok.
Qed.

Lemma take_match_spec ip op lit hval htab out ref off :
  inv ip op lit out -> htab_ok htab -> ip < zlen inb - 2 -> 0 < ref -> off = ip - ref - 1 -> 0 <= off < 8192 ->
  agree inb ref ip 3 ->
  exists t, take_match inb out_end ip op lit hval htab out ref off = Some t /\ turn_ok ip t.
Proof.
  intros (Hl & Hip & Hop & Hcost & Hend & Hrun) Hh Hin Href Hoff Hoff' Hag. unfold take_match.
  rewrite (uN_small 32 (zlen inb - ip - 2)) by lia.
  replace (if zlen inb - ip - 2 >? MAX_REF then MAX_REF else zlen inb - ip - 2)
    with (Z.min 264 (zlen inb - ip - 2)) by (change MAX_REF with 264; casif; lia).
  assert (0 <= not_lit lit <= 1 /\ (not_lit lit = 0 -> 0 < lit) /\ (not_lit lit = 1 -> lit = 0)) as Hnl
    by (unfold not_lit; casif; lia).
  destruct ((op + 3 + 1 >=? out_end) && (op - not_lit lit + 3 + 1 >=? out_end)) eqn:Eg.
  { boolsimp. exists Fail. split; [done|]. simpl. unfold tight. lia. }
  assert (op - not_lit lit + 4 < out_end) as Hroom.
  { apply andb_false_iff in Eg as [Eg|Eg]; boolsimp; lia. }
  destruct (close_run ip op lit out) as (X & Y & -> & HX & HXY & HdX & _); [lia|apply Hrun; lia|]. mstep.
  destruct (match_length_spec inb ref ip) as (n & -> & Hagn & Hn & Hfit); [lia..|done|done|]. mstep.
  rewrite (uN_small 32 (n - 2)) by lia.
  destruct (put_ref_spec X Y (op - not_lit lit) off (n - 2)) as (Y' & -> & HY'); [lia..|]. mstep.
  assert (dec (X ++ enc_ref off (n - 2)) [] (take (Z.to_nat (ip + n)) inb)) as Hdec.
  { eapply dec_app; [exact HdX|]. apply dec_ref1; [lia..|].
    replace (Z.to_nat (ip + n)) with (Z.to_nat ip + Z.to_nat (n - 2 + 2))%nat by lia.
    apply back_agree; [lia|lia| |lia]. replace (ip - off - 1) with ref by lia.
    by replace (Z.of_nat (Z.to_nat (n - 2 + 2))) with n by lia. }
  assert (2 <= zlen (enc_ref off (n - 2)) <= n - 1 /\ zlen (enc_ref off (n - 2)) <= 3) as Her
    by (unfold enc_ref; casif; zlia).
  assert (inv (ip + n) (op - not_lit lit + zlen (enc_ref off (n - 2)) + 1) 0 (X ++ enc_ref off (n - 2) ++ Y')) as Hinv.
  { split_and!; try lia; [zlia|]. intros. rewrite app_assoc. apply running_start; [zlia|lia|zlia|done]. }
  replace (ip + 1 + (n - 2 + 1)) with (ip + n) by lia. casif.
  - eexists. split; [done|]. simpl. split; [done|lia].
  - destruct (slots_spec (ip + n) htab) as (hv & ht & -> & Hht); [done|lia..|]. mstep.
    eexists. split; [done|]. simpl. split; [done|]. split; [done|lia].
Qed.
Lemma off_small ip ref :
  0 <= ip < 2 ^ 32 -> is_u 32 ref -> u64 (ip - ref - 1) < 8192 -> u64 (ip - ref - 1) = ip - ref - 1 /\ ref < ip.
Proof.
  unfold is_u, uN. intros Hip Href Hoff. destruct (decide (ref < ip)) as [|Hge].
  - split; [|done]. apply Z.mod_small. lia.
  - exfalso. rewrite <- (Z.mod_add _ 1), Z.mod_small in Hoff by lia. lia.
Qed.

Lemma compress_turn_spec s :
  inv (ip s) (op s) (lit s) (outb s) -> htab_ok (htab s) -> ip s < zlen inb - 2 ->
  exists t, compress_turn inb out_end s = Some t /\ turn_ok (ip s) t.
Proof.
  destruct s as [ip op lit hval htab out]. cbn [Lzf.ip Lzf.op Lzf.lit Lzf.outb Lzf.htab].
  intros Hinv Hh Hin. pose proof Hinv as (Hl & Hip & Hop & Hcost & Hend & Hrun). unfold compress_turn, NEXT.
  destruct (load1_in inb (ip + 2)) as [c ->]; [lia|]. mstep.
  set (hv := Z.lor _ c). set (ref := htab (IDX hv)). set (htab' := set_slot htab _ _).
  assert (htab_ok htab') as Hh' by by apply set_slot_ok.
  change MAX_OFF with 8192. pose proof (Hh (IDX hv)) as Hrefu. fold ref in Hrefu.
  assert (exists found, (if (u64 (ip - ref - 1) <? 8192) && (ref >? 0) then
       let! e2 := same inb (ref + 2) (ip + 2) in
       if negb e2 then Some false else
       let! e0 := same inb ref ip in
       let! e1 := same inb (ref + 1) (ip + 1) in
       Some (e0 && e1)
     else Some false) = Some found /\
     (found = true -> 0 < ref < ip /\ (u64 (ip - ref - 1) = ip - ref - 1 /\ ip - ref - 1 < 8192) /\ agree inb ref ip 3)) as (found & -> & Hf).
  { destruct ((u64 (ip - ref - 1) <? 8192) && (ref >? 0)) eqn:E; [|by exists false]. boolsimp.
    destruct (off_small ip ref) as [Ho Hr]; [lia|done..|].
    destruct (same_spec inb (ref + 2) (ip + 2)) as ([] & -> & He2); [lia..| |by exists false]. mstep. cbn [negb].
    destruct (same_spec inb ref ip) as (e0 & -> & He0); [lia..|]. mstep.
    destruct (same_spec inb (ref + 1) (ip + 1)) as (e1 & -> & He1); [lia..|]. mstep.
    eexists. split; [done|]. intros [-> ->]%andb_prop. split; [lia|]. split; [lia|].
    intros i Hi. assert (i = 0 \/ i = 1 \/ i = 2) as [->|[->| ->]] by lia; rewrite ?Z.add_0_r; auto. }
  mstep. destruct found.
  - destruct Hf as (Href & [Hoff Hlt] & Hag); [done|]. apply take_match_spec; auto; lia.
  - casif; [exists Fail; split; [done|]; simpl; unfold tight; lia|].
    destruct (put_literal_spec ip op lit out Hinv) as (op' & lit' & out' & -> & Hinv' & _); [lia..|]. mstep.
    eexists. split; [done|]. simpl. split; [done|]. split; [done|lia].
Qed.

Lemma compress_loop_spec fuel s :
  inv (ip s) (op s) (lit s) (outb s) -> htab_ok (htab s) -> zlen inb - ip s < Z.of_nat fuel ->
  exists r, compress_loop inb out_end fuel s = Some r /\
    match r with
    | Some s' => inv (ip s') (op s') (lit s') (outb s') /\ zlen inb - 2 <= ip s'
    | None => tight
    end.
Proof.
  revert s. induction fuel as [|fuel IH]; intros s Hinv Hh Hf.
  { destruct Hinv as (_ & Hip & _). lia. }
  cbn [compress_loop]. casif; [|exists (Some s); split; [done|]; split; [done|lia]].
  destruct (compress_turn_spec s) as ([s'|s'|] & -> & Ht); [done..|lia| | |]; mstep.
  - destruct Ht as (Hi & Hh' & Hlt). apply IH; [done..|lia].
  - by exists (Some s').
  - by exists None.
Qed.

(** At most two bytes are left, and a run may end between them. *)
Lemma tail_loop_spec fuel ip op lit out :
  inv ip op lit out -> zlen inb - ip <= 2 -> zlen inb - ip < Z.of_nat fuel ->
  op + (zlen inb - ip) + (if 32 <=? lit + (zlen inb - ip) then 1 else 0) <= out_end ->
  exists op' lit' out', tail_loop inb fuel ip op lit out = Some (op', lit', out') /\
    inv (zlen inb) op' lit' out' /\ op' <= out_end /\ zlen out' = zlen out.
Proof.
  revert ip op lit out. induction fuel as [|fuel IH]; intros ip op lit out Hinv H3 Hf Hroom.
  { destruct Hinv as (_ & Hip & _). lia. }
  cbn [tail_loop]. pose proof Hinv as (Hl & Hip & _). casif.
  - destruct (put_literal_spec ip op lit out Hinv) as (op' & lit' & out' & -> & Hinv' & Hz & Hcase);
      [destruct (_ <=? _) in Hroom; lia|lia|]. mstep.
    destruct (IH (ip + 1) op' lit' out') as (op2 & lit2 & out2 & -> & Hi2 & Ho2 & Hz2); [done|lia|lia| |].
    + revert Hroom. repeat casif; lia.
    + do 3 eexists. split; [done|]. split; [done|]. split; [done|lia].
  - assert (ip = zlen inb) as -> by lia. do 3 eexists. split; [done|]. split; [done|].
    split; [destruct (_ <=? _) in Hroom; lia|done].
Qed.
End Compress.

Lemma compress_spec (htab : LZF_STATE) s out out_len :
  2 <= zlen s < 2 ^ 32 -> bytes_ok s -> (forall i, is_u 32 (htab i)) -> 0 <= out_len <= zlen out ->
  exists r, lzf_compress htab s out out_len = Some r /\
    match r with
    | Some (n, c) => 0 < n <= out_len /\ out_len <= zlen c /\ dec (take (Z.to_nat n) c) [] s
    | None => 32 * out_len <= 33 * zlen s + 160
    end.
Proof.
  intros Hs Hok Hh Ho. unfold lzf_compress. rewrite (proj2 (Z.eqb_neq (zlen s) 0)) by lia. cbn [orb].
  casif; [exists None; split; [done|lia]|]. unfold FRST.
  destruct (load1_in s 0) as [a ->]; [lia|]. destruct (load1_in s (0 + 1)) as [b ->]; [lia|]. mstep.
  set (s0 := CState 0 1 0 _ htab out).
  assert (inv s out_len (ip s0) (op s0) (lit s0) (outb s0)) as Hinv.
  { split_and!; simpl; try lia. intros. destruct (bytes_cons out) as (h & R & ->); [lia|].
    exists [], [], s, [], h, R. split_and!; try done. constructor. }
  destruct (compress_loop_spec s out_len ltac:(lia) ltac:(lia) Hok (S (length s)) s0 Hinv Hh) as ([s1|] & -> & Hr);
    [simpl; unfold zlen; lia| |exists None; split; [done|exact Hr]]. mstep.
  destruct Hr as [Hinv1 Hip]. pose proof Hinv1 as (Hl & Hi & Hop & Hcost & _).
  casif; [exists None; split; [done|lia]|].
  destruct (tail_loop_spec s out_len ltac:(lia) ltac:(lia) Hok (S (length s)) (ip s1) (op s1) (lit s1) (outb s1)) as
    (op' & lit' & out' & -> & Hinv2 & Hop2 & Hz); [done|lia|unfold zlen in *; lia|casif; lia|]. mstep.
  destruct Hinv2 as (Hl' & _ & _ & _ & Hend & Hrun).
  destruct (close_run s ltac:(lia) ltac:(lia) Hok (zlen s) op' lit' out') as (X & Y & -> & HX & HXY & Hd & _); [lia|by apply Hrun|]. mstep.
  eexists. split; [done|]. cbv beta iota. rewrite <- HX.
  rewrite take_app_length' by (unfold zlen; lia). rewrite take_ge in Hd by (unfold zlen; lia).
  assert (0 < zlen X) as HX0.
  { destruct X; [apply dec_nil_inv in Hd; subst s; zlia|zlia]. }
  split; [|split; [zlia|done]]. unfold not_lit in HX. destruct (lit' =? 0); lia.
Qed.

Lemma enc_ref_ok off len : 0 <= off < 8192 -> 1 <= len <= 262 -> bytes_ok (enc_ref off len).
Proof.
  intros Hoff Hlen. pose proof (off_split off Hoff) as [Hhi Heq]. pose proof (Z.mod_pos_bound off 256).
  unfold enc_ref. casif; repeat (apply Forall_cons_2; [unfold byte_ok; lia|]); apply List.Forall_nil.
Qed.

Lemma dec_ok c o s : dec c o s -> bytes_ok s -> bytes_ok c.
Proof.
  unfold bytes_ok. induction 1 as [o|bs c o s Hbs Hd IH|off len c o o' s Hoff Hlen Hb Hd IH]; intros Hs.
  - apply List.Forall_nil.
  - destruct (dec_extends _ _ _ Hd) as [t ->]. apply Forall_cons. split; [unfold byte_ok; lia|].
    apply Forall_app. split; [|auto]. rewrite !Forall_app in Hs. tauto.
  - apply Forall_app. split; [by apply enc_ref_ok|auto].
Qed.

Lemma dec_decompress c s dst :
  dec c [] s -> 0 < zlen c -> bytes_ok s -> zlen s <= zlen dst ->
  lzf_decompress c dst (zlen s) = Some (Some (zlen s, s ++ drop (length s) dst)).
Proof.
  intros Hd Hc Hs Hlen. pose proof (decompress_accepts (zlen s) (S (length c)) [] c [] s dst) as Ha.
  rewrite Nat.sub_0_r in Ha. apply Ha; auto; [by apply List.Forall_nil|by eapply dec_ok|zlia].
Qed.

(** ** The two routines *)

(** C31. Decompression is exact and safe: on any nonempty input at all [lzf_decompress] stays
    inside its two buffers; when the input is a sequence of literal runs and back references
    whose output fits, the output is exactly theirs and the rest of the buffer is untouched,
    and every other input is refused. *)
Theorem lzf_decompress_correct c out out_len :
  0 < zlen c -> bytes_ok c -> 0 <= out_len <= zlen out ->
  (exists s, dec c [] s /\ zlen s <= out_len /\
     lzf_decompress c out out_len = Some (Some (zlen s, s ++ drop (length s) out))) \/
  (lzf_decompress c out out_len = Some None /\ ~ exists s, dec c [] s /\ zlen s <= out_len).
Proof. apply decompress_spec. Qed.

(** The shortest inputs *)
Lemma compress_one htab s out out_len : zlen s = 1 /\ 0 < out_len -> lzf_compress htab s out out_len = None.
Proof.
  intros [Hs Ho]. destruct s as [|x [|y s]]; [done| |rewrite !zlen_cons in Hs; zlen_pos; lia].
  unfold lzf_compress. rewrite (proj2 (Z.eqb_neq out_len 0)) by lia. done.
Qed.
Lemma compress_none htab s out out_len (P : option (Z * bytes) -> Prop) :
  zlen s <= 1 -> ~ (zlen s = 1 /\ 0 < out_len) -> 0 <= out_len <= zlen out ->
  (zlen s = 0 \/ out_len = 0 -> P None) -> exists r, lzf_compress htab s out out_len = Some r /\ P r.
Proof.
  intros Hs Hd Ho HP. zlen_pos. exists None. unfold lzf_compress. assert (zlen s = 0 \/ out_len = 0) as Hz by lia.
  split; [|auto]. destruct Hz as [-> | ->]; [done|]. by rewrite orb_true_r.
Qed.

(** C13. Compression round trips: whatever is left in the uninitialised hash table,
    [lzf_compress] stays inside its buffers and its table and writes at most [out_len] bytes, unless the
    input is a single byte, of which it reads the byte after; it gives up
    only when the input is empty or the output buffer is smaller than the worst case of 33 bytes for 32 and five
    more, and otherwise [lzf_decompress] turns its output back into the input. *)
Theorem lzf_compress_roundtrip (htab : LZF_STATE) s out out_len :
  zlen s < 2 ^ 32 -> bytes_ok s -> (forall i, is_u 32 (htab i)) -> 0 <= out_len <= zlen out ->
  (forall h, 0 <= IDX h < HSIZE) /\
  if decide (zlen s = 1 /\ 0 < out_len) then lzf_compress htab s out out_len = None else
  exists r, lzf_compress htab s out out_len = Some r /\
    match r with
    | None => zlen s = 0 \/ 32 * out_len <= 33 * zlen s + 160
    | Some (n, c) => 0 < n <= out_len /\ forall dst, zlen s <= zlen dst ->
        lzf_decompress (take (Z.to_nat n) c) dst (zlen s) = Some (Some (zlen s, s ++ drop (length s) dst))
    end.
Proof.
  intros Hs Hok Hh Ho. split; [apply IDX_range|]. pose proof (zlen_nonneg s) as Hp.
  case_decide as Hd; [by apply compress_one|]. destruct (decide (2 <= zlen s)) as [Hs2|Hs2]; [|apply compress_none; [lia|done|done|]; intros [?| ->]; [by left|right; lia]].
  destruct (compress_spec htab s out out_len ltac:(lia) Hok Hh Ho) as ([[n c]|] & -> & Hr).
  - eexists. split; [done|]. destruct Hr as (Hn & Hc & Hdec). split; [done|]. intros dst Hdst.
    apply dec_decompress; auto. rewrite zlen_take. lia.
  - exists None. auto.
Qed.

Module Example_lzf.

Lemma lzf_decompress_correct_witness :
  (exists s, dec [0; 97; 224; 1; 0] [] s /\ zlen s <= 20 /\
     lzf_decompress [0; 97; 224; 1; 0] (replicate 20 0) 20 = Some (Some (zlen s, s ++ drop (length s) (replicate 20 0)))) \/
  (lzf_decompress [0; 97; 224; 1; 0] (replicate 20 0) 20 = Some None /\
   ~ exists s, dec [0; 97; 224; 1; 0] [] s /\ zlen s <= 20).
Proof.
  apply lzf_decompress_correct; [done| |done].
  repeat (apply Forall_cons_2; [unfold byte_ok; lia|]); apply List.Forall_nil.
Defined.

Lemma lzf_compress_roundtrip_witness :
  (forall h, 0 <= IDX h < HSIZE) /\
  exists r, lzf_compress (fun _ => 3) (replicate 40 97) (replicate 40 0) 36 = Some r /\
    match r with
    | None => 40 = 0 \/ 32 * 36 <= 33 * 40 + 160
    | Some (n, c) => 0 < n <= 36 /\ forall dst, 40 <= zlen dst ->
        lzf_decompress (take (Z.to_nat n) c) dst 40 = Some (Some (40, replicate 40 97 ++ drop 40 dst))
    end.
Proof.
  apply (lzf_compress_roundtrip (fun _ => 3) (replicate 40 97) (replicate 40 0) 36); [by vm_compute| | |by vm_compute].
  - apply Forall_replicate. unfold byte_ok. lia.
  - intros i. by vm_compute.
Defined.
End Example_lzf.
