(* ===== verification/Server.v ===== *)
(** * Constants of server.h shared by the client-side components *)

From Stdlib Require Import ZArith.

Local Open Scope Z_scope.

(** ** Constants of server.h *)

Definition PROTO_IOBUF_LEN : Z := 1024 * 16.
Definition PROTO_INLINE_MAX_SIZE : Z := 1024 * 64.
Definition PROTO_MBULK_BIG_ARG : Z := 1024 * 32.
Definition PROTO_REQ_INLINE : Z := 1.
Definition PROTO_REQ_MULTIBULK : Z := 2.
Definition BLOCKED_MODULE : Z := 3.

(** The bit numbers of the client flags. *)
Definition CLIENT_SLAVE : Z := 0.
Definition CLIENT_MASTER : Z := 1.
Definition CLIENT_MONITOR : Z := 2.
Definition CLIENT_MULTI : Z := 3.
Definition CLIENT_BLOCKED : Z := 4.
Definition CLIENT_DIRTY_CAS : Z := 5.
Definition CLIENT_CLOSE_AFTER_REPLY : Z := 6.
Definition CLIENT_LUA : Z := 8.
Definition CLIENT_ASKING : Z := 9.
Definition CLIENT_CLOSE_ASAP : Z := 10.
Definition CLIENT_DIRTY_EXEC : Z := 12.
Definition CLIENT_REPLY_SKIP_NEXT : Z := 23.
Definition CLIENT_REPLY_SKIP : Z := 24.
Definition CLIENT_PENDING_READ : Z := 29.
Definition CLIENT_PENDING_COMMAND : Z := 30.
Definition CLIENT_TRACKING_CACHING : Z := 36.
Definition CLIENT_PROTOCOL_ERROR : Z := 39.

(** The bit numbers of the command flags. *)
Definition CMD_READONLY : Z := 1.
Definition CMD_ADMIN : Z := 4.

(** The status most functions return. *)
Inductive cstatus := C_OK | C_ERR.
