(* ===== verification/Protocol.v ===== *)
(** * The request parser (networking.c)

    The incremental parser of client requests: the query buffer with the read
    position [qb_pos], the RESP ("multi bulk") and inline formats, the loop that
    executes the commands found in the buffer, and the read handler that feeds it;
    also [catAppendOnlyGenericCommand] (aof.c), which writes a command in the RESP
    format.  A failed [serverAssert] or an access outside the buffer is [None].

    The command table, the Gopher code, the replication feed and the server's client
    lists are an interface, the class [Commands]. *)

From Stdlib Require Import ZArith Lia.
From stdpp Require Import base numbers option list.
From S2P Require Import Prelude Memory Server Util Sds.

Local Open Scope Z_scope.
Local Open Scope redis_scope.

(** ** State *)

(** The command procedures [resetClient] tests for. *)
Inductive cmdproc := askingCommand | clientCommand | otherCommand.
#[global] Instance cmdproc_eq_dec : EqDecision cmdproc.
Proof. solve_decision. Defined.

(** The error replies of the parser. *)
Inductive proto_error :=
| too_big_inline_request
| unbalanced_quotes_in_request
| too_big_mbulk_count_string
| invalid_multibulk_length
| too_big_bulk_count_string
| expected_dollar (got : Z)
| invalid_bulk_length.

(** The fields of [struct client] the parser works on; [argc] is the length of
    [argv], [reply] the list of error replies queued by the parser. *)
Record client := mkClient {
  querybuf : bytes;
  qb_pos : Z;
  argv : list bytes;
  cmd : option cmdproc;
  reqtype : Z;
  multibulklen : Z;
  bulklen : Z;
  flags : Z;
  reply : list proto_error;
  btype : Z;
  reploff : Z;
  read_reploff : Z;
  pending_querybuf : bytes;
  repl_ack_time : Z;
  querybuf_peak : Z;
  lastinteraction : Z }.

Definition set_querybuf (v : bytes) (c : client) : client :=
  mkClient v (qb_pos c) (argv c) (cmd c) (reqtype c) (multibulklen c) (bulklen c) (flags c) (reply c) (btype c) (reploff c) (read_reploff c) (pending_querybuf c) (repl_ack_time c) (querybuf_peak c) (lastinteraction c).
Definition set_qb_pos (v : Z) (c : client) : client :=
  mkClient (querybuf c) v (argv c) (cmd c) (reqtype c) (multibulklen c) (bulklen c) (flags c) (reply c) (btype c) (reploff c) (read_reploff c) (pending_querybuf c) (repl_ack_time c) (querybuf_peak c) (lastinteraction c).
Definition set_argv (v : list bytes) (c : client) : client :=
  mkClient (querybuf c) (qb_pos c) v (cmd c) (reqtype c) (multibulklen c) (bulklen c) (flags c) (reply c) (btype c) (reploff c) (read_reploff c) (pending_querybuf c) (repl_ack_time c) (querybuf_peak c) (lastinteraction c).
Definition set_cmd (v : option cmdproc) (c : client) : client :=
  mkClient (querybuf c) (qb_pos c) (argv c) v (reqtype c) (multibulklen c) (bulklen c) (flags c) (reply c) (btype c) (reploff c) (read_reploff c) (pending_querybuf c) (repl_ack_time c) (querybuf_peak c) (lastinteraction c).
Definition set_reqtype (v : Z) (c : client) : client :=
  mkClient (querybuf c) (qb_pos c) (argv c) (cmd c) v (multibulklen c) (bulklen c) (flags c) (reply c) (btype c) (reploff c) (read_reploff c) (pending_querybuf c) (repl_ack_time c) (querybuf_peak c) (lastinteraction c).
Definition set_multibulklen (v : Z) (c : client) : client :=
  mkClient (querybuf c) (qb_pos c) (argv c) (cmd c) (reqtype c) v (bulklen c) (flags c) (reply c) (btype c) (reploff c) (read_reploff c) (pending_querybuf c) (repl_ack_time c) (querybuf_peak c) (lastinteraction c).
Definition set_bulklen (v : Z) (c : client) : client :=
  mkClient (querybuf c) (qb_pos c) (argv c) (cmd c) (reqtype c) (multibulklen c) v (flags c) (reply c) (btype c) (reploff c) (read_reploff c) (pending_querybuf c) (repl_ack_time c) (querybuf_peak c) (lastinteraction c).
Definition set_flags (v : Z) (c : client) : client :=
  mkClient (querybuf c) (qb_pos c) (argv c) (cmd c) (reqtype c) (multibulklen c) (bulklen c) v (reply c) (btype c) (reploff c) (read_reploff c) (pending_querybuf c) (repl_ack_time c) (querybuf_peak c) (lastinteraction c).
Definition set_reply (v : list proto_error) (c : client) : client :=
  mkClient (querybuf c) (qb_pos c) (argv c) (cmd c) (reqtype c) (multibulklen c) (bulklen c) (flags c) v (btype c) (reploff c) (read_reploff c) (pending_querybuf c) (repl_ack_time c) (querybuf_peak c) (lastinteraction c).
Definition set_reploff (v : Z) (c : client) : client :=
  mkClient (querybuf c) (qb_pos c) (argv c) (cmd c) (reqtype c) (multibulklen c) (bulklen c) (flags c) (reply c) (btype c) v (read_reploff c) (pending_querybuf c) (repl_ack_time c) (querybuf_peak c) (lastinteraction c).
Definition set_read_reploff (v : Z) (c : client) : client :=
  mkClient (querybuf c) (qb_pos c) (argv c) (cmd c) (reqtype c) (multibulklen c) (bulklen c) (flags c) (reply c) (btype c) (reploff c) v (pending_querybuf c) (repl_ack_time c) (querybuf_peak c) (lastinteraction c).
Definition set_pending_querybuf (v : bytes) (c : client) : client :=
  mkClient (querybuf c) (qb_pos c) (argv c) (cmd c) (reqtype c) (multibulklen c) (bulklen c) (flags c) (reply c) (btype c) (reploff c) (read_reploff c) v (repl_ack_time c) (querybuf_peak c) (lastinteraction c).
Definition set_repl_ack_time (v : Z) (c : client) : client :=
  mkClient (querybuf c) (qb_pos c) (argv c) (cmd c) (reqtype c) (multibulklen c) (bulklen c) (flags c) (reply c) (btype c) (reploff c) (read_reploff c) (pending_querybuf c) v (querybuf_peak c) (lastinteraction c).
Definition set_querybuf_peak (v : Z) (c : client) : client :=
  mkClient (querybuf c) (qb_pos c) (argv c) (cmd c) (reqtype c) (multibulklen c) (bulklen c) (flags c) (reply c) (btype c) (reploff c) (read_reploff c) (pending_querybuf c) (repl_ack_time c) v (lastinteraction c).
Definition set_lastinteraction (v : Z) (c : client) : client :=
  mkClient (querybuf c) (qb_pos c) (argv c) (cmd c) (reqtype c) (multibulklen c) (bulklen c) (flags c) (reply c) (btype c) (reploff c) (read_reploff c) (pending_querybuf c) (repl_ack_time c) (querybuf_peak c) v.

(** [c->flags & F], [c->flags |= F] and [c->flags &= ~F]. *)
Definition has (c : client) (f : Z) : bool := Z.testbit (flags c) f.
Definition set_flag (f : Z) (c : client) : client := set_flags (Z.setbit (flags c) f) c.
Definition clear_flag (f : Z) (c : client) : client := set_flags (Z.clearbit (flags c) f) c.

(** The fields of [struct redisServer] the parser reads. *)
Record server := mkServer {
  proto_max_bulk_len : Z;
  client_max_querybuf_len : Z;
  lua_timedout : bool;
  gopher_enabled : bool;
  unixtime : Z;
  io_threads_active : bool;
  io_threads_do_reads : bool;
  ProcessingEventsWhileBlocked : bool }.

(** What the parser calls: [St] is the state of the rest of the server.
    [processCommand] also tells whether the client was freed meanwhile
    ([server.current_client == NULL] afterwards). *)
Class Commands (St : Type) := {
  server_conf : St -> server;
  clientsArePaused : St -> bool * St;
  processCommand : client -> St -> cstatus * bool * client * St;
  processGopherRequest : client -> St -> client * St;
  replicationFeedSlavesFromMasterStream : bytes -> Z -> St -> St;
  clients_to_close_add : client -> St -> St;
  clients_pending_read_add : client -> St -> St }.

(** ** Helpers *)

(** [strchr(p,ch)] for a non-zero [ch], as an offset from [p]; the byte after an sds is NUL. *)
Fixpoint strchr (p : bytes) (ch : Z) : option Z :=
  match p with
  | [] => None
  | c :: p => if c =? ch then Some 0 else if c =? 0 then None else Z.succ <$> strchr p ch
  end.

(** The string at [c->querybuf+c->qb_pos], and [sdslen(c->querybuf)-c->qb_pos], a [size_t]. *)
Definition unread (c : client) : bytes := drop (Z.to_nat (qb_pos c)) (querybuf c).
Definition unread_len (c : client) : Z := u64 (zlen (querybuf c) - qb_pos c).

Definition addReplyError (e : proto_error) (c : client) : client := set_reply (reply c ++ [e]) c.

Definition setProtocolError (c : client) : client :=
  set_flag CLIENT_PROTOCOL_ERROR (set_flag CLIENT_CLOSE_AFTER_REPLY c).

Definition freeClientArgv (c : client) : client := set_cmd None (set_argv [] c).

Definition resetClient (c : client) : client :=
  let prevcmd := cmd c in
  let c := freeClientArgv c in
  let c := set_bulklen (-1) (set_multibulklen 0 (set_reqtype 0 c)) in
  let c := if negb (has c CLIENT_MULTI) && negb (bool_decide (prevcmd = Some askingCommand))
           then clear_flag CLIENT_ASKING c else c in
  let c := if negb (has c CLIENT_MULTI) && negb (bool_decide (prevcmd = Some clientCommand))
           then clear_flag CLIENT_TRACKING_CACHING c else c in
  let c := clear_flag CLIENT_REPLY_SKIP c in
  if has c CLIENT_REPLY_SKIP_NEXT
  then clear_flag CLIENT_REPLY_SKIP_NEXT (set_flag CLIENT_REPLY_SKIP c) else c.

(** [getClientType(c) == CLIENT_TYPE_SLAVE] *)
Definition is_type_slave (c : client) : bool :=
  negb (has c CLIENT_MASTER) && has c CLIENT_SLAVE && negb (has c CLIENT_MONITOR).

(** ** Inline requests *)

Definition processInlineBuffer (conf : server) (c : client) : option (cstatus * client) :=
  match strchr (unread c) 10 with
  | None =>
      if unread_len c >? PROTO_INLINE_MAX_SIZE
      then Some (C_ERR, setProtocolError (addReplyError too_big_inline_request c))
      else Some (C_ERR, c)
  | Some newline =>
      let! cr := (if newline =? 0 then Some false
                  else let! b := load1 (querybuf c) (qb_pos c + newline - 1) in Some (b =? 13)) in
      let newline := if cr : bool then newline - 1 else newline in
      let linefeed_chars := if cr then 2 else 1 in
      let querylen := newline in
      let! aux := load (querybuf c) (qb_pos c) querylen in
      let! argv := sdssplitargs aux in
      match argv with
      | None => Some (C_ERR, setProtocolError (addReplyError unbalanced_quotes_in_request c))
      | Some argv =>
          let c := if (querylen =? 0) && is_type_slave c
                   then set_repl_ack_time (unixtime conf) c else c in
          if negb (querylen =? 0) && has c CLIENT_MASTER then Some (C_ERR, setProtocolError c)
          else
            let c := set_qb_pos (qb_pos c + (querylen + linefeed_chars)) c in
            Some (C_OK, set_argv argv c)
      end
  end.

(** ** RESP requests *)

(** How a block of statements ends. *)
Inductive flow (A : Type) := Return (r : cstatus * A) | Break (c : A) | Continue (c : A).
Arguments Return {A} r.
Arguments Break {A} c.
Arguments Continue {A} c.

(** [if (c->multibulklen == 0) { ... }]: the line with the number of arguments. *)
Definition read_multibulklen (c : client) : option (flow client) :=
  if negb (bool_decide (argv c = [])) then None else
  match strchr (unread c) 13 with
  | None =>
      if unread_len c >? PROTO_INLINE_MAX_SIZE
      then Some (Return (C_ERR, setProtocolError (addReplyError too_big_mbulk_count_string c)))
      else Some (Return (C_ERR, c))
  | Some newline =>
      if newline >? i64 (zlen (querybuf c) - qb_pos c - 2) then Some (Return (C_ERR, c)) else
      let! b := load1 (querybuf c) (qb_pos c) in
      if negb (b =? 42) then None else
      let! s := load (querybuf c) (1 + qb_pos c) (newline - 1) in
      let invalid := Some (Return (C_ERR, setProtocolError (addReplyError invalid_multibulk_length c))) in
      match string2ll s with
      | None => invalid
      | Some ll =>
          if ll >? 1024 * 1024 then invalid else
          let c := set_qb_pos (qb_pos c + newline + 2) c in
          if ll <=? 0 then Some (Return (C_OK, c))
          else Some (Continue (set_argv [] (set_multibulklen (i32 ll) c)))
      end
  end.

(** [if (c->bulklen == -1) { ... }]: the line with the length of an argument. *)
Definition read_bulklen (conf : server) (c : client) : option (flow client) :=
  match strchr (unread c) 13 with
  | None =>
      if unread_len c >? PROTO_INLINE_MAX_SIZE
      then Some (Return (C_ERR, setProtocolError (addReplyError too_big_bulk_count_string c)))
      else Some (Break c)
  | Some newline =>
      if newline >? i64 (zlen (querybuf c) - qb_pos c - 2) then Some (Break c) else
      let! b := load1 (querybuf c) (qb_pos c) in
      if negb (b =? 36) then
        Some (Return (C_ERR, setProtocolError (addReplyError (expected_dollar b) c))) else
      let! s := load (querybuf c) (qb_pos c + 1) (newline - 1) in
      let invalid := Some (Return (C_ERR, setProtocolError (addReplyError invalid_bulk_length c))) in
      match string2ll s with
      | None => invalid
      | Some ll =>
          if (ll <? 0) || (negb (has c CLIENT_MASTER) && (ll >? proto_max_bulk_len conf))
          then invalid else
          let c := set_qb_pos (qb_pos c + newline + 2) c in
          let! c :=
            (if (ll >=? PROTO_MBULK_BIG_ARG) && (unread_len c <=? u64 (ll + 2)) then
               let! querybuf := sdsrange (querybuf c) (qb_pos c) (-1) in
               Some (set_qb_pos 0 (set_querybuf querybuf c))
             else Some c) in
          Some (Continue (set_bulklen ll c))
      end
  end.

(** The argument itself, with its final CRLF. *)
Definition read_bulk (c : client) : option (flow client) :=
  if unread_len c <? u64 (bulklen c + 2) then Some (Break c) else
  let! c :=
    (if (qb_pos c =? 0) && (bulklen c >=? PROTO_MBULK_BIG_ARG) &&
        (zlen (querybuf c) =? u64 (bulklen c + 2))
     then
       let! s := load (querybuf c) 0 (zlen (querybuf c) - 2) in
       Some (set_querybuf [] (set_argv (argv c ++ [s]) c))
     else
       let! s := load (querybuf c) (qb_pos c) (bulklen c) in
       Some (set_qb_pos (qb_pos c + (bulklen c + 2)) (set_argv (argv c ++ [s]) c))) in
  Some (Continue (set_multibulklen (multibulklen c - 1) (set_bulklen (-1) c))).

(** [while(c->multibulklen) { ... }]: every turn that does not leave the loop reads one
    argument, so [multibulklen] bounds the number of turns. *)
Fixpoint multibulk_loop (fuel : nat) (conf : server) (c : client) : option (flow client) :=
  if multibulklen c =? 0 then Some (Break c) else
  match fuel with
  | O => None
  | S fuel =>
      let! f := (if bulklen c =? -1 then read_bulklen conf c else Some (Continue c)) in
      match f with
      | Return r => Some (Return r)
      | Break c => Some (Break c)
      | Continue c =>
          let! f := read_bulk c in
          match f with
          | Return r => Some (Return r)
          | Break c => Some (Break c)
          | Continue c => multibulk_loop fuel conf c
          end
      end
  end.

Definition processMultibulkBuffer (conf : server) (c : client) : option (cstatus * client) :=
  let! f := (if multibulklen c =? 0 then read_multibulklen c else Some (Continue c)) in
  match f with
  | Return r => Some r
  | Break c | Continue c =>
      if multibulklen c <=? 0 then None else
      let! f := multibulk_loop (Z.to_nat (multibulklen c)) conf c in
      match f with
      | Return r => Some r
      | Break c | Continue c => Some (if multibulklen c =? 0 then C_OK else C_ERR, c)
      end
  end.

(** ** The loop over the requests of the buffer *)

Section Input.
Context {St : Type} `{Commands St}.

Definition commandProcessed (c : client) (s : St) : option (client * St) :=
  let prev_offset := reploff c in
  let c := if has c CLIENT_MASTER && negb (has c CLIENT_MULTI)
           then set_reploff (read_reploff c - zlen (querybuf c) + qb_pos c) c else c in
  let c := if negb (has c CLIENT_BLOCKED) || negb (btype c =? BLOCKED_MODULE)
           then resetClient c else c in
  if has c CLIENT_MASTER then
    let applied := reploff c - prev_offset in
    if applied =? 0 then Some (c, s) else
    let s := replicationFeedSlavesFromMasterStream (pending_querybuf c) applied s in
    let! pending := sdsrange (pending_querybuf c) applied (-1) in
    Some (set_pending_querybuf pending c, s)
  else Some (c, s).

Definition processCommandAndResetClient (c : client) (s : St) : option (cstatus * client * St) :=
  let '(st, deadclient, c, s) := processCommand c s in
  let! (c, s) := (match st with C_OK => commandProcessed c s | C_ERR => Some (c, s) end) in
  Some (if deadclient : bool then C_ERR else C_OK, c, s).

(** One turn of the loop: [Return] leaves the function, [Break] the loop. *)
Definition input_turn (c : client) (s : St) : option (flow (client * St)) :=
  let '(paused, s) := if negb (has c CLIENT_SLAVE) then clientsArePaused s else (false, s) in
  if paused : bool then Some (Break (c, s)) else
  if has c CLIENT_BLOCKED then Some (Break (c, s)) else
  if has c CLIENT_PENDING_COMMAND then Some (Break (c, s)) else
  if lua_timedout (server_conf s) && has c CLIENT_MASTER then Some (Break (c, s)) else
  if has c CLIENT_CLOSE_AFTER_REPLY || has c CLIENT_CLOSE_ASAP then Some (Break (c, s)) else
  let! c :=
    (if reqtype c =? 0 then
       let! b := load1 (querybuf c) (qb_pos c) in
       Some (set_reqtype (if b =? 42 then PROTO_REQ_MULTIBULK else PROTO_REQ_INLINE) c)
     else Some c) in
  let! f :=
    (if reqtype c =? PROTO_REQ_INLINE then
       let! (st, c) := processInlineBuffer (server_conf s) c in
       match st with
       | C_ERR => Some (Break (c, s))
       | C_OK =>
           if gopher_enabled (server_conf s) &&
              match argv c with [] => true | [a] => at_ a 0 =? 47 | _ => false end
           then
             let '(c, s) := processGopherRequest c s in
             Some (Break (set_flag CLIENT_CLOSE_AFTER_REPLY (resetClient c), s))
           else Some (Continue (c, s))
       end
     else if reqtype c =? PROTO_REQ_MULTIBULK then
       let! (st, c) := processMultibulkBuffer (server_conf s) c in
       match st with C_ERR => Some (Break (c, s)) | C_OK => Some (Continue (c, s)) end
     else None) in
  match f with
  | Return r => Some (Return r)
  | Break cs => Some (Break cs)
  | Continue (c, s) =>
      match argv c with
      | [] => Some (Continue (resetClient c, s))
      | _ =>
          if has c CLIENT_PENDING_READ then Some (Break (set_flag CLIENT_PENDING_COMMAND c, s)) else
          let! (st, c, s) := processCommandAndResetClient c s in
          match st with
          | C_ERR => Some (Return (C_OK, (c, s)))
          | C_OK => Some (Continue (c, s))
          end
      end
  end.

(** [while(c->qb_pos < sdslen(c->querybuf))]: every turn that continues has consumed bytes of
    the buffer. *)
Fixpoint input_loop (fuel : nat) (c : client) (s : St) : option (flow (client * St)) :=
  if qb_pos c <? zlen (querybuf c) then
    match fuel with
    | O => None
    | S fuel =>
        let! f := input_turn c s in
        match f with
        | Continue (c, s) => input_loop fuel c s
        | f => Some f
        end
    end
  else Some (Break (c, s)).

Definition processInputBuffer (c : client) (s : St) : option (client * St) :=
  let! f := input_loop (S (length (querybuf c))) c s in
  match f with
  | Return (_, cs) => Some cs
  | Break (c, s) | Continue (c, s) =>
      if negb (qb_pos c =? 0) then
        let! querybuf := sdsrange (querybuf c) (qb_pos c) (-1) in
        Some (set_qb_pos 0 (set_querybuf querybuf c), s)
      else Some (c, s)
  end.

(** ** The read handler *)

Definition freeClientAsync (c : client) (s : St) : client * St :=
  if has c CLIENT_CLOSE_ASAP || has c CLIENT_LUA then (c, s)
  else let c := set_flag CLIENT_CLOSE_ASAP c in (c, clients_to_close_add c s).

Definition postponeClientRead (c : client) (s : St) : bool * client * St :=
  let conf := server_conf s in
  if io_threads_active conf && io_threads_do_reads conf && negb (ProcessingEventsWhileBlocked conf) &&
     negb (has c CLIENT_MASTER || has c CLIENT_SLAVE || has c CLIENT_PENDING_READ)
  then let c := set_flag CLIENT_PENDING_READ c in (true, c, clients_pending_read_add c s)
  else (false, c, s).

(** What [read] finds on the socket: bytes (of which it returns at most the requested
    number), nothing yet, an error or the end of the stream. *)
Inductive conn_state := Available (b : Z) (bs : bytes) | Again | Error | Closed.

(** [readlen] of the handler. *)
Definition query_readlen (c : client) : Z :=
  if (reqtype c =? PROTO_REQ_MULTIBULK) && negb (multibulklen c =? 0) && negb (bulklen c =? -1) &&
     (bulklen c >=? PROTO_MBULK_BIG_ARG)
  then
    let remaining := i64 (u64 (bulklen c + 2) - zlen (querybuf c)) in
    if (remaining >? 0) && (remaining <? PROTO_IOBUF_LEN) then remaining else PROTO_IOBUF_LEN
  else PROTO_IOBUF_LEN.

Definition readQueryFromClient (conn : conn_state) (c : client) (s : St) : option (client * St) :=
  let '(postponed, c, s) := postponeClientRead c s in
  if postponed : bool then Some (c, s) else
  let readlen := query_readlen c in
  let qblen := zlen (querybuf c) in
  let c := if querybuf_peak c <? qblen then set_querybuf_peak qblen c else c in
  match conn with
  | Again => Some (c, s)
  | Error | Closed => Some (freeClientAsync c s)
  | Available b bs =>
      let data := take (Z.to_nat readlen) (b :: bs) in
      let nread := zlen data in
      let c := if has c CLIENT_MASTER then set_pending_querybuf (pending_querybuf c ++ data) c else c in
      let c := set_querybuf (querybuf c ++ data) c in
      let c := set_lastinteraction (unixtime (server_conf s)) c in
      let c := if has c CLIENT_MASTER then set_read_reploff (read_reploff c + nread) c else c in
      if zlen (querybuf c) >? client_max_querybuf_len (server_conf s) then Some (freeClientAsync c s)
      else processInputBuffer c s
  end.
End Input.

(** ** Writing a command (aof.c) *)

(** [buf[0]=mark; len = 1+ll2string(buf+1,sizeof(buf)-1,n); buf[len++]='\r'; buf[len++]='\n';]
    and [sdscatlen(dst,buf,len)], [buf] being a block of 32 bytes. *)
Definition cat_count (dst : bytes) (buf : bytes) (mark n : Z) : option (bytes * bytes) :=
  let! buf := store1 buf 0 mark in
  let! (len, tl) := ll2string (drop 1 buf) 31 n in
  let buf := take 1 buf ++ tl in
  let len := 1 + len in
  let! buf := store1 buf len 13 in
  let! buf := store1 buf (len + 1) 10 in
  let! s := load buf 0 (len + 2) in
  Some (dst ++ s, buf).

Fixpoint cat_args (dst buf : bytes) (argv : list bytes) : option bytes :=
  match argv with
  | [] => Some dst
  | o :: argv =>
      let! (dst, buf) := cat_count dst buf 36 (zlen o) in
      cat_args (dst ++ o ++ [13; 10]) buf argv
  end.

(** [buf] is the uninitialised block on the stack. *)
Definition catAppendOnlyGenericCommand (buf dst : bytes) (argv : list bytes) : option bytes :=
  let! (dst, buf) := cat_count dst buf 42 (zlen argv) in
  cat_args dst buf argv.
