(* ===== verification/ProtocolFacts.v ===== *)
(** * The RESP encoding and the steps of the parser *)

From Stdlib Require Import ZArith Lia.
From stdpp Require Import base numbers option list.
From S2P Require Import Prelude Memory Server Util UtilFacts Sds SdsSpec Protocol.

Local Open Scope Z_scope.
Local Open Scope redis_scope.

(** ** The encoding *)

Abbreviation CRLF := [13; 10].

(** The decimal notation of a number. *)
Definition dec_str (n : Z) : bytes :=
  match ll2string (replicate 31 0) 31 n with
  | Some (len, b) => take (Z.to_nat len) b
  | None => []
  end.

Lemma dec_str_decimal n : is_s 64 n -> decimal (dec_str n) n.
Proof.
  intros Hn. destruct (ll2string_prints (replicate 31 0) 31 n) as (s & Hs & _ & HE); [done|done|].
  unfold dec_str. rewrite HE. pose proof (decimal_printed_length s n Hn Hs).
  pose proof (printed_length_bound n Hn). rewrite (proj2 (Z.ltb_lt _ 31)) by lia.
  unfold zlen. by rewrite Nat2Z.id, take_app_length.
Qed.
Lemma zlen_dec_str n : is_s 64 n -> 1 <= zlen (dec_str n) <= 21.
Proof.
  intros Hn. rewrite (decimal_printed_length _ n) by auto using dec_str_decimal.
  by apply printed_length_bound.
Qed.
Lemma string2ll_dec_str n : is_s 64 n -> string2ll (dec_str n) = Some n.
Proof. intros Hn. apply string2ll_iff. auto using dec_str_decimal. Qed.

(** Bytes [strchr] passes over when it looks for a line end. *)
Definition plain (ch b : Z) : Prop := b <> 0 /\ b <> ch.

Lemma dec_str_plain n : 0 <= n -> is_s 64 n -> Forall (plain 13) (dec_str n).
Proof.
  intros H0 Hn. pose proof (dec_str_decimal n Hn) as Hd. unfold decimal in Hd.
  destruct Hd as [(_ & Hd & _) | (t & _ & Hneg & _)]; [|lia].
  eapply Forall_impl; [exact Hd|]. unfold digit, plain. intros; lia.
Qed.

Definition header (mark n : Z) : bytes := mark :: dec_str n ++ CRLF.
Definition enc_arg (a : bytes) : bytes := header 36 (zlen a) ++ a ++ CRLF.
Definition enc_args (argv : list bytes) : bytes := flat_map enc_arg argv.
Definition enc_command (argv : list bytes) : bytes := header 42 (zlen argv) ++ enc_args argv.

Lemma zlen_header mark n : zlen (header mark n) = 1 + zlen (dec_str n) + 2.
Proof. unfold header. zlia. Qed.
Lemma store1_head x l v : store1 (x :: l) 0 v = Some (u8 v :: l).
Proof. apply (store_app [] [x] [u8 v] l); done. Qed.

Lemma cat_count_spec dst buf mark n :
  zlen buf = 32 -> is_s 64 n -> byte_ok mark ->
  exists buf', cat_count dst buf mark n = Some (dst ++ header mark n, buf') /\ zlen buf' = 32.
Proof.
  intros Hb Hn Hm. unfold cat_count. destruct buf as [|x buf]; [done|]. rewrite zlen_cons in Hb.
  rewrite (store1_head x buf). mstep.
  replace (u8 mark) with mark by (symmetry; apply uN_small; done).
  change (drop 1 (mark :: buf)) with buf. change (take 1 (mark :: buf)) with [mark].
  destruct (ll2string_prints buf 31 n) as (s & Hs & _ & ->); [done|lia|].
  assert (s = dec_str n) as -> by (eapply decimal_unique; [done|by apply dec_str_decimal]).
  pose proof (zlen_dec_str n Hn). rewrite (proj2 (Z.ltb_lt _ 31)) by lia. mstep.
  set (d := dec_str n) in *. set (R := drop (Z.to_nat (zlen d + 1)) buf).
  assert (zlen R = 30 - zlen d) as HR by (subst R; rewrite zlen_drop; lia).
  destruct R as [|y R]; [change (zlen (@nil Z)) with 0 in HR; lia|]. rewrite zlen_cons in HR.
  unfold store1. cbn [app].
  change (mark :: d ++ 0 :: y :: R) with ((mark :: d) ++ [0] ++ y :: R).
  rewrite store_app by (rewrite ?zlen_cons; done). mstep.
  change ((mark :: d) ++ [u8 13] ++ y :: R) with ((mark :: d) ++ [13] ++ [y] ++ R). rewrite app_assoc.
  rewrite store_app by (rewrite ?zlen_app, ?zlen_cons; done). mstep.
  rewrite app_assoc. change (u8 10) with 10.
  assert (load ((((mark :: d) ++ [13]) ++ [10]) ++ R) 0 (1 + zlen d + 2) = Some (((mark :: d) ++ [13]) ++ [10]))
    as HL by (apply (load_app []); [done|zlia]).
  rewrite HL. mstep.
  eexists. split; [|by instantiate (1 := (((mark :: d) ++ [13]) ++ [10]) ++ R); zlia].
  do 3 f_equal. unfold header. simpl. by rewrite <- app_assoc.
Qed.

Lemma cat_args_spec argv dst buf :
  zlen buf = 32 -> Forall (fun a => is_s 64 (zlen a)) argv ->
  cat_args dst buf argv = Some (dst ++ enc_args argv).
Proof.
  intros Hb Ha. revert dst buf Hb. induction Ha as [|a argv Ha _ IH]; intros dst buf Hb; cbn [cat_args enc_args flat_map].
  { by rewrite app_nil_r. }
  destruct (cat_count_spec dst buf 36 (zlen a)) as (buf' & -> & Hb'); [done|done|done|]. mstep.
  rewrite IH by done. unfold enc_arg. by rewrite <- !app_assoc.
Qed.

Lemma cat_command_spec argv dst buf :
  zlen buf = 32 -> is_s 64 (zlen argv) -> Forall (fun a => is_s 64 (zlen a)) argv ->
  catAppendOnlyGenericCommand buf dst argv = Some (dst ++ enc_command argv).
Proof.
  intros Hb Hn Ha. unfold catAppendOnlyGenericCommand.
  destruct (cat_count_spec dst buf 42 (zlen argv)) as (buf' & -> & Hb'); [done|done|done|]. mstep.
  rewrite cat_args_spec by done. unfold enc_command. by rewrite <- app_assoc.
Qed.

(** ** Looking for a line end in a prefix of the stream *)

Lemma strchr_prefix l fut p ch q :
  l ++ fut = p ++ ch :: q -> Forall (plain ch) p ->
  zlen p < zlen l /\ strchr l ch = Some (zlen p) \/ zlen l <= zlen p /\ strchr l ch = None.
Proof.
  intros HE Hp. revert l HE. induction Hp as [|b p [Hb0 Hbc] _ IH]; intros [|x l] HE; simpl in HE;
    rewrite ?zlen_cons.
  - by right.
  - left. injection HE as -> _. cbn [strchr]. rewrite Z.eqb_refl. split; [zlia|done].
  - right. split; [zlia|done].
  - injection HE as -> HE. cbn [strchr].
    rewrite (proj2 (Z.eqb_neq b ch)), (proj2 (Z.eqb_neq b 0)) by done.
    destruct (IH l HE) as [[? ->] | [? ->]]; [left|right]; (split; [lia|]); simpl; [f_equal; lia|done].
Qed.

(** A prefix of the stream longer than its first piece starts with it. *)
Lemma prefix_split (l fut p q : bytes) :
  l ++ fut = p ++ q -> zlen p <= zlen l -> exists l', l = p ++ l' /\ l' ++ fut = q.
Proof.
  intros HE Hl. exists (drop (length p) l). assert (take (length p) l = p) as Ht.
  { apply (f_equal (take (length p))) in HE. rewrite take_app_length, take_app_le in HE by (unfold zlen in *; lia). done. }
  split; [by rewrite <- Ht at 1; rewrite take_drop|].
  apply (f_equal (drop (length p))) in HE. rewrite drop_app_length, drop_app_le in HE by (unfold zlen in *; lia). done.
Qed.

Lemma prefix_short (l fut p q : bytes) : l ++ fut = p ++ q -> zlen l < zlen p -> fut <> [].
Proof. intros HE Hl ->. apply (f_equal zlen) in HE. zlia. Qed.

(** The unread part of the query buffer. *)
Definition view (c : client) (l : bytes) : Prop :=
  exists A, querybuf c = A ++ l /\ qb_pos c = zlen A /\ zlen A + zlen l < 2 ^ 62.

Lemma view_start c l : querybuf c = l -> qb_pos c = 0 -> zlen l < 2 ^ 62 -> view c l.
Proof. intros Hq Hp Hb. by exists []. Qed.
Lemma view_unread c l : view c l -> unread c = l.
Proof.
  intros (A & HA & Hp & _). unfold unread. rewrite HA, Hp. unfold zlen. by rewrite Nat2Z.id, drop_app_length.
Qed.
Lemma view_len c l : view c l -> zlen (querybuf c) - qb_pos c = zlen l.
Proof. intros (A & -> & -> & _). rewrite zlen_app. lia. Qed.
Lemma view_unread_len c l : view c l -> unread_len c = zlen l.
Proof.
  intros Hv. unfold unread_len. rewrite (view_len c l Hv). apply uN_small.
  destruct Hv as (A & _ & _ & ?). split; zlia.
Qed.
Lemma view_advance c p l n : view c (p ++ l) -> n = zlen p -> view (set_qb_pos (qb_pos c + n) c) l.
Proof.
  intros (A & HA & Hp & Hb) ->. exists (A ++ p). cbn. rewrite HA, Hp, zlen_app in *. rewrite <- app_assoc.
  split_and!; [done|zlia|lia].
Qed.
Lemma view_load c p w l n k : view c (p ++ w ++ l) -> n = zlen p -> k = zlen w -> load (querybuf c) (qb_pos c + n) k = Some w.
Proof.
  intros (A & HA & Hp & _) -> ->. rewrite HA, Hp, app_assoc. apply load_app; [zlia|done].
Qed.
Lemma view_load1 c p b l n : view c (p ++ b :: l) -> n = zlen p -> load1 (querybuf c) (qb_pos c + n) = Some b.
Proof.
  intros (A & HA & Hp & _) ->. rewrite HA, Hp, app_assoc. apply load1_app. zlia.
Qed.

Lemma view_load0 c w l : view c (w ++ l) -> load (querybuf c) (qb_pos c) (zlen w) = Some w.
Proof. intros Hv. rewrite <- (Z.add_0_r (qb_pos c)). by apply (view_load c [] w l). Qed.
Lemma sdsrange_tail A l :
  zlen A + zlen l < 2 ^ 62 -> sdsrange (A ++ l) (zlen A) (-1) = Some l.
Proof.
  intros Hb. rewrite sdsrange_spec. zlen_pos. rewrite zlen_app. change (-1 <? 0) with true. cbv iota.
  rewrite (proj2 (Z.ltb_ge (zlen A) 0)) by lia. replace (Z.to_nat (zlen A)) with (length A) by (unfold zlen; lia). rewrite drop_app_length.
  f_equal. destruct (decide (zlen A + zlen l = 0)) as [Hz0 | Hz0].
  - assert (l = []) as -> by (apply zlen_0_inv; lia). apply take_nil.
  - apply take_ge. unfold zlen in *. lia.
Qed.

(** ** One line of the protocol *)

(** The unread bytes of the buffer and the bytes still to arrive make a line and what
    follows it: either the line end is not in the buffer yet, or the parser sees the
    whole line. *)
Lemma line_cases c l fut mark n Q :
  view c l -> 0 <= n -> is_s 64 n -> plain 13 mark -> l ++ fut = header mark n ++ Q ->
  let newline := 1 + zlen (dec_str n) in
  zlen l < newline + 2 /\ (strchr (unread c) 13 = None /\ unread_len c <= PROTO_INLINE_MAX_SIZE \/
                strchr (unread c) 13 = Some newline /\ newline > i64 (zlen (querybuf c) - qb_pos c - 2)) \/
  exists l', l' ++ fut = Q /\ strchr (unread c) 13 = Some newline /\
    newline <= i64 (zlen (querybuf c) - qb_pos c - 2) /\
    load1 (querybuf c) (qb_pos c) = Some mark /\
    load (querybuf c) (qb_pos c + 1) (newline - 1) = Some (dec_str n) /\
    view (set_qb_pos (qb_pos c + newline + 2) c) l'.
Proof.
  intros Hv H0 Hn Hm HE newline. rewrite (view_unread c l Hv), (view_unread_len c l Hv), (view_len c l Hv).
  pose proof (zlen_dec_str n Hn) as Hd. set (d := dec_str n) in *.
  assert (i64 (zlen l - 2) = zlen l - 2) as Hi64.
  { apply sN_small; [done|]. destruct Hv as (A & _ & _ & ?). unfold is_s. zlia. }
  rewrite Hi64. unfold header in HE. fold d in HE.
  assert (zlen l + zlen fut = newline + 2 + zlen Q) as Hlen.
  { apply (f_equal zlen) in HE. subst newline. zlia. }
  destruct (strchr_prefix l fut (mark :: d) 13 (10 :: Q)) as [[Hlt ->] | [Hle ->]].
  - rewrite HE. simpl. by rewrite <- app_assoc.
  - apply Forall_cons. split; [done|]. by apply dec_str_plain.
  - rewrite zlen_cons in *. fold newline. destruct (decide (zlen l < newline + 2)) as [Hs | Hs].
    { left. split; [done|]. right. split; [done|lia]. }
    right. destruct (prefix_split l fut (mark :: d ++ CRLF) Q) as (l' & -> & HQ).
    { done. }
    { subst newline. zlia. }
    exists l'. split_and!; [done|done|lia| | |].
    + rewrite <- (Z.add_0_r (qb_pos c)). eapply (view_load1 c []); [exact Hv|done].
    + eapply (view_load c [mark] d (CRLF ++ l')); [|done|subst newline; lia]. simpl.
      simpl in Hv. by rewrite <- app_assoc in Hv.
    + replace (qb_pos c + newline + 2) with (qb_pos c + (newline + 2)) by lia.
      eapply view_advance; [exact Hv|subst newline; zlia].
  - rewrite zlen_cons in *. fold newline in Hle. left. split; [lia|]. left.
    split; [done|]. unfold PROTO_INLINE_MAX_SIZE. lia.
Qed.

(** ** The parser state *)

Definition parser (c : client) (rt mb bl : Z) (av : list bytes) : Prop :=
  reqtype c = rt /\ multibulklen c = mb /\ bulklen c = bl /\ argv c = av.

(** The fields no reading step changes. *)
Definition framed (c c' : client) : Prop :=
  flags c' = flags c /\ reply c' = reply c /\ btype c' = btype c.
Lemma framed_refl c : framed c c.
Proof. done. Qed.
Lemma framed_trans c1 c2 c3 : framed c1 c2 -> framed c2 c3 -> framed c1 c3.
Proof. unfold framed. intuition congruence. Qed.
#[export] Hint Resolve framed_refl : redis.

Section Reading.
Context (conf : server) (Hmax : proto_max_bulk_len conf < 2 ^ 63 - 2).

Definition arg_ok (a : bytes) : Prop := zlen a <= proto_max_bulk_len conf.

Lemma arg_ok_s64 a : arg_ok a -> is_s 64 (zlen a).
Proof. unfold arg_ok, is_s. zlen_pos. lia. Qed.

(** The length line of the argument [a]. *)
Lemma read_bulklen_spec c l fut a Q mb done :
  view c l -> parser c 2 mb (-1) done -> arg_ok a -> l ++ fut = header 36 (zlen a) ++ Q ->
  read_bulklen conf c = Some (Break c) /\ zlen l < zlen (header 36 (zlen a)) \/
  exists c' l', read_bulklen conf c = Some (Continue c') /\ framed c c' /\ view c' l' /\
    parser c' 2 mb (zlen a) done /\ l' ++ fut = Q.
Proof.
  intros Hv (Hrt & Hmb & Hbl & Hav) Ha HE. pose proof (arg_ok_s64 a Ha) as Hs. unfold read_bulklen.
  destruct (line_cases c l fut 36 (zlen a) Q) as [[Hf [[-> Hl] | [-> Hl]]] | (l' & HQ & -> & Hl & -> & Hd & Hv')];
    try done; auto with redis.
  { left. rewrite Z.gtb_ltb, (proj2 (Z.ltb_ge _ _)) by lia. split; [done|]. by rewrite zlen_header. }
  { left. rewrite (proj2 (Z.gtb_lt _ _)) by lia. split; [done|]. by rewrite zlen_header. }
  right. rewrite Z.gtb_ltb, (proj2 (Z.ltb_ge _ _)) by lia. mstep. simpl negb. cbv iota.
  rewrite Hd. mstep. rewrite string2ll_dec_str by done. unfold arg_ok in Ha. zlen_pos.
  rewrite (proj2 (Z.ltb_ge (zlen a) 0)), Z.gtb_ltb, (proj2 (Z.ltb_ge _ (zlen a))), andb_false_r by lia.
  simpl orb. cbv iota. set (c1 := set_qb_pos _ c) in *.
  destruct ((zlen a >=? PROTO_MBULK_BIG_ARG) && (unread_len c1 <=? u64 (zlen a + 2))).
  - destruct Hv' as (A & HA & Hp & Hb). rewrite HA, Hp, sdsrange_tail by done. mstep.
    eexists _, l'. split; [done|]. split_and!; try done. apply view_start; [done|done|]. zlen_pos. lia.
  - mstep. eexists _, l'. split; [done|]. by split_and!.
Qed.

(** The argument [a] itself. *)
Lemma read_bulk_spec c l fut a Q mb done :
  view c l -> parser c 2 mb (zlen a) done -> arg_ok a -> l ++ fut = a ++ CRLF ++ Q ->
  read_bulk c = Some (Break c) /\ zlen l < zlen a + 2 \/
  exists c' l', read_bulk c = Some (Continue c') /\ framed c c' /\ view c' l' /\
    parser c' 2 (mb - 1) (-1) (done ++ [a]) /\ l' ++ fut = Q.
Proof.
  intros Hv (Hrt & Hmb & Hbl & Hav) Ha HE. unfold read_bulk. rewrite (view_unread_len c l Hv), Hbl.
  assert (u64 (zlen a + 2) = zlen a + 2) as -> by (apply uN_small; unfold arg_ok in Ha; zlen_pos; lia).
  destruct (zlen l <? zlen a + 2) eqn:El; boolsimp.
  { by left. }
  right. destruct (prefix_split l fut (a ++ CRLF) Q) as (l' & -> & HQ); [by rewrite <- app_assoc|zlia|].
  destruct ((qb_pos c =? 0) && (zlen a >=? PROTO_MBULK_BIG_ARG) && (zlen (querybuf c) =? zlen a + 2)) eqn:Ef; boolsimp.
  - destruct Hv as (A & HA & Hp & Hb). assert (A = []) as -> by (apply zlen_0_inv; lia).
    simpl in HA. rewrite HA in *. assert (l' = []) as -> by (apply zlen_0_inv; zlia).
    rewrite <- app_assoc. assert (load (a ++ CRLF ++ []) 0 (zlen (a ++ CRLF ++ []) - 2) = Some a) as ->
      by (apply (load_app []); [done|zlia]).
    mstep. eexists _, []. split; [done|]. unfold parser. cbn. split_and!; try done; try congruence; try lia.
    by apply view_start.
  - rewrite (view_load0 c a (CRLF ++ l')) by by rewrite app_assoc.
    mstep. eexists _, l'. split; [done|]. unfold parser. cbn. split_and!; try done; try congruence; try lia.
    pose proof (view_advance c (a ++ CRLF) l' (zlen a + 2) Hv ltac:(zlia)) as (B & HB & Hp & Hb).
    by exists B.
Qed.
End Reading.
