(* ===== verification/ProtocolParse.v ===== *)
(** * Streams of requests, and reading one request of a stream *)

From Stdlib Require Import ZArith Lia.
From stdpp Require Import base numbers option list.
From S2P Require Import Prelude Memory Server Util UtilFacts Sds SdsSpec Protocol ProtocolFacts.

Local Open Scope Z_scope.
Local Open Scope redis_scope.

(** ** Streams of requests *)

(** A request: a command in the RESP format, or a line of quoted arguments. *)
Inductive request := Multi (argv : list bytes) | Inline (argv : list bytes).

Definition request_argv (r : request) : list bytes :=
  match r with Multi argv | Inline argv => argv end.

Definition encode (r : request) : bytes :=
  match r with
  | Multi argv => enc_command argv
  | Inline argv => quote_line argv ++ CRLF
  end.
Definition encode_all (rs : list request) : bytes := flat_map encode rs.

(** The stream a client writes, commands being written by [catAppendOnlyGenericCommand]
    with the stack block [buf]. *)
Fixpoint write_requests (buf dst : bytes) (rs : list request) : option bytes :=
  match rs with
  | [] => Some dst
  | Multi argv :: rs =>
      let! dst := catAppendOnlyGenericCommand buf dst argv in write_requests buf dst rs
  | Inline argv :: rs => write_requests buf (dst ++ quote_line argv ++ CRLF) rs
  end.

(** The limits of the protocol. *)
Definition request_ok (conf : server) (r : request) : Prop :=
  match r with
  | Multi argv => zlen argv <= 1024 * 1024 /\ Forall (arg_ok conf) argv
  | Inline argv => Forall bytes_ok argv /\ zlen (quote_line argv) + 1 <= PROTO_INLINE_MAX_SIZE
  end.

#[global] Instance request_ok_dec conf r : Decision (request_ok conf r).
Proof. destruct r; unfold request_ok, arg_ok, bytes_ok; apply _. Defined.

Lemma write_requests_spec conf buf dst rs :
  zlen buf = 32 -> proto_max_bulk_len conf < 2 ^ 63 - 2 -> Forall (request_ok conf) rs ->
  write_requests buf dst rs = Some (dst ++ encode_all rs).
Proof.
  intros Hb Hmax Hrs. revert dst. induction Hrs as [|r rs Hr _ IH]; intros dst; [by rewrite app_nil_r|].
  destruct r as [argv | argv]; cbn [write_requests].
  - destruct Hr as [Hn Ha]. rewrite cat_command_spec.
    + mstep. by rewrite IH, <- app_assoc.
    + done.
    + unfold is_s. zlen_pos. lia.
    + eapply Forall_impl; [exact Ha|]. intros a. by apply arg_ok_s64.
  - by rewrite IH, <- app_assoc.
Qed.

Lemma encode_nonempty r : 0 < zlen (encode r).
Proof. destruct r; simpl; unfold enc_command, header; zlia. Qed.
Lemma encode_all_cons r rs : encode_all (r :: rs) = encode r ++ encode_all rs.
Proof. done. Qed.
Lemma encode_all_nil rs : encode_all rs = [] -> rs = [].
Proof.
  destruct rs as [|r rs]; [done|]. rewrite encode_all_cons. intros He%(f_equal zlen).
  pose proof (encode_nonempty r). zlia.
Qed.

Lemma zlen_enc_arg a : zlen (enc_arg a) = zlen (header 36 (zlen a)) + (zlen a + 2).
Proof. unfold enc_arg. zlia. Qed.
Lemma enc_arg_shorter seen a rest : zlen (enc_arg a) <= zlen (encode (Multi (seen ++ a :: rest))).
Proof. cbn [encode]. unfold enc_command, enc_args. rewrite flat_map_app. cbn [flat_map]. zlia. Qed.

(** ** Where the parser stands in the stream *)

Inductive phase (c : client) : list request -> bytes -> Prop :=
| phase_idle rs : parser c 0 0 (-1) [] -> phase c rs (encode_all rs)
| phase_inline argv rs :
    parser c PROTO_REQ_INLINE 0 (-1) [] -> phase c (Inline argv :: rs) (encode_all (Inline argv :: rs))
| phase_multi argv rs :
    parser c PROTO_REQ_MULTIBULK 0 (-1) [] -> phase c (Multi argv :: rs) (encode_all (Multi argv :: rs))
| phase_args seen a rest rs :
    parser c PROTO_REQ_MULTIBULK (1 + zlen rest) (-1) seen ->
    phase c (Multi (seen ++ a :: rest) :: rs) (enc_args (a :: rest) ++ encode_all rs)
| phase_bulk seen a rest rs :
    parser c PROTO_REQ_MULTIBULK (1 + zlen rest) (zlen a) seen ->
    phase c (Multi (seen ++ a :: rest) :: rs) (a ++ CRLF ++ enc_args rest ++ encode_all rs).

(** Only the four parser fields matter. *)
Lemma phase_ext c c' rs R :
  parser c' (reqtype c) (multibulklen c) (bulklen c) (argv c) -> phase c rs R -> phase c' rs R.
Proof.
  intros Hc Hph. assert (forall rt mb bl av, parser c rt mb bl av -> parser c' rt mb bl av) as Hp.
  { unfold parser in *. intuition congruence. }
  destruct Hph; constructor; by apply Hp.
Qed.

Lemma phase_multi_inv c args rs R :
  phase c (Multi args :: rs) R -> reqtype c = PROTO_REQ_MULTIBULK ->
  parser c PROTO_REQ_MULTIBULK 0 (-1) [] /\ R = encode_all (Multi args :: rs) \/
  exists seen a rest, args = seen ++ a :: rest /\
    (parser c PROTO_REQ_MULTIBULK (1 + zlen rest) (-1) seen /\ R = enc_args (a :: rest) ++ encode_all rs \/
     parser c PROTO_REQ_MULTIBULK (1 + zlen rest) (zlen a) seen /\ R = a ++ CRLF ++ enc_args rest ++ encode_all rs).
Proof.
  intros Hph Hrt. inversion Hph as [? Hp | | | |]; subst; [|eauto 10..].
  destruct Hp as [Hp _]. by rewrite Hrt in Hp.
Qed.

Lemma phase_inline_inv c args rs R :
  phase c (Inline args :: rs) R -> reqtype c = PROTO_REQ_INLINE ->
  parser c PROTO_REQ_INLINE 0 (-1) [] /\ R = encode_all (Inline args :: rs).
Proof.
  intros Hph Hrt. inversion Hph as [? Hp | | | |]; subst; [|done].
  destruct Hp as [Hp _]. by rewrite Hrt in Hp.
Qed.

(** Inside a request some of its bytes are still to be read. *)
Lemma phase_longer c r rs R : phase c (r :: rs) R -> zlen (encode_all rs) < zlen R.
Proof.
  pose proof (encode_nonempty r).
  inversion 1; subst; rewrite ?encode_all_cons; cbn [enc_args flat_map]; unfold enc_arg, header; zlia.
Qed.
Lemma phase_nil c R : phase c [] R -> R = [].
Proof. by inversion 1. Qed.

(** The first byte tells the format of the next request. *)
Lemma first_byte r rs :
  exists b q, encode_all (r :: rs) = b :: q /\ (b =? 42) = match r with Multi _ => true | Inline _ => false end.
Proof.
  destruct r as [argv | argv]; rewrite encode_all_cons; cbn [encode]; [by eexists _, _|].
  destruct argv as [|a argv]; [by eexists _, _|]. unfold quote_line. cbn [map sdsjoinsds].
  destruct (map (sdscatrepr []) argv); by eexists _, _.
Qed.

Section Parsing.
Context (conf : server) (Hmax : proto_max_bulk_len conf < 2 ^ 63 - 2).

(** The outcome of reading a request whose arguments are [argv]: it is complete, or the
    parser waits inside it for bytes that have not arrived. *)
Definition request_read (st : cstatus) (c c' : client) (r : request) rs fut : Prop :=
  framed c c' /\
  match st with
  | C_OK => exists l', view c' l' /\ l' ++ fut = encode_all rs /\ argv c' = request_argv r /\
                       multibulklen c' = 0 /\ bulklen c' = -1
  | C_ERR => fut <> [] /\ exists l', view c' l' /\ phase c' (r :: rs) (l' ++ fut) /\ zlen l' < zlen (encode r)
  end.

Definition loop_result (r : option (flow client)) c argv rs fut : Prop :=
  exists c', r = Some (Break c') /\
    request_read (if multibulklen c' =? 0 then C_OK else C_ERR) c c' (Multi argv) rs fut.

Lemma request_read_frame st c1 c2 c' r rs fut :
  framed c1 c2 -> request_read st c2 c' r rs fut -> request_read st c1 c' r rs fut.
Proof. intros H1 [H2 H3]. split; [by eapply framed_trans|done]. Qed.

(** A loop turn from the argument itself on, and the loop at the length of an argument. *)
Lemma multibulk_turn_spec a rest seen fuel c l fut rs :
  (forall c l seen, parser c PROTO_REQ_MULTIBULK (zlen rest) (-1) seen -> view c l ->
     l ++ fut = enc_args rest ++ encode_all rs ->
     loop_result (multibulk_loop fuel conf c) c (seen ++ rest) rs fut) ->
  arg_ok conf a -> view c l -> parser c PROTO_REQ_MULTIBULK (1 + zlen rest) (zlen a) seen ->
  l ++ fut = a ++ CRLF ++ enc_args rest ++ encode_all rs ->
  loop_result
    (let! f := read_bulk c in
     match f with
     | Return r => Some (Return r)
     | Break c => Some (Break c)
     | Continue c => multibulk_loop fuel conf c
     end) c (seen ++ a :: rest) rs fut.
Proof.
  intros IH Ha Hv Hp HE.
  destruct (read_bulk_spec conf Hmax c l fut a _ _ _ Hv Hp Ha HE) as [[-> Hf] | (c' & l' & -> & Hfr & Hv' & Hp' & HE')];
    mstep.
  - exists c. split; [done|]. destruct Hp as (H1 & H2 & H3 & H4). rewrite (proj2 (Z.eqb_neq _ _)) by zlia.
    split; [done|]. split; [eapply (prefix_short l fut (a ++ CRLF)); [by rewrite <- app_assoc|zlia]|].
    exists l. split; [done|]. split; [rewrite HE; by constructor|].
    pose proof (enc_arg_shorter seen a rest). rewrite zlen_enc_arg in *. zlen_pos. lia.
  - replace (1 + zlen rest - 1) with (zlen rest) in Hp' by lia.
    destruct (IH c' l' (seen ++ [a]) Hp' Hv' HE') as (c2 & -> & Hr). rewrite <- app_assoc in Hr.
    exists c2. split; [done|]. by eapply request_read_frame.
Qed.

Lemma multibulk_loop_spec args seen fuel c l fut rs :
  (length args <= fuel)%nat -> Forall (arg_ok conf) args ->
  parser c PROTO_REQ_MULTIBULK (zlen args) (-1) seen -> view c l ->
  l ++ fut = enc_args args ++ encode_all rs ->
  loop_result (multibulk_loop fuel conf c) c (seen ++ args) rs fut.
Proof.
  intros Hf Hok. revert fuel seen c l Hf. induction Hok as [|a rest Ha Hok IH]; intros fuel seen c l Hf Hp Hv HE.
  - assert (multibulklen c = 0) as Hmb by apply Hp. exists c.
    split; [by destruct fuel; cbn [multibulk_loop]; rewrite Hmb|]. rewrite Hmb. split; [done|].
    exists l. destruct Hp as (_ & _ & ? & ->). rewrite app_nil_r. done.
  - destruct fuel as [|fuel]; [simpl in Hf; lia|]. simpl in Hf. rewrite zlen_cons in Hp.
    pose proof Hp as (Hrt & Hmb & Hbl & Hav). cbn [multibulk_loop].
    rewrite (proj2 (Z.eqb_neq _ 0)), Hbl by zlia. change (-1 =? -1) with true. cbv iota.
    assert (l ++ fut = header 36 (zlen a) ++ a ++ CRLF ++ enc_args rest ++ encode_all rs) as HE2.
    { rewrite HE. cbn [enc_args flat_map]. unfold enc_arg. by rewrite <- !app_assoc. }
    destruct (read_bulklen_spec conf Hmax c l fut a _ _ _ Hv Hp Ha HE2) as [[-> Hf'] | (c' & l' & -> & Hfr & Hv' & Hp' & HE')];
      mstep.
    + exists c. split; [done|]. rewrite (proj2 (Z.eqb_neq _ 0)) by zlia.
      split; [done|]. split; [by eapply prefix_short|].
      exists l. split; [done|]. split; [rewrite HE; by constructor|].
      pose proof (enc_arg_shorter seen a rest). rewrite zlen_enc_arg in *. zlen_pos. lia.
    + destruct (multibulk_turn_spec a rest seen fuel c' l' fut rs) as (c2 & -> & Hr); try done.
      { intros. apply (IH fuel seen0 c0 l0); try done. lia. }
      exists c2. split; [done|]. by eapply request_read_frame.
Qed.

(** The header of a command. *)
Lemma read_multibulklen_spec c l fut args rs :
  parser c PROTO_REQ_MULTIBULK 0 (-1) [] -> view c l -> request_ok conf (Multi args) ->
  l ++ fut = encode_all (Multi args :: rs) ->
  read_multibulklen c = Some (Return (C_ERR, c)) /\ fut <> [] /\ zlen l < zlen (header 42 (zlen args)) \/
  exists c' l', framed c c' /\ view c' l' /\ l' ++ fut = enc_args args ++ encode_all rs /\
    parser c' PROTO_REQ_MULTIBULK (zlen args) (-1) [] /\
    read_multibulklen c = Some (if decide (args = []) then Return (C_OK, c') else Continue c').
Proof.
  intros (Hrt & Hmb & Hbl & Hav) Hv [Hn Hok] HE. zlen_pos.
  assert (is_s 64 (zlen args)) as Hs by (unfold is_s; lia).
  unfold read_multibulklen. rewrite Hav. simpl negb. cbv iota.
  assert (l ++ fut = header 42 (zlen args) ++ enc_args args ++ encode_all rs) as HE2.
  { rewrite HE. cbn [encode_all flat_map encode]. unfold enc_command. by rewrite <- !app_assoc. }
  destruct (line_cases c l fut 42 (zlen args) (enc_args args ++ encode_all rs))
    as [[Hsh [[-> Hl] | [-> Hl]]] | (l' & HQ & -> & Hl & -> & Hd & Hv')]; try done; auto with redis.
  { left. rewrite Z.gtb_ltb, (proj2 (Z.ltb_ge _ _)) by lia. split; [done|].
    rewrite <- (zlen_header 42) in Hsh. split; [by eapply prefix_short|done]. }
  { left. rewrite (proj2 (Z.gtb_lt _ _)) by lia. split; [done|].
    rewrite <- (zlen_header 42) in Hsh. split; [by eapply prefix_short|done]. }
  right. rewrite Z.gtb_ltb, (proj2 (Z.ltb_ge _ _)) by lia. mstep. simpl negb. cbv iota.
  rewrite (Z.add_comm 1 (qb_pos c)), Hd. mstep. rewrite string2ll_dec_str by done.
  rewrite Z.gtb_ltb, (proj2 (Z.ltb_ge _ (zlen args))) by lia.
  set (c1 := set_qb_pos _ c) in *. destruct (decide (args = [])) as [-> | Hne].
  - exists c1, l'. split_and!; try done.
  - destruct args as [|a args]; [done|]. rewrite zlen_cons in *.
    rewrite (proj2 (Z.leb_gt _ _)) by zlia.
    exists (set_argv [] (set_multibulklen (i32 (1 + zlen args)) c1)), l'. split_and!; try done.
    unfold parser. cbn. split_and!; try done. apply sN_small; [done|]. unfold is_s. zlia.
Qed.

(** [processMultibulkBuffer] from any point inside a command. *)
Lemma processMultibulkBuffer_spec c l fut args rs :
  reqtype c = PROTO_REQ_MULTIBULK -> phase c (Multi args :: rs) (l ++ fut) -> view c l ->
  request_ok conf (Multi args) ->
  exists st c', processMultibulkBuffer conf c = Some (st, c') /\
    request_read st c c' (Multi args) rs fut.
Proof.
  intros Hrt Hph Hv Hok. unfold processMultibulkBuffer.
  apply phase_multi_inv in Hph as [[Hp HE] | (seen & a & rest & -> & [[Hp HE] | [Hp HE]])]; [| | |done].
  - assert (multibulklen c = 0) as Hmb by apply Hp. rewrite Hmb. change (0 =? 0) with true. cbv iota.
    destruct (read_multibulklen_spec c l fut args rs) as [(-> & Hf & Hsh) | (c' & l' & Hfr & Hv' & HE' & Hp' & ->)]; try done; mstep.
    { exists C_ERR, c. split; [done|]. split; [done|]. split; [done|]. exists l. split; [done|].
      split; [rewrite HE; by constructor|]. cbn [encode]. unfold enc_command. zlia. }
    destruct (decide (args = [])) as [-> | Hne].
    { exists C_OK, c'. split; [done|]. split; [done|]. exists l'. destruct Hp' as (_ & ? & ? & ->). done. }
    assert (0 < zlen args) as Hpos by (destruct args; [done|]; zlia).
    assert (multibulklen c' = zlen args) as Hm' by apply Hp'. rewrite Hm'.
    rewrite (proj2 (Z.leb_gt _ _)) by lia.
    destruct (multibulk_loop_spec args [] (Z.to_nat (zlen args)) c' l' fut rs) as (c2 & -> & Hr); try done.
    { unfold zlen. lia. } { apply Hok. }
    mstep. eexists _, c2. split; [done|]. by eapply request_read_frame.
  - assert (multibulklen c = 1 + zlen rest) as Hm by apply Hp. rewrite Hm. zlen_pos.
    rewrite (proj2 (Z.eqb_neq _ _)) by lia. mstep.
    rewrite Hm, (proj2 (Z.leb_gt _ _)) by lia. destruct Hok as [_ Hok]. apply Forall_app in Hok as [_ Hok].
    destruct (multibulk_loop_spec (a :: rest) seen (Z.to_nat (1 + zlen rest)) c l fut rs) as (c2 & -> & Hr); try done.
    { unfold zlen. simpl. lia. } { by rewrite zlen_cons. }
    mstep. eexists _, c2. done.
  - assert (multibulklen c = 1 + zlen rest) as Hm by apply Hp. rewrite Hm. zlen_pos.
    rewrite (proj2 (Z.eqb_neq _ _)) by lia. mstep.
    rewrite Hm, (proj2 (Z.leb_gt _ _)) by lia. destruct Hok as [_ Hok]. apply Forall_app in Hok as [_ Hok].
    apply Forall_cons in Hok as [Ha Hok].
    destruct (Z.to_nat (1 + zlen rest)) as [|fuel] eqn:Ef; [lia|]. cbn [multibulk_loop].
    rewrite Hm, (proj2 (Z.eqb_neq _ 0)) by lia.
    assert (bulklen c = zlen a) as -> by apply Hp. rewrite (proj2 (Z.eqb_neq _ (-1))) by zlia. mstep.
    destruct (multibulk_turn_spec a rest seen fuel c l fut rs) as (c2 & -> & Hr); try done.
    { intros. eapply multibulk_loop_spec; try done. unfold zlen in Ef. lia. }
    mstep. eexists _, c2. done.
Qed.

(** [processInlineBuffer] on a line of quoted arguments. *)
Lemma processInlineBuffer_spec c l fut args rs :
  parser c PROTO_REQ_INLINE 0 (-1) [] -> view c l -> has c CLIENT_MASTER = false ->
  request_ok conf (Inline args) -> l ++ fut = encode_all (Inline args :: rs) ->
  exists st c', processInlineBuffer conf c = Some (st, c') /\
    request_read st c c' (Inline args) rs fut.
Proof.
  intros Hp Hv Hm [Hok Hlen] HE. pose proof Hp as (Hrt & Hmb & Hbl & Hav). unfold processInlineBuffer.
  pose proof (quote_line_printable args Hok) as Hpr. set (ql := quote_line args) in *.
  assert (l ++ fut = (ql ++ [13]) ++ 10 :: encode_all rs) as HE2.
  { rewrite HE. cbn [encode_all flat_map encode]. fold ql. by rewrite <- !app_assoc. }
  rewrite (view_unread c l Hv), (view_unread_len c l Hv).
  destruct (strchr_prefix l fut (ql ++ [13]) 10 (encode_all rs)) as [[Hlt ->] | [Hle ->]]; try done.
  { apply Forall_app. split; [|by apply Forall_cons].
    eapply Forall_impl; [exact Hpr|]. unfold printable, plain. intros; lia. }
  2: { rewrite Z.gtb_ltb, (proj2 (Z.ltb_ge _ _)) by zlia. exists C_ERR, c. split; [done|]. split; [done|].
       split.
       { eapply (prefix_short l fut (ql ++ CRLF)); [|zlia]. rewrite HE2. by rewrite <- !app_assoc. }
       exists l. split; [done|]. split; [rewrite HE; by constructor|]. cbn [encode]. fold ql. zlia. }
  destruct (prefix_split l fut ((ql ++ [13]) ++ [10]) (encode_all rs)) as (l' & -> & HQ).
  { rewrite HE2. by rewrite <- (app_assoc _ [10]). } { zlia. }
  rewrite zlen_app in Hlt |- *. change (zlen [13]) with 1 in *. zlen_pos.
  rewrite (proj2 (Z.eqb_neq (zlen ql + 1) 0)) by lia.
  replace (qb_pos c + (zlen ql + 1) - 1) with (qb_pos c + zlen ql) by lia.
  rewrite <- !app_assoc in Hv. simpl in Hv.
  rewrite (view_load1 c ql 13 (10 :: l')) by done. mstep. change (13 =? 13) with true. cbv iota.
  replace (zlen ql + 1 - 1) with (zlen ql) by lia.
  rewrite (view_load0 c ql (13 :: 10 :: l')) by done. mstep.
  subst ql. rewrite sdssplitargs_quoted by done. mstep. set (ql := quote_line args) in *.
  set (c1 := if (zlen ql =? 0) && is_type_slave c then set_repl_ack_time (unixtime conf) c else c).
  assert (has c1 CLIENT_MASTER = false /\ framed c c1 /\ qb_pos c1 = qb_pos c /\ querybuf c1 = querybuf c /\
          multibulklen c1 = 0 /\ bulklen c1 = -1) as (Hm1 & Hfr & Hq & Hb & Hmb1 & Hbl1)
    by (subst c1; destruct (_ && _); done).
  clearbody c1. rewrite Hm1, andb_false_r. eexists _, _. split; [done|]. split; [done|].
  exists l'. split; [|done]. replace (ql ++ 13 :: 10 :: l') with ((ql ++ CRLF) ++ l') in Hv by by rewrite <- app_assoc.
  pose proof (view_advance c (ql ++ CRLF) l' (zlen ql + 2) Hv ltac:(zlia)) as (B & HB & Hp' & Hb').
  exists B. cbn in *. by rewrite Hq, Hb.
Qed.
End Parsing.
