(* ===== verification/ProtocolSpec.v ===== *)
(** * Contract of the request parser: every fragmentation of a stream of requests is
      parsed into exactly the requests *)

From Stdlib Require Import ZArith Lia.
From stdpp Require Import base numbers option list.
From S2P Require Import Prelude Memory Server Util UtilFacts Sds SdsSpec Protocol ProtocolFacts ProtocolParse.

Local Open Scope Z_scope.
Local Open Scope redis_scope.

(** ** Flags *)

(** A normal client that is neither blocked, nor being closed, nor served by an I/O thread. *)
Definition quiet (c : client) : Prop :=
  has c CLIENT_MASTER = false /\ has c CLIENT_BLOCKED = false /\
  has c CLIENT_CLOSE_AFTER_REPLY = false /\ has c CLIENT_CLOSE_ASAP = false /\
  has c CLIENT_PENDING_READ = false /\ has c CLIENT_PENDING_COMMAND = false.

Lemma quiet_framed c c' : framed c c' -> quiet c -> quiet c'.
Proof. intros (Hf & _) Hq. unfold quiet, has in *. by rewrite Hf. Qed.

Lemma has_clear c f g : f <> g -> has (clear_flag f c) g = has c g.
Proof.
  intros Hfg. unfold has, clear_flag. cbn. rewrite Z.clearbit_eqb, (proj2 (Z.eqb_neq f g)) by done.
  apply andb_true_r.
Qed.
Lemma has_set c f g : 0 <= f -> f <> g -> has (set_flag f c) g = has c g.
Proof.
  intros Hf Hfg. unfold has, set_flag. cbn. by rewrite Z.setbit_eqb, (proj2 (Z.eqb_neq f g)) by done.
Qed.

(** [resetClient] changes no flag but the four it names. *)
Lemma has_reset c g :
  g <> CLIENT_ASKING -> g <> CLIENT_TRACKING_CACHING -> g <> CLIENT_REPLY_SKIP -> g <> CLIENT_REPLY_SKIP_NEXT ->
  has (resetClient c) g = has c g.
Proof.
  intros H1 H2 H3 H4. unfold resetClient.
  repeat match goal with |- context [if ?b then _ else _] => destruct b end;
    rewrite ?has_clear, ?has_set, ?has_clear by done; done.
Qed.
Lemma resetClient_fields c :
  let c' := resetClient c in
  parser c' 0 0 (-1) [] /\ querybuf c' = querybuf c /\ qb_pos c' = qb_pos c /\ reply c' = reply c /\ cmd c' = None.
Proof.
  unfold resetClient. repeat match goal with |- context [if ?b then _ else _] => destruct b end; done.
Qed.
Lemma quiet_reset c : quiet c -> quiet (resetClient c).
Proof. intros Hq. unfold quiet. by rewrite !has_reset by done. Qed.

(** ** The interface of the command table *)

(** Commands that run to completion: they change the state of the server and of the client's
    flags and command field, but neither block nor close the client, nor touch its query
    buffer or the settings of the server; clients are not paused. *)
Class PlainCommands (St : Type) `{Commands St} := {
  exec : list bytes -> St -> St;
  exec_spec : forall c s, argv c <> [] -> quiet c ->
    exists f cm, processCommand c s = (C_OK, false, set_cmd cm (set_flags f c), exec (argv c) s) /\
      quiet (set_flags f c);
  exec_conf : forall a s, server_conf (exec a s) = server_conf s;
  not_paused : forall s, clientsArePaused s = (false, s) }.

(** The settings assumed: no Gopher mode, no I/O threads, size limits that a [long long]
    can hold. *)
Definition conf_ok (conf : server) : Prop :=
  proto_max_bulk_len conf < 2 ^ 63 - 2 /\ client_max_querybuf_len conf < 2 ^ 62 /\ gopher_enabled conf = false /\
  io_threads_active conf && io_threads_do_reads conf = false.

Section Pipeline.
Context {St : Type} `{PlainCommands St}.

(** The effect of a request: requests without arguments are ignored. *)
Definition run1 (s : St) (r : request) : St :=
  match request_argv r with [] => s | a => exec a s end.
Definition run (s : St) (rs : list request) : St := fold_left run1 rs s.

Lemma run1_conf s r : server_conf (run1 s r) = server_conf s.
Proof. unfold run1. destruct (request_argv r); [done|]. apply exec_conf. Qed.

(** The end of a turn, once the request is read. *)
Definition finish (c : client) (s : St) : option (flow (client * St)) :=
  match argv c with
  | [] => Some (Continue (resetClient c, s))
  | _ =>
      if has c CLIENT_PENDING_READ then Some (Break (set_flag CLIENT_PENDING_COMMAND c, s)) else
      let! (st, c, s) := processCommandAndResetClient c s in
      match st with
      | C_ERR => Some (Return (C_OK, (c, s)))
      | C_OK => Some (Continue (c, s))
      end
  end.

(** The request is executed and the client reset. *)
Lemma finish_request c s r :
  quiet c -> argv c = request_argv r ->
  exists c', finish c s = Some (Continue (c', run1 s r)) /\
    quiet c' /\ reply c' = reply c /\ parser c' 0 0 (-1) [] /\
    querybuf c' = querybuf c /\ qb_pos c' = qb_pos c.
Proof.
  intros Hq Ha. unfold finish, run1. rewrite <- Ha. destruct (argv c) as [|a0 av] eqn:Hav.
  - exists (resetClient c). destruct (resetClient_fields c) as (? & ? & ? & ? & _).
    split_and!; try done. by apply quiet_reset.
  - pose proof Hq as (_ & _ & _ & _ & Hpr & _). rewrite Hpr. unfold processCommandAndResetClient.
    destruct (exec_spec c s) as (f & cm & -> & Hq'); [by rewrite Hav|done|]. mstep.
    set (c1 := set_cmd cm (set_flags f c)). assert (quiet c1) as Hq1 by done.
    pose proof Hq1 as (Hm & Hb & _). unfold commandProcessed. rewrite Hm. cbn [andb]. rewrite Hb. cbn [negb orb].
    rewrite has_reset, Hm by done. mstep. exists (resetClient c1).
    destruct (resetClient_fields c1) as (? & ? & ? & ? & _). rewrite Hav.
    split_and!; try done. by apply quiet_reset.
Qed.

Definition reqtype_of (r : request) : Z :=
  match r with Multi _ => PROTO_REQ_MULTIBULK | Inline _ => PROTO_REQ_INLINE end.

(** The request type is determined by the first byte, once. *)
Lemma determine_reqtype c l fut rs :
  view c l -> l <> [] -> phase c rs (l ++ fut) ->
  exists c' r rs', rs = r :: rs' /\
    (if reqtype c =? 0 then
       let! b := load1 (querybuf c) (qb_pos c) in
       Some (set_reqtype (if b =? 42 then PROTO_REQ_MULTIBULK else PROTO_REQ_INLINE) c)
     else Some c) = Some c' /\
    framed c c' /\ view c' l /\ phase c' rs (l ++ fut) /\ reqtype c' = reqtype_of r.
Proof.
  intros Hv Hl Hph. destruct l as [|b l]; [done|].
  assert (load1 (querybuf c) (qb_pos c) = Some b) as Hload.
  { rewrite <- (Z.add_0_r (qb_pos c)). by apply (view_load1 c [] b l). }
  destruct rs as [|r rs]; [by apply phase_nil in Hph|].
  exists (if reqtype c =? 0 then set_reqtype (reqtype_of r) c else c), r, rs. split; [done|].
  assert (reqtype c = 0 /\ parser c 0 0 (-1) [] /\ (b :: l) ++ fut = encode_all (r :: rs) \/ reqtype c = reqtype_of r)
    as [(Hrt & Hp & HE) | Hrt].
  { inversion Hph as [? Hp Hx HE | ? ? [Hp _] | ? ? [Hp _] | ? ? ? ? [Hp _] | ? ? ? ? [Hp _]]; auto.
    left. split; [apply Hp|done]. }
  - rewrite Hrt, Hload. mstep. destruct (first_byte r rs) as (b' & q & Hb & Hb42).
    rewrite Hb in HE. injection HE as -> HE. change (0 =? 0) with true. cbv iota. rewrite Hb42.
    split_and!; [by destruct r|done|done| |done]. rewrite <- app_comm_cons, HE, <- Hb.
    destruct Hp as (_ & ? & ? & ?). destruct r; constructor; done.
  - rewrite Hrt. by destruct r; split_and!.
Qed.

(** Either nothing is left to read, or the buffer holds less than the first request and
    bytes are still to arrive. *)
Definition waiting (l fut : bytes) (rs : list request) : Prop :=
  match rs with [] => True | r :: _ => fut <> [] /\ zlen l < zlen (encode r) end.

(** What a turn leaves behind: the end of the request has not arrived, or the request was
    executed and the parser stands at the next one. *)
Definition turn_result (r : option (flow (client * St))) c s (l fut : bytes) rs : Prop :=
  exists c' l', quiet c' /\ reply c' = reply c /\ view c' l' /\
    (r = Some (Break (c', s)) /\ phase c' rs (l' ++ fut) /\ waiting l' fut rs \/
     exists q rs', rs = q :: rs' /\ r = Some (Continue (c', run1 s q)) /\
       phase c' rs' (l' ++ fut) /\ zlen l' < zlen l).

Lemma turn_end st c c2 s l fut q rs :
  quiet c -> phase c (q :: rs) (l ++ fut) -> request_read st c c2 q rs fut ->
  turn_result (match st with C_ERR => Some (Break (c2, s)) | C_OK => finish c2 s end) c s l fut (q :: rs).
Proof.
  intros Hq Hph%phase_longer [Hfr Hread]. pose proof (quiet_framed _ _ Hfr Hq) as Hq2.
  destruct Hfr as (_ & Hrep & _). destruct st.
  - destruct Hread as (l' & Hv' & HE & Ha & _). destruct (finish_request c2 s q Hq2 Ha) as (c' & -> & Hq' & Hrep' & Hp & Hb & Hp').
    exists c', l'. split_and!; [done|congruence| |].
    { destruct Hv' as (A & ? & ? & ?). exists A. by rewrite Hb, Hp'. }
    right. exists q, rs. split_and!; [done|done| |]; [rewrite HE; by constructor|].
    rewrite <- HE in Hph. zlia.
  - destruct Hread as (Hf & l' & Hv' & Hph' & Hlt). exists c2, l'. unfold waiting. eauto 10.
Qed.

Lemma input_turn_spec c s l fut rs :
  quiet c -> conf_ok (server_conf s) -> view c l -> l <> [] -> phase c rs (l ++ fut) ->
  Forall (request_ok (server_conf s)) rs -> turn_result (input_turn c s) c s l fut rs.
Proof.
  intros Hq (Hmax & _ & Hg & Hio) Hv Hl Hph Hok. unfold input_turn. rewrite not_paused.
  replace (if negb (has c CLIENT_SLAVE) then (false, s) else (false, s)) with (false, s) by by destruct (has c CLIENT_SLAVE).
  pose proof Hq as (Hm & Hb & Hc1 & Hc2 & Hpr & Hpc). rewrite Hb, Hpc, Hm, Hc1, Hc2, andb_false_r. simpl orb. cbv iota.
  destruct (determine_reqtype c l fut rs Hv Hl Hph) as (c1 & r & rs' & -> & -> & Hfr & Hv1 & Hph1 & Hrt). mstep.
  apply Forall_cons in Hok as [Hr Hok]. pose proof (quiet_framed _ _ Hfr Hq) as Hq1.
  assert (forall x, turn_result x c1 s l fut (r :: rs') -> turn_result x c s l fut (r :: rs')) as Hmono.
  { destruct Hfr as (_ & Hrep & _). intros x (c' & l' & ? & Hrep' & ?). exists c', l'. by rewrite <- Hrep. }
  apply Hmono.
  destruct r as [args | args]; rewrite Hrt.
  - change (reqtype_of (Multi args) =? PROTO_REQ_INLINE) with false.
    change (reqtype_of (Multi args) =? PROTO_REQ_MULTIBULK) with true. cbv iota.
    destruct (processMultibulkBuffer_spec (server_conf s) Hmax c1 l fut args rs') as (st & c2 & -> & Hread); try done.
    mstep. pose proof (turn_end st c1 c2 s l fut _ rs' Hq1 Hph1 Hread) as Ht. by destruct st.
  - change (reqtype_of (Inline args) =? PROTO_REQ_INLINE) with true. cbv iota.
    apply phase_inline_inv in Hph1 as Hx; [|done]. destruct Hx as [Hp1 HE1].
    destruct (processInlineBuffer_spec (server_conf s) c1 l fut args rs') as (st & c2 & -> & Hread); try done.
    { apply Hq1. }
    mstep. rewrite Hg. cbn [andb].
    pose proof (turn_end st c1 c2 s l fut _ rs' Hq1 Hph1 Hread) as Ht. by destruct st.
Qed.

(** The loop and the handler.  *)
Definition progress (c c' : client) (s s' : St) fut rs : Prop :=
  exists done rest l', rs = done ++ rest /\ s' = run s done /\ quiet c' /\ reply c' = reply c /\
    view c' l' /\ phase c' rest (l' ++ fut) /\ waiting l' fut rest.

Lemma input_loop_spec fuel c s l fut rs :
  (length l < fuel)%nat -> quiet c -> conf_ok (server_conf s) -> view c l -> phase c rs (l ++ fut) ->
  Forall (request_ok (server_conf s)) rs ->
  exists c' s', input_loop fuel c s = Some (Break (c', s')) /\ progress c c' s s' fut rs.
Proof.
  revert c s l rs. induction fuel as [|fuel IH]; intros c s l rs Hf Hq Hc Hv Hph Hok; [lia|].
  cbn [input_loop]. pose proof (view_len c l Hv) as Hlen.
  destruct (qb_pos c <? zlen (querybuf c)) eqn:E; boolsimp.
  2: { assert (l = []) as -> by (apply zlen_0_inv; zlia). exists c, s. split; [done|].
       exists [], rs, []. split_and!; try done. destruct rs as [|r rs]; [done|]. simpl in Hph.
       split; [intros ->; apply phase_longer in Hph; zlia|apply encode_nonempty]. }
  assert (l <> []) as Hl by (intros ->; change (zlen (@nil Z)) with 0 in *; lia).
  destruct (input_turn_spec c s l fut rs Hq Hc Hv Hl Hph Hok)
    as (c1 & l1 & Hq1 & Hrep1 & Hv1 & [(-> & Hph1 & Hw) | (r & rs' & -> & -> & Hph1 & Hlt)]); mstep.
  - exists c1, s. split; [done|]. exists [], rs, l1. by split_and!.
  - apply Forall_cons in Hok as [_ Hok]. destruct (IH c1 (run1 s r) l1 rs') as (c' & s' & -> & Hpr); try done.
    + unfold zlen in *. lia.
    + by rewrite run1_conf.
    + by rewrite run1_conf.
    + exists c', s'. split; [done|]. destruct Hpr as (d & rest & l' & -> & -> & Hq' & Hrep' & Hrest).
      exists (r :: d), rest, l'. split_and!; try done; try congruence. apply Hrest. apply Hrest. apply Hrest.
Qed.

(** Between two reads the buffer starts with the unread bytes. *)
Definition resting (c : client) (l fut : bytes) (rs : list request) : Prop :=
  quiet c /\ querybuf c = l /\ qb_pos c = 0 /\ phase c rs (l ++ fut) /\ waiting l fut rs.

Lemma processInputBuffer_spec c s l fut rs :
  quiet c -> conf_ok (server_conf s) -> querybuf c = l -> qb_pos c = 0 -> zlen l < 2 ^ 62 ->
  phase c rs (l ++ fut) -> Forall (request_ok (server_conf s)) rs ->
  exists c' done rest l', processInputBuffer c s = Some (c', run s done) /\ rs = done ++ rest /\
    resting c' l' fut rest /\ reply c' = reply c.
Proof.
  intros Hq Hc Hb Hp Hlen Hph Hok. unfold processInputBuffer.
  destruct (input_loop_spec (S (length (querybuf c))) c s l fut rs) as (c1 & s1 & -> & Hpr); try done.
  { rewrite Hb. lia. } { by apply view_start. }
  mstep. destruct Hpr as (d & rest & l' & -> & -> & Hq1 & Hrep & (A & HA & HpA & HbA) & Hph1 & Hw).
  destruct (qb_pos c1 =? 0) eqn:E; boolsimp; cbn [negb].
  - assert (A = []) as -> by (apply zlen_0_inv; lia). by exists c1, d, rest, l'.
  - rewrite HA, HpA, sdsrange_tail by done. mstep. eexists _, d, rest, l'.
    split; [done|]. split; [done|]. split; [|done]. split; [done|]. split_and!; try done.
    by apply (phase_ext c1).
Qed.

Definition fits (conf : server) (r : request) : Prop :=
  zlen (encode r) + PROTO_IOBUF_LEN <= client_max_querybuf_len conf.

#[global] Instance fits_dec conf r : Decision (fits conf r).
Proof. unfold fits. apply _. Defined.

Lemma query_readlen_bound c : 1 <= query_readlen c <= PROTO_IOBUF_LEN.
Proof. unfold query_readlen, PROTO_IOBUF_LEN. repeat casif; lia. Qed.

(** One read event. *)
Lemma readQuery_spec c s l b bs fut rs :
  resting c l (b :: bs ++ fut) rs -> conf_ok (server_conf s) ->
  Forall (fun r => request_ok (server_conf s) r /\ fits (server_conf s) r) rs ->
  let n := Z.to_nat (query_readlen c) in
  exists c' done rest l', readQueryFromClient (Available b bs) c s = Some (c', run s done) /\
    rs = done ++ rest /\ resting c' l' (drop n (b :: bs) ++ fut) rest /\ reply c' = reply c.
Proof.
  intros (Hq & Hb & Hp & Hph & Hw) Hc Hok n. pose proof Hc as (_ & Hmaxq & _ & Hio).
  unfold readQueryFromClient, postponeClientRead. rewrite Hio. cbn [andb].
  set (c1 := if querybuf_peak c <? _ then _ else c).
  assert (querybuf c1 = l /\ qb_pos c1 = 0 /\ flags c1 = flags c /\ reply c1 = reply c /\
    parser c1 (reqtype c) (multibulklen c) (bulklen c) (argv c)) as (Hb1 & Hp1 & Hf1 & Hr1 & Hps)
    by (subst c1; destruct (querybuf_peak c <? _); done).
  clearbody c1. assert (forall x, flags x = flags c -> has x CLIENT_MASTER = false) as HM.
  { intros x Hx. unfold has. rewrite Hx. apply Hq. }
  rewrite (HM c1) by done. rewrite (HM (set_lastinteraction _ _)) by done. fold n. set (data := take n (b :: bs)).
  set (c2 := set_lastinteraction _ _). cbn [querybuf set_querybuf set_lastinteraction] in c2 |- *.
  assert (quiet c2) as Hq2 by (unfold quiet, has in *; cbn; by rewrite Hf1).
  assert (querybuf c2 = l ++ data) as Hb2 by (cbn; by rewrite Hb1). rewrite Hb2.
  assert (zlen (l ++ data) <= client_max_querybuf_len (server_conf s)) as Hlim.
  { destruct rs as [|r rs]; [by apply phase_nil, (f_equal zlen) in Hph; zlia|].
    apply Forall_cons in Hok as [[_ Hfit] _]. unfold fits in Hfit. destruct Hw as [_ Hw].
    pose proof (query_readlen_bound c). subst data. rewrite zlen_app, zlen_take. lia. }
  rewrite Z.gtb_ltb, (proj2 (Z.ltb_ge _ _)) by lia.
  destruct (processInputBuffer_spec c2 s (l ++ data) (drop n (b :: bs) ++ fut) rs)
    as (c' & d & rest & l' & -> & -> & Hrest & Hrep); try done.
  - lia.
  - replace ((l ++ data) ++ drop n (b :: bs) ++ fut) with (l ++ b :: bs ++ fut).
    + by apply (phase_ext c).
    + subst data. rewrite <- app_assoc, (app_assoc (take _ _)), take_drop. done.
  - eapply Forall_impl; [exact Hok|]. by intros r [? _].
  - exists c', d, rest, l'. split_and!; try done. rewrite Hrep. done.
Qed.

(** The socket: each number [k] of the schedule is a read event at which [k + 1] more bytes
    of the stream are available (or the rest of it), of which the handler takes at most the
    length it asks for. *)
Fixpoint deliver (ks : list nat) (stream : bytes) (c : client) (s : St)
    : option (bytes * client * St) :=
  match ks with
  | [] => Some (stream, c, s)
  | k :: ks =>
      match take (S k) stream with
      | [] => let! (c, s) := readQueryFromClient Again c s in deliver ks stream c s
      | b :: bs =>
          let n := Nat.min (Z.to_nat (query_readlen c)) (length (b :: bs)) in
          let! (c, s) := readQueryFromClient (Available b bs) c s in
          deliver ks (drop n stream) c s
      end
  end.

Lemma run_app s rs rs' : run s (rs ++ rs') = run (run s rs) rs'.
Proof. apply fold_left_app. Qed.
Lemma run_conf s rs : server_conf (run s rs) = server_conf s.
Proof. revert s. induction rs as [|r rs IH]; intros s; [done|]. simpl. rewrite IH. apply run1_conf. Qed.

Lemma readQuery_again c s rs :
  resting c [] [] rs -> conf_ok (server_conf s) ->
  exists c', readQueryFromClient Again c s = Some (c', s) /\ resting c' [] [] rs /\ reply c' = reply c.
Proof.
  intros (Hq & Hb & Hp & Hph & Hw) (_ & _ & _ & Hio).
  unfold readQueryFromClient, postponeClientRead. rewrite Hio. cbn [andb]. eexists. split; [done|].
  rewrite Hb. destruct (querybuf_peak c <? _); split; try done. split_and!; try done. by apply (phase_ext c).
Qed.

Lemma deliver_spec ks stream c s l rs :
  resting c l stream rs -> conf_ok (server_conf s) ->
  Forall (fun r => request_ok (server_conf s) r /\ fits (server_conf s) r) rs ->
  (length stream <= length ks)%nat ->
  exists c', deliver ks stream c s = Some ([], c', run s rs) /\ resting c' [] [] [] /\ reply c' = reply c.
Proof.
  revert stream c s l rs. induction ks as [|k ks IH]; intros stream c s l rs Hrest Hc Hok Hlen.
  - destruct stream; [|simpl in Hlen; lia]. destruct rs as [|r rs]; [|by destruct Hrest as (_ & _ & _ & _ & [? _])].
    exists c. split; [done|]. pose proof Hrest as (_ & _ & _ & Hph & _). apply phase_nil, app_nil in Hph as [-> _]. done.
  - cbn [deliver]. destruct (take (S k) stream) as [|b bs] eqn:Et.
    + destruct stream; [|done]. destruct rs as [|r rs]; [|by destruct Hrest as (_ & _ & _ & _ & [? _])].
      pose proof Hrest as (_ & _ & _ & Hph & _). apply phase_nil, app_nil in Hph as [-> _].
      destruct (readQuery_again c s [] Hrest Hc) as (c1 & -> & Hrest1 & Hr1). mstep.
      destruct (IH [] c1 s [] [] Hrest1 Hc Hok ltac:(simpl; lia)) as (c' & HE & Hr' & Hrep).
      exists c'. split; [done|]. split; [done|congruence].
    + pose proof (take_drop (S k) stream) as Hst. rewrite Et in Hst. set (fut := drop (S k) stream) in *.
      rewrite <- Hst in *. simpl app in Hrest.
      destruct (readQuery_spec c s l b bs fut rs Hrest Hc Hok) as (c1 & d & rest & l' & -> & -> & Hrest1 & Hr1). mstep.
      apply Forall_app in Hok as [_ Hok]. pose proof (query_readlen_bound c) as Hrl.
      set (n := Z.to_nat (query_readlen c)) in *.
      assert (drop (Nat.min n (length (b :: bs))) ((b :: bs) ++ fut) = drop n (b :: bs) ++ fut) as ->.
      { rewrite drop_app_le by lia. f_equal. destruct (decide (n <= length (b :: bs))%nat).
        - by rewrite Nat.min_l.
        - rewrite Nat.min_r by lia. by rewrite !drop_ge by lia. }
      destruct (IH _ c1 (run s d) l' rest Hrest1) as (c' & HE & Hr' & Hrep).
      * by rewrite run_conf. * by rewrite run_conf.
      * rewrite length_app, length_drop. rewrite length_app in Hlen. simpl in Hlen |- *. lia.
      * exists c'. rewrite HE, run_app. split; [done|]. split; [done|congruence].
Qed.

(** C5. Incremental parsing is exact.  A stream of requests (commands written by
    [catAppendOnlyGenericCommand], or lines of quoted arguments) that arrives in pieces of
    any sizes is executed as exactly these requests, in order: no read boundary, no big
    argument optimisation and no buffer trimming loses, splits or duplicates one.  At the
    end the client is idle, its query buffer empty, no protocol error was raised. *)
Theorem requests_any_fragmentation buf rs stream ks c s :
  zlen buf = 32 -> write_requests buf [] rs = Some stream ->
  conf_ok (server_conf s) -> Forall (fun r => request_ok (server_conf s) r /\ fits (server_conf s) r) rs ->
  quiet c -> parser c 0 0 (-1) [] -> querybuf c = [] -> qb_pos c = 0 ->
  (length stream <= length ks)%nat ->
  exists c', deliver ks stream c s = Some ([], c', run s rs) /\
    quiet c' /\ parser c' 0 0 (-1) [] /\ querybuf c' = [] /\ qb_pos c' = 0 /\ reply c' = reply c.
Proof.
  intros Hbuf Hw Hc Hok Hq Hp Hb Hpos Hlen.
  rewrite (write_requests_spec (server_conf s)) in Hw; [|done|apply Hc|by eapply Forall_impl; [exact Hok|]; intros ? []].
  injection Hw as <-. simpl app in *.
  destruct (deliver_spec ks (encode_all rs) c s [] rs) as (c' & HE & Hrest & Hrep); try done.
  { split_and!; try done; [by constructor|]. destruct rs as [|r rs]; [done|]. simpl.
    pose proof (encode_nonempty r). split; [|done]. intros He%app_nil. destruct He as [He _]. rewrite He in *. done. }
  exists c'. destruct Hrest as (Hq' & Hb' & Hp' & Hph & _). split_and!; try done. by inversion Hph.
Qed.
End Pipeline.

(** ** A concrete server: it records the commands *)

Module Example_protocol.

Definition conf : server :=
  mkServer (512 * 1024 * 1024) (1024 * 1024 * 1024) false false 0 false false false.

#[local] Instance log_commands : Commands (list (list bytes)) := {
  server_conf := fun _ => conf;
  clientsArePaused := fun s => (false, s);
  processCommand := fun c s => (C_OK, false, set_cmd (Some otherCommand) (set_flags (flags c) c), s ++ [argv c]);
  processGopherRequest := fun c s => (c, s);
  replicationFeedSlavesFromMasterStream := fun _ _ s => s;
  clients_to_close_add := fun _ s => s;
  clients_pending_read_add := fun _ s => s }.

#[local] Instance log_plain : PlainCommands (list (list bytes)).
Proof.
  refine {| exec := fun a s => s ++ [a] |}; [|done|done].
  intros c s _ Hq. exists (flags c), (Some otherCommand). done.
Defined.

Definition idle : client := mkClient [] 0 [] None 0 0 (-1) 0 [] 0 0 0 [] 0 0 0.

(** Two commands and an inline line, read one or two bytes at a time. *)
Definition rs : list request :=
  [Multi [[71; 69; 84]; [107]]; Inline [[80; 73; 78; 71]; [0; 34; 255]]; Multi []; Multi [[68]; []]].
Definition stream : bytes := default [] (write_requests (replicate 32 7) [] rs).
Definition ks : list nat := flat_map (fun _ => [0; 1]%nat) stream.

Lemma requests_any_fragmentation_witness :
  exists c', deliver ks stream idle [] =
    Some ([], c', [[[71; 69; 84]; [107]]; [[80; 73; 78; 71]; [0; 34; 255]]; [[68]; []]]) /\
    quiet c' /\ parser c' 0 0 (-1) [] /\ querybuf c' = [] /\ qb_pos c' = 0 /\ reply c' = [].
Proof.
  pose proof (requests_any_fragmentation (replicate 32 7) rs stream ks idle []) as Hw.
  replace (run [] rs) with [[[71; 69; 84]; [107]]; [[80; 73; 78; 71]; [0; 34; 255]]; [[68]; []]] in Hw
    by by vm_compute.
  apply Hw; try done.
  - refine (bool_decide_unpack _ _). by vm_compute.
  - apply Nat.leb_le. by vm_compute.
Defined.
End Example_protocol.
