(* ===== verification/ProtocolSafety.v ===== *)
(** * Safety of the request parser on arbitrary input

    Whatever bytes arrive, and whatever the commands do to the rest of the server, no
    assertion of the parser fails, no access leaves the query buffer and every loop ends. *)

From Stdlib Require Import ZArith Lia.
From stdpp Require Import base numbers option list.
From S2P Require Import Prelude Memory Server Util UtilFacts Sds SdsSpec Protocol ProtocolFacts ProtocolParse ProtocolSpec.

Local Open Scope Z_scope.
Local Open Scope redis_scope.

(** ** The invariant *)

(** A client whose input is not processed any further. *)
Definition stopped (c : client) : bool :=
  has c CLIENT_BLOCKED || has c CLIENT_PENDING_COMMAND ||
  (has c CLIENT_CLOSE_AFTER_REPLY || has c CLIENT_CLOSE_ASAP).

(** Where the parser may stand: before a request, at the line with the number of
    arguments of a command, or inside its arguments. *)
Definition consistent (c : client) : Prop :=
  parser c 0 0 (-1) [] \/ parser c PROTO_REQ_INLINE 0 (-1) [] \/
  parser c PROTO_REQ_MULTIBULK 0 (-1) [] /\ head (unread c) = Some 42 \/
  reqtype c = PROTO_REQ_MULTIBULK /\ 0 < multibulklen c /\ -1 <= bulklen c < 2 ^ 63.

Definition safe (c : client) : Prop :=
  (exists l, view c l) /\ (stopped c = true \/ consistent c).

(** Commands may do anything but touch the query buffer; a command that reports an error
    has flagged the client for closing. *)
Class SafeCommands (St : Type) `{Commands St} := {
  safe_process : forall c s st dead c' s', processCommand c s = (st, dead, c', s') ->
    querybuf c' = querybuf c /\ qb_pos c' = qb_pos c /\ (st = C_ERR -> stopped c' = true);
  safe_gopher : forall c s c' s', processGopherRequest c s = (c', s') ->
    querybuf c' = querybuf c /\ qb_pos c' = qb_pos c }.

(** The unread part has not grown. *)
Definition shrinks (c c' : client) (l : bytes) (n : Z) : Prop :=
  exists l', view c' l' /\ zlen l' + n <= zlen l /\ zlen (querybuf c') <= zlen (querybuf c).

Lemma view_unique c l l' : view c l -> view c l' -> l' = l.
Proof. intros H1 H2. by rewrite <- (view_unread _ _ H1), <- (view_unread _ _ H2). Qed.

Lemma shrinks_trans c1 c2 c3 l n m :
  shrinks c1 c2 l n -> (forall l2, view c2 l2 -> shrinks c2 c3 l2 m) -> shrinks c1 c3 l (n + m).
Proof. intros (l2 & Hv2 & Hl2 & Hq2) H3. destruct (H3 l2 Hv2) as (l3 & Hv3 & Hl3 & Hq3). exists l3. split_and!; [done|lia|lia]. Qed.
Lemma shrinks_refl c l : view c l -> shrinks c c l 0.
Proof. intros Hv. exists l. split_and!; [done|lia|lia]. Qed.

Lemma strchr_some l ch k : strchr l ch = Some k -> 0 <= k < zlen l /\ l !! Z.to_nat k = Some ch.
Proof.
  revert k. induction l as [|b l IH]; intros k; cbn [strchr]; [done|]. rewrite zlen_cons.
  destruct (b =? ch) eqn:E; boolsimp.
  - intros [= <-]. subst. split; [zlia|done].
  - casif; [done|]. destruct (strchr l ch) as [j|]; [|done]. intros [= <-]. destruct (IH j eq_refl) as [Hj Hl].
    split; [lia|]. rewrite Z2Nat.inj_succ by lia. done.
Qed.

Lemma has_set_same c f : 0 <= f -> has (set_flag f c) f = true.
Proof. apply (Z.setbit_eq (flags c) f). Qed.
Lemma stopped_error c : stopped (setProtocolError c) = true.
Proof.
  unfold stopped, setProtocolError. rewrite !(has_set _ CLIENT_PROTOCOL_ERROR) by done.
  by rewrite has_set_same, orb_true_r.
Qed.
Lemma shrinks_error c e l : view c l -> shrinks c (setProtocolError (addReplyError e c)) l 0.
Proof. intros Hv. exists l. split_and!; [done|lia|done]. Qed.

(** ** The pieces of the RESP parser *)

(** The line end found by [strchr], when the check on the buffer length has passed. *)
Lemma line_found c l newline :
  view c l -> strchr (unread c) 13 = Some newline -> (newline >? i64 (zlen (querybuf c) - qb_pos c - 2)) = false ->
  exists b p l', l = p ++ l' /\ zlen p = newline + 2 /\ load1 (querybuf c) (qb_pos c) = Some b /\
    head l = Some b /\
    (b <> 13 -> 1 <= newline /\ exists s, load (querybuf c) (qb_pos c + 1) (newline - 1) = Some s) /\
    view (set_qb_pos (qb_pos c + newline + 2) c) l'.
Proof.
  intros Hv Hs Hle. rewrite (view_unread c l Hv) in Hs. apply strchr_some in Hs as [Hk Hch].
  rewrite (view_len c l Hv), sN_small in Hle by (try done; destruct Hv as (A & _ & _ & ?); unfold is_s; zlia).
  rewrite Z.gtb_ltb in Hle. boolsimp.
  destruct (split_range l 0 (newline + 2)) as (A & p & l' & -> & HA & Hp); [lia..|].
  apply zlen_0_inv in HA. subst A. simpl app in *.
  destruct p as [|b p]; [change (zlen (@nil Z)) with 0 in Hp; lia|]. exists b, (b :: p), l'.
  split_and!; [done|done| |done| |].
  - rewrite <- (Z.add_0_r (qb_pos c)). by apply (view_load1 c [] b (p ++ l')).
  - intros Hb. assert (1 <= newline) as H1.
    { destruct (decide (newline = 0)) as [-> | ?]; [|lia]. simpl in Hch. by injection Hch. }
    split; [done|]. destruct (split_range p 0 (newline - 1)) as (A & w & q & -> & HA & Hw); [lia|lia|zlia|].
    apply zlen_0_inv in HA. subst A. exists w. simpl in Hv. rewrite <- app_assoc in Hv.
    by apply (view_load c [b] w (q ++ l')).
  - replace (qb_pos c + newline + 2) with (qb_pos c + zlen (b :: p)) by lia. by apply (view_advance c (b :: p)).
Qed.

(** What a reading step does to a safe client. *)
Definition step_safe (c : client) (l : bytes) (f : flow client) (good : client -> Prop) (n : Z) : Prop :=
  match f with
  | Return (C_ERR, c') => shrinks c c' l 0 /\ (stopped c' = true \/ c' = c)
  | Return (C_OK, c') => shrinks c c' l n /\ parser c' (reqtype c) 0 (-1) []
  | Break c' => c' = c
  | Continue c' => shrinks c c' l n /\ good c'
  end.

Lemma read_multibulklen_safe c l :
  view c l -> parser c PROTO_REQ_MULTIBULK 0 (-1) [] -> head l = Some 42 ->
  exists f, read_multibulklen c = Some f /\
    step_safe c l f (fun c' => reqtype c' = PROTO_REQ_MULTIBULK /\ 0 < multibulklen c' /\ bulklen c' = -1) 2 /\
    (forall c', f <> Break c').
Proof.
  intros Hv (Hrt & Hmb & Hbl & Hav) Hh. unfold read_multibulklen. rewrite Hav. simpl negb. cbv iota.
  destruct (strchr (unread c) 13) as [newline|] eqn:Es.
  2: { casif; (eexists; split; [done|]); (split; [|done]); simpl;
         [split; [by apply shrinks_error|left; apply stopped_error]|split; [by apply shrinks_refl|by right]]. }
  destruct (newline >? _) eqn:Eg.
  { eexists. split; [done|]. split; [|done]. simpl. split; [by apply shrinks_refl|by right]. }
  destruct (line_found c l newline Hv Es Eg) as (b & p & l' & -> & Hp & -> & Hb & Hload & Hv').
  rewrite Hh in Hb. injection Hb as <-. mstep. simpl negb. cbv iota.
  destruct Hload as (Hn1 & s & Hs); [done|]. rewrite (Z.add_comm 1), Hs. mstep.
  assert (shrinks c (set_qb_pos (qb_pos c + newline + 2) c) (p ++ l') 2) as Hsh.
  { exists l'. split_and!; [done|zlia|done]. }
  assert (step_safe c (p ++ l') (Return (C_ERR, setProtocolError (addReplyError invalid_multibulk_length c)))
    (fun c' => reqtype c' = PROTO_REQ_MULTIBULK /\ 0 < multibulklen c' /\ bulklen c' = -1) 2) as Herr.
  { simpl. split; [by apply shrinks_error|left; apply stopped_error]. }
  destruct (string2ll s) as [ll|] eqn:Ell; [|by eexists].
  destruct (ll >? 1024 * 1024) eqn:Ebig; boolsimp; [by eexists|].
  destruct (ll <=? 0) eqn:El0; boolsimp; eexists; (split; [done|]); (split; [|done]); simpl.
  - split; [done|]. by unfold parser; cbn.
  - split; [exact Hsh|]. split_and!; [done| |done]. rewrite sN_small; [lia|done|unfold is_s; lia].
Qed.

Definition in_bulk (m : Z) (c : client) : Prop :=
  reqtype c = PROTO_REQ_MULTIBULK /\ multibulklen c = m /\ 0 <= bulklen c < 2 ^ 63.

Lemma read_bulklen_safe conf c l m :
  view c l -> reqtype c = PROTO_REQ_MULTIBULK -> multibulklen c = m ->
  exists f, read_bulklen conf c = Some f /\ step_safe c l f (in_bulk m) 0 /\
    (forall c', f <> Return (C_OK, c')).
Proof.
  intros Hv Hrt Hm. unfold read_bulklen.
  assert (forall e, let f := Return (C_ERR, setProtocolError (addReplyError e c)) in
    step_safe c l f (in_bulk m) 0 /\ (forall c', f <> Return (C_OK, c'))) as Herr.
  { intros e. simpl. split; [|done]. split; [by apply shrinks_error|left; apply stopped_error]. }
  destruct (strchr (unread c) 13) as [newline|] eqn:Es.
  2: { casif; (eexists; split; [done|]); [apply Herr|done]. }
  destruct (newline >? _) eqn:Eg; [by eexists|].
  destruct (line_found c l newline Hv Es Eg) as (b & p & l' & -> & Hp & -> & Hb & Hload & Hv'). mstep.
  destruct (b =? 36) eqn:E36; boolsimp; simpl negb; cbv iota; [|eexists; split; [done|apply Herr]].
  subst b. destruct Hload as (Hn1 & s & Hs); [done|]. rewrite Hs. mstep.
  destruct (string2ll s) as [ll|] eqn:Ell; [|eexists; split; [done|apply Herr]].
  destruct (_ || _) eqn:Einv; [eexists; split; [done|apply Herr]|]. apply orb_false_iff in Einv as [E0 _]. boolsimp.
  apply string2ll_iff in Ell as [_ Hll]. unfold is_s in Hll.
  set (c1 := set_qb_pos _ c) in *.
  destruct ((ll >=? PROTO_MBULK_BIG_ARG) && _).
  - destruct Hv' as (A & HA & HpA & Hlen). rewrite HA, HpA, sdsrange_tail by done. mstep.
    eexists. split; [done|]. simpl. split; [|done]. split; [|split_and!; [done|done|cbn [bulklen set_bulklen]; lia..]].
    exists l'. split_and!; [by apply view_start; [..|zlia]|zlia|]. cbn. destruct Hv as (B & -> & _). zlia.
  - mstep. eexists. split; [done|]. simpl. split; [|done]. split; [|split_and!; [done|done|cbn [bulklen set_bulklen]; lia..]].
    exists l'. split_and!; [done|zlia|done].
Qed.

Lemma read_bulk_safe c l m :
  view c l -> in_bulk m c ->
  exists f, read_bulk c = Some f /\
    step_safe c l f (fun c' => reqtype c' = PROTO_REQ_MULTIBULK /\ multibulklen c' = m - 1 /\ bulklen c' = -1) 2 /\
    (forall r, f <> Return r).
Proof.
  intros Hv (Hrt & Hm & Hbl). unfold read_bulk. rewrite (view_unread_len c l Hv).
  rewrite uN_small by lia. destruct (zlen l <? bulklen c + 2) eqn:El; boolsimp; [by eexists|].
  destruct (split_range l 0 (bulklen c + 2)) as (A & p & l' & -> & HA & Hp); [lia..|].
  apply zlen_0_inv in HA. subst A. simpl app in *.
  destruct (split_range p 0 (bulklen c)) as (A & w & q & -> & HA & Hw); [lia..|].
  apply zlen_0_inv in HA. subst A. simpl app in *. rewrite <- app_assoc in Hv.
  destruct (_ && _ && _) eqn:Ef; boolsimp.
  - destruct Hv as (B & HB & HpB & Hlen). assert (B = []) as -> by (apply zlen_0_inv; lia). simpl in HB.
    assert (zlen (querybuf c) = bulklen c + 2) as Hfull by lia.
    assert (load (querybuf c) 0 (zlen (querybuf c) - 2) = Some w) as ->.
    { rewrite HB. apply (load_app []); [done|]. rewrite HB in Hfull. lia. }
    mstep. eexists. split; [done|]. simpl. split; [|done]. split; [|split_and!; cbn; [done|lia|done]].
    exists []. split_and!; [by apply view_start|change (zlen (@nil Z)) with 0; zlia|cbn; change (zlen (@nil Z)) with 0; zlia].
  - rewrite <- Hw, (view_load0 c w (q ++ l')) by done. mstep. eexists. split; [done|]. simpl. split; [|done].
    split; [|split_and!; cbn; [done|lia|done]]. exists l'. split_and!; [|zlia|done]. rewrite Hw.
    rewrite app_assoc in Hv. pose proof (view_advance c (w ++ q) l' (bulklen c + 2) Hv ltac:(zlia)) as (B & HB & HpB & Hlen).
    by exists B.
Qed.

(** Inside the arguments of a command. *)
Definition in_args (c : client) : Prop :=
  reqtype c = PROTO_REQ_MULTIBULK /\ 0 < multibulklen c /\ -1 <= bulklen c < 2 ^ 63.

Lemma shrinks_weaken c c' l n m : m <= n -> shrinks c c' l n -> shrinks c c' l m.
Proof. intros Hm (l' & ? & ? & ?). exists l'. split_and!; [done|lia|done]. Qed.

(** How the loop over the arguments ends. *)
Definition loop_safe (c : client) (l : bytes) (n : Z) (f : flow client) : Prop :=
  match f with
  | Return (st, c') => st = C_ERR /\ shrinks c c' l 0 /\ (stopped c' = true \/ in_args c')
  | Break c' => multibulklen c' = 0 /\ shrinks c c' l n \/ shrinks c c' l 0 /\ in_args c'
  | Continue _ => False
  end.

Lemma loop_safe_trans c c1 l n m f :
  0 <= n -> shrinks c c1 l n -> (forall l1, view c1 l1 -> loop_safe c1 l1 m f) -> loop_safe c l (n + m) f.
Proof.
  intros Hn Hsh Hf. pose proof Hsh as (l1 & Hv1 & _). specialize (Hf l1 Hv1) as Hf1.
  assert (forall c2 k, (forall l1, view c1 l1 -> shrinks c1 c2 l1 k) -> shrinks c c2 l (n + k)) as Htr.
  { intros c2 k. by apply shrinks_trans. }
  assert (forall c2 l2 k, view c1 l2 -> shrinks c1 c2 l2 k -> forall l3, view c1 l3 -> shrinks c1 c2 l3 k) as Hany.
  { intros c2 l2 k Hl2 Hs l3 Hl3. by rewrite (view_unique _ _ _ Hl2 Hl3). }
  destruct f as [[st c2] | c2 | c2]; simpl in *; [| |done].
  - destruct Hf1 as (-> & Hs & ?). split_and!; [done| |done]. eapply shrinks_weaken; [|by apply Htr, (Hany _ l1)]. lia.
  - destruct Hf1 as [[? Hs] | [Hs ?]]; [left; split; [done|by apply Htr, (Hany _ l1)]|right; split; [|done]].
    eapply shrinks_weaken; [|by apply Htr, (Hany _ l1)]. lia.
Qed.

Lemma multibulk_loop_safe fuel conf c l :
  view c l -> reqtype c = PROTO_REQ_MULTIBULK -> 0 <= multibulklen c <= Z.of_nat fuel -> -1 <= bulklen c < 2 ^ 63 ->
  exists f, multibulk_loop fuel conf c = Some f /\ loop_safe c l (if multibulklen c =? 0 then 0 else 2) f.
Proof.
  revert c l. induction fuel as [|fuel IH]; intros c l Hv Hrt Hm Hbl; cbn [multibulk_loop].
  { rewrite (proj2 (Z.eqb_eq _ 0)) by lia. eexists. split; [done|]. left. split; [lia|by apply shrinks_refl]. }
  destruct (multibulklen c =? 0) eqn:Em; boolsimp.
  { eexists. split; [done|]. left. split; [done|by apply shrinks_refl]. }
  assert (forall c1, shrinks c c1 l 0 -> in_bulk (multibulklen c) c1 ->
    exists f, (let! f := read_bulk c1 in
      match f with
      | Return r => Some (Return r)
      | Break c => Some (Break c)
      | Continue c => multibulk_loop fuel conf c
      end) = Some f /\ loop_safe c l 2 f) as Hturn.
  { intros c1 Hs1 Hb1. pose proof Hs1 as (l1 & Hv1 & _).
    destruct (read_bulk_safe c1 l1 _ Hv1 Hb1) as (f & -> & Hf & Hnr). mstep.
    destruct f as [r | c2 | c2]; [by destruct (Hnr r)|simpl in Hf; subst c2|].
    - eexists. split; [done|]. right. split; [done|]. destruct Hb1 as (? & ? & ?). split_and!; [done|lia|lia|lia].
    - destruct Hf as (Hs2 & Hrt2 & Hm2 & Hbl2). pose proof Hs2 as (l2 & Hv2 & _).
      destruct (IH c2 l2 Hv2 Hrt2) as (f & -> & Hf); [lia|lia|]. exists f. split; [done|].
      replace 2 with (0 + 2) by lia. apply (loop_safe_trans c c1); [done|done|]. intros l1' Hv1'.
      rewrite (view_unique _ _ _ Hv1 Hv1').
      replace 2 with (2 + 0) by lia. apply (loop_safe_trans c1 c2); [done|done|]. intros l2' Hv2'.
      rewrite (view_unique _ _ _ Hv2 Hv2').
      destruct f as [[st c3] | c3 | c3]; [done| |done]. destruct Hf as [[? Hs3] | ?]; [left|by right].
      split; [done|]. eapply shrinks_weaken; [|done]. destruct (_ =? 0); lia. }
  destruct (bulklen c =? -1) eqn:Eb; boolsimp.
  - destruct (read_bulklen_safe conf c l _ Hv Hrt eq_refl) as (f & -> & Hf & Hno). mstep.
    destruct f as [[[] c1] | c1 | c1]; simpl in Hf; [by destruct (Hno c1)| | |].
    + eexists. split; [done|]. simpl. destruct Hf as [? [? | ->]]; split_and!; auto. right. split_and!; [done|lia|lia|lia].
    + subst c1. eexists. split; [done|]. right. split; [by apply shrinks_refl|]. split_and!; [done|lia|lia|lia].
    + destruct Hf as [Hs Hg]. by apply Hturn.
  - mstep. apply Hturn; [by apply shrinks_refl|]. split_and!; [done|done|lia|lia].
Qed.

(** [processMultibulkBuffer] and [processInlineBuffer]: a complete request consumes bytes. *)
Definition process_safe (c : client) (l : bytes) (r : cstatus * client) : Prop :=
  let '(st, c') := r in
  match st with
  | C_OK => shrinks c c' l 1
  | C_ERR => shrinks c c' l 0 /\ (stopped c' = true \/ consistent c')
  end.

Lemma processMultibulkBuffer_safe conf c l :
  view c l -> parser c PROTO_REQ_MULTIBULK 0 (-1) [] /\ head l = Some 42 \/ in_args c ->
  exists r, processMultibulkBuffer conf c = Some r /\ process_safe c l r.
Proof.
  intros Hv Hc. unfold processMultibulkBuffer.
  assert (forall c1 n, 0 <= n -> shrinks c c1 l n -> in_args c1 -> exists r,
    (if multibulklen c1 <=? 0 then None else
      let! f := multibulk_loop (Z.to_nat (multibulklen c1)) conf c1 in
      match f with
      | Return r => Some r
      | Break c | Continue c => Some (if multibulklen c =? 0 then C_OK else C_ERR, c)
      end) = Some r /\ process_safe c l r) as Hloop.
  { intros c1 n Hn Hs (Hrt & Hm & Hbl). rewrite (proj2 (Z.leb_gt _ _)) by lia. pose proof Hs as (l1 & Hv1 & _).
    destruct (multibulk_loop_safe (Z.to_nat (multibulklen c1)) conf c1 l1) as (f & -> & Hf); [done|done|lia|lia|]. mstep.
    rewrite (proj2 (Z.eqb_neq _ 0)) in Hf by lia.
    assert (loop_safe c l (n + 2) f) as Hf'.
    { apply (loop_safe_trans c c1); [done|done|]. intros l1' Hv1'. by rewrite (view_unique _ _ _ Hv1 Hv1'). }
    destruct f as [[st c2] | c2 | c2]; [| |done]; eexists; (split; [done|]).
    - destruct Hf' as (-> & ? & [? | ?]); simpl; split; auto. right. by do 3 right.
    - destruct Hf' as [[-> ?] | [? Hin]].
      + simpl. eapply shrinks_weaken; [|done]. lia.
      + pose proof Hin as (_ & ? & _). rewrite (proj2 (Z.eqb_neq _ 0)) by lia. simpl. split; [done|]. right. by do 3 right. }
  destruct Hc as [[Hp Hh] | Hin].
  - assert (multibulklen c = 0) as Hm by apply Hp. rewrite Hm. change (0 =? 0) with true. cbv iota.
    destruct (read_multibulklen_safe c l Hv Hp Hh) as (f & -> & Hf & Hnb). mstep. destruct f as [[[] c1] | c1 | c1]; simpl in Hf.
    + eexists. split; [done|]. simpl. eapply shrinks_weaken; [|apply Hf]. lia.
    + eexists. split; [done|]. simpl. destruct Hf as [? [? | ->]]; split; auto. right. right; right; left.
      split; [done|]. by rewrite (view_unread _ _ Hv).
    + by destruct (Hnb c1).
    + apply (Hloop c1 2); [done|apply Hf|]. destruct Hf as (_ & ? & ? & ?). split_and!; [done|done|lia|lia].
  - pose proof Hin as (Hrt & Hm & Hbl). rewrite (proj2 (Z.eqb_neq _ 0)) by lia. mstep.
    apply (Hloop c 0); [done|by apply shrinks_refl|done].
Qed.

Lemma processInlineBuffer_safe conf c l :
  view c l -> parser c PROTO_REQ_INLINE 0 (-1) [] ->
  exists r, processInlineBuffer conf c = Some r /\ process_safe c l r.
Proof.
  intros Hv Hp. unfold processInlineBuffer.
  destruct (strchr (unread c) 10) as [newline|] eqn:Es.
  2: { casif; (eexists; split; [done|]); simpl.
       - split; [by apply shrinks_error|left; apply stopped_error].
       - split; [by apply shrinks_refl|]. right. by right; left. }
  rewrite (view_unread c l Hv) in Es. apply strchr_some in Es as [Hk _].
  destruct (split_range l 0 (newline + 1)) as (A & p & l' & -> & HA & Hlp); [lia..|].
  apply zlen_0_inv in HA. subst A. simpl app in *.
  assert (exists cr : bool, (if newline =? 0 then Some false
     else let! b := load1 (querybuf c) (qb_pos c + newline - 1) in Some (b =? 13)) = Some cr /\
     (newline = 0 -> cr = false)) as (cr & -> & Hcr).
  { destruct (newline =? 0) eqn:E0; boolsimp; [by exists false|].
    destruct (load1_cons (querybuf c) (qb_pos c + newline - 1)) as (b & -> & _).
    { destruct Hv as (A & -> & -> & _). zlia. }
    mstep. eexists. split; [done|]. lia. }
  mstep. set (ql := if cr then newline - 1 else newline).
  assert (0 <= ql <= newline) as Hql by (subst ql; destruct cr; [destruct (decide (newline = 0)); [naive_solver|lia]|lia]).
  destruct (split_range p 0 ql) as (A & w & q & -> & HA & Hw); [lia..|].
  apply zlen_0_inv in HA. subst A. simpl app in *. rewrite <- app_assoc in Hv |- *.
  rewrite <- Hw, (view_load0 c w (q ++ l')) by done. mstep.
  destruct (sdssplitargs_total w) as ([argv|] & ->); mstep.
  2: { eexists. split; [done|]. simpl. split; [by apply shrinks_error|left; apply stopped_error]. }
  set (c1 := if _ && _ then _ else c).
  assert (view c1 (w ++ q ++ l') /\ querybuf c1 = querybuf c /\ qb_pos c1 = qb_pos c) as (Hv1 & Hb1 & Hp1)
    by (subst c1; destruct (_ && _); done).
  clearbody c1. rewrite Hw. destruct (_ && _); (eexists; split; [done|]); simpl.
  - split; [|left; apply stopped_error]. exists (w ++ q ++ l'). split_and!; [done|lia|cbn; by rewrite Hb1].
  - exists l'. split_and!; [|zlia|cbn; by rewrite Hb1].
    rewrite app_assoc in Hv. assert (ql + (if cr then 2 else 1) = zlen (w ++ q)) as Hadv by (subst ql; destruct cr; zlia).
    rewrite Hadv, Hp1. pose proof (view_advance c (w ++ q) l' _ Hv eq_refl) as (B & HB & HpB & Hlen). exists B. cbn in *. by rewrite Hb1.
Qed.

Section SafeInput.
Context {St : Type} `{SafeCommands St}.

(** The invariant after a piece of work that consumed [n] bytes. *)
Definition done_safe (c c' : client) (l : bytes) (n : Z) : Prop :=
  shrinks c c' l n /\ (stopped c' = true \/ consistent c').

Lemma shrinks_same c c1 c2 l n :
  querybuf c2 = querybuf c1 -> qb_pos c2 = qb_pos c1 -> shrinks c c1 l n -> shrinks c c2 l n.
Proof.
  intros Hb Hp (l' & (A & HA & HpA & Hlen) & Hl & Hq). exists l'.
  split_and!; [exists A; by rewrite Hb, Hp|done|by rewrite Hb].
Qed.
Lemma shrinks_flag c c1 f l n : shrinks c c1 l n -> shrinks c (set_flag f c1) l n.
Proof. by apply shrinks_same. Qed.
Lemma reset_safe c c1 l n : shrinks c c1 l n -> done_safe c (resetClient c1) l n.
Proof.
  intros Hs. destruct (resetClient_fields c1) as (Hp & Hb & Hpos & _). split; [by eapply shrinks_same|].
  right. by left.
Qed.

Lemma finish_safe c c1 s l n :
  shrinks c c1 l n -> exists f, finish c1 s = Some f /\
    match f with Return (_, (c', _)) | Break (c', _) | Continue (c', _) => done_safe c c' l n end.
Proof.
  intros Hs. unfold finish. destruct (argv c1); [eexists; split; [done|by apply reset_safe]|].
  destruct (has c1 CLIENT_PENDING_READ).
  { eexists. split; [done|]. split; [by eapply shrinks_same|]. left. unfold stopped.
    by rewrite (has_set_same c1 CLIENT_PENDING_COMMAND), orb_true_r. }
  unfold processCommandAndResetClient. destruct (processCommand c1 s) as [[[st dead] c2] s2] eqn:Ep.
  apply safe_process in Ep as (Hb & Hp & Herr).
  assert (shrinks c c2 l n) as Hs2 by by eapply shrinks_same.
  assert (exists c3 s3, (match st with C_OK => commandProcessed c2 s2 | C_ERR => Some (c2, s2) end) = Some (c3, s3) /\
    done_safe c c3 l n) as (c3 & s3 & -> & Hd).
  2: { mstep. destruct dead; (eexists; split; [done|done]). }
  destruct st; [|eexists _, _; split; [done|]; split; [done|by left; auto]].
  unfold commandProcessed. set (c3 := if _ && _ then set_reploff _ _ else c2).
  assert (querybuf c3 = querybuf c2 /\ qb_pos c3 = qb_pos c2) as [Hb3 Hp3] by (subst c3; by destruct (_ && _)).
  clearbody c3. set (c4 := if _ || _ then _ else c3).
  assert (done_safe c c4 l n) as Hd4.
  { subst c4. destruct (_ || _) eqn:Eo; [apply reset_safe; by eapply shrinks_same|].
    split; [by eapply shrinks_same|]. left. unfold stopped.
    destruct (has c3 CLIENT_BLOCKED); [done|]. by simpl in Eo. }
  clearbody c4. destruct (has c4 CLIENT_MASTER); [|by eauto]. destruct (_ =? 0); [by eauto|].
  rewrite sdsrange_spec. mstep. eexists _, _. split; [done|]. exact Hd4.
Qed.

(** One turn of the loop. *)
Lemma input_turn_safe c s l :
  view c l -> l <> [] -> safe c ->
  exists f, input_turn c s = Some f /\
    match f with
    | Continue (c', _) => done_safe c c' l 1
    | Return (_, (c', _)) | Break (c', _) => done_safe c c' l 0
    end.
Proof.
  intros Hv Hl [_ Hst]. unfold input_turn.
  destruct (if negb (has c CLIENT_SLAVE) then clientsArePaused s else (false, s)) as [paused s1].
  assert (forall s2 : St, exists f, Some (Break (c, s2)) = Some f /\
    match f with
    | Continue (c', _) => done_safe c c' l 1
    | Return (_, (c', _)) | Break (c', _) => done_safe c c' l 0
    end) as Hstay by (intros s2; eexists; split; [done|]; split; [by apply shrinks_refl|done]).
  destruct paused; [apply Hstay|]. destruct (has c CLIENT_BLOCKED) eqn:E1; [apply Hstay|].
  destruct (has c CLIENT_PENDING_COMMAND) eqn:E2; [apply Hstay|]. destruct (_ && _); [apply Hstay|].
  destruct (_ || _) eqn:E3; [apply Hstay|].
  destruct Hst as [Hst | Hc]; [unfold stopped in Hst; by rewrite E1, E2, E3 in Hst|].
  destruct l as [|b l]; [done|].
  assert (load1 (querybuf c) (qb_pos c) = Some b) as Hload.
  { rewrite <- (Z.add_0_r (qb_pos c)). by apply (view_load1 c [] b l). }
  assert (exists c1, (if reqtype c =? 0 then
       let! b := load1 (querybuf c) (qb_pos c) in
       Some (set_reqtype (if b =? 42 then PROTO_REQ_MULTIBULK else PROTO_REQ_INLINE) c)
     else Some c) = Some c1 /\ view c1 (b :: l) /\ querybuf c1 = querybuf c /\ qb_pos c1 = qb_pos c /\
     (parser c1 PROTO_REQ_INLINE 0 (-1) [] \/
      parser c1 PROTO_REQ_MULTIBULK 0 (-1) [] /\ b = 42 \/ in_args c1)) as (c1 & -> & Hv1 & Hb1 & Hp1 & Hk).
  { destruct Hc as [Hp | [Hp | [[Hp Hh] | Hp]]].
    - pose proof Hp as (-> & Hm & Hbl & Ha). simpl (0 =? 0). rewrite Hload. mstep. eexists. split; [done|].
      split_and!; try done. destruct (b =? 42) eqn:E42; boolsimp; [right; left|left]; by unfold parser; cbn.
    - exists c. pose proof Hp as (-> & _). by split_and!; auto.
    - exists c. pose proof Hp as (-> & _). split_and!; auto. right; left. split; [done|].
      rewrite (view_unread _ _ Hv) in Hh. by injection Hh.
    - exists c. pose proof Hp as (-> & _). by split_and!; auto. }
  mstep.
  assert (forall r, process_safe c1 (b :: l) r -> process_safe c (b :: l) r) as Hmono.
  { assert (forall c' n, shrinks c1 c' (b :: l) n -> shrinks c c' (b :: l) n) as Hm.
    { intros c' n (l' & ? & ? & ?). exists l'. by rewrite Hb1 in *. }
    intros [[] c']; simpl; [by apply Hm|]. intros [? ?]. auto. }
  assert (forall r s2, process_safe c (b :: l) r -> exists f,
    match fst r with C_ERR => Some (Break (snd r, s2)) | C_OK => finish (snd r) s2 end = Some f /\
    match f with
    | Continue (c', _) => done_safe c c' (b :: l) 1
    | Return (_, (c', _)) | Break (c', _) => done_safe c c' (b :: l) 0
    end) as Hend.
  { intros [[] c'] s2 Hs; simpl in *; [|by eexists]. destruct (finish_safe c c' s2 _ _ Hs) as (f & -> & Hf).
    exists f. split; [done|]. destruct f as [[? [? ?]] | [? ?] | [? ?]]; [| |done];
      destruct Hf as [Hf ?]; (split; [eapply shrinks_weaken; [|done]; lia|done]). }
  destruct Hk as [Hp | Hk].
  - pose proof Hp as (Hrt & _). rewrite Hrt. change (PROTO_REQ_INLINE =? PROTO_REQ_INLINE) with true. cbv iota.
    destruct (processInlineBuffer_safe (server_conf s1) c1 _ Hv1 Hp) as ([st c2] & -> & Hs%Hmono). mstep.
    destruct st; [|exact (Hend (C_ERR, c2) s1 Hs)].
    destruct (_ && _); [|exact (Hend (C_OK, c2) s1 Hs)].
    destruct (processGopherRequest c2 s1) as [c3 s3] eqn:Eg. apply safe_gopher in Eg as [Hb3 Hp3]. mstep.
    eexists. split; [done|]. split.
    + eapply shrinks_weaken; [|apply shrinks_flag, reset_safe; by eapply shrinks_same]. lia.
    + left. unfold stopped. rewrite has_set_same by done. by rewrite orb_true_r.
  - assert (reqtype c1 = PROTO_REQ_MULTIBULK) as Hrt by (destruct Hk as [[(? & _) _] | (? & _)]; done). rewrite Hrt.
    change (PROTO_REQ_MULTIBULK =? PROTO_REQ_INLINE) with false.
    change (PROTO_REQ_MULTIBULK =? PROTO_REQ_MULTIBULK) with true. cbv iota.
    destruct (processMultibulkBuffer_safe (server_conf s1) c1 (b :: l) Hv1) as ([st c2] & -> & Hs%Hmono).
    { destruct Hk as [[? ->] | ?]; auto. }
    mstep. destruct st; [exact (Hend (C_OK, c2) s1 Hs)|exact (Hend (C_ERR, c2) s1 Hs)].
Qed.

Lemma done_safe_trans c c1 c2 l n m :
  0 <= n -> 0 <= m -> done_safe c c1 l n -> (forall l1, view c1 l1 -> done_safe c1 c2 l1 m) -> done_safe c c2 l 0.
Proof.
  intros Hn Hm [Hs1 _] H2. pose proof Hs1 as (l1 & Hv1 & _). split; [|by apply (H2 l1)].
  apply (shrinks_weaken _ _ _ (n + m)); [lia|]. eapply shrinks_trans; [done|]. intros l2 Hv2. by apply H2.
Qed.

Lemma input_loop_safe fuel c s l :
  view c l -> (length l < fuel)%nat -> safe c ->
  exists f, input_loop fuel c s = Some f /\
    match f with Return (_, (c', _)) | Break (c', _) | Continue (c', _) => done_safe c c' l 0 end.
Proof.
  revert c s l. induction fuel as [|fuel IH]; intros c s l Hv Hf Hs; [lia|]. cbn [input_loop].
  pose proof (view_len c l Hv) as Hlen. destruct (qb_pos c <? zlen (querybuf c)) eqn:E; boolsimp.
  2: { eexists. split; [done|]. split; [by apply shrinks_refl|apply Hs]. }
  assert (l <> []) as Hl by (intros ->; change (zlen (@nil Z)) with 0 in *; lia).
  destruct (input_turn_safe c s l Hv Hl Hs) as (f & -> & Hsf). mstep.
  destruct f as [[? [? ?]] | [? ?] | [c1 s1]]; [by eexists|by eexists|].
  pose proof Hsf as [(l1 & Hv1 & Hl1 & _) Hok]. destruct (IH c1 s1 l1 Hv1) as (f & -> & Hf'); [unfold zlen in *; lia|by split; eauto|].
  exists f. split; [done|]. assert (forall c2, done_safe c1 c2 l1 0 -> done_safe c c2 l 0) as Htr.
  { intros c2 Hd. apply (done_safe_trans c c1 c2 l 1 0); [done|done|done|]. intros l1' Hv1'. by rewrite (view_unique _ _ _ Hv1 Hv1'). }
  destruct f as [[? [? ?]] | [? ?] | [? ?]]; by apply Htr.
Qed.

Lemma processInputBuffer_safe c s l :
  view c l -> safe c -> exists c' s', processInputBuffer c s = Some (c', s') /\ done_safe c c' l 0.
Proof.
  intros Hv Hs. unfold processInputBuffer.
  destruct (input_loop_safe (S (length (querybuf c))) c s l Hv) as (f & -> & Hf); [|done|].
  { destruct Hv as (A & -> & _). rewrite length_app. lia. }
  mstep. assert (forall c1 (s1 : St), done_safe c c1 l 0 -> exists c' s',
    (if negb (qb_pos c1 =? 0) then
        let! querybuf := sdsrange (querybuf c1) (qb_pos c1) (-1) in
        Some (set_qb_pos 0 (set_querybuf querybuf c1), s1)
      else Some (c1, s1)) = Some (c', s') /\ done_safe c c' l 0) as Htrim.
  { intros c1 s1 Hd. destruct (qb_pos c1 =? 0); cbn [negb]; [by eauto|].
    destruct Hd as [(l1 & (A & HA & HpA & Hlen) & Hl1 & Hq1) Hok]. rewrite HA, HpA, sdsrange_tail by done. mstep.
    eexists _, _. split; [done|]. split.
    - exists l1. split_and!; [apply view_start; [done|done|zlia]|done|]. cbn. rewrite HA in Hq1. zlia.
    - destruct Hok as [? | Hok]; [by left|]. right. unfold consistent, unread, parser in *. cbn.
      rewrite HA, HpA in Hok. unfold zlen in Hok at 1. rewrite Nat2Z.id, drop_app_length in Hok. done. }
  destruct f as [[? [? ?]] | [? ?] | [? ?]]; [by eauto|by apply Htrim..].
Qed.

Lemma freeClientAsync_safe c s :
  safe c -> let '(c', s') := freeClientAsync c s in
  safe c' /\ querybuf c' = querybuf c /\ (has c' CLIENT_CLOSE_ASAP = true \/ has c' CLIENT_LUA = true).
Proof.
  intros [(l & Hv) Hs]. unfold freeClientAsync. destruct (_ || _) eqn:E.
  - split; [by split; eauto|]. split; [done|]. by apply orb_true_iff in E.
  - split; [|split; [done|left; by apply has_set_same]]. split; [by exists l|]. left. unfold stopped.
    by rewrite has_set_same, !orb_true_r.
Qed.

(** Bytes appended to the buffer, other fields that the invariant does not mention aside. *)
Lemma append_safe c c' data :
  safe c -> querybuf c' = querybuf c ++ data -> qb_pos c' = qb_pos c -> stopped c' = stopped c ->
  parser c' (reqtype c) (multibulklen c) (bulklen c) (argv c) -> zlen (querybuf c') < 2 ^ 62 -> safe c'.
Proof.
  intros [(l & A & HA & HpA & Hlen) Hs] Hb Hp Hst (Hr & Hm & Hbl & Ha) Hlim.
  assert (view c' (l ++ data)) as Hv'.
  { exists A. rewrite Hb, Hp, HA, <- app_assoc in *. split_and!; [done|done|zlia]. }
  split; [by eauto|]. rewrite Hst. destruct Hs as [? | Hc]; [by left|right].
  assert (unread c = l) as Hl by (apply view_unread; by exists A).
  unfold consistent, parser in *. rewrite (view_unread _ _ Hv'), Hr, Hm, Hbl, Ha. rewrite Hl in Hc.
  destruct Hc as [? | [? | [[? Hh] | ?]]]; auto. right; right; left. split; [done|]. by destruct l.
Qed.

Lemma stopped_flags c c' : flags c' = flags c -> stopped c' = stopped c.
Proof. intros Hf. unfold stopped, has. by rewrite Hf. Qed.

(** C12. The read handler is safe.  For every client the invariant allows, every state of the
    socket and all bytes, the handler returns: no assertion fails, no access leaves the query
    buffer, every loop ends.  The invariant holds again, and the query buffer is within the
    limit unless the client is being closed. *)
Theorem readQueryFromClient_safe conn c s :
  safe c -> zlen (querybuf c) <= client_max_querybuf_len (server_conf s) < 2 ^ 61 ->
  exists c' s', readQueryFromClient conn c s = Some (c', s') /\ safe c' /\
    (zlen (querybuf c') <= client_max_querybuf_len (server_conf s) \/
     has c' CLIENT_CLOSE_ASAP = true \/ has c' CLIENT_LUA = true).
Proof.
  intros Hs Hlim. unfold readQueryFromClient, postponeClientRead. destruct (_ && negb (_ || _)).
  { eexists _, _. split; [done|]. split; [|left; cbn; lia]. apply (append_safe c _ []); try done; [by rewrite app_nil_r| |cbn; lia].
    unfold stopped. by rewrite !has_set by done. }
  set (c1 := if querybuf_peak c <? _ then _ else c).
  assert (querybuf c1 = querybuf c /\ qb_pos c1 = qb_pos c /\ flags c1 = flags c /\
    parser c1 (reqtype c) (multibulklen c) (bulklen c) (argv c)) as (Hb1 & Hp1 & Hf1 & Hps)
    by (subst c1; destruct (querybuf_peak c <? _); done).
  assert (safe c1) as Hs1.
  { apply (append_safe c _ []); try done; [by rewrite app_nil_r|by apply stopped_flags|rewrite Hb1; lia]. }
  clearbody c1. assert (forall c2 s2, safe c2 -> exists c' s', Some (freeClientAsync c2 s2) = Some (c', s') /\ safe c' /\
    (zlen (querybuf c') <= client_max_querybuf_len (server_conf s) \/ has c' CLIENT_CLOSE_ASAP = true \/ has c' CLIENT_LUA = true)) as Hfree.
  { intros c2 s2 Hs2. pose proof (freeClientAsync_safe c2 s2 Hs2) as Hx. destruct (freeClientAsync c2 s2) as [c' s'].
    exists c', s'. split; [done|]. destruct Hx as (? & _ & ?). auto. }
  destruct conn as [b bs| | |]; [|eexists _, _; split; [done|]; split; [done|left; rewrite Hb1; lia]|by apply Hfree..].
  set (data := take (Z.to_nat (query_readlen c)) (b :: bs)).
  assert (zlen data <= PROTO_IOBUF_LEN) as Hd.
  { pose proof (query_readlen_bound c). subst data. rewrite zlen_take. lia. }
  set (c2 := if has c1 CLIENT_MASTER then set_pending_querybuf _ c1 else c1).
  set (c3 := set_lastinteraction _ _). set (c4 := if has c3 CLIENT_MASTER then _ else c3).
  assert (safe c4 /\ querybuf c4 = querybuf c ++ data) as [Hs4 Hb4].
  { assert (querybuf c4 = querybuf c1 ++ data) as Hb4
      by (subst c4; destruct (has c3 _); subst c3 c2; destruct (has c1 _); done).
    split; [|by rewrite Hb4, Hb1]. apply (append_safe c1 _ data); try done.
    all: try (subst c4; destruct (has c3 _); subst c3 c2; by destruct (has c1 _)).
    rewrite Hb4, Hb1, zlen_app. unfold PROTO_IOBUF_LEN in Hd. lia. }
  clearbody c4. destruct (_ >? _) eqn:El; boolsimp; [by apply Hfree|].
  pose proof Hs4 as [(l4 & Hv4) _]. destruct (processInputBuffer_safe c4 s l4 Hv4 Hs4) as (c' & s' & -> & Hd').
  exists c', s'. split; [done|]. destruct Hd' as [(l' & Hv' & _ & Hq') Hok]. split; [by split; eauto|]. left. lia.
Qed.
End SafeInput.

(** ** A concrete server: it knows QUIT and BLOCK *)

Module Example_safety.

#[local] Instance quit_commands : Commands (list (list bytes)) := {
  server_conf := fun _ => Example_protocol.conf;
  clientsArePaused := fun s => (false, s);
  processCommand := fun c s =>
    if decide (argv c = [[81; 85; 73; 84]]) then (C_ERR, false, set_flag CLIENT_CLOSE_AFTER_REPLY c, s)
    else if decide (argv c = [[66]]) then (C_OK, false, set_flag CLIENT_BLOCKED c, s)
    else (C_OK, false, c, s ++ [argv c]);
  processGopherRequest := fun c s => (c, s);
  replicationFeedSlavesFromMasterStream := fun _ _ s => s;
  clients_to_close_add := fun _ s => s;
  clients_pending_read_add := fun _ s => s }.

#[local] Instance quit_safe : SafeCommands (list (list bytes)).
Proof.
  split; [|by intros c s c' s' [= <- <-]].
  intros c s st dead c' s' Hp. cbn [processCommand quit_commands] in Hp.
  destruct (decide _); [|destruct (decide _)]; injection Hp as <- <- <- <-; split_and!; try done.
  intros _. unfold stopped. by rewrite (has_set_same c CLIENT_CLOSE_AFTER_REPLY), orb_true_r.
Defined.

(** A malformed stream: the second length is not a number. *)
Lemma readQueryFromClient_safe_witness :
  exists c' s', readQueryFromClient (Available 42 [49; 13; 10; 36; 120; 13; 10; 0]) Example_protocol.idle [] = Some (c', s') /\
    safe c' /\ (zlen (querybuf c') <= client_max_querybuf_len (server_conf (@nil (list bytes))) \/
      has c' CLIENT_CLOSE_ASAP = true \/ has c' CLIENT_LUA = true).
Proof.
  apply (readQueryFromClient_safe (St := list (list bytes)) (Available 42 [49; 13; 10; 36; 120; 13; 10; 0])
    Example_protocol.idle []).
  - split; [by exists [], []|]. right. by left.
  - by vm_compute.
Defined.
End Example_safety.
