(* ===== verification/Multi.v ===== *)
(** * Transactions (multi.c)

    MULTI / EXEC / DISCARD and the optimistic locking of WATCH.  The state has the clients
    with their queues and lists of watched keys, and the per-database tables from watched keys
    to lists of clients.  Commands other than these, the ACLs, the replication and the
    monitors are an interface, the class [Engine]; a command reports in their order the keys it
    signals as modified ([signalModifiedKey]), the databases it signals as flushed
    ([signalFlushedDb]) and the database it selected, each with the state in which it does so:
    a flush is signalled while the keys are still there.  [None] is a failed assertion or a
    null pointer. *)

From Stdlib Require Import ZArith Lia.
From stdpp Require Import base numbers option gmap list.
From S2P Require Import Prelude Memory Server.

Local Open Scope Z_scope.
Local Open Scope redis_scope.

(** ** State *)

(** The command procedures the code tests for. *)
Inductive proc := multiProc | execProc | discardProc | watchProc | unwatchProc | otherProc (n : Z).
#[global] Instance proc_eq_dec : EqDecision proc.
Proof. solve_decision. Defined.

Record redisCommand := mkCommand { cmd_proc : proc; cmd_flags_of : Z }.
Record multiCmd := mkMultiCmd { mc_cmd : redisCommand; mc_argv : list bytes }.

(** A key of a database: [watchedKey]. *)
Abbreviation watchedKey := (Z * bytes)%type.

Inductive mreply :=
| ok | queued | multi_nested | discard_without_multi | exec_without_multi | watch_inside_multi
| execaborterr | execabort_because | nullarray | array_len (n : Z) | noperm | rejected.

(** The fields of [struct client] multi.c works on, [mstate] included. *)
Record mclient := mkMClient {
  mflags : Z;
  mdb : Z;
  commands : list multiCmd;
  cmd_flags : Z;
  cmd_inv_flags : Z;
  watched_keys : list watchedKey;
  replies : list mreply }.

Definition set_mflags (f : Z) (c : mclient) : mclient :=
  mkMClient f (mdb c) (commands c) (cmd_flags c) (cmd_inv_flags c) (watched_keys c) (replies c).
Definition set_mdb (d : Z) (c : mclient) : mclient :=
  mkMClient (mflags c) d (commands c) (cmd_flags c) (cmd_inv_flags c) (watched_keys c) (replies c).
Definition set_watched_keys (w : list watchedKey) (c : mclient) : mclient :=
  mkMClient (mflags c) (mdb c) (commands c) (cmd_flags c) (cmd_inv_flags c) w (replies c).
Definition addReply (r : mreply) (c : mclient) : mclient :=
  mkMClient (mflags c) (mdb c) (commands c) (cmd_flags c) (cmd_inv_flags c) (watched_keys c) (replies c ++ [r]).

Definition mhas (c : mclient) (f : Z) : bool := Z.testbit (mflags c) f.
Definition mset (f : Z) (c : mclient) : mclient := set_mflags (Z.setbit (mflags c) f) c.
Definition mclear (f : Z) (c : mclient) : mclient := set_mflags (Z.clearbit (mflags c) f) c.

(** What a command does outside its own data. *)
Inductive effect := Modified (k : watchedKey) | Flushed (dbid : Z) | Selected (dbid : Z).

(** The rest of the server; [db_find] is the lookup of a key in the table of its database. *)
Class Engine (St : Type) := {
  value : Type;
  call_proc : nat -> Z -> multiCmd -> St -> list (St * effect) * St;
  db_find : St -> watchedKey -> option value;
  acl_ok : St -> nat -> multiCmd -> bool;
  addACLLogEntry : nat -> multiCmd -> St -> St;
  loading : St -> bool;
  is_master : St -> bool;
  has_backlog : St -> bool;
  propagate_multi : Z -> St -> St;
  incr_dirty : St -> St;
  feed_backlog_exec : St -> St;
  feed_monitors : nat -> St -> St }.

(** A change of the rest of the server, with the signals sent meanwhile. *)
Record transition (St : Type) := Transition { before : St; signals : list (St * effect); after : St }.
Arguments Transition {St}.
Arguments before {St}.
Arguments signals {St}.
Arguments after {St}.

(** [watched] has the [watched_keys] tables of all databases; [history] is not in the code: it
    has all changes of the rest of the server. *)
Record mserver (St : Type) := mkMServer {
  clients : gmap nat mclient;
  watched : gmap watchedKey (list nat);
  history : list (transition St);
  engine : St }.
Arguments mkMServer {St}.
Arguments clients {St}.
Arguments watched {St}.
Arguments history {St}.
Arguments engine {St}.

Section Multi.
Context {St : Type} `{Engine St}.
Implicit Types (s : mserver St) (c : mclient) (i : nat).

Definition upd i (f : mclient -> mclient) s : mserver St :=
  mkMServer (alter f i (clients s)) (watched s) (history s) (engine s).
Definition set_engine (e : St) s : mserver St :=
  mkMServer (clients s) (watched s) (history s ++ [Transition (engine s) [] e]) e.

(** ** The transaction state of a client *)

Definition initClientMultiState c : mclient :=
  mkMClient (mflags c) (mdb c) [] 0 0 (watched_keys c) (replies c).

Definition queueMultiCommand (mc : multiCmd) c : mclient :=
  if mhas c CLIENT_DIRTY_EXEC then c else
  mkMClient (mflags c) (mdb c) (commands c ++ [mc])
    (Z.lor (cmd_flags c) (cmd_flags_of (mc_cmd mc)))
    (Z.lor (cmd_inv_flags c) (Z.lnot (cmd_flags_of (mc_cmd mc))))
    (watched_keys c) (replies c).

Definition flagTransaction c : mclient :=
  if mhas c CLIENT_MULTI then mset CLIENT_DIRTY_EXEC c else c.

(** ** Watched keys *)

Definition watchForKey i (key : bytes) s : option (mserver St) :=
  let! c := clients s !! i in
  let wk := (mdb c, key) in
  if decide (wk ∈ watched_keys c) then Some s else
  let l := default [] (watched s !! wk) in
  Some (upd i (fun c => set_watched_keys (watched_keys c ++ [wk]) c)
    (mkMServer (clients s) (<[wk := l ++ [i]]> (watched s)) (history s) (engine s))).

(** [listDelNode(clients,listSearchKey(clients,c))] *)
Fixpoint del_client i (l : list nat) : option (list nat) :=
  match l with
  | [] => None
  | j :: l => if decide (i = j) then Some l else let! l := del_client i l in Some (j :: l)
  end.

Fixpoint unwatch_loop i (wks : list watchedKey) (w : gmap watchedKey (list nat))
    : option (gmap watchedKey (list nat)) :=
  match wks with
  | [] => Some w
  | wk :: wks =>
      let! l := w !! wk in
      let! l := del_client i l in
      unwatch_loop i wks (match l with [] => delete wk w | _ => <[wk := l]> w end)
  end.

Definition unwatchAllKeys i s : option (mserver St) :=
  let! c := clients s !! i in
  let! w := unwatch_loop i (watched_keys c) (watched s) in
  Some (upd i (set_watched_keys []) (mkMServer (clients s) w (history s) (engine s))).

Definition touchWatchedKey (wk : watchedKey) s : mserver St :=
  match watched s !! wk with
  | None => s
  | Some l => fold_left (fun s i => upd i (mset CLIENT_DIRTY_CAS) s) l s
  end.

(** The test of [touchWatchedKeysOnFlush]: [dbid] is -1 for all databases. *)
Definition flush_hits (dbid : Z) (e : St) (wk : watchedKey) : bool :=
  ((dbid =? -1) || (wk.1 =? dbid)) && (match db_find e wk with Some _ => true | None => false end).

Definition touchWatchedKeysOnFlush (dbid : Z) s : mserver St :=
  let touch c :=
    fold_left (fun c wk => if flush_hits dbid (engine s) wk then mset CLIENT_DIRTY_CAS c else c)
      (watched_keys c) c in
  mkMServer (touch <$> clients s) (watched s) (history s) (engine s).

(** What a signal does, in the state in which it is sent; a background task has no client. *)
Definition apply_effect (who : option nat) s (p : St * effect) : mserver St :=
  let s := mkMServer (clients s) (watched s) (history s) p.1 in
  match p.2 with
  | Modified wk => touchWatchedKey wk s
  | Flushed dbid => touchWatchedKeysOnFlush dbid s
  | Selected dbid => match who with Some i => upd i (set_mdb dbid) s | None => s end
  end.

(** The rest of the server changes to [e], with these signals on the way. *)
Definition perform (who : option nat) (tr : list (St * effect)) (e : St) s : mserver St :=
  let s' := fold_left (apply_effect who) tr s in
  mkMServer (clients s') (watched s') (history s ++ [Transition (engine s) tr e]) e.

(** ** Commands *)

Definition discardTransaction i s : option (mserver St) :=
  unwatchAllKeys i
    (upd i (fun c => mclear CLIENT_DIRTY_EXEC (mclear CLIENT_DIRTY_CAS (mclear CLIENT_MULTI
              (initClientMultiState c)))) s).

Definition multiCommand i s : option (mserver St) :=
  let! c := clients s !! i in
  if mhas c CLIENT_MULTI then Some (upd i (addReply multi_nested) s)
  else Some (upd i (fun c => addReply ok (mset CLIENT_MULTI c)) s).

Definition discardCommand i s : option (mserver St) :=
  let! c := clients s !! i in
  if negb (mhas c CLIENT_MULTI) then Some (upd i (addReply discard_without_multi) s)
  else let! s := discardTransaction i s in Some (upd i (addReply ok) s).

Fixpoint watch_loop i (keys : list bytes) s : option (mserver St) :=
  match keys with
  | [] => Some s
  | key :: keys => let! s := watchForKey i key s in watch_loop i keys s
  end.
Definition watchCommand i (argv : list bytes) s : option (mserver St) :=
  let! c := clients s !! i in
  if mhas c CLIENT_MULTI then Some (upd i (addReply watch_inside_multi) s)
  else let! s := watch_loop i (tail argv) s in Some (upd i (addReply ok) s).

Definition unwatchCommand i s : option (mserver St) :=
  let! s := unwatchAllKeys i s in
  Some (upd i (fun c => addReply ok (mclear CLIENT_DIRTY_CAS c)) s).

(** [c->cmd->proc(c)] for a command that may be queued; the four commands that are never
    queued have no case here. *)
Definition call_simple i (mc : multiCmd) s : option (mserver St) :=
  match cmd_proc (mc_cmd mc) with
  | unwatchProc => unwatchCommand i s
  | otherProc _ =>
      let! c := clients s !! i in
      let '(tr, e) := call_proc i (mdb c) mc (engine s) in
      Some (perform (Some i) tr e s)
  | _ => None
  end.

(** The loop of [execCommand]; the flag is [must_propagate]. *)
Fixpoint exec_loop i (cmds : list multiCmd) (must_propagate : bool) s : option (bool * mserver St) :=
  match cmds with
  | [] => Some (must_propagate, s)
  | mc :: cmds =>
      let! c := clients s !! i in
      let flags := cmd_flags_of (mc_cmd mc) in
      let '(must_propagate, s) :=
        if negb must_propagate && negb (loading (engine s)) &&
           negb (Z.testbit flags CMD_READONLY || Z.testbit flags CMD_ADMIN)
        then (true, set_engine (propagate_multi (mdb c) (engine s)) s)
        else (must_propagate, s) in
      let! s :=
        (if negb (acl_ok (engine s) i mc) then
           Some (upd i (addReply noperm) (set_engine (addACLLogEntry i mc (engine s)) s))
         else call_simple i mc s) in
      exec_loop i cmds must_propagate s
  end.

Definition handle_monitor i s : mserver St := set_engine (feed_monitors i (engine s)) s.

Definition execCommand i s : option (mserver St) :=
  let was_master := is_master (engine s) in
  let! c := clients s !! i in
  if negb (mhas c CLIENT_MULTI) then Some (upd i (addReply exec_without_multi) s) else
  if mhas c CLIENT_DIRTY_CAS || mhas c CLIENT_DIRTY_EXEC then
    let s := upd i (addReply (if mhas c CLIENT_DIRTY_EXEC then execaborterr else nullarray)) s in
    let! s := discardTransaction i s in
    Some (handle_monitor i s)
  else
    let! s := unwatchAllKeys i s in
    let s := upd i (addReply (array_len (zlen (commands c)))) s in
    let! (must_propagate, s) := exec_loop i (commands c) false s in
    let! s := discardTransaction i s in
    let s := if must_propagate : bool then
        let e := incr_dirty (engine s) in
        set_engine (if has_backlog e && was_master && negb (is_master e) then feed_backlog_exec e else e) s
      else s in
    Some (handle_monitor i s).

Definition execCommandAbort i s : option (mserver St) :=
  let! s := discardTransaction i s in
  Some (handle_monitor i (upd i (addReply execabort_because) s)).

(** ** Dispatch (server.c) *)

(** The end of [processCommand]. *)
Definition dispatch i (mc : multiCmd) s : option (mserver St) :=
  let! c := clients s !! i in
  let p := cmd_proc (mc_cmd mc) in
  if mhas c CLIENT_MULTI && negb (bool_decide (p = execProc)) && negb (bool_decide (p = discardProc)) &&
     negb (bool_decide (p = multiProc)) && negb (bool_decide (p = watchProc))
  then Some (upd i (fun c => addReply queued (queueMultiCommand mc c)) s)
  else
    match p with
    | multiProc => multiCommand i s
    | execProc => execCommand i s
    | discardProc => discardCommand i s
    | watchProc => watchCommand i (mc_argv mc) s
    | unwatchProc | otherProc _ => call_simple i mc s
    end.

Definition rejectCommand i (mc : multiCmd) s : option (mserver St) :=
  let! _ := clients s !! i in
  let s := upd i flagTransaction s in
  if decide (cmd_proc (mc_cmd mc) = execProc) then execCommandAbort i s
  else Some (upd i (addReply rejected) s).

(** What happens to the server: a client sends a command, which is executed or rejected; a
    client connects (with a fresh id) or is freed; a background task changes the rest of the
    server. *)
Inductive event :=
| Command (i : nat) (mc : multiCmd)
| Rejected (i : nat) (mc : multiCmd)
| Connected (i : nat)
| Freed (i : nat)
| Background (tr : list (St * effect)) (e : St).

Definition newClient : mclient := mkMClient 0 0 [] 0 0 [] [].

Definition step (ev : event) s : option (mserver St) :=
  match ev with
  | Command i mc => dispatch i mc s
  | Rejected i mc => rejectCommand i mc s
  | Connected i =>
      match clients s !! i with
      | Some _ => None
      | None => Some (mkMServer (<[i := newClient]> (clients s)) (watched s) (history s) (engine s))
      end
  | Freed i =>
      let! s := unwatchAllKeys i s in
      Some (mkMServer (delete i (clients s)) (watched s) (history s) (engine s))
  | Background tr e => Some (perform None tr e s)
  end.

Fixpoint run_events (evs : list event) s : option (mserver St) :=
  match evs with
  | [] => Some s
  | ev :: evs => let! s := step ev s in run_events evs s
  end.
End Multi.
Arguments event : clear implicits.
