(* ===== verification/MultiFacts.v ===== *)
(** * Invariant of the watched keys, and what each operation does to the locks *)

From Stdlib Require Import ZArith Lia.
From stdpp Require Import base numbers option gmap list sets.
From S2P Require Import Prelude Memory Server Multi.

Local Open Scope Z_scope.
Local Open Scope redis_scope.

(** ** Flags *)

Lemma mhas_set_same c f : 0 <= f -> mhas (mset f c) f = true.
Proof. apply (Z.setbit_eq (mflags c) f). Qed.
Lemma mhas_set c f g : 0 <= f -> f <> g -> mhas (mset f c) g = mhas c g.
Proof. intros Hf Hfg. unfold mhas, mset. cbn [mflags set_mflags]. by rewrite Z.setbit_eqb, (proj2 (Z.eqb_neq f g)). Qed.
Lemma mhas_clear_same c f : mhas (mclear f c) f = false.
Proof. unfold mhas, mclear. cbn [mflags set_mflags]. by rewrite Z.clearbit_eqb, Z.eqb_refl, andb_false_r. Qed.
Lemma mhas_clear c f g : f <> g -> mhas (mclear f c) g = mhas c g.
Proof.
  intros Hfg. unfold mhas, mclear. cbn [mflags set_mflags].
  by rewrite Z.clearbit_eqb, (proj2 (Z.eqb_neq f g)), andb_true_r.
Qed.

(** ** The invariant *)

(** The commands that may be queued. *)
Definition queueable (mc : multiCmd) : Prop :=
  match cmd_proc (mc_cmd mc) with unwatchProc | otherProc _ => True | _ => False end.

(** Outside MULTI the queue is empty and not flagged. *)
Definition client_ok (c : mclient) : Prop :=
  NoDup (watched_keys c) /\ Forall queueable (commands c) /\
  (mhas c CLIENT_MULTI = false -> commands c = [] /\ mhas c CLIENT_DIRTY_EXEC = false).

(** The clients listed for a key. *)
Definition members (w : gmap watchedKey (list nat)) (wk : watchedKey) : list nat := default [] (w !! wk).
Definition table_ok (w : gmap watchedKey (list nat)) : Prop :=
  forall wk l, w !! wk = Some l -> NoDup l /\ l <> [].

Section Spec.
Context {St : Type} `{Engine St}.
Implicit Types (s : mserver St) (c : mclient) (i : nat).

Definition watches s i (wk : watchedKey) : Prop :=
  exists c, clients s !! i = Some c /\ wk ∈ watched_keys c.

(** The two directions of the table agree. *)
Record wf s : Prop := {
  wf_table : table_ok (watched s);
  wf_agree : forall wk i, i ∈ members (watched s) wk <-> watches s i wk;
  wf_clients : forall i c, clients s !! i = Some c -> client_ok c }.

Lemma members_NoDup w wk : table_ok w -> NoDup (members w wk).
Proof. unfold members. intros Hw. destruct (w !! wk) eqn:E; [by apply (Hw _ _ E)|constructor]. Qed.

(** ** What a step does to the locks of a client *)

(** A signal sent in the state [e] concerns a key: the key is reported as modified, or it is there and
    its database or all of them are going to be emptied. *)
Definition concerns (e : St) (ev : effect) (wk : watchedKey) : Prop :=
  match ev with
  | Modified k => k = wk
  | Flushed d => (d = -1 \/ d = wk.1) /\ is_Some (db_find e wk)
  | Selected _ => False
  end.
Definition signalled (tr : list (St * effect)) (wk : watchedKey) : Prop := exists e ev, (e, ev) ∈ tr /\ concerns e ev wk.
Definition touched (h : list (transition St)) (wk : watchedKey) : Prop := exists t, t ∈ h /\ signalled (signals t) wk.

(** The changes lead from one state to the other. *)
Fixpoint chain (e : St) (h : list (transition St)) (e' : St) : Prop :=
  match h with
  | [] => e' = e
  | t :: h => before t = e /\ chain (after t) h e'
  end.

Lemma signalled_nil wk : ~ signalled [] wk.
Proof. by intros (? & ? & ?%elem_of_nil & _). Qed.
Lemma signalled_cons e ev tr wk : signalled ((e, ev) :: tr) wk <-> concerns e ev wk \/ signalled tr wk.
Proof. unfold signalled. setoid_rewrite elem_of_cons. naive_solver. Qed.
Lemma touched_nil wk : ~ touched [] wk.
Proof. by intros (? & ?%elem_of_nil & _). Qed.
Lemma touched_app h1 h2 wk : touched (h1 ++ h2) wk <-> touched h1 wk \/ touched h2 wk.
Proof. unfold touched. setoid_rewrite elem_of_app. naive_solver. Qed.
Lemma touched_one t wk : touched [t] wk <-> signalled (signals t) wk.
Proof. unfold touched. setoid_rewrite list_elem_of_singleton. naive_solver. Qed.
Lemma chain_app e1 h1 e2 h2 e3 : chain e1 h1 e2 -> chain e2 h2 e3 -> chain e1 (h1 ++ h2) e3.
Proof. revert e1. induction h1 as [|t h1 IH]; intros e1; [by intros ->|]. intros [? ?] ?. split; eauto. Qed.

(** [obs i s s']: client [i] keeps its watched keys, and is flagged exactly when it was before or
    one of its keys was touched meanwhile. *)
Definition obs i s s' : Prop :=
  exists new, history s' = history s ++ new /\ chain (engine s) new (engine s') /\
  forall c, clients s !! i = Some c -> exists c', clients s' !! i = Some c' /\
    (forall wk, wk ∈ watched_keys c -> wk ∈ watched_keys c') /\
    (mhas c CLIENT_DIRTY_CAS = true -> mhas c' CLIENT_DIRTY_CAS = true) /\
    (forall wk, wk ∈ watched_keys c -> touched new wk -> mhas c' CLIENT_DIRTY_CAS = true) /\
    (mhas c' CLIENT_DIRTY_CAS = true ->
       mhas c CLIENT_DIRTY_CAS = true \/ exists wk, wk ∈ watched_keys c' /\ touched new wk).

(** The locks of the client do not change, and neither does the rest of the server. *)
Lemma obs_same i s s' :
  history s' = history s -> engine s' = engine s ->
  (forall c, clients s !! i = Some c -> exists c', clients s' !! i = Some c' /\
    (forall wk, wk ∈ watched_keys c -> wk ∈ watched_keys c') /\ mhas c' CLIENT_DIRTY_CAS = mhas c CLIENT_DIRTY_CAS) -> obs i s s'.
Proof.
  intros Hh He Hc. exists []. split_and!; [by rewrite app_nil_r|done|]. intros c Hi. destruct (Hc c Hi) as (c' & Hi' & Hk & Hd).
  exists c'. rewrite Hd. split_and!; auto. by intros wk _ ?%touched_nil.
Qed.

Lemma obs_refl i s : obs i s s.
Proof. apply obs_same; eauto. Qed.

Lemma obs_trans i s1 s2 s3 : obs i s1 s2 -> obs i s2 s3 -> obs i s1 s3.
Proof.
  intros (n1 & Hm1 & Hc1 & H1) (n2 & Hm2 & Hc2 & H2). exists (n1 ++ n2).
  split_and!; [by rewrite Hm2, Hm1, app_assoc|by eapply chain_app|].
  intros c Hc. destruct (H1 c Hc) as (c2 & Hi2 & Hw2 & Hd2 & Ht2 & Hb2).
  destruct (H2 c2 Hi2) as (c3 & Hi3 & Hw3 & Hd3 & Ht3 & Hb3). exists c3. split_and!; auto.
  - intros wk Hwk [Hn | Hn]%touched_app; eauto.
  - intros [Hx | (wk & Hwk & Hn)]%Hb3.
    + destruct (Hb2 Hx) as [? | (wk & Hwk & Hn)]; [by left|right]. exists wk. split; [auto|apply touched_app; auto].
    + right. exists wk. split; [done|apply touched_app; auto].
Qed.

(** A step of the server that is harmless for the locks of the clients in [P]. *)
Definition gstep (P : nat -> Prop) s s' : Prop :=
  wf s' /\ dom (clients s') = dom (clients s) /\ forall i, P i -> obs i s s'.

Lemma gstep_refl P s : wf s -> gstep P s s.
Proof. intros Hw. split_and!; auto using obs_refl. Qed.
Lemma gstep_trans P s1 s2 s3 : gstep P s1 s2 -> gstep P s2 s3 -> gstep P s1 s3.
Proof.
  intros (_ & Hd1 & Ho1) (Hw & Hd2 & Ho2). split_and!; [done|congruence|].
  intros i Hi. eapply obs_trans; auto.
Qed.
Lemma gstep_weaken (P Q : nat -> Prop) s s' : (forall i, Q i -> P i) -> gstep P s s' -> gstep Q s s'.
Proof. intros HPQ (? & ? & Ho). split_and!; auto. Qed.
Lemma gstep_client P s s' i c : gstep P s s' -> clients s !! i = Some c -> exists c', clients s' !! i = Some c'.
Proof.
  intros (_ & Hd & _) Hc. assert (i ∈ dom (clients s')) as Hi by (rewrite Hd; apply elem_of_dom; eauto).
  apply elem_of_dom in Hi as [c' ?]. eauto.
Qed.

(** ** Primitive steps *)

Lemma lookup_upd s i j f : clients (upd i f s) !! j = if decide (i = j) then f <$> clients s !! j else clients s !! j.
Proof.
  unfold upd. cbn [clients]. rewrite lookup_alter. case_decide; by subst.
Qed.

(** A change of one client outside its watched keys. *)
Lemma upd_gstep s i f (P : nat -> Prop) :
  wf s -> (forall c, watched_keys (f c) = watched_keys c) ->
  (forall c, clients s !! i = Some c -> client_ok c -> client_ok (f c)) ->
  (P i -> forall c, mhas (f c) CLIENT_DIRTY_CAS = mhas c CLIENT_DIRTY_CAS) ->
  gstep P s (upd i f s).
Proof.
  intros [Ht Ha Hc] Hf Hok Hd. split_and!.
  - split; [done| |].
    + intros wk j. cbn [watched upd]. rewrite Ha. unfold watches. rewrite lookup_upd.
      case_decide; [subst|done]. destruct (clients s !! j) as [c|]; simpl; [|naive_solver].
      split; intros (c' & [= <-] & Hw); eexists; (split; [done|]); [by rewrite Hf|by rewrite Hf in Hw].
    + intros j c. rewrite lookup_upd. case_decide; [subst|apply Hc].
      destruct (clients s !! j) as [c0|] eqn:E; [|done]. intros [= <-]. eauto.
  - unfold upd. cbn [clients]. apply dom_alter_L.
  - intros j Hj. apply obs_same; [done|done|]. intros c Hcj. rewrite lookup_upd, Hcj.
    case_decide; cbn [fmap option_fmap option_map]; (eexists; split; [done|]); [subst; rewrite Hf; split; auto|done].
Qed.

(** A change of the rest of the server only. *)
Lemma engine_gstep s e P : wf s -> gstep P s (set_engine e s).
Proof.
  intros [Ht Ha Hc]. split_and!; [by split|done|]. intros i _. eexists. split_and!; [done|done|]. intros c Hi. exists c. split_and!; auto.
  intros wk _ []%touched_one%signalled_nil.
Qed.

(** ** Touching keys *)

(** [c'] is [c] with the dirty flag raised when [b]. *)
Definition marked (b : bool) c c' : Prop :=
  watched_keys c' = watched_keys c /\ commands c' = commands c /\
  mhas c' CLIENT_DIRTY_CAS = b || mhas c CLIENT_DIRTY_CAS /\
  forall f, f <> CLIENT_DIRTY_CAS -> mhas c' f = mhas c f.

Lemma marked_refl c : marked false c c.
Proof. done. Qed.
Lemma marked_set c : marked true c (mset CLIENT_DIRTY_CAS c).
Proof. split_and!; try done; [by apply mhas_set_same|]. intros f Hf. by apply mhas_set. Qed.
Lemma marked_trans b1 b2 c1 c2 c3 : marked b1 c1 c2 -> marked b2 c2 c3 -> marked (b1 || b2) c1 c3.
Proof.
  intros (Hw1 & Hc1 & Hd1 & Hf1) (Hw2 & Hc2 & Hd2 & Hf2).
  split_and!; try congruence. rewrite Hd2, Hd1. destruct b1, b2; done.
  intros f Hf. by rewrite Hf2, Hf1.
Qed.
Lemma marked_ok b c c' : marked b c c' -> client_ok c -> client_ok c'.
Proof.
  intros (Hw & Hcmd & _ & Hf) (H1 & H2 & H3). unfold client_ok. rewrite Hw, Hcmd. split_and!; [done|done|].
  intros Hm. rewrite Hf in Hm |- * by done. auto.
Qed.

(** All clients are marked that watch one of the keys in [hit], and only they. *)
Definition marks (hit : watchedKey -> Prop) s s' : Prop :=
  watched s' = watched s /\ history s' = history s /\ dom (clients s') = dom (clients s) /\
  forall i c, clients s !! i = Some c -> exists c' b, clients s' !! i = Some c' /\ marked b c c' /\
    (b = true <-> exists wk, wk ∈ watched_keys c /\ hit wk).

Lemma marks_iff (hit hit' : watchedKey -> Prop) s s' : (forall wk, hit wk <-> hit' wk) -> marks hit s s' -> marks hit' s s'.
Proof. unfold marks. intros Hh. by setoid_rewrite Hh. Qed.
Lemma marks_trans (h1 h2 : watchedKey -> Prop) s1 s2 s3 : marks h1 s1 s2 -> marks h2 s2 s3 -> marks (fun wk => h1 wk \/ h2 wk) s1 s3.
Proof.
  intros (Hw1 & Hm1 & Hd1 & H1) (Hw2 & Hm2 & Hd2 & H2). split_and!; [congruence..|]. intros i c Hi.
  destruct (H1 i c Hi) as (c2 & b1 & Hi2 & Hk1 & Hb1). destruct (H2 i c2 Hi2) as (c3 & b2 & Hi3 & Hk2 & Hb2).
  exists c3, (b1 || b2). split_and!; [done|by eapply marked_trans|]. destruct Hk1 as (Hw & _). rewrite Hw in Hb2.
  rewrite orb_true_iff, Hb1, Hb2. naive_solver.
Qed.
Lemma marks_wf hit s s' : wf s -> marks hit s s' -> wf s'.
Proof.
  intros [Ht Ha Hc] (Hwt & _ & Hd & Hcl).
  assert (forall i c', clients s' !! i = Some c' -> exists c b, clients s !! i = Some c /\ marked b c c') as Hback.
  { intros i c' Hi. assert (i ∈ dom (clients s)) as Hin by (rewrite <- Hd; apply elem_of_dom; eauto).
    apply elem_of_dom in Hin as [c Hci]. destruct (Hcl i c Hci) as (c2 & b & Hc2 & Hmk & _). simplify_eq. eauto. }
  split; [by rewrite Hwt| |].
  - intros wk i. rewrite Hwt, Ha. unfold watches. split.
    + intros (c & Hci & Hw). destruct (Hcl i c Hci) as (c' & b & Hc' & (Hwk & _) & _). exists c'. by rewrite Hwk.
    + intros (c' & Hci & Hw). destruct (Hback i c' Hci) as (c & b & ? & (Hwk & _)). exists c. by rewrite <- Hwk.
  - intros i c' Hi. destruct (Hback i c' Hi) as (c & b & Hci & Hmk). eapply marked_ok; eauto.
Qed.

Lemma fold_touch l s :
  NoDup l ->
  let s' := fold_left (fun s i => upd i (mset CLIENT_DIRTY_CAS) s) l s in
  watched s' = watched s /\ history s' = history s /\ engine s' = engine s /\
  forall j, clients s' !! j = if decide (j ∈ l) then mset CLIENT_DIRTY_CAS <$> clients s !! j else clients s !! j.
Proof.
  intros Hl. revert s. induction Hl as [|i l Hi Hl IH]; intros s; cbn [fold_left].
  { split_and!; try done. }
  destruct (IH (upd i (mset CLIENT_DIRTY_CAS) s)) as (-> & -> & -> & Hj). split_and!; try done.
  intros j. rewrite Hj, lookup_upd. destruct (decide (i = j)) as [-> | Hne].
  - rewrite decide_False by done. by rewrite decide_True by constructor.
  - destruct (decide (j ∈ l)) as [Hin | Hn].
    + by rewrite decide_True by by constructor.
    + rewrite decide_False; [done|]. rewrite elem_of_cons. naive_solver.
Qed.

Lemma touch_marks s wk : wf s -> marks (fun wk' => wk = wk') s (touchWatchedKey wk s).
Proof.
  intros Hw. pose proof Hw as [Ht Ha Hc]. unfold touchWatchedKey.
  assert (NoDup (members (watched s) wk)) as Hnd by by apply members_NoDup.
  replace (match watched s !! wk with
    | Some l => fold_left (fun s0 i => upd i (mset CLIENT_DIRTY_CAS) s0) l s
    | None => s end)
  with (fold_left (fun s0 i => upd i (mset CLIENT_DIRTY_CAS) s0) (members (watched s) wk) s)
    by (unfold members; by destruct (watched s !! wk)).
  destruct (fold_touch (members (watched s) wk) s Hnd) as (Hwt & Hm & _ & Hj). set (s' := fold_left _ _ s) in *.
  split_and!; [done|done| |].
  - apply set_eq. intros j. rewrite !elem_of_dom, Hj. case_decide; [by rewrite fmap_is_Some|done].
  - intros i c Hi. rewrite Hj, Hi. case_decide as Hin.
    + exists (mset CLIENT_DIRTY_CAS c), true. split_and!; [done|apply marked_set|]. split; [|done]. intros _.
      apply Ha in Hin as (c' & ? & ?). simplify_eq. by exists wk.
    + exists c, false. split_and!; [done|apply marked_refl|]. split; [done|]. intros (wk' & Hk & <-).
      destruct Hin. apply Ha. by exists c.
Qed.

Lemma flush_marked (hit : watchedKey -> bool) l c :
  let c' := fold_left (fun c wk => if hit wk then mset CLIENT_DIRTY_CAS c else c) l c in
  marked (existsb hit l) c c'.
Proof.
  revert c. induction l as [|wk l IH]; intros c; cbn [fold_left existsb]; [apply marked_refl|].
  destruct (hit wk); [|apply IH]. eapply marked_trans; [apply marked_set|apply IH].
Qed.

Lemma flush_marks s dbid : marks (concerns (engine s) (Flushed dbid)) s (touchWatchedKeysOnFlush dbid s).
Proof.
  unfold touchWatchedKeysOnFlush. split_and!; [done|done|apply dom_fmap_L|].
  intros i c Hi. cbn [clients]. rewrite lookup_fmap, Hi. simpl. eexists _, _. split_and!; [done|apply flush_marked|].
  rewrite existsb_exists. setoid_rewrite <- list_elem_of_In. apply exist_proper. intros wk. f_equiv. unfold flush_hits.
  rewrite andb_true_iff, orb_true_iff, !Z.eqb_eq. destruct (db_find (engine s) wk) as [v|].
  - split; [intros [[?|?] _]; (split; [auto|by eexists])|naive_solver].
  - split; [naive_solver|]. by intros [_ [? ?]].
Qed.

Lemma effect_marks who s e ev : wf s -> marks (concerns e ev) s (apply_effect who s (e, ev)).
Proof.
  intros Hw. unfold apply_effect. cbn [fst snd]. set (s1 := mkMServer _ _ _ _).
  assert (wf s1) as Hw1 by (destruct Hw; by split).
  assert (forall hit s2, marks hit s1 s2 -> marks hit s s2) as Hs by done.
  destruct ev as [wk | dbid | dbid]; [by apply Hs, touch_marks|apply Hs, (flush_marks s1)|].
  assert (forall f, (forall c, marked false c (f c)) -> marks (fun _ => False) s (default s1 ((fun i => upd i f s1) <$> who))) as Hu.
  { intros f Hf. destruct who as [i|]; simpl; (split_and!; [done|done|try apply dom_alter_L; done|]); intros j c Hj.
    - rewrite lookup_upd. cbn [clients s1]. rewrite Hj. case_decide; (eexists _, false; split_and!; [done|done|naive_solver]).
    - exists c, false. split_and!; [done|done|naive_solver]. }
  specialize (Hu (set_mdb dbid) (fun c => marked_refl c)). by destruct who.
Qed.

Lemma effects_marks who tr s : wf s -> marks (signalled tr) s (fold_left (apply_effect who) tr s).
Proof.
  revert s. induction tr as [|[e ev] tr IH]; intros s Hw; cbn [fold_left].
  - split_and!; try done. intros i c Hi. exists c, false. split_and!; [done|done|]. split; [done|]. by intros (wk & _ & ?%signalled_nil).
  - pose proof (effect_marks who s e ev Hw) as H1. pose proof (IH _ (marks_wf _ _ _ Hw H1)) as H2.
    eapply marks_iff; [|by eapply marks_trans]. intros wk. by rewrite signalled_cons.
Qed.

Lemma perform_gstep who tr e s P : wf s -> gstep P s (perform who tr e s).
Proof.
  intros Hw. pose proof (effects_marks who tr s Hw) as Hm. pose proof (marks_wf _ _ _ Hw Hm) as Hw'. unfold perform. set (s' := fold_left _ _ _) in *.
  destruct Hm as (_ & _ & Hd & Hcl). split_and!; [destruct Hw'; by split|done|].
  intros i _. eexists. split_and!; [done|done|]. intros c Hi. destruct (Hcl i c Hi) as (c' & b & Hi' & (Hwk & _ & Hdc & _) & Hb).
  exists c'. rewrite Hwk, Hdc. setoid_rewrite touched_one. cbn [signals]. split_and!; [done|auto|..].
  - intros ->. apply orb_true_r.
  - intros wk Hin Hn. rewrite (proj2 Hb); [done|eauto].
  - intros [-> | ?]%orb_true_iff; [right; by apply Hb|by left].
Qed.

(** ** Watching and unwatching *)

Lemma watchForKey_gstep i key s c :
  wf s -> clients s !! i = Some c ->
  exists s' w, watchForKey i key s = Some s' /\ gstep (fun _ => True) s s' /\ engine s' = engine s /\
    clients s' !! i = Some (set_watched_keys w c) /\
    (forall wk, wk ∈ w <-> wk ∈ watched_keys c \/ wk = (mdb c, key)).
Proof.
  intros Hw Hi. pose proof Hw as [Ht Ha Hc]. unfold watchForKey. rewrite Hi. mstep. set (wk := (mdb c, key)).
  case_decide as Hin.
  { exists s, (watched_keys c). split_and!; [done|by apply gstep_refl|done|by destruct c|]. naive_solver. }
  eexists _, (watched_keys c ++ [wk]). split; [done|]. set (s1 := mkMServer _ _ _ _).
  assert (clients (upd i (fun c => set_watched_keys (watched_keys c ++ [wk]) c) s1) !! i =
    Some (set_watched_keys (watched_keys c ++ [wk]) c)) as Hi'.
  { rewrite lookup_upd, decide_True by done. cbn [clients s1]. by rewrite Hi. }
  assert (forall wk', wk' ∈ watched_keys c ++ [wk] <-> wk' ∈ watched_keys c \/ wk' = wk) as Hel.
  { intros wk'. by rewrite elem_of_app, list_elem_of_singleton. }
  assert (forall wk', members (<[wk := default [] (watched s !! wk) ++ [i]]> (watched s)) wk' =
    if decide (wk' = wk) then members (watched s) wk ++ [i] else members (watched s) wk') as Hmem.
  { intros wk'. unfold members. case_decide; [subst; by rewrite lookup_insert_eq|by rewrite lookup_insert_ne]. }
  split_and!; [|done|done|done]. split_and!.
  - split; cbn [watched upd s1].
    + intros wk' l Hl. destruct (decide (wk' = wk)) as [-> | Hne].
      * rewrite lookup_insert_eq in Hl. injection Hl as <-. fold (members (watched s) wk). split; [|by destruct (members (watched s) wk)].
        apply NoDup_app. split; [by apply members_NoDup|]. split; [|apply NoDup_singleton].
        intros j Hj ->%list_elem_of_singleton. apply Ha in Hj as (c' & ? & ?). by simplify_eq.
      * rewrite lookup_insert_ne in Hl by done. by apply (Ht wk').
    + intros wk' j. rewrite Hmem. unfold watches. rewrite lookup_upd. cbn [clients s1].
      destruct (decide (i = j)) as [<- | Hne].
      * rewrite Hi. simpl. split.
        -- intros Hj. eexists. split; [done|]. cbn [watched_keys set_watched_keys]. apply Hel.
           case_decide; [by right|left]. apply Ha in Hj as (c' & ? & ?). by simplify_eq.
        -- intros (c' & [= <-] & Hk). cbn [watched_keys set_watched_keys] in Hk. apply Hel in Hk.
           case_decide; [apply elem_of_app; right; by apply list_elem_of_singleton|].
           destruct Hk; [|done]. apply Ha. by exists c.
      * rewrite <- (Ha wk' j). case_decide; [subst wk'|done]. rewrite elem_of_app, list_elem_of_singleton. naive_solver.
    + intros j c'. rewrite lookup_upd. cbn [clients s1]. case_decide; [subst j|by apply Hc].
      rewrite Hi. intros [= <-]. destruct (Hc i c Hi) as (H1 & H2 & H3). split_and!; [|done|done].
      cbn [watched_keys set_watched_keys]. apply NoDup_app. split; [done|]. split; [|apply NoDup_singleton].
      by intros wk' Hk ->%list_elem_of_singleton.
  - unfold upd. cbn [clients s1]. apply dom_alter_L.
  - intros j _. apply obs_same; [done|done|]. intros cj Hj. rewrite lookup_upd. cbn [clients s1]. rewrite Hj.
    destruct (decide (i = j)) as [<- | Hne]; cbn [fmap option_fmap option_map]; (eexists; split; [done|]); [split; [|done]|done].
    intros wk' Hk. cbn [watched_keys set_watched_keys]. apply elem_of_app. by left.
Qed.

Lemma del_client_spec i l :
  NoDup l -> i ∈ l -> exists l', del_client i l = Some l' /\ NoDup l' /\ (forall j, j ∈ l' <-> j ∈ l /\ j <> i).
Proof.
  intros Hl Hi. induction Hl as [|j l Hj Hl IH]; [by apply elem_of_nil in Hi|]. cbn [del_client].
  case_decide as Hij.
  - subst j. exists l. split_and!; [done|done|]. intros j. rewrite elem_of_cons. naive_solver.
  - destruct IH as (l' & -> & Hnd & Hl'); [apply elem_of_cons in Hi as [? | ?]; done|]. mstep. exists (j :: l').
    split_and!; [done| |].
    + constructor; [|done]. rewrite Hl'. naive_solver.
    + intros k. rewrite !elem_of_cons, Hl'. naive_solver.
Qed.

Lemma unwatch_loop_spec i wks w :
  NoDup wks -> table_ok w -> (forall wk, wk ∈ wks -> i ∈ members w wk) ->
  exists w', unwatch_loop i wks w = Some w' /\ table_ok w' /\
    forall wk j, j ∈ members w' wk <-> j ∈ members w wk /\ ~ (j = i /\ wk ∈ wks).
Proof.
  intros Hnd. revert w. induction Hnd as [|wk wks Hwk Hnd IH]; intros w Ht Hin; cbn [unwatch_loop].
  { exists w. split_and!; [done|done|]. intros wk j. rewrite elem_of_nil. naive_solver. }
  assert (i ∈ members w wk) as Hi by (apply Hin; constructor). unfold members in Hi.
  destruct (w !! wk) as [l|] eqn:El; [|by apply elem_of_nil in Hi]. mstep. simpl in Hi.
  destruct (Ht wk l El) as [Hl _]. destruct (del_client_spec i l Hl Hi) as (l' & -> & Hnd' & Hl'). mstep.
  set (w1 := match l' with [] => delete wk w | _ => <[wk := l']> w end).
  assert (forall wk', w1 !! wk' = if decide (wk' = wk) then match l' with [] => None | _ => Some l' end else w !! wk') as Hw1.
  { intros wk'. subst w1. destruct l'; case_decide; subst;
      rewrite ?lookup_delete_eq, ?lookup_insert_eq, ?lookup_delete_ne, ?lookup_insert_ne by done; done. }
  assert (forall wk' j, j ∈ members w1 wk' <-> j ∈ members w wk' /\ ~ (j = i /\ wk' = wk)) as Hm1.
  { intros wk' j. unfold members. rewrite Hw1. case_decide as Hk; [subst; rewrite El|naive_solver].
    transitivity (j ∈ l'); [by destruct l'|]. simpl. rewrite Hl'. naive_solver. }
  destruct (IH w1) as (w' & -> & Ht' & Hm').
  - intros wk' l1. rewrite Hw1. case_decide; [|by apply Ht]. destruct l'; [done|]. by intros [= <-].
  - intros wk' Hk. apply Hm1. split; [apply Hin; by constructor|]. intros [_ ->]. done.
  - exists w'. split_and!; [done|done|]. intros wk' j. rewrite Hm', Hm1, elem_of_cons. naive_solver.
Qed.

Lemma unwatchAllKeys_gstep i s c :
  wf s -> clients s !! i = Some c ->
  exists s', unwatchAllKeys i s = Some s' /\ gstep (fun j => j <> i) s s' /\ engine s' = engine s /\
    history s' = history s /\ clients s' !! i = Some (set_watched_keys [] c) /\
    (forall j, members (watched s') j ⊆ members (watched s) j) /\
    (forall wk, i ∉ members (watched s') wk).
Proof.
  intros Hw Hi. pose proof Hw as [Ht Ha Hc]. unfold unwatchAllKeys. rewrite Hi. mstep.
  destruct (Hc i c Hi) as (Hnd & Hq & Hm).
  destruct (unwatch_loop_spec i (watched_keys c) (watched s)) as (w' & -> & Ht' & Hw'); [done|done| |].
  { intros wk Hk. apply Ha. by exists c. }
  mstep. eexists. split; [done|]. set (s1 := mkMServer _ _ _ _).
  assert (forall wk, i ∉ members w' wk) as Hout.
  { intros wk (Hin & Hn)%Hw'. apply Hn. split; [done|]. apply Ha in Hin as (c' & ? & ?). by simplify_eq. }
  assert (forall j, clients (upd i (set_watched_keys []) s1) !! j =
    if decide (i = j) then Some (set_watched_keys [] c) else clients s !! j) as Hcl.
  { intros j. rewrite lookup_upd. cbn [clients s1]. case_decide; [subst; by rewrite Hi|done]. }
  split_and!; try done; [|by rewrite Hcl, decide_True|by intros wk j (? & _)%Hw'].
  split_and!; [split|unfold upd; cbn [clients s1]; apply dom_alter_L|].
  - done.
  - intros wk j. cbn [watched upd s1]. unfold watches. rewrite Hcl. destruct (decide (i = j)) as [<- | Hne].
    + split; [by intros ?%Hout|]. intros (c' & [= <-] & Hk). by apply elem_of_nil in Hk.
    + rewrite Hw', Ha. unfold watches. naive_solver.
  - intros j cj. rewrite Hcl. case_decide; [|by apply Hc]. intros [= <-]. split_and!; [constructor|done|done].
  - intros j Hj. apply obs_same; [done|done|]. intros cj Hcj. rewrite Hcl, decide_False by done. by exists cj.
Qed.

(** ** Commands *)

(** The client after the end of a transaction. *)
Definition cleared c c' : Prop :=
  commands c' = [] /\ watched_keys c' = [] /\ mdb c' = mdb c /\ replies c' = replies c /\
  mhas c' CLIENT_MULTI = false /\ mhas c' CLIENT_DIRTY_CAS = false /\ mhas c' CLIENT_DIRTY_EXEC = false.

Lemma discardTransaction_gstep i s c :
  wf s -> clients s !! i = Some c ->
  exists s' c', discardTransaction i s = Some s' /\ gstep (fun j => j <> i) s s' /\ engine s' = engine s /\
    history s' = history s /\ clients s' !! i = Some c' /\ cleared c c'.
Proof.
  intros Hw Hi. unfold discardTransaction. set (f := fun c => mclear _ _). 
  assert (mhas (f c) CLIENT_MULTI = false /\ mhas (f c) CLIENT_DIRTY_CAS = false /\ mhas (f c) CLIENT_DIRTY_EXEC = false) as (H1 & H2 & H3).
  { subst f. cbn beta. rewrite !(mhas_clear _ _ CLIENT_MULTI) by done.
    rewrite (mhas_clear _ CLIENT_DIRTY_EXEC CLIENT_DIRTY_CAS) by done. by rewrite !mhas_clear_same. }
  assert (gstep (fun j => j <> i) s (upd i f s)) as Hg.
  { apply upd_gstep; [done|done| |done]. intros c0 Hc0 (Hn & _ & _). simplify_eq. split_and!; [done|constructor|]. done. }
  destruct (unwatchAllKeys_gstep i (upd i f s) (f c)) as (s' & -> & Hg' & He & Hm & Hi' & _); [apply Hg| |].
  { rewrite lookup_upd, decide_True, Hi by done. done. }
  exists s', (set_watched_keys [] (f c)). split_and!; try done. by eapply gstep_trans.
Qed.

(** The database selected by the effects of a command. *)
Definition selected (db : Z) (tr : list (St * effect)) : Z :=
  fold_left (fun d p => match p.2 with Selected d' => d' | _ => d end) tr db.

Lemma effect_client i e ev s c :
  wf s -> clients s !! i = Some c ->
  exists c', clients (apply_effect (Some i) s (e, ev)) !! i = Some c' /\ mdb c' = selected (mdb c) [(e, ev)].
Proof.
  intros Hw Hj. pose proof Hw as [Ht Ha Hc]. unfold apply_effect. cbn [fst snd]. destruct ev as [wk | dbid | dbid].
  - unfold touchWatchedKey. cbn [watched]. pose proof (members_NoDup (watched s) wk Ht) as Hnd. unfold members in Hnd.
    destruct (watched s !! wk) as [l|]; [|by exists c]. simpl in Hnd.
    destruct (fold_touch l (mkMServer (clients s) (watched s) (history s) e) Hnd) as (_ & _ & _ & ->).
    cbn [clients]. rewrite Hj. case_decide; by eexists.
  - unfold touchWatchedKeysOnFlush. cbn [clients engine]. rewrite lookup_fmap, Hj. eexists. split; [done|].
    generalize (watched_keys c). intros l. change (selected (mdb c) _) with (mdb c).
    assert (forall c0, mdb (fold_left (fun c wk => if flush_hits dbid e wk then mset CLIENT_DIRTY_CAS c else c) l c0) = mdb c0) as Hl; [|apply Hl].
    induction l as [|wk l IH]; intros c0; cbn [fold_left]; [done|]. rewrite IH. by destruct (flush_hits dbid e wk).
  - rewrite lookup_upd. cbn [clients]. rewrite Hj, decide_True by done. by eexists.
Qed.

Lemma effects_client i tr s c :
  wf s -> clients s !! i = Some c ->
  exists c', clients (fold_left (apply_effect (Some i)) tr s) !! i = Some c' /\ mdb c' = selected (mdb c) tr.
Proof.
  revert s c. induction tr as [|[e ev] tr IH]; intros s c Hw Hi; cbn [fold_left]; [eauto|].
  destruct (effect_client i e ev s c Hw Hi) as (c1 & Hi1 & Hdb).
  destruct (IH _ c1 (marks_wf _ _ _ Hw (effect_marks (Some i) s e ev Hw)) Hi1) as (c' & Hi' & Hdb').
  exists c'. split; [done|]. by rewrite Hdb', Hdb.
Qed.

Lemma unwatchCommand_gstep i s c :
  wf s -> clients s !! i = Some c ->
  exists s' c', unwatchCommand i s = Some s' /\ gstep (fun j => j <> i) s s' /\ engine s' = engine s /\
    clients s' !! i = Some c' /\ mdb c' = mdb c.
Proof.
  intros Hw Hi. unfold unwatchCommand.
  destruct (unwatchAllKeys_gstep i s c Hw Hi) as (s1 & -> & Hg & He & _ & Hi1 & _). mstep.
  eexists _, _. split; [done|]. split_and!; [|done|by rewrite lookup_upd, decide_True, Hi1 by done|done].
  eapply gstep_trans; [done|]. apply upd_gstep; [apply Hg|done| |done].
  intros c0 _ (H1 & H2 & H3). split_and!; [done|done|]. intros Hm.
  assert (mhas (addReply ok (mclear CLIENT_DIRTY_CAS c0)) CLIENT_MULTI = mhas c0 CLIENT_MULTI) as HM by by apply mhas_clear.
  rewrite HM in Hm. destruct (H3 Hm) as [? Hx]. split; [done|]. rewrite <- Hx. by apply mhas_clear.
Qed.

(** A command that may be queued. *)
Definition call_engine i (db : Z) (mc : multiCmd) (e : St) : Z * St :=
  match cmd_proc (mc_cmd mc) with
  | otherProc _ => let '(tr, e) := call_proc i db mc e in (selected db tr, e)
  | _ => (db, e)
  end.

Lemma call_simple_gstep i mc s c :
  wf s -> clients s !! i = Some c -> queueable mc ->
  exists s' c', call_simple i mc s = Some s' /\
    gstep (fun j => j = i -> cmd_proc (mc_cmd mc) <> unwatchProc) s s' /\
    clients s' !! i = Some c' /\ (mdb c', engine s') = call_engine i (mdb c) mc (engine s).
Proof.
  intros Hw Hi Hq. unfold call_simple, call_engine, queueable in *. destruct (cmd_proc (mc_cmd mc)) eqn:Ep; try done.
  - destruct (unwatchCommand_gstep i s c Hw Hi) as (s' & c' & -> & Hg & He & Hi' & Hdb). exists s', c'.
    split_and!; try done; [|by rewrite Hdb, He]. eapply gstep_weaken; [|done]. naive_solver.
  - rewrite Hi. mstep. destruct (call_proc i (mdb c) mc (engine s)) as [tr e].
    destruct (effects_client i tr s c Hw Hi) as (c' & Hi' & Hdb).
    eexists _, c'. split; [done|]. split_and!; [by apply perform_gstep|done|by rewrite Hdb].
Qed.
End Spec.
