(* ===== verification/MultiSpec.v ===== *)
(** * Contract of transactions: EXEC is a check-and-set on the watched keys *)

From Stdlib Require Import ZArith Lia.
From stdpp Require Import base numbers option gmap list sets.
From S2P Require Import Prelude Memory Server Multi MultiFacts.

Local Open Scope Z_scope.
Local Open Scope redis_scope.

Section Exec.
Context {St : Type} `{Engine St}.
Implicit Types (s : mserver St) (c : mclient) (i : nat).

(** ** Executing the queue *)

(** What the queue does to the rest of the server: the commands in order, those the ACLs
    refuse skipped, MULTI propagated before the first one that may write. *)
Fixpoint exec_engine i (db : Z) (cmds : list multiCmd) (must_propagate : bool) (e : St) : bool * St :=
  match cmds with
  | [] => (must_propagate, e)
  | mc :: cmds =>
      let flags := cmd_flags_of (mc_cmd mc) in
      let '(must_propagate, e) :=
        if negb must_propagate && negb (loading e) &&
           negb (Z.testbit flags CMD_READONLY || Z.testbit flags CMD_ADMIN)
        then (true, propagate_multi db e) else (must_propagate, e) in
      let '(db, e) :=
        if negb (acl_ok e i mc) then (db, addACLLogEntry i mc e) else call_engine i db mc e in
      exec_engine i db cmds must_propagate e
  end.

Lemma addReply_gstep i r s P : wf s -> gstep P s (upd i (addReply r) s).
Proof. intros Hw. by apply upd_gstep. Qed.

Lemma exec_loop_spec i cmds mp s c :
  wf s -> clients s !! i = Some c -> Forall queueable cmds ->
  exists mp' s' c', exec_loop i cmds mp s = Some (mp', s') /\ gstep (fun j => j <> i) s s' /\
    clients s' !! i = Some c' /\ (mp', engine s') = exec_engine i (mdb c) cmds mp (engine s).
Proof.
  intros Hw Hi Hq. revert mp s c Hw Hi. induction Hq as [|mc cmds Hmc _ IH]; intros mp s c Hw Hi.
  { exists mp, s, c. split_and!; try done. by apply gstep_refl. }
  cbn [exec_loop exec_engine]. rewrite Hi. mstep. set (cond := negb mp && _ && _).
  set (mp1 := if cond then true else mp). set (s1 := if cond then set_engine (propagate_multi (mdb c) (engine s)) s else s).
  replace (if cond then (true, set_engine (propagate_multi (mdb c) (engine s)) s) else (mp, s)) with (mp1, s1)
    by (subst mp1 s1; by destruct cond).
  replace (if cond then (true, propagate_multi (mdb c) (engine s)) else (mp, engine s)) with (mp1, engine s1)
    by (subst mp1 s1; by destruct cond).
  assert (gstep (fun j => j <> i) s s1) as Hg1 by (subst s1; destruct cond; [by apply engine_gstep|by apply gstep_refl]).
  assert (clients s1 !! i = Some c) as Hi1 by (subst s1; by destruct cond). clearbody mp1 s1.
  assert (exists s2 c2, (if negb (acl_ok (engine s1) i mc) then
      Some (upd i (addReply noperm) (set_engine (addACLLogEntry i mc (engine s1)) s1))
      else call_simple i mc s1) = Some s2 /\
    gstep (fun j => j <> i) s1 s2 /\ clients s2 !! i = Some c2 /\
    (mdb c2, engine s2) = if negb (acl_ok (engine s1) i mc) then (mdb c, addACLLogEntry i mc (engine s1)) else call_engine i (mdb c) mc (engine s1))
    as (s2 & c2 & -> & Hg2 & Hi2 & He2).
  { destruct (acl_ok (engine s1) i mc); cbn [negb].
    - destruct (call_simple_gstep i mc s1 c) as (s2 & c2 & -> & Hg2 & Hi2 & He2); [apply Hg1|done|done|].
      exists s2, c2. split_and!; try done. eapply gstep_weaken; [|done]. naive_solver.
    - eexists _, (addReply noperm c). split; [done|]. pose proof (engine_gstep s1 (addACLLogEntry i mc (engine s1)) (fun j => j <> i)) as Hg2.
      split_and!; [| |done].
      + eapply gstep_trans; [apply Hg2, Hg1|]. apply addReply_gstep. apply Hg2, Hg1.
      + rewrite lookup_upd, decide_True by done. cbn [clients set_engine]. by rewrite Hi1. }
  mstep. rewrite <- He2. destruct (IH mp1 s2 c2) as (mp' & s' & c' & -> & Hg' & Hi' & He'); [apply Hg2|done|].
  exists mp', s', c'. split_and!; try done. eapply gstep_trans; [exact Hg1|]. eapply gstep_trans; [exact Hg2|exact Hg'].
Qed.

(** EXEC without MULTI is an error; a flagged transaction is discarded and nothing is executed;
    otherwise the queue is executed.  In the last two cases the client is out of the
    transaction, with no watched keys left. *)
Lemma execCommand_spec i s c :
  wf s -> clients s !! i = Some c ->
  exists s' c', execCommand i s = Some s' /\ gstep (fun j => j <> i) s s' /\ clients s' !! i = Some c' /\
    if negb (mhas c CLIENT_MULTI) then engine s' = engine s /\ c' = addReply exec_without_multi c
    else if mhas c CLIENT_DIRTY_CAS || mhas c CLIENT_DIRTY_EXEC then
      cleared (addReply (if mhas c CLIENT_DIRTY_EXEC then execaborterr else nullarray) c) c' /\
      engine s' = feed_monitors i (engine s)
    else
      commands c' = [] /\ watched_keys c' = [] /\ mhas c' CLIENT_MULTI = false /\
      mhas c' CLIENT_DIRTY_CAS = false /\ mhas c' CLIENT_DIRTY_EXEC = false /\
      let '(must_propagate, e) := exec_engine i (mdb c) (commands c) false (engine s) in
      engine s' = feed_monitors i
        (if must_propagate : bool then
           let e := incr_dirty e in
           if has_backlog e && is_master (engine s) && negb (is_master e) then feed_backlog_exec e else e
         else e).
Proof.
  intros Hw Hi. unfold execCommand. rewrite Hi. mstep. destruct (mhas c CLIENT_MULTI) eqn:EM; cbn [negb].
  2: { eexists _, _. split; [done|]. split_and!; [by apply addReply_gstep|by rewrite lookup_upd, decide_True, Hi by done|done|done]. }
  destruct (mhas c CLIENT_DIRTY_CAS || mhas c CLIENT_DIRTY_EXEC) eqn:ED.
  - set (r := if mhas c CLIENT_DIRTY_EXEC then _ else _). pose proof (addReply_gstep i r s (fun j => j <> i) Hw) as Hg.
    destruct (discardTransaction_gstep i (upd i (addReply r) s) (addReply r c)) as (s1 & c1 & -> & Hg1 & He1 & _ & Hi1 & Hcl); [apply Hg| |].
    { by rewrite lookup_upd, decide_True, Hi by done. }
    mstep. eexists _, c1. split; [done|]. split_and!; [|done|done|unfold handle_monitor; cbn; by rewrite He1].
    eapply gstep_trans; [done|]. eapply gstep_trans; [done|]. apply engine_gstep. apply Hg1.
  - destruct (unwatchAllKeys_gstep i s c Hw Hi) as (s1 & -> & Hg1 & He1 & _ & Hi1 & _). mstep.
    set (s2 := upd i (addReply _) s1). pose proof (addReply_gstep i (array_len (zlen (commands c))) s1 (fun j => j <> i)) as Hg2.
    destruct (exec_loop_spec i (commands c) false s2 (addReply (array_len (zlen (commands c))) (set_watched_keys [] c)))
      as (mp & s3 & c3 & -> & Hg3 & Hi3 & He3).
    { apply Hg2, Hg1. } { subst s2. by rewrite lookup_upd, decide_True, Hi1 by done. }
    { destruct Hw as [_ _ Hc]. by apply (Hc i). }
    mstep. destruct (discardTransaction_gstep i s3 c3) as (s4 & c4 & -> & Hg4 & He4 & _ & Hi4 & Hcl); [apply Hg3|done|]. mstep.
    eexists _, c4. split; [done|].
    assert (forall s5, s5 = s4 \/ (exists e5, s5 = set_engine e5 s4) -> gstep (fun j => j <> i) s (handle_monitor i s5) /\ clients (handle_monitor i s5) !! i = Some c4) as Hend.
    { intros s5 Hs5. split; [|by destruct Hs5 as [-> | [e5 ->]]]. eapply gstep_trans; [done|]. eapply gstep_trans; [apply Hg2, Hg1|].
      eapply gstep_trans; [done|]. eapply gstep_trans; [done|]. assert (wf s4) as Hw4 by apply Hg4.
      destruct Hs5 as [-> | [e5 ->]]; [by apply engine_gstep|]. eapply gstep_trans; [by apply engine_gstep|].
      apply engine_gstep. by apply (engine_gstep s4 e5 (fun _ => True)). }
    destruct Hcl as (? & ? & _ & _ & ? & ? & ?). cbn [mdb addReply set_watched_keys] in He3.
    assert (engine s2 = engine s) as He2 by done. rewrite He2 in He3. rewrite <- He3.
    match goal with |- context [handle_monitor i ?x] => set (s5 := x) end.
    destruct (Hend s5) as [Hg5 Hi5].
    { subst s5. destruct mp; [right; by eexists|by left]. }
    split_and!; try done. unfold handle_monitor. cbn [engine set_engine]. subst s5. destruct mp; cbn [engine set_engine]; by rewrite He4.
Qed.

(** ** One event *)

(** The events after which a client does not watch its keys any more: its own EXEC, DISCARD and
    UNWATCH, and its end. *)
Definition resets (ev : event St) i : Prop :=
  match ev with
  | Command j mc => j = i /\ match cmd_proc (mc_cmd mc) with execProc | discardProc | unwatchProc => True | _ => False end
  | Rejected j mc => j = i /\ cmd_proc (mc_cmd mc) = execProc
  | Freed j => j = i
  | _ => False
  end.

(** The client of the event exists; a new client has a fresh id. *)
Definition event_ok (ev : event St) s : Prop :=
  match ev with
  | Command i _ | Rejected i _ | Freed i => is_Some (clients s !! i)
  | Connected i => clients s !! i = None
  | Background _ _ => True
  end.

Lemma watch_loop_gstep i keys s c :
  wf s -> clients s !! i = Some c -> exists s', watch_loop i keys s = Some s' /\ gstep (fun _ => True) s s'.
Proof.
  revert s c. induction keys as [|key keys IH]; intros s c Hw Hi; cbn [watch_loop].
  { exists s. split; [done|by apply gstep_refl]. }
  destruct (watchForKey_gstep i key s c Hw Hi) as (s1 & w & -> & Hg & _ & Hi1 & _). mstep.
  destruct (IH s1 _ (proj1 Hg) Hi1) as (s' & -> & Hg'). exists s'. split; [done|]. by eapply gstep_trans.
Qed.

Lemma queue_ok mc c : client_ok c -> queueable mc -> mhas c CLIENT_MULTI = true -> client_ok (addReply queued (queueMultiCommand mc c)).
Proof.
  intros Hok Hq Hm. unfold queueMultiCommand. destruct (mhas c CLIENT_DIRTY_EXEC); [exact Hok|].
  destruct Hok as (H1 & H2 & _). split_and!; [done|apply Forall_app; split; [done|by apply Forall_singleton]|].
  intros Hn. assert (mhas c CLIENT_MULTI = false) by done. congruence.
Qed.

Lemma dispatch_gstep i mc s c :
  wf s -> clients s !! i = Some c ->
  exists s', dispatch i mc s = Some s' /\ gstep (fun j => ~ resets (Command i mc) j) s s'.
Proof.
  intros Hw Hi. unfold dispatch. rewrite Hi. mstep. cbn [resets].
  destruct (_ && _ && _ && _ && _) eqn:Eq.
  - eexists. split; [done|]. assert (queueable mc /\ mhas c CLIENT_MULTI = true) as [Hq Hm].
    { unfold queueable. destruct (cmd_proc (mc_cmd mc)), (mhas c CLIENT_MULTI); try done; by vm_compute in Eq. }
    apply upd_gstep; [done| | |].
    + intros c'. unfold queueMultiCommand. by destruct (mhas c' _).
    + intros c' Hc' Hok. simplify_eq. by apply queue_ok.
    + intros _ c'. unfold queueMultiCommand. by destruct (mhas c' CLIENT_DIRTY_EXEC).
  - destruct (cmd_proc (mc_cmd mc)) eqn:Ep.
    + unfold multiCommand. rewrite Hi. mstep. destruct (mhas c CLIENT_MULTI) eqn:Em; (eexists; split; [done|]).
      * by apply addReply_gstep.
      * apply upd_gstep; [done|done| |].
        -- intros c' Hc' (H1 & H2 & _). split_and!; [done|done|].
           intros Hn. assert (mhas (mset CLIENT_MULTI c') CLIENT_MULTI = false) by done. by rewrite mhas_set_same in *.
        -- intros _ c'. by apply mhas_set.
    + destruct (execCommand_spec i s c Hw Hi) as (s' & c' & -> & Hg & _). exists s'. split; [done|].
      eapply gstep_weaken; [|done]. naive_solver.
    + unfold discardCommand. rewrite Hi. mstep. destruct (mhas c CLIENT_MULTI); cbn [negb].
      * destruct (discardTransaction_gstep i s c Hw Hi) as (s' & c' & -> & Hg & _). mstep. eexists. split; [done|].
        eapply gstep_weaken; [|eapply gstep_trans; [done|apply addReply_gstep, Hg]]. naive_solver.
      * eexists. split; [done|]. by apply addReply_gstep.
    + unfold watchCommand. rewrite Hi. mstep. destruct (mhas c CLIENT_MULTI).
      * eexists. split; [done|]. by apply addReply_gstep.
      * destruct (watch_loop_gstep i (tail (mc_argv mc)) s c Hw Hi) as (s' & -> & Hg). mstep. eexists. split; [done|].
        eapply gstep_weaken; [|eapply gstep_trans; [done|apply addReply_gstep, Hg]]. naive_solver.
    + destruct (call_simple_gstep i mc s c Hw Hi) as (s' & c' & -> & Hg & _); [unfold queueable; by rewrite Ep|].
      exists s'. split; [done|]. eapply gstep_weaken; [|done]. intros j Hj -> _. by apply Hj.
    + destruct (call_simple_gstep i mc s c Hw Hi) as (s' & c' & -> & Hg & _); [unfold queueable; by rewrite Ep|].
      exists s'. split; [done|]. eapply gstep_weaken; [|done]. intros j Hj ->. by rewrite Ep.
Qed.

Lemma reject_gstep i mc s c :
  wf s -> clients s !! i = Some c ->
  exists s', rejectCommand i mc s = Some s' /\ gstep (fun j => ~ resets (Rejected i mc) j) s s'.
Proof.
  intros Hw Hi. unfold rejectCommand. rewrite Hi. mstep. cbn [resets].
  assert (forall P, gstep P s (upd i flagTransaction s)) as Hg.
  { intros P. apply upd_gstep; [done| | |].
    - intros c'. unfold flagTransaction. by destruct (mhas c' _).
    - intros c' Hc' Hok. unfold flagTransaction. destruct (mhas c' CLIENT_MULTI) eqn:Em; [|done].
      destruct Hok as (H1 & H2 & _). split_and!; [done|done|]. rewrite mhas_set by done. by rewrite Em.
    - intros _ c'. unfold flagTransaction. destruct (mhas c' CLIENT_MULTI); [by apply mhas_set|done]. }
  set (s1 := upd i flagTransaction s) in *.
  assert (clients s1 !! i = Some (flagTransaction c)) as Hi1 by (subst s1; by rewrite lookup_upd, decide_True, Hi by done).
  destruct (decide _) as [Hp | Hp].
  - unfold execCommandAbort.
    destruct (discardTransaction_gstep i s1 _ (proj1 (Hg (fun _ => True))) Hi1) as (s2 & c2 & -> & Hg2 & _). mstep. eexists. split; [done|].
    apply (gstep_weaken (fun j => j <> i)); [naive_solver|].
    eapply gstep_trans; [apply Hg|]. eapply gstep_trans; [exact Hg2|].
    eapply gstep_trans; [apply addReply_gstep, Hg2|]. apply engine_gstep. apply (addReply_gstep i execabort_because s2 (fun _ => True)), Hg2.
  - eexists. split; [done|]. eapply gstep_trans; [apply Hg|]. apply addReply_gstep, (Hg (fun _ => True)).
Qed.

Lemma step_spec ev s :
  wf s -> event_ok ev s -> exists s', step ev s = Some s' /\ wf s' /\ forall i, ~ resets ev i -> obs i s s'.
Proof.
  intros Hw Hok. destruct ev as [i mc | i mc | i | i | tr e]; cbn [step event_ok] in *.
  - destruct Hok as [c Hi]. destruct (dispatch_gstep i mc s c Hw Hi) as (s' & -> & ? & _ & ?). eauto.
  - destruct Hok as [c Hi]. destruct (reject_gstep i mc s c Hw Hi) as (s' & -> & ? & _ & ?). eauto.
  - rewrite Hok. eexists. split; [done|]. destruct Hw as [Ht Ha Hc]. split.
    + split; [done| |].
      * intros wk j. cbn [watched]. rewrite Ha. unfold watches. cbn [clients]. destruct (decide (i = j)) as [<- | Hne].
        -- rewrite lookup_insert_eq, Hok. split; intros (c & Hc' & Hk); [done|]. injection Hc' as <-. by apply elem_of_nil in Hk.
        -- by rewrite lookup_insert_ne.
      * intros j c. cbn [clients]. destruct (decide (i = j)) as [<- | Hne]; [|rewrite lookup_insert_ne by done; apply Hc].
        rewrite lookup_insert_eq. intros [= <-]. split_and!; [constructor|constructor|done].
    + intros j _. apply obs_same; [done|done|]. intros c Hj. cbn [clients].
      rewrite lookup_insert_ne by (intros ->; congruence). by exists c.
  - destruct Hok as [c Hi]. destruct (unwatchAllKeys_gstep i s c Hw Hi) as (s1 & -> & (Hw1 & Hd1 & Ho1) & _ & _ & Hi1 & _ & Hout). mstep.
    eexists. split; [done|]. destruct Hw1 as [Ht Ha Hc]. split.
    + split; [done| |].
      * intros wk j. cbn [watched]. unfold watches. cbn [clients]. destruct (decide (i = j)) as [<- | Hne].
        -- rewrite lookup_delete_eq. split; [by intros ?%Hout|]. by intros (? & ? & _).
        -- rewrite Ha. unfold watches. by rewrite lookup_delete_ne.
      * intros j c'. cbn [clients]. rewrite lookup_delete. case_decide; [done|]. apply Hc.
    + intros j Hj. destruct (Ho1 j) as (new & Hm & Hch & Hobs); [naive_solver|]. exists new. split_and!; [done|done|].
      intros cj Hcj. destruct (Hobs cj Hcj) as (c' & Hc' & Hrest). exists c'. split; [|done].
      cbn [clients]. rewrite lookup_delete_ne; [done|]. naive_solver.
  - destruct (perform_gstep None tr e s (fun _ => True) Hw) as (? & _ & ?). eauto.
Qed.

(** ** Runs *)

Lemma step_event_ok ev s s' : step ev s = Some s' -> event_ok ev s.
Proof.
  destruct ev as [i mc | i mc | i | i | tr e]; cbn [step event_ok]; [..|done].
  - unfold dispatch. destruct (clients s !! i); [by eexists|done].
  - unfold rejectCommand. destruct (clients s !! i); [by eexists|done].
  - by destruct (clients s !! i).
  - unfold unwatchAllKeys. destruct (clients s !! i); [by eexists|done].
Qed.

Lemma run_spec i evs s s' :
  wf s -> run_events evs s = Some s' -> Forall (fun ev => ~ resets ev i) evs -> wf s' /\ obs i s s'.
Proof.
  revert s. induction evs as [|ev evs IH]; intros s Hw Hr Hn; cbn [run_events] in Hr.
  { injection Hr as <-. auto using obs_refl. }
  apply Forall_cons in Hn as [Hev Hn]. destruct (step ev s) as [s1|] eqn:Es; [|done]. simpl in Hr.
  destruct (step_spec ev s Hw (step_event_ok _ _ _ Es)) as (s1' & Es' & Hw1 & Ho1). simplify_eq.
  destruct (IH s1 Hw1 Hr Hn) as [Hw' Ho']. split; [done|]. eapply obs_trans; eauto.
Qed.

(** The states of the server: every sequence of events from a server without clients. *)
Inductive reachable : mserver St -> Prop :=
| reach_init e : reachable (mkMServer ∅ ∅ [] e)
| reach_step s ev s' : reachable s -> step ev s = Some s' -> reachable s'.

Lemma init_wf e : wf (mkMServer (St := St) ∅ ∅ [] e).
Proof.
  split.
  - intros wk l. cbn [watched]. by rewrite lookup_empty.
  - intros wk i. unfold members, watches. cbn [watched clients]. rewrite !lookup_empty. simpl. rewrite elem_of_nil.
    split; [done|]. by intros (c & ? & _).
  - intros i c. cbn [clients]. by rewrite lookup_empty.
Qed.
Lemma reachable_wf s : reachable s -> wf s.
Proof.
  induction 1 as [e | s ev s' _ IH Hs]; [apply init_wf|].
  destruct (step_spec ev s IH (step_event_ok _ _ _ Hs)) as (s1 & Hs1 & ? & _). by simplify_eq.
Qed.

Lemma run_reachable evs s s' : reachable s -> run_events evs s = Some s' -> reachable s'.
Proof.
  revert s. induction evs as [|ev evs IH]; intros s Hs Hr; cbn [run_events] in Hr; [by injection Hr as <-|].
  destruct (step ev s) as [s1|] eqn:Es; [|done]. apply (IH s1); [|done]. by eapply reach_step.
Qed.

(** C35. The tables of watched keys stay consistent.  In every state the server can reach, the
    clients listed under a key are exactly those that have it in their list, without
    duplicates or empty entries, and the queues hold only commands that may be queued;
    whatever event comes next is handled without a failed assertion. *)
Theorem watch_tables_consistent s ev :
  reachable s -> event_ok ev s -> wf s /\ exists s', step ev s = Some s' /\ wf s'.
Proof.
  intros Hr Hok. pose proof (reachable_wf s Hr) as Hw. split; [done|].
  destruct (step_spec ev s Hw Hok) as (s' & ? & ? & _). eauto.
Qed.

(** A change of the rest of the server signals the keys it changes: a key it sends no signal for
    keeps its value. *)
Definition signals_changes (t : transition St) : Prop :=
  forall wk, ~ signalled (signals t) wk -> db_find (after t) wk = db_find (before t) wk.

Lemma unsignalled_kept e h e' wk :
  chain e h e' -> Forall signals_changes h -> ~ touched h wk -> db_find e' wk = db_find e wk.
Proof.
  intros Hc Hs. revert e Hc. induction Hs as [|t h Ht _ IH]; intros e Hc Hn; [by rewrite Hc|].
  destruct Hc as [<- Hc]. change (t :: h) with ([t] ++ h) in Hn. rewrite touched_app, touched_one in Hn.
  rewrite (IH (after t) Hc) by naive_solver. apply Ht. naive_solver.
Qed.

(** C6. EXEC is a check-and-set.  Client [i] watches some keys and is not flagged; then any
    events happen, among them no UNWATCH, DISCARD or EXEC of its own; it is then in a transaction
    whose commands were queued without errors.  Then either EXEC replies with the null array and
    executes nothing, and a key it watches was signalled as modified meanwhile, or was there when the flush of
    its database was signalled; or EXEC executes the queue, in order, and only it, and no
    key it watched from the beginning was signalled or flushed: if the changes meanwhile signalled the keys they changed, each of these keys has the
    value it had at the beginning.  Either way the transaction is over and no key is watched. *)
Theorem exec_check_and_set i evs s0 c0 s1 c1 :
  wf s0 -> clients s0 !! i = Some c0 -> mhas c0 CLIENT_DIRTY_CAS = false ->
  run_events evs s0 = Some s1 -> Forall (fun ev => ~ resets ev i) evs ->
  clients s1 !! i = Some c1 -> mhas c1 CLIENT_MULTI = true -> mhas c1 CLIENT_DIRTY_EXEC = false ->
  exists new s2 c2, history s1 = history s0 ++ new /\
    execCommand i s1 = Some s2 /\ clients s2 !! i = Some c2 /\
    commands c2 = [] /\ watched_keys c2 = [] /\ mhas c2 CLIENT_MULTI = false /\
    ((replies c2 = replies c1 ++ [nullarray] /\ engine s2 = feed_monitors i (engine s1) /\
      exists wk, wk ∈ watched_keys c1 /\ touched new wk) \/
     ((let '(must_propagate, e) := exec_engine i (mdb c1) (commands c1) false (engine s1) in
       engine s2 = feed_monitors i
         (if must_propagate : bool then
            let e := incr_dirty e in
            if has_backlog e && is_master (engine s1) && negb (is_master e) then feed_backlog_exec e else e
          else e)) /\
      forall wk, wk ∈ watched_keys c0 -> ~ touched new wk /\
        (Forall signals_changes new -> db_find (engine s1) wk = db_find (engine s0) wk))).
Proof.
  intros Hw0 Hc0 Hd0 Hr Hn Hc1 Hm1 He1. destruct (run_spec i evs s0 s1 Hw0 Hr Hn) as [Hw1 (new & Hmod & Hch & Hobs)].
  destruct (Hobs c0 Hc0) as (c1' & Hc1' & _ & _ & Htouch & Hback). simplify_eq.
  destruct (execCommand_spec i s1 c1 Hw1 Hc1) as (s2 & c2 & Hex & _ & Hc2 & Hres). exists new, s2, c2.
  rewrite Hm1, He1, orb_false_r in Hres. cbn [negb] in Hres.
  destruct (mhas c1 CLIENT_DIRTY_CAS) eqn:Ed.
  - destruct Hres as [(? & ? & _ & Hrep & ? & _) Heng]. split_and!; try done. left. split_and!; try done.
    destruct (Hback eq_refl) as [? | ?]; [congruence|done].
  - destruct Hres as (? & ? & ? & _ & _ & Heng). split_and!; try done. right. split; [done|]. intros wk Hwk.
    assert (~ touched new wk) as Hnt by (intros Ht; by specialize (Htouch wk Hwk Ht)).
    split; [done|]. intros Hs. by eapply unsignalled_kept.
Qed.
End Exec.

(** ** A concrete engine: a table of strings with SET and FLUSHALL *)

Module Example_multi.

Abbreviation store := (gmap watchedKey bytes).

#[local] Instance store_engine : Engine store := {
  value := bytes;
  call_proc := fun _ db mc e =>
    match cmd_proc (mc_cmd mc), mc_argv mc with
    | otherProc 0, [_; k; v] => let e := <[(db, k) := v]> e in ([(e, Modified (db, k))], e)
    | otherProc 1, _ => ([(e, Flushed (-1))], ∅)
    | _, _ => ([], e)
    end;
  db_find := fun e wk => e !! wk;
  acl_ok := fun _ _ _ => true;
  addACLLogEntry := fun _ _ e => e;
  loading := fun _ => false;
  is_master := fun _ => true;
  has_backlog := fun _ => false;
  propagate_multi := fun _ e => e;
  incr_dirty := fun e => e;
  feed_backlog_exec := fun e => e;
  feed_monitors := fun _ e => e }.

Definition cmd (p : proc) (argv : list bytes) : multiCmd := mkMultiCmd (mkCommand p 0) argv.
Definition set_k (k v : bytes) : multiCmd := cmd (otherProc 0) [[83]; k; v].
Definition flushall : multiCmd := cmd (otherProc 1) [[70]].
Definition watch (k : bytes) : multiCmd := cmd watchProc [[87]; k].

Definition after_events (evs : list (event store)) (s : mserver store) : mserver store := default s (run_events evs s).
Definition client_of (s : mserver store) : mclient := default newClient (clients s !! 1%nat).
Lemma after_reachable evs s : reachable s -> reachable (after_events evs s).
Proof. intros Hs. unfold after_events. destruct (run_events evs s) as [s'|] eqn:E; [by eapply run_reachable|done]. Qed.

(** Client 1 watches [k], which is there. *)
Definition empty : mserver store := mkMServer ∅ ∅ [] ∅.
Definition start : mserver store := after_events [Connected 1; Connected 2; Command 2 (set_k [107] [49]); Command 1 (watch [107])] empty.
Lemma start_reachable : reachable start.
Proof. apply after_reachable, reach_init. Qed.

Lemma watch_tables_consistent_witness :
  wf start /\ exists s', step (Command 1 (cmd execProc [[69]])) start = Some s' /\ wf s'.
Proof.
  apply (watch_tables_consistent start (Command 1 (cmd execProc [[69]]))); [apply start_reachable|].
  vm_compute. by eexists.
Defined.

(** Client 1 queues SET a; client 2 flushes meanwhile. *)
Definition flush_events : list (event store) :=
  [Command 1 (cmd multiProc [[77]]); Command 1 (set_k [97] [50]); Command 2 flushall].
Definition flushed : mserver store := after_events flush_events start.

Lemma exec_check_and_set_witness :
  exists s2 c2, execCommand 1 flushed = Some s2 /\ clients s2 !! 1%nat = Some c2 /\
    replies c2 = [ok; ok; queued; nullarray] /\ engine s2 = ∅.
Proof.
  destruct (exec_check_and_set 1 flush_events start (client_of start) flushed (client_of flushed))
    as (new & s2 & c2 & Hmod & Hex & Hc2 & _ & _ & _ & Hcase);
    [apply reachable_wf, start_reachable|vm_compute; reflexivity|vm_compute; reflexivity|vm_compute; reflexivity
    |repeat constructor; intros [? ?]; done|vm_compute; reflexivity|vm_compute; reflexivity|vm_compute; reflexivity|].
  - exists s2, c2. destruct Hcase as [(Hrep & Heng & _) | [_ Hno]].
    + split_and!; [done|done|by rewrite Hrep; vm_compute|by rewrite Heng; vm_compute].
    + destruct (Hno (0, [107])) as [Hnt _]; [vm_compute; constructor|]. exfalso. apply Hnt.
      assert (new = drop (length (history start)) (history flushed)) as -> by (rewrite Hmod; by rewrite drop_app_length).
      exists (Transition {[(0, [107]) := [49]]} [({[(0, [107]) := [49]]}, Flushed (-1))] ∅).
      split; [by vm_compute; constructor|]. exists {[(0, [107]) := [49]]}, (Flushed (-1)). split; [by constructor|].
      split; [by left|by eexists].
Defined.

(** A flush does not touch a watched key that is not there: EXEC runs. *)
Example flush_of_absent :
  (engine <$> (let! s := run_events ([Connected 1; Connected 2; Command 1 (watch [107])] ++ flush_events) empty in execCommand 1 s))
    = Some {[(0, [97]) := [50]]}.
Proof. vm_compute. reflexivity. Qed.
End Example_multi.
