(* ===== verification/SdsNumber.v ===== *)
(** * Printing numbers into strings (sds.c): [sdsll2str], [sdsull2str], [sdsfromlonglong] *)

From Stdlib Require Import ZArith Lia.
From stdpp Require Import base numbers option list.
From S2P Require Import Prelude Memory Endian Util UtilFacts.

Local Open Scope Z_scope.
Local Open Scope redis_scope.

(** ** Model *)

Definition SDS_LLSTR_SIZE : Z := 21.

(** [do { *p++ = '0'+(v%10); v /= 10; } while(v);], at most 20 digits. *)
Fixpoint digit_loop (fuel : nat) (s : bytes) (p v : Z) : option (bytes * Z) :=
  match fuel with
  | O => None
  | S fuel =>
      let! s := store1 s p (48 + v mod 10) in
      let v := v / 10 in
      if negb (v =? 0) then digit_loop fuel s (p + 1) v else Some (s, p + 1)
  end.

(** [while(s < p) { aux = *s; *s = *p; *p = aux; s++; p--; }] *)
Fixpoint reverse_loop (fuel : nat) (m : bytes) (s p : Z) : option bytes :=
  if s <? p then
    match fuel with
    | O => None
    | S fuel => let! m := swap1 m s p in reverse_loop fuel m (s + 1) (p - 1)
    end
  else Some m.

(** The returned length and the buffer. *)
Definition sdsll2str (s : bytes) (value : Z) : option (Z * bytes) :=
  let v := u64 (if value <? 0 then - value else value) in
  let! (s, p) := digit_loop 20 s 0 v in
  let! (s, p) := (if value <? 0 then let! s := store1 s p 45 in Some (s, p + 1) else Some (s, p)) in
  let l := p in
  let! s := store1 s p 0 in
  let! s := reverse_loop 20 s 0 (p - 1) in
  Some (l, s).

Definition sdsull2str (s : bytes) (v : Z) : option (Z * bytes) :=
  let! (s, p) := digit_loop 20 s 0 v in
  let l := p in
  let! s := store1 s p 0 in
  let! s := reverse_loop 20 s 0 (p - 1) in
  Some (l, s).

(** [buf] is the uninitialised block on the stack. *)
Definition sdsfromlonglong (buf : bytes) (value : Z) : option bytes :=
  let! (len, buf) := sdsll2str buf value in
  load buf 0 len.

(** ** Proofs *)

Lemma udecimal_snoc D v d :
  udecimal D v -> v <> 0 -> 0 <= d < 10 -> udecimal (D ++ [48 + d]) (v * 10 + d).
Proof.
  intros (Hne & Hd & Hh & Hv) Hv0 Hdd. split_and!.
  - by destruct D.
  - apply Forall_app. split; [done|]. apply Forall_singleton. unfold digit. lia.
  - left. destruct Hh as [Hh | ->]; [by destruct D|]. vm_compute in Hv. congruence.
  - rewrite dec_val_app, Hv. cbn [dec_val]. lia.
Qed.
Lemma udecimal_digit d : 0 <= d < 10 -> udecimal [48 + d] d.
Proof.
  intros Hd. split_and!; [done|apply Forall_singleton; unfold digit; lia| |cbn; lia].
  destruct (decide (d = 0)) as [-> | ?]; [by right|left]. intros [=]. lia.
Qed.

Lemma digit_loop_spec fuel n W R v :
  0 <= v < 10 ^ Z.of_nat n -> (1 <= n <= fuel)%nat -> Z.of_nat n <= zlen R ->
  exists D R', digit_loop fuel (W ++ R) (zlen W) v = Some (W ++ rev D ++ R', zlen W + zlen D) /\
    udecimal D v /\ zlen D <= Z.of_nat n /\ zlen D + zlen R' = zlen R.
Proof.
  revert n W R v. induction fuel as [|fuel IH]; intros n W R v Hv Hn HR; [lia|]. cbn [digit_loop].
  destruct R as [|r R]; [change (zlen (@nil Z)) with 0 in *; lia|]. rewrite zlen_cons in HR.
  pose proof (Z.mod_pos_bound v 10). pose proof (Z.div_mod v 10).
  rewrite store1_app by done. mstep. rewrite dig_ok by (unfold digit; lia).
  destruct (v / 10 =? 0) eqn:E; boolsimp; cbn [negb].
  - exists [48 + v mod 10], R. assert (v mod 10 = v) as -> by lia.
    split_and!; [done|apply udecimal_digit; lia|change (zlen [_]) with 1; lia|by rewrite !zlen_cons].
  - assert (10 <= v) as Hv10 by lia. assert (2 <= n)%nat as Hn2.
    { destruct n as [|[|n]]; [lia| |lia]. change (10 ^ Z.of_nat 1) with 10 in Hv. lia. }
    replace (W ++ 48 + v mod 10 :: R) with ((W ++ [48 + v mod 10]) ++ R) by by rewrite <- app_assoc.
    replace (zlen W + 1) with (zlen (W ++ [48 + v mod 10])) by zlia.
    destruct (IH (n - 1)%nat (W ++ [48 + v mod 10]) R (v / 10)) as (D & R' & -> & HD & HDn & HDR); [|lia|lia|].
    { split; [lia|]. apply Z.div_lt_upper_bound; [done|]. rewrite <- Z.pow_succ_r by lia.
      replace (Z.succ (Z.of_nat (n - 1))) with (Z.of_nat n) by lia. apply Hv. }
    exists (D ++ [48 + v mod 10]), R'. rewrite rev_unit, <- app_assoc. split_and!.
    + do 2 f_equal. zlia.
    + replace v with (v / 10 * 10 + v mod 10) at 2 by lia. apply udecimal_snoc; [done|done|lia].
    + zlia.
    + zlia.
Qed.

Lemma reverse_loop_spec fuel A B C :
  bytes_ok B -> (length B <= 2 * fuel + 1)%nat ->
  reverse_loop fuel (A ++ B ++ C) (zlen A) (zlen A + zlen B - 1) = Some (A ++ rev B ++ C).
Proof.
  revert A B C. induction fuel as [|fuel IH]; intros A B C HB Hf; cbn [reverse_loop].
  { rewrite (proj2 (Z.ltb_ge _ _)) by (unfold zlen; lia). destruct B as [|b [|]]; simpl in *; done || lia. }
  destruct (zlen A <? zlen A + zlen B - 1) eqn:E; boolsimp.
  2: { destruct B as [|b [|b' B]]; [done|done|]. rewrite !zlen_cons in E. zlia. }
  destruct B as [|b B]; [change (zlen (@nil Z)) with 0 in *; lia|]. rewrite zlen_cons in E |- *.
  destruct B as [|b' B _] using rev_ind; [change (zlen (@nil Z)) with 0 in *; lia|].
  apply Forall_cons in HB as [Hb HB]. apply Forall_app in HB as [HB Hb']. apply Forall_cons in Hb' as [Hb' _].
  replace (A ++ (b :: B ++ [b']) ++ C) with (A ++ b :: B ++ b' :: C) by (simpl; by rewrite <- app_assoc).
  rewrite (swap1_app A b B b' C) by (done || zlia). mstep.
  replace (A ++ b' :: B ++ b :: C) with ((A ++ [b']) ++ B ++ b :: C) by by rewrite <- app_assoc.
  replace (zlen A + 1) with (zlen (A ++ [b'])) by zlia.
  replace (zlen A + (1 + zlen (B ++ [b'])) - 1 - 1) with (zlen (A ++ [b']) + zlen B - 1) by zlia.
  rewrite IH; [|done|].
  - f_equal. simpl. rewrite rev_unit. simpl. by rewrite <- !app_assoc.
  - simpl in Hf. rewrite length_app in Hf. simpl in Hf. lia.
Qed.

Lemma udecimal_bytes D v : udecimal D v -> bytes_ok D.
Proof. intros (_ & HD & _). eapply Forall_impl; [exact HD|]. unfold digit, byte_ok. intros; lia. Qed.

(** The number and its terminator, at the start of the buffer. *)
Lemma sdsull2str_spec s v :
  is_u 64 v -> SDS_LLSTR_SIZE <= zlen s ->
  exists D R, udecimal D v /\ sdsull2str s v = Some (zlen D, D ++ 0 :: R) /\ zlen (D ++ 0 :: R) = zlen s.
Proof.
  intros Hv Hs. unfold sdsull2str, SDS_LLSTR_SIZE, is_u in *.
  destruct (digit_loop_spec 20 20 [] s v) as (D & R & HL & HD & Hn & HR); [|lia|lia|].
  { change (10 ^ Z.of_nat 20) with 100000000000000000000. lia. }
  change (zlen (@nil Z)) with 0 in HL. simpl app in HL. rewrite HL. mstep.
  destruct R as [|r R]; [change (zlen (@nil Z)) with 0 in *; lia|].
  rewrite store1_app by (rewrite zlen_rev; lia). mstep. change (u8 0) with 0.
  pose proof (reverse_loop_spec 20 [] (rev D) (0 :: R)) as Hrev. change (zlen (@nil Z)) with 0 in Hrev.
  rewrite zlen_rev in Hrev. simpl app in Hrev. rewrite Hrev, rev_involutive.
  - mstep. exists D, R. split_and!; [done|done|]. rewrite zlen_app, !zlen_cons in *. lia.
  - apply Forall_rev. by eapply udecimal_bytes.
  - rewrite length_rev. unfold zlen in *. lia.
Qed.

Lemma sdsll2str_spec s v :
  is_s 64 v -> SDS_LLSTR_SIZE <= zlen s ->
  exists D R, decimal D v /\ sdsll2str s v = Some (zlen D, D ++ 0 :: R) /\ zlen (D ++ 0 :: R) = zlen s.
Proof.
  intros Hv Hs. unfold sdsll2str, SDS_LLSTR_SIZE, is_s in *.
  set (a := if v <? 0 then - v else v).
  assert (0 <= a < 2 ^ 63 + 1 /\ u64 a = a) as [Ha ->].
  { assert (0 <= a < 2 ^ 63 + 1) as Ha by (subst a; casif; lia). split; [done|]. apply uN_small. lia. }
  destruct (digit_loop_spec 20 19 [] s a) as (D & R & HL & HD & Hn & HR); [|lia|lia|].
  { change (10 ^ Z.of_nat 19) with 10000000000000000000. lia. }
  change (zlen (@nil Z)) with 0 in HL. simpl app in HL. rewrite HL. mstep.
  set (D' := if v <? 0 then 45 :: D else D).
  assert (exists R', (if v <? 0 then let! s := store1 (rev D ++ R) (0 + zlen D) 45 in Some (s, 0 + zlen D + 1)
      else Some (rev D ++ R, 0 + zlen D)) = Some (rev D' ++ R', zlen D') /\ zlen D' + zlen R' = zlen s /\ 1 <= zlen R') as (R' & -> & HR' & HR1).
  { subst D'. destruct (v <? 0).
    - destruct R as [|r R]; [change (zlen (@nil Z)) with 0 in *; lia|]. rewrite zlen_cons in *.
      rewrite store1_app by (rewrite zlen_rev; lia). mstep. exists R. split_and!; [|lia|lia]. cbn [rev]. rewrite <- app_assoc.
      change (u8 45) with 45. do 2 f_equal. lia.
    - exists R. split_and!; [done|lia|lia]. }
  mstep. destruct R' as [|r R']; [change (zlen (@nil Z)) with 0 in *; lia|].
  rewrite store1_app by (rewrite zlen_rev; lia). mstep. change (u8 0) with 0.
  assert (decimal D' v) as HD'.
  { subst D' a. unfold decimal. destruct (v <? 0) eqn:E; boolsimp; [right|by left]. by exists D. }
  pose proof (reverse_loop_spec 20 [] (rev D') (0 :: R')) as Hrev. change (zlen (@nil Z)) with 0 in Hrev.
  rewrite zlen_rev in Hrev. simpl app in Hrev.
  replace (0 + zlen D' - 1) with (zlen D' - 1) in Hrev by lia. rewrite Hrev, rev_involutive.
  - mstep. exists D', R'. split_and!; [done|done|]. rewrite zlen_app, !zlen_cons in *. lia.
  - apply Forall_rev. subst D'. destruct (v <? 0); [apply Forall_cons; split; [done|]|]; by eapply udecimal_bytes.
  - rewrite length_rev. subst D'. destruct (v <? 0); unfold zlen in *; simpl; lia.
Qed.

Lemma sdsfromlonglong_spec buf v :
  is_s 64 v -> zlen buf = SDS_LLSTR_SIZE -> exists D, sdsfromlonglong buf v = Some D /\ decimal D v.
Proof.
  intros Hv Hb. unfold sdsfromlonglong. destruct (sdsll2str_spec buf v Hv) as (D & R & HD & -> & _); [lia|].
  mstep. exists D. split; [|done]. by apply (load_app []).
Qed.

(** [sdsll2str] and [sdsull2str] write the decimal notation of every 64 bit integer,
    INT64_MIN included, and its terminator at the start of the 21 bytes they are promised, and
    nothing outside; [sdsfromlonglong] returns the notation. *)
Theorem sdsll2str_correct s v :
  SDS_LLSTR_SIZE <= zlen s ->
  (is_s 64 v -> exists D R, decimal D v /\ sdsll2str s v = Some (zlen D, D ++ 0 :: R) /\ zlen (D ++ 0 :: R) = zlen s) /\
  (is_u 64 v -> exists D R, udecimal D v /\ sdsull2str s v = Some (zlen D, D ++ 0 :: R) /\ zlen (D ++ 0 :: R) = zlen s) /\
  (is_s 64 v -> zlen s = SDS_LLSTR_SIZE -> exists D, sdsfromlonglong s v = Some D /\ decimal D v).
Proof.
  intros Hs. split_and!; intros Hv; [by apply sdsll2str_spec|by apply sdsull2str_spec|]. by apply sdsfromlonglong_spec.
Qed.

Lemma sdsll2str_correct_witness :
  exists D, sdsfromlonglong (replicate 21 7) LLONG_MIN = Some D /\ decimal D LLONG_MIN.
Proof. apply (sdsll2str_correct (replicate 21 7) LLONG_MIN); by vm_compute. Defined.
