(* ===== verification/Rdb.v ===== *)
(** * Strings, lengths and times of the RDB format (rdb.c)

    The writer appends to the bytes written so far; [rio] may refuse a write.  The reader
    consumes a byte stream.  [Err] is the -1 or NULL of an I/O error, [Exit] the end of the
    process in [rdbExitReportCorruptRDB], [Crash] a failed assertion or an access outside a
    buffer. *)

From Stdlib Require Import ZArith Lia.
From stdpp Require Import base numbers option list.
From S2P Require Import Prelude Memory Endian Util Sds SdsNumber Lzf.

Local Open Scope Z_scope.

Inductive res (A : Type) := Ok (a : A) | Err | Exit | Crash.
Arguments Ok {A} a.
Arguments Err {A}.
Arguments Exit {A}.
Arguments Crash {A}.

Definition rbind {A B} (k : A -> res B) (r : res A) : res B :=
  match r with Ok a => k a | Err => Err | Exit => Exit | Crash => Crash end.
Definition lift {A} (o : option A) : res A := match o with Some a => Ok a | None => Crash end.

Declare Scope rdb_scope.
Delimit Scope rdb_scope with rdb.
Notation "'let?' x ':=' e 'in' k" := (rbind (fun x => k) e)
  (at level 10, x pattern, e at level 100, k at level 200,
   format "'[v' 'let?'  x  ':='  e  'in' '/' k ']'") : rdb_scope.
Local Open Scope rdb_scope.

(** ** Constants of rdb.h *)

Definition RDB_6BITLEN : Z := 0.
Definition RDB_14BITLEN : Z := 1.
Definition RDB_32BITLEN : Z := 128.
Definition RDB_64BITLEN : Z := 129.
Definition RDB_ENCVAL : Z := 3.
Definition RDB_LENERR : Z := UINT64_MAX.
Definition RDB_ENC_INT8 : Z := 0.
Definition RDB_ENC_INT16 : Z := 1.
Definition RDB_ENC_INT32 : Z := 2.
Definition RDB_ENC_LZF : Z := 3.

(** ** The stream *)

(** [rio_ok out p]: the file, whose contents are [out], takes the bytes [p]. *)
Class Rio := rio_ok : bytes -> bytes -> bool.

(** [rdbWriteRaw]: the number of bytes written and the new contents. *)
Definition rdbWriteRaw `{Rio} (p out : bytes) : res (Z * bytes) :=
  if rio_ok out p then Ok (zlen p, out ++ p) else Err.

Definition rioRead (n : Z) (rdb : bytes) : res (bytes * bytes) :=
  if n <=? zlen rdb then Ok (take (Z.to_nat n) rdb, drop (Z.to_nat n) rdb) else Err.

(** What the compressor finds in its hash table, which it does not initialise. *)
Class Stack := lzf_stack : LZF_STATE.

(** ** Lengths and times *)

Definition htonl `{Host} (v : Z) : option Z := if big_endian then Some v else intrev32 v.
Definition htonu64 `{Host} (v : Z) : option Z := if big_endian then Some v else intrev64 v.
Abbreviation ntohl := htonl.
Abbreviation ntohu64 := htonu64.

Definition rdbSaveMillisecondTime `{Host} `{Rio} (t : Z) (out : bytes) : res (Z * bytes) :=
  let? t64 := lift (memrev64ifbe (host_enc 8 t) 0) in
  rdbWriteRaw t64 out.

Definition rdbLoadMillisecondTime `{Host} (rdbver : Z) (rdb : bytes) : res (Z * bytes) :=
  match rioRead 8 rdb with
  | Ok (t64, rdb) =>
      let? t64 := lift (if rdbver >=? 9 then memrev64ifbe t64 0 else Some t64) in
      Ok (i64 (host_dec t64), rdb)
  | Err => Ok (LLONG_MAX, rdb)
  | Exit => Exit
  | Crash => Crash
  end.

Definition rdbSaveLen `{Host} `{Rio} (len : Z) (out : bytes) : res (Z * bytes) :=
  if len <? Z.shiftl 1 6 then
    let buf := [u8 (Z.lor (Z.land len 255) (Z.shiftl RDB_6BITLEN 6))] in
    let? (_, out) := rdbWriteRaw buf out in
    Ok (1, out)
  else if len <? Z.shiftl 1 14 then
    let buf := [u8 (Z.lor (Z.land (Z.shiftr len 8) 255) (Z.shiftl RDB_14BITLEN 6)); u8 (Z.land len 255)] in
    let? (_, out) := rdbWriteRaw buf out in
    Ok (2, out)
  else if len <=? UINT32_MAX then
    let? (_, out) := rdbWriteRaw [RDB_32BITLEN] out in
    let? len32 := lift (htonl len) in
    let? (_, out) := rdbWriteRaw (host_enc 4 len32) out in
    Ok (1 + 4, out)
  else
    let? (_, out) := rdbWriteRaw [RDB_64BITLEN] out in
    let? len := lift (htonu64 len) in
    let? (_, out) := rdbWriteRaw (host_enc 8 len) out in
    Ok (1 + 8, out).

(** [*isencoded], [*lenptr] and the rest of the stream. *)
Definition rdbLoadLenByRef `{Host} (rdb : bytes) : res (bool * Z * bytes) :=
  let? (buf, rdb) := rioRead 1 rdb in
  let? b0 := lift (load1 buf 0) in
  let type := Z.shiftr (Z.land b0 192) 6 in
  if type =? RDB_ENCVAL then Ok (true, Z.land b0 63, rdb)
  else if type =? RDB_6BITLEN then Ok (false, Z.land b0 63, rdb)
  else if type =? RDB_14BITLEN then
    let? (buf1, rdb) := rioRead 1 rdb in
    let? b1 := lift (load1 buf1 0) in
    Ok (false, Z.lor (Z.shiftl (Z.land b0 63) 8) b1, rdb)
  else if b0 =? RDB_32BITLEN then
    let? (buf, rdb) := rioRead 4 rdb in
    let? len := lift (ntohl (host_dec buf)) in
    Ok (false, len, rdb)
  else if b0 =? RDB_64BITLEN then
    let? (buf, rdb) := rioRead 8 rdb in
    let? len := lift (ntohu64 (host_dec buf)) in
    Ok (false, len, rdb)
  else Exit.

Definition rdbLoadLen `{Host} (rdb : bytes) : res (bool * Z * bytes) :=
  match rdbLoadLenByRef rdb with
  | Err => Ok (false, RDB_LENERR, rdb)
  | r => r
  end.

(** ** Integers *)

(** The bytes stored in [enc], none when the value does not fit. *)
Definition rdbEncodeInteger (value : Z) : bytes :=
  if (value >=? - Z.shiftl 1 7) && (value <=? Z.shiftl 1 7 - 1) then
    [u8 (Z.lor (Z.shiftl RDB_ENCVAL 6) RDB_ENC_INT8); u8 (Z.land value 255)]
  else if (value >=? - Z.shiftl 1 15) && (value <=? Z.shiftl 1 15 - 1) then
    [u8 (Z.lor (Z.shiftl RDB_ENCVAL 6) RDB_ENC_INT16);
     u8 (Z.land value 255); u8 (Z.land (Z.shiftr value 8) 255)]
  else if (value >=? - Z.shiftl 1 31) && (value <=? Z.shiftl 1 31 - 1) then
    [u8 (Z.lor (Z.shiftl RDB_ENCVAL 6) RDB_ENC_INT32);
     u8 (Z.land value 255); u8 (Z.land (Z.shiftr value 8) 255);
     u8 (Z.land (Z.shiftr value 16) 255); u8 (Z.land (Z.shiftr value 24) 255)]
  else [].

(** The flags of the loaders, and what they return: a block, an sds, or an object holding a
    number or an sds. *)
Inductive load_flags := RDB_LOAD_NONE | RDB_LOAD_ENC | RDB_LOAD_PLAIN | RDB_LOAD_SDS.
Inductive loaded := Plain (s : bytes) | SdsString (s : bytes) | IntObject (v : Z) | SdsObject (s : bytes).

(** The string printed by [ll2string] into a block of [size] bytes on the stack. *)
Definition ll_to_bytes (size v : Z) : option bytes :=
  match ll2string (replicate (Z.to_nat size) 0) size v with
  | Some (len, buf) => load buf 0 len
  | None => None
  end.

Definition LONG_STR_SIZE : Z := 21.

Definition rdbLoadIntegerObject (enctype : Z) (flags : load_flags) (rdb : bytes) : res (loaded * bytes) :=
  let? (val, rdb) :=
    (if enctype =? RDB_ENC_INT8 then
       let? (enc, rdb) := rioRead 1 rdb in
       let? e0 := lift (load1 enc 0) in
       Ok (sN 8 e0, rdb)
     else if enctype =? RDB_ENC_INT16 then
       let? (enc, rdb) := rioRead 2 rdb in
       let? e0 := lift (load1 enc 0) in
       let? e1 := lift (load1 enc 1) in
       let v := u16 (Z.lor e0 (Z.shiftl e1 8)) in
       Ok (i16 v, rdb)
     else if enctype =? RDB_ENC_INT32 then
       let? (enc, rdb) := rioRead 4 rdb in
       let? e0 := lift (load1 enc 0) in
       let? e1 := lift (load1 enc 1) in
       let? e2 := lift (load1 enc 2) in
       let? e3 := lift (load1 enc 3) in
       let v := u32 (Z.lor (Z.lor (Z.lor e0 (Z.shiftl e1 8)) (Z.shiftl e2 16)) (Z.shiftl e3 24)) in
       Ok (i32 v, rdb)
     else Exit) in
  match flags with
  | RDB_LOAD_PLAIN => let? s := lift (ll_to_bytes LONG_STR_SIZE val) in Ok (Plain s, rdb)
  | RDB_LOAD_SDS => let? s := lift (ll_to_bytes LONG_STR_SIZE val) in Ok (SdsString s, rdb)
  | RDB_LOAD_ENC => Ok (IntObject val, rdb)
  | RDB_LOAD_NONE => let? s := lift (sdsfromlonglong (replicate 21 0) val) in Ok (SdsObject s, rdb)
  end.

(** [strtoll(p,&endptr,10)]: the value, clipped to 64 bits, and the string at [endptr]. *)
Fixpoint skip_spaces (p : bytes) : bytes :=
  match p with c :: p' => if isspace c then skip_spaces p' else p | [] => [] end.
Fixpoint digits_value (p : bytes) (v : Z) : Z * bytes :=
  match p with
  | c :: p' => if isdigit c then digits_value p' (v * 10 + (c - 48)) else (v, p)
  | [] => (v, [])
  end.
Definition strtoll (p : bytes) : Z * bytes :=
  let q := skip_spaces p in
  let '(neg, q) :=
    match q with
    | c :: q' => if c =? 45 then (true, q') else if c =? 43 then (false, q') else (false, q)
    | [] => (false, [])
    end in
  if match q with c :: _ => isdigit c | [] => false end then
    let '(v, rest) := digits_value q 0 in
    let v := if neg : bool then - v else v in
    (Z.max LLONG_MIN (Z.min LLONG_MAX v), rest)
  else (0, p).

Definition rdbTryIntegerEncoding (s : bytes) : option bytes :=
  let '(value, endptr) := strtoll s in
  if negb (at_ endptr 0 =? 0) then Some [] else
  match ll2string (replicate 32 0) 32 value with
  | None => None
  | Some (_, buf) =>
      if negb (zlen (cstr buf) =? zlen s) then Some [] else
      match load buf 0 (zlen s) with
      | None => None
      | Some w => if decide (w = s) then Some (rdbEncodeInteger value) else Some []
      end
  end.

(** ** Strings *)

Section Strings.
Context `{Host} `{Alloc} `{Stack}.

Definition rdbSaveLzfBlob `{Rio} (data : bytes) (original_len : Z) (out : bytes) : res (Z * bytes) :=
  let byte := u8 (Z.lor (Z.shiftl RDB_ENCVAL 6) RDB_ENC_LZF) in
  let? (n1, out) := rdbWriteRaw [byte] out in
  let? (n2, out) := rdbSaveLen (zlen data) out in
  let? (n3, out) := rdbSaveLen original_len out in
  let? (n4, out) := rdbWriteRaw data out in
  Ok (n1 + n2 + n3 + n4, out).

(** The lengths are truncated to the [unsigned int]s LZF takes. *)
Definition rdbSaveLzfStringObject `{Rio} (s : bytes) (out : bytes) : res (Z * bytes) :=
  if zlen s <=? 4 then Ok (0, out) else
  let outlen := zlen s - 4 in
  let buf := realloc [] (outlen + 1) in
  let? r := lift (lzf_compress lzf_stack (take (Z.to_nat (u32 (zlen s))) s) buf (u32 outlen)) in
  match r with
  | None => Ok (0, out)
  | Some (comprlen, buf) =>
      let? c := lift (load buf 0 comprlen) in
      rdbSaveLzfBlob c (zlen s) out
  end.

Definition rdbLoadLzfStringObject (flags : load_flags) (rdb : bytes) : res (loaded * bytes) :=
  let? (_, clen, rdb) := rdbLoadLen rdb in
  if clen =? RDB_LENERR then Err else
  let? (_, len, rdb) := rdbLoadLen rdb in
  if len =? RDB_LENERR then Err else
  let val := realloc [] len in
  let? (c, rdb) := rioRead clen rdb in
  let? r := lift (lzf_decompress (take (Z.to_nat (u32 clen)) c) val (u32 len)) in
  match r with
  | None => Exit
  | Some (_, val) =>
      Ok (match flags with
          | RDB_LOAD_PLAIN => Plain val
          | RDB_LOAD_SDS => SdsString val
          | _ => SdsObject val
          end, rdb)
  end.

(** [rdb_compression] is the setting of the server. *)
Definition rdbSaveRawString `{Rio} (rdb_compression : bool) (s : bytes) (out : bytes) : res (Z * bytes) :=
  let? enc := lift (if zlen s <=? 11 then rdbTryIntegerEncoding s else Some []) in
  match enc with
  | _ :: _ => let? (_, out) := rdbWriteRaw enc out in Ok (zlen enc, out)
  | [] =>
      let? (n, out) :=
        (if rdb_compression && (zlen s >? 20) then rdbSaveLzfStringObject s out else Ok (0, out)) in
      if n >? 0 then Ok (n, out) else
      let? (n, out) := rdbSaveLen (zlen s) out in
      if zlen s >? 0 then
        let? (_, out) := rdbWriteRaw s out in Ok (n + zlen s, out)
      else Ok (n, out)
  end.

Definition rdbSaveLongLongAsStringObject `{Rio} (value : Z) (out : bytes) : res (Z * bytes) :=
  match rdbEncodeInteger value with
  | (_ :: _) as enc => rdbWriteRaw enc out
  | [] =>
      match ll2string (replicate 32 0) 32 value with
      | None => Crash
      | Some (enclen, buf) =>
          if negb (enclen <? 32) then Crash else
          let? (n1, out) := rdbSaveLen enclen out in
          let? s := lift (load buf 0 enclen) in
          let? (n2, out) := rdbWriteRaw s out in
          Ok (n1 + n2, out)
      end
  end.

(** A string object in memory. *)
Inductive string_object := ObjInt (v : Z) | ObjSds (s : bytes).

Definition rdbSaveStringObject `{Rio} (rdb_compression : bool) (obj : string_object) (out : bytes)
    : res (Z * bytes) :=
  match obj with
  | ObjInt v => rdbSaveLongLongAsStringObject v out
  | ObjSds s => rdbSaveRawString rdb_compression s out
  end.

Definition rdbGenericLoadStringObject (flags : load_flags) (rdb : bytes) : res (loaded * bytes) :=
  let? (isencoded, len, rdb) := rdbLoadLen rdb in
  if isencoded : bool then
    if (len =? RDB_ENC_INT8) || (len =? RDB_ENC_INT16) || (len =? RDB_ENC_INT32) then
      rdbLoadIntegerObject len flags rdb
    else if len =? RDB_ENC_LZF then rdbLoadLzfStringObject flags rdb
    else Exit
  else if len =? RDB_LENERR then Err else
  let? (buf, rdb) := (if negb (len =? 0) then rioRead len rdb else Ok ([], rdb)) in
  Ok (match flags with
      | RDB_LOAD_PLAIN => Plain buf
      | RDB_LOAD_SDS => SdsString buf
      | _ => SdsObject buf
      end, rdb).
End Strings.
