(* ===== verification/RdbSpec.v ===== *)
(** * Contract of the RDB string format: round trips on all hosts, truncation detected *)

From Stdlib Require Import ZArith Lia.
From stdpp Require Import base numbers option list.
From S2P Require Import Prelude Memory Bits Endian Util UtilFacts Sds SdsSpec SdsNumber Lzf LzfDecode LzfSpec Rdb.

Local Open Scope Z_scope.
Local Open Scope rdb_scope.

(** ** Writing and reading *)

(** [r] appended [w] to [out] and reports its length, or failed because a write was refused. *)
Definition writes `{Rio} (r : res (Z * bytes)) (out w : bytes) : Prop :=
  r = Ok (zlen w, out ++ w) \/ r = Err /\ exists o p, rio_ok o p = false.

Lemma writes_raw `{Rio} p out : writes (rdbWriteRaw p out) out p.
Proof. unfold rdbWriteRaw. destruct (rio_ok out p) eqn:E; [by left|right; eauto]. Qed.
Lemma writes_bind `{Rio} r out w1 (k : Z * bytes -> res (Z * bytes)) w :
  writes r out w1 -> writes (k (zlen w1, out ++ w1)) out w -> writes (rbind k r) out w.
Proof. intros [-> | [-> Hf]] Hk; [exact Hk|by right]. Qed.

(** [f] reads exactly the bytes [w], yields [v], and reports an error on every proper prefix
    of [w]. *)
Definition reads {A} (f : bytes -> res (A * bytes)) (w : bytes) (v : A) : Prop :=
  (forall tail, f (w ++ tail) = Ok (v, tail)) /\ (forall p q, q <> [] -> p ++ q = w -> f p = Err).

Lemma reads_raw n w : zlen w = n -> reads (rioRead n) w w.
Proof.
  intros <-. unfold rioRead. split.
  - intros tail. rewrite (proj2 (Z.leb_le _ _)) by zlia. unfold zlen. by rewrite Nat2Z.id, take_app_length, drop_app_length.
  - intros p q Hq <-. rewrite (proj2 (Z.leb_gt _ _)); [done|]. destruct q; [done|]. rewrite zlen_app, zlen_cons. zlia.
Qed.

Lemma reads_bind {A B} (f : bytes -> res (A * bytes)) (g : A -> bytes -> res (B * bytes)) w1 w2 a b :
  reads f w1 a -> reads (g a) w2 b -> reads (fun rdb => let? (x, rdb) := f rdb in g x rdb) (w1 ++ w2) b.
Proof.
  intros [Hf1 Hf2] [Hg1 Hg2]. split.
  - intros tail. by rewrite <- app_assoc, Hf1; simpl.
  - intros p q Hq Hpq. destruct (app_eq_app _ _ _ _ Hpq) as (l & [[-> ->] | [-> ->]]).
    + rewrite Hf1. simpl. by apply (Hg2 l q).
    + destruct l as [|x l].
      * rewrite app_nil_r in *. pose proof (Hf1 []) as Hp. rewrite app_nil_r in Hp. rewrite Hp. simpl. by apply (Hg2 [] w2).
      * by rewrite (Hf2 p (x :: l)).
Qed.

(** A reader that yields a value computed from what it read. *)
Lemma reads_ret {A B} (f : bytes -> res (A * bytes)) (g : A -> bytes -> res (B * bytes)) w a b :
  reads f w a -> (forall rdb, g a rdb = Ok (b, rdb)) -> reads (fun rdb => let? (x, rdb) := f rdb in g x rdb) w b.
Proof.
  intros Hf Hg. rewrite <- (app_nil_r w). eapply reads_bind; [done|]. split; [by intros tail|].
  intros p q Hq [_ ->]%app_nil. done.
Qed.
Lemma reads_ext {A} (f g : bytes -> res (A * bytes)) w v : (forall rdb, f rdb = g rdb) -> reads g w v -> reads f w v.
Proof. intros Hfg [H1 H2]. split; intros; rewrite Hfg; eauto. Qed.

(** ** Network byte order *)

Definition be_enc (n : nat) (v : Z) : bytes := rev (le_enc n v).

Definition bswap64 (v : Z) : Z := le_dec (rev (le_enc 8 v)).
Lemma intrev64_bswap `{Host} v : intrev64 v = Some (bswap64 v).
Proof.
  unfold intrev64. pose proof (memrev64_app [] (host_enc 8 v) [] 0) as E.
  rewrite !app_nil_r in E. cbn [app] in E. rewrite E; [|apply host_enc_ok|zlia|done].
  simpl. f_equal. unfold host_dec, host_enc, bswap64. destruct big_endian; by rewrite ?rev_involutive.
Qed.
Lemma le_enc_bswap n v : le_enc n (le_dec (rev (le_enc n v))) = rev (le_enc n v).
Proof.
  pose proof (le_enc_dec (rev (le_enc n v))) as E.
  assert (length (rev (le_enc n v)) = n) as Hn by (rewrite length_rev; pose proof (zlen_le_enc n v); unfold zlen in *; lia).
  rewrite Hn in E. apply E, Forall_rev, le_enc_ok.
Qed.

Lemma htonl_bytes `{Host} v : exists v', htonl v = Some v' /\ host_enc 4 v' = be_enc 4 v.
Proof.
  unfold htonl, host_enc, be_enc. destruct big_endian; [by exists v|]. rewrite intrev32_bswap.
  eexists. split; [done|]. apply le_enc_bswap.
Qed.
Lemma htonu64_bytes `{Host} v : exists v', htonu64 v = Some v' /\ host_enc 8 v' = be_enc 8 v.
Proof.
  unfold htonu64, host_enc, be_enc. destruct big_endian; [by exists v|]. rewrite intrev64_bswap.
  eexists. split; [done|]. apply le_enc_bswap.
Qed.
Lemma ntohl_bytes `{Host} v : is_u 32 v -> ntohl (host_dec (be_enc 4 v)) = Some v.
Proof.
  intros Hv. unfold htonl, host_dec, be_enc. destruct big_endian.
  - rewrite rev_involutive, le_dec_enc. f_equal. by apply uN_small.
  - rewrite intrev32_bswap. f_equal. by apply bswap32_involutive.
Qed.
Lemma ntohu64_bytes `{Host} v : is_u 64 v -> ntohu64 (host_dec (be_enc 8 v)) = Some v.
Proof.
  intros Hv. unfold htonu64, host_dec, be_enc. destruct big_endian.
  - rewrite rev_involutive, le_dec_enc. f_equal. by apply uN_small.
  - rewrite intrev64_bswap. f_equal. unfold bswap64. rewrite le_enc_bswap, rev_involutive, le_dec_enc. by apply uN_small.
Qed.
Lemma zlen_be_enc n v : zlen (be_enc n v) = Z.of_nat n.
Proof. unfold be_enc. zlia. Qed.

(** ** Lengths *)

Definition enc_len (len : Z) : bytes :=
  if len <? 64 then [len]
  else if len <? 16384 then [64 + len / 256; len mod 256]
  else if len <=? UINT32_MAX then 128 :: be_enc 4 len
  else 129 :: be_enc 8 len.

Lemma enc_len_pos len : 1 <= zlen (enc_len len).
Proof. unfold enc_len. repeat casif; rewrite zlen_cons; zlia. Qed.

(** Facts on the first byte, by enumeration. *)
Lemma len_byte b : 0 <= b < 64 ->
  Z.shiftr (Z.land b 192) 6 = 0 /\ Z.land b 63 = b /\ u8 (Z.lor b 0) = b /\
  Z.shiftr (Z.land (64 + b) 192) 6 = 1 /\ Z.land (64 + b) 63 = b /\ u8 (Z.lor b 64) = 64 + b.
Proof.
  intros Hb. pose proof (byte_forall (fun b => negb (b <? 64) ||
    ((Z.shiftr (Z.land b 192) 6 =? 0) && (Z.land b 63 =? b) && (u8 (Z.lor b 0) =? b) &&
     (Z.shiftr (Z.land (64 + b) 192) 6 =? 1) && (Z.land (64 + b) 63 =? b) && (u8 (Z.lor b 64) =? 64 + b)))
    ltac:(by vm_compute) b ltac:(unfold byte_ok; lia)) as He.
  cbn beta in He. rewrite (proj2 (Z.ltb_lt b 64)) in He by lia. simpl in He. boolsimp. split_and!; assumption.
Qed.

Lemma rdbSaveLen_spec `{Host} `{Rio} len out :
  is_u 64 len -> writes (rdbSaveLen len out) out (enc_len len).
Proof.
  intros Hl. unfold rdbSaveLen, enc_len, is_u in *. change (Z.shiftl 1 6) with 64. change (Z.shiftl 1 14) with 16384.
  change (Z.shiftl RDB_6BITLEN 6) with 0. change (Z.shiftl RDB_14BITLEN 6) with 64.
  destruct (len <? 64) eqn:E6; boolsimp.
  { destruct (len_byte len) as (_ & _ & Hb & _); [lia|]. rewrite land_255, Z.mod_small, Hb by lia.
    eapply writes_bind; [apply writes_raw|]. by left. }
  destruct (len <? 16384) eqn:E14; boolsimp.
  { assert (0 <= len / 256 < 64) as Hq by (split; [apply Z.div_pos; lia|apply Z.div_lt_upper_bound; lia]).
    destruct (len_byte (len / 256)) as (_ & _ & _ & _ & _ & Hb); [lia|].
    rewrite !land_255, shiftr_div by lia. change (2 ^ 8) with 256. rewrite (Z.mod_small (len / 256)), Hb by lia.
    rewrite uN_small by (apply Z.mod_pos_bound; lia). eapply writes_bind; [apply writes_raw|]. by left. }
  destruct (len <=? UINT32_MAX) eqn:E32; boolsimp.
  - eapply writes_bind; [apply writes_raw|]. cbn beta iota. destruct (htonl_bytes len) as (v & -> & Hv). simpl lift. cbn [rbind].
    rewrite Hv. pose proof (writes_raw (be_enc 4 len) (out ++ [RDB_32BITLEN])) as [-> | [-> Hf]]; [left|by right].
    simpl. by rewrite <- app_assoc.
  - eapply writes_bind; [apply writes_raw|]. cbn beta iota. destruct (htonu64_bytes len) as (v & -> & Hv). simpl lift. cbn [rbind].
    rewrite Hv. pose proof (writes_raw (be_enc 8 len) (out ++ [RDB_64BITLEN])) as [-> | [-> Hf]]; [left|by right].
    simpl. by rewrite <- app_assoc.
Qed.

Lemma load1_head b l : load1 (b :: l) 0 = Some b.
Proof. done. Qed.

(** The dispatch on the first byte. *)
Lemma reads_len_byte `{Host} b w v :
  reads (fun rdb =>
    let type := Z.shiftr (Z.land b 192) 6 in
    if type =? RDB_ENCVAL then Ok (true, Z.land b 63, rdb)
    else if type =? RDB_6BITLEN then Ok (false, Z.land b 63, rdb)
    else if type =? RDB_14BITLEN then
      let? (buf1, rdb) := rioRead 1 rdb in
      let? b1 := lift (load1 buf1 0) in
      Ok (false, Z.lor (Z.shiftl (Z.land b 63) 8) b1, rdb)
    else if b =? RDB_32BITLEN then
      let? (buf, rdb) := rioRead 4 rdb in
      let? len := lift (ntohl (host_dec buf)) in
      Ok (false, len, rdb)
    else if b =? RDB_64BITLEN then
      let? (buf, rdb) := rioRead 8 rdb in
      let? len := lift (ntohu64 (host_dec buf)) in
      Ok (false, len, rdb)
    else Exit) w v ->
  reads rdbLoadLenByRef (b :: w) v.
Proof.
  intros Hr. change (b :: w) with ([b] ++ w). unfold rdbLoadLenByRef.
  eapply (reads_bind (rioRead 1)); [by apply reads_raw|]. exact Hr.
Qed.

Lemma reads_pure {A} (v : A) : reads (fun rdb => Ok (v, rdb)) [] v.
Proof. split; [done|]. by intros p q Hq [_ ->]%app_nil. Qed.

Lemma rdbLoadLenByRef_spec `{Host} len : is_u 64 len -> reads rdbLoadLenByRef (enc_len len) (false, len).
Proof.
  intros Hl. unfold enc_len, is_u in *. destruct (len <? 64) eqn:E6; boolsimp.
  { apply reads_len_byte. destruct (len_byte len) as (-> & -> & _); [lia|]. apply reads_pure. }
  destruct (len <? 16384) eqn:E14; boolsimp.
  { apply reads_len_byte. assert (0 <= len / 256 < 64) as Hq by (split; [apply Z.div_pos; lia|apply Z.div_lt_upper_bound; lia]).
    destruct (len_byte (len / 256)) as (_ & _ & _ & -> & -> & _); [lia|]. simpl (1 =? _). cbv iota.
    eapply (reads_ret (rioRead 1)); [by apply reads_raw|]. intros rdb. rewrite load1_head. cbn [lift rbind].
    do 3 f_equal. rewrite Z.lor_comm, (lor_shiftl (len mod 256) (len / 256) 8);
      [|lia|apply Z.mod_pos_bound; lia]. change (2 ^ 8) with 256. pose proof (Z.div_mod len 256). lia. }
  destruct (len <=? UINT32_MAX) eqn:E32; boolsimp; apply reads_len_byte.
  - change (Z.shiftr (Z.land 128 192) 6) with 2. simpl (2 =? _). cbv iota.
    eapply (reads_ret (rioRead 4)); [apply reads_raw, zlen_be_enc|]. intros rdb. rewrite ntohl_bytes; [done|].
    unfold is_u, UINT32_MAX in *. lia.
  - change (Z.shiftr (Z.land 129 192) 6) with 2. simpl (2 =? _). cbv iota.
    eapply (reads_ret (rioRead 8)); [apply reads_raw, zlen_be_enc|]. intros rdb. by rewrite ntohu64_bytes.
Qed.

(** [rdbLoadLen], whose result [RDB_LENERR] its callers treat as an error. *)
Lemma rdbLoadLen_spec {A} `{Host} len w2 (g : Z -> bytes -> res (A * bytes)) v :
  is_u 64 len -> len <> RDB_LENERR -> reads (g len) w2 v ->
  reads (fun rdb => let? (_, n, rdb) := rdbLoadLen rdb in if n =? RDB_LENERR then Err else g n rdb) (enc_len len ++ w2) v.
Proof.
  intros Hl Hne Hg. eapply (reads_ext _ (fun rdb => let? (x, rdb) := rdbLoadLenByRef rdb in
    (fun x rdb => if x.2 =? RDB_LENERR then Err else g x.2 rdb) x rdb)).
  - intros rdb. unfold rdbLoadLen. destruct (rdbLoadLenByRef rdb) as [[[e n] r] | | |]; done.
  - eapply reads_bind; [by apply rdbLoadLenByRef_spec|]. simpl. by rewrite (proj2 (Z.eqb_neq _ _)).
Qed.

(** ** Integers *)

(** The string an object or a loaded value stands for. *)
Definition denotes (l : loaded) (s : bytes) : Prop :=
  match l with
  | Plain t | SdsString t | SdsObject t => t = s
  | IntObject v => decimal s v
  end.

Lemma is_s_mono w v : 0 < w <= 64 -> is_s w v -> is_s 64 v.
Proof. unfold is_s. intros Hw Hv. assert (2 ^ (w - 1) <= 2 ^ (64 - 1)) by (apply Z.pow_le_mono_r; lia). lia. Qed.

Lemma ll_to_bytes_spec v : is_s 32 v -> exists s, ll_to_bytes LONG_STR_SIZE v = Some s /\ decimal s v.
Proof.
  intros Hv. assert (is_s 64 v) as Hv64 by by apply (is_s_mono 32). unfold ll_to_bytes, LONG_STR_SIZE.
  destruct (ll2string_prints (replicate (Z.to_nat 21) 0) 21 v) as (s & Hs & _ & ->); [done|done|].
  assert (zlen s < 21) as Hlen.
  { rewrite (decimal_printed_length s v) by done. unfold printed_length.
    assert (digits10 (Z.abs v) <= 10) as Hd.
    { destruct (digits10_spec (Z.abs v)) as (? & ? & Hge); [unfold is_s in Hv; lia|].
      destruct (decide (digits10 (Z.abs v) <= 10)) as [? | Hgt]; [done|]. destruct Hge as [[? _] | Hge]; [lia|].
      assert (10 ^ 10 <= 10 ^ (digits10 (Z.abs v) - 1)) by (apply Z.pow_le_mono_r; lia).
      unfold is_s in Hv. change (10 ^ 10) with 10000000000 in *. lia. }
    pose proof (b2z_bound (v <? 0)). lia. }
  rewrite (proj2 (Z.ltb_lt _ _)) by done. exists s. split; [|done]. by apply (load_app []).
Qed.

(** What the loader makes of a number. *)
Lemma integer_value flags v s :
  is_s 32 v -> decimal s v -> exists l, denotes l s /\ forall (rdb : bytes),
    match flags with
    | RDB_LOAD_PLAIN => let? s := lift (ll_to_bytes LONG_STR_SIZE v) in Ok (Plain s, rdb)
    | RDB_LOAD_SDS => let? s := lift (ll_to_bytes LONG_STR_SIZE v) in Ok (SdsString s, rdb)
    | RDB_LOAD_ENC => Ok (IntObject v, rdb)
    | RDB_LOAD_NONE => let? s := lift (sdsfromlonglong (replicate 21 0) v) in Ok (SdsObject s, rdb)
    end = Ok (l, rdb).
Proof.
  intros Hv Hs. destruct (ll_to_bytes_spec v Hv) as (t & Ht & Hd).
  destruct (sdsfromlonglong_spec (replicate 21 0) v) as (t' & Ht' & Hd'); [by apply (is_s_mono 32)|done|].
  rewrite Ht, Ht'. assert (t = s) as -> by by eapply decimal_unique. assert (t' = s) as -> by by eapply decimal_unique.
  destruct flags; [by exists (SdsObject s)|by exists (IntObject v)|by exists (Plain s)|by exists (SdsString s)].
Qed.

Lemma encode_cases v :
  is_s 8 v /\ rdbEncodeInteger v = 192 :: le_enc 1 v \/
  is_s 16 v /\ rdbEncodeInteger v = 193 :: le_enc 2 v \/
  is_s 32 v /\ rdbEncodeInteger v = 194 :: le_enc 4 v \/
  ~ is_s 32 v /\ rdbEncodeInteger v = [].
Proof.
  unfold rdbEncodeInteger, is_s. change (Z.shiftl 1 7) with 128. change (Z.shiftl 1 15) with 32768.
  change (Z.shiftl 1 31) with 2147483648. rewrite !Z.geb_leb.
  assert (forall a b x y, (a <=? x) && (x <=? b) = y -> (y = true -> a <= x <= b) /\ (y = false -> x < a \/ b < x)) as Hb.
  { intros a b x y <-. split; intros Hy; [boolsimp; lia|]. apply andb_false_iff in Hy as [Hy | Hy]; boolsimp; lia. }
  destruct (_ && _) eqn:E8; [left|right]; apply Hb in E8 as [E1 E2].
  { specialize (E1 eq_refl). split; [lia|]. by rewrite u8_land0. }
  specialize (E2 eq_refl). clear E1. destruct (_ && _) eqn:E16; [left|right]; apply Hb in E16 as [E3 E4].
  { specialize (E3 eq_refl). split; [lia|]. by rewrite <- chars_le2'. }
  specialize (E4 eq_refl). clear E3. destruct (_ && _) eqn:E32; [left|right]; apply Hb in E32 as [E5 E6].
  { specialize (E5 eq_refl). split; [lia|]. by rewrite <- chars_le4'. }
  specialize (E6 eq_refl). split; [lia|done].
Qed.

Lemma load_integer_spec flags v s k n :
  decimal s v ->
  (k = RDB_ENC_INT8 /\ n = 1%nat /\ is_s 8 v \/ k = RDB_ENC_INT16 /\ n = 2%nat /\ is_s 16 v \/
   k = RDB_ENC_INT32 /\ n = 4%nat /\ is_s 32 v) ->
  exists l, denotes l s /\ reads (rdbLoadIntegerObject k flags) (le_enc n v) l.
Proof.
  intros Hs Hk. assert (is_s 32 v) as Hv by (unfold is_s in *; lia).
  destruct (integer_value flags v s Hv Hs) as (l & Hl & Hfin). exists l. split; [done|].
  assert (forall f, reads f (le_enc n v) v -> reads (fun rdb => let? (val, rdb) := f rdb in
    match flags with
    | RDB_LOAD_PLAIN => let? s := lift (ll_to_bytes LONG_STR_SIZE val) in Ok (Plain s, rdb)
    | RDB_LOAD_SDS => let? s := lift (ll_to_bytes LONG_STR_SIZE val) in Ok (SdsString s, rdb)
    | RDB_LOAD_ENC => Ok (IntObject val, rdb)
    | RDB_LOAD_NONE => let? s := lift (sdsfromlonglong (replicate 21 0) val) in Ok (SdsObject s, rdb)
    end) (le_enc n v) l) as Hread.
  { intros f Hf. eapply (reads_ret f (fun val rdb => match flags with
    | RDB_LOAD_PLAIN => let? s := lift (ll_to_bytes LONG_STR_SIZE val) in Ok (Plain s, rdb)
    | RDB_LOAD_SDS => let? s := lift (ll_to_bytes LONG_STR_SIZE val) in Ok (SdsString s, rdb)
    | RDB_LOAD_ENC => Ok (IntObject val, rdb)
    | RDB_LOAD_NONE => let? s := lift (sdsfromlonglong (replicate 21 0) val) in Ok (SdsObject s, rdb)
    end)); [exact Hf|exact Hfin]. }
  unfold rdbLoadIntegerObject. apply Hread. clear Hread Hfin.
  destruct Hk as [(-> & -> & H8) | [(-> & -> & H16) | (-> & -> & H32)]]; simpl (_ =? _); cbv iota.
  - eapply (reads_ret (rioRead 1)); [by apply reads_raw|]. intros rdb. rewrite !le_enc_S, load1_head. cbn [lift rbind].
    do 2 f_equal. by apply (sN_uN_id 8).
  - eapply (reads_ret (rioRead 2)); [by apply reads_raw|]. intros rdb.
    pose proof (le_enc_ok 2 v) as Hok. pose proof (le_dec_enc 2 v) as Hdec.
    destruct (le_enc 2 v) as [|b0 [|b1 [|]]] eqn:Ele; try (by apply (f_equal length) in Ele).
    change (load1 [b0; b1] 0) with (Some b0). change (load1 [b0; b1] 1) with (Some b1). cbn [lift rbind].
    rewrite lor_le2, Hdec; [|by apply Forall_cons in Hok as [? _]; constructor].
    do 2 f_equal. rewrite sN_uN by done. by apply (sN_uN_id 16).
  - eapply (reads_ret (rioRead 4)); [by apply reads_raw|]. intros rdb.
    pose proof (le_enc_ok 4 v) as Hok. pose proof (le_dec_enc 4 v) as Hdec.
    destruct (le_enc 4 v) as [|b0 [|b1 [|b2 [|b3 [|]]]]] eqn:Ele; try (by apply (f_equal length) in Ele).
    change (load1 [b0; b1; b2; b3] 0) with (Some b0). change (load1 [b0; b1; b2; b3] 1) with (Some b1).
    change (load1 [b0; b1; b2; b3] 2) with (Some b2). change (load1 [b0; b1; b2; b3] 3) with (Some b3). cbn [lift rbind].
    rewrite lor_le4, Hdec; [|unfold bytes_ok in *; decompose_Forall_hyps; do 3 (apply Forall_cons_2; [done|]); apply Forall_nil_2].
    do 2 f_equal. rewrite sN_uN by done. by apply (sN_uN_id 32).
Qed.

(** ** Integer encoding of strings *)

Lemma strtoll_bound p : is_s 64 (strtoll p).1.
Proof.
  unfold strtoll. destruct (match skip_spaces p with [] => _ | _ => _ end) as [neg q].
  destruct (match q with c :: _ => isdigit c | [] => false end); [|done].
  destruct (digits_value q 0) as [v r]. simpl. unfold is_s, LLONG_MIN, LLONG_MAX, INT64_MIN, INT64_MAX. lia.
Qed.

Lemma decimal_nonzero s v : decimal s v -> Forall (fun b => b <> 0) s.
Proof.
  intros [(_ & Hd & _) | (t & -> & _ & (_ & Hd & _))]; [|apply Forall_cons_2; [done|]];
    (eapply Forall_impl; [exact Hd|]); unfold digit; intros; lia.
Qed.
Lemma cstr_app D R : Forall (fun b => b <> 0) D -> cstr (D ++ 0 :: R) = D.
Proof. induction 1 as [|c D Hc _ IH]; [done|]. cbn [app cstr]. by rewrite (proj2 (Z.eqb_neq c 0)), IH. Qed.

Lemma try_value s v rest :
  strtoll s = (v, rest) ->
  (decimal s v /\ at_ rest 0 = 0) /\ rdbTryIntegerEncoding s = Some (rdbEncodeInteger v) \/
  ~ (decimal s v /\ at_ rest 0 = 0) /\ rdbTryIntegerEncoding s = Some [].
Proof.
  intros Hst. pose proof (strtoll_bound s) as Hv. rewrite Hst in Hv. simpl in Hv.
  unfold rdbTryIntegerEncoding. rewrite Hst. destruct (at_ rest 0 =? 0) eqn:E0; boolsimp; cbn [negb].
  2: { right. split; [tauto|done]. }
  destruct (ll2string_prints (replicate 32 0) 32 v) as (D & HD & _ & ->); [done|done|].
  assert (zlen D < 32) as Hlen.
  { rewrite (decimal_printed_length D v) by done. pose proof (printed_length_bound v Hv). lia. }
  rewrite (proj2 (Z.ltb_lt _ _)) by done. rewrite cstr_app by by eapply decimal_nonzero.
  assert (forall n, n = zlen D -> load (D ++ 0 :: drop (Z.to_nat (zlen D + 1)) (replicate 32 0)) 0 n = Some D) as Hload
    by (intros n ->; by apply (load_app [])).
  destruct (decide (s = D)) as [-> | Hn].
  - left. rewrite Z.eqb_refl, Hload by done. cbn [negb]. by rewrite decide_True.
  - right. split; [intros [Hs _]; destruct Hn; by eapply decimal_unique|].
    destruct (zlen D =? zlen s) eqn:El; boolsimp; cbn [negb]; [|done].
    rewrite Hload by done. rewrite decide_False; [done|]. by intros ->.
Qed.

(** ** Strings *)

(** The slots of the hash table are [unsigned int]s. *)
Class StackOk `{Stack} := stack_u32 : forall i, is_u 32 (lzf_stack i).

(** [c] is what LZF makes of [s]. *)
Definition compressed (c s : bytes) : Prop := dec c [] s /\ 0 < zlen c < zlen s /\ bytes_ok s /\ zlen s < 2 ^ 32.

Lemma lzf_save_spec (W : Host) `{Alloc} `{StackOk} `{Rio} s out :
  zlen s < 2 ^ 32 -> bytes_ok s ->
  rdbSaveLzfStringObject s out = Ok (0, out) \/
  exists c, compressed c s /\
    writes (rdbSaveLzfStringObject s out) out (195 :: enc_len (zlen c) ++ enc_len (zlen s) ++ c).
Proof.
  intros Hs Hok. unfold rdbSaveLzfStringObject. destruct (zlen s <=? 4) eqn:E4; boolsimp; [by left|].
  rewrite !(uN_small 32) by lia. rewrite take_ge by (unfold zlen; lia).
  destruct (realloc_grow [] (zlen s - 4 + 1)) as (J & -> & HJ & _); [zlia|]. cbn [app].
  destruct (compress_spec lzf_stack s J (zlen s - 4)) as ([[n buf]|] & -> & Hr); [lia|done|apply stack_u32|zlia| |by left].
  destruct Hr as (Hn & Hbuf & Hd). right. cbn [lift rbind].
  assert (load buf 0 n = Some (take (Z.to_nat n) buf)) as ->.
  { unfold load. rewrite decide_True by lia. by rewrite drop_0. }
  cbn [lift rbind]. set (c := take (Z.to_nat n) buf) in *.
  assert (zlen c = n) as Hc by (unfold c; rewrite zlen_take; lia).
  exists c. split; [split; [done|]; split; [lia|done]|]. clearbody c. unfold rdbSaveLzfBlob.
  change (u8 (Z.lor (Z.shiftl RDB_ENCVAL 6) RDB_ENC_LZF)) with 195.
  eapply writes_bind; [apply writes_raw|]. cbn beta iota.
  destruct (rdbSaveLen_spec (zlen c) (out ++ [195])) as [-> | [-> ?]]; [unfold is_u; zlia| |by right]. cbn [rbind].
  destruct (rdbSaveLen_spec (zlen s) ((out ++ [195]) ++ enc_len (zlen c))) as [-> | [-> ?]]; [unfold is_u; zlia| |by right]. cbn [rbind].
  destruct (writes_raw c (((out ++ [195]) ++ enc_len (zlen c)) ++ enc_len (zlen s))) as [-> | [-> ?]]; [left|by right]. cbn [rbind].
  rewrite <- !app_assoc. do 2 f_equal. zlia.
Qed.

(** What follows a first byte that announces an encoding. *)
Lemma generic_encoded (R : Host) `{Alloc} k flags w (l : loaded) :
  0 <= k < 4 ->
  reads (fun rdb =>
    if (k =? RDB_ENC_INT8) || (k =? RDB_ENC_INT16) || (k =? RDB_ENC_INT32) then rdbLoadIntegerObject k flags rdb
    else if k =? RDB_ENC_LZF then rdbLoadLzfStringObject flags rdb else Exit) w l ->
  reads (rdbGenericLoadStringObject flags) (192 + k :: w) l.
Proof.
  intros Hk Hw. assert (reads rdbLoadLenByRef [192 + k] (true, k)) as Hl.
  { apply reads_len_byte. assert (k = 0 \/ k = 1 \/ k = 2 \/ k = 3) as [-> | [-> | [-> | ->]]] by lia; apply reads_pure. }
  change (192 + k :: w) with ([192 + k] ++ w).
  eapply (reads_ext _ (fun rdb => let? (x, rdb) := rdbLoadLenByRef rdb in
    (fun (x : bool * Z) rdb => let '(isencoded, len) := x in
     if isencoded : bool then
       if (len =? RDB_ENC_INT8) || (len =? RDB_ENC_INT16) || (len =? RDB_ENC_INT32) then rdbLoadIntegerObject len flags rdb
       else if len =? RDB_ENC_LZF then rdbLoadLzfStringObject flags rdb else Exit
     else if len =? RDB_LENERR then Err else
     let? (buf, rdb) := (if negb (len =? 0) then rioRead len rdb else Ok ([], rdb)) in
     Ok (match flags with RDB_LOAD_PLAIN => Plain buf | RDB_LOAD_SDS => SdsString buf | _ => SdsObject buf end, rdb)) x rdb)).
  - intros rdb. unfold rdbGenericLoadStringObject, rdbLoadLen. destruct (rdbLoadLenByRef rdb) as [[[e n] r] | | |]; done.
  - eapply reads_bind; [exact Hl|]. exact Hw.
Qed.

Definition string_result (flags : load_flags) (s : bytes) : loaded :=
  match flags with RDB_LOAD_PLAIN => Plain s | RDB_LOAD_SDS => SdsString s | _ => SdsObject s end.

Lemma generic_verbatim (R : Host) `{Alloc} flags s :
  zlen s < RDB_LENERR -> reads (rdbGenericLoadStringObject flags) (enc_len (zlen s) ++ s) (string_result flags s).
Proof.
  intros Hs. assert (is_u 64 (zlen s)) as Hu by (unfold is_u, RDB_LENERR, UINT64_MAX in *; zlia).
  eapply (reads_ext _ (fun rdb => let? (x, rdb) := rdbLoadLenByRef rdb in
    (fun (x : bool * Z) rdb => let '(isencoded, len) := x in
     if isencoded : bool then
       if (len =? RDB_ENC_INT8) || (len =? RDB_ENC_INT16) || (len =? RDB_ENC_INT32) then rdbLoadIntegerObject len flags rdb
       else if len =? RDB_ENC_LZF then rdbLoadLzfStringObject flags rdb else Exit
     else if len =? RDB_LENERR then Err else
     let? (buf, rdb) := (if negb (len =? 0) then rioRead len rdb else Ok ([], rdb)) in
     Ok (string_result flags buf, rdb)) x rdb)).
  - intros rdb. unfold rdbGenericLoadStringObject, rdbLoadLen. destruct (rdbLoadLenByRef rdb) as [[[e n] r] | | |]; done.
  - eapply reads_bind; [by apply rdbLoadLenByRef_spec|]. cbv beta iota. rewrite (proj2 (Z.eqb_neq _ RDB_LENERR)) by lia.
    eapply (reads_ret (fun rdb => if negb (zlen s =? 0) then rioRead (zlen s) rdb else Ok ([], rdb)) (fun buf rdb => Ok (string_result flags buf, rdb)) s s); [|done].
    destruct (zlen s =? 0) eqn:E; boolsimp; cbn [negb]; [apply zlen_0_inv in E; subst; apply reads_pure|by apply reads_raw].
Qed.

Lemma generic_lzf (R : Host) `{Alloc} flags s c :
  compressed c s ->
  reads (rdbGenericLoadStringObject flags) (195 :: enc_len (zlen c) ++ enc_len (zlen s) ++ c) (string_result flags s).
Proof.
  intros (Hd & Hc & Hok & Hs). apply (generic_encoded R 3); [lia|]. simpl (3 =? _). cbn [orb].
  assert (is_u 64 (zlen s) /\ is_u 64 (zlen c)) as [Hus Huc] by (unfold is_u; lia).
  assert (zlen s < RDB_LENERR) as Hmax by (unfold RDB_LENERR, UINT64_MAX; lia).
  pose (finish := fun clen len c (rdb : bytes) =>
    let? r := lift (lzf_decompress (take (Z.to_nat (u32 clen)) c) (realloc [] len) (u32 len)) in
    match r with None => Exit | Some (_, val) => Ok (string_result flags val, rdb) end).
  unfold rdbLoadLzfStringObject. apply (rdbLoadLen_spec (zlen c) _ (fun clen rdb =>
    let? (_, len, rdb) := rdbLoadLen rdb in if len =? RDB_LENERR then Err else
    let? (z, rdb) := rioRead clen rdb in finish clen len z rdb)); [done|lia|].
  apply (rdbLoadLen_spec (zlen s) _ (fun len rdb =>
    let? (z, rdb) := rioRead (zlen c) rdb in finish (zlen c) len z rdb)); [done|lia|].
  eapply (reads_ret (rioRead (zlen c))); [by apply reads_raw|]. intros rdb. unfold finish.
  rewrite !(uN_small 32), take_ge by (unfold zlen in *; lia).
  destruct (realloc_grow [] (zlen s)) as (J & -> & HJ & _); [zlia|]. cbn [app].
  rewrite dec_decompress by (auto; zlia). cbn [lift rbind].
  rewrite drop_ge by (unfold zlen in *; simpl in *; lia). by rewrite app_nil_r.
Qed.

(** [w] is the string [s] in the RDB format: every loader on every host reads it back. *)
Definition represents (w s : bytes) : Prop :=
  forall (R : Host) (A : Alloc) flags, exists l, denotes l s /\ reads (rdbGenericLoadStringObject flags) w l.

Lemma represents_integer s v :
  decimal s v -> rdbEncodeInteger v <> [] -> represents (rdbEncodeInteger v) s.
Proof.
  intros Hs Hne R A flags. destruct (encode_cases v) as [[H8 ->] | [[H16 ->] | [[H32 ->] | [_ ?]]]]; [..|done].
  - destruct (load_integer_spec flags v s RDB_ENC_INT8 1 Hs) as (l & Hl & Hr); [auto|]. exists l. split; [done|].
    by apply (generic_encoded R 0).
  - destruct (load_integer_spec flags v s RDB_ENC_INT16 2 Hs) as (l & Hl & Hr); [auto|]. exists l. split; [done|].
    by apply (generic_encoded R 1).
  - destruct (load_integer_spec flags v s RDB_ENC_INT32 4 Hs) as (l & Hl & Hr); [auto|]. exists l. split; [done|].
    by apply (generic_encoded R 2).
Qed.
Lemma represents_verbatim s : zlen s < RDB_LENERR -> represents (enc_len (zlen s) ++ s) s.
Proof. intros Hs R A flags. exists (string_result flags s). split; [by destruct flags|by apply generic_verbatim]. Qed.

Lemma writes_verbatim (W : Host) `{Rio} s out :
  zlen s < RDB_LENERR ->
  writes (let? (n, out) := rdbSaveLen (zlen s) out in
          if zlen s >? 0 then let? (_, out) := rdbWriteRaw s out in Ok (n + zlen s, out) else Ok (n, out))
    out (enc_len (zlen s) ++ s).
Proof.
  intros Hs. eapply writes_bind; [apply rdbSaveLen_spec; unfold is_u, RDB_LENERR, UINT64_MAX in *; zlia|]. cbv beta iota.
  destruct (zlen s >? 0) eqn:E; boolsimp.
  - destruct (writes_raw s (out ++ enc_len (zlen s))) as [-> | [-> ?]]; [left|by right]. cbn [rbind].
    rewrite <- app_assoc. do 2 f_equal. zlia.
  - assert (s = []) as -> by (apply zlen_0_inv; zlia). left. by rewrite app_nil_r.
Qed.

Lemma save_raw_spec (W : Host) `{Alloc} `{StackOk} `{Rio} comp s out :
  zlen s < 2 ^ 32 -> bytes_ok s -> exists w, writes (rdbSaveRawString comp s out) out w /\ represents w s.
Proof.
  intros Hs32 Hok. assert (zlen s < RDB_LENERR) as Hs by (unfold RDB_LENERR, UINT64_MAX; lia). unfold rdbSaveRawString.
  assert (exists enc, (if zlen s <=? 11 then rdbTryIntegerEncoding s else Some []) = Some enc /\
    (enc = [] \/ exists v, decimal s v /\ enc = rdbEncodeInteger v)) as (enc & -> & Henc).
  { destruct (zlen s <=? 11); [|eauto]. destruct (strtoll s) as [v rest] eqn:Est.
    destruct (try_value s v rest Est) as [[[? _] ->] | [_ ->]]; eauto 10. }
  cbn [lift rbind]. destruct enc as [|b enc].
  - assert (writes (let? (n, out) := rdbSaveLen (zlen s) out in
          if zlen s >? 0 then let? (_, out) := rdbWriteRaw s out in Ok (n + zlen s, out) else Ok (n, out))
    out (enc_len (zlen s) ++ s)) as Hverb by by apply writes_verbatim.
    destruct (comp && (zlen s >? 20)).
    + destruct (lzf_save_spec W s out Hs32 Hok) as [-> | (c & Hc & Hw)].
      * cbn [rbind]. eexists. split; [exact Hverb|by apply represents_verbatim].
      * eexists. split.
        -- eapply writes_bind; [exact Hw|]. cbv beta iota. rewrite (proj2 (Z.gtb_lt _ _)) by (rewrite zlen_cons; zlia). by left.
        -- intros R A flags. exists (string_result flags s). split; [by destruct flags|by apply generic_lzf].
    + cbn [rbind]. eexists. split; [exact Hverb|by apply represents_verbatim].
  - destruct Henc as [? | (v & Hv & Hev)]; [done|]. exists (b :: enc). split.
    + eapply writes_bind; [apply writes_raw|]. by left.
    + rewrite Hev. apply represents_integer; [done|]. by rewrite <- Hev.
Qed.

Lemma save_longlong_spec (W : Host) `{Rio} v s out :
  is_s 64 v -> decimal s v -> exists w, writes (rdbSaveLongLongAsStringObject v out) out w /\ represents w s.
Proof.
  intros Hv Hs. unfold rdbSaveLongLongAsStringObject. destruct (rdbEncodeInteger v) as [|b enc] eqn:Ee.
  - destruct (ll2string_prints (replicate 32 0) 32 v) as (D & HD & _ & ->); [done|done|].
    assert (D = s) as -> by by eapply decimal_unique.
    assert (zlen s < 32) as Hlen by (rewrite (decimal_printed_length s v) by done; pose proof (printed_length_bound v Hv); lia).
    rewrite (proj2 (Z.ltb_lt _ _)) by done. cbv iota. rewrite (proj2 (Z.ltb_lt _ _)) by done. cbn [negb].
    assert (load (s ++ 0 :: drop (Z.to_nat (zlen s + 1)) (replicate 32 0)) 0 (zlen s) = Some s) as -> by by apply (load_app []).
    exists (enc_len (zlen s) ++ s). split; [|apply represents_verbatim; unfold RDB_LENERR, UINT64_MAX; lia].
    eapply writes_bind; [apply rdbSaveLen_spec; unfold is_u; zlia|]. cbn [lift rbind].
    destruct (writes_raw s (out ++ enc_len (zlen s))) as [-> | [-> ?]]; [left|by right]. cbn [rbind].
    rewrite <- app_assoc. do 2 f_equal. zlia.
  - exists (b :: enc). split; [apply writes_raw|]. rewrite <- Ee. apply represents_integer; [done|]. by rewrite Ee.
Qed.

(** The string a string object in memory stands for. *)
Definition object_denotes (o : string_object) (s : bytes) : Prop :=
  match o with ObjInt v => is_s 64 v /\ decimal s v | ObjSds t => t = s /\ bytes_ok s end.

(** C21. Strings survive the RDB format.  A string object, saved by [rdbSaveStringObject] on any
    host, as a number, compressed or verbatim, is loaded back as the same string by
    [rdbGenericLoadStringObject] with any flags on any host, whatever follows it in the file;
    the writer reports the number of bytes it wrote and fails only when a write does; every
    truncated representation is reported as an error.  The compressor is that of lzf_c.c,
    whatever its hash table starts with; strings are shorter than 4 GiB. *)
Theorem rdb_string_roundtrip (W : Host) `{Alloc} `{StackOk} `{Rio} comp o s out :
  object_denotes o s -> zlen s < 2 ^ 32 ->
  exists w, (rdbSaveStringObject comp o out = Ok (zlen w, out ++ w) \/
             rdbSaveStringObject comp o out = Err /\ exists x p, rio_ok x p = false) /\
    forall (R : Host) (A : Alloc) flags,
      (exists l, denotes l s /\ forall tail, rdbGenericLoadStringObject flags (w ++ tail) = Ok (l, tail)) /\
      (forall p q, q <> [] -> p ++ q = w -> rdbGenericLoadStringObject flags p = Err).
Proof.
  intros Ho Hs. assert (exists w, writes (rdbSaveStringObject comp o out) out w /\ represents w s) as (w & Hw & Hr).
  { destruct o as [v | t]; simpl in *; [destruct Ho; by apply save_longlong_spec|destruct Ho as [-> ?]; by apply save_raw_spec]. }
  exists w. split; [exact Hw|]. intros R A flags. destruct (Hr R A flags) as (l & Hl & Hrd & Htr). eauto.
Qed.

(** Lengths survive: [rdbSaveLen] writes one, two, five or nine bytes, and
    [rdbLoadLenByRef] reads the length back on any host and reports every truncation. *)
Theorem rdb_len_roundtrip (W R : Host) `{Rio} len out :
  is_u 64 len ->
  exists w, (@rdbSaveLen W _ len out = Ok (zlen w, out ++ w) \/
             @rdbSaveLen W _ len out = Err /\ exists x p, rio_ok x p = false) /\
    zlen w = (if len <? 2 ^ 6 then 1 else if len <? 2 ^ 14 then 2 else if len <? 2 ^ 32 then 5 else 9) /\
    (forall tail, @rdbLoadLenByRef R (w ++ tail) = Ok (false, len, tail)) /\
    (forall p q, q <> [] -> p ++ q = w -> @rdbLoadLenByRef R p = Err).
Proof.
  intros Hl. exists (enc_len len). split; [by apply rdbSaveLen_spec|]. split; [|by apply rdbLoadLenByRef_spec].
  unfold enc_len, UINT32_MAX. change (2 ^ 6) with 64. change (2 ^ 14) with 16384. change (2 ^ 32) with 4294967296.
  change (4294967296 - 1) with 4294967295.
  repeat casif; try lia; rewrite ?zlen_cons, ?zlen_be_enc; done.
Qed.

(** Times survive: a time saved on any host is loaded back on any host for RDB versions
    from 9 on, and on hosts of the same byte order for all versions. *)
Theorem rdb_time_roundtrip (W R : Host) `{Rio} t out rdbver tail :
  is_s 64 t -> rdbver >= 9 \/ @big_endian W = false /\ @big_endian R = false ->
  exists w, (@rdbSaveMillisecondTime W _ t out = Ok (8, out ++ w) \/
             @rdbSaveMillisecondTime W _ t out = Err /\ exists x p, rio_ok x p = false) /\
    @rdbLoadMillisecondTime R rdbver (w ++ tail) = Ok (t, tail).
Proof.
  intros Ht Hver. exists (le_enc 8 t). split.
  - unfold rdbSaveMillisecondTime. pose proof (@memrev64ifbe_host W [] t [] 0 eq_refl) as Hm.
    rewrite !app_nil_r in Hm. simpl app in Hm. rewrite Hm. cbn [lift rbind].
    exact (writes_raw (le_enc 8 t) out).
  - unfold rdbLoadMillisecondTime. destruct (reads_raw 8 (le_enc 8 t)) as [-> _]; [zlia|].
    assert (exists b, (if rdbver >=? 9 then @memrev64ifbe R (le_enc 8 t) 0 else Some (le_enc 8 t)) = Some b /\
      @host_dec R b = le_dec (le_enc 8 t)) as (b & -> & Hb).
    { destruct (rdbver >=? 9) eqn:E; [apply (@memrev64ifbe_dec R); [apply le_enc_ok|zlia]|].
      eexists. split; [done|]. rewrite Z.geb_leb in E. boolsimp. destruct Hver as [? | [_ HR]]; [lia|].
      unfold host_dec. by rewrite HR. }
    cbn [lift rbind]. rewrite Hb, le_dec_enc. do 2 f_equal. by apply (sN_uN_id 64).
Qed.

(** ** Examples: a little endian writer, a big endian reader *)

Module Example_rdb.

#[local] Instance accepting : Rio := fun _ _ => true.
#[local] Instance garbage : Alloc := fun i => i.
#[local] Instance garbage_stack : Stack := fun i => u32 i.
#[local] Instance garbage_stack_ok : StackOk.
Proof. intros i. by apply uN_bound. Defined.

(** Forty times the same letter, which is saved compressed *)
Lemma rdb_string_roundtrip_witness :
  exists w, (@rdbSaveStringObject false _ _ _ true (ObjSds (replicate 40 97)) [] = Ok (zlen w, w) \/
             @rdbSaveStringObject false _ _ _ true (ObjSds (replicate 40 97)) [] = Err /\ exists x p, rio_ok x p = false) /\
    forall (R : Host) (A : Alloc) flags,
      (exists l, denotes l (replicate 40 97) /\ forall tail, rdbGenericLoadStringObject flags (w ++ tail) = Ok (l, tail)) /\
      (forall p q, q <> [] -> p ++ q = w -> rdbGenericLoadStringObject flags p = Err).
Proof.
  apply (rdb_string_roundtrip false true (ObjSds (replicate 40 97)) (replicate 40 97) []); [|done].
  split; [done|]. apply Forall_replicate. unfold byte_ok. lia.
Defined.

Example rdb_save_compressed :
  @rdbSaveStringObject false _ _ _ true (ObjSds (replicate 40 97)) [] = Ok (12, [195; 9; 40; 1; 97; 97; 224; 27; 0; 1; 97; 97]).
Proof. vm_compute. reflexivity. Qed.

Lemma rdb_len_roundtrip_witness :
  exists w, (@rdbSaveLen false _ 70000 [] = Ok (zlen w, w) \/
             @rdbSaveLen false _ 70000 [] = Err /\ exists x p, rio_ok x p = false) /\
    zlen w = 5 /\
    (forall tail, @rdbLoadLenByRef true (w ++ tail) = Ok (false, 70000, tail)) /\
    (forall p q, q <> [] -> p ++ q = w -> @rdbLoadLenByRef true p = Err).
Proof. apply (rdb_len_roundtrip false true 70000 []). by vm_compute. Defined.

Lemma rdb_time_roundtrip_witness :
  exists w, (@rdbSaveMillisecondTime false _ (-2) [] = Ok (8, w) \/
             @rdbSaveMillisecondTime false _ (-2) [] = Err /\ exists x p, rio_ok x p = false) /\
    @rdbLoadMillisecondTime true 9 (w ++ [1; 2]) = Ok (-2, [1; 2]).
Proof. apply (rdb_time_roundtrip false true (-2) [] 9 [1; 2]); [by vm_compute|by left]. Defined.
End Example_rdb.
