(* ===== verification/Cluster.v ===== *)
(** * The cluster: nodes, slots, elections (cluster.c)

    One node's view of the cluster, [server.cluster]: the table of nodes it knows, the owner of
    every hash slot, and the state of the election of a replica.  A pointer to a node is its
    name; [None] is a failed assertion or a name that is not in the table.  What a handler does
    outside this state, messages, replication, deleted keys, is a list of [effect]s.  The
    functions for the messages FAIL, FAILOVER_AUTH_REQUEST, FAILOVER_AUTH_ACK, MFSTART and
    UPDATE are whole; a message is its header, already checked for its length. *)

From Stdlib Require Import ZArith Lia.
From stdpp Require Import base numbers option gmap list.
From S2P Require Import Prelude Memory Sds.

Local Open Scope Z_scope.
Local Open Scope redis_scope.

Definition CLUSTER_SLOTS : Z := 16384.
Definition CLUSTER_OK : Z := 0.
Definition CLUSTER_FAIL : Z := 1.
Definition CLUSTER_MF_TIMEOUT : Z := 5000.
Definition CLUSTER_MF_PAUSE_MULT : Z := 2.
Definition CLUSTER_NODE_MASTER : Z := 1.
Definition CLUSTER_NODE_SLAVE : Z := 2.
Definition CLUSTER_NODE_PFAIL : Z := 4.
Definition CLUSTER_NODE_FAIL : Z := 8.
Definition CLUSTER_NODE_MYSELF : Z := 16.
Definition CLUSTER_NODE_HANDSHAKE : Z := 32.
Definition CLUSTER_NODE_MIGRATE_TO : Z := 256.
Definition CLUSTER_NODE_NOFAILOVER : Z := 512.
Definition CLUSTER_CANT_FAILOVER_NONE : Z := 0.
Definition CLUSTER_CANT_FAILOVER_DATA_AGE : Z := 1.
Definition CLUSTER_CANT_FAILOVER_WAITING_DELAY : Z := 2.
Definition CLUSTER_CANT_FAILOVER_EXPIRED : Z := 3.
Definition CLUSTER_CANT_FAILOVER_WAITING_VOTES : Z := 4.
Definition CLUSTER_TODO_HANDLE_FAILOVER : Z := Z.shiftl 1 0.
Definition CLUSTER_TODO_UPDATE_STATE : Z := Z.shiftl 1 1.
Definition CLUSTER_TODO_SAVE_CONFIG : Z := Z.shiftl 1 2.
Definition CLUSTER_TODO_FSYNC_CONFIG : Z := Z.shiftl 1 3.
Definition CLUSTERMSG_FLAG0_PAUSED : Z := Z.shiftl 1 0.
Definition CLUSTERMSG_FLAG0_FORCEACK : Z := Z.shiftl 1 1.
Definition CLUSTER_MAX_REJOIN_DELAY : Z := 5000.
Definition CLUSTER_MIN_REJOIN_DELAY : Z := 500.
Definition CLUSTER_WRITABLE_DELAY : Z := 2000.

Abbreviation nodename := bytes.

(** ** State *)

Record clusterNode := ClusterNode {
  name : nodename;
  flags : Z;
  configEpoch : Z;
  slots : bytes;
  numslots : Z;
  slaves : list nodename;
  slaveof : option nodename;
  fail_time : Z;
  voted_time : Z;
  repl_offset : Z;
  data_received : Z;
  repl_offset_time : Z;
  link : bool }.
Definition set_flags (v : Z) (n : clusterNode) : clusterNode :=
  ClusterNode (name n) v (configEpoch n) (slots n) (numslots n) (slaves n) (slaveof n) (fail_time n) (voted_time n) (repl_offset n) (data_received n) (repl_offset_time n) (link n).
Definition set_configEpoch (v : Z) (n : clusterNode) : clusterNode :=
  ClusterNode (name n) (flags n) v (slots n) (numslots n) (slaves n) (slaveof n) (fail_time n) (voted_time n) (repl_offset n) (data_received n) (repl_offset_time n) (link n).
Definition set_slots (v : bytes) (n : clusterNode) : clusterNode :=
  ClusterNode (name n) (flags n) (configEpoch n) v (numslots n) (slaves n) (slaveof n) (fail_time n) (voted_time n) (repl_offset n) (data_received n) (repl_offset_time n) (link n).
Definition set_numslots (v : Z) (n : clusterNode) : clusterNode :=
  ClusterNode (name n) (flags n) (configEpoch n) (slots n) v (slaves n) (slaveof n) (fail_time n) (voted_time n) (repl_offset n) (data_received n) (repl_offset_time n) (link n).
Definition set_slaves (v : list nodename) (n : clusterNode) : clusterNode :=
  ClusterNode (name n) (flags n) (configEpoch n) (slots n) (numslots n) v (slaveof n) (fail_time n) (voted_time n) (repl_offset n) (data_received n) (repl_offset_time n) (link n).
Definition set_slaveof (v : option nodename) (n : clusterNode) : clusterNode :=
  ClusterNode (name n) (flags n) (configEpoch n) (slots n) (numslots n) (slaves n) v (fail_time n) (voted_time n) (repl_offset n) (data_received n) (repl_offset_time n) (link n).
Definition set_fail_time (v : Z) (n : clusterNode) : clusterNode :=
  ClusterNode (name n) (flags n) (configEpoch n) (slots n) (numslots n) (slaves n) (slaveof n) v (voted_time n) (repl_offset n) (data_received n) (repl_offset_time n) (link n).
Definition set_voted_time (v : Z) (n : clusterNode) : clusterNode :=
  ClusterNode (name n) (flags n) (configEpoch n) (slots n) (numslots n) (slaves n) (slaveof n) (fail_time n) v (repl_offset n) (data_received n) (repl_offset_time n) (link n).
Definition set_repl_offset (v : Z) (n : clusterNode) : clusterNode :=
  ClusterNode (name n) (flags n) (configEpoch n) (slots n) (numslots n) (slaves n) (slaveof n) (fail_time n) (voted_time n) v (data_received n) (repl_offset_time n) (link n).
Definition set_data_received (v : Z) (n : clusterNode) : clusterNode :=
  ClusterNode (name n) (flags n) (configEpoch n) (slots n) (numslots n) (slaves n) (slaveof n) (fail_time n) (voted_time n) (repl_offset n) v (repl_offset_time n) (link n).
Definition set_repl_offset_time (v : Z) (n : clusterNode) : clusterNode :=
  ClusterNode (name n) (flags n) (configEpoch n) (slots n) (numslots n) (slaves n) (slaveof n) (fail_time n) (voted_time n) (repl_offset n) (data_received n) v (link n).

(** The fields of [clusterState], and the two static variables of [clusterUpdateState]; a slot
    without an entry is NULL. *)
Record clusterState := ClusterState {
  myself : nodename;
  currentEpoch : Z;
  state : Z;
  size : Z;
  nodes : gmap nodename clusterNode;
  migrating_slots_to : gmap Z nodename;
  importing_slots_from : gmap Z nodename;
  cslots : gmap Z nodename;
  slots_keys_count : gmap Z Z;
  failover_auth_time : Z;
  failover_auth_count : Z;
  failover_auth_sent : bool;
  failover_auth_rank : Z;
  failover_auth_epoch : Z;
  cant_failover_reason : Z;
  mf_end : Z;
  mf_slave : option nodename;
  mf_master_offset : Z;
  mf_can_start : bool;
  lastVoteEpoch : Z;
  todo_before_sleep : Z;
  among_minority_time : Z;
  first_call_time : Z }.
Definition set_currentEpoch (v : Z) (cs : clusterState) : clusterState :=
  ClusterState (myself cs) v (state cs) (size cs) (nodes cs) (migrating_slots_to cs) (importing_slots_from cs) (cslots cs) (slots_keys_count cs) (failover_auth_time cs) (failover_auth_count cs) (failover_auth_sent cs) (failover_auth_rank cs) (failover_auth_epoch cs) (cant_failover_reason cs) (mf_end cs) (mf_slave cs) (mf_master_offset cs) (mf_can_start cs) (lastVoteEpoch cs) (todo_before_sleep cs) (among_minority_time cs) (first_call_time cs).
Definition set_state (v : Z) (cs : clusterState) : clusterState :=
  ClusterState (myself cs) (currentEpoch cs) v (size cs) (nodes cs) (migrating_slots_to cs) (importing_slots_from cs) (cslots cs) (slots_keys_count cs) (failover_auth_time cs) (failover_auth_count cs) (failover_auth_sent cs) (failover_auth_rank cs) (failover_auth_epoch cs) (cant_failover_reason cs) (mf_end cs) (mf_slave cs) (mf_master_offset cs) (mf_can_start cs) (lastVoteEpoch cs) (todo_before_sleep cs) (among_minority_time cs) (first_call_time cs).
Definition set_size (v : Z) (cs : clusterState) : clusterState :=
  ClusterState (myself cs) (currentEpoch cs) (state cs) v (nodes cs) (migrating_slots_to cs) (importing_slots_from cs) (cslots cs) (slots_keys_count cs) (failover_auth_time cs) (failover_auth_count cs) (failover_auth_sent cs) (failover_auth_rank cs) (failover_auth_epoch cs) (cant_failover_reason cs) (mf_end cs) (mf_slave cs) (mf_master_offset cs) (mf_can_start cs) (lastVoteEpoch cs) (todo_before_sleep cs) (among_minority_time cs) (first_call_time cs).
Definition set_nodes (v : gmap nodename clusterNode) (cs : clusterState) : clusterState :=
  ClusterState (myself cs) (currentEpoch cs) (state cs) (size cs) v (migrating_slots_to cs) (importing_slots_from cs) (cslots cs) (slots_keys_count cs) (failover_auth_time cs) (failover_auth_count cs) (failover_auth_sent cs) (failover_auth_rank cs) (failover_auth_epoch cs) (cant_failover_reason cs) (mf_end cs) (mf_slave cs) (mf_master_offset cs) (mf_can_start cs) (lastVoteEpoch cs) (todo_before_sleep cs) (among_minority_time cs) (first_call_time cs).
Definition set_migrating_slots_to (v : gmap Z nodename) (cs : clusterState) : clusterState :=
  ClusterState (myself cs) (currentEpoch cs) (state cs) (size cs) (nodes cs) v (importing_slots_from cs) (cslots cs) (slots_keys_count cs) (failover_auth_time cs) (failover_auth_count cs) (failover_auth_sent cs) (failover_auth_rank cs) (failover_auth_epoch cs) (cant_failover_reason cs) (mf_end cs) (mf_slave cs) (mf_master_offset cs) (mf_can_start cs) (lastVoteEpoch cs) (todo_before_sleep cs) (among_minority_time cs) (first_call_time cs).
Definition set_importing_slots_from (v : gmap Z nodename) (cs : clusterState) : clusterState :=
  ClusterState (myself cs) (currentEpoch cs) (state cs) (size cs) (nodes cs) (migrating_slots_to cs) v (cslots cs) (slots_keys_count cs) (failover_auth_time cs) (failover_auth_count cs) (failover_auth_sent cs) (failover_auth_rank cs) (failover_auth_epoch cs) (cant_failover_reason cs) (mf_end cs) (mf_slave cs) (mf_master_offset cs) (mf_can_start cs) (lastVoteEpoch cs) (todo_before_sleep cs) (among_minority_time cs) (first_call_time cs).
Definition set_cslots (v : gmap Z nodename) (cs : clusterState) : clusterState :=
  ClusterState (myself cs) (currentEpoch cs) (state cs) (size cs) (nodes cs) (migrating_slots_to cs) (importing_slots_from cs) v (slots_keys_count cs) (failover_auth_time cs) (failover_auth_count cs) (failover_auth_sent cs) (failover_auth_rank cs) (failover_auth_epoch cs) (cant_failover_reason cs) (mf_end cs) (mf_slave cs) (mf_master_offset cs) (mf_can_start cs) (lastVoteEpoch cs) (todo_before_sleep cs) (among_minority_time cs) (first_call_time cs).
Definition set_slots_keys_count (v : gmap Z Z) (cs : clusterState) : clusterState :=
  ClusterState (myself cs) (currentEpoch cs) (state cs) (size cs) (nodes cs) (migrating_slots_to cs) (importing_slots_from cs) (cslots cs) v (failover_auth_time cs) (failover_auth_count cs) (failover_auth_sent cs) (failover_auth_rank cs) (failover_auth_epoch cs) (cant_failover_reason cs) (mf_end cs) (mf_slave cs) (mf_master_offset cs) (mf_can_start cs) (lastVoteEpoch cs) (todo_before_sleep cs) (among_minority_time cs) (first_call_time cs).
Definition set_failover_auth_time (v : Z) (cs : clusterState) : clusterState :=
  ClusterState (myself cs) (currentEpoch cs) (state cs) (size cs) (nodes cs) (migrating_slots_to cs) (importing_slots_from cs) (cslots cs) (slots_keys_count cs) v (failover_auth_count cs) (failover_auth_sent cs) (failover_auth_rank cs) (failover_auth_epoch cs) (cant_failover_reason cs) (mf_end cs) (mf_slave cs) (mf_master_offset cs) (mf_can_start cs) (lastVoteEpoch cs) (todo_before_sleep cs) (among_minority_time cs) (first_call_time cs).
Definition set_failover_auth_count (v : Z) (cs : clusterState) : clusterState :=
  ClusterState (myself cs) (currentEpoch cs) (state cs) (size cs) (nodes cs) (migrating_slots_to cs) (importing_slots_from cs) (cslots cs) (slots_keys_count cs) (failover_auth_time cs) v (failover_auth_sent cs) (failover_auth_rank cs) (failover_auth_epoch cs) (cant_failover_reason cs) (mf_end cs) (mf_slave cs) (mf_master_offset cs) (mf_can_start cs) (lastVoteEpoch cs) (todo_before_sleep cs) (among_minority_time cs) (first_call_time cs).
Definition set_failover_auth_sent (v : bool) (cs : clusterState) : clusterState :=
  ClusterState (myself cs) (currentEpoch cs) (state cs) (size cs) (nodes cs) (migrating_slots_to cs) (importing_slots_from cs) (cslots cs) (slots_keys_count cs) (failover_auth_time cs) (failover_auth_count cs) v (failover_auth_rank cs) (failover_auth_epoch cs) (cant_failover_reason cs) (mf_end cs) (mf_slave cs) (mf_master_offset cs) (mf_can_start cs) (lastVoteEpoch cs) (todo_before_sleep cs) (among_minority_time cs) (first_call_time cs).
Definition set_failover_auth_rank (v : Z) (cs : clusterState) : clusterState :=
  ClusterState (myself cs) (currentEpoch cs) (state cs) (size cs) (nodes cs) (migrating_slots_to cs) (importing_slots_from cs) (cslots cs) (slots_keys_count cs) (failover_auth_time cs) (failover_auth_count cs) (failover_auth_sent cs) v (failover_auth_epoch cs) (cant_failover_reason cs) (mf_end cs) (mf_slave cs) (mf_master_offset cs) (mf_can_start cs) (lastVoteEpoch cs) (todo_before_sleep cs) (among_minority_time cs) (first_call_time cs).
Definition set_failover_auth_epoch (v : Z) (cs : clusterState) : clusterState :=
  ClusterState (myself cs) (currentEpoch cs) (state cs) (size cs) (nodes cs) (migrating_slots_to cs) (importing_slots_from cs) (cslots cs) (slots_keys_count cs) (failover_auth_time cs) (failover_auth_count cs) (failover_auth_sent cs) (failover_auth_rank cs) v (cant_failover_reason cs) (mf_end cs) (mf_slave cs) (mf_master_offset cs) (mf_can_start cs) (lastVoteEpoch cs) (todo_before_sleep cs) (among_minority_time cs) (first_call_time cs).
Definition set_cant_failover_reason (v : Z) (cs : clusterState) : clusterState :=
  ClusterState (myself cs) (currentEpoch cs) (state cs) (size cs) (nodes cs) (migrating_slots_to cs) (importing_slots_from cs) (cslots cs) (slots_keys_count cs) (failover_auth_time cs) (failover_auth_count cs) (failover_auth_sent cs) (failover_auth_rank cs) (failover_auth_epoch cs) v (mf_end cs) (mf_slave cs) (mf_master_offset cs) (mf_can_start cs) (lastVoteEpoch cs) (todo_before_sleep cs) (among_minority_time cs) (first_call_time cs).
Definition set_mf_end (v : Z) (cs : clusterState) : clusterState :=
  ClusterState (myself cs) (currentEpoch cs) (state cs) (size cs) (nodes cs) (migrating_slots_to cs) (importing_slots_from cs) (cslots cs) (slots_keys_count cs) (failover_auth_time cs) (failover_auth_count cs) (failover_auth_sent cs) (failover_auth_rank cs) (failover_auth_epoch cs) (cant_failover_reason cs) v (mf_slave cs) (mf_master_offset cs) (mf_can_start cs) (lastVoteEpoch cs) (todo_before_sleep cs) (among_minority_time cs) (first_call_time cs).
Definition set_mf_slave (v : option nodename) (cs : clusterState) : clusterState :=
  ClusterState (myself cs) (currentEpoch cs) (state cs) (size cs) (nodes cs) (migrating_slots_to cs) (importing_slots_from cs) (cslots cs) (slots_keys_count cs) (failover_auth_time cs) (failover_auth_count cs) (failover_auth_sent cs) (failover_auth_rank cs) (failover_auth_epoch cs) (cant_failover_reason cs) (mf_end cs) v (mf_master_offset cs) (mf_can_start cs) (lastVoteEpoch cs) (todo_before_sleep cs) (among_minority_time cs) (first_call_time cs).
Definition set_mf_master_offset (v : Z) (cs : clusterState) : clusterState :=
  ClusterState (myself cs) (currentEpoch cs) (state cs) (size cs) (nodes cs) (migrating_slots_to cs) (importing_slots_from cs) (cslots cs) (slots_keys_count cs) (failover_auth_time cs) (failover_auth_count cs) (failover_auth_sent cs) (failover_auth_rank cs) (failover_auth_epoch cs) (cant_failover_reason cs) (mf_end cs) (mf_slave cs) v (mf_can_start cs) (lastVoteEpoch cs) (todo_before_sleep cs) (among_minority_time cs) (first_call_time cs).
Definition set_mf_can_start (v : bool) (cs : clusterState) : clusterState :=
  ClusterState (myself cs) (currentEpoch cs) (state cs) (size cs) (nodes cs) (migrating_slots_to cs) (importing_slots_from cs) (cslots cs) (slots_keys_count cs) (failover_auth_time cs) (failover_auth_count cs) (failover_auth_sent cs) (failover_auth_rank cs) (failover_auth_epoch cs) (cant_failover_reason cs) (mf_end cs) (mf_slave cs) (mf_master_offset cs) v (lastVoteEpoch cs) (todo_before_sleep cs) (among_minority_time cs) (first_call_time cs).
Definition set_lastVoteEpoch (v : Z) (cs : clusterState) : clusterState :=
  ClusterState (myself cs) (currentEpoch cs) (state cs) (size cs) (nodes cs) (migrating_slots_to cs) (importing_slots_from cs) (cslots cs) (slots_keys_count cs) (failover_auth_time cs) (failover_auth_count cs) (failover_auth_sent cs) (failover_auth_rank cs) (failover_auth_epoch cs) (cant_failover_reason cs) (mf_end cs) (mf_slave cs) (mf_master_offset cs) (mf_can_start cs) v (todo_before_sleep cs) (among_minority_time cs) (first_call_time cs).
Definition set_todo_before_sleep (v : Z) (cs : clusterState) : clusterState :=
  ClusterState (myself cs) (currentEpoch cs) (state cs) (size cs) (nodes cs) (migrating_slots_to cs) (importing_slots_from cs) (cslots cs) (slots_keys_count cs) (failover_auth_time cs) (failover_auth_count cs) (failover_auth_sent cs) (failover_auth_rank cs) (failover_auth_epoch cs) (cant_failover_reason cs) (mf_end cs) (mf_slave cs) (mf_master_offset cs) (mf_can_start cs) (lastVoteEpoch cs) v (among_minority_time cs) (first_call_time cs).
Definition set_among_minority_time (v : Z) (cs : clusterState) : clusterState :=
  ClusterState (myself cs) (currentEpoch cs) (state cs) (size cs) (nodes cs) (migrating_slots_to cs) (importing_slots_from cs) (cslots cs) (slots_keys_count cs) (failover_auth_time cs) (failover_auth_count cs) (failover_auth_sent cs) (failover_auth_rank cs) (failover_auth_epoch cs) (cant_failover_reason cs) (mf_end cs) (mf_slave cs) (mf_master_offset cs) (mf_can_start cs) (lastVoteEpoch cs) (todo_before_sleep cs) v (first_call_time cs).
Definition set_first_call_time (v : Z) (cs : clusterState) : clusterState :=
  ClusterState (myself cs) (currentEpoch cs) (state cs) (size cs) (nodes cs) (migrating_slots_to cs) (importing_slots_from cs) (cslots cs) (slots_keys_count cs) (failover_auth_time cs) (failover_auth_count cs) (failover_auth_sent cs) (failover_auth_rank cs) (failover_auth_epoch cs) (cant_failover_reason cs) (mf_end cs) (mf_slave cs) (mf_master_offset cs) (mf_can_start cs) (lastVoteEpoch cs) (todo_before_sleep cs) (among_minority_time cs) v.

Definition flagged (n : clusterNode) (f : Z) : bool := negb (Z.land (flags n) f =? 0).
Definition nodeIsMaster (n : clusterNode) : bool := flagged n CLUSTER_NODE_MASTER.
Definition nodeIsSlave (n : clusterNode) : bool := flagged n CLUSTER_NODE_SLAVE.
Definition nodeInHandshake (n : clusterNode) : bool := flagged n CLUSTER_NODE_HANDSHAKE.
Definition nodeFailed (n : clusterNode) : bool := flagged n CLUSTER_NODE_FAIL.
Definition nodeCantFailover (n : clusterNode) : bool := flagged n CLUSTER_NODE_NOFAILOVER.
Definition add_flag (f : Z) (n : clusterNode) : clusterNode := set_flags (Z.lor (flags n) f) n.
Definition del_flag (f : Z) (n : clusterNode) : clusterNode := set_flags (Z.land (flags n) (Z.lnot f)) n.

(** What the handlers read of the rest of the server during a call: the clock, which may
    advance between two readings, the configuration and the replication state *)
Record env := Env {
  mstime : nat -> Z;
  cluster_node_timeout : Z;
  cluster_slave_no_failover : bool;
  cluster_slave_validity_factor : Z;
  cluster_require_full_coverage : bool;
  cluster_module_no_redirection : bool;
  repl_ping_slave_period : Z;
  data_age_seconds : Z;
  replicationGetSlaveOffset : Z;
  master_repl_offset : Z;
  random : Z }.

(** ** Messages *)

Inductive clusterMsgData :=
  | TypePong | TypeFail (about : nodename) | TypeFailoverAuthRequest | TypeFailoverAuthAck
  | TypeMFStart | TypeUpdate (about : nodename) (epoch : Z) (slots : bytes).

(** The fields of the header the handlers read *)
Record clusterMsg := ClusterMsg {
  data : clusterMsgData;
  msg_sender : nodename;
  msg_currentEpoch : Z;
  msg_configEpoch : Z;
  msg_offset : Z;
  myslots : bytes;
  msg_slaveof : option nodename;
  msg_flags : Z;
  mflags : Z }.

Inductive effect :=
  | SendMessage (dst : nodename) (msg : clusterMsg)
  | ReplicationSetMaster (n : nodename) | ReplicationUnsetMaster
  | DelKeysInSlot (slot : Z) | SaveConfig | PauseClients (end_ : Z) | UnpauseClients.

(** ** Bitmaps *)

Definition bitmapTestBit (bitmap : bytes) (pos : Z) : option bool :=
  let! b := load1 bitmap (pos / 8) in
  Some (negb (Z.land b (Z.shiftl 1 (Z.land pos 7)) =? 0)).
Definition bitmapSetBit (bitmap : bytes) (pos : Z) : option bytes :=
  let! b := load1 bitmap (pos / 8) in
  store1 bitmap (pos / 8) (Z.lor b (Z.shiftl 1 (Z.land pos 7))).
Definition bitmapClearBit (bitmap : bytes) (pos : Z) : option bytes :=
  let! b := load1 bitmap (pos / 8) in
  store1 bitmap (pos / 8) (Z.land b (Z.lnot (Z.shiftl 1 (Z.land pos 7)))).

(** ** Nodes *)

Definition clusterLookupNode (cs : clusterState) (n : nodename) : option clusterNode := nodes cs !! n.
Definition put_node (n : clusterNode) (cs : clusterState) : clusterState := set_nodes (<[name n := n]> (nodes cs)) cs.
(** A store through a pointer to a node *)
Definition upd_node (x : nodename) (f : clusterNode -> clusterNode) (cs : clusterState) : option clusterState :=
  let! n := nodes cs !! x in
  Some (set_nodes (<[x := f n]> (nodes cs)) cs).

Definition clusterDoBeforeSleep (f : Z) (cs : clusterState) : clusterState :=
  set_todo_before_sleep (Z.lor (todo_before_sleep cs) f) cs.

(** The list without the first occurrence *)
Fixpoint remove_first (x : nodename) (l : list nodename) : list nodename :=
  match l with
  | [] => []
  | y :: l => if decide (y = x) then l else y :: remove_first x l
  end.

Definition clusterNodeRemoveSlave (master slave : nodename) (cs : clusterState) : option clusterState :=
  let! m := nodes cs !! master in
  if decide (slave ∈ slaves m) then
    let l := remove_first slave (slaves m) in
    upd_node master (fun m => let m := set_slaves l m in
                              if decide (l = []) then del_flag CLUSTER_NODE_MIGRATE_TO m else m) cs
  else Some cs.

Definition clusterNodeAddSlave (master slave : nodename) (cs : clusterState) : option clusterState :=
  let! m := nodes cs !! master in
  if decide (slave ∈ slaves m) then Some cs
  else upd_node master (fun m => add_flag CLUSTER_NODE_MIGRATE_TO (set_slaves (slaves m ++ [slave]) m)) cs.

(** ** Slots *)

Definition clusterMastersHaveSlaves (cs : clusterState) : bool :=
  negb (foldr (fun '(_, n) k => if nodeIsSlave n then k else zlen (slaves n) + k) 0 (map_to_list (nodes cs)) =? 0).

Definition clusterNodeSetSlotBit (x : nodename) (slot : Z) (cs : clusterState) : option (clusterState * bool) :=
  let! n := nodes cs !! x in
  let! old := bitmapTestBit (slots n) slot in
  let! b := bitmapSetBit (slots n) slot in
  let! cs := upd_node x (set_slots b) cs in
  if (old : bool) then Some (cs, old) else
  let! cs := upd_node x (set_numslots (numslots n + 1)) cs in
  if (numslots n + 1 =? 1) && clusterMastersHaveSlaves cs then
    let! cs := upd_node x (add_flag CLUSTER_NODE_MIGRATE_TO) cs in Some (cs, old)
  else Some (cs, old).

Definition clusterNodeClearSlotBit (x : nodename) (slot : Z) (cs : clusterState) : option (clusterState * bool) :=
  let! n := nodes cs !! x in
  let! old := bitmapTestBit (slots n) slot in
  let! b := bitmapClearBit (slots n) slot in
  let! cs := upd_node x (set_slots b) cs in
  if (old : bool) then
    let! cs := upd_node x (set_numslots (numslots n - 1)) cs in Some (cs, old)
  else Some (cs, old).

Definition clusterNodeGetSlotBit (n : clusterNode) (slot : Z) : option bool := bitmapTestBit (slots n) slot.

(** The result is C_OK or C_ERR. *)
Definition clusterAddSlot (x : nodename) (slot : Z) (cs : clusterState) : option (clusterState * bool) :=
  match cslots cs !! slot with
  | Some _ => Some (cs, false)
  | None =>
      let! (cs, _) := clusterNodeSetSlotBit x slot cs in
      Some (set_cslots (<[slot := x]> (cslots cs)) cs, true)
  end.

Definition clusterDelSlot (slot : Z) (cs : clusterState) : option (clusterState * bool) :=
  match cslots cs !! slot with
  | None => Some (cs, false)
  | Some x =>
      let! (cs, old) := clusterNodeClearSlotBit x slot cs in
      if (old : bool) then Some (set_cslots (delete slot (cslots cs)) cs, true) else None
  end.

(** [for (j = 0; j < CLUSTER_SLOTS; j++)] *)
Fixpoint for_slots {A} (n : nat) (j : Z) (f : Z -> A -> option A) (a : A) : option A :=
  match n with
  | O => Some a
  | S n => let! a := f j a in for_slots n (j + 1) f a
  end.
Definition each_slot {A} (f : Z -> A -> option A) (a : A) : option A := for_slots (Z.to_nat CLUSTER_SLOTS) 0 f a.

Definition clusterDelNodeSlots (x : nodename) (cs : clusterState) : option (clusterState * Z) :=
  each_slot (fun j '(cs, deleted) =>
    let! n := nodes cs !! x in
    let! bit := clusterNodeGetSlotBit n j in
    if (bit : bool) then
      let! (cs, _) := clusterDelSlot j cs in
      Some (cs, deleted + 1)
    else Some (cs, deleted)) (cs, 0).

Definition clusterCloseAllSlots (cs : clusterState) : clusterState :=
  set_importing_slots_from ∅ (set_migrating_slots_to ∅ cs).

(** ** Roles *)

Definition clusterSetNodeAsMaster (x : nodename) (cs : clusterState) : option clusterState :=
  let! n := nodes cs !! x in
  if nodeIsMaster n then Some cs else
  let! cs := match slaveof n with
             | Some m =>
                 let! cs := clusterNodeRemoveSlave m x cs in
                 if decide (x = myself cs) then Some cs else upd_node x (add_flag CLUSTER_NODE_MIGRATE_TO) cs
             | None => Some cs
             end in
  let! cs := upd_node x (fun n => set_slaveof None (add_flag CLUSTER_NODE_MASTER (del_flag CLUSTER_NODE_SLAVE n))) cs in
  Some (clusterDoBeforeSleep (Z.lor CLUSTER_TODO_SAVE_CONFIG CLUSTER_TODO_UPDATE_STATE) cs).

(** The effect releases the clients of a master that were paused for the failover. *)
Definition resetManualFailover (cs : clusterState) : clusterState * list effect :=
  (set_mf_master_offset 0 (set_mf_slave None (set_mf_can_start false (set_mf_end 0 cs))),
   if negb (mf_end cs =? 0) then [UnpauseClients] else []).

Definition clusterSetMaster (x : nodename) (cs : clusterState) : option (clusterState * list effect) :=
  if decide (x = myself cs) then None else
  let! me := nodes cs !! myself cs in
  if negb (numslots me =? 0) then None else
  let! cs := (if nodeIsMaster me then
                let! cs := upd_node (myself cs) (fun n =>
                  add_flag CLUSTER_NODE_SLAVE (del_flag (Z.lor CLUSTER_NODE_MASTER CLUSTER_NODE_MIGRATE_TO) n)) cs in
                Some (clusterCloseAllSlots cs)
              else match slaveof me with
                   | Some m => clusterNodeRemoveSlave m (myself cs) cs
                   | None => Some cs
                   end) in
  let! cs := upd_node (myself cs) (set_slaveof (Some x)) cs in
  let! cs := clusterNodeAddSlave x (myself cs) cs in
  let '(cs, eff) := resetManualFailover cs in
  Some (cs, ReplicationSetMaster x :: eff).

(** ** Epochs *)

Definition clusterGetMaxEpoch (cs : clusterState) : Z :=
  let max := foldr (fun '(_, n) max => if configEpoch n >? max then configEpoch n else max) 0 (map_to_list (nodes cs)) in
  if max <? currentEpoch cs then currentEpoch cs else max.

(** [server.cluster->currentEpoch++; myself->configEpoch = server.cluster->currentEpoch;] *)
Definition next_epoch (cs : clusterState) : option clusterState :=
  let cs := set_currentEpoch (u64 (currentEpoch cs + 1)) cs in
  upd_node (myself cs) (set_configEpoch (currentEpoch cs)) cs.

Definition clusterBumpConfigEpochWithoutConsensus (cs : clusterState) : option (clusterState * bool) :=
  let! me := nodes cs !! myself cs in
  if (configEpoch me =? 0) || negb (configEpoch me =? clusterGetMaxEpoch cs) then
    let! cs := next_epoch cs in
    Some (clusterDoBeforeSleep (Z.lor CLUSTER_TODO_SAVE_CONFIG CLUSTER_TODO_FSYNC_CONFIG) cs, true)
  else Some (cs, false).

Definition clusterHandleConfigEpochCollision (sender : nodename) (cs : clusterState)
    : option (clusterState * list effect) :=
  let! s := nodes cs !! sender in
  let! me := nodes cs !! myself cs in
  if negb (configEpoch s =? configEpoch me) || negb (nodeIsMaster s) || negb (nodeIsMaster me) then Some (cs, []) else
  if memcmp (name s) (name me) <=? 0 then Some (cs, []) else
  let! cs := next_epoch cs in
  Some (cs, [SaveConfig]).

(** ** Sending *)

(** [clusterBuildMessageHdr]; the message's own data and [mflags[0]] come from the caller. *)
Definition clusterBuildMessageHdr (e : env) (cs : clusterState) (d : clusterMsgData) : option clusterMsg :=
  let! me := nodes cs !! myself cs in
  let! master := match slaveof me with
                 | Some m => if nodeIsSlave me then nodes cs !! m else Some me
                 | None => Some me
                 end in
  Some (ClusterMsg d (name me) (currentEpoch cs) (configEpoch master)
          (if nodeIsSlave me then replicationGetSlaveOffset e else master_repl_offset e)
          (slots master) (slaveof me) (flags me)
          (if nodeIsMaster me && negb (mf_end cs =? 0) then CLUSTERMSG_FLAG0_PAUSED else 0)).

Definition clusterBroadcastMessage (cs : clusterState) (msg : clusterMsg) : list effect :=
  omap (fun '(x, n) => if link n && negb (flagged n (Z.lor CLUSTER_NODE_MYSELF CLUSTER_NODE_HANDSHAKE))
                       then Some (SendMessage x msg) else None) (map_to_list (nodes cs)).

Inductive broadcast_target := CLUSTER_BROADCAST_ALL | CLUSTER_BROADCAST_LOCAL_SLAVES.

Definition clusterBroadcastPong (e : env) (cs : clusterState) (target : broadcast_target) : option (list effect) :=
  let! me := nodes cs !! myself cs in
  let! msg := clusterBuildMessageHdr e cs TypePong in
  Some (omap (fun '(x, n) =>
    if link n && negb (bool_decide (x = myself cs)) && negb (nodeInHandshake n) &&
       match target with
       | CLUSTER_BROADCAST_ALL => true
       | CLUSTER_BROADCAST_LOCAL_SLAVES =>
           nodeIsSlave n && match slaveof n with
                            | Some m => bool_decide (m = myself cs) || bool_decide (Some m = slaveof me)
                            | None => false
                            end
       end
    then Some (SendMessage x msg) else None) (map_to_list (nodes cs))).

Definition clusterRequestFailoverAuth (e : env) (cs : clusterState) : option (list effect) :=
  let! m := clusterBuildMessageHdr e cs TypeFailoverAuthRequest in
  let m := if negb (mf_end cs =? 0)
           then ClusterMsg (data m) (msg_sender m) (msg_currentEpoch m) (msg_configEpoch m) (msg_offset m) (myslots m)
                  (msg_slaveof m) (msg_flags m) (Z.lor (mflags m) CLUSTERMSG_FLAG0_FORCEACK)
           else m in
  Some (clusterBroadcastMessage cs m).

Definition clusterSendFailoverAuth (e : env) (cs : clusterState) (x : nodename) : option (list effect) :=
  let! n := nodes cs !! x in
  if negb (link n) then Some [] else
  let! m := clusterBuildMessageHdr e cs TypeFailoverAuthAck in
  Some [SendMessage x m].

(** ** Voting *)

(** The loop over the claimed slots: whether the vote is refused because of one *)
Definition claim_outdated (cs : clusterState) (claimed_slots : bytes) (requestConfigEpoch : Z) : option bool :=
  each_slot (fun j (refused : bool) =>
    if refused then Some true else
    let! bit := bitmapTestBit claimed_slots j in
    if negb bit then Some false else
    match cslots cs !! j with
    | None => Some false
    | Some o => let! owner := nodes cs !! o in
                Some (negb (configEpoch owner <=? requestConfigEpoch))
    end) false.

Definition clusterSendFailoverAuthIfNeeded (e : env) (x : nodename) (request : clusterMsg) (cs : clusterState)
    : option (clusterState * list effect) :=
  let! node := nodes cs !! x in
  let! me := nodes cs !! myself cs in
  let requestCurrentEpoch := msg_currentEpoch request in
  let force_ack := negb (Z.land (mflags request) CLUSTERMSG_FLAG0_FORCEACK =? 0) in
  if nodeIsSlave me || (numslots me =? 0) then Some (cs, []) else
  if requestCurrentEpoch <? currentEpoch cs then Some (cs, []) else
  if lastVoteEpoch cs =? currentEpoch cs then Some (cs, []) else
  if nodeIsMaster node then Some (cs, []) else
  match slaveof node with
  | None => Some (cs, [])
  | Some m =>
      let! master := nodes cs !! m in
      if negb (nodeFailed master) && negb force_ack then Some (cs, []) else
      if mstime e 0 - voted_time master <? cluster_node_timeout e * 2 then Some (cs, []) else
      let! refused := claim_outdated cs (myslots request) (msg_configEpoch request) in
      if (refused : bool) then Some (cs, []) else
      let cs := set_lastVoteEpoch (currentEpoch cs) cs in
      let! cs := upd_node m (set_voted_time (mstime e 1)) cs in
      let cs := clusterDoBeforeSleep (Z.lor CLUSTER_TODO_SAVE_CONFIG CLUSTER_TODO_FSYNC_CONFIG) cs in
      let! eff := clusterSendFailoverAuth e cs x in
      Some (cs, eff)
  end.

(** ** The election of a replica *)

Definition clusterGetSlaveRank (e : env) (cs : clusterState) : option Z :=
  let! me := nodes cs !! myself cs in
  if negb (nodeIsSlave me) then None else
  match slaveof me with
  | None => Some 0
  | Some m =>
      let! master := nodes cs !! m in
      foldr (fun x r =>
        let! r := r in
        let! s := nodes cs !! x in
        Some (if negb (bool_decide (x = myself cs)) && negb (nodeCantFailover s) && (repl_offset s >? replicationGetSlaveOffset e)
              then r + 1 else r)) (Some 0) (slaves master)
  end.

(** The calls of [mstime] are readings [k], [k+1], ... *)
Definition clusterUpdateState (e : env) (k : nat) (cs : clusterState) : option clusterState :=
  let! me := nodes cs !! myself cs in
  let cs := set_todo_before_sleep (Z.land (todo_before_sleep cs) (Z.lnot CLUSTER_TODO_UPDATE_STATE)) cs in
  let cs := if first_call_time cs =? 0 then set_first_call_time (mstime e k) cs else cs in
  if nodeIsMaster me && (state cs =? CLUSTER_FAIL) && (mstime e (k + 1) - first_call_time cs <? CLUSTER_WRITABLE_DELAY) then Some cs else
  let! new_state :=
    (if cluster_require_full_coverage e then
       each_slot (fun j st =>
         if st =? CLUSTER_FAIL then Some st else
         match cslots cs !! j with
         | None => Some CLUSTER_FAIL
         | Some x => let! n := nodes cs !! x in
                     Some (if flagged n CLUSTER_NODE_FAIL then CLUSTER_FAIL else CLUSTER_OK)
         end) CLUSTER_OK
     else Some CLUSTER_OK) in
  let voters := filter (fun '(_, n) => nodeIsMaster n && negb (numslots n =? 0)) (map_to_list (nodes cs)) in
  let cs := set_size (zlen voters) cs in
  let reachable_masters := zlen (filter (fun '(_, n) => negb (flagged n (Z.lor CLUSTER_NODE_FAIL CLUSTER_NODE_PFAIL))) voters) in
  let needed_quorum := size cs / 2 + 1 in
  let '(new_state, cs) :=
    if reachable_masters <? needed_quorum then (CLUSTER_FAIL, set_among_minority_time (mstime e (k + 2)) cs) else (new_state, cs) in
  if negb (new_state =? state cs) then
    let rejoin_delay := cluster_node_timeout e in
    let rejoin_delay := if rejoin_delay >? CLUSTER_MAX_REJOIN_DELAY then CLUSTER_MAX_REJOIN_DELAY else rejoin_delay in
    let rejoin_delay := if rejoin_delay <? CLUSTER_MIN_REJOIN_DELAY then CLUSTER_MIN_REJOIN_DELAY else rejoin_delay in
    if (new_state =? CLUSTER_OK) && nodeIsMaster me && (mstime e (k + 3) - among_minority_time cs <? rejoin_delay) then Some cs
    else Some (set_state new_state cs)
  else Some cs.

(** One slot of the old master *)
Definition take_slot (oldmaster : nodename) (j : Z) (cs : clusterState) : option clusterState :=
  let! o := nodes cs !! oldmaster in
  let! bit := clusterNodeGetSlotBit o j in
  if (bit : bool) then
    let! (cs, _) := clusterDelSlot j cs in
    let! (cs, _) := clusterAddSlot (myself cs) j cs in
    Some cs
  else Some cs.

Definition clusterFailoverReplaceYourMaster (e : env) (k : nat) (cs : clusterState) : option (clusterState * list effect) :=
  let! me := nodes cs !! myself cs in
  match slaveof me with
  | None => Some (cs, [])
  | Some oldmaster =>
      if nodeIsMaster me then Some (cs, []) else
      let! cs := clusterSetNodeAsMaster (myself cs) cs in
      let! cs := each_slot (take_slot oldmaster) cs in
      let! cs := clusterUpdateState e k cs in
      let! pongs := clusterBroadcastPong e cs CLUSTER_BROADCAST_ALL in
      let '(cs, eff) := resetManualFailover cs in
      Some (cs, ReplicationUnsetMaster :: SaveConfig :: pongs ++ eff)
  end.

(** [clusterLogCantFailover], less the log *)
Definition clusterLogCantFailover (reason : Z) (cs : clusterState) : clusterState := set_cant_failover_reason reason cs.

(** The reasons not to fail over; the boolean is true when the election is won. *)
Definition clusterHandleSlaveFailover (e : env) (cs : clusterState) : option (clusterState * list effect * bool) :=
  let! me := nodes cs !! myself cs in
  let auth_age := mstime e 0 - failover_auth_time cs in
  let needed_quorum := size cs / 2 + 1 in
  let manual_failover := negb (mf_end cs =? 0) && mf_can_start cs in
  let cs := set_todo_before_sleep (Z.land (todo_before_sleep cs) (Z.lnot CLUSTER_TODO_HANDLE_FAILOVER)) cs in
  let auth_timeout := cluster_node_timeout e * 2 in
  let auth_timeout := if auth_timeout <? 2000 then 2000 else auth_timeout in
  let auth_retry_time := auth_timeout * 2 in
  let none := Some (set_cant_failover_reason CLUSTER_CANT_FAILOVER_NONE cs, [], false) in
  if nodeIsMaster me then none else
  match slaveof me with
  | None => none
  | Some m =>
  let! master := nodes cs !! m in
  if (negb (nodeFailed master) && negb manual_failover) || (cluster_slave_no_failover e && negb manual_failover)
     || (numslots master =? 0) then none else
  let data_age := data_age_seconds e * 1000 in
  let data_age := if data_age >? cluster_node_timeout e then data_age - cluster_node_timeout e else data_age in
  if negb (cluster_slave_validity_factor e =? 0) &&
     (data_age >? repl_ping_slave_period e * 1000 + cluster_node_timeout e * cluster_slave_validity_factor e) &&
     negb manual_failover
  then Some (clusterLogCantFailover CLUSTER_CANT_FAILOVER_DATA_AGE cs, [], false) else
  if auth_age >? auth_retry_time then
    let cs := set_failover_auth_time (mstime e 1 + 500 + random e mod 500) cs in
    let cs := set_failover_auth_count 0 cs in
    let cs := set_failover_auth_sent false cs in
    let! rank := clusterGetSlaveRank e cs in
    let cs := set_failover_auth_rank rank cs in
    let cs := set_failover_auth_time (failover_auth_time cs + rank * 1000) cs in
    let cs := if negb (mf_end cs =? 0)
              then clusterDoBeforeSleep CLUSTER_TODO_HANDLE_FAILOVER (set_failover_auth_rank 0 (set_failover_auth_time (mstime e 2) cs))
              else cs in
    let! pongs := clusterBroadcastPong e cs CLUSTER_BROADCAST_LOCAL_SLAVES in
    Some (cs, pongs, false)
  else
  let! cs := (if negb (failover_auth_sent cs) && (mf_end cs =? 0) then
                let! newrank := clusterGetSlaveRank e cs in
                Some (if newrank >? failover_auth_rank cs then
                        let added_delay := (newrank - failover_auth_rank cs) * 1000 in
                        set_failover_auth_rank newrank (set_failover_auth_time (failover_auth_time cs + added_delay) cs)
                      else cs)
              else Some cs) in
  if mstime e 3 <? failover_auth_time cs then Some (clusterLogCantFailover CLUSTER_CANT_FAILOVER_WAITING_DELAY cs, [], false) else
  if auth_age >? auth_timeout then Some (clusterLogCantFailover CLUSTER_CANT_FAILOVER_EXPIRED cs, [], false) else
  if negb (failover_auth_sent cs) then
    let cs := set_currentEpoch (u64 (currentEpoch cs + 1)) cs in
    let cs := set_failover_auth_epoch (currentEpoch cs) cs in
    let! requests := clusterRequestFailoverAuth e cs in
    let cs := set_failover_auth_sent true cs in
    Some (clusterDoBeforeSleep (Z.lor CLUSTER_TODO_SAVE_CONFIG (Z.lor CLUSTER_TODO_UPDATE_STATE CLUSTER_TODO_FSYNC_CONFIG)) cs,
          requests, false)
  else if failover_auth_count cs >=? needed_quorum then
    let! cs := (if configEpoch me <? failover_auth_epoch cs
                then upd_node (myself cs) (set_configEpoch (failover_auth_epoch cs)) cs else Some cs) in
    let! (cs, eff) := clusterFailoverReplaceYourMaster e 4 cs in
    Some (cs, eff, true)
  else Some (clusterLogCantFailover CLUSTER_CANT_FAILOVER_WAITING_VOTES cs, [], false)
  end.

(** ** New configurations *)

(** One slot: the state, [newmaster] and the dirty slots *)
Definition update_slot (x : nodename) (senderConfigEpoch : Z) (claimed : bytes) (curmaster : option nodename) (j : Z)
    (acc : clusterState * bool * list Z) : option (clusterState * bool * list Z) :=
  let '(cs, newmaster, dirty) := acc in
  let! bit := bitmapTestBit claimed j in
  if negb bit then Some acc else
  if decide (cslots cs !! j = Some x) then Some acc else
  match importing_slots_from cs !! j with
  | Some _ => Some acc
  | None =>
      let! rebind := match cslots cs !! j with
                     | None => Some true
                     | Some o => let! owner := nodes cs !! o in Some (configEpoch owner <? senderConfigEpoch)
                     end in
      if (rebind : bool) then
        let mine := bool_decide (cslots cs !! j = Some (myself cs)) in
        let dirty := if mine && negb (default 0 (slots_keys_count cs !! j) =? 0) then dirty ++ [j] else dirty in
        let newmaster := newmaster || bool_decide (cslots cs !! j = curmaster) in
        let! (cs, _) := clusterDelSlot j cs in
        let! (cs, _) := clusterAddSlot x j cs in
        Some (clusterDoBeforeSleep (Z.lor CLUSTER_TODO_SAVE_CONFIG (Z.lor CLUSTER_TODO_UPDATE_STATE CLUSTER_TODO_FSYNC_CONFIG)) cs,
              newmaster, dirty)
      else Some acc
  end.

Definition clusterUpdateSlotsConfigWith (e : env) (x : nodename) (senderConfigEpoch : Z) (claimed : bytes) (cs : clusterState)
    : option (clusterState * list effect) :=
  let! me := nodes cs !! myself cs in
  let curmaster := if nodeIsMaster me then Some (myself cs) else slaveof me in
  if decide (x = myself cs) then Some (cs, []) else
  let! (cs, newmaster, dirty) := each_slot (update_slot x senderConfigEpoch claimed curmaster) (cs, false, []) in
  if cluster_module_no_redirection e then Some (cs, []) else
  let! left_empty :=
    (if (newmaster : bool) then
       let! c := curmaster in
       let! n := nodes cs !! c in Some (numslots n =? 0)
     else Some false) in
  if (left_empty : bool) then
    let! (cs, eff) := clusterSetMaster x cs in
    Some (clusterDoBeforeSleep (Z.lor CLUSTER_TODO_SAVE_CONFIG (Z.lor CLUSTER_TODO_UPDATE_STATE CLUSTER_TODO_FSYNC_CONFIG)) cs, eff)
  else Some (set_slots_keys_count (foldr (fun j m => delete j m) (slots_keys_count cs) dirty) cs, map DelKeysInSlot dirty).

(** ** Receiving *)

(** What every packet from a known node updates *)
Definition packet_header (e : env) (msg : clusterMsg) (cs : clusterState) : option clusterState :=
  match nodes cs !! msg_sender msg with
  | None => Some cs
  | Some s =>
      let! cs := upd_node (msg_sender msg) (set_data_received (mstime e 0)) cs in
      if nodeInHandshake s then Some cs else
      let cs := if msg_currentEpoch msg >? currentEpoch cs then set_currentEpoch (msg_currentEpoch msg) cs else cs in
      let! cs := (if msg_configEpoch msg >? configEpoch s then
                    let! cs := upd_node (msg_sender msg) (set_configEpoch (msg_configEpoch msg)) cs in
                    Some (clusterDoBeforeSleep (Z.lor CLUSTER_TODO_SAVE_CONFIG CLUSTER_TODO_FSYNC_CONFIG) cs)
                  else Some cs) in
      let! cs := upd_node (msg_sender msg) (fun n => set_repl_offset_time (mstime e 0) (set_repl_offset (msg_offset msg) n)) cs in
      let! me := nodes cs !! myself cs in
      if negb (mf_end cs =? 0) && nodeIsSlave me && bool_decide (slaveof me = Some (msg_sender msg)) &&
         negb (Z.land (mflags msg) CLUSTERMSG_FLAG0_PAUSED =? 0) && (mf_master_offset cs =? 0)
      then Some (set_mf_master_offset (msg_offset msg) cs)
      else Some cs
  end.

(** The branches of [clusterProcessPacket], for a sender that is known *)

Definition process_fail (e : env) (about : nodename) (cs : clusterState) : option (clusterState * list effect) :=
  match nodes cs !! about with
  | Some failing =>
      if negb (flagged failing (Z.lor CLUSTER_NODE_FAIL CLUSTER_NODE_MYSELF)) then
        let! cs := upd_node about (fun n =>
          del_flag CLUSTER_NODE_PFAIL (set_fail_time (mstime e 0) (add_flag CLUSTER_NODE_FAIL n))) cs in
        Some (clusterDoBeforeSleep (Z.lor CLUSTER_TODO_SAVE_CONFIG CLUSTER_TODO_UPDATE_STATE) cs, [])
      else Some (cs, [])
  | None => Some (cs, [])
  end.
Definition process_auth_ack (s : clusterNode) (msg : clusterMsg) (cs : clusterState) : option (clusterState * list effect) :=
  let senderCurrentEpoch := if nodeInHandshake s then 0 else msg_currentEpoch msg in
  if nodeIsMaster s && (numslots s >? 0) && (senderCurrentEpoch >=? failover_auth_epoch cs) then
    let cs := set_failover_auth_count (failover_auth_count cs + 1) cs in
    Some (clusterDoBeforeSleep CLUSTER_TODO_HANDLE_FAILOVER cs, [])
  else Some (cs, []).
Definition process_mfstart (e : env) (sender : nodename) (s : clusterNode) (cs : clusterState) : option (clusterState * list effect) :=
  if decide (slaveof s = Some (myself cs)) then
    let '(cs, eff) := resetManualFailover cs in
    let cs := set_mf_end (mstime e 0 + CLUSTER_MF_TIMEOUT) cs in
    let cs := set_mf_slave (Some sender) cs in
    Some (cs, eff ++ [PauseClients (mstime e 0 + CLUSTER_MF_TIMEOUT * CLUSTER_MF_PAUSE_MULT)])
  else Some (cs, []).
Definition process_update (e : env) (about : nodename) (reportedConfigEpoch : Z) (claimed : bytes) (cs : clusterState)
    : option (clusterState * list effect) :=
  match nodes cs !! about with
  | None => Some (cs, [])
  | Some n =>
      if configEpoch n >=? reportedConfigEpoch then Some (cs, []) else
      let! cs := (if nodeIsSlave n then clusterSetNodeAsMaster about cs else Some cs) in
      let! cs := upd_node about (set_configEpoch reportedConfigEpoch) cs in
      let cs := clusterDoBeforeSleep (Z.lor CLUSTER_TODO_SAVE_CONFIG CLUSTER_TODO_FSYNC_CONFIG) cs in
      clusterUpdateSlotsConfigWith e about reportedConfigEpoch claimed cs
  end.

(** The messages FAIL, FAILOVER_AUTH_REQUEST, FAILOVER_AUTH_ACK, MFSTART and UPDATE, and the header of a PONG; an
    unknown sender is ignored.  The rest of PING, PONG and MEET, PUBLISH and MODULE are not here. *)
Definition process_packet (e : env) (msg : clusterMsg) (cs : clusterState) : option (clusterState * list effect) :=
  let sender := msg_sender msg in
  let! cs := packet_header e msg cs in
  match nodes cs !! sender with
  | None => Some (cs, [])
  | Some s =>
      match data msg with
      | TypePong => Some (cs, [])
      | TypeFail about => process_fail e about cs
      | TypeFailoverAuthRequest => clusterSendFailoverAuthIfNeeded e sender msg cs
      | TypeFailoverAuthAck => process_auth_ack s msg cs
      | TypeMFStart => process_mfstart e sender s cs
      | TypeUpdate about reportedConfigEpoch claimed => process_update e about reportedConfigEpoch claimed cs
      end
  end.

Definition clusterHandleManualFailover (e : env) (cs : clusterState) : clusterState :=
  if mf_end cs =? 0 then cs else
  if mf_can_start cs then cs else
  if mf_master_offset cs =? 0 then cs else
  if mf_master_offset cs =? replicationGetSlaveOffset e then set_mf_can_start true cs else cs.

Definition manualFailoverCheckTimeout (e : env) (cs : clusterState) : clusterState * list effect :=
  if negb (mf_end cs =? 0) && (mf_end cs <? mstime e 0) then resetManualFailover cs else (cs, []).
