(* ===== verification/ClusterFacts.v ===== *)
(** * The cluster: what the handlers leave alone

    [calm cs cs']: from [cs] to [cs'] nothing an election depends on has changed: the epochs,
    the last vote, the votes counted, who this node is.  Everything but the two handlers of
    elections is calm. *)

From Stdlib Require Import ZArith Lia.
From stdpp Require Import base numbers option gmap list.
From S2P Require Import Prelude Memory Cluster Bits.

Local Open Scope Z_scope.
Local Open Scope redis_scope.

(** The table is keyed by the names. *)
Definition names_ok (cs : clusterState) : Prop := forall x n, nodes cs !! x = Some n -> name n = x.

Record calm (cs cs' : clusterState) : Prop := Calm {
  calm_myself : myself cs' = myself cs;
  calm_current : currentEpoch cs' = currentEpoch cs;
  calm_vote : lastVoteEpoch cs' = lastVoteEpoch cs;
  calm_count : failover_auth_count cs' = failover_auth_count cs;
  calm_sent : failover_auth_sent cs' = failover_auth_sent cs;
  calm_epoch : failover_auth_epoch cs' = failover_auth_epoch cs;
  calm_names : names_ok cs -> names_ok cs' }.

#[global] Instance calm_preorder : PreOrder calm.
Proof.
  split; [by intros cs; split|]. intros a b c [] []. split; try congruence. auto.
Qed.

(** Inverts the binds of a computation that has a result. *)
Ltac binds :=
  repeat match goal with
  | H : mbind _ _ = Some _ |- _ => apply bind_Some in H as (? & ? & H)
  | H : Some _ = Some _ |- _ => injection H as H; subst
  | H : None = Some _ |- _ => discriminate H
  | H : (let '(_, _) := ?p in _) = Some _ |- _ => destruct p
  | H : (if ?b then _ else _) = Some _ |- _ => destruct b eqn:?
  | H : match ?o with Some _ => _ | None => _ end = Some _ |- _ => destruct o eqn:?
  | H : (_, _) = (_, _) |- _ => injection H as H; subst
  | p : (_ * _)%type |- _ => destruct p
  end.

Create HintDb calm.

Lemma calm_refl cs : calm cs cs.
Proof. reflexivity. Qed.
Lemma calm_trans a b c : calm a b -> calm b c -> calm a c.
Proof. apply transitivity. Qed.

(** Fields no election depends on *)
Ltac calm_set := split; try done.
Lemma calm_todo v cs : calm cs (set_todo_before_sleep v cs). Proof. calm_set. Qed.
Lemma calm_state v cs : calm cs (set_state v cs). Proof. calm_set. Qed.
Lemma calm_size v cs : calm cs (set_size v cs). Proof. calm_set. Qed.
Lemma calm_cslots v cs : calm cs (set_cslots v cs). Proof. calm_set. Qed.
Lemma calm_importing v cs : calm cs (set_importing_slots_from v cs). Proof. calm_set. Qed.
Lemma calm_migrating v cs : calm cs (set_migrating_slots_to v cs). Proof. calm_set. Qed.
Lemma calm_keys v cs : calm cs (set_slots_keys_count v cs). Proof. calm_set. Qed.
Lemma calm_auth_time v cs : calm cs (set_failover_auth_time v cs). Proof. calm_set. Qed.
Lemma calm_auth_rank v cs : calm cs (set_failover_auth_rank v cs). Proof. calm_set. Qed.
Lemma calm_reason v cs : calm cs (set_cant_failover_reason v cs). Proof. calm_set. Qed.
Lemma calm_mf_end v cs : calm cs (set_mf_end v cs). Proof. calm_set. Qed.
Lemma calm_mf_slave v cs : calm cs (set_mf_slave v cs). Proof. calm_set. Qed.
Lemma calm_mf_offset v cs : calm cs (set_mf_master_offset v cs). Proof. calm_set. Qed.
Lemma calm_mf_start v cs : calm cs (set_mf_can_start v cs). Proof. calm_set. Qed.
Lemma calm_minority v cs : calm cs (set_among_minority_time v cs). Proof. calm_set. Qed.
Lemma calm_first_call v cs : calm cs (set_first_call_time v cs). Proof. calm_set. Qed.
#[export] Hint Resolve calm_refl calm_todo calm_state calm_size calm_cslots calm_importing calm_migrating calm_keys calm_auth_time
  calm_auth_rank calm_reason calm_mf_end calm_mf_slave calm_mf_offset calm_mf_start calm_minority calm_first_call : calm.

Lemma calm_upd x f cs cs' : (forall n, name (f n) = name n) -> upd_node x f cs = Some cs' -> calm cs cs'.
Proof.
  intros Hf Hu. unfold upd_node in Hu. binds. split; try done. intros Hn y n Hy. cbn in Hy.
  destruct (decide (y = x)) as [->|Hne]; [rewrite lookup_insert_eq in Hy|rewrite lookup_insert_ne in Hy by done]; [|by apply Hn].
  injection Hy as <-. rewrite Hf. by apply Hn.
Qed.

(** Proves [calm] along a chain of calm steps. *)
Ltac calm1 :=
  match goal with
  | |- calm ?a ?a => reflexivity
  | H : calm ?b ?c |- calm ?a ?c => first [exact H | apply (calm_trans a b c); [|exact H]]
  | H : upd_node ?x ?f ?b = Some ?c |- calm ?a ?c => apply (calm_trans a b c); [|apply (calm_upd x f b c); [by intros; repeat case_match|exact H]]
  | |- calm ?a (clusterDoBeforeSleep ?f ?b) => apply (calm_trans a b); [|apply calm_todo]
  | |- calm ?a (?f ?v ?b) => apply (calm_trans a b); [|by auto with calm nocore]
  | |- calm _ (if ?b then _ else _) => destruct b eqn:?
  end.
Ltac calms := repeat calm1.

Lemma calm_removeSlave m s cs cs' : clusterNodeRemoveSlave m s cs = Some cs' -> calm cs cs'.
Proof. unfold clusterNodeRemoveSlave. intros Hr. binds; calms. Qed.
Lemma calm_addSlave m s cs cs' : clusterNodeAddSlave m s cs = Some cs' -> calm cs cs'.
Proof. unfold clusterNodeAddSlave. intros Hr. binds; calms. Qed.
Lemma calm_setBit x j cs cs' b : clusterNodeSetSlotBit x j cs = Some (cs', b) -> calm cs cs'.
Proof. unfold clusterNodeSetSlotBit. intros Hr. binds; calms. Qed.
Lemma calm_clearBit x j cs cs' b : clusterNodeClearSlotBit x j cs = Some (cs', b) -> calm cs cs'.
Proof. unfold clusterNodeClearSlotBit. intros Hr. binds; calms. Qed.
Lemma calm_addSlot x j cs cs' b : clusterAddSlot x j cs = Some (cs', b) -> calm cs cs'.
Proof. unfold clusterAddSlot. intros Hr. binds; [calms|]. apply calm_setBit in H. calms. Qed.
Lemma calm_delSlot j cs cs' b : clusterDelSlot j cs = Some (cs', b) -> calm cs cs'.
Proof. unfold clusterDelSlot. intros Hr. binds; [|calms]. apply calm_clearBit in H. calms. Qed.

(** A loop over the slots keeps what its body keeps. *)
Lemma for_slots_inv {A} (P : A -> Prop) f n j a a' :
  (forall j a a', P a -> f j a = Some a' -> P a') -> P a -> for_slots n j f a = Some a' -> P a'.
Proof.
  intros Hf. revert j a. induction n as [|n IH]; intros j a Ha Hl; cbn [for_slots] in Hl; binds; [done|]. eapply IH; [|done]. by eapply Hf.
Qed.
Lemma each_slot_calm {A} (st : A -> clusterState) f a a' :
  (forall j a a', f j a = Some a' -> calm (st a) (st a')) -> each_slot f a = Some a' -> calm (st a) (st a').
Proof.
  intros Hf. apply (for_slots_inv (fun b => calm (st a) (st b))); [|reflexivity]. intros j b b' Hb Hs. etrans; [done|]. by eapply Hf.
Qed.

Lemma calm_updateState e k cs cs' : clusterUpdateState e k cs = Some cs' -> calm cs cs'.
Proof.
  unfold clusterUpdateState. intros Hr. apply bind_Some in Hr as (me & _ & Hr).
  set (cs0 := set_todo_before_sleep _ cs) in Hr. assert (calm cs cs0) as H0 by (unfold cs0; calms).
  set (cs1 := if first_call_time cs0 =? 0 then _ else _) in Hr. assert (calm cs cs1) as H1 by (unfold cs1; calms).
  clearbody cs1. clear cs0 H0. destruct (_ && _) in Hr; [injection Hr as <-; done|]. apply bind_Some in Hr as (st & _ & Hr).
  set (cs2 := set_size _ cs1) in Hr. assert (calm cs cs2) as H2 by (unfold cs2; calms). clearbody cs2. clear H1.
  match type of Hr with (let '(_, _) := ?q in _) = _ => destruct q as [st' cs3] eqn:E end.
  assert (calm cs cs3) by (clear Hr; revert E; case_match; intros E; simplify_eq; calms). clear E. binds; calms.
Qed.

Lemma calm_reset cs : calm cs (resetManualFailover cs).1.
Proof. unfold resetManualFailover. cbn [fst]. calms. Qed.

Lemma calm_setNodeAsMaster x cs cs' : clusterSetNodeAsMaster x cs = Some cs' -> calm cs cs'.
Proof.
  unfold clusterSetNodeAsMaster. intros Hr. apply bind_Some in Hr as (n & _ & Hr). destruct (nodeIsMaster n); [by injection Hr as <-|].
  apply bind_Some in Hr as (cs1 & H1 & Hr). assert (calm cs cs1).
  { destruct (slaveof n) as [m|]; [|injection H1 as <-; done]. apply bind_Some in H1 as (cs0 & H0%calm_removeSlave & H1). binds; calms. }
  clear H1. binds; calms.
Qed.

Lemma calm_closeAll cs : calm cs (clusterCloseAllSlots cs).
Proof. unfold clusterCloseAllSlots. calms. Qed.

(** Messages that have no part in an election *)
Definition sends (eff : list effect) : list (nodename * clusterMsg) :=
  omap (fun x => match x with SendMessage d m => Some (d, m) | _ => None end) eff.
Definition quiet (eff : list effect) : Prop := Forall (fun '(_, m) => data m = TypePong) (sends eff).

Lemma sends_app l k : sends (l ++ k) = sends l ++ sends k.
Proof. apply omap_app. Qed.
Lemma quiet_nil : quiet [].
Proof. constructor. Qed.
Lemma quiet_app l k : quiet l -> quiet k -> quiet (l ++ k).
Proof. unfold quiet. rewrite sends_app. by apply Forall_app_2. Qed.

Lemma reset_quiet cs : quiet (resetManualFailover cs).2.
Proof. unfold resetManualFailover. cbn [snd]. by case_match; constructor. Qed.

Lemma calm_setMaster x cs cs' eff : clusterSetMaster x cs = Some (cs', eff) -> calm cs cs' /\ quiet eff.
Proof.
  unfold clusterSetMaster. intros Hr. destruct (decide _); [done|]. apply bind_Some in Hr as (me & _ & Hr). destruct (negb _); [done|].
  apply bind_Some in Hr as (cs1 & H1 & Hr). assert (calm cs cs1).
  { destruct (nodeIsMaster me).
    - apply bind_Some in H1 as (cs0 & H0 & H1). injection H1 as <-. etrans; [|apply calm_closeAll]. calms.
    - destruct (slaveof me); [by apply calm_removeSlave in H1|injection H1 as <-; done]. }
  apply bind_Some in Hr as (cs2 & H2 & Hr). apply bind_Some in Hr as (cs3 & H3%calm_addSlave & Hr).
  pose proof (calm_reset cs3). pose proof (reset_quiet cs3). destruct (resetManualFailover cs3) as [cs4 eff']. injection Hr as <- <-.
  cbn [fst snd] in *. split; [calms|done].
Qed.

Lemma calm_updateSlot x ep claimed cur j a a' : update_slot x ep claimed cur j a = Some a' -> calm a.1.1 a'.1.1.
Proof.
  destruct a as [[cs nm] dirty]. unfold update_slot. intros Hr. apply bind_Some in Hr as (bit & _ & Hr).
  destruct (negb bit); [injection Hr as <-; done|]. destruct (decide _); [injection Hr as <-; done|].
  destruct (importing_slots_from cs !! j); [injection Hr as <-; done|]. apply bind_Some in Hr as (rb & _ & Hr).
  destruct rb; [|injection Hr as <-; done]. apply bind_Some in Hr as ([cs1 b1] & H1%calm_delSlot & Hr).
  apply bind_Some in Hr as ([cs2 b2] & H2%calm_addSlot & Hr). injection Hr as <-. cbn [fst]. calms.
Qed.

Lemma updateSlotsConfig_calm e x ep claimed cs cs' eff :
  clusterUpdateSlotsConfigWith e x ep claimed cs = Some (cs', eff) -> calm cs cs' /\ quiet eff.
Proof.
  unfold clusterUpdateSlotsConfigWith. intros Hr. apply bind_Some in Hr as (me & _ & Hr).
  destruct (decide _); [injection Hr as <- <-; split; [done|apply quiet_nil]|]. apply bind_Some in Hr as ([[cs1 nm] dirty] & H1 & Hr).
  apply (each_slot_calm (fun a => a.1.1)) in H1; [|intros; by eapply calm_updateSlot]. cbn [fst] in H1.
  destruct (cluster_module_no_redirection e); [injection Hr as <- <-; split; [done|apply quiet_nil]|].
  apply bind_Some in Hr as (le & _ & Hr). destruct le.
  - apply bind_Some in Hr as ([cs2 eff2] & [H2 Hq]%calm_setMaster & Hr). injection Hr as <- <-. split; [calms|done].
  - injection Hr as <- <-. split; [calms|]. unfold quiet, sends. induction dirty; [constructor|done].
Qed.

Lemma hdr_fields e cs d m : clusterBuildMessageHdr e cs d = Some m -> data m = d /\ msg_currentEpoch m = currentEpoch cs /\
  (names_ok cs -> msg_sender m = myself cs).
Proof. unfold clusterBuildMessageHdr. intros Hr. binds; (split; [done|split; [done|]]); intros Hn; cbn; by apply Hn. Qed.

Lemma broadcast_sends (b : nodename -> clusterNode -> bool) m (P : nodename * clusterMsg -> Prop) l :
  (forall x, P (x, m)) -> Forall P (sends (omap (fun '(x, n) => if b x n then Some (SendMessage x m) else None) l)).
Proof.
  intros HP. induction l as [|[x n] l IH]; [constructor|]. cbn. destruct (b x n); [|done]. cbn. by constructor.
Qed.

Lemma pong_quiet e cs t eff : clusterBroadcastPong e cs t = Some eff -> quiet eff.
Proof.
  unfold clusterBroadcastPong. intros Hr. apply bind_Some in Hr as (me & _ & Hr). apply bind_Some in Hr as (m & Hm & Hr).
  apply hdr_fields in Hm as [Hm _]. injection Hr as <-. unfold quiet. by apply broadcast_sends.
Qed.

Lemma replace_calm e k cs cs' eff : clusterFailoverReplaceYourMaster e k cs = Some (cs', eff) -> calm cs cs' /\ quiet eff.
Proof.
  unfold clusterFailoverReplaceYourMaster. intros Hr. apply bind_Some in Hr as (me & _ & Hr).
  destruct (slaveof me) as [om|]; [|injection Hr as <- <-; split; [done|apply quiet_nil]].
  destruct (nodeIsMaster me); [injection Hr as <- <-; split; [done|apply quiet_nil]|].
  apply bind_Some in Hr as (cs1 & H1%calm_setNodeAsMaster & Hr). apply bind_Some in Hr as (cs2 & H2 & Hr).
  apply (each_slot_calm id) in H2.
  2: { intros j a a' Ha. unfold id. unfold take_slot in Ha. apply bind_Some in Ha as (o & _ & Ha). apply bind_Some in Ha as (bit & _ & Ha). destruct bit; [|by injection Ha as <-].
       apply bind_Some in Ha as ([a1 b1] & Ha1%calm_delSlot & Ha). apply bind_Some in Ha as ([a2 b2] & Ha2%calm_addSlot & Ha). injection Ha as <-. calms. }
  apply bind_Some in Hr as (cs3 & H3%calm_updateState & Hr). apply bind_Some in Hr as (pongs & Hp%pong_quiet & Hr).
  pose proof (calm_reset cs3). pose proof (reset_quiet cs3). destruct (resetManualFailover cs3) as [cs4 eff']. injection Hr as <- <-.
  cbn [fst snd] in *. unfold id in *. split; [calms|]. by apply (quiet_app pongs eff').
Qed.

(** * The cluster: hash slots
    
    [slots_ok cs]: the two representations of the assignment of slots agree, the owner of each
    slot and the bitmap and count of each node.  The operations on slots keep it, and under it
    their assertions hold. *)

(** ** Bitmaps *)

Lemma byte_bits b : byte_ok b <-> 0 <= b /\ forall n, 8 <= n -> Z.testbit b n = false.
Proof. apply (bits_bound 8). lia. Qed.

Lemma set_byte_ok b k : byte_ok b -> 0 <= k < 8 -> byte_ok (Z.lor b (Z.shiftl 1 k)).
Proof.
  rewrite !byte_bits, Z.shiftl_1_l. intros [H0 H1] Hk. split; [apply Z.lor_nonneg; split; [done|]; pose proof (Z.pow_pos_nonneg 2 k); lia|].
  intros n Hn. rewrite Z.lor_spec, H1, Z.pow2_bits_false by lia. done.
Qed.
Lemma clear_byte_ok b k : byte_ok b -> byte_ok (Z.land b (Z.lnot (Z.shiftl 1 k))).
Proof.
  rewrite !byte_bits. intros [H0 H1]. split; [apply Z.land_nonneg; by left|]. intros n Hn. by rewrite Z.land_spec, H1.
Qed.

Definition bitmap_ok (b : bytes) : Prop := zlen b = CLUSTER_SLOTS / 8 /\ bytes_ok b.
Definition slot_ok (j : Z) : Prop := 0 <= j < CLUSTER_SLOTS.

Lemma slot_byte j : slot_ok j -> 0 <= j / 8 < CLUSTER_SLOTS / 8 /\ 0 <= Z.land j 7 < 8 /\ j = 8 * (j / 8) + Z.land j 7.
Proof.
  unfold slot_ok, CLUSTER_SLOTS. intros Hj. change 7 with (Z.ones 3). rewrite Z.land_ones by lia. change (2 ^ 3) with 8. change (16384 / 8) with 2048.
  pose proof (Z.div_mod j 8). pose proof (Z.mod_pos_bound j 8). lia.
Qed.

Lemma bitmap_byte b i : bitmap_ok b -> 0 <= i < CLUSTER_SLOTS / 8 ->
  exists v, load1 b i = Some v /\ byte_ok v /\
    forall v', byte_ok v' -> exists b', store1 b i v' = Some b' /\ bitmap_ok b' /\ load1 b' i = Some v' /\ forall i', i' <> i -> load1 b' i' = load1 b i'.
Proof.
  intros [Hl Hb] Hi. destruct (split_range b i 1) as (A & B & C & -> & HA & HB); [lia..|]. destruct B as [|v [|]]; [done| |by rewrite !zlen_cons in HB; zlia].
  exists v. split; [by apply load1_app|]. apply Forall_app in Hb as [HbA Hb]. apply Forall_app in Hb as [Hv HbC].
  split; [by apply Forall_inv in Hv|]. intros v' Hv'. exists (A ++ [v'] ++ C). unfold store1. rewrite store_app; [|done|done].
  assert (u8 v' = v') as -> by (apply uN_small; unfold byte_ok in Hv'; lia). split; [done|]. split.
  - split; [by rewrite !zlen_app in *|]. apply Forall_app. split; [done|]. apply Forall_app. split; [by apply Forall_singleton|done].
  - split; [by apply load1_app|]. intros i' Hne. unfold load1. destruct (decide (0 <= i')) as [Hi'|?]; [|done]. cbn [app].
    assert ((A ++ v' :: C) = <[Z.to_nat i := v']> (A ++ v :: C)) as ->.
    { replace (Z.to_nat i) with (length A + 0)%nat by (unfold zlen in HA; lia). by rewrite insert_app_r. }
    by rewrite list_lookup_insert_ne by lia.
Qed.

Lemma test_bit b j v : load1 b (j / 8) = Some v -> slot_ok j -> bitmapTestBit b j = Some (Z.testbit v (Z.land j 7)).
Proof. intros Hv (_ & Hk & _)%slot_byte. unfold bitmapTestBit. rewrite Hv. mstep. by rewrite land_bit by lia. Qed.

Lemma test_total b j : bitmap_ok b -> slot_ok j -> exists t, bitmapTestBit b j = Some t.
Proof. intros Hb Hj. destruct (bitmap_byte b (j / 8) Hb ltac:(by apply slot_byte)) as (v & Hv & _). eexists. by apply test_bit. Qed.

(** A write to one bit *)
Lemma write_bit b j v v' bit :
  bitmap_ok b -> slot_ok j -> load1 b (j / 8) = Some v -> byte_ok v' ->
  (forall k, 0 <= k < 8 -> Z.testbit v' k = if decide (k = Z.land j 7) then bit else Z.testbit v k) ->
  exists b', store1 b (j / 8) v' = Some b' /\ bitmap_ok b' /\
    forall i, slot_ok i -> bitmapTestBit b' i = if decide (i = j) then Some bit else bitmapTestBit b i.
Proof.
  intros Hb Hj Hv Hv' Hbits. destruct (bitmap_byte b (j / 8) Hb ltac:(by apply slot_byte)) as (v0 & Hv0 & _ & Hst). rewrite Hv in Hv0. injection Hv0 as <-.
  destruct (Hst v' Hv') as (b' & Hs & Hb' & Hl & Hne). exists b'. split; [done|]. split; [done|]. intros i Hi.
  destruct (slot_byte j Hj) as (_ & _ & Ej). destruct (slot_byte i Hi) as (_ & Hki & Ei). destruct (decide (i / 8 = j / 8)) as [Heq|Hneq].
  - rewrite (test_bit b' i v') by (done || by rewrite Heq). rewrite Hbits by done. destruct (decide (i = j)) as [->|Hij]; [by rewrite decide_True|].
    rewrite decide_False by lia. by rewrite (test_bit b i v) by (done || by rewrite Heq).
  - rewrite decide_False by congruence. unfold bitmapTestBit. by rewrite Hne by done.
Qed.

Lemma set_bit_spec b j : bitmap_ok b -> slot_ok j ->
  exists b', bitmapSetBit b j = Some b' /\ bitmap_ok b' /\
    forall i, slot_ok i -> bitmapTestBit b' i = if decide (i = j) then Some true else bitmapTestBit b i.
Proof.
  intros Hb Hj. destruct (bitmap_byte b (j / 8) Hb ltac:(by apply slot_byte)) as (v & Hv & Hok & _). unfold bitmapSetBit. rewrite Hv. mstep.
  pose proof (slot_byte j Hj) as (_ & Hk & _). apply (write_bit b j v); try done; [by apply set_byte_ok|].
  intros k Hk'. rewrite Z.lor_spec, Z.shiftl_1_l. destruct (decide (k = Z.land j 7)) as [->|Hne].
  - by rewrite Z.pow2_bits_true, orb_true_r by lia.
  - by rewrite Z.pow2_bits_false, orb_false_r by lia.
Qed.
Lemma clear_bit_spec b j : bitmap_ok b -> slot_ok j ->
  exists b', bitmapClearBit b j = Some b' /\ bitmap_ok b' /\
    forall i, slot_ok i -> bitmapTestBit b' i = if decide (i = j) then Some false else bitmapTestBit b i.
Proof.
  intros Hb Hj. destruct (bitmap_byte b (j / 8) Hb ltac:(by apply slot_byte)) as (v & Hv & Hok & _). unfold bitmapClearBit. rewrite Hv. mstep.
  pose proof (slot_byte j Hj) as (_ & Hk & _). apply (write_bit b j v); try done; [by apply clear_byte_ok|].
  intros k Hk'. rewrite Z.land_spec, Z.lnot_spec, Z.shiftl_1_l by lia. destruct (decide (k = Z.land j 7)) as [->|Hne].
  - by rewrite Z.pow2_bits_true, andb_false_r by lia.
  - by rewrite Z.pow2_bits_false, andb_true_r by lia.
Qed.

(** ** The table of nodes *)

(** A node's place among the others *)
Record place_of := Place { p_name : nodename; p_master : bool; p_slave : bool; p_slaveof : option nodename; p_slaves : list nodename }.
Definition place (n : clusterNode) : place_of := Place (name n) (nodeIsMaster n) (nodeIsSlave n) (slaveof n) (slaves n).
(** What the operations on slots leave of a node *)
Definition role (n : clusterNode) : Z * place_of := (configEpoch n, place n).
(** What the assignment of slots is about *)
Definition shape (n : clusterNode) : bytes * Z := (slots n, numslots n).

Lemma fmap_insert_same {A} (f : clusterNode -> A) (ns : gmap nodename clusterNode) x n n' :
  ns !! x = Some n -> f n' = f n -> f <$> <[x := n']> ns = f <$> ns.
Proof. intros Hx Hf. rewrite fmap_insert, Hf. apply insert_id. by rewrite lookup_fmap, Hx. Qed.

Lemma upd_node_some x f cs n : nodes cs !! x = Some n -> upd_node x f cs = Some (set_nodes (<[x := f n]> (nodes cs)) cs).
Proof. intros Hx. unfold upd_node. by rewrite Hx. Qed.

Lemma fmap_lookup_some {A} (f : clusterNode -> A) (ns ns' : gmap nodename clusterNode) x n :
  f <$> ns' = f <$> ns -> ns !! x = Some n -> exists n', ns' !! x = Some n' /\ f n' = f n.
Proof.
  intros Hf Hx. apply (f_equal (lookup x)) in Hf. rewrite !lookup_fmap, Hx in Hf. cbn in Hf.
  destruct (ns' !! x) as [n'|]; [|done]. injection Hf as Hf. by exists n'.
Qed.

(** A flag outside the mask does not show. *)
Lemma flagged_add f g n : Z.land f g = 0 -> flagged (add_flag f n) g = flagged n g.
Proof. intros Hfg. unfold flagged, add_flag. cbn. by rewrite Z.land_lor_distr_l, Hfg, Z.lor_0_r. Qed.
Lemma flagged_del f g n : Z.land f g = 0 -> flagged (del_flag f n) g = flagged n g.
Proof.
  intros Hfg. unfold flagged, del_flag. cbn. rewrite <- Z.land_assoc. repeat f_equal. apply Z.bits_inj'. intros k Hk.
  apply (f_equal (fun z => Z.testbit z k)) in Hfg. rewrite Z.land_spec, Z.bits_0 in Hfg. rewrite Z.land_spec, Z.lnot_spec by done.
  destruct (Z.testbit f k), (Z.testbit g k); done.
Qed.

(** ** The assignment of slots *)

(** The number of slots of [x] *)
Definition owned (cm : gmap Z nodename) (x : nodename) : Z := Z.of_nat (base.size (filter (fun kv => kv.2 = x) cm)).

Record slots_on (ns : gmap nodename clusterNode) (cm : gmap Z nodename) : Prop := SlotsOn {
  so_bitmap : forall x n, ns !! x = Some n -> bitmap_ok (slots n);
  so_bits : forall x n j, ns !! x = Some n -> slot_ok j -> bitmapTestBit (slots n) j = Some (bool_decide (cm !! j = Some x));
  so_owner : forall j x, cm !! j = Some x -> slot_ok j /\ is_Some (ns !! x);
  so_count : forall x n, ns !! x = Some n -> numslots n = owned cm x }.

Lemma slots_on_shape ns ns' cm : shape <$> ns' = shape <$> ns -> slots_on ns cm -> slots_on ns' cm.
Proof.
  intros Hs [Hb Ht Ho Hc]. assert (forall x n', ns' !! x = Some n' -> exists n, ns !! x = Some n /\ slots n = slots n' /\ numslots n = numslots n') as Hx.
  { intros x n' Hx. destruct (fmap_lookup_some shape ns' ns x n' (eq_sym Hs) Hx) as (n & ? & [=]). by exists n. }
  split.
  - intros x n' (n & H1 & <- & _)%Hx. by eapply Hb.
  - intros x n' j (n & H1 & <- & _)%Hx. by apply Ht.
  - intros j x Hj. destruct (Ho j x Hj) as [? [n Hn]]. split; [done|]. destruct (fmap_lookup_some shape ns ns' x n Hs Hn) as (n' & ? & _). by exists n'.
  - intros x n' (n & H1 & _ & <-)%Hx. by apply Hc.
Qed.

Lemma owned_insert cm j x y : cm !! j = None -> owned (<[j := x]> cm) y = owned cm y + (if decide (x = y) then 1 else 0).
Proof.
  intros Hj. unfold owned. destruct (decide (x = y)) as [Hxy|Hxy].
  - rewrite map_filter_insert_True by done. rewrite map_size_insert_None; [lia|]. apply map_lookup_filter_None. by left.
  - rewrite map_filter_insert_False by done. rewrite delete_id by done. lia.
Qed.
Lemma owned_delete cm j x y : cm !! j = Some x -> owned (delete j cm) y = owned cm y - (if decide (x = y) then 1 else 0).
Proof.
  intros Hj. assert (cm = <[j := x]> (delete j cm)) as E by (by rewrite insert_delete_id).
  rewrite E at 2. rewrite owned_insert by apply lookup_delete_eq. lia.
Qed.
Lemma owned_nonneg cm x : 0 <= owned cm x.
Proof. unfold owned. lia. Qed.
Lemma owned_none cm x : owned cm x = 0 -> forall j, cm !! j <> Some x.
Proof.
  unfold owned. intros Ho j Hj. assert (filter (fun kv => kv.2 = x) cm = ∅) as E by (apply map_size_empty_inv; lia).
  apply (f_equal (lookup j)) in E. rewrite lookup_empty in E. apply map_lookup_filter_None in E as [E|E]; [congruence|]. by apply (E x Hj).
Qed.

Lemma owned_zero cm x : (forall j, cm !! j <> Some x) -> owned cm x = 0.
Proof.
  intros Hn. unfold owned. rewrite (map_empty_filter_2 _ cm); [by rewrite map_size_empty|]. intros k y Hk Hy. cbn in Hy. subst y. by apply (Hn k).
Qed.

(** A node whose bitmap has changed at one slot *)
Lemma slots_on_step ns cm x n n' j cm' bit :
  slots_on ns cm -> ns !! x = Some n -> slot_ok j -> bitmap_ok (slots n') ->
  (forall i, slot_ok i -> bitmapTestBit (slots n') i = if decide (i = j) then Some bit else bitmapTestBit (slots n) i) ->
  (forall i, i <> j -> cm' !! i = cm !! i) -> bool_decide (cm' !! j = Some x) = bit ->
  (forall y, y <> x -> cm !! j <> Some y /\ cm' !! j <> Some y) ->
  (forall y, owned cm' y = if decide (y = x) then numslots n' else owned cm y) ->
  slots_on (<[x := n']> ns) cm'.
Proof.
  intros [Hb Ht Ho Hc] Hx Hj Hb' Hbit Hcm Hnew Hoth Hown. split.
  - intros y m. destruct (decide (y = x)) as [->|Hne]; [rewrite lookup_insert_eq; by intros [= <-]|rewrite lookup_insert_ne by done; apply Hb].
  - intros y m i. destruct (decide (y = x)) as [->|Hne].
    + rewrite lookup_insert_eq. intros [= <-] Hi. rewrite Hbit by done. destruct (decide (i = j)) as [->|Hij]; [by rewrite Hnew|]. rewrite Hcm by done. by apply Ht.
    + rewrite lookup_insert_ne by done. intros Hy Hi. rewrite (Ht y m i Hy Hi). f_equal. destruct (decide (i = j)) as [->|Hij]; [|by rewrite Hcm].
      destruct (Hoth y Hne). by rewrite !bool_decide_false.
  - intros i y Hi. assert (slot_ok i /\ (y = x \/ is_Some (ns !! y))) as [? Hy].
    { destruct (decide (i = j)) as [->|Hij].
      - split; [done|left]. destruct (decide (y = x)) as [?|Hne]; [done|]. by destruct (Hoth y Hne).
      - rewrite Hcm in Hi by done. destruct (Ho i y Hi). auto. }
    split; [done|]. destruct (decide (y = x)) as [->|Hne]; [rewrite lookup_insert_eq; by eexists|]. rewrite lookup_insert_ne by done. by destruct Hy.
  - intros y m. rewrite Hown. destruct (decide (y = x)) as [->|Hne]; [rewrite lookup_insert_eq; by intros [= <-]|rewrite lookup_insert_ne by done; apply Hc].
Qed.

Definition with_slots (cm : gmap Z nodename) (ns : gmap nodename clusterNode) (cs : clusterState) : clusterState := set_cslots cm (set_nodes ns cs).

Lemma addSlot_ok x j cs :
  slots_on (nodes cs) (cslots cs) -> is_Some (nodes cs !! x) -> slot_ok j -> cslots cs !! j = None ->
  exists ns', clusterAddSlot x j cs = Some (with_slots (<[j := x]> (cslots cs)) ns' cs, true) /\
    slots_on ns' (<[j := x]> (cslots cs)) /\ role <$> ns' = role <$> nodes cs.
Proof.
  intros Hs [n Hx] Hj Hfree. pose proof (so_bitmap _ _ Hs x n Hx) as Hb. destruct (set_bit_spec (slots n) j Hb Hj) as (b & Hset & Hb' & Hbit).
  unfold clusterAddSlot, clusterNodeSetSlotBit. rewrite Hfree, Hx. mstep. rewrite (so_bits _ _ Hs x n j Hx Hj), bool_decide_false by (by rewrite Hfree).
  mstep. rewrite Hset. mstep. rewrite (upd_node_some _ _ _ n Hx). mstep. erewrite upd_node_some by apply lookup_insert_eq. mstep. cbn [nodes set_nodes].
  rewrite insert_insert_eq.
  assert (forall n', slots n' = b -> numslots n' = numslots n + 1 -> slots_on (<[x := n']> (nodes cs)) (<[j := x]> (cslots cs))) as Hstep.
  { intros n' Hsl Hns. apply (slots_on_step _ (cslots cs) x n n' j _ true); try done; rewrite ?Hsl; try done.
    - intros i Hij. by rewrite lookup_insert_ne.
    - rewrite lookup_insert_eq. by apply bool_decide_true.
    - intros y Hy. rewrite Hfree, lookup_insert_eq. split; congruence.
    - intros y. rewrite owned_insert, Hns, (so_count _ _ Hs x n Hx) by done. do 2 case_decide; subst; try done; lia. }
  destruct (_ && _).
  - erewrite upd_node_some by apply lookup_insert_eq. mstep. eexists. split; [reflexivity|]. cbn [nodes set_nodes]. rewrite insert_insert_eq.
    split; [by apply Hstep|]. eapply fmap_insert_same; [done|]. unfold role, place, nodeIsMaster, nodeIsSlave. by rewrite !flagged_add.
  - eexists. split; [reflexivity|]. split; [by apply Hstep|]. by eapply fmap_insert_same.
Qed.

Lemma delSlot_ok x j cs :
  slots_on (nodes cs) (cslots cs) -> cslots cs !! j = Some x ->
  exists ns', clusterDelSlot j cs = Some (with_slots (delete j (cslots cs)) ns' cs, true) /\
    slots_on ns' (delete j (cslots cs)) /\ role <$> ns' = role <$> nodes cs.
Proof.
  intros Hs Hown. destruct (so_owner _ _ Hs j x Hown) as [Hj [n Hx]]. pose proof (so_bitmap _ _ Hs x n Hx) as Hb.
  destruct (clear_bit_spec (slots n) j Hb Hj) as (b & Hset & Hb' & Hbit).
  unfold clusterDelSlot, clusterNodeClearSlotBit. rewrite Hown, Hx. mstep. rewrite (so_bits _ _ Hs x n j Hx Hj), bool_decide_true by done.
  mstep. rewrite Hset. mstep. rewrite (upd_node_some _ _ _ n Hx). mstep. erewrite upd_node_some by apply lookup_insert_eq. mstep. cbn [nodes set_nodes].
  rewrite insert_insert_eq. eexists. split; [reflexivity|]. split.
  - apply (slots_on_step _ (cslots cs) x n _ j _ false); try done.
    + intros i Hij. by rewrite lookup_delete_ne.
    + rewrite lookup_delete_eq. by apply bool_decide_false.
    + intros y Hy. rewrite Hown, lookup_delete_eq. split; congruence.
    + intros y. rewrite (owned_delete _ _ _ _ Hown). cbn. rewrite (so_count _ _ Hs x n Hx). do 2 case_decide; subst; try done; lia.
  - by eapply fmap_insert_same.
Qed.

(** A slot given to another node *)
Lemma moveSlot_ok {A} (k : clusterState -> option A) x j cs :
  slots_on (nodes cs) (cslots cs) -> is_Some (nodes cs !! x) -> slot_ok j ->
  exists ns', (let! (cs, _) := clusterDelSlot j cs in let! (cs, _) := clusterAddSlot x j cs in k cs) =
      k (with_slots (<[j := x]> (cslots cs)) ns' cs) /\
    slots_on ns' (<[j := x]> (cslots cs)) /\ role <$> ns' = role <$> nodes cs.
Proof.
  intros Hs [n Hx] Hj. destruct (cslots cs !! j) as [o|] eqn:Ho.
  - destruct (delSlot_ok o j cs Hs Ho) as (ns1 & -> & Hs1 & Hr1). mstep.
    destruct (addSlot_ok x j (with_slots (delete j (cslots cs)) ns1 cs) Hs1) as (ns2 & -> & Hs2 & Hr2); [|done|apply lookup_delete_eq|].
    + destruct (fmap_lookup_some role _ ns1 x n Hr1 Hx) as (n' & ? & _). by exists n'.
    + cbn [cslots nodes with_slots set_cslots set_nodes] in *. exists ns2. mstep. rewrite insert_delete_eq in *. split; [done|]. split; [done|congruence].
  - unfold clusterDelSlot. rewrite Ho. mstep. destruct (addSlot_ok x j cs Hs ltac:(by exists n) Hj Ho) as (ns2 & -> & Hs2 & Hr2). by exists ns2.
Qed.

(** ** Loops over the slots *)

Lemma for_slots_total {A} (P : Z -> A -> Prop) (f : Z -> A -> option A) n j a :
  (forall i a, j <= i < j + Z.of_nat n -> P i a -> exists a', f i a = Some a' /\ P (i + 1) a') -> P j a ->
  exists a', for_slots n j f a = Some a' /\ P (j + Z.of_nat n) a'.
Proof.
  revert j a. induction n as [|n IH]; intros j a Hf Ha; cbn [for_slots].
  - exists a. split; [done|]. by replace (j + Z.of_nat 0) with j by lia.
  - destruct (Hf j a ltac:(lia) Ha) as (a1 & -> & Ha1). mstep. destruct (IH (j + 1) a1) as (a' & Ha' & HP); [intros i b Hi; apply Hf; lia|done|].
    exists a'. split; [done|]. by replace (j + Z.of_nat (S n)) with (j + 1 + Z.of_nat n) by lia.
Qed.

Lemma each_slot_total {A} (P : Z -> A -> Prop) (f : Z -> A -> option A) a :
  P 0 a -> (forall i a, slot_ok i -> P i a -> exists a', f i a = Some a' /\ P (i + 1) a') ->
  exists a', each_slot f a = Some a' /\ P CLUSTER_SLOTS a'.
Proof.
  intros Ha Hf. unfold each_slot. destruct (for_slots_total P f (Z.to_nat CLUSTER_SLOTS) 0 a) as (a' & ? & HP); [|done|].
  - intros i b Hi. apply Hf. unfold slot_ok. unfold CLUSTER_SLOTS in *. lia.
  - exists a'. split; [done|]. by replace CLUSTER_SLOTS with (0 + Z.of_nat (Z.to_nat CLUSTER_SLOTS)) by (unfold CLUSTER_SLOTS; lia).
Qed.

(** ** The loops of the handlers *)

Section Loops.
Context (cs0 : clusterState).
Abbreviation cm0 := (cslots cs0).

(** After the slots below [i]: the assignment is [owner] there and unchanged above. *)
Definition slots_done (owner : Z -> option nodename) (i : Z) (ns : gmap nodename clusterNode) (cm : gmap Z nodename) : Prop :=
  slots_on ns cm /\ role <$> ns = role <$> nodes cs0 /\
  forall k, slot_ok k -> cm !! k = if decide (k < i) then owner k else cm0 !! k.

Lemma slots_done_start owner : slots_on (nodes cs0) cm0 -> slots_done owner 0 (nodes cs0) cm0.
Proof. intros Hs. split; [done|]. split; [done|]. intros k Hk. rewrite decide_False; [done|]. unfold slot_ok in Hk. lia. Qed.

(** A slot that keeps its owner *)
Lemma slots_done_skip owner i ns cm : slot_ok i -> slots_done owner i ns cm -> owner i = cm0 !! i -> slots_done owner (i + 1) ns cm.
Proof.
  intros Hi (Hs & Hr & Hk) Ho. split; [done|]. split; [done|]. intros k Hki. rewrite Hk by done.
  destruct (decide (k = i)) as [->|Hne]; [rewrite decide_False, decide_True by lia; done|]. do 2 case_decide; done || lia.
Qed.

Lemma slots_done_write owner i ns cm ns' cm' :
  slots_done owner i ns cm -> slots_on ns' cm' -> role <$> ns' = role <$> ns -> cm' !! i = owner i -> (forall k, k <> i -> cm' !! k = cm !! k) ->
  slots_done owner (i + 1) ns' cm'.
Proof.
  intros (Hs & Hr & Hk) Hs' Hr' Hi Hne. split; [done|]. split; [congruence|]. intros k Hki. destruct (decide (k = i)) as [->|Hki'].
  - rewrite decide_True by lia. done.
  - rewrite Hne, Hk by done. do 2 case_decide; done || lia.
Qed.

Lemma slots_done_at owner i ns cm : slots_done owner i ns cm -> slot_ok i -> cm !! i = cm0 !! i.
Proof. intros (_ & _ & Hk) Hi. rewrite Hk by done. by rewrite decide_False by lia. Qed.

Lemma slots_done_all owner ns cm : slots_done owner CLUSTER_SLOTS ns cm -> forall k, slot_ok k -> cm !! k = owner k.
Proof. intros (_ & _ & Hk) k Hki. rewrite Hk by done. unfold slot_ok in Hki. by rewrite decide_True by lia. Qed.

Lemma slots_done_node owner i ns cm x n : slots_done owner i ns cm -> nodes cs0 !! x = Some n -> exists n', ns !! x = Some n' /\ role n' = role n.
Proof. intros (_ & Hr & _). by apply fmap_lookup_some. Qed.

End Loops.

(** [clusterDelNodeSlots]: the node is left without slots, and the others with theirs. *)
Lemma delNodeSlots_ok x cs :
  slots_on (nodes cs) (cslots cs) -> is_Some (nodes cs !! x) ->
  exists ns' cm', clusterDelNodeSlots x cs = Some (with_slots cm' ns' cs, owned (cslots cs) x) /\
    slots_on ns' cm' /\ role <$> ns' = role <$> nodes cs /\
    forall k, slot_ok k -> cm' !! k = if decide (cslots cs !! k = Some x) then None else cslots cs !! k.
Proof.
  intros Hs [n Hx]. set (owner := fun k => if decide (cslots cs !! k = Some x) then None else cslots cs !! k).
  destruct (each_slot_total (fun i '(c, d) => exists ns cm, c = with_slots cm ns cs /\ slots_done cs owner i ns cm /\ d + owned cm x = owned (cslots cs) x)
    (fun j '(cs, deleted) =>
      let! n := nodes cs !! x in let! bit := clusterNodeGetSlotBit n j in
      if (bit : bool) then let! (cs, _) := clusterDelSlot j cs in Some (cs, deleted + 1) else Some (cs, deleted)) (cs, 0)) as ([c d] & Hl & (ns & cm & -> & Hd & Hown)).
  - exists (nodes cs), (cslots cs). split; [by destruct cs|]. split; [by apply slots_done_start|lia].
  - intros i [c d] Hi (ns & cm & -> & Hd & Hown). destruct (slots_done_node _ _ _ _ _ _ _ Hd Hx) as (n' & Hn' & _).
    cbn [nodes with_slots set_cslots set_nodes]. rewrite Hn'. mstep. unfold clusterNodeGetSlotBit. pose proof Hd as (Hson & _ & _). rewrite (so_bits _ _ Hson x n' i Hn' Hi).
    mstep. pose proof (slots_done_at _ _ _ _ _ Hd Hi) as Hat. case_bool_decide as Hix.
    + destruct (delSlot_ok x i (with_slots cm ns cs) Hson Hix) as (ns' & -> & Hs' & Hr'). mstep. eexists. split; [reflexivity|].
      exists ns', (delete i cm). split; [done|]. split.
      * apply (slots_done_write _ _ _ ns cm); try done; [|intros k Hk; by rewrite lookup_delete_ne]. unfold owner. rewrite lookup_delete_eq, decide_True by congruence. done.
      * rewrite (owned_delete _ _ _ _ Hix), decide_True by done. lia.
    + eexists. split; [reflexivity|]. exists ns, cm. split; [done|]. split; [|done]. apply slots_done_skip; [done|done|].
      unfold owner. rewrite decide_False by congruence. done.
  - exists ns, cm. unfold clusterDelNodeSlots. rewrite Hl. pose proof (slots_done_all _ _ _ _ Hd) as Hall. destruct Hd as (Hson & Hr & _).
    assert (owned cm x = 0) as H0.
    { apply owned_zero. intros k Hk.
      destruct (so_owner _ _ Hson k x Hk) as [Hok _]. rewrite Hall in Hk by done. unfold owner in Hk. by case_decide. }
    replace d with (owned (cslots cs) x) by lia. done.
Qed.
