(* ===== verification/ClusterRoles.v ===== *)
(** * The cluster: masters and replicas

    [roles_on me p]: the links between the nodes agree in both directions, a master replicates
    no one, and this node is either a master or a replica of a known node.  The operations that
    change roles keep it, and under it no name they follow is unknown. *)

From Stdlib Require Import ZArith Lia.
From stdpp Require Import base numbers option gmap list.
From S2P Require Import Prelude Memory Bits Cluster ClusterFacts.

Local Open Scope Z_scope.
Local Open Scope redis_scope.

Abbreviation places := (gmap nodename place_of).

Record roles_on (me : nodename) (p : places) : Prop := RolesOn {
  ro_names : forall x q, p !! x = Some q -> p_name q = x;
  ro_me : exists q, p !! me = Some q /\ p_slave q = negb (p_master q) /\ (p_slave q = true -> p_slaveof q <> None);
  ro_master : forall x q, p !! x = Some q -> p_master q = true -> p_slaveof q = None /\ p_slave q = false;
  ro_slaveof : forall x q m, p !! x = Some q -> p_slaveof q = Some m -> is_Some (p !! m);
  ro_slaves : forall m q x, p !! m = Some q -> (x ∈ p_slaves q <-> exists s, p !! x = Some s /\ p_slaveof s = Some m);
  ro_nodup : forall m q, p !! m = Some q -> NoDup (p_slaves q) }.

(** ** Lists of replicas *)

Lemma elem_of_remove_first x y l : NoDup l -> y ∈ remove_first x l <-> y ∈ l /\ y <> x.
Proof.
  induction 1 as [|z l Hz Hl IH]; cbn [remove_first]; [set_solver|]. case_decide as E; [subst; set_solver|]. rewrite !elem_of_cons, IH. naive_solver.
Qed.
Lemma remove_first_nodup x l : NoDup l -> NoDup (remove_first x l).
Proof.
  induction 1 as [|z l Hz Hl IH]; cbn [remove_first]; [constructor|]. case_decide; [done|]. constructor; [|done].
  rewrite elem_of_remove_first by done. by intros [].
Qed.
Lemma remove_first_not_in x l : x ∉ l -> remove_first x l = l.
Proof. induction l as [|y l IH]; [done|]. intros Hn. cbn [remove_first]. rewrite decide_False by set_solver. f_equal. apply IH. set_solver. Qed.

(** ** Changes of places *)

(** [x] becomes a master *)
Definition promoted (x : nodename) (old : option nodename) (y : nodename) (q : place_of) : place_of :=
  Place (p_name q) (bool_decide (y = x) || p_master q) (negb (bool_decide (y = x)) && p_slave q)
    (if decide (y = x) then None else p_slaveof q)
    (if decide (old = Some y) then remove_first x (p_slaves q) else p_slaves q).

(** [x] becomes a replica of [m] *)
Definition demoted (x m : nodename) (old : option nodename) (y : nodename) (q : place_of) : place_of :=
  Place (p_name q) (negb (bool_decide (y = x)) && p_master q) (bool_decide (y = x) || p_slave q)
    (if decide (y = x) then Some m else p_slaveof q)
    (let l := if decide (old = Some y) then remove_first x (p_slaves q) else p_slaves q in
     if decide (y = m) then l ++ [x] else l).

Lemma roles_promoted me p p' x q :
  roles_on me p -> p !! x = Some q -> (forall y, p' !! y = promoted x (p_slaveof q) y <$> p !! y) -> roles_on me p'.
Proof.
  intros [Hn Hme Hma Hso Hsl Hnd] Hx Hp.
  assert (forall y r', p' !! y = Some r' -> exists r, p !! y = Some r /\ r' = promoted x (p_slaveof q) y r) as Hinv.
  { intros y r' Hy. rewrite Hp in Hy. destruct (p !! y) as [r|]; [|done]. injection Hy as <-. by exists r. }
  split.
  - intros y r' (r & Hr & ->)%Hinv. exact (Hn y r Hr).
  - destruct Hme as (r & Hr & Hb & Hs). exists (promoted x (p_slaveof q) me r). rewrite Hp, Hr. split; [done|]. unfold promoted. cbn.
    destruct (decide (me = x)) as [->|Hne]; [rewrite bool_decide_true by done; done|]. by rewrite bool_decide_false by done.
  - intros y r' (r & Hr & ->)%Hinv. unfold promoted. cbn. destruct (decide (y = x)) as [->|Hne]; [by rewrite bool_decide_true|]. rewrite bool_decide_false by done. by apply (Hma y).
  - intros y r' m (r & Hr & ->)%Hinv. unfold promoted. cbn. destruct (decide (y = x)) as [->|Hne]; [done|]. intros Hm. rewrite Hp.
    destruct (Hso y r m Hr Hm) as [? ->]. by eexists.
  - intros m r' y (r & Hr & ->)%Hinv. unfold promoted at 1. cbn [p_slaves].
    assert (y ∈ (if decide (p_slaveof q = Some m) then remove_first x (p_slaves r) else p_slaves r) <-> y ∈ p_slaves r /\ y <> x) as ->.
    { case_decide as E; [by rewrite elem_of_remove_first by eauto|]. split; [|naive_solver]. intros Hy. split; [done|]. intros ->.
      apply (Hsl m r x Hr) in Hy as (s & Hs & Hm). congruence. }
    rewrite (Hsl m r y Hr). split.
    + intros [(s & Hs & Hm) Hne]. exists (promoted x (p_slaveof q) y s). rewrite Hp, Hs. split; [done|]. unfold promoted. cbn. by rewrite decide_False.
    + intros (s' & (s & Hs & ->)%Hinv & Hm). unfold promoted in Hm. cbn in Hm. case_decide; [done|]. split; [by exists s|done].
  - intros m r' (r & Hr & ->)%Hinv. unfold promoted. cbn. case_decide; [apply remove_first_nodup|]; eauto.
Qed.

Lemma roles_demoted me p p' m q :
  roles_on me p -> p !! me = Some q -> is_Some (p !! m) -> (forall y, p' !! y = demoted me m (p_slaveof q) y <$> p !! y) -> roles_on me p'.
Proof.
  intros [Hn Hme Hma Hso Hsl Hnd] Hx [qm Hm] Hp.
  assert (forall y r', p' !! y = Some r' -> exists r, p !! y = Some r /\ r' = demoted me m (p_slaveof q) y r) as Hinv.
  { intros y r' Hy. rewrite Hp in Hy. destruct (p !! y) as [r|]; [|done]. injection Hy as <-. by exists r. }
  assert (forall z r y, p !! z = Some r -> y ∈ (if decide (p_slaveof q = Some z) then remove_first me (p_slaves r) else p_slaves r) <-> y ∈ p_slaves r /\ y <> me) as Hrm.
  { intros z r y Hr. case_decide as E; [by rewrite elem_of_remove_first by eauto|]. split; [|naive_solver]. intros Hy. split; [done|]. intros ->.
    apply (Hsl z r me Hr) in Hy as (s & Hs & ?). congruence. }
  split.
  - intros y r' (r & Hr & ->)%Hinv. exact (Hn y r Hr).
  - exists (demoted me m (p_slaveof q) me q). rewrite Hp, Hx. split; [done|]. unfold demoted. cbn. rewrite bool_decide_true, decide_True by done. done.
  - intros y r' (r & Hr & ->)%Hinv. unfold demoted. cbn. destruct (decide (y = me)) as [->|Hne]; [by rewrite bool_decide_true by done|].
    rewrite bool_decide_false by done. by apply (Hma y).
  - intros y r' z (r & Hr & ->)%Hinv. unfold demoted. cbn. rewrite Hp. destruct (decide (y = me)) as [->|Hne].
    + intros [= <-]. rewrite Hm. by eexists.
    + intros Hz. destruct (Hso y r z Hr Hz) as [? ->]. by eexists.
  - intros z r' y (r & Hr & ->)%Hinv. unfold demoted at 1. cbn [p_slaves]. cbv zeta.
    assert (y ∈ (let l := if decide (p_slaveof q = Some z) then remove_first me (p_slaves r) else p_slaves r in if decide (z = m) then l ++ [me] else l)
            <-> if decide (y = me) then z = m else y ∈ p_slaves r) as ->.
    { cbv zeta. destruct (decide (z = m)); [rewrite elem_of_app, list_elem_of_singleton|]; rewrite Hrm by done; case_decide; naive_solver. }
    destruct (decide (y = me)) as [->|Hne].
    + split; [intros ->; exists (demoted me m (p_slaveof q) me q); rewrite Hp, Hx; split; [done|]; unfold demoted; cbn; by rewrite decide_True|].
      intros (s' & (s & Hs & ->)%Hinv & Hz). unfold demoted in Hz. cbn in Hz. rewrite decide_True in Hz by done. congruence.
    + rewrite (Hsl z r y Hr). split.
      * intros (s & Hs & Hz). exists (demoted me m (p_slaveof q) y s). rewrite Hp, Hs. split; [done|]. unfold demoted. cbn. by rewrite decide_False.
      * intros (s' & (s & Hs & ->)%Hinv & Hz). unfold demoted in Hz. cbn in Hz. rewrite decide_False in Hz by done. by exists s.
  - intros z r' (r & Hr & ->)%Hinv. unfold demoted. cbn. assert (NoDup (if decide (p_slaveof q = Some z) then remove_first me (p_slaves r) else p_slaves r)).
    { case_decide; [apply remove_first_nodup|]; eauto. }
    destruct (decide (z = m)); [|done]. apply NoDup_app. split; [done|]. split; [|apply NoDup_singleton].
    intros y Hy. rewrite (Hrm z r y Hr) in Hy. rewrite list_elem_of_singleton. by destruct Hy.
Qed.

(** ** The operations on roles *)

Definition body (n : clusterNode) : bytes * Z * Z := (slots n, numslots n, configEpoch n).

(** From [ns] to [ns'] the nodes keep their slots and epochs, and their places change as [g] says. *)
Definition edited (g : nodename -> place_of -> place_of) (ns ns' : gmap nodename clusterNode) : Prop :=
  body <$> ns' = body <$> ns /\ forall y, (place <$> ns') !! y = g y <$> (place <$> ns) !! y.

Lemma edited_refl ns : edited (fun _ q => q) ns ns.
Proof. split; [done|]. intros y. by destruct (_ !! y). Qed.
Lemma edited_trans g h a b c : edited g a b -> edited h b c -> edited (fun y q => h y (g y q)) a c.
Proof. intros [Hb Hg] [Hc Hh]. split; [congruence|]. intros y. rewrite Hh, Hg. by destruct (_ !! y). Qed.
Lemma edited_ext g h a b : edited g a b -> (forall y n, a !! y = Some n -> h y (place n) = g y (place n)) -> edited h a b.
Proof.
  intros [Hb Hg] He. split; [done|]. intros y. rewrite Hg, lookup_fmap. destruct (a !! y) as [n|] eqn:Hy; [|done]. cbn. by rewrite (He y n).
Qed.
Lemma edited_upd g x f cs n :
  nodes cs !! x = Some n -> body (f n) = body n -> place (f n) = g (place n) ->
  exists ns', upd_node x f cs = Some (set_nodes ns' cs) /\ edited (fun y q => if decide (y = x) then g q else q) (nodes cs) ns'.
Proof.
  intros Hx Hb Hp. rewrite (upd_node_some _ _ _ n Hx). eexists. split; [done|]. split; [by eapply fmap_insert_same|]. intros y. rewrite !lookup_fmap.
  destruct (decide (y = x)) as [->|Hne]; [rewrite lookup_insert_eq, Hx; cbn; by rewrite Hp|]. rewrite lookup_insert_ne by done. by destruct (_ !! y).
Qed.
Lemma edited_node g ns ns' x n : edited g ns ns' -> ns !! x = Some n -> exists n', ns' !! x = Some n' /\ place n' = g x (place n) /\ body n' = body n.
Proof.
  intros [Hb Hg] Hx. destruct (fmap_lookup_some body ns ns' x n Hb Hx) as (n' & Hn' & Hbn). exists n'. split; [done|]. split; [|done].
  specialize (Hg x). rewrite !lookup_fmap, Hx, Hn' in Hg. cbn in Hg. congruence.
Qed.
Lemma edited_slots g ns ns' cm : edited g ns ns' -> slots_on ns cm -> slots_on ns' cm.
Proof.
  intros [Hb _]. apply slots_on_shape. apply map_eq. intros y. apply (f_equal (lookup y)) in Hb. rewrite !lookup_fmap in *.
  destruct (ns' !! y), (ns !! y); cbn in *; try done. injection Hb as ? ? ?. unfold shape. congruence.
Qed.

Lemma flagged_add_self f n : f <> 0 -> flagged (add_flag f n) f = true.
Proof. intros Hf. unfold flagged, add_flag. cbn. rewrite Z.lor_comm, Z.land_comm, Z.land_lor_distr_r, Z.land_diag. apply negb_true_iff, Z.eqb_neq. intros [? _]%Z.lor_eq_0_iff. done. Qed.
Lemma flagged_del_sub f g n : Z.land (Z.lnot f) g = 0 -> flagged (del_flag f n) g = false.
Proof. intros Hf. unfold flagged, del_flag. cbn. by rewrite <- Z.land_assoc, Hf, Z.land_0_r. Qed.

Definition set_p_slaves (l : list nodename) (q : place_of) : place_of := Place (p_name q) (p_master q) (p_slave q) (p_slaveof q) l.

Lemma removeSlave_ok m x cs n :
  nodes cs !! m = Some n ->
  exists ns', clusterNodeRemoveSlave m x cs = Some (set_nodes ns' cs) /\
    edited (fun y q => if decide (y = m) then set_p_slaves (remove_first x (p_slaves q)) q else q) (nodes cs) ns'.
Proof.
  intros Hm. unfold clusterNodeRemoveSlave. rewrite Hm. mstep. destruct (decide (x ∈ slaves n)) as [Hin|Hin].
  - apply (edited_upd (fun q => set_p_slaves (remove_first x (p_slaves q)) q) m _ cs n Hm); cbv zeta; [by case_decide|].
    case_decide; [|done]. unfold place, nodeIsMaster, nodeIsSlave. by rewrite !flagged_del.
  - exists (nodes cs). split; [by destruct cs|]. eapply edited_ext; [apply edited_refl|]. intros y n' Hy. case_decide; [|done]. subst y. simplify_eq.
    cbn [p_slaves place]. by rewrite remove_first_not_in.
Qed.

Lemma addSlave_ok m x cs n :
  nodes cs !! m = Some n -> x ∉ slaves n ->
  exists ns', clusterNodeAddSlave m x cs = Some (set_nodes ns' cs) /\
    edited (fun y q => if decide (y = m) then set_p_slaves (p_slaves q ++ [x]) q else q) (nodes cs) ns'.
Proof.
  intros Hm Hin. unfold clusterNodeAddSlave. rewrite Hm. mstep. rewrite decide_False by done.
  apply (edited_upd (fun q => set_p_slaves (p_slaves q ++ [x]) q) m _ cs n Hm); [done|]. unfold place, nodeIsMaster, nodeIsSlave. by rewrite !flagged_add.
Qed.

Lemma roles_lookup me cs x n : roles_on me (place <$> nodes cs) -> nodes cs !! x = Some n ->
  name n = x /\ (nodeIsMaster n = true -> slaveof n = None /\ nodeIsSlave n = false) /\ (forall m, slaveof n = Some m -> is_Some (nodes cs !! m)) /\ NoDup (slaves n).
Proof.
  intros Hr Hx. assert ((place <$> nodes cs) !! x = Some (place n)) as Hp by (by rewrite lookup_fmap, Hx).
  split; [exact (ro_names _ _ Hr _ _ Hp)|]. split; [exact (ro_master _ _ Hr _ _ Hp)|]. split; [|exact (ro_nodup _ _ Hr _ _ Hp)].
  intros m Hm. pose proof (ro_slaveof _ _ Hr _ _ m Hp Hm) as Hs. rewrite lookup_fmap in Hs. by apply fmap_is_Some in Hs.
Qed.

(** [clusterSetNodeAsMaster] of a known node *)
Lemma setNodeAsMaster_ok x cs n :
  roles_on (myself cs) (place <$> nodes cs) -> nodes cs !! x = Some n ->
  exists ns' todo, clusterSetNodeAsMaster x cs = Some (set_todo_before_sleep todo (set_nodes ns' cs)) /\
    roles_on (myself cs) (place <$> ns') /\ edited (if nodeIsMaster n then fun _ q => q else promoted x (slaveof n)) (nodes cs) ns'.
Proof.
  intros Hr Hx. unfold clusterSetNodeAsMaster. rewrite Hx. mstep. destruct (nodeIsMaster n) eqn:Em.
  { exists (nodes cs), (todo_before_sleep cs). split; [by destruct cs|]. split; [done|apply edited_refl]. }
  assert (exists ns1, (match slaveof n with
             | Some m => let! cs := clusterNodeRemoveSlave m x cs in
                 if decide (x = myself cs) then Some cs else upd_node x (add_flag CLUSTER_NODE_MIGRATE_TO) cs
             | None => Some cs end) = Some (set_nodes ns1 cs) /\
    edited (fun y q => if decide (slaveof n = Some y) then set_p_slaves (remove_first x (p_slaves q)) q else q) (nodes cs) ns1) as (ns1 & -> & E1).
  { destruct (slaveof n) as [m|] eqn:Es.
    - destruct (roles_lookup _ _ _ _ Hr Hx) as (_ & _ & Hm & _). destruct (Hm m Es) as [nm Hnm].
      destruct (removeSlave_ok m x cs nm Hnm) as (ns0 & -> & E0). mstep. cbn [myself set_nodes].
      assert (edited (fun y q => if decide (Some m = Some y) then set_p_slaves (remove_first x (p_slaves q)) q else q) (nodes cs) ns0) as E0'.
      { eapply edited_ext; [exact E0|]. intros y n' _. do 2 case_decide; congruence. }
      destruct (decide (x = myself cs)) as [?|Hme]; [by exists ns0|]. destruct (edited_node _ _ _ _ _ E0 Hx) as (n0 & Hn0 & _).
      destruct (edited_upd (fun q => q) x (add_flag CLUSTER_NODE_MIGRATE_TO) (set_nodes ns0 cs) n0 Hn0) as (ns1 & -> & E1);
        [done|unfold place, nodeIsMaster, nodeIsSlave; by rewrite !flagged_add|].
      exists ns1. split; [done|]. eapply edited_ext; [exact (edited_trans _ _ _ _ _ E0' E1)|]. intros y n' _. cbv beta. by destruct (decide (y = x)).
    - exists (nodes cs). split; [by destruct cs|]. eapply edited_ext; [apply edited_refl|]. intros. done. }
  mstep. destruct (edited_node _ _ _ _ _ E1 Hx) as (n1 & Hn1 & _).
  destruct (edited_upd (fun q => Place (p_name q) true false None (p_slaves q)) x
    (fun n => set_slaveof None (add_flag CLUSTER_NODE_MASTER (del_flag CLUSTER_NODE_SLAVE n))) (set_nodes ns1 cs) n1 Hn1) as (ns2 & -> & E2).
  { done. }
  { unfold place, nodeIsMaster, nodeIsSlave. f_equal.
    - by apply (flagged_add_self CLUSTER_NODE_MASTER).
    - transitivity (flagged (del_flag CLUSTER_NODE_SLAVE n1) CLUSTER_NODE_SLAVE); [by apply (flagged_add CLUSTER_NODE_MASTER)|by apply flagged_del_sub]. }
  mstep. exists ns2. eexists. split; [reflexivity|]. cbn [nodes set_nodes] in E2.
  assert (edited (promoted x (slaveof n)) (nodes cs) ns2) as E.
  { eapply edited_ext; [exact (edited_trans _ _ _ _ _ E1 E2)|]. intros y n' _. unfold promoted. cbv beta.
    destruct (decide (slaveof n = Some y)), (decide (y = x)) as [->|]; cbn [p_name p_master p_slave p_slaveof p_slaves set_p_slaves];
      first [rewrite bool_decide_true by done|rewrite bool_decide_false by done]; done. }
  split; [|done]. apply (roles_promoted _ (place <$> nodes cs) _ x (place n)); [done|by rewrite lookup_fmap, Hx|]. apply E.
Qed.

(** The first half: this node gives up its role. *)
Lemma leaveRole_ok cs me :
  roles_on (myself cs) (place <$> nodes cs) -> nodes cs !! myself cs = Some me ->
  exists cs1, (if nodeIsMaster me then
       let! cs := upd_node (myself cs) (fun n => add_flag CLUSTER_NODE_SLAVE (del_flag (Z.lor CLUSTER_NODE_MASTER CLUSTER_NODE_MIGRATE_TO) n)) cs in
       Some (clusterCloseAllSlots cs)
     else match slaveof me with Some m => clusterNodeRemoveSlave m (myself cs) cs | None => Some cs end) = Some cs1 /\
     myself cs1 = myself cs /\ cslots cs1 = cslots cs /\ slots_keys_count cs1 = slots_keys_count cs /\
     edited (fun y q => Place (p_name q) (negb (bool_decide (y = myself cs)) && p_master q) (bool_decide (y = myself cs) || p_slave q) (p_slaveof q)
       (if decide (slaveof me = Some y) then remove_first (myself cs) (p_slaves q) else p_slaves q)) (nodes cs) (nodes cs1).
Proof.
  intros Hr Hme. destruct (roles_lookup _ _ _ _ Hr Hme) as (_ & Hmast & Hso & _).
  destruct (nodeIsMaster me) eqn:Em.
    - rewrite (proj1 (Hmast eq_refl)). destruct (edited_upd (fun q => Place (p_name q) false true (p_slaveof q) (p_slaves q)) (myself cs)
        (fun n => add_flag CLUSTER_NODE_SLAVE (del_flag (Z.lor CLUSTER_NODE_MASTER CLUSTER_NODE_MIGRATE_TO) n)) cs me Hme) as (ns1 & -> & E1).
      { done. }
      { unfold place, nodeIsMaster, nodeIsSlave. f_equal; [by rewrite flagged_add, flagged_del_sub|by apply (flagged_add_self CLUSTER_NODE_SLAVE)]. }
      eexists. split; [reflexivity|]. do 3 (split; [done|]). eapply edited_ext; [exact E1|]. intros y n _. cbv beta. rewrite (decide_False (P := None = Some y)) by done.
      destruct (decide (y = myself cs)); [by rewrite bool_decide_true|by rewrite bool_decide_false].
    - assert (nodeIsSlave me = true) as Hsl.
      { destruct (ro_me _ _ Hr) as (q & Hq & Hb & _). rewrite lookup_fmap, Hme in Hq. injection Hq as <-. cbn in Hb. by rewrite Hb, Em. }
      assert (forall y n, nodes cs !! y = Some n -> negb (bool_decide (y = myself cs)) && nodeIsMaster n = nodeIsMaster n /\ bool_decide (y = myself cs) || nodeIsSlave n = nodeIsSlave n) as Hfl.
      { intros y n Hy. case_bool_decide; [subst; simplify_eq|done]. cbn. by rewrite Em, Hsl. }
      destruct (slaveof me) as [m|] eqn:Es.
      + destruct (Hso m eq_refl) as [nm Hnm]. destruct (removeSlave_ok m (myself cs) cs nm Hnm) as (ns1 & -> & E1). eexists. split; [reflexivity|]. do 3 (split; [done|]).
        eapply edited_ext; [exact E1|]. intros y n Hy. cbn. destruct (Hfl y n Hy) as [-> ->]. do 2 case_decide; try congruence; done.
      + exists cs. do 4 (split; [done|]). eapply edited_ext; [apply edited_refl|]. intros y n Hy. cbn. by destruct (Hfl y n Hy) as [-> ->].
Qed.

(** [clusterSetMaster] of a known node, when this node has no slots *)
Lemma setMaster_ok x cs me :
  roles_on (myself cs) (place <$> nodes cs) -> nodes cs !! myself cs = Some me -> numslots me = 0 -> is_Some (nodes cs !! x) -> x <> myself cs ->
  exists cs' eff, clusterSetMaster x cs = Some (cs', eff) /\
    myself cs' = myself cs /\ cslots cs' = cslots cs /\ slots_keys_count cs' = slots_keys_count cs /\
    roles_on (myself cs) (place <$> nodes cs') /\ edited (demoted (myself cs) x (slaveof me)) (nodes cs) (nodes cs').
Proof.
  intros Hr Hme H0 [nx Hx] Hne. unfold clusterSetMaster. rewrite decide_False by done. rewrite Hme. mstep. rewrite H0. cbn [negb Z.eqb].
  destruct (leaveRole_ok cs me Hr Hme) as (cs1 & -> & M1 & C1 & K1 & E1).
  mstep. destruct (edited_node _ _ _ _ _ E1 Hme) as (me1 & Hme1 & _). rewrite M1.
  destruct (edited_upd (fun q => Place (p_name q) (p_master q) (p_slave q) (Some x) (p_slaves q)) (myself cs) (set_slaveof (Some x)) cs1 me1 Hme1) as (ns2 & -> & E2); [done..|].
  mstep. pose proof (edited_trans _ _ _ _ _ E1 E2) as E12. destruct (edited_node _ _ _ _ _ E12 Hx) as (x2 & Hx2 & Px & _).
  assert (myself cs ∉ slaves x2) as Hnot.
  { replace (slaves x2) with (p_slaves (place x2)) by done. rewrite Px. rewrite decide_False by done. cbn [p_slaves place].
    assert ((place <$> nodes cs) !! x = Some (place nx)) as Hpx by (by rewrite lookup_fmap, Hx).
    pose proof (ro_slaves _ _ Hr x (place nx) (myself cs) Hpx) as Hiff. cbn [p_slaves place] in Hiff.
    destruct (roles_lookup _ _ _ _ Hr Hx) as (_ & _ & _ & Hnd).
    destruct (decide (slaveof me = Some x)) as [E|E]; [rewrite elem_of_remove_first by done; by intros []|]. rewrite Hiff. intros (s & Hs & Hsx). rewrite lookup_fmap, Hme in Hs. injection Hs as <-. done. }
  change (myself (set_nodes ns2 cs1)) with (myself cs1). rewrite M1.
  destruct (addSlave_ok x (myself cs) (set_nodes ns2 cs1) x2 Hx2 Hnot) as (ns3 & -> & E3). mstep.
  eexists _, _. split; [reflexivity|]. cbn. do 3 (split; [done|]).
  assert (edited (demoted (myself cs) x (slaveof me)) (nodes cs) ns3) as E.
  { eapply edited_ext; [exact (edited_trans _ _ _ _ _ E12 E3)|]. intros y n _. cbv beta. unfold demoted. cbv zeta.
    destruct (decide (y = x)), (decide (y = myself cs)); subst; try done; cbn [p_name p_master p_slave p_slaveof p_slaves set_p_slaves]; done. }
  split; [|done]. apply (roles_demoted _ (place <$> nodes cs) _ x (place me)); [done|by rewrite lookup_fmap, Hme|rewrite lookup_fmap, Hx; by eexists|apply E].
Qed.
