(* ===== verification/ClusterSafe.v ===== *)
(** * The cluster: no assertion fails

    [wf]: the links between the nodes and the assignment of slots are consistent, and no
    replica has slots.  Every handler keeps it, and from such a state it always has a result:
    no assertion fails, no pointer it follows is NULL, no read leaves a bitmap. *)

From Stdlib Require Import ZArith Lia.
From stdpp Require Import base numbers option gmap list.
From S2P Require Import Prelude Memory Bits Cluster ClusterFacts ClusterRoles.

Local Open Scope Z_scope.
Local Open Scope redis_scope.

(** No replica has slots. *)
Definition replicas_idle (p : places) (cm : gmap Z nodename) : Prop :=
  forall j x q, cm !! j = Some x -> p !! x = Some q -> p_slave q = false.

Record wf (cs : clusterState) : Prop := Wf {
  wf_roles : roles_on (myself cs) (place <$> nodes cs);
  wf_slots : slots_on (nodes cs) (cslots cs);
  wf_owners : replicas_idle (place <$> nodes cs) (cslots cs) }.

(** A message off the wire: its bitmaps have the size of the packet's fields. *)
Definition msg_ok (m : clusterMsg) : Prop :=
  bitmap_ok (myslots m) /\ match data m with TypeUpdate _ _ claimed => bitmap_ok claimed | _ => True end.

Lemma wf_same cs cs' : myself cs' = myself cs -> nodes cs' = nodes cs -> cslots cs' = cslots cs -> wf cs -> wf cs'.
Proof. intros Hm Hn Hc []. split; by rewrite ?Hm, ?Hn, ?Hc. Qed.

Lemma wf_me cs : wf cs -> exists me, nodes cs !! myself cs = Some me /\ nodeIsSlave me = negb (nodeIsMaster me) /\ (nodeIsMaster me = true \/ exists m, slaveof me = Some m).
Proof.
  intros [Hr _ _]. destruct (ro_me _ _ Hr) as (q & Hq & Hb & Hs). rewrite lookup_fmap in Hq. destruct (nodes cs !! myself cs) as [me|]; [|done].
  injection Hq as <-. exists me. split; [done|]. split; [done|]. cbn in *. destruct (nodeIsMaster me); [by left|right].
  destruct (slaveof me) as [m|]; [by exists m|]. by destruct Hs.
Qed.

(** A field of a node that has no part in this *)
Lemma wf_upd x f cs :
  wf cs -> is_Some (nodes cs !! x) -> (forall n, place (f n) = place n) -> (forall n, shape (f n) = shape n) ->
  exists ns', upd_node x f cs = Some (set_nodes ns' cs) /\ wf (set_nodes ns' cs) /\ place <$> ns' = place <$> nodes cs.
Proof.
  intros [Hr Hs Ho] [n Hx] Hp Hsh. rewrite (upd_node_some _ _ _ n Hx). eexists. split; [done|].
  assert (place <$> <[x := f n]> (nodes cs) = place <$> nodes cs) as E by (eapply fmap_insert_same; done).
  split; [|done]. split; cbn; rewrite ?E; try done. eapply slots_on_shape; [|done]. by eapply fmap_insert_same.
Qed.

Lemma same_places_some (ns ns' : gmap nodename clusterNode) x : place <$> ns' = place <$> ns -> is_Some (ns !! x) -> is_Some (ns' !! x).
Proof. intros E [n Hx]. destruct (fmap_lookup_some place ns ns' x n E Hx) as (n' & ? & _). by exists n'. Qed.

Lemma wf_master_known cs x n m : wf cs -> nodes cs !! x = Some n -> slaveof n = Some m -> is_Some (nodes cs !! m).
Proof. intros Hw Hx Hm. destruct (roles_lookup _ _ _ _ (wf_roles _ Hw) Hx) as (_ & _ & H3 & _). by apply H3. Qed.

(** ** Sending *)

Lemma buildHdr_ok e cs d : wf cs -> exists m, clusterBuildMessageHdr e cs d = Some m /\ bitmap_ok (myslots m) /\ data m = d.
Proof.
  intros Hw. destruct (wf_me cs Hw) as (me & Hme & _ & _). unfold clusterBuildMessageHdr. rewrite Hme. mstep.
  assert (exists master, (match slaveof me with Some m => if nodeIsSlave me then nodes cs !! m else Some me | None => Some me end) = Some master /\ bitmap_ok (slots master))
    as (master & -> & Hb).
  { pose proof (so_bitmap _ _ (wf_slots _ Hw)) as Hb. destruct (slaveof me) as [m|] eqn:Es; [|exists me; eauto]. destruct (nodeIsSlave me); [|exists me; eauto].
    destruct (wf_master_known cs _ me m Hw Hme Es) as [n Hn]. exists n. eauto. }
  mstep. by eexists.
Qed.

Lemma broadcast_ok (b : nodename -> clusterNode -> bool) m l :
  msg_ok m -> Forall (fun p => msg_ok p.2) (sends (omap (fun '(x, n) => if b x n then Some (SendMessage x m) else None) l)).
Proof. intros Hm. by apply (broadcast_sends b m (fun p => msg_ok p.2)). Qed.

Lemma pong_ok e cs t : wf cs -> exists eff, clusterBroadcastPong e cs t = Some eff /\ Forall (fun p => msg_ok p.2) (sends eff).
Proof.
  intros Hw. destruct (wf_me cs Hw) as (me & Hme & _ & _). unfold clusterBroadcastPong. rewrite Hme. mstep.
  destruct (buildHdr_ok e cs TypePong Hw) as (m & -> & Hb & Hd). mstep. eexists. split; [done|]. apply broadcast_ok. split; [done|]. by rewrite Hd.
Qed.

Lemma request_ok e cs : wf cs -> exists eff, clusterRequestFailoverAuth e cs = Some eff /\ Forall (fun p => msg_ok p.2) (sends eff).
Proof.
  intros Hw. unfold clusterRequestFailoverAuth. destruct (buildHdr_ok e cs TypeFailoverAuthRequest Hw) as (m & -> & Hb & Hd). mstep.
  eexists. split; [done|]. apply broadcast_ok. by case_match; (split; [done|]); cbn; rewrite Hd.
Qed.

Lemma sendAuth_ok e cs x : wf cs -> is_Some (nodes cs !! x) -> exists eff, clusterSendFailoverAuth e cs x = Some eff /\ Forall (fun p => msg_ok p.2) (sends eff).
Proof.
  intros Hw [n Hx]. unfold clusterSendFailoverAuth. rewrite Hx. mstep. destruct (negb (link n)); [by exists []|].
  destruct (buildHdr_ok e cs TypeFailoverAuthAck Hw) as (m & -> & Hb & Hd). mstep. eexists. split; [done|]. apply Forall_singleton. split; [done|]. cbn. by rewrite Hd.
Qed.

(** ** Voting *)

(** The loop over the claimed slots finds whether one belongs to a node with a newer configuration. *)
Lemma claim_outdated_ok cs claimed ep :
  slots_on (nodes cs) (cslots cs) -> bitmap_ok claimed ->
  exists b, claim_outdated cs claimed ep = Some b /\
    (b = true <-> exists j o n, slot_ok j /\ bitmapTestBit claimed j = Some true /\ cslots cs !! j = Some o /\ nodes cs !! o = Some n /\ ep < configEpoch n).
Proof.
  intros Hs Hc.
  destruct (each_slot_total (fun i b => b = true <-> exists j o n, j < i /\ slot_ok j /\ bitmapTestBit claimed j = Some true /\ cslots cs !! j = Some o /\
    nodes cs !! o = Some n /\ ep < configEpoch n) (fun j (refused : bool) =>
    if refused then Some true else
    let! bit := bitmapTestBit claimed j in
    if negb bit then Some false else
    match cslots cs !! j with
    | None => Some false
    | Some o => let! owner := nodes cs !! o in Some (negb (configEpoch owner <=? ep))
    end) false) as (b & Hb & Hi).
  - split; [done|]. intros (j & o & n & Hj & [? _] & _). lia.
  - intros i b Hi IH. destruct b.
    { exists true. split; [done|]. split; [|done]. intros _. destruct (proj1 IH eq_refl) as (j & o & n & ? & H'). exists j, o, n. split; [lia|done]. }
    assert (forall P : Prop, (~ P) -> (false = true <-> P)) as Hno by (intros P HP; split; [done|intros; exfalso; auto]).
    assert (forall j o n, j < i -> slot_ok j -> bitmapTestBit claimed j = Some true -> cslots cs !! j = Some o -> nodes cs !! o = Some n -> ~ ep < configEpoch n) as Hprev.
    { intros j o n Hj H1 H2 H3 H4 H5. assert (false = true) by (apply IH; by exists j, o, n). done. }
    clear IH. destruct (test_total claimed i Hc Hi) as (t & Ht). rewrite Ht. mstep. destruct t; cbn [negb].
    2: { exists false. split; [done|]. apply Hno. intros (j & o & n & Hj & H1 & H2 & H3 & H4 & H5).
         destruct (decide (j = i)) as [->|Hne]; [congruence|]. eapply (Hprev j o n); try done; lia. }
    destruct (cslots cs !! i) as [o|] eqn:Eo.
    2: { exists false. split; [done|]. apply Hno. intros (j & o & n & Hj & H1 & H2 & H3 & H4 & H5).
         destruct (decide (j = i)) as [->|Hne]; [congruence|]. eapply (Hprev j o n); try done; lia. }
    destruct (so_owner _ _ Hs i o Eo) as [_ [n Hn]]. rewrite Hn. mstep. eexists. split; [done|]. destruct (configEpoch n <=? ep) eqn:Ec; cbn [negb].
    + apply Hno. intros (j & o' & n' & Hj & H1 & H2 & H3 & H4 & H5).
      destruct (decide (j = i)) as [->|Hne]; [simplify_eq; lia|]. eapply (Hprev j o' n'); try done; lia.
    + split; [|done]. intros _. exists i, o, n. split; [lia|]. split; [done|]. split; [done|]. split; [done|]. split; [done|lia].
  - exists b. split; [done|]. rewrite Hi. split; intros (j & o & n & H'); exists j, o, n; [tauto|]. split; [|done]. destruct H' as [[] _]. lia.
Qed.

Lemma vote_ok e x request cs :
  wf cs -> is_Some (nodes cs !! x) -> msg_ok request ->
  exists cs' eff, clusterSendFailoverAuthIfNeeded e x request cs = Some (cs', eff) /\ wf cs' /\ Forall (fun p => msg_ok p.2) (sends eff).
Proof.
  intros Hw [node Hx] [Hb _]. destruct (wf_me cs Hw) as (me & Hme & _ & _). unfold clusterSendFailoverAuthIfNeeded. rewrite Hx, Hme. mstep.
  assert (exists cs' eff, Some (cs, @nil effect) = Some (cs', eff) /\ wf cs' /\ Forall (fun p => msg_ok p.2) (sends eff)) as Hnone by (exists cs, []; done).
  repeat (match goal with |- context [if ?b then Some (cs, []) else _] => destruct b; [exact Hnone|] end).
  destruct (slaveof node) as [m|] eqn:Es; [|exact Hnone]. pose proof (wf_master_known cs x node m Hw Hx Es) as Hm. destruct Hm as [master Hm]. rewrite Hm. mstep.
  repeat (match goal with |- context [if ?b then Some (cs, []) else _] => destruct b; [exact Hnone|] end).
  destruct (claim_outdated_ok cs (myslots request) (msg_configEpoch request) (wf_slots _ Hw) Hb) as (refused & -> & _). mstep.
  destruct refused; [exact Hnone|].
  destruct (wf_upd m (set_voted_time (mstime e 1)) (set_lastVoteEpoch (currentEpoch cs) cs)) as (ns' & -> & Hw' & E); [by apply (wf_same cs)|by exists master|done..|].
  mstep. destruct (sendAuth_ok e (clusterDoBeforeSleep (Z.lor CLUSTER_TODO_SAVE_CONFIG CLUSTER_TODO_FSYNC_CONFIG) (set_nodes ns' (set_lastVoteEpoch (currentEpoch cs) cs))) x) as (eff & -> & Hf).
  - by eapply wf_same; [..|exact Hw'].
  - apply (same_places_some (nodes cs)); [done|by exists node].
  - eexists _, eff. split; [reflexivity|]. split; [|done]. by eapply wf_same; [..|exact Hw'].
Qed.

(** ** The state of the cluster *)

Lemma updateState_ok e k cs : wf cs ->
  exists cs', clusterUpdateState e k cs = Some cs' /\ myself cs' = myself cs /\ nodes cs' = nodes cs /\ cslots cs' = cslots cs /\
    slots_keys_count cs' = slots_keys_count cs.
Proof.
  intros Hw. destruct (wf_me cs Hw) as (me & Hme & _ & _). unfold clusterUpdateState. rewrite Hme. mstep.
  set (cs0 := set_todo_before_sleep _ cs). set (cs1 := if first_call_time cs0 =? 0 then _ else _).
  assert (myself cs1 = myself cs /\ nodes cs1 = nodes cs /\ cslots cs1 = cslots cs /\ slots_keys_count cs1 = slots_keys_count cs) as (E1 & E2 & E3 & E4)
    by (unfold cs1; case_match; done).
  clearbody cs1. clear cs0. destruct (_ && _); [by exists cs1|]. rewrite E2, E3.
  assert (exists st, (if cluster_require_full_coverage e then
       each_slot (fun j st => if st =? CLUSTER_FAIL then Some st else
         match cslots cs !! j with
         | None => Some CLUSTER_FAIL
         | Some x => let! n := nodes cs !! x in Some (if flagged n CLUSTER_NODE_FAIL then CLUSTER_FAIL else CLUSTER_OK)
         end) CLUSTER_OK else Some CLUSTER_OK) = Some st) as (st & ->).
  { destruct (cluster_require_full_coverage e); [|by eexists].
    edestruct (each_slot_total (fun _ _ : Z => True)) as (st & Hst & _); [done| |exists st; exact Hst].
    intros i a Hi _. cbv beta. destruct (a =? CLUSTER_FAIL); [by eexists|]. destruct (cslots cs !! i) as [x|] eqn:Ex; [|by eexists].
    destruct (so_owner _ _ (wf_slots _ Hw) i x Ex) as [_ [n ->]]. by eexists. }
  mstep. cbv zeta. match goal with |- context [let '(_, _) := ?q in _] => assert (myself q.2 = myself cs /\ nodes q.2 = nodes cs /\ cslots q.2 = cslots cs /\
    slots_keys_count q.2 = slots_keys_count cs) as Hq by (case_match; done); destruct q as [st' cs3] end. cbn [snd] in Hq.
  repeat case_match; eexists; (split; [done|]); done.
Qed.

(** ** Taking over the slots of a master *)

(** One bind, by rewriting: a conversion could run a loop over the slots that comes next. *)
Lemma mbind_some {A B} (f : A -> option B) x : mbind f (Some x) = f x.
Proof. done. Qed.
Ltac bindstep := rewrite mbind_some; cbv beta.


(** The assignment after a takeover *)
Definition taken (cs : clusterState) (om : nodename) (j : Z) : option nodename :=
  if decide (cslots cs !! j = Some om) then Some (myself cs) else cslots cs !! j.

Lemma take_slots_ok om cs :
  slots_on (nodes cs) (cslots cs) -> is_Some (nodes cs !! om) -> is_Some (nodes cs !! myself cs) ->
  exists ns cm, each_slot (take_slot om) cs = Some (with_slots cm ns cs) /\ slots_done cs (taken cs om) CLUSTER_SLOTS ns cm.
Proof.
  intros Hs [no0 Hom] [me Hme].
  destruct (each_slot_total (fun i c => exists ns cm, c = with_slots cm ns cs /\ slots_done cs (taken cs om) i ns cm) (take_slot om) cs) as (cs2 & Hl & (ns2 & cm2 & -> & Hd2)).
  - exists (nodes cs), (cslots cs). split; [by destruct cs|]. by apply slots_done_start.
  - intros i c Hi (ns & cm & -> & Hd). unfold take_slot. destruct (slots_done_node _ _ _ _ _ _ _ Hd Hom) as (no & Hno & _). cbn [nodes with_slots set_cslots set_nodes]. rewrite Hno. mstep.
    pose proof Hd as (Hson & _ & _). unfold clusterNodeGetSlotBit. rewrite (so_bits _ _ Hson om no i Hno Hi). mstep. pose proof (slots_done_at _ _ _ _ _ Hd Hi) as Hat.
    case_bool_decide as Hio.
    + destruct (slots_done_node _ _ _ _ _ _ _ Hd Hme) as (nm & Hnm & _).
      destruct (delSlot_ok om i (with_slots cm ns cs) Hson Hio) as (ns' & -> & Hs' & Hr'). mstep.
      destruct (addSlot_ok (myself cs) i (with_slots (delete i cm) ns' cs) Hs') as (ns3 & Hadd & Hs3 & Hr3); [|done|apply lookup_delete_eq|].
      { destruct (fmap_lookup_some role ns ns' (myself cs) nm Hr' Hnm) as (z & Hz & _). by exists z. }
      change (clusterAddSlot _ _ _) with (clusterAddSlot (myself cs) i (with_slots (delete i cm) ns' cs)). rewrite Hadd. mstep. eexists. split; [reflexivity|].
      cbn [cslots nodes with_slots set_cslots set_nodes] in *.
      rewrite insert_delete_eq in *. exists ns3, (<[i := myself cs]> cm). split; [done|].
      apply (slots_done_write _ _ _ ns cm); [done|done|congruence| |intros j Hj; by rewrite lookup_insert_ne].
      rewrite lookup_insert_eq. unfold taken. rewrite decide_True; [done|]. by rewrite <- Hio, Hat.
    + eexists. split; [reflexivity|]. exists ns, cm. split; [done|]. apply slots_done_skip; [done|done|]. unfold taken. rewrite decide_False; [done|].
      by rewrite <- Hat.
  - by exists ns2, cm2.
Qed.

Lemma same_roles_places (ns ns' : gmap nodename clusterNode) : role <$> ns' = role <$> ns -> place <$> ns' = place <$> ns.
Proof. intros E. change place with (snd ∘ role). rewrite !map_fmap_compose. by f_equal. Qed.

Lemma replace_ok e k cs : wf cs ->
  exists cs' eff, clusterFailoverReplaceYourMaster e k cs = Some (cs', eff) /\ wf cs' /\ Forall (fun p => msg_ok p.2) (sends eff) /\
    forall me m, nodes cs !! myself cs = Some me -> nodeIsMaster me = false -> slaveof me = Some m ->
      (forall j, slot_ok j -> cslots cs' !! j = taken cs m j) /\ ReplicationUnsetMaster ∈ eff /\
      exists me', nodes cs' !! myself cs = Some me' /\ nodeIsMaster me' = true /\ slaveof me' = None /\ configEpoch me' = configEpoch me.
Proof.
  intros Hw. destruct (wf_me cs Hw) as (me & Hme & _ & _). unfold clusterFailoverReplaceYourMaster. rewrite Hme. mstep.
  destruct (slaveof me) as [om|] eqn:Es; [|exists cs, []; do 3 (split; [done|]); congruence].
  destruct (nodeIsMaster me) eqn:Em; [exists cs, []; do 3 (split; [done|]); congruence|].
  destruct (setNodeAsMaster_ok (myself cs) cs me (wf_roles _ Hw) Hme) as (ns1 & todo & -> & Hr1 & E1). rewrite Em, Es in E1. bindstep.
  set (cs1 := set_todo_before_sleep todo (set_nodes ns1 cs)). pose proof (edited_slots _ _ _ _ E1 (wf_slots _ Hw)) as Hs1.
  destruct (wf_master_known cs _ me om Hw Hme Es) as [nom Hom]. destruct (edited_node _ _ _ _ _ E1 Hom) as (nom1 & Hom1 & _).
  destruct (edited_node _ _ _ _ _ E1 Hme) as (me1 & Hme1 & Pme & Bme).
  destruct (take_slots_ok om cs1 Hs1 ltac:(by exists nom1) ltac:(by exists me1)) as (ns2 & cm2 & -> & Hd2). bindstep.
  pose proof (slots_done_all _ _ _ _ Hd2) as Hall. pose proof Hd2 as (Hs2 & Hr2 & _).
  assert (place <$> ns2 = place <$> ns1) as E2 by (by apply same_roles_places).
  assert (wf (with_slots cm2 ns2 cs1)) as Hw2.
  { split; change (nodes (with_slots cm2 ns2 cs1)) with ns2; [by rewrite E2|done|]. rewrite E2. intros j x q Hj Hx. destruct (so_owner _ _ Hs2 j x Hj) as [Hok _]. rewrite Hall in Hj by done. change (taken cs om j = Some x) in Hj. unfold taken in Hj.
    rewrite (proj2 E1 x) in Hx. destruct ((place <$> nodes cs) !! x) as [q0|] eqn:Hq0; [|done]. injection Hx as <-. unfold promoted. cbn.
    case_decide; [injection Hj as <-; by rewrite bool_decide_true|]. rewrite (wf_owners _ Hw j x q0 Hj Hq0). apply andb_false_r. }
  destruct (updateState_ok e k _ Hw2) as (cs3 & -> & F1 & F2 & F3 & _). bindstep. assert (wf cs3) as Hw3 by (by apply (wf_same (with_slots cm2 ns2 cs1))).
  destruct (pong_ok e cs3 CLUSTER_BROADCAST_ALL Hw3) as (pongs & -> & Hp). mstep. eexists _, _. split; [reflexivity|]. split; [by apply (wf_same cs3)|].
  split.
  + change (Forall (fun p => msg_ok p.2) (sends (pongs ++ (if negb (mf_end cs3 =? 0) then [UnpauseClients] else [])))). rewrite sends_app.
    apply Forall_app. split; [done|]. by case_match.
  + intros me' m [= <-] _ Hm. assert (m = om) as -> by congruence. split; [|split; [apply list_elem_of_here|]].
    * intros j Hj. change (cslots cs3 !! j = taken cs1 om j). rewrite F3. exact (Hall j Hj).
    * destruct (slots_done_node _ _ _ _ _ _ _ Hd2 Hme1) as (me2 & Hme2 & Hr'). exists me2. split; [change (nodes cs3 !! myself cs = Some me2); rewrite F2; exact Hme2|].
      injection Hr' as He _ Hma _ Hso _. injection Pme as _ Pm _ Ps _. rewrite bool_decide_true in Pm by done. rewrite decide_True in Ps by done.
      injection Bme as _ _ Be. rewrite Hma, Pm, Hso, Ps, He, Be. done.
Qed.

(** ** The election of a replica *)

Lemma slaveRank_ok e cs me : wf cs -> nodes cs !! myself cs = Some me -> nodeIsSlave me = true -> exists r, clusterGetSlaveRank e cs = Some r.
Proof.
  intros Hw Hme Hsl. unfold clusterGetSlaveRank. rewrite Hme. mstep. rewrite Hsl. cbn [negb]. destruct (slaveof me) as [m|] eqn:Es; [|by eexists].
  destruct (wf_master_known cs _ me m Hw Hme Es) as [n Hn]. rewrite Hn. mstep.
  assert (Forall (fun x => is_Some (nodes cs !! x)) (slaves n)) as Hall.
  { apply Forall_forall. intros x Hx. assert ((place <$> nodes cs) !! m = Some (place n)) as Hp by (by rewrite lookup_fmap, Hn).
    apply (ro_slaves _ _ (wf_roles _ Hw) m (place n) x Hp) in Hx as (s & Hs & _). rewrite lookup_fmap in Hs. destruct (nodes cs !! x); [by eexists|done]. }
  induction (slaves n) as [|x l IH]; [by eexists|]. apply Forall_cons in Hall as [[s Hs] Hl]. destruct (IH Hl) as (r & Hr). cbn [foldr]. rewrite Hr. mstep. rewrite Hs. mstep. by eexists.
Qed.

Lemma handleSlaveFailover_ok e cs : wf cs ->
  exists cs' eff won, clusterHandleSlaveFailover e cs = Some (cs', eff, won) /\ wf cs' /\ Forall (fun p => msg_ok p.2) (sends eff).
Proof.
  intros Hw. destruct (wf_me cs Hw) as (me & Hme & Hb & _). unfold clusterHandleSlaveFailover. rewrite Hme. mstep.
  set (cs0 := set_todo_before_sleep _ cs). assert (wf cs0) as Hw0 by (by apply (wf_same cs)). assert (nodes cs0 !! myself cs0 = Some me) as Hme0 by done.
  assert (nodes cs0 = nodes cs) as Hn0 by done. clearbody cs0.
  assert (forall c : clusterState, wf c -> exists cs' eff won, Some (c, @nil effect, false) = Some (cs', eff, won) /\ wf cs' /\ Forall (fun p => msg_ok p.2) (sends eff)) as Hstop
    by (intros c Hc; by exists c, [], false).
  destruct (nodeIsMaster me) eqn:Em. { apply Hstop. by apply (wf_same cs0). }
  cbn [negb] in Hb. destruct (slaveof me) as [m|] eqn:Es. 2: { apply Hstop. by apply (wf_same cs0). }
  destruct (wf_master_known cs0 _ me m Hw0 Hme0 Es) as [master Hm]. rewrite Hm. mstep.
  destruct (_ || _ || _). { apply Hstop. by apply (wf_same cs0). }
  destruct (_ && _ && _). { apply Hstop. by apply (wf_same cs0). }
  destruct (_ >? _).
  { cbv zeta. match goal with |- context [clusterGetSlaveRank e ?c] => destruct (slaveRank_ok e c me) as (r & ->); [by apply (wf_same cs0)|done|done|] end. bindstep.
    match goal with |- context [clusterBroadcastPong e ?c _] => assert (wf c) as Hc by (case_match; by apply (wf_same cs0)); destruct (pong_ok e c CLUSTER_BROADCAST_LOCAL_SLAVES Hc) as (pongs & -> & Hp) end.
    bindstep. eexists _, _, _. split; [reflexivity|]. done. }
  match goal with |- context [mbind _ (if ?b then ?t else Some cs0)] =>
    assert (exists cs1, (if b then t else Some cs0) = Some cs1 /\ wf cs1 /\ nodes cs1 = nodes cs0 /\ myself cs1 = myself cs0) as (cs1 & -> & Hw1 & Hn1 & Hm1) end.
  { destruct (_ && _); [|by exists cs0]. destruct (slaveRank_ok e cs0 me Hw0 Hme0 Hb) as (r & ->). bindstep. eexists. split; [reflexivity|]. case_match; (split; [by apply (wf_same cs0)|done]). }
  bindstep. destruct (_ <? _). { apply Hstop. by apply (wf_same cs1). }
  destruct (_ >? _). { apply Hstop. by apply (wf_same cs1). }
  destruct (failover_auth_sent cs1); cbn [negb].
  - destruct (_ >=? _). 2: { apply Hstop. by apply (wf_same cs1). }
    assert (exists cs2, (if configEpoch me <? failover_auth_epoch cs1 then upd_node (myself cs1) (set_configEpoch (failover_auth_epoch cs1)) cs1 else Some cs1) = Some cs2 /\ wf cs2)
      as (cs2 & -> & Hw2).
    { destruct (_ <? _); [|by exists cs1]. destruct (wf_upd (myself cs1) (set_configEpoch (failover_auth_epoch cs1)) cs1 Hw1) as (ns' & -> & Hw' & _); [|done..|by eexists].
      rewrite Hm1, Hn1, Hme0. by eexists. }
    bindstep. destruct (replace_ok e 4 cs2 Hw2) as (cs3 & eff & -> & Hw3 & Hf & _). bindstep. by eexists _, _, _.
  - match goal with |- context [clusterRequestFailoverAuth e ?c] => assert (wf c) as Hc by (by apply (wf_same cs1)); destruct (request_ok e c Hc) as (reqs & -> & Hp) end.
    bindstep. eexists _, _, _. split; [reflexivity|]. split; [by apply (wf_same cs1)|done].
Qed.

(** ** New configurations *)

(** Whether [x], with configuration epoch [ep] and the claim [claimed], takes slot [j] *)
Definition rebinds (cs : clusterState) (x : nodename) (ep : Z) (claimed : bytes) (j : Z) : bool :=
  bool_decide (bitmapTestBit claimed j = Some true) && bool_decide (cslots cs !! j <> Some x) &&
  bool_decide (importing_slots_from cs !! j = None) &&
  match cslots cs !! j with
  | None => true
  | Some o => match nodes cs !! o with Some owner => configEpoch owner <? ep | None => false end
  end.
Definition new_owner (cs : clusterState) (x : nodename) (ep : Z) (claimed : bytes) (j : Z) : option nodename :=
  if rebinds cs x ep claimed j then Some x else cslots cs !! j.
(** A slot this node loses with keys in it *)
Definition lost_keys (cs : clusterState) (x : nodename) (ep : Z) (claimed : bytes) (j : Z) : Prop :=
  slot_ok j /\ rebinds cs x ep claimed j = true /\ cslots cs !! j = Some (myself cs) /\ default 0 (slots_keys_count cs !! j) <> 0.
(** A slot taken from [cur] *)
Definition taken_from (cs : clusterState) (cur : option nodename) (x : nodename) (ep : Z) (claimed : bytes) (j : Z) : Prop :=
  slot_ok j /\ rebinds cs x ep claimed j = true /\ cslots cs !! j = cur.

(** After the slots below [i] *)
Definition updated (cs : clusterState) (x : nodename) (ep : Z) (claimed : bytes) (cur : option nodename) (i : Z)
    (a : clusterState * bool * list Z) : Prop :=
  let '(c, newmaster, dirty) := a in
  exists ns cm t, c = set_todo_before_sleep t (with_slots cm ns cs) /\ slots_done cs (new_owner cs x ep claimed) i ns cm /\
    (newmaster = true <-> exists j, j < i /\ taken_from cs cur x ep claimed j) /\
    (forall j, j ∈ dirty <-> j < i /\ lost_keys cs x ep claimed j).

Lemma updated_skip cs x ep claimed cur i a :
  slot_ok i -> rebinds cs x ep claimed i = false -> updated cs x ep claimed cur i a -> updated cs x ep claimed cur (i + 1) a.
Proof.
  intros Hi Hrb. destruct a as [[c nm] dirty]. intros (ns & cm & t & -> & Hd & Hnm & Hdirty). exists ns, cm, t. split; [done|]. split; [|split].
  - apply slots_done_skip; [done|done|]. unfold new_owner. by rewrite Hrb.
  - rewrite Hnm. split; intros (j & Hj & H'); exists j; (split; [|done]); [lia|]. destruct (decide (j = i)) as [->|?]; [|lia]. destruct H' as (_ & ? & _). congruence.
  - intros j. rewrite Hdirty. split; intros [Hj H']; (split; [|done]); [lia|]. destruct (decide (j = i)) as [->|?]; [|lia]. destruct H' as (_ & ? & _). congruence.
Qed.

(** What one slot of the loop decides on *)
Lemma update_slot_step cs x ep claimed cur i a :
  slots_on (nodes cs) (cslots cs) -> is_Some (nodes cs !! x) -> bitmap_ok claimed -> slot_ok i -> updated cs x ep claimed cur i a ->
  exists a', update_slot x ep claimed cur i a = Some a' /\ updated cs x ep claimed cur (i + 1) a'.
Proof.
  intros Hw [nx Hx] Hc Hi Hu. destruct (test_total claimed i Hc Hi) as (bit & Hbit).
  assert (rebinds cs x ep claimed i = false -> exists a', Some a = Some a' /\ updated cs x ep claimed cur (i + 1) a') as Hskip.
  { intros Hrb. exists a. split; [done|]. by apply updated_skip. }
  destruct a as [[c nm] dirty]. unfold update_slot. rewrite Hbit. mstep. destruct Hu as (ns & cm & t & -> & Hd & Hnm & Hdirty).
  pose proof (slots_done_at _ _ _ _ _ Hd Hi) as Hat. pose proof Hd as (Hson & Hrole & _).
  change (cslots (set_todo_before_sleep t (with_slots cm ns cs))) with cm. change (nodes (set_todo_before_sleep t (with_slots cm ns cs))) with ns.
  change (importing_slots_from (set_todo_before_sleep t (with_slots cm ns cs))) with (importing_slots_from cs). rewrite Hat.
  unfold rebinds in Hskip. rewrite Hbit in Hskip. destruct bit; cbn [negb]; [|by apply Hskip]. rewrite (bool_decide_true (Some true = Some true)) in Hskip by done. cbn [andb] in Hskip.
  destruct (decide (cslots cs !! i = Some x)) as [Hox|Hox]; [apply Hskip; rewrite bool_decide_false by (by intros []); done|].
  rewrite (bool_decide_true (cslots cs !! i <> Some x)) in Hskip by done. cbn [andb] in Hskip.
  destruct (importing_slots_from cs !! i) as [im|] eqn:Eim; [apply Hskip; by rewrite bool_decide_false|]. rewrite (bool_decide_true (None = None)) in Hskip by done. cbn [andb] in Hskip.
  assert (exists rb, match cslots cs !! i with None => Some true | Some o => let! owner := ns !! o in Some (configEpoch owner <? ep) end = Some rb /\
    match cslots cs !! i with None => true | Some o => match nodes cs !! o with Some owner => configEpoch owner <? ep | None => false end end = rb) as (rb & -> & Hrb).
  { destruct (cslots cs !! i) as [o|] eqn:Eo; [|by eexists]. destruct (so_owner _ _ Hw i o Eo) as [_ [no Hno]].
    destruct (fmap_lookup_some role _ ns o no Hrole Hno) as (no' & Hno' & Hr'). injection Hr' as Hep _ _ _ _ _. rewrite Hno', Hno. mstep. rewrite Hep. by eexists. }
  bindstep. destruct rb; [|by apply Hskip].
  assert (rebinds cs x ep claimed i = true) as Hreb.
  { unfold rebinds. rewrite Hbit, Eim, Hrb, !bool_decide_true by done. done. }
  destruct (moveSlot_ok (fun c => Some (clusterDoBeforeSleep (Z.lor CLUSTER_TODO_SAVE_CONFIG (Z.lor CLUSTER_TODO_UPDATE_STATE CLUSTER_TODO_FSYNC_CONFIG)) c,
     nm || bool_decide (cslots cs !! i = cur),
     if bool_decide (cslots cs !! i = Some (myself cs)) && negb (default 0 (slots_keys_count cs !! i) =? 0) then dirty ++ [i] else dirty))
     x i (set_todo_before_sleep t (with_slots cm ns cs)) Hson) as (ns' & Hmv & Hson' & Hr'); [|done|].
  { destruct (fmap_lookup_some role _ ns x nx Hrole Hx) as (n' & ? & _). by exists n'. }
  eexists. split; [exact Hmv|]. change (cslots (set_todo_before_sleep t (with_slots cm ns cs))) with cm in *.
  exists ns', (<[i := x]> cm). eexists. split; [reflexivity|]. split; [|split].
  - apply (slots_done_write _ _ _ ns cm); [done|done|done|rewrite lookup_insert_eq; unfold new_owner; by rewrite Hreb|intros j Hj; by rewrite lookup_insert_ne].
  - rewrite orb_true_iff, bool_decide_eq_true, Hnm. split.
    + intros [(j & Hj & H')|He]; [exists j; split; [lia|done]|exists i; split; [lia|done]].
    + intros (j & Hj & H'). destruct (decide (j = i)) as [->|Hne]; [right; by destruct H' as (_ & _ & ?)|left; exists j; split; [lia|done]].
  - intros j. assert (j ∈ (if bool_decide (cslots cs !! i = Some (myself cs)) && negb (default 0 (slots_keys_count cs !! i) =? 0) then dirty ++ [i] else dirty) <->
      j ∈ dirty \/ j = i /\ lost_keys cs x ep claimed i) as ->.
    { clear Hmv. unfold lost_keys. case_bool_decide; [destruct (_ =? 0) eqn:E0|]; cbn [andb negb]; rewrite ?elem_of_app, ?list_elem_of_singleton.
      - apply Z.eqb_eq in E0. tauto.
      - apply Z.eqb_neq in E0. tauto.
      - tauto. }
    rewrite Hdirty. split; [intros [[? ?]|[-> ?]]; (split; [lia|done])|]. intros [Hj H']. destruct (decide (j = i)) as [->|Hne]; [by right|left; split; [lia|done]].
Qed.

Lemma update_slots_ok cs x ep claimed cur :
  slots_on (nodes cs) (cslots cs) -> is_Some (nodes cs !! x) -> bitmap_ok claimed ->
  exists a, each_slot (update_slot x ep claimed cur) (cs, false, []) = Some a /\ updated cs x ep claimed cur CLUSTER_SLOTS a.
Proof.
  intros Hw Hx Hc. apply each_slot_total; [|intros i a; by apply update_slot_step].
  exists (nodes cs), (cslots cs), (todo_before_sleep cs). split; [by destruct cs|]. split; [by apply slots_done_start|]. split.
  - split; [done|]. intros (j & Hj & [? _] & _). lia.
  - intros j. split; [by intros ?%not_elem_of_nil|]. intros (Hj & [? _] & _). lia.
Qed.

(** The node whose slots this node serves or copies *)
Definition current_master (cs : clusterState) : option nodename :=
  match nodes cs !! myself cs with
  | Some me => if nodeIsMaster me then Some (myself cs) else slaveof me
  | None => None
  end.

(** The current master has lost a slot to [x] and has none left. *)
Definition superseded (cs : clusterState) (x : nodename) (ep : Z) (claimed : bytes) : Prop :=
  (exists j, taken_from cs (current_master cs) x ep claimed j) /\ forall j, slot_ok j -> new_owner cs x ep claimed j <> current_master cs.

Lemma updated_wf cs x n ep claimed ns cm t :
  wf cs -> nodes cs !! x = Some n -> nodeIsSlave n = false -> slots_done cs (new_owner cs x ep claimed) CLUSTER_SLOTS ns cm ->
  wf (set_todo_before_sleep t (with_slots cm ns cs)) /\ place <$> ns = place <$> nodes cs.
Proof.
  intros Hw Hx Hm Hd. pose proof (slots_done_all _ _ _ _ Hd) as Hall. pose proof Hd as (Hson & Hrole & _). pose proof (same_roles_places _ _ Hrole) as Hp.
  split; [|done]. split; change (nodes _) with ns; [rewrite Hp; exact (wf_roles _ Hw)|done|]. rewrite Hp. intros j y q Hj Hy.
  change (cm !! j = Some y) in Hj. destruct (so_owner _ _ Hson j y Hj) as [Hok _]. rewrite Hall in Hj by done. unfold new_owner in Hj.
  destruct (rebinds cs x ep claimed j); [|by apply (wf_owners _ Hw j y)]. injection Hj as <-. rewrite lookup_fmap, Hx in Hy. by injection Hy as <-.
Qed.

Lemma replica_owns_nothing cs me : wf cs -> nodes cs !! myself cs = Some me -> nodeIsSlave me = true -> numslots me = 0.
Proof.
  intros Hw Hme Hm. rewrite (so_count _ _ (wf_slots _ Hw) _ _ Hme). apply owned_zero. intros j Hj.
  assert (nodeIsSlave me = false); [|congruence]. apply (wf_owners _ Hw j (myself cs) (place me) Hj). by rewrite lookup_fmap, Hme.
Qed.

Lemma count_empty ns cm y n : slots_on ns cm -> ns !! y = Some n -> (numslots n =? 0) = true <-> forall j, slot_ok j -> cm !! j <> Some y.
Proof.
  intros Hs Hy. rewrite Z.eqb_eq, (so_count _ _ Hs y n Hy). split; [intros H0 j _; by apply owned_none|].
  intros Hn. apply owned_zero. intros j Hj. destruct (so_owner _ _ Hs j y Hj). by apply (Hn j).
Qed.

(** What becomes of this node's role and keys *)
Definition config_outcome (e : env) (x : nodename) (ep : Z) (claimed : bytes) (cs cs' : clusterState) (eff : list effect) : Prop :=
  (~ superseded cs x ep claimed -> place <$> nodes cs' = place <$> nodes cs) /\
  (cluster_module_no_redirection e = false -> superseded cs x ep claimed ->
     ReplicationSetMaster x ∈ eff /\ exists me, nodes cs' !! myself cs' = Some me /\ nodeIsSlave me = true /\ slaveof me = Some x) /\
  forall j, DelKeysInSlot j ∈ eff <-> cluster_module_no_redirection e = false /\ ~ superseded cs x ep claimed /\ lost_keys cs x ep claimed j.

Lemma setMaster_effects x cs cs' eff j : clusterSetMaster x cs = Some (cs', eff) -> ReplicationSetMaster x ∈ eff /\ DelKeysInSlot j ∉ eff /\ sends eff = [].
Proof.
  unfold clusterSetMaster, resetManualFailover. intros Hr. destruct (decide _); [done|]. apply bind_Some in Hr as (me & _ & Hr). destruct (negb _); [done|].
  apply bind_Some in Hr as (cs1 & _ & Hr). apply bind_Some in Hr as (cs2 & _ & Hr). apply bind_Some in Hr as (cs3 & _ & Hr). injection Hr as _ <-.
  split; [apply list_elem_of_here|]. case_match; (split; [set_solver|done]).
Qed.

(** Turning into a replica keeps [wf]. *)
Lemma follow_ok x cs me :
  wf cs -> nodes cs !! myself cs = Some me -> numslots me = 0 -> is_Some (nodes cs !! x) -> x <> myself cs ->
  exists cs' eff, clusterSetMaster x cs = Some (cs', eff) /\ wf cs' /\ myself cs' = myself cs /\ cslots cs' = cslots cs /\
    sends eff = [] /\ ReplicationSetMaster x ∈ eff /\ (forall j, DelKeysInSlot j ∉ eff) /\
    exists me', nodes cs' !! myself cs = Some me' /\ nodeIsSlave me' = true /\ slaveof me' = Some x.
Proof.
  intros Hw Hme H0 Hx Hne. destruct (setMaster_ok x cs me (wf_roles _ Hw) Hme H0 Hx Hne) as (cs' & eff & Hset & M & C & K & R & E).
  exists cs', eff. split; [done|]. destruct (edited_node _ _ _ _ _ E Hme) as (me' & Hme' & P & _). split; [|split; [done|split; [done|]]].
  - split; [by rewrite M|rewrite C; apply (edited_slots _ _ _ _ E), wf_slots, Hw|]. rewrite C. intros j y q Hj Hy. rewrite (proj2 E y) in Hy.
    destruct ((place <$> nodes cs) !! y) as [q0|] eqn:Hq0; [|done]. injection Hy as <-. unfold demoted. cbn [p_slave]. rewrite (wf_owners _ Hw j y q0 Hj Hq0).
    case_bool_decide as Hy; [|done]. subst y. exfalso. by apply (owned_none (cslots cs) (myself cs) ltac:(by rewrite <- (so_count _ _ (wf_slots _ Hw) _ _ Hme)) j).
  - destruct (setMaster_effects x cs cs' eff 0 Hset) as (Hrep & _ & Hs). split; [done|]. split; [done|]. split; [intros j; by apply (setMaster_effects x cs cs' eff j)|].
    exists me'. split; [done|]. injection P as _ _ Hsl Hso _. rewrite bool_decide_true in Hsl by done. rewrite decide_True in Hso by done. done.
Qed.

Lemma updateConfig_ok e x n ep claimed cs :
  wf cs -> nodes cs !! x = Some n -> nodeIsSlave n = false -> x <> myself cs -> bitmap_ok claimed ->
  exists cs' eff, clusterUpdateSlotsConfigWith e x ep claimed cs = Some (cs', eff) /\ wf cs' /\ sends eff = [] /\
    (forall j, slot_ok j -> cslots cs' !! j = new_owner cs x ep claimed j) /\ config_outcome e x ep claimed cs cs' eff.
Proof.
  intros Hw Hx Hm Hne Hc. destruct (wf_me cs Hw) as (me & Hme & Hb & Hcur). unfold clusterUpdateSlotsConfigWith. rewrite Hme. bindstep. rewrite decide_False by done.
  assert (current_master cs = (if nodeIsMaster me then Some (myself cs) else slaveof me)) as Ecur by (unfold current_master; by rewrite Hme).
  rewrite <- Ecur. destruct (update_slots_ok cs x ep claimed (current_master cs) (wf_slots _ Hw) ltac:(by exists n) Hc) as (a & -> & Hu). bindstep.
  destruct a as [[c nm] dirty]. destruct Hu as (ns & cm & t & -> & Hd & Hnm & Hdirty). pose proof (slots_done_all _ _ _ _ Hd) as Hall.
  destruct (updated_wf cs x n ep claimed ns cm t Hw Hx Hm Hd) as [Hw' Hp]. pose proof Hd as (Hson & _ & _).
  set (cs2 := set_todo_before_sleep t (with_slots cm ns cs)) in *.
  destruct (cluster_module_no_redirection e) eqn:Ee.
  { exists cs2, []. do 3 (split; [done|]). split; [done|]. split; [done|]. rewrite Ee. split; [done|]. intros j. split; [by intros ?%not_elem_of_nil|by intros [? _]]. }
  assert (exists cur ncur, current_master cs = Some cur /\ ns !! cur = Some ncur) as (cur & ncur & Ec & Hcn).
  { rewrite Ecur. destruct (nodeIsMaster me) eqn:Em.
    - destruct (same_places_some _ ns (myself cs) Hp ltac:(by exists me)) as [z Hz]. by exists (myself cs), z.
    - destruct Hcur as [?|[m Em']]; [done|]. destruct (same_places_some _ ns m Hp (wf_master_known cs _ me m Hw Hme Em')) as [z Hz]. by exists m, z. }
  assert ((if nm then let! c := current_master cs in let! n := nodes cs2 !! c in Some (numslots n =? 0) else Some false) = Some (nm && (numslots ncur =? 0))) as ->.
  { destruct nm; [|done]. rewrite Ec. cbn [mbind option_bind]. change (nodes cs2) with ns. by rewrite Hcn. }
  bindstep. assert (nm && (numslots ncur =? 0) = true <-> superseded cs x ep claimed) as Hsup.
  { rewrite andb_true_iff, (count_empty ns cm cur ncur Hson Hcn), Hnm. unfold superseded. rewrite Ec. split.
    - intros [(j & _ & Hj) He]. split; [by exists j|]. intros i Hi. rewrite <- Hall by done. by apply He.
    - intros [[j Hj] He]. split; [exists j; split; [destruct Hj as [[] _]; lia|done]|]. intros i Hi. rewrite Hall by done. by apply He. }
  destruct (nm && (numslots ncur =? 0)) eqn:Esup.
  - assert (superseded cs x ep claimed) as Hsu by (by apply Hsup). apply andb_true_iff in Esup as [_ Hzero].
    destruct (same_places_some _ ns (myself cs) Hp ltac:(by exists me)) as [me2 Hme2].
    assert (numslots me2 = 0) as H0.
    { destruct (nodeIsMaster me) eqn:Em; [assert (cur = myself cs) as -> by congruence; apply Z.eqb_eq in Hzero; congruence|].
      apply (replica_owns_nothing cs2 me2 Hw' Hme2). destruct (fmap_lookup_some place _ ns _ _ Hp Hme) as (me2' & Hme2' & Hpp).
      assert (me2' = me2) as -> by congruence. injection Hpp as _ _ Hpp _ _. by rewrite Hpp. }
    destruct (follow_ok x cs2 me2 Hw' Hme2 H0 (same_places_some _ ns x Hp ltac:(by exists n)) Hne) as (cs3 & eff & -> & Hw3 & M3 & C3 & Hs3 & Hrep & Hdel & me3 & Hme3 & Hrole3).
    bindstep. eexists _, eff. split; [reflexivity|]. split; [by apply (wf_same cs3)|]. split; [done|].
    split; [intros j Hj; change (cslots cs3 !! j = new_owner cs x ep claimed j); rewrite C3; by apply Hall|]. split; [by intros []|]. split.
    + intros _ _. split; [done|]. exists me3. split; [change (nodes cs3 !! myself cs3 = Some me3); by rewrite M3|done].
    + intros j. split; [intros Hj; by destruct (Hdel j)|]. by intros (_ & [] & _).
  - assert (~ superseded cs x ep claimed) as Hsu by (intros Hs; apply Hsup in Hs; congruence). eexists _, _. split; [reflexivity|]. split; [by apply (wf_same cs2)|].
    split; [clear; induction dirty; done|]. split; [exact Hall|]. split; [done|]. split; [done|]. intros j. rewrite Ee. rewrite list_elem_of_fmap.
    split; [intros (i & [= ->] & Hi); apply Hdirty in Hi as [_ Hi]; done|]. intros (_ & _ & Hl). exists j. split; [done|]. apply Hdirty. split; [|done]. destruct Hl as [[] _]. lia.
Qed.

(** A replica that was given slots of its own does not survive the loss of its master's: the assertion of
    [clusterSetMaster] fails. *)
Lemma replica_with_slots e x ep claimed cs me m j :
  slots_on (nodes cs) (cslots cs) -> is_Some (nodes cs !! x) -> x <> myself cs -> bitmap_ok claimed -> cluster_module_no_redirection e = false ->
  nodes cs !! myself cs = Some me -> nodeIsMaster me = false -> slaveof me = Some m -> is_Some (nodes cs !! m) ->
  superseded cs x ep claimed -> slot_ok j -> new_owner cs x ep claimed j = Some (myself cs) ->
  clusterUpdateSlotsConfigWith e x ep claimed cs = None.
Proof.
  intros Hs [nx Hx] Hne Hc He Hme Hm Hso [nm Hnm] Hsup Hj Hmine. unfold clusterUpdateSlotsConfigWith. rewrite Hme. bindstep. rewrite decide_False, Hm, Hso by done.
  assert (current_master cs = Some m) as Ecur by (unfold current_master; by rewrite Hme, Hm).
  destruct (update_slots_ok cs x ep claimed (Some m) Hs ltac:(by exists nx) Hc) as ([[c new] dirty] & -> & (ns & cm & t & -> & Hd & Hnew & _)). bindstep. rewrite He.
  pose proof (slots_done_all _ _ _ _ Hd) as Hall. pose proof Hd as (Hson & _ & _). destruct Hsup as [[i Hi] Hempty]. rewrite Ecur in Hi, Hempty.
  rewrite (proj2 Hnew) by (exists i; split; [destruct Hi as [[] _]; lia|done]). destruct (slots_done_node _ _ _ _ _ _ _ Hd Hnm) as (nm' & Hnm' & _). cbn [mbind option_bind].
  change (nodes (set_todo_before_sleep t (with_slots cm ns cs))) with ns. rewrite Hnm'. bindstep.
  rewrite (proj2 (count_empty ns cm m nm' Hson Hnm')); [bindstep|intros k Hk; rewrite Hall by done; by apply Hempty].
  destruct (slots_done_node _ _ _ _ _ _ _ Hd Hme) as (me' & Hme' & _). unfold clusterSetMaster. change (myself (set_todo_before_sleep t (with_slots cm ns cs))) with (myself cs). rewrite decide_False by done.
  change (nodes (set_todo_before_sleep t (with_slots cm ns cs))) with ns. rewrite Hme'. cbn [mbind option_bind]. destruct (numslots me' =? 0) eqn:E0; [|done]. exfalso.
  apply (proj1 (count_empty ns cm (myself cs) me' Hson Hme') E0 j Hj). by rewrite Hall.
Qed.

(** ** Receiving *)

Lemma header_ok e msg cs : wf cs -> exists cs', packet_header e msg cs = Some cs' /\ wf cs' /\ place <$> nodes cs' = place <$> nodes cs.
Proof.
  intros Hw. unfold packet_header. destruct (nodes cs !! msg_sender msg) as [s|] eqn:Es; [|by exists cs].
  destruct (wf_upd (msg_sender msg) (set_data_received (mstime e 0)) cs Hw ltac:(by exists s)) as (ns1 & -> & Hw1 & E1); [done..|]. bindstep.
  destruct (nodeInHandshake s); [by eexists|]. set (cs2 := if msg_currentEpoch msg >? _ then _ else _). assert (wf cs2 /\ nodes cs2 = ns1) as [Hw2 Hn2] by (unfold cs2; case_match; [split; [by eapply wf_same; [..|exact Hw1]|done]|done]).
  clearbody cs2. assert (is_Some (nodes cs2 !! msg_sender msg)) as Hs2 by (rewrite Hn2; apply (same_places_some (nodes cs)); [done|by exists s]).
  assert (exists cs3, (if msg_configEpoch msg >? configEpoch s then let! cs := upd_node (msg_sender msg) (set_configEpoch (msg_configEpoch msg)) cs2 in
      Some (clusterDoBeforeSleep (Z.lor CLUSTER_TODO_SAVE_CONFIG CLUSTER_TODO_FSYNC_CONFIG) cs) else Some cs2) = Some cs3 /\ wf cs3 /\ place <$> nodes cs3 = place <$> nodes cs2) as (cs3 & -> & Hw3 & E3).
  { destruct (_ >? _); [|by exists cs2]. destruct (wf_upd (msg_sender msg) (set_configEpoch (msg_configEpoch msg)) cs2 Hw2 Hs2) as (ns3 & -> & Hw3 & E3); [done..|].
    bindstep. eexists. split; [reflexivity|]. split; [by eapply wf_same; [..|exact Hw3]|done]. }
  bindstep. destruct (wf_upd (msg_sender msg) (fun n => set_repl_offset_time (mstime e 0) (set_repl_offset (msg_offset msg) n)) cs3 Hw3) as (ns4 & -> & Hw4 & E4);
    [by apply (same_places_some (nodes cs2))|done..|]. bindstep. destruct (wf_me _ Hw4) as (me & -> & _). bindstep.
  assert (place <$> ns4 = place <$> nodes cs) as E by (rewrite E4, E3, Hn2; done).
  case_match; eexists; (split; [reflexivity|]); (split; [by eapply wf_same; [..|exact Hw4]|done]).
Qed.

(** A node about which a configuration is reported leaves the replicas. *)
Lemma lead_ok x cs n : wf cs -> nodes cs !! x = Some n ->
  exists cs', (if nodeIsSlave n then clusterSetNodeAsMaster x cs else Some cs) = Some cs' /\ wf cs' /\ myself cs' = myself cs /\
    exists n', nodes cs' !! x = Some n' /\ nodeIsSlave n' = false.
Proof.
  intros Hw Hx. destruct (nodeIsSlave n) eqn:Esl; [|exists cs; do 3 (split; [done|]); by exists n].
  destruct (setNodeAsMaster_ok x cs n (wf_roles _ Hw) Hx) as (ns & t & -> & Hr & E). destruct (roles_lookup _ _ _ _ (wf_roles _ Hw) Hx) as (_ & Hmn & _).
  destruct (nodeIsMaster n) eqn:Em; [destruct (Hmn eq_refl); congruence|]. eexists. split; [reflexivity|]. destruct (edited_node _ _ _ _ _ E Hx) as (n' & Hn' & P & _).
  split; [|split; [done|]; exists n'; split; [done|]; injection P as _ _ P _ _; by rewrite bool_decide_true in P].
  split; [done|exact (edited_slots _ _ _ _ E (wf_slots _ Hw))|]. intros j y q Hj Hy. change ((place <$> ns) !! y = Some q) in Hy. rewrite (proj2 E y) in Hy.
  destruct ((place <$> nodes cs) !! y) as [q0|] eqn:Hq0; [|done]. injection Hy as <-. unfold promoted. cbn [p_slave]. rewrite (wf_owners _ Hw j y q0 Hj Hq0). apply andb_false_r.
Qed.

Lemma updateConfig_any e x n ep claimed cs :
  wf cs -> nodes cs !! x = Some n -> nodeIsSlave n = false -> bitmap_ok claimed ->
  exists cs' eff, clusterUpdateSlotsConfigWith e x ep claimed cs = Some (cs', eff) /\ wf cs' /\ sends eff = [].
Proof.
  intros Hw Hx Hsl Hc. destruct (decide (x = myself cs)) as [->|Hne].
  - exists cs, []. split; [|done]. unfold clusterUpdateSlotsConfigWith. rewrite Hx. bindstep. by rewrite decide_True.
  - destruct (updateConfig_ok e x n ep claimed cs Hw Hx Hsl Hne Hc) as (cs' & eff & ? & ? & ? & _). by exists cs', eff.
Qed.

Lemma processPacket_ok e msg cs :
  wf cs -> msg_ok msg -> exists cs' eff, process_packet e msg cs = Some (cs', eff) /\ wf cs' /\ Forall (fun p => msg_ok p.2) (sends eff).
Proof.
  intros Hw0 Hmsg. unfold process_packet, process_fail, process_auth_ack, process_mfstart, process_update. destruct (header_ok e msg cs Hw0) as (cs1 & -> & Hw & _). bindstep. clear Hw0 cs.
  assert (forall c, wf c -> exists cs' eff, Some (c, @nil effect) = Some (cs', eff) /\ wf cs' /\ Forall (fun p => msg_ok p.2) (sends eff)) as Hstop by (intros c Hc; by exists c, []).
  destruct (nodes cs1 !! msg_sender msg) as [s|] eqn:Es; [|by apply Hstop]. destruct (data msg) as [|about| | | |about ep claimed] eqn:Ed.
  - by apply Hstop.
  - destruct (nodes cs1 !! about) as [f|] eqn:Ef; [|by apply Hstop]. destruct (negb _); [|by apply Hstop].
    destruct (wf_upd about (fun n => del_flag CLUSTER_NODE_PFAIL (set_fail_time (mstime e 0) (add_flag CLUSTER_NODE_FAIL n))) cs1 Hw ltac:(by exists f)) as (ns & -> & Hw' & _).
    { intros n. unfold place, nodeIsMaster, nodeIsSlave. rewrite !flagged_del by done. f_equal; apply (flagged_add CLUSTER_NODE_FAIL); done. }
    { done. }
    bindstep. apply Hstop. by eapply wf_same; [..|exact Hw'].
  - apply vote_ok; [done|by exists s|done].
  - destruct (_ && _ && _); apply Hstop; [by apply (wf_same cs1)|done].
  - destruct (decide _); [|by apply Hstop]. eexists _, _. split; [reflexivity|]. split; [by apply (wf_same cs1)|].
    unfold resetManualFailover. cbn [snd]. by case_match.
  - destruct (nodes cs1 !! about) as [n|] eqn:En; [|by apply Hstop]. destruct (_ >=? _); [by apply Hstop|].
    destruct (lead_ok about cs1 n Hw En) as (cs2 & -> & Hw2 & Hm2 & n2 & Hn2 & Hsl2). bindstep.
    destruct (wf_upd about (set_configEpoch ep) cs2 Hw2 ltac:(by exists n2)) as (ns3 & -> & Hw3 & E3); [done..|]. bindstep.
    destruct (fmap_lookup_some place _ ns3 about n2 E3 Hn2) as (n3 & Hn3 & Hp3). injection Hp3 as _ _ Hp3 _ _. rewrite Hsl2 in Hp3.
    match goal with |- context [clusterUpdateSlotsConfigWith e about ep claimed ?c] => assert (wf c) as Hc by (by eapply wf_same; [..|exact Hw3]);
      destruct (updateConfig_any e about n3 ep claimed c Hc Hn3 Hp3) as (cs4 & eff & -> & Hw4 & Hs4) end; [by destruct Hmsg as [_ Hmsg]; rewrite Ed in Hmsg|].
    exists cs4, eff. by rewrite Hs4.
Qed.
