(* ===== verification/ClusterSpec.v ===== *)
(** * The cluster: theorems

    What one node's handlers promise: they never fail an assertion, slots go to the newest
    configuration, an elected replica takes over all the slots of its master, and two masters
    with the same configuration epoch come apart. *)

From Stdlib Require Import ZArith Lia Sorted.
From stdpp Require Import base numbers option gmap list.
From S2P Require Import Prelude Memory Bits Cluster ClusterFacts ClusterRoles ClusterSafe Sds.

Local Open Scope Z_scope.
Local Open Scope redis_scope.

(** ** Every handler *)

Inductive event :=
  | Receive (msg : clusterMsg)
  | SlaveFailover | ManualFailover | ManualFailoverTimeout
  | EpochCollision (sender : nodename) | BumpEpoch
  | UpdateState | AddSlot (slot : Z) | DelSlot (slot : Z) | DelNodeSlots (n : nodename).

Definition no_effect {A} (r : option (clusterState * A)) : option (clusterState * list effect) := fmap (fun p => (p.1, [])) r.

Definition handle (e : env) (ev : event) (cs : clusterState) : option (clusterState * list effect) :=
  match ev with
  | Receive msg => process_packet e msg cs
  | SlaveFailover => fmap fst (clusterHandleSlaveFailover e cs)
  | ManualFailover => Some (clusterHandleManualFailover e cs, [])
  | ManualFailoverTimeout => Some (manualFailoverCheckTimeout e cs)
  | EpochCollision sender => clusterHandleConfigEpochCollision sender cs
  | BumpEpoch => no_effect (clusterBumpConfigEpochWithoutConsensus cs)
  | UpdateState => fmap (fun cs => (cs, [])) (clusterUpdateState e 0 cs)
  | AddSlot j => no_effect (clusterAddSlot (myself cs) j cs)
  | DelSlot j => no_effect (clusterDelSlot j cs)
  | DelNodeSlots x => no_effect (clusterDelNodeSlots x cs)
  end.

(** What the callers check first; a slot is only added by a master. *)
Definition event_ok (cs : clusterState) (ev : event) : Prop :=
  match ev with
  | Receive msg => msg_ok msg
  | EpochCollision x | DelNodeSlots x => is_Some (nodes cs !! x)
  | AddSlot j => slot_ok j /\ forall me, nodes cs !! myself cs = Some me -> nodeIsSlave me = false
  | _ => True
  end.

Definition handled (r : option (clusterState * list effect)) : Prop :=
  exists cs' eff, r = Some (cs', eff) /\ wf cs' /\ Forall (fun p => msg_ok p.2) (sends eff).

Lemma handled_intro cs eff : wf cs -> Forall (fun p => msg_ok p.2) (sends eff) -> handled (Some (cs, eff)).
Proof. by exists cs, eff. Qed.

Lemma next_epoch_ok cs : wf cs -> exists cs', next_epoch cs = Some cs' /\ wf cs'.
Proof.
  intros Hw. unfold next_epoch. destruct (wf_me cs Hw) as (me & Hme & _).
  destruct (wf_upd (myself cs) (set_configEpoch (u64 (currentEpoch cs + 1))) (set_currentEpoch (u64 (currentEpoch cs + 1)) cs)) as (ns & Hu & Hw' & _);
    [by apply (wf_same cs)|by exists me|done..|]. eexists. split; [exact Hu|done].
Qed.

(** New slots and nodes with the same places *)
Lemma wf_with_slots cs cm ns :
  wf cs -> slots_on ns cm -> role <$> ns = role <$> nodes cs ->
  (forall j x n, cm !! j = Some x -> cslots cs !! j <> Some x -> nodes cs !! x = Some n -> nodeIsSlave n = false) -> wf (with_slots cm ns cs).
Proof.
  intros Hw Hs Hr Hnew. pose proof (same_roles_places _ _ Hr) as Hp. split; change (nodes (with_slots cm ns cs)) with ns; [rewrite Hp; exact (wf_roles _ Hw)|done|].
  rewrite Hp. intros j x q Hj Hx. change (cm !! j = Some x) in Hj. destruct (decide (cslots cs !! j = Some x)) as [He|Hne]; [by apply (wf_owners _ Hw j x)|].
  rewrite lookup_fmap in Hx. destruct (nodes cs !! x) as [n|] eqn:Hn; [|done]. injection Hx as <-. by apply (Hnew j x n).
Qed.

(** C11. The handlers of failures, failovers, votes, epochs and slots never crash: from a consistent state, a handler in [event]
    given what its callers check (and, to add a slot, on a master, which CLUSTER ADDSLOTS does not check) always
    returns, no assertion failing, no NULL pointer followed and no bitmap overrun; the state it leaves is
    consistent again, the links between masters and replicas agreeing both ways, the owner of each slot
    agreeing with the bitmaps and the counts of the nodes and no replica owning slots; and the messages it
    sends are such that the handlers of their receivers do not crash either. *)
Theorem cluster_handlers_safe e ev cs : wf cs -> event_ok cs ev -> handled (handle e ev cs).
Proof.
  intros Hw Hev. destruct (wf_me cs Hw) as (me & Hme & _). destruct ev as [msg| | | |x| | |j|j|x]; cbn [handle event_ok] in *.
  - by apply processPacket_ok.
  - destruct (handleSlaveFailover_ok e cs Hw) as (cs' & eff & won & -> & Hw' & Hf). by apply handled_intro.
  - apply handled_intro; [|done]. unfold clusterHandleManualFailover. repeat case_match; try done. by apply (wf_same cs).
  - unfold manualFailoverCheckTimeout, resetManualFailover. case_match; apply handled_intro; try done; [by apply (wf_same cs)|by case_match].
  - destruct Hev as [s Hs]. unfold clusterHandleConfigEpochCollision. rewrite Hs, Hme. mstep. case_match; [by apply handled_intro|]. case_match; [by apply handled_intro|].
    destruct (next_epoch_ok cs Hw) as (cs' & -> & Hw'). by apply handled_intro.
  - unfold clusterBumpConfigEpochWithoutConsensus. rewrite Hme. mstep. case_match; [|by apply handled_intro].
    destruct (next_epoch_ok cs Hw) as (cs' & -> & Hw'). apply handled_intro; [by apply (wf_same cs')|done].
  - destruct (updateState_ok e 0 cs Hw) as (cs' & -> & H1 & H2 & H3 & _). apply handled_intro; [by apply (wf_same cs)|done].
  - destruct Hev as [Hj Hsl]. destruct (cslots cs !! j) as [o|] eqn:Ho; [unfold clusterAddSlot; rewrite Ho; by apply handled_intro|].
    destruct (addSlot_ok (myself cs) j cs (wf_slots _ Hw) ltac:(by exists me) Hj Ho) as (ns & -> & Hs & Hr). apply handled_intro; [|done].
    apply wf_with_slots; [done..|]. intros i x n Hi Hne Hx. destruct (decide (i = j)) as [->|Hij]; [|by rewrite lookup_insert_ne in Hi].
    rewrite lookup_insert_eq in Hi. injection Hi as <-. by apply Hsl.
  - destruct (cslots cs !! j) as [o|] eqn:Ho; [|unfold clusterDelSlot; rewrite Ho; by apply handled_intro].
    destruct (delSlot_ok o j cs (wf_slots _ Hw) Ho) as (ns & -> & Hs & Hr). apply handled_intro; [|done].
    apply wf_with_slots; [done..|]. intros i x n Hi Hne Hx. destruct (decide (i = j)) as [->|Hij]; [by rewrite lookup_delete_eq in Hi|by rewrite lookup_delete_ne in Hi].
  - destruct (delNodeSlots_ok x cs (wf_slots _ Hw) Hev) as (ns & cm & -> & Hs & Hr & Hcm). apply handled_intro; [|done].
    apply wf_with_slots; [done..|]. intros i y n Hi Hne Hy. destruct (so_owner _ _ Hs i y Hi) as [Hok _]. rewrite Hcm in Hi by done. by case_decide.
Qed.

(** ** Slots *)

(** C15. Slots follow the newest configuration: when a node [x] claims slots with the configuration epoch
    [ep], a claimed slot becomes [x]'s if it was unassigned or its owner's epoch is smaller, unless this node
    is importing it, and every other slot keeps its owner; if that leaves the node whose slots this node
    serves or copies with none, this node becomes a replica of [x] and starts to copy it; otherwise it keeps
    its role and deletes the keys of exactly the slots of its own that it lost and that had keys. *)
Theorem clusterUpdateSlots_correct e x n ep claimed cs :
  wf cs -> nodes cs !! x = Some n -> nodeIsSlave n = false -> x <> myself cs -> bitmap_ok claimed ->
  exists cs' eff, clusterUpdateSlotsConfigWith e x ep claimed cs = Some (cs', eff) /\
    (forall j, slot_ok j -> cslots cs' !! j = new_owner cs x ep claimed j) /\ config_outcome e x ep claimed cs cs' eff.
Proof.
  intros Hw Hx Hsl Hne Hc. destruct (updateConfig_ok e x n ep claimed cs Hw Hx Hsl Hne Hc) as (cs' & eff & Hr & _ & _ & Ho & Hco). by exists cs', eff.
Qed.

(** ** A won election *)

(** The state in which an election is won: that of the replica, with its new epoch *)
Lemma win_state e cs cs' eff :
  clusterHandleSlaveFailover e cs = Some (cs', eff, true) ->
  exists me m cs2, nodes cs !! myself cs = Some me /\ nodeIsMaster me = false /\ slaveof me = Some m /\
    myself cs2 = myself cs /\ cslots cs2 = cslots cs /\ nodes cs2 = <[myself cs := set_configEpoch (Z.max (configEpoch me) (failover_auth_epoch cs)) me]> (nodes cs) /\
    clusterFailoverReplaceYourMaster e 4 cs2 = Some (cs', eff).
Proof.
  unfold clusterHandleSlaveFailover. intros Hr. apply bind_Some in Hr as (me & Hme & Hr).
  set (cs0 := set_todo_before_sleep _ cs) in Hr. destruct (nodeIsMaster me) eqn:Em; [done|]. destruct (slaveof me) as [m|] eqn:Es; [|done].
  exists me, m. apply bind_Some in Hr as (master & _ & Hr). destruct (_ || _ || _); [done|]. destruct (_ && _ && _); [done|].
  destruct (_ >? _) in Hr. { apply bind_Some in Hr as (r & _ & Hr). by apply bind_Some in Hr as (p & _ & Hr). }
  apply bind_Some in Hr as (cs1 & H1 & Hr).
  assert (myself cs1 = myself cs /\ cslots cs1 = cslots cs /\ nodes cs1 = nodes cs /\ failover_auth_epoch cs1 = failover_auth_epoch cs) as (M1 & C1 & N1 & F1).
  { clear Hr. binds; [case_match|]; done. }
  clear H1. destruct (_ <? _) in Hr; [done|]. destruct (_ >? _) in Hr; [done|]. destruct (negb _). { by apply bind_Some in Hr as (rq & _ & Hr). }
  destruct (_ >=? _); [|done]. apply bind_Some in Hr as (cs2 & H2 & Hr). apply bind_Some in Hr as ([cs3 eff3] & H3 & Hr). injection Hr as -> ->.
  exists cs2. do 3 (split; [done|]). destruct (configEpoch me <? failover_auth_epoch cs1) eqn:Ec; rewrite F1 in *.
  - erewrite upd_node_some in H2 by (rewrite N1, M1; exact Hme). injection H2 as <-. split; [done|]. split; [done|]. split; [|done]. cbn. rewrite N1, M1. by rewrite Z.max_r by lia.
  - injection H2 as <-. split; [done|]. split; [done|]. split; [|done]. rewrite N1, Z.max_l by lia. symmetry. apply insert_id. by destruct me.
Qed.

(** C25. An elected replica takes over its master: when the failover handler wins the election, the replica is
    a master, whose epoch is the election's unless its own was greater already, it stops copying, every slot of its old master is
    now its own and every other slot has the owner it had. *)
Theorem elected_takes_over e cs cs' eff me m :
  wf cs -> nodes cs !! myself cs = Some me -> slaveof me = Some m ->
  clusterHandleSlaveFailover e cs = Some (cs', eff, true) ->
  (forall j, slot_ok j -> cslots cs' !! j = if decide (cslots cs !! j = Some m) then Some (myself cs) else cslots cs !! j) /\
  ReplicationUnsetMaster ∈ eff /\
  exists me', nodes cs' !! myself cs = Some me' /\ nodeIsMaster me' = true /\ slaveof me' = None /\ configEpoch me' = Z.max (configEpoch me) (failover_auth_epoch cs).
Proof.
  intros Hw Hme Hm Hr. destruct (win_state e cs cs' eff Hr) as (me0 & m0 & cs2 & Hme0 & Hma & Hso & M2 & C2 & N2 & Hrep). simplify_eq.
  assert (wf cs2) as Hw2.
  { destruct (wf_upd (myself cs) (set_configEpoch (Z.max (configEpoch me) (failover_auth_epoch cs))) cs Hw ltac:(by exists me)) as (ns & Hu & Hw' & _); [done..|].
    rewrite (upd_node_some _ _ _ me Hme) in Hu. injection Hu as <-. eapply wf_same; [..|exact Hw']; done. }
  destruct (replace_ok e 4 cs2 Hw2) as (cs3 & eff3 & Hrep' & _ & _ & Hall). rewrite Hrep in Hrep'. injection Hrep' as <- <-.
  destruct (Hall (set_configEpoch (Z.max (configEpoch me) (failover_auth_epoch cs)) me) m) as (Hsl & Hun & me' & Hme' & Hma' & Hso' & He').
  - by rewrite N2, M2, lookup_insert_eq.
  - done.
  - done.
  - split; [|split; [done|]].
    + intros j Hj. rewrite Hsl by done. unfold taken. by rewrite C2, M2.
    + exists me'. rewrite <- M2. do 3 (split; [done|]). by rewrite He'.
Qed.

(** * Configuration epochs that collide
    
    The masters of a cluster as a transition system: a node hears of the epochs others have
    had, late and in any order, and runs [clusterHandleConfigEpochCollision] on what it has
    heard.  Collisions come to an end. *)

Definition own_epoch (cs : clusterState) : option Z := configEpoch <$> nodes cs !! myself cs.

(** The nodes, the epochs each has had, the latest first, and who changed its epoch *)
Record eworld := EWorld { ests : gmap nodename clusterState; past : list (nodename * Z); bumps : list nodename }.

Inductive estep (w : eworld) : eworld -> Prop :=
  | learn n cs cs' : ests w !! n = Some cs ->
      myself cs' = n -> names_ok cs' -> own_epoch cs' = own_epoch cs -> currentEpoch cs <= currentEpoch cs' ->
      estep w (EWorld (<[n := cs']> (ests w)) (past w) (bumps w))
  | collide n cs s node cs' eff ep : ests w !! n = Some cs -> nodes cs !! s = Some node -> (s, configEpoch node) ∈ past w -> currentEpoch cs < 2 ^ 64 - 1 ->
      clusterHandleConfigEpochCollision s cs = Some (cs', eff) -> own_epoch cs' = Some ep ->
      estep w (if decide (own_epoch cs' = own_epoch cs) then EWorld (<[n := cs']> (ests w)) (past w) (bumps w)
               else EWorld (<[n := cs']> (ests w)) ((n, ep) :: past w) (n :: bumps w)).

Inductive esteps (w0 : eworld) : eworld -> Prop :=
  | esteps_refl : esteps w0 w0
  | esteps_step w w' : esteps w0 w -> estep w w' -> esteps w0 w'.

(** The masters [l], each with one epoch so far *)
Definition einitial (l : list nodename) (w : eworld) : Prop :=
  bumps w = [] /\ (fst <$> past w) = l /\
  (forall n ep, (n, ep) ∈ past w -> exists cs, ests w !! n = Some cs /\ own_epoch cs = Some ep) /\
  forall n cs, ests w !! n = Some cs -> n ∈ l /\ myself cs = n /\ names_ok cs /\ exists ep, own_epoch cs = Some ep /\ 0 <= ep <= currentEpoch cs.

(** ** One collision *)

Lemma memcmp_anti a b : memcmp a b = - memcmp b a.
Proof.
  revert b. induction a as [|x a IH]; intros [|y b]; try done. cbn [memcmp]. rewrite (Z.eqb_sym y x). destruct (x =? y) eqn:E; [apply IH|lia].
Qed.

(** A node changes its epoch only for one that another node, with a greater name, has had, and then moves
    forward. *)
Lemma collision_step s cs cs' eff node ep ep' :
  names_ok cs -> nodes cs !! s = Some node -> own_epoch cs = Some ep -> 0 <= currentEpoch cs < 2 ^ 64 - 1 ->
  clusterHandleConfigEpochCollision s cs = Some (cs', eff) -> own_epoch cs' = Some ep' ->
  myself cs' = myself cs /\ names_ok cs' /\ currentEpoch cs <= currentEpoch cs' /\
  (ep' = ep \/ configEpoch node = ep /\ memcmp s (myself cs) > 0 /\ ep' = currentEpoch cs + 1 /\ ep' = currentEpoch cs').
Proof.
  intros Hn Hs Ho Hc Hh Ho'. unfold own_epoch in Ho. destruct (nodes cs !! myself cs) as [me|] eqn:Hme; [|done]. injection Ho as <-.
  unfold clusterHandleConfigEpochCollision in Hh. rewrite Hs, Hme in Hh. cbn [mbind option_bind] in Hh.
  assert (cs' = cs -> myself cs' = myself cs /\ names_ok cs' /\ currentEpoch cs <= currentEpoch cs' /\ (ep' = configEpoch me \/ configEpoch node = configEpoch me /\
    memcmp s (myself cs) > 0 /\ ep' = currentEpoch cs + 1 /\ ep' = currentEpoch cs')) as Hsame.
  { intros ->. do 3 (split; [done|]). left. unfold own_epoch in Ho'. rewrite Hme in Ho'. by injection Ho' as <-. }
  destruct (_ || _) eqn:Eg; [injection Hh as <- _; by apply Hsame|]. destruct (_ <=? 0) eqn:Em; [injection Hh as <- _; by apply Hsame|]. clear Hsame.
  apply bind_Some in Hh as (c & Hc' & Hh). injection Hh as <- _. rewrite !orb_false_iff, !negb_false_iff in Eg. destruct Eg as [[Ee _] _].
  unfold next_epoch in Hc'. assert (u64 (currentEpoch cs + 1) = currentEpoch cs + 1) as Hu by (apply uN_small; lia).
  erewrite upd_node_some in Hc' by exact Hme. injection Hc' as <-. cbn. rewrite Hu.
  split; [done|]. split.
  - intros x n Hx. cbn in Hx. destruct (decide (x = myself cs)) as [->|Hne]; [rewrite lookup_insert_eq in Hx; injection Hx as <-; cbn; by apply Hn|].
    rewrite lookup_insert_ne in Hx by done. by apply Hn.
  - split; [lia|]. right. unfold own_epoch in Ho'. cbn in Ho'. rewrite lookup_insert_eq in Ho'. injection Ho' as <-. rewrite Hu.
    rewrite (Hn s node Hs), (Hn _ me Hme) in Em. split; [lia|]. split; [lia|done].
Qed.

(** ** The epochs a node has had *)

Definition epochs (h : list (nodename * Z)) (n : nodename) : list Z := snd <$> filter (fun p => p.1 = n) h.

Lemma epochs_cons m ep h n : epochs ((m, ep) :: h) n = if decide (m = n) then ep :: epochs h n else epochs h n.
Proof. unfold epochs. destruct (decide (m = n)) as [Hm|Hm]; [by rewrite filter_cons_True|by rewrite filter_cons_False]. Qed.
Lemma elem_of_epochs h n ep : ep ∈ epochs h n <-> (n, ep) ∈ h.
Proof.
  unfold epochs. rewrite list_elem_of_fmap. split.
  - intros ([m v] & -> & Hf). apply list_elem_of_filter in Hf as [Hm ?]. cbn in Hm. by subst m.
  - intros Hin. exists (n, ep). split; [done|]. by apply list_elem_of_filter.
Qed.

(** The latest is the greatest, and each of the others was taken from a node with a greater name. *)
Record node_epochs (h : list (nodename * Z)) (n : nodename) (cs : clusterState) : Prop := NodeEpochs {
  ne_myself : myself cs = n;
  ne_names : names_ok cs;
  ne_latest : exists ep l, epochs h n = ep :: l /\ own_epoch cs = Some ep /\ 0 <= ep <= currentEpoch cs /\ Forall (fun v => v < ep) l /\ NoDup l /\
    Forall (fun v => exists s, memcmp s n > 0 /\ (s, v) ∈ h) l }.

Definition einv (l : list nodename) (w : eworld) : Prop :=
  (forall p, p ∈ past w -> p.1 ∈ l) /\ zlen (past w) = zlen l + zlen (bumps w) /\
  (forall n, n ∈ l -> is_Some (ests w !! n)) /\ forall n cs, ests w !! n = Some cs -> n ∈ l /\ node_epochs (past w) n cs.

Lemma epochs_none h n : n ∉ (fst <$> h) -> epochs h n = [].
Proof.
  induction h as [|[m v] h IH]; [done|]. rewrite fmap_cons, not_elem_of_cons, epochs_cons. intros [Hm Hh]. cbn in Hm. rewrite decide_False by congruence. by apply IH.
Qed.
Lemma epochs_single h n ep : NoDup (fst <$> h) -> (n, ep) ∈ h -> epochs h n = [ep].
Proof.
  induction h as [|[m v] h IH]; [by intros _ ?%not_elem_of_nil|]. rewrite fmap_cons, NoDup_cons, elem_of_cons, epochs_cons. intros [Hm Hh] [[= -> ->]|Hin].
  - rewrite decide_True by done. by rewrite epochs_none.
  - cbn in Hm. destruct (decide (m = n)) as [->|Hne]; [|by apply IH]. exfalso. apply Hm, list_elem_of_fmap. by exists (n, ep).
Qed.

Lemma einitial_inv l w : NoDup l -> einitial l w -> einv l w.
Proof.
  intros Hl (Hb & Hp & Hpast & Hs). split; [|split; [|split]].
  - intros p Hin. rewrite <- Hp. apply list_elem_of_fmap. by exists p.
  - rewrite Hb, <- Hp. unfold zlen. rewrite length_fmap. cbn. lia.
  - intros n Hn. rewrite <- Hp in Hn. apply list_elem_of_fmap in Hn as ([m v] & -> & Hin). destruct (Hpast m v Hin) as (cs & ? & _). by exists cs.
  - intros n cs Hn. destruct (Hs n cs Hn) as (Hin & Hm & Hna & ep & Ho & He). split; [done|]. split; [done|done|]. exists ep, [].
    assert ((n, ep) ∈ past w) as Hpn.
    { rewrite <- Hp in Hin. apply list_elem_of_fmap in Hin as ([m v] & -> & Hin). destruct (Hpast m v Hin) as (c & Hc & Hv). cbn in *. assert (c = cs) as -> by congruence. assert (v = ep) as <- by congruence. done. }
    split; [by apply epochs_single; [rewrite Hp|]|]. split; [done|]. split; [done|]. split; [constructor|]. split; constructor.
Qed.

(** Another node's change leaves a node's epochs alone. *)
Lemma node_epochs_other h m ep n cs : m <> n -> node_epochs h n cs -> node_epochs ((m, ep) :: h) n cs.
Proof.
  intros Hne [Hm Hna (e & l & He & Ho & Hc & Hlt & Hnd & Hfrom)]. split; [done|done|]. exists e, l. rewrite epochs_cons, decide_False by done.
  do 5 (split; [done|]). eapply Forall_impl; [exact Hfrom|]. intros v (s & Hs & Hv). exists s. split; [done|]. by apply list_elem_of_further.
Qed.

Lemma estep_inv l w w' : einv l w -> estep w w' -> einv l w'.
Proof.
  intros (Hp & Hz & Hdom & Hn) Hst.
  assert (forall n cs', is_Some (ests w !! n) -> forall m, m ∈ l -> is_Some (<[n := cs']> (ests w) !! m)) as Hdom'.
  { intros n cs' _ m Hm. destruct (decide (m = n)) as [->|Hne]; [rewrite lookup_insert_eq; by eexists|]. rewrite lookup_insert_ne by done. by apply Hdom. }
  assert (forall h n cs cs' , ests w !! n = Some cs -> node_epochs h n cs' -> (forall m c, m <> n -> ests w !! m = Some c -> node_epochs h m c) ->
    forall m c, <[n := cs']> (ests w) !! m = Some c -> m ∈ l /\ node_epochs h m c) as Hupd.
  { intros h n cs cs' Hcs Hnew Hold m c Hm. destruct (decide (m = n)) as [->|Hne].
    - rewrite lookup_insert_eq in Hm. injection Hm as <-. split; [by destruct (Hn n cs Hcs)|done].
    - rewrite lookup_insert_ne in Hm by done. split; [by destruct (Hn m c Hm)|by apply Hold]. }
  destruct Hst as [n cs cs' Hcs Hm Hna Ho Hc|n cs s node cs' eff ep Hcs Hnode Hpast Hcur Hh Ho'].
  - destruct (Hn n cs Hcs) as [_ [_ _ (e & k & He & Hoe & Hbound & Hrest)]]. split; [done|]. split; [done|]. split; [apply Hdom'; by eexists|]. cbn.
    apply (Hupd _ n cs); [done| |intros m c _ Hmc; by apply (Hn m c)]. split; [done|done|]. exists e, k. split; [done|]. split; [congruence|]. split; [lia|done].
  - destruct (Hn n cs Hcs) as [Hin [Hm Hna (e & k & He & Hoe & Hbound & Hlt & Hnd & Hfrom)]].
    destruct (collision_step s cs cs' eff node e ep Hna Hnode Hoe ltac:(lia) Hh Ho') as (Hm' & Hna' & Hc' & Hcase).
    case_decide as Hd.
    + split; [done|]. split; [done|]. split; [apply Hdom'; by eexists|]. cbn. apply (Hupd _ n cs); [done| |intros m c _ Hmc; by apply (Hn m c)].
      split; [congruence|done|]. exists e, k. split; [done|]. split; [congruence|]. split; [lia|done].
    + destruct Hcase as [->|(Hep & Hgt & Hnew & Hcur')]; [congruence|]. rewrite Hm in Hgt. split; [|split; [|split]].
      * intros p. cbn. rewrite elem_of_cons. intros [->|?]; [done|by apply Hp].
      * cbn. rewrite !zlen_cons. lia.
      * apply Hdom'. by eexists.
      * cbn. apply (Hupd _ n cs); [done| |intros m c Hne Hmc; apply node_epochs_other; [done|by apply (Hn m c)]].
        split; [congruence|done|]. exists ep, (e :: k). rewrite epochs_cons, decide_True, He by done. split; [done|]. split; [done|]. split; [lia|].
        assert (Forall (fun v => exists s0, memcmp s0 n > 0 /\ (s0, v) ∈ (n, ep) :: past w) k) as Hk.
        { eapply Forall_impl; [exact Hfrom|]. intros v (s0 & ? & ?). exists s0. split; [done|]. by apply list_elem_of_further. }
        split; [constructor; [lia|]; eapply Forall_impl; [exact Hlt|]; cbn; lia|]. split.
        -- constructor; [|done]. intros Hk'. rewrite Forall_forall in Hlt. specialize (Hlt e Hk'). lia.
        -- constructor; [|done]. exists s. split; [done|]. apply list_elem_of_further. by rewrite <- Hep.
Qed.

(** ** Counting *)

(** The epochs of the nodes of a list *)
Definition all_epochs (h : list (nodename * Z)) (l : list nodename) : list Z := mjoin (epochs h <$> l).

Lemma all_epochs_app h l n : all_epochs h (l ++ [n]) = all_epochs h l ++ epochs h n.
Proof. unfold all_epochs. rewrite fmap_app, join_app. cbn. by rewrite app_nil_r. Qed.
Lemma all_epochs_cons h l n : all_epochs h (n :: l) = epochs h n ++ all_epochs h l.
Proof. done. Qed.
Lemma elem_of_all_epochs h l v : v ∈ all_epochs h l <-> exists n, n ∈ l /\ (n, v) ∈ h.
Proof.
  unfold all_epochs. rewrite list_elem_of_join. setoid_rewrite list_elem_of_fmap. split.
  - intros (k & Hv & n & -> & Hn). exists n. split; [done|]. by apply elem_of_epochs.
  - intros (n & Hn & Hv). exists (epochs h n). split; [by apply elem_of_epochs|]. by exists n.
Qed.

(** The nodes above a node of a sorted list come before it. *)
Lemma sorted_above (l1 l2 : list nodename) n s : StronglySorted (fun x y => memcmp x y > 0) (l1 ++ n :: l2) -> s ∈ l1 ++ n :: l2 -> memcmp s n > 0 -> s ∈ l1.
Proof.
  intros Hs Hin Hgt. rewrite elem_of_app, elem_of_cons in Hin. destruct Hin as [?|[->|Hin]]; [done|pose proof (memcmp_anti n n); lia|].
  exfalso. induction l1 as [|x l1 IH]; cbn [app] in Hs; apply StronglySorted_inv in Hs as [Hs Hf]; [|by apply IH].
  rewrite Forall_forall in Hf. specialize (Hf s Hin). pose proof (memcmp_anti n s). lia.
Qed.

Lemma epochs_bound l w l1 l2 :
  einv l w -> StronglySorted (fun x y => memcmp x y > 0) l -> l = l1 ++ l2 -> zlen (all_epochs (past w) l1) + 1 <= 2 ^ zlen l1.
Proof.
  intros (Hp & _ & Hdom & Hn) Hs. revert l2. induction l1 as [|n l1 IH] using rev_ind; intros l2 El; [done|].
  assert (l = l1 ++ n :: l2) as El' by (by rewrite El, <- app_assoc). specialize (IH (n :: l2) El').
  rewrite all_epochs_app, !zlen_app, Z.pow_add_r by (apply zlen_nonneg || done). change (2 ^ zlen [n]) with 2.
  destruct (Hdom n ltac:(rewrite El'; set_solver)) as [cs Hcs]. destruct (Hn n cs Hcs) as [_ [_ _ (e & k & He & _ & _ & _ & Hnd & Hfrom)]]. rewrite He, zlen_cons.
  assert (zlen k <= zlen (all_epochs (past w) l1)); [|lia]. unfold zlen. apply inj_le, submseteq_length, NoDup_submseteq; [done|].
  intros v Hv. rewrite Forall_forall in Hfrom. destruct (Hfrom v Hv) as (s & Hgt & Hsv). apply elem_of_all_epochs. exists s. split; [|done].
  rewrite El' in Hs. apply (sorted_above l1 l2 n s Hs); [|done]. rewrite <- El'. exact (Hp _ Hsv).
Qed.

Lemma all_epochs_length h l : NoDup l -> (forall p, p ∈ h -> p.1 ∈ l) -> zlen (all_epochs h l) = zlen h.
Proof.
  intros Hl. induction h as [|[m v] h IH]; intros Hin.
  - unfold all_epochs. clear. induction l; [done|]. cbn. done.
  - rewrite zlen_cons, <- IH by (intros; apply Hin; by apply list_elem_of_further). clear IH.
    assert (m ∈ l) as Hm by (apply (Hin (m, v)); apply list_elem_of_here). clear Hin. apply list_elem_of_split in Hm as (l1 & l2 & ->).
    assert (forall k, m ∉ k -> all_epochs ((m, v) :: h) k = all_epochs h k) as Hno.
    { induction k as [|x k IHk]; [done|]. rewrite not_elem_of_cons. intros [Hx Hk]. by rewrite !all_epochs_cons, epochs_cons, decide_False, IHk by done. }
    apply NoDup_app in Hl as (H1 & H2 & H3%NoDup_cons). assert (m ∉ l1) by (intros H'; apply (H2 m H'); set_solver).
    assert (forall k1 x k2 g, all_epochs g (k1 ++ x :: k2) = all_epochs g k1 ++ epochs g x ++ all_epochs g k2) as Happ.
    { intros. unfold all_epochs. by rewrite fmap_app, join_app. }
    rewrite !Happ, !zlen_app, !Hno, epochs_cons, decide_True, zlen_cons by naive_solver. lia.
Qed.

(** C26. Collisions of configuration epochs come to an end: among [n] masters with different names, whatever
    each hears of the others' epochs and in whatever order, the nodes change their epochs fewer than [2^n]
    times in all, however long they run. *)
Theorem collisions_end l w0 w :
  StronglySorted (fun x y => memcmp x y > 0) l -> einitial l w0 -> esteps w0 w -> zlen (bumps w) + zlen l < 2 ^ zlen l.
Proof.
  intros Hs Hi Hr. assert (NoDup l) as Hl.
  { clear -Hs. induction Hs as [|x l _ IH Hf]; constructor; [|done]. intros Hx. rewrite Forall_forall in Hf. specialize (Hf x Hx). pose proof (memcmp_anti x x). lia. }
  assert (einv l w) as Hw by (induction Hr; [by apply einitial_inv|by eapply estep_inv]).
  pose proof (epochs_bound l w l [] Hw Hs (eq_sym (app_nil_r l))) as Hb. destruct Hw as (Hp & Hz & _). rewrite all_epochs_length in Hb by done. lia.
Qed.
