(* ===== verification/ClusterElection.v ===== *)
(** * Elections of replicas

    The nodes of a cluster and the messages between them, as a transition system: a message
    may be delivered at any time and in any order, at most once, or be lost; a node may run
    its failover handler at any time; whatever else a node does, it does not touch the state
    of the election, except that its current epoch may grow. *)

From Stdlib Require Import ZArith Lia.
From stdpp Require Import base numbers option gmap list.
From S2P Require Import Prelude Memory Cluster ClusterFacts.

Local Open Scope Z_scope.
Local Open Scope redis_scope.

(** ** What the two handlers do to an election *)

(** The outcomes of [clusterHandleSlaveFailover] *)
Inductive cron_outcome (cs cs' : clusterState) (eff : list effect) (won : bool) : Prop :=
  | cron_idle : calm cs cs' -> eff = [] -> won = false -> cron_outcome cs cs' eff won
  | cron_schedule :
      calm (set_failover_auth_sent false (set_failover_auth_count 0 cs)) cs' -> quiet eff -> won = false -> cron_outcome cs cs' eff won
  | cron_request : failover_auth_sent cs = false ->
      (let epoch := u64 (currentEpoch cs + 1) in
       calm (set_failover_auth_sent true (set_failover_auth_epoch epoch (set_currentEpoch epoch cs))) cs' /\
       (names_ok cs -> Forall (fun '(_, m) => data m = TypeFailoverAuthRequest /\ msg_sender m = myself cs /\ msg_currentEpoch m = epoch) (sends eff))) ->
      won = false -> cron_outcome cs cs' eff won
  | cron_win : failover_auth_sent cs = true -> failover_auth_count cs >= size cs / 2 + 1 ->
      calm cs cs' -> quiet eff -> won = true -> cron_outcome cs cs' eff won.

Lemma request_sends e cs eff :
  clusterRequestFailoverAuth e cs = Some eff -> names_ok cs ->
  Forall (fun '(_, m) => data m = TypeFailoverAuthRequest /\ msg_sender m = myself cs /\ msg_currentEpoch m = currentEpoch cs) (sends eff).
Proof.
  unfold clusterRequestFailoverAuth. intros Hr Hn. apply bind_Some in Hr as (m & (Hd & He & Hs)%hdr_fields & Hr). injection Hr as <-.
  unfold clusterBroadcastMessage. apply broadcast_sends. intros x. specialize (Hs Hn). by case_match.
Qed.

Lemma cron_cases e cs cs' eff won : clusterHandleSlaveFailover e cs = Some (cs', eff, won) -> cron_outcome cs cs' eff won.
Proof.
  unfold clusterHandleSlaveFailover. intros Hr. apply bind_Some in Hr as (me & Hme & Hr).
  set (cs0 := set_todo_before_sleep _ cs) in Hr. assert (calm cs cs0) as H0 by (unfold cs0; calms).
  assert (size cs0 = size cs /\ nodes cs0 = nodes cs) as [Hsz Hnd] by done.
  destruct (nodeIsMaster me). { simplify_eq. apply cron_idle; [calms|done|done]. }
  destruct (slaveof me) as [m|]. 2: { simplify_eq. apply cron_idle; [calms|done|done]. }
  apply bind_Some in Hr as (master & _ & Hr).
  destruct (_ || _ || _). { simplify_eq. apply cron_idle; [calms|done|done]. }
  destruct (_ && _ && _). { simplify_eq. apply cron_idle; [calms|done|done]. }
  destruct (_ >? _) in Hr.
  { apply bind_Some in Hr as (rank & _ & Hr). apply bind_Some in Hr as (pongs & Hp%pong_quiet & Hr). simplify_eq.
    apply cron_schedule; [|done|done]. unfold cs0. case_match; calms; split; done. }
  apply bind_Some in Hr as (cs1 & H1 & Hr).
  assert (calm cs cs1) as Hc1. { clear Hr. binds; calms. }
  assert (size cs1 = size cs /\ nodes cs1 = nodes cs) as [Hsz1 Hnd1]. { clear Hr Hc1. binds; [case_match|]; done. }
  clear H1. clearbody cs0. clear H0 Hsz Hnd cs0.
  destruct (mstime e 3 <? failover_auth_time cs1). { simplify_eq. apply cron_idle; [unfold clusterLogCantFailover; calms|done|done]. }
  destruct (_ >? _) in Hr. { simplify_eq. apply cron_idle; [unfold clusterLogCantFailover; calms|done|done]. }
  pose proof (calm_sent _ _ Hc1) as Hs. pose proof (calm_count _ _ Hc1) as Hct. pose proof (calm_myself _ _ Hc1) as Hm. rewrite Hs in Hr.
  destruct (failover_auth_sent cs) eqn:Es; cbn [negb] in Hr.
  - rewrite Hct in Hr. destruct (failover_auth_count cs >=? size cs / 2 + 1) eqn:Ec.
    + apply bind_Some in Hr as (cs2 & H2 & Hr). apply bind_Some in Hr as ([cs3 eff3] & [H3 Hq]%replace_calm & Hr). simplify_eq.
      apply cron_win; [done|apply Z.geb_le in Ec; lia| |done|done]. assert (calm cs cs2) by (clear H3; binds; calms). calms.
    + simplify_eq. apply cron_idle; [unfold clusterLogCantFailover; calms|done|done].
  - apply bind_Some in Hr as (reqs & Hrq & Hr). simplify_eq. apply cron_request; [done| |done]. destruct Hc1. split.
    + split; cbn; try congruence; by rewrite calm_current.
    + intros Hn. apply request_sends in Hrq; [|by apply calm_names]. cbn in Hrq. by rewrite calm_current, calm_myself in Hrq.
Qed.

(** The outcomes of [process_packet] *)
Inductive packet_outcome (msg : clusterMsg) (cs cs' : clusterState) (eff : list effect) : Prop :=
  | packet_calm : failover_auth_count cs' = failover_auth_count cs -> lastVoteEpoch cs' = lastVoteEpoch cs -> quiet eff -> packet_outcome msg cs cs' eff
  | packet_counted : data msg = TypeFailoverAuthAck -> failover_auth_count cs' = failover_auth_count cs + 1 -> lastVoteEpoch cs' = lastVoteEpoch cs ->
      (failover_auth_epoch cs <= msg_currentEpoch msg \/ failover_auth_epoch cs <= 0) -> eff = [] -> packet_outcome msg cs cs' eff
  | packet_voted : data msg = TypeFailoverAuthRequest -> failover_auth_count cs' = failover_auth_count cs ->
      lastVoteEpoch cs' = currentEpoch cs' -> lastVoteEpoch cs <> currentEpoch cs' -> currentEpoch cs' <= msg_currentEpoch msg ->
      (exists me, nodes cs' !! myself cs' = Some me /\ nodeIsSlave me = false /\ numslots me <> 0) ->
      (sends eff = [] \/ exists ack, sends eff = [(msg_sender msg, ack)] /\ data ack = TypeFailoverAuthAck /\
         msg_currentEpoch ack = currentEpoch cs' /\ (names_ok cs -> msg_sender ack = myself cs)) -> packet_outcome msg cs cs' eff.

(** What a packet may change of an election, whatever it is *)
Definition grows (cs cs' : clusterState) : Prop :=
  myself cs' = myself cs /\ currentEpoch cs <= currentEpoch cs' /\ failover_auth_sent cs' = failover_auth_sent cs /\
  failover_auth_epoch cs' = failover_auth_epoch cs /\ (names_ok cs -> names_ok cs').

Lemma header_grows e msg cs cs' : packet_header e msg cs = Some cs' ->
  grows cs cs' /\ failover_auth_count cs' = failover_auth_count cs /\ lastVoteEpoch cs' = lastVoteEpoch cs.
Proof.
  unfold packet_header. intros Hr. destruct (nodes cs !! msg_sender msg) as [s|]; [|simplify_eq; by repeat split].
  apply bind_Some in Hr as (cs1 & H1 & Hr). assert (calm cs cs1) as Hc1 by calms. clear H1.
  destruct (nodeInHandshake s). { simplify_eq. destruct Hc1. unfold grows. repeat split; (congruence || lia || done). }
  set (cs2 := if msg_currentEpoch msg >? currentEpoch cs1 then _ else _) in Hr. apply bind_Some in Hr as (cs3 & H3 & Hr). apply bind_Some in Hr as (cs4 & H4 & Hr).
  apply bind_Some in Hr as (me & _ & Hr).
  assert (calm cs2 cs3) as Hc3. { clear Hr H4. clearbody cs2. binds; calms. }
  assert (calm cs3 cs4) as Hc4 by calms. assert (calm cs4 cs') as Hc' by (clear H3 H4; binds; calms).
  assert (calm cs2 cs') as Hc by calms. clear Hr H3 H4 Hc3 Hc4 Hc'.
  destruct Hc1, Hc. unfold grows. unfold cs2 in *. destruct (msg_currentEpoch msg >? currentEpoch cs1) eqn:E; cbn in *; repeat split; (congruence || lia || auto).
Qed.

Lemma vote_cases e x request cs cs' eff :
  clusterSendFailoverAuthIfNeeded e x request cs = Some (cs', eff) ->
  cs' = cs /\ eff = [] \/
  calm (set_lastVoteEpoch (currentEpoch cs) cs) cs' /\ lastVoteEpoch cs <> currentEpoch cs /\ currentEpoch cs <= msg_currentEpoch request /\
  (exists me, nodes cs' !! myself cs' = Some me /\ nodeIsSlave me = false /\ numslots me <> 0) /\
  (sends eff = [] \/ exists ack, sends eff = [(x, ack)] /\ data ack = TypeFailoverAuthAck /\
     msg_currentEpoch ack = currentEpoch cs /\ (names_ok cs -> msg_sender ack = myself cs)).
Proof.
  unfold clusterSendFailoverAuthIfNeeded. intros Hr. apply bind_Some in Hr as (node & _ & Hr). apply bind_Some in Hr as (me & Hme & Hr).
  destruct (nodeIsSlave me || (numslots me =? 0)) eqn:Em; [left; by simplify_eq|]. apply orb_false_iff in Em as [Em1 Em2].
  destruct (msg_currentEpoch request <? currentEpoch cs) eqn:E1; [left; by simplify_eq|].
  destruct (lastVoteEpoch cs =? currentEpoch cs) eqn:E2; [left; by simplify_eq|].
  destruct (nodeIsMaster node); [left; by simplify_eq|]. destruct (slaveof node) as [m|]; [|left; by simplify_eq].
  apply bind_Some in Hr as (master & _ & Hr). destruct (_ && _); [left; by simplify_eq|]. destruct (_ <? _) in Hr; [left; by simplify_eq|].
  apply bind_Some in Hr as (refused & _ & Hr). destruct refused; [left; by simplify_eq|]. right.
  set (cs1 := set_lastVoteEpoch _ cs) in Hr. apply bind_Some in Hr as (cs2 & H2 & Hr). apply bind_Some in Hr as (eff' & H3 & Hr). simplify_eq.
  assert (calm cs1 cs2) as Hc by calms.
  set (cs3 := clusterDoBeforeSleep _ cs2) in *. assert (calm cs1 cs3) as Hc3 by (unfold cs3; calms).
  split; [done|]. split; [by apply Z.eqb_neq in E2|]. split; [by apply Z.ltb_ge in E1|]. split.
  - unfold upd_node in H2. binds. cbn. destruct (decide (m = myself cs)) as [->|Hne].
    + rewrite lookup_insert_eq. eexists. split; [done|]. cbn in *. simplify_eq. split; [done|]. cbn. by apply Z.eqb_neq in Em2.
    + rewrite lookup_insert_ne by done. exists me. split; [done|]. split; [done|]. by apply Z.eqb_neq in Em2.
  - unfold clusterSendFailoverAuth in H3. apply bind_Some in H3 as (n & _ & H3). destruct (negb (link n)); [left; by simplify_eq|]. right.
    apply bind_Some in H3 as (ack & (Hd & He & Hs)%hdr_fields & H3). simplify_eq. exists ack. cbn [sends omap list_omap]. split; [done|]. split; [done|].
    destruct Hc3. split; [by rewrite He, calm_current|]. intros Hn. rewrite Hs by by apply calm_names. done.
Qed.

Lemma packet_cases e msg cs cs' eff :
  process_packet e msg cs = Some (cs', eff) -> grows cs cs' /\ packet_outcome msg cs cs' eff.
Proof.
  unfold process_packet, process_fail, process_auth_ack, process_mfstart, process_update. intros Hr. apply bind_Some in Hr as (cs1 & H1 & Hr).
  apply header_grows in H1 as (Hg & Hc & Hv).
  assert (forall cs2 eff2, calm cs1 cs2 -> quiet eff2 -> grows cs cs2 /\ packet_outcome msg cs cs2 eff2) as Hcalm.
  { intros cs2 eff2 [] Hq. split; [|apply packet_calm; [congruence|congruence|done]].
    destruct Hg as (? & ? & ? & ? & ?). unfold grows. repeat split; (congruence || lia || auto). }
  destruct (nodes cs1 !! msg_sender msg) as [s|]; [|simplify_eq; by apply Hcalm; [|apply quiet_nil]].
  destruct (data msg) as [|about| | | |about ep claimed] eqn:Ed.
  - simplify_eq. by apply Hcalm; [|apply quiet_nil].
  - apply Hcalm; binds; try apply quiet_nil; calms.
  - apply vote_cases in Hr as [[-> ->]|(Hcm & Hne & Hle & Hme & Hs)]; [by apply Hcalm; [|apply quiet_nil]|].
    destruct Hg as (Hg1 & Hg2 & Hg3 & Hg4 & Hg5). destruct Hcm. cbn in *. split; [unfold grows; repeat split; (congruence || lia || auto)|].
    apply packet_voted; [done|congruence|congruence|congruence|lia|done|]. destruct Hs as [?|(ack & ? & ? & ? & Hn)]; [by left|right].
    exists ack. split; [done|]. split; [done|]. split; [congruence|]. intros. rewrite Hn by auto. done.
  - destruct (_ && _ && _) eqn:Ek; simplify_eq; [|by apply Hcalm; [|apply quiet_nil]].
    apply andb_true_iff in Ek as [_ Ek]. apply Z.geb_le in Ek. destruct Hg as (Hg1 & Hg2 & Hg3 & Hg4 & Hg5).
    split; [unfold grows; cbn; repeat split; (congruence || lia || auto)|].
    apply packet_counted; [done|cbn; lia|done| |done]. rewrite <- Hg4. case_match; lia.
  - destruct (decide _); [|simplify_eq; by apply Hcalm; [|apply quiet_nil]].
    pose proof (calm_reset cs1). pose proof (reset_quiet cs1). destruct (resetManualFailover cs1) as [cs2 eff2]. cbn [fst snd] in *. simplify_eq.
    apply Hcalm; [calms|]. apply quiet_app; [done|constructor].
  - destruct (nodes cs1 !! about) as [n|]; [|simplify_eq; by apply Hcalm; [|apply quiet_nil]].
    destruct (_ >=? _); [simplify_eq; by apply Hcalm; [|apply quiet_nil]|].
    apply bind_Some in Hr as (cs2 & H2 & Hr). apply bind_Some in Hr as (cs3 & H3 & Hr). apply updateSlotsConfig_calm in Hr as [H4 Hq].
    assert (calm cs1 cs2) by (destruct (nodeIsSlave n); [by apply calm_setNodeAsMaster in H2|by injection H2 as <-]).
    apply Hcalm; [calms|done].
Qed.

(** ** The cluster as a transition system *)

Abbreviation packet := (nodename * clusterMsg)%type.

(** The nodes, the packets under way, all packets ever sent, the elections won *)
Record world := World { sts : gmap nodename clusterState; net : list packet; hist : list packet; wins : list (nodename * Z) }.

Inductive action :=
  | Deliver (k : nat) (e : env)
  | Lose (k : nat)
  | Failover (n : nodename) (e : env)
  | Other (n : nodename) (cs' : clusterState).

Definition exec (w : world) (a : action) : option world :=
  match a with
  | Deliver k e =>
      let! (dst, m) := net w !! k in
      let! cs := sts w !! dst in
      let! (cs', eff) := process_packet e m cs in
      Some (World (<[dst := cs']> (sts w)) (delete k (net w) ++ sends eff) (hist w ++ sends eff) (wins w))
  | Lose k => Some (World (sts w) (delete k (net w)) (hist w) (wins w))
  | Failover n e =>
      let! cs := sts w !! n in
      let! (cs', eff, won) := clusterHandleSlaveFailover e cs in
      Some (World (<[n := cs']> (sts w)) (net w ++ sends eff) (hist w ++ sends eff)
              (if (won : bool) then wins w ++ [(n, failover_auth_epoch cs)] else wins w))
  | Other n cs' =>
      let! cs := sts w !! n in
      Some (World (<[n := cs']> (sts w)) (net w) (hist w) (wins w))
  end.

(** Epochs do not wrap, the votes are cast by the members of [V], which every candidate takes
    for the size of the cluster, and the rest of a node leaves elections alone. *)
Definition regular (V : gset nodename) (w : world) (a : action) (w' : world) : Prop :=
  (forall n cs cs', sts w !! n = Some cs -> sts w' !! n = Some cs' -> lastVoteEpoch cs' <> lastVoteEpoch cs -> n ∈ V) /\
  match a with
  | Failover n _ => forall cs, sts w !! n = Some cs -> size cs = Z.of_nat (base.size V) /\ currentEpoch cs < 2 ^ 64 - 1
  | Other n cs' => forall cs, sts w !! n = Some cs ->
      grows cs cs' /\ failover_auth_count cs' = failover_auth_count cs /\ lastVoteEpoch cs' = lastVoteEpoch cs
  | _ => True
  end.

(** A vote is delivered only to a node whose election is still under way. *)
Definition timely (w : world) (a : action) : Prop :=
  match a with
  | Deliver k _ => forall dst m cs, net w !! k = Some (dst, m) -> sts w !! dst = Some cs -> data m = TypeFailoverAuthAck -> failover_auth_sent cs = true
  | _ => True
  end.

Inductive reachable (ok : world -> action -> world -> Prop) (w0 : world) : world -> Prop :=
  | reach_init : reachable ok w0 w0
  | reach_step w a w' : reachable ok w0 w -> exec w a = Some w' -> ok w a w' -> reachable ok w0 w'.

(** Before any election *)
Definition initial (w : world) : Prop :=
  net w = [] /\ hist w = [] /\ wins w = [] /\
  forall n cs, sts w !! n = Some cs -> myself cs = n /\ names_ok cs /\ 0 <= lastVoteEpoch cs <= currentEpoch cs /\
    0 <= failover_auth_epoch cs <= currentEpoch cs /\ failover_auth_sent cs = false /\ failover_auth_count cs = 0.

(** ** The invariant *)

Definition is_ack (m : clusterMsg) : bool := match data m with TypeFailoverAuthAck => true | _ => false end.
Definition ack_to (n : nodename) (ep : Z) (p : packet) : bool := bool_decide (p.1 = n) && is_ack p.2 && (msg_currentEpoch p.2 =? ep).
Definition acks (l : list packet) (n : nodename) (ep : Z) : Z := zlen (filter (fun p => ack_to n ep p) l).
Definition ballots (l : list packet) : list (nodename * Z) :=
  (fun p => (msg_sender p.2, msg_currentEpoch p.2)) <$> filter (fun p => is_ack p.2) l.

Lemma acks_app l k n ep : acks (l ++ k) n ep = acks l n ep + acks k n ep.
Proof. unfold acks. by rewrite filter_app, zlen_app. Qed.
Lemma acks_nonneg l n ep : 0 <= acks l n ep.
Proof. apply zlen_nonneg. Qed.
Lemma acks_none l n ep : Forall (fun p => ack_to n ep p = false) l -> acks l n ep = 0.
Proof.
  unfold acks. induction 1 as [|p l Hp _ IH]; [done|]. rewrite filter_cons_False; [done|]. rewrite Hp. by intros [].
Qed.
Lemma acks_delete l k p n ep : l !! k = Some p -> acks (delete k l) n ep = acks l n ep - b2z (ack_to n ep p).
Proof.
  intros Hk. rewrite <- (take_drop_middle l k p Hk) at 2. rewrite delete_take_drop. change (p :: drop (S k) l) with ([p] ++ drop (S k) l).
  rewrite !acks_app. assert (acks [p] n ep = b2z (ack_to n ep p)) as ->; [|lia].
  unfold acks. destruct (ack_to n ep p) eqn:E; [rewrite filter_cons_True by (by rewrite E)|rewrite filter_cons_False by (rewrite E; by intros [])]; done.
Qed.
Lemma ballots_app l k : ballots (l ++ k) = ballots l ++ ballots k.
Proof. unfold ballots. by rewrite filter_app, fmap_app. Qed.

Lemma quiet_acks eff n ep : quiet eff -> acks (sends eff) n ep = 0 /\ ballots (sends eff) = [].
Proof.
  unfold quiet. intros Hq. split.
  - apply acks_none. eapply Forall_impl; [exact Hq|]. intros [d m] Hm. unfold ack_to, is_ack. cbn. rewrite Hm. by rewrite andb_false_r.
  - unfold ballots. assert (filter (fun p => is_ack p.2) (sends eff) = []) as ->; [|done].
    induction Hq as [|[d m] l Hm _ IH]; [done|]. rewrite filter_cons_False; [done|]. unfold is_ack. cbn. rewrite Hm. by intros [].
Qed.

(** The votes are accounted for in the runs in which they are timely. *)
Section Invariant.
Context (strict : bool).

Record node_inv (w : world) (n : nodename) (cs : clusterState) : Prop := NodeInv {
  ni_myself : myself cs = n;
  ni_names : names_ok cs;
  ni_vote : 0 <= lastVoteEpoch cs <= currentEpoch cs;
  ni_epoch : 0 <= failover_auth_epoch cs <= currentEpoch cs;
  ni_sent : failover_auth_sent cs = true -> 1 <= failover_auth_epoch cs;
  ni_count : strict = true -> if failover_auth_sent cs then failover_auth_count cs + acks (net w) n (failover_auth_epoch cs) <= acks (hist w) n (failover_auth_epoch cs)
             else failover_auth_count cs = 0 }.

Definition packet_inv (V : gset nodename) (s : gmap nodename clusterState) (p : packet) : Prop :=
  match data p.2 with
  | TypeFailoverAuthAck =>
      msg_sender p.2 ∈ V /\
      (exists v, s !! msg_sender p.2 = Some v /\ msg_currentEpoch p.2 <= lastVoteEpoch v) /\
      (exists d, s !! p.1 = Some d /\ msg_currentEpoch p.2 <= failover_auth_epoch d)
  | TypeFailoverAuthRequest => exists c, s !! msg_sender p.2 = Some c /\ msg_currentEpoch p.2 <= failover_auth_epoch c
  | _ => True
  end.

Record world_inv (V : gset nodename) (w : world) : Prop := WorldInv {
  wi_nodes : forall n cs, sts w !! n = Some cs -> node_inv w n cs;
  wi_hist : Forall (packet_inv V (sts w)) (hist w);
  wi_net : net w ⊆ hist w;
  wi_ballots : NoDup (ballots (hist w));
  wi_wins : strict = true -> Forall (fun '(n, ep) => Z.of_nat (base.size V) / 2 + 1 <= acks (hist w) n ep) (wins w) }.

Lemma packet_inv_mono V s n cs cs' p :
  s !! n = Some cs -> lastVoteEpoch cs <= lastVoteEpoch cs' -> failover_auth_epoch cs <= failover_auth_epoch cs' ->
  packet_inv V s p -> packet_inv V (<[n := cs']> s) p.
Proof.
  intros Hn Hv He. unfold packet_inv.
  assert (forall x c (P : clusterState -> Prop), s !! x = Some c -> P c -> (x = n -> P cs -> P cs') -> exists d, <[n := cs']> s !! x = Some d /\ P d) as Hmove.
  { intros x c P Hx HP HPn. destruct (decide (x = n)) as [->|Hne]; [|exists c; by rewrite lookup_insert_ne].
    exists cs'. rewrite lookup_insert_eq. split; [done|]. apply HPn; [done|]. congruence. }
  destruct (data p.2); try done.
  - intros (c & Hc & Hle). apply (Hmove _ c (fun c => msg_currentEpoch p.2 <= failover_auth_epoch c)); [done|done|lia].
  - intros (HV & (v & Hvv & Hle) & (d & Hd & Hle')). split; [done|]. split.
    + apply (Hmove _ v (fun c => msg_currentEpoch p.2 <= lastVoteEpoch c)); [done|done|lia].
    + apply (Hmove _ d (fun c => msg_currentEpoch p.2 <= failover_auth_epoch c)); [done|done|lia].
Qed.

Definition won_ok (V : gset nodename) (h : list packet) (x : nodename * Z) : Prop := let '(n, ep) := x in Z.of_nat (base.size V) / 2 + 1 <= acks h n ep.

Lemma inv_step V w n cs cs' net' ps wins' :
  world_inv V w -> sts w !! n = Some cs ->
  lastVoteEpoch cs <= lastVoteEpoch cs' -> failover_auth_epoch cs <= failover_auth_epoch cs' ->
  net' ⊆ net w ++ ps -> (forall m ep, acks net' m ep <= acks (net w) m ep + acks ps m ep) ->
  node_inv (World (<[n := cs']> (sts w)) net' (hist w ++ ps) wins') n cs' ->
  Forall (packet_inv V (<[n := cs']> (sts w))) ps -> NoDup (ballots (hist w ++ ps)) -> (strict = true -> Forall (won_ok V (hist w ++ ps)) wins') ->
  world_inv V (World (<[n := cs']> (sts w)) net' (hist w ++ ps) wins').
Proof.
  intros Hw Hn Hv He Hnet Hacks Hni Hps Hb Hwin. split; cbn; try done.
  - intros m cm Hm. destruct (decide (m = n)) as [->|Hne]; [rewrite lookup_insert_eq in Hm; by injection Hm as <-|].
    rewrite lookup_insert_ne in Hm by done. destruct (wi_nodes V w Hw m cm Hm) as [H1 H2 H3 H4 H5 H6]. split; try done.
    intros Hst. specialize (H6 Hst). destruct (failover_auth_sent cm); [|done]. cbn. rewrite acks_app. specialize (Hacks m (failover_auth_epoch cm)). lia.
  - apply Forall_app. split; [|done]. eapply Forall_impl; [apply (wi_hist V w Hw)|]. intros p. by apply (packet_inv_mono V _ n cs).
  - etrans; [exact Hnet|]. pose proof (wi_net V w Hw). set_solver.
Qed.

Lemma wins_grow V h ps l : Forall (won_ok V h) l -> Forall (won_ok V (h ++ ps)) l.
Proof.
  intros Hl. eapply Forall_impl; [exact Hl|]. intros [n ep]. unfold won_ok. rewrite acks_app. pose proof (acks_nonneg ps n ep). lia.
Qed.
Lemma wi_wins_ok V w : world_inv V w -> strict = true -> Forall (won_ok V (hist w)) (wins w).
Proof. intros [] Hst. eapply Forall_impl; [by apply wi_wins0|]. by intros [n ep]. Qed.

(** Packets without a part in elections keep the invariants of packets. *)
Lemma quiet_packets V s eff : quiet eff -> Forall (packet_inv V s) (sends eff).
Proof. intros Hq. eapply Forall_impl; [exact Hq|]. intros [d m] Hm. unfold packet_inv. cbn. by rewrite Hm. Qed.
Lemma quiet_ballots h eff : quiet eff -> NoDup (ballots h) -> NoDup (ballots (h ++ sends eff)).
Proof. intros Hq Hb. rewrite ballots_app. rewrite (proj2 (quiet_acks eff [] 0 Hq)). by rewrite app_nil_r. Qed.

Lemma delete_subseteq {A} (l : list A) k ps : delete k l ++ ps ⊆ l ++ ps.
Proof. intros x. rewrite !elem_of_app. intros [Hx|?]; [left|by right]. eapply elem_of_submseteq; [done|apply submseteq_delete]. Qed.
Lemma acks_deleted l k p ps m ep : l !! k = Some p -> acks (delete k l ++ ps) m ep <= acks l m ep + acks ps m ep.
Proof. intros Hk. rewrite acks_app, (acks_delete l k p) by done. pose proof (b2z_bound (ack_to m ep p)). lia. Qed.

(** ** Its preservation *)

(** Of the votes to [n] in its own election all that are under way or counted were sent. *)
Lemma node_inv_quiet w n cs cs' net' ps wins' :
  node_inv w n cs -> grows cs cs' -> failover_auth_count cs' = failover_auth_count cs -> lastVoteEpoch cs' = lastVoteEpoch cs ->
  (forall m ep, acks net' m ep <= acks (net w) m ep + acks ps m ep) ->
  node_inv (World (<[n := cs']> (sts w)) net' (hist w ++ ps) wins') n cs'.
Proof.
  intros [H1 H2 H3 H4 H5 H6] (G1 & G2 & G3 & G4 & G5) Hc Hv Hacks. split; cbn; try congruence; try lia; auto.
  - intros ?. rewrite G4. apply H5. congruence.
  - intros Hst. specialize (H6 Hst). rewrite G3, G4, Hc. destruct (failover_auth_sent cs); [|done]. rewrite acks_app.
    specialize (Hacks n (failover_auth_epoch cs)). lia.
Qed.

Lemma calm_grows cs cs' : calm cs cs' -> grows cs cs'.
Proof. intros []. unfold grows. repeat split; (congruence || lia || auto). Qed.

(** A ballot of [n] in a new epoch *)
Lemma new_ballot V w n cs d m :
  world_inv V w -> sts w !! n = Some cs -> is_ack m = true -> msg_sender m = n -> lastVoteEpoch cs < msg_currentEpoch m ->
  NoDup (ballots (hist w ++ [(d, m)])).
Proof.
  intros Hw Hn Ha Hs He. rewrite ballots_app. unfold ballots at 2. rewrite filter_cons_True by (by cbn; rewrite Ha). cbn [fmap list_fmap fst snd].
  apply NoDup_app. split; [by apply wi_ballots with V|]. split; [|apply NoDup_singleton].
  intros x Hx ->%list_elem_of_singleton. unfold ballots in Hx. apply list_elem_of_fmap in Hx as ([d' m'] & Heq & Hx). apply list_elem_of_filter in Hx as [Hack Hx].
  pose proof (wi_hist V w Hw) as Hh. rewrite Forall_forall in Hh. specialize (Hh _ Hx). unfold packet_inv in Hh. cbn in *. injection Heq as Hs' He'.
  unfold is_ack in Hack. destruct (data m'); try done. destruct Hh as (_ & (v & Hv & Hle) & _). rewrite <- Hs', Hs, Hn in Hv. injection Hv as <-. lia.
Qed.

Lemma deliver_inv V w k e w' :
  world_inv V w -> exec w (Deliver k e) = Some w' -> regular V w (Deliver k e) w' -> (strict = true -> timely w (Deliver k e)) -> world_inv V w'.
Proof.
  intros Hw Hx [HV _] Ht. cbn [exec] in Hx. apply bind_Some in Hx as ([dst m] & Hk & Hx). apply bind_Some in Hx as (cs & Hcs & Hx).
  apply bind_Some in Hx as ([cs' eff] & Hp & Hx). injection Hx as <-. apply packet_cases in Hp as [Hg Ho].
  pose proof (wi_nodes V w Hw dst cs Hcs) as Hni. cbn [sts] in HV. specialize (HV dst cs cs' Hcs (lookup_insert_eq _ _ _)).
  assert ((dst, m) ∈ hist w) as Hin by (apply (wi_net V w Hw); by eapply list_elem_of_lookup_2).
  pose proof (wi_hist V w Hw) as Hh. rewrite Forall_forall in Hh. specialize (Hh _ Hin). unfold packet_inv in Hh. cbn [fst snd] in Hh.
  pose proof Hg as (G1 & G2 & G3 & G4 & G5).
  destruct Ho as [Hc Hv Hq|Hd Hc Hv He ->|Hd Hc Hv Hne Hle _ Hs].
  - apply (inv_step V w dst cs); try done; try lia; [apply delete_subseteq|intros; by eapply acks_deleted|
      |by apply quiet_packets|by apply quiet_ballots; [|apply wi_ballots with V]|intros ?; by apply wins_grow, wi_wins_ok].
    apply (node_inv_quiet w dst cs); try done. intros. by eapply acks_deleted.
  - rewrite Hd in Hh. destruct Hh as (_ & _ & (dc & Hdc & Hle)). rewrite Hcs in Hdc. injection Hdc as <-.
    change (sends []) with (@nil packet).
    apply (inv_step V w dst cs); try done; try lia; [apply delete_subseteq|intros; by eapply acks_deleted|..].
    + destruct Hni as [H1 H2 H3 H4 H5 H6]. split; cbn; try congruence; try lia; auto; [intros ?; rewrite G4; apply H5; congruence|]. intros Hst.
      pose proof (Ht Hst dst m cs Hk Hcs Hd) as Hsent. specialize (H5 Hsent). specialize (H6 Hst). rewrite Hsent in *. rewrite G3, G4, Hc, !app_nil_r, (acks_delete _ _ _ _ _ Hk). unfold ack_to. cbn [fst snd]. unfold is_ack. rewrite Hd, bool_decide_true by done.
      rewrite (proj2 (Z.eqb_eq _ _)) by lia. cbn. lia.
    + rewrite app_nil_r. by apply wi_ballots with V.
    + intros ?. rewrite app_nil_r. by apply wi_wins_ok.
  - rewrite Hd in Hh. destruct Hh as (c & Hcc & Hcle). pose proof (ni_vote _ _ _ Hni).
    assert (forall net' ps, (forall m ep, acks net' m ep <= acks (net w) m ep + acks ps m ep) ->
      node_inv (World (<[dst := cs']> (sts w)) net' (hist w ++ ps) (wins w)) dst cs') as Hni'.
    { intros net' ps Hps. destruct Hni as [H1 H2 H3 H4 H5 H6]. split; cbn; try congruence; try lia; auto.
      - intros ?. rewrite G4. apply H5. congruence.
      - intros Hst. specialize (H6 Hst). rewrite G3, G4, Hc. destruct (failover_auth_sent cs); [|done]. rewrite acks_app. specialize (Hps dst (failover_auth_epoch cs)). lia. }
    apply (inv_step V w dst cs); try done; try lia; [apply delete_subseteq|intros; by eapply acks_deleted|apply Hni'; intros; by eapply acks_deleted|
      | |intros ?; by apply wins_grow, wi_wins_ok].
    all: destruct Hs as [->|(ack & -> & Hda & Hea & Hsa)]; [rewrite ?app_nil_r; first [by apply List.Forall_nil|by apply wi_ballots with V]|].
    + apply Forall_singleton. unfold packet_inv. cbn [fst snd]. rewrite Hda, Hsa by apply (ni_names _ _ _ Hni). rewrite (ni_myself _ _ _ Hni).
      split; [apply HV; congruence|]. split; [exists cs'; rewrite lookup_insert_eq; split; [done|lia]|].
      destruct (decide (msg_sender m = dst)) as [Heq|Hneq].
      * rewrite Heq in *. rewrite Hcs in Hcc. injection Hcc as <-. exists cs'. rewrite lookup_insert_eq. split; [done|lia].
      * exists c. rewrite lookup_insert_ne by done. split; [done|lia].
    + apply (new_ballot V w dst cs); [done|done|unfold is_ack; by rewrite Hda|rewrite Hsa by apply (ni_names _ _ _ Hni); apply (ni_myself _ _ _ Hni)|lia].
Qed.

Lemma acks_sent l ps m ep : acks (l ++ ps) m ep <= acks l m ep + acks ps m ep.
Proof. rewrite acks_app. lia. Qed.

(** No vote for an election that has not been asked for *)
Lemma no_early_acks V w n cs ep : world_inv V w -> sts w !! n = Some cs -> failover_auth_epoch cs < ep -> acks (hist w) n ep = 0 /\ acks (net w) n ep = 0.
Proof.
  intros Hw Hn He. pose proof (wi_hist V w Hw) as Hh. rewrite Forall_forall in Hh.
  assert (forall p, p ∈ hist w -> ack_to n ep p = false) as Hno.
  { intros [d m] Hp. specialize (Hh _ Hp). unfold packet_inv in Hh. unfold ack_to, is_ack. cbn [fst snd] in *.
    destruct (data m); try by rewrite andb_false_r. case_bool_decide as Hd; [|done]. subst d. cbn. destruct Hh as (_ & _ & (c & Hc & Hle)).
    rewrite Hn in Hc. injection Hc as <-. apply Z.eqb_neq. lia. }
  split; apply acks_none, Forall_forall; intros p Hp; apply Hno; [done|]. by apply (wi_net V w Hw).
Qed.

Lemma request_packets V s n cs eff ep :
  Forall (fun '(_, m) => data m = TypeFailoverAuthRequest /\ msg_sender m = n /\ msg_currentEpoch m = ep) (sends eff) ->
  s !! n = Some cs -> ep <= failover_auth_epoch cs ->
  Forall (packet_inv V s) (sends eff) /\ (forall m e, acks (sends eff) m e = 0) /\ ballots (sends eff) = [].
Proof.
  intros Hf Hn He. split; [|split].
  - eapply Forall_impl; [exact Hf|]. intros [d m] (Hd & Hs & Hm). unfold packet_inv. cbn [fst snd]. rewrite Hd. exists cs. split; [by rewrite Hs|lia].
  - intros m e. apply acks_none. eapply Forall_impl; [exact Hf|]. intros [d m'] (Hd & _ & _). unfold ack_to, is_ack. cbn. rewrite Hd. by rewrite andb_false_r.
  - unfold ballots. assert (filter (fun p => is_ack p.2) (sends eff) = []) as ->; [|done].
    induction Hf as [|[d m] l (Hd & _) _ IH]; [done|]. rewrite filter_cons_False; [done|]. unfold is_ack. cbn. rewrite Hd. by intros [].
Qed.

Lemma failover_inv V w n e w' :
  world_inv V w -> exec w (Failover n e) = Some w' -> regular V w (Failover n e) w' -> world_inv V w'.
Proof.
  intros Hw Hx [_ HR]. cbn [exec] in Hx. apply bind_Some in Hx as (cs & Hcs & Hx). apply bind_Some in Hx as ([[cs' eff] won] & Hc & Hx).
  injection Hx as <-. apply cron_cases in Hc. destruct (HR cs Hcs) as [Hsize Hwrap].
  pose proof (wi_nodes V w Hw n cs Hcs) as Hni. pose proof (wi_wins_ok V w Hw) as Hww.
  destruct Hc as [Hc -> ->|Hc Hq ->|Hs [Hc Hf] ->|Hs Hct Hc Hq ->].
  - change (sends []) with (@nil packet). pose proof (calm_grows _ _ Hc) as Hg. destruct Hc.
    apply (inv_step V w n cs); try done; try lia; [intros; apply acks_sent| |rewrite app_nil_r; by apply wi_ballots with V|intros ?; by apply wins_grow, Hww].
    apply (node_inv_quiet w n cs); try done. intros. apply acks_sent.
  - destruct Hc as [C1 C2 C3 C4 C5 C6 C7]. cbn in *.
    apply (inv_step V w n cs); try done; try lia; [intros; apply acks_sent| |by apply quiet_packets|by apply quiet_ballots; [|apply wi_ballots with V]|intros ?; by apply wins_grow, Hww].
    destruct Hni as [H1 H2 H3 H4 H5 H6]. split; cbn; try congruence; try lia; [by apply C7|]. intros _. by rewrite C5.
  - pose proof (ni_epoch _ _ _ Hni). pose proof (ni_vote _ _ _ Hni). assert (u64 (currentEpoch cs + 1) = currentEpoch cs + 1) as Hu by (apply uN_small; lia).
    rewrite Hu in *. destruct Hc as [C1 C2 C3 C4 C5 C6 C7]. cbn in *.
    specialize (Hf (ni_names _ _ _ Hni)). rewrite (ni_myself _ _ _ Hni) in Hf.
    destruct (request_packets V (<[n := cs']> (sts w)) n cs' eff _ Hf (lookup_insert_eq _ _ _) ltac:(lia)) as (Hp & Ha & Hb).
    apply (inv_step V w n cs); try done; try lia; [intros; apply acks_sent| |rewrite ballots_app, Hb, app_nil_r; by apply wi_ballots with V|intros ?; by apply wins_grow, Hww].
    destruct (no_early_acks V w n cs (currentEpoch cs + 1) Hw Hcs ltac:(lia)) as [Hh0 Hn0].
    destruct Hni as [H1 H2 H3 H4 H5 H6]. split; cbn; try congruence; try lia; [by apply C7|].
    intros Hst. specialize (H6 Hst). rewrite C5, C6, !acks_app, Ha, Hh0, Hn0, C4. rewrite Hs in H6. lia.
  - pose proof (calm_grows _ _ Hc) as Hg. destruct Hc.
    apply (inv_step V w n cs); try done; try lia; [intros; apply acks_sent| |by apply quiet_packets|by apply quiet_ballots; [|apply wi_ballots with V]|].
    + apply (node_inv_quiet w n cs); try done. intros. apply acks_sent.
    + intros Hst. specialize (Hww Hst). apply Forall_app. split; [by apply wins_grow|]. apply Forall_singleton. unfold won_ok. rewrite acks_app.
      pose proof (ni_count _ _ _ Hni Hst) as Hcnt. rewrite Hs in Hcnt. rewrite Hsize in Hct. pose proof (acks_nonneg (net w) n (failover_auth_epoch cs)).
      pose proof (acks_nonneg (sends eff) n (failover_auth_epoch cs)). lia.
Qed.

Lemma other_inv V w n cs' w' :
  world_inv V w -> exec w (Other n cs') = Some w' -> regular V w (Other n cs') w' -> world_inv V w'.
Proof.
  intros Hw Hx [_ HR]. cbn [exec] in Hx. apply bind_Some in Hx as (cs & Hcs & Hx). injection Hx as <-. destruct (HR cs Hcs) as (Hg & Hc & Hv).
  pose proof Hg as (G1 & G2 & G3 & G4 & G5). rewrite <- (app_nil_r (net w)), <- (app_nil_r (hist w)).
  apply (inv_step V w n cs); try done; try lia; [intros; apply acks_sent| |rewrite app_nil_r; by apply wi_ballots with V|intros ?; by apply wins_grow, wi_wins_ok].
  apply (node_inv_quiet w n cs); try done; [by apply (wi_nodes V w Hw)|]. intros. apply acks_sent.
Qed.

Lemma lose_inv V w k : world_inv V w -> world_inv V (World (sts w) (delete k (net w)) (hist w) (wins w)).
Proof.
  intros []. split; cbn; try done.
  - intros n cs Hcs. destruct (wi_nodes0 n cs Hcs) as [H1 H2 H3 H4 H5 H6]. split; try done. cbn. intros Hst. specialize (H6 Hst). destruct (failover_auth_sent cs); [|done].
    destruct (net w !! k) as [p|] eqn:Hk; [rewrite (acks_delete _ _ _ _ _ Hk); pose proof (b2z_bound (ack_to n (failover_auth_epoch cs) p)); lia|].
    apply lookup_ge_None in Hk. by rewrite delete_take_drop, take_ge, drop_ge, app_nil_r by lia.
  - intros p Hp. apply wi_net0. eapply elem_of_submseteq; [done|apply submseteq_delete].
Qed.

Lemma initial_inv V w : initial w -> world_inv V w.
Proof.
  intros (Hn & Hh & Hwin & Hs). split.
  - intros n cs Hcs. destruct (Hs n cs Hcs) as (? & ? & ? & ? & Hsent & ?). split; try done; rewrite Hsent; done.
  - rewrite Hh. constructor.
  - rewrite Hn. set_solver.
  - rewrite Hh. constructor.
  - intros _. rewrite Hwin. constructor.
Qed.

Lemma reachable_inv V w0 w :
  initial w0 -> reachable (fun w a w' => regular V w a w' /\ (strict = true -> timely w a)) w0 w -> world_inv V w.
Proof.
  intros Hi Hr. induction Hr as [|w a w' _ IH Hx [HR HT]]; [by apply initial_inv|]. destruct a as [k e|k|n e|n cs'].
  - by eapply deliver_inv.
  - cbn in Hx. injection Hx as <-. by apply lose_inv.
  - by eapply failover_inv.
  - by eapply other_inv.
Qed.

End Invariant.

(** ** Safety *)

(** Who voted in an epoch *)
Definition voters (h : list packet) (ep : Z) : gset nodename := list_to_set (fst <$> filter (fun b => b.2 = ep) (ballots h)).

Lemma elem_of_voters h ep v : v ∈ voters h ep <-> (v, ep) ∈ ballots h.
Proof.
  unfold voters. rewrite elem_of_list_to_set, list_elem_of_fmap. split.
  - intros ([v' ep'] & -> & Hf). apply list_elem_of_filter in Hf as [<- ?]. done.
  - intros Hb. exists (v, ep). split; [done|]. by apply list_elem_of_filter.
Qed.

Lemma acks_cons p l n ep : acks (p :: l) n ep = b2z (ack_to n ep p) + acks l n ep.
Proof.
  unfold acks. destruct (ack_to n ep p) eqn:E; [rewrite filter_cons_True by (by rewrite E); cbn [b2z]; zlia|].
  rewrite filter_cons_False; [cbn; lia|]. rewrite E. by intros [].
Qed.
Lemma ballots_cons p l : ballots (p :: l) = if is_ack p.2 then (msg_sender p.2, msg_currentEpoch p.2) :: ballots l else ballots l.
Proof.
  unfold ballots. destruct (is_ack p.2) eqn:E; [by rewrite filter_cons_True by (by rewrite E)|].
  rewrite filter_cons_False; [done|]. rewrite E. by intros [].
Qed.

(** Two candidates share the ballots of an epoch. *)
Lemma shared_ballots h n1 n2 ep : NoDup (ballots h) -> n1 <> n2 -> acks h n1 ep + acks h n2 ep <= Z.of_nat (base.size (voters h ep)).
Proof.
  intros Hb Hne. induction h as [|p h IH]; [done|]. rewrite !acks_cons. rewrite ballots_cons in Hb.
  destruct (is_ack p.2) eqn:Ea.
  - apply NoDup_cons in Hb as [Hnew Hb]. specialize (IH Hb). destruct (decide (msg_currentEpoch p.2 = ep)) as [He|He].
    + assert (voters (p :: h) ep = {[msg_sender p.2]} ∪ voters h ep) as ->.
      { apply set_eq. intros v. rewrite elem_of_union, elem_of_singleton, !elem_of_voters, ballots_cons, Ea, elem_of_cons, He. naive_solver. }
      rewrite size_union by (apply disjoint_singleton_l; rewrite elem_of_voters, <- He; done). rewrite size_singleton.
      unfold ack_to. rewrite Ea, He, Z.eqb_refl, !andb_true_r. do 2 case_bool_decide; cbn; try congruence; lia.
    + assert (voters (p :: h) ep = voters h ep) as ->.
      { apply set_eq. intros v. rewrite !elem_of_voters, ballots_cons, Ea, elem_of_cons. naive_solver. }
      unfold ack_to. rewrite (proj2 (Z.eqb_neq _ _) He), !andb_false_r. cbn. lia.
  - specialize (IH Hb). assert (voters (p :: h) ep = voters h ep) as ->.
    { apply set_eq. intros v. by rewrite !elem_of_voters, ballots_cons, Ea. }
    unfold ack_to. rewrite Ea, !andb_false_r. cbn. lia.
Qed.

Lemma voters_members strict V w ep : world_inv strict V w -> voters (hist w) ep ⊆ V.
Proof.
  intros Hw v. rewrite elem_of_voters. unfold ballots. rewrite list_elem_of_fmap. intros ([d m] & Heq & Hf). apply list_elem_of_filter in Hf as [Ha Hin].
  pose proof (wi_hist strict V w Hw) as Hh. rewrite Forall_forall in Hh. specialize (Hh _ Hin). unfold packet_inv in Hh. unfold is_ack in Ha. cbn in *.
  destruct (data m); try done. injection Heq as -> _. by destruct Hh.
Qed.

Lemma reachable_weaken (P Q : world -> action -> world -> Prop) w0 w : (forall w a w', P w a w' -> Q w a w') -> reachable P w0 w -> reachable Q w0 w.
Proof. intros HPQ. induction 1; [constructor|]. econstructor; eauto. Qed.

(** C2. At most one replica is elected in an epoch: however requests and votes are delayed, reordered or
    lost, whenever the nodes run their failover handlers and whatever else they do, if the votes are cast by
    the masters [V] that the candidates count and a vote never arrives between two elections of the same
    replica, then two different nodes are never both elected in the same epoch. *)
Theorem election_safety V w0 w n1 n2 ep :
  initial w0 -> reachable (fun w a w' => regular V w a w' /\ timely w a) w0 w ->
  (n1, ep) ∈ wins w -> (n2, ep) ∈ wins w -> n1 = n2.
Proof.
  intros Hi Hr H1 H2. assert (world_inv true V w) as Hw.
  { apply (reachable_inv true V w0 w Hi). eapply reachable_weaken; [|done]. naive_solver. }
  destruct (decide (n1 = n2)) as [?|Hne]; [done|exfalso].
  pose proof (wi_wins true V w Hw eq_refl) as Hwin. rewrite Forall_forall in Hwin. pose proof (Hwin _ H1) as Q1. pose proof (Hwin _ H2) as Q2. cbn in Q1, Q2.
  pose proof (shared_ballots (hist w) n1 n2 ep (wi_ballots true V w Hw) Hne) as Hs.
  pose proof (subseteq_size _ _ (voters_members true V w ep Hw)) as Hle.
  pose proof (Z.div_mod (Z.of_nat (base.size V)) 2 ltac:(lia)). pose proof (Z.mod_pos_bound (Z.of_nat (base.size V)) 2 ltac:(lia)). lia.
Qed.

(** A master votes at most once in an epoch: in every run, whatever is delivered when and to whom, no two
    votes of the same node have the same epoch. *)
Theorem vote_once V w0 w : initial w0 -> reachable (regular V) w0 w -> NoDup (ballots (hist w)).
Proof.
  intros Hi Hr. apply (wi_ballots false V w). apply (reachable_inv false V w0 w Hi). eapply reachable_weaken; [|done]. naive_solver.
Qed.
