(* ===== verification/ClusterRun.v ===== *)
(** * Elections: runs

    A cluster of three masters, one of which has failed and has two replicas, and the steps of
    the theorems on elections there: a run in which a replica is elected, and one in which
    votes that come too late elect a second replica in the same epoch. *)

From Stdlib Require Import ZArith Lia Sorted.
From stdpp Require Import base numbers option gmap list.
From S2P Require Import Prelude Memory Bits Cluster ClusterFacts ClusterRoles ClusterSafe ClusterSpec ClusterElection.

Local Open Scope Z_scope.
Local Open Scope redis_scope.

(** ** The cluster *)

Definition A : nodename := [65].
Definition B : nodename := [66].
Definition C : nodename := [67].
Definition D : nodename := [68].
Definition E : nodename := [69].

(** A bitmap with slots below 8 only *)
Definition bm (b : Z) : bytes := b :: replicate 2047 0.

Definition node_of (me x : nodename) : clusterNode :=
  let flag := if decide (x = me) then CLUSTER_NODE_MYSELF else 0 in
  if decide (x = D \/ x = E) then ClusterNode x (Z.lor CLUSTER_NODE_SLAVE flag) 0 (bm 0) 0 [] (Some C) 0 0 0 0 0 true
  else if decide (x = C) then ClusterNode x (Z.lor CLUSTER_NODE_MASTER CLUSTER_NODE_FAIL) 10 (bm 4) 1 [D; E] None 0 0 0 0 0 false
  else ClusterNode x (Z.lor CLUSTER_NODE_MASTER flag) 10 (bm (if decide (x = A) then 1 else 2)) 1 [] None 0 0 0 0 0 true.

Definition table (me : nodename) : gmap nodename clusterNode := list_to_map (map (fun x => (x, node_of me x)) [A; B; C; D; E]).
Definition owners : gmap Z nodename := list_to_map [(0, A); (1, B); (2, C)].
Definition start (me : nodename) : clusterState :=
  ClusterState me 10 CLUSTER_OK 3 (table me) ∅ ∅ owners ∅ 0 0 false 0 0 0 0 None 0 false 0 0 0 0.
Definition at_ (t : Z) : env := Env (fun _ => t) 1000 false 0 false false 10 0 0 0 0.
Definition V : gset nodename := {[A; B; C]}.

(** ** It is well formed. *)

Lemma load_bm b i : 0 <= i < CLUSTER_SLOTS / 8 -> load1 (bm b) i = Some (if decide (i = 0) then b else 0).
Proof.
  intros Hi. unfold load1. rewrite decide_True by lia. unfold bm. destruct (decide (i = 0)) as [->|Hne]; [done|].
  replace (Z.to_nat i) with (S (Z.to_nat (i - 1))) by lia. cbn [lookup list_lookup]. apply lookup_replicate_2. unfold CLUSTER_SLOTS in Hi. change (16384 / 8) with 2048 in Hi. lia.
Qed.

Lemma test_bm b j : slot_ok j -> bitmapTestBit (bm b) j = Some (bool_decide (j < 8) && Z.testbit b j).
Proof.
  intros Hj. destruct (slot_byte j Hj) as (Hi & Hk & Ej). rewrite (test_bit _ _ _ (load_bm b (j / 8) Hi) Hj). destruct (decide (j / 8 = 0)) as [H0|H0].
  - rewrite bool_decide_true by lia. cbn [andb]. do 2 f_equal. lia.
  - rewrite bool_decide_false by lia. by rewrite Z.bits_0.
Qed.

Lemma bm_ok b : byte_ok b -> bitmap_ok (bm b).
Proof.
  intros Hb. split; [unfold bm; rewrite zlen_cons, zlen_replicate; done|]. constructor; [done|]. apply Forall_replicate. unfold byte_ok. lia.
Qed.

Lemma in_table me x n : table me !! x = Some n -> x ∈ [A; B; C; D; E] /\ n = node_of me x.
Proof.
  intros Hx. apply elem_of_list_to_map_2 in Hx. apply list_elem_of_fmap in Hx as (y & [= -> ->] & Hy). done.
Qed.
Lemma in_owners j x : owners !! j = Some x -> j = 0 /\ x = A \/ j = 1 /\ x = B \/ j = 2 /\ x = C.
Proof. intros Hx. apply elem_of_list_to_map_2 in Hx. rewrite !elem_of_cons in Hx. set_solver. Qed.

Ltac names H := rewrite ?elem_of_cons in H; repeat (destruct H as [->|H]); [..|by apply not_elem_of_nil in H].

Lemma start_slots me : slots_on (table me) owners.
Proof.
  split.
  - intros x n [Hx ->]%in_table. unfold node_of. repeat case_decide; apply bm_ok; done.
  - intros x n j [Hx ->]%in_table Hj. assert (slots (node_of me x) = bm (if decide (x = A) then 1 else if decide (x = B) then 2 else if decide (x = C) then 4 else 0)) as ->.
    { names Hx; reflexivity. }
    rewrite test_bm by done. f_equal. destruct (decide (j = 0 \/ j = 1 \/ j = 2)) as [Hs|Hs].
    + destruct Hs as [->|[->| ->]]; names Hx; reflexivity.
    + rewrite (bool_decide_false (owners !! j = Some x)) by (intros Ho; apply in_owners in Ho; lia).
      apply andb_false_iff. destruct (decide (j < 8)) as [Hl|Hl]; [right|left; by apply bool_decide_false].
      assert (j = 3 \/ j = 4 \/ j = 5 \/ j = 6 \/ j = 7) as Hs' by (unfold slot_ok in Hj; lia). names Hx; by destruct Hs' as [->|[->|[->|[->| ->]]]].
  - intros j x [[-> ->]|[[-> ->]|[-> ->]]]%in_owners; (split; [done|by eexists]).
  - intros x n [Hx ->]%in_table. names Hx; reflexivity.
Qed.

Lemma node_slaveof me x m : slaveof (node_of me x) = Some m -> x ∈ [D; E] /\ m = C.
Proof. unfold node_of. repeat case_decide; cbn; try done; intros [= <-]; set_solver. Qed.
Lemma node_slaves me x : slaves (node_of me x) = if decide (x = C) then [D; E] else [].
Proof. unfold node_of. destruct (decide (x = C)) as [->|Hne]; [reflexivity|]. repeat case_decide; done. Qed.

Lemma start_roles me : me ∈ [A; B; D; E] -> roles_on me (place <$> table me).
Proof.
  intros Hme.
  assert (forall x q, (place <$> table me) !! x = Some q -> x ∈ [A; B; C; D; E] /\ q = place (node_of me x)) as Hin.
  { intros x q Hq. rewrite lookup_fmap in Hq. destruct (table me !! x) as [n|] eqn:Hn; [|done]. injection Hq as <-. by apply in_table in Hn as [? ->]. }
  assert (forall x, x ∈ [A; B; C; D; E] -> (place <$> table me) !! x = Some (place (node_of me x))) as Hlook.
  { intros x Hx. names Hx; names Hme; reflexivity. }
  split.
  - intros x q [Hx ->]%Hin. names Hx; reflexivity.
  - exists (place (node_of me me)). rewrite Hlook by (names Hme; set_solver). split; [done|]. names Hme; done.
  - intros x q [Hx ->]%Hin. names Hx; names Hme; done.
  - intros x q m [Hx ->]%Hin Hm. destruct (node_slaveof _ _ _ Hm) as [_ ->]. rewrite Hlook by set_solver. by eexists.
  - intros m q x [Hm ->]%Hin. change (p_slaves (place (node_of me m))) with (slaves (node_of me m)). rewrite node_slaves. split.
    + case_decide as Hc; [subst m|by intros ?%not_elem_of_nil]. intros Hx.
      exists (place (node_of me x)). rewrite Hlook by (names Hx; set_solver). split; [done|]. names Hx; reflexivity.
    + intros (s & [Hx ->]%Hin & Hs). destruct (node_slaveof _ _ _ Hs) as [Hx' ->]. by rewrite decide_True.
  - intros m q [Hm ->]%Hin. change (p_slaves (place (node_of me m))) with (slaves (node_of me m)). rewrite node_slaves. case_decide; [|apply NoDup_nil_2].
    apply (bool_decide_unpack _). reflexivity.
Qed.

Lemma start_wf me : me ∈ [A; B; D; E] -> wf (start me).
Proof.
  intros Hme. split; [by apply start_roles|apply start_slots|]. intros j x q Hj Hx. cbn in Hj. apply in_owners in Hj.
  cbn [nodes start] in Hx. rewrite lookup_fmap in Hx. destruct (table me !! x) as [n|] eqn:Hn; [|done]. injection Hx as <-. apply in_table in Hn as [_ ->].
  destruct Hj as [[_ ->]|[[_ ->]|[_ ->]]]; names Hme; reflexivity.
Qed.

(** ** Steps *)

(** The handlers as functions on the states of the runs *)
Definition cron (t : Z) (cs : clusterState) : clusterState :=
  match clusterHandleSlaveFailover (at_ t) cs with Some (c, _, _) => c | None => cs end.
Definition cron_eff (t : Z) (cs : clusterState) : list effect :=
  match clusterHandleSlaveFailover (at_ t) cs with Some (_, eff, _) => eff | None => [] end.
Definition recv (t : Z) (m : clusterMsg) (cs : clusterState) : clusterState :=
  match process_packet (at_ t) m cs with Some (c, _) => c | None => cs end.
Definition hdr (t : Z) (m : clusterMsg) (cs : clusterState) : clusterState := default cs (packet_header (at_ t) m cs).
(** A vote for a replica of [C] *)
Definition granted (t : Z) (m : clusterMsg) (cs : clusterState) : clusterState :=
  let cs := hdr t m cs in
  clusterDoBeforeSleep (Z.lor CLUSTER_TODO_SAVE_CONFIG CLUSTER_TODO_FSYNC_CONFIG)
    (set_nodes (alter (set_voted_time t) C (nodes cs)) (set_lastVoteEpoch (currentEpoch cs) cs)).
Definition ack (t : Z) (m : clusterMsg) (cs : clusterState) : clusterMsg := default m (clusterBuildMessageHdr (at_ t) (granted t m cs) TypeFailoverAuthAck).

Lemma cron_eq t cs won :
  match clusterHandleSlaveFailover (at_ t) cs with Some (_, _, w) => Some w | None => None end = Some won ->
  clusterHandleSlaveFailover (at_ t) cs = Some (cron t cs, cron_eff t cs, won).
Proof. unfold cron, cron_eff. destruct (clusterHandleSlaveFailover (at_ t) cs) as [[[c eff] w]|]; [|done]. by intros [= ->]. Qed.

Lemma recv_eq t m cs :
  match process_packet (at_ t) m cs with Some (_, eff) => Some (length eff) | None => None end = Some 0%nat ->
  process_packet (at_ t) m cs = Some (recv t m cs, []).
Proof. unfold recv. destruct (process_packet (at_ t) m cs) as [[c [|]]|]; done. Qed.

(** What a master checks before it votes for a replica of [C], less the slots *)
Definition votes_for (t : Z) (m : clusterMsg) (cs : clusterState) : bool :=
  match nodes cs !! msg_sender m, nodes cs !! myself cs, nodes cs !! C with
  | Some node, Some me, Some master =>
      negb (nodeIsSlave me || (numslots me =? 0)) && negb (msg_currentEpoch m <? currentEpoch cs) && negb (lastVoteEpoch cs =? currentEpoch cs) &&
      negb (nodeIsMaster node) && bool_decide (slaveof node = Some C) && nodeFailed master && negb (t - voted_time master <? 2000) && link node
  | _, _, _ => false
  end.

Lemma claim_current cs claimed ep :
  slots_on (nodes cs) (cslots cs) -> bitmap_ok claimed -> (forall j o n, cslots cs !! j = Some o -> nodes cs !! o = Some n -> configEpoch n <= ep) ->
  claim_outdated cs claimed ep = Some false.
Proof.
  intros Hs Hc He. destruct (claim_outdated_ok cs claimed ep Hs Hc) as ([|] & -> & Hb); [|done].
  destruct (proj1 Hb eq_refl) as (j & o & n & _ & _ & Ho & Hn & Hlt). specialize (He j o n Ho Hn). lia.
Qed.

Lemma vote_eq t m cs :
  wf cs -> msg_ok m -> data m = TypeFailoverAuthRequest -> msg_sender m <> C -> votes_for t m (hdr t m cs) = true ->
  (forall j o n, cslots (hdr t m cs) !! j = Some o -> nodes (hdr t m cs) !! o = Some n -> configEpoch n <= msg_configEpoch m) ->
  process_packet (at_ t) m cs = Some (granted t m cs, [SendMessage (msg_sender m) (ack t m cs)]).
Proof.
  intros Hw Hm Hd Hx Hv He. destruct (header_ok (at_ t) m cs Hw) as (cs1 & Hh & Hw1 & _).
  assert (hdr t m cs = cs1) as Eh by (unfold hdr; by rewrite Hh). unfold ack, granted. rewrite Eh in *. unfold process_packet, process_fail, process_auth_ack, process_mfstart, process_update. rewrite Hh. bindstep. clear Eh Hh.
  unfold votes_for in Hv. destruct (nodes cs1 !! msg_sender m) as [node|] eqn:En; [|done]. destruct (nodes cs1 !! myself cs1) as [me|] eqn:Eme; [|done].
  destruct (nodes cs1 !! C) as [master|] eqn:Ec; [|done]. rewrite Hd. unfold clusterSendFailoverAuthIfNeeded. rewrite En, Eme. do 2 bindstep.
  rewrite !andb_true_iff, !negb_true_iff, bool_decide_eq_true in Hv. destruct Hv as (((((((-> & ->) & ->) & ->) & ->) & Hf) & Hvt) & Hl). rewrite Ec. bindstep.
  rewrite Hf. cbn [negb andb]. change (cluster_node_timeout (at_ t) * 2) with 2000. change (mstime (at_ t) 0) with t. rewrite Hvt.
  rewrite (claim_current cs1 _ _ (wf_slots _ Hw1) ltac:(by destruct Hm) He). bindstep. change (mstime (at_ t) 1) with t.
  destruct (wf_upd C (set_voted_time t) (set_lastVoteEpoch (currentEpoch cs1) cs1)) as (ns & Hu & Hw2 & _); [by apply (wf_same cs1)|by exists master|done..|].
  erewrite upd_node_some in * by exact Ec. injection Hu as <-. bindstep.
  replace (alter (set_voted_time t) C (nodes cs1)) with (<[C := set_voted_time t master]> (nodes cs1)).
  2: { apply map_eq. intros y. destruct (decide (y = C)) as [->|Hy]; [by rewrite lookup_insert_eq, lookup_alter_eq, Ec|by rewrite lookup_insert_ne, lookup_alter_ne]. }
  change (nodes (set_lastVoteEpoch _ cs1)) with (nodes cs1) in *.
  set (cs2 := set_nodes (<[C := set_voted_time t master]> (nodes cs1)) _) in *.
  set (cs3 := clusterDoBeforeSleep _ cs2). unfold clusterSendFailoverAuth.
  assert (nodes cs3 !! msg_sender m = Some node) as -> by (change (nodes cs3) with (<[C := set_voted_time t master]> (nodes cs1)); by rewrite lookup_insert_ne).
  bindstep. rewrite Hl. cbn [negb]. destruct (buildHdr_ok (at_ t) cs3 TypeFailoverAuthAck) as (a & -> & _); [by apply (wf_same cs2)|]. done.
Qed.

Lemma cron_wf t cs : wf cs -> wf (cron t cs).
Proof. intros Hw. unfold cron. by destruct (handleSlaveFailover_ok (at_ t) cs Hw) as (c & eff & won & -> & ? & _). Qed.
Lemma recv_wf t m cs : wf cs -> msg_ok m -> wf (recv t m cs).
Proof. intros Hw Hm. unfold recv. by destruct (processPacket_ok (at_ t) m cs Hw Hm) as (c & eff & -> & ? & _). Qed.

(** The two kinds of run: with or without votes between two elections *)
Definition allowed (strict : bool) (w : world) (a : action) (w' : world) : Prop := regular V w a w' /\ (strict = true -> timely w a).

Definition quad (a b d e : clusterState) : gmap nodename clusterState := list_to_map [(A, a); (B, b); (D, d); (E, e)].
Definition w0 : world := World (quad (start A) (start B) (start D) (start E)) [] [] [].

(** The states of the nodes, the packets under way and the elections won can be reached. *)
Definition reaches (strict : bool) (a b d e : clusterState) (net : list packet) (wins : list (nodename * Z)) : Prop :=
  exists h, reachable (allowed strict) w0 (World (quad a b d e) net h wins).

Lemma quad_A a b d e a' : <[A := a']> (quad a b d e) = quad a' b d e.
Proof. apply insert_insert_eq. Qed.
Lemma quad_B a b d e b' : <[B := b']> (quad a b d e) = quad a b' d e.
Proof. unfold quad. cbn [list_to_map foldr]. rewrite insert_insert_ne by done. by rewrite insert_insert_eq. Qed.
Lemma quad_D a b d e d' : <[D := d']> (quad a b d e) = quad a b d' e.
Proof. unfold quad. cbn [list_to_map foldr]. do 2 rewrite (insert_insert_ne _ D) by done. by rewrite insert_insert_eq. Qed.
Lemma quad_E a b d e e' : <[E := e']> (quad a b d e) = quad a b d e'.
Proof. unfold quad. cbn [list_to_map foldr]. do 3 rewrite (insert_insert_ne _ E) by done. by rewrite insert_insert_eq. Qed.

Lemma step_deliver strict ss net h wins k e dst m cs cs' eff :
  reachable (allowed strict) w0 (World ss net h wins) -> net !! k = Some (dst, m) -> ss !! dst = Some cs ->
  process_packet e m cs = Some (cs', eff) -> (lastVoteEpoch cs' = lastVoteEpoch cs \/ dst ∈ V) ->
  (data m = TypeFailoverAuthAck -> strict = true -> failover_auth_sent cs = true) ->
  reachable (allowed strict) w0 (World (<[dst := cs']> ss) (delete k net ++ sends eff) (h ++ sends eff) wins).
Proof.
  intros Hr Hk Hs Hp Hv Ht. eapply (reach_step _ _ _ (Deliver k e)); [exact Hr|cbn; rewrite Hk; cbn; rewrite Hs; cbn; by rewrite Hp|]. split.
  - split; [|done]. intros n c c' Hc Hc' Hne. cbn in *. destruct (decide (n = dst)) as [->|Hn]; [|rewrite lookup_insert_ne in Hc' by done; congruence].
    rewrite lookup_insert_eq in Hc'. simplify_eq. by destruct Hv.
  - intros Hst. cbn. intros dst' m' c Hk' Hc Hd. simplify_eq. by apply Ht.
Qed.

Lemma step_failover strict ss net h wins e n cs cs' eff won :
  reachable (allowed strict) w0 (World ss net h wins) -> ss !! n = Some cs -> clusterHandleSlaveFailover e cs = Some (cs', eff, won) ->
  lastVoteEpoch cs' = lastVoteEpoch cs -> size cs = 3 -> currentEpoch cs < 2 ^ 64 - 1 ->
  reachable (allowed strict) w0 (World (<[n := cs']> ss) (net ++ sends eff) (h ++ sends eff) (if won then wins ++ [(n, failover_auth_epoch cs)] else wins)).
Proof.
  intros Hr Hs Hp Hv Hsz He. eapply (reach_step _ _ _ (Failover n e)); [exact Hr|cbn; rewrite Hs; cbn; by rewrite Hp|]. split; [|done].
  split.
  - intros x c c' Hc Hc' Hne. cbn in *. destruct (decide (x = n)) as [->|Hn]; [|rewrite lookup_insert_ne in Hc' by done; congruence].
    rewrite lookup_insert_eq in Hc'. simplify_eq.
  - intros c Hc. cbn in Hc. simplify_eq. split; [by rewrite Hsz|done].
Qed.

(** The failover handler never votes. *)
Lemma failover_vote e cs cs' eff won : clusterHandleSlaveFailover e cs = Some (cs', eff, won) -> lastVoteEpoch cs' = lastVoteEpoch cs.
Proof. intros Hc%cron_cases. destruct Hc as [[] _ _|[] _ _|_ [[] _] _|_ _ [] _ _]; cbn in *; congruence. Qed.

Lemma go_cron strict a b d e net wins x cs t won cs' ps :
  reaches strict a b d e net wins -> quad a b d e !! x = Some cs -> cs' = cron t cs -> ps = sends (cron_eff t cs) ->
  match clusterHandleSlaveFailover (at_ t) cs with Some (_, _, w) => Some w | None => None end = Some won -> size cs = 3 -> (currentEpoch cs <=? 12) = true ->
  exists h, reachable (allowed strict) w0 (World (<[x := cs']> (quad a b d e)) (net ++ ps) h (if won then wins ++ [(x, failover_auth_epoch cs)] else wins)).
Proof.
  intros [h Hr] Hx -> -> Hc Hs He. apply cron_eq in Hc. eexists. eapply step_failover; [exact Hr|exact Hx|exact Hc|by eapply failover_vote|done|lia].
Qed.

Lemma go_vote strict a b d e net wins k x y m cs t cs' m' :
  reaches strict a b d e net wins -> net !! k = Some (x, m) -> quad a b d e !! x = Some cs -> cs' = granted t m cs -> m' = ack t m cs -> x ∈ V -> data m = TypeFailoverAuthRequest ->
  process_packet (at_ t) m cs = Some (granted t m cs, [SendMessage y (ack t m cs)]) ->
  exists h, reachable (allowed strict) w0 (World (<[x := cs']> (quad a b d e)) (delete k net ++ [(y, m')]) h wins).
Proof.
  intros [h Hr] Hk Hx -> -> HV Hd Hp. eexists. exact (step_deliver strict _ _ _ _ k (at_ t) x m cs _ _ Hr Hk Hx Hp (or_intror HV) ltac:(by rewrite Hd)).
Qed.

Lemma go_recv strict a b d e net wins k x m cs t cs' :
  reaches strict a b d e net wins -> net !! k = Some (x, m) -> quad a b d e !! x = Some cs -> cs' = recv t m cs ->
  match process_packet (at_ t) m cs with Some (_, eff) => Some (length eff) | None => None end = Some 0%nat ->
  lastVoteEpoch (recv t m cs) = 0 -> lastVoteEpoch cs = 0 -> (strict = true -> failover_auth_sent cs = true) ->
  exists h, reachable (allowed strict) w0 (World (<[x := cs']> (quad a b d e)) (delete k net) h wins).
Proof.
  intros [h Hr] Hk Hx -> Hp%recv_eq Hv Hv' Hs. eexists. rewrite <- (app_nil_r (delete k net)).
  exact (step_deliver strict _ _ _ _ k (at_ t) x m cs _ _ Hr Hk Hx Hp (or_introl (eq_trans Hv (eq_sym Hv'))) ltac:(done)).
Qed.

(** ** Evaluation *)

(** A value that is known by its equation only *)
Lemma seal {T} (x : T) : { y : T | y = x }.
Proof. by exists x. Qed.
Definition sealed {T} (x : T) : T := proj1_sig (seal x).
Lemma sealed_eq {T} (x : T) : sealed x = x.
Proof. exact (proj2_sig (seal x)). Qed.

Ltac evaluate := rewrite ?sealed_eq; lazymatch goal with |- ?x = ?y => exact (eq_refl y <: x = y) end.

(** The messages of a list of packets, by their places *)
Definition no_msg : clusterMsg := ClusterMsg TypePong [] 0 0 0 [] None 0 0.
Definition nth_msg (k : nat) (l : list packet) : clusterMsg := match l !! k with Some (_, m) => m | None => no_msg end.
Lemma packets1 l x : fst <$> l = [x] -> l = [(x, nth_msg 0 l)].
Proof. by destruct l as [|[] [|]]; intros [=]; subst. Qed.
Lemma packets3 l x y z : fst <$> l = [x; y; z] -> l = [(x, nth_msg 0 l); (y, nth_msg 1 l); (z, nth_msg 2 l)].
Proof. by destruct l as [|[] [|[] [|[] [|]]]]; intros [=]; subst. Qed.

Lemma cron_msgs t cs : wf cs -> Forall (fun p => msg_ok p.2) (sends (cron_eff t cs)).
Proof. intros Hw. unfold cron_eff. by destruct (handleSlaveFailover_ok (at_ t) cs Hw) as (c & eff & won & -> & _ & ?). Qed.
Lemma nth_msg_ok k l : Forall (fun p => msg_ok p.2) l -> (k < length l)%nat -> msg_ok (nth_msg k l).
Proof. intros Hf Hk. unfold nth_msg. destruct (lookup_lt_is_Some_2 l k Hk) as [[x m] E]. rewrite E. by apply (Forall_lookup_1 _ _ _ _ Hf) in E. Qed.

(** A request of a replica of [C] *)
Definition request_of (x : nodename) (m : clusterMsg) : Prop := (data m, msg_sender m, msg_configEpoch m) = (TypeFailoverAuthRequest, x, 10).

(** The configuration epochs of the owners of the slots, in a state whose slots are [owners] *)
Definition epochs_of (cs : clusterState) : option Z * option Z * option Z := (configEpoch <$> nodes cs !! A, configEpoch <$> nodes cs !! B, configEpoch <$> nodes cs !! C).

Lemma packet_slots e m cs cs' : packet_header e m cs = Some cs' -> cslots cs' = cslots cs.
Proof.
  unfold packet_header, upd_node. intros Hr. destruct (nodes cs !! msg_sender m) as [s|]; [|by simplify_eq].
  apply bind_Some in Hr as (c1 & H1 & Hr). assert (cslots c1 = cslots cs) as E1 by (binds; done). clear H1. destruct (nodeInHandshake s); [by simplify_eq|].
  apply bind_Some in Hr as (c2 & H2 & Hr). assert (cslots c2 = cslots cs) as E2. { clear Hr. destruct (msg_currentEpoch m >? currentEpoch c1); binds; done. }
  clear H2. apply bind_Some in Hr as (c3 & H3 & Hr). assert (cslots c3 = cslots cs) as E3 by (clear Hr; binds; done). clear H3. binds; done.
Qed.

Lemma voter_eq t m cs x :
  wf cs -> cslots cs = owners -> msg_ok m -> request_of x m -> x <> C -> votes_for t m (hdr t m cs) = true -> epochs_of (hdr t m cs) = (Some 10, Some 10, Some 10) ->
  process_packet (at_ t) m cs = Some (granted t m cs, [SendMessage x (ack t m cs)]).
Proof.
  intros Hw Ho Hm [= Hd Hs Hc] Hx Hv He. rewrite <- Hs. apply vote_eq; [done|done|done|by rewrite Hs|done|].
  intros j o n Hj Hn. rewrite Hc. assert (cslots (hdr t m cs) = owners) as Eo.
  { unfold hdr. destruct (packet_header (at_ t) m cs) as [c|] eqn:Eh; [|done]. cbn [default]. apply packet_slots in Eh. unfold id. congruence. }
  rewrite Eo in Hj. apply in_owners in Hj. injection He as HA HB HC.
  destruct Hj as [[_ ->]|[[_ ->]|[_ ->]]]; [rewrite Hn in HA|rewrite Hn in HB|rewrite Hn in HC]; cbn in *; simplify_eq; lia.
Qed.

Lemma voted_wf t m cs y : wf cs -> msg_ok m -> process_packet (at_ t) m cs = Some (granted t m cs, [SendMessage y (ack t m cs)]) ->
  wf (granted t m cs) /\ msg_ok (ack t m cs).
Proof.
  intros Hw Hm Hp. destruct (processPacket_ok (at_ t) m cs Hw Hm) as (c & eff & Hp' & Hw' & Hf). rewrite Hp in Hp'. injection Hp' as <- <-.
  apply Forall_inv in Hf. done.
Qed.

(** What a replica checks before it takes over *)
Definition wins_now (t : Z) (cs : clusterState) : bool :=
  match nodes cs !! myself cs with
  | Some me => match slaveof me with
               | Some m => match nodes cs !! m with
                           | Some master => negb (nodeIsMaster me) && nodeFailed master && negb (numslots master =? 0) &&
                               negb (t - failover_auth_time cs >? 2000) && failover_auth_sent cs && negb (t <? failover_auth_time cs) &&
                               (failover_auth_count cs >=? size cs / 2 + 1)
                           | None => false
                           end
               | None => false
               end
  | None => false
  end.

Lemma win_eq t cs : wf cs -> wins_now t cs = true ->
  match clusterHandleSlaveFailover (at_ t) cs with Some (_, _, w) => Some w | None => None end = Some true.
Proof.
  unfold wins_now. intros Hw Hv. destruct (nodes cs !! myself cs) as [me|] eqn:Eme; [|done]. destruct (slaveof me) as [m|] eqn:Es; [|done].
  destruct (nodes cs !! m) as [master|] eqn:Em; [|done]. rewrite !andb_true_iff, !negb_true_iff in Hv. destruct Hv as ((((((Hma & Hf) & Hns) & Hage) & Hsent) & Htime) & Hcount).
  unfold clusterHandleSlaveFailover. rewrite Eme. bindstep. cbv zeta. rewrite Hma, Es. set (cs0 := set_todo_before_sleep _ cs).
  change (nodes cs0) with (nodes cs). rewrite Em. bindstep. rewrite Hf, Hns. cbn [negb andb orb].
  change (failover_auth_time cs0) with (failover_auth_time cs). change (cluster_slave_no_failover (at_ t)) with false. change (cluster_slave_validity_factor (at_ t)) with 0.
  change (cluster_node_timeout (at_ t)) with 1000. change (mstime (at_ t) 0) with t. change (mstime (at_ t) 3) with t. change (1000 * 2 <? 2000) with false. change (1000 * 2) with 2000.
  cbn [negb andb orb Z.eqb].
  assert ((t - failover_auth_time cs >? 2000 * 2) = false) as -> by lia. change (failover_auth_sent cs0) with (failover_auth_sent cs). rewrite Hsent. cbn [negb andb].
  bindstep. change (failover_auth_time cs0) with (failover_auth_time cs). rewrite Htime, Hage. change (failover_auth_sent cs0) with (failover_auth_sent cs). rewrite Hsent. cbn [negb].
  change (failover_auth_count cs0) with (failover_auth_count cs). change (size cs0) with (size cs). rewrite Hcount.
  assert (wf cs0) as Hw0 by (by apply (wf_same cs)).
  match goal with |- context [mbind _ (if ?b then ?u else Some cs0)] => assert (exists cs1, (if b then u else Some cs0) = Some cs1 /\ wf cs1) as (cs1 & -> & Hw1) end.
  { destruct (configEpoch me <? _); [|by exists cs0]. destruct (wf_upd (myself cs0) (set_configEpoch (failover_auth_epoch cs0)) cs0 Hw0) as (ns & -> & Hw1 & _); [by exists me|done..|]. by eexists. }
  bindstep. destruct (replace_ok (at_ t) 4 cs1 Hw1) as (cs2 & eff & -> & _). done.
Qed.


(** ** A replica is elected. *)

Definition d1 : clusterState := sealed (cron 10000 (start D)).
Definition pong1 : clusterMsg := sealed (nth_msg 0 (sends (cron_eff 10000 (start D)))).
Definition d2 : clusterState := sealed (cron 10600 d1).
Definition req1 (k : nat) : clusterMsg := sealed (nth_msg k (sends (cron_eff 10600 d1))).
Definition a1 : clusterState := sealed (granted 10700 (req1 2) (start A)).
Definition b1 : clusterState := sealed (granted 10700 (req1 1) (start B)).
Definition ackA1 : clusterMsg := sealed (ack 10700 (req1 2) (start A)).
Definition ackB1 : clusterMsg := sealed (ack 10700 (req1 1) (start B)).
Ltac open1 := unfold a1, b1, ackA1, ackB1, req1, d2, pong1, d1.
Ltac ev1 := open1; evaluate.

Lemma start_reaches strict : reaches strict (start A) (start B) (start D) (start E) [] [].
Proof. exists []. constructor. Qed.

Lemma d1_wf : wf d1.
Proof. unfold d1. rewrite sealed_eq. apply cron_wf, start_wf. set_solver. Qed.
Lemma d2_wf : wf d2.
Proof. unfold d2. rewrite sealed_eq. apply cron_wf, d1_wf. Qed.
Lemma sent1_to : fst <$> sends (cron_eff 10600 d1) = [E; B; A].
Proof. ev1. Qed.
Lemma req1_ok k : (k < 3)%nat -> msg_ok (req1 k).
Proof.
  intros Hk. unfold req1. rewrite sealed_eq. apply nth_msg_ok; [apply cron_msgs, d1_wf|]. pose proof (f_equal length sent1_to) as Hl. rewrite length_fmap in Hl. by rewrite Hl.
Qed.
Lemma req1_of : request_of D (req1 1) /\ request_of D (req1 2).
Proof. unfold request_of. split; ev1. Qed.
Lemma vote_A1 : process_packet (at_ 10700) (req1 2) (start A) = Some (granted 10700 (req1 2) (start A), [SendMessage D (ack 10700 (req1 2) (start A))]).
Proof. apply voter_eq; [apply start_wf; set_solver|done|apply req1_ok; lia|apply req1_of|done|ev1|ev1]. Qed.
Lemma vote_B1 : process_packet (at_ 10700) (req1 1) (start B) = Some (granted 10700 (req1 1) (start B), [SendMessage D (ack 10700 (req1 1) (start B))]).
Proof. apply voter_eq; [apply start_wf; set_solver|done|apply req1_ok; lia|apply req1_of|done|ev1|ev1]. Qed.

Lemma voted_reaches strict : reaches strict a1 b1 d2 (start E) [(E, pong1); (E, req1 0); (D, ackA1); (D, ackB1)] [].
Proof.
  destruct (go_cron strict _ _ _ _ _ _ D (start D) 10000 false d1 [(E, pong1)] (start_reaches strict)) as [h1 H1].
  { done. } { apply sealed_eq. } { unfold pong1. rewrite sealed_eq. symmetry. apply packets1. evaluate. } { evaluate. } { done. } { done. }
  rewrite quad_D in H1. cbn [app] in H1.
  destruct (go_cron strict _ _ _ _ _ _ D d1 10600 false d2 [(E, req1 0); (B, req1 1); (A, req1 2)] (ex_intro _ h1 H1)) as [h2 H2].
  { done. } { apply sealed_eq. } { unfold req1. rewrite !sealed_eq. symmetry. apply packets3, sent1_to. } { ev1. } { ev1. } { ev1. }
  rewrite quad_D in H2. cbn [app] in H2. clear H1. destruct req1_of as [[= Hd1 _ _] [= Hd2 _ _]].
  destruct (go_vote strict _ _ _ _ _ _ 3 A D (req1 2) (start A) 10700 a1 ackA1 (ex_intro _ h2 H2) eq_refl eq_refl (sealed_eq _) (sealed_eq _) ltac:(set_solver) Hd2 vote_A1) as [h3 H3].
  rewrite quad_A in H3. cbn [delete list_delete app] in H3. clear H2.
  destruct (go_vote strict _ _ _ _ _ _ 2 B D (req1 1) (start B) 10700 b1 ackB1 (ex_intro _ h3 H3) eq_refl eq_refl (sealed_eq _) (sealed_eq _) ltac:(set_solver) Hd1 vote_B1) as [h4 H4].
  rewrite quad_B in H4. cbn [delete list_delete app] in H4. by exists h4.
Qed.

Definition d3 : clusterState := sealed (recv 10750 ackA1 d2).
Definition d4 : clusterState := sealed (recv 10750 ackB1 d3).
Ltac ev2 := unfold d4, d3; open1; evaluate.

Lemma acks1_ok : msg_ok ackA1 /\ msg_ok ackB1.
Proof.
  unfold ackA1, ackB1. rewrite !sealed_eq.
  split; [apply (voted_wf _ _ _ D (start_wf A ltac:(set_solver)) (req1_ok 2 ltac:(lia)) vote_A1)|apply (voted_wf _ _ _ D (start_wf B ltac:(set_solver)) (req1_ok 1 ltac:(lia)) vote_B1)].
Qed.
Lemma d4_wf : wf d4.
Proof. destruct acks1_ok. unfold d4, d3. rewrite !sealed_eq. apply recv_wf; [apply recv_wf; [apply d2_wf|done]|done]. Qed.

Lemma elected_reaches : exists d net, reaches true a1 b1 d (start E) net [(D, 11)].
Proof.
  destruct (go_recv true _ _ _ _ _ _ 2 D ackA1 d2 10750 d3 (voted_reaches true) eq_refl eq_refl (sealed_eq _)) as [h1 H1]; [ev1|ev1|ev1|intros _; ev1|].
  rewrite quad_D in H1. cbn [delete list_delete] in H1.
  destruct (go_recv true _ _ _ _ _ _ 2 D ackB1 d3 10750 d4 (ex_intro _ h1 H1) eq_refl eq_refl (sealed_eq _)) as [h2 H2]; [ev2|ev2|ev2|intros _; ev2|].
  rewrite quad_D in H2. cbn [delete list_delete] in H2. clear H1.
  destruct (go_cron true _ _ _ _ _ _ D d4 10800 true _ _ (ex_intro _ h2 H2) eq_refl eq_refl eq_refl) as [h3 H3]; [apply win_eq; [apply d4_wf|ev2]|ev2|ev2|].
  assert (failover_auth_epoch d4 = 11) as E1 by ev2. rewrite quad_D, E1 in H3. eexists _, _. exists h3. exact H3.
Qed.

(** ** Late votes elect a second replica in the same epoch. *)

Definition e1 : clusterState := sealed (recv 10700 (req1 0) (start E)).
Definition e2 : clusterState := sealed (cron 14000 e1).
Definition pong2 : clusterMsg := sealed (nth_msg 0 (sends (cron_eff 14000 e1))).
Definition e3 : clusterState := sealed (cron 14600 e2).
Definition req2 (k : nat) : clusterMsg := sealed (nth_msg k (sends (cron_eff 14600 e2))).
Definition a2 : clusterState := sealed (granted 15200 (req2 2) a1).
Definition b2 : clusterState := sealed (granted 15200 (req2 1) b1).
Definition ackA2 : clusterMsg := sealed (ack 15200 (req2 2) a1).
Definition ackB2 : clusterMsg := sealed (ack 15200 (req2 1) b1).
Definition e4 : clusterState := sealed (recv 15300 ackA2 e3).
Definition e5 : clusterState := sealed (recv 15300 ackB2 e4).
Ltac ev3 := unfold e5, e4, a2, b2, ackA2, ackB2, req2, e3, pong2, e2, e1; open1; evaluate.

Lemma a1_b1_wf : wf a1 /\ wf b1.
Proof.
  unfold a1, b1. rewrite !sealed_eq.
  split; [apply (voted_wf _ _ _ D (start_wf A ltac:(set_solver)) (req1_ok 2 ltac:(lia)) vote_A1)|apply (voted_wf _ _ _ D (start_wf B ltac:(set_solver)) (req1_ok 1 ltac:(lia)) vote_B1)].
Qed.
Lemma e2_wf : wf e2.
Proof. unfold e2, e1. rewrite !sealed_eq. apply cron_wf, recv_wf; [apply start_wf; set_solver|apply req1_ok; lia]. Qed.
Lemma sent2_to : fst <$> sends (cron_eff 14600 e2) = [D; B; A].
Proof. ev3. Qed.
Lemma req2_ok k : (k < 3)%nat -> msg_ok (req2 k).
Proof.
  intros Hk. unfold req2. rewrite sealed_eq. apply nth_msg_ok; [apply cron_msgs, e2_wf|]. pose proof (f_equal length sent2_to) as Hl. rewrite length_fmap in Hl. by rewrite Hl.
Qed.
Lemma req2_of : request_of E (req2 1) /\ request_of E (req2 2).
Proof. unfold request_of. split; ev3. Qed.

Lemma granted_slots t m cs y : process_packet (at_ t) m cs = Some (granted t m cs, [SendMessage y (ack t m cs)]) -> wf cs -> cslots (granted t m cs) = cslots cs.
Proof. intros _ Hw. unfold granted, hdr. destruct (header_ok (at_ t) m cs Hw) as (c & Hh & _). rewrite Hh. exact (packet_slots _ _ _ _ Hh). Qed.

Lemma vote_A2 : process_packet (at_ 15200) (req2 2) a1 = Some (granted 15200 (req2 2) a1, [SendMessage E (ack 15200 (req2 2) a1)]).
Proof.
  apply voter_eq; [apply a1_b1_wf| |apply req2_ok; lia|apply req2_of|done|ev3|ev3].
  unfold a1. rewrite sealed_eq. apply (granted_slots _ _ _ D vote_A1). apply start_wf. set_solver.
Qed.
Lemma vote_B2 : process_packet (at_ 15200) (req2 1) b1 = Some (granted 15200 (req2 1) b1, [SendMessage E (ack 15200 (req2 1) b1)]).
Proof.
  apply voter_eq; [apply a1_b1_wf| |apply req2_ok; lia|apply req2_of|done|ev3|ev3].
  unfold b1. rewrite sealed_eq. apply (granted_slots _ _ _ D vote_B1). apply start_wf. set_solver.
Qed.

(** Both elections are asked for and voted on; the votes of the first are still under way. *)
Lemma second_voted : reaches false a2 b2 d2 e5 [(E, pong1); (D, ackA1); (D, ackB1); (D, pong2); (D, req2 0)] [].
Proof.
  destruct (go_recv false _ _ _ _ _ _ 1 E (req1 0) (start E) 10700 e1 (voted_reaches false) eq_refl eq_refl (sealed_eq _)) as [h1 H1]; [ev1|ev1|done|done|].
  rewrite quad_E in H1. cbn [delete list_delete] in H1.
  destruct (go_cron false _ _ _ _ _ _ E e1 14000 false e2 [(D, pong2)] (ex_intro _ h1 H1) eq_refl (sealed_eq _)) as [h2 H2].
  { unfold pong2. rewrite sealed_eq. symmetry. apply packets1. ev3. } { ev3. } { ev3. } { ev3. }
  rewrite quad_E in H2. cbn [app] in H2. clear H1.
  destruct (go_cron false _ _ _ _ _ _ E e2 14600 false e3 [(D, req2 0); (B, req2 1); (A, req2 2)] (ex_intro _ h2 H2) eq_refl (sealed_eq _)) as [h3 H3].
  { unfold req2. rewrite !sealed_eq. symmetry. apply packets3, sent2_to. } { ev3. } { ev3. } { ev3. }
  rewrite quad_E in H3. cbn [app] in H3. clear H2. destruct req2_of as [[= Hd1 _ _] [= Hd2 _ _]].
  destruct (go_vote false _ _ _ _ _ _ 6 A E (req2 2) a1 15200 a2 ackA2 (ex_intro _ h3 H3) eq_refl eq_refl (sealed_eq _) (sealed_eq _) ltac:(set_solver) Hd2 vote_A2) as [h4 H4].
  rewrite quad_A in H4. cbn [delete list_delete app] in H4. clear H3.
  destruct (go_vote false _ _ _ _ _ _ 5 B E (req2 1) b1 15200 b2 ackB2 (ex_intro _ h4 H4) eq_refl eq_refl (sealed_eq _) (sealed_eq _) ltac:(set_solver) Hd1 vote_B2) as [h5 H5].
  rewrite quad_B in H5. cbn [delete list_delete app] in H5. clear H4.
  destruct (go_recv false _ _ _ _ _ _ 5 E ackA2 e3 15300 e4 (ex_intro _ h5 H5) eq_refl eq_refl (sealed_eq _)) as [h6 H6]; [ev3|ev3|ev3|done|].
  rewrite quad_E in H6. cbn [delete list_delete] in H6. clear H5.
  destruct (go_recv false _ _ _ _ _ _ 5 E ackB2 e4 15300 e5 (ex_intro _ h6 H6) eq_refl eq_refl (sealed_eq _)) as [h7 H7]; [ev3|ev3|ev3|done|].
  rewrite quad_E in H7. cbn [delete list_delete] in H7. by exists h7.
Qed.

Definition d3' : clusterState := sealed (cron 15500 d2).
Definition d4' : clusterState := sealed (recv 15550 ackA1 d3').
Definition d5' : clusterState := sealed (recv 15550 ackB1 d4').
Definition d6' : clusterState := sealed (cron 16100 d5').
Ltac ev4 := unfold d6', d5', d4', d3'; ev3.

Lemma e5_wf : wf e5.
Proof.
  destruct a1_b1_wf as [Ha Hb]. unfold e5, e4, e3, ackA2, ackB2. rewrite !sealed_eq.
  apply recv_wf; [apply recv_wf; [apply cron_wf, e2_wf|]|];
    [apply (voted_wf _ _ _ E Ha (req2_ok 2 ltac:(lia)) vote_A2)|apply (voted_wf _ _ _ E Hb (req2_ok 1 ltac:(lia)) vote_B2)].
Qed.
Lemma d6_wf : wf d6'.
Proof. destruct acks1_ok. unfold d6', d5', d4', d3'. rewrite !sealed_eq. apply cron_wf, recv_wf; [apply recv_wf; [apply cron_wf, d2_wf|done]|done]. Qed.

Lemma two_elected : exists d e net, reaches false a2 b2 d e net [(D, 12); (E, 12)].
Proof.
  destruct (go_cron false _ _ _ _ _ _ D d2 15500 false d3' _ second_voted eq_refl (sealed_eq _) eq_refl) as [h1 H1]; [ev4|ev4|ev4|]. rewrite quad_D in H1.
  destruct (go_recv false _ _ _ _ _ _ 1 D ackA1 d3' 15550 d4' (ex_intro _ h1 H1) eq_refl eq_refl (sealed_eq _)) as [h2 H2]; [ev4|ev4|ev4|done|]. rewrite quad_D in H2. clear H1.
  destruct (go_recv false _ _ _ _ _ _ 1 D ackB1 d4' 15550 d5' (ex_intro _ h2 H2) eq_refl eq_refl (sealed_eq _)) as [h3 H3]; [ev4|ev4|ev4|done|]. rewrite quad_D in H3. clear H2.
  destruct (go_cron false _ _ _ _ _ _ D d5' 16100 false d6' _ (ex_intro _ h3 H3) eq_refl (sealed_eq _) eq_refl) as [h4 H4]; [ev4|ev4|ev4|]. rewrite quad_D in H4. clear H3.
  destruct (go_cron false _ _ _ _ _ _ D d6' 16200 true _ _ (ex_intro _ h4 H4) eq_refl eq_refl eq_refl) as [h5 H5]; [apply win_eq; [apply d6_wf|ev4]|ev4|ev4|].
  assert (failover_auth_epoch d6' = 12) as E1 by ev4. rewrite quad_D, E1 in H5. clear H4.
  destruct (go_cron false _ _ _ _ _ _ E e5 16200 true _ _ (ex_intro _ h5 H5) eq_refl eq_refl eq_refl) as [h6 H6]; [apply win_eq; [apply e5_wf|ev3]|ev3|ev3|].
  assert (failover_auth_epoch e5 = 12) as E2 by ev3. rewrite quad_E, E2 in H6. eexists _, _, _. exists h6. exact H6.
Qed.

(** ** The theorems on these runs *)

Lemma w0_initial : initial w0.
Proof.
  do 3 (split; [done|]). intros n cs Hn. apply elem_of_list_to_map_2 in Hn. rewrite !elem_of_cons in Hn.
  assert (n = A /\ cs = start A \/ n = B /\ cs = start B \/ n = D /\ cs = start D \/ n = E /\ cs = start E) as Hc.
  { destruct Hn as [[= -> ->]|[[= -> ->]|[[= -> ->]|[[= -> ->]|Hn]]]]; [tauto..|by apply not_elem_of_nil in Hn]. }
  assert (forall me, me ∈ [A; B; D; E] -> names_ok (start me)) as Hnames.
  { intros me Hme x nd Hx. by apply (roles_lookup me (start me) x nd (wf_roles _ (start_wf me Hme)) Hx). }
  destruct Hc as [[-> ->]|[[-> ->]|[[-> ->]|[-> ->]]]]; (split; [done|]); (split; [apply Hnames; set_solver|done]).
Qed.

(** C27. Votes that arrive between two elections break the safety of elections: there is a cluster, every
    node of it consistent, and a run of it, regular in every other respect, at the end of which two different
    replicas have been elected in the same epoch.  A vote is counted although the replica has given up the
    election it was cast in, and it still counts in the next one. *)
Theorem late_votes_elect_two :
  exists w w' n1 n2 ep, initial w /\ (forall n cs, sts w !! n = Some cs -> wf cs) /\ reachable (regular V) w w' /\
    n1 <> n2 /\ (n1, ep) ∈ wins w' /\ (n2, ep) ∈ wins w'.
Proof.
  destruct two_elected as (d & e & net & h & Hr). exists w0. eexists. exists D, E, 12. split; [apply w0_initial|]. split; [|split; [|split; [done|]]].
  - intros n cs Hn. apply elem_of_list_to_map_2 in Hn. rewrite !elem_of_cons in Hn.
    destruct Hn as [[= -> ->]|[[= -> ->]|[[= -> ->]|[[= -> ->]|Hn]]]]; [apply start_wf; set_solver..|by apply not_elem_of_nil in Hn].
  - eapply reachable_weaken; [|exact Hr]. by intros ? ? ? [].
  - cbn. set_solver.
Qed.

Lemma election_safety_witness :
  exists w, reachable (fun w a w' => regular V w a w' /\ timely w a) w0 w /\ (D, 11) ∈ wins w /\ forall n, (n, 11) ∈ wins w -> n = D.
Proof.
  destruct elected_reaches as (d & net & h & Hr). assert (reachable (fun w a w' => regular V w a w' /\ timely w a) w0 (World (quad a1 b1 d (start E)) net h [(D, 11)])) as Hr'.
  { eapply reachable_weaken; [|exact Hr]. intros ? ? ? [? Ht]. split; [done|by apply Ht]. }
  eexists. split; [exact Hr'|]. assert ((D, 11) ∈ [(D, 11)]) as Hd by apply list_elem_of_here. split; [exact Hd|]. intros n Hn.
  exact (election_safety V w0 _ n D 11 w0_initial Hr' Hn Hd).
Defined.

Lemma vote_once_witness : exists w, reachable (regular V) w0 w /\ wins w = [(D, 12); (E, 12)] /\ NoDup (ballots (hist w)).
Proof.
  destruct two_elected as (d & e & net & h & Hr). assert (reachable (regular V) w0 (World (quad a2 b2 d e) net h [(D, 12); (E, 12)])) as Hr'.
  { eapply reachable_weaken; [|exact Hr]. by intros ? ? ? []. }
  eexists. split; [exact Hr'|]. split; [reflexivity|]. exact (vote_once V w0 _ w0_initial Hr').
Defined.

Lemma cluster_handlers_safe_witness : wf (start D) /\ handled (handle (at_ 10000) SlaveFailover (start D)).
Proof.
  assert (wf (start D)) as Hw by (apply start_wf; set_solver). split; [exact Hw|]. exact (cluster_handlers_safe (at_ 10000) SlaveFailover (start D) Hw I).
Defined.

Lemma clusterUpdateSlots_correct_witness :
  exists cs' eff, clusterUpdateSlotsConfigWith (at_ 0) A 11 (bm 4) (start D) = Some (cs', eff) /\
    (forall j, slot_ok j -> cslots cs' !! j = new_owner (start D) A 11 (bm 4) j) /\ config_outcome (at_ 0) A 11 (bm 4) (start D) cs' eff.
Proof.
  apply (clusterUpdateSlots_correct (at_ 0) A (node_of D A) 11 (bm 4) (start D)); [apply start_wf; set_solver|reflexivity|reflexivity|done|by apply bm_ok].
Defined.

Lemma elected_takes_over_witness :
  exists cs' eff, clusterHandleSlaveFailover (at_ 10800) d4 = Some (cs', eff, true) /\ ReplicationUnsetMaster ∈ eff.
Proof.
  pose proof (win_eq 10800 d4 d4_wf ltac:(ev2)) as Hwin. destruct (clusterHandleSlaveFailover (at_ 10800) d4) as [[[cs' eff] won]|] eqn:Hc; [|done].
  injection Hwin as ->. exists cs', eff. split; [reflexivity|]. destruct (win_state _ _ _ _ Hc) as (me & m & _ & Hme & _ & Hm & _).
  exact (proj1 (proj2 (elected_takes_over (at_ 10800) d4 cs' eff me m d4_wf Hme Hm Hc))).
Defined.

Definition ew0 : eworld := EWorld (list_to_map [(B, start B); (A, start A)]) [(B, 10); (A, 10)] [].

Lemma collisions_end_witness : exists w, esteps ew0 w /\ bumps w = [A] /\ zlen (bumps w) + zlen [B; A] < 2 ^ zlen [B; A].
Proof.
  assert (einitial [B; A] ew0) as Hi.
  { split; [done|]. split; [done|]. split.
    - intros n ep Hin. change ((n, ep) ∈ [(B, 10); (A, 10)]) in Hin. rewrite !elem_of_cons in Hin. destruct Hin as [[= -> ->]|[[= -> ->]|[]%not_elem_of_nil]]; eexists; (split; [reflexivity|evaluate]).
    - intros n cs Hn. apply elem_of_list_to_map_2 in Hn. rewrite !elem_of_cons in Hn. destruct w0_initial as (_ & _ & _ & Hall).
      destruct Hn as [[= -> ->]|[[= -> ->]|[]%not_elem_of_nil]]; (split; [set_solver|]); [destruct (Hall B (start B) eq_refl) as (? & ? & _)|destruct (Hall A (start A) eq_refl) as (? & ? & _)];
        (split; [done|]); (split; [done|]); exists 10; (split; [evaluate|]); cbn; lia. }
  assert (exists cs', clusterHandleConfigEpochCollision B (start A) = Some (cs', [SaveConfig]) /\ own_epoch cs' = Some 11) as (cs' & Hh & Ho).
  { unfold clusterHandleConfigEpochCollision. eexists. split; [reflexivity|evaluate]. }
  pose proof (collide ew0 A (start A) B (node_of A B) cs' [SaveConfig] 11 eq_refl eq_refl ltac:(apply list_elem_of_here) ltac:(done) Hh Ho) as Hst.
  rewrite decide_False in Hst by (rewrite Ho; assert (own_epoch (start A) = Some 10) as -> by evaluate; done).
  assert (esteps ew0 (EWorld (<[A := cs']> (ests ew0)) ((A, 11) :: past ew0) (A :: bumps ew0))) as Hr by (eapply esteps_step; [apply esteps_refl|exact Hst]).
  eexists. split; [exact Hr|]. split; [reflexivity|]. refine (collisions_end [B; A] ew0 _ _ Hi Hr). repeat constructor.
Defined.
