(* ===== verification/Crc.v ===== *)
(** * Checksums (crc16.c, crc64.c, crcspeed.c) and hash slots

    The CRC-16 of keys, the CRC-64 of RDB files, bit by bit and eight bytes at a time, and the
    hash slot of a key (cluster.c). *)

From Stdlib Require Import ZArith Lia.
From stdpp Require Import base numbers option list.
From S2P Require Import Prelude Memory.

Local Open Scope Z_scope.
Local Open Scope redis_scope.

(** ** CRC-16 *)

Definition crc16tab : list Z :=
  [ 0x0000; 0x1021; 0x2042; 0x3063; 0x4084; 0x50a5; 0x60c6; 0x70e7; 0x8108; 0x9129; 0xa14a; 0xb16b; 0xc18c; 0xd1ad; 0xe1ce; 0xf1ef;
    0x1231; 0x0210; 0x3273; 0x2252; 0x52b5; 0x4294; 0x72f7; 0x62d6; 0x9339; 0x8318; 0xb37b; 0xa35a; 0xd3bd; 0xc39c; 0xf3ff; 0xe3de;
    0x2462; 0x3443; 0x0420; 0x1401; 0x64e6; 0x74c7; 0x44a4; 0x5485; 0xa56a; 0xb54b; 0x8528; 0x9509; 0xe5ee; 0xf5cf; 0xc5ac; 0xd58d;
    0x3653; 0x2672; 0x1611; 0x0630; 0x76d7; 0x66f6; 0x5695; 0x46b4; 0xb75b; 0xa77a; 0x9719; 0x8738; 0xf7df; 0xe7fe; 0xd79d; 0xc7bc;
    0x48c4; 0x58e5; 0x6886; 0x78a7; 0x0840; 0x1861; 0x2802; 0x3823; 0xc9cc; 0xd9ed; 0xe98e; 0xf9af; 0x8948; 0x9969; 0xa90a; 0xb92b;
    0x5af5; 0x4ad4; 0x7ab7; 0x6a96; 0x1a71; 0x0a50; 0x3a33; 0x2a12; 0xdbfd; 0xcbdc; 0xfbbf; 0xeb9e; 0x9b79; 0x8b58; 0xbb3b; 0xab1a;
    0x6ca6; 0x7c87; 0x4ce4; 0x5cc5; 0x2c22; 0x3c03; 0x0c60; 0x1c41; 0xedae; 0xfd8f; 0xcdec; 0xddcd; 0xad2a; 0xbd0b; 0x8d68; 0x9d49;
    0x7e97; 0x6eb6; 0x5ed5; 0x4ef4; 0x3e13; 0x2e32; 0x1e51; 0x0e70; 0xff9f; 0xefbe; 0xdfdd; 0xcffc; 0xbf1b; 0xaf3a; 0x9f59; 0x8f78;
    0x9188; 0x81a9; 0xb1ca; 0xa1eb; 0xd10c; 0xc12d; 0xf14e; 0xe16f; 0x1080; 0x00a1; 0x30c2; 0x20e3; 0x5004; 0x4025; 0x7046; 0x6067;
    0x83b9; 0x9398; 0xa3fb; 0xb3da; 0xc33d; 0xd31c; 0xe37f; 0xf35e; 0x02b1; 0x1290; 0x22f3; 0x32d2; 0x4235; 0x5214; 0x6277; 0x7256;
    0xb5ea; 0xa5cb; 0x95a8; 0x8589; 0xf56e; 0xe54f; 0xd52c; 0xc50d; 0x34e2; 0x24c3; 0x14a0; 0x0481; 0x7466; 0x6447; 0x5424; 0x4405;
    0xa7db; 0xb7fa; 0x8799; 0x97b8; 0xe75f; 0xf77e; 0xc71d; 0xd73c; 0x26d3; 0x36f2; 0x0691; 0x16b0; 0x6657; 0x7676; 0x4615; 0x5634;
    0xd94c; 0xc96d; 0xf90e; 0xe92f; 0x99c8; 0x89e9; 0xb98a; 0xa9ab; 0x5844; 0x4865; 0x7806; 0x6827; 0x18c0; 0x08e1; 0x3882; 0x28a3;
    0xcb7d; 0xdb5c; 0xeb3f; 0xfb1e; 0x8bf9; 0x9bd8; 0xabbb; 0xbb9a; 0x4a75; 0x5a54; 0x6a37; 0x7a16; 0x0af1; 0x1ad0; 0x2ab3; 0x3a92;
    0xfd2e; 0xed0f; 0xdd6c; 0xcd4d; 0xbdaa; 0xad8b; 0x9de8; 0x8dc9; 0x7c26; 0x6c07; 0x5c64; 0x4c45; 0x3ca2; 0x2c83; 0x1ce0; 0x0cc1;
    0xef1f; 0xff3e; 0xcf5d; 0xdf7c; 0xaf9b; 0xbfba; 0x8fd9; 0x9ff8; 0x6e17; 0x7e36; 0x4e55; 0x5e74; 0x2e93; 0x3eb2; 0x0ed1; 0x1ef0 ].

(** The loop of [crc16], from offset [p] of the buffer *)
Fixpoint crc16_loop (buf : bytes) (p : Z) (n : nat) (crc : Z) : option Z :=
  match n with
  | O => Some crc
  | S n =>
      let! c := load1 buf p in
      let! t := crc16tab !! Z.to_nat (Z.land (Z.lxor (Z.shiftr crc 8) c) 0x00FF) in
      crc16_loop buf (p + 1) n (u16 (Z.lxor (Z.shiftl crc 8) t))
  end.
Definition crc16 (buf : bytes) (p len : Z) : option Z := crc16_loop buf p (Z.to_nat len) 0.

(** ** Hash slots *)

(** [for (; s < keylen; s++) if (key[s] == c) break;] *)
Fixpoint find_char (key : bytes) (c : Z) (n : nat) (s : Z) : option Z :=
  match n with
  | O => Some s
  | S n =>
      let! k := load1 key s in
      if k =? c then Some s else find_char key c n (s + 1)
  end.

(** The characters '{' and '}' are 123 and 125. *)
Definition keyHashSlot (key : bytes) (keylen : Z) : option Z :=
  let! s := find_char key 123 (Z.to_nat keylen) 0 in
  if s =? keylen then let! h := crc16 key 0 keylen in Some (Z.land h 0x3FFF) else
  let! e := find_char key 125 (Z.to_nat (keylen - (s + 1))) (s + 1) in
  if (e =? keylen) || (e =? s + 1) then let! h := crc16 key 0 keylen in Some (Z.land h 0x3FFF) else
  let! h := crc16 key (s + 1) (e - s - 1) in
  Some (Z.land h 0x3FFF).

(** ** CRC-64, bit by bit *)

Definition POLY : Z := 0xad93d23594c935a9.

Fixpoint crc_reflect_loop (n : nat) (data ret : Z) : Z :=
  match n with
  | O => ret
  | S n =>
      let data := Z.shiftr data 1 in
      crc_reflect_loop n data (Z.lor (u64 (Z.shiftl ret 1)) (Z.land data 1))
  end.
Definition crc_reflect (data : Z) (data_len : nat) : Z := crc_reflect_loop (data_len - 1) data (Z.land data 1).

(** One round of the inner loop, for the bit [i] of [c] *)
Definition crc_bit (c crc i : Z) : Z :=
  let bit := negb (Z.land crc 0x8000000000000000 =? 0) in
  let bit := if negb (Z.land c i =? 0) then negb bit else bit in
  let crc := u64 (Z.shiftl crc 1) in
  if bit then Z.lxor crc POLY else crc.
Definition crc_byte (crc c : Z) : Z := Z.land (foldl (crc_bit c) crc [1; 2; 4; 8; 16; 32; 64; 128]) 0xffffffffffffffff.
Definition _crc64 (crc : Z) (data : bytes) : Z :=
  let crc := Z.land (foldl crc_byte crc data) 0xffffffffffffffff in
  Z.lxor (crc_reflect crc 64) 0.

(** ** CRC-64, eight bytes at a time *)

Section Host.
Context `{Host}.

Definition table_get (table : list (list Z)) (k : nat) (n : Z) : Z := default 0 (default [] (table !! k) !! Z.to_nat n).

(** [&n] is the address of an [int]: the byte there is its first in memory. *)
Definition single_bytes (crcfn : Z -> bytes -> Z) : list Z := map (fun n => crcfn 0 (take 1 (host_enc 4 (Z.of_nat n)))) (seq 0 256).

(** The entries of [n] in the tables [k], [k+1], ... *)
Fixpoint next_entries (table0 : list Z) (k : nat) (crc : Z) : list Z :=
  match k with
  | O => []
  | S k =>
      let crc := Z.lxor (default 0 (table0 !! Z.to_nat (Z.land crc 0xff))) (Z.shiftr crc 8) in
      crc :: next_entries table0 k crc
  end.
Definition crcspeed64little_init (crcfn : Z -> bytes -> Z) : list (list Z) :=
  let table0 := single_bytes crcfn in
  table0 :: map (fun k => map (fun crc => default 0 (next_entries table0 7 crc !! k)) table0) (seq 0 7).

(** [__builtin_bswap64] *)
Definition rev8 (a : Z) : Z := le_dec (rev (le_enc 8 a)).
Definition crcspeed64big_init (fn : Z -> bytes -> Z) : list (list Z) := map (map rev8) (crcspeed64little_init fn).

(** The loops: single bytes up to an aligned address, words of eight bytes, the rest *)
Definition little_byte (t : list (list Z)) (crc c : Z) : Z := Z.lxor (table_get t 0 (Z.land (Z.lxor crc c) 0xff)) (Z.shiftr crc 8).
Definition little_word (t : list (list Z)) (crc w : Z) : Z :=
  let crc := Z.lxor crc w in
  Z.lxor (Z.lxor (Z.lxor (Z.lxor (Z.lxor (Z.lxor (Z.lxor
    (table_get t 7 (Z.land crc 0xff))
    (table_get t 6 (Z.land (Z.shiftr crc 8) 0xff)))
    (table_get t 5 (Z.land (Z.shiftr crc 16) 0xff)))
    (table_get t 4 (Z.land (Z.shiftr crc 24) 0xff)))
    (table_get t 3 (Z.land (Z.shiftr crc 32) 0xff)))
    (table_get t 2 (Z.land (Z.shiftr crc 40) 0xff)))
    (table_get t 1 (Z.land (Z.shiftr crc 48) 0xff)))
    (table_get t 0 (Z.shiftr crc 56)).
Definition big_byte (t : list (list Z)) (crc c : Z) : Z := Z.lxor (table_get t 0 (Z.lxor (Z.shiftr crc 56) c)) (u64 (Z.shiftl crc 8)).
Definition big_word (t : list (list Z)) (crc w : Z) : Z :=
  let crc := Z.lxor crc w in
  Z.lxor (Z.lxor (Z.lxor (Z.lxor (Z.lxor (Z.lxor (Z.lxor
    (table_get t 0 (Z.land crc 0xff))
    (table_get t 1 (Z.land (Z.shiftr crc 8) 0xff)))
    (table_get t 2 (Z.land (Z.shiftr crc 16) 0xff)))
    (table_get t 3 (Z.land (Z.shiftr crc 24) 0xff)))
    (table_get t 4 (Z.land (Z.shiftr crc 32) 0xff)))
    (table_get t 5 (Z.land (Z.shiftr crc 40) 0xff)))
    (table_get t 6 (Z.land (Z.shiftr crc 48) 0xff)))
    (table_get t 7 (Z.shiftr crc 56)).

Section Loops.
Context (byte word : Z -> Z -> Z).

(** [while (len && ((uintptr_t)next & 7) != 0)]: the bytes that are left too *)
Fixpoint align_loop (next crc : Z) (buf : bytes) : Z * bytes :=
  match buf with
  | [] => (crc, [])
  | c :: rest => if negb (Z.land next 7 =? 0) then align_loop (next + 1) (byte crc c) rest else (crc, buf)
  end.
(** [while (len >= 8)] *)
Fixpoint word_loop (fuel : nat) (crc : Z) (buf : bytes) : Z * bytes :=
  match fuel with
  | O => (crc, buf)
  | S fuel =>
      if decide (8 <= length buf)%nat then word_loop fuel (word crc (host_dec (take 8 buf))) (drop 8 buf) else (crc, buf)
  end.
Definition crcspeed_loops (next crc : Z) (buf : bytes) : Z :=
  let '(crc, buf) := align_loop next crc buf in
  let '(crc, buf) := word_loop (length buf) crc buf in
  foldl byte crc buf.
End Loops.

(** [next] is the address of the buffer. *)
Definition crcspeed64little (t : list (list Z)) (crc next : Z) (buf : bytes) : Z :=
  crcspeed_loops (little_byte t) (little_word t) next crc buf.
Definition crcspeed64big (t : list (list Z)) (crc next : Z) (buf : bytes) : Z :=
  rev8 (crcspeed_loops (big_byte t) (big_word t) next (rev8 crc) buf).

Definition crcspeed64native_init (fn : Z -> bytes -> Z) : list (list Z) :=
  if big_endian then crcspeed64big_init fn else crcspeed64little_init fn.
Definition crcspeed64native (t : list (list Z)) (crc next : Z) (buf : bytes) : Z :=
  if big_endian then crcspeed64big t crc next buf else crcspeed64little t crc next buf.

(** The table after [crc64_init] *)
Definition crc64_init : list (list Z) := crcspeed64native_init _crc64.
Definition crc64 (crc next : Z) (s : bytes) : Z := crcspeed64native crc64_init crc next s.

End Host.
