(* ===== verification/CrcSpec.v ===== *)
(** * Checksums and hash slots: theorems

    The routines that work from tables against division by the polynomial, one bit at a time:
    a step of the division is linear in the bits of the register, so eight steps can be looked
    up, and the steps of eight bytes too. *)

From Stdlib Require Import ZArith Lia.
From stdpp Require Import base numbers option list.
From S2P Require Import Prelude Memory Bits Crc.

Local Open Scope Z_scope.
Local Open Scope redis_scope.

(** ** Iterated linear steps *)

Section Linear.
Context (step : Z -> Z).
Hypothesis step_lxor : forall a b, step (Z.lxor a b) = Z.lxor (step a) (step b).

Definition steps (n : nat) (c : Z) : Z := Nat.iter n step c.

Lemma steps_lxor n a b : steps n (Z.lxor a b) = Z.lxor (steps n a) (steps n b).
Proof using step_lxor. induction n as [|n IH]; [done|]. change (step (steps n (Z.lxor a b)) = Z.lxor (step (steps n a)) (step (steps n b))). by rewrite IH, step_lxor. Qed.
Lemma steps_add n m c : steps (n + m) c = steps n (steps m c).
Proof. unfold steps. apply Nat.iter_add. Qed.
End Linear.

(** The low byte of a number and the rest *)
Lemma low_byte x : x = Z.lxor (Z.land x 255) (Z.shiftl (Z.shiftr x 8) 8).
Proof.
  apply Z.bits_inj'. intros n Hn. rewrite Z.lxor_spec, Z.land_spec, Z.shiftl_spec by done. change 255 with (Z.ones 8).
  destruct (decide (n < 8)).
  - rewrite Z.ones_spec_low, (Z.testbit_neg_r _ (n - 8)) by lia. by rewrite andb_true_r, xorb_false_r.
  - rewrite Z.ones_spec_high, Z.shiftr_spec by lia. rewrite andb_false_r, xorb_false_l. f_equal. lia.
Qed.

Lemma add_lxor b y : byte_ok b -> b + 256 * y = Z.lxor b (Z.shiftl y 8).
Proof.
  intros Hb. rewrite Z.shiftl_mul_pow2 by lia. change (2 ^ 8) with 256.
  rewrite <- Z.add_nocarry_lxor; [lia|]. replace (y * 256) with (Z.shiftl y 8) by (rewrite Z.shiftl_mul_pow2 by lia; lia). apply land_shiftl_disjoint; [lia|exact Hb].
Qed.

(** ** CRC-64: the reflected register *)

Definition RPOLY : Z := 0x95ac9329ac4bc9b5.
(** One bit: the register shifted right, less the polynomial if a one falls out *)
Definition rstep (c : Z) : Z := Z.lxor (Z.shiftr c 1) (if Z.testbit c 0 then RPOLY else 0).
Abbreviation rsteps := (steps rstep).

(** The remainder after the bytes of a message *)
Definition remainder64 (crc : Z) (s : bytes) : Z := foldl (fun c b => rsteps 8 (Z.lxor c b)) crc s.

Lemma rstep_lxor a b : rstep (Z.lxor a b) = Z.lxor (rstep a) (rstep b).
Proof.
  unfold rstep. rewrite Z.shiftr_lxor, Z.lxor_spec. apply Z.bits_inj'. intros n Hn. rewrite !Z.lxor_spec.
  destruct (Z.testbit a 0), (Z.testbit b 0); cbn [xorb]; rewrite ?Z.bits_0; do 2 destruct (Z.testbit (Z.shiftr _ 1) n); by destruct (Z.testbit RPOLY n).
Qed.

Lemma rstep_bound c : is_u 64 c -> is_u 64 (rstep c).
Proof.
  intros Hc. unfold rstep. apply lxor_bound; [lia| |by case_match].
  unfold is_u in *. rewrite Z.shiftr_div_pow2 by lia. change (2 ^ 1) with 2. split; [apply Z.div_pos; lia|]. apply Z.div_lt_upper_bound; lia.
Qed.
Lemma rsteps_bound n c : is_u 64 c -> is_u 64 (rsteps n c).
Proof. intros Hc. induction n as [|n IH]; [done|]. by apply rstep_bound. Qed.

Lemma rsteps_shift n y : rsteps n (Z.shiftl y (Z.of_nat n)) = y.
Proof.
  induction n as [|n IH]; [apply Z.shiftl_0_r|]. replace (S n) with (n + 1)%nat at 1 by lia. rewrite steps_add.
  assert (rsteps 1 (Z.shiftl y (Z.of_nat (S n))) = Z.shiftl y (Z.of_nat n)) as ->; [|done]. unfold steps. cbn [Nat.iter nat_rect]. unfold rstep.
  rewrite Z.shiftl_spec_low, Z.lxor_0_r by lia. rewrite Z.shiftr_shiftl_l by lia. f_equal. lia.
Qed.

Lemma rsteps_more n m y : rsteps (n + m) (Z.shiftl y (Z.of_nat m)) = rsteps n y.
Proof. by rewrite steps_add, rsteps_shift. Qed.

(** The low byte is looked up, the rest moves on. *)
Lemma rsteps_peel n x : rsteps (n + 8) x = Z.lxor (rsteps (n + 8) (Z.land x 255)) (rsteps n (Z.shiftr x 8)).
Proof.
  rewrite (low_byte x) at 1. rewrite (steps_lxor _ rstep_lxor). f_equal. apply (rsteps_more n 8).
Qed.

(** The bytes of a message one by one, or all at once *)
Lemma remainder64_word crc s : bytes_ok s -> remainder64 crc s = rsteps (8 * length s) (Z.lxor crc (le_dec s)).
Proof.
  intros Hs. revert crc. induction Hs as [|b s Hb Hs IH]; intros crc; [cbn; by rewrite Z.lxor_0_r|]. unfold remainder64. cbn [foldl]. fold (remainder64 (rsteps 8 (Z.lxor crc b)) s).
  rewrite IH. unfold le_dec; fold le_dec. rewrite add_lxor, <- Z.lxor_assoc by done. replace (8 * length (b :: s))%nat with (8 * length s + 8)%nat by (cbn; lia).
  rewrite steps_add. f_equal. rewrite (steps_lxor _ rstep_lxor 8 (Z.lxor crc b)). f_equal. symmetry. exact (rsteps_shift 8 (le_dec s)).
Qed.

(** ** CRC-64: bit by bit *)

Lemma reflect_loop_bits n data ret i :
  0 <= i < 64 -> Z.testbit (crc_reflect_loop n data ret) i = if decide (i < Z.of_nat n) then Z.testbit data (Z.of_nat n - i) else Z.testbit ret (i - Z.of_nat n).
Proof.
  intros Hi. revert data ret. induction n as [|n IH]; intros data ret; cbn [crc_reflect_loop].
  - rewrite decide_False by lia. f_equal. lia.
  - rewrite IH. destruct (decide (i < Z.of_nat n)) as [Hlt|Hge].
    + rewrite decide_True by lia. rewrite Z.shiftr_spec by lia. f_equal. lia.
    + rewrite Z.lor_spec. unfold uN. rewrite Z.mod_pow2_bits_low by lia. destruct (decide (i = Z.of_nat n)) as [->|Hne].
      * rewrite decide_True by lia. rewrite Z.shiftl_spec_low, Z.land_spec, Z.shiftr_spec by lia. rewrite orb_false_l. replace (Z.of_nat n - Z.of_nat n) with 0 by lia.
        cbn [Z.testbit]. rewrite andb_true_r. f_equal. lia.
      * rewrite decide_False by lia. rewrite Z.shiftl_spec, Z.land_spec by lia. assert (Z.testbit 1 (i - Z.of_nat n) = false) as -> by (apply Z.bits_above_log2; [lia|cbn; lia]).
        rewrite andb_false_r, orb_false_r. f_equal. lia.
Qed.

Lemma reflect_bits d i : 0 <= i < 64 -> Z.testbit (crc_reflect d 64) i = Z.testbit d (63 - i).
Proof.
  intros Hi. unfold crc_reflect. rewrite reflect_loop_bits by done. change (Z.of_nat (64 - 1)) with 63. destruct (decide (i < 63)) as [?|Hge]; [done|].
  assert (i = 63) as -> by lia. rewrite Z.land_spec. cbn [Z.testbit Z.sub Z.pos_sub Z.add Z.opp]. by rewrite andb_true_r.
Qed.

Lemma reflect_loop_bound n data ret : is_u 64 ret -> is_u 64 (crc_reflect_loop n data ret).
Proof.
  revert data ret. induction n as [|n IH]; intros data ret Hr; [done|]. cbn [crc_reflect_loop]. apply IH. unfold is_u. rewrite bits_bound by lia.
  split; [apply Z.lor_nonneg; split; [apply uN_bound; lia|apply Z.land_nonneg; by right]|]. intros k Hk. rewrite Z.lor_spec, Z.land_spec. unfold uN. rewrite Z.mod_pow2_bits_high by lia.
  assert (Z.testbit 1 k = false) as -> by (apply Z.bits_above_log2; [lia|cbn; lia]). by rewrite andb_false_r.
Qed.
Lemma reflect_bound d : is_u 64 (crc_reflect d 64).
Proof.
  apply reflect_loop_bound. unfold is_u. rewrite bits_bound by lia. split; [apply Z.land_nonneg; by right|]. intros k Hk.
  rewrite Z.land_spec. assert (Z.testbit 1 k = false) as -> by (apply Z.bits_above_log2; [lia|cbn; lia]). apply andb_false_r.
Qed.

(** Numbers of 64 bits with the same bits *)
Lemma eq_bits64 a b : is_u 64 a -> is_u 64 b -> (forall i, 0 <= i < 64 -> Z.testbit a i = Z.testbit b i) -> a = b.
Proof.
  unfold is_u. rewrite !bits_bound by lia. intros [_ Ha] [_ Hb] Hi. apply Z.bits_inj'. intros i H0. destruct (decide (i < 64)); [by apply Hi|]. by rewrite Ha, Hb by lia.
Qed.

Abbreviation R d := (crc_reflect d 64).

Lemma reflect_involutive d : is_u 64 d -> R (R d) = d.
Proof. intros Hd. apply eq_bits64; [apply reflect_bound|done|]. intros i Hi. rewrite !reflect_bits by lia. f_equal. lia. Qed.
Lemma reflect_lxor a b : R (Z.lxor a b) = Z.lxor (R a) (R b).
Proof. apply eq_bits64; [apply reflect_bound|apply lxor_bound; [lia|apply reflect_bound..]|]. intros i Hi. by rewrite Z.lxor_spec, !reflect_bits, Z.lxor_spec. Qed.
Lemma reflect_shift c : R (u64 (Z.shiftl c 1)) = Z.shiftr (R c) 1.
Proof.
  apply eq_bits64; [apply reflect_bound| |].
  - pose proof (reflect_bound c) as Hb. unfold is_u in *. rewrite Z.shiftr_div_pow2 by lia. change (2 ^ 1) with 2. split; [apply Z.div_pos; lia|]. apply Z.div_lt_upper_bound; lia.
  - intros i Hi. rewrite reflect_bits, Z.shiftr_spec by lia. unfold uN. rewrite Z.mod_pow2_bits_low by lia. destruct (decide (i = 63)) as [->|Hne].
    + rewrite Z.shiftl_spec_low by lia. symmetry. pose proof (reflect_bound c) as Hb. unfold is_u in Hb. rewrite bits_bound in Hb by lia. by apply Hb.
    + rewrite Z.shiftl_spec by lia. rewrite reflect_bits by lia. f_equal. lia.
Qed.
Lemma reflect_poly : R POLY = RPOLY.
Proof. vm_compute. reflexivity. Qed.

(** One bit of the message *)
Lemma crc_bit_rstep c crc j : 0 <= j -> R (crc_bit c crc (Z.shiftl 1 j)) = rstep (Z.lxor (R crc) (b2z (Z.testbit c j))).
Proof.
  intros Hj. unfold crc_bit. change 0x8000000000000000 with (Z.shiftl 1 63). rewrite !land_bit by lia.
  assert (Z.testbit (R crc) 0 = Z.testbit crc 63) as Ht by (by rewrite reflect_bits). unfold rstep. rewrite Z.lxor_spec, Ht, Z.shiftr_lxor.
  assert (Z.shiftr (b2z (Z.testbit c j)) 1 = 0) as -> by (by destruct (Z.testbit c j)). rewrite Z.lxor_0_r, <- reflect_shift.
  destruct (Z.testbit c j), (Z.testbit crc 63); cbn [negb b2z Z.testbit xorb Z.odd]; rewrite ?Z.lxor_0_r, ?reflect_lxor, ?reflect_poly; done.
Qed.

(** A bit that arrives after [n] steps could have been there from the start. *)
Lemma rstep_later n x b : rstep (Z.lxor (rsteps n x) b) = rsteps (S n) (Z.lxor x (Z.shiftl b (Z.of_nat n))).
Proof.
  change (rsteps (S n) ?c) with (rstep (rsteps n c)). f_equal. rewrite (steps_lxor _ rstep_lxor). f_equal. symmetry. apply rsteps_shift.
Qed.

(** The bits of [c] at the places of a list, added to [x] *)
Definition add_bits (c x : Z) (l : list Z) : Z := foldl (fun x j => Z.lxor x (Z.shiftl (b2z (Z.testbit c j)) j)) x l.

Lemma add_bits_lxor c x l : add_bits c x l = Z.lxor x (add_bits c 0 l).
Proof.
  revert x. induction l as [|j l IH]; intros x; [symmetry; apply Z.lxor_0_r|]. unfold add_bits in *. cbn [foldl]. rewrite IH, (IH (Z.lxor 0 _)), Z.lxor_0_l. apply Z.lxor_assoc.
Qed.
Lemma byte_sum c : byte_ok c -> add_bits c 0 (map Z.of_nat (seq 0 8)) = c.
Proof.
  intros Hc. apply Z.eqb_eq. revert c Hc. apply (byte_forall (fun c => add_bits c 0 (map Z.of_nat (seq 0 8)) =? c)). vm_compute. reflexivity.
Qed.

Lemma late_bits c k n x :
  foldl (fun r j => rstep (Z.lxor r (b2z (Z.testbit c j)))) (rsteps n x) (map Z.of_nat (seq n k)) = rsteps (n + k) (add_bits c x (map Z.of_nat (seq n k))).
Proof.
  revert n x. induction k as [|k IH]; intros n x; [by rewrite Nat.add_0_r|]. cbn [seq map]. unfold add_bits. cbn [foldl].
  rewrite rstep_later, IH. by replace (n + S k)%nat with (S n + k)%nat by lia.
Qed.

Lemma reflect_bits_loop c crc l :
  Forall (fun j => 0 <= j) l -> R (foldl (crc_bit c) crc (map (Z.shiftl 1) l)) = foldl (fun r j => rstep (Z.lxor r (b2z (Z.testbit c j)))) (R crc) l.
Proof. intros Hl. revert crc. induction Hl as [|j l Hj _ IH]; intros crc; cbn [map foldl]; [reflexivity|]. rewrite IH, crc_bit_rstep by exact Hj. reflexivity. Qed.

Lemma crc_bits_steps c crc : byte_ok c -> R (foldl (crc_bit c) crc [1; 2; 4; 8; 16; 32; 64; 128]) = rsteps 8 (Z.lxor (R crc) c).
Proof.
  intros Hc. change [1; 2; 4; 8; 16; 32; 64; 128] with (map (Z.shiftl 1) (map Z.of_nat (seq 0 8))).
  rewrite reflect_bits_loop by (apply Forall_map, Forall_true; intros; cbn; lia). generalize (R crc). intros x.
  transitivity (rsteps 8 (add_bits c x (map Z.of_nat (seq 0 8)))); [exact (late_bits c 8 0 x)|].
  rewrite add_bits_lxor, byte_sum by exact Hc. reflexivity.
Qed.

Lemma reflect_mask c : R (Z.land c 0xffffffffffffffff) = R c.
Proof.
  apply eq_bits64; [apply reflect_bound..|]. intros i Hi. rewrite !reflect_bits, Z.land_spec by lia. change 0xffffffffffffffff with (Z.ones 64).
  rewrite Z.ones_spec_low by lia. apply andb_true_r.
Qed.

Lemma crc64_bitwise crc s : bytes_ok s -> _crc64 crc s = remainder64 (R crc) s.
Proof.
  intros Hs. unfold _crc64. rewrite Z.lxor_0_r, reflect_mask. revert crc. unfold remainder64 in *. induction Hs as [|c s Hc Hs IH]; intros crc; cbn [foldl]; [reflexivity|]. rewrite IH. f_equal.
  unfold crc_byte. rewrite reflect_mask, crc_bits_steps by exact Hc. reflexivity.
Qed.

(** ** CRC-64: the tables *)

Section Little.
Context `{Host}.
Hypothesis little : big_endian = false.

Lemma single_bytes_get n : byte_ok n -> single_bytes _crc64 !! Z.to_nat n = Some (rsteps 8 n).
Proof using little.
  intros Hn. unfold single_bytes. unfold byte_ok in Hn. rewrite list_lookup_fmap, lookup_seq_lt by lia. cbn. f_equal.
  unfold host_enc. rewrite little.  replace (Z.of_nat (Z.to_nat n)) with n by lia.
  change (le_enc 4 n) with (n mod 256 :: le_enc 3 (n / 256)). cbn [take]. rewrite Z.mod_small by lia.
  rewrite crc64_bitwise by (by constructor). change (R 0) with 0. unfold remainder64. cbn [foldl]. by rewrite Z.lxor_0_l.
Qed.

Lemma next_entries_get k crc i : (i < k)%nat -> next_entries (single_bytes _crc64) k crc !! i = Some (rsteps (8 * (i + 1)) crc).
Proof using little.
  revert crc i. induction k as [|k IH]; intros crc i Hi; [lia|]. cbn [next_entries].
  assert (Z.lxor (default 0 (single_bytes _crc64 !! Z.to_nat (Z.land crc 0xff))) (Z.shiftr crc 8) = rsteps 8 crc) as ->.
  { rewrite single_bytes_get by (rewrite land_255; unfold byte_ok; apply Z.mod_pos_bound; lia). symmetry. apply (rsteps_peel 0). }
  destruct i as [|i]; [done|]. cbn [lookup list_lookup]. rewrite IH by lia. f_equal. rewrite <- steps_add. f_equal. lia.
Qed.

(** Entry [n] of table [k]: [n] after [8 * (k + 1)] steps *)
Lemma table_entry k n : (k < 8)%nat -> byte_ok n -> table_get (crcspeed64little_init _crc64) k n = rsteps (8 * (k + 1)) n.
Proof using little.
  intros Hk Hn. unfold table_get, crcspeed64little_init. cbv zeta. destruct k as [|k].
  - cbn [lookup list_lookup]. cbn [default]. rewrite single_bytes_get by done. done.
  - change ((single_bytes _crc64 :: ?r) !! S k) with (r !! k). rewrite list_lookup_fmap, lookup_seq_lt by lia. cbn [fmap option_fmap option_map default].
    unfold id. rewrite list_lookup_fmap, single_bytes_get by done. cbn [fmap option_fmap option_map default]. unfold id. rewrite next_entries_get by lia. cbn [default]. unfold id.
    rewrite <- steps_add. f_equal. lia.
Qed.

Abbreviation T := (crcspeed64little_init _crc64).

Lemma low_byte_ok x : byte_ok (Z.land x 255).
Proof. rewrite land_255. unfold byte_ok. apply Z.mod_pos_bound. lia. Qed.


Lemma little_byte_ok crc c : byte_ok c -> little_byte T crc c = rsteps 8 (Z.lxor crc c).
Proof using little.
  intros Hc. unfold little_byte. rewrite table_entry by (lia || apply low_byte_ok). etransitivity; [|symmetry; exact (rsteps_peel 0 (Z.lxor crc c))]. apply (f_equal (Z.lxor _)). change (Z.shiftr crc 8 = Z.shiftr (Z.lxor crc c) 8). rewrite Z.shiftr_lxor.
  assert (Z.shiftr c 8 = 0) as ->; [|by rewrite Z.lxor_0_r]. rewrite Z.shiftr_div_pow2 by lia. unfold byte_ok in Hc. apply Z.div_small. lia.
Qed.

Lemma little_word_ok crc w : is_u 64 crc -> is_u 64 w -> little_word T crc w = rsteps 64 (Z.lxor crc w).
Proof using little.
  intros Hc Hw. assert (is_u 64 (Z.lxor crc w)) as Hx by (apply lxor_bound; [lia|done|done]). unfold little_word. cbv zeta. generalize dependent (Z.lxor crc w). intros x Hx.
  assert (byte_ok (Z.shiftr x 56)) as Htop.
  { rewrite Z.shiftr_div_pow2 by lia. unfold is_u in Hx. unfold byte_ok. split; [apply Z.div_pos; lia|apply Z.div_lt_upper_bound; lia]. }
  rewrite !table_entry by (lia || done || apply low_byte_ok).
  assert (forall n k m k', m = (n + 8)%nat -> k' = k + 8 -> 0 <= k ->
    rsteps m (Z.shiftr x k) = Z.lxor (rsteps m (Z.land (Z.shiftr x k) 255)) (rsteps n (Z.shiftr x k'))) as Hp.
  { intros n k m k' -> -> Hk. rewrite <- Z.shiftr_shiftr by lia. apply rsteps_peel. }
  rewrite (rsteps_peel 56 x : rsteps 64 x = _).
  rewrite (Hp 48%nat 8 56%nat 16), (Hp 40%nat 16 48%nat 24), (Hp 32%nat 24 40%nat 32), (Hp 24%nat 32 32%nat 40), (Hp 16%nat 40 24%nat 48), (Hp 8%nat 48 16%nat 56) by lia.
  by rewrite !Z.lxor_assoc.
Qed.

(** ** CRC-64: the loops *)

Lemma remainder64_app crc s t : remainder64 crc (s ++ t) = remainder64 (remainder64 crc s) t.
Proof. unfold remainder64. apply foldl_app. Qed.
Lemma remainder64_bound crc s : is_u 64 crc -> bytes_ok s -> is_u 64 (remainder64 crc s).
Proof.
  intros Hc Hs. revert crc Hc. unfold remainder64. induction Hs as [|b s Hb Hs IH]; intros crc Hc; [done|]. cbn [foldl]. apply IH, rsteps_bound, lxor_bound; [lia|done|].
  unfold byte_ok in Hb. lia.
Qed.

Lemma bytes_fold crc s : bytes_ok s -> foldl (little_byte T) crc s = remainder64 crc s.
Proof using little.
  intros Hs. revert crc. unfold remainder64. induction Hs as [|b s Hb Hs IH]; intros crc; [done|]. cbn [foldl]. by rewrite little_byte_ok, IH.
Qed.

Lemma align_fold next crc s : bytes_ok s ->
  exists s1 s2, s = s1 ++ s2 /\ align_loop (little_byte T) next crc s = (remainder64 crc s1, s2).
Proof using little.
  intros Hs. revert next crc. induction Hs as [|b s Hb Hs IH]; intros next crc; [by exists [], []|]. cbn [align_loop]. destruct (negb _); [|by exists [], (b :: s)].
  destruct (IH (next + 1) (little_byte T crc b)) as (s1 & s2 & -> & Ha). exists (b :: s1), s2. split; [done|]. rewrite Ha, little_byte_ok by done. done.
Qed.

Lemma words_fold fuel crc s : is_u 64 crc -> bytes_ok s ->
  exists s1 s2, s = s1 ++ s2 /\ word_loop (little_word T) fuel crc s = (remainder64 crc s1, s2).
Proof using little.
  revert crc s. induction fuel as [|fuel IH]; intros crc s Hc Hs; [by exists [], s|]. cbn [word_loop]. case_decide as Hl; [|by exists [], s].
  rewrite <- (take_drop 8 s) in Hs. apply Forall_app in Hs as [H1 H2]. assert (length (take 8 s) = 8%nat) as Hlen by (rewrite length_take; lia).
  assert (little_word T crc (host_dec (take 8 s)) = remainder64 crc (take 8 s)) as ->.
  { unfold host_dec. rewrite little. rewrite little_word_ok, remainder64_word by (try done; pose proof (le_dec_bound _ H1) as Hb; unfold zlen in Hb; by rewrite Hlen in Hb). by rewrite Hlen. }
  destruct (IH (remainder64 crc (take 8 s)) (drop 8 s)) as (s1 & s2 & E & Hw); [by apply remainder64_bound|done|].
  exists (take 8 s ++ s1), s2. split; [by rewrite <- app_assoc, <- E, take_drop|]. by rewrite Hw, remainder64_app.
Qed.

Lemma crc64_remainder crc next s : is_u 64 crc -> bytes_ok s -> crc64 crc next s = remainder64 crc s.
Proof using little.
  intros Hc Hs. unfold crc64, crc64_init, crcspeed64native, crcspeed64native_init. rewrite little. unfold crcspeed64little, crcspeed_loops.
  destruct (align_fold next crc s Hs) as (s1 & s2 & -> & ->). apply Forall_app in Hs as [H1 H2].
  destruct (words_fold (length s2) (remainder64 crc s1) s2 (remainder64_bound _ _ Hc H1) H2) as (s3 & s4 & -> & ->). apply Forall_app in H2 as [H3 H4].
  by rewrite bytes_fold, !remainder64_app.
Qed.
End Little.

(** C22. The fast CRC-64 is the CRC-64: on a little endian host, [crc64], which starts from the tables that
    [crc64_init] computes and takes eight bytes at a time once its pointer is aligned, agrees with the
    bit-by-bit [_crc64] on every message, whatever the address of the buffer and the checksum so far; and both
    are the division of the message by the polynomial, so that a message may be fed in pieces. *)
Theorem crc64_correct `{Host} crc next s :
  big_endian = false -> is_u 64 crc -> bytes_ok s ->
  crc64 crc next s = _crc64 (crc_reflect crc 64) s /\ crc64 crc next s = remainder64 crc s /\
  forall k next', crc64 crc next s = crc64 (crc64 crc next (take k s)) next' (drop k s).
Proof.
  intros Hl Hc Hs. split; [|split].
  - rewrite crc64_remainder by done. rewrite crc64_bitwise, reflect_involutive by done. reflexivity.
  - by apply crc64_remainder.
  - intros k next'. pose proof Hs as Hs'. rewrite <- (take_drop k s) in Hs'. apply Forall_app in Hs' as [H1 H2].
    rewrite (crc64_remainder Hl crc next s), (crc64_remainder Hl crc next (take k s)) by done.
    rewrite crc64_remainder by (done || by apply remainder64_bound). by rewrite <- remainder64_app, take_drop.
Qed.

Lemma crc64_correct_witness : let H : Host := false in
  crc64 0 3 [49; 50; 51; 52; 53; 54; 55; 56; 57] = _crc64 (crc_reflect 0 64) [49; 50; 51; 52; 53; 54; 55; 56; 57].
Proof.
  intros H. refine (proj1 (crc64_correct 0 3 [49; 50; 51; 52; 53; 54; 55; 56; 57] eq_refl _ _)); [unfold is_u; lia|]. repeat constructor; unfold byte_ok; lia.
Defined.

(** ** CRC-64 on a big endian host *)

Section Big.
Context `{Host}.
Hypothesis big : big_endian = true.

Lemma single_bytes_zero : single_bytes _crc64 = replicate 256 0.
Proof using big.
  unfold single_bytes. apply list_eq. intros i. destruct (decide (i < 256)%nat) as [Hi|Hi].
  - rewrite list_lookup_fmap, lookup_seq_lt, lookup_replicate_2 by done. cbn [fmap option_fmap option_map]. f_equal. unfold host_enc. rewrite big.
    assert (take 1 (rev (le_enc 4 (Z.of_nat (0 + i)))) = [0]) as ->; [|vm_compute; reflexivity].
    change (le_enc 4 ?z) with [z mod 256; (z / 256) mod 256; (z / 256 / 256) mod 256; (z / 256 / 256 / 256) mod 256]. cbn [rev app take].
    rewrite !Z.div_div by lia. f_equal. rewrite Z.div_small by lia. done.
  - rewrite lookup_ge_None_2, lookup_ge_None_2; [done|rewrite length_replicate; lia|rewrite length_map, length_seq; lia].
Qed.

Lemma next_entries_zero k : next_entries (replicate 256 0) k 0 = replicate k 0.
Proof. induction k as [|k IH]; [done|]. cbn [next_entries]. change (Z.lxor (default 0 (replicate 256 0 !! Z.to_nat (Z.land 0 255))) (Z.shiftr 0 8)) with 0. by rewrite IH. Qed.

Lemma zero_table k n : table_get crc64_init k n = 0.
Proof using big.
  unfold crc64_init, crcspeed64native_init, crcspeed64big_init. rewrite big. unfold table_get.
  assert (Forall (Forall (fun v => v = 0)) (map (map rev8) (crcspeed64little_init _crc64))) as Hz.
  { unfold crcspeed64little_init. rewrite single_bytes_zero. cbv zeta. apply Forall_map, Forall_cons. split.
    - apply Forall_map, Forall_replicate. reflexivity.
    - apply Forall_map, Forall_true. intros j. apply Forall_map, Forall_map, Forall_replicate. rewrite next_entries_zero.
      destruct (replicate 7 0 !! j) as [v|] eqn:E; [apply lookup_replicate in E as [-> _]|]; reflexivity. }
  destruct (_ !! k) as [row|] eqn:Ek; [|done]. apply (Forall_lookup_1 _ _ _ _ Hz) in Ek. cbn [default]. unfold id.
  destruct (row !! Z.to_nat n) as [v|] eqn:En; [|done]. by apply (Forall_lookup_1 _ _ _ _ Ek) in En.
Qed.

Lemma big_byte_zero c : big_byte crc64_init 0 c = 0.
Proof using big. unfold big_byte. by rewrite zero_table. Qed.
Lemma big_word_zero w : big_word crc64_init 0 w = 0.
Proof using big. unfold big_word. cbv zeta. by rewrite !zero_table. Qed.

Lemma crc64_zero next s : crc64 0 next s = 0.
Proof using big.
  unfold crc64, crcspeed64native. rewrite big. unfold crcspeed64big, crcspeed_loops. change (rev8 0) with 0.
  assert (forall next, (align_loop (big_byte crc64_init) next 0 s).1 = 0) as Ha.
  { induction s as [|c s IH]; intros nx; [done|]. cbn [align_loop]. case_match; [|done]. rewrite big_byte_zero. apply IH. }
  specialize (Ha next). destruct (align_loop _ next 0 s) as [c1 s1]. cbn in Ha. subst c1.
  assert (forall fuel s1, (word_loop (big_word crc64_init) fuel 0 s1).1 = 0) as Hb.
  { induction fuel as [|fuel IH]; intros t; [done|]. cbn [word_loop]. case_decide; [|done]. rewrite big_word_zero. apply IH. }
  specialize (Hb (length s1) s1). destruct (word_loop _ _ 0 s1) as [c2 s2]. cbn in Hb. subst c2.
  assert (foldl (big_byte crc64_init) 0 s2 = 0) as ->; [|reflexivity]. induction s2 as [|c s2 IH]; [done|]. cbn [foldl]. by rewrite big_byte_zero.
Qed.
End Big.

(** On a big endian host the CRC-64 of every message is 0: the tables are filled from the first byte of an
    [int], which is its most significant one there, so that every entry is the checksum of a zero byte. *)
Theorem crc64_big_endian_zero `{Host} next s : big_endian = true -> crc64 0 next s = 0.
Proof. intros Hb. by apply crc64_zero. Qed.

Lemma crc64_big_endian_zero_witness : let H : Host := true in crc64 0 0 [49] = 0 /\ _crc64 0 [49] <> 0.
Proof. intros H. split; [exact (crc64_big_endian_zero 0 [49] eq_refl)|]. vm_compute. discriminate. Defined.
