(* ===== verification/KeySlotSpec.v ===== *)
(** * Hash slots: theorems

    CRC-16 by table against division by the polynomial, and the slot of a key: that of its
    hash tag when it has one. *)

From Stdlib Require Import ZArith Lia.
From stdpp Require Import base numbers option list sets.
From S2P Require Import Prelude Memory Bits Crc CrcSpec.

Local Open Scope Z_scope.
Local Open Scope redis_scope.

(** ** CRC-16 *)

(** One bit: the register shifted left, less the polynomial x^16 + x^12 + x^5 + 1 if a one falls out *)
Definition lstep (c : Z) : Z := Z.lxor (u16 (Z.shiftl c 1)) (if Z.testbit c 15 then 0x1021 else 0).
Abbreviation lsteps := (steps lstep).
(** The remainder after the bytes of a message *)
Definition remainder16 (s : bytes) : Z := foldl (fun c b => lsteps 8 (Z.lxor c (Z.shiftl b 8))) 0 s.

Lemma u16_lxor a b : u16 (Z.lxor a b) = Z.lxor (u16 a) (u16 b).
Proof.
  apply Z.bits_inj'. intros n Hn. unfold uN. rewrite Z.lxor_spec. destruct (decide (n < 16)).
  - rewrite !Z.mod_pow2_bits_low by lia. apply Z.lxor_spec.
  - by rewrite !Z.mod_pow2_bits_high by lia.
Qed.
Lemma lstep_lxor a b : lstep (Z.lxor a b) = Z.lxor (lstep a) (lstep b).
Proof.
  unfold lstep. rewrite Z.shiftl_lxor, u16_lxor, Z.lxor_spec. apply Z.bits_inj'. intros n Hn. rewrite !Z.lxor_spec.
  destruct (Z.testbit a 15), (Z.testbit b 15); cbn [xorb]; rewrite ?Z.bits_0; do 2 destruct (Z.testbit (u16 _) n); by destruct (Z.testbit 0x1021 n).
Qed.
Lemma lstep_bound c : is_u 16 (lstep c).
Proof. unfold lstep. apply lxor_bound; [lia|apply uN_bound; lia|]. by case_match. Qed.

(** The high byte is looked up, the low byte moves up. *)
Lemma lsteps_low y : 0 <= y < 256 -> lsteps 8 y = Z.shiftl y 8.
Proof.
  intros Hy. apply Z.eqb_eq. revert y Hy. apply (byte_forall (fun y => lsteps 8 y =? Z.shiftl y 8)). vm_compute. reflexivity.
Qed.
Lemma crc16tab_entry n : byte_ok n -> crc16tab !! Z.to_nat n = Some (lsteps 8 (Z.shiftl n 8)).
Proof.
  intros Hn. apply (bool_decide_unpack _). apply Is_true_true. revert n Hn.
  apply (byte_forall (fun n => bool_decide (crc16tab !! Z.to_nat n = Some (lsteps 8 (Z.shiftl n 8))))). vm_compute. reflexivity.
Qed.

Lemma lsteps_high crc : is_u 16 crc -> lsteps 8 crc = Z.lxor (u16 (Z.shiftl crc 8)) (lsteps 8 (Z.shiftl (Z.shiftr crc 8) 8)).
Proof.
  intros Hc. rewrite (low_byte crc) at 1. rewrite (steps_lxor _ lstep_lxor). f_equal.
  rewrite lsteps_low by apply low_byte_ok. apply Z.bits_inj'. intros n Hn. unfold uN. rewrite !Z.shiftl_spec by done. destruct (decide (n < 16)).
  - rewrite Z.mod_pow2_bits_low, Z.land_spec, Z.shiftl_spec by lia. change 255 with (Z.ones 8). destruct (decide (n < 8)); [by rewrite !(Z.testbit_neg_r _ (n - 8)) by lia|].
    rewrite Z.ones_spec_low by lia. apply andb_true_r.
  - rewrite Z.mod_pow2_bits_high, Z.land_spec by lia. change 255 with (Z.ones 8). rewrite Z.ones_spec_high by lia. apply andb_false_r.
Qed.

Lemma crc16_step crc c : is_u 16 crc -> byte_ok c ->
  exists t, crc16tab !! Z.to_nat (Z.land (Z.lxor (Z.shiftr crc 8) c) 0x00FF) = Some t /\ u16 (Z.lxor (Z.shiftl crc 8) t) = lsteps 8 (Z.lxor crc (Z.shiftl c 8)).
Proof.
  intros Hc Hb. assert (byte_ok (Z.shiftr crc 8)) as Hh.
  { unfold is_u in Hc. rewrite Z.shiftr_div_pow2 by lia. change (2 ^ 8) with 256. unfold byte_ok. split; [apply Z.div_pos; lia|apply Z.div_lt_upper_bound; lia]. }
  assert (byte_ok (Z.lxor (Z.shiftr crc 8) c)) as Hx by (apply (lxor_bound 8); [lia|exact Hh|exact Hb]).
  assert (Z.land (Z.lxor (Z.shiftr crc 8) c) 0x00FF = Z.lxor (Z.shiftr crc 8) c) as -> by (rewrite land_255; apply Z.mod_small; exact Hx).
  eexists. split; [by apply crc16tab_entry|]. rewrite u16_lxor. rewrite (steps_lxor _ lstep_lxor 8 crc), (lsteps_high crc Hc), Z.lxor_assoc. f_equal.
  rewrite Z.shiftl_lxor, (steps_lxor _ lstep_lxor). apply uN_small. apply lxor_bound; [lia|apply lstep_bound..].
Qed.

Lemma crc16_loop_ok A s C crc : is_u 16 crc -> bytes_ok s ->
  crc16_loop (A ++ s ++ C) (zlen A) (length s) crc = Some (foldl (fun c b => lsteps 8 (Z.lxor c (Z.shiftl b 8))) crc s).
Proof.
  intros Hc Hs. revert A crc Hc. induction Hs as [|b s Hb Hs IH]; intros A crc Hc; [done|]. cbn [length crc16_loop foldl app].
  rewrite (load1_app A b (s ++ C) _ eq_refl). mstep. destruct (crc16_step crc b Hc Hb) as (t & -> & Ht). mstep. rewrite Ht.
  replace (A ++ b :: s ++ C) with ((A ++ [b]) ++ s ++ C) by (by rewrite <- app_assoc). replace (zlen A + 1) with (zlen (A ++ [b])) by zlia.
  apply IH. apply lstep_bound.
Qed.

Lemma crc16_ok A s C : bytes_ok s -> crc16 (A ++ s ++ C) (zlen A) (zlen s) = Some (remainder16 s).
Proof. intros Hs. unfold crc16, zlen. rewrite Nat2Z.id. apply (crc16_loop_ok A s C 0); [unfold is_u; lia|done]. Qed.

Lemma remainder16_bound s : is_u 16 (remainder16 s).
Proof. unfold remainder16. induction s as [|b s _] using rev_ind; [unfold is_u; cbn; lia|]. rewrite foldl_app. apply lstep_bound. Qed.

(** ** Hash tags *)

Lemma find_char_hit A s C c n : c ∉ s -> (length s < n)%nat -> find_char (A ++ s ++ c :: C) c n (zlen A) = Some (zlen (A ++ s)).
Proof.
  revert A n. induction s as [|b s IH]; intros A n Hs Hn; (destruct n as [|n]; [lia|]); cbn [find_char app].
  - rewrite (load1_app A c C _ eq_refl). mstep. by rewrite Z.eqb_refl, app_nil_r.
  - rewrite (load1_app A b (s ++ c :: C) _ eq_refl). mstep. rewrite not_elem_of_cons in Hs. destruct Hs as [Hb Hs]. rewrite (proj2 (Z.eqb_neq b c)) by congruence.
    replace (A ++ b :: s ++ c :: C) with ((A ++ [b]) ++ s ++ c :: C) by (by rewrite <- app_assoc). replace (zlen A + 1) with (zlen (A ++ [b])) by zlia.
    rewrite IH by (done || cbn in Hn; lia). by rewrite <- app_assoc.
Qed.
Lemma find_char_miss A s c : c ∉ s -> find_char (A ++ s) c (length s) (zlen A) = Some (zlen (A ++ s)).
Proof.
  revert A. induction s as [|b s IH]; intros A Hs; cbn [find_char length]; [by rewrite app_nil_r|].
  rewrite (load1_app A b s _ eq_refl). mstep. rewrite not_elem_of_cons in Hs. destruct Hs as [Hb Hs]. rewrite (proj2 (Z.eqb_neq b c)) by congruence.
  replace (A ++ b :: s) with ((A ++ [b]) ++ s) by (by rewrite <- app_assoc). replace (zlen A + 1) with (zlen (A ++ [b])) by zlia. by apply IH.
Qed.

(** [tag] is what stands between the first '{' of the key and the first '}' after it, and is not empty. *)
Definition hash_tag (key tag : bytes) : Prop := exists pre post, key = pre ++ 123 :: tag ++ 125 :: post /\ 123 ∉ pre /\ 125 ∉ tag /\ tag <> [].
Definition slot_of (s : bytes) : Z := remainder16 s mod 16384.

Lemma land_slot h : Z.land h 0x3FFF = h mod 16384.
Proof. apply (Z.land_ones h 14). lia. Qed.

Lemma whole_key key : bytes_ok key -> (let! h := crc16 key 0 (zlen key) in Some (Z.land h 0x3FFF)) = Some (slot_of key).
Proof.
  intros Hk. pose proof (crc16_ok [] key [] Hk) as Hc. cbn [app] in Hc. rewrite app_nil_r in Hc. change (zlen []) with 0 in Hc. rewrite Hc. mstep. by rewrite land_slot.
Qed.

Lemma split_at (c : Z) (l : bytes) : c ∉ l \/ exists l1 l2, l = l1 ++ c :: l2 /\ c ∉ l1.
Proof.
  induction l as [|b l IH]; [left; apply not_elem_of_nil|]. destruct (decide (b = c)) as [->|Hne]; [right; exists [], l; split; [done|apply not_elem_of_nil]|].
  destruct IH as [Hn|(l1 & l2 & -> & Hn)]; [left; by apply not_elem_of_cons|right]. exists (b :: l1), l2. split; [done|]. by apply not_elem_of_cons.
Qed.

(** The first occurrence of a character is unique. *)
Lemma cut_unique (c : Z) (l1 l2 r1 r2 : bytes) : l1 ++ c :: r1 = l2 ++ c :: r2 -> c ∉ l1 -> c ∉ l2 -> l1 = l2 /\ r1 = r2.
Proof.
  revert l2. induction l1 as [|b l1 IH]; intros [|b' l2] E H1 H2; cbn in E; injection E; intros; subst; [done|set_solver|set_solver|].
  destruct (IH l2) as [-> ->]; [done|set_solver|set_solver|done].
Qed.
Lemma hash_tag_rest key pre rest tag :
  key = pre ++ 123 :: rest -> 123 ∉ pre -> hash_tag key tag -> exists post, rest = tag ++ 125 :: post /\ 125 ∉ tag /\ tag <> [].
Proof. intros -> Hp (pre' & post & E' & Hp' & Ht & Hne). exists post. split; [by apply cut_unique in E' as [_ ?]|done]. Qed.

(** C28. The slot of a key: [keyHashSlot] is the remainder of the division of the hashed part by the CRC-16
    polynomial, modulo the number of slots, where the hashed part is the hash tag of the key, what stands
    between its first '{' and the first '}' after it, if there is one that is not empty, and the whole key
    otherwise.  So the slot is always a slot, and keys with the same tag go to the same one. *)
Theorem keyHashSlot_correct key :
  bytes_ok key ->
  exists slot, keyHashSlot key (zlen key) = Some slot /\ 0 <= slot < 16384 /\
    (forall tag, hash_tag key tag -> slot = slot_of tag) /\ ((forall tag, ~ hash_tag key tag) -> slot = slot_of key).
Proof.
  intros Hk. assert (forall s, 0 <= slot_of s < 16384) as Hrange by (intros s; apply Z.mod_pos_bound; lia).
  assert (forall r, (forall tag, ~ hash_tag key tag) -> r = Some (slot_of key) -> exists slot, r = Some slot /\ 0 <= slot < 16384 /\
    (forall tag, hash_tag key tag -> slot = slot_of tag) /\ ((forall tag, ~ hash_tag key tag) -> slot = slot_of key)) as Hnone.
  { intros r Hno ->. exists (slot_of key). split; [done|]. split; [done|]. split; [|done]. intros tag Ht. by destruct (Hno tag). }
  destruct (split_at 123 key) as [Hno|(pre & rest & E & Hpre)].
  { apply Hnone; [intros tag (p & q & -> & _); set_solver|]. unfold keyHashSlot. pose proof (find_char_miss [] key 123 Hno) as Hf. cbn [app] in Hf. change (zlen []) with 0 in Hf.
    assert (Z.to_nat (zlen key) = length key) as -> by (unfold zlen; lia). rewrite Hf. mstep. rewrite Z.eqb_refl. by apply whole_key. }
  assert (find_char key 123 (Z.to_nat (zlen key)) 0 = Some (zlen pre)) as Hf1.
  { rewrite E. apply (find_char_hit [] pre rest 123); [done|]. unfold zlen. rewrite length_app. cbn. lia. }
  unfold keyHashSlot in *. rewrite Hf1 in *. cbn [mbind option_bind] in *.
  assert ((zlen pre =? zlen key) = false) as Hne by (apply Z.eqb_neq; rewrite E; zlia). rewrite Hne in *.
  assert (pre ++ 123 :: rest = (pre ++ [123]) ++ rest) as Eq by (by rewrite <- app_assoc). assert (zlen pre + 1 = zlen (pre ++ [123])) as Ez by zlia.
  assert (Z.to_nat (zlen key - (zlen pre + 1)) = length rest) as En by (rewrite E; unfold zlen; rewrite length_app; cbn; lia).
  destruct (split_at 125 rest) as [Hno|(tag & post & Er & Htag)].
  - assert (find_char key 125 (Z.to_nat (zlen key - (zlen pre + 1))) (zlen pre + 1) = Some (zlen key)) as Hf2.
    { rewrite En, Ez, E, Eq. by apply find_char_miss. }
    rewrite Hf2 in *. cbn [mbind option_bind] in *. rewrite Z.eqb_refl in *. cbn [orb] in *. apply Hnone; [|by apply whole_key].
    intros tag Ht. destruct (hash_tag_rest key pre rest tag E Hpre Ht) as (post & -> & _). set_solver.
  - assert (find_char key 125 (Z.to_nat (zlen key - (zlen pre + 1))) (zlen pre + 1) = Some (zlen (pre ++ [123] ++ tag))) as Hf2.
    { rewrite En, Ez, E, Eq, Er. rewrite find_char_hit by (done || rewrite length_app; cbn; lia). by rewrite <- app_assoc. }
    rewrite Hf2 . mstep. assert ((zlen (pre ++ [123] ++ tag) =? zlen key) = false) as -> by (apply Z.eqb_neq; rewrite E, Er; zlia). cbn [orb].
    assert (forall t, hash_tag key t -> t = tag) as Hsame.
    { intros t Ht. destruct (hash_tag_rest key pre rest t E Hpre Ht) as (post' & E' & Hn & _). rewrite Er in E'. by apply cut_unique in E' as [-> _]. }
    destruct (decide (tag = [])) as [->|Hte].
    + assert ((zlen (pre ++ [123] ++ []) =? zlen pre + 1) = true) as Hz by (apply Z.eqb_eq; zlia). rewrite Hz in *.
      apply Hnone; [|by apply whole_key]. intros t Ht. pose proof (Hsame t Ht) as ->. by destruct Ht as (? & ? & _ & _ & _ & ?).
    + assert ((zlen (pre ++ [123] ++ tag) =? zlen pre + 1) = false) as -> by (apply Z.eqb_neq; destruct tag; [done|zlia]).
      assert (crc16 key (zlen pre + 1) (zlen (pre ++ [123] ++ tag) - zlen pre - 1) = Some (remainder16 tag)) as ->.
      { replace (zlen (pre ++ [123] ++ tag) - zlen pre - 1) with (zlen tag) by zlia. rewrite Ez, E, Eq, Er. apply crc16_ok. rewrite E, Er in Hk.
        apply Forall_app in Hk as [_ Hk]. apply Forall_cons in Hk as [_ Hk]. by apply Forall_app in Hk as [? _]. }
      mstep. exists (slot_of tag). rewrite land_slot. split; [done|]. split; [done|]. split; [intros t Ht; by rewrite (Hsame t Ht)|].
      intros Hno. destruct (Hno tag). exists pre, post. rewrite E, Er. done.
Qed.

Lemma keyHashSlot_correct_witness : exists slot, keyHashSlot [97; 123; 98; 125] 4 = Some slot /\ slot = slot_of [98].
Proof.
  destruct (keyHashSlot_correct [97; 123; 98; 125]) as (slot & Hs & _ & Ht & _); [repeat constructor; unfold byte_ok; lia|].
  exists slot. split; [exact Hs|]. apply Ht. exists [97], []. split; [reflexivity|]. split; [set_solver|]. split; [set_solver|done].
Defined.
