(* ===== verification/Keyspace.v ===== *)
(** * The keyspace (db.c, lazyfree.c, expire.c, the access clocks of evict.c)

    A database is a dictionary of objects and a dictionary of expiration times.  A pointer to an
    object of the keyspace is its database and key; an object shows here its access clock [lru] and
    its value.  What the functions do besides (replies, notifications, propagation to replicas and
    to the append only file, the touching of watched keys, the map from slots to keys) is a list of
    events, oldest first. *)

From Stdlib Require Import ZArith Lia SpecFloat String.
From stdpp Require Import base numbers option fin_maps gmap list.
From S2P Require Import Prelude Memory Util Glob Sds Server Dict.

Local Open Scope Z_scope.
Local Open Scope redis_scope.

Definition OBJ_STRING : Z := 0.
Definition OBJ_LIST : Z := 1.
Definition OBJ_SET : Z := 2.
Definition OBJ_ZSET : Z := 3.
Definition OBJ_STREAM : Z := 6.
Definition LRU_BITS : Z := 24.
Definition LRU_CLOCK_MAX : Z := Z.shiftl 1 LRU_BITS - 1.
Definition LRU_CLOCK_RESOLUTION : Z := 1000.
Definition LFU_INIT_VAL : Z := 5.
Definition RAND_MAX : Z := 2147483647.
Definition LOOKUP_NONE : Z := 0.
Definition LOOKUP_NOTOUCH : Z := Z.shiftl 1 0.

(** What the keyspace asks of a value: [o->type]. *)
Class Value (V : Type) := obj_type : V -> Z.

Record robj (V : Type) := Robj { lru : Z; ptr : V }.
Arguments Robj {V}.
Arguments lru {V}.
Arguments ptr {V}.

Record redisDb (V : Type) := RedisDb { ddict : dict bytes (robj V); dexpires : dict bytes Z }.
Arguments RedisDb {V}.
Arguments ddict {V}.
Arguments dexpires {V}.

(** What clients are sent. *)
Inductive reply :=
| ReplyInt (n : Z)
| ReplyOk
| ReplyNull
| ReplyEmptySet
| ReplySetLen (n : Z)
| ReplyArrayLen (n : Z)
| ReplyMapLen (n : Z)
| ReplyBulk (s : bytes)
| ReplyNoKey
| ReplyWrongType
| ReplySyntax
| ReplyOutOfRange
| ReplySameObject
| ReplyError (msg : string).

Inductive event :=
| Reply (r : reply)
| Notify (name : string) (key : bytes) (db : nat)
| ModifiedKey (db : nat) (key : bytes)
| FlushedDb (db : Z)
| KeyReady (db : nat) (key : bytes)
| PropagateExpire (db : nat) (key : bytes) (lazy : bool)
| AlsoPropagate (db : nat) (name : string) (args : list bytes)
| PreventPropagation
| RewriteCommand (name : string) (args : list bytes)
| SlotAdd (key : bytes)
| SlotDel (key : bytes)
| SlotFlush
| SlaveKeyWithExpire (db : nat) (key : bytes)
| FlushSlaveKeys
| ScanReady (db : nat).

(** The fields of [server] the functions read ([shared_integers]: the eviction policy allows values
    to be shared objects), and what the system calls return; the clock does
    not advance during a command. *)
Record kenv := KEnv {
  masterhost : bool;
  repl_slave_ro : bool;
  loading : bool;
  lua_time_start : option Z;
  fixed_time_expire : Z;
  cached_mstime : Z;
  mstime : Z;
  unixtime : Z;
  server_lruclock : Z;
  hz : Z;
  lfu_policy : bool;
  lfu_log_factor : Z;
  lfu_decay_time : Z;
  rand : nat -> Z;
  active_child : bool;
  readonly_client : bool;
  master_client : bool;
  cluster_enabled : bool;
  lazyfree_lazy_expire : bool;
  lazyfree_lazy_server_del : bool;
  lazyfree_lazy_user_del : bool;
  set_max_intset_entries : Z;
  proto_max_bulk_len : Z;
  shared_integers : bool;
  dict_can_resize : bool }.

(** The state; [calls] counts the calls of [rand()]. *)
Record keyspace (V : Type) := Keyspace {
  dbs : list (redisDb V);
  dirty : Z;
  stat_expiredkeys : Z;
  stat_keyspace_hits : Z;
  stat_keyspace_misses : Z;
  calls : nat;
  events : list event }.
Arguments Keyspace {V}.
Arguments dbs {V}.
Arguments dirty {V}.
Arguments stat_expiredkeys {V}.
Arguments stat_keyspace_hits {V}.
Arguments stat_keyspace_misses {V}.
Arguments calls {V}.
Arguments events {V}.

(** ** Access clocks *)

Definition LFUGetTimeInMinutes (e : kenv) : Z := Z.land (Z.quot (unixtime e) 60) 65535.

Definition LFUTimeElapsed (e : kenv) (ldt : Z) : Z :=
  let now := LFUGetTimeInMinutes e in
  if now >=? ldt then now - ldt else u64 (65535 - ldt + now).

(** [(double)z] *)
Definition double_of_Z (z : Z) : spec_float := binary_normalize 53 1024 z 0 false.

Definition LFULogIncr (e : kenv) (r : Z) (counter : Z) : Z :=
  if counter =? 255 then 255 else
  let r := SFdiv 53 1024 (double_of_Z r) (double_of_Z RAND_MAX) in
  let baseval := double_of_Z (counter - LFU_INIT_VAL) in
  let baseval := if SFltb baseval (double_of_Z 0) then double_of_Z 0 else baseval in
  let p := SFdiv 53 1024 (double_of_Z 1)
             (SFadd 53 1024 (SFmul 53 1024 baseval (double_of_Z (lfu_log_factor e))) (double_of_Z 1)) in
  if SFltb r p then u8 (counter + 1) else counter.

Definition LFUDecrAndReturn (e : kenv) (lru : Z) : Z :=
  let ldt := Z.shiftr lru 8 in
  let counter := Z.land lru 255 in
  let num_periods := if lfu_decay_time e =? 0 then 0 else u64 (LFUTimeElapsed e ldt) / u64 (lfu_decay_time e) in
  if negb (num_periods =? 0) then (if num_periods >? counter then 0 else counter - num_periods) else counter.

(** The new value of the 24 bit field [lru]; [r] is what [rand()] returns. *)
Definition updateLFU (e : kenv) (r : Z) (lru : Z) : Z :=
  let counter := LFUDecrAndReturn e lru in
  let counter := LFULogIncr e r (u8 counter) in
  uN LRU_BITS (Z.lor (Z.shiftl (LFUGetTimeInMinutes e) 8) counter).

Definition getLRUClock (e : kenv) : Z := u32 (Z.land (Z.quot (mstime e) LRU_CLOCK_RESOLUTION) LRU_CLOCK_MAX).

Definition LRU_CLOCK (e : kenv) : Z :=
  if Z.quot 1000 (hz e) <=? LRU_CLOCK_RESOLUTION then server_lruclock e else getLRUClock e.

Definition estimateObjectIdleTime (e : kenv) (lru : Z) : Z :=
  let lruclock := LRU_CLOCK e in
  if lruclock >=? lru then u64 ((lruclock - lru) * LRU_CLOCK_RESOLUTION)
  else u64 (u64 (lruclock + (LRU_CLOCK_MAX - lru)) * LRU_CLOCK_RESOLUTION).

Section Keyspace.
Context {V : Type} `{!Value V, !dictType bytes}.
Implicit Types (s : keyspace V) (key : bytes) (i : nat).

(** ** State *)

Definition emit (ev : event) s : keyspace V :=
  Keyspace (dbs s) (dirty s) (stat_expiredkeys s) (stat_keyspace_hits s) (stat_keyspace_misses s) (calls s)
    (events s ++ [ev]).
Definition addReply (r : reply) s : keyspace V := emit (Reply r) s.
Definition notifyKeyspaceEvent (name : string) key i s : keyspace V := emit (Notify name key i) s.

Definition set_dbs (l : list (redisDb V)) s : keyspace V :=
  Keyspace l (dirty s) (stat_expiredkeys s) (stat_keyspace_hits s) (stat_keyspace_misses s) (calls s) (events s).
(** [server.dirty] is a long long. *)
Definition add_dirty (n : Z) s : keyspace V :=
  Keyspace (dbs s) (i64 (dirty s + n)) (stat_expiredkeys s) (stat_keyspace_hits s) (stat_keyspace_misses s) (calls s)
    (events s).
Definition stat_expired s : keyspace V :=
  Keyspace (dbs s) (dirty s) (i64 (stat_expiredkeys s + 1)) (stat_keyspace_hits s) (stat_keyspace_misses s) (calls s)
    (events s).
Definition stat_hit s : keyspace V :=
  Keyspace (dbs s) (dirty s) (stat_expiredkeys s) (i64 (stat_keyspace_hits s + 1)) (stat_keyspace_misses s) (calls s)
    (events s).
Definition stat_miss s : keyspace V :=
  Keyspace (dbs s) (dirty s) (stat_expiredkeys s) (stat_keyspace_hits s) (i64 (stat_keyspace_misses s + 1)) (calls s)
    (events s).
Definition next_call s : keyspace V :=
  Keyspace (dbs s) (dirty s) (stat_expiredkeys s) (stat_keyspace_hits s) (stat_keyspace_misses s) (S (calls s))
    (events s).

Definition put_dict i (d : dict bytes (robj V)) s : option (keyspace V) :=
  let! db := dbs s !! i in
  Some (set_dbs (<[i := RedisDb d (dexpires db)]> (dbs s)) s).
Definition put_expires i (d : dict bytes Z) s : option (keyspace V) :=
  let! db := dbs s !! i in
  Some (set_dbs (<[i := RedisDb (ddict db) d]> (dbs s)) s).

(** [dictFind(db->dict,key)]: the entry and the object. *)
Definition find_obj i key s : option (option (loc * robj V) * keyspace V) :=
  let! db := dbs s !! i in
  let! (de, d) := dictFind (ddict db) key in
  let! s := put_dict i d s in
  match de with
  | None => Some (None, s)
  | Some l => let! (_, o) := entry_at d l in Some (Some (l, o), s)
  end.
(** [dictFind(db->expires,key)] and the time of the entry. *)
Definition find_expire i key s : option (option Z * keyspace V) :=
  let! db := dbs s !! i in
  let! (t, d) := dictFetchValue (dexpires db) key in
  let! s := put_expires i d s in
  Some (t, s).
(** Assignment through a pointer to the value of the entry. *)
Definition put_obj i (l : loc) (o : robj V) s : option (keyspace V) :=
  let! db := dbs s !! i in
  let! d := dictSetVal (ddict db) l o in
  put_dict i d s.

(** Reading and writing an object through a pointer obtained before, without a lookup. *)
Definition entry_of i key s : option (loc * robj V) :=
  let! db := dbs s !! i in
  let! (_, l) := search_tables (ddict db) (hashFunction key) key in
  let! l := l in
  let! (_, o) := entry_at (ddict db) l in
  Some (l, o).
Definition load_obj i key s : option V := let! (_, o) := entry_of i key s in Some (ptr o).
Definition store_obj i key (v : V) s : option (keyspace V) :=
  let! (l, o) := entry_of i key s in
  put_obj i l (Robj (lru o) v) s.

Definition signalModifiedKey i key s : keyspace V := emit (ModifiedKey i key) s.

(** ** Deletion *)

Definition delete_expire i key s : option (keyspace V) :=
  let! db := dbs s !! i in
  if dictSize (dexpires db) >? 0 then
    let! (_, d) := dictDelete (dexpires db) key in put_expires i d s
  else Some s.

Definition dbSyncDelete (e : kenv) i key s : option (bool * keyspace V) :=
  let! s := delete_expire i key s in
  let! db := dbs s !! i in
  let! (r, d) := dictDelete (ddict db) key in
  let! s := put_dict i d s in
  if r =? DICT_OK then Some (true, if cluster_enabled e then emit (SlotDel key) s else s)
  else Some (false, s).

(** Whether the memory is released here or by a background thread makes no difference. *)
Definition dbAsyncDelete (e : kenv) i key s : option (bool * keyspace V) :=
  let! s := delete_expire i key s in
  let! db := dbs s !! i in
  let! (de, d) := dictUnlink (ddict db) key in
  let! s := put_dict i d s in
  match de with
  | Some _ => Some (true, if cluster_enabled e then emit (SlotDel key) s else s)
  | None => Some (false, s)
  end.

Definition delete_with (e : kenv) (lazy : bool) i key s : option (bool * keyspace V) :=
  if lazy then dbAsyncDelete e i key s else dbSyncDelete e i key s.

Definition dbDelete (e : kenv) i key s : option (bool * keyspace V) :=
  delete_with e (lazyfree_lazy_server_del e) i key s.

(** ** Expiration *)

(** The time, -1 when there is none. *)
Definition getExpire i key s : option (Z * keyspace V) :=
  let! db := dbs s !! i in
  if dictSize (dexpires db) =? 0 then Some (-1, s) else
  let! (t, s) := find_expire i key s in
  match t with
  | None => Some (-1, s)
  | Some t =>
      let! (de, s) := find_obj i key s in
      match de with None => None | Some _ => Some (t, s) end
  end.

Definition current_time (e : kenv) : Z :=
  match lua_time_start e with
  | Some t => t
  | None => if fixed_time_expire e >? 0 then cached_mstime e else mstime e
  end.

Definition keyIsExpired (e : kenv) i key s : option (bool * keyspace V) :=
  let! (when, s) := getExpire i key s in
  if when <? 0 then Some (false, s) else
  if loading e then Some (false, s) else
  Some (current_time e >? when, s).

Definition expireIfNeeded (e : kenv) i key s : option (bool * keyspace V) :=
  let! (expired, s) := keyIsExpired e i key s in
  if negb expired then Some (false, s) else
  if masterhost e then Some (true, s) else
  let s := stat_expired s in
  let s := emit (PropagateExpire i key (lazyfree_lazy_expire e)) s in
  let s := notifyKeyspaceEvent "expired" key i s in
  let! (retval, s) := delete_with e (lazyfree_lazy_expire e) i key s in
  let s := if (retval : bool) then signalModifiedKey i key s else s in
  Some (retval, s).

Definition removeExpire i key s : option (bool * keyspace V) :=
  let! (de, s) := find_obj i key s in
  match de with
  | None => None
  | Some _ =>
      let! db := dbs s !! i in
      let! (r, d) := dictDelete (dexpires db) key in
      let! s := put_expires i d s in
      Some (r =? DICT_OK, s)
  end.

(** [c] is a client here. *)
Definition setExpire (e : kenv) i key (when : Z) s : option (keyspace V) :=
  let! (kde, s) := find_obj i key s in
  match kde with
  | None => None
  | Some _ =>
      let! db := dbs s !! i in
      let! (de, d) := dictAddOrFind (dict_can_resize e) (dexpires db) key 0 in
      let! de := de in
      let! d := dictSetVal d de when in
      let! s := put_expires i d s in
      let writable_slave := masterhost e && negb (repl_slave_ro e) in
      Some (if writable_slave && negb (master_client e) then emit (SlaveKeyWithExpire i key) s else s)
  end.

(** ** Lookup *)

Definition lookupKey (e : kenv) i key (flags : Z) s : option (option (robj V) * keyspace V) :=
  let! (de, s) := find_obj i key s in
  match de with
  | None => Some (None, s)
  | Some (l, val) =>
      if negb (active_child e) && (Z.land flags LOOKUP_NOTOUCH =? 0) then
        if lfu_policy e then
          let val := Robj (updateLFU e (rand e (calls s)) (lru val)) (ptr val) in
          let! s := put_obj i l val s in
          Some (Some val, next_call s)
        else
          let val := Robj (uN LRU_BITS (LRU_CLOCK e)) (ptr val) in
          let! s := put_obj i l val s in
          Some (Some val, s)
      else Some (Some val, s)
  end.

Definition key_miss i key s : keyspace V := notifyKeyspaceEvent "keymiss" key i (stat_miss s).

Definition lookupKeyReadWithFlags (e : kenv) i key (flags : Z) s : option (option (robj V) * keyspace V) :=
  let! (expired, s) := expireIfNeeded e i key s in
  if expired && negb (masterhost e) then Some (None, key_miss i key s) else
  if expired && readonly_client e then Some (None, key_miss i key s) else
  let! (val, s) := lookupKey e i key flags s in
  match val with
  | None => Some (None, key_miss i key s)
  | Some _ => Some (val, stat_hit s)
  end.

Definition lookupKeyRead (e : kenv) i key s : option (option (robj V) * keyspace V) :=
  lookupKeyReadWithFlags e i key LOOKUP_NONE s.

Definition lookupKeyWriteWithFlags (e : kenv) i key (flags : Z) s : option (option (robj V) * keyspace V) :=
  let! (_, s) := expireIfNeeded e i key s in
  lookupKey e i key flags s.

Definition lookupKeyWrite (e : kenv) i key s : option (option (robj V) * keyspace V) :=
  lookupKeyWriteWithFlags e i key LOOKUP_NONE s.

Definition lookupKeyReadOrReply (e : kenv) i key (r : reply) s : option (option (robj V) * keyspace V) :=
  let! (o, s) := lookupKeyRead e i key s in
  match o with None => Some (None, addReply r s) | Some _ => Some (o, s) end.

Definition lookupKeyWriteOrReply (e : kenv) i key (r : reply) s : option (option (robj V) * keyspace V) :=
  let! (o, s) := lookupKeyWrite e i key s in
  match o with None => Some (None, addReply r s) | Some _ => Some (o, s) end.

(** ** Insertion *)

(** [createObject]: the clock of a new object *)
Definition createObject (e : kenv) (v : V) : robj V :=
  Robj (if lfu_policy e then uN LRU_BITS (Z.lor (Z.shiftl (LFUGetTimeInMinutes e) 8) LFU_INIT_VAL)
        else uN LRU_BITS (LRU_CLOCK e)) v.

Definition dbAdd (e : kenv) i key (val : robj V) s : option (keyspace V) :=
  let! db := dbs s !! i in
  let! (retval, d) := dictAdd (dict_can_resize e) (ddict db) key val val in
  if negb (retval =? DICT_OK) then None else
  let! s := put_dict i d s in
  let t := obj_type (ptr val) in
  let s := if (t =? OBJ_LIST) || (t =? OBJ_ZSET) || (t =? OBJ_STREAM) then emit (KeyReady i key) s else s in
  Some (if cluster_enabled e then emit (SlotAdd key) s else s).

Definition dbAddRDBLoad (e : kenv) i key (val : robj V) s : option (bool * keyspace V) :=
  let! db := dbs s !! i in
  let! (retval, d) := dictAdd (dict_can_resize e) (ddict db) key val val in
  let! s := put_dict i d s in
  if negb (retval =? DICT_OK) then Some (false, s) else
  Some (true, if cluster_enabled e then emit (SlotAdd key) s else s).

Definition dbOverwrite (e : kenv) i key (val : robj V) s : option (keyspace V) :=
  let! (de, s) := find_obj i key s in
  match de with
  | None => None
  | Some (l, old) => put_obj i l (if lfu_policy e then Robj (lru old) (ptr val) else val) s
  end.

Definition genericSetKey (e : kenv) i key (val : robj V) (keepttl signal : bool) s : option (keyspace V) :=
  let! (o, s) := lookupKeyWrite e i key s in
  let! s := match o with
            | None => dbAdd e i key val s
            | Some _ => dbOverwrite e i key val s
            end in
  let! s := (if negb keepttl then let! (_, s) := removeExpire i key s in Some s else Some s) in
  Some (if signal then signalModifiedKey i key s else s).

Definition setKey (e : kenv) i key (val : robj V) s : option (keyspace V) := genericSetKey e i key val false true s.

Definition dbExists i key s : option (bool * keyspace V) :=
  let! (de, s) := find_obj i key s in
  Some (match de with None => false | Some _ => true end, s).

(** ** Commands of the keyspace *)

Fixpoint del_loop (e : kenv) (lazy : bool) i (keys : list bytes) (numdel : Z) s : option (Z * keyspace V) :=
  match keys with
  | [] => Some (numdel, s)
  | key :: keys =>
      let! (_, s) := expireIfNeeded e i key s in
      let! (deleted, s) := delete_with e lazy i key s in
      if (deleted : bool) then
        let s := signalModifiedKey i key s in
        let s := notifyKeyspaceEvent "del" key i s in
        del_loop e lazy i keys (numdel + 1) (add_dirty 1 s)
      else del_loop e lazy i keys numdel s
  end.

Definition delGenericCommand (e : kenv) (lazy : bool) i (keys : list bytes) s : option (keyspace V) :=
  let! (numdel, s) := del_loop e lazy i keys 0 s in
  Some (addReply (ReplyInt numdel) s).

Definition delCommand (e : kenv) i keys s := delGenericCommand e (lazyfree_lazy_user_del e) i keys s.
Definition unlinkCommand (e : kenv) i keys s := delGenericCommand e true i keys s.

Fixpoint exists_loop (e : kenv) i (keys : list bytes) (count : Z) s : option (Z * keyspace V) :=
  match keys with
  | [] => Some (count, s)
  | key :: keys =>
      let! (o, s) := lookupKeyRead e i key s in
      exists_loop e i keys (match o with Some _ => count + 1 | None => count end) s
  end.

Definition existsCommand (e : kenv) i (keys : list bytes) s : option (keyspace V) :=
  let! (count, s) := exists_loop e i keys 0 s in
  Some (addReply (ReplyInt count) s).

(** [dbAdd(db,key,o); if (expire != -1) setExpire(c,db,key,expire);] *)
Definition add_with_expire (e : kenv) i key (o : robj V) (expire : Z) s : option (keyspace V) :=
  let! s := dbAdd e i key o s in
  if negb (expire =? -1) then setExpire e i key expire s else Some s.

Definition renameGenericCommand (e : kenv) i (key newkey : bytes) (nx : bool) s : option (keyspace V) :=
  let samekey := sdscmp key newkey =? 0 in
  let! (o, s) := lookupKeyWriteOrReply e i key ReplyNoKey s in
  match o with
  | None => Some s
  | Some o =>
      if samekey then Some (addReply (if nx then ReplyInt 0 else ReplyOk) s) else
      let! (expire, s) := getExpire i key s in
      let! (dst, s) := lookupKeyWrite e i newkey s in
      if match dst with Some _ => nx | None => false end then Some (addReply (ReplyInt 0) s) else
      let! s := match dst with
                | Some _ => let! (_, s) := dbDelete e i newkey s in Some s
                | None => Some s
                end in
      let! s := add_with_expire e i newkey o expire s in
      let! (_, s) := dbDelete e i key s in
      let s := signalModifiedKey i key s in
      let s := signalModifiedKey i newkey s in
      let s := notifyKeyspaceEvent "rename_from" key i s in
      let s := notifyKeyspaceEvent "rename_to" newkey i s in
      let s := add_dirty 1 s in
      Some (addReply (if nx then ReplyInt 1 else ReplyOk) s)
  end.

Definition renameCommand (e : kenv) i key newkey s := renameGenericCommand e i key newkey false s.
Definition renamenxCommand (e : kenv) i key newkey s := renameGenericCommand e i key newkey true s.

(** [dbid] is the target as parsed, [None] when it is not a number in the range of an int. *)
Definition moveCommand (e : kenv) (src : nat) key (dbid : option Z) s : option (keyspace V) :=
  if cluster_enabled e then Some (addReply (ReplyError "MOVE is not allowed in cluster mode") s) else
  match dbid with
  | None => Some (addReply ReplyOutOfRange s)
  | Some dbid =>
      if (dbid <? 0) || (dbid >=? zlen (dbs s)) then Some (addReply ReplyOutOfRange s) else
      let dst := Z.to_nat dbid in
      if (src =? dst)%nat then Some (addReply ReplySameObject s) else
      let! (o, s) := lookupKeyWrite e src key s in
      match o with
      | None => Some (addReply (ReplyInt 0) s)
      | Some o =>
          let! (expire, s) := getExpire src key s in
          let! (there, s) := lookupKeyWrite e dst key s in
          match there with
          | Some _ => Some (addReply (ReplyInt 0) s)
          | None =>
              let! s := add_with_expire e dst key o expire s in
              let! (_, s) := dbDelete e src key s in
              let s := signalModifiedKey src key s in
              let s := signalModifiedKey dst key s in
              let s := notifyKeyspaceEvent "move_from" key src s in
              let s := notifyKeyspaceEvent "move_to" key dst s in
              let s := add_dirty 1 s in
              Some (addReply (ReplyInt 1) s)
          end
      end
  end.

Definition dbSwapDatabases (id1 id2 : Z) s : option (cstatus * keyspace V) :=
  if (id1 <? 0) || (id1 >=? zlen (dbs s)) || (id2 <? 0) || (id2 >=? zlen (dbs s)) then Some (C_ERR, s) else
  if id1 =? id2 then Some (C_OK, s) else
  let! db1 := dbs s !! Z.to_nat id1 in
  let! db2 := dbs s !! Z.to_nat id2 in
  let s := set_dbs (<[Z.to_nat id2 := db1]> (<[Z.to_nat id1 := db2]> (dbs s))) s in
  Some (C_OK, emit (ScanReady (Z.to_nat id2)) (emit (ScanReady (Z.to_nat id1)) s)).

(** ** Emptying *)

Fixpoint empty_loop (async : bool) (n j : nat) (removed : Z) s : option (Z * keyspace V) :=
  match n with
  | O => Some (removed, s)
  | S n =>
      let! db := dbs s !! j in
      let removed := i64 (removed + dictSize (ddict db)) in
      let db := if async then RedisDb dictCreate dictCreate
                else RedisDb (snd (dictEmpty (ddict db))) (snd (dictEmpty (dexpires db))) in
      empty_loop async n (S j) removed (set_dbs (<[j := db]> (dbs s)) s)
  end.

(** [backup]: the databases are those put aside while a replica loads a new data set.  The module
    events are left out. *)
Definition emptyDbGeneric (e : kenv) (dbnum : Z) (async backup : bool) s : option (Z * keyspace V) :=
  if (dbnum <? -1) || (dbnum >=? zlen (dbs s)) then Some (-1, s) else
  let s := if negb backup then emit (FlushedDb dbnum) s else s in
  let! (removed, s) := (if dbnum =? -1 then empty_loop async (length (dbs s)) 0 0 s
                        else empty_loop async 1 (Z.to_nat dbnum) 0 s) in
  if backup then Some (removed, s) else
  let s := if cluster_enabled e then emit SlotFlush s else s in
  let s := if dbnum =? -1 then emit FlushSlaveKeys s else s in
  Some (removed, s).

Definition emptyDb (e : kenv) (dbnum : Z) (async : bool) s : option (Z * keyspace V) := emptyDbGeneric e dbnum async false s.

Fixpoint count_loop (l : list (redisDb V)) (total : Z) : Z :=
  match l with [] => total | db :: l => count_loop l (i64 (total + dictSize (ddict db))) end.
Definition dbTotalServerKeyCount s : Z := count_loop (dbs s) 0.

(** [strcasecmp(a,b) == 0], on the bytes before the first NUL *)
Fixpoint c_str (a : bytes) : bytes := match a with [] => [] | c :: a => if c =? 0 then [] else c :: c_str a end.
Definition same_nocase (a b : bytes) : bool := bool_decide (map (fun c => tolower c) (c_str a) = map (fun c => tolower c) (c_str b)).

(** The arguments after the name: [Some async], or [None] after a reply with an error *)
Definition getFlushCommandFlags (args : list bytes) : option bool :=
  match args with
  | [] => Some false
  | [a] => if same_nocase a [97; 115; 121; 110; 99] then Some true else None
  | _ => None
  end.

Definition flushdbCommand (e : kenv) i (args : list bytes) s : option (keyspace V) :=
  match getFlushCommandFlags args with
  | None => Some (addReply ReplySyntax s)
  | Some async =>
      let! (removed, s) := emptyDb e (Z.of_nat i) async s in
      Some (addReply ReplyOk (add_dirty removed s))
  end.

Definition set_dirty (n : Z) s : keyspace V :=
  Keyspace (dbs s) n (stat_expiredkeys s) (stat_keyspace_hits s) (stat_keyspace_misses s) (calls s) (events s).

(** [saves]: [server.saveparamslen > 0]; the counter is kept in an int around the save. *)
Definition flushAllDataAndResetRDB (e : kenv) (async saves : bool) s : option (keyspace V) :=
  let! (removed, s) := emptyDb e (-1) async s in
  let s := add_dirty removed s in
  let s := if saves then set_dirty (i32 (dirty s)) s else s in
  Some (add_dirty 1 s).

Definition flushallCommand (e : kenv) (saves : bool) (args : list bytes) s : option (keyspace V) :=
  match getFlushCommandFlags args with
  | None => Some (addReply ReplySyntax s)
  | Some async => let! s := flushAllDataAndResetRDB e async saves s in Some (addReply ReplyOk s)
  end.

(** ** Commands of expiration *)

(** When loading, or on a replica, a key is given an expiration time in the past. *)
Definition checkAlreadyExpired (e : kenv) (when : Z) : bool :=
  (when <=? mstime e) && negb (loading e) && negb (masterhost e).

(** [param] is the argument as sent; [seconds] is [unit == UNIT_SECONDS].  The products and sums of
    long longs wrap around. *)
Definition expireGenericCommand (e : kenv) i key (param : bytes) (basetime : Z) (seconds : bool) s
    : option (keyspace V) :=
  match string2ll param with
  | None => Some (addReply (ReplyError "value is not an integer or out of range") s)
  | Some when =>
      let when := if seconds then i64 (when * 1000) else when in
      let when := i64 (when + basetime) in
      let! (o, s) := lookupKeyWrite e i key s in
      match o with
      | None => Some (addReply (ReplyInt 0) s)
      | Some _ =>
          if checkAlreadyExpired e when then
            let! (deleted, s) := delete_with e (lazyfree_lazy_expire e) i key s in
            if negb deleted then None else
            let s := add_dirty 1 s in
            let s := emit (RewriteCommand (if lazyfree_lazy_expire e then "UNLINK" else "DEL") [key]) s in
            let s := signalModifiedKey i key s in
            let s := notifyKeyspaceEvent "del" key i s in
            Some (addReply (ReplyInt 1) s)
          else
            let! s := setExpire e i key when s in
            let s := addReply (ReplyInt 1) s in
            let s := signalModifiedKey i key s in
            let s := notifyKeyspaceEvent "expire" key i s in
            Some (add_dirty 1 s)
      end
  end.

Definition expireCommand (e : kenv) i key param s := expireGenericCommand e i key param (mstime e) true s.
Definition expireatCommand (e : kenv) i key param s := expireGenericCommand e i key param 0 true s.
Definition pexpireCommand (e : kenv) i key param s := expireGenericCommand e i key param (mstime e) false s.
Definition pexpireatCommand (e : kenv) i key param s := expireGenericCommand e i key param 0 false s.

Definition ttlGenericCommand (e : kenv) i key (output_ms : bool) s : option (keyspace V) :=
  let! (o, s) := lookupKeyReadWithFlags e i key LOOKUP_NOTOUCH s in
  match o with
  | None => Some (addReply (ReplyInt (-2)) s)
  | Some _ =>
      let! (expire, s) := getExpire i key s in
      let ttl := if negb (expire =? -1)
                 then let ttl := i64 (expire - mstime e) in if ttl <? 0 then 0 else ttl
                 else -1 in
      if ttl =? -1 then Some (addReply (ReplyInt (-1)) s)
      else Some (addReply (ReplyInt (if output_ms then ttl else Z.quot (i64 (ttl + 500)) 1000)) s)
  end.

Definition ttlCommand (e : kenv) i key s := ttlGenericCommand e i key false s.
Definition pttlCommand (e : kenv) i key s := ttlGenericCommand e i key true s.

Definition persistCommand (e : kenv) i key s : option (keyspace V) :=
  let! (o, s) := lookupKeyWrite e i key s in
  match o with
  | Some _ =>
      let! (removed, s) := removeExpire i key s in
      if (removed : bool) then
        let s := signalModifiedKey i key s in
        let s := notifyKeyspaceEvent "persist" key i s in
        Some (add_dirty 1 (addReply (ReplyInt 1) s))
      else Some (addReply (ReplyInt 0) s)
  | None => Some (addReply (ReplyInt 0) s)
  end.

Fixpoint touch_loop (e : kenv) i (keys : list bytes) (touched : Z) s : option (Z * keyspace V) :=
  match keys with
  | [] => Some (touched, s)
  | key :: keys =>
      let! (o, s) := lookupKeyRead e i key s in
      touch_loop e i keys (match o with Some _ => touched + 1 | None => touched end) s
  end.
Definition touchCommand (e : kenv) i (keys : list bytes) s : option (keyspace V) :=
  let! (touched, s) := touch_loop e i keys 0 s in
  Some (addReply (ReplyInt touched) s).
End Keyspace.
