(* ===== verification/KeyspaceFacts.v ===== *)
(** * What each function of the keyspace does to an abstract keyspace

    A database is abstractly a finite map from keys to a value and an expiration time.  [does i m c Q]
    is a Hoare triple for a function [c] that works on one database: from every state whose
    database [i] represents [m] it returns, changes no other database, and its result, the map it
    leaves, the events it emits and what it adds to [server.dirty] satisfy [Q]. *)

From Stdlib Require Import ZArith Lia String.
From stdpp Require Import base numbers option fin_maps gmap list.
From S2P Require Import Prelude Memory Util Sds Server Dict DictFacts DictSpec Keyspace.

Local Open Scope Z_scope.
Local Open Scope redis_scope.

(** A value and, maybe, an expiration time for each key *)
Abbreviation absdb A := (@gmap bytes (@list_eq_dec Z Z.eq_dec) (@list_countable Z Z.eq_dec Z_countable) (A * option Z)).

(** How a value of the program stands for an abstract one *)
Class Rep (V A : Type) := represents : V -> A -> Prop.

Section Triples.
Context {V A : Type} `{!Rep V A, !Value V, !dictType bytes, !DictTypeOk bytes}.
Implicit Types (s : keyspace V) (k : bytes) (i j : nat) (m : absdb A) (ms : list (absdb A)).

Definition entry_rep (o : option (robj V)) (t : option Z) (x : option (A * option Z)) : Prop :=
  match x with
  | Some (a, t') => exists v, o = Some v /\ represents (ptr v) a /\ t = t'
  | None => o = None /\ t = None
  end.
Definition db_rep (db : redisDb V) m : Prop :=
  exists M E, dict_rep (ddict db) M /\ dict_rep (dexpires db) E /\ forall k, entry_rep (M !! k) (E !! k) (m !! k).
Definition ks_rep s ms : Prop := Forall2 db_rep (dbs s) ms.

(** The number of keys stays far below the largest table. *)
Definition room m : Prop := Z.of_nat (base.size m) < 2 ^ 58.

(** [server.dirty] modulo its width *)
Definition dirtied s (n : Z) s' : Prop := i64 (dirty s') = i64 (dirty s + n).

Definition does {X} i m (c : keyspace V -> option (X * keyspace V)) (Q : X -> absdb A -> list event -> Z -> Prop) : Prop :=
  forall s ms, ks_rep s ms -> ms !! i = Some m ->
  exists x s' m' evs n, c s = Some (x, s') /\ ks_rep s' (<[i := m']> ms) /\ events s' = events s ++ evs /\
    dirtied s n s' /\ Q x m' evs n.

(** The same for functions without a result *)
Definition unit_of (c : keyspace V -> option (keyspace V)) s : option (unit * keyspace V) := let! s := c s in Some (tt, s).

Lemma i64_idem x : i64 (i64 x) = i64 x.
Proof. apply sN_small; [lia|]. apply sN_bound. lia. Qed.
Lemma i64_add x y : i64 (i64 x + y) = i64 (x + y).
Proof.
  unfold sN. f_equal. replace ((x + 2 ^ (64 - 1)) mod 2 ^ 64 - 2 ^ (64 - 1) + y + 2 ^ (64 - 1)) with
    ((x + 2 ^ (64 - 1)) mod 2 ^ 64 + y) by lia.
  rewrite Zplus_mod_idemp_l. f_equal. lia.
Qed.

Lemma dirtied_0 s : dirtied s 0 s.
Proof. unfold dirtied. by rewrite Z.add_0_r. Qed.
Lemma dirtied_trans s n s1 n' s2 : dirtied s n s1 -> dirtied s1 n' s2 -> dirtied s (n + n') s2.
Proof. unfold dirtied. intros H1 H2. rewrite H2, <- i64_add, H1, i64_add. f_equal. lia. Qed.

Lemma rep_lookup s ms i m : ks_rep s ms -> ms !! i = Some m -> exists db, dbs s !! i = Some db /\ db_rep db m.
Proof. intros Hr Hm. apply (Forall2_lookup_r _ _ _ _ _ Hr Hm). Qed.

(** ** Running a function

    [at_ s0 ms i s m evs n]: [s] is reached from [s0], its database [i] represents [m] and the
    others are those of [ms]; since [s0] the events [evs] were emitted and [n] was added to
    [server.dirty]. *)

Record at_ s0 ms i s m (evs : list event) (n : Z) : Prop := At {
  at_in : (i < length ms)%nat;
  at_rep : ks_rep s (<[i := m]> ms);
  at_events : events s = events s0 ++ evs;
  at_dirty : dirtied s0 n s }.

Lemma at_change f s0 ms i s m evs n evs' n' :
  (forall s, dbs (f s) = dbs s /\ events (f s) = events s ++ evs' /\ dirtied s n' (f s)) ->
  at_ s0 ms i s m evs n -> at_ s0 ms i (f s) m (evs ++ evs') (n + n').
Proof.
  intros Hf [Hi Hr He Hd]. destruct (Hf s) as (Hfd & Hfe & Hfn). constructor; [done| | |].
  - unfold ks_rep. by rewrite Hfd.
  - by rewrite Hfe, He, app_assoc.
  - by eapply dirtied_trans.
Qed.
Lemma at_emit ev s0 ms i s m evs n : at_ s0 ms i s m evs n -> at_ s0 ms i (emit ev s) m (evs ++ [ev]) n.
Proof.
  intros H. rewrite <- (Z.add_0_r n). revert H. apply at_change. intros s'. split_and!; [done..|apply (dirtied_0 s')].
Qed.
Lemma at_add_dirty n' s0 ms i s m evs n : at_ s0 ms i s m evs n -> at_ s0 ms i (add_dirty n' s) m evs (n + n').
Proof.
  intros H. rewrite <- (app_nil_r evs). revert H. apply at_change. intros s'. split_and!; [done|by rewrite app_nil_r|].
  apply i64_idem.
Qed.
Lemma at_stat f s0 ms i s m evs n :
  f = stat_expired \/ f = stat_hit \/ f = stat_miss \/ f = next_call -> at_ s0 ms i s m evs n -> at_ s0 ms i (f s) m evs n.
Proof.
  intros Hf H. rewrite <- (app_nil_r evs), <- (Z.add_0_r n). revert H. apply at_change.
  intros s'. destruct Hf as [-> | [-> | [-> | ->]]]; (split_and!; [done|by rewrite app_nil_r|apply (dirtied_0 s')]).
Qed.

(** A step by a function whose triple is known *)
Lemma at_step {X} i m (c : keyspace V -> option (X * keyspace V)) Q s0 ms s evs n :
  does i m c Q -> at_ s0 ms i s m evs n ->
  exists x s' m' evs' n', c s = Some (x, s') /\ at_ s0 ms i s' m' (evs ++ evs') (n + n') /\ Q x m' evs' n'.
Proof.
  intros Hc [Hi Hr He Hd]. destruct (Hc s _ Hr) as (x & s' & m' & evs' & n' & Hx & Hr' & He' & Hd' & HQ).
  { by apply list_lookup_insert_eq. }
  exists x, s', m', evs', n'. split; [done|]. split; [|done]. constructor; [done| | |].
  - by rewrite list_insert_insert_eq in Hr'.
  - by rewrite He', He, app_assoc.
  - by eapply dirtied_trans.
Qed.

Lemma at_exec i m (c : keyspace V -> option (keyspace V)) Q s0 ms s evs n :
  does i m (unit_of c) Q -> at_ s0 ms i s m evs n ->
  exists s' m' evs' n', c s = Some s' /\ at_ s0 ms i s' m' (evs ++ evs') (n + n') /\ Q tt m' evs' n'.
Proof.
  intros Hc Hat. destruct (at_step i m _ Q _ _ _ _ _ Hc Hat) as ([] & s' & m' & evs' & n' & Hs' & Hat' & HQ).
  unfold unit_of in Hs'. destruct (c s) as [s''|]; [|done]. injection Hs' as ->. eauto 10.
Qed.

Lemma does_intro {X} i m (c : keyspace V -> option (X * keyspace V)) (Q : X -> absdb A -> list event -> Z -> Prop) :
  (forall s0 ms s, at_ s0 ms i s m [] 0 ->
   exists x s' m' evs n, c s = Some (x, s') /\ at_ s0 ms i s' m' evs n /\ Q x m' evs n) ->
  does i m c Q.
Proof.
  intros Hc s ms Hr Hm. destruct (Hc s ms s) as (x & s' & m' & evs & n & Hx & [_ ? ? ?] & HQ).
  - constructor; [by apply lookup_lt_Some in Hm|by rewrite list_insert_id|by rewrite app_nil_r|apply dirtied_0].
  - exists x, s', m', evs, n. done.
Qed.

Lemma does_impl {X} i m (c : keyspace V -> option (X * keyspace V)) (P Q : X -> absdb A -> list event -> Z -> Prop) :
  does i m c P -> (forall x m' evs n, P x m' evs n -> Q x m' evs n) -> does i m c Q.
Proof.
  intros Hc HPQ s ms Hr Hm. destruct (Hc s ms Hr Hm) as (x & s' & m' & evs & n & ? & ? & ? & ? & HP).
  exists x, s', m', evs, n. auto 10.
Qed.
Lemma does_ret {X} i m (x : X) (Q : X -> absdb A -> list event -> Z -> Prop) : Q x m [] 0 -> does i m (fun s => Some (x, s)) Q.
Proof. intros HQ. apply does_intro. intros s0 ms s Hat. exists x, s, m, [], 0. done. Qed.
End Triples.

(** Finds the state a function runs in. *)
Ltac find_state := repeat first [eassumption | apply at_emit | apply at_add_dirty | apply at_stat; [tauto|]].
Ltac run L x :=
  let Hat := fresh "Hat" in let Hat' := fresh "Hat" in let HQ := fresh "HQ" in
  let s' := fresh "s'" in let m' := fresh "m'" in let evs := fresh "evs" in let n := fresh "n" in
  match goal with
  | |- context [mbind _ (?c ?s)] =>
      lazymatch type of s with keyspace _ => idtac end;
      epose proof (at_step _ _ _ _ _ _ s _ _ L) as Hat;
      edestruct Hat as (x & s' & m' & evs & n & -> & Hat' & HQ); [find_state|]
  end; clear Hat; mstep; cbv beta in HQ.
(** The same for a call in tail position *)
Ltac tail_call L x :=
  let Hat := fresh "Hat" in let Hat' := fresh "Hat" in let HQ := fresh "HQ" in
  let s' := fresh "s'" in let m' := fresh "m'" in let evs := fresh "evs" in let n := fresh "n" in
  match goal with
  | |- context [?c ?s = Some _] =>
      lazymatch type of s with keyspace _ => idtac end;
      epose proof (at_step _ _ _ _ _ _ s _ _ L) as Hat;
      edestruct Hat as (x & s' & m' & evs & n & -> & Hat' & HQ); [find_state|]
  end; clear Hat; mstep; cbv beta in HQ.
Ltac exec L :=
  let Hat := fresh "Hat" in let Hat' := fresh "Hat" in let HQ := fresh "HQ" in
  let s' := fresh "s'" in let m' := fresh "m'" in let evs := fresh "evs" in let n := fresh "n" in
  match goal with
  | |- context [mbind _ (?c ?s)] =>
      lazymatch type of s with keyspace _ => idtac end;
      epose proof (at_exec _ _ _ _ _ _ s _ _ L) as Hat;
      edestruct Hat as (s' & m' & evs & n & -> & Hat' & HQ); [find_state|]
  end; clear Hat; mstep; cbv beta in HQ.
(** The state a function ends in *)
Ltac finish := eexists _, _, _, _, _; split; [reflexivity|]; split; [find_state|]; simpl; rewrite <- ?app_assoc.

Section Facts.
Context {V A : Type} `{!Rep V A, !Value V, !dictType bytes, !DictTypeOk bytes}.
Implicit Types (s : keyspace V) (k : bytes) (i j : nat) (m : absdb A) (ms : list (absdb A)).

(** ** Databases *)

Lemma put_rep s ms i m db db' m' :
  ks_rep s ms -> dbs s !! i = Some db -> ms !! i = Some m -> db_rep db' m' ->
  ks_rep (set_dbs (<[i := db']> (dbs s)) s) (<[i := m']> ms).
Proof. intros Hr _ _ Hdb. by apply Forall2_insert. Qed.

Lemma db_rep_ext db m m' : db_rep db m -> (forall k, m !! k = m' !! k) -> db_rep db m'.
Proof. intros (M & E & HM & HE & Hk) Hm. exists M, E. split_and!; try done. intros k. rewrite <- Hm. apply Hk. Qed.

Lemma rep_sizes db m M E :
  dict_rep (ddict db) M -> dict_rep (dexpires db) E -> (forall k, entry_rep (M !! k) (E !! k) (m !! k)) ->
  dictSize (ddict db) = Z.of_nat (base.size m) /\ dictSize (dexpires db) <= Z.of_nat (base.size m).
Proof.
  intros HM HE Hk. rewrite (size_rep _ _ HM), (size_rep _ _ HE), <- !size_dom.
  assert (dom M = dom m) as ->.
  { apply set_eq. intros k. rewrite (elem_of_dom M), (elem_of_dom m). specialize (Hk k). unfold entry_rep in Hk.
    destruct (m !! k) as [[a t]|]; [destruct Hk as (v & -> & _)|destruct Hk as [-> _]]; [split; intros _; eexists; reflexivity|].
    by split; intros [? ?]. }
  split; [done|]. apply inj_le, subseteq_size. intros k. rewrite (elem_of_dom E), (elem_of_dom m). specialize (Hk k). unfold entry_rep in Hk.
  destruct (m !! k) as [[a t]|]; [intros _; eexists; reflexivity|]. destruct Hk as [_ ->]. by intros [? ?].
Qed.

(** The value of a key, with what the location found is good for *)
Lemma find_obj_ok i m k s ms :
  ks_rep s ms -> ms !! i = Some m ->
  exists r s', find_obj i k s = Some (r, s') /\ ks_rep s' ms /\ events s' = events s /\ dirty s' = dirty s /\
    match m !! k with
    | Some (a, t) => exists l v, r = Some (l, v) /\ represents (ptr v) a /\
        forall v' a', represents (ptr v') a' -> exists s'', put_obj i l v' s' = Some s'' /\ ks_rep s'' (<[i := <[k := (a', t)]> m]> ms) /\
          events s'' = events s /\ dirty s'' = dirty s
    | None => r = None
    end.
Proof.
  intros Hr Hm. destruct (rep_lookup _ _ _ _ Hr Hm) as (db & Hdb & (M & E & HM & HE & Hk)). unfold find_obj.
  rewrite Hdb. mstep. destruct (find_spec (ddict db) M k HM) as (found & d & -> & Hd & Hf). mstep.
  unfold put_dict. rewrite Hdb. mstep. pose proof (Hk k) as Hkk. unfold entry_rep in Hkk.
  assert (ks_rep (set_dbs (<[i:=RedisDb d (dexpires db)]> (dbs s)) s) ms) as Hr'.
  { rewrite <- (list_insert_id ms i m) by done. eapply put_rep; try done. by exists M, E. }
  destruct (m !! k) as [[a t]|] eqn:Emk.
  - destruct Hkk as (v & HMk & Hv & HEk). rewrite HMk in Hf. destruct Hf as (l & -> & Hl).
    rewrite (points_entry _ _ _ _ Hl). mstep. eexists _, _. split; [done|]. split_and!; try done.
    exists l, v. split_and!; try done. intros v' a' Hv'. unfold put_obj. simpl.
    rewrite list_lookup_insert_eq by (by apply lookup_lt_Some in Hdb). mstep. cbn [ddict].
    destruct (setVal_points d M l k v v' Hd Hl) as (d' & -> & Hd'). mstep. unfold put_dict. simpl.
    rewrite list_lookup_insert_eq by (by apply lookup_lt_Some in Hdb). mstep. eexists. split; [done|].
    split_and!; try done. unfold ks_rep. cbn [dbs set_dbs dexpires]. apply Forall2_insert; [exact Hr'|].
    exists (<[k := v']> M), E. split_and!; try done. intros k'. destruct (decide (k' = k)) as [->|Hne].
    + rewrite !lookup_insert_eq. simpl. eauto.
    + by rewrite !lookup_insert_ne by done.
  - destruct Hkk as [HMk HEk]. rewrite HMk in Hf. subst found. eexists _, _. split; [done|]. by split_and!.
Qed.

Lemma find_expire_ok i m k s ms :
  ks_rep s ms -> ms !! i = Some m ->
  exists s', find_expire i k s = Some (m !! k ≫= snd, s') /\ ks_rep s' ms /\ events s' = events s /\ dirty s' = dirty s.
Proof.
  intros Hr Hm. destruct (rep_lookup _ _ _ _ Hr Hm) as (db & Hdb & (M & E & HM & HE & Hk)). unfold find_expire.
  rewrite Hdb. mstep. destruct (fetch_rep (dexpires db) E k HE) as (d & -> & Hd). mstep. unfold put_expires.
  rewrite Hdb. mstep. assert (E !! k = m !! k ≫= snd) as ->.
  { specialize (Hk k). unfold entry_rep in Hk.
    destruct (m !! k) as [[a t]|]; [by destruct Hk as (? & _ & _ & ->)|by destruct Hk as [_ ->]]. }
  eexists. split; [done|split; [|done]].
  rewrite <- (list_insert_id ms i m) by done. eapply put_rep; try done. by exists M, E.
Qed.

Lemma at_db s0 ms i s m evs n : at_ s0 ms i s m evs n -> exists db, dbs s !! i = Some db /\ db_rep db m.
Proof. intros [Hi Hr _ _]. apply (rep_lookup s _ i m Hr). by apply list_lookup_insert_eq. Qed.
Lemma at_put s0 ms i s m evs n db m' :
  at_ s0 ms i s m evs n -> db_rep db m' -> at_ s0 ms i (set_dbs (<[i := db]> (dbs s)) s) m' evs n.
Proof.
  intros [Hi Hr He Hd] Hdb. constructor; try done. unfold ks_rep. cbn [dbs set_dbs].
  rewrite <- (list_insert_insert_eq ms i m' m). by apply Forall2_insert.
Qed.

Lemma entry_insert (M : gmap bytes (robj V)) (E : gmap bytes Z) m k v a :
  (forall k, entry_rep (M !! k) (E !! k) (m !! k)) -> E !! k = None -> represents (ptr v) a ->
  forall k', entry_rep (<[k := v]> M !! k') (E !! k') (<[k := (a, None)]> m !! k').
Proof.
  intros Hall HEk Hv k'. destruct (decide (k' = k)) as [->|Hne]; [rewrite !lookup_insert_eq; simpl; eauto|].
  by rewrite !lookup_insert_ne by done.
Qed.

(** A key that is gone from the dictionaries *)
Lemma entry_delete (M : gmap bytes (robj V)) (E : gmap bytes Z) m k :
  (forall k, entry_rep (M !! k) (E !! k) (m !! k)) ->
  forall k', entry_rep (delete k M !! k') (delete k E !! k') (delete k m !! k').
Proof.
  intros Hk k'. destruct (decide (k' = k)) as [->|Hne]; [by rewrite !lookup_delete_eq|].
  rewrite !lookup_delete_ne by done. apply Hk.
Qed.

Lemma delete_expire_ok i m k s ms :
  ks_rep s ms -> ms !! i = Some m ->
  exists s' db M E, delete_expire i k s = Some s' /\ events s' = events s /\ dirty s' = dirty s /\
    dbs s' !! i = Some db /\ dict_rep (ddict db) M /\ dict_rep (dexpires db) (delete k E) /\
    (forall k, entry_rep (M !! k) (E !! k) (m !! k)) /\
    (forall db' m', db_rep db' m' -> ks_rep (set_dbs (<[i := db']> (dbs s')) s') (<[i := m']> ms)).
Proof.
  intros Hr Hm. destruct (rep_lookup _ _ _ _ Hr Hm) as (db & Hdb & (M & E & HM & HE & Hk)). unfold delete_expire.
  rewrite Hdb. mstep. casif.
  - destruct (delete_rep (dexpires db) E k HE) as (d & -> & Hd). mstep. unfold put_expires. rewrite Hdb. mstep.
    eexists _, (RedisDb (ddict db) d), M, E. split; [done|]. split_and!; try done.
    + simpl. apply list_lookup_insert_eq. by apply lookup_lt_Some in Hdb.
    + intros db' m' Hdb'. unfold ks_rep. cbn [dbs set_dbs]. rewrite list_insert_insert_eq. by apply Forall2_insert.
  - exists s, db, M, E. split_and!; try done.
    + assert (E = ∅) as ->; [|by rewrite delete_empty]. apply map_size_empty_iff.
      rewrite (size_rep _ _ HE) in E0. lia.
    + intros db' m' Hdb'. by apply Forall2_insert.
Qed.

(** ** Deletion and expiration *)

(** Logical expiration: nothing expires while loading, nor at a negative time. *)
Definition expired (e : kenv) (x : option (A * option Z)) : bool :=
  match x with
  | Some (_, Some t) => (0 <=? t) && negb (loading e) && (t <? current_time e)
  | _ => false
  end.
(** A master deletes the expired keys it meets, a replica waits for its master. *)
Definition purges (e : kenv) m k : bool := expired e (m !! k) && negb (masterhost e).
Definition purge (e : kenv) m k : absdb A := if purges e m k then delete k m else m.
Definition slot_del (e : kenv) k : list event := if cluster_enabled e then [SlotDel k] else [].
Definition purge_events (e : kenv) i m k : list event :=
  if purges e m k then
    [PropagateExpire i k (lazyfree_lazy_expire e); Notify "expired" k i] ++ slot_del e k ++ [ModifiedKey i k]
  else [].

Lemma delete_ok e lazy i m k :
  does i m (delete_with e lazy i k) (fun x m' evs n =>
    x = bool_decide (is_Some (m !! k)) /\ m' = delete k m /\ evs = (if x then slot_del e k else []) /\ n = 0).
Proof.
  intros s ms Hr Hm. destruct (delete_expire_ok i m k s ms Hr Hm) as (s1 & db & M & E & Hs1 & He & Hd & Hdb & HM & HE & Hk & Hput).
  exists (bool_decide (is_Some (m !! k))).
  assert (exists s', delete_with e lazy i k s = Some (bool_decide (is_Some (m !! k)), s') /\
    ks_rep s' (<[i := delete k m]> ms) /\ dirty s' = dirty s /\
    events s' = events s ++ (if bool_decide (is_Some (m !! k)) then slot_del e k else [])) as (s' & ? & ? & Hdi & ?).
  { pose proof (Hk k) as Hkk. unfold entry_rep in Hkk. unfold delete_with, slot_del.
    assert (forall d, dict_rep d (delete k M) -> ks_rep (set_dbs (<[i := RedisDb d (dexpires db)]> (dbs s1)) s1) (<[i := delete k m]> ms)) as Hp.
    { intros d Hdd. apply Hput. exists (delete k M), (delete k E). split_and!; try done. by apply entry_delete. }
    destruct lazy; unfold dbAsyncDelete, dbSyncDelete; rewrite Hs1; mstep; rewrite Hdb; mstep;
      [destruct (unlink_rep (ddict db) M k HM) as (d & -> & Hdd)|destruct (delete_rep (ddict db) M k HM) as (d & -> & Hdd)];
      mstep; unfold put_dict; rewrite Hdb; mstep; specialize (Hp d Hdd);
      (destruct (m !! k) as [[a t]|]; [destruct Hkk as (v & -> & _)|destruct Hkk as [-> _]]); simpl;
      try destruct (cluster_enabled e); eexists; (split; [done|]); split_and!; try done; simpl; by rewrite He, ?app_nil_r. }
  eexists s', _, _, 0. split_and!; try done. unfold dirtied. by rewrite Hdi, Z.add_0_r.
Qed.

(** A query: neither the database nor the log changes. *)
Definition asks {X} i m (c : keyspace V -> option (X * keyspace V)) (P : X -> Prop) : Prop :=
  does i m c (fun x m' evs n => P x /\ m' = m /\ evs = [] /\ n = 0).

Lemma asks_intro {X} i m (c : keyspace V -> option (X * keyspace V)) (P : X -> Prop) :
  (forall s ms, ks_rep s ms -> ms !! i = Some m ->
   exists x s', c s = Some (x, s') /\ ks_rep s' ms /\ events s' = events s /\ dirty s' = dirty s /\ P x) ->
  asks i m c P.
Proof.
  intros Hc s ms Hr Hm. destruct (Hc s ms Hr Hm) as (x & s' & Hx & Hr' & He & Hd & HP).
  exists x, s', m, [], 0. rewrite list_insert_id by done. split_and!; try done.
  - by rewrite He, app_nil_r.
  - unfold dirtied. by rewrite Hd, Z.add_0_r.
Qed.

Lemma getExpire_ok i m k : asks i m (getExpire i k) (fun t => t = default (-1) (m !! k ≫= snd)).
Proof.
  apply asks_intro. intros s ms Hr Hm. unfold getExpire.
  destruct (rep_lookup _ _ _ _ Hr Hm) as (db & Hdb & (M & E & HM & HE & Hk)). rewrite Hdb. mstep. casif.
  - exists (-1), s. split_and!; try done. assert (E = ∅) as ->.
    { apply map_size_empty_iff. rewrite (size_rep _ _ HE) in E0. lia. }
    specialize (Hk k). unfold entry_rep in Hk. rewrite lookup_empty in Hk.
    destruct (m !! k) as [[a t]|]; [|done]. by destruct Hk as (? & _ & _ & <-).
  - destruct (find_expire_ok i m k s ms Hr Hm) as (s1 & -> & Hr1 & He1 & Hd1). mstep.
    destruct (m !! k) as [[a [t|]]|] eqn:Emk; simpl; [|by exists (-1), s1..].
    destruct (find_obj_ok i m k s1 ms Hr1 Hm) as (r & s2 & -> & Hr2 & He2 & Hd2 & Hf). mstep.
    rewrite Emk in Hf. destruct Hf as (l & v & -> & _). exists t, s2. split_and!; try done; congruence.
Qed.

Lemma keyIsExpired_ok e i m k : asks i m (keyIsExpired e i k) (fun b => b = expired e (m !! k)).
Proof.
  apply does_intro. intros s0 ms s Hat. unfold keyIsExpired. run (getExpire_ok i m k) t. destruct HQ as (-> & -> & -> & ->).
  exists (expired e (m !! k)). eexists _, _, _, _. split; [|done]. unfold expired.
  destruct (m !! k) as [[a [t|]]|]; simpl; try done.
  rewrite (Z.leb_antisym t 0). destruct (t <? 0); [done|]. destruct (loading e); [done|]. by rewrite Z.gtb_ltb.
Qed.

Lemma expireIfNeeded_ok e i m k :
  does i m (expireIfNeeded e i k) (fun x m' evs n =>
    x = expired e (m !! k) /\ m' = purge e m k /\ evs = purge_events e i m k /\ n = 0).
Proof.
  apply does_intro. intros s0 ms s Hat. unfold expireIfNeeded. run (keyIsExpired_ok e i m k) x.
  destruct HQ as (-> & -> & -> & ->). unfold purge, purge_events, purges.
  destruct (expired e (m !! k)) eqn:Ex; [|by finish]. destruct (masterhost e); [by finish|]. simpl.
  assert (is_Some (m !! k)) as Hk by (unfold expired in Ex; destruct (m !! k); [eauto|done]).
  run (delete_ok e (lazyfree_lazy_expire e) i m k) x. destruct HQ as (-> & -> & -> & ->).
  rewrite bool_decide_true in * by done. by finish.
Qed.

(** ** Lookup *)

Lemma find_ok i m k :
  asks i m (find_obj i k) (fun r => match m !! k with Some (a, _) => exists l o, r = Some (l, o) /\ represents (ptr o) a | None => r = None end).
Proof.
  apply asks_intro. intros s ms Hr Hm.
  destruct (find_obj_ok i m k s ms Hr Hm) as (r & s1 & Hs & Hr1 & He1 & Hd1 & Hf). exists r, s1. split_and!; try done.
  destruct (m !! k) as [[a t]|]; [|done]. destruct Hf as (l & v & -> & Hv & _). eauto.
Qed.

(** The object found represents the value of the key. *)
Definition found (o : option (robj V)) (x : option (A * option Z)) : Prop :=
  match o, x with
  | Some v, Some (a, _) => represents (ptr v) a
  | None, None => True
  | _, _ => False
  end.

Lemma lookupKey_ok e i m k flags : asks i m (lookupKey e i k flags) (fun o => found o (m !! k)).
Proof.
  apply asks_intro. intros s ms Hr Hm. unfold lookupKey.
  destruct (find_obj_ok i m k s ms Hr Hm) as (r & s1 & -> & Hr1 & He1 & Hd1 & Hf). mstep.
  destruct (m !! k) as [[a t]|] eqn:Emk; [|subst r; by exists None, s1]. destruct Hf as (l & v & -> & Hv & Hput).
  assert (<[i := <[k := (a, t)]> m]> ms = ms) as Hid by by rewrite insert_id, list_insert_id.
  casif; [|by exists (Some v), s1]. set (v' := Robj (if lfu_policy e then updateLFU e (rand e (calls s1)) (lru v)
    else uN LRU_BITS (LRU_CLOCK e)) (ptr v)).
  destruct (Hput v' a Hv) as (s2 & Hs2 & Hr2 & He2 & Hd2). rewrite Hid in Hr2.
  exists (Some v'). subst v'. destruct (lfu_policy e); rewrite Hs2; mstep; eauto 10.
Qed.

Lemma lookupKeyWrite_ok e i m k flags :
  does i m (lookupKeyWriteWithFlags e i k flags) (fun o m' evs n =>
    found o (m' !! k) /\ m' = purge e m k /\ evs = purge_events e i m k /\ n = 0).
Proof.
  apply does_intro. intros s0 ms s Hat. unfold lookupKeyWriteWithFlags. run (expireIfNeeded_ok e i m k) x.
  destruct HQ as (-> & -> & -> & ->).
  tail_call (lookupKey_ok e i (purge e m k) k flags) o. destruct HQ as (Ho & -> & -> & ->). finish. by rewrite app_nil_r.
Qed.

(** What a client that reads is shown: on a replica an expired key is still shown to its master
    and to commands that write. *)
Definition visible (e : kenv) (x : option (A * option Z)) : option (A * option Z) :=
  if expired e x && (negb (masterhost e) || readonly_client e) then None else x.
Definition miss_events i k (x : option (A * option Z)) : list event :=
  match x with None => [Notify "keymiss" k i] | Some _ => [] end.

Lemma purge_lookup e m k : purge e m k !! k = if purges e m k then None else m !! k.
Proof. unfold purge. destruct (purges e m k); [apply lookup_delete_eq|done]. Qed.

Lemma lookupKeyRead_ok e i m k flags :
  does i m (lookupKeyReadWithFlags e i k flags) (fun o m' evs n =>
    found o (visible e (m !! k)) /\ m' = purge e m k /\
    evs = purge_events e i m k ++ miss_events i k (visible e (m !! k)) /\ n = 0).
Proof.
  apply does_intro. intros s0 ms s Hat. unfold lookupKeyReadWithFlags. run (expireIfNeeded_ok e i m k) x.
  destruct HQ as (-> & -> & -> & ->). unfold visible. pose proof (purge_lookup e m k) as Hpl. unfold purges in Hpl.
  destruct (expired e (m !! k)) eqn:Ex; simpl in *.
  - destruct (masterhost e) eqn:Em; simpl in *; [|by finish]. destruct (readonly_client e); [by finish|].
    run (lookupKey_ok e i (purge e m k) k flags) o. destruct HQ as (Ho & -> & -> & ->). rewrite Hpl in Ho.
    destruct o as [o|], (m !! k) as [[a t]|]; try done; finish; by rewrite app_nil_r.
  - run (lookupKey_ok e i (purge e m k) k flags) o. destruct HQ as (Ho & -> & -> & ->). rewrite Hpl in Ho.
    destruct o as [o|], (m !! k) as [[a t]|]; try done; finish; by rewrite ?app_nil_r.
Qed.

(** ** Pointers *)

Lemma entry_of_ok i m k s ms a t :
  ks_rep s ms -> ms !! i = Some m -> m !! k = Some (a, t) ->
  exists l v, entry_of i k s = Some (l, v) /\ represents (ptr v) a /\
    forall v' a', represents (ptr v') a' -> exists s', put_obj i l v' s = Some s' /\ ks_rep s' (<[i := <[k := (a', t)]> m]> ms) /\
      events s' = events s /\ dirty s' = dirty s.
Proof.
  intros Hr Hm Hk. destruct (rep_lookup _ _ _ _ Hr Hm) as (db & Hdb & (M & E & HM & HE & Hall)). unfold entry_of.
  rewrite Hdb. mstep. specialize (Hall k) as Hkk. unfold entry_rep in Hkk. rewrite Hk in Hkk. destruct Hkk as (v & HMk & Hv & HEk).
  destruct (search_rep (ddict db) M k HM) as (idx & found & -> & Hf).
  { intros Hres. apply (rep_elem _ _ _ _ HM) in HMk. pose proof (all_nonempty_ht0 (ddict db) (proj1 HM)) as [Ht _].
    - intros E0. rewrite E0 in HMk. by apply elem_of_nil in HMk.
    - destruct (ht_pow _ Ht) as (x & Hx & Hs). simpl in Hs. rewrite Hres in Hs. simpl in Hs. lia. }
  rewrite HMk in Hf. destruct Hf as (l & -> & Hl). mstep. rewrite (points_entry _ _ _ _ Hl). mstep.
  exists l, v. split; [done|]. split; [done|]. intros v' a' Hv'. unfold put_obj. rewrite Hdb. mstep.
  destruct (setVal_points (ddict db) M l k v v' HM Hl) as (d' & -> & Hd'). mstep. unfold put_dict. rewrite Hdb. mstep.
  eexists. split; [done|]. split; [|done]. unfold ks_rep. cbn [dbs set_dbs]. apply Forall2_insert; [exact Hr|].
  exists (<[k := v']> M), E. split_and!; try done. intros k'. destruct (decide (k' = k)) as [->|Hne].
  - rewrite !lookup_insert_eq. simpl. eauto.
  - by rewrite !lookup_insert_ne by done.
Qed.

Lemma load_ok s0 ms i s m evs n k a t :
  at_ s0 ms i s m evs n -> m !! k = Some (a, t) -> exists v, load_obj i k s = Some v /\ represents v a.
Proof.
  intros [Hi Hr _ _] Hk. destruct (entry_of_ok i m k s _ a t Hr) as (l & v & HE & Hv & _); [by apply list_lookup_insert_eq|done|].
  exists (ptr v). split; [|done]. unfold load_obj. by rewrite HE.
Qed.
Lemma store_ok i m k a t v a' :
  m !! k = Some (a, t) -> represents v a' ->
  does i m (unit_of (store_obj i k v)) (fun _ m' evs n => m' = <[k := (a', t)]> m /\ evs = [] /\ n = 0).
Proof.
  intros Hk Hv s ms Hr Hm. destruct (entry_of_ok i m k s ms a t Hr Hm Hk) as (l & o & HE & _ & Hput).
  destruct (Hput (Robj (lru o) v) a' Hv) as (s' & HE' & Hr' & He & Hd).
  exists tt, s', (<[k := (a', t)]> m), [], 0. unfold unit_of, store_obj. rewrite HE. mstep. rewrite HE'. mstep.
  split_and!; try done; [by rewrite app_nil_r|]. unfold dirtied. by rewrite Hd, Z.add_0_r.
Qed.

(** ** Insertion *)

Definition add_events (e : kenv) i k (v : V) : list event :=
  (if (obj_type v =? OBJ_LIST) || (obj_type v =? OBJ_ZSET) || (obj_type v =? OBJ_STREAM) then [KeyReady i k] else []) ++
  (if cluster_enabled e then [SlotAdd k] else []).

Lemma dbAdd_ok e i m k v a :
  m !! k = None -> room m -> represents (ptr v) a ->
  does i m (unit_of (dbAdd e i k v)) (fun _ m' evs n =>
    m' = <[k := (a, None)]> m /\ evs = add_events e i k (ptr v) /\ n = 0).
Proof.
  intros Hk Hroom Hv. apply does_intro. intros s0 ms s Hat.
  destruct (at_db _ _ _ _ _ _ _ Hat) as (db & Hdb & (M & E & HM & HE & Hall)).
  destruct (rep_sizes db m M E HM HE Hall) as [Hsz _]. pose proof (Hall k) as Hkk. unfold entry_rep in Hkk.
  rewrite Hk in Hkk. destruct Hkk as [HMk HEk]. unfold unit_of, dbAdd. rewrite Hdb. mstep.
  destruct (add_new (dict_can_resize e) (ddict db) M k v v HM) as (d & -> & Hd); [by rewrite Hsz|done|]. mstep.
  unfold put_dict. rewrite Hdb. cbn [mbind option_bind Z.eqb DICT_OK negb].
  assert (db_rep (RedisDb d (dexpires db)) (<[k := (a, None)]> m)) as Hnew.
  { exists (<[k := v]> M), E. split_and!; try done. by apply entry_insert. }
  apply (at_put _ _ _ _ _ _ _ _ _ Hat) in Hnew. unfold add_events.
  destruct (_ || _), (cluster_enabled e); by finish.
Qed.

Lemma dbOverwrite_ok e i m k v a a0 t :
  m !! k = Some (a0, t) -> represents (ptr v) a ->
  does i m (unit_of (dbOverwrite e i k v)) (fun _ m' evs n => m' = <[k := (a, t)]> m /\ evs = [] /\ n = 0).
Proof.
  intros Hk Hv s ms Hr Hm. unfold unit_of, dbOverwrite.
  destruct (find_obj_ok i m k s ms Hr Hm) as (r & s1 & -> & Hr1 & He1 & Hd1 & Hf). mstep. rewrite Hk in Hf.
  destruct Hf as (l & o & -> & _ & Hput).
  destruct (Hput (if lfu_policy e then Robj (lru o) (ptr v) else v) a) as (s2 & -> & Hr2 & He2 & Hd2); [by destruct (lfu_policy e)|].
  mstep. exists tt, s2, (<[k := (a, t)]> m), [], 0. split_and!; try done; [by rewrite app_nil_r|].
  unfold dirtied. by rewrite Hd2, Z.add_0_r.
Qed.

(** ** Expiration times *)

Lemma removeExpire_ok i m k a t :
  m !! k = Some (a, t) ->
  does i m (removeExpire i k) (fun x m' evs n =>
    x = bool_decide (is_Some t) /\ m' = <[k := (a, None)]> m /\ evs = [] /\ n = 0).
Proof.
  intros Hk. apply does_intro. intros s0 ms s Hat. unfold removeExpire. run (find_ok i m k) r. destruct HQ as (Hf & -> & -> & ->).
  rewrite Hk in Hf. destruct Hf as (l0 & o & -> & _).
  destruct (at_db _ _ _ _ _ _ _ Hat1) as (db & Hdb & (M & E & HM & HE & Hall)). rewrite Hdb. mstep.
  destruct (delete_rep (dexpires db) E k HE) as (d & -> & Hd). mstep. unfold put_expires. rewrite Hdb. mstep.
  assert (db_rep (RedisDb (ddict db) d) (<[k := (a, None)]> m)) as Hnew.
  { exists M, (delete k E). split_and!; try done. specialize (Hall k) as Hkk. rewrite Hk in Hkk.
    destruct Hkk as (v & HMk & Hv & _). intros k'. destruct (decide (k' = k)) as [->|Hne].
    - rewrite lookup_insert_eq, lookup_delete_eq. simpl. eauto.
    - rewrite lookup_insert_ne, lookup_delete_ne by done. apply Hall. }
  apply (at_put _ _ _ _ _ _ _ _ _ Hat1) in Hnew. finish. split_and!; try done.
  specialize (Hall k). rewrite Hk in Hall. destruct Hall as (v & _ & _ & <-). by destruct (E !! k).
Qed.

Definition slave_key (e : kenv) i k : list event :=
  if masterhost e && negb (repl_slave_ro e) && negb (master_client e) then [SlaveKeyWithExpire i k] else [].

Lemma setExpire_ok e i m k a t when :
  m !! k = Some (a, t) -> room m ->
  does i m (unit_of (setExpire e i k when)) (fun _ m' evs n =>
    m' = <[k := (a, Some when)]> m /\ evs = slave_key e i k /\ n = 0).
Proof.
  intros Hk Hroom. apply does_intro. intros s0 ms s Hat. unfold unit_of, setExpire. run (find_ok i m k) r.
  destruct HQ as (Hf & -> & -> & ->). rewrite Hk in Hf. destruct Hf as (l0 & o & -> & _).
  destruct (at_db _ _ _ _ _ _ _ Hat1) as (db & Hdb & (M & E & HM & HE & Hall)). rewrite Hdb. mstep.
  destruct (rep_sizes db m M E HM HE Hall) as [_ Hsz]. unfold room in Hroom.
  destruct (addOrFind_rep (dict_can_resize e) (dexpires db) E k 0 HE) as (l & d & w & -> & Hl & Hd & _); [lia|]. mstep.
  destruct (setVal_points d _ l k w when Hd Hl) as (d' & -> & Hd'). mstep. unfold put_expires. rewrite Hdb. mstep.
  rewrite insert_insert_eq in Hd'. assert (db_rep (RedisDb (ddict db) d') (<[k := (a, Some when)]> m)) as Hnew.
  { exists M, (<[k := when]> E). split_and!; try done. specialize (Hall k) as Hkk. rewrite Hk in Hkk.
    destruct Hkk as (v & HMk & Hv & _). intros k'. destruct (decide (k' = k)) as [->|Hne].
    - rewrite !lookup_insert_eq. simpl. eauto.
    - rewrite !lookup_insert_ne by done. apply Hall. }
  apply (at_put _ _ _ _ _ _ _ _ _ Hat1) in Hnew. unfold slave_key.
  destruct (masterhost e && negb (repl_slave_ro e)), (negb (master_client e)); by finish.
Qed.
End Facts.
