(* ===== verification/KeyspaceSpec.v ===== *)
(** * Contracts of the commands of the keyspace and of expiration *)

From Stdlib Require Import ZArith Lia String.
From stdpp Require Import base numbers option fin_maps gmap list.
From S2P Require Import Prelude Memory Util UtilFacts Sds SdsSpec Server Dict DictFacts DictSpec Keyspace KeyspaceFacts.

Local Open Scope Z_scope.
Local Open Scope redis_scope.

(** The replies among the events *)
Definition replies (evs : list event) : list reply := omap (fun ev => match ev with Reply r => Some r | _ => None end) evs.

Section Spec.
Context {V A : Type} `{!Rep V A, !Value V, !dictType bytes, !DictTypeOk bytes, !EqDecision A}.
Implicit Types (s : keyspace V) (k : bytes) (i j : nat) (m : absdb A) (ms : list (absdb A)).

(** Whoever watches or caches a key is told of its change, and the change reaches the replicas: the
    command itself does because it made the data set dirty, or an expiration is sent. *)
Definition signalled i m m' (evs : list event) (n : Z) : Prop :=
  0 <= n /\ forall k, m !! k <> m' !! k ->
    ModifiedKey i k ∈ evs /\ (0 < n \/ exists lazy, PropagateExpire i k lazy ∈ evs).

Lemma signalled_refl i m evs n : 0 <= n -> signalled i m m evs n.
Proof. by split. Qed.
Lemma signalled_trans i m m1 m2 evs1 evs2 n1 n2 :
  signalled i m m1 evs1 n1 -> signalled i m1 m2 evs2 n2 -> signalled i m m2 (evs1 ++ evs2) (n1 + n2).
Proof.
  intros [Hn1 H1] [Hn2 H2]. split; [lia|]. intros k Hk. rewrite elem_of_app.
  destruct (decide (m !! k = m1 !! k)) as [HE|HE].
  - rewrite HE in Hk. destruct (H2 k Hk) as [? [? | [lazy ?]]]; (split; [auto|]); [left; lia|right]. exists lazy. set_solver.
  - destruct (H1 k HE) as [? [? | [lazy ?]]]; (split; [auto|]); [left; lia|right]. exists lazy. set_solver.
Qed.
Lemma signalled_app i m m' evs evs' n : signalled i m m' evs n -> signalled i m m' (evs ++ evs') n.
Proof. intros H. rewrite <- (Z.add_0_r n). by apply (signalled_trans i m m'); [|apply signalled_refl]. Qed.
Lemma signalled_sub i m m' evs evs' n : signalled i m m' evs n -> evs ⊆ evs' -> signalled i m m' evs' n.
Proof.
  intros [Hn H] Hs. split; [done|]. intros k Hk. destruct (H k Hk) as [? [? | [lazy ?]]]; (split; [by apply Hs|]); [by left|].
  right. exists lazy. by apply Hs.
Qed.
(** A command that makes the data set dirty *)
Lemma signalled_dirty i m m' evs n :
  0 < n -> (forall k, m !! k <> m' !! k -> ModifiedKey i k ∈ evs) -> signalled i m m' evs n.
Proof. intros Hn Hk. split; [lia|]. auto. Qed.

Lemma purge_signalled e i m k : signalled i m (purge e m k) (purge_events e i m k) 0.
Proof.
  unfold purge, purge_events. destruct (purges e m k); [|by apply signalled_refl]. split; [done|]. intros k' Hk'.
  destruct (decide (k' = k)) as [->|]; [|by rewrite lookup_delete_ne in Hk'].
  split; [set_solver|]. right. eexists. constructor.
Qed.
Lemma purge_replies e i m k : replies (purge_events e i m k) = [].
Proof. unfold purge_events, slot_del. by destruct (purges e m k), (cluster_enabled e). Qed.
Lemma replies_app evs evs' : replies (evs ++ evs') = replies evs ++ replies evs'.
Proof. apply omap_app. Qed.
Lemma slot_del_replies e k : replies (slot_del e k) = [].
Proof. unfold slot_del. by destruct (cluster_enabled e). Qed.
Lemma add_replies e i k (v : V) : replies (add_events e i k v) = [].
Proof. unfold add_events. by destruct (_ || _), (cluster_enabled e). Qed.
Lemma slave_key_replies e i k : replies (slave_key e i k) = [].
Proof. unfold slave_key. by destruct (_ && _). Qed.

Lemma purge_mono e m k k' : purge e m k !! k' = m !! k' \/ purge e m k !! k' = None.
Proof.
  unfold purge. destruct (purges e m k); [|auto]. destruct (decide (k' = k)) as [->|]; [right; apply lookup_delete_eq|].
  left. by apply lookup_delete_ne.
Qed.
Lemma purge_ne e m k k' : k' <> k -> purge e m k !! k' = m !! k'.
Proof. intros Hne. unfold purge. destruct (purges e m k); [by apply lookup_delete_ne|done]. Qed.
Lemma room_sub m m' : room m -> (forall k, is_Some (m' !! k) -> is_Some (m !! k)) -> room m'.
Proof.
  unfold room. intros Hr Hs. rewrite <- size_dom in *. eapply Z.le_lt_trans; [|exact Hr]. apply inj_le, subseteq_size.
  intros k. rewrite (elem_of_dom m'), (elem_of_dom m). apply Hs.
Qed.
Lemma room_purge e m k : room m -> room (purge e m k).
Proof. intros Hr. apply (room_sub m); [done|]. intros k'. destruct (purge_mono e m k k') as [-> | ->]; [done|by intros [? ?]]. Qed.

Lemma purge_purge e m k : purge e (purge e m k) k = purge e m k.
Proof.
  unfold purge at 1. destruct (purges e (purge e m k) k) eqn:Ep; [|done]. apply delete_id. unfold purges in Ep.
  rewrite purge_lookup in *. destruct (purges e m k) eqn:E2; [done|]. unfold purges in E2. congruence.
Qed.
Lemma insert_purge e m k x : <[k := x]> (purge e m k) = <[k := x]> m.
Proof. unfold purge. destruct (purges e m k); [apply insert_delete_eq|done]. Qed.
Lemma visible_kept e m k x : visible e (m !! k) = Some x -> purge e m k = m /\ m !! k = Some x.
Proof. unfold visible, purge, purges. destruct (expired e (m !! k)), (masterhost e), (readonly_client e); simpl; try done. Qed.
Lemma purge_kept e m k x : purge e m k !! k = Some x -> purge e m k = m /\ m !! k = Some x.
Proof. rewrite purge_lookup. unfold purge. by destruct (purges e m k). Qed.
(** A change of one key *)
Lemma signalled_one i m k m' evs n :
  0 < n -> ModifiedKey i k ∈ evs -> (forall k', k' <> k -> m' !! k' = m !! k') -> signalled i m m' evs n.
Proof.
  intros Hn Hin Hk. apply signalled_dirty; [done|]. intros k' Hne. destruct (decide (k' = k)) as [->|]; [done|].
  destruct Hne. by rewrite Hk.
Qed.

(** ** RENAME *)

(** A time of -1 reads as no expiration at all. *)
Definition kept (t : option Z) : option Z := match t with Some t => if t =? -1 then None else Some t | None => None end.

Definition rename_spec (e : kenv) m k k' (nx : bool) : absdb A * reply :=
  let m := purge e m k in
  match m !! k with
  | None => (m, ReplyNoKey)
  | Some (a, t) =>
      if decide (k = k') then (m, if nx then ReplyInt 0 else ReplyOk) else
      let m := purge e m k' in
      if bool_decide (is_Some (m !! k')) && nx then (m, ReplyInt 0)
      else (<[k' := (a, kept t)]> (delete k m), if nx then ReplyInt 1 else ReplyOk)
  end.

Lemma room_insert m k x : Z.of_nat (base.size m) < 2 ^ 57 -> room (<[k := x]> m).
Proof.
  unfold room. intros Hr. destruct (m !! k) eqn:E.
  - rewrite map_size_insert_Some by eauto. lia.
  - rewrite map_size_insert_None by done. lia.
Qed.
Lemma room_small m : Z.of_nat (base.size m) < 2 ^ 57 -> room m.
Proof. unfold room. lia. Qed.
Lemma small_sub m m' : Z.of_nat (base.size m) < 2 ^ 57 -> (forall k, m' !! k = m !! k \/ m' !! k = None) -> Z.of_nat (base.size m') < 2 ^ 57.
Proof.
  intros Hr Hs. rewrite <- size_dom in *. eapply Z.le_lt_trans; [|exact Hr]. apply inj_le, subseteq_size.
  intros k. rewrite (elem_of_dom m'), (elem_of_dom m). destruct (Hs k) as [-> | ->]; [done|by intros [? ?]].
Qed.

(** An object is stored under [k] with the time [t]. *)
Lemma add_with_expire_ok e i m k v a t :
  m !! k = None -> Z.of_nat (base.size m) < 2 ^ 57 -> represents (ptr v) a ->
  does i m (unit_of (add_with_expire e i k v (default (-1) t)))
    (fun _ m' evs n => m' = <[k := (a, kept t)]> m /\ replies evs = [] /\ n = 0).
Proof.
  intros Hk Hsz Hv. apply does_intro. intros s0 ms s Hat. unfold unit_of, add_with_expire.
  exec (dbAdd_ok e i m k v a Hk (room_small _ Hsz) Hv). destruct HQ as (-> & -> & ->).
  destruct (default (-1) t =? -1) eqn:Et; simpl; boolsimp.
  - finish. split_and!; [|apply add_replies|done]. destruct t as [t|]; [|done]. simpl in *. by subst t.
  - exec (setExpire_ok e i _ k a None (default (-1) t) (lookup_insert_eq _ _ _) (room_insert _ _ _ Hsz)).
    destruct HQ as (-> & -> & ->). finish. rewrite replies_app, add_replies, slave_key_replies, insert_insert_eq.
    split_and!; try done. destruct t as [t|]; simpl in *; [|done]. by rewrite (proj2 (Z.eqb_neq _ _) Et).
Qed.

Lemma sdscmp_eqb a b : (sdscmp a b =? 0) = bool_decide (a = b).
Proof.
  apply eq_true_iff_eq. rewrite Z.eqb_eq, bool_decide_eq_true, <- Z.compare_eq_iff, sdscmp_lex. apply lex_eq.
Qed.

Lemma rename_ok e i m k k' nx :
  Z.of_nat (base.size m) < 2 ^ 57 ->
  does i m (unit_of (renameGenericCommand e i k k' nx)) (fun _ m' evs n =>
    m' = fst (rename_spec e m k k' nx) /\ replies evs = [snd (rename_spec e m k k' nx)] /\ signalled i m m' evs n).
Proof.
  intros Hsz. apply does_intro. intros s0 ms s Hat.
  unfold unit_of, renameGenericCommand, lookupKeyWriteOrReply, lookupKeyWrite, dbDelete, rename_spec.
  run (lookupKeyWrite_ok e i m k LOOKUP_NONE) o. destruct HQ as (Ho & -> & -> & ->).
  assert (Z.of_nat (base.size (purge e m k)) < 2 ^ 57) as Hsz1 by (apply (small_sub m); [done|apply purge_mono]).
  destruct (purge e m k !! k) as [[a t]|] eqn:Ek, o as [o|]; try done; simpl.
  2: { finish. rewrite replies_app, purge_replies. split_and!; try done. apply signalled_app, purge_signalled. }
  rewrite sdscmp_eqb. destruct (decide (k = k')) as [<-|Hne].
  { rewrite bool_decide_true by done. finish. rewrite replies_app, purge_replies. split_and!; try done.
    apply signalled_app, purge_signalled. }
  rewrite bool_decide_false by done. run (getExpire_ok i (purge e m k) k) t'. destruct HQ as (-> & -> & -> & ->).
  rewrite Ek. simpl default. run (lookupKeyWrite_ok e i (purge e m k) k' LOOKUP_NONE) dst. destruct HQ as (Hd & -> & -> & ->).
  set (m2 := purge e (purge e m k) k') in *.
  assert (Z.of_nat (base.size m2) < 2 ^ 57) as Hsz2 by (apply (small_sub (purge e m k)); [done|apply purge_mono]).
  assert (match dst with Some _ => nx | None => false end = bool_decide (is_Some (m2 !! k')) && nx) as ->.
  { destruct (m2 !! k') as [[? ?]|], dst; done. }
  destruct (bool_decide (is_Some (m2 !! k')) && nx); simpl.
  { finish. rewrite !replies_app, !purge_replies. split_and!; try done. 
    eapply signalled_sub; [eapply (signalled_trans _ _ _ _ _ _ 0 0); apply purge_signalled|set_solver]. }
  assert (exists s3 evs3, match dst with Some _ => let! (_, s) := delete_with e (lazyfree_lazy_server_del e) i k' s'1 in Some s
      | None => Some s'1 end = Some s3 /\ at_ s0 ms i s3 (delete k' m2) ((([] ++ purge_events e i m k) ++ []) ++ evs3) 0 /\
      replies evs3 = []) as (s3 & evs3 & -> & Hs3 & Hr3).
  { destruct (m2 !! k') as [[a' t']|] eqn:Ek', dst as [dst|]; try done.
    - run (delete_ok e (lazyfree_lazy_server_del e) i m2 k') x. destruct HQ as (-> & -> & -> & ->).
      eexists _, _. split; [done|]. rewrite <- app_assoc in Hat4. split; [exact Hat4|].
      rewrite replies_app, purge_replies. simpl. destruct (bool_decide _); [apply slot_del_replies|done].
    - exists s'1, (purge_events e i (purge e m k) k'). rewrite delete_id by done. split_and!; try done. apply purge_replies. }
  mstep. assert (Z.of_nat (base.size (delete k' m2)) < 2 ^ 57) as Hsz3.
  { apply (small_sub m2); [done|]. intros kk. destruct (decide (kk = k')) as [->|]; [right; apply lookup_delete_eq|].
    left. by apply lookup_delete_ne. }
  exec (add_with_expire_ok e i (delete k' m2) k' o a t (lookup_delete_eq _ _) Hsz3 Ho). destruct HQ as (-> & Hr4 & ->).
  rewrite insert_delete_eq in *.
  run (delete_ok e (lazyfree_lazy_server_del e) i (<[k' := (a, kept t)]> m2) k) x. destruct HQ as (-> & -> & -> & ->).
  finish. rewrite delete_insert_ne by done. split_and!; try done.
  - rewrite !replies_app, purge_replies, Hr3, Hr4. destruct (bool_decide _); [rewrite slot_del_replies|]; done.
  - apply signalled_dirty; [lia|]. intros kk Hkk. destruct (decide (kk = k)) as [->|H1]; [set_solver|].
    destruct (decide (kk = k')) as [->|H2]; [set_solver|]. destruct Hkk.
    rewrite lookup_insert_ne, lookup_delete_ne by done. subst m2. by rewrite !purge_ne.
Qed.

(** ** DEL, UNLINK and EXISTS *)

Definition del_spec m (keys : list bytes) : absdb A := foldl (fun m k => delete k m) m keys.
(** The keys found, each counted once *)
Fixpoint del_count (e : kenv) m (keys : list bytes) : Z :=
  match keys with
  | [] => 0
  | k :: keys => b2z (bool_decide (is_Some (purge e m k !! k))) + del_count e (delete k m) keys
  end.

Lemma delete_purge e m k : delete k (purge e m k) = delete k m.
Proof. unfold purge. destruct (purges e m k); [apply delete_delete_eq|done]. Qed.

Lemma del_loop_ok e lazy i keys : forall m c,
  does i m (del_loop e lazy i keys c) (fun x m' evs n =>
    x = c + del_count e m keys /\ m' = del_spec m keys /\ replies evs = [] /\ signalled i m m' evs n).
Proof.
  induction keys as [|k keys IH]; intros m c; cbn [del_loop del_count].
  { apply does_intro. intros s0 ms s Hat. finish. split_and!; [lia|done..|by apply signalled_refl]. }
  apply does_intro. intros s0 ms s Hat. run (expireIfNeeded_ok e i m k) x. destruct HQ as (-> & -> & -> & ->).
  run (delete_ok e lazy i (purge e m k) k) d. destruct HQ as (-> & -> & -> & ->). rewrite delete_purge in *.
  assert (forall kk, kk <> k -> m !! kk = delete k m !! kk) as Hkk by (intros; by rewrite lookup_delete_ne).
  destruct (bool_decide (is_Some (purge e m k !! k))) eqn:Ed.
  - tail_call (IH (delete k m) (c + 1)) x. destruct HQ as (-> & -> & Hr3 & Hs3).
    finish. split_and!; [simpl; lia|done| |].
    + rewrite !replies_app, purge_replies, slot_del_replies. simpl. by rewrite Hr3.
    + eapply signalled_sub; [eapply (signalled_trans _ _ (delete k m) _ [ModifiedKey i k] _ 1); [|exact Hs3]|set_solver].
      apply signalled_dirty; [lia|]. intros kk Hne. destruct (decide (kk = k)) as [->|]; [set_solver|]. by destruct Hne; apply Hkk.
  - tail_call (IH (delete k m) c) x. destruct HQ as (-> & -> & Hr3 & Hs3).
    finish. split_and!; [simpl; lia|done| |].
    + rewrite !replies_app, purge_replies. done.
    + eapply signalled_sub; [eapply (signalled_trans _ _ (delete k m) _ _ _ 0); [|exact Hs3]|set_solver].
      apply bool_decide_eq_false in Ed. replace (delete k m) with (purge e m k); [apply purge_signalled|].
      rewrite <- (delete_purge e). symmetry. apply delete_id. by apply eq_None_not_Some.
Qed.

Lemma visible_purge e m k k' : visible e (purge e m k !! k') = visible e (m !! k').
Proof.
  destruct (decide (k' = k)) as [->|]; [|by rewrite purge_ne]. rewrite purge_lookup. unfold purges, visible.
  destruct (expired e (m !! k)) eqn:Ex, (masterhost e) eqn:Em; simpl; rewrite ?Ex; try done.
Qed.
Definition exists_count (e : kenv) m (keys : list bytes) : Z :=
  zlen (filter (fun k => is_Some (visible e (m !! k))) keys).
Definition purge_all (e : kenv) m (keys : list bytes) : absdb A := foldl (purge e) m keys.

Lemma exists_loop_ok e i keys : forall m c,
  does i m (exists_loop e i keys c) (fun x m' evs n =>
    x = c + exists_count e m keys /\ m' = purge_all e m keys /\ replies evs = [] /\ signalled i m m' evs n).
Proof.
  induction keys as [|k keys IH]; intros m c; cbn [exists_loop].
  { apply does_intro. intros s0 ms s Hat. finish. split_and!; [|done..|by apply signalled_refl]. unfold exists_count. rewrite filter_nil. zlia. }
  apply does_intro. intros s0 ms s Hat. unfold lookupKeyRead. run (lookupKeyRead_ok e i m k LOOKUP_NONE) o.
  destruct HQ as (Ho & -> & -> & ->).
  tail_call (IH (purge e m k) (match o with Some _ => c + 1 | None => c end)) x. destruct HQ as (-> & -> & Hr3 & Hs3).
  finish. split_and!; [|done| |].
  - unfold exists_count. rewrite filter_cons.
    rewrite (list_filter_iff _ (fun k => is_Some (visible e (m !! k)))) by (intros kk; by rewrite visible_purge).
    destruct o as [o|], (visible e (m !! k)) as [[a t]|] eqn:Ev; try done; case_decide as Hd;
      rewrite ?Ev in Hd; try zlia; by destruct Hd; eauto.
  - rewrite !replies_app, purge_replies. simpl. by destruct (visible e (m !! k)) as [[a t]|].
  - eapply signalled_sub; [eapply (signalled_trans _ _ (purge e m k) _ _ _ 0); [apply purge_signalled|exact Hs3]|set_solver].
Qed.

(** ** EXPIRE, TTL and PERSIST *)

(** The time at which a key is to expire, in milliseconds *)
Definition deadline (basetime n : Z) (seconds : bool) : Z := basetime + n * (if seconds then 1000 else 1).
(** A deadline that is not in the future takes the key away at once, but only on a master that is not
    loading its data; anywhere else the key gets the deadline and waits for the master. *)
Definition expire_spec (e : kenv) m k (param : bytes) (basetime : Z) (seconds : bool) : absdb A * reply :=
  match string2ll param with
  | None => (m, ReplyError "value is not an integer or out of range")
  | Some n =>
      let m := purge e m k in
      let t := deadline basetime n seconds in
      match m !! k with
      | None => (m, ReplyInt 0)
      | Some (a, _) =>
          (if decide (t <= mstime e /\ masterhost e = false /\ loading e = false) then delete k m else <[k := (a, Some t)]> m, ReplyInt 1)
      end
  end.
(** Neither the product nor the sum overflows. *)
Definition expire_fits (param : bytes) (basetime : Z) (seconds : bool) : Prop :=
  match string2ll param with
  | None => True
  | Some n => is_s 64 (n * (if seconds then 1000 else 1)) /\ is_s 64 (deadline basetime n seconds)
  end.

(** The same with the arithmetic of the code *)
Definition expire_result (e : kenv) m k (param : bytes) (basetime : Z) (seconds : bool) : absdb A * reply :=
  match string2ll param with
  | None => (m, ReplyError "value is not an integer or out of range")
  | Some when =>
      let when := i64 ((if seconds then i64 (when * 1000) else when) + basetime) in
      let m := purge e m k in
      match m !! k with
      | None => (m, ReplyInt 0)
      | Some (a, _) =>
          if checkAlreadyExpired e when then (delete k m, ReplyInt 1) else (<[k := (a, Some when)]> m, ReplyInt 1)
      end
  end.
Lemma expire_result_spec e m k param basetime seconds :
  expire_fits param basetime seconds -> expire_result e m k param basetime seconds = expire_spec e m k param basetime seconds.
Proof.
  unfold expire_fits, expire_result, expire_spec, deadline. destruct (string2ll param) as [n|]; [|done]. intros [Hp Hs].
  assert (i64 ((if seconds then i64 (n * 1000) else n) + basetime) = basetime + n * (if seconds then 1000 else 1)) as ->.
  { destruct seconds; [rewrite (sN_small 64 (n * 1000)) by (done || lia)|]; rewrite sN_small; try lia; [by rewrite Z.add_comm|].
    by rewrite Z.mul_1_r, Z.add_comm in Hs. }
  destruct (purge e m k !! k) as [[a t]|]; [|done]. unfold checkAlreadyExpired. case_decide as Hd.
  - destruct Hd as (Ht & -> & ->). by rewrite (proj2 (Z.leb_le _ _) Ht).
  - destruct (_ <=? mstime e) eqn:Et, (loading e), (masterhost e); try done. boolsimp. by destruct Hd.
Qed.

Lemma expire_ok e i m k param basetime seconds :
  room m ->
  does i m (unit_of (expireGenericCommand e i k param basetime seconds)) (fun _ m' evs n =>
    m' = fst (expire_result e m k param basetime seconds) /\ replies evs = [snd (expire_result e m k param basetime seconds)] /\
    signalled i m m' evs n).
Proof.
  intros Hroom. apply does_intro. intros s0 ms s Hat. unfold unit_of, expireGenericCommand, expire_result, lookupKeyWrite.
  destruct (string2ll param) as [when|]; simpl; [|finish; split_and!; try done; by apply signalled_refl].
  set (w := i64 (_ + basetime)). run (lookupKeyWrite_ok e i m k LOOKUP_NONE) o. destruct HQ as (Ho & -> & -> & ->).
  destruct (purge e m k !! k) as [[a t]|] eqn:Ek, o as [o|]; try done; simpl.
  2: { finish. rewrite replies_app, purge_replies. split_and!; try done. apply signalled_app, purge_signalled. }
  assert (forall m' evs, (forall kk, kk <> k -> m' !! kk = m !! kk) -> signalled i m m' (evs ++ [ModifiedKey i k]) 1) as Hsig.
  { intros m' evs Hkk. apply signalled_dirty; [lia|]. intros kk Hne. destruct (decide (kk = k)) as [->|]; [set_solver|].
    by destruct Hne; rewrite Hkk. }
  destruct (checkAlreadyExpired e w).
  - run (delete_ok e (lazyfree_lazy_expire e) i (purge e m k) k) d. destruct HQ as (-> & -> & -> & ->).
    rewrite bool_decide_true in * by (rewrite Ek; eauto). simpl. finish. split_and!; [done| |].
    + rewrite !replies_app, purge_replies, slot_del_replies. done.
    + eapply signalled_sub; [apply (Hsig _ []); intros kk Hne; by rewrite lookup_delete_ne, purge_ne|set_solver].
  - exec (setExpire_ok e i (purge e m k) k a t w Ek (room_purge _ _ _ Hroom)). destruct HQ as (-> & -> & ->). finish.
    split_and!; [done| |].
    + rewrite !replies_app, purge_replies, slave_key_replies. done.
    + eapply signalled_sub; [apply (Hsig _ []); intros kk Hne; by rewrite lookup_insert_ne, purge_ne|set_solver].
Qed.

Definition ttl_reply (e : kenv) (output_ms : bool) (x : option (A * option Z)) : reply :=
  ReplyInt (match x with
            | None => -2
            | Some (_, t) =>
                match kept t with
                | None => -1
                | Some t => let ttl := Z.max 0 (t - mstime e) in
                            if output_ms then ttl else (ttl + 500) / 1000
                end
            end).
(** The times are not some 292 million years apart. *)
Definition ttl_fits (e : kenv) (x : option (A * option Z)) : Prop :=
  match x with Some (_, Some t) => - 2 ^ 63 <= t - mstime e < 2 ^ 63 - 500 | _ => True end.

Lemma ttl_ok e i m k output_ms :
  ttl_fits e (m !! k) ->
  does i m (unit_of (ttlGenericCommand e i k output_ms)) (fun _ m' evs n =>
    m' = purge e m k /\ replies evs = [ttl_reply e output_ms (visible e (m !! k))] /\ signalled i m m' evs n).
Proof.
  intros Hfit. apply does_intro. intros s0 ms s Hat. unfold unit_of, ttlGenericCommand.
  run (lookupKeyRead_ok e i m k LOOKUP_NOTOUCH) o. destruct HQ as (Ho & -> & -> & ->).
  destruct (visible e (m !! k)) as [[a t]|] eqn:Ev, o as [o|]; try done.
  2: { finish. rewrite !replies_app, purge_replies. split_and!; try done. apply signalled_app, purge_signalled. }
  assert (purge e m k !! k = Some (a, t)) as Hk.
  { rewrite purge_lookup. unfold visible in Ev. unfold purges. destruct (expired e (m !! k)), (masterhost e); simpl in *; try done.
    by destruct (readonly_client e). }
  rewrite (proj2 (visible_kept _ _ _ _ Ev)) in Hfit. unfold ttl_fits in Hfit.
  run (getExpire_ok i (purge e m k) k) x. destruct HQ as (-> & -> & -> & ->). rewrite Hk. simpl default.
  unfold ttl_reply, kept in *. destruct t as [t|]; simpl in *.
  - destruct (t =? -1) eqn:Et; simpl.
    + finish. rewrite !replies_app, purge_replies, ?app_nil_r. split_and!; try done. apply signalled_app, purge_signalled.
    + rewrite !(sN_small 64 (t - mstime e)) by (unfold is_s; lia).
      assert ((if t - mstime e <? 0 then 0 else t - mstime e) = Z.max 0 (t - mstime e)) as -> by (casif; lia).
      rewrite (sN_small 64 (Z.max _ _ + 500)), Z.quot_div_nonneg by (unfold is_s; lia).
      rewrite (proj2 (Z.eqb_neq (Z.max 0 _) (-1))) by lia.
      finish. rewrite !replies_app, purge_replies, ?app_nil_r. split_and!; try done. apply signalled_app, purge_signalled.
  - finish. rewrite !replies_app, purge_replies, ?app_nil_r. split_and!; try done. apply signalled_app, purge_signalled.
Qed.

Definition persist_spec (e : kenv) m k : absdb A * reply :=
  let m := purge e m k in
  match m !! k with
  | Some (a, Some _) => (<[k := (a, None)]> m, ReplyInt 1)
  | _ => (m, ReplyInt 0)
  end.

Lemma persist_ok e i m k :
  does i m (unit_of (persistCommand e i k)) (fun _ m' evs n =>
    m' = fst (persist_spec e m k) /\ replies evs = [snd (persist_spec e m k)] /\ signalled i m m' evs n).
Proof.
  apply does_intro. intros s0 ms s Hat. unfold unit_of, persistCommand, persist_spec, lookupKeyWrite.
  run (lookupKeyWrite_ok e i m k LOOKUP_NONE) o. destruct HQ as (Ho & -> & -> & ->).
  destruct (purge e m k !! k) as [[a t]|] eqn:Ek, o as [o|]; try done; simpl.
  2: { finish. rewrite replies_app, purge_replies. split_and!; try done. apply signalled_app, purge_signalled. }
  run (removeExpire_ok i (purge e m k) k a t Ek) x. destruct HQ as (-> & -> & -> & ->). destruct t as [t|]; simpl.
  - finish. rewrite !replies_app, purge_replies. split_and!; try done. apply signalled_dirty; [lia|]. intros kk Hne.
    destruct (decide (kk = k)) as [->|]; [set_solver|]. by destruct Hne; rewrite lookup_insert_ne, purge_ne.
  - finish. rewrite !replies_app, purge_replies, insert_id by done. split_and!; try done. apply signalled_app, purge_signalled.
Qed.

(** ** The commands on one database *)

Inductive kcmd :=
| CDel (lazy : bool) (keys : list bytes)
| CExists (keys : list bytes)
| CRename (key newkey : bytes) (nx : bool)
| CExpire (key param : bytes) (basetime : Z) (seconds : bool)
| CTtl (key : bytes) (output_ms : bool)
| CPersist (key : bytes).

Definition run_kcmd (e : kenv) i (c : kcmd) : keyspace V -> option (keyspace V) :=
  match c with
  | CDel lazy keys => delGenericCommand e lazy i keys
  | CExists keys => existsCommand e i keys
  | CRename k k' nx => renameGenericCommand e i k k' nx
  | CExpire k param basetime seconds => expireGenericCommand e i k param basetime seconds
  | CTtl k output_ms => ttlGenericCommand e i k output_ms
  | CPersist k => persistCommand e i k
  end.

(** What a command does to a finite map, and its reply *)
Definition kcmd_spec (e : kenv) m (c : kcmd) : absdb A * reply :=
  match c with
  | CDel _ keys => (del_spec m keys, ReplyInt (del_count e m keys))
  | CExists keys => (purge_all e m keys, ReplyInt (exists_count e m keys))
  | CRename k k' nx => rename_spec e m k k' nx
  | CExpire k param basetime seconds => expire_spec e m k param basetime seconds
  | CTtl k output_ms => (purge e m k, ttl_reply e output_ms (visible e (m !! k)))
  | CPersist k => persist_spec e m k
  end.

(** No 64 bit sum or product of times overflows. *)
Definition kcmd_fits (e : kenv) m (c : kcmd) : Prop :=
  match c with
  | CExpire _ param basetime seconds => expire_fits param basetime seconds
  | CTtl k _ => ttl_fits e (m !! k)
  | _ => True
  end.

Lemma kcmd_ok e i m c :
  Z.of_nat (base.size m) < 2 ^ 57 -> kcmd_fits e m c ->
  does i m (unit_of (run_kcmd e i c)) (fun _ m' evs n =>
    m' = fst (kcmd_spec e m c) /\ replies evs = [snd (kcmd_spec e m c)] /\ signalled i m m' evs n).
Proof.
  intros Hsz Hfit. destruct c as [lazy keys|keys|k k' nx|k param b sec|k ms|k]; simpl in *.
  - apply does_intro. intros s0 ms s Hat. unfold unit_of, delGenericCommand. run (del_loop_ok e lazy i keys m 0) x.
    destruct HQ as (-> & -> & Hr & Hs). finish. rewrite replies_app, Hr. split_and!; try done. by apply signalled_app.
  - apply does_intro. intros s0 ms s Hat. unfold unit_of, existsCommand. run (exists_loop_ok e i keys m 0) x.
    destruct HQ as (-> & -> & Hr & Hs). finish. rewrite replies_app, Hr. split_and!; try done. by apply signalled_app.
  - by apply rename_ok.
  - rewrite <- expire_result_spec by done. by apply expire_ok, room_small.
  - by apply ttl_ok.
  - apply persist_ok.
Qed.

(** C7. DEL, UNLINK, EXISTS, RENAME, RENAMENX, EXPIRE and its variants, TTL, PTTL and PERSIST
    implement their meaning on finite maps from keys to values with expiration times, on a master
    and on a replica, for every eviction policy and at every stage of a rehash of the dictionaries:
    they return, reply once as specified, touch no other database, and every key that changes is
    signalled to those who watch or cache it and reaches the replicas.  The times are such that their
    64 bit sums and products do not overflow. *)
Theorem keyspace_commands_correct e i c s ms m :
  ks_rep s ms -> ms !! i = Some m -> Z.of_nat (base.size m) < 2 ^ 57 -> kcmd_fits e m c ->
  exists s' evs n, run_kcmd e i c s = Some s' /\ ks_rep s' (<[i := fst (kcmd_spec e m c)]> ms) /\
    events s' = events s ++ evs /\ dirtied s n s' /\
    replies evs = [snd (kcmd_spec e m c)] /\ signalled i m (fst (kcmd_spec e m c)) evs n.
Proof.
  intros Hr Hm Hsz Hfit. destruct (kcmd_ok e i m c Hsz Hfit s ms Hr Hm) as (x & s' & m' & evs & n & Hx & Hr' & He & Hd & -> & Hrep & Hs).
  exists s', evs, n. unfold unit_of in Hx. destruct (run_kcmd e i c s); [|done]. injection Hx as _ ->. done.
Qed.

(** ** MOVE *)

Definition move_spec (e : kenv) m (d : absdb A) k : absdb A * absdb A * reply :=
  let m := purge e m k in
  match m !! k with
  | None => (m, d, ReplyInt 0)
  | Some (a, t) =>
      let d := purge e d k in
      match d !! k with
      | Some _ => (m, d, ReplyInt 0)
      | None => (delete k m, <[k := (a, kept t)]> d, ReplyInt 1)
      end
  end.

(** MOVE takes a key that the target database does not have to that database, with its value and
    its expiration time, and otherwise changes nothing but the expired keys it meets; both databases
    have their changes signalled and propagated. *)
Theorem moveCommand_correct (e : kenv) (src dst : nat) (k : bytes) s ms m (d : absdb A) :
  ks_rep s ms -> ms !! src = Some m -> ms !! dst = Some d -> src <> dst -> cluster_enabled e = false ->
  Z.of_nat (base.size d) < 2 ^ 57 ->
  let '(m', d', r) := move_spec e m d k in
  exists s' evs n, moveCommand e src k (Some (Z.of_nat dst)) s = Some s' /\
    ks_rep s' (<[dst := d']> (<[src := m']> ms)) /\ events s' = events s ++ evs /\ dirtied s n s' /\
    replies evs = [r] /\ signalled src m m' evs n /\ signalled dst d d' evs n.
Proof.
  intros Hr Hm Hd Hne Hcl Hsz. unfold moveCommand. rewrite Hcl.
  pose proof (lookup_lt_Some _ _ _ Hd) as Hlt. pose proof (Forall2_length _ _ _ Hr) as Hlen.
  rewrite (proj2 (Z.ltb_ge _ _)), Z.geb_leb, (proj2 (Z.leb_gt _ _)) by (unfold zlen; lia). simpl.
  rewrite Nat2Z.id, (proj2 (Nat.eqb_neq _ _)) by done. unfold lookupKeyWrite, move_spec, dbDelete.
  assert (at_ s ms src s m [] 0) as Hat.
  { constructor; [by apply lookup_lt_Some in Hm|by rewrite list_insert_id|by rewrite app_nil_r|apply dirtied_0]. }
  run (lookupKeyWrite_ok e src m k LOOKUP_NONE) o. destruct HQ as (Ho & -> & -> & ->).
  assert (forall s' m' evs n, at_ s ms src s' m' evs n -> at_ s (<[src := m']> ms) dst s' d evs n) as Hswitch.
  { intros s1 m' evs n [Hi Hr1 He Hn]. constructor; try done; [by rewrite length_insert|].
    by rewrite list_insert_id by by rewrite list_lookup_insert_ne. }
  destruct (purge e m k !! k) as [[a t]|] eqn:Ek, o as [o|]; try done.
  2: { eassert (at_ _ _ _ (addReply (ReplyInt 0) s') _ _ _) as [_ Hr2 He2 Hd2] by find_state. eexists _, _, _.
       split; [done|]. rewrite (list_insert_id _ dst) by by rewrite list_lookup_insert_ne.
       split_and!; [exact Hr2|exact He2|exact Hd2| | |by apply signalled_refl].
       - rewrite !replies_app, purge_replies. done.
       - apply signalled_app, purge_signalled. }
  run (getExpire_ok src (purge e m k) k) t'. destruct HQ as (-> & -> & -> & ->). rewrite Ek. simpl default.
  apply Hswitch in Hat2 as Hat3. run (lookupKeyWrite_ok e dst d k LOOKUP_NONE) there. destruct HQ as (Ht & -> & -> & ->).
  destruct (purge e d k !! k) as [[a' t']|] eqn:Ek', there as [there|]; try done.
  { eassert (at_ _ _ dst (addReply (ReplyInt 0) s'1) _ _ _) as [_ Hr2 He2 Hd2] by find_state. eexists _, _, _. split; [done|].
    split_and!; [exact Hr2|exact He2|exact Hd2| | |].
    - rewrite !replies_app, !purge_replies. done.
    - eapply signalled_sub; [apply (purge_signalled e)|set_solver].
    - eapply signalled_sub; [apply (purge_signalled e)|set_solver]. }
  assert (Z.of_nat (base.size (purge e d k)) < 2 ^ 57) as Hsz1 by (apply (small_sub d); [done|apply purge_mono]).
  exec (add_with_expire_ok e dst (purge e d k) k o a t Ek' Hsz1 Ho). destruct HQ as (-> & Hr4 & ->).
  match goal with H : at_ s _ dst ?s2 (<[k := _]> _) ?evs ?n |- _ =>
    assert (at_ s (<[dst := <[k := (a, kept t)]> (purge e d k)]> ms) src s2 (purge e m k) evs n) as Hat6 end.
  { destruct Hat5 as [Hi Hr5 He5 Hd5]. constructor; try done; [rewrite length_insert; by apply lookup_lt_Some in Hm|].
    by rewrite list_insert_insert_ne by done. }
  run (delete_ok e (lazyfree_lazy_server_del e) src (purge e m k) k) x. destruct HQ as (-> & -> & -> & ->).
  match goal with |- context [Some ?st = Some _] => eassert (at_ _ _ src st _ _ _) as [_ Hr7 He7 Hd7] by find_state end.
  eexists _, _, _. split; [done|].
  split_and!; [|exact He7|exact Hd7| | |].
  - by rewrite list_insert_insert_ne by done.
  - rewrite !replies_app, !purge_replies, Hr4. destruct (bool_decide _); [rewrite slot_del_replies|]; done.
  - apply signalled_dirty; [lia|]. intros kk Hk. destruct (decide (kk = k)) as [->|]; [set_solver|].
    destruct Hk. by rewrite lookup_delete_ne, purge_ne.
  - apply signalled_dirty; [lia|]. intros kk Hk. destruct (decide (kk = k)) as [->|]; [set_solver|].
    destruct Hk. by rewrite lookup_insert_ne, purge_ne.
Qed.

(** ** Lookups *)

(** C24. A lookup finds exactly the keys that have not expired: on a master an expired key is deleted
    on the way, with a deletion sent to the replicas; on a replica it stays, but is hidden from
    commands that only read.  Neither lookup changes anything else, for every eviction policy. *)
Theorem lookups_correct e i k s ms m :
  ks_rep s ms -> ms !! i = Some m ->
  (exists o s' evs, lookupKeyRead e i k s = Some (o, s') /\ found o (visible e (m !! k)) /\
     ks_rep s' (<[i := purge e m k]> ms) /\ events s' = events s ++ evs /\ signalled i m (purge e m k) evs 0) /\
  (exists o s' evs, lookupKeyWrite e i k s = Some (o, s') /\ found o (purge e m k !! k) /\
     ks_rep s' (<[i := purge e m k]> ms) /\ events s' = events s ++ evs /\ signalled i m (purge e m k) evs 0).
Proof.
  intros Hr Hm. split.
  - destruct (lookupKeyRead_ok e i m k LOOKUP_NONE s ms Hr Hm) as (o & s' & m' & evs & n & Hx & Hr' & He & _ & Ho & -> & -> & ->).
    eexists o, s', _. split_and!; try done. apply signalled_app, purge_signalled.
  - destruct (lookupKeyWrite_ok e i m k LOOKUP_NONE s ms Hr Hm) as (o & s' & m' & evs & n & Hx & Hr' & He & _ & Ho & -> & -> & ->).
    eexists o, s', _. split_and!; try done. apply purge_signalled.
Qed.

(** C39. EXPIRE multiplies its argument by 1000 and adds the time in 64 bits, without a check: with
    the largest number it accepts, some 292 billion years, the product wraps around to a time in
    the past, and on a master the key is deleted at once. *)
Theorem expire_overflow e i k s ms m x :
  ks_rep s ms -> ms !! i = Some m -> m !! k = Some x -> room m ->
  masterhost e = false -> loading e = false -> 1000 <= mstime e < 2 ^ 62 ->
  string2ll [57;50;50;51;51;55;50;48;51;54;56;53;52;55;55;53;56;48;55] = Some (2 ^ 63 - 1) /\
  exists s', expireCommand e i k [57;50;50;51;51;55;50;48;51;54;56;53;52;55;55;53;56;48;55] s = Some s' /\
    ks_rep s' (<[i := delete k m]> ms).
Proof.
  intros Hr Hm Hk Hroom Hma Hlo Hnow. assert (string2ll [57;50;50;51;51;55;50;48;51;54;56;53;52;55;55;53;56;48;55] = Some (2 ^ 63 - 1)) as Hp.
  { vm_compute. reflexivity. }
  split; [done|]. unfold expireCommand.
  destruct (expire_ok e i m k [57;50;50;51;51;55;50;48;51;54;56;53;52;55;55;53;56;48;55] (mstime e) true Hroom s ms Hr Hm)
    as (u & s' & m' & evs & n & Hx & Hr' & _ & _ & -> & _ & _).
  exists s'. unfold unit_of in Hx. destruct (expireGenericCommand _ _ _ _ _ _ s); [|done]. injection Hx as _ ->. split; [done|].
  enough (fst (expire_result e m k [57;50;50;51;51;55;50;48;51;54;56;53;52;55;55;53;56;48;55] (mstime e) true) = delete k m) as <- by done.
  unfold expire_result. rewrite Hp. change (i64 ((2 ^ 63 - 1) * 1000)) with (-1000).
  rewrite (sN_small 64 (_ + _)) by (unfold is_s; lia). unfold checkAlreadyExpired. rewrite (proj2 (Z.leb_le (-1000 + mstime e) _)) by lia. rewrite Hlo, Hma. simpl.
  destruct (purge e m k !! k) as [[a t]|] eqn:Ep; simpl; [by rewrite delete_purge|].
  rewrite <- (delete_purge e). symmetry. by apply delete_id.
Qed.
End Spec.

(** * The interface of the keyspace for commands: setting, flushing, swapping *)

Section Api.
Context {V A : Type} `{!Rep V A, !Value V, !dictType bytes, !DictTypeOk bytes, !EqDecision A}.
Implicit Types (s : keyspace V) (k : bytes) (i j : nat) (m : absdb A) (ms : list (absdb A)).

(** ** Setting a key *)

Definition old_time (e : kenv) m k (keepttl : bool) : option Z := if keepttl then purge e m k !! k ≫= snd else None.

Lemma set_ok e i m k v a keepttl signal :
  room m -> represents (ptr v) a ->
  does i m (unit_of (genericSetKey e i k v keepttl signal)) (fun _ m' evs n =>
    m' = <[k := (a, old_time e m k keepttl)]> (purge e m k) /\ replies evs = [] /\ n = 0 /\
    (signal = true -> ModifiedKey i k ∈ evs)).
Proof.
  intros Hroom Hv. apply does_intro. intros s0 ms s Hat. unfold unit_of, genericSetKey, lookupKeyWrite, old_time.
  run (lookupKeyWrite_ok e i m k LOOKUP_NONE) o. destruct HQ as (Ho & -> & -> & ->).
  set (t := purge e m k !! k ≫= snd).
  assert (exists s2 evs2, match o with None => dbAdd e i k v s' | Some _ => dbOverwrite e i k v s' end = Some s2 /\
    at_ s0 ms i s2 (<[k := (a, t)]> (purge e m k)) evs2 0 /\ replies evs2 = []) as (s2 & evs2 & -> & Hat2 & Hr2).
  { subst t. destruct (purge e m k !! k) as [[a0 t]|] eqn:Ek, o as [o|]; try done.
    - destruct (at_exec _ _ _ _ _ _ _ _ _ (dbOverwrite_ok e i (purge e m k) k v a a0 t Ek Hv) Hat1)
        as (s2 & m2 & evs2 & n2 & -> & Hat2 & -> & -> & ->). eexists s2, _. split_and!; [done|exact Hat2|].
      by rewrite !replies_app, purge_replies.
    - destruct (at_exec _ _ _ _ _ _ _ _ _ (dbAdd_ok e i (purge e m k) k v a Ek (room_purge _ _ _ Hroom) Hv) Hat1)
        as (s2 & m2 & evs2 & n2 & -> & Hat2 & -> & -> & ->). eexists s2, _. split_and!; [done|exact Hat2|].
      by rewrite !replies_app, purge_replies, add_replies. }
  mstep. destruct keepttl; simpl.
  - destruct signal; finish; split_and!; try done; [by rewrite replies_app, Hr2|set_solver].
  - run (removeExpire_ok i (<[k := (a, t)]> (purge e m k)) k a t (lookup_insert_eq _ _ _)) r. destruct HQ as (-> & -> & -> & ->).
    rewrite insert_insert_eq in *. destruct signal; finish; split_and!; try done; rewrite ?replies_app, ?Hr2; set_solver.
Qed.

(** ** Emptying and swapping *)

Lemma emptied_rep db m : db_rep db m -> dictSize (ddict db) = Z.of_nat (base.size m) /\
  forall async, db_rep (if async : bool then RedisDb dictCreate dictCreate else RedisDb (snd (dictEmpty (ddict db))) (snd (dictEmpty (dexpires db)))) (∅ : absdb A).
Proof.
  intros (M & E & HM & HE & Hk). split; [by apply (rep_sizes db m M E HM HE Hk)|]. intros async. exists ∅, ∅.
  destruct (dictEmpty_correct _ _ HM) as [_ (d1 & -> & H1)], (dictEmpty_correct _ _ HE) as [_ (d2 & -> & H2)].
  destruct async; (split; [first [apply create_rep|done]|]); (split; [first [apply create_rep|done]|]); intros k; by rewrite !lookup_empty.
Qed.

Fixpoint sizes ms : Z := match ms with [] => 0 | m :: ms => Z.of_nat (base.size m) + sizes ms end.

Lemma empty_loop_ok async : forall n j removed s ms,
  ks_rep s ms -> (j + n <= length ms)%nat -> 0 <= removed -> removed + sizes (take n (drop j ms)) < 2 ^ 63 ->
  exists s', empty_loop async n j removed s = Some (removed + sizes (take n (drop j ms)), s') /\
    ks_rep s' (take j ms ++ replicate n ∅ ++ drop (j + n) ms) /\ events s' = events s /\ dirty s' = dirty s.
Proof.
  induction n as [|n IH]; intros j removed s ms Hr Hj H0 Hs; cbn [empty_loop].
  { exists s. simpl. rewrite Z.add_0_r, Nat.add_0_r, take_drop. done. }
  destruct (lookup_lt_is_Some_2 ms j) as [m Hm]; [lia|]. destruct (rep_lookup _ _ _ _ Hr Hm) as (db & Hdb & Hrep). rewrite Hdb. mstep.
  destruct (emptied_rep db m Hrep) as [-> He]. rewrite (drop_S _ _ _ Hm) in *. simpl in Hs |- *.
  assert (0 <= sizes (take n (drop (S j) ms))) as Hpos.
  { generalize (take n (drop (S j) ms)). induction l as [|m' l IHl]; simpl; lia. }
  rewrite (sN_small 64) by (unfold is_s; lia).
  assert (ks_rep (set_dbs (<[j := if async then RedisDb dictCreate dictCreate else RedisDb (snd (dictEmpty (ddict db))) (snd (dictEmpty (dexpires db)))]> (dbs s)) s) (<[j := ∅]> ms)) as Hr'.
  { unfold ks_rep. cbn [dbs set_dbs]. apply Forall2_insert; [done|apply He]. }
  destruct (IH (S j) (removed + Z.of_nat (base.size m)) _ _ Hr') as (s' & HE & Hrs & He' & Hd').
  - rewrite length_insert. lia.
  - lia.
  - rewrite drop_insert_lt by lia. lia.
  - exists s'. rewrite drop_insert_lt in HE by lia. split; [etransitivity; [exact HE|f_equal; f_equal; lia]|]. split; [|done].
    rewrite drop_insert_lt in Hrs by lia. rewrite (take_S_r _ _ ∅) in Hrs by (apply list_lookup_insert_eq; lia).
    rewrite take_insert_ge in Hrs by lia. rewrite <- app_assoc in Hrs. by replace (j + S n)%nat with (S j + n)%nat by lia.
Qed.

Lemma emptyDb_ok e dbnum async s ms :
  ks_rep s ms -> sizes ms < 2 ^ 63 -> -1 <= dbnum < zlen ms ->
  let j := if dbnum =? -1 then 0%nat else Z.to_nat dbnum in
  let n := if dbnum =? -1 then length ms else 1%nat in
  exists s' evs, emptyDb e dbnum async s = Some (sizes (take n (drop j ms)), s') /\
    ks_rep s' (take j ms ++ replicate n ∅ ++ drop (j + n) ms) /\
    events s' = events s ++ FlushedDb dbnum :: evs /\ replies evs = [] /\ dirty s' = dirty s.
Proof.
  intros Hr Hs Hd j n. unfold emptyDb, emptyDbGeneric. pose proof (Forall2_length _ _ _ Hr) as Hl.
  rewrite (proj2 (Z.ltb_ge _ _)), Z.geb_leb, (proj2 (Z.leb_gt _ _)) by (unfold zlen in *; lia). simpl orb. cbv match. cbn [negb].
  assert (forall n' (l : list (absdb A)), sizes (take n' l) <= sizes l) as Hsub.
  { induction n' as [|n' IH]; intros [|m l]; simpl; try lia; [|specialize (IH l); lia].
    enough (0 <= sizes l) by lia. induction l; simpl; lia. }
  assert (forall j' (l : list (absdb A)), sizes (drop j' l) <= sizes l) as Hsub'.
  { induction j' as [|j' IH]; intros [|m l]; simpl; try lia. specialize (IH l). lia. }
  assert (j + n <= length ms)%nat as Hjn.
  { subst j n. unfold zlen in Hd. destruct (dbnum =? -1) eqn:E; boolsimp; lia. }
  destruct (empty_loop_ok async n j 0 (emit (FlushedDb dbnum) s) ms Hr Hjn) as (s1 & HE & Hr1 & He1 & Hd1); [lia| |].
  { specialize (Hsub n (drop j ms)). specialize (Hsub' j ms). lia. }
  rewrite Z.add_0_l in HE.
  assert ((if dbnum =? -1 then empty_loop async (length (dbs (emit (FlushedDb dbnum) s))) 0 0 (emit (FlushedDb dbnum) s)
    else empty_loop async 1 (Z.to_nat dbnum) 0 (emit (FlushedDb dbnum) s)) = Some (sizes (take n (drop j ms)), s1)) as ->.
  { rewrite <- HE. subst j n. cbn [dbs emit]. rewrite Hl. by destruct (dbnum =? -1). }
  mstep. destruct (cluster_enabled e), (dbnum =? -1); eexists _, _; (split; [reflexivity|]); (split; [exact Hr1|]);
    cbn [emit events dirty]; rewrite He1; cbn [emit events]; rewrite <- ?app_assoc; (split; [reflexivity|done]).
Qed.

(** The functions other components use on the keyspace: [setKey] and its variants give a key a
    value and drop or keep its expiration time; [emptyDb] empties one database or all of them, at
    once or in the background, tells those who watch keys, and returns the number of keys removed;
    [dbSwapDatabases] exchanges two databases with their expiration times and refuses others. *)
Theorem keyspace_api_correct e s ms :
  ks_rep s ms -> sizes ms < 2 ^ 63 ->
  (forall i m k v a keepttl signal, ms !! i = Some m -> room m -> represents (ptr v) a ->
     exists s' evs, genericSetKey e i k v keepttl signal s = Some s' /\ events s' = events s ++ evs /\
       ks_rep s' (<[i := <[k := (a, old_time e m k keepttl)]> (purge e m k)]> ms) /\ (signal = true -> ModifiedKey i k ∈ evs)) /\
  (forall async, exists s', emptyDb e (-1) async s = Some (sizes ms, s') /\ ks_rep s' (replicate (length ms) ∅) /\ FlushedDb (-1) ∈ events s') /\
  (forall i m async, ms !! i = Some m -> exists s', emptyDb e (Z.of_nat i) async s = Some (Z.of_nat (base.size m), s') /\
     ks_rep s' (<[i := ∅]> ms) /\ FlushedDb (Z.of_nat i) ∈ events s') /\
  (forall i j m m', ms !! i = Some m -> ms !! j = Some m' -> exists s', dbSwapDatabases (Z.of_nat i) (Z.of_nat j) s = Some (C_OK, s') /\
     ks_rep s' (<[j := m]> (<[i := m']> ms))) /\
  (forall id1 id2, id1 < 0 \/ zlen ms <= id1 \/ id2 < 0 \/ zlen ms <= id2 -> dbSwapDatabases id1 id2 s = Some (C_ERR, s)).
Proof.
  intros Hr Hs. pose proof (Forall2_length _ _ _ Hr) as Hl. split_and!.
  - intros i m k v a keepttl signal Hm Hroom Hv.
    destruct (set_ok e i m k v a keepttl signal Hroom Hv s ms Hr Hm) as (u & s' & m' & evs & n & Hu & Hr' & He & _ & -> & _ & _ & Hsig).
    unfold unit_of in Hu. destruct (genericSetKey e i k v keepttl signal s); [|done]. injection Hu as _ ->. eauto 10.
  - intros async. destruct (emptyDb_ok e (-1) async s ms Hr Hs) as (s' & evs & HE & Hr' & He & _); [zlia|]. simpl in HE, Hr'.
    rewrite drop_0, firstn_all in HE. rewrite drop_all, app_nil_r in Hr'. exists s'. split_and!; try done. rewrite He. set_solver.
  - intros i m async Hm. pose proof (lookup_lt_Some _ _ _ Hm) as Hi.
    destruct (emptyDb_ok e (Z.of_nat i) async s ms Hr Hs) as (s' & evs & HE & Hr' & He & _); [unfold zlen; lia|].
    rewrite (proj2 (Z.eqb_neq (Z.of_nat i) (-1))), Nat2Z.id in HE, Hr' by lia. rewrite (drop_S _ _ _ Hm) in HE. simpl in HE.
    rewrite Z.add_0_r in HE. exists s'. split_and!; [done| |rewrite He; set_solver].
    rewrite insert_take_drop by done. simpl in Hr'. by rewrite Nat.add_1_r in Hr'.
  - intros i j m m' Hm Hm'. pose proof (lookup_lt_Some _ _ _ Hm) as Hi. pose proof (lookup_lt_Some _ _ _ Hm') as Hj. unfold dbSwapDatabases.
    rewrite !(proj2 (Z.ltb_ge _ 0)), !Z.geb_leb, !(proj2 (Z.leb_gt _ _)) by (unfold zlen; lia). simpl orb. cbv match.
    destruct (Z.of_nat i =? Z.of_nat j) eqn:E; boolsimp.
    { assert (i = j) as <- by lia. exists s. split; [done|]. assert (m' = m) as -> by congruence. by rewrite list_insert_insert_eq, list_insert_id. }
    rewrite !Nat2Z.id. destruct (rep_lookup _ _ _ _ Hr Hm) as (db & -> & Hdb), (rep_lookup _ _ _ _ Hr Hm') as (db' & -> & Hdb'). mstep.
    eexists. split; [done|]. unfold ks_rep. cbn [dbs set_dbs emit]. apply Forall2_insert; [|done]. by apply Forall2_insert.
  - intros i j Hij. unfold dbSwapDatabases. assert ((i <? 0) || (i >=? zlen (dbs s)) || (j <? 0) || (j >=? zlen (dbs s)) = true) as ->; [|done].
    unfold zlen in *. rewrite Hl, !Z.geb_leb. destruct (i <? 0) eqn:E1, (Z.of_nat (length ms) <=? i) eqn:E2, (j <? 0) eqn:E3, (Z.of_nat (length ms) <=? j) eqn:E4;
      try done; boolsimp; lia.
Qed.

(** FLUSHALL keeps [server.dirty], a 64 bit counter, in an int around the save of the data set: once
    the counter has passed 2^31 the command makes it smaller, and a command that does not make it
    larger is not sent to the replicas or to the append only file. *)
Theorem flushall_loses_dirty e s ms :
  ks_rep s ms -> sizes ms < 2 ^ 31 -> 2 ^ 31 <= dirty s < 2 ^ 62 ->
  exists s', flushallCommand e true [] s = Some s' /\ ks_rep s' (replicate (length ms) ∅) /\ dirty s' <= dirty s.
Proof.
  intros Hr Hs Hd. unfold flushallCommand, flushAllDataAndResetRDB. simpl.
  destruct (emptyDb_ok e (-1) false s ms Hr) as (s1 & evs & HE & Hr1 & He & _ & Hd1); [lia|zlia|]. simpl in HE, Hr1.
  rewrite drop_0, firstn_all in HE. rewrite drop_all, app_nil_r in Hr1. rewrite HE. mstep. eexists. split; [done|]. split; [exact Hr1|].
  cbn [dirty addReply emit add_dirty set_dirty].
  pose proof (sN_bound 32 (i64 (dirty s1 + sizes ms)) ltac:(lia)) as Hb. unfold is_s in Hb.
  rewrite (sN_small 64) by (unfold is_s; lia). lia.
Qed.
End Api.
