(* ===== verification/SetType.v ===== *)
(** * Sets (t_set.c): the type and its two encodings

    A set is an integer set or a dictionary without values. *)

From Stdlib Require Import ZArith Lia String.
From stdpp Require Import base numbers option fin_maps gmap list.
From S2P Require Import Prelude Memory Endian Intset Util Sds SdsNumber Server Dict DictIter Keyspace.

Local Open Scope Z_scope.
Local Open Scope redis_scope.

(** A value of the keyspace: the sets in full, of the others the type only. *)
Inductive value :=
| VIntset (iset : intset)
| VHt (d : dict bytes unit)
| VOther (type : Z).
#[global] Instance value_type : Value value := fun v => match v with VOther t => t | _ => OBJ_SET end.

(** An element as [setTypeNext] returns it *)
Inductive element := EleInt (llele : Z) | EleStr (sdsele : bytes).

Record setTypeIterator := SetTypeIterator { ii : Z; di : dictIterator bytes unit }.

Section SetType.
Context `{Host, Alloc, dictType bytes}.
Implicit Types (e : kenv) (v : value) (s : bytes).

(** [isSdsRepresentableAsLongLong] *)
Definition isSdsRepresentableAsLongLong s : option Z := string2ll s.

(** The uninitialised buffer of [sdsfromlonglong] *)
Definition ll_buf : bytes := realloc [] SDS_LLSTR_SIZE.

Definition createIntsetObject : option value := let! iset := intsetNew in Some (VIntset iset).
Definition createSetObject : value := VHt dictCreate.

Definition setTypeCreate s : option value :=
  match isSdsRepresentableAsLongLong s with
  | Some _ => createIntsetObject
  | None => Some createSetObject
  end.

Definition setTypeInitIterator v : option setTypeIterator :=
  match v with
  | VHt _ | VIntset _ => Some (SetTypeIterator 0 dictGetIterator)
  | VOther _ => None
  end.

(** The next element, the iterator and the set; [None] for -1. *)
Definition setTypeNext (si : setTypeIterator) v : option (option element * setTypeIterator * value) :=
  match v with
  | VHt d =>
      let! (de, it, d) := dictNext (di si) d in
      Some (match de with Some (k, _) => Some (EleStr k) | None => None end,
            SetTypeIterator (ii si) it, VHt d)
  | VIntset iset =>
      let! x := intsetGet iset (ii si) in
      Some (match x with Some z => Some (EleInt z) | None => None end, SetTypeIterator (u32 (ii si + 1)) (di si), v)
  | VOther _ => None
  end.

(** [setTypeReleaseIterator]: the set as it is left *)
Definition setTypeReleaseIterator (si : setTypeIterator) v : value :=
  match v with VHt d => VHt (dictReleaseIterator (di si) d) | _ => v end.

(** The string of an element, as [setTypeNextObject] returns it *)
Definition element_sds (x : element) : option bytes :=
  match x with EleInt z => sdsfromlonglong ll_buf z | EleStr k => Some k end.

Definition setTypeNextObject (si : setTypeIterator) v : option (option bytes * setTypeIterator * value) :=
  let! (x, si, v) := setTypeNext si v in
  match x with
  | None => Some (None, si, v)
  | Some x => let! s := element_sds x in Some (Some s, si, v)
  end.

Definition setTypeSize v : option Z :=
  match v with
  | VHt d => Some (dictSize d)
  | VIntset iset => intsetLen iset
  | VOther _ => None
  end.

(** [while (setTypeNext(si,&element,&intele) != -1)] of [setTypeConvert] *)
Fixpoint convert_loop e (fuel : nat) (si : setTypeIterator) v (d : dict bytes unit) : option (dict bytes unit) :=
  let! (x, si, v) := setTypeNext si v in
  match x with
  | None => Some d
  | Some x =>
      match fuel with
      | O => None
      | S fuel =>
          let! s := (match x with EleInt z => sdsfromlonglong ll_buf z | EleStr k => Some k end) in
          let! (r, d) := dictAdd (dict_can_resize e) d s tt tt in
          if negb (r =? DICT_OK) then None else convert_loop e fuel si v d
      end
  end.

(** [setTypeConvert] to the hash table *)
Definition setTypeConvert e v : option value :=
  match v with
  | VIntset iset =>
      let! len := intsetLen iset in
      let! (_, d) := dictExpand dictCreate len in
      let! si := setTypeInitIterator v in
      let! d := convert_loop e (Z.to_nat len) si v d in
      Some (VHt d)
  | _ => None
  end.

(** Whether the element was added, and the set *)
Definition setTypeAdd e v s : option (bool * value) :=
  match v with
  | VHt d =>
      let! (de, _, d) := dictAddRaw (dict_can_resize e) d s tt in
      match de with
      | Some l => let! d := dictSetVal d l tt in Some (true, VHt d)
      | None => Some (false, VHt d)
      end
  | VIntset iset =>
      match isSdsRepresentableAsLongLong s with
      | Some llval =>
          let! (iset, success) := intsetAdd iset llval in
          if (success : bool) then
            let! len := intsetLen iset in
            if len >? set_max_intset_entries e then
              let! v := setTypeConvert e (VIntset iset) in Some (true, v)
            else Some (true, VIntset iset)
          else Some (false, VIntset iset)
      | None =>
          let! v := setTypeConvert e v in
          match v with
          | VHt d =>
              let! (r, d) := dictAdd (dict_can_resize e) d s tt tt in
              if negb (r =? DICT_OK) then None else Some (true, VHt d)
          | _ => None
          end
      end
  | VOther _ => None
  end.

Definition setTypeRemove e v s : option (bool * value) :=
  match v with
  | VHt d =>
      let! (r, d) := dictDelete d s in
      if r =? DICT_OK then
        let! d := (if htNeedsResize d then let! (_, d) := dictResize (dict_can_resize e) d in Some d else Some d) in
        Some (true, VHt d)
      else Some (false, VHt d)
  | VIntset iset =>
      match isSdsRepresentableAsLongLong s with
      | Some llval => let! (iset, success) := intsetRemove iset llval in Some (success, VIntset iset)
      | None => Some (false, v)
      end
  | VOther _ => None
  end.

(** The lookup in a dictionary may rehash. *)
Definition setTypeIsMember v s : option (bool * value) :=
  match v with
  | VHt d =>
      let! (de, d) := dictFind d s in
      Some (match de with Some _ => true | None => false end, VHt d)
  | VIntset iset =>
      match isSdsRepresentableAsLongLong s with
      | Some llval => let! r := intsetFind iset llval in Some (r, v)
      | None => Some (false, v)
      end
  | VOther _ => None
  end.
End SetType.
