(* ===== verification/SetTypeFacts.v ===== *)
(** * The set type refines finite sets of strings

    [set_rep v X]: the value [v], in either encoding, holds the strings [X].  An integer set holds
    the decimal notations of its integers. *)

From Stdlib Require Import ZArith Lia.
From stdpp Require Import base numbers option fin_maps gmap list.
From S2P Require Import Prelude Memory Endian Intset IntsetFacts IntsetSpec Util UtilFacts SdsNumber Dict DictFacts DictSpec DictIter DictIterSpec Keyspace SetType.

Local Open Scope Z_scope.
Local Open Scope redis_scope.

Section Facts.
Context `{!Host, !Alloc, !dictType bytes, !DictTypeOk bytes}.
Implicit Types (e : kenv) (v : value) (s : bytes) (X : gset bytes).

(** The notation of a number *)
Definition dec (z : Z) : bytes := default [] (sdsfromlonglong ll_buf z).

Lemma ll_buf_len : zlen ll_buf = SDS_LLSTR_SIZE.
Proof. reflexivity. Qed.
Lemma dec_spec z : is_s 64 z -> sdsfromlonglong ll_buf z = Some (dec z) /\ string2ll (dec z) = Some z.
Proof.
  intros Hz. destruct (sdsfromlonglong_spec ll_buf z Hz ll_buf_len) as (D & HD & Hdec). unfold dec. rewrite HD.
  split; [done|]. by apply string2ll_iff.
Qed.
Lemma string2ll_dec s z : string2ll s = Some z -> is_s 64 z /\ s = dec z.
Proof.
  intros Hs. pose proof Hs as [Hd Hz]%string2ll_iff. split; [done|].
  destruct (dec_spec z Hz) as [_ [Hd' _]%string2ll_iff]. by eapply decimal_unique.
Qed.

Lemma wf_s64 iset vs : wf iset vs -> Forall (is_s 64) vs.
Proof.
  intros (enc & R & _). eapply Forall_impl; [apply (repr_fits _ _ _ R)|]. intros x Hx.
  destruct (repr_enc_ok _ _ _ R) as [-> | [-> | ->]]; unfold is_s, INTSET_ENC_INT16, INTSET_ENC_INT32, INTSET_ENC_INT64 in *;
    simpl in *; lia.
Qed.
Lemma wf_rep iset vs : wf iset vs -> intset_rep iset (list_to_set vs).
Proof. intros Hwf. by exists vs. Qed.
Lemma wf_nodup iset vs : wf iset vs -> NoDup (dec <$> vs).
Proof.
  intros Hwf. pose proof (wf_s64 _ _ Hwf) as Hs. rewrite Forall_forall in Hs. destruct Hwf as (enc & _ & HS).
  apply NoDup_fmap_2_strong; [|by apply sorted_NoDup]. intros x y Hx Hy HE.
  destruct (dec_spec x (Hs x Hx)) as [_ H1], (dec_spec y (Hs y Hy)) as [_ H2]. rewrite HE in H1. congruence.
Qed.
Lemma elem_dec iset vs z : wf iset vs -> is_s 64 z -> dec z ∈ dec <$> vs <-> z ∈ vs.
Proof.
  intros Hwf Hz. pose proof (wf_s64 _ _ Hwf) as Hs. rewrite Forall_forall in Hs. rewrite list_elem_of_fmap. split; [|by eauto].
  intros (y & HE & Hy). destruct (dec_spec y (Hs y Hy)) as [_ H1], (dec_spec z Hz) as [_ H2]. rewrite HE in H2. congruence.
Qed.

(** The strings of a set *)
Definition set_rep v X : Prop :=
  match v with
  | VIntset iset => exists vs, wf iset vs /\ X = list_to_set (dec <$> vs)
  | VHt d => exists m, dict_rep d m /\ dom m = X
  | VOther _ => False
  end.

Definition is_intset v : bool := match v with VIntset _ => true | _ => false end.

Lemma intset_number iset vs s z :
  wf iset vs -> string2ll s = Some z -> s ∈ (list_to_set (dec <$> vs) : gset bytes) <-> z ∈ vs.
Proof.
  intros Hwf [Hz ->]%string2ll_dec. rewrite elem_of_list_to_set. by apply (elem_dec iset).
Qed.
Lemma rep_no_number iset vs s :
  wf iset vs -> string2ll s = None -> s ∉ (list_to_set (dec <$> vs) : gset bytes).
Proof.
  intros Hwf Hs (y & -> & Hy)%elem_of_list_to_set%list_elem_of_fmap. pose proof (wf_s64 _ _ Hwf) as Hf.
  rewrite Forall_forall in Hf. destruct (dec_spec y (Hf y Hy)) as [_ HE]. congruence.
Qed.
Lemma rep_size iset vs : wf iset vs -> base.size (list_to_set (dec <$> vs) : gset bytes) = length vs.
Proof. intros Hwf. rewrite size_list_to_set by by eapply wf_nodup. apply length_fmap. Qed.

Lemma wf_len iset vs : wf iset vs -> intsetLen iset = Some (zlen vs) /\ zlen vs < 2 ^ 29.
Proof.
  intros (enc & R & _). split; [|apply (repr_bound _ _ _ R)]. unfold intsetLen.
  by rewrite (repr_len _ _ _ R), intrev32ifbe_unrep by (pose proof (repr_bound _ _ _ R); unfold is_u; zlia).
Qed.
Lemma wf_get iset vs pos : wf iset vs -> is_u 32 pos -> intsetGet iset pos = Some (vs !! Z.to_nat pos).
Proof.
  intros Hwf Hp. destruct (intset_enumerates iset _ (wf_rep _ _ Hwf)) as (us & HS & HE & _ & Hg & _).
  rewrite Hg by done. enough (us = vs) as -> by done. apply sorted_ext; [done|by destruct Hwf as (? & _ & ?)|].
  intros x. by rewrite <- !(elem_of_list_to_set (C := gset Z)), HE.
Qed.

(** ** Iteration *)

(** What an iterator has still to return *)
Definition iterating (si : setTypeIterator) v (l : list bytes) : Prop :=
  match v with
  | VIntset iset => exists vs, wf iset vs /\ 0 <= ii si < 2 ^ 30 /\ l = drop (Z.to_nat (ii si)) (dec <$> vs)
  | VHt d => dict_ok d /\ it_ok (di si) /\ safe (di si) = false /\ l = (remaining (di si) d).*1
  | VOther _ => False
  end.
(** An element and its string *)
Definition is_element v (x : element) s : Prop :=
  match v with
  | VIntset _ => exists z, x = EleInt z /\ string2ll s = Some z
  | _ => x = EleStr s
  end.

Lemma element_string v x s : is_element v x s -> element_sds x = Some s.
Proof.
  destruct v as [iset|d|t]; simpl; [|by intros ->..]. intros (z & -> & [Hz ->]%string2ll_dec). by apply dec_spec.
Qed.

Lemma init_iter v X :
  set_rep v X -> exists si l, setTypeInitIterator v = Some si /\ iterating si v l /\ NoDup l /\ list_to_set l = X.
Proof.
  destruct v as [iset|d|t]; [| |done]; simpl; [intros (vs & Hwf & ->)|intros (m & Hd & <-)].
  - eexists _, (dec <$> vs). split; [done|]. split; [|split; [by eapply wf_nodup|done]]. exists vs. simpl. split_and!; [done|lia..|done].
  - eexists _, (all d).*1. split; [done|]. destruct Hd as [Hok <-]. split; [|split; [apply Hok|]].
    + assert (it_ok (dictGetIterator : dictIterator bytes unit)) as Hit.
      { split; simpl; [lia|]. intros [? | ?]; done. }
      cbn. split; [done|]. split; [done|]. split; [done|]. f_equal.
      unfold remaining, rest_of, all, dictIsRehashing. simpl.
      destruct (ok_tables d Hok) as [(-> & _ & ->) | (_ & [Hr _] & _)]; [done|].
      by rewrite (proj2 (Z.eqb_neq _ _)) by lia.
    + by rewrite dom_list_to_map_L.
Qed.

Lemma next_iter si v l :
  iterating si v l ->
  exists o si', setTypeNext si v = Some (o, si', v) /\
    match l with
    | [] => o = None
    | s :: l' => exists x, o = Some x /\ is_element v x s /\ iterating si' v l'
    end.
Proof.
  destruct v as [iset|d|t]; [| |done]; simpl.
  - intros (vs & Hwf & Hii & ->). rewrite (wf_get iset vs _ Hwf) by (unfold is_u; lia). mstep.
    eexists _, _. split; [done|]. destruct (vs !! Z.to_nat (ii si)) as [z|] eqn:Ez.
    + rewrite (drop_S _ (dec z)) by by rewrite list_lookup_fmap, Ez. eexists. split; [done|].
      pose proof (wf_s64 _ _ Hwf) as Hs. rewrite Forall_forall in Hs. destruct (dec_spec z) as [_ Hz].
      { apply Hs. by eapply list_elem_of_lookup_2. }
      split; [by exists z|]. exists vs. simpl. apply lookup_lt_Some in Ez. destruct (wf_len _ _ Hwf) as [_ Hl]. unfold zlen in Hl.
      rewrite uN_small by lia. split_and!; [done|lia..|]. f_equal. lia.
    + rewrite drop_ge; [done|]. rewrite length_fmap. by apply lookup_ge_None_1.
  - intros (Hok & Hit & Hsafe & ->). unfold dictNext.
    destruct (next_loop_spec _ (di si) d Hit (turns_bound _ _) (ok_readable d Hok)) as (x & it' & -> & Hrem & Hs & Hok' & _). mstep.
    assert (registered (di si) d = d) as -> by (unfold registered; by rewrite Hsafe, andb_false_r).
    rewrite Hrem. destruct x as [[k []]|]; simpl; eexists _, _; (split; [done|]); [|done].
    eexists. split; [done|]. split; [done|]. simpl. by rewrite Hs.
Qed.

(** ** Conversion *)

Lemma convert_loop_ok e v l : forall fuel si (d : dict bytes unit) (m : gmap bytes unit),
  iterating si v l -> NoDup l -> dict_rep d m -> (forall s, s ∈ l -> m !! s = None) -> (length l <= fuel)%nat ->
  Z.of_nat (base.size m) + zlen l < 2 ^ 58 ->
  exists d' m', convert_loop e fuel si v d = Some d' /\ dict_rep d' m' /\ dom m' = dom m ∪ list_to_set l.
Proof.
  induction l as [|s l IH]; intros fuel si d m Hit Hnd Hd Hnew Hf Hsz; destruct (next_iter si v _ Hit) as (o & si' & HE & Ho);
    destruct fuel as [|fuel]; try (simpl in Hf; lia); cbn [convert_loop]; rewrite HE; mstep.
  - subst o. exists d, m. split_and!; try done. set_solver.
  - subst o. exists d, m. split_and!; try done. set_solver.
  - destruct Ho as (x & -> & Hx & Hit'). apply element_string in Hx. unfold element_sds in Hx. rewrite Hx. mstep.
    destruct (add_new (dict_can_resize e) d m s tt tt Hd) as (d' & -> & Hd').
    { rewrite (size_rep _ _ Hd). zlia. }
    { apply Hnew. set_solver. }
    mstep. simpl. apply NoDup_cons in Hnd as [Hni Hnd].
    destruct (IH fuel si' d' (<[s := tt]> m) Hit' Hnd Hd') as (d2 & m2 & -> & Hd2 & Hdom).
    + intros s' Hs'. rewrite lookup_insert_ne by (intros ->; done). apply Hnew. set_solver.
    + simpl in Hf. lia.
    + rewrite map_size_insert_None by (apply Hnew; set_solver). rewrite zlen_cons in Hsz. lia.
    + exists d2, m2. split_and!; try done. rewrite Hdom, dom_insert_L. set_solver.
Qed.

Lemma convert_ok e iset vs :
  wf iset vs ->
  exists d m, setTypeConvert e (VIntset iset) = Some (VHt d) /\ dict_rep d m /\ dom m = list_to_set (dec <$> vs).
Proof.
  intros Hwf. unfold setTypeConvert. destruct (wf_len _ _ Hwf) as [-> Hl]. mstep.
  destruct (expand_rep (dictCreate : dict bytes unit) ∅ (zlen vs)) as (r & d & -> & Hd & _); [apply create_rep|zlia|]. mstep.
  assert (set_rep (VIntset iset) (list_to_set (dec <$> vs))) as Hrep by (exists vs; done).
  destruct (init_iter _ _ Hrep) as (si & l & -> & Hit & Hnd & Hset). mstep.
  assert (length l = length vs) as Hlen.
  { rewrite <- (rep_size iset) by done. rewrite <- Hset. symmetry. by apply size_list_to_set. }
  destruct (convert_loop_ok e _ l (Z.to_nat (zlen vs)) si d ∅ Hit Hnd Hd) as (d' & m' & -> & Hd' & Hdom); [done|unfold zlen; lia| |].
  - rewrite map_size_empty. unfold zlen in *. lia.
  - mstep. exists d', m'. split_and!; try done. rewrite Hdom, Hset. set_solver.
Qed.

(** ** Operations *)

Lemma size_ok v X : set_rep v X -> setTypeSize v = Some (Z.of_nat (base.size X)).
Proof.
  destruct v as [iset|d|t]; simpl; [intros (vs & Hwf & ->)|intros (m & Hd & <-)|done].
  - rewrite (rep_size _ _ Hwf). by apply wf_len.
  - by rewrite (size_rep _ _ Hd), size_dom.
Qed.

Lemma create_ok s : exists v, setTypeCreate s = Some v /\ set_rep v ∅ /\ is_intset v = bool_decide (is_Some (string2ll s)).
Proof.
  unfold setTypeCreate, isSdsRepresentableAsLongLong, createIntsetObject. destruct (string2ll s) as [z|].
  - destruct intsetNew_repr as (iset & -> & R). mstep. eexists. split; [done|]. split; [|done]. exists []. split; [|done].
    eexists. split; [done|constructor].
  - eexists. split; [done|]. split; [|done]. exists ∅. split; [apply create_rep|done].
Qed.
Lemma empty_intset_ok : exists v, createIntsetObject = Some v /\ set_rep v ∅.
Proof.
  unfold createIntsetObject. destruct intsetNew_repr as (iset & -> & R). mstep. eexists. split; [done|]. exists [].
  split; [|done]. eexists. split; [done|constructor].
Qed.

Lemma member_ok v X s : set_rep v X -> exists v', setTypeIsMember v s = Some (bool_decide (s ∈ X), v') /\ set_rep v' X.
Proof.
  destruct v as [iset|d|t]; cbn [setTypeIsMember]; [intros (vs & Hwf & ->)|intros (m & Hd & <-)|done].
  - unfold isSdsRepresentableAsLongLong. destruct (string2ll s) as [z|] eqn:Es.
    + pose proof (string2ll_dec _ _ Es) as [Hz _]. rewrite (intsetFind_correct iset _ z (wf_rep _ _ Hwf) Hz). mstep.
      exists (VIntset iset). split; [|by exists vs]. f_equal. f_equal. apply bool_decide_ext.
      by rewrite (intset_number iset vs s z), elem_of_list_to_set.
    + exists (VIntset iset). split; [|by exists vs]. rewrite bool_decide_false; [done|]. by eapply rep_no_number.
  - destruct (find_spec d m s Hd) as (de & d' & -> & Hd' & Hf). mstep. exists (VHt d'). split; [|by exists m].
    f_equal. f_equal. destruct (m !! s) as [u|] eqn:Em.
    + destruct Hf as (l & -> & _). symmetry. apply bool_decide_eq_true. apply elem_of_dom. eauto.
    + subst de. symmetry. apply bool_decide_eq_false. by apply not_elem_of_dom.
Qed.

Lemma remove_ok e v X s :
  set_rep v X -> Z.of_nat (base.size X) < 2 ^ 58 ->
  exists v', setTypeRemove e v s = Some (bool_decide (s ∈ X), v') /\ set_rep v' (X ∖ {[ s ]}) /\ is_intset v' = is_intset v.
Proof.
  destruct v as [iset|d|t]; cbn [setTypeRemove]; [intros (vs & Hwf & ->)|intros (m & Hd & <-)|done]; intros Hsz.
  - unfold isSdsRepresentableAsLongLong. destruct (string2ll s) as [z|] eqn:Es.
    + pose proof (string2ll_dec _ _ Es) as [Hz ->]. pose proof Hwf as (enc & R & HS).
      destruct (intsetRemove_spec iset enc vs z R HS Hz) as (iset' & vs' & -> & R' & HS' & Hin). mstep.
      exists (VIntset iset'). split; [|split; [exists vs'|done]].
      * f_equal. f_equal. apply bool_decide_ext. by rewrite (intset_number iset vs (dec z) z).
      * split; [by eexists|]. assert (wf iset' vs') as Hwf' by by eexists. apply set_eq. intros s'.
        rewrite elem_of_difference, elem_of_singleton, !elem_of_list_to_set, !list_elem_of_fmap. split.
        -- intros [(y & -> & Hy) Hne]. exists y. split; [done|]. apply Hin. split; [|done]. by intros ->.
        -- intros (y & -> & Hy). pose proof (wf_s64 _ _ Hwf') as Hs. rewrite Forall_forall in Hs.
           apply Hs in Hy as Hy64. apply Hin in Hy as [Hne Hy]. split; [by eauto|]. intros HE.
           destruct (dec_spec y Hy64) as [_ H1], (dec_spec z Hz) as [_ H2]. congruence.
    + exists (VIntset iset). split; [|split; [exists vs|done]].
      * rewrite bool_decide_false; [done|]. by eapply rep_no_number.
      * split; [done|]. pose proof (rep_no_number iset vs s Hwf Es). set_solver.
  - destruct (delete_rep d m s Hd) as (d' & -> & Hd'). mstep. destruct (m !! s) as [u|] eqn:Em; simpl.
    + assert (exists d2, (if htNeedsResize d' then let! (_, d) := dictResize (dict_can_resize e) d' in Some d else Some d') = Some d2 /\
        dict_rep d2 (delete s m)) as (d2 & -> & Hd2).
      { destruct (htNeedsResize d'); [|eauto]. destruct (resize_rep (dict_can_resize e) d' _ Hd') as (r & d2 & -> & Hd2 & _); [|eauto].
        rewrite (size_rep _ _ Hd'), map_size_delete, Em. rewrite size_dom in Hsz. lia. }
      mstep. exists (VHt d2). split; [|split; [exists (delete s m)|done]].
      * rewrite bool_decide_true; [done|]. apply elem_of_dom. eauto.
      * split; [done|]. by rewrite dom_delete_L.
    + exists (VHt d'). split; [|split; [exists (delete s m)|done]].
      * rewrite bool_decide_false; [done|]. by apply not_elem_of_dom.
      * split; [done|]. by rewrite dom_delete_L.
Qed.

(** An integer set stays one as long as it is small and the elements are numbers. *)
Definition stays_intset e v X s : bool :=
  is_intset v && bool_decide (is_Some (string2ll s)) &&
  (bool_decide (s ∈ X) || (Z.of_nat (base.size X) + 1 <=? set_max_intset_entries e)).

Lemma intset_insert iset vs iset' vs' z :
  wf iset vs -> wf iset' vs' -> is_s 64 z -> (forall x, x ∈ vs' <-> x = z \/ x ∈ vs) ->
  (list_to_set (dec <$> vs') : gset bytes) = {[ dec z ]} ∪ list_to_set (dec <$> vs).
Proof.
  intros Hwf Hwf' Hz Hin. apply set_eq. intros s'.
  rewrite elem_of_union, elem_of_singleton, !elem_of_list_to_set, !list_elem_of_fmap. split.
  - intros (y & -> & Hy). apply Hin in Hy as [-> | Hy]; eauto.
  - intros [-> | (y & -> & Hy)]; eexists; (split; [done|]); apply Hin; auto.
Qed.

Lemma add_ok e v X s :
  set_rep v X -> Z.of_nat (base.size X) + 1 < 2 ^ 29 ->
  exists v', setTypeAdd e v s = Some (bool_decide (s ∉ X), v') /\ set_rep v' ({[ s ]} ∪ X) /\
    is_intset v' = stays_intset e v X s.
Proof.
  intros Hrep Hsz. destruct v as [iset|d|t]; cbn [setTypeAdd]; [destruct Hrep as (vs & Hwf & ->)|destruct Hrep as (m & Hd & <-)|done].
  - rewrite (rep_size _ _ Hwf) in Hsz. unfold isSdsRepresentableAsLongLong, stays_intset. rewrite (rep_size _ _ Hwf). simpl is_intset.
    destruct (string2ll s) as [z|] eqn:Es.
    + pose proof (string2ll_dec _ _ Es) as [Hz ->]. pose proof Hwf as (enc & R & HS).
      destruct (intsetAdd_spec iset enc vs z R HS Hz) as (iset' & vs' & -> & R' & HS' & Hin); [done|]. mstep.
      assert (wf iset' vs') as Hwf' by by eexists.
      pose proof (intset_insert iset vs iset' vs' z Hwf Hwf' Hz Hin) as HX. rewrite <- HX.
      assert (bool_decide (z ∉ vs) = bool_decide (dec z ∉ (list_to_set (dec <$> vs) : gset bytes))) as ->.
      { apply bool_decide_ext. by rewrite (intset_number iset vs (dec z) z). }
      destruct (decide (dec z ∈ (list_to_set (dec <$> vs) : gset bytes))) as [Hold|Hnew].
      * rewrite (bool_decide_false (dec z ∉ _)), (bool_decide_true (dec z ∈ _)) by auto. simpl.
        exists (VIntset iset'). split; [done|]. split; [by exists vs'|]. done.
      * rewrite (bool_decide_true (dec z ∉ _)), (bool_decide_false (dec z ∈ _)) by auto. destruct (wf_len _ _ Hwf') as [-> Hl']. mstep.
        assert (zlen vs' = zlen vs + 1) as Hvs'.
        { assert (base.size (list_to_set (dec <$> vs') : gset bytes) = (1 + base.size (list_to_set (dec <$> vs) : gset bytes))%nat) as Hs.
          { rewrite HX, size_union by set_solver. by rewrite size_singleton. }
          rewrite (rep_size iset' vs' Hwf'), (rep_size iset vs Hwf) in Hs. unfold zlen. lia. }
        rewrite Hvs'. unfold zlen. rewrite Z.gtb_ltb. cbn [andb orb]. rewrite (Z.ltb_antisym (Z.of_nat (length vs) + 1)).
        destruct (Z.of_nat (length vs) + 1 <=? set_max_intset_entries e); cbn [negb].
        -- exists (VIntset iset'). split; [done|]. split; [by exists vs'|done].
        -- destruct (convert_ok e iset' vs' Hwf') as (d & m & -> & Hd & Hdom). mstep. exists (VHt d). split; [done|].
           split; [by exists m|done].
    + destruct (convert_ok e iset vs Hwf) as (d & m & -> & Hd & Hdom). mstep. pose proof (rep_no_number iset vs s Hwf Es) as Hni.
      destruct (add_new (dict_can_resize e) d m s tt tt Hd) as (d' & -> & Hd').
      { rewrite (size_rep _ _ Hd), <- size_dom, Hdom, (rep_size _ _ Hwf). lia. }
      { apply not_elem_of_dom. by rewrite Hdom. }
      mstep. simpl. rewrite bool_decide_true by done. exists (VHt d'). split; [done|]. split; [|done].
      exists (<[s := tt]> m). split; [done|]. by rewrite dom_insert_L, Hdom.
  - rewrite size_dom in Hsz. pose proof (addRaw_spec (dict_can_resize e) d m s tt Hd) as Ha.
    rewrite <- (dictSize_all d (proj1 Hd)), (size_rep _ _ Hd) in Ha. specialize (Ha ltac:(lia)).
    destruct (m !! s) as [[]|] eqn:Em.
    + destruct Ha as (l & d' & -> & Hd' & _). mstep. assert (s ∈ dom m) as Hin by (apply elem_of_dom; eauto).
      rewrite bool_decide_false by auto. exists (VHt d'). split; [done|]. split; [|done]. exists m. split; [done|]. set_solver.
    + destruct Ha as (l & d' & -> & Hd' & Hl). mstep.
      destruct (setVal_points d' _ l s tt tt Hd' Hl) as (d2 & -> & Hd2). mstep. rewrite insert_insert_eq in Hd2.
      rewrite bool_decide_true by (by apply not_elem_of_dom). exists (VHt d2). split; [done|]. split; [|done].
      exists (<[s := tt]> m). split; [done|]. by rewrite dom_insert_L.
Qed.

(** C29. The functions of the set type implement a finite set of strings in both encodings: adding,
    removing, testing, counting and converting give the same set whichever encoding it has.  An
    intset becomes a table exactly when an element is not a number in canonical form or the set
    outgrows [set-max-intset-entries], and nothing turns a table back. *)
Theorem set_type_correct e v X s :
  set_rep v X -> Z.of_nat (base.size X) + 1 < 2 ^ 29 ->
  setTypeSize v = Some (Z.of_nat (base.size X)) /\
  (exists v', setTypeIsMember v s = Some (bool_decide (s ∈ X), v') /\ set_rep v' X) /\
  (exists v', setTypeAdd e v s = Some (bool_decide (s ∉ X), v') /\ set_rep v' ({[ s ]} ∪ X) /\ is_intset v' = stays_intset e v X s) /\
  (exists v', setTypeRemove e v s = Some (bool_decide (s ∈ X), v') /\ set_rep v' (X ∖ {[ s ]}) /\ is_intset v' = is_intset v) /\
  (is_intset v = true -> exists v', setTypeConvert e v = Some v' /\ set_rep v' X /\ is_intset v' = false).
Proof.
  intros Hr Hs. split_and!; [by apply size_ok|by apply member_ok|by apply add_ok|apply remove_ok; [done|lia]|].
  intros Hi. destruct v as [iset|d|t]; try done. destruct Hr as (vs & Hwf & ->).
  destruct (convert_ok e iset vs Hwf) as (d & m & HE & Hd & Hdom). exists (VHt d). split_and!; try done. by exists m.
Qed.
End Facts.
