(* ===== verification/SetCmd.v ===== *)
(** * The commands on sets (t_set.c)

    A pointer to a set of the keyspace is its key, so that two pointers are equal when the keys
    are; the result of an operation is a fresh object until it is stored. *)

From Stdlib Require Import ZArith Lia String.
From stdpp Require Import base numbers option fin_maps gmap list.
From S2P Require Import Prelude Memory Endian Intset Util Sds SdsNumber Server Dict DictIter Keyspace SetType.

Local Open Scope Z_scope.
Local Open Scope redis_scope.

(** [qsort] of the C library sorts by a comparison; the order of equal elements is not specified. *)
Class Qsort := qsort : forall A, (A -> A -> Z) -> list A -> list A.
Arguments qsort {_ A}.
Class QsortOk `{Qsort} := qsort_perm : forall A (cmp : A -> A -> Z) l, qsort cmp l ≡ₚ l.

Inductive set_op := SET_OP_UNION | SET_OP_DIFF.

Section SetCmd.
Context `{Host, Alloc, dictType bytes, Qsort}.
Abbreviation st := (keyspace value).
Implicit Types (e : kenv) (i : nat) (key : bytes) (s : keyspace value).

(** [checkType(c,o,OBJ_SET)] fails *)
Definition wrong_type (o : robj value) : bool := negb (obj_type (ptr o) =? OBJ_SET).

(** Applying a function of the set type to the set at [key] *)
Definition on_set {X} i key (f : value -> option (X * value)) s : option (X * st) :=
  let! v := load_obj i key s in
  let! (x, v) := f v in
  let! s := store_obj i key v s in
  Some (x, s).

Definition size_at i key s : option Z := let! v := load_obj i key s in setTypeSize v.

(** ** SADD, SREM, SMOVE, SISMEMBER and SCARD *)

Fixpoint sadd_loop e i key (members : list bytes) (added : Z) s : option (Z * st) :=
  match members with
  | [] => Some (added, s)
  | x :: members =>
      let! (r, s) := on_set i key (fun v => setTypeAdd e v x) s in
      sadd_loop e i key members (if (r : bool) then added + 1 else added) s
  end.

Definition sadd_finish e i key (members : list bytes) s : option st :=
  let! (added, s) := sadd_loop e i key members 0 s in
  let s := if added >? 0 then notifyKeyspaceEvent "sadd" key i (signalModifiedKey i key s) else s in
  Some (addReply (ReplyInt added) (add_dirty added s)).

Definition saddCommand e i key (first : bytes) (rest : list bytes) s : option st :=
  let! (o, s) := lookupKeyWrite e i key s in
  match o with
  | None =>
      let! v := setTypeCreate first in
      let! s := dbAdd e i key (createObject e v) s in
      sadd_finish e i key (first :: rest) s
  | Some o =>
      if wrong_type o then Some (addReply ReplyWrongType s)
      else sadd_finish e i key (first :: rest) s
  end.

(** The number of elements removed and whether the key was. *)
Fixpoint srem_loop e i key (members : list bytes) (deleted : Z) s : option (Z * bool * st) :=
  match members with
  | [] => Some (deleted, false, s)
  | x :: members =>
      let! (r, s) := on_set i key (fun v => setTypeRemove e v x) s in
      if negb r then srem_loop e i key members deleted s else
      let! n := size_at i key s in
      if n =? 0 then let! (_, s) := dbDelete e i key s in Some (deleted + 1, true, s)
      else srem_loop e i key members (deleted + 1) s
  end.

Definition sremCommand e i key (members : list bytes) s : option st :=
  let! (o, s) := lookupKeyWriteOrReply e i key (ReplyInt 0) s in
  match o with
  | None => Some s
  | Some o =>
      if wrong_type o then Some (addReply ReplyWrongType s) else
      let! (deleted, keyremoved, s) := srem_loop e i key members 0 s in
      let s := if deleted >? 0 then
                 let s := notifyKeyspaceEvent "srem" key i (signalModifiedKey i key s) in
                 let s := if (keyremoved : bool) then notifyKeyspaceEvent "del" key i s else s in
                 add_dirty deleted s
               else s in
      Some (addReply (ReplyInt deleted) s)
  end.

(** The element leaves the source, whose key goes when nothing is left; false when it was not there. *)
Definition smove_source e i (src ele : bytes) s : option (bool * st) :=
  let! (r, s) := on_set i src (fun v => setTypeRemove e v ele) s in
  if negb r then Some (false, s) else
  let s := notifyKeyspaceEvent "srem" src i s in
  let! n := size_at i src s in
  let! s := (if n =? 0 then let! (_, s) := dbDelete e i src s in Some (notifyKeyspaceEvent "del" src i s) else Some s) in
  Some (true, s).

(** The element joins the destination, which is created if needed. *)
Definition smove_dest e i (src dst ele : bytes) (dstset : option (robj value)) s : option st :=
  let! s := match dstset with
            | None => let! v := setTypeCreate ele in dbAdd e i dst (createObject e v) s
            | Some _ => Some s
            end in
  let s := signalModifiedKey i dst (signalModifiedKey i src s) in
  let s := add_dirty 1 s in
  let! (r, s) := on_set i dst (fun v => setTypeAdd e v ele) s in
  let s := if (r : bool) then notifyKeyspaceEvent "sadd" dst i (add_dirty 1 s) else s in
  Some (addReply (ReplyInt 1) s).

Definition smoveCommand e i (src dst ele : bytes) s : option st :=
  let! (srcset, s) := lookupKeyWrite e i src s in
  let! (dstset, s) := lookupKeyWrite e i dst s in
  match srcset with
  | None => Some (addReply (ReplyInt 0) s)
  | Some so =>
      if wrong_type so then Some (addReply ReplyWrongType s) else
      if match dstset with Some o => wrong_type o | None => false end then Some (addReply ReplyWrongType s) else
      if bool_decide (src = dst) then
        let! (r, s) := on_set i src (fun v => setTypeIsMember v ele) s in
        Some (addReply (ReplyInt (b2z r)) s)
      else
      let! (removed, s) := smove_source e i src ele s in
      if negb removed then Some (addReply (ReplyInt 0) s) else
      smove_dest e i src dst ele dstset s
  end.

Definition sismemberCommand e i key (ele : bytes) s : option st :=
  let! (o, s) := lookupKeyReadOrReply e i key (ReplyInt 0) s in
  match o with
  | None => Some s
  | Some o =>
      if wrong_type o then Some (addReply ReplyWrongType s) else
      let! (r, s) := on_set i key (fun v => setTypeIsMember v ele) s in
      Some (addReply (ReplyInt (b2z r)) s)
  end.

Definition scardCommand e i key s : option st :=
  let! (o, s) := lookupKeyReadOrReply e i key (ReplyInt 0) s in
  match o with
  | None => Some s
  | Some o =>
      if wrong_type o then Some (addReply ReplyWrongType s) else
      let! n := size_at i key s in
      Some (addReply (ReplyInt n) s)
  end.

(** ** Loops over the elements of a set *)

(** [while (setTypeNext(si,...) != -1)] over the set at [key], read anew at every turn *)
Fixpoint each_in_key {S} i key (fuel : nat) (si : setTypeIterator) (body : element -> S -> st -> option (S * st))
    (acc : S) s : option (S * st) :=
  let! v := load_obj i key s in
  let! (x, si, _) := setTypeNext si v in
  match x with
  | None => Some (acc, s)
  | Some x =>
      match fuel with
      | O => None
      | Datatypes.S fuel =>
          let! (acc, s) := body x acc s in
          each_in_key i key fuel si body acc s
      end
  end.
Definition for_each {S} i key (body : element -> S -> st -> option (S * st)) (acc : S) s : option (S * st) :=
  let! v := load_obj i key s in
  let! si := setTypeInitIterator v in
  let! n := setTypeSize v in
  each_in_key i key (Z.to_nat n) si body acc s.

(** The elements of a fresh object, in the order of iteration *)
Fixpoint elements_loop (fuel : nat) (si : setTypeIterator) (v : value) : option (list bytes) :=
  let! (x, si, v) := setTypeNextObject si v in
  match x with
  | None => Some []
  | Some x =>
      match fuel with
      | O => None
      | Datatypes.S fuel => let! l := elements_loop fuel si v in Some (x :: l)
      end
  end.
Definition elements (v : value) : option (list bytes) :=
  let! si := setTypeInitIterator v in
  let! n := setTypeSize v in
  elements_loop (Z.to_nat n) si v.

(** A length and that many bulk strings *)
Definition reply_set (n : Z) (l : list bytes) s : st :=
  fold_left (fun s x => addReply (ReplyBulk x) s) l (addReply (ReplySetLen n) s).

(** The end of the commands that store their result at [dstkey] *)
Definition store_result e i (dstkey : bytes) (event : string) (dstset : value) s : option st :=
  let! (deleted, s) := dbDelete e i dstkey s in
  let! n := setTypeSize dstset in
  let! s := (if n >? 0 then
               let! s := dbAdd e i dstkey (createObject e dstset) s in
               Some (notifyKeyspaceEvent event dstkey i (addReply (ReplyInt n) s))
             else
               let s := addReply (ReplyInt 0) s in
               Some (if (deleted : bool) then notifyKeyspaceEvent "del" dstkey i s else s)) in
  Some (add_dirty 1 (signalModifiedKey i dstkey s)).

Definition lookup_for e i (dstkey : option bytes) key s : option (option (robj value) * st) :=
  match dstkey with Some _ => lookupKeyWrite e i key s | None => lookupKeyRead e i key s end.

(** ** SINTER and SINTERSTORE *)

(** The lookups: the sets, or why the command ends here *)
Inductive lookups := Sets | Missing | WrongType.
Fixpoint inter_lookups e i (dstkey : option bytes) (keys : list bytes) s : option (lookups * st) :=
  match keys with
  | [] => Some (Sets, s)
  | key :: keys =>
      let! (o, s) := lookup_for e i dstkey key s in
      match o with
      | None => Some (Missing, s)
      | Some o => if wrong_type o then Some (WrongType, s) else inter_lookups e i dstkey keys s
      end
  end.

(** Each key with the cardinality of its set *)
Fixpoint with_sizes i (keys : list bytes) s : option (list (bytes * Z)) :=
  match keys with
  | [] => Some []
  | key :: keys => let! n := size_at i key s in let! l := with_sizes i keys s in Some ((key, n) :: l)
  end.
Definition qsortCompareSetsByCardinality (s1 s2 : bytes * Z) : Z :=
  if snd s1 >? snd s2 then 1 else if snd s1 <? snd s2 then -1 else 0.

(** [for (j = 1; j < setnum; j++)]: whether [j == setnum] at the end *)
Fixpoint in_all i (x : element) (first : bytes) (others : list bytes) s : option (bool * st) :=
  match others with
  | [] => Some (true, s)
  | key :: others =>
      if bool_decide (key = first) then in_all i x first others s else
      let! v := load_obj i key s in
      match x, v with
      | EleInt z, VIntset iset =>
          let! r := intsetFind iset z in
          if negb r then Some (false, s) else in_all i x first others s
      | EleInt z, VHt _ =>
          let! ele := sdsfromlonglong ll_buf z in
          let! (r, s) := on_set i key (fun v => setTypeIsMember v ele) s in
          if negb r then Some (false, s) else in_all i x first others s
      | EleInt _, _ => in_all i x first others s
      | EleStr ele, _ =>
          let! (r, s) := on_set i key (fun v => setTypeIsMember v ele) s in
          if negb r then Some (false, s) else in_all i x first others s
      end
  end.

(** The body of the loop: the elements to reply with, or the set to store *)
Definition inter_body e i (first : bytes) (others : list bytes) (store : bool) (x : element)
    (acc : list bytes * value) s : option (list bytes * value * st) :=
  let '(out, dstset) := acc in
  let! (all, s) := in_all i x first others s in
  if negb all then Some (out, dstset, s) else
  let! ele := element_sds x in
  if negb store then Some (out ++ [ele], dstset, s) else
  let! (_, dstset) := setTypeAdd e dstset ele in
  Some (out, dstset, s).

(** The length of the reply is put in front of the elements when it is known. *)
Definition sinterGenericCommand e i (setkeys : list bytes) (dstkey : option bytes) s : option st :=
  let! (r, s) := inter_lookups e i dstkey setkeys s in
  match r with
  | Missing =>
      match dstkey with
      | Some dst =>
          let! (deleted, s) := dbDelete e i dst s in
          let s := if (deleted : bool) then add_dirty 1 (signalModifiedKey i dst s) else s in
          Some (addReply (ReplyInt 0) s)
      | None => Some (addReply ReplyEmptySet s)
      end
  | WrongType => Some (addReply ReplyWrongType s)
  | Sets =>
      let! sized := with_sizes i setkeys s in
      match map fst (qsort qsortCompareSetsByCardinality sized) with
      | [] => None
      | first :: others =>
          let! dstset := createIntsetObject in
          let store := match dstkey with Some _ => true | None => false end in
          let! (acc, s) := for_each i first (inter_body e i first others store) ([], dstset) s in
          let '(out, dstset) := acc in
          match dstkey with
          | Some dst => store_result e i dst "sinterstore" dstset s
          | None => Some (reply_set (zlen out) out s)
          end
      end
  end.

(** ** SUNION, SDIFF and their STORE variants *)

(** The sets, NULL for a key that does not exist; [None] when a key holds something else *)
Fixpoint union_lookups e i (dstkey : option bytes) (keys : list bytes) s : option (option (list (option bytes)) * st) :=
  match keys with
  | [] => Some (Some [], s)
  | key :: keys =>
      let! (o, s) := lookup_for e i dstkey key s in
      if match o with Some o => wrong_type o | None => false end then Some (None, s) else
      let! (sets, s) := union_lookups e i dstkey keys s in
      Some (match sets with
            | Some sets => Some ((match o with Some _ => Some key | None => None end) :: sets)
            | None => None
            end, s)
  end.

Definition size_or_0 i (set : option bytes) s : option Z :=
  match set with Some key => size_at i key s | None => Some 0 end.
Fixpoint opt_sizes i (sets : list (option bytes)) s : option (list (option bytes * Z)) :=
  match sets with
  | [] => Some []
  | set :: sets => let! n := size_or_0 i set s in let! l := opt_sizes i sets s in Some ((set, n) :: l)
  end.
Definition qsortCompareSetsByRevCardinality (s1 s2 : option bytes * Z) : Z :=
  if snd s1 <? snd s2 then 1 else if snd s1 >? snd s2 then -1 else 0.

(** The sums are long longs. *)
Fixpoint work (n0 : Z) (sets : list (option bytes * Z)) (one two : Z) : Z * Z :=
  match sets with
  | [] => (one, two)
  | (None, _) :: sets => work n0 sets one two
  | (Some _, n) :: sets => work n0 sets (i64 (one + n0)) (i64 (two + n))
  end.

(** The algorithm for DIFF, and the sets in the order it takes them *)
Definition select_algo i (sets : list (option bytes)) s : option (Z * list (option bytes)) :=
  match sets with
  | Some k0 :: rest =>
      let! sized := opt_sizes i sets s in
      let! n0 := size_at i k0 s in
      let '(one, two) := work n0 sized 0 0 in
      let one := Z.quot one 2 in
      if one <=? two then Some (1, Some k0 :: map fst (qsort qsortCompareSetsByRevCardinality (drop 1 sized)))
      else Some (2, sets)
  | _ => Some (1, sets)
  end.

(** The result so far and its cardinality, an int *)
Definition dstset_card : Type := value * Z.
Definition add_to e (ele : bytes) (acc : dstset_card) : option dstset_card :=
  let! (r, v) := setTypeAdd e (fst acc) ele in
  Some (v, if (r : bool) then i32 (snd acc + 1) else snd acc).
Definition remove_from e (ele : bytes) (acc : dstset_card) : option dstset_card :=
  let! (r, v) := setTypeRemove e (fst acc) ele in
  Some (v, if (r : bool) then i32 (snd acc - 1) else snd acc).
Definition add_body e (x : element) (acc : dstset_card) s : option (dstset_card * st) :=
  let! ele := element_sds x in let! acc := add_to e ele acc in Some (acc, s).
Definition remove_body e (x : element) (acc : dstset_card) s : option (dstset_card * st) :=
  let! ele := element_sds x in let! acc := remove_from e ele acc in Some (acc, s).

Fixpoint union_loop e i (sets : list (option bytes)) (acc : dstset_card) s : option (dstset_card * st) :=
  match sets with
  | [] => Some (acc, s)
  | None :: sets => union_loop e i sets acc s
  | Some key :: sets =>
      let! (acc, s) := for_each i key (add_body e) acc s in
      union_loop e i sets acc s
  end.

(** Whether no set but the first has the element *)
Fixpoint in_none i (ele : bytes) (first : bytes) (others : list (option bytes)) s : option (bool * st) :=
  match others with
  | [] => Some (true, s)
  | None :: others => in_none i ele first others s
  | Some key :: others =>
      if bool_decide (key = first) then Some (false, s) else
      let! (r, s) := on_set i key (fun v => setTypeIsMember v ele) s in
      if (r : bool) then Some (false, s) else in_none i ele first others s
  end.
Definition diff1_body e i (first : bytes) (others : list (option bytes)) (x : element) (acc : dstset_card) s
    : option (dstset_card * st) :=
  let! ele := element_sds x in
  let! (none, s) := in_none i ele first others s in
  if negb none then Some (acc, s) else
  let! (_, v) := setTypeAdd e (fst acc) ele in
  Some (v, i32 (snd acc + 1), s).

Fixpoint diff2_loop e i (sets : list (option bytes)) (acc : dstset_card) s : option (dstset_card * st) :=
  match sets with
  | [] => Some (acc, s)
  | None :: sets => diff2_loop e i sets acc s
  | Some key :: sets =>
      let! (acc, s) := for_each i key (remove_body e) acc s in
      if snd acc =? 0 then Some (acc, s) else diff2_loop e i sets acc s
  end.

Definition diff_result e i (sets : list (option bytes)) (acc : dstset_card) s : option (dstset_card * st) :=
  let! (algo, sets) := select_algo i sets s in
  match sets with
  | Some k0 :: others =>
      if algo =? 1 then for_each i k0 (diff1_body e i k0 others) acc s
      else
        let! (acc, s) := for_each i k0 (add_body e) acc s in
        if snd acc =? 0 then Some (acc, s) else diff2_loop e i others acc s
  | _ => Some (acc, s)
  end.

Definition sunionDiffGenericCommand e i (setkeys : list bytes) (dstkey : option bytes) (op : set_op) s : option st :=
  let! (sets, s) := union_lookups e i dstkey setkeys s in
  match sets with
  | None => Some (addReply ReplyWrongType s)
  | Some sets =>
      let! dstset := createIntsetObject in
      let! (acc, s) := match op with
                       | SET_OP_UNION => union_loop e i sets (dstset, 0) s
                       | SET_OP_DIFF => diff_result e i sets (dstset, 0) s
                       end in
      let '(dstset, cardinality) := acc in
      match dstkey with
      | None => let! l := elements dstset in Some (reply_set cardinality l s)
      | Some dst => store_result e i dst (match op with SET_OP_UNION => "sunionstore" | SET_OP_DIFF => "sdiffstore" end) dstset s
      end
  end.
End SetCmd.
