(* ===== verification/SetCmdFacts.v ===== *)
(** * The loops of the set commands, on an abstract keyspace of finite sets *)

From Stdlib Require Import ZArith Lia String.
From stdpp Require Import base numbers option fin_sets fin_maps gmap list.
From S2P Require Import Prelude Memory Endian Intset IntsetFacts IntsetSpec Util UtilFacts SdsNumber Server Dict DictFacts DictSpec DictIter Keyspace KeyspaceFacts KeyspaceSpec SetType SetTypeFacts SetCmd.

Local Open Scope Z_scope.
Local Open Scope redis_scope.

(** A set of strings, or a value of another type *)
Inductive absval := ASet (X : gset bytes) | AOther (t : Z).
#[global] Instance absval_eq_dec : EqDecision absval.
Proof. solve_decision. Defined.

Section Facts.
Context `{!Host, !Alloc, !dictType bytes, !DictTypeOk bytes, !Qsort, !QsortOk}.
Implicit Types (e : kenv) (i : nat) (k : bytes) (s : keyspace value) (m : absdb value) (x : absdb absval).

Definition value_rep (v : value) (a : absval) : Prop :=
  match a with
  | ASet X => set_rep v X
  | AOther t => v = VOther t /\ t <> OBJ_SET
  end.
#[local] Instance abs_rep : Rep value absval := value_rep.
#[local] Instance same_rep : Rep value value := eq.

Lemma wrong_type_rep o a : value_rep (ptr o) a -> wrong_type o = match a with ASet _ => false | AOther _ => true end.
Proof.
  unfold wrong_type, obj_type, value_type. destruct a as [X|t]; simpl.
  - by destruct (ptr o).
  - intros [-> Ht]. by rewrite (proj2 (Z.eqb_neq _ _) Ht).
Qed.

(** ** From values to what they stand for *)

Definition view m x : Prop :=
  forall k, match x !! k with
            | Some (a, t) => exists v, m !! k = Some (v, t) /\ value_rep v a
            | None => m !! k = None
            end.

Lemma view_values (db : redisDb value) x : db_rep db x -> exists m, db_rep db m /\ view m x.
Proof.
  intros (M & E & HM & HE & Hk). exists (map_imap (fun k o => Some (ptr o, E !! k)) M).
  assert (forall k, map_imap (fun k o => Some (ptr o, E !! k)) M !! k = (fun o => (ptr o, E !! k)) <$> M !! k) as Hl.
  { intros k. rewrite map_lookup_imap. by destruct (M !! k). }
  split.
  - exists M, E. split_and!; try done. intros k. rewrite Hl. specialize (Hk k). unfold entry_rep in *.
    destruct (x !! k) as [[a t]|]; [destruct Hk as (v & -> & _)|destruct Hk as [-> ->]]; simpl; [|done]. by exists v.
  - intros k. rewrite Hl. specialize (Hk k). unfold entry_rep in Hk.
    destruct (x !! k) as [[a t]|]; [destruct Hk as (v & -> & Hv & ->)|destruct Hk as [-> _]]; simpl; eauto.
Qed.
Lemma values_view (db : redisDb value) m x : db_rep db m -> view m x -> db_rep db x.
Proof.
  intros (M & E & HM & HE & Hk) Hv. exists M, E. split_and!; try done. intros k. specialize (Hk k). specialize (Hv k).
  unfold entry_rep in *. destruct (x !! k) as [[a t]|].
  - destruct Hv as (v & HE' & Hv). rewrite HE' in Hk. destruct Hk as (o & -> & <- & ->). eauto.
  - rewrite Hv in Hk. done.
Qed.

(** A triple on values, whatever they are, gives one on what they stand for. *)
Lemma lift {Y} i x (c : keyspace value -> option (Y * keyspace value)) (Q : Y -> absdb absval -> list event -> Z -> Prop) :
  (forall m, view m x -> does i m c (fun r m' evs n => exists x', view m' x' /\ Q r x' evs n)) -> does i x c Q.
Proof.
  intros Hc s xs Hr Hx.
  assert (exists ms, Forall2 db_rep (dbs s) ms /\ Forall2 view ms xs) as (ms & Hms & Hv).
  { clear Hx. induction Hr as [|db x' dbs' xs' Hdb _ (ms & IH1 & IH2)]; [by exists []|].
    destruct (view_values db x' Hdb) as (m & ? & ?). exists (m :: ms). by split; constructor. }
  destruct (Forall2_lookup_r _ _ _ _ _ Hv Hx) as (m & Hm & Hmx).
  destruct (Hc m Hmx s ms Hms Hm) as (r & s' & m' & evs & n & Hs & Hr' & He & Hd & x' & Hx' & HQ).
  exists r, s', x', evs, n. split_and!; try done.
  assert (Forall2 view (<[i := m']> ms) (<[i := x']> xs)) as Hv' by by apply Forall2_insert.
  clear -Hr' Hv'. unfold ks_rep in *. revert Hr' Hv'. generalize (<[i := m']> ms) (<[i := x']> xs) (dbs s').
  intros ms1 xs1 l Hl. revert xs1. induction Hl as [|db m l ms1 Hdb _ IH]; intros xs1 Hv; inversion_clear Hv; constructor; auto.
  by eapply values_view.
Qed.

Lemma view_insert m x k v a t : view m x -> value_rep v a -> view (<[k := (v, t)]> m) (<[k := (a, t)]> x).
Proof.
  intros Hv Ha k'. destruct (decide (k' = k)) as [->|Hne]; [rewrite !lookup_insert_eq; eauto|].
  rewrite !lookup_insert_ne by done. apply Hv.
Qed.
Lemma view_set m x k X t : view m x -> x !! k = Some (ASet X, t) -> exists v, m !! k = Some (v, t) /\ set_rep v X.
Proof. intros Hv Hk. specialize (Hv k). by rewrite Hk in Hv. Qed.

(** ** One set *)

Lemma on_set_ok {Y} i x k X t X' (P : Y -> Prop) (f : value -> option (Y * value)) :
  x !! k = Some (ASet X, t) ->
  (forall v, set_rep v X -> exists r v', f v = Some (r, v') /\ P r /\ set_rep v' X') ->
  does i x (on_set i k f) (fun r x' evs n => P r /\ x' = <[k := (ASet X', t)]> x /\ evs = [] /\ n = 0).
Proof.
  intros Hk Hf. apply does_intro. intros s0 ms s Hat. unfold on_set.
  destruct (load_ok _ _ _ _ _ _ _ k (ASet X) t Hat Hk) as (v & -> & Hv). mstep.
  destruct (Hf v Hv) as (r & v' & -> & HP & Hv'). mstep.
  exec (store_ok i x k (ASet X) t v' (ASet X') Hk Hv'). destruct HQ as (-> & -> & ->). by finish.
Qed.

(** A membership test on values: other sets are not touched. *)
Lemma is_member_ok i m x k X t ele :
  view m x -> x !! k = Some (ASet X, t) ->
  does i m (on_set i k (fun v => setTypeIsMember v ele)) (fun r m' evs n =>
    r = bool_decide (ele ∈ X) /\ view m' x /\ (forall k', k' <> k -> m' !! k' = m !! k') /\ evs = [] /\ n = 0).
Proof.
  intros Hv Hk. destruct (view_set _ _ _ _ _ Hv Hk) as (v & Hm & Hrep). apply does_intro. intros s0 ms s Hat. unfold on_set.
  destruct (load_ok _ _ _ _ _ _ _ k v t Hat Hm) as (v0 & -> & ->). mstep.
  destruct (member_ok v X ele Hrep) as (v' & -> & Hrep'). mstep.
  exec (store_ok i m k v t v' v' Hm eq_refl). destruct HQ as (-> & -> & ->). finish. split_and!; try done.
  - rewrite <- (insert_id x k (ASet X, t)) by done. by apply view_insert.
  - intros k' Hne. by apply lookup_insert_ne.
Qed.

Lemma size_at_ok s0 xs i s x evs n k X t :
  at_ s0 xs i s x evs n -> x !! k = Some (ASet X, t) -> size_at i k s = Some (Z.of_nat (base.size X)).
Proof.
  intros Hat Hk. destruct (load_ok _ _ _ _ _ _ _ k (ASet X) t Hat Hk) as (v & Hl & Hv). unfold size_at. rewrite Hl. mstep.
  by apply size_ok.
Qed.

(** ** The loop over a set *)

(** [I l acc m]: the elements [l] have been visited. *)
Lemma each_ok {Y} i k v t L (I : list bytes -> Y -> absdb value -> Prop) (body : element -> Y -> keyspace value -> option (Y * keyspace value)) :
  (forall l ele r el acc m, L = l ++ ele :: r -> I l acc m -> m !! k = Some (v, t) -> is_element v el ele ->
     does i m (body el acc) (fun acc' m' evs n => I (l ++ [ele]) acc' m' /\ m' !! k = Some (v, t) /\ evs = [] /\ n = 0)) ->
  forall l fuel si l0 acc m, L = l0 ++ l -> iterating si v l -> (length l <= fuel)%nat -> I l0 acc m -> m !! k = Some (v, t) ->
  does i m (each_in_key i k fuel si body acc) (fun acc' m' evs n => I L acc' m' /\ evs = [] /\ n = 0).
Proof.
  intros Hbody l. induction l as [|ele l IH]; intros fuel si l0 acc m HL Hit Hf HI Hk; apply does_intro; intros s0 ms s Hat;
    destruct (next_iter si v _ Hit) as (o & si' & HE & Ho); destruct fuel as [|fuel]; try (simpl in Hf; lia); cbn [each_in_key];
    (destruct (load_ok _ _ _ _ _ _ _ k v t Hat Hk) as (v0 & -> & ->)); mstep; rewrite HE; mstep.
  - subst o. finish. rewrite HL, app_nil_r. done.
  - subst o. finish. rewrite HL, app_nil_r. done.
  - destruct Ho as (el & -> & Hel & Hit'). run (Hbody l0 ele l el acc m HL HI Hk Hel) acc'. destruct HQ as (HI' & Hk' & -> & ->).
    simpl in Hf. rewrite (cons_middle ele), app_assoc in HL.
    tail_call (IH fuel si' (l0 ++ [ele]) acc' m' HL Hit' ltac:(lia) HI' Hk') acc''. destruct HQ as (HI'' & -> & ->). by finish.
Qed.

(** The whole loop visits every element of the set once. *)
Lemma for_each_ok {Y} i k X t (I : list bytes -> Y -> absdb value -> Prop) (body : element -> Y -> keyspace value -> option (Y * keyspace value)) acc m x :
  view m x -> x !! k = Some (ASet X, t) -> I [] acc m ->
  (forall v l ele el acc m, I l acc m -> m !! k = Some (v, t) -> is_element v el ele -> ele ∈ X -> ele ∉ l -> list_to_set l ⊆ X ->
     does i m (body el acc) (fun acc' m' evs n => I (l ++ [ele]) acc' m' /\ m' !! k = Some (v, t) /\ evs = [] /\ n = 0)) ->
  does i m (for_each i k body acc) (fun acc' m' evs n =>
    exists l, NoDup l /\ list_to_set l = X /\ I l acc' m' /\ evs = [] /\ n = 0).
Proof.
  intros Hv Hk HI Hbody. destruct (view_set _ _ _ _ _ Hv Hk) as (v & Hm & Hrep).
  destruct (init_iter v X Hrep) as (si & l & Hsi & Hit & Hnd & HX).
  assert (does i m (each_in_key i k (Z.to_nat (Z.of_nat (base.size X))) si body acc) (fun acc' m' evs n => I l acc' m' /\ evs = [] /\ n = 0)) as Hloop.
  { apply (each_ok i k v t l I body) with (l := l) (l0 := []); try done.
    - intros l1 ele r el acc1 m1 HL HI1 Hk1 Hel. apply (Hbody v l1 ele el acc1 m1); try done.
      + rewrite <- HX, elem_of_list_to_set, HL. set_solver.
      + rewrite HL, NoDup_app in Hnd. intros Hin. by apply (proj1 (proj2 Hnd) ele Hin); left.
      + rewrite <- HX, HL, list_to_set_app_L. set_solver.
    - rewrite <- HX, size_list_to_set by done. lia. }
  apply does_intro. intros s0 ms s Hat. unfold for_each. destruct (load_ok _ _ _ _ _ _ _ k v t Hat Hm) as (v0 & -> & ->). mstep.
  rewrite Hsi. mstep. rewrite (size_ok _ _ Hrep). mstep. tail_call Hloop acc'. destruct HQ as (HI' & -> & ->). finish. by exists l.
Qed.

(** ** Tests against other sets *)

Definition set_of x k : gset bytes := match x !! k with Some (ASet X, _) => X | _ => ∅ end.
Definition is_set x k : Prop := exists X t, x !! k = Some (ASet X, t).

Lemma is_set_of x k : is_set x k -> exists t, x !! k = Some (ASet (set_of x k), t).
Proof. intros (X & t & Hk). exists t. unfold set_of. by rewrite Hk. Qed.

Lemma in_all_ok i x first v t el ele : is_element v el ele -> forall others m,
  view m x -> m !! first = Some (v, t) -> Forall (is_set x) others ->
  does i m (in_all i el first others) (fun b m' evs n =>
    b = bool_decide (Forall (fun k => k = first \/ ele ∈ set_of x k) others) /\ view m' x /\ m' !! first = Some (v, t) /\
    evs = [] /\ n = 0).
Proof.
  intros Hel others. induction others as [|k others IH]; intros m Hv Hf Hs; apply does_intro; intros s0 ms s Hat; cbn [in_all].
  { by finish. }
  apply Forall_cons in Hs as [Hk Hs]. destruct (is_set_of _ _ Hk) as (tk & Hxk). set (X := set_of x k) in *.
  assert (forall m', view m' x -> m' !! first = Some (v, t) -> k = first \/ ele ∈ X ->
    does i m' (in_all i el first others) (fun b m'' evs n =>
      b = bool_decide (Forall (fun k => k = first \/ ele ∈ set_of x k) (k :: others)) /\ view m'' x /\ m'' !! first = Some (v, t) /\
      evs = [] /\ n = 0)) as Hrest.
  { intros m' Hv' Hf' Hin. eapply does_impl; [by apply (IH m')|]. intros b m'' evs n (-> & ?). split; [|done].
    apply bool_decide_ext. rewrite Forall_cons. tauto. }
  destruct (decide (k = first)) as [Ek|Ek]; [rewrite (bool_decide_true (k = first)) by done|rewrite (bool_decide_false (k = first)) by done].
  { tail_call (Hrest m Hv Hf (or_introl Ek)) b. by finish. }
  assert (ele ∉ X -> false = bool_decide (Forall (fun k => k = first \/ ele ∈ set_of x k) (k :: others))) as Hno.
  { intros Hni. symmetry. apply bool_decide_eq_false. intros [[?|?] _]%Forall_cons; done. }
  destruct (view_set _ _ _ _ _ Hv Hxk) as (vk & Hmk & Hrep).
  destruct (load_ok _ _ _ _ _ _ _ k vk tk Hat Hmk) as (v0 & -> & ->). mstep.
  assert (forall r m', r = bool_decide (ele ∈ X) -> view m' x -> (forall k', k' <> k -> m' !! k' = m !! k') ->
    does i m' (fun s => if negb r then Some (false, s) else in_all i el first others s) (fun b m'' evs n =>
      b = bool_decide (Forall (fun k => k = first \/ ele ∈ set_of x k) (k :: others)) /\ view m'' x /\ m'' !! first = Some (v, t) /\
      evs = [] /\ n = 0)) as Hgo.
  { intros r m' -> Hv' Hne. assert (m' !! first = Some (v, t)) as Hf' by (rewrite Hne by auto; done).
    destruct (decide (ele ∈ X)) as [Hin|Hin]; [rewrite (bool_decide_true (ele ∈ X)) by done|rewrite (bool_decide_false (ele ∈ X)) by done]; simpl.
    - by apply Hrest; auto.
    - apply does_ret. split_and!; auto. }
  pose proof (element_string _ _ _ Hel) as Hstr. destruct el as [z|ele'].
  - assert (string2ll ele = Some z) as Hz.
    { destruct v; simpl in Hel; [destruct Hel as (? & [= ->] & ?); done|done..]. }
    destruct vk as [iset|d|ty]; [| |done].
    + destruct Hrep as (vs & Hwf & HX). pose proof (string2ll_dec _ _ Hz) as [Hz64 _].
      rewrite (intsetFind_correct iset _ z (wf_rep _ _ Hwf) Hz64). mstep.
      assert (bool_decide (z ∈ (list_to_set vs : gset Z)) = bool_decide (ele ∈ X)) as ->.
      { apply bool_decide_ext. rewrite HX, (intset_number iset vs ele z), elem_of_list_to_set; done. }
      edestruct (at_step _ _ _ _ _ _ s _ _ (Hgo _ m eq_refl Hv (fun _ _ => eq_refl)) Hat) as (b & s' & m' & evs & n & -> & Hat' & HQ). by finish.
    + simpl in Hstr. rewrite Hstr. mstep. run (is_member_ok i m x k X tk ele Hv Hxk) r. destruct HQ as (Hr & Hv' & Hne & -> & ->).
      edestruct (at_step _ _ _ _ _ _ s' _ _ (Hgo r m' Hr Hv' Hne) Hat1) as (b & s2 & m2 & evs & n & -> & Hat' & HQ). by finish.
  - simpl in Hstr. injection Hstr as ->. run (is_member_ok i m x k X tk ele Hv Hxk) r. destruct HQ as (Hr & Hv' & Hne & -> & ->).
    edestruct (at_step _ _ _ _ _ _ s' _ _ (Hgo r m' Hr Hv' Hne) Hat1) as (b & s2 & m2 & evs & n & -> & Hat' & HQ). by finish.
Qed.

Definition lacks x first ele (o : option bytes) : bool :=
  match o with Some k => negb (bool_decide (k = first)) && negb (bool_decide (ele ∈ set_of x k)) | None => true end.

Lemma in_none_ok i x first v t ele : forall others m,
  view m x -> m !! first = Some (v, t) -> Forall (fun o => forall k, o = Some k -> is_set x k) others ->
  does i m (in_none i ele first others) (fun b m' evs n =>
    b = forallb (lacks x first ele) others /\ view m' x /\ m' !! first = Some (v, t) /\ evs = [] /\ n = 0).
Proof.
  intros others. induction others as [|[k|] others IH]; intros m Hv Hf Hs; apply does_intro; intros s0 ms s Hat; cbn [in_none forallb lacks].
  { by finish. }
  - apply Forall_cons in Hs as [Hk Hs]. destruct (is_set_of x k) as (tk & Hxk); [by apply Hk|]. set (X := set_of x k) in *.
    destruct (decide (k = first)) as [Ek|Ek]; [rewrite (bool_decide_true (k = first)) by done|rewrite (bool_decide_false (k = first)) by done].
    { by finish. }
    run (is_member_ok i m x k X tk ele Hv Hxk) r. destruct HQ as (-> & Hv' & Hne & -> & ->).
    assert (m' !! first = Some (v, t)) as Hf' by (rewrite Hne by auto; done). destruct (bool_decide (ele ∈ X)); [by finish|].
    tail_call (IH m' Hv' Hf' Hs) b. destruct HQ as (-> & Hv'' & Hf'' & -> & ->). by finish.
  - apply Forall_cons in Hs as [_ Hs]. tail_call (IH m Hv Hf Hs) b. destruct HQ as (-> & Hv'' & Hf'' & -> & ->). by finish.
Qed.

(** ** Accumulation of the result *)

(** A fresh set with its cardinality *)
Definition acc_rep (acc : dstset_card) (D : gset bytes) : Prop := set_rep (fst acc) D /\ snd acc = Z.of_nat (base.size D).
Definition small (D : gset bytes) : Prop := Z.of_nat (base.size D) + 1 < 2 ^ 29.

Lemma small_subseteq (D D' : gset bytes) : small D -> D' ⊆ D -> small D'.
Proof. unfold small. intros Hs Hsub. apply subseteq_size in Hsub. lia. Qed.

Lemma size_add (D : gset bytes) ele : base.size ({[ ele ]} ∪ D) = (if bool_decide (ele ∈ D) then base.size D else S (base.size D))%nat.
Proof.
  case_bool_decide as Hin.
  - by rewrite (subseteq_union_1_L {[ ele ]} D) by set_solver.
  - rewrite size_union by set_solver. by rewrite size_singleton.
Qed.
Lemma size_remove (D : gset bytes) ele : Z.of_nat (base.size (D ∖ {[ ele ]})) = Z.of_nat (base.size D) - b2z (bool_decide (ele ∈ D)).
Proof.
  case_bool_decide as Hin; simpl.
  - assert (D = {[ ele ]} ∪ D ∖ {[ ele ]}) as HE.
    { apply set_eq. intros x. destruct (decide (x = ele)); set_solver. }
    apply (f_equal base.size) in HE. rewrite size_add, bool_decide_false in HE by set_solver. lia.
  - rewrite difference_disjoint_L by set_solver. lia.
Qed.

Lemma add_to_ok e ele acc D :
  acc_rep acc D -> small D -> exists acc', add_to e ele acc = Some acc' /\ acc_rep acc' ({[ ele ]} ∪ D).
Proof.
  intros [Hr Hc] Hs. unfold add_to. destruct (add_ok e (fst acc) D ele Hr Hs) as (v' & -> & Hr' & _). mstep.
  eexists. split; [done|]. split; [done|]. simpl. rewrite size_add. unfold small in Hs.
  destruct (decide (ele ∈ D)) as [Hin|Hin].
  - rewrite (bool_decide_false (ele ∉ D)), (bool_decide_true (ele ∈ D)) by auto. done.
  - rewrite (bool_decide_true (ele ∉ D)), (bool_decide_false (ele ∈ D)) by auto. rewrite Hc, (sN_small 32) by (unfold is_s; lia). lia.
Qed.
Lemma remove_from_ok e ele acc D :
  acc_rep acc D -> small D -> exists acc', remove_from e ele acc = Some acc' /\ acc_rep acc' (D ∖ {[ ele ]}).
Proof.
  intros [Hr Hc] Hs. unfold remove_from, small in *. destruct (remove_ok e (fst acc) D ele Hr ltac:(lia)) as (v' & -> & Hr' & _). mstep.
  eexists. split; [done|]. split; [done|]. simpl. rewrite size_remove.
  pose proof (size_remove D ele) as Hpos. case_bool_decide as Hin; simpl in *; [|lia].
  rewrite Hc, (sN_small 32) by (unfold is_s; lia). lia.
Qed.

Lemma list_to_set_snoc (l : list bytes) ele : (list_to_set (l ++ [ele]) : gset bytes) = {[ ele ]} ∪ list_to_set l.
Proof. rewrite list_to_set_app_L. set_solver. Qed.

Lemma union_set_ok e i m x k X t acc D :
  view m x -> x !! k = Some (ASet X, t) -> acc_rep acc D -> small (D ∪ X) ->
  does i m (for_each i k (add_body e) acc) (fun acc' m' evs n => acc_rep acc' (D ∪ X) /\ m' = m /\ evs = [] /\ n = 0).
Proof.
  intros Hv Hk Hacc Hs. eapply does_impl; [apply (for_each_ok i k X t (fun l acc m' => m' = m /\ acc_rep acc (D ∪ list_to_set l)) _ acc m x Hv Hk)|].
  - split; [done|]. simpl. by rewrite union_empty_r_L.
  - intros v l ele el acc1 m1 [-> Hacc1] Hm Hel Hin Hni Hsub. apply does_intro. intros s0 ms s Hat. unfold add_body.
    rewrite (element_string _ _ _ Hel). mstep.
    destruct (add_to_ok e ele acc1 _ Hacc1) as (acc' & -> & Hacc'); [by eapply small_subseteq; [exact Hs|set_solver]|]. mstep.
    finish. split_and!; try done. rewrite list_to_set_snoc. by replace (D ∪ ({[ele]} ∪ list_to_set l)) with ({[ele]} ∪ (D ∪ list_to_set l)) by set_solver.
  - intros acc' m' evs n (l & _ & HX & [-> Hacc'] & -> & ->). by rewrite HX in Hacc'.
Qed.

Lemma remove_set_ok e i m x k X t acc D :
  view m x -> x !! k = Some (ASet X, t) -> acc_rep acc D -> small D ->
  does i m (for_each i k (remove_body e) acc) (fun acc' m' evs n => acc_rep acc' (D ∖ X) /\ m' = m /\ evs = [] /\ n = 0).
Proof.
  intros Hv Hk Hacc Hs. eapply does_impl; [apply (for_each_ok i k X t (fun l acc m' => m' = m /\ acc_rep acc (D ∖ list_to_set l)) _ acc m x Hv Hk)|].
  - split; [done|]. simpl. by rewrite difference_empty_L.
  - intros v l ele el acc1 m1 [-> Hacc1] Hm Hel Hin Hni Hsub. apply does_intro. intros s0 ms s Hat. unfold remove_body.
    rewrite (element_string _ _ _ Hel). mstep.
    destruct (remove_from_ok e ele acc1 _ Hacc1) as (acc' & -> & Hacc'); [by eapply small_subseteq; [exact Hs|set_solver]|]. mstep.
    finish. split_and!; try done. rewrite list_to_set_snoc. by replace (D ∖ ({[ele]} ∪ list_to_set l)) with (D ∖ list_to_set l ∖ {[ele]}) by set_solver.
  - intros acc' m' evs n (l & _ & HX & [-> Hacc'] & -> & ->). by rewrite HX in Hacc'.
Qed.
End Facts.

(** * The set operations: both algorithms of the difference, the union and the intersection *)

Section SetOps.
Context `{!Host, !Alloc, !dictType bytes, !DictTypeOk bytes, !Qsort, !QsortOk}.
Implicit Types (e : kenv) (i : nat) (k : bytes) (s : keyspace value) (m : absdb value) (x : absdb absval).
#[local] Existing Instance abs_rep.
#[local] Existing Instance same_rep.

(** ** The sets a list of pointers stands for *)

Definition opt_set x (o : option bytes) : gset bytes := match o with Some k => set_of x k | None => ∅ end.
Definition opt_ok x (o : option bytes) : Prop := forall k, o = Some k -> is_set x k.
Definition union_of x (sets : list (option bytes)) : gset bytes := ⋃ (opt_set x <$> sets).

Lemma union_of_cons x o sets : union_of x (o :: sets) = opt_set x o ∪ union_of x sets.
Proof. done. Qed.
Lemma union_of_none x sets : union_of x (None :: sets) = union_of x sets.
Proof. rewrite union_of_cons. simpl. set_solver. Qed.
Lemma elem_of_union_of x sets ele : ele ∈ union_of x sets <-> exists o, o ∈ sets /\ ele ∈ opt_set x o.
Proof.
  unfold union_of. rewrite elem_of_union_list. split.
  - intros (X & (o & -> & Ho)%list_elem_of_fmap & Hin). eauto.
  - intros (o & Ho & Hin). exists (opt_set x o). split; [|done]. apply list_elem_of_fmap. eauto.
Qed.
Lemma union_of_perm x sets sets' : sets ≡ₚ sets' -> union_of x sets = union_of x sets'.
Proof. intros Hp. apply set_eq. intros ele. rewrite !elem_of_union_of. by setoid_rewrite Hp. Qed.

Lemma small_union_l (D E : gset bytes) : small (D ∪ E) -> small D.
Proof. intros Hs. eapply small_subseteq; [exact Hs|set_solver]. Qed.
Lemma small_difference (D E : gset bytes) : small D -> small (D ∖ E).
Proof. intros Hs. eapply small_subseteq; [exact Hs|set_solver]. Qed.

(** ** Union *)

Lemma union_loop_ok e i x : forall sets m acc D,
  view m x -> Forall (opt_ok x) sets -> acc_rep acc D -> small (D ∪ union_of x sets) ->
  does i m (union_loop e i sets acc) (fun acc' m' evs n => acc_rep acc' (D ∪ union_of x sets) /\ view m' x /\ evs = [] /\ n = 0).
Proof.
  induction sets as [|[k|] sets IH]; intros m acc D Hv Hs Hacc Hsm; cbn [union_loop].
  - apply does_ret. unfold union_of. simpl. by rewrite union_empty_r_L.
  - apply Forall_cons in Hs as [Hk Hs]. destruct (is_set_of x k) as (t & Hxk); [by apply Hk|]. rewrite union_of_cons in *. simpl opt_set in *.
    rewrite (assoc_L (∪) D) in *.
    apply does_intro. intros s0 ms s Hat. run (union_set_ok e i m x k _ t acc D Hv Hxk Hacc (small_union_l _ _ Hsm)) acc1.
    destruct HQ as (Hacc1 & -> & -> & ->). tail_call (IH m acc1 _ Hv Hs Hacc1 Hsm) acc2. destruct HQ as (Hacc2 & Hv2 & -> & ->).
    by finish.
  - apply Forall_cons in Hs as [_ Hs]. rewrite union_of_none in *. by apply IH.
Qed.

(** ** Difference *)

Lemma lacks_spec x first ele others :
  ele ∈ set_of x first -> forallb (lacks x first ele) others = bool_decide (ele ∉ union_of x others).
Proof.
  intros Hf. apply eq_true_iff_eq. rewrite forallb_forall, bool_decide_eq_true, elem_of_union_of. split.
  - intros Hall (o & Ho & Hin). apply list_elem_of_In, Hall in Ho. destruct o as [k|]; simpl in *; [|set_solver].
    apply andb_true_iff in Ho as [_ Ho]. by rewrite bool_decide_true in Ho.
  - intros Hno [k|] Ho%list_elem_of_In; simpl; [|done]. assert (ele ∉ set_of x k) as Hk by (intros ?; apply Hno; by exists (Some k)).
    rewrite !bool_decide_false; [done|done|]. by intros ->.
Qed.

(** The first algorithm: an element at a time *)
Lemma diff1_ok e i m x k X t others acc :
  view m x -> x !! k = Some (ASet X, t) -> Forall (opt_ok x) others -> acc_rep acc ∅ -> small X ->
  does i m (for_each i k (diff1_body e i k others) acc) (fun acc' m' evs n =>
    acc_rep acc' (X ∖ union_of x others) /\ view m' x /\ evs = [] /\ n = 0).
Proof.
  intros Hv Hk Ho Hacc Hs. set (U := union_of x others).
  eapply does_impl; [apply (for_each_ok i k X t (fun l acc m' => view m' x /\ acc_rep acc (list_to_set l ∖ U)) _ acc m x Hv Hk)|].
  - split; [done|]. simpl. by replace (∅ ∖ U) with (∅ : gset bytes) by set_solver.
  - intros v l ele el acc1 m1 [Hv1 Hacc1] Hm Hel Hin Hni Hsub. apply does_intro. intros s0 ms s Hat. unfold diff1_body.
    rewrite (element_string _ _ _ Hel). mstep. run (in_none_ok i x k v t ele others m1 Hv1 Hm Ho) b.
    destruct HQ as (-> & Hv' & Hm' & -> & ->). rewrite lacks_spec by (unfold set_of; by rewrite Hk). fold U. rewrite list_to_set_snoc.
    destruct (decide (ele ∈ U)) as [HU|HU]; [rewrite bool_decide_false by auto|rewrite bool_decide_true by done]; simpl.
    + finish. split_and!; try done. by replace (({[ele]} ∪ list_to_set l) ∖ U) with (list_to_set l ∖ U) by set_solver.
    + assert (ele ∉ list_to_set l ∖ U) as Hnew by set_solver. destruct Hacc1 as [Hr Hc].
      destruct (add_ok e (fst acc1) _ ele Hr) as (v' & -> & Hr' & _); [by eapply (small_subseteq X); [exact Hs|set_solver]|]. mstep.
      finish. split_and!; try done. replace (({[ele]} ∪ list_to_set l) ∖ U) with ({[ele]} ∪ (list_to_set l ∖ U)) by set_solver.
      split; [done|]. simpl. assert (small (list_to_set l ∖ U)) as Hsl by (eapply (small_subseteq X); [exact Hs|set_solver]). unfold small in Hsl.
      rewrite size_add, (bool_decide_false (ele ∈ _)), Hc, (sN_small 32) by (done || (unfold is_s; lia)). lia.
  - intros acc' m' evs n (l & _ & HX & [? Hacc'] & -> & ->). by rewrite HX in Hacc'.
Qed.

Lemma acc_empty acc D : acc_rep acc D -> (snd acc =? 0) = bool_decide (D = ∅).
Proof.
  intros [_ ->]. apply eq_true_iff_eq. rewrite Z.eqb_eq, bool_decide_eq_true. split.
  - intros Hz. apply leibniz_equiv, size_empty_inv. lia.
  - intros ->. by rewrite size_empty.
Qed.

(** The second: a set at a time *)
Lemma diff2_loop_ok e i x : forall sets m acc D,
  view m x -> Forall (opt_ok x) sets -> acc_rep acc D -> small D ->
  does i m (diff2_loop e i sets acc) (fun acc' m' evs n => acc_rep acc' (D ∖ union_of x sets) /\ view m' x /\ evs = [] /\ n = 0).
Proof.
  induction sets as [|[k|] sets IH]; intros m acc D Hv Hs Hacc Hsm; cbn [diff2_loop].
  - apply does_ret. unfold union_of. simpl. by rewrite difference_empty_L.
  - apply Forall_cons in Hs as [Hk Hs]. destruct (is_set_of x k) as (t & Hxk); [by apply Hk|]. rewrite union_of_cons in *. simpl opt_set in *.
    apply does_intro. intros s0 ms s Hat. run (remove_set_ok e i m x k _ t acc D Hv Hxk Hacc Hsm) acc1.
    destruct HQ as (Hacc1 & -> & -> & ->). rewrite (acc_empty _ _ Hacc1).
    replace (D ∖ (set_of x k ∪ union_of x sets)) with (D ∖ set_of x k ∖ union_of x sets) by set_solver. case_bool_decide as HD.
    + finish. split_and!; try done. rewrite HD in *. by replace (∅ ∖ union_of x sets) with (∅ : gset bytes) by set_solver.
    + tail_call (IH m acc1 _ Hv Hs Hacc1 (small_difference _ _ Hsm)) acc2.
      destruct HQ as (Hacc2 & Hv2 & -> & ->). by finish.
  - apply Forall_cons in Hs as [_ Hs]. rewrite union_of_none. by apply IH.
Qed.

Lemma size_at_view s0 ms i s m evs n x k :
  at_ s0 ms i s m evs n -> view m x -> is_set x k -> size_at i k s = Some (Z.of_nat (base.size (set_of x k))).
Proof.
  intros Hat Hv Hk. destruct (is_set_of _ _ Hk) as (t & Hxk). destruct (view_set _ _ _ _ _ Hv Hxk) as (v & Hm & Hr).
  destruct (load_ok _ _ _ _ _ _ _ k v t Hat Hm) as (v' & Hl & ->). unfold size_at. rewrite Hl. mstep. by apply size_ok.
Qed.
Lemma opt_sizes_ok s0 ms i s m evs n x : at_ s0 ms i s m evs n -> view m x -> forall sets,
  Forall (opt_ok x) sets -> exists sized, opt_sizes i sets s = Some sized /\ map fst sized = sets.
Proof.
  intros Hat Hv sets. induction sets as [|o sets IH]; intros Hs; [by exists []|]. apply Forall_cons in Hs as [Ho Hs].
  destruct (IH Hs) as (sized & HE & <-). cbn [opt_sizes].
  assert (exists z, size_or_0 i o s = Some z) as (z & ->).
  { destruct o as [k|]; simpl; [|eauto]. eexists. by apply (size_at_view _ _ _ _ _ _ _ x k Hat Hv), Ho. }
  mstep. rewrite HE. mstep. by eexists.
Qed.

(** Whichever algorithm is taken, the first set stays first and the others are those given. *)
Lemma select_algo_ok s0 ms i s m evs n x k others :
  at_ s0 ms i s m evs n -> view m x -> Forall (opt_ok x) (Some k :: others) ->
  exists algo others', select_algo i (Some k :: others) s = Some (algo, Some k :: others') /\ others' ≡ₚ others.
Proof.
  intros Hat Hv Hs. unfold select_algo. destruct (opt_sizes_ok _ _ _ _ _ _ _ x Hat Hv _ Hs) as (sized & -> & Hf). mstep.
  apply Forall_cons in Hs as [Hk _]. rewrite (size_at_view _ _ _ _ _ _ _ x k Hat Hv (Hk k eq_refl)). mstep.
  destruct (work _ sized 0 0) as [one two]. casif; eexists _, _; (split; [done|]); [|done].
  destruct sized as [|p sized]; [done|]. injection Hf as _ <-. simpl. rewrite drop_0. apply Permutation_map, qsort_perm.
Qed.

Definition diff_of x (sets : list (option bytes)) : gset bytes :=
  match sets with o :: others => opt_set x o ∖ union_of x others | [] => ∅ end.

Lemma diff_result_ok e i m x sets acc :
  view m x -> Forall (opt_ok x) sets -> acc_rep acc ∅ -> small (union_of x sets) ->
  does i m (diff_result e i sets acc) (fun acc' m' evs n => acc_rep acc' (diff_of x sets) /\ view m' x /\ evs = [] /\ n = 0).
Proof.
  intros Hv Hs Hacc Hsm. apply does_intro. intros s0 ms s Hat. unfold diff_result. destruct sets as [|[k|] others].
  { simpl. by finish. }
  2: { simpl. finish. by replace (∅ ∖ union_of x others) with (∅ : gset bytes) by set_solver. }
  destruct (select_algo_ok _ _ _ _ _ _ _ x k others Hat Hv Hs) as (algo & others' & -> & Hp). mstep.
  apply Forall_cons in Hs as [Hk Hs]. destruct (is_set_of x k) as (t & Hxk); [by apply Hk|]. rewrite union_of_cons in Hsm. simpl in *.
  rewrite <- (union_of_perm x _ _ Hp). rewrite <- Hp in Hs.
  assert (small (set_of x k)) as Hsk by (eapply small_subseteq; [exact Hsm|set_solver]). casif.
  - tail_call (diff1_ok e i m x k _ t others' acc Hv Hxk Hs Hacc Hsk) acc'. destruct HQ as (? & ? & -> & ->). by finish.
  - run (union_set_ok e i m x k _ t acc ∅ Hv Hxk Hacc ltac:(by rewrite union_empty_l_L)) acc1. rewrite union_empty_l_L in HQ.
    destruct HQ as (Hacc1 & -> & -> & ->). rewrite (acc_empty _ _ Hacc1). case_bool_decide as HD.
    + finish. split_and!; try done. rewrite HD in *. by replace (∅ ∖ union_of x others') with (∅ : gset bytes) by set_solver.
    + tail_call (diff2_loop_ok e i x others' m acc1 _ Hv Hs Hacc1 Hsk) acc2. destruct HQ as (? & ? & -> & ->). by finish.
Qed.

(** ** Intersection *)

Definition in_rest x (others : list bytes) (ele : bytes) : Prop := Forall (fun k => ele ∈ set_of x k) others.

Definition inter_acc (store : bool) (acc : list bytes * value) (dst : value) (l : list bytes) : Prop :=
  if store then fst acc = [] /\ set_rep (snd acc) (list_to_set l) else fst acc = l /\ snd acc = dst.

Lemma inter_body_ok e i m x k X t others store acc dst :
  view m x -> x !! k = Some (ASet X, t) -> Forall (is_set x) others -> acc = ([], dst) -> set_rep dst ∅ -> small X ->
  does i m (for_each i k (inter_body e i k others store) acc) (fun acc' m' evs n =>
    exists l, NoDup l /\ list_to_set l = X /\ inter_acc store acc' dst (filter (in_rest x others) l) /\ view m' x /\ evs = [] /\ n = 0).
Proof.
  intros Hv Hk Ho -> Hdst Hs.
  eapply does_impl; [apply (for_each_ok i k X t (fun l acc m' => view m' x /\ inter_acc store acc dst (filter (in_rest x others) l)) _ ([], dst) m x Hv Hk)|].
  - split; [done|]. by destruct store.
  - intros v l ele el [out d] m1 [Hv1 Hacc1] Hm Hel Hin Hni Hsub. apply does_intro. intros s0 ms s Hat. unfold inter_body.
    run (in_all_ok i x k v t el ele Hel others m1 Hv1 Hm Ho) b. destruct HQ as (-> & Hv' & Hm' & -> & ->).
    assert (bool_decide (Forall (fun k' => k' = k \/ ele ∈ set_of x k') others) = bool_decide (in_rest x others ele)) as ->.
    { apply bool_decide_ext. apply Forall_iff. intros k'. split; [|auto]. intros [->|]; [|done]. unfold set_of. by rewrite Hk. }
    rewrite filter_app, filter_cons, filter_nil.
    destruct (decide (in_rest x others ele)) as [HR|HR]; [rewrite bool_decide_true by done|rewrite bool_decide_false by done]; simpl.
    + rewrite (element_string _ _ _ Hel). mstep. unfold inter_acc in *. destruct store; simpl in *.
      * destruct Hacc1 as [-> Hr]. rewrite list_to_set_snoc.
        destruct (add_ok e d _ ele Hr) as (d' & -> & Hr' & _).
        { eapply (small_subseteq X); [exact Hs|]. intros y. rewrite elem_of_list_to_set, list_elem_of_filter. set_solver. }
        mstep. finish. by split_and!.
      * destruct Hacc1 as [-> ->]. finish. by split_and!.
    + rewrite app_nil_r. by finish.
  - intros acc' m' evs n (l & Hnd & HX & [? Hacc'] & -> & ->). eauto 10.
Qed.

Lemma with_sizes_ok s0 xs i s x evs n : at_ s0 xs i s x evs n -> forall keys,
  Forall (is_set x) keys -> exists sized, with_sizes i keys s = Some sized /\ map fst sized = keys.
Proof.
  intros Hat keys. induction keys as [|k keys IH]; intros Hs; [by exists []|]. apply Forall_cons in Hs as [(X & t & Hk) Hs].
  destruct (IH Hs) as (sized & HE & <-). cbn [with_sizes]. rewrite (size_at_ok _ _ _ _ _ _ _ k X t Hat Hk). mstep.
  rewrite HE. mstep. by eexists.
Qed.

(** ** The elements of the result *)

Lemma elements_loop_ok v l : forall fuel si, iterating si v l -> (length l <= fuel)%nat -> elements_loop fuel si v = Some l.
Proof.
  induction l as [|ele l IH]; intros fuel si Hit Hf; destruct (next_iter si v _ Hit) as (o & si' & HE & Ho);
    destruct fuel as [|fuel]; try (simpl in Hf; lia); cbn [elements_loop]; unfold setTypeNextObject; rewrite HE; mstep.
  1, 2: by subst o.
  destruct Ho as (el & -> & Hel & Hit'). rewrite (element_string _ _ _ Hel). mstep. rewrite (IH fuel si' Hit') by (simpl in Hf; lia). done.
Qed.
Lemma elements_ok v X : set_rep v X -> exists l, elements v = Some l /\ NoDup l /\ list_to_set l = X.
Proof.
  intros Hr. destruct (init_iter v X Hr) as (si & l & Hsi & Hit & Hnd & HX). exists l. split; [|done]. unfold elements.
  rewrite Hsi. mstep. rewrite (size_ok _ _ Hr). mstep. apply elements_loop_ok; [done|]. rewrite <- HX, size_list_to_set by done. lia.
Qed.
End SetOps.
