(* ===== verification/SetCmdSpec.v ===== *)
(** * Contracts of the set commands

    The commands of t_set.c on a keyspace whose values are finite sets of strings, whatever the
    encodings the sets have and acquire on the way. *)

From Stdlib Require Import ZArith Lia String.
From stdpp Require Import base numbers option fin_sets fin_maps gmap list.
From S2P Require Import Prelude Memory Endian Intset Util Sds SdsNumber Server Dict DictFacts DictSpec DictIter Keyspace KeyspaceFacts KeyspaceSpec SetType SetTypeFacts SetCmd SetCmdFacts.

Local Open Scope Z_scope.
Local Open Scope redis_scope.

Section Spec.
Context `{!Host, !Alloc, !dictType bytes, !DictTypeOk bytes, !Qsort, !QsortOk}.
Implicit Types (e : kenv) (i : nat) (k : bytes) (s : keyspace value) (x : absdb absval) (X : gset bytes).
#[local] Existing Instance abs_rep.

(** No key holds an empty set. *)
Definition nonempty x : Prop := forall k X t, x !! k = Some (ASet X, t) -> X <> ∅.

Definition card X : Z := Z.of_nat (base.size X).

Lemma nonempty_delete x k : nonempty x -> nonempty (delete k x).
Proof. intros Hx k' X t [_ Hk]%lookup_delete_Some. by eapply Hx. Qed.
Lemma nonempty_insert x k X t : nonempty x -> X <> ∅ -> nonempty (<[k := (ASet X, t)]> x).
Proof. intros Hx HX k' X' t' [[_ [= -> _]] | [_ Hk]]%lookup_insert_Some; [done|by eapply Hx]. Qed.
Lemma nonempty_purge e x k : nonempty x -> nonempty (purge e x k).
Proof. intros Hx. unfold purge. destruct (purges e x k); [by apply nonempty_delete|done]. Qed.

(** ** One element of a set *)

Lemma set_add_ok e i x k X t ele :
  x !! k = Some (ASet X, t) -> card X + 1 < 2 ^ 29 ->
  does i x (on_set i k (fun v => setTypeAdd e v ele)) (fun r x' evs n =>
    r = bool_decide (ele ∉ X) /\ x' = <[k := (ASet ({[ ele ]} ∪ X), t)]> x /\ evs = [] /\ n = 0).
Proof.
  intros Hk Hs. apply (on_set_ok i x k X t _ _ _ Hk). intros v Hv.
  destruct (add_ok e v X ele Hv Hs) as (v' & -> & Hv' & _). eauto.
Qed.
Lemma set_remove_ok e i x k X t ele :
  x !! k = Some (ASet X, t) -> card X < 2 ^ 58 ->
  does i x (on_set i k (fun v => setTypeRemove e v ele)) (fun r x' evs n =>
    r = bool_decide (ele ∈ X) /\ x' = <[k := (ASet (X ∖ {[ ele ]}), t)]> x /\ evs = [] /\ n = 0).
Proof.
  intros Hk Hs. apply (on_set_ok i x k X t _ _ _ Hk). intros v Hv.
  destruct (remove_ok e v X ele Hv Hs) as (v' & -> & Hv' & _). eauto.
Qed.
Lemma set_member_ok i x k X t ele :
  x !! k = Some (ASet X, t) ->
  does i x (on_set i k (fun v => setTypeIsMember v ele)) (fun r x' evs n =>
    r = bool_decide (ele ∈ X) /\ x' = x /\ evs = [] /\ n = 0).
Proof.
  intros Hk. eapply does_impl; [apply (on_set_ok i x k X t X (fun r => r = bool_decide (ele ∈ X)) _ Hk)|].
  - intros v Hv. destruct (member_ok v X ele Hv) as (v' & -> & Hv'). eauto.
  - intros r x' evs n (-> & -> & -> & ->). by rewrite insert_id.
Qed.

(** ** SADD *)

Definition sadd_spec e x k (members : list bytes) : absdb absval * reply :=
  let x := purge e x k in
  match x !! k with
  | Some (AOther _, _) => (x, ReplyWrongType)
  | Some (ASet X, t) => (<[k := (ASet (list_to_set members ∪ X), t)]> x, ReplyInt (card (list_to_set members ∖ X)))
  | None => (<[k := (ASet (list_to_set members), None)]> x, ReplyInt (card (list_to_set members)))
  end.

Lemma sadd_loop_ok e i k t : forall members x X c,
  x !! k = Some (ASet X, t) -> card X + zlen members < 2 ^ 29 ->
  does i x (sadd_loop e i k members c) (fun r x' evs n =>
    r = c + card (list_to_set members ∖ X) /\ x' = <[k := (ASet (list_to_set members ∪ X), t)]> x /\ evs = [] /\ n = 0).
Proof.
  induction members as [|ele members IH]; intros x X c Hk Hs; cbn [sadd_loop]; apply does_intro; intros s0 ms s Hat.
  - finish. split_and!; try done; [|rewrite union_empty_l_L, insert_id by done; done].
    unfold card. replace (∅ ∖ X) with (∅ : gset bytes) by set_solver. rewrite size_empty. lia.
  - rewrite zlen_cons in Hs. pose proof (zlen_nonneg members). unfold card in Hs.
    assert (card X + 1 < 2 ^ 29) as Hs1 by (unfold card; lia). run (set_add_ok e i x k X t ele Hk Hs1) r. destruct HQ as (-> & -> & -> & ->).
    assert (card ({[ ele ]} ∪ X) + zlen members < 2 ^ 29) as Hs'.
    { unfold card. rewrite size_add. case_bool_decide; lia. }
    tail_call (IH _ ({[ ele ]} ∪ X) (if bool_decide (ele ∉ X) then c + 1 else c) (lookup_insert_eq x k (ASet ({[ ele ]} ∪ X), t)) Hs') r.
    destruct HQ as (-> & -> & -> & ->). finish. rewrite insert_insert_eq. split_and!; try done.
    + destruct (decide (ele ∈ X)) as [Hin|Hin]; [rewrite bool_decide_false by auto|rewrite bool_decide_true by done].
      * replace ({[ ele ]} ∪ X) with X by set_solver. by replace (({[ele]} ∪ list_to_set members) ∖ X) with (list_to_set members ∖ X) by set_solver.
      * replace (({[ele]} ∪ list_to_set members) ∖ X) with ({[ele]} ∪ list_to_set members ∖ ({[ele]} ∪ X)).
        -- unfold card. rewrite size_add, bool_decide_false by set_solver. lia.
        -- apply set_eq. intros y. destruct (decide (y = ele)); set_solver.
    + do 3 f_equal. set_solver.
Qed.

Lemma card_empty : card ∅ = 0.
Proof. unfold card. by rewrite size_empty. Qed.
Lemma card_pos X : X <> ∅ -> 0 < card X.
Proof.
  intros HX. unfold card. assert (base.size X <> 0%nat); [|lia]. intros E. by apply HX, leibniz_equiv, size_empty_inv.
Qed.
Lemma card_0 X : card X <= 0 -> X = ∅.
Proof. intros Hc. destruct (decide (X = ∅)) as [|HX]; [done|]. apply card_pos in HX. lia. Qed.

Lemma sadd_finish_ok e i k t members x X :
  x !! k = Some (ASet X, t) -> card X + zlen members < 2 ^ 29 ->
  does i x (unit_of (sadd_finish e i k members)) (fun _ x' evs n =>
    x' = <[k := (ASet (list_to_set members ∪ X), t)]> x /\ replies evs = [ReplyInt (card (list_to_set members ∖ X))] /\
    n = card (list_to_set members ∖ X) /\ (0 < n -> ModifiedKey i k ∈ evs)).
Proof.
  intros Hk Hs. apply does_intro. intros s0 ms s Hat. unfold unit_of, sadd_finish. run (sadd_loop_ok e i k t members x X 0 Hk Hs) r.
  destruct HQ as (-> & -> & -> & ->). rewrite Z.add_0_l, Z.gtb_ltb. casif; finish; split_and!; try done; [set_solver|lia].
Qed.

Lemma sadd_ok e i x k first rest :
  room x -> (forall X t, x !! k = Some (ASet X, t) -> card X + zlen (first :: rest) < 2 ^ 29) -> zlen (first :: rest) < 2 ^ 29 ->
  does i x (unit_of (saddCommand e i k first rest)) (fun _ x' evs n =>
    x' = fst (sadd_spec e x k (first :: rest)) /\ replies evs = [snd (sadd_spec e x k (first :: rest))] /\ signalled i x x' evs n).
Proof.
  intros Hroom Hs Hl. apply does_intro. intros s0 ms s Hat. unfold unit_of, saddCommand, lookupKeyWrite, sadd_spec.
  set (members := first :: rest) in *.
  assert (list_to_set members <> (∅ : gset bytes)) as Hne by (subst members; set_solver). clearbody members. run (lookupKeyWrite_ok e i x k LOOKUP_NONE) o. destruct HQ as (Ho & -> & -> & ->).
  destruct (purge e x k !! k) as [[[X|ty] t]|] eqn:Ek, o as [o|]; try done; simpl in Ho.
  - rewrite (wrong_type_rep o (ASet X)) by done. assert (x !! k = Some (ASet X, t)) as Hx.
    { rewrite purge_lookup in Ek. by destruct (purges e x k). }
    exec (sadd_finish_ok e i k t members (purge e x k) X Ek (Hs X t Hx)). destruct HQ as (-> & Hr & -> & Hm). finish. split_and!; try done.
    + by rewrite replies_app, purge_replies.
    + destruct (decide (0 < card (list_to_set members ∖ X))) as [Hpos|Hz].
      * apply (signalled_one i x k); [done|set_solver|]. intros k' Hk'. by rewrite lookup_insert_ne, purge_ne.
      * assert (list_to_set members ∪ X = X) as ->.
        { assert (list_to_set members ∖ X = ∅) as HE by (apply card_0; lia).
          apply subseteq_union_1_L. intros y Hy. destruct (decide (y ∈ X)); set_solver. }
        rewrite insert_id by done. eapply signalled_sub; [|apply list_subseteq_app_l; reflexivity].
        replace (card _) with 0; [apply purge_signalled|]. unfold card in *. lia.
  - rewrite (wrong_type_rep o (AOther ty)) by done. simpl. finish. rewrite replies_app, purge_replies. split_and!; try done.
    apply signalled_app, purge_signalled.
  - destruct (create_ok first) as (v & -> & Hv & _). mstep.
    exec (dbAdd_ok e i (purge e x k) k (createObject e v) (ASet ∅) Ek (room_purge _ _ _ Hroom) Hv). destruct HQ as (-> & -> & ->).
    assert (card ∅ + zlen members < 2 ^ 29) as Hs0 by (unfold card; rewrite size_empty; lia).
    exec (sadd_finish_ok e i k None members _ ∅ (lookup_insert_eq (purge e x k) k (ASet ∅, None)) Hs0). destruct HQ as (-> & Hr & -> & Hm). finish.
    rewrite union_empty_r_L, difference_empty_L in *. rewrite insert_insert_eq.
    assert (0 < card (list_to_set members)) as Hpos by (by apply card_pos). split_and!; try done.
    + by rewrite !replies_app, purge_replies, add_replies.
    + apply (signalled_one i x k); [done|set_solver|]. intros k' Hk'. by rewrite lookup_insert_ne, purge_ne.
Qed.

(** ** SREM *)

(** A set, or no key at all when it is empty *)
Definition put_set x k X (t : option Z) : absdb absval := if decide (X = ∅) then delete k x else <[k := (ASet X, t)]> x.

Lemma put_set_ne x k X t k' : k' <> k -> put_set x k X t !! k' = x !! k'.
Proof. intros Hne. unfold put_set. case_decide; [by rewrite lookup_delete_ne|by rewrite lookup_insert_ne]. Qed.
Lemma nonempty_put x k X t : nonempty x -> nonempty (put_set x k X t).
Proof. intros Hx. unfold put_set. case_decide; [by apply nonempty_delete|by apply nonempty_insert]. Qed.
Lemma put_set_insert x k p X t : put_set (<[k := p]> x) k X t = put_set x k X t.
Proof. unfold put_set. case_decide; [by rewrite delete_insert_eq|by rewrite insert_insert_eq]. Qed.

Definition srem_spec e x k (members : list bytes) : absdb absval * reply :=
  let x := purge e x k in
  match x !! k with
  | Some (AOther _, _) => (x, ReplyWrongType)
  | Some (ASet X, t) => (put_set x k (X ∖ list_to_set members) t, ReplyInt (card (X ∩ list_to_set members)))
  | None => (x, ReplyInt 0)
  end.

Lemma set_diff_0 X : X ∖ ∅ = X.
Proof. set_solver. Qed.
Lemma set_inter_0 X : X ∩ ∅ = ∅.
Proof. set_solver. Qed.
Lemma set_0_diff X : ∅ ∖ X = ∅.
Proof. set_solver. Qed.
Lemma diff_cons X ele (l : list bytes) : X ∖ list_to_set (ele :: l) = X ∖ {[ele]} ∖ list_to_set l.
Proof. set_solver. Qed.
Lemma inter_cons_in X ele (l : list bytes) : ele ∈ X -> X ∩ list_to_set (ele :: l) = {[ele]} ∪ (X ∖ {[ele]}) ∩ list_to_set l.
Proof. intros Hin. apply set_eq. intros y. destruct (decide (y = ele)); set_solver. Qed.
Lemma inter_cons_out X ele (l : list bytes) : ele ∉ X -> X ∩ list_to_set (ele :: l) = X ∩ list_to_set l.
Proof. set_solver. Qed.
Lemma diff_inter X Y : X ∩ Y = ∅ -> X ∖ Y = X.
Proof. set_solver. Qed.
Lemma card_remove X ele : ele ∈ X -> card (X ∖ {[ ele ]}) = card X - 1.
Proof. intros Hin. unfold card. by rewrite size_remove, bool_decide_true. Qed.
Lemma card_add X ele : ele ∉ X -> card ({[ ele ]} ∪ X) = card X + 1.
Proof. intros Hin. unfold card. rewrite size_add, bool_decide_false by done. lia. Qed.
Lemma card_eqb X : (card X =? 0) = bool_decide (X = ∅).
Proof.
  apply eq_true_iff_eq. rewrite Z.eqb_eq, bool_decide_eq_true. split; [intros Hc; apply card_0; lia|].
  intros ->. unfold card. by rewrite size_empty.
Qed.

Lemma srem_loop_ok e i k t : forall members x X c,
  x !! k = Some (ASet X, t) -> X <> ∅ -> card X < 2 ^ 58 ->
  does i x (srem_loop e i k members c) (fun r x' evs n =>
    r = (c + card (X ∩ list_to_set members), bool_decide (X ∖ list_to_set members = ∅)) /\
    x' = put_set x k (X ∖ list_to_set members) t /\ replies evs = [] /\ n = 0).
Proof.
  induction members as [|ele members IH]; intros x X c Hk HX Hs; cbn [srem_loop]; apply does_intro; intros s0 ms s Hat.
  - change (list_to_set []) with (∅ : gset bytes). rewrite set_diff_0, set_inter_0. finish. rewrite bool_decide_false by done. unfold put_set.
    rewrite decide_False, insert_id by done. split_and!; try done. unfold card. rewrite size_empty. f_equal. lia.
  - run (set_remove_ok e i x k X t ele Hk Hs) r. destruct HQ as (-> & -> & -> & ->). rewrite diff_cons.
    destruct (decide (ele ∈ X)) as [Hin|Hin]; [rewrite bool_decide_true by done|rewrite bool_decide_false by done]; simpl negb; cbv match.
    + rewrite inter_cons_in by done. set (X' := X ∖ {[ ele ]}) in *. assert (<[k := (ASet X', t)]> x !! k = Some (ASet X', t)) as Hk' by apply lookup_insert_eq.
      rewrite (size_at_ok _ _ _ _ _ _ _ k X' t Hat1 Hk'). mstep. fold (card X'). rewrite card_eqb. case_bool_decide as HE.
      * unfold dbDelete. run (delete_ok e (lazyfree_lazy_server_del e) i (<[k := (ASet X', t)]> x) k) d. destruct HQ as (-> & -> & -> & ->). finish.
        rewrite HE. rewrite set_0_diff. rewrite bool_decide_true by done.
        rewrite delete_insert_eq. split_and!; try done.
        -- f_equal. f_equal. replace (∅ ∩ list_to_set members) with (∅ : gset bytes) by set_solver +.
           rewrite card_add by set_solver +. unfold card. by rewrite size_empty.
        -- rewrite lookup_insert_eq. apply slot_del_replies.
      * assert (card X' < 2 ^ 58) as Hs' by (subst X'; rewrite card_remove by done; lia).
        tail_call (IH _ X' (c + 1) Hk' HE Hs') r. destruct HQ as (-> & -> & Hr & ->). finish. rewrite put_set_insert. split_and!; try done.
        f_equal. rewrite card_add by (subst X'; set_solver +). lia.
    + rewrite inter_cons_out by done. assert (X ∖ {[ele]} = X) as HE by set_solver +Hin. rewrite HE, insert_id in Hat1 by done.
      tail_call (IH x X c Hk HX Hs) r. destruct HQ as (-> & -> & Hr & ->). finish. rewrite HE. by split_and!.
Qed.

Lemma srem_ok e i x k members :
  nonempty x -> (forall X t, x !! k = Some (ASet X, t) -> card X < 2 ^ 58) ->
  does i x (unit_of (sremCommand e i k members)) (fun _ x' evs n =>
    x' = fst (srem_spec e x k members) /\ replies evs = [snd (srem_spec e x k members)] /\ signalled i x x' evs n).
Proof.
  intros Hx Hs. apply does_intro. intros s0 ms s Hat. unfold unit_of, sremCommand, lookupKeyWriteOrReply, lookupKeyWrite, srem_spec.
  run (lookupKeyWrite_ok e i x k LOOKUP_NONE) o. destruct HQ as (Ho & -> & -> & ->).
  destruct (purge e x k !! k) as [[[X|ty] t]|] eqn:Ek, o as [o|]; try done; simpl in Ho; simpl.
  - rewrite (wrong_type_rep o (ASet X)) by done. assert (x !! k = Some (ASet X, t)) as Hk.
    { rewrite purge_lookup in Ek. by destruct (purges e x k). }
    run (srem_loop_ok e i k t members (purge e x k) X 0 Ek (Hx _ _ _ Hk) (Hs X t Hk)) r. destruct r as [d kr].
    destruct HQ as ([= -> ->] & -> & Hr & ->). rewrite Z.add_0_l, Z.gtb_ltb. casif.
    + destruct (bool_decide _); finish; (split_and!; [done|by rewrite !replies_app, purge_replies, Hr|]);
        (apply (signalled_one i x k); [done|set_solver|]); intros k' Hk'; by rewrite put_set_ne, purge_ne.
    + assert (X ∩ list_to_set members = ∅) as HE by (apply card_0; lia). apply diff_inter in HE. rewrite HE in *.
      assert (put_set (purge e x k) k X t = purge e x k) as Hp.
      { unfold put_set. rewrite decide_False by (by eapply Hx). by apply insert_id. }
      rewrite Hp in *. finish. split_and!; [done|by rewrite !replies_app, purge_replies, Hr|].
      eapply signalled_sub; [apply (purge_signalled e)|set_solver].
  - rewrite (wrong_type_rep o (AOther ty)) by done. finish. rewrite replies_app, purge_replies. split_and!; try done.
    apply signalled_app, purge_signalled.
  - finish. rewrite replies_app, purge_replies. split_and!; try done. apply signalled_app, purge_signalled.
Qed.

(** ** SISMEMBER and SCARD *)

Definition read_spec e x k (f : gset bytes -> Z) : reply :=
  match visible e (x !! k) with
  | Some (AOther _, _) => ReplyWrongType
  | Some (ASet X, _) => ReplyInt (f X)
  | None => ReplyInt 0
  end.

Lemma sismember_ok e i x k ele :
  does i x (unit_of (sismemberCommand e i k ele)) (fun _ x' evs n =>
    x' = purge e x k /\ replies evs = [read_spec e x k (fun X => b2z (bool_decide (ele ∈ X)))] /\ signalled i x x' evs n).
Proof.
  apply does_intro. intros s0 ms s Hat. unfold unit_of, sismemberCommand, lookupKeyReadOrReply, lookupKeyRead, read_spec.
  run (lookupKeyRead_ok e i x k LOOKUP_NONE) o. destruct HQ as (Ho & -> & -> & ->).
  destruct (visible e (x !! k)) as [[[X|ty] t]|] eqn:Ev, o as [o|]; try done; simpl in Ho; simpl.
  - rewrite (wrong_type_rep o (ASet X)) by done. destruct (visible_kept _ _ _ _ Ev) as [Hp Hk]. rewrite <- Hp in Hk.
    run (set_member_ok i (purge e x k) k X t ele Hk) r. destruct HQ as (-> & -> & -> & ->).
    finish. rewrite !replies_app, purge_replies. split_and!; try done. apply signalled_app, purge_signalled.
  - rewrite (wrong_type_rep o (AOther ty)) by done. finish. rewrite !replies_app, purge_replies. split_and!; try done.
    apply signalled_app, purge_signalled.
  - finish. rewrite !replies_app, purge_replies. split_and!; try done. apply signalled_app, purge_signalled.
Qed.

Lemma scard_ok e i x k :
  does i x (unit_of (scardCommand e i k)) (fun _ x' evs n =>
    x' = purge e x k /\ replies evs = [read_spec e x k card] /\ signalled i x x' evs n).
Proof.
  apply does_intro. intros s0 ms s Hat. unfold unit_of, scardCommand, lookupKeyReadOrReply, lookupKeyRead, read_spec.
  run (lookupKeyRead_ok e i x k LOOKUP_NONE) o. destruct HQ as (Ho & -> & -> & ->).
  destruct (visible e (x !! k)) as [[[X|ty] t]|] eqn:Ev, o as [o|]; try done; simpl in Ho; simpl.
  - rewrite (wrong_type_rep o (ASet X)) by done. destruct (visible_kept _ _ _ _ Ev) as [Hp Hk]. rewrite <- Hp in Hk.
    rewrite (size_at_ok _ _ _ _ _ _ _ k X t Hat1 Hk). mstep.
    finish. rewrite !replies_app, purge_replies. split_and!; try done. apply signalled_app, purge_signalled.
  - rewrite (wrong_type_rep o (AOther ty)) by done. finish. rewrite !replies_app, purge_replies. split_and!; try done.
    apply signalled_app, purge_signalled.
  - finish. rewrite !replies_app, purge_replies. split_and!; try done. apply signalled_app, purge_signalled.
Qed.

(** ** SMOVE *)

Definition smove_spec e x (src dst ele : bytes) : absdb absval * reply :=
  let x1 := purge e x src in
  let x := purge e x1 dst in
  match x1 !! src, x !! dst with
  | None, _ => (x, ReplyInt 0)
  | Some (AOther _, _), _ | _, Some (AOther _, _) => (x, ReplyWrongType)
  | Some (ASet A, t), d =>
      if decide (src = dst) then (x, ReplyInt (b2z (bool_decide (ele ∈ A)))) else
      if decide (ele ∈ A) then
        let '(D, td) := match d with Some (ASet D, td) => (D, td) | _ => (∅, None) end in
        (<[dst := (ASet ({[ ele ]} ∪ D), td)]> (put_set x src (A ∖ {[ ele ]}) t), ReplyInt 1)
      else (x, ReplyInt 0)
  end.

Lemma room_put x k X t : room x -> is_Some (x !! k) -> room (put_set x k X t).
Proof.
  intros Hr Hk. apply (room_sub x); [done|]. intros k' Hk'. destruct (decide (k' = k)) as [->|Hne]; [done|].
  by rewrite put_set_ne in Hk'.
Qed.

(** The source gives up the element; its key goes with the last one. *)
Lemma smove_source_ok e i x src A t ele :
  x !! src = Some (ASet A, t) -> card A < 2 ^ 58 ->
  does i x (smove_source e i src ele) (fun r x' evs n =>
    r = bool_decide (ele ∈ A) /\ x' = (if r then put_set x src (A ∖ {[ ele ]}) t else x) /\ replies evs = [] /\ n = 0).
Proof.
  intros Hk Hs. apply does_intro. intros s0 ms s Hat. unfold smove_source. run (set_remove_ok e i x src A t ele Hk Hs) r.
  destruct HQ as (-> & -> & -> & ->). case_bool_decide as Hin; cbn [negb].
  2: { assert (A ∖ {[ ele ]} = A) as HE by set_solver +Hin. rewrite HE, insert_id in Hat1 by done. by finish. }
  set (A' := A ∖ {[ ele ]}) in *. eassert (at_ _ _ _ (notifyKeyspaceEvent "srem" src i s') _ _ _) as Hat' by find_state.
  rewrite (size_at_ok _ _ _ _ _ _ _ src A' t Hat' (lookup_insert_eq _ _ _)). mstep. fold (card A'). rewrite card_eqb. unfold put_set.
  case_bool_decide as HE.
  - unfold dbDelete. run (delete_ok e (lazyfree_lazy_server_del e) i (<[src := (ASet A', t)]> x) src) d. destruct HQ as (-> & -> & -> & ->).
    finish. rewrite decide_True, delete_insert_eq by done. split_and!; try done.
    rewrite lookup_insert_eq. change (replies (slot_del e src ++ [Notify "del" src i]) = []). by rewrite replies_app, slot_del_replies.
  - finish. by rewrite decide_False.
Qed.

Lemma card_58 X : card X + 1 < 2 ^ 29 -> card X < 2 ^ 58.
Proof. lia. Qed.

Lemma smove_dest_ok e i x src dst ele o D td :
  room x ->
  match o with Some _ => x !! dst = Some (ASet D, td) /\ card D + 1 < 2 ^ 29 | None => x !! dst = None /\ D = ∅ /\ td = None end ->
  does i x (unit_of (smove_dest e i src dst ele o)) (fun _ x' evs n =>
    x' = <[dst := (ASet ({[ ele ]} ∪ D), td)]> x /\ replies evs = [ReplyInt 1] /\ 0 < n /\
    ModifiedKey i src ∈ evs /\ ModifiedKey i dst ∈ evs).
Proof.
  intros Hroom Ho. apply does_intro. intros s0 ms s Hat. unfold unit_of, smove_dest.
  assert (exists s1 evs1 x1, match o with
      | None => let! v := setTypeCreate ele in dbAdd e i dst (createObject e v) s
      | Some _ => Some s
      end = Some s1 /\ at_ s0 ms i s1 x1 evs1 0 /\ replies evs1 = [] /\ x1 !! dst = Some (ASet D, td) /\ card D + 1 < 2 ^ 29 /\
      (forall p, <[dst := p]> x1 = <[dst := p]> x)) as (s1 & evs1 & x1 & -> & Hat1 & Hr1 & Hd & Hs & Hx1).
  { destruct o as [o|]; [destruct Ho as [Hd Hs]; by exists s, [], x|]. destruct Ho as (Hd & -> & ->).
    destruct (create_ok ele) as (v & -> & Hv & _). mstep.
    destruct (at_exec _ _ _ _ _ _ _ _ _ (dbAdd_ok e i x dst (createObject e v) (ASet ∅) Hd Hroom Hv) Hat)
      as (s1 & x1 & evs1 & n1 & -> & Hat1 & -> & -> & ->).
    eexists s1, _, _. split; [done|]. split; [exact Hat1|]. split_and!; [apply add_replies|apply lookup_insert_eq| |].
    - unfold card. by rewrite size_empty.
    - intros p. by rewrite insert_insert_eq. }
  mstep. run (set_add_ok e i x1 dst D td ele Hd Hs) r. destruct HQ as (-> & -> & -> & ->). rewrite Hx1 in *.
  case_bool_decide; finish; rewrite ?replies_app, Hr1; split_and!; try done; set_solver.
Qed.

Lemma smove_ok e i x src dst ele :
  room x -> (forall k X t, x !! k = Some (ASet X, t) -> card X + 1 < 2 ^ 29) ->
  does i x (unit_of (smoveCommand e i src dst ele)) (fun _ x' evs n =>
    x' = fst (smove_spec e x src dst ele) /\ replies evs = [snd (smove_spec e x src dst ele)] /\ signalled i x x' evs n).
Proof.
  intros Hroom Hs. apply does_intro. intros s0 ms s Hat. unfold unit_of, smoveCommand, lookupKeyWrite, smove_spec.
  run (lookupKeyWrite_ok e i x src LOOKUP_NONE) so. destruct HQ as (Hso & -> & -> & ->). set (x1 := purge e x src) in *.
  run (lookupKeyWrite_ok e i x1 dst LOOKUP_NONE) do. destruct HQ as (Hdo & -> & -> & ->). set (x2 := purge e x1 dst) in *.
  assert (forall evs, signalled i x x2 (([] ++ purge_events e i x src) ++ purge_events e i x1 dst ++ evs) 0) as Hsig.
  { intros evs. rewrite app_assoc. apply signalled_app. apply (signalled_trans i x x1 x2 _ _ 0 0); apply purge_signalled. }
  assert (forall k p, x2 !! k = Some p -> x !! k = Some p) as Hold.
  { intros k p Hk. destruct (purge_mono e x1 dst k) as [E|E]; fold x2 in E; [|congruence]. rewrite E in Hk.
    destruct (purge_mono e x src k) as [E'|E']; fold x1 in E'; congruence. }
  destruct (x1 !! src) as [[[A|ty] t]|] eqn:Es, so as [so|]; try done; simpl in Hso.
  2: { rewrite (wrong_type_rep so (AOther ty)) by done. destruct (x2 !! dst); finish; rewrite !replies_app, !purge_replies; split_and!; try done; apply Hsig. }
  2: { finish. rewrite !replies_app, !purge_replies. split_and!; try done; apply Hsig. }
  rewrite (wrong_type_rep so (ASet A)) by done. assert (x2 !! src = Some (ASet A, t)) as Hsrc.
  { destruct (decide (src = dst)) as [<-|Hne]; [subst x2 x1; by rewrite purge_purge|]. subst x2. by rewrite purge_ne. }
  pose proof (Hs _ _ _ (Hold _ _ Hsrc)) as HA.
  assert (room x2) as Hroom2 by by apply room_purge, room_purge.
  assert (forall p q evs n, 0 < n -> ModifiedKey i src ∈ evs -> ModifiedKey i dst ∈ evs ->
    signalled i x (<[dst := p]> (put_set x2 src q t)) evs n) as Hsig2.
  { intros p q evs n Hn H1' H2'. apply signalled_dirty; [done|]. intros k Hk.
    destruct (decide (k = src)) as [->|]; [done|]. destruct (decide (k = dst)) as [->|]; [done|]. destruct Hk.
    rewrite lookup_insert_ne, put_set_ne by done. subst x2 x1. by rewrite !purge_ne. }
  destruct (x2 !! dst) as [[[D|ty] td]|] eqn:Ed, do as [do|]; try done; simpl in Hdo;
    [rewrite (wrong_type_rep do (ASet D)) by done|rewrite (wrong_type_rep do (AOther ty)) by done|].
  2: { finish. rewrite !replies_app, !purge_replies. split_and!; try done; apply Hsig. }
  - destruct (decide (src = dst)) as [Heq|Hne]; [rewrite bool_decide_true by done|rewrite bool_decide_false by done].
    { run (set_member_ok i x2 src A t ele Hsrc) r. destruct HQ as (-> & -> & -> & ->). finish.
      rewrite !replies_app, !purge_replies. split_and!; try done; apply Hsig. }
    run (smove_source_ok e i x2 src A t ele Hsrc (card_58 _ HA)) r. destruct HQ as (-> & -> & Hr & ->). case_bool_decide as Hin; simpl negb; cbv match.
    2: { finish. rewrite decide_False by done. rewrite !replies_app, !purge_replies, Hr. split_and!; try done; apply Hsig. }
    rewrite decide_True by done. assert (put_set x2 src (A ∖ {[ele]}) t !! dst = Some (ASet D, td)) as Hd by by rewrite put_set_ne.
    exec (smove_dest_ok e i _ src dst ele (Some do) D td (room_put _ _ _ _ Hroom2 (mk_is_Some _ _ Hsrc)) (conj Hd (Hs _ _ _ (Hold _ _ Ed)))).
    destruct HQ as (-> & Hr' & Hn & Hm & Hm'). finish. rewrite !replies_app, !purge_replies, Hr, Hr'. split_and!; try done.
    apply Hsig2; [done|set_solver..].
  - destruct (decide (src = dst)) as [Heq|Hne]; [congruence|rewrite bool_decide_false by done].
    run (smove_source_ok e i x2 src A t ele Hsrc (card_58 _ HA)) r. destruct HQ as (-> & -> & Hr & ->). case_bool_decide as Hin; simpl negb; cbv match.
    2: { finish. rewrite decide_False by done. rewrite !replies_app, !purge_replies, Hr. split_and!; try done; apply Hsig. }
    rewrite decide_True by done. assert (put_set x2 src (A ∖ {[ele]}) t !! dst = None) as Hd by by rewrite put_set_ne.
    exec (smove_dest_ok e i _ src dst ele None ∅ None (room_put _ _ _ _ Hroom2 (mk_is_Some _ _ Hsrc)) (conj Hd (conj eq_refl eq_refl))).
    destruct HQ as (-> & Hr' & Hn & Hm & Hm'). finish. rewrite !replies_app, !purge_replies, Hr, Hr'. split_and!; try done.
    apply Hsig2; [done|set_solver..].
Qed.

(** ** The commands on one or two sets *)

Inductive setcmd :=
| CSadd (key first : bytes) (rest : list bytes)
| CSrem (key : bytes) (members : list bytes)
| CSmove (src dst ele : bytes)
| CSismember (key ele : bytes)
| CScard (key : bytes).

Definition run_setcmd e i (c : setcmd) : keyspace value -> option (keyspace value) :=
  match c with
  | CSadd k first rest => saddCommand e i k first rest
  | CSrem k members => sremCommand e i k members
  | CSmove src dst ele => smoveCommand e i src dst ele
  | CSismember k ele => sismemberCommand e i k ele
  | CScard k => scardCommand e i k
  end.

Definition setcmd_spec e x (c : setcmd) : absdb absval * reply :=
  match c with
  | CSadd k first rest => sadd_spec e x k (first :: rest)
  | CSrem k members => srem_spec e x k members
  | CSmove src dst ele => smove_spec e x src dst ele
  | CSismember k ele => (purge e x k, read_spec e x k (fun X => b2z (bool_decide (ele ∈ X))))
  | CScard k => (purge e x k, read_spec e x k card)
  end.

(** The elements a command may add *)
Definition adds (c : setcmd) : Z := match c with CSadd _ _ rest => 1 + zlen rest | CSmove _ _ _ => 1 | _ => 0 end.

Lemma setcmd_ok e i x c :
  nonempty x -> room x -> adds c < 2 ^ 29 -> (forall k X t, x !! k = Some (ASet X, t) -> card X + adds c < 2 ^ 29) ->
  does i x (unit_of (run_setcmd e i c)) (fun _ x' evs n =>
    x' = fst (setcmd_spec e x c) /\ replies evs = [snd (setcmd_spec e x c)] /\ signalled i x x' evs n).
Proof.
  intros Hx Hroom Ha Hs. destruct c as [k first rest|k members|src dst ele|k ele|k]; simpl in Ha, Hs |- *.
  - apply sadd_ok; [done|intros X t Hk; rewrite zlen_cons; by apply (Hs k X t)|by rewrite zlen_cons].
  - apply srem_ok; [done|]. intros X t Hk. specialize (Hs k X t Hk). lia.
  - by apply smove_ok.
  - apply sismember_ok.
  - apply scard_ok.
Qed.

Lemma setcmd_nonempty e x c : nonempty x -> nonempty (fst (setcmd_spec e x c)).
Proof.
  intros Hx. destruct c as [k first rest|k members|src dst ele|k ele|k]; cbn [setcmd_spec fst]; try by apply nonempty_purge.
  - unfold sadd_spec. apply (nonempty_purge e x k) in Hx. destruct (purge e x k !! k) as [[[X|ty] t]|]; cbn [fst]; try done;
      apply nonempty_insert; try done; set_solver +.
  - unfold srem_spec. apply (nonempty_purge e x k) in Hx. destruct (purge e x k !! k) as [[[X|ty] t]|]; cbn [fst]; try done.
    by apply nonempty_put.
  - unfold smove_spec. assert (nonempty (purge e (purge e x src) dst)) as Hx2 by by apply nonempty_purge, nonempty_purge.
    destruct (purge e x src !! src) as [[[A|ty] t]|]; try done.
    destruct (purge e (purge e x src) dst !! dst) as [[[D|ty] td]|]; try done;
      (case_decide; [done|]); (case_decide; [|done]); cbn [fst]; (apply nonempty_insert; [by apply nonempty_put|set_solver +]).
Qed.

(** C17. SADD, SREM, SMOVE, SISMEMBER and SCARD implement their meaning on a finite map from keys to
    finite sets of strings, for every encoding of the sets, on a master and on a replica: they
    return, reply once, count what they really added or removed, signal and propagate every change,
    and never leave an empty set in the keyspace. *)
Theorem set_commands_correct e i c s xs x :
  ks_rep s xs -> xs !! i = Some x -> nonempty x -> room x ->
  adds c < 2 ^ 29 -> (forall k X t, x !! k = Some (ASet X, t) -> card X + adds c < 2 ^ 29) ->
  exists s' evs n, run_setcmd e i c s = Some s' /\ ks_rep s' (<[i := fst (setcmd_spec e x c)]> xs) /\
    events s' = events s ++ evs /\ dirtied s n s' /\ nonempty (fst (setcmd_spec e x c)) /\
    replies evs = [snd (setcmd_spec e x c)] /\ signalled i x (fst (setcmd_spec e x c)) evs n.
Proof.
  intros Hr Hi Hx Hroom Ha Hs.
  destruct (setcmd_ok e i x c Hx Hroom Ha Hs s xs Hr Hi) as (u & s' & x' & evs & n & Hc & Hr' & He & Hd & -> & Hrep & Hsig).
  unfold unit_of in Hc. destruct (run_setcmd e i c s) as [s''|]; [|done]. injection Hc as _ ->.
  exists s', evs, n. split_and!; try done. by apply setcmd_nonempty.
Qed.
End Spec.
