(* ===== verification/SetOpSpec.v ===== *)
(** * Contracts of SINTER, SUNION, SDIFF and their STORE variants *)

From Stdlib Require Import ZArith Lia String.
From stdpp Require Import base numbers option fin_sets fin_maps gmap list.
From S2P Require Import Prelude Memory Endian Intset Util Sds SdsNumber Server Dict DictFacts DictSpec DictIter Keyspace KeyspaceFacts KeyspaceSpec SetType SetTypeFacts SetCmd SetCmdFacts SetCmdSpec.

Local Open Scope Z_scope.
Local Open Scope redis_scope.

Section Spec.
Context `{!Host, !Alloc, !dictType bytes, !DictTypeOk bytes, !Qsort, !QsortOk}.
Implicit Types (e : kenv) (i : nat) (k : bytes) (s : keyspace value) (x : absdb absval) (X : gset bytes) (st : bool).
#[local] Existing Instance abs_rep.
#[local] Existing Instance same_rep.

(** ** Lookups *)

(** What a key holds for a command that stores its result, and for one that replies with it *)
Definition seen e st x k : option (absval * option Z) := if st then purge e x k !! k else visible e (x !! k).
Definition seen_set e st x k : gset bytes := match seen e st x k with Some (ASet X, _) => X | _ => ∅ end.

Lemma seen_kept e st x k p : seen e st x k = Some p -> purge e x k = x /\ x !! k = Some p.
Proof.
  destruct st; simpl; [|apply visible_kept]. rewrite purge_lookup. unfold purge. by destruct (purges e x k).
Qed.
Lemma seen_purge e st x k k' : seen e st (purge e x k') k = seen e st x k.
Proof.
  destruct st; simpl; [|apply visible_purge]. destruct (decide (k = k')) as [->|Hne]; [by rewrite purge_purge|].
  rewrite !purge_lookup. unfold purges. by rewrite purge_ne.
Qed.
Lemma seen_purge_all e st k keys : forall x, seen e st (purge_all e x keys) k = seen e st x k.
Proof. induction keys as [|k' keys IH]; intros x; [done|]. simpl. by rewrite IH, seen_purge. Qed.

Definition is_store (dst : option bytes) : bool := match dst with Some _ => true | None => false end.

Lemma lookup_for_ok e i x dst k :
  does i x (lookup_for e i dst k) (fun o x' evs n =>
    found o (seen e (is_store dst) x k) /\ x' = purge e x k /\ replies evs = [] /\ signalled i x x' evs 0 /\ n = 0).
Proof.
  destruct dst as [dst|]; simpl.
  - eapply does_impl; [apply (lookupKeyWrite_ok e i x k LOOKUP_NONE)|]. intros o x' evs n (Ho & -> & -> & ->).
    split_and!; try done; [apply purge_replies|apply purge_signalled].
  - eapply does_impl; [apply (lookupKeyRead_ok e i x k LOOKUP_NONE)|]. intros o x' evs n (Ho & -> & -> & ->).
    split_and!; try done; [|apply signalled_app, purge_signalled]. rewrite replies_app, purge_replies. by destruct (visible e (x !! k)).
Qed.

(** The lookups of an intersection end at the first key that is missing or of another type. *)
Fixpoint scan e st x (keys : list bytes) : lookups * absdb absval :=
  match keys with
  | [] => (Sets, x)
  | k :: keys =>
      match seen e st x k with
      | None => (Missing, purge e x k)
      | Some (AOther _, _) => (WrongType, purge e x k)
      | Some (ASet _, _) => scan e st (purge e x k) keys
      end
  end.

Lemma inter_lookups_ok e i dst keys : forall x,
  does i x (inter_lookups e i dst keys) (fun r x' evs n =>
    (r, x') = scan e (is_store dst) x keys /\ replies evs = [] /\ signalled i x x' evs 0 /\ n = 0).
Proof.
  induction keys as [|k keys IH]; intros x; cbn [inter_lookups scan]; [apply does_ret; by split_and!; try apply signalled_refl|].
  apply does_intro. intros s0 ms s Hat. run (lookup_for_ok e i x dst k) o. destruct HQ as (Ho & -> & Hr & Hs & ->).
  destruct (seen e (is_store dst) x k) as [[[X|ty] t]|], o as [o|]; try done; simpl in Ho; simpl.
  - rewrite (wrong_type_rep o (ASet X)) by done. tail_call (IH (purge e x k)) r. destruct HQ as (HE & Hr' & Hs' & ->). finish.
    split_and!; try done; [by rewrite replies_app, Hr, Hr'|]. by apply (signalled_trans i x (purge e x k) _ _ _ 0 0).
  - rewrite (wrong_type_rep o (AOther ty)) by done. by finish.
  - by finish.
Qed.

Lemma scan_sets e st keys : forall x x', scan e st x keys = (Sets, x') ->
  x' = x /\ Forall (fun k => is_set x k /\ set_of x k = seen_set e st x k) keys.
Proof.
  induction keys as [|k keys IH]; intros x x'; simpl; [by intros [= ->]|].
  destruct (seen e st x k) as [[[X|ty] t]|] eqn:Es; try done. destruct (seen_kept _ _ _ _ _ Es) as [-> Hk].
  intros [-> Hall]%IH. split; [done|]. constructor; [|done]. split; [by exists X, t|]. unfold set_of, seen_set. by rewrite Hk, Es.
Qed.

(** Those of a union or a difference at the first key of another type. *)
Fixpoint scan_opt e st x (keys : list bytes) : option (list (option bytes)) * absdb absval :=
  match keys with
  | [] => (Some [], x)
  | k :: keys =>
      let o := seen e st x k in
      let x := purge e x k in
      match o with
      | Some (AOther _, _) => (None, x)
      | _ => let '(sets, x) := scan_opt e st x keys in ((fun l => (match o with Some _ => Some k | None => None end) :: l) <$> sets, x)
      end
  end.

Lemma union_lookups_ok e i dst keys : forall x,
  does i x (union_lookups e i dst keys) (fun r x' evs n =>
    (r, x') = scan_opt e (is_store dst) x keys /\ replies evs = [] /\ signalled i x x' evs 0 /\ n = 0).
Proof.
  induction keys as [|k keys IH]; intros x; cbn [union_lookups scan_opt]; [apply does_ret; by split_and!; try apply signalled_refl|].
  apply does_intro. intros s0 ms s Hat. run (lookup_for_ok e i x dst k) o. destruct HQ as (Ho & -> & Hr & Hs & ->).
  destruct (seen e (is_store dst) x k) as [[[X|ty] t]|], o as [o|]; try done; simpl in Ho;
    [rewrite (wrong_type_rep o (ASet X)) by done|rewrite (wrong_type_rep o (AOther ty)) by done|].
  2: by finish.
  all: run (IH (purge e x k)) r; destruct HQ as (HE & Hr' & Hs' & ->); finish; rewrite <- HE;
    (split_and!; [by destruct r|by rewrite replies_app, Hr, Hr'| |done]);
    by apply (signalled_trans i x (purge e x k) _ _ _ 0 0).
Qed.

Lemma scan_opt_sets e st keys : forall x sets x', scan_opt e st x keys = (Some sets, x') ->
  x' = purge_all e x keys /\ Forall (opt_ok x') sets /\ opt_set x' <$> sets = seen_set e st x <$> keys.
Proof.
  induction keys as [|k keys IH]; intros x sets x'; simpl; [by intros [= <- ->]|].
  destruct (seen e st x k) as [p|] eqn:Es.
  - destruct (seen_kept _ _ _ _ _ Es) as [-> Hk]. destruct p as [[X|ty] t]; [|done].
    destruct (scan_opt e st x keys) as [[sets'|] x1] eqn:E1; [|done]. intros [= <- <-].
    destruct (IH _ _ _ E1) as (-> & Hok & HE). split; [done|].
    assert (purge_all e x keys !! k = Some (ASet X, t)) as Hk'.
    { rewrite <- (seen_purge_all e st k keys x) in Es. by apply seen_kept in Es as [_ ?]. }
    split.
    + constructor; [|done]. intros ? [= <-]. by exists X, t.
    + rewrite !fmap_cons. f_equal; [|done]. simpl. unfold set_of, seen_set. by rewrite Hk', Es.
  - destruct (scan_opt e st (purge e x k) keys) as [[sets'|] x1] eqn:E1; [|done]. intros [= <- <-].
    destruct (IH _ _ _ E1) as (-> & Hok & HE). split; [done|]. split; [by constructor|]. rewrite !fmap_cons. f_equal.
    + simpl. unfold seen_set. by rewrite Es.
    + rewrite HE. apply list_fmap_ext. intros _ k' _. unfold seen_set. by rewrite seen_purge.
Qed.

(** ** The three operations *)

Inductive setop := SInter | SUnion | SDiff.

Definition union_set e st x (keys : list bytes) : gset bytes := ⋃ (seen_set e st x <$> keys).
Definition inter_set e st x (keys : list bytes) : gset bytes :=
  match keys with [] => ∅ | k :: keys => foldr (fun k X => seen_set e st x k ∩ X) (seen_set e st x k) keys end.
Definition diff_set e st x (keys : list bytes) : gset bytes :=
  match keys with [] => ∅ | k :: keys => seen_set e st x k ∖ union_set e st x keys end.

Lemma elem_of_inter_set e st x keys ele :
  keys <> [] -> ele ∈ inter_set e st x keys <-> Forall (fun k => ele ∈ seen_set e st x k) keys.
Proof.
  destruct keys as [|k keys]; [done|]. intros _. simpl. rewrite Forall_cons. induction keys as [|k' keys IH]; simpl.
  - rewrite Forall_nil. tauto.
  - rewrite elem_of_intersection, IH, Forall_cons. tauto.
Qed.

Lemma fresh_acc_ok v : set_rep v ∅ -> acc_rep (v, 0) ∅.
Proof. intros Hv. split; [done|]. symmetry. apply card_empty. Qed.

Lemma union_ok e i x sets v :
  Forall (opt_ok x) sets -> set_rep v ∅ -> small (union_of x sets) ->
  does i x (union_loop e i sets (v, 0)) (fun acc x' evs n => acc_rep acc (union_of x sets) /\ x' = x /\ evs = [] /\ n = 0).
Proof.
  intros Hs Hv Hsm. apply lift. intros m Hm. assert (∅ ∪ union_of x sets = union_of x sets) as HE by set_solver +.
  eapply does_impl; [apply (union_loop_ok e i x sets m (v, 0) ∅ Hm Hs (fresh_acc_ok v Hv)); by rewrite HE|].
  intros acc m' evs n (Hacc & Hm' & -> & ->). rewrite HE in Hacc. by exists x.
Qed.
Lemma diff_ok e i x sets v :
  Forall (opt_ok x) sets -> set_rep v ∅ -> small (union_of x sets) ->
  does i x (diff_result e i sets (v, 0)) (fun acc x' evs n => acc_rep acc (diff_of x sets) /\ x' = x /\ evs = [] /\ n = 0).
Proof.
  intros Hs Hv Hsm. apply lift. intros m Hm.
  eapply does_impl; [by apply (diff_result_ok e i m x sets (v, 0) Hm Hs (fresh_acc_ok v Hv))|].
  intros acc m' evs n (Hacc & Hm' & -> & ->). by exists x.
Qed.

Lemma inter_ok e i x k others store v :
  is_set x k -> Forall (is_set x) others -> set_rep v ∅ -> small (set_of x k) ->
  does i x (for_each i k (inter_body e i k others store) ([], v)) (fun acc x' evs n =>
    exists l, NoDup l /\ (forall ele, ele ∈ l <-> ele ∈ set_of x k /\ Forall (fun k => ele ∈ set_of x k) others) /\
      inter_acc store acc v l /\ x' = x /\ evs = [] /\ n = 0).
Proof.
  intros Hk Ho Hv Hsm. destruct (is_set_of _ _ Hk) as (t & Hxk). apply lift. intros m Hm.
  eapply does_impl; [by apply (inter_body_ok e i m x k _ t others store _ v Hm Hxk Ho eq_refl Hv Hsm)|].
  intros acc m' evs n (l & Hnd & HX & Hacc & Hm' & -> & ->). exists x. split; [done|].
  exists (filter (in_rest x others) l). split_and!; try done; [by apply NoDup_filter|]. intros ele.
  rewrite list_elem_of_filter, <- HX, elem_of_list_to_set. unfold in_rest. tauto.
Qed.

(** ** The end of the commands *)

Definition result x dst X (x' : absdb absval) (rs : list reply) : Prop :=
  match dst with
  | None => x' = x /\ exists l, NoDup l /\ list_to_set l = X /\ rs = ReplySetLen (card X) :: (ReplyBulk <$> l)
  | Some d => x' = put_set x d X None /\ rs = [ReplyInt (card X)]
  end.

Lemma at_reply_set s0 xs i s x evs n c l :
  at_ s0 xs i s x evs n -> at_ s0 xs i (reply_set c l s) x (evs ++ Reply (ReplySetLen c) :: (Reply ∘ ReplyBulk <$> l)) n.
Proof.
  intros Hat. unfold reply_set. rewrite cons_middle, app_assoc.
  assert (at_ s0 xs i (addReply (ReplySetLen c) s) x (evs ++ [Reply (ReplySetLen c)]) n) as Hat' by by apply at_emit.
  revert Hat'. generalize (addReply (ReplySetLen c) s) (evs ++ [Reply (ReplySetLen c)]). clear Hat s evs.
  induction l as [|y l IH]; intros s evs Hat; simpl; [by rewrite app_nil_r|]. rewrite cons_middle, app_assoc.
  apply IH. by apply at_emit.
Qed.
Lemma replies_set c (l : list bytes) : replies (Reply (ReplySetLen c) :: (Reply ∘ ReplyBulk <$> l)) = ReplySetLen c :: (ReplyBulk <$> l).
Proof. unfold replies. simpl. f_equal. induction l as [|y l IH]; [done|]. simpl. by f_equal. Qed.

Lemma store_result_ok e i x dst ev v X :
  set_rep v X -> room x ->
  does i x (unit_of (store_result e i dst ev v)) (fun _ x' evs n =>
    x' = put_set x dst X None /\ replies evs = [ReplyInt (card X)] /\ n = 1 /\ ModifiedKey i dst ∈ evs).
Proof.
  intros Hv Hroom. apply does_intro. intros s0 ms s Hat. unfold unit_of, store_result, dbDelete.
  run (delete_ok e (lazyfree_lazy_server_del e) i x dst) d. destruct HQ as (-> & -> & -> & ->).
  assert (replies (if bool_decide (is_Some (x !! dst)) then slot_del e dst else []) = []) as Hr.
  { case_bool_decide; [apply slot_del_replies|done]. }
  rewrite (size_ok _ _ Hv). mstep. fold (card X). rewrite Z.gtb_ltb. unfold put_set. casif.
  - assert (room (delete dst x)) as Hroom'.
    { apply (room_sub x); [done|]. intros k [p Hp]. apply lookup_delete_Some in Hp as [_ Hp]. eauto. }
    exec (dbAdd_ok e i (delete dst x) dst (createObject e v) (ASet X) (lookup_delete_eq _ _) Hroom' Hv). destruct HQ as (-> & -> & ->).
    finish. rewrite decide_False, insert_delete_eq by (intros ->; by rewrite card_empty in E).
    split_and!; try done; [|set_solver +]. by rewrite !replies_app, Hr, add_replies.
  - assert (X = ∅) as -> by (apply card_0; lia). rewrite decide_True by done.
    destruct (bool_decide (is_Some (x !! dst))); finish; (split_and!; [done| |done|set_solver +]); by rewrite ?replies_app, ?Hr, ?card_empty.
Qed.

(** ** The commands *)

Definition run_setop e i (op : setop) (keys : list bytes) (dst : option bytes) : keyspace value -> option (keyspace value) :=
  match op with
  | SInter => sinterGenericCommand e i keys dst
  | SUnion => sunionDiffGenericCommand e i keys dst SET_OP_UNION
  | SDiff => sunionDiffGenericCommand e i keys dst SET_OP_DIFF
  end.

Definition setop_spec e (op : setop) x (keys : list bytes) dst (x' : absdb absval) (rs : list reply) : Prop :=
  let st := is_store dst in
  match op with
  | SInter =>
      let '(r, x1) := scan e st x keys in
      match r with
      | WrongType => x' = x1 /\ rs = [ReplyWrongType]
      | Missing => match dst with Some _ => result x1 dst ∅ x' rs | None => x' = x1 /\ rs = [ReplyEmptySet] end
      | Sets => result x1 dst (inter_set e st x keys) x' rs
      end
  | _ =>
      let '(r, x1) := scan_opt e st x keys in
      match r with
      | None => x' = x1 /\ rs = [ReplyWrongType]
      | Some _ => result x1 dst ((match op with SDiff => diff_set | _ => union_set end) e st x keys) x' rs
      end
  end.

Lemma signalled_put i x x1 dst X evs evs' :
  signalled i x x1 evs 0 -> ModifiedKey i dst ∈ evs' -> signalled i x (put_set x1 dst X None) (evs ++ evs') 1.
Proof.
  intros Hs Hm. apply (signalled_trans i x x1 _ _ _ 0 1); [done|]. apply signalled_dirty; [lia|]. intros k Hk.
  destruct (decide (k = dst)) as [->|Hne]; [done|]. by rewrite put_set_ne in Hk.
Qed.
Lemma room_all e keys : forall x, room x -> room (purge_all e x keys).
Proof. induction keys as [|k keys IH]; intros x Hr; [done|]. simpl. by apply IH, room_purge. Qed.

Lemma sinter_ok e i x keys dst :
  room x -> keys <> [] -> small (union_set e (is_store dst) x keys) ->
  does i x (unit_of (sinterGenericCommand e i keys dst)) (fun _ x' evs n =>
    setop_spec e SInter x keys dst x' (replies evs) /\ signalled i x x' evs n).
Proof.
  intros Hroom Hne Hsm. apply does_intro. intros s0 ms s Hat. unfold unit_of, sinterGenericCommand.
  run (inter_lookups_ok e i dst keys x) r. destruct HQ as (HE & Hr & Hs & ->). unfold setop_spec. rewrite <- HE.
  symmetry in HE. destruct r.
  - destruct (scan_sets _ _ _ _ _ HE) as [-> Hall]. assert (Forall (is_set x) keys) as His by by eapply Forall_impl; [exact Hall|intros k [? ?]].
    destruct (with_sizes_ok _ _ _ _ _ _ _ Hat1 keys His) as (sized & -> & Hsz). mstep. pose proof (Permutation_map fst (qsort_perm _ qsortCompareSetsByCardinality sized)) as Hp. rewrite Hsz in Hp.
    destruct (map fst (qsort qsortCompareSetsByCardinality sized)) as [|k others]; [by apply Permutation_nil_l in Hp|].
    destruct empty_intset_ok as (v & -> & Hv). mstep. pose proof His as His'. rewrite <- Hp in His'. apply Forall_cons in His' as [Hk Ho].
    assert (small (set_of x k)) as Hsk.
    { eapply small_subseteq; [exact Hsm|]. assert (k ∈ keys) as Hin by (rewrite <- Hp; by left). rewrite Forall_forall in Hall.
      rewrite (proj2 (Hall k Hin)). intros ele Hele. apply elem_of_union_list. eexists. split; [|done]. apply list_elem_of_fmap. eauto. }
    fold (is_store dst). run (inter_ok e i x k others (is_store dst) v Hk Ho Hv Hsk) acc. destruct HQ as (l & Hnd & Hl & Hacc & -> & -> & ->).
    assert (list_to_set l = inter_set e (is_store dst) x keys) as HX.
    { apply set_eq. intros ele. rewrite elem_of_list_to_set, elem_of_inter_set, Hl by done.
      rewrite <- (Forall_cons (fun k => ele ∈ set_of x k)), Hp. rewrite !Forall_forall.
      rewrite Forall_forall in Hall. split; intros Hin k' Hk'; [rewrite <- (proj2 (Hall k' Hk'))|rewrite (proj2 (Hall k' Hk'))]; auto. }
    destruct acc as [out dstset]. destruct dst as [dst|]; simpl in Hacc; destruct Hacc as [-> Hacc].
    + rewrite HX in Hacc. exec (store_result_ok e i x dst "sinterstore" dstset _ Hacc Hroom). destruct HQ as (-> & Hr' & -> & Hm). finish.
      split; [split; [done|by rewrite !replies_app, Hr, Hr']|by apply signalled_put].
    + eexists _, _, _, _, _. split; [reflexivity|]. split; [by apply at_reply_set|].
      split; [split; [done|exists l]|rewrite <- app_assoc; by apply signalled_app].
      split_and!; try done. rewrite !replies_app, Hr, replies_set. simpl in HX |- *. rewrite <- HX. unfold card. by rewrite size_list_to_set.
  - destruct dst as [dst|]; simpl.
    + unfold dbDelete. run (delete_ok e (lazyfree_lazy_server_del e) i m' dst) d. destruct HQ as (-> & -> & -> & ->).
      assert (m' !! dst = None -> delete dst m' = m') as Hid by apply delete_id.
      case_bool_decide as Hd; finish; (split; [split; [unfold put_set; by rewrite decide_True|]|]).
      * by rewrite !replies_app, Hr, slot_del_replies, card_empty.
      * replace (delete dst m') with (put_set m' dst ∅ None) by (unfold put_set; by rewrite decide_True). apply signalled_put; [done|set_solver +].
      * by rewrite ?replies_app, Hr, card_empty.
      * rewrite Hid by (by apply eq_None_not_Some). by apply signalled_app.
    + finish. rewrite replies_app, Hr. split; [done|]. by apply signalled_app.
  - finish. rewrite replies_app, Hr. split; [done|]. by apply signalled_app.
Qed.

Lemma union_of_seen e st x x' keys sets : opt_set x' <$> sets = seen_set e st x <$> keys -> union_of x' sets = union_set e st x keys.
Proof. intros HE. unfold union_of, union_set. by rewrite HE. Qed.
Lemma diff_of_seen e st x x' keys sets : opt_set x' <$> sets = seen_set e st x <$> keys -> diff_of x' sets = diff_set e st x keys.
Proof.
  destruct sets as [|o sets], keys as [|k keys]; try done. simpl. intros [= -> HE]. f_equal. by apply union_of_seen.
Qed.

Lemma sunion_diff_ok e i x keys dst op :
  op <> SInter -> room x -> small (union_set e (is_store dst) x keys) ->
  does i x (unit_of (run_setop e i op keys dst)) (fun _ x' evs n =>
    setop_spec e op x keys dst x' (replies evs) /\ signalled i x x' evs n).
Proof.
  intros Hop Hroom Hsm.
  assert (does i x (unit_of (sunionDiffGenericCommand e i keys dst (match op with SDiff => SET_OP_DIFF | _ => SET_OP_UNION end)))
    (fun _ x' evs n => setop_spec e (match op with SDiff => SDiff | _ => SUnion end) x keys dst x' (replies evs) /\ signalled i x x' evs n)) as Hgo.
  2: { by destruct op. }
  set (cop := match op with SDiff => SET_OP_DIFF | _ => SET_OP_UNION end).
  apply does_intro. intros s0 ms s Hat. unfold unit_of, sunionDiffGenericCommand.
  run (union_lookups_ok e i dst keys x) r. destruct HQ as (HE & Hr & Hs & ->).
  set (R := (match op with SDiff => diff_set | _ => union_set end) e (is_store dst) x keys).
  assert (forall x' rs, match r with None => x' = m' /\ rs = [ReplyWrongType] | Some _ => result m' dst R x' rs end ->
    setop_spec e (match op with SDiff => SDiff | _ => SUnion end) x keys dst x' rs) as Hspec.
  { intros x' rs H'. unfold setop_spec, R in *. destruct op; [done|..]; by rewrite <- HE. }
  symmetry in HE. destruct r as [sets|]; [|finish; rewrite replies_app, Hr; split; [by apply Hspec|by apply signalled_app]].
  destruct (scan_opt_sets _ _ _ _ _ _ HE) as (-> & Hok & Hsets). destruct empty_intset_ok as (v & -> & Hv). mstep.
  rewrite <- (union_of_seen _ _ _ _ _ _ Hsets) in Hsm. set (x1 := purge_all e x keys) in *.
  assert (does i x1 (fun s => match cop with SET_OP_UNION => union_loop e i sets (v, 0) s | SET_OP_DIFF => diff_result e i sets (v, 0) s end)
    (fun acc x' evs n => acc_rep acc R /\ x' = x1 /\ evs = [] /\ n = 0)) as Hacc.
  { subst cop R. destruct op; [done|rewrite <- (union_of_seen _ _ _ _ _ _ Hsets); by apply union_ok|
      rewrite <- (diff_of_seen _ _ _ _ _ _ Hsets); by apply diff_ok]. }
  destruct (at_step _ _ _ _ _ _ _ _ _ Hacc Hat1) as (acc & s2 & x2 & evs2 & n2 & Hstep & Hat2 & Hacc2 & -> & -> & ->).
  unfold dstset_card in Hstep. rewrite Hstep.
  destruct acc as [dstset c]. destruct Hacc2 as [Hd Hc]. simpl in Hd, Hc. mstep. destruct dst as [dst|].
  - exec (store_result_ok e i x1 dst (match cop with SET_OP_UNION => "sunionstore" | SET_OP_DIFF => "sdiffstore" end) dstset R Hd
      (room_all _ _ _ Hroom)). destruct HQ as (-> & Hr' & -> & Hm). finish.
    split; [apply Hspec; split; [done|by rewrite ?replies_app, Hr, Hr']|].
    eapply signalled_sub; [exact (signalled_put i x x1 dst R _ _ Hs Hm)|set_solver +].
  - destruct (elements_ok _ _ Hd) as (l & -> & Hnd & HX). mstep. eexists _, _, _, _, _. split; [reflexivity|].
    split; [by apply at_reply_set|]. split; [apply Hspec; split; [done|exists l]|eapply signalled_sub; [exact Hs|set_solver +]].
    split_and!; try done. rewrite !replies_app, Hr, replies_set, Hc. done.
Qed.

Lemma scan_nonempty e st keys : forall x, nonempty x -> nonempty (snd (scan e st x keys)).
Proof.
  induction keys as [|k keys IH]; intros x Hx; [done|]. simpl. apply (nonempty_purge e x k) in Hx.
  destruct (seen e st x k) as [[[X|ty] t]|]; [by apply IH|done..].
Qed.
Lemma scan_opt_nonempty e st keys : forall x, nonempty x -> nonempty (snd (scan_opt e st x keys)).
Proof.
  induction keys as [|k keys IH]; intros x Hx; [done|]. simpl. apply (nonempty_purge e x k) in Hx. specialize (IH _ Hx).
  destruct (seen e st x k) as [[[X|ty] t]|]; try done; by destruct (scan_opt e st (purge e x k) keys).
Qed.
Lemma result_nonempty x dst X x' rs : nonempty x -> result x dst X x' rs -> nonempty x'.
Proof. intros Hx. destruct dst as [d|]; intros [-> _]; [by apply nonempty_put|done]. Qed.
Lemma setop_nonempty e op x keys dst x' rs : nonempty x -> setop_spec e op x keys dst x' rs -> nonempty x'.
Proof.
  intros Hx. unfold setop_spec. destruct op.
  - pose proof (scan_nonempty e (is_store dst) keys x Hx) as H1'. destruct (scan e (is_store dst) x keys) as [r x1]. simpl in H1'.
    destruct r; [by apply result_nonempty|destruct dst; [by apply result_nonempty|by intros [-> _]]|by intros [-> _]].
  - pose proof (scan_opt_nonempty e (is_store dst) keys x Hx) as H1'. destruct (scan_opt e (is_store dst) x keys) as [r x1]. simpl in H1'.
    destruct r; [by apply result_nonempty|by intros [-> _]].
  - pose proof (scan_opt_nonempty e (is_store dst) keys x Hx) as H1'. destruct (scan_opt e (is_store dst) x keys) as [r x1]. simpl in H1'.
    destruct r; [by apply result_nonempty|by intros [-> _]].
Qed.

(** C9. SINTER, SUNION, SDIFF and their STORE variants compute the intersection, the union and the
    difference of the sets at their keys, whatever order [qsort] gives them, whichever of the two
    algorithms the difference takes, and whatever the encodings and the progress of rehashing: they
    return, reply with every element once or with the cardinality of what they stored, store no
    empty set, and signal what changes. *)
Theorem set_operations_correct e i (op : setop) (keys : list bytes) (dst : option bytes) s xs x :
  ks_rep s xs -> xs !! i = Some x -> nonempty x -> keys <> [] -> room x -> small (union_set e (is_store dst) x keys) ->
  exists s' x' evs n, run_setop e i op keys dst s = Some s' /\ ks_rep s' (<[i := x']> xs) /\
    events s' = events s ++ evs /\ dirtied s n s' /\ nonempty x' /\
    setop_spec e op x keys dst x' (replies evs) /\ signalled i x x' evs n.
Proof.
  intros Hr Hi Hx Hne Hroom Hsm.
  assert (does i x (unit_of (run_setop e i op keys dst)) (fun _ x' evs n =>
    setop_spec e op x keys dst x' (replies evs) /\ signalled i x x' evs n)) as Hdo.
  { destruct op; [by apply sinter_ok|by apply sunion_diff_ok..]. }
  destruct (Hdo s xs Hr Hi) as (u & s' & x' & evs & n & Hs & Hr' & He & Hd & Hspec & Hsig).
  unfold unit_of in Hs. destruct (run_setop e i op keys dst s) as [s''|]; [|done]. injection Hs as _ ->.
  exists s', x', evs, n. split_and!; try done. by eapply setop_nonempty.
Qed.
End Spec.
