(* ===== verification/SetExamples.v ===== *)
(** * A concrete keyspace with sets, reached by commands *)

From Stdlib Require Import ZArith Lia String.
From stdpp Require Import base numbers option fin_sets fin_maps gmap list.
From S2P Require Import Prelude Memory Endian Intset Util Server Dict DictFacts DictSpec Keyspace KeyspaceFacts KeyspaceSpec SetType SetTypeFacts SetCmd SetCmdFacts SetCmdSpec SetOpSpec.

Local Open Scope Z_scope.
Local Open Scope redis_scope.

Module Example_sets.

#[local] Instance host : Host := false.
#[local] Instance junk_bytes : Alloc := fun i => i * 7 + 165.
(** Keys are hashed by their length. *)
#[local] Instance length_type : dictType bytes :=
  {| hashFunction k := u64 (zlen k); keyCompare k1 k2 := bool_decide (k1 = k2) |}.
#[local] Instance length_type_ok : DictTypeOk bytes.
Proof. constructor; [intros; apply uN_bound; lia|intros; apply bool_decide_eq_true]. Qed.
(** A sort that leaves a list as it is obeys the law of [qsort] the proofs use. *)
#[local] Instance no_sort : Qsort := fun _ _ l => l.
#[local] Instance no_sort_ok : QsortOk.
Proof. intros A cmp l. done. Qed.
#[local] Existing Instance abs_rep.
#[local] Instance reply_eq_dec : EqDecision reply.
Proof. solve_decision. Defined.

(** A master at the time [now], with at most two integers in an intset *)
Definition env (now : Z) : kenv :=
  KEnv false true false None 0 now now (now / 1000) 0 10 false 10 1 (fun _ => 0) false false false false false false false 2 536870912 true true.

Definition key_a : bytes := [97].
Definition key_b : bytes := [98; 98].
Definition key_c : bytes := [99].
Definition n1 : bytes := [49].
Definition n2 : bytes := [50].
Definition word : bytes := [120; 121].

Definition empty_db : redisDb value := RedisDb dictCreate dictCreate.
Definition empty : keyspace value := Keyspace [empty_db; empty_db] 0 0 0 0 0 [].
Lemma empty_rep : ks_rep empty [∅; ∅].
Proof.
  assert (db_rep empty_db (∅ : absdb absval)) as Hd.
  { exists ∅, ∅. split; [apply create_rep|]. split; [apply create_rep|]. intros k. by rewrite !lookup_empty. }
  by repeat constructor.
Qed.

(** [SADD a 1 2], [SADD bb xy 1], a string at [c] and [PEXPIREAT c 50] at the time 10 *)
Definition step (c : keyspace value -> option (keyspace value)) (s : keyspace value) : keyspace value := default s (c s).
Definition s1 := step (saddCommand (env 10) 0 key_a n1 [n2]) empty.
Definition s2 := step (saddCommand (env 10) 0 key_b word [n1]) s1.
Definition s3 := step (dbAdd (env 10) 0 key_c (createObject (env 10) (VOther OBJ_STRING))) s2.
Definition sample := step (setExpire (env 10) 0 key_c 50) s3.
Definition sample_map : absdb absval :=
  <[key_c := (AOther OBJ_STRING, Some 50)]> (<[key_b := (ASet {[ word; n1 ]}, None)]> {[ key_a := (ASet {[ n1; n2 ]}, None) ]}).

Lemma step_ok i x c Q s xs :
  does i x (unit_of c) Q -> ks_rep s xs -> xs !! i = Some x ->
  exists x' evs n, ks_rep (step c s) (<[i := x']> xs) /\ Q tt x' evs n.
Proof.
  intros Hc Hr Hx. destruct (Hc s xs Hr Hx) as (u & s' & x' & evs & n & HE & Hr' & _ & _ & HQ). unfold unit_of in HE. unfold step.
  destruct (c s); [|done]. injection HE as <- ->. simpl. eauto.
Qed.

Definition map1 : absdb absval := {[ key_a := (ASet {[ n1; n2 ]}, None) ]}.
Definition map2 : absdb absval := <[key_b := (ASet {[ word; n1 ]}, None)]> map1.
Definition map3 : absdb absval := <[key_c := (AOther OBJ_STRING, None)]> map2.

Ltac compute_room := unfold room; vm_compute; reflexivity.

Lemma rep1 : ks_rep s1 [map1; ∅].
Proof.
  assert (does 0 ∅ (unit_of (saddCommand (env 10) 0 key_a n1 [n2])) (fun _ x' _ _ => x' = map1)) as Hd.
  { eapply does_impl; [apply sadd_ok|].
    - compute_room.
    - intros X t Hk. by rewrite lookup_empty in Hk.
    - unfold zlen. simpl. lia.
    - intros _ x' evs n [-> _]. apply (bool_decide_unpack _). vm_compute. done. }
  destruct (step_ok 0 ∅ _ _ empty [∅; ∅] Hd empty_rep eq_refl) as (x1 & _ & _ & R1 & ->). exact R1.
Qed.
Lemma rep2 : ks_rep s2 [map2; ∅].
Proof.
  assert (does 0 map1 (unit_of (saddCommand (env 10) 0 key_b word [n1])) (fun _ x' _ _ => x' = map2)) as Hd.
  { eapply does_impl; [apply sadd_ok|].
    - compute_room.
    - intros X t Hk. unfold map1 in Hk. by rewrite lookup_singleton_ne in Hk.
    - unfold zlen. simpl. lia.
    - intros _ x' evs n [-> _]. apply (bool_decide_unpack _). vm_compute. done. }
  destruct (step_ok 0 map1 _ _ s1 [map1; ∅] Hd rep1 eq_refl) as (x1 & _ & _ & R1 & ->). exact R1.
Qed.
Lemma rep3 : ks_rep s3 [map3; ∅].
Proof.
  assert (does 0 map2 (unit_of (dbAdd (env 10) 0 key_c (createObject (env 10) (VOther OBJ_STRING)))) (fun _ x' _ _ => x' = map3)) as Hd.
  { eapply does_impl; [apply (dbAdd_ok (env 10) 0 map2 key_c (createObject (env 10) (VOther OBJ_STRING)) (AOther OBJ_STRING))|].
    - vm_compute. reflexivity.
    - compute_room.
    - by split.
    - by intros _ x' evs n [-> _]. }
  destruct (step_ok 0 map2 _ _ s2 [map2; ∅] Hd rep2 eq_refl) as (x1 & _ & _ & R1 & ->). exact R1.
Qed.
Lemma sample_keyspace_rep : ks_rep sample [sample_map; ∅].
Proof.
  assert (does 0 map3 (unit_of (setExpire (env 10) 0 key_c 50)) (fun _ x' _ _ => x' = sample_map)) as Hd.
  { eapply does_impl; [apply (setExpire_ok (env 10) 0 map3 key_c (AOther OBJ_STRING) None 50)|].
    - apply lookup_insert_eq.
    - compute_room.
    - intros _ x' evs n [-> _]. unfold map3. by rewrite insert_insert_eq. }
  destruct (step_ok 0 map3 _ _ s3 [map3; ∅] Hd rep3 eq_refl) as (x1 & _ & _ & R1 & ->). exact R1.
Qed.

Lemma sample_set k X t : sample_map !! k = Some (ASet X, t) -> X = {[ word; n1 ]} \/ X = {[ n1; n2 ]}.
Proof.
  unfold sample_map. rewrite !lookup_insert_Some, lookup_singleton_Some. intros [[_ H]|[_ [[_ H]|[_ [_ H]]]]]; [done|left|right]; by injection H.
Qed.
Lemma sample_nonempty : nonempty sample_map.
Proof. intros k X t [-> | ->]%sample_set; set_solver +. Qed.
Lemma sample_sizes k X t n : n < 100 -> sample_map !! k = Some (ASet X, t) -> card X + n < 2 ^ 29.
Proof.
  intros Hn [-> | ->]%sample_set; [change (card {[word; n1]}) with 2|change (card {[n1; n2]}) with 2]; lia.
Qed.

(** At the time 100 [EXPIRE a 10] keeps the set until the time 10100. *)
Lemma keyspace_commands_correct_witness :
  exists s' evs, run_kcmd (env 100) 0 (CExpire key_a [49; 48] 100 true) sample = Some s' /\
    ks_rep s' [<[key_a := (ASet {[ n1; n2 ]}, Some 10100)]> sample_map; ∅] /\ replies evs = [ReplyInt 1].
Proof.
  destruct (keyspace_commands_correct (env 100) 0 (CExpire key_a [49; 48] 100 true) sample [sample_map; ∅] sample_map)
    as (s' & evs & n & Hs & Hr & _ & _ & Hrep & _); [apply sample_keyspace_rep|done|vm_compute; reflexivity|by apply (bool_decide_unpack _); vm_compute|].
  exists s', evs. split_and!; [exact Hs| |].
  - assert (fst (kcmd_spec (env 100) sample_map (CExpire key_a [49; 48] 100 true)) =
      <[key_a := (ASet {[ n1; n2 ]}, Some 10100)]> sample_map) as HE by (apply (bool_decide_unpack _); vm_compute; done).
    rewrite HE in Hr. exact Hr.
  - rewrite Hrep. apply (bool_decide_unpack _). vm_compute. done.
Defined.

(** [MOVE bb 1] *)
Lemma moveCommand_correct_witness :
  exists s', moveCommand (env 100) 0 key_b (Some 1) sample = Some s' /\
    ks_rep s' [delete key_b sample_map; {[ key_b := (ASet {[ word; n1 ]}, None) ]}].
Proof.
  pose proof (moveCommand_correct (env 100) 0 1 key_b sample [sample_map; ∅] sample_map ∅ sample_keyspace_rep eq_refl eq_refl
    ltac:(done) eq_refl ltac:(vm_compute; reflexivity)) as Hm.
  assert (move_spec (env 100) sample_map (∅ : absdb absval) key_b =
    (delete key_b sample_map, {[ key_b := (ASet {[ word; n1 ]}, None) ]}, ReplyInt 1)) as HE.
  { apply (bool_decide_unpack _). vm_compute. done. }
  rewrite HE in Hm. destruct Hm as (s' & evs & n & Hs & Hr & _). exists s'. split; [exact Hs|exact Hr].
Defined.

(** [c] has expired at the time 100 and is found by neither lookup. *)
Lemma lookups_correct_witness :
  (exists s', lookupKeyRead (env 100) 0 key_c sample = Some (None, s') /\ ks_rep s' [delete key_c sample_map; ∅]) /\
  (exists s', lookupKeyWrite (env 100) 0 key_c sample = Some (None, s') /\ ks_rep s' [delete key_c sample_map; ∅]).
Proof.
  destruct (lookups_correct (env 100) 0 key_c sample [sample_map; ∅] sample_map sample_keyspace_rep eq_refl)
    as [(o & s' & evs & Hs & Ho & Hr & _) (o' & s'' & evs' & Hs' & Ho' & Hr' & _)].
  assert (purge (env 100) sample_map key_c = delete key_c sample_map) as HE by (apply (bool_decide_unpack _); vm_compute; done).
  assert (visible (env 100) (sample_map !! key_c) = None) as HV by (vm_compute; reflexivity).
  rewrite HE in *. rewrite HV in Ho. split.
  - exists s'. destruct o; [destruct Ho|]. split; [exact Hs|exact Hr].
  - exists s''. rewrite lookup_delete_eq in Ho'. destruct o'; [destruct Ho'|]. split; [exact Hs'|exact Hr'].
Defined.

Lemma expire_overflow_witness :
  exists s', expireCommand (env 1000) 0 key_a [57;50;50;51;51;55;50;48;51;54;56;53;52;55;55;53;56;48;55] sample = Some s' /\
    ks_rep s' [delete key_a sample_map; ∅].
Proof.
  destruct (expire_overflow (env 1000) 0 key_a sample [sample_map; ∅] sample_map (ASet {[ n1; n2 ]}, None) sample_keyspace_rep eq_refl)
    as (_ & s' & Hs & Hr); [vm_compute; reflexivity|vm_compute; reflexivity|done|done|simpl; lia|]. exists s'. split; [exact Hs|exact Hr].
Defined.

(** The third integer turns the intset into a table. *)
Lemma set_type_correct_witness : exists v v',
  setTypeAdd (env 10) v [51] = Some (true, v') /\ is_intset v = true /\ is_intset v' = false /\ set_rep v' {[ [51]; n1; n2 ]}.
Proof.
  destruct (create_ok n1) as (v0 & _ & R0 & I0).
  destruct (add_ok (env 10) v0 ∅ n1 R0 ltac:(vm_compute; reflexivity)) as (v1 & _ & R1 & I1).
  destruct (add_ok (env 10) v1 _ n2 R1 ltac:(vm_compute; reflexivity)) as (v2 & _ & R2 & I2).
  destruct (set_type_correct (env 10) v2 _ [51] R2 ltac:(vm_compute; reflexivity)) as (_ & _ & (v3 & H3 & R3 & I3) & _).
  exists v2, v3. unfold stays_intset in *. rewrite I0 in I1. rewrite I1 in I2. rewrite I2 in I3. split_and!.
  - rewrite H3. reflexivity.
  - rewrite I2. vm_compute. reflexivity.
  - rewrite I3. vm_compute. reflexivity.
  - assert ({[ [51]; n1; n2 ]} = {[ [51] ]} ∪ ({[ n2 ]} ∪ ({[ n1 ]} ∪ (∅ : gset bytes)))) as -> by set_solver +. exact R3.
Defined.

(** [SREM bb xy 1] takes the last element and the key with it. *)
Lemma set_commands_correct_witness :
  exists s' evs, run_setcmd (env 100) 0 (CSrem key_b [word; n1]) sample = Some s' /\
    ks_rep s' [delete key_b sample_map; ∅] /\ replies evs = [ReplyInt 2].
Proof.
  destruct (set_commands_correct (env 100) 0 (CSrem key_b [word; n1]) sample [sample_map; ∅] sample_map)
    as (s' & evs & n & Hs & Hr & _ & _ & _ & Hrep & _);
    [apply sample_keyspace_rep|done|apply sample_nonempty|vm_compute; reflexivity|done|intros; by eapply sample_sizes|].
  exists s', evs. split_and!; [exact Hs| |exact Hrep].
  assert (fst (setcmd_spec (env 100) sample_map (CSrem key_b [word; n1])) = delete key_b sample_map) as HE
    by (apply (bool_decide_unpack _); vm_compute; done).
  rewrite HE in Hr. exact Hr.
Defined.

(** [SDIFFSTORE c a bb] leaves [2]. *)
Lemma set_operations_correct_witness :
  exists s' evs, run_setop (env 100) 0 SDiff [key_a; key_b] (Some key_c) sample = Some s' /\
    ks_rep s' [<[key_c := (ASet {[ n2 ]}, None)]> sample_map; ∅] /\ replies evs = [ReplyInt 1].
Proof.
  destruct (set_operations_correct (env 100) 0 SDiff [key_a; key_b] (Some key_c) sample [sample_map; ∅] sample_map)
    as (s' & x' & evs & n & Hs & Hr & _ & _ & _ & [-> Hrep] & _);
    [apply sample_keyspace_rep|done|apply sample_nonempty|done|vm_compute; reflexivity|vm_compute; reflexivity|].
  exists s', evs. split_and!; [exact Hs| |exact Hrep].
  match type of Hr with ks_rep _ (<[0%nat := ?m]> _) =>
    assert (m = <[key_c := (ASet {[ n2 ]}, None)]> sample_map) as HE by (apply (bool_decide_unpack _); vm_compute; done) end.
  rewrite HE in Hr. exact Hr.
Defined.

(** Swapping the two databases, and emptying both *)
Lemma keyspace_api_correct_witness :
  (exists s', dbSwapDatabases 0 1 sample = Some (C_OK, s') /\ ks_rep s' [∅; sample_map]) /\
  (exists s', emptyDb (env 100) (-1) true sample = Some (3, s') /\ ks_rep s' [∅; ∅]).
Proof.
  destruct (keyspace_api_correct (env 100) sample [sample_map; ∅] sample_keyspace_rep ltac:(vm_compute; reflexivity)) as (_ & He & _ & Hs & _). split.
  - destruct (Hs 0%nat 1%nat sample_map ∅ eq_refl eq_refl) as (s' & HE & Hr). exists s'. split; [exact HE|exact Hr].
  - destruct (He true) as (s' & HE & Hr & _). exists s'. split; [exact HE|exact Hr].
Defined.

Lemma rep_set_dirty n (s : keyspace value) (xs : list (absdb absval)) : ks_rep s xs -> ks_rep (set_dirty n s) xs.
Proof. intros Hr. exact Hr. Qed.
Lemma flushall_loses_dirty_witness : exists s',
  flushallCommand (env 100) true [] (set_dirty 3000000000 sample) = Some s' /\ ks_rep s' [∅; ∅] /\ dirty s' <= 3000000000.
Proof.
  destruct (flushall_loses_dirty (env 100) (set_dirty 3000000000 sample) [sample_map; ∅] (rep_set_dirty _ _ _ sample_keyspace_rep)
    ltac:(vm_compute; reflexivity) ltac:(simpl; lia)) as (s' & HE & Hr & Hd). exists s'. split_and!; [exact HE|exact Hr|exact Hd].
Defined.
End Example_sets.
