(* ===== verification/StringCmd.v ===== *)
(** * Strings (t_string.c and the string objects of object.c)

    A string object holds an integer, or the bytes of an sds string, in the chunk of the object
    (EMBSTR) or in a block of its own (RAW).  An integer object may be one of the integers shared by
    the whole server, which must not be written to; its access clock is shown with each key that has
    it.  The objects given as arguments are sds strings in either form and not shared. *)

From Stdlib Require Import ZArith Lia String.
From stdpp Require Import base numbers option fin_maps gmap list.
From S2P Require Import Prelude Memory Util Glob Sds SdsNumber Server Dict Keyspace.

Local Open Scope Z_scope.
Local Open Scope redis_scope.

Inductive svalue :=
| SInt (shared : bool) (value : Z)
| SEmb (s : bytes)
| SRaw (s : bytes)
| SOther (type : Z).
#[global] Instance svalue_type : Value svalue :=
  fun v => match v with SOther t => t | _ => OBJ_STRING end.

Definition OBJ_SHARED_INTEGERS : Z := 10000.
Definition OBJ_ENCODING_EMBSTR_SIZE_LIMIT : Z := 44.
Definition OBJ_SET_NO_FLAGS : Z := 0.
Definition OBJ_SET_NX : Z := Z.shiftl 1 0.
Definition OBJ_SET_XX : Z := Z.shiftl 1 1.
Definition OBJ_SET_EX : Z := Z.shiftl 1 2.
Definition OBJ_SET_PX : Z := Z.shiftl 1 3.
Definition OBJ_SET_KEEPTTL : Z := Z.shiftl 1 4.

Section StringCmd.
Context `{Alloc, dictType bytes}.
Abbreviation st := (keyspace svalue).
Implicit Types (e : kenv) (i : nat) (key : bytes) (s : keyspace svalue) (o : svalue).

(** ** Objects *)

Definition createStringObject (ptr : bytes) : svalue :=
  if zlen ptr <=? OBJ_ENCODING_EMBSTR_SIZE_LIMIT then SEmb ptr else SRaw ptr.

Definition createStringObjectFromLongLongWithOptions e (value : Z) (valueobj : bool) : option svalue :=
  let valueobj := if shared_integers e then false else valueobj in
  if (value >=? 0) && (value <? OBJ_SHARED_INTEGERS) && negb valueobj then Some (SInt true value) else
  if (value >=? LONG_MIN) && (value <=? LONG_MAX) then Some (SInt false value) else
  let! ptr := sdsfromlonglong (realloc [] SDS_LLSTR_SIZE) value in Some (SRaw ptr).
Definition createStringObjectFromLongLong e value := createStringObjectFromLongLongWithOptions e value false.
Definition createStringObjectFromLongLongForValue e value := createStringObjectFromLongLongWithOptions e value true.

(** [len = ll2string(buf,32,value)]: the bytes written *)
Definition int_string (value : Z) : option bytes :=
  let! (len, buf) := ll2string (realloc [] 32) 32 value in
  Some (take (Z.to_nat len) buf).

(** The free space at the end of a string is not shown, so [trimStringObjectIfNeeded] changes nothing. *)
Definition tryObjectEncoding e o : option svalue :=
  match o with
  | SOther _ => None
  | SInt _ _ => Some o
  | SEmb ptr | SRaw ptr =>
      let len := zlen ptr in
      match (if len <=? 20 then string2l ptr else None) with
      | Some value =>
          if shared_integers e && (value >=? 0) && (value <? OBJ_SHARED_INTEGERS) then Some (SInt true value) else
          match o with
          | SRaw _ => Some (SInt false value)
          | _ => createStringObjectFromLongLongForValue e value
          end
      | None => Some (if len <=? OBJ_ENCODING_EMBSTR_SIZE_LIMIT then SEmb ptr else o)
      end
  end.

Definition getDecodedObject o : option svalue :=
  match o with
  | SEmb _ | SRaw _ => Some o
  | SInt _ value =>
      let! (_, buf) := ll2string (realloc [] 32) 32 value in
      Some (createStringObject (c_str buf))
  | SOther _ => None
  end.

Definition stringObjectLen o : option Z :=
  match o with
  | SEmb ptr | SRaw ptr => Some (zlen ptr)
  | SInt _ value => Some (sdigits10 value)
  | SOther _ => None
  end.

(** [None] is [C_ERR]; the outer option is a failed assertion. *)
Definition getLongLongFromObject (o : option svalue) : option (option Z) :=
  match o with
  | None => Some (Some 0)
  | Some (SEmb ptr) | Some (SRaw ptr) => Some (string2ll ptr)
  | Some (SInt _ value) => Some (Some value)
  | Some (SOther _) => None
  end.

(** The bytes of an sds string *)
Definition sds_ptr o : option bytes := match o with SEmb ptr | SRaw ptr => Some ptr | _ => None end.

(** The bytes [addReplyBulk(c,o)] sends *)
Definition reply_string o : option bytes :=
  match o with
  | SEmb ptr | SRaw ptr => Some ptr
  | SInt _ value => int_string value
  | SOther _ => None
  end.

Definition err_integer : reply := ReplyError "value is not an integer or out of range".

(** [checkType(c,o,OBJ_STRING)] fails *)
Definition not_string o : bool := negb (obj_type o =? OBJ_STRING).

(** [size] is converted to a long long. *)
Definition checkStringLength e (size : Z) : bool :=
  negb (negb (master_client e) && (i64 size >? proto_max_bulk_len e)).
Definition err_length : reply := ReplyError "string exceeds maximum allowed size (proto-max-bulk-len)".

(** The object that may be modified in place *)
Definition dbUnshareStringValue e i key o s : option (svalue * st) :=
  match o with
  | SRaw _ => Some (o, s)
  | _ =>
      let! decoded := getDecodedObject o in
      let! ptr := sds_ptr decoded in
      let! s := dbOverwrite e i key (createObject e (SRaw ptr)) s in
      Some (SRaw ptr, s)
  end.

(** ** SET and its variants *)

Definition has (flags f : Z) : bool := negb (Z.land flags f =? 0).

(** A lookup made only when the flag is set *)
Definition lookup_if e (c : bool) i key s : option (option (option (robj svalue)) * st) :=
  if c then let! (o, s) := lookupKeyWrite e i key s in Some (Some o, s) else Some (None, s).

Definition set_aborts e (flags : Z) i key s : option (bool * st) :=
  let! (o, s) := lookup_if e (has flags OBJ_SET_NX) i key s in
  match o with
  | Some (Some _) => Some (true, s)
  | _ =>
      let! (o, s) := lookup_if e (has flags OBJ_SET_XX) i key s in
      Some (match o with Some None => true | _ => false end, s)
  end.

(** [expire] and whether it is in seconds; the sums and products of long longs wrap around.  The error
    also names the command. *)
Definition expire_arg (expire : option bytes) (seconds : bool) : reply + option Z :=
  match expire with
  | None => inr None
  | Some p =>
      match string2ll p with
      | None => inl err_integer
      | Some ms => if ms <=? 0 then inl (ReplyError "invalid expire time") else inr (Some (if seconds then i64 (ms * 1000) else ms))
      end
  end.

Definition setGenericCommand e (flags : Z) i key o (expire : option bytes) (seconds : bool) (ok_reply abort_reply : reply) s : option st :=
  match expire_arg expire seconds with
  | inl r => Some (addReply r s)
  | inr ms =>
      let! (abort, s) := set_aborts e flags i key s in
      if (abort : bool) then Some (addReply abort_reply s) else
      let! s := genericSetKey e i key (createObject e o) (has flags OBJ_SET_KEEPTTL) true s in
      let s := add_dirty 1 s in
      let! s := match ms with Some ms => setExpire e i key (i64 (mstime e + ms)) s | None => Some s end in
      let s := notifyKeyspaceEvent "set" key i s in
      let s := match ms with Some _ => notifyKeyspaceEvent "expire" key i s | None => s end in
      Some (addReply ok_reply s)
  end.

(** [a[n]], the terminator after the last byte *)
Definition ch (a : bytes) (n : nat) : Z := default 0 (a !! n).
(** [(a[0] == 'n' || a[0] == 'N') && (a[1] == 'x' || a[1] == 'X') && a[2] == '\0'], given the letter *)
Definition is_opt (a : bytes) (c : Z) : bool :=
  ((ch a 0 =? c) || (ch a 0 =? c - 32)) && ((ch a 1 =? 120) || (ch a 1 =? 88)) && (ch a 2 =? 0).

(** The options: flags, the expiration and its unit; [None] is a syntax error *)
Fixpoint set_options (args : list bytes) (flags : Z) (expire : option bytes) (seconds : bool) : option (Z * option bytes * bool) :=
  match args with
  | [] => Some (flags, expire, seconds)
  | a :: rest =>
      if is_opt a 110 && negb (has flags OBJ_SET_XX) then set_options rest (Z.lor flags OBJ_SET_NX) expire seconds else
      if is_opt a 120 && negb (has flags OBJ_SET_NX) then set_options rest (Z.lor flags OBJ_SET_XX) expire seconds else
      if same_nocase a [75;69;69;80;84;84;76] && negb (has flags OBJ_SET_EX) && negb (has flags OBJ_SET_PX) then
        set_options rest (Z.lor flags OBJ_SET_KEEPTTL) expire seconds else
      match rest with
      | next :: rest' =>
          if is_opt a 101 && negb (has flags OBJ_SET_KEEPTTL) && negb (has flags OBJ_SET_PX) then
            set_options rest' (Z.lor flags OBJ_SET_EX) (Some next) true else
          if is_opt a 112 && negb (has flags OBJ_SET_KEEPTTL) && negb (has flags OBJ_SET_EX) then
            set_options rest' (Z.lor flags OBJ_SET_PX) (Some next) false else None
      | [] => None
      end
  end.

Definition setCommand e i key (val : svalue) (args : list bytes) s : option st :=
  match set_options args OBJ_SET_NO_FLAGS None true with
  | None => Some (addReply ReplySyntax s)
  | Some (flags, expire, seconds) =>
      let! o := tryObjectEncoding e val in
      setGenericCommand e flags i key o expire seconds ReplyOk ReplyNull s
  end.
Definition setnxCommand e i key (val : svalue) s : option st :=
  let! o := tryObjectEncoding e val in
  setGenericCommand e OBJ_SET_NX i key o None true (ReplyInt 1) (ReplyInt 0) s.
Definition setexCommand e i key (expire : bytes) (val : svalue) s : option st :=
  let! o := tryObjectEncoding e val in
  setGenericCommand e OBJ_SET_NO_FLAGS i key o (Some expire) true ReplyOk ReplyNull s.
Definition psetexCommand e i key (expire : bytes) (val : svalue) s : option st :=
  let! o := tryObjectEncoding e val in
  setGenericCommand e OBJ_SET_NO_FLAGS i key o (Some expire) false ReplyOk ReplyNull s.

(** ** GET, GETSET, MGET, MSET and STRLEN *)

(** Whether the result is [C_OK] *)
Definition getGenericCommand e i key s : option (bool * st) :=
  let! (o, s) := lookupKeyReadOrReply e i key ReplyNull s in
  match o with
  | None => Some (true, s)
  | Some o =>
      if not_string (ptr o) then Some (false, addReply ReplyWrongType s) else
      let! r := reply_string (ptr o) in
      Some (true, addReply (ReplyBulk r) s)
  end.
Definition getCommand e i key s : option st := let! (_, s) := getGenericCommand e i key s in Some s.

Definition getsetCommand e i key (val : svalue) s : option st :=
  let! (ok, s) := getGenericCommand e i key s in
  if negb ok then Some s else
  let! o := tryObjectEncoding e val in
  let! s := setKey e i key (createObject e o) s in
  Some (add_dirty 1 (notifyKeyspaceEvent "set" key i s)).

Fixpoint mget_loop e i (keys : list bytes) s : option st :=
  match keys with
  | [] => Some s
  | key :: keys =>
      let! (o, s) := lookupKeyRead e i key s in
      let! r := match o with
                | None => Some ReplyNull
                | Some o => if not_string (ptr o) then Some ReplyNull else let! r := reply_string (ptr o) in Some (ReplyBulk r)
                end in
      mget_loop e i keys (addReply r s)
  end.
Definition mgetCommand e i (keys : list bytes) s : option st := mget_loop e i keys (addReply (ReplyArrayLen (zlen keys)) s).

(** Whether a key exists *)
Fixpoint any_exists e i (pairs : list (bytes * svalue)) s : option (bool * st) :=
  match pairs with
  | [] => Some (false, s)
  | (key, _) :: pairs =>
      let! (o, s) := lookupKeyWrite e i key s in
      match o with Some _ => Some (true, s) | None => any_exists e i pairs s end
  end.
Fixpoint mset_loop e i (pairs : list (bytes * svalue)) s : option st :=
  match pairs with
  | [] => Some s
  | (key, val) :: pairs =>
      let! o := tryObjectEncoding e val in
      let! s := setKey e i key (createObject e o) s in
      mset_loop e i pairs (notifyKeyspaceEvent "set" key i s)
  end.
Fixpoint pairs_of (args : list svalue) : option (list (bytes * svalue)) :=
  match args with
  | [] => Some []
  | key :: val :: args => let! k := sds_ptr key in let! l := pairs_of args in Some ((k, val) :: l)
  | [_] => None
  end.
(** The arguments after the name *)
Definition msetGenericCommand e i (args : list svalue) (nx : bool) s : option st :=
  if (zlen args + 1) mod 2 =? 0 then Some (addReply (ReplyError "wrong number of arguments for MSET") s) else
  let! pairs := pairs_of args in
  let! (busy, s) := (if nx then any_exists e i pairs s else Some (false, s)) in
  if (busy : bool) then Some (addReply (ReplyInt 0) s) else
  let! s := mset_loop e i pairs s in
  Some (addReply (if nx then ReplyInt 1 else ReplyOk) (add_dirty (zlen args / 2) s)).
Definition msetCommand e i args s := msetGenericCommand e i args false s.
Definition msetnxCommand e i args s := msetGenericCommand e i args true s.

Definition strlenCommand e i key s : option st :=
  let! (o, s) := lookupKeyReadOrReply e i key (ReplyInt 0) s in
  match o with
  | None => Some s
  | Some o =>
      if not_string (ptr o) then Some (addReply ReplyWrongType s) else
      let! n := stringObjectLen (ptr o) in
      Some (addReply (ReplyInt (i64 n)) s)
  end.

(** ** SETRANGE and GETRANGE *)

(** [sdsgrowzero(ptr,offset+len)] and the [memcpy] of [value] to [offset] *)
Definition write_range (ptr : bytes) (offset : Z) (value : bytes) : bytes :=
  let ptr := ptr ++ replicate (Z.to_nat (offset + zlen value - zlen ptr)) 0 in
  take (Z.to_nat offset) ptr ++ value ++ drop (Z.to_nat (offset + zlen value)) ptr.

(** No block is larger than PTRDIFF_MAX, and [zmalloc] stops the server when there is none. *)
Definition sds_alloc (len : Z) : option unit := if len + 1 <? 2 ^ 63 then Some tt else None.

Definition setrange_finish i key o (offset : Z) (value : bytes) s : option st :=
  match o with
  | SRaw ptr =>
      let! _ := (if zlen ptr <? offset + zlen value then sds_alloc (offset + zlen value) else Some tt) in
      let ptr := write_range ptr offset value in
      let! s := store_obj i key (SRaw ptr) s in
      let s := notifyKeyspaceEvent "setrange" key i (signalModifiedKey i key s) in
      Some (addReply (ReplyInt (i64 (zlen ptr))) (add_dirty 1 s))
  | _ => None
  end.

Definition setrangeCommand e i key (offset value : bytes) s : option st :=
  match string2ll offset with
  | None => Some (addReply err_integer s)
  | Some offset =>
      if offset <? 0 then Some (addReply (ReplyError "offset is out of range") s) else
      let! (o, s) := lookupKeyWrite e i key s in
      match o with
      | None =>
          if zlen value =? 0 then Some (addReply (ReplyInt 0) s) else
          if negb (checkStringLength e (offset + zlen value)) then Some (addReply err_length s) else
          let! _ := sds_alloc (offset + zlen value) in
          let o := SRaw (replicate (Z.to_nat (offset + zlen value)) 0) in
          let! s := dbAdd e i key (createObject e o) s in
          setrange_finish i key o offset value s
      | Some o =>
          if not_string (ptr o) then Some (addReply ReplyWrongType s) else
          let! olen := stringObjectLen (ptr o) in
          if zlen value =? 0 then Some (addReply (ReplyInt (i64 olen)) s) else
          if negb (checkStringLength e (offset + zlen value)) then Some (addReply err_length s) else
          let! (o, s) := dbUnshareStringValue e i key (ptr o) s in
          setrange_finish i key o offset value s
      end
  end.

(** The bytes from [start] to [end]; [strlen] is a size_t, so that sums with it are unsigned. *)
Definition range_of (str : bytes) (start end_ : Z) : bytes :=
  let strlen := zlen str in
  if (start <? 0) && (end_ <? 0) && (start >? end_) then [] else
  let start := if start <? 0 then i64 (u64 (strlen + start)) else start in
  let end_ := if end_ <? 0 then i64 (u64 (strlen + end_)) else end_ in
  let start := if start <? 0 then 0 else start in
  let end_ := if end_ <? 0 then 0 else end_ in
  let end_ := if u64 end_ >=? strlen then i64 (u64 (strlen - 1)) else end_ in
  if (start >? end_) || (strlen =? 0) then []
  else take (Z.to_nat (end_ - start + 1)) (drop (Z.to_nat start) str).

Definition getrangeCommand e i key (start end_ : bytes) s : option st :=
  match string2ll start, string2ll end_ with
  | Some start, Some end_ =>
      let! (o, s) := lookupKeyReadOrReply e i key (ReplyBulk []) s in
      match o with
      | None => Some s
      | Some o =>
          if not_string (ptr o) then Some (addReply ReplyWrongType s) else
          let! str := reply_string (ptr o) in
          Some (addReply (ReplyBulk (range_of str start end_)) s)
      end
  | _, _ => Some (addReply err_integer s)
  end.

(** ** INCR, DECR and APPEND *)

(** The integer of an object that is not shared is changed in place. *)
Definition set_int o (value : Z) : option svalue := match o with SInt false _ => Some (SInt false value) | _ => None end.

(** [o->refcount == 1 && o->encoding == OBJ_ENCODING_INT] *)
Definition is_private_int o : bool := match o with SInt shared _ => negb shared | _ => false end.

Definition incrDecrCommand e i key (incr : Z) s : option st :=
  let! (o, s) := lookupKeyWrite e i key s in
  if match o with Some o => not_string (ptr o) | None => false end then Some (addReply ReplyWrongType s) else
  let! value := getLongLongFromObject (match o with Some o => Some (ptr o) | None => None end) in
  match value with
  | None => Some (addReply err_integer s)
  | Some oldvalue =>
      if ((incr <? 0) && (oldvalue <? 0) && (incr <? LLONG_MIN - oldvalue)) ||
         ((incr >? 0) && (oldvalue >? 0) && (incr >? LLONG_MAX - oldvalue)) then
        Some (addReply (ReplyError "increment or decrement would overflow") s)
      else
      let value := i64 (oldvalue + incr) in
      let! s := match o with
                | Some o =>
                    if is_private_int (ptr o) && ((value <? 0) || (value >=? OBJ_SHARED_INTEGERS)) &&
                       (value >=? LONG_MIN) && (value <=? LONG_MAX) then
                      let! v := set_int (ptr o) value in store_obj i key v s
                    else
                      let! new := createStringObjectFromLongLongForValue e value in
                      dbOverwrite e i key (createObject e new) s
                | None =>
                    let! new := createStringObjectFromLongLongForValue e value in
                    dbAdd e i key (createObject e new) s
                end in
      let s := notifyKeyspaceEvent "incrby" key i (signalModifiedKey i key s) in
      Some (addReply (ReplyInt value) (add_dirty 1 s))
  end.
Definition incrCommand e i key s := incrDecrCommand e i key 1 s.
Definition decrCommand e i key s := incrDecrCommand e i key (-1) s.
Definition incrbyCommand e i key (arg : bytes) s : option st :=
  match string2ll arg with
  | None => Some (addReply err_integer s)
  | Some incr => incrDecrCommand e i key incr s
  end.
(** The negation is that of a long long. *)
Definition decrbyCommand e i key (arg : bytes) s : option st :=
  match string2ll arg with
  | None => Some (addReply err_integer s)
  | Some incr => incrDecrCommand e i key (i64 (- incr)) s
  end.

Definition append_finish i key (totlen : Z) s : option st :=
  let s := notifyKeyspaceEvent "append" key i (signalModifiedKey i key s) in
  Some (addReply (ReplyInt (i64 totlen)) (add_dirty 1 s)).

Definition appendCommand e i key (append : svalue) s : option st :=
  let! (o, s) := lookupKeyWrite e i key s in
  match o with
  | None =>
      let! o := tryObjectEncoding e append in
      let! s := dbAdd e i key (createObject e o) s in
      let! totlen := stringObjectLen o in
      append_finish i key totlen s
  | Some o =>
      if not_string (ptr o) then Some (addReply ReplyWrongType s) else
      let! olen := stringObjectLen (ptr o) in
      let! append := sds_ptr append in
      if negb (checkStringLength e (u64 (olen + zlen append))) then Some (addReply err_length s) else
      let! (o, s) := dbUnshareStringValue e i key (ptr o) s in
      match o with
      | SRaw ptr =>
          let! s := store_obj i key (SRaw (ptr ++ append)) s in
          append_finish i key (zlen (ptr ++ append)) s
      | _ => None
      end
  end.
End StringCmd.
