(* ===== verification/StringSpec.v ===== *)
(** * The string commands refine a finite map of byte strings *)

From Stdlib Require Import ZArith Lia String.
From stdpp Require Import base numbers option fin_maps gmap list.
From S2P Require Import Prelude Memory Util UtilFacts Glob Sds SdsNumber Server Dict DictFacts DictSpec Keyspace KeyspaceFacts KeyspaceSpec StringCmd.

Local Open Scope Z_scope.
Local Open Scope redis_scope.

(** A string, or a value of another type *)
Inductive sabs := AStr (s : bytes) | ANot (t : Z).
#[global] Instance sabs_eq_dec : EqDecision sabs.
Proof. solve_decision. Defined.

(** An integer object stands for the notation of its integer. *)
Definition svalue_rep (v : svalue) (a : sabs) : Prop :=
  match a, v with
  | AStr s, SInt _ z => string2ll s = Some z
  | AStr s, (SEmb s' | SRaw s') => s' = s
  | ANot t, SOther t' => t' = t /\ t <> OBJ_STRING
  | _, _ => False
  end.

Section Spec.
Context `{!Alloc, !dictType bytes, !DictTypeOk bytes}.
Implicit Types (e : kenv) (i : nat) (k : bytes) (m : absdb sabs) (v : svalue) (s : bytes).
#[local] Instance str_rep : Rep svalue sabs := svalue_rep.

(** ** Objects *)

Lemma not_string_rep v a : svalue_rep v a -> not_string v = match a with AStr _ => false | ANot _ => true end.
Proof.
  unfold not_string, obj_type, svalue_type. destruct a as [s|t], v as [sh z|s'|s'|t']; simpl; try done.
  intros [-> Ht]. by rewrite (proj2 (Z.eqb_neq _ _) Ht).
Qed.

Lemma fresh_len n : 0 <= n -> zlen (realloc [] n) = n.
Proof. intros Hn. unfold realloc. rewrite zlen_app, zlen_take, zlen_nil, zlen_map. unfold zlen. rewrite length_seq. simpl. lia. Qed.


Lemma c_str_digits s r : Forall (fun c => c <> 0) s -> c_str (s ++ 0 :: r) = s.
Proof.
  induction s as [|c s IH]; intros Hs; simpl; [done|]. apply Forall_cons in Hs as [Hc Hs].
  rewrite (proj2 (Z.eqb_neq _ _) Hc). by rewrite IH.
Qed.
Lemma decimal_no_nul s z : decimal s z -> Forall (fun c => c <> 0) s.
Proof.
  assert (forall t u, udecimal t u -> Forall (fun c => c <> 0) t) as Hu.
  { intros t u (_ & Hd & _). eapply Forall_impl; [exact Hd|]. unfold digit. lia. }
  intros [Hx|(t & -> & _ & Hx)]; [by eapply Hu|]. constructor; [done|by eapply Hu].
Qed.

Lemma print_ok s z : string2ll s = Some z ->
  is_s 64 z /\ sdigits10 z = zlen s /\ zlen s < 32 /\ exists r, ll2string (realloc [] 32) 32 z = Some (zlen s, s ++ 0 :: r).
Proof.
  intros [Hd Hz]%string2ll_iff. destruct (ll2string_prints (realloc [] 32) 32 z Hz) as (s' & Hd' & Hl & HE).
  { rewrite fresh_len; lia. }
  assert (s' = s) as -> by by eapply decimal_unique. pose proof (decimal_printed_length s z Hz Hd) as Hp.
  pose proof (printed_length_bound z Hz). assert (zlen s < 32) as Hs by lia. rewrite (proj2 (Z.ltb_lt _ _) Hs) in HE. eauto.
Qed.

Definition print (z : Z) : bytes := default [] (int_string z).
Lemma int_string_ok s z : string2ll s = Some z -> int_string z = Some s.
Proof.
  intros Hs. destruct (print_ok s z Hs) as (_ & _ & _ & r & HE). unfold int_string. rewrite HE. mstep. unfold zlen.
  by rewrite Nat2Z.id, take_app_length.
Qed.
Lemma string2ll_print z : is_s 64 z -> string2ll (print z) = Some z.
Proof.
  intros Hz. destruct (decimal_exists z Hz) as [s Hs]. assert (string2ll s = Some z) as Hl by by apply string2ll_iff.
  unfold print. by rewrite (int_string_ok s z Hl).
Qed.

Lemma reply_string_ok v s : svalue_rep v (AStr s) -> reply_string v = Some s.
Proof. destruct v as [sh z|s'|s'|t]; simpl; try done; [apply int_string_ok|by intros ->..]. Qed.
Lemma len_ok v s : svalue_rep v (AStr s) -> stringObjectLen v = Some (zlen s).
Proof. destruct v as [sh z|s'|s'|t]; simpl; try done; [|by intros ->..]. intros Hs. f_equal. by apply print_ok. Qed.
Lemma decoded_ok v s : svalue_rep v (AStr s) -> exists v', getDecodedObject v = Some v' /\ sds_ptr v' = Some s.
Proof.
  destruct v as [sh z|s'|s'|t]; simpl; try done; [|intros ->; by eexists..]. intros Hs. destruct (print_ok s z Hs) as (_ & _ & _ & r & HE).
  rewrite HE. mstep. eexists. split; [done|]. apply string2ll_iff in Hs as [Hd _].
  rewrite c_str_digits by by eapply decimal_no_nul. unfold createStringObject. by casif.
Qed.

Lemma for_value_ok e z : is_s 64 z -> exists o, createStringObjectFromLongLongForValue e z = Some o /\ svalue_rep o (AStr (print z)).
Proof.
  intros Hz. pose proof (string2ll_print z Hz) as Hp. unfold createStringObjectFromLongLongForValue, createStringObjectFromLongLongWithOptions.
  casif; [by eexists|]. rewrite Z.geb_leb, (proj2 (Z.leb_le LONG_MIN z)), (proj2 (Z.leb_le z LONG_MAX)) by (unfold LONG_MIN, LONG_MAX, INT64_MIN, INT64_MAX, is_s in *; lia).
  by eexists.
Qed.

(** An argument is the sds string of its bytes. *)
Lemma encode_ok e v s : sds_ptr v = Some s -> exists o, tryObjectEncoding e v = Some o /\ svalue_rep o (AStr s).
Proof.
  intros Hv. destruct v as [sh z|s'|s'|t]; simpl in *; try done; injection Hv as ->.
  - destruct (if zlen s <=? 20 then string2l s else None) as [z|] eqn:E.
    + assert (string2ll s = Some z) as Hz.
      { destruct (zlen s <=? 20); [|done]. unfold string2l in E. destruct (string2ll s); [|done]. simpl in E. by destruct (_ || _). }
      casif; [by eexists|]. destruct (for_value_ok e z) as (o & -> & Ho); [by apply string2ll_iff in Hz as [_ ?]|].
      exists o. split; [done|]. unfold print in Ho. by rewrite (int_string_ok s z Hz) in Ho.
    + casif; by eexists.
  - destruct (if zlen s <=? 20 then string2l s else None) as [z|] eqn:E.
    + assert (string2ll s = Some z) as Hz.
      { destruct (zlen s <=? 20); [|done]. unfold string2l in E. destruct (string2ll s); [|done]. simpl in E. by destruct (_ || _). }
      casif; by eexists.
    + casif; by eexists.
Qed.

(** ** SET and its variants *)

Definition nx_or_xx (flags : Z) : bool := has flags OBJ_SET_NX || has flags OBJ_SET_XX.
Definition aborts e (flags : Z) m k : bool :=
  (has flags OBJ_SET_NX && bool_decide (is_Some (purge e m k !! k))) || (has flags OBJ_SET_XX && bool_decide (purge e m k !! k = None)).

Lemma lookup_if_ok e c i m k :
  does i m (lookup_if e c i k) (fun o m' evs n =>
    (if c then exists x, o = Some x /\ found x (purge e m k !! k) else o = None) /\ m' = (if c then purge e m k else m) /\
    replies evs = [] /\ signalled i m m' evs 0 /\ n = 0).
Proof.
  destruct c; [|apply does_ret; split_and!; try done; by apply signalled_refl]. apply does_intro. intros s0 ms s Hat.
  unfold lookup_if, lookupKeyWrite. run (lookupKeyWrite_ok e i m k LOOKUP_NONE) o. destruct HQ as (Ho & -> & -> & ->). finish.
  split_and!; try done; [by eexists|apply purge_replies|apply purge_signalled].
Qed.

Lemma set_aborts_ok e flags i m k :
  does i m (set_aborts e flags i k) (fun b m' evs n =>
    b = aborts e flags m k /\ (m' = purge e m k \/ (m' = m /\ b = false)) /\ replies evs = [] /\ signalled i m m' evs 0 /\ n = 0).
Proof.
  apply does_intro. intros s0 ms s Hat. unfold set_aborts, aborts. run (lookup_if_ok e (has flags OBJ_SET_NX) i m k) o.
  destruct HQ as (Ho & -> & Hr & Hs & ->). set (m1 := if has flags OBJ_SET_NX then purge e m k else m) in *.
  assert (purge e m1 k = purge e m k) as Hp by (subst m1; destruct (has flags OBJ_SET_NX); [apply purge_purge|done]).
  assert (match o with Some (Some _) => True | _ => False end <-> has flags OBJ_SET_NX && bool_decide (is_Some (purge e m k !! k)) = true) as Hab.
  { destruct (has flags OBJ_SET_NX); simpl; [|by subst o]. destruct Ho as (x & -> & Hx). rewrite bool_decide_eq_true.
    destruct x as [x|], (purge e m k !! k) as [[a t]|]; try done; split; try done; eauto; by intros [? ?]. }
  destruct o as [[o|]|].
  - rewrite (proj1 Hab) by done. finish. split_and!; try done. left. destruct (has flags OBJ_SET_NX); done.
  - destruct (has flags OBJ_SET_NX && bool_decide (is_Some (purge e m k !! k))); [by destruct (proj2 Hab)|]. simpl orb.
    run (lookup_if_ok e (has flags OBJ_SET_XX) i m1 k) o. destruct HQ as (Ho' & -> & Hr' & Hs' & ->). rewrite Hp in *. finish.
    split_and!; [|..|by rewrite replies_app, Hr, Hr'|by apply (signalled_trans i m m1 _ _ _ 0 0)|done].
    + destruct (has flags OBJ_SET_XX); simpl; [|by subst o]. destruct Ho' as (x & -> & Hx).
      destruct x as [x|], (purge e m k !! k) as [[a t]|]; try done.
    + destruct (has flags OBJ_SET_XX); [by left|]. subst m1 o. destruct (has flags OBJ_SET_NX); [by left|by right].
  - destruct (has flags OBJ_SET_NX && bool_decide (is_Some (purge e m k !! k))); [by destruct (proj2 Hab)|]. simpl orb.
    run (lookup_if_ok e (has flags OBJ_SET_XX) i m1 k) o. destruct HQ as (Ho' & -> & Hr' & Hs' & ->). rewrite Hp in *. finish.
    split_and!; [|..|by rewrite replies_app, Hr, Hr'|by apply (signalled_trans i m m1 _ _ _ 0 0)|done].
    + destruct (has flags OBJ_SET_XX); simpl; [|by subst o]. destruct Ho' as (x & -> & Hx).
      destruct x as [x|], (purge e m k !! k) as [[a t]|]; try done.
    + destruct (has flags OBJ_SET_XX); [by left|]. subst m1 o. destruct (has flags OBJ_SET_NX); [by left|by right].
Qed.

(** What the flags of the code ask for, with its arithmetic *)
Definition set_result e (flags : Z) m k s (expire : option bytes) (seconds : bool) (ok_reply abort_reply : reply) : absdb sabs * reply :=
  match expire_arg expire seconds with
  | inl r => (m, r)
  | inr ms =>
      if aborts e flags m k then (purge e m k, abort_reply) else
      let t := match ms with Some ms => Some (i64 (mstime e + ms)) | None => old_time e m k (has flags OBJ_SET_KEEPTTL) end in
      (<[k := (AStr s, t)]> m, ok_reply)
  end.

Lemma old_time_purge e m k b : old_time e (purge e m k) k b = old_time e m k b.
Proof. unfold old_time. by rewrite purge_purge. Qed.

Lemma set_generic_ok e flags i m k o s expire seconds ok_reply abort_reply :
  Z.of_nat (base.size m) < 2 ^ 57 -> svalue_rep o (AStr s) ->
  does i m (unit_of (setGenericCommand e flags i k o expire seconds ok_reply abort_reply)) (fun _ m' evs n =>
    m' = fst (set_result e flags m k s expire seconds ok_reply abort_reply) /\
    replies evs = [snd (set_result e flags m k s expire seconds ok_reply abort_reply)] /\ signalled i m m' evs n).
Proof.
  intros Hsz Ho. apply does_intro. intros s0 ms st Hat. unfold unit_of, setGenericCommand, set_result.
  destruct (expire_arg expire seconds) as [r|t]; [simpl; finish; split_and!; try done; by apply signalled_refl|].
  run (set_aborts_ok e flags i m k) b. destruct HQ as (-> & Hm' & Hr & Hs & ->).
  destruct (aborts e flags m k); [finish; rewrite replies_app, Hr; destruct Hm' as [-> | [_ ?]]; [|done]; split_and!; try done; by apply signalled_app|].
  assert (purge e m' k = purge e m k) as Hp by (destruct Hm' as [-> | [-> _]]; [apply purge_purge|done]).
  assert (Z.of_nat (base.size m') < 2 ^ 57) as Hsz'.
  { apply (small_sub m); [done|]. destruct Hm' as [-> | [-> _]]; [apply purge_mono|by left]. }
  exec (set_ok e i m' k (createObject e o) (AStr s) (has flags OBJ_SET_KEEPTTL) true (room_small _ Hsz') Ho).
  destruct HQ as (-> & Hr1 & -> & Hm1). rewrite Hp, insert_purge in *.
  assert (old_time e m' k (has flags OBJ_SET_KEEPTTL) = old_time e m k (has flags OBJ_SET_KEEPTTL)) as Hot.
  { destruct Hm' as [-> | [-> _]]; [apply old_time_purge|done]. }
  rewrite Hot in *. specialize (Hm1 eq_refl). destruct t as [t|].
  - exec (setExpire_ok e i _ k (AStr s) _ (i64 (mstime e + t)) (lookup_insert_eq m k (AStr s, old_time e m k (has flags OBJ_SET_KEEPTTL)))
      (room_insert m k _ Hsz)). destruct HQ as (-> & -> & ->).
    rewrite insert_insert_eq in *. finish. split_and!; [done| |].
    + by rewrite !replies_app, Hr, Hr1, slave_key_replies.
    + apply (signalled_one i m k); [done|set_solver|]. intros k' Hne. by rewrite lookup_insert_ne.
  - finish. split_and!; [done| |].
    + by rewrite !replies_app, Hr, Hr1.
    + apply (signalled_one i m k); [done|set_solver|]. intros k' Hne. by rewrite lookup_insert_ne.
Qed.

(** ** Reading *)

Definition read_str e m k (none : reply) (f : bytes -> reply) : reply :=
  match visible e (m !! k) with
  | Some (AStr s, _) => f s
  | Some (ANot _, _) => ReplyWrongType
  | None => none
  end.

(** A command that looks a string up and replies with something about it *)
Lemma reading_ok e i m k none f (body : svalue -> option reply) :
  (forall v s, svalue_rep v (AStr s) -> body v = Some (f s)) ->
  does i m (unit_of (fun s : keyspace svalue => let! (o, s) := lookupKeyReadOrReply e i k none s in
                              match o with
                              | None => Some s
                              | Some o => if not_string (ptr o) then Some (addReply ReplyWrongType s) else
                                          let! r := body (ptr o) in Some (addReply r s)
                              end)) (fun _ m' evs n =>
    m' = purge e m k /\ replies evs = [read_str e m k none f] /\ signalled i m m' evs n).
Proof.
  intros Hb. apply does_intro. intros s0 ms s Hat. unfold unit_of, lookupKeyReadOrReply, lookupKeyRead, read_str.
  run (lookupKeyRead_ok e i m k LOOKUP_NONE) o. destruct HQ as (Ho & -> & -> & ->).
  destruct (visible e (m !! k)) as [[[str|ty] t]|] eqn:Ev, o as [o|]; try done; simpl in Ho; simpl.
  - rewrite (not_string_rep _ (AStr str)), (Hb _ str) by done. mstep. finish. rewrite !replies_app, purge_replies.
    split_and!; try done. apply signalled_app, purge_signalled.
  - rewrite (not_string_rep _ (ANot ty)) by done. finish. rewrite !replies_app, purge_replies.
    split_and!; try done. apply signalled_app, purge_signalled.
  - finish. rewrite !replies_app, purge_replies. split_and!; try done. apply signalled_app, purge_signalled.
Qed.

Lemma strlen_ok e i m k :
  does i m (unit_of (strlenCommand e i k)) (fun _ m' evs n =>
    m' = purge e m k /\ replies evs = [read_str e m k (ReplyInt 0) (fun s => ReplyInt (i64 (zlen s)))] /\ signalled i m m' evs n).
Proof.
  intros s ms Hr Hi.
  destruct (reading_ok e i m k (ReplyInt 0) (fun s => ReplyInt (i64 (zlen s))) (fun v => let! n := stringObjectLen v in Some (ReplyInt (i64 n)))) with (s := s) (ms := ms)
    as (u & s' & m' & evs & n & HE & ?); try done.
  { intros v str Hv. by rewrite (len_ok v str Hv). }
  exists u, s', m', evs, n. split; [|done]. rewrite <- HE. unfold unit_of, strlenCommand.
  destruct (lookupKeyReadOrReply e i k (ReplyInt 0) s) as [[[o|] s1]|]; [|done..]. simpl. destruct (not_string (ptr o)); [done|].
  by destruct (stringObjectLen (ptr o)).
Qed.

Lemma getrange_ok e i m k start end_ :
  does i m (unit_of (fun s : keyspace svalue => let! (o, s) := lookupKeyReadOrReply e i k (ReplyBulk []) s in
      match o with
      | None => Some s
      | Some o => if not_string (ptr o) then Some (addReply ReplyWrongType s) else
          let! str := reply_string (ptr o) in Some (addReply (ReplyBulk (range_of str start end_)) s)
      end)) (fun _ m' evs n =>
    m' = purge e m k /\ replies evs = [read_str e m k (ReplyBulk []) (fun s => ReplyBulk (range_of s start end_))] /\ signalled i m m' evs n).
Proof.
  intros s ms Hr Hi.
  destruct (reading_ok e i m k (ReplyBulk []) (fun s => ReplyBulk (range_of s start end_))
    (fun v => let! str := reply_string v in Some (ReplyBulk (range_of str start end_)))) with (s := s) (ms := ms)
    as (u & s' & m' & evs & n & HE & ?); try done.
  { intros v str Hv. by rewrite (reply_string_ok v str Hv). }
  exists u, s', m', evs, n. split; [|done]. rewrite <- HE. unfold unit_of.
  destruct (lookupKeyReadOrReply e i k (ReplyBulk []) s) as [[[o|] s1]|]; [|done..]. simpl. destruct (not_string (ptr o)); [done|].
  by destruct (reply_string (ptr o)).
Qed.

Lemma get_generic_ok e i m k :
  does i m (getGenericCommand e i k) (fun ok m' evs n =>
    ok = match visible e (m !! k) with Some (ANot _, _) => false | _ => true end /\
    m' = purge e m k /\ replies evs = [read_str e m k ReplyNull ReplyBulk] /\ signalled i m m' evs 0 /\ n = 0).
Proof.
  apply does_intro. intros s0 ms s Hat. unfold getGenericCommand, lookupKeyReadOrReply, lookupKeyRead, read_str.
  run (lookupKeyRead_ok e i m k LOOKUP_NONE) o. destruct HQ as (Ho & -> & -> & ->).
  destruct (visible e (m !! k)) as [[[str|ty] t]|] eqn:Ev, o as [o|]; try done; simpl in Ho; simpl.
  - rewrite (not_string_rep _ (AStr str)), (reply_string_ok _ str) by done. mstep. finish. rewrite !replies_app, purge_replies.
    split_and!; try done. apply signalled_app, purge_signalled.
  - rewrite (not_string_rep _ (ANot ty)) by done. finish. rewrite !replies_app, purge_replies.
    split_and!; try done. apply signalled_app, purge_signalled.
  - finish. rewrite !replies_app, purge_replies. split_and!; try done. apply signalled_app, purge_signalled.
Qed.

Definition getset_spec e m k s : absdb sabs :=
  match visible e (m !! k) with Some (ANot _, _) => purge e m k | _ => <[k := (AStr s, None)]> m end.

(** [setKey] with an argument *)
Lemma set_arg_ok e i m k o s :
  Z.of_nat (base.size m) < 2 ^ 57 -> svalue_rep o (AStr s) ->
  does i m (unit_of (setKey e i k (createObject e o))) (fun _ m' evs n =>
    m' = <[k := (AStr s, None)]> m /\ replies evs = [] /\ n = 0 /\ ModifiedKey i k ∈ evs).
Proof.
  intros Hsz Ho. eapply does_impl; [apply (set_ok e i m k (createObject e o) (AStr s) false true (room_small _ Hsz) Ho)|].
  intros _ m' evs n (-> & Hr & -> & Hm). rewrite insert_purge. auto.
Qed.

Lemma getset_ok e i m k val s :
  Z.of_nat (base.size m) < 2 ^ 57 -> sds_ptr val = Some s ->
  does i m (unit_of (getsetCommand e i k val)) (fun _ m' evs n =>
    m' = getset_spec e m k s /\ replies evs = [read_str e m k ReplyNull ReplyBulk] /\ signalled i m m' evs n).
Proof.
  intros Hsz Hv. apply does_intro. intros s0 ms st Hat. unfold unit_of, getsetCommand, getset_spec. run (get_generic_ok e i m k) ok.
  destruct HQ as (-> & -> & Hr & Hs & ->). destruct (encode_ok e val s Hv) as (o & He & Ho).
  assert (Z.of_nat (base.size (purge e m k)) < 2 ^ 57) as Hsz' by (apply (small_sub m); [done|apply purge_mono]).
  destruct (visible e (m !! k)) as [[[str|ty] t]|]; simpl; [|by finish|]; rewrite He; mstep;
    exec (set_arg_ok e i (purge e m k) k o s Hsz' Ho); destruct HQ as (-> & Hr' & -> & Hm); finish; rewrite insert_purge;
    (split_and!; [done|by rewrite !replies_app, Hr, Hr'|]);
    (apply (signalled_one i m k); [done|set_solver|]); intros k' Hne; by rewrite lookup_insert_ne.
Qed.

Definition mget_reply e m k : reply :=
  match visible e (m !! k) with Some (AStr s, _) => ReplyBulk s | _ => ReplyNull end.

Lemma mget_loop_ok e i keys : forall m,
  does i m (unit_of (mget_loop e i keys)) (fun _ m' evs n =>
    m' = purge_all e m keys /\ replies evs = mget_reply e m <$> keys /\ signalled i m m' evs 0 /\ n = 0).
Proof.
  induction keys as [|k keys IH]; intros m; apply does_intro; intros s0 ms s Hat; unfold unit_of; cbn [mget_loop].
  { finish. by split_and!. }
  unfold lookupKeyRead. run (lookupKeyRead_ok e i m k LOOKUP_NONE) o. destruct HQ as (Ho & -> & -> & ->).
  assert (match o with None => Some ReplyNull | Some o => if not_string (ptr o) then Some ReplyNull else let! r := reply_string (ptr o) in Some (ReplyBulk r) end
    = Some (mget_reply e m k)) as ->.
  { unfold mget_reply. destruct (visible e (m !! k)) as [[[str|ty] t]|], o as [o|]; try done; simpl in Ho.
    - by rewrite (not_string_rep _ (AStr str)), (reply_string_ok _ str).
    - by rewrite (not_string_rep _ (ANot ty)). }
  mstep. exec (IH (purge e m k)). destruct HQ as (-> & Hr & Hs & ->). finish. split_and!; try done.
  - rewrite !replies_app, purge_replies. assert (replies (miss_events i k (visible e (m !! k))) = []) as -> by by destruct (visible e (m !! k)).
    simpl. rewrite Hr. f_equal. apply list_fmap_ext. intros _ k' _. unfold mget_reply. by rewrite visible_purge.
  - eapply signalled_sub; [eapply (signalled_trans _ _ (purge e m k) _ _ _ 0 0); [apply purge_signalled|exact Hs]|set_solver].
Qed.

(** ** MSET *)

Definition mset_spec m (pairs : list (bytes * bytes)) : absdb sabs := foldl (fun m p => <[fst p := (AStr (snd p), None)]> m) m pairs.
Definition arg_pair (p : bytes * svalue) (q : bytes * bytes) : Prop := fst p = fst q /\ sds_ptr (snd p) = Some (snd q).

Lemma size_insert m k x : Z.of_nat (base.size (<[k := x]> m)) <= Z.of_nat (base.size m) + 1.
Proof. destruct (m !! k) eqn:E; [rewrite map_size_insert_Some by eauto; lia|rewrite map_size_insert_None by done; lia]. Qed.

Lemma mset_loop_ok e i pairs qs : Forall2 arg_pair pairs qs -> forall m,
  Z.of_nat (base.size m) + zlen qs < 2 ^ 57 ->
  does i m (unit_of (mset_loop e i pairs)) (fun _ m' evs n =>
    m' = mset_spec m qs /\ replies evs = [] /\ n = 0 /\ forall k, m !! k <> m' !! k -> ModifiedKey i k ∈ evs).
Proof.
  induction 1 as [|[k val] [k' s] pairs qs [Hk Hv] _ IH]; intros m Hsz; apply does_intro; intros s0 ms st Hat; unfold unit_of; cbn [mset_loop].
  { by finish. }
  simpl in Hk, Hv. subst k'. rewrite zlen_cons in Hsz. pose proof (zlen_nonneg qs). destruct (encode_ok e val s Hv) as (o & -> & Ho). mstep.
  assert (Z.of_nat (base.size m) < 2 ^ 57) as Hsz1 by lia. exec (set_arg_ok e i m k o s Hsz1 Ho). destruct HQ as (-> & Hr & -> & Hm).
  assert (Z.of_nat (base.size (<[k := (AStr s, None)]> m)) + zlen qs < 2 ^ 57) as Hsz2 by (pose proof (size_insert m k (AStr s, None)); lia).
  exec (IH _ Hsz2). destruct HQ as (-> & Hr' & -> & Hm'). finish. split_and!; try done.
  - by rewrite !replies_app, Hr, Hr'.
  - intros k' Hne. destruct (decide (k' = k)) as [->|Hk]; [set_solver|].
    rewrite !elem_of_app. right. right. apply Hm'. by rewrite lookup_insert_ne.
Qed.

(** The lookups of MSETNX end at the first key that exists. *)
Fixpoint nx_scan e m (keys : list bytes) : bool * absdb sabs :=
  match keys with
  | [] => (false, m)
  | k :: keys => match purge e m k !! k with Some _ => (true, m) | None => nx_scan e (purge e m k) keys end
  end.

Lemma any_exists_ok e i pairs : forall m,
  does i m (any_exists e i pairs) (fun b m' evs n =>
    (b, m') = nx_scan e m (fst <$> pairs) /\ replies evs = [] /\ signalled i m m' evs 0 /\ n = 0).
Proof.
  induction pairs as [|[k val] pairs IH]; intros m; apply does_intro; intros s0 ms s Hat; cbn [any_exists].
  { finish. by split_and!. }
  unfold lookupKeyWrite. run (lookupKeyWrite_ok e i m k LOOKUP_NONE) o. destruct HQ as (Ho & -> & -> & ->). simpl.
  destruct (purge e m k !! k) as [[a t]|] eqn:Ek, o as [o|]; try done.
  - finish. destruct (purge_kept _ _ _ _ Ek) as [-> _]. split_and!; try done; apply purge_replies.
  - tail_call (IH (purge e m k)) b. destruct HQ as (HE & Hr & Hs & ->). finish. split_and!; try done; [by rewrite replies_app, purge_replies, Hr|].
    apply (signalled_trans i m (purge e m k) _ _ _ 0 0); [apply purge_signalled|done].
Qed.
End Spec.
