(* ===== verification/StringOpSpec.v ===== *)
(** * The string commands: ranges, counters, and the refinement of all of them *)

From Stdlib Require Import ZArith Lia String.
From stdpp Require Import base numbers option fin_maps gmap list.
From S2P Require Import Prelude Memory Util UtilFacts Glob Sds SdsNumber Server Dict DictFacts DictSpec Keyspace KeyspaceFacts KeyspaceSpec StringCmd StringSpec.

Local Open Scope Z_scope.
Local Open Scope redis_scope.

(** ** Ranges of bytes *)

(** An index counted from the end when negative, and not before the start *)
Definition norm (len n : Z) : Z := if n <? 0 then Z.max 0 (len + n) else n.
Definition range_spec (str : bytes) (start end_ : Z) : bytes :=
  if (start <? 0) && (end_ <? start) then [] else
  drop (Z.to_nat (norm (zlen str) start)) (take (Z.to_nat (norm (zlen str) end_ + 1)) str).

Lemma index_norm len n : is_s 64 n -> 0 <= len < 2 ^ 63 ->
  (let n := if n <? 0 then i64 (u64 (len + n)) else n in if n <? 0 then 0 else n) = norm len n /\ 0 <= norm len n < 2 ^ 63.
Proof.
  unfold is_s. intros Hn Hl. unfold norm. destruct (Z.ltb_spec n 0) as [H|H].
  - rewrite sN_uN_id by (unfold is_s; lia). cbv zeta. destruct (Z.ltb_spec (len + n) 0); lia.
  - cbv zeta. rewrite (proj2 (Z.ltb_ge _ _) H). lia.
Qed.

Lemma slice_eq (str : bytes) a b : zlen str < 2 ^ 63 -> 0 <= a < 2 ^ 63 -> 0 <= b < 2 ^ 63 ->
  (let b := if u64 b >=? zlen str then i64 (u64 (zlen str - 1)) else b in
   if (a >? b) || (zlen str =? 0) then [] else take (Z.to_nat (b - a + 1)) (drop (Z.to_nat a) str)) =
  drop (Z.to_nat a) (take (Z.to_nat (b + 1)) str).
Proof.
  intros Hl Ha Hb. pose proof (zlen_nonneg str) as Hp. rewrite (uN_small 64 b) by lia.
  rewrite sN_uN_id by (unfold is_s; lia). cbv zeta. unfold zlen in *.
  destruct (Z.geb_spec b (Z.of_nat (length str))) as [H|H].
  - rewrite (take_ge str) by lia. destruct (Z.gtb_spec a (Z.of_nat (length str) - 1)), (Z.eqb_spec (Z.of_nat (length str)) 0); simpl;
      try (by rewrite drop_ge by lia). rewrite take_ge; [done|]. rewrite length_drop. lia.
  - rewrite (proj2 (Z.eqb_neq (Z.of_nat (length str)) 0)) by lia. destruct (Z.gtb_spec a b); simpl.
    + rewrite drop_ge; [done|]. rewrite length_take. lia.
    + rewrite take_drop_commute. f_equal. f_equal. lia.
Qed.

Lemma range_of_spec str start end_ :
  is_s 64 start -> is_s 64 end_ -> zlen str < 2 ^ 63 -> range_of str start end_ = range_spec str start end_.
Proof.
  intros Hs He Hl. pose proof (zlen_nonneg str) as Hp.
  destruct (index_norm (zlen str) start Hs) as [H1 B1]; [lia|]. destruct (index_norm (zlen str) end_ He) as [H2 B2]; [lia|].
  unfold range_of, range_spec. cbv zeta in *. rewrite H1, H2. rewrite <- slice_eq by done. cbv zeta.
  destruct (Z.ltb_spec start 0), (Z.ltb_spec end_ 0), (Z.gtb_spec start end_), (Z.ltb_spec end_ start); try done; lia.
Qed.

(** The bytes [v] over those of [ptr] from the position [off] on, zeros in the gap *)
Definition overlay (ptr : bytes) (off : nat) (v : bytes) : bytes :=
  (fun j => if bool_decide (off <= j < off + length v)%nat then default 0 (v !! (j - off)%nat) else default 0 (ptr !! j))
  <$> seq 0 (max (length ptr) (off + length v)).

Lemma write_range_overlay ptr off v : 0 <= off -> write_range ptr off v = overlay ptr (Z.to_nat off) v.
Proof.
  intros Ho. unfold write_range, overlay, zlen. set (n := Z.to_nat off).
  replace (Z.to_nat (off + Z.of_nat (length v) - Z.of_nat (length ptr))) with (n + length v - length ptr)%nat by lia.
  replace (Z.to_nat (off + Z.of_nat (length v))) with (n + length v)%nat by lia.
  set (p := ptr ++ replicate (n + length v - length ptr)%nat 0).
  assert (length p = max (length ptr) (n + length v))%nat as Hp by (subst p; rewrite length_app, length_replicate; lia).
  assert (forall j, (j < length p)%nat -> p !! j = Some (default 0 (ptr !! j))) as Hj.
  { intros j Hlt. subst p. destruct (decide (j < length ptr)%nat) as [H|H].
    - rewrite lookup_app_l by done. destruct (lookup_lt_is_Some_2 ptr j H) as [x ->]. done.
    - rewrite lookup_app_r, lookup_replicate_2, (lookup_ge_None_2 ptr j) by lia. done. }
  apply list_eq. intros j. rewrite list_lookup_fmap.
  destruct (decide (j < max (length ptr) (n + length v))%nat) as [Hlt|Hge].
  - rewrite (lookup_seq_lt _ _ _ Hlt). simpl. destruct (decide (j < n)%nat) as [H1|H1].
    + rewrite lookup_app_l, lookup_take_lt, Hj, bool_decide_eq_false_2 by (rewrite ?length_take; lia). done.
    + rewrite lookup_app_r by (rewrite length_take; lia). rewrite length_take, Nat.min_l by lia.
      destruct (decide (j < n + length v)%nat) as [H2|H2].
      * rewrite lookup_app_l, bool_decide_eq_true_2 by lia. destruct (lookup_lt_is_Some_2 v (j - n)%nat) as [x ->]; [lia|done].
      * rewrite lookup_app_r, lookup_drop, bool_decide_eq_false_2 by lia.
        replace (n + length v + (j - n - length v))%nat with j by lia. by rewrite Hj by lia.
  - rewrite lookup_ge_None_2 by (rewrite !length_app, length_take, length_drop; lia).
    rewrite lookup_ge_None_2 by (rewrite length_seq; lia). done.
Qed.

Lemma overlay_zeros off v : overlay (replicate (off + length v) 0) off v = overlay [] off v.
Proof.
  unfold overlay. rewrite length_replicate, Nat.max_id. apply list_fmap_ext. intros _ j _. case_bool_decide; [done|].
  destruct (replicate (off + length v) 0 !! j) as [x|] eqn:E; [|done]. by apply lookup_replicate in E as [-> _].
Qed.

Section Ops.
Context `{!Alloc, !dictType bytes, !DictTypeOk bytes}.
Implicit Types (e : kenv) (i : nat) (k : bytes) (m : absdb sabs) (v : svalue) (s : bytes).
#[local] Existing Instance str_rep.

(** The end of a command that leaves [x] at a key: an event, the count of changes and a reply *)
Definition stores i m k m' (evs : list event) (n : Z) (x : sabs * option Z) (r : reply) : Prop :=
  m' = <[k := x]> m /\ replies evs = [r] /\ n = 1 /\ ModifiedKey i k ∈ evs.
Lemma stores_signalled i m k m' evs n x r : stores i m k m' evs n x r -> signalled i m m' evs n.
Proof. intros (-> & _ & -> & Hin). apply (signalled_one i m k); [done..|]. intros k' Hne. by rewrite lookup_insert_ne. Qed.

(** A command whose key holds no string: [f] gives the new string of the old one, or a refusal *)
Definition update_spec e m k (f : option bytes -> reply + bytes * reply) : absdb sabs * reply :=
  let go old t := match f old with inl r => (purge e m k, r) | inr (s, r) => (<[k := (AStr s, t)]> m, r) end in
  match purge e m k !! k with
  | Some (ANot _, _) => (purge e m k, ReplyWrongType)
  | Some (AStr s, t) => go (Some s) t
  | None => go None None
  end.

Definition outcome e i m k m' (evs : list event) (n : Z) (x : absdb sabs * reply) : Prop :=
  m' = fst x /\ replies evs = [snd x] /\ signalled i m m' evs n.

Lemma refused e i m k r n : 0 <= n -> outcome e i m k (purge e m k) (purge_events e i m k ++ [Reply r]) n (purge e m k, r).
Proof.
  intros Hn. split_and!; [done|by rewrite replies_app, purge_replies|]. rewrite <- (Z.add_0_l n).
  apply (signalled_trans i m (purge e m k)); [apply purge_signalled|by apply signalled_refl].
Qed.
Lemma updated e i m k s t r evs : replies evs = [r] -> ModifiedKey i k ∈ evs -> outcome e i m k (<[k := (AStr s, t)]> m) evs 1 (<[k := (AStr s, t)]> m, r).
Proof. intros Hr Hin. split_and!; [done..|]. eapply (stores_signalled i m k _ _ _ (AStr s, t) r). by split_and!. Qed.

(** *** INCR *)

Definition incr_new (d : Z) (old : option bytes) : reply + bytes * reply :=
  match from_option string2ll (Some 0) old with
  | None => inl err_integer
  | Some z => if bool_decide (is_s 64 (z + d)) then inr (print (z + d), ReplyInt (z + d))
              else inl (ReplyError "increment or decrement would overflow")
  end.

Ltac decide_cmp := repeat match goal with |- context [Z.ltb ?a ?b] => destruct (Z.ltb_spec a b) | |- context [Z.gtb ?a ?b] => destruct (Z.gtb_spec a b) end.
Lemma overflow_test d z : is_s 64 d -> is_s 64 z ->
  ((d <? 0) && (z <? 0) && (d <? LLONG_MIN - z)) || ((d >? 0) && (z >? 0) && (d >? LLONG_MAX - z)) = negb (bool_decide (is_s 64 (z + d))).
Proof.
  unfold is_s, LLONG_MIN, LLONG_MAX, INT64_MIN, INT64_MAX. intros Hd Hz.
  destruct (bool_decide_reflect (- 2 ^ (64 - 1) <= z + d < 2 ^ (64 - 1))); destruct (Z.ltb_spec d 0), (Z.ltb_spec z 0), (Z.gtb_spec d 0), (Z.gtb_spec z 0); simpl;
    rewrite ?orb_false_r; decide_cmp; lia.
Qed.

Lemma long_long_ok v s : svalue_rep v (AStr s) -> getLongLongFromObject (Some v) = Some (string2ll s).
Proof. destruct v; simpl; try done; [by intros ->|by intros ->..]. Qed.

Lemma int_set_ok e i m k o z a t :
  m !! k = Some (a, t) -> svalue_rep o a -> is_s 64 z ->
  does i m (unit_of (fun st => if is_private_int o && ((z <? 0) || (z >=? OBJ_SHARED_INTEGERS)) && (z >=? LONG_MIN) && (z <=? LONG_MAX) then
                        let! v := set_int o z in store_obj i k v st
                      else let! new := createStringObjectFromLongLongForValue e z in dbOverwrite e i k (createObject e new) st)) (fun _ m' evs n =>
    m' = <[k := (AStr (print z), t)]> m /\ evs = [] /\ n = 0).
Proof.
  intros Hk Ho Hz. destruct (_ && _) eqn:E.
  - assert (o = SInt false (match o with SInt _ x => x | _ => 0 end)) as -> by (destruct o as [[]| | |]; done).
    apply (store_ok i m k a t); [done|]. by apply string2ll_print.
  - destruct (for_value_ok e z Hz) as (new & -> & Hn). by apply (dbOverwrite_ok e i m k (createObject e new) (AStr (print z)) a t).
Qed.

Lemma incr_ok e i m k d : Z.of_nat (base.size m) < 2 ^ 57 -> is_s 64 d ->
  does i m (unit_of (incrDecrCommand e i k d)) (fun _ m' evs n => outcome e i m k m' evs n (update_spec e m k (incr_new d))).
Proof.
  intros Hsz Hd. apply does_intro. intros s0 ms st Hat. unfold unit_of, incrDecrCommand, lookupKeyWrite, update_spec.
  run (lookupKeyWrite_ok e i m k LOOKUP_NONE) o. destruct HQ as (Ho & -> & -> & ->). unfold incr_new.
  destruct (purge e m k !! k) as [[[s|ty] t]|] eqn:Ek, o as [o|]; try done; simpl in Ho.
  - rewrite (not_string_rep _ (AStr s)), (long_long_ok _ s) by done. mstep. simpl from_option.
    destruct (string2ll s) as [z|] eqn:Es; [|finish; by apply refused].
    assert (is_s 64 z) as Hz by by apply string2ll_iff in Es as [_ ?]. rewrite overflow_test by done.
    destruct (bool_decide_reflect (is_s 64 (z + d))) as [Hs|]; simpl negb; cbv iota; [|finish; by apply refused].
    rewrite (sN_small 64 (z + d)) by done.
    destruct (at_exec _ _ _ _ _ _ _ _ _ (int_set_ok e i (purge e m k) k (ptr o) (z + d) (AStr s) t Ek Ho Hs) Hat1) as (s1 & m1 & evs & n & HE & Hat2 & -> & -> & ->).
    cbv beta in HE. rewrite HE. mstep. rewrite insert_purge in *. finish. apply updated; [by rewrite !replies_app, purge_replies|set_solver].
  - rewrite (not_string_rep _ (ANot ty)) by done. finish. by apply refused.
  - simpl. rewrite overflow_test by done.
    destruct (bool_decide_reflect (is_s 64 (0 + d))) as [Hs|]; simpl negb; cbv iota; [|finish; by apply refused].
    rewrite (sN_small 64 (0 + d)) by done. destruct (for_value_ok e (0 + d) Hs) as (new & -> & Hn). mstep.
    assert (room (purge e m k)) as Hroom by by apply room_purge, room_small.
    exec (dbAdd_ok e i (purge e m k) k (createObject e new) (AStr (print (0 + d))) Ek Hroom Hn). destruct HQ as (-> & -> & ->).
    rewrite insert_purge in *. finish. apply updated; [by rewrite !replies_app, purge_replies, add_replies|set_solver].
Qed.

(** *** APPEND and SETRANGE *)

(** The link with the master is not limited. *)
Definition too_long e (n : Z) : bool := negb (master_client e) && (proto_max_bulk_len e <? n).
Lemma checkStringLength_spec e n : 0 <= n < 2 ^ 63 -> checkStringLength e n = negb (too_long e n).
Proof. intros Hn. unfold checkStringLength, too_long. by rewrite Z.gtb_ltb, sN_small by (unfold is_s; lia). Qed.

Definition append_new e (a : bytes) (old : option bytes) : reply + bytes * reply :=
  match old with
  | None => inr (a, ReplyInt (zlen a))
  | Some s => if too_long e (zlen s + zlen a) then inl err_length else inr (s ++ a, ReplyInt (zlen (s ++ a)))
  end.
Definition setrange_new e (off : Z) (v : bytes) (old : option bytes) : reply + bytes * reply :=
  if bool_decide (v = []) then inl (ReplyInt (zlen (default [] old))) else
  if too_long e (off + zlen v) then inl err_length else
  inr (overlay (default [] old) (Z.to_nat off) v, ReplyInt (Z.max (zlen (default [] old)) (off + zlen v))).

Lemma overlay_len ptr off (v : bytes) : 0 <= off -> zlen (overlay ptr (Z.to_nat off) v) = Z.max (zlen ptr) (off + zlen v).
Proof. intros Ho. unfold overlay, zlen. rewrite length_fmap, length_seq. lia. Qed.

Lemma unshare_ok e i m k o s t :
  m !! k = Some (AStr s, t) -> svalue_rep o (AStr s) ->
  does i m (dbUnshareStringValue e i k o) (fun v m' evs n => v = SRaw s /\ m' = m /\ evs = [] /\ n = 0).
Proof.
  intros Hk Ho. apply does_intro. intros s0 ms st Hat. destruct (decoded_ok o s Ho) as (o' & Hd & Hp). unfold dbUnshareStringValue.
  destruct o as [sh z|s'|s'|ty]; [| |simpl in Ho; subst s'; by finish|done]; rewrite Hd; mstep; rewrite Hp; mstep;
    exec (dbOverwrite_ok e i m k (createObject e (SRaw s)) (AStr s) (AStr s) t Hk eq_refl); destruct HQ as (-> & -> & ->);
    rewrite insert_id in * by done; by finish.
Qed.

(** The strings of a database, and the one after an APPEND, have lengths of 63 bits. *)
Definition short_strings (m : absdb sabs) : Prop := forall k s t, m !! k = Some (AStr s, t) -> zlen s < 2 ^ 63.
Definition append_fits m k s : Prop := zlen s < 2 ^ 63 /\ forall old t, m !! k = Some (AStr old, t) -> zlen old + zlen s < 2 ^ 63.

Lemma append_ok e i m k a s : Z.of_nat (base.size m) < 2 ^ 57 -> sds_ptr a = Some s -> append_fits m k s ->
  does i m (unit_of (appendCommand e i k a)) (fun _ m' evs n => outcome e i m k m' evs n (update_spec e m k (append_new e s))).
Proof.
  intros Hsz Ha [Hfs Hfo]. pose proof (zlen_nonneg s) as Hps. apply does_intro. intros s0 ms st Hat. unfold unit_of, appendCommand, lookupKeyWrite, update_spec.
  run (lookupKeyWrite_ok e i m k LOOKUP_NONE) o. destruct HQ as (Ho & -> & -> & ->). unfold append_new.
  destruct (purge e m k !! k) as [[[old|ty] t]|] eqn:Ek, o as [o|]; try done; simpl in Ho.
  - specialize (Hfo old t (proj2 (purge_kept _ _ _ _ Ek))). pose proof (zlen_nonneg old) as Hpo.
    rewrite (not_string_rep _ (AStr old)), (len_ok _ old), Ha by done. mstep. rewrite (uN_small 64 (zlen old + zlen s)), checkStringLength_spec, negb_involutive by lia.
    destruct (too_long e (zlen old + zlen s)); [finish; by apply refused|].
    run (unshare_ok e i (purge e m k) k (ptr o) old t Ek Ho) v. destruct HQ as (-> & -> & -> & ->).
    exec (store_ok i (purge e m k) k (AStr old) t (SRaw (old ++ s)) (AStr (old ++ s)) Ek eq_refl). destruct HQ as (-> & -> & ->).
    rewrite insert_purge in *. unfold append_finish. finish. rewrite zlen_app, (sN_small 64) by (unfold is_s; lia).
    apply updated; [by rewrite !replies_app, purge_replies|set_solver].
  - rewrite (not_string_rep _ (ANot ty)) by done. finish. by apply refused.
  - destruct (encode_ok e a s Ha) as (new & -> & Hn). mstep. assert (room (purge e m k)) as Hroom by by apply room_purge, room_small.
    exec (dbAdd_ok e i (purge e m k) k (createObject e new) (AStr s) Ek Hroom Hn). destruct HQ as (-> & -> & ->).
    rewrite insert_purge, (len_ok _ s Hn) in *. mstep. unfold append_finish. finish. rewrite (sN_small 64) by (unfold is_s; lia).
    apply updated; [by rewrite !replies_app, purge_replies, add_replies|set_solver].
Qed.

Lemma zlen_zero (v : bytes) : (zlen v =? 0) = bool_decide (v = ([] : bytes)).
Proof. destruct v; [done|]. rewrite zlen_cons. zlen_pos. rewrite bool_decide_eq_false_2 by done. apply Z.eqb_neq. lia. Qed.

(** The length of the string to be made is in the range of the allocator. *)
Definition setrange_fits (offset v : bytes) : Prop := forall off, string2ll offset = Some off -> off + zlen v + 1 < 2 ^ 63.

Lemma setrange_ok e i m k offset (v : bytes) : Z.of_nat (base.size m) < 2 ^ 57 -> short_strings m -> setrange_fits offset v ->
  does i m (unit_of (setrangeCommand e i k offset v)) (fun _ m' evs n => outcome e i m k m' evs n
    match string2ll offset with
    | None => (m, err_integer)
    | Some off => if off <? 0 then (m, ReplyError "offset is out of range") else update_spec e m k (setrange_new e off v)
    end).
Proof.
  intros Hsz Hshort Hfit. apply does_intro. intros s0 ms st Hat. unfold unit_of, setrangeCommand, lookupKeyWrite, update_spec.
  destruct (string2ll offset) as [off|] eqn:Eoff; [|finish; split_and!; try done; by apply signalled_refl]. specialize (Hfit off Eoff).
  destruct (Z.ltb_spec off 0) as [|Hoff]; [finish; split_and!; try done; by apply signalled_refl|]. pose proof (zlen_nonneg v) as Hpv.
  assert (sds_alloc (off + zlen v) = Some tt) as Halloc by (unfold sds_alloc; by rewrite (proj2 (Z.ltb_lt _ _) Hfit)).
  assert (forall b : bool, (if b then sds_alloc (off + zlen v) else Some tt) = Some tt) as Hgrow by (intros []; done).
  run (lookupKeyWrite_ok e i m k LOOKUP_NONE) o. destruct HQ as (Ho & -> & -> & ->). unfold setrange_new.
  destruct (purge e m k !! k) as [[[old|ty] t]|] eqn:Ek, o as [o|]; try done; simpl in Ho.
  - pose proof (Hshort k old t (proj2 (purge_kept _ _ _ _ Ek))) as Hso. pose proof (zlen_nonneg old) as Hpo.
    rewrite (not_string_rep _ (AStr old)), (len_ok _ old) by done. mstep. rewrite zlen_zero, checkStringLength_spec, negb_involutive by lia.
    rewrite (sN_small 64 (zlen old)) by (unfold is_s; lia). case_bool_decide; [finish; by apply refused|]. destruct (too_long e (off + zlen v)); [finish; by apply refused|].
    run (unshare_ok e i (purge e m k) k (ptr o) old t Ek Ho) x. destruct HQ as (-> & -> & -> & ->). unfold setrange_finish.
    rewrite Hgrow, write_range_overlay by done. mstep. set (new := overlay old (Z.to_nat off) v).
    exec (store_ok i (purge e m k) k (AStr old) t (SRaw new) (AStr new) Ek eq_refl). destruct HQ as (-> & -> & ->).
    rewrite insert_purge in *. finish. subst new. rewrite overlay_len, (sN_small 64) by (unfold is_s; lia).
    apply updated; [by rewrite !replies_app, purge_replies|set_solver].
  - rewrite (not_string_rep _ (ANot ty)) by done. finish. by apply refused.
  - rewrite zlen_zero, checkStringLength_spec, negb_involutive by lia.
    case_bool_decide; [finish; by apply refused|]. destruct (too_long e (off + zlen v)); [finish; by apply refused|]. rewrite Halloc. mstep.
    set (z := replicate (Z.to_nat (off + zlen v)) 0). assert (room (purge e m k)) as Hroom by by apply room_purge, room_small.
    exec (dbAdd_ok e i (purge e m k) k (createObject e (SRaw z)) (AStr z) Ek Hroom eq_refl). destruct HQ as (-> & -> & ->).
    rewrite insert_purge in *. unfold setrange_finish. rewrite Hgrow, write_range_overlay by done. mstep.
    assert (overlay z (Z.to_nat off) v = overlay [] (Z.to_nat off) v) as ->.
    { subst z. unfold zlen. rewrite Z2Nat.inj_add, Nat2Z.id by lia. apply overlay_zeros. }
    set (new := overlay [] (Z.to_nat off) v).
    exec (store_ok i (<[k := (AStr z, None)]> m) k (AStr z) None (SRaw new) (AStr new) (lookup_insert_eq m k (AStr z, None)) eq_refl).
    destruct HQ as (-> & -> & ->). rewrite insert_insert_eq in *. finish. subst new. rewrite overlay_len, zlen_nil, (sN_small 64) by (unfold is_s; rewrite ?zlen_nil; lia).
    apply updated; [by rewrite !replies_app, purge_replies, add_replies|set_solver].
Qed.

(** ** MSET *)

Definition bytes_of (v : svalue) : bytes := default [] (sds_ptr v).
Definition is_sds (v : svalue) : Prop := is_Some (sds_ptr v).
Lemma bytes_of_sds v : is_sds v -> sds_ptr v = Some (bytes_of v).
Proof. unfold bytes_of. by intros [s ->]. Qed.

Fixpoint pair_up {X} (l : list X) : list (X * X) := match l with x :: y :: l => (x, y) :: pair_up l | _ => [] end.

Lemma pairs_of_ok args : (length args mod 2 = 0)%nat -> Forall is_sds args ->
  exists pairs, pairs_of args = Some pairs /\ Forall2 arg_pair pairs (pair_up (bytes_of <$> args)) /\ zlen (pair_up (bytes_of <$> args)) = zlen args / 2.
Proof.
  induction args as [args IH] using (induction_ltof1 _ (@length svalue)). unfold ltof in IH. intros He Hf.
  destruct args as [|x [|y args]]; [by eexists|done|]. apply Forall_cons in Hf as [Hx Hf]. apply Forall_cons in Hf as [Hy Hf].
  destruct (IH args) as (pairs & HE & H2 & Hl); [simpl; lia| |done|].
  { simpl in He. by rewrite <- (Nat.Div0.mod_add (length args) 1 2), Nat.add_comm. }
  rewrite !fmap_cons. cbn [pairs_of pair_up]. rewrite (bytes_of_sds x Hx). mstep. rewrite HE. mstep. eexists. split; [done|]. split.
  - constructor; [|done]. split; [done|by apply bytes_of_sds].
  - rewrite !zlen_cons, Hl. replace (1 + (1 + zlen args)) with (zlen args + 1 * 2) by lia. rewrite Z.div_add; lia.
Qed.

Definition mset_command_spec e m (args : list bytes) (nx : bool) : absdb sabs * reply :=
  if bool_decide (length args mod 2 = 1)%nat then (m, ReplyError "wrong number of arguments for MSET") else
  let pairs := pair_up args in
  let '(busy, m1) := if nx then nx_scan e m (fst <$> pairs) else (false, m) in
  if busy then (m1, ReplyInt 0) else (mset_spec m1 pairs, if nx then ReplyInt 1 else ReplyOk).

Lemma nx_scan_sub e keys : forall m k, (snd (nx_scan e m keys)) !! k = m !! k \/ (snd (nx_scan e m keys)) !! k = None.
Proof.
  induction keys as [|k0 keys IH]; intros m k; simpl; [by left|]. destruct (purge e m k0 !! k0); [by left|].
  destruct (IH (purge e m k0) k) as [-> | ->]; [apply purge_mono|by right].
Qed.
Lemma purge_other e m k k' : k' <> k -> purge e (purge e m k) k' !! k' = purge e m k' !! k'.
Proof. intros Hne. rewrite !purge_lookup. unfold purges. by rewrite !(purge_ne e m k) by done. Qed.
Lemma size_sub m m' : (forall k, m' !! k = m !! k \/ m' !! k = None) -> Z.of_nat (base.size m') <= Z.of_nat (base.size m).
Proof.
  intros Hs. rewrite <- !size_dom. apply inj_le, subseteq_size. intros k. rewrite (elem_of_dom m'), (elem_of_dom m).
  destruct (Hs k) as [-> | ->]; [done|by intros [? ?]].
Qed.
(** MSETNX does nothing when one of its keys exists. *)
Lemma nx_scan_busy e keys : forall m, fst (nx_scan e m keys) = bool_decide (Exists (fun k => is_Some (purge e m k !! k)) keys).
Proof.
  induction keys as [|k keys IH]; intros m; simpl; [done|]. destruct (purge e m k !! k) as [x|] eqn:Ek.
  - symmetry. apply bool_decide_eq_true. left. by eexists.
  - rewrite IH. apply bool_decide_ext. rewrite Exists_cons, Ek. split; [right|intros [[? ?]|?]; [done|]];
      (eapply Exists_impl; [eassumption|]); intros k'; simpl;
      (destruct (decide (k' = k)) as [->|Hne]; [rewrite purge_purge, Ek; by intros [? ?]|]); by rewrite ?purge_other.
Qed.

Lemma odd_args (args : list svalue) : ((zlen args + 1) mod 2 =? 0) = bool_decide (length args mod 2 = 1)%nat.
Proof.
  unfold zlen. pose proof (Nat.div_mod_eq (length args) 2) as Hd.
  pose proof (Nat.mod_upper_bound (length args) 2 ltac:(lia)) as Hb. set (q := (length args / 2)%nat) in *. set (r := (length args mod 2)%nat) in *.
  clearbody q r. rewrite Hd. replace (Z.of_nat (2 * q + r) + 1) with (Z.of_nat r + 1 + Z.of_nat q * 2) by lia. rewrite Z.mod_add by done.
  assert (r = 0 \/ r = 1)%nat as [-> | ->] by lia; reflexivity.
Qed.

Lemma mset_signalled i m m1 qs evs n :
  zlen qs = n -> m1 = mset_spec m qs -> (forall k, m !! k <> m1 !! k -> ModifiedKey i k ∈ evs) -> signalled i m m1 evs n.
Proof.
  intros Hl -> Hm. destruct qs as [|q qs]; [apply (signalled_refl i m); by subst n|]. rewrite zlen_cons in Hl. zlen_pos.
  apply signalled_dirty; [lia|done].
Qed.

Lemma mset_generic_ok e i m args nx :
  Z.of_nat (base.size m) + zlen args < 2 ^ 57 -> Forall is_sds args ->
  does i m (unit_of (msetGenericCommand e i args nx)) (fun _ m' evs n =>
    m' = fst (mset_command_spec e m (bytes_of <$> args) nx) /\ replies evs = [snd (mset_command_spec e m (bytes_of <$> args) nx)] /\ signalled i m m' evs n).
Proof.
  intros Hsz Hf. apply does_intro. intros s0 ms st Hat. unfold unit_of, msetGenericCommand, mset_command_spec. rewrite length_fmap, odd_args.
  pose proof (Nat.mod_upper_bound (length args) 2 ltac:(lia)) as Hb. zlen_pos.
  case_bool_decide as Ho; [finish; split_and!; try done; by apply signalled_refl|].
  destruct (pairs_of_ok args) as (pairs & -> & H2 & Hl); [lia|done|]. mstep. set (qs := pair_up (bytes_of <$> args)) in *.
  assert (zlen qs <= zlen args) as Hle by (rewrite Hl; apply Z.div_le_upper_bound; lia).
  assert (fst <$> pairs = fst <$> qs) as Hk by (clear - H2; induction H2 as [|p q ps qs [Hpq _] _ IH]; [done|]; rewrite !fmap_cons, Hpq; by f_equal).
  destruct nx.
  - run (any_exists_ok e i pairs m) b. destruct HQ as (HE & Hr & Hs & ->). rewrite Hk in HE. pose proof (nx_scan_sub e (fst <$> qs) m) as Hsub.
    rewrite <- HE in *. simpl in Hsub. destruct b; [finish; rewrite replies_app, Hr; split_and!; try done; by apply signalled_app|].
    assert (Z.of_nat (base.size m') + zlen qs < 2 ^ 57) as Hsz'.
    { pose proof (size_sub m m' Hsub). lia. }
    exec (mset_loop_ok e i pairs qs H2 m' Hsz'). destruct HQ as (-> & Hr' & -> & Hm). finish.
    split_and!; [done|by rewrite !replies_app, Hr, Hr'|]. apply (signalled_trans i m m' _ _ _ 0); [done|].
    apply (mset_signalled i m' _ qs); [done..|set_solver].
  - assert (Z.of_nat (base.size m) + zlen qs < 2 ^ 57) as Hsz' by lia.
    cbn [mbind option_bind]. cbv beta iota. mstep. exec (mset_loop_ok e i pairs qs H2 m Hsz'). destruct HQ as (-> & Hr' & -> & Hm). finish.
    split_and!; [done|by rewrite replies_app, Hr'|]. apply (mset_signalled i m _ qs); [done..|set_solver].
Qed.

(** ** What SET is asked for *)

(** A word of a request: the bytes before the first NUL, letters in upper case *)
Fixpoint word (a : bytes) : bytes :=
  match a with
  | [] => []
  | c :: a => if c =? 0 then [] else (if bool_decide (97 <= c <= 122) then c - 32 else c) :: word a
  end.

(** The options NX, XX, KEEPTTL, EX and PX, the last two with an argument *)
Inductive set_word := WNX | WXX | WKEEPTTL | WEX (arg : bytes) | WPX (arg : bytes).
Fixpoint set_words (args : list bytes) : option (list set_word) :=
  match args with
  | [] => Some []
  | a :: args' =>
      if decide (word a = [78; 88]) then cons WNX <$> set_words args' else
      if decide (word a = [88; 88]) then cons WXX <$> set_words args' else
      if decide (word a = [75; 69; 69; 80; 84; 84; 76]) then cons WKEEPTTL <$> set_words args' else
      match args' with
      | arg :: args'' =>
          if decide (word a = [69; 88]) then cons (WEX arg) <$> set_words args'' else
          if decide (word a = [80; 88]) then cons (WPX arg) <$> set_words args'' else None
      | [] => None
      end
  end.

(** NX and XX exclude each other, and so do KEEPTTL, EX and PX. *)
Definition clash (x y : set_word) : bool :=
  match x, y with
  | WNX, WXX | WXX, WNX => true
  | WKEEPTTL, (WEX _ | WPX _) | (WEX _ | WPX _), WKEEPTTL | WEX _, WPX _ | WPX _, WEX _ => true
  | _, _ => false
  end.
Definition consistent (ws : list set_word) : bool := forallb (fun x => forallb (fun y => negb (clash x y)) ws) ws.

(** When the value is stored, and how long it is to live: an argument and its unit in milliseconds *)
Inductive set_when := Always | IfAbsent | IfPresent.
Inductive set_ttl := Forget | Keep | Within (arg : bytes) (unit : Z).
Definition when_of (ws : list set_word) : set_when :=
  if existsb (fun w => match w with WNX => true | _ => false end) ws then IfAbsent else
  if existsb (fun w => match w with WXX => true | _ => false end) ws then IfPresent else Always.
Definition ttl_word (w : set_word) : option set_ttl :=
  match w with WKEEPTTL => Some Keep | WEX arg => Some (Within arg 1000) | WPX arg => Some (Within arg 1) | _ => None end.
(** The last one counts. *)
Definition ttl_of (ws : list set_word) : set_ttl := default Forget (last (omap ttl_word ws)).
Definition set_request (args : list bytes) : option (set_when * set_ttl) :=
  match set_words args with
  | Some ws => if consistent ws then Some (when_of ws, ttl_of ws) else None
  | None => None
  end.

Definition stops e (w : set_when) m k : bool :=
  match w with
  | Always => false
  | IfAbsent => bool_decide (is_Some (purge e m k !! k))
  | IfPresent => bool_decide (purge e m k !! k = None)
  end.
Definition set_spec e (w : set_when) (t : set_ttl) m k s (ok_reply abort_reply : reply) : absdb sabs * reply :=
  let store time := if stops e w m k then (purge e m k, abort_reply) else (<[k := (AStr s, time)]> m, ok_reply) in
  match t with
  | Forget => store None
  | Keep => store (purge e m k !! k ≫= snd)
  | Within arg unit =>
      match string2ll arg with
      | None => (m, err_integer)
      | Some n => if n <=? 0 then (m, ReplyError "invalid expire time") else store (Some (mstime e + n * unit))
      end
  end.
(** The time is one of 64 bits. *)
Definition set_fits e (t : set_ttl) : Prop :=
  match t with
  | Within arg unit => forall n, string2ll arg = Some n -> is_s 64 (n * unit) /\ is_s 64 (mstime e + n * unit)
  | _ => True
  end.

(** The variables of the loop after some words *)
Definition set_state : Type := Z * option bytes * bool.
Definition set_step (x : set_state) (w : set_word) : set_state :=
  let '(f, ex, sec) := x in
  match w with
  | WNX => (Z.lor f OBJ_SET_NX, ex, sec)
  | WXX => (Z.lor f OBJ_SET_XX, ex, sec)
  | WKEEPTTL => (Z.lor f OBJ_SET_KEEPTTL, ex, sec)
  | WEX arg => (Z.lor f OBJ_SET_EX, Some arg, true)
  | WPX arg => (Z.lor f OBJ_SET_PX, Some arg, false)
  end.
Definition after_words (ws : list set_word) : set_state := fold_left set_step ws (OBJ_SET_NO_FLAGS, None, true).
Definition flag_of (w : set_word) : Z :=
  match w with WNX => OBJ_SET_NX | WXX => OBJ_SET_XX | WKEEPTTL => OBJ_SET_KEEPTTL | WEX _ => OBJ_SET_EX | WPX _ => OBJ_SET_PX end.

Lemma has_lor f g h : has (Z.lor f g) h = has f h || has g h.
Proof.
  unfold has. rewrite Z.land_lor_distr_l. destruct (Z.eqb_spec (Z.lor (Z.land f h) (Z.land g h)) 0) as [E|E].
  - apply Z.lor_eq_0_iff in E as [-> ->]. done.
  - destruct (Z.eqb_spec (Z.land f h) 0) as [E1|E1], (Z.eqb_spec (Z.land g h) 0) as [E2|E2]; try done. by rewrite E1, E2 in E.
Qed.

Lemma tolower_upper c w : 65 <= w <= 90 ->
  (if (65 <=? c) && (c <=? 90) then c + 32 else c) = w + 32 <-> (if bool_decide (97 <= c <= 122) then c - 32 else c) = w.
Proof.
  intros Hw. case_bool_decide; destruct (Z.leb_spec 65 c), (Z.leb_spec c 90); simpl; lia.
Qed.
Lemma same_word a w : Forall (fun c => 65 <= c <= 90) w -> same_nocase a w = bool_decide (word a = w).
Proof.
  intros Hw. unfold same_nocase. apply bool_decide_ext.
  assert (c_str w = w) as -> by (clear - Hw; induction Hw as [|c w Hc _ IH]; simpl; [done|]; rewrite (proj2 (Z.eqb_neq c 0)) by lia; by rewrite IH).
  revert w Hw. induction a as [|c a IH]; intros w Hw; simpl; [by destruct Hw|]. destruct (c =? 0); [by destruct Hw|].
  destruct Hw as [|x w Hx Hw]; simpl; [done|].
  assert (tolower x = x + 32) as Hlow by (unfold tolower; by rewrite (proj2 (Z.leb_le 65 x)), (proj2 (Z.leb_le x 90)) by lia).
  specialize (IH w Hw). unfold tolower at 1. rewrite Hlow. pose proof (tolower_upper c x Hx) as Hc.
  split; intros [= H1 H2]; f_equal; [by apply Hc|by apply IH|by apply Hc|by apply IH].
Qed.
Lemma is_opt_word a x : 97 <= x <= 122 -> is_opt a x = bool_decide (word a = [x - 32; 88]).
Proof.
  intros Hx. unfold is_opt, ch. destruct a as [|c0 [|c1 [|c2 a]]]; simpl.
  all: repeat match goal with |- context [?c =? 0] => destruct (Z.eqb_spec c 0) end; subst;
    repeat match goal with |- context [?c =? ?d] => destruct (Z.eqb_spec c d) end; simpl; try lia;
    symmetry; first [apply bool_decide_eq_true_2|apply bool_decide_eq_false_2]; subst; simpl;
    repeat case_bool_decide; try (f_equal; lia); intros [=]; lia.
Qed.

(** *** The loop over the options *)

Definition free (ws : list set_word) (w : set_word) : bool := forallb (fun x => negb (clash x w)) ws.
Lemma clash_sym x y : clash x y = clash y x.
Proof. by destruct x, y. Qed.
Lemma consistent_snoc ws w : consistent (ws ++ [w]) = consistent ws && free ws w.
Proof.
  apply eq_true_iff_eq. unfold consistent, free. rewrite andb_true_iff, !forallb_forall.
  setoid_rewrite forallb_forall. setoid_rewrite in_app_iff. simpl. split.
  - intros Hc. split; [intros x Hx y Hy; apply Hc; auto|intros x Hx; apply Hc; auto].
  - intros [Hc Hf] x [Hx|[<-|[]]] y [Hy|[<-|[]]]; auto; [by rewrite clash_sym, Hf|by destruct w].
Qed.
Lemma consistent_free ws w ws' : consistent (ws ++ w :: ws') = true -> free ws w = true.
Proof.
  unfold consistent, free. rewrite !forallb_forall. setoid_rewrite forallb_forall. intros Hc x Hx. apply Hc; apply in_app_iff; [by left|by right; left].
Qed.
Lemma after_snoc ws w : after_words (ws ++ [w]) = set_step (after_words ws) w.
Proof. unfold after_words. by rewrite fold_left_app. Qed.
Lemma flags_after ws w : has (after_words ws).1.1 (flag_of w) = existsb (fun x => flag_of x =? flag_of w) ws.
Proof.
  induction ws as [|x ws IH] using rev_ind; [by destruct w|]. rewrite after_snoc, existsb_app, <- IH. cbn [existsb]. rewrite orb_false_r.
  destruct (after_words ws) as [[f ex] sec]. destruct x, w; cbn [set_step fst flag_of]; by rewrite has_lor.
Qed.
Lemma free_flags ws w (l : list set_word) :
  (forall x, clash x w = existsb (fun y => flag_of x =? flag_of y) l) ->
  free ws w = negb (existsb (fun y => has (after_words ws).1.1 (flag_of y)) l).
Proof.
  intros Hl. apply eq_true_iff_eq. rewrite negb_true_iff, <- not_true_iff_false, existsb_exists. unfold free. rewrite forallb_forall.
  setoid_rewrite flags_after. setoid_rewrite existsb_exists. setoid_rewrite Hl. setoid_rewrite negb_true_iff.
  setoid_rewrite <- not_true_iff_false. setoid_rewrite existsb_exists. naive_solver.
Qed.

Definition options_from (args : list bytes) (x : set_state) : option set_state := let '(f, ex, sec) := x in set_options args f ex sec.
Definition options_spec (args : list bytes) (ws0 : list set_word) : option set_state :=
  match set_words args with
  | Some ws => if consistent (ws0 ++ ws) then Some (after_words (ws0 ++ ws)) else None
  | None => None
  end.

(** A word that clashes with an earlier one is an error, another one is taken. *)
Lemma word_step ws0 w args args' :
  consistent ws0 = true -> set_words args = cons w <$> set_words args' ->
  (forall ws, consistent ws = true -> options_from args' (after_words ws) = options_spec args' ws) ->
  (if free ws0 w then options_from args' (set_step (after_words ws0) w) else None) = options_spec args ws0.
Proof.
  intros Hc Hw IH. unfold options_spec at 1. rewrite Hw. destruct (free ws0 w) eqn:Ef.
  - rewrite <- after_snoc, IH by by rewrite consistent_snoc, Hc. unfold options_spec. destruct (set_words args') as [ws|]; simpl; [|done].
    by rewrite <- app_assoc.
  - destruct (set_words args') as [ws|]; simpl; [|done]. destruct (consistent (ws0 ++ w :: ws)) eqn:E; [|done].
    apply consistent_free in E. congruence.
Qed.

Lemma options_loop args : forall ws0, consistent ws0 = true -> options_from args (after_words ws0) = options_spec args ws0.
Proof.
  induction args as [args IH] using (induction_ltof1 _ (@length bytes)). unfold ltof in IH. intros ws0 Hc.
  destruct args as [|a args]; [unfold options_spec; simpl; rewrite app_nil_r, Hc; by destruct (after_words ws0) as [[? ?] ?]|].
  pose proof (fun w args' Hw Hl => word_step ws0 w (a :: args) args' Hc Hw (IH args' Hl)) as Hgo.
  pose proof (free_flags ws0 WNX [WXX] ltac:(by intros [])) as F1. pose proof (free_flags ws0 WXX [WNX] ltac:(by intros [])) as F2.
  pose proof (free_flags ws0 WKEEPTTL [WEX []; WPX []] ltac:(by intros [])) as F3.
  pose proof (fun arg => free_flags ws0 (WEX arg) [WKEEPTTL; WPX []] ltac:(by intros [])) as F4.
  pose proof (fun arg => free_flags ws0 (WPX arg) [WKEEPTTL; WEX []] ltac:(by intros [])) as F5.
  cbn [existsb flag_of] in F1, F2, F3, F4, F5. rewrite orb_false_r in F1, F2. rewrite orb_false_r, negb_orb in F3.
  setoid_rewrite orb_false_r in F4. setoid_rewrite negb_orb in F4. setoid_rewrite orb_false_r in F5. setoid_rewrite negb_orb in F5.
  destruct (after_words ws0) as [[f ex] sec]. cbn [fst] in *. cbn [options_from set_options].
  rewrite !is_opt_word, same_word by first [lia|repeat constructor; lia]. cbn [Z.sub Z.opp Z.add Z.pos_sub].
  destruct (decide (word a = [78; 88])) as [E|N1].
  { rewrite E. simpl. rewrite <- F1. rewrite <- (Hgo WNX args); [|by simpl; rewrite decide_True|simpl; lia]. destruct (free ws0 WNX); [done|]. by destruct args. }
  destruct (decide (word a = [88; 88])) as [E|N2].
  { rewrite E. simpl. rewrite <- F2. rewrite <- (Hgo WXX args); [|by simpl; rewrite decide_False, decide_True|simpl; lia]. destruct (free ws0 WXX); [done|]. by destruct args. }
  destruct (decide (word a = [75; 69; 69; 80; 84; 84; 76])) as [E|N3].
  { rewrite E. simpl. rewrite <- F3. rewrite <- (Hgo WKEEPTTL args); [|by simpl; rewrite !decide_False, decide_True by done|simpl; lia].
    destruct (free ws0 WKEEPTTL); [done|]. by destruct args. }
  rewrite (bool_decide_eq_false_2 _ N1), (bool_decide_eq_false_2 _ N2), (bool_decide_eq_false_2 _ N3). simpl.
  destruct args as [|arg args]; [unfold options_spec; simpl; by rewrite !decide_False|].
  destruct (decide (word a = [69; 88])) as [E|N4].
  { rewrite E. simpl. rewrite <- (F4 arg). rewrite <- (Hgo (WEX arg) args); [|by simpl; rewrite !decide_False, decide_True by done|simpl; lia].
    by destruct (free ws0 (WEX arg)). }
  destruct (decide (word a = [80; 88])) as [E|N5].
  { rewrite E. simpl. rewrite <- (F5 arg). rewrite <- (Hgo (WPX arg) args); [|by simpl; rewrite !decide_False, decide_True by done|simpl; lia].
    by destruct (free ws0 (WPX arg)). }
  rewrite (bool_decide_eq_false_2 _ N4), (bool_decide_eq_false_2 _ N5). simpl. unfold options_spec. simpl. by rewrite !decide_False.
Qed.

(** What the variables say of the time to live *)
Definition ttl_vars (flags : Z) (expire : option bytes) (seconds : bool) (t : set_ttl) : Prop :=
  match t with
  | Forget => expire = None /\ has flags OBJ_SET_KEEPTTL = false
  | Keep => expire = None /\ has flags OBJ_SET_KEEPTTL = true
  | Within arg unit => expire = Some arg /\ unit = if seconds then 1000 else 1
  end.
Lemma set_result_spec e flags m k s expire seconds w t r1 r2 :
  aborts e flags m k = stops e w m k -> ttl_vars flags expire seconds t -> set_fits e t ->
  set_result e flags m k s expire seconds r1 r2 = set_spec e w t m k s r1 r2.
Proof.
  intros Ha Ht Hf. unfold set_result, set_spec, expire_arg, old_time. rewrite Ha. destruct t as [| |arg unit]; destruct Ht as [-> Ht].
  - by rewrite Ht.
  - by rewrite Ht.
  - simpl in Hf. destruct (string2ll arg) as [n|]; [|done]. destruct (n <=? 0); [done|]. destruct (Hf n eq_refl) as [H1 H2]. subst unit.
    destruct seconds; [rewrite (sN_small 64 (n * 1000)) by done|rewrite Z.mul_1_r in *]; by rewrite sN_small by done.
Qed.

Lemma aborts_words e m k ws : consistent ws = true -> aborts e (after_words ws).1.1 m k = stops e (when_of ws) m k.
Proof.
  intros Hc. unfold aborts, when_of. rewrite (flags_after ws WNX : has _ OBJ_SET_NX = _), (flags_after ws WXX : has _ OBJ_SET_XX = _).
  assert (existsb (fun x => flag_of x =? flag_of WNX) ws = existsb (fun w => match w with WNX => true | _ => false end) ws) as ->
    by (clear; induction ws as [|[] ws IH]; simpl; rewrite ?IH; done).
  assert (existsb (fun x => flag_of x =? flag_of WXX) ws = existsb (fun w => match w with WXX => true | _ => false end) ws) as ->
    by (clear; induction ws as [|[] ws IH]; simpl; rewrite ?IH; done).
  destruct (existsb (fun w => match w with WNX => true | _ => false end) ws) eqn:E1; simpl.
  - destruct (existsb (fun w => match w with WXX => true | _ => false end) ws) eqn:E2; [|by rewrite orb_false_r]. exfalso.
    apply existsb_exists in E1 as (x & Hx & E1). apply existsb_exists in E2 as (y & Hy & E2). destruct x, y; try done.
    unfold consistent in Hc. rewrite forallb_forall in Hc. specialize (Hc _ Hx). rewrite forallb_forall in Hc. by specialize (Hc _ Hy).
  - by destruct (existsb (fun w => match w with WXX => true | _ => false end) ws).
Qed.
Lemma ttl_words ws : consistent ws = true ->
  let '(f, ex, sec) := after_words ws in
  ttl_vars f ex sec (ttl_of ws) /\
  has f OBJ_SET_EX || has f OBJ_SET_PX = (match ttl_of ws with Within _ _ => true | _ => false end) /\
  (has f OBJ_SET_KEEPTTL = match ttl_of ws with Keep => true | _ => false end).
Proof.
  induction ws as [|w ws IH] using rev_ind; [done|]. rewrite consistent_snoc, andb_true_iff. intros [Hc Hf]. specialize (IH Hc).
  rewrite after_snoc. assert (ttl_of (ws ++ [w]) = default (ttl_of ws) (ttl_word w)) as ->.
  { unfold ttl_of. rewrite omap_app. simpl. destruct (ttl_word w); simpl; [by rewrite last_snoc|by rewrite app_nil_r]. }
  assert (forall l, (forall x, clash x w = existsb (fun y => flag_of x =? flag_of y) l) -> existsb (fun y => has (after_words ws).1.1 (flag_of y)) l = false) as Hl.
  { intros l Hx. rewrite (free_flags ws w l Hx) in Hf. by apply negb_true_iff in Hf. }
  destruct (after_words ws) as [[f ex] sec]. cbn [fst] in Hl. destruct IH as (Ht & H1 & H2). destruct w; cbn [set_step ttl_word default]; rewrite ?has_lor.
  - rewrite H2. change (has OBJ_SET_NX OBJ_SET_EX) with false; change (has OBJ_SET_NX OBJ_SET_PX) with false; change (has OBJ_SET_NX OBJ_SET_KEEPTTL) with false.
    rewrite !orb_false_r. split_and!; try done. unfold ttl_vars in *. rewrite has_lor. change (has OBJ_SET_NX OBJ_SET_KEEPTTL) with false. by rewrite orb_false_r.
  - rewrite H2. change (has OBJ_SET_XX OBJ_SET_EX) with false; change (has OBJ_SET_XX OBJ_SET_PX) with false; change (has OBJ_SET_XX OBJ_SET_KEEPTTL) with false.
    rewrite !orb_false_r. split_and!; try done. unfold ttl_vars in *. rewrite has_lor. change (has OBJ_SET_XX OBJ_SET_KEEPTTL) with false. by rewrite orb_false_r.
  - specialize (Hl [WEX []; WPX []] ltac:(by intros [])). cbn [existsb flag_of] in Hl. rewrite orb_false_r, H1 in Hl.
    change (has OBJ_SET_KEEPTTL OBJ_SET_EX) with false; change (has OBJ_SET_KEEPTTL OBJ_SET_PX) with false. rewrite !orb_false_r, H1.
    split_and!; [|done|by rewrite orb_true_r]. unfold ttl_vars in *. rewrite has_lor. split; [by destruct (ttl_of ws), Ht|by rewrite orb_true_r].
  - specialize (Hl [WKEEPTTL; WPX []] ltac:(by intros [])). cbn [existsb flag_of] in Hl. apply orb_false_iff in Hl as [-> _].
    split_and!; [done|by rewrite orb_true_r|done].
  - specialize (Hl [WKEEPTTL; WEX []] ltac:(by intros [])). cbn [existsb flag_of] in Hl. apply orb_false_iff in Hl as [-> _].
    split_and!; [done|by rewrite !orb_true_r|done].
Qed.
(** The options of a request, and what is stored *)
Lemma set_request_ok e m k s args r1 r2 :
  match set_options args OBJ_SET_NO_FLAGS None true, set_request args with
  | Some (f, ex, sec), Some (w, t) => set_fits e t -> set_result e f m k s ex sec r1 r2 = set_spec e w t m k s r1 r2
  | None, None => True
  | _, _ => False
  end.
Proof.
  pose proof (options_loop args [] eq_refl) as HE. unfold options_spec in HE. cbn [app] in HE. unfold set_request.
  change (set_options args OBJ_SET_NO_FLAGS None true) with (options_from args (after_words [])). rewrite HE.
  destruct (set_words args) as [ws|]; [|done]. destruct (consistent ws) eqn:Ec; [|done]. pose proof (ttl_words ws Ec) as Ht.
  pose proof (aborts_words e m k ws Ec) as Ha. destruct (after_words ws) as [[f ex] sec]. intros Hf. apply set_result_spec; [exact Ha|apply Ht|done].
Qed.

(** ** All the commands *)

Inductive strcmd :=
| CSet (key : bytes) (val : svalue) (args : list bytes)
| CSetnx (key : bytes) (val : svalue)
| CSetex (key expire : bytes) (val : svalue) (seconds : bool)
| CGet (key : bytes)
| CGetset (key : bytes) (val : svalue)
| CMget (keys : list bytes)
| CMset (args : list svalue) (nx : bool)
| CStrlen (key : bytes)
| CSetrange (key offset value : bytes)
| CGetrange (key start end_ : bytes)
| CIncr (key : bytes)
| CDecr (key : bytes)
| CIncrby (key arg : bytes)
| CDecrby (key arg : bytes)
| CAppend (key : bytes) (val : svalue).

Definition run_strcmd e i (c : strcmd) : keyspace svalue -> option (keyspace svalue) :=
  match c with
  | CSet k v args => setCommand e i k v args
  | CSetnx k v => setnxCommand e i k v
  | CSetex k expire v seconds => if seconds then setexCommand e i k expire v else psetexCommand e i k expire v
  | CGet k => getCommand e i k
  | CGetset k v => getsetCommand e i k v
  | CMget keys => mgetCommand e i keys
  | CMset args nx => if nx then msetnxCommand e i args else msetCommand e i args
  | CStrlen k => strlenCommand e i k
  | CSetrange k offset v => setrangeCommand e i k offset v
  | CGetrange k start end_ => getrangeCommand e i k start end_
  | CIncr k => incrCommand e i k
  | CDecr k => decrCommand e i k
  | CIncrby k arg => incrbyCommand e i k arg
  | CDecrby k arg => decrbyCommand e i k arg
  | CAppend k v => appendCommand e i k v
  end.

Definition one (x : absdb sabs * reply) : absdb sabs * list reply := (fst x, [snd x]).
Definition with_int (m : absdb sabs) (arg : bytes) (f : Z -> absdb sabs * reply) : absdb sabs * reply :=
  match string2ll arg with Some z => f z | None => (m, err_integer) end.
Definition strcmd_spec e m (c : strcmd) : absdb sabs * list reply :=
  match c with
  | CSet k v args =>
      match set_request args with
      | None => (m, [ReplySyntax])
      | Some (w, t) => one (set_spec e w t m k (bytes_of v) ReplyOk ReplyNull)
      end
  | CSetnx k v => one (set_spec e IfAbsent Forget m k (bytes_of v) (ReplyInt 1) (ReplyInt 0))
  | CSetex k expire v seconds => one (set_spec e Always (Within expire (if seconds then 1000 else 1)) m k (bytes_of v) ReplyOk ReplyNull)
  | CGet k => (purge e m k, [read_str e m k ReplyNull ReplyBulk])
  | CGetset k v => (getset_spec e m k (bytes_of v), [read_str e m k ReplyNull ReplyBulk])
  | CMget keys => (purge_all e m keys, ReplyArrayLen (zlen keys) :: (mget_reply e m <$> keys))
  | CMset args nx => one (mset_command_spec e m (bytes_of <$> args) nx)
  | CStrlen k => (purge e m k, [read_str e m k (ReplyInt 0) (fun s => ReplyInt (zlen s))])
  | CSetrange k offset v =>
      one (with_int m offset (fun off => if off <? 0 then (m, ReplyError "offset is out of range") else update_spec e m k (setrange_new e off v)))
  | CGetrange k start end_ =>
      one (with_int m start (fun a => with_int m end_ (fun b =>
        (purge e m k, read_str e m k (ReplyBulk []) (fun s => ReplyBulk (range_spec s a b))))))
  | CIncr k => one (update_spec e m k (incr_new 1))
  | CDecr k => one (update_spec e m k (incr_new (-1)))
  | CIncrby k arg => one (with_int m arg (fun z => update_spec e m k (incr_new z)))
  | CDecrby k arg => one (with_int m arg (fun z => update_spec e m k (incr_new (- z))))
  | CAppend k v => one (update_spec e m k (append_new e (bytes_of v)))
  end.

(** The values given as arguments *)
Definition values (c : strcmd) : list svalue :=
  match c with
  | CSet _ v _ | CSetnx _ v | CSetex _ _ v _ | CGetset _ v | CAppend _ v => [v]
  | CMset args _ => args
  | _ => []
  end.
(** No sum or product of the code overflows. *)
Definition strcmd_fits e m (c : strcmd) : Prop :=
  match c with
  | CSet _ _ args => match set_request args with Some (_, t) => set_fits e t | None => True end
  | CSetex _ expire _ seconds => set_fits e (Within expire (if seconds then 1000 else 1))
  | CSetrange _ offset v => setrange_fits offset v
  | CDecrby _ arg => string2ll arg <> Some LLONG_MIN
  | CAppend k v => append_fits m k (bytes_of v)
  | _ => True
  end.

Definition refines i m (c : keyspace svalue -> option (keyspace svalue)) (x : absdb sabs * list reply) : Prop :=
  does i m (unit_of c) (fun _ m' evs n => m' = fst x /\ replies evs = snd x /\ signalled i m m' evs n).

Lemma refines_reply i m r : refines i m (fun st => Some (addReply r st)) (one (m, r)).
Proof. apply does_intro. intros s0 ms st Hat. unfold unit_of. finish. by split_and!. Qed.
Lemma refines_set e i m flags k v expire seconds r1 r2 :
  Z.of_nat (base.size m) < 2 ^ 57 -> is_sds v ->
  refines i m (fun st => let! o := tryObjectEncoding e v in setGenericCommand e flags i k o expire seconds r1 r2 st)
    (one (set_result e flags m k (bytes_of v) expire seconds r1 r2)).
Proof. intros Hsz Hv. destruct (encode_ok e v _ (bytes_of_sds v Hv)) as (o & -> & Ho). by apply set_generic_ok. Qed.
Lemma refines_int i m arg c f :
  (forall z, string2ll arg = Some z -> is_s 64 z -> refines i m (c z) (one (f z))) ->
  refines i m (fun st => match string2ll arg with None => Some (addReply err_integer st) | Some z => c z st end) (one (with_int m arg f)).
Proof.
  intros Hc. unfold with_int. destruct (string2ll arg) as [z|] eqn:E; [|apply refines_reply]. apply Hc; [done|]. by apply string2ll_iff in E as [_ ?].
Qed.
Lemma refines_mget e i m keys : refines i m (mgetCommand e i keys) (strcmd_spec e m (CMget keys)).
Proof.
  apply does_intro. intros s0 ms st Hat. unfold unit_of, mgetCommand. exec (mget_loop_ok e i keys m). destruct HQ as (-> & Hr & Hs & ->).
  finish. rewrite ?replies_app, Hr. split_and!; try done. eapply signalled_sub; [exact Hs|set_solver].
Qed.
Lemma refines_getrange e i m k a b : short_strings m -> is_s 64 a -> is_s 64 b ->
  refines i m (fun st => let! (o, st) := lookupKeyReadOrReply e i k (ReplyBulk []) st in
      match o with
      | None => Some st
      | Some o => if not_string (ptr o) then Some (addReply ReplyWrongType st) else
          let! str := reply_string (ptr o) in Some (addReply (ReplyBulk (range_of str a b)) st)
      end) (one (purge e m k, read_str e m k (ReplyBulk []) (fun s => ReplyBulk (range_spec s a b)))).
Proof.
  intros Hm Ha Hb. eapply does_impl; [apply getrange_ok|]. intros _ m' evs n (-> & -> & Hs). split_and!; try done.
  unfold one, read_str. simpl. destruct (visible e (m !! k)) as [[[s|ty] t]|] eqn:Ev; try done.
  apply visible_kept in Ev as [_ Ev]. rewrite range_of_spec; [done..|]. by eapply Hm.
Qed.

Lemma refines_get e i m k : refines i m (getCommand e i k) (strcmd_spec e m (CGet k)).
Proof.
  apply does_intro. intros s0 ms st Hat. unfold unit_of, getCommand. run (get_generic_ok e i m k) ok. destruct HQ as (_ & -> & Hr & Hs & ->).
  finish. by rewrite Hr.
Qed.
Lemma refines_setrange e i m k off (v : bytes) : Z.of_nat (base.size m) < 2 ^ 57 -> short_strings m -> setrange_fits off v -> refines i m (setrangeCommand e i k off v) (strcmd_spec e m (CSetrange k off v)).
Proof.
  intros Hsz Hm Hf. eapply does_impl; [by apply setrange_ok|]. intros _ m' evs n (-> & -> & Hs). simpl. unfold with_int. by destruct (string2ll off).
Qed.
Lemma refines_range e i m k a b : short_strings m -> refines i m (getrangeCommand e i k a b) (strcmd_spec e m (CGetrange k a b)).
Proof.
  intros Hm. unfold getrangeCommand. cbn [strcmd_spec]. unfold with_int.
  destruct (string2ll a) as [x|] eqn:Ea; [|apply refines_reply]. destruct (string2ll b) as [y|] eqn:Eb; [|apply refines_reply].
  apply string2ll_iff in Ea as [_ Ha]. apply string2ll_iff in Eb as [_ Hb]. by apply refines_getrange.
Qed.

Lemma strcmd_ok e i m c :
  Z.of_nat (base.size m) + zlen (values c) < 2 ^ 57 -> Forall is_sds (values c) -> short_strings m -> strcmd_fits e m c -> refines i m (run_strcmd e i c) (strcmd_spec e m c).
Proof.
  intros Hsz Hv Hm Hf. pose proof (zlen_nonneg (values c)) as Hp. assert (Z.of_nat (base.size m) < 2 ^ 57) as Hs by lia.
  destruct c as [k v args|k v|k ex v sec|k|k v|keys|args nx|k|k off v|k a b|k|k|k arg|k arg|k v]; simpl values in *; cbn [run_strcmd strcmd_spec strcmd_fits] in *.
  - unfold setCommand. pose proof (set_request_ok e m k (bytes_of v) args ReplyOk ReplyNull) as HR.
    destruct (set_options args OBJ_SET_NO_FLAGS None true) as [[[f ex] sec]|], (set_request args) as [[w t]|]; try done; [|apply refines_reply].
    rewrite <- HR by done. apply refines_set; [done|by apply (Forall_inv Hv)].
  - rewrite <- (set_result_spec e OBJ_SET_NX m k (bytes_of v) None true IfAbsent Forget); [|by unfold aborts; simpl; rewrite orb_false_r|done..].
    apply refines_set; [done|by apply (Forall_inv Hv)].
  - rewrite <- (set_result_spec e OBJ_SET_NO_FLAGS m k (bytes_of v) (Some ex) sec Always) by done.
    destruct sec; (apply refines_set; [done|by apply (Forall_inv Hv)]).
  - apply refines_get.
  - apply getset_ok; [done|]. by apply bytes_of_sds, (Forall_inv Hv).
  - apply refines_mget.
  - destruct nx; by apply mset_generic_ok.
  - eapply does_impl; [apply strlen_ok|]. intros _ m' evs n (-> & -> & Hs'). split_and!; try done. unfold read_str. simpl.
    destruct (visible e (m !! k)) as [[[s|ty] t]|] eqn:Ev; try done. apply visible_kept in Ev as [_ Ev]. zlen_pos.
    rewrite sN_small; [done|lia|]. unfold is_s. specialize (Hm _ _ _ Ev). pose proof (zlen_nonneg s). lia.
  - by apply refines_setrange.
  - by apply refines_range.
  - by apply incr_ok.
  - by apply incr_ok.
  - unfold incrbyCommand. apply refines_int. intros z _ Hz. by apply incr_ok.
  - unfold decrbyCommand. apply refines_int. intros z Ez Hz. assert (is_s 64 (- z)) as Hn.
    { assert (z <> LLONG_MIN) by congruence. unfold is_s, LLONG_MIN, INT64_MIN in *. lia. }
    rewrite (sN_small 64 (- z)) by done. by apply incr_ok.
  - apply append_ok; [done| |done]. by apply bytes_of_sds, (Forall_inv Hv).
Qed.

(** ** The options of SET *)

(** Of NX and XX, of EX, PX and KEEPTTL at most one is given, and a time with EX in seconds or PX in milliseconds. *)
Definition options_ok (flags : Z) (expire : option bytes) (seconds : bool) : Prop :=
  has flags OBJ_SET_NX && has flags OBJ_SET_XX = false /\
  has flags OBJ_SET_KEEPTTL && (has flags OBJ_SET_EX || has flags OBJ_SET_PX) = false /\ has flags OBJ_SET_EX && has flags OBJ_SET_PX = false /\
  bool_decide (is_Some expire) = has flags OBJ_SET_EX || has flags OBJ_SET_PX /\ seconds = negb (has flags OBJ_SET_PX).

Lemma set_options_ok args : forall flags expire seconds flags' expire' seconds',
  options_ok flags expire seconds -> set_options args flags expire seconds = Some (flags', expire', seconds') -> options_ok flags' expire' seconds'.
Proof.
  induction args as [args IH] using (induction_ltof1 _ (@length bytes)). unfold ltof in IH. intros f ex sec f' ex' sec' Hok.
  destruct args as [|a rest]; simpl; [intros [= -> -> ->]; done|].
  assert (forall g ex1 sec1 args', (length args' < length (a :: rest))%nat -> options_ok (Z.lor f g) ex1 sec1 ->
    set_options args' (Z.lor f g) ex1 sec1 = Some (f', ex', sec') -> options_ok f' ex' sec') as Hgo by eauto.
  clear IH. destruct (_ && _) eqn:E1; [|clear E1; destruct (_ && _) eqn:E1; [|clear E1; destruct (_ && _) eqn:E1]].
  4: clear E1; destruct rest as [|next rest]; [done|]; destruct (_ && _) eqn:E1; [|clear E1; destruct (_ && _) eqn:E1; [|done]].
  all: apply Hgo; [simpl; lia|]; unfold options_ok in *; rewrite !has_lor;
    change (has OBJ_SET_NX OBJ_SET_NX) with true; change (has OBJ_SET_NX OBJ_SET_XX) with false.
  all: destruct (has f OBJ_SET_NX), (has f OBJ_SET_XX), (has f OBJ_SET_KEEPTTL), (has f OBJ_SET_EX), (has f OBJ_SET_PX);
    rewrite ?andb_false_r in E1; try done; destruct Hok as (H1 & H2 & H3 & H4 & H5); try done.
Qed.

Lemma i64_big z : 2 ^ 63 <= z < 2 ^ 64 -> i64 z = z - 2 ^ 64.
Proof.
  intros Hz. rewrite <- (sN_small 64 (z - 2 ^ 64)) by (unfold is_s; lia). unfold sN.
  replace (z - 2 ^ 64 + 2 ^ (64 - 1)) with (z + 2 ^ (64 - 1) + (-1) * 2 ^ 64) by lia. rewrite Z.mod_add by lia. done.
Qed.

(** C8. Strings: on a keyspace that represents finite maps from keys to strings, or values of other types, with expiration
    times, the commands SET with its options, SETNX, SETEX, PSETEX, GET, GETSET, MGET, MSET, MSETNX, STRLEN, SETRANGE,
    GETRANGE, INCR, DECR, INCRBY, DECRBY and APPEND return, have exactly the effect and the replies their specification gives
    them whatever the encoding of the values, and signal every key they change and count the change.  The lengths and times
    are in the ranges of their types: the cases in which a sum or a product of the code overflows are left out. *)
Theorem string_commands_correct e i c (s : keyspace svalue) ms m :
  ks_rep s ms -> ms !! i = Some m -> Z.of_nat (base.size m) + zlen (values c) < 2 ^ 57 -> Forall is_sds (values c) -> short_strings m -> strcmd_fits e m c ->
  exists (s' : keyspace svalue) evs n, run_strcmd e i c s = Some s' /\ ks_rep s' (<[i := fst (strcmd_spec e m c)]> ms) /\
    events s' = events s ++ evs /\ dirtied s n s' /\
    replies evs = snd (strcmd_spec e m c) /\ signalled i m (fst (strcmd_spec e m c)) evs n.
Proof.
  intros Hr Hi Hsz Hv Hm Hf. destruct (strcmd_ok e i m c Hsz Hv Hm Hf s ms Hr Hi) as (u & s' & m' & evs & n & Hc & Hr' & He & Hd & -> & Hrep & Hsig).
  unfold unit_of in Hc. destruct (run_strcmd e i c s) as [s''|]; [|done]. injection Hc as _ ->. by exists s', evs, n.
Qed.

(** DECRBY by the least 64 bit integer adds it, so that it is refused for an overflow exactly when the difference is
    representable: a negative number is left alone, and another one becomes negative. *)
Theorem decrby_min_inverted e i k arg (s : keyspace svalue) ms m str t z :
  ks_rep s ms -> ms !! i = Some m -> Z.of_nat (base.size m) < 2 ^ 57 -> string2ll arg = Some LLONG_MIN ->
  purge e m k !! k = Some (AStr str, t) -> string2ll str = Some z ->
  exists (s' : keyspace svalue) evs, decrbyCommand e i k arg s = Some s' /\ events s' = events s ++ evs /\
    if bool_decide (is_s 64 (z - LLONG_MIN)) then
      ks_rep s' ms /\ replies evs = [ReplyError "increment or decrement would overflow"]
    else ks_rep s' (<[i := <[k := (AStr (print (z + LLONG_MIN)), t)]> m]> ms) /\ replies evs = [ReplyInt (z + LLONG_MIN)].
Proof.
  intros Hr Hi Hsz Ha Hk Hz. destruct (incr_ok e i m k LLONG_MIN Hsz ltac:(done) s ms Hr Hi) as (u & s' & m' & evs & n & Hc & Hr' & He & _ & -> & Hrep & _).
  unfold unit_of in Hc. unfold decrbyCommand. rewrite Ha. replace (i64 (- LLONG_MIN)) with LLONG_MIN by done.
  destruct (incrDecrCommand e i k LLONG_MIN s) as [s''|]; [|done]. injection Hc as _ ->. exists s', evs. split_and!; [done..|].
  unfold update_spec, incr_new in *. rewrite Hk in *. simpl from_option in *. rewrite Hz in *. apply string2ll_iff in Hz as [_ Hz].
  destruct (purge_kept _ _ _ _ Hk) as [Hp _]. unfold is_s, LLONG_MIN, INT64_MIN in *.
  destruct (bool_decide_reflect (- 2 ^ (64 - 1) <= z - - 2 ^ 63 < 2 ^ (64 - 1))) as [H1|H1],
    (bool_decide_reflect (- 2 ^ (64 - 1) <= z + - 2 ^ 63 < 2 ^ (64 - 1))) as [H2|H2]; try lia; [|done].
  simpl in *. rewrite Hp, list_insert_id in Hr' by done. done.
Qed.

(** C38. SETRANGE compares the offset plus the length with the limit as a long long: when the sum is 2^63 or more it is
    negative and passes, whatever the limit, on a key that holds a string or does not exist.  The command then asks for
    a block of that size and the server stops. *)
Theorem setrange_length_overflow e i k offset off (v : bytes) (s : keyspace svalue) ms m :
  ks_rep s ms -> ms !! i = Some m -> short_strings m -> match purge e m k !! k with Some (ANot _, _) => False | _ => True end ->
  string2ll offset = Some off -> 0 <= off -> 2 ^ 63 <= off + zlen v < 2 ^ 64 -> 0 <= proto_max_bulk_len e ->
  checkStringLength e (off + zlen v) = true /\ setrangeCommand e i k offset v s = None.
Proof.
  intros Hr Hi Hm Hk Ho Hoff Hlen Hmax. pose proof (proj2 (proj1 (string2ll_iff _ _) Ho)) as Hs. unfold is_s in Hs.
  assert (off <? 0 = false) as Hneg by by apply Z.ltb_ge.
  assert (checkStringLength e (off + zlen v) = true) as Hc.
  { unfold checkStringLength. rewrite i64_big, Z.gtb_ltb, (proj2 (Z.ltb_ge _ _)) by lia. by rewrite andb_false_r. }
  assert (zlen v =? 0 = false) as Hv by (apply Z.eqb_neq; lia).
  assert (sds_alloc (off + zlen v) = None) as Ha by (unfold sds_alloc; by rewrite (proj2 (Z.ltb_ge _ _)) by lia).
  split; [done|]. unfold setrangeCommand. rewrite Ho, Hneg. unfold lookupKeyWrite.
  destruct (lookupKeyWrite_ok e i m k LOOKUP_NONE s ms Hr Hi) as (o & s1 & m1 & evs & n & HE & Hr1 & _ & _ & Hf & -> & _ & _). rewrite HE. mstep.
  destruct (purge e m k !! k) as [[[old|ty] t]|] eqn:Ek, o as [o|]; try done; simpl in Hf.
  - rewrite (not_string_rep _ (AStr old)), (len_ok _ old) by done. mstep. rewrite Hv, Hc. simpl.
    assert (<[i := purge e m k]> ms !! i = Some (purge e m k)) as Hi1 by (apply list_lookup_insert_eq; by apply lookup_lt_Some in Hi).
    destruct (unshare_ok e i (purge e m k) k (ptr o) old t Ek Hf s1 _ Hr1 Hi1) as (x & s2 & m2 & evs2 & n2 & HE2 & _ & _ & _ & -> & _).
    rewrite HE2. mstep. unfold setrange_finish. pose proof (Hm _ _ _ (proj2 (purge_kept _ _ _ _ Ek))) as Hl.
    rewrite (proj2 (Z.ltb_lt (zlen old) _)) by lia. by rewrite Ha.
  - rewrite Hv, Hc. simpl. by rewrite Ha.
Qed.

End Ops.
(** The options of SET: NX and XX exclude each other, as do EX, PX and KEEPTTL; an expiration is kept exactly with EX
    or PX, in seconds unless with PX; any other sequence of words is a syntax error. *)
Theorem set_options_exclusive args flags expire seconds :
  set_options args OBJ_SET_NO_FLAGS None true = Some (flags, expire, seconds) -> options_ok flags expire seconds.
Proof. by apply set_options_ok. Qed.

Module Example_strings.

#[local] Instance junk_bytes : Alloc := fun i => i * 7 + 165.
(** Keys are hashed by their length. *)
#[local] Instance length_type : dictType bytes :=
  {| hashFunction k := u64 (zlen k); keyCompare k1 k2 := bool_decide (k1 = k2) |}.
#[local] Instance length_type_ok : DictTypeOk bytes.
Proof. constructor; [intros; apply uN_bound; lia|intros; apply bool_decide_eq_true]. Qed.
#[local] Existing Instance str_rep.

(** A master at the time 10 with the default limit of 512 MB *)
Definition env : kenv :=
  KEnv false true false None 0 10 10 0 0 10 false 10 1 (fun _ => 0) false false false false false false false 512 536870912 true true.

Definition key_a : bytes := [97].
Definition key_b : bytes := [98].
Definition hello : bytes := [104; 101; 108; 108; 111].
Definition empty_db : redisDb svalue := RedisDb dictCreate dictCreate.
Definition empty : keyspace svalue := Keyspace [empty_db] 0 0 0 0 0 [].
Lemma no_strings_rep : ks_rep empty [∅].
Proof.
  assert (db_rep empty_db (∅ : absdb sabs)) as Hd.
  { exists ∅, ∅. split; [apply create_rep|]. split; [apply create_rep|]. intros k. by rewrite !lookup_empty. }
  by repeat constructor.
Qed.

Definition step (c : keyspace svalue -> option (keyspace svalue)) (s : keyspace svalue) : keyspace svalue := default s (c s).
Lemma string_step_ok i x c Q s xs :
  does i x (unit_of c) Q -> ks_rep s xs -> xs !! i = Some x ->
  exists x' evs n, ks_rep (step c s) (<[i := x']> xs) /\ Q tt x' evs n.
Proof.
  intros Hc Hr Hx. destruct (Hc s xs Hr Hx) as (u & s' & x' & evs & n & HE & Hr' & _ & _ & HQ). unfold unit_of in HE. unfold step.
  destruct (c s); [|done]. injection HE as <- ->. simpl. eauto.
Qed.

(** [MSET a 5 b hello] *)
Definition sample_args : list svalue := [SEmb key_a; SEmb [53]; SEmb key_b; SEmb hello].
Definition sample : keyspace svalue := step (msetGenericCommand env 0 sample_args false) empty.
Definition sample_map : absdb sabs := <[key_b := (AStr hello, None)]> {[ key_a := (AStr [53], None) ]}.
Lemma string_sample_rep : ks_rep sample [sample_map].
Proof.
  assert (does 0 ∅ (unit_of (msetGenericCommand env 0 sample_args false)) (fun _ x' _ _ => x' = sample_map)) as Hd.
  { eapply does_impl; [apply mset_generic_ok|].
    - vm_compute. reflexivity.
    - repeat constructor; by eexists.
    - intros _ x' evs n [-> _]. apply (bool_decide_unpack _). vm_compute. done. }
  destruct (string_step_ok 0 ∅ _ _ empty [∅] Hd no_strings_rep eq_refl) as (x1 & _ & _ & R1 & ->). exact R1.
Qed.
Lemma sample_short : short_strings sample_map.
Proof.
  intros k s t. unfold sample_map. rewrite lookup_insert_Some, lookup_singleton_Some.
  intros [[_ [= <- _]]|[_ [_ [= <- _]]]]; vm_compute; done.
Qed.

(** [SET b 5 px 700 xx] at the time 10 *)
Lemma string_commands_correct_witness :
  exists s' evs, run_strcmd env 0 (CSet key_b (SEmb [53]) [[112; 120]; [55; 48; 48]; [120; 120]]) sample = Some s' /\
    ks_rep s' [<[key_b := (AStr [53], Some 710)]> sample_map] /\ replies evs = [ReplyOk].
Proof.
  destruct (string_commands_correct env 0 (CSet key_b (SEmb [53]) [[112; 120]; [55; 48; 48]; [120; 120]]) sample [sample_map] sample_map)
    as (s' & evs & n & Hs & Hr & _ & _ & Hrep & _);
    [apply string_sample_rep|done|vm_compute; reflexivity|repeat constructor; by eexists|apply sample_short| |].
  { simpl. intros n Hn. assert (n = 700) as -> by (vm_compute in Hn; congruence). vm_compute. split; split; discriminate || reflexivity. }
  assert (fst (strcmd_spec env sample_map (CSet key_b (SEmb [53]) [[112; 120]; [55; 48; 48]; [120; 120]])) = <[key_b := (AStr [53], Some 710)]> sample_map)
    as HE by (apply (bool_decide_unpack _); vm_compute; done).
  assert (snd (strcmd_spec env sample_map (CSet key_b (SEmb [53]) [[112; 120]; [55; 48; 48]; [120; 120]])) = [ReplyOk]) as HE' by (vm_compute; reflexivity).
  rewrite HE in Hr. rewrite HE' in Hrep. exists s', evs. split_and!; [exact Hs|exact Hr|exact Hrep].
Defined.

(** [DECRBY a -9223372036854775808] *)
Lemma decrby_min_inverted_witness :
  exists s' evs, decrbyCommand env 0 key_a [45;57;50;50;51;51;55;50;48;51;54;56;53;52;55;55;53;56;48;56] sample = Some s' /\
    events s' = events sample ++ evs /\ replies evs = [ReplyInt (5 - 2 ^ 63)].
Proof.
  destruct (decrby_min_inverted env 0 key_a [45;57;50;50;51;51;55;50;48;51;54;56;53;52;55;55;53;56;48;56] sample [sample_map] sample_map [53] None 5)
    as (s' & evs & Hs & He & _ & Hrep);
    [apply string_sample_rep|done|vm_compute; reflexivity|vm_compute; reflexivity|vm_compute; reflexivity|vm_compute; reflexivity|].
  exists s', evs. split_and!; [exact Hs|exact He|exact Hrep].
Defined.

(** [SETRANGE b 9223372036854775807 a] *)
Lemma setrange_length_overflow_witness :
  checkStringLength env (2 ^ 63) = true /\ setrangeCommand env 0 key_b [57;50;50;51;51;55;50;48;51;54;56;53;52;55;55;53;56;48;55] [97] sample = None.
Proof.
  apply (setrange_length_overflow env 0 key_b [57;50;50;51;51;55;50;48;51;54;56;53;52;55;55;53;56;48;55] (2 ^ 63 - 1) [97] sample [sample_map] sample_map);
    [apply string_sample_rep|done|apply sample_short|vm_compute; exact I|vm_compute; reflexivity|lia|unfold zlen; simpl; lia|done].
Defined.

(** [SET key value ex 10 xx] *)
Lemma set_options_exclusive_witness : options_ok (Z.lor OBJ_SET_EX OBJ_SET_XX) (Some [49; 48]) true.
Proof. apply (set_options_exclusive [[101; 120]; [49; 48]; [120; 120]]). vm_compute. reflexivity. Defined.
End Example_strings.
