(* ===== verification/Lcs.v ===== *)
(** * STRALGO LCS: longest common subsequences (t_string.c)

    The table is an array of 32 bit integers whose size and indices are computed in 32 bits, and is accessed within
    its bounds only: [None] is an access outside it. *)

From Stdlib Require Import ZArith Lia String.
From stdpp Require Import base numbers option fin_maps gmap list.
From S2P Require Import Prelude Memory Util UtilFacts Glob Sds SdsNumber Server Dict DictFacts DictSpec Keyspace KeyspaceFacts KeyspaceSpec StringCmd StringSpec.

Local Open Scope Z_scope.
Local Open Scope redis_scope.

(** ** The table *)

(** [LCS(A,B)] *)
Definition lcs_index (blen A B : Z) : nat := Z.to_nat (u32 (B + u32 (A * u32 (blen + 1)))).
Definition lcs_get (lcs : list Z) (blen A B : Z) : option Z := lcs !! lcs_index blen A B.
Definition lcs_set (lcs : list Z) (blen A B v : Z) : option (list Z) :=
  if decide (lcs_index blen A B < length lcs)%nat then Some (<[lcs_index blen A B := v]> lcs) else None.

Definition lcs_cell (a b : bytes) (blen : Z) (lcs : list Z) (i j : Z) : option (list Z) :=
  if (i =? 0) || (j =? 0) then lcs_set lcs blen i j 0 else
  let! x := a !! Z.to_nat (i - 1) in
  let! y := b !! Z.to_nat (j - 1) in
  if x =? y then
    let! v := lcs_get lcs blen (i - 1) (j - 1) in
    lcs_set lcs blen i j (u32 (v + 1))
  else
    let! lcs1 := lcs_get lcs blen (i - 1) j in
    let! lcs2 := lcs_get lcs blen i (j - 1) in
    lcs_set lcs blen i j (if lcs1 >? lcs2 then lcs1 else lcs2).

Fixpoint lcs_cols (a b : bytes) (blen : Z) (lcs : list Z) (i : Z) (js : list Z) : option (list Z) :=
  match js with
  | [] => Some lcs
  | j :: js => let! lcs := lcs_cell a b blen lcs i j in lcs_cols a b blen lcs i js
  end.
Fixpoint lcs_rows (a b : bytes) (blen : Z) (lcs : list Z) (rows : list Z) : option (list Z) :=
  match rows with
  | [] => Some lcs
  | i :: rows => let! lcs := lcs_cols a b blen lcs i (seqZ 0 (blen + 1)) in lcs_rows a b blen lcs rows
  end.

Section Lcs.
Context `{Alloc}.

(** [zmalloc((alen+1)*(blen+1)*sizeof(uint32_t))]: the words it has room for *)
Definition lcs_alloc (alen blen : Z) : list Z :=
  (fun i => u32 (junk (Z.of_nat i))) <$> seq 0 (Z.to_nat (u32 (u32 (alen + 1) * u32 (blen + 1)))).
Definition lcs_table (a b : bytes) : option (list Z) :=
  let alen := u32 (zlen a) in
  let blen := u32 (zlen b) in
  lcs_rows a b blen (lcs_alloc alen blen) (seqZ 0 (alen + 1)).

(** ** The subsequence *)

Record lcs_walker := Walk {
  w_i : Z; w_j : Z; w_idx : Z;
  w_result : bytes;
  arange_start : Z; arange_end : Z; brange_start : Z; brange_end : Z;
  w_ranges : list (Z * Z * Z * Z) }.

(** The ranges that are emitted, when indices are asked for *)
Definition emit_match (getidx : bool) (minmatchlen alen : Z) (emit_range : bool) (w : lcs_walker) : lcs_walker :=
  let match_len := u32 (arange_end w - arange_start w + 1) in
  if emit_range then
    Walk (w_i w) (w_j w) (w_idx w) (w_result w) alen (arange_end w) (brange_start w) (brange_end w)
      (if ((minmatchlen =? 0) || (match_len >=? minmatchlen)) && getidx
       then w_ranges w ++ [(arange_start w, arange_end w, brange_start w, brange_end w)] else w_ranges w)
  else w.

Definition lcs_step (a b : bytes) (alen blen : Z) (lcs : list Z) (getidx : bool) (minmatchlen : Z) (w : lcs_walker) : option lcs_walker :=
  let i := w_i w in
  let j := w_j w in
  let! x := a !! Z.to_nat (i - 1) in
  let! y := b !! Z.to_nat (j - 1) in
  if x =? y then
    let! result := store1 (w_result w) (u32 (w_idx w - 1)) x in
    let '(ars, are, brs, bre, er) :=
      if arange_start w =? alen then (i - 1, i - 1, j - 1, j - 1, false) else
      if (arange_start w =? i) && (brange_start w =? j) then (u32 (arange_start w - 1), arange_end w, u32 (brange_start w - 1), brange_end w, false)
      else (arange_start w, arange_end w, brange_start w, brange_end w, true) in
    let er := er || (ars =? 0) || (brs =? 0) in
    Some (emit_match getidx minmatchlen alen er (Walk (i - 1) (j - 1) (u32 (w_idx w - 1)) result ars are brs bre (w_ranges w)))
  else
    let! lcs1 := lcs_get lcs blen (i - 1) j in
    let! lcs2 := lcs_get lcs blen i (j - 1) in
    let '(i, j) := if lcs1 >? lcs2 then (i - 1, j) else (i, j - 1) in
    Some (emit_match getidx minmatchlen alen (negb (arange_start w =? alen))
            (Walk i j (w_idx w) (w_result w) (arange_start w) (arange_end w) (brange_start w) (brange_end w) (w_ranges w))).

(** Every turn lowers one of the indices. *)
Fixpoint lcs_walk (fuel : nat) (a b : bytes) (alen blen : Z) (lcs : list Z) (getidx : bool) (minmatchlen : Z) (w : lcs_walker) : option lcs_walker :=
  if (w_i w >? 0) && (w_j w >? 0) then
    match fuel with
    | O => None
    | S fuel => let! w := lcs_step a b alen blen lcs getidx minmatchlen w in lcs_walk fuel a b alen blen lcs getidx minmatchlen w
    end
  else Some w.

(** The length, the subsequence and the ranges *)
Definition lcs_run (a b : bytes) (getidx getlen : bool) (minmatchlen : Z) : option (Z * bytes * list (Z * Z * Z * Z)) :=
  let alen := u32 (zlen a) in
  let blen := u32 (zlen b) in
  let! lcs := lcs_table a b in
  let! idx := lcs_get lcs blen alen blen in
  if getidx || negb getlen then
    let! w := lcs_walk (Z.to_nat (alen + blen)) a b alen blen lcs getidx minmatchlen
                (Walk alen blen idx (realloc [] idx) alen 0 0 0 []) in
    Some (idx, w_result w, w_ranges w)
  else Some (idx, [], []).

(** ** The command *)

Record lcs_opts := LcsOpts { getidx : bool; getlen : bool; withmatchlen : bool; o_minmatchlen : Z; o_strings : option (bytes * bytes) }.

Context `{dictType bytes}.
Implicit Types (e : kenv) (s : keyspace svalue).

Definition str_IDX : bytes := [73; 68; 88].
Definition str_LEN : bytes := [76; 69; 78].
Definition str_WITHMATCHLEN : bytes := [87; 73; 84; 72; 77; 65; 84; 67; 72; 76; 69; 78].
Definition str_MINMATCHLEN : bytes := [77; 73; 78; 77; 65; 84; 67; 72; 76; 69; 78].
Definition str_STRINGS : bytes := [83; 84; 82; 73; 78; 71; 83].
Definition str_KEYS : bytes := [75; 69; 89; 83].

(** The bytes of a string, or none for a missing key *)
Definition decoded_bytes (o : option (robj svalue)) : option bytes :=
  match o with None => Some [] | Some o => let! d := getDecodedObject (ptr o) in sds_ptr d end.
Definition bad_type (o : option (robj svalue)) : bool := match o with Some o => not_string (ptr o) | None => false end.

Definition err_both : reply := ReplyError "Either use STRINGS or KEYS".

(** The options, or an error *)
Fixpoint lcs_options e (i : nat) (args : list bytes) (o : lcs_opts) s : option ((reply + lcs_opts) * keyspace svalue) :=
  match args with
  | [] => Some (inr o, s)
  | opt :: rest =>
      if same_nocase opt str_IDX then lcs_options e i rest (LcsOpts true (getlen o) (withmatchlen o) (o_minmatchlen o) (o_strings o)) s else
      if same_nocase opt str_LEN then lcs_options e i rest (LcsOpts (getidx o) true (withmatchlen o) (o_minmatchlen o) (o_strings o)) s else
      if same_nocase opt str_WITHMATCHLEN then lcs_options e i rest (LcsOpts (getidx o) (getlen o) true (o_minmatchlen o) (o_strings o)) s else
      match rest with
      | x :: rest1 =>
          if same_nocase opt str_MINMATCHLEN then
            match string2ll x with
            | None => Some (inl err_integer, s)
            | Some n => lcs_options e i rest1 (LcsOpts (getidx o) (getlen o) (withmatchlen o) (if n <? 0 then 0 else n) (o_strings o)) s
            end
          else
          match rest1 with
          | y :: rest2 =>
              if same_nocase opt str_STRINGS then
                match o_strings o with
                | Some _ => Some (inl err_both, s)
                | None => lcs_options e i rest2 (LcsOpts (getidx o) (getlen o) (withmatchlen o) (o_minmatchlen o) (Some (x, y))) s
                end
              else if same_nocase opt str_KEYS then
                match o_strings o with
                | Some _ => Some (inl err_both, s)
                | None =>
                    let! (obja, s) := lookupKeyRead e i x s in
                    let! (objb, s) := lookupKeyRead e i y s in
                    if bad_type obja || bad_type objb then Some (inl (ReplyError "The specified keys must contain string values"), s) else
                    let! a := decoded_bytes obja in
                    let! b := decoded_bytes objb in
                    lcs_options e i rest2 (LcsOpts (getidx o) (getlen o) (withmatchlen o) (o_minmatchlen o) (Some (a, b))) s
                end
              else Some (inl ReplySyntax, s)
          | [] => Some (inl ReplySyntax, s)
          end
      | [] => Some (inl ReplySyntax, s)
      end
  end.

Definition range_reply (wml : bool) (r : Z * Z * Z * Z) : list reply :=
  let '(ars, are, brs, bre) := r in
  [ReplyArrayLen (if wml then 3 else 2); ReplyArrayLen 2; ReplyInt ars; ReplyInt are; ReplyArrayLen 2; ReplyInt brs; ReplyInt bre] ++
  (if wml then [ReplyInt (u32 (are - ars + 1))] else []).

Definition lcs_reply (o : lcs_opts) (len : Z) (result : bytes) (ranges : list (Z * Z * Z * Z)) : list reply :=
  if getidx o then
    [ReplyMapLen 2; ReplyBulk [109; 97; 116; 99; 104; 101; 115]; ReplyArrayLen (zlen ranges)] ++ concat (range_reply (withmatchlen o) <$> ranges) ++
    [ReplyBulk [108; 101; 110]; ReplyInt len]
  else if getlen o then [ReplyInt len] else [ReplyBulk result].

(** The arguments after the name of the algorithm *)
Definition stralgoLCS e i (args : list bytes) s : option (keyspace svalue) :=
  let! (r, s) := lcs_options e i args (LcsOpts false false false 0 None) s in
  match r with
  | inl r => Some (addReply r s)
  | inr o =>
      match o_strings o with
      | None => Some (addReply (ReplyError "Please specify two strings: STRINGS or KEYS options are mandatory") s)
      | Some (a, b) =>
          if getlen o && getidx o then Some (addReply (ReplyError "If you want both the length and indexes, please just use IDX.") s) else
          let! (len, result, ranges) := lcs_run a b (getidx o) (getlen o) (o_minmatchlen o) in
          Some (foldl (fun s r => addReply r s) s (lcs_reply o len result ranges))
      end
  end.
Definition stralgoCommand e i (args : list bytes) s : option (keyspace svalue) :=
  match args with
  | alg :: rest => if same_nocase alg [108; 99; 115] then stralgoLCS e i rest s else Some (addReply ReplySyntax s)
  | [] => None
  end.
End Lcs.

(** ** Longest common subsequences *)

Definition common (a b s : bytes) : Prop := s `sublist_of` a /\ s `sublist_of` b.
(** [n] is the length of the longest ones. *)
Definition is_lcs_len (a b : bytes) (n : Z) : Prop :=
  (exists s, common a b s /\ zlen s = n) /\ forall s, common a b s -> zlen s <= n.

Lemma lcs_unique a b n m : is_lcs_len a b n -> is_lcs_len a b m -> n = m.
Proof. intros [(s & Hs & <-) H1] [(s' & Hs' & <-) H2]. apply H1 in Hs'. apply H2 in Hs. lia. Qed.
Lemma lcs_bounds a b n : is_lcs_len a b n -> 0 <= n <= Z.min (zlen a) (zlen b).
Proof. intros [(s & [H1 H2] & <-) _]. apply sublist_length in H1, H2. unfold zlen. lia. Qed.
Lemma lcs_nil a b : a = [] \/ b = [] -> is_lcs_len a b 0.
Proof.
  intros Hn. split; [exists []; split; [split; apply sublist_nil_l|done]|]. intros s [H1 H2].
  destruct Hn as [-> | ->]; [apply sublist_nil_r in H1 as ->|apply sublist_nil_r in H2 as ->]; done.
Qed.

(** The last element of a subsequence of [a ++ [x]] *)
Lemma sublist_last (s a : bytes) (z x : Z) : (s ++ [z]) `sublist_of` (a ++ [x]) -> s `sublist_of` a /\ (z = x \/ (s ++ [z]) `sublist_of` a).
Proof.
  intros Hs. apply sublist_app_r in Hs as (k1 & k2 & He & H1 & H2). apply sublist_cons_r in H2 as [H2|(k & -> & H2)].
  - apply sublist_nil_r in H2 as ->. rewrite app_nil_r in He. subst k1. split; [|by right]. etrans; [|exact H1]. by apply sublist_inserts_r.
  - apply sublist_nil_r in H2 as ->. apply app_inj_tail in He as [-> ->]. auto.
Qed.
Lemma lcs_same (a b : bytes) (x : Z) n : is_lcs_len a b n -> is_lcs_len (a ++ [x]) (b ++ [x]) (n + 1).
Proof.
  intros [(s & [H1 H2] & Hl) Hmax]. split.
  - exists (s ++ [x]). split; [split; by apply sublist_app|]. rewrite zlen_app, Hl. done.
  - intros s' [H1' H2']. destruct s' as [|z s' _] using rev_ind; [pose proof (zlen_nonneg s); rewrite zlen_nil; lia|].
    apply sublist_last in H1' as [H1' _], H2' as [H2' _]. rewrite zlen_app, zlen_cons, zlen_nil. pose proof (Hmax s' (conj H1' H2')). lia.
Qed.
Lemma lcs_diff (a b : bytes) (x y : Z) n m : x <> y -> is_lcs_len a (b ++ [y]) n -> is_lcs_len (a ++ [x]) b m ->
  is_lcs_len (a ++ [x]) (b ++ [y]) (Z.max n m).
Proof.
  intros Hne [(s & [H1 H2] & Hl) Hmax] [(s' & [H1' H2'] & Hl') Hmax']. split.
  - destruct (Z.max_spec n m) as [[_ ->]|[_ ->]]; [exists s'|exists s]; (split; [split|done]); try done; by apply sublist_inserts_r.
  - intros t [Ht1 Ht2]. destruct t as [|z t _] using rev_ind; [pose proof (zlen_nonneg s); rewrite zlen_nil; lia|].
    pose proof (sublist_last _ _ _ _ Ht1) as [_ [->|Hz]]; [|pose proof (Hmax _ (conj Hz Ht2)); lia].
    pose proof (sublist_last _ _ _ _ Ht2) as [_ [->|Hz]]; [done|]. pose proof (Hmax' _ (conj Ht1 Hz)). lia.
Qed.

(** ** The table holds the lengths for all prefixes *)

Definition prefix (l : bytes) (n : Z) : bytes := take (Z.to_nat n) l.
Lemma prefix_snoc (l : bytes) i x : 0 < i -> l !! Z.to_nat (i - 1) = Some x -> prefix l i = prefix l (i - 1) ++ [x].
Proof. intros Hi Hx. unfold prefix. replace (Z.to_nat i) with (S (Z.to_nat (i - 1))) by lia. by apply take_S_r. Qed.
Lemma byte_at (l : bytes) i : 0 < i <= zlen l -> exists x, l !! Z.to_nat (i - 1) = Some x.
Proof. intros Hi. apply lookup_lt_is_Some_2. unfold zlen in *. lia. Qed.

Section Table.
Variables a b : bytes.
Abbreviation W := (zlen b + 1).
Hypothesis small : (zlen a + 1) * W < 2 ^ 32.

Definition lin (i j : Z) : Z := i * W + j.

Lemma lin_bound i j : 0 <= i <= zlen a -> 0 <= j <= zlen b -> 0 <= lin i j < (zlen a + 1) * W.
Proof. intros Hi Hj. unfold lin. nia. Qed.
Lemma lens : u32 (zlen a) = zlen a /\ u32 (zlen b) = zlen b /\ u32 (zlen b + 1) = W /\ u32 (zlen a + 1) = zlen a + 1.
Proof. pose proof (zlen_nonneg a). pose proof (zlen_nonneg b). split_and!; apply uN_small; nia. Qed.
Lemma index_lin i j : 0 <= i <= zlen a -> 0 <= j <= zlen b -> lcs_index (zlen b) i j = Z.to_nat (lin i j).
Proof.
  intros Hi Hj. pose proof (lin_bound i j Hi Hj) as Hl. unfold lcs_index. destruct lens as (_ & _ & -> & _). unfold lin in *.
  rewrite (uN_small 32 (i * W)) by nia. f_equal. rewrite uN_small by lia. lia.
Qed.

Lemma lin_inj i' j' i j : 0 <= j' <= zlen b -> 0 <= j <= zlen b -> lin i' j' = lin i j -> i' = i /\ j' = j.
Proof. unfold lin. intros Hj' Hj He. assert (i' = i) as -> by nia. split; [done|lia]. Qed.

(** The cells before the position [k] are filled. *)
Definition filled (lcs : list Z) (k : Z) : Prop :=
  zlen lcs = (zlen a + 1) * W /\
  forall i j, 0 <= i <= zlen a -> 0 <= j <= zlen b -> lin i j < k -> exists n, lcs_get lcs (zlen b) i j = Some n /\ is_lcs_len (prefix a i) (prefix b j) n.

Lemma set_ok_cell lcs i j n : 0 <= i <= zlen a -> 0 <= j <= zlen b -> filled lcs (lin i j) -> is_lcs_len (prefix a i) (prefix b j) n ->
  exists lcs', lcs_set lcs (zlen b) i j n = Some lcs' /\ filled lcs' (lin i j + 1).
Proof.
  intros Hi Hj [Hl Hf] Hn. pose proof (lin_bound i j Hi Hj) as Hb. unfold lcs_set. rewrite (index_lin i j Hi Hj).
  rewrite decide_True by (unfold zlen in *; lia). eexists. split; [done|]. split; [unfold zlen in *; by rewrite length_insert|].
  intros i' j' Hi' Hj' Hk. unfold lcs_get. rewrite (index_lin i' j' Hi' Hj'). pose proof (lin_bound i' j' Hi' Hj').
  destruct (decide (lin i' j' = lin i j)) as [Heq|Hne].
  - destruct (lin_inj i' j' i j Hj' Hj Heq) as [-> ->]. exists n. split; [|done]. apply list_lookup_insert_eq. unfold zlen in *. lia.
  - rewrite list_lookup_insert_ne by lia. destruct (Hf i' j' Hi' Hj') as (n' & Hg & Hn'); [lia|]. unfold lcs_get in Hg. rewrite (index_lin i' j' Hi' Hj') in Hg. eauto.
Qed.

Lemma cell_ok lcs i j : 0 <= i <= zlen a -> 0 <= j <= zlen b -> filled lcs (lin i j) ->
  exists lcs', lcs_cell a b (zlen b) lcs i j = Some lcs' /\ filled lcs' (lin i j + 1).
Proof.
  intros Hi Hj Hf. unfold lcs_cell. destruct (Z.eqb_spec i 0) as [->|Hi0]; simpl; [apply set_ok_cell; [done..|apply lcs_nil; by left]|].
  destruct (Z.eqb_spec j 0) as [->|Hj0]; simpl; [apply set_ok_cell; [done..|apply lcs_nil; by right]|].
  destruct (byte_at a i) as [x Hx]; [lia|]. destruct (byte_at b j) as [y Hy]; [lia|]. rewrite Hx. cbn [mbind option_bind]. rewrite Hy. cbn [mbind option_bind].
  pose proof (prefix_snoc a i x ltac:(lia) Hx) as Ha. pose proof (prefix_snoc b j y ltac:(lia) Hy) as Hb. destruct Hf as [Hl Hf].
  destruct (Z.eqb_spec x y) as [->|Hne].
  - destruct (Hf (i - 1) (j - 1)) as (n & -> & Hn); [lia|lia|unfold lin; nia|]. cbn [mbind option_bind].
    pose proof (lcs_bounds _ _ _ Hn) as Hbn. rewrite uN_small.
    + apply set_ok_cell; [done..|]. rewrite Ha, Hb. by apply lcs_same.
    + unfold prefix in Hbn. rewrite !zlen_take in Hbn. nia.
  - destruct (Hf (i - 1) j) as (n1 & -> & Hn1); [lia|lia|unfold lin; nia|]. destruct (Hf i (j - 1)) as (n2 & -> & Hn2); [lia|lia|unfold lin; nia|].
    cbn [mbind option_bind]. apply set_ok_cell; [done..|]. replace (if n1 >? n2 then n1 else n2) with (Z.max n1 n2) by (destruct (Z.gtb_spec n1 n2); lia).
    rewrite Ha, Hb in *. by apply lcs_diff.
Qed.

Lemma cols_ok i : 0 <= i <= zlen a -> forall k j lcs, Z.of_nat k = W - j -> 0 <= j -> filled lcs (lin i j) ->
  exists lcs', lcs_cols a b (zlen b) lcs i (seqZ j (W - j)) = Some lcs' /\ filled lcs' (lin (i + 1) 0).
Proof.
  intros Hi. induction k as [|k IH]; intros j lcs Hk Hj Hf.
  { replace (W - j) with 0 by lia. exists lcs. split; [done|]. replace (lin (i + 1) 0) with (lin i j); [done|]. unfold lin. nia. }
  rewrite seqZ_cons by lia. cbn [lcs_cols]. destruct (cell_ok lcs i j Hi) as (lcs1 & -> & Hf1); [lia|done|]. cbn [mbind option_bind].
  replace (lin i j + 1) with (lin i (Z.succ j)) in Hf1 by (unfold lin; lia).
  destruct (IH (Z.succ j) lcs1) as (lcs2 & HE & Hf2); [lia|lia|done|]. replace (Z.pred (W - j)) with (W - Z.succ j) by lia. eauto.
Qed.
Lemma rows_ok : forall k i lcs, Z.of_nat k = zlen a + 1 - i -> 0 <= i -> filled lcs (lin i 0) ->
  exists lcs', lcs_rows a b (zlen b) lcs (seqZ i (zlen a + 1 - i)) = Some lcs' /\ filled lcs' (lin (zlen a + 1) 0).
Proof.
  induction k as [|k IH]; intros i lcs Hk Hi Hf.
  { replace (zlen a + 1 - i) with 0 by lia. exists lcs. split; [done|]. by replace (zlen a + 1) with i by lia. }
  rewrite seqZ_cons by lia. cbn [lcs_rows]. pose proof (zlen_nonneg b). destruct (cols_ok i ltac:(lia) (Z.to_nat W) 0 lcs) as (lcs1 & HE & Hf1); [lia|lia|done|].
  rewrite Z.sub_0_r in HE. rewrite HE. cbn [mbind option_bind]. replace (i + 1) with (Z.succ i) in Hf1 by lia.
  destruct (IH (Z.succ i) lcs1) as (lcs2 & HE2 & Hf2); [lia|lia|done|]. replace (Z.pred (zlen a + 1 - i)) with (zlen a + 1 - Z.succ i) by lia. eauto.
Qed.
End Table.

Section Walk.
Variables a b : bytes.
Hypothesis small : (zlen a + 1) * (zlen b + 1) < 2 ^ 32.
Hypothesis a_bytes : bytes_ok a.
Variables (lcs : list Z) (L : Z) (gi : bool) (mml : Z).
Hypothesis table : filled a b lcs (lin b (zlen a + 1) 0).

Lemma cell i j : 0 <= i <= zlen a -> 0 <= j <= zlen b -> exists n, lcs_get lcs (zlen b) i j = Some n /\ is_lcs_len (prefix a i) (prefix b j) n.
Proof. intros Hi Hj. apply table; [done..|]. unfold lin. nia. Qed.

Definition slice (l : bytes) (p q : Z) : bytes := take (Z.to_nat (q - p + 1)) (drop (Z.to_nat p) l).
Definition slice_a (r : Z * Z * Z * Z) : bytes := let '(ars, are, _, _) := r in slice a ars are.
(** The same bytes in both strings *)
Definition match_ok (r : Z * Z * Z * Z) : Prop :=
  let '(ars, are, brs, bre) := r in slice a ars are = slice b brs bre /\ 0 <= ars <= are /\ are < zlen a /\ 0 <= brs <= bre /\ bre < zlen b.

(** The bytes of the current range *)
Definition current (w : lcs_walker) (cur : bytes) : Prop :=
  (arange_start w = zlen a /\ cur = []) \/
  (0 < w_i w /\ 0 < w_j w /\ arange_start w = w_i w /\ brange_start w = w_j w /\ match_ok (w_i w, arange_end w, w_j w, brange_end w) /\
   cur = slice a (w_i w) (arange_end w)).

Record walk_ok (w : lcs_walker) : Prop := {
  k_i : 0 <= w_i w <= zlen a;
  k_j : 0 <= w_j w <= zlen b;
  k_idx : is_lcs_len (prefix a (w_i w)) (prefix b (w_j w)) (w_idx w);
  k_len : zlen (w_result w) = L /\ w_idx w <= L;
  k_a : drop (Z.to_nat (w_idx w)) (w_result w) `sublist_of` drop (Z.to_nat (w_i w)) a;
  k_b : drop (Z.to_nat (w_idx w)) (w_result w) `sublist_of` drop (Z.to_nat (w_j w)) b;
  k_cur : exists cur, current w cur /\ Forall match_ok (w_ranges w) /\
    (gi = true -> mml = 0 -> drop (Z.to_nat (w_idx w)) (w_result w) = cur ++ concat (reverse (slice_a <$> w_ranges w))) }.

(** A range that ends here *)
Lemma emit_ok w er cur : (er = true -> arange_start w = w_i w /\ brange_start w = w_j w /\ match_ok (w_i w, arange_end w, w_j w, brange_end w) /\ cur = slice a (w_i w) (arange_end w)) ->
  (er = false -> current w cur) -> Forall match_ok (w_ranges w) ->
  (gi = true -> mml = 0 -> drop (Z.to_nat (w_idx w)) (w_result w) = cur ++ concat (reverse (slice_a <$> w_ranges w))) ->
  exists cur', current (emit_match gi mml (zlen a) er w) cur' /\ Forall match_ok (w_ranges (emit_match gi mml (zlen a) er w)) /\
    (gi = true -> mml = 0 -> drop (Z.to_nat (w_idx w)) (w_result w) = cur' ++ concat (reverse (slice_a <$> w_ranges (emit_match gi mml (zlen a) er w)))).
Proof.
  intros Her Hc Hf Hs. unfold emit_match. destruct er; [|exists cur; auto]. destruct (Her eq_refl) as (E1 & E2 & Hm & Ec). exists []. simpl. split; [by left|].
  rewrite E1, E2. split.
  - destruct (_ && gi); [|done]. apply Forall_app. by split; [|constructor].
  - intros Hgi Hml. rewrite Hs, Hgi, Hml by done. simpl. rewrite fmap_app, reverse_app. simpl. by rewrite Ec.
Qed.

Lemma slice_cons (l : bytes) p q x : 0 <= p -> p <= q -> l !! Z.to_nat p = Some x -> slice l p q = x :: slice l (p + 1) q.
Proof.
  intros Hp Hq Hx. unfold slice. rewrite (drop_S l x (Z.to_nat p) Hx). replace (Z.to_nat (q - p + 1)) with (S (Z.to_nat (q - (p + 1) + 1))) by lia. simpl.
  by replace (Z.to_nat (p + 1)) with (S (Z.to_nat p)) by lia.
Qed.
Lemma slice_one (l : bytes) p x : 0 <= p -> l !! Z.to_nat p = Some x -> slice l p p = [x].
Proof. intros Hp Hx. rewrite (slice_cons l p p x) by (done || lia). unfold slice. by replace (Z.to_nat (p - (p + 1) + 1)) with 0%nat by lia. Qed.

(** What a match does to the current range *)
Lemma match_range w x cur ars are brs bre er :
  walk_ok w -> 0 < w_i w -> 0 < w_j w -> a !! Z.to_nat (w_i w - 1) = Some x -> b !! Z.to_nat (w_j w - 1) = Some x -> current w cur ->
  (if arange_start w =? zlen a then (w_i w - 1, w_i w - 1, w_j w - 1, w_j w - 1, false) else
   if (arange_start w =? w_i w) && (brange_start w =? w_j w) then (u32 (arange_start w - 1), arange_end w, u32 (brange_start w - 1), brange_end w, false)
   else (arange_start w, arange_end w, brange_start w, brange_end w, true)) = (ars, are, brs, bre, er) ->
  er = false /\ ars = w_i w - 1 /\ brs = w_j w - 1 /\ match_ok (ars, are, brs, bre) /\ slice a ars are = x :: cur.
Proof.
  intros [Hi Hj _ _ _ _ _] Hi0 Hj0 Ha Hb Hc. destruct Hc as [[E ->]|(_ & _ & E1 & E2 & (Hm & Hr1 & Hr2 & Hr3 & Hr4) & ->)].
  - rewrite E, Z.eqb_refl. intros [= <- <- <- <- <-]. unfold match_ok. rewrite (slice_one a _ x), (slice_one b _ x) by (done || lia). split_and!; done || lia.
  - rewrite E1, E2, !Z.eqb_refl, (proj2 (Z.eqb_neq (w_i w) (zlen a))) by lia. simpl. intros [= <- <- <- <- <-].
    assert (zlen a < 2 ^ 32 /\ zlen b < 2 ^ 32) as [Hla Hlb] by (pose proof (zlen_nonneg a); pose proof (zlen_nonneg b); nia).
    rewrite !uN_small by lia. unfold match_ok. rewrite (slice_cons a _ _ x), (slice_cons b _ _ x), !Z.sub_add, Hm by (done || lia). split_and!; done || lia.
Qed.

Lemma store1_drop (m : bytes) p x : 0 <= p < zlen m -> byte_ok x ->
  exists m', store1 m p x = Some m' /\ zlen m' = zlen m /\ drop (Z.to_nat p) m' = x :: drop (Z.to_nat (p + 1)) m.
Proof.
  intros Hp Hx. unfold store1, store. rewrite (uN_small 8 x) by (unfold byte_ok in Hx; lia). change (zlen [x]) with 1. rewrite decide_True by lia. eexists. split; [done|].
  split; [rewrite !zlen_app, zlen_take, zlen_drop; change (zlen [x]) with 1; lia|]. rewrite drop_app_ge by (rewrite length_take; lia).
  rewrite length_take, Nat.min_l by (unfold zlen in *; lia). by rewrite Nat.sub_diag.
Qed.
Lemma emit_fields er w : w_i (emit_match gi mml (zlen a) er w) = w_i w /\ w_j (emit_match gi mml (zlen a) er w) = w_j w /\
  w_idx (emit_match gi mml (zlen a) er w) = w_idx w /\ w_result (emit_match gi mml (zlen a) er w) = w_result w.
Proof. by destruct er. Qed.
Lemma drop_down (l : bytes) i x : 0 < i -> l !! Z.to_nat (i - 1) = Some x -> drop (Z.to_nat (i - 1)) l = x :: drop (Z.to_nat i) l.
Proof. intros Hi Hx. rewrite (drop_S l x _ Hx). by replace (S (Z.to_nat (i - 1))) with (Z.to_nat i) by lia. Qed.

Lemma match_step w x : walk_ok w -> 0 < w_i w -> 0 < w_j w -> a !! Z.to_nat (w_i w - 1) = Some x -> b !! Z.to_nat (w_j w - 1) = Some x ->
  exists w', lcs_step a b (zlen a) (zlen b) lcs gi mml w = Some w' /\ walk_ok w' /\ w_i w' = w_i w - 1 /\ w_j w' = w_j w - 1.
Proof.
  intros Hw Hi0 Hj0 Hx Hy. pose proof Hw as [Hi Hj Hn [Hl Hle] Ha Hb (cur & Hc & Hf & Hs)]. unfold lcs_step. rewrite Hx. cbn [mbind option_bind]. rewrite Hy. cbn [mbind option_bind].
  rewrite Z.eqb_refl. destruct (cell (w_i w - 1) (w_j w - 1)) as (n & _ & Hn'); [lia..|].
  assert (w_idx w = n + 1) as Hidx.
  { eapply lcs_unique; [exact Hn|]. rewrite (prefix_snoc a (w_i w) x), (prefix_snoc b (w_j w) x) by done. by apply lcs_same. }
  pose proof (lcs_bounds _ _ _ Hn') as Hbn. unfold prefix in Hbn. rewrite !zlen_take in Hbn. assert (zlen a < 2 ^ 32) as Hla by (pose proof (zlen_nonneg a); pose proof (zlen_nonneg b); nia).
  assert (byte_ok x) as Hbx by (eapply Forall_lookup_1; [exact a_bytes|exact Hx]).
  rewrite (uN_small 32 (w_idx w - 1)) by lia. replace (w_idx w - 1) with n by lia. destruct (store1_drop (w_result w) n x) as (r & -> & Hlr & Hdr); [lia|done|]. cbn [mbind option_bind].
  destruct (if arange_start w =? zlen a then _ else _) as [[[[ars are] brs] bre] er] eqn:Er.
  destruct (match_range w x cur ars are brs bre er Hw Hi0 Hj0 Hx Hy Hc Er) as (-> & Ears & Ebrs & Hm & Hsl). simpl orb. rewrite <- Hidx in Hdr.
  set (w1 := Walk (w_i w - 1) (w_j w - 1) n r ars are brs bre (w_ranges w)). set (er := (ars =? 0) || (brs =? 0)).
  assert (er = false -> current w1 (x :: cur)) as Hc1.
  { subst er. intros Her. apply orb_false_iff in Her as [H1 H2]. apply Z.eqb_neq in H1, H2. right. subst ars brs. simpl. rewrite <- Hsl. split; [lia|]. split; [lia|]. done. }
  destruct (emit_fields er w1) as (F1 & F2 & F3 & F4). eexists. split; [reflexivity|]. split; [|by rewrite F1, F2].
  destruct (emit_ok w1 er (x :: cur)) as (cur' & Hc' & Hf' & Hs'); [intros _; subst ars brs; simpl; by rewrite <- Hsl|done|done| |].
  { simpl. intros Hgi Hml. by rewrite Hdr, (Hs Hgi Hml). }
  split; rewrite ?F1, ?F2, ?F3, ?F4; simpl; [lia|lia|done|lia| | |by exists cur'].
  - rewrite Hdr, (drop_down a (w_i w) x) by done. by apply sublist_skip.
  - rewrite Hdr, (drop_down b (w_j w) x) by done. by apply sublist_skip.
Qed.

Lemma other_step w x y : walk_ok w -> 0 < w_i w -> 0 < w_j w -> a !! Z.to_nat (w_i w - 1) = Some x -> b !! Z.to_nat (w_j w - 1) = Some y -> x <> y ->
  exists w', lcs_step a b (zlen a) (zlen b) lcs gi mml w = Some w' /\ walk_ok w' /\ w_i w' + w_j w' = w_i w + w_j w - 1.
Proof.
  intros Hw Hi0 Hj0 Hx Hy Hne. pose proof Hw as [Hi Hj Hn [Hl Hle] Ha Hb (cur & Hc & Hf & Hs)]. unfold lcs_step. rewrite Hx. cbn [mbind option_bind]. rewrite Hy. cbn [mbind option_bind].
  rewrite (proj2 (Z.eqb_neq x y) Hne). destruct (cell (w_i w - 1) (w_j w)) as (n1 & -> & Hn1); [lia..|]. destruct (cell (w_i w) (w_j w - 1)) as (n2 & -> & Hn2); [lia..|].
  cbn [mbind option_bind].
  assert (w_idx w = Z.max n1 n2) as Hidx.
  { eapply lcs_unique; [exact Hn|]. rewrite (prefix_snoc a (w_i w) x), (prefix_snoc b (w_j w) y) in * by done. by apply lcs_diff. }
  assert (forall i j, 0 <= i <= zlen a -> 0 <= j <= zlen b -> i + j = w_i w + w_j w - 1 -> is_lcs_len (prefix a i) (prefix b j) (w_idx w) ->
    drop (Z.to_nat (w_idx w)) (w_result w) `sublist_of` drop (Z.to_nat i) a -> drop (Z.to_nat (w_idx w)) (w_result w) `sublist_of` drop (Z.to_nat j) b ->
    exists w', Some (emit_match gi mml (zlen a) (negb (arange_start w =? zlen a))
            (Walk i j (w_idx w) (w_result w) (arange_start w) (arange_end w) (brange_start w) (brange_end w) (w_ranges w))) = Some w' /\ walk_ok w' /\ w_i w' + w_j w' = w_i w + w_j w - 1) as Hgo.
  { intros i j Hbi Hbj Hij Hlcs Hda Hdb. set (w1 := Walk i j _ _ _ _ _ _ _). set (er := negb (arange_start w =? zlen a)).
    destruct (emit_fields er w1) as (F1 & F2 & F3 & F4). eexists. split; [reflexivity|]. split; [|by rewrite F1, F2].
    split; rewrite ?F1, ?F2, ?F3, ?F4; simpl; try done.
    (* the range ends before the move *)
    destruct (emit_ok w er cur) as (cur' & Hc' & Hf' & Hs'); [|done|done|done|].
    { subst er. intros Her. destruct Hc as [[E _]|(_ & _ & Hc)]; [by rewrite E, Z.eqb_refl in Her|]. exact Hc. }
    subst er w1. unfold emit_match in *. destruct (negb (arange_start w =? zlen a)) eqn:Ee; simpl in *.
    - exists cur'. split; [|done]. destruct Hc' as [Hc'|(_ & _ & E1 & _ & (_ & Hm0 & Hm & _) & _)]; [by left|]. simpl in *. lia.
    - exists cur. destruct Hc as [[E ->]|(_ & _ & E1 & E2 & (_ & Hm1 & Hm2 & _) & _)]; [split; [by left|done]|]. rewrite E1 in Ee. apply negb_false_iff, Z.eqb_eq in Ee. lia. }
  destruct (Z.gtb_spec n1 n2).
  - apply Hgo; [lia|lia|lia|by replace (w_idx w) with n1 by lia| |done]. rewrite (drop_down a (w_i w) x) by done. by apply sublist_cons.
  - apply Hgo; [lia|lia|lia|by replace (w_idx w) with n2 by lia|done|]. rewrite (drop_down b (w_j w) y) by done. by apply sublist_cons.
Qed.

Lemma walk_loop_ok : forall fuel w, walk_ok w -> w_i w + w_j w <= Z.of_nat fuel ->
  exists w', lcs_walk fuel a b (zlen a) (zlen b) lcs gi mml w = Some w' /\ walk_ok w' /\ (w_i w' = 0 \/ w_j w' = 0).
Proof.
  induction fuel as [|fuel IH]; intros w Hw Hf; pose proof Hw as [Hi Hj _ _ _ _ _]; cbn [lcs_walk].
  { replace (w_i w) with 0 by lia. simpl. exists w. split_and!; [done..|lia]. }
  destruct (Z.gtb_spec (w_i w) 0) as [Hi0|Hi0]; simpl; [|exists w; split_and!; [done..|lia]].
  destruct (Z.gtb_spec (w_j w) 0) as [Hj0|Hj0]; [|exists w; split_and!; [done..|lia]].
  destruct (byte_at a (w_i w)) as [x Hx]; [lia|]. destruct (byte_at b (w_j w)) as [y Hy]; [lia|].
  assert (exists w', lcs_step a b (zlen a) (zlen b) lcs gi mml w = Some w' /\ walk_ok w' /\ w_i w' + w_j w' < w_i w + w_j w) as (w' & -> & Hw' & Hlt).
  { destruct (decide (x = y)) as [->|Hne].
    - destruct (match_step w y Hw) as (w' & HE & Hw' & E1 & E2); [lia|lia|done|done|]. exists w'. split_and!; [done..|lia].
    - destruct (other_step w x y Hw) as (w' & HE & Hw' & E); [lia|lia|done..|]. exists w'. split_and!; [done..|lia]. }
  cbn [mbind option_bind]. apply IH; [done|lia].
Qed.
End Walk.

Section Run.
Context `{!Alloc}.
Variables a b : bytes.

Lemma lcs_table_ok : (zlen a + 1) * (zlen b + 1) < 2 ^ 32 -> exists lcs, lcs_table a b = Some lcs /\ filled a b lcs (lin b (zlen a + 1) 0).
Proof.
  intros Hs. pose proof (zlen_nonneg a). pose proof (zlen_nonneg b). unfold lcs_table, lcs_alloc. destruct (lens a b Hs) as (-> & -> & -> & ->).
  rewrite (uN_small 32 ((zlen a + 1) * (zlen b + 1))) by nia.
  destruct (rows_ok a b Hs (Z.to_nat (zlen a + 1)) 0 ((fun i => u32 (junk (Z.of_nat i))) <$> seq 0 (Z.to_nat ((zlen a + 1) * (zlen b + 1)))))
    as (lcs & HE & Hf); [lia|lia| |].
  - split; [unfold zlen; rewrite length_fmap, length_seq; unfold zlen in *; lia|]. intros i j Hi Hj Hk. unfold lin in Hk. nia.
  - rewrite Z.sub_0_r in HE. eauto.
Qed.

(** The bytes of both strings in a range of indices, ends included *)
Definition same_range (r : Z * Z * Z * Z) : Prop := match_ok a b r.

(** C30. STRALGO LCS: when the table fits in 32 bits, the command computes within its bounds the length of the longest
    common subsequences of the two strings, and one of them; the ranges it reports are equal parts of the strings, which make up that subsequence from
    its end to its start when no minimum length is asked for. *)
Theorem lcs_correct gi gl mml : (zlen a + 1) * (zlen b + 1) < 2 ^ 32 -> bytes_ok a ->
  exists len result ranges, lcs_run a b gi gl mml = Some (len, result, ranges) /\ is_lcs_len a b len /\ Forall same_range ranges /\
    (gi = true \/ gl = false -> common a b result /\ zlen result = len) /\
    (gi = true -> mml = 0 -> result = concat (reverse (slice_a a <$> ranges))).
Proof.
  intros Hs Ha. destruct (lcs_table_ok Hs) as (lcs & HE & Hf). unfold lcs_run. destruct (lens a b Hs) as (-> & -> & _ & _). rewrite HE. cbn [mbind option_bind].
  pose proof (zlen_nonneg a). pose proof (zlen_nonneg b). destruct (cell a b lcs Hf (zlen a) (zlen b)) as (len & -> & Hl); [lia..|]. cbn [mbind option_bind].
  assert (forall l : bytes, prefix l (zlen l) = l) as Hp by (intros l; unfold prefix, zlen; rewrite Nat2Z.id; apply take_ge; lia). pose proof Hl as Hl0. rewrite !Hp in Hl0.
  pose proof (lcs_bounds _ _ _ Hl0) as Hb. destruct (gi || negb gl) eqn:Eg.
  2: { exists len, [], []. apply orb_false_iff in Eg as [-> Eg]. split_and!; try done. intros [?| ->]; done. }
  set (w0 := Walk (zlen a) (zlen b) len (realloc [] len) (zlen a) 0 0 0 []).
  destruct (walk_loop_ok a b Hs Ha lcs len gi mml Hf (Z.to_nat (zlen a + zlen b)) w0) as (w & -> & [_ _ Kn [Kl _] Ka Kb (cur & Kc & Kf & Ks)] & Hend).
  { split; simpl; try lia; [done|rewrite fresh_len; lia| | |].
    1,2: rewrite drop_ge by (pose proof (fresh_len len ltac:(lia)); unfold zlen in *; lia); apply sublist_nil_l.
    exists []. split; [by left|]. split; [done|]. intros _ _. rewrite drop_ge; [done|]. pose proof (fresh_len len ltac:(lia)). unfold zlen in *. lia. }
  { simpl. lia. }
  cbn [mbind option_bind].
  assert (w_idx w = 0) as Hz.
  { eapply lcs_unique; [exact Kn|]. apply lcs_nil. unfold prefix. by destruct Hend as [-> | ->]; [left|right]. }
  rewrite Hz in *. change (drop (Z.to_nat 0) (w_result w)) with (w_result w) in *. exists len, (w_result w), (w_ranges w). split_and!; try done.
  - intros _. split; [|done]. split; [etrans; [exact Ka|]|etrans; [exact Kb|]]; apply sublist_drop.
  - intros Hg Hm. rewrite (Ks Hg Hm). destruct Kc as [[_ ->]|(Hi0 & Hj0 & _)]; [done|lia].
Qed.

(** ** A table whose size overflows *)

Lemma set_length lcs bl i j v lcs' : lcs_set lcs bl i j v = Some lcs' -> zlen lcs' = zlen lcs.
Proof. unfold lcs_set. destruct (decide _); [|done]. intros [= <-]. unfold zlen. by rewrite length_insert. Qed.
Lemma cell_length bl lcs i j lcs' : lcs_cell a b bl lcs i j = Some lcs' -> zlen lcs' = zlen lcs.
Proof.
  unfold lcs_cell. destruct (_ || _); [apply set_length|]. destruct (a !! _) as [x|]; [|done]. destruct (b !! _) as [y|]; [|done]. cbn [mbind option_bind].
  destruct (x =? y); [destruct (lcs_get _ _ _ _); [|done]; apply set_length|]. destruct (lcs_get lcs bl (i - 1) j) as [n1|]; [|done]. cbn [mbind option_bind].
  destruct (lcs_get lcs bl i (j - 1)); [|done]. apply set_length.
Qed.
(** The cell whose index is the size of the array *)
Lemma cell_outside bl lcs i j : lcs_index bl i j = length lcs -> lcs_cell a b bl lcs i j = None.
Proof.
  intros Hi. assert (forall v, lcs_set lcs bl i j v = None) as Hs by (intros v; unfold lcs_set; rewrite Hi, decide_False; [done|lia]).
  unfold lcs_cell. destruct (_ || _); [apply Hs|]. destruct (a !! _) as [x|]; [|done]. destruct (b !! _) as [y|]; [|done]. cbn [mbind option_bind].
  destruct (x =? y); [destruct (lcs_get _ _ _ _); [apply Hs|done]|]. destruct (lcs_get lcs bl (i - 1) j) as [n1|]; [|done]. cbn [mbind option_bind].
  destruct (lcs_get lcs bl i (j - 1)); [apply Hs|done].
Qed.
Lemma index_mod i j : 0 <= zlen b + 1 < 2 ^ 32 -> lcs_index (zlen b) i j = Z.to_nat (u32 (lin b i j)).
Proof.
  intros Hb. unfold lcs_index, lin. rewrite (uN_small 32 (zlen b + 1)) by lia. unfold uN. rewrite Zplus_mod_idemp_r. f_equal. f_equal. lia.
Qed.

Hypothesis small_b : zlen b + 1 < 2 ^ 32.
Lemma cols_outside i T : 0 <= T < 2 ^ 32 -> forall k j lcs, Z.of_nat k = zlen b + 1 - j -> zlen lcs = T -> lin b i j <= T < lin b (i + 1) 0 ->
  lcs_cols a b (zlen b) lcs i (seqZ j (zlen b + 1 - j)) = None.
Proof.
  intros HT. induction k as [|k IH]; intros j lcs Hk Hl Hr; [unfold lin in Hr; nia|]. pose proof (zlen_nonneg b). rewrite seqZ_cons by lia. cbn [lcs_cols].
  destruct (decide (lin b i j = T)) as [He|Hne].
  - rewrite cell_outside; [done|]. rewrite index_mod, He, uN_small by lia. unfold zlen in Hl. lia.
  - destruct (lcs_cell a b (zlen b) lcs i j) as [lcs'|] eqn:Ec; [|done]. apply cell_length in Ec. cbn [mbind option_bind].
    replace (Z.pred (zlen b + 1 - j)) with (zlen b + 1 - Z.succ j) by lia. apply IH; [lia|lia|]. unfold lin in *. lia.
Qed.
Lemma cols_length i js : forall lcs lcs', lcs_cols a b (zlen b) lcs i js = Some lcs' -> zlen lcs' = zlen lcs.
Proof.
  induction js as [|j js IH]; intros lcs lcs'; simpl; [by intros [= ->]|]. destruct (lcs_cell a b (zlen b) lcs i j) as [l|] eqn:Ec; [|done]. cbn [mbind option_bind].
  intros Hc. apply IH in Hc. apply cell_length in Ec. lia.
Qed.
Lemma rows_outside T : 0 <= T < 2 ^ 32 -> forall k i lcs, Z.of_nat k = zlen a + 1 - i -> zlen lcs = T -> lin b i 0 <= T < lin b (zlen a + 1) 0 ->
  lcs_rows a b (zlen b) lcs (seqZ i (zlen a + 1 - i)) = None.
Proof.
  intros HT. pose proof (zlen_nonneg b). induction k as [|k IH]; intros i lcs Hk Hl Hr; [unfold lin in Hr; nia|]. rewrite seqZ_cons by lia. cbn [lcs_rows].
  destruct (decide (T < lin b (i + 1) 0)) as [Hlt|Hge].
  - pose proof (cols_outside i T HT (Z.to_nat (zlen b + 1)) 0 lcs) as Hc. rewrite Z.sub_0_r in Hc. by rewrite Hc by (done || lia).
  - destruct (lcs_cols a b (zlen b) lcs i (seqZ 0 (zlen b + 1))) as [lcs'|] eqn:Ec; [|done]. apply cols_length in Ec. cbn [mbind option_bind].
    replace (Z.pred (zlen a + 1 - i)) with (zlen a + 1 - Z.succ i) by lia. apply IH; [lia|lia|]. replace (Z.succ i) with (i + 1) by lia. lia.
Qed.

(** C40. When the product of the lengths plus one each is 2^32 or more the array has fewer cells than the loops write,
    and the command writes outside it. *)
Theorem lcs_overflow gi gl mml : zlen a + 1 < 2 ^ 32 -> 2 ^ 32 <= (zlen a + 1) * (zlen b + 1) -> lcs_run a b gi gl mml = None.
Proof.
  intros Ha Hp. pose proof (zlen_nonneg a). pose proof (zlen_nonneg b). unfold lcs_run, lcs_table, lcs_alloc. rewrite !uN_small by lia.
  set (T := u32 ((zlen a + 1) * (zlen b + 1))). pose proof (uN_bound 32 ((zlen a + 1) * (zlen b + 1)) ltac:(lia)) as HT. fold T in HT.
  pose proof (rows_outside T HT (Z.to_nat (zlen a + 1)) 0) as Hr. rewrite Z.sub_0_r in Hr. rewrite Hr; [done|lia| |unfold lin; nia].
  unfold zlen at 1. rewrite length_fmap, length_seq. rewrite (uN_small 32 (zlen a + 1)), (uN_small 32 (zlen b + 1)) by lia. fold T. lia.
Qed.
End Run.

Module Example_lcs.
#[local] Instance junk_bytes : Alloc := fun i => i * 7 + 165.
#[local] Instance length_type : dictType bytes :=
  {| hashFunction k := u64 (zlen k); keyCompare k1 k2 := bool_decide (k1 = k2) |}.

(** [ohmytext] and [mynewtext] *)
Definition text_a : bytes := [111; 104; 109; 121; 116; 101; 120; 116].
Definition text_b : bytes := [109; 121; 110; 101; 119; 116; 101; 120; 116].

Lemma lcs_correct_witness :
  lcs_run text_a text_b true false 0 = Some (6, [109; 121; 116; 101; 120; 116], [(4, 7, 5, 8); (2, 3, 0, 1)]) /\ is_lcs_len text_a text_b 6.
Proof.
  assert (lcs_run text_a text_b true false 0 = Some (6, [109; 121; 116; 101; 120; 116], [(4, 7, 5, 8); (2, 3, 0, 1)])) as HE by (vm_compute; reflexivity).
  destruct (lcs_correct text_a text_b true false 0) as (len & result & ranges & HR & Hl & _);
    [vm_compute; reflexivity|repeat constructor; lia|]. rewrite HE in HR. injection HR as <- _ _. split; [exact HE|exact Hl].
Defined.

(** Two strings of 65535 bytes *)
Lemma lcs_overflow_witness : lcs_run (replicate (Z.to_nat 65535) 0) (replicate (Z.to_nat 65535) 0) false true 0 = None.
Proof.
  apply (lcs_overflow (replicate (Z.to_nat 65535) 0) (replicate (Z.to_nat 65535) 0)); rewrite zlen_replicate; lia.
Defined.

Definition env : kenv :=
  KEnv false true false None 0 10 10 0 0 10 false 10 1 (fun _ => 0) false false false false false false false 512 536870912 true true.
Definition empty : keyspace svalue := Keyspace [RedisDb dictCreate dictCreate] 0 0 0 0 0 [].

(** [STRALGO LCS IDX MINMATCHLEN 4 WITHMATCHLEN STRINGS ohmytext mynewtext] *)
Example stralgo_idx :
  (let! s := stralgoCommand env 0 [[76; 67; 83]; str_IDX; str_MINMATCHLEN; [52]; str_WITHMATCHLEN; str_STRINGS; text_a; text_b] empty in Some (replies (events s))) =
  Some ([ReplyMapLen 2; ReplyBulk [109; 97; 116; 99; 104; 101; 115]; ReplyArrayLen 1; ReplyArrayLen 3; ReplyArrayLen 2; ReplyInt 4; ReplyInt 7;
         ReplyArrayLen 2; ReplyInt 5; ReplyInt 8; ReplyInt 4; ReplyBulk [108; 101; 110]; ReplyInt 6]).
Proof. vm_compute. reflexivity. Qed.
(** [STRALGO LCS KEYS x x] on missing keys *)
Example stralgo_keys :
  (let! s := stralgoCommand env 0 [[76; 67; 83]; str_KEYS; [120]; [120]] empty in Some (replies (events s))) = Some [ReplyBulk []].
Proof. vm_compute. reflexivity. Qed.
End Example_lcs.
