(* ===== verification/Repl.v ===== *)
(** * Replication, on the side of the server that is followed (replication.c)

    The backlog is a block used as a circular buffer; a replica is a client with its state and the
    bytes added to its output buffer since it asked to follow.  What the operating system answers
    (forks, writes to sockets, files) and the random identifiers are an argument of the handlers.
    An offset counts bytes of the stream and stays below 2^63.  [None] is a failed assertion or an
    access outside the backlog. *)

From Stdlib Require Import ZArith Lia String.
From stdpp Require Import base numbers option list.
From S2P Require Import Prelude Memory Util Glob Sds Server Keyspace StringCmd.

Local Open Scope Z_scope.
Local Open Scope redis_scope.

Definition SLAVE_STATE_WAIT_BGSAVE_START : Z := 6.
Definition SLAVE_STATE_WAIT_BGSAVE_END : Z := 7.
Definition SLAVE_STATE_SEND_BULK : Z := 8.
Definition SLAVE_STATE_ONLINE : Z := 9.
Definition SLAVE_CAPA_EOF : Z := Z.shiftl 1 0.
Definition SLAVE_CAPA_PSYNC2 : Z := Z.shiftl 1 1.
Definition CONFIG_REPL_BACKLOG_MIN_SIZE : Z := 1024 * 16.
Definition CONFIG_RUN_ID_SIZE : Z := 40.
Definition LONG_STR_SIZE : Z := 21.
Definition PROTO_SHARED_SELECT_CMDS : Z := 10.

Inductive child := RDB_CHILD_TYPE_DISK | RDB_CHILD_TYPE_SOCKET.
#[global] Instance child_eq_dec : EqDecision child.
Proof. solve_decision. Defined.

(** A client: [written] is what was written to its socket directly, [out] what was added to its
    output buffer.  One with CLIENT_REPLY_OFF, CLIENT_REPLY_SKIP or CLIENT_CLOSE_AFTER_REPLY is [muted]; to one that
    is to be closed (CLIENT_CLOSE_ASAP) bytes are still added. *)
Record slave := Slave {
  sid : nat;
  replstate : Z;
  psync_initial_offset : Z;
  slave_capa : Z;
  pre_psync : bool;
  close_asap : bool;
  muted : bool;
  written : bytes;
  out : bytes }.

Record repl := Repl {
  repl_backlog : option bytes;
  repl_backlog_size : Z;
  repl_backlog_histlen : Z;
  repl_backlog_idx : Z;
  repl_backlog_off : Z;
  master_repl_offset : Z;
  slaveseldb : Z;
  replid : bytes;
  replid2 : bytes;
  second_replid_offset : Z;
  has_masterhost : bool;
  slaves : list slave;
  rdb_child : option child }.

(** What a handler meets: the next random identifier, whether [connWrite] writes everything to a
    client, how many bytes of the output of a client were sent already, whether the link with the master is up, the settings, the other processes and the clocks *)
Record renv := REnv {
  random_id : bytes;
  connWrite_ok : nat -> bool;
  gone : nat -> nat;
  repl_connected : bool;
  has_master : bool;
  has_cached_master : bool;
  repl_diskless_sync : bool;
  other_child : bool;
  rdb_pipe_conns : bool;
  pipe_ok : bool;
  fork_ok : bool;
  rdb_file_ok : nat -> bool;
  connSetWriteHandler_ok : nat -> bool;
  backlog_idle : bool;
  sync_delay_over : bool }.

Implicit Types (e : renv) (st : repl) (c sl : slave).

(** ** Updates of the fields *)

Definition set_backlog (b : option bytes) (histlen idx off moff : Z) st : repl :=
  Repl b (repl_backlog_size st) histlen idx off moff (slaveseldb st) (replid st) (replid2 st) (second_replid_offset st)
       (has_masterhost st) (slaves st) (rdb_child st).
Definition set_size (n : Z) st : repl :=
  Repl (repl_backlog st) n (repl_backlog_histlen st) (repl_backlog_idx st) (repl_backlog_off st) (master_repl_offset st) (slaveseldb st)
       (replid st) (replid2 st) (second_replid_offset st) (has_masterhost st) (slaves st) (rdb_child st).
Definition set_seldb (n : Z) st : repl :=
  Repl (repl_backlog st) (repl_backlog_size st) (repl_backlog_histlen st) (repl_backlog_idx st) (repl_backlog_off st) (master_repl_offset st) n
       (replid st) (replid2 st) (second_replid_offset st) (has_masterhost st) (slaves st) (rdb_child st).
Definition set_ids (id id2 : bytes) (off2 : Z) st : repl :=
  Repl (repl_backlog st) (repl_backlog_size st) (repl_backlog_histlen st) (repl_backlog_idx st) (repl_backlog_off st) (master_repl_offset st) (slaveseldb st)
       id id2 off2 (has_masterhost st) (slaves st) (rdb_child st).
Definition set_masterhost (b : bool) st : repl :=
  Repl (repl_backlog st) (repl_backlog_size st) (repl_backlog_histlen st) (repl_backlog_idx st) (repl_backlog_off st) (master_repl_offset st) (slaveseldb st)
       (replid st) (replid2 st) (second_replid_offset st) b (slaves st) (rdb_child st).
Definition set_slaves (l : list slave) st : repl :=
  Repl (repl_backlog st) (repl_backlog_size st) (repl_backlog_histlen st) (repl_backlog_idx st) (repl_backlog_off st) (master_repl_offset st) (slaveseldb st)
       (replid st) (replid2 st) (second_replid_offset st) (has_masterhost st) l (rdb_child st).
Definition set_child (ch : option child) st : repl :=
  Repl (repl_backlog st) (repl_backlog_size st) (repl_backlog_histlen st) (repl_backlog_idx st) (repl_backlog_off st) (master_repl_offset st) (slaveseldb st)
       (replid st) (replid2 st) (second_replid_offset st) (has_masterhost st) (slaves st) ch.

Definition set_replstate (n : Z) c : slave :=
  Slave (sid c) n (psync_initial_offset c) (slave_capa c) (pre_psync c) (close_asap c) (muted c) (written c) (out c).
Definition set_initial (off : Z) c : slave :=
  Slave (sid c) (replstate c) off (slave_capa c) (pre_psync c) (close_asap c) (muted c) (written c) (out c).
Definition set_pre_psync c : slave :=
  Slave (sid c) (replstate c) (psync_initial_offset c) (slave_capa c) true (close_asap c) (muted c) (written c) (out c).
Definition set_out (b : bytes) c : slave :=
  Slave (sid c) (replstate c) (psync_initial_offset c) (slave_capa c) (pre_psync c) (close_asap c) (muted c) (written c) b.
Definition set_muted (m : bool) c : slave :=
  Slave (sid c) (replstate c) (psync_initial_offset c) (slave_capa c) (pre_psync c) (close_asap c) m (written c) (out c).
(** [addReply] and its variants, with the tests of [prepareClientToWrite] and [_addReplyToBuffer] *)
Definition addReplyProto (b : bytes) c : slave := if muted c then c else set_out (out c ++ b) c.
(** [connWrite]: the data, or the client to be closed *)
Definition connWrite e (b : bytes) c : bool * slave :=
  if connWrite_ok e (sid c) then
    (true, Slave (sid c) (replstate c) (psync_initial_offset c) (slave_capa c) (pre_psync c) (close_asap c) (muted c) (written c ++ b) (out c))
  else (false, Slave (sid c) (replstate c) (psync_initial_offset c) (slave_capa c) (pre_psync c) true (muted c) (written c) (out c)).

Section Repl.
Context `{Alloc}.

(** ** The backlog *)

Definition no_backlog st : bool := match repl_backlog st with None => true | _ => false end.

Definition createReplicationBacklog st : option repl :=
  if negb (no_backlog st) then None else
  Some (set_backlog (Some (realloc [] (repl_backlog_size st))) 0 0 (master_repl_offset st + 1) (master_repl_offset st) st).

Definition resizeReplicationBacklog (newsize : Z) st : repl :=
  let newsize := if newsize <? CONFIG_REPL_BACKLOG_MIN_SIZE then CONFIG_REPL_BACKLOG_MIN_SIZE else newsize in
  if repl_backlog_size st =? newsize then st else
  let st := set_size newsize st in
  if no_backlog st then st else
  set_backlog (Some (realloc [] newsize)) 0 0 (master_repl_offset st + 1) (master_repl_offset st) st.

Definition freeReplicationBacklog st : option repl :=
  match slaves st with
  | [] => Some (set_backlog None (repl_backlog_histlen st) (repl_backlog_idx st) (repl_backlog_off st) (master_repl_offset st) st)
  | _ => None
  end.

(** The loop that writes [p]: at most one turn for each byte *)
Fixpoint feed_loop (fuel : nat) (size : Z) (b : bytes) (idx histlen : Z) (p : bytes) : option (bytes * Z * Z) :=
  if zlen p =? 0 then Some (b, idx, histlen) else
  match fuel with
  | O => None
  | S fuel =>
      let thislen := size - idx in
      let thislen := if thislen >? zlen p then zlen p else thislen in
      let! b := store b idx (take (Z.to_nat thislen) p) in
      let idx := idx + thislen in
      let idx := if idx =? size then 0 else idx in
      feed_loop fuel size b idx (histlen + thislen) (drop (Z.to_nat thislen) p)
  end.

Definition feedReplicationBacklog (p : bytes) st : option repl :=
  let! b := repl_backlog st in
  let moff := master_repl_offset st + zlen p in
  let! (b, idx, histlen) := feed_loop (length p) (repl_backlog_size st) b (repl_backlog_idx st) (repl_backlog_histlen st) p in
  let histlen := if histlen >? repl_backlog_size st then repl_backlog_size st else histlen in
  Some (set_backlog (Some b) histlen idx (moff - histlen + 1) moff st).

(** [ll2string] into a buffer of [size] bytes: the bytes written *)
Definition ll_str (size n : Z) : option bytes :=
  let! (len, buf) := ll2string (realloc [] size) size n in
  Some (take (Z.to_nat len) buf).

Definition feedReplicationBacklogWithObject (o : svalue) st : option repl :=
  let! p := match o with
            | SInt _ n => ll_str LONG_STR_SIZE n
            | SEmb p | SRaw p => Some p
            | SOther _ => None
            end in
  feedReplicationBacklog p st.

(** ** The stream of commands *)

Definition CRLF : bytes := [13; 10].

(** [addReplyLongLongWithPrefix]; the shared headers hold the same bytes. *)
Definition addReplyLongLongWithPrefix (prefix n : Z) : option bytes :=
  let! s := ll_str 127 n in Some (prefix :: s ++ CRLF).
Definition addReplyArrayLen (n : Z) : option bytes := addReplyLongLongWithPrefix 42 n.
Definition addReplyBulk (o : svalue) : option bytes :=
  let! len := stringObjectLen o in
  let! h := addReplyLongLongWithPrefix 36 len in
  let! s := reply_string o in
  Some (h ++ s ++ CRLF).

(** ["*2\r\n$6\r\nSELECT\r\n$%d\r\n%s\r\n"], whether shared or not *)
Definition select_command (dictid : Z) : option bytes :=
  let! s := ll_str LONG_STR_SIZE dictid in
  let! n := ll_str LONG_STR_SIZE (zlen s) in
  Some ([42; 50; 13; 10; 36; 54; 13; 10; 83; 69; 76; 69; 67; 84; 13; 10; 36] ++ n ++ CRLF ++ s ++ CRLF).

(** The header in [aux] *)
Definition aux_header (prefix n : Z) : option bytes :=
  let! s := ll_str (LONG_STR_SIZE + 3 - 1) n in Some (prefix :: s ++ CRLF).

Fixpoint feed_args (argv : list svalue) st : option repl :=
  match argv with
  | [] => Some st
  | o :: argv =>
      let! objlen := stringObjectLen o in
      let! h := aux_header 36 objlen in
      let! st := feedReplicationBacklog h st in
      let! st := feedReplicationBacklogWithObject o st in
      let! st := feedReplicationBacklog CRLF st in
      feed_args argv st
  end.

(** The slaves but those that wait for a BGSAVE to start *)
Definition add_to_slaves (b : bytes) st : repl :=
  set_slaves ((fun sl => if replstate sl =? SLAVE_STATE_WAIT_BGSAVE_START then sl else addReplyProto b sl) <$> slaves st) st.

Fixpoint bulks (argv : list svalue) : option bytes :=
  match argv with [] => Some [] | o :: argv => let! b := addReplyBulk o in let! l := bulks argv in Some (b ++ l) end.

Definition replicationFeedSlaves (dictid : Z) (argv : list svalue) st : option repl :=
  if has_masterhost st then Some st else
  if no_backlog st && bool_decide (slaves st = []) then Some st else
  if negb (bool_decide (slaves st = [])) && no_backlog st then None else
  let! st := if slaveseldb st =? dictid then Some st else
             let! cmd := select_command dictid in
             let! st := if no_backlog st then Some st else feedReplicationBacklogWithObject (SRaw cmd) st in
             Some (add_to_slaves cmd st) in
  let st := set_seldb dictid st in
  let! st := if no_backlog st then Some st else
             let! h := aux_header 42 (zlen argv) in
             let! st := feedReplicationBacklog h st in
             feed_args argv st in
  let! h := addReplyArrayLen (zlen argv) in
  let! l := bulks argv in
  Some (add_to_slaves (h ++ l) st).

Definition replicationFeedSlavesFromMasterStream (buf : bytes) st : option repl :=
  let! st := if no_backlog st then Some st else feedReplicationBacklog buf st in
  Some (add_to_slaves buf st).

(** The loop that copies [len] bytes from the position [j] on *)
Fixpoint read_loop (fuel : nat) (size : Z) (b : bytes) (j len : Z) : option bytes :=
  if len =? 0 then Some [] else
  match fuel with
  | O => None
  | S fuel =>
      let thislen := if size - j <? len then size - j else len in
      let! x := load b j thislen in
      let! y := read_loop fuel size b 0 (len - thislen) in
      Some (x ++ y)
  end.

(** The bytes sent and their number; the buffer is read at most twice around, in two pieces. *)
Definition addReplyReplicationBacklog (offset : Z) st : option (bytes * Z) :=
  if repl_backlog_histlen st =? 0 then Some ([], 0) else
  let! b := repl_backlog st in
  let skip := offset - repl_backlog_off st in
  let j := Z.rem (repl_backlog_idx st + (repl_backlog_size st - repl_backlog_histlen st)) (repl_backlog_size st) in
  let j := Z.rem (j + skip) (repl_backlog_size st) in
  let len := repl_backlog_histlen st - skip in
  let! data := read_loop 2 (repl_backlog_size st) b j len in
  Some (data, len).

(** ** Identifiers *)

Definition changeReplicationId e st : repl := set_ids (random_id e) (replid2 st) (second_replid_offset st) st.
Definition clearReplicationId2 st : repl := set_ids (replid st) (replicate (Z.to_nat CONFIG_RUN_ID_SIZE) 48) (-1) st.
Definition shiftReplicationId e st : repl := changeReplicationId e (set_ids (replid st) (replid st) (master_repl_offset st + 1) st).

(** ** Synchronization *)

(** A literal as bytes *)
Definition lit (s : string) : bytes := (fun a => Z.of_N (Ascii.N_of_ascii a)) <$> list_ascii_of_string s.
Definition err_reply (msg : string) : bytes := lit "-ERR " ++ lit msg ++ CRLF.

Definition getPsyncInitialOffset st : Z := master_repl_offset st.

(** The server's state but [slaveseldb] is left alone; the result says whether the reply was written. *)
Definition replicationSetupSlaveForFullResync e (offset : Z) sl st : option (slave * repl) :=
  let sl := set_replstate SLAVE_STATE_WAIT_BGSAVE_END (set_initial offset sl) in
  let st := set_seldb (-1) st in
  if pre_psync sl then Some (sl, st) else
  let! n := ll_str LONG_STR_SIZE offset in
  let buf := lit "+FULLRESYNC " ++ replid st ++ [32] ++ n ++ CRLF in
  Some (snd (connWrite e buf sl), st).

(** Whether the bytes from an offset of a history on can be sent *)
Definition psync_refused (id : bytes) (psync_offset : Z) st : bool :=
  (negb (same_nocase id (replid st)) && (negb (same_nocase id (replid2 st)) || (psync_offset >? second_replid_offset st))) ||
  (no_backlog st || (psync_offset <? repl_backlog_off st) || (psync_offset >? repl_backlog_off st + repl_backlog_histlen st)).

(** [Some] is [C_OK]; on [C_ERR] the client is returned with what was added to its buffer. *)
Definition masterTryPartialResynchronization e c (id offset : bytes) st : option (slave + repl) :=
  match string2ll offset with
  | None => Some (inl (addReplyProto (err_reply "value is not an integer or out of range") c))
  | Some psync_offset =>
      if psync_refused id psync_offset st then Some (inl c) else
      let c := set_replstate SLAVE_STATE_ONLINE c in
      let buf := if negb (Z.land (slave_capa c) SLAVE_CAPA_PSYNC2 =? 0) then lit "+CONTINUE " ++ replid st ++ CRLF else lit "+CONTINUE" ++ CRLF in
      let '(ok, c) := connWrite e buf c in
      if negb ok then Some (inr (set_slaves (slaves st ++ [c]) st)) else
      let! (data, psync_len) := addReplyReplicationBacklog psync_offset st in
      Some (inr (set_slaves (slaves st ++ [addReplyProto data c]) st))
  end.

Definition hasActiveChildProcess e st : bool := negb (bool_decide (rdb_child st = None)) || other_child e.
(** Whether [rdbPopulateSaveInfo] returns the information *)
Definition rdbPopulateSaveInfo e st : bool := (negb (has_masterhost st) && negb (no_backlog st)) || has_master e || has_cached_master e.

Definition waits_start sl : bool := replstate sl =? SLAVE_STATE_WAIT_BGSAVE_START.
Definition waits_end sl : bool := replstate sl =? SLAVE_STATE_WAIT_BGSAVE_END.

(** The full resynchronization of every slave that waits for it *)
Fixpoint setup_waiting e (l : list slave) st : option (list slave * repl) :=
  match l with
  | [] => Some ([], st)
  | sl :: l =>
      let! (sl, st) := if waits_start sl then replicationSetupSlaveForFullResync e (getPsyncInitialOffset st) sl st else Some (sl, st) in
      let! (l, st) := setup_waiting e l st in
      Some (sl :: l, st)
  end.

(** [rdbSaveBackground] in the parent *)
Definition rdbSaveBackground e st : bool * repl :=
  if hasActiveChildProcess e st then (false, st) else
  if fork_ok e then (true, set_child (Some RDB_CHILD_TYPE_DISK) st) else (false, st).

Definition rdbSaveToSlavesSockets e st : option (bool * repl) :=
  if hasActiveChildProcess e st then Some (false, st) else
  if rdb_pipe_conns e then Some (false, st) else
  if negb (pipe_ok e) then Some (false, st) else
  let! (l, st) := setup_waiting e (slaves st) st in
  if fork_ok e then Some (true, set_child (Some RDB_CHILD_TYPE_SOCKET) (set_slaves l st)) else
  Some (false, set_slaves ((fun sl => if waits_end sl then set_replstate SLAVE_STATE_WAIT_BGSAVE_START sl else sl) <$> l) st).

(** The slaves that waited are dropped from the list when the save fails; what they are told is not shown. *)
Definition startBgsaveForReplication e (mincapa : Z) st : option (bool * repl) :=
  let socket_target := repl_diskless_sync e && negb (Z.land mincapa SLAVE_CAPA_EOF =? 0) in
  let! (ok, st) := if rdbPopulateSaveInfo e st then
                     if socket_target then rdbSaveToSlavesSockets e st else Some (rdbSaveBackground e st)
                   else Some (false, st) in
  if negb ok then Some (false, set_slaves (filter (fun sl => waits_start sl = false) (slaves st)) st) else
  if socket_target then Some (true, st) else
  let! (l, st) := setup_waiting e (slaves st) st in
  Some (true, set_slaves l st).

(** The client added at the end of the list attaches to the save a slave started, with the bytes that are still in the
    buffer of that slave. *)
Definition attach e c sl st : option repl :=
  let c := set_out (drop (gone e (sid sl)) (out sl)) c in
  let! (c, st) := replicationSetupSlaveForFullResync e (psync_initial_offset sl) c st in
  Some (set_slaves (removelast (slaves st) ++ [c]) st).

Definition full_resync e c st : option repl :=
  let c := set_replstate SLAVE_STATE_WAIT_BGSAVE_START c in
  let st := set_slaves (slaves st ++ [c]) st in
  let! st := if (zlen (slaves st) =? 1) && no_backlog st then createReplicationBacklog (clearReplicationId2 (changeReplicationId e st))
             else Some st in
  match rdb_child st with
  | Some RDB_CHILD_TYPE_DISK =>
      match list_find (fun sl => waits_end sl = true) (slaves st) with
      | Some (_, sl) => if Z.land (slave_capa c) (slave_capa sl) =? slave_capa sl then attach e c sl st else Some st
      | None => Some st
      end
  | Some RDB_CHILD_TYPE_SOCKET => Some st
  | None =>
      if repl_diskless_sync e && negb (Z.land (slave_capa c) SLAVE_CAPA_EOF =? 0) then Some st else
      if hasActiveChildProcess e st then Some st else
      let! (_, st) := startBgsaveForReplication e (slave_capa c) st in Some st
  end.

(** SYNC, or PSYNC with an identifier and an offset; the bytes are what a client that is refused is told. *)
Definition syncCommand e c (psync : option (bytes * bytes)) st : option (bytes * repl) :=
  if bool_decide (sid c ∈ sid <$> slaves st) then Some ([], st) else
  if has_masterhost st && negb (repl_connected e) then Some (lit "-NOMASTERLINK Can't SYNC while not connected with my master" ++ CRLF, st) else
  if negb (bool_decide (out c = [])) then Some (err_reply "SYNC and PSYNC are invalid with pending output", st) else
  match psync with
  | Some (id, offset) =>
      let! r := masterTryPartialResynchronization e c id offset st in
      match r with
      | inr st => Some ([], st)
      | inl c => let! st := full_resync e c st in Some ([], st)
      end
  | None => let! st := full_resync e (set_pre_psync c) st in Some ([], st)
  end.

(** ** The end of a save, the loss of a client, and the changes of role *)

(** [freeClient] of a slave *)
Definition free_slave (n : nat) st : repl := set_slaves (filter (fun sl => sid sl <> n) (slaves st)) st.
Definition disconnectSlaves st : repl := set_slaves [] st.

(** A slave executes a command as any client may: its reply goes to the same buffer, and CLIENT REPLY or QUIT changes
    what is added later. *)
Definition own_command (n : nat) (reply : bytes) (m : bool) st : repl :=
  set_slaves ((fun sl => if bool_decide (sid sl = n) then set_muted m (addReplyProto reply sl) else sl) <$> slaves st) st.

(** The slave after a save, or [None] when it is freed *)
Definition after_bgsave e (ok : bool) (type : child) sl : option slave :=
  if negb (waits_end sl) then Some sl else
  if negb ok then None else
  match type with
  | RDB_CHILD_TYPE_SOCKET => Some (set_replstate SLAVE_STATE_ONLINE sl)
  | RDB_CHILD_TYPE_DISK => if rdb_file_ok e (sid sl) && connSetWriteHandler_ok e (sid sl) then Some (set_replstate SLAVE_STATE_SEND_BULK sl) else None
  end.
Definition mincapa_of (l : list slave) : Z :=
  foldl (fun m sl => if waits_start sl then if m =? -1 then slave_capa sl else Z.land m (slave_capa sl) else m) (-1) l.

(** The child has ended: [server.rdb_child_pid] is reset before the call. *)
Definition updateSlavesWaitingBgsave e (ok : bool) (type : child) st : option repl :=
  let l := slaves st in
  let st := set_slaves (omap (after_bgsave e ok type) l) st in
  if existsb waits_start l then let! (_, st) := startBgsaveForReplication e (mincapa_of l) st in Some st else Some st.

(** The slave is freed when its handler cannot be installed. *)
Definition putSlaveOnline e (n : nat) st : repl :=
  if negb (connSetWriteHandler_ok e n) then free_slave n st else
  set_slaves ((fun sl => if bool_decide (sid sl = n) then set_replstate SLAVE_STATE_ONLINE sl else sl) <$> slaves st) st.

(** The part of [replicationCron] that frees the backlog of a master with no slaves *)
Definition cron_free_backlog e st : option repl :=
  if bool_decide (slaves st = []) && negb (no_backlog st) && negb (has_masterhost st) && backlog_idle e then
    freeReplicationBacklog (clearReplicationId2 (changeReplicationId e st))
  else Some st.

(** The part of [replicationCron] that starts a save for the slaves that wait *)
Definition cron_start_bgsave e st : option repl :=
  if hasActiveChildProcess e st then Some st else
  if existsb waits_start (slaves st) && (negb (repl_diskless_sync e) || sync_delay_over e) then
    let! (_, st) := startBgsaveForReplication e (mincapa_of (slaves st)) st in Some st
  else Some st.

Definition replicationUnsetMaster e st : repl :=
  if negb (has_masterhost st) then st else
  set_seldb (-1) (disconnectSlaves (shiftReplicationId e (set_masterhost false st))).
Definition replicationSetMaster st : repl := disconnectSlaves (set_masterhost true st).

(** The replica of another server: what [syncWithMaster] does when the master does not accept a
    partial resynchronization, the end of a full one with the identifier and offset of the master, and an
    accepted partial one whose reply may give a new identifier *)
Definition psync_failed st : option repl := freeReplicationBacklog (disconnectSlaves st).
Definition full_sync_done (id : bytes) (reploff : Z) st : option repl :=
  let st := clearReplicationId2 (set_ids id (replid2 st) (second_replid_offset st) st) in
  let st := set_backlog (repl_backlog st) (repl_backlog_histlen st) (repl_backlog_idx st) (repl_backlog_off st) reploff st in
  if no_backlog st then createReplicationBacklog st else Some st.
Definition psync_continued (old new : bytes) st : option repl :=
  let st := if (zlen new =? CONFIG_RUN_ID_SIZE) && negb (bool_decide (new = old)) then
              disconnectSlaves (set_ids new old (master_repl_offset st + 1) st)
            else st in
  if no_backlog st then createReplicationBacklog st else Some st.
End Repl.
