(* ===== verification/ReplFacts.v ===== *)
(** * The backlog as the end of the replication stream *)

From Stdlib Require Import ZArith Lia String.
From stdpp Require Import base numbers option list.
From S2P Require Import Prelude Memory Util UtilFacts Glob Sds Server Keyspace StringCmd StringSpec Repl.

Local Open Scope Z_scope.
Local Open Scope redis_scope.

(** ** The circular buffer *)

(** The place of a byte [t] bytes before the last one *)
Definition place (size idx t : Z) : Z := if idx - 1 - t <? 0 then idx - 1 - t + size else idx - 1 - t.

(** The block holds the last bytes of the stream, the next one goes to [idx]; [hist] may be larger
    than the block while data is added. *)
Definition circ (b : bytes) (size idx hist : Z) (stream : bytes) : Prop :=
  zlen b = size /\ 0 <= idx < size /\ 0 <= hist <= zlen stream /\
  forall t, 0 <= t < Z.min hist size -> b !! Z.to_nat (place size idx t) = stream !! Z.to_nat (zlen stream - 1 - t).

Lemma store_lookup (b : bytes) p (c : bytes) : 0 <= p -> p + zlen c <= zlen b ->
  exists b', store b p c = Some b' /\ zlen b' = zlen b /\
    forall i, 0 <= i < zlen b -> b' !! Z.to_nat i = if (p <=? i) && (i <? p + zlen c) then c !! Z.to_nat (i - p) else b !! Z.to_nat i.
Proof.
  intros Hp Hl. unfold store. rewrite decide_True by lia. eexists. split; [done|]. pose proof (zlen_nonneg c). split.
  { rewrite !zlen_app, zlen_take, zlen_drop. lia. }
  intros i Hi. unfold zlen in *. destruct (Z.leb_spec p i) as [H1|H1]; simpl.
  - rewrite lookup_app_r by (rewrite length_take; lia). rewrite length_take, Nat.min_l by lia. destruct (Z.ltb_spec i (p + Z.of_nat (length c))).
    + rewrite lookup_app_l by lia. f_equal. lia.
    + rewrite lookup_app_r, lookup_drop by lia. f_equal. lia.
  - rewrite lookup_app_l by (rewrite length_take; lia). rewrite lookup_take_lt by lia. done.
Qed.

Lemma circ_write b size idx hist stream c : circ b size idx hist stream -> 0 < zlen c <= size - idx ->
  exists b', store b idx c = Some b' /\ circ b' size (if idx + zlen c =? size then 0 else idx + zlen c) (hist + zlen c) (stream ++ c).
Proof.
  intros (Hb & Hi & Hh & Hat) Hc. destruct (store_lookup b idx c) as (b' & Hs & Hl & Hlk); [lia..|]. exists b'. split; [done|].
  set (idx' := if idx + zlen c =? size then 0 else idx + zlen c). assert (0 <= idx' < size) as Hi' by (subst idx'; destruct (Z.eqb_spec (idx + zlen c) size); lia).
  split_and!; [lia..|rewrite zlen_app; lia|]. rewrite zlen_app. intros t Ht. destruct (decide (t < zlen c)) as [Hlt|Hge].
  - assert (place size idx' t = idx + zlen c - 1 - t) as ->.
    { unfold place. subst idx'. destruct (Z.eqb_spec (idx + zlen c) size), (Z.ltb_spec (0 - 1 - t) 0), (Z.ltb_spec (idx + zlen c - 1 - t) 0); lia. }
    rewrite Hlk by lia. rewrite (proj2 (Z.leb_le _ _)), (proj2 (Z.ltb_lt _ _)) by lia. simpl.
    rewrite lookup_app_r by (unfold zlen in *; lia). f_equal. unfold zlen in *. lia.
  - assert (place size idx' t = place size idx (t - zlen c)) as ->.
    { unfold place. subst idx'. destruct (Z.eqb_spec (idx + zlen c) size), (Z.ltb_spec (0 - 1 - t) 0), (Z.ltb_spec (idx + zlen c - 1 - t) 0), (Z.ltb_spec (idx - 1 - (t - zlen c)) 0); lia. }
    assert (0 <= place size idx (t - zlen c) < size /\ ~ (idx <= place size idx (t - zlen c) < idx + zlen c)) as [Hr Hn].
    { unfold place. destruct (Z.ltb_spec (idx - 1 - (t - zlen c)) 0); lia. }
    rewrite Hlk by lia. destruct (Z.leb_spec idx (place size idx (t - zlen c))), (Z.ltb_spec (place size idx (t - zlen c)) (idx + zlen c)); simpl; try lia;
      rewrite Hat by lia; (rewrite lookup_app_l by (unfold zlen in *; lia)); f_equal; lia.
Qed.

Lemma feed_loop_ok size : forall fuel b idx hist stream p, circ b size idx hist stream -> (length p <= fuel)%nat ->
  exists b' idx', feed_loop fuel size b idx hist p = Some (b', idx', hist + zlen p) /\ circ b' size idx' (hist + zlen p) (stream ++ p).
Proof.
  induction fuel as [|fuel IH]; intros b idx hist stream p Hc Hl.
  { destruct p; [|simpl in Hl; lia]. simpl. rewrite zlen_nil, Z.add_0_r, app_nil_r. eauto. }
  cbn [feed_loop]. destruct (Z.eqb_spec (zlen p) 0) as [Hz|Hz].
  { apply zlen_0_inv in Hz as ->. rewrite zlen_nil, Z.add_0_r, app_nil_r. eauto. }
  pose proof (zlen_nonneg p). destruct Hc as (Hb & Hi & Hc). set (n := if size - idx >? zlen p then zlen p else size - idx).
  assert (0 < n <= size - idx /\ n <= zlen p) as [Hn Hnp] by (subst n; destruct (Z.gtb_spec (size - idx) (zlen p)); lia).
  assert (zlen (take (Z.to_nat n) p) = n) as Ht by (rewrite zlen_take; lia).
  destruct (circ_write b size idx hist stream (take (Z.to_nat n) p)) as (b' & Hs & Hc'); [done|lia|]. rewrite Hs. mstep. rewrite Ht in Hc'.
  destruct (IH b' _ _ _ (drop (Z.to_nat n) p) Hc') as (b2 & idx2 & HE & Hc2); [rewrite length_drop; lia|].
  rewrite zlen_drop in HE, Hc2. rewrite <- app_assoc, take_drop in Hc2.
  replace (hist + n + Z.max 0 (zlen p - Z.of_nat (Z.to_nat n))) with (hist + zlen p) in * by lia. eauto.
Qed.

(** ** Reading *)

Lemma rem_wrap a size : 0 <= a < 2 * size -> Z.rem a size = if a <? size then a else a - size.
Proof.
  intros Ha. destruct (Z.ltb_spec a size); [by apply Z.rem_small; lia|]. replace a with (a - size + 1 * size) at 1 by lia.
  rewrite Z.rem_add by (try nia; lia). apply Z.rem_small. lia.
Qed.

Definition wrap (size i : Z) : Z := if i <? size then i else i - size.

Lemma load_lookup (b : bytes) p n : 0 <= p -> 0 <= n -> p + n <= zlen b ->
  exists x, load b p n = Some x /\ zlen x = n /\ forall i, 0 <= i < n -> x !! Z.to_nat i = b !! Z.to_nat (p + i).
Proof.
  intros Hp Hn Hl. unfold load. rewrite decide_True by lia. eexists. split; [done|]. split; [rewrite zlen_take, zlen_drop; lia|].
  intros i Hi. rewrite lookup_take_lt, lookup_drop by lia. f_equal. lia.
Qed.

Lemma read_loop_ok b size j len : zlen b = size -> 0 <= j < size -> 0 <= len <= size ->
  exists x, read_loop 2 size b j len = Some x /\ zlen x = len /\ forall i, 0 <= i < len -> x !! Z.to_nat i = b !! Z.to_nat (wrap size (j + i)).
Proof.
  intros Hb Hj Hl. cbn [read_loop]. destruct (Z.eqb_spec len 0) as [->|Hz]; [exists []; split_and!; try done; intros; lia|].
  set (n := if size - j <? len then size - j else len). assert (0 < n <= len /\ n <= size - j /\ (n = len \/ j + n = size)) as (H1 & H2 & H3).
  { subst n. destruct (Z.ltb_spec (size - j) len); lia. }
  destruct (load_lookup b j n) as (x & -> & Hx & Hlx); [lia..|]. mstep. destruct (Z.eqb_spec (len - n) 0) as [Hz'|Hz'].
  - mstep. exists x. rewrite app_nil_r. split_and!; [done|lia|]. intros i Hi. rewrite Hlx by lia. unfold wrap.
    destruct (Z.ltb_spec (j + i) size); [done|lia].
  - assert ((if size - 0 <? len - n then size - 0 else len - n) = len - n) as -> by (destruct (Z.ltb_spec (size - 0) (len - n)); lia).
    destruct (load_lookup b 0 (len - n)) as (y & -> & Hy & Hly); [lia..|]. mstep. rewrite Z.sub_diag. simpl. mstep. rewrite app_nil_r.
    exists (x ++ y). split_and!; [done|rewrite zlen_app; lia|]. intros i Hi. unfold wrap. destruct (Z.ltb_spec (j + i) size).
    + rewrite lookup_app_l by (unfold zlen in *; lia). rewrite Hlx by lia. done.
    + rewrite lookup_app_r by (unfold zlen in *; lia). replace (Z.to_nat i - length x)%nat with (Z.to_nat (i - n)) by (unfold zlen in *; lia).
      rewrite Hly by lia. f_equal. lia.
Qed.

(** The last bytes of the stream *)
Lemma read_end b size idx hist stream skip :
  circ b size idx hist stream -> hist <= size -> 0 <= skip <= hist ->
  exists x, read_loop 2 size b (Z.rem (Z.rem (idx + (size - hist)) size + skip) size) (hist - skip) = Some x /\
    x = drop (Z.to_nat (zlen stream - hist + skip)) stream.
Proof.
  intros (Hb & Hi & Hh & Hat) Hs Hk. rewrite (rem_wrap (idx + (size - hist))) by lia.
  set (j0 := if idx + (size - hist) <? size then idx + (size - hist) else idx + (size - hist) - size).
  assert (0 <= j0 < size) as Hj0 by (subst j0; destruct (Z.ltb_spec (idx + (size - hist)) size); lia). rewrite (rem_wrap (j0 + skip)) by lia.
  set (j := if j0 + skip <? size then j0 + skip else j0 + skip - size).
  assert (0 <= j < size) as Hj by (subst j; destruct (Z.ltb_spec (j0 + skip) size); lia).
  destruct (read_loop_ok b size j (hist - skip)) as (x & HE & Hx & Hl); [lia..|]. exists x. split; [done|].
  apply list_eq. intros i. rewrite lookup_drop. destruct (decide (Z.of_nat i < hist - skip)) as [Hlt|Hge].
  - specialize (Hl (Z.of_nat i)). rewrite Nat2Z.id in Hl. rewrite Hl by lia.
    assert (wrap size (j + Z.of_nat i) = place size idx (hist - 1 - skip - Z.of_nat i)) as ->.
    { unfold wrap, place. subst j j0. repeat match goal with |- context [?a <? ?b] => destruct (Z.ltb_spec a b) end; lia. }
    rewrite Hat by lia. f_equal. lia.
  - rewrite !lookup_ge_None_2; [done|unfold zlen in *; lia..].
Qed.

Section Facts.
Context `{!Alloc}.
Implicit Types (st : repl) (stream : bytes).

(** ** The backlog of a server *)

(** The stream has as many bytes as the offset says, and the backlog, if any, holds the last ones. *)
Definition backlog_ok st stream : Prop :=
  0 < repl_backlog_size st /\ zlen stream = master_repl_offset st /\
  match repl_backlog st with
  | None => True
  | Some b => circ b (repl_backlog_size st) (repl_backlog_idx st) (repl_backlog_histlen st) stream /\
              repl_backlog_histlen st <= repl_backlog_size st /\
              repl_backlog_off st = master_repl_offset st - repl_backlog_histlen st + 1
  end.

Lemma empty_circ size stream : 0 < size -> circ (realloc [] size) size 0 0 stream.
Proof. intros Hs. pose proof (zlen_nonneg stream). split_and!; try lia. apply fresh_len. lia. Qed.

Lemma backlog_created st stream : backlog_ok st stream -> no_backlog st = true ->
  exists b, createReplicationBacklog st = Some (set_backlog (Some b) 0 0 (master_repl_offset st + 1) (master_repl_offset st) st) /\
    backlog_ok (set_backlog (Some b) 0 0 (master_repl_offset st + 1) (master_repl_offset st) st) stream.
Proof.
  intros (Hs & Hl & _) Hn. unfold createReplicationBacklog. rewrite Hn. simpl. eexists. split; [done|].
  split; [done|]. split; [done|]. simpl. split_and!; [by apply empty_circ|lia..].
Qed.

Lemma resize_ok n st stream : backlog_ok st stream ->
  backlog_ok (resizeReplicationBacklog n st) stream /\ no_backlog (resizeReplicationBacklog n st) = no_backlog st.
Proof.
  intros (Hs & Hl & Hb). unfold resizeReplicationBacklog. set (n' := if n <? CONFIG_REPL_BACKLOG_MIN_SIZE then CONFIG_REPL_BACKLOG_MIN_SIZE else n).
  assert (0 < n') as Hn by (subst n'; unfold CONFIG_REPL_BACKLOG_MIN_SIZE; destruct (Z.ltb_spec n (1024 * 16)); lia).
  destruct (repl_backlog_size st =? n'); [done|]. unfold no_backlog, backlog_ok. simpl. destruct (repl_backlog st) eqn:E; simpl; rewrite ?E; [|by split_and!].
  split_and!; try done; [by apply empty_circ|lia..].
Qed.

(** The backlog holds as many bytes more as were added, or all it can. *)
Definition grown st (n : Z) st' : Prop :=
  repl_backlog_size st' = repl_backlog_size st /\ repl_backlog_histlen st' = Z.min (repl_backlog_histlen st + n) (repl_backlog_size st).
Lemma grown_0 st stream : backlog_ok st stream -> no_backlog st = false -> grown st 0 st.
Proof. unfold backlog_ok, no_backlog, grown. intros (_ & _ & Hb) Hn. destruct (repl_backlog st); [lia|done]. Qed.
Lemma grown_trans st n st1 m st2 : 0 <= m -> grown st n st1 -> grown st1 m st2 -> grown st (n + m) st2.
Proof. unfold grown. lia. Qed.

(** The server after data went to the backlog: nothing but the backlog has changed *)
Definition fed st stream (p : bytes) st' : Prop :=
  backlog_ok st' (stream ++ p) /\ no_backlog st' = false /\ grown st (zlen p) st' /\
  st' = set_backlog (repl_backlog st') (repl_backlog_histlen st') (repl_backlog_idx st') (repl_backlog_off st') (master_repl_offset st') st.

Lemma fed_trans st stream p st1 q st2 : fed st stream p st1 -> fed st1 (stream ++ p) q st2 -> fed st stream (p ++ q) st2.
Proof.
  intros (_ & _ & G1 & H1) (Hb & Hn & G2 & H2). split_and!; [by rewrite app_assoc|done| |rewrite H2 at 1; by rewrite H1].
  rewrite zlen_app. by eapply grown_trans; [zlen_pos; lia|..].
Qed.

Lemma feed_ok st stream p : backlog_ok st stream -> no_backlog st = false -> exists st', feedReplicationBacklog p st = Some st' /\ fed st stream p st'.
Proof.
  intros (Hs & Hl & Hb) Hn. unfold feedReplicationBacklog. unfold no_backlog in Hn. destruct (repl_backlog st) as [b|]; [|done]. mstep.
  destruct Hb as (Hc & Hh & Ho). destruct (feed_loop_ok (repl_backlog_size st) (length p) b _ _ stream p Hc) as (b' & idx' & -> & Hc'); [done|]. mstep.
  eexists. split; [done|]. pose proof Hc as (_ & _ & Hh0 & _). pose proof (zlen_nonneg p).
  simpl. set (h := if repl_backlog_histlen st + zlen p >? repl_backlog_size st then repl_backlog_size st else repl_backlog_histlen st + zlen p).
  assert (h = Z.min (repl_backlog_histlen st + zlen p) (repl_backlog_size st)) as Hmin.
  { subst h. destruct (Z.gtb_spec (repl_backlog_histlen st + zlen p) (repl_backlog_size st)); lia. }
  split_and!; [|done|by split|done]. split; [done|]. split; [simpl; rewrite zlen_app; lia|]. simpl.
  split_and!; [|lia|done]. destruct Hc' as (H1 & H2 & H3 & H4). split_and!; try lia. intros t Ht. apply H4. lia.
Qed.

(** ** Numbers *)

Lemma short_decimal s z : is_s 64 z -> decimal s z -> zlen s <= 20.
Proof.
  intros Hz Hd. rewrite (decimal_printed_length s z Hz Hd). destruct (magnitude_spec z Hz) as [_ Hm].
  destruct (digits10_spec _ Hm) as (Hn & _ & Hge). unfold printed_length. unfold is_s in Hz.
  assert (digits10 (Z.abs z) <= 19).
  { destruct Hge as [[-> _]|Hge]; [lia|]. destruct (decide (digits10 (Z.abs z) <= 19)); [done|].
    pose proof (Z.pow_le_mono_r 10 19 (digits10 (Z.abs z) - 1)). lia. }
  destruct (z <? 0); simpl; lia.
Qed.

Lemma ll_str_ok size s z : string2ll s = Some z -> 20 < size -> ll_str size z = Some s.
Proof.
  intros [Hd Hz]%string2ll_iff Hs. unfold ll_str. destruct (ll2string_prints (realloc [] size) size z Hz) as (s' & Hd' & _ & HE).
  { rewrite fresh_len; lia. }
  assert (s' = s) as -> by by eapply decimal_unique. pose proof (short_decimal s z Hz Hd). rewrite (proj2 (Z.ltb_lt _ _)) in HE by lia.
  rewrite HE. mstep. unfold zlen. by rewrite Nat2Z.id, take_app_length.
Qed.
Lemma ll_str_print size z : is_s 64 z -> 20 < size -> ll_str size z = Some (print z).
Proof. intros Hz. apply ll_str_ok. by apply string2ll_print. Qed.

(** ** Commands in the stream *)

(** An object that stands for a string *)
Definition arg_ok (o : svalue) (s : bytes) : Prop := svalue_rep o (AStr s) /\ zlen s < 2 ^ 63.

Definition header (prefix n : Z) : bytes := prefix :: print n ++ CRLF.
Definition bulk (s : bytes) : bytes := header 36 (zlen s) ++ s ++ CRLF.
Definition command (ss : list bytes) : bytes := header 42 (zlen ss) ++ concat (bulk <$> ss).

Lemma len_s64 {X} (l : list X) : zlen l < 2 ^ 63 -> is_s 64 (zlen l).
Proof. unfold is_s. pose proof (zlen_nonneg l). lia. Qed.

Lemma headers_ok p n : is_s 64 n -> aux_header p n = Some (header p n) /\ addReplyLongLongWithPrefix p n = Some (header p n).
Proof. intros Hn. unfold aux_header, addReplyLongLongWithPrefix, LONG_STR_SIZE. by rewrite !ll_str_print by (done || lia). Qed.

Lemma object_bytes o s : arg_ok o s ->
  (match o with SInt _ n => ll_str LONG_STR_SIZE n | SEmb p | SRaw p => Some p | SOther _ => None end) = Some s.
Proof.
  intros [Ho _]. destruct o as [sh z|p|p|t]; simpl in Ho; [|by subst..|done]. by apply ll_str_ok.
Qed.
Lemma feed_object_ok st stream o s : backlog_ok st stream -> no_backlog st = false -> arg_ok o s ->
  exists st', feedReplicationBacklogWithObject o st = Some st' /\ fed st stream s st'.
Proof. intros Hb Hn Ho. unfold feedReplicationBacklogWithObject. rewrite (object_bytes o s Ho). by apply feed_ok. Qed.

Lemma addReplyBulk_ok o s : arg_ok o s -> addReplyBulk o = Some (bulk s).
Proof.
  intros [Ho Hl]. unfold addReplyBulk. rewrite (len_ok o s Ho). mstep. destruct (headers_ok 36 (zlen s) (len_s64 s Hl)) as [_ ->]. mstep.
  rewrite (reply_string_ok o s Ho). mstep. unfold bulk. by rewrite <- ?app_assoc.
Qed.
Lemma bulks_ok argv ss : Forall2 arg_ok argv ss -> bulks argv = Some (concat (bulk <$> ss)).
Proof. induction 1 as [|o s argv ss Ho _ IH]; [done|]. simpl. rewrite (addReplyBulk_ok o s Ho). mstep. by rewrite IH. Qed.

Lemma feed_args_ok argv ss : Forall2 arg_ok argv ss -> forall st stream, backlog_ok st stream -> no_backlog st = false ->
  exists st', feed_args argv st = Some st' /\ fed st stream (concat (bulk <$> ss)) st'.
Proof.
  induction 1 as [|o s argv ss Ho _ IH]; intros st stream Hb Hn; cbn [feed_args].
  { exists st. split; [done|]. split_and!; [by rewrite app_nil_r|done|by eapply grown_0|by destruct st]. }
  rewrite (len_ok o s (proj1 Ho)). mstep. destruct (headers_ok 36 (zlen s) (len_s64 s (proj2 Ho))) as [-> _]. mstep.
  destruct (feed_ok st stream (header 36 (zlen s)) Hb Hn) as (st1 & -> & H1). mstep.
  destruct (feed_object_ok st1 _ o s (proj1 H1) (proj1 (proj2 H1)) Ho) as (st2 & -> & H2). mstep.
  destruct (feed_ok st2 _ CRLF (proj1 H2) (proj1 (proj2 H2))) as (st3 & -> & H3). mstep.
  destruct (IH st3 _ (proj1 H3) (proj1 (proj2 H3))) as (st4 & -> & H4). exists st4. split; [done|].
  rewrite fmap_cons. cbn [concat]. unfold bulk at 1. rewrite <- !app_assoc.
  eapply fed_trans; [exact H1|]. eapply fed_trans; [exact H2|]. eapply fed_trans; [exact H3|exact H4].
Qed.
End Facts.
