(* ===== verification/ReplSpec.v ===== *)
(** * Replicas receive the stream of their master *)

From Stdlib Require Import ZArith Lia String.
From stdpp Require Import base numbers option fin_maps gmap list.
From S2P Require Import Prelude Memory Util UtilFacts Glob Sds Server Keyspace StringCmd StringSpec Repl ReplFacts.

Local Open Scope Z_scope.
Local Open Scope redis_scope.

(** What a run notes of the clients: those that asked for the stream from an offset on, and those whose output has other
    bytes than the stream, or lacks some of it: their offset was not a number, the line that lets them continue could not be
    written, they executed commands of their own, or took over the buffer of such a client. *)
Record track := Track { from : gmap nat Z; faulty : gset nat }.

Section Spec.
Context `{!Alloc}.
Implicit Types (e : renv) (st : repl) (sl c : slave) (stream p : bytes) (partial : track).

(** ** What holds of the slaves *)

(** Where the bytes given to a slave begin in the stream: at the offset it asked for, or where the data set it is sent
    was saved *)
Definition begin partial sl : Z := default (psync_initial_offset sl) (from partial !! sid sl).

(** A slave has been given nothing while it waits for a save to start, then the bytes of the stream from there on. *)
Definition slave_ok stream partial sl : Prop :=
  (waits_start sl = true \/ waits_end sl = true -> from partial !! sid sl = None) /\
  (waits_end sl = true -> 0 <= psync_initial_offset sl <= zlen stream) /\
  (sid sl ∉ faulty partial -> muted sl = false /\
     (waits_start sl = true -> out sl = []) /\
     (waits_start sl = false -> 0 <= begin partial sl <= zlen stream /\ out sl = drop (Z.to_nat (begin partial sl)) stream)).

Record node_ok st stream partial : Prop := {
  n_backlog : backlog_ok st stream;
  n_slaves : no_backlog st = true -> slaves st = [];
  n_ok : Forall (slave_ok stream partial) (slaves st);
  n_nodup : NoDup (sid <$> slaves st) }.

(** Nothing but the slaves, the selected database and the child has changed. *)
Definition same st st' : Prop := st' = set_child (rdb_child st') (set_slaves (slaves st') (set_seldb (slaveseldb st') st)).
Lemma same_refl st : same st st.
Proof. by destruct st. Qed.
Lemma same_trans st st1 st2 : same st st1 -> same st1 st2 -> same st st2.
Proof. unfold same. intros H1 H2. rewrite H2 at 1. rewrite H1. done. Qed.
Lemma same_backlog st st' stream : same st st' -> backlog_ok st stream -> backlog_ok st' stream /\ no_backlog st' = no_backlog st.
Proof. intros -> Hb. done. Qed.

(** ** Feeding *)

Definition feed1 p sl : slave := if replstate sl =? SLAVE_STATE_WAIT_BGSAVE_START then sl else addReplyProto p sl.
Lemma feed1_ok stream partial p sl : slave_ok stream partial sl -> slave_ok (stream ++ p) partial (feed1 p sl) /\ sid (feed1 p sl) = sid sl.
Proof.
  intros (H1 & H2 & H3). pose proof (zlen_nonneg p). assert (zlen (stream ++ p) = zlen stream + zlen p) as Hz by apply zlen_app.
  assert (waits_end sl = true -> 0 <= psync_initial_offset sl <= zlen (stream ++ p)) as H2' by (intros Hw; specialize (H2 Hw); lia).
  unfold feed1. change (replstate sl =? SLAVE_STATE_WAIT_BGSAVE_START) with (waits_start sl).
  assert (waits_start sl = true \/ waits_start sl = false) as [E|E] by (destruct (waits_start sl); auto); rewrite E.
  - split; [|done]. unfold slave_ok. rewrite E in *. split_and!; [done|done|]. intros Hf. by destruct (H3 Hf) as (? & ? & _).
  - unfold addReplyProto. destruct (muted sl) eqn:Em; (split; [|done]); (split_and!; [exact H1|exact H2'|]); intros Hf; destruct (H3 Hf) as (Hm & _ & Ho); [done|].
    split_and!; [done|intros Hw; change (waits_start sl = true) in Hw; congruence|]. intros _. destruct (Ho E) as [Hr Hout].
    change (begin partial (set_out (out sl ++ p) sl)) with (begin partial sl). split; [lia|].
    rewrite drop_app_le by (unfold zlen in *; lia). simpl. by rewrite Hout.
Qed.
Lemma feed_slaves_ok stream partial p l : Forall (slave_ok stream partial) l ->
  Forall (slave_ok (stream ++ p) partial) (feed1 p <$> l) /\ sid <$> (feed1 p <$> l) = sid <$> l.
Proof.
  intros Hl. split.
  - rewrite Forall_fmap. eapply Forall_impl; [exact Hl|]. intros sl Hs. by apply feed1_ok.
  - rewrite <- list_fmap_compose. apply list_fmap_ext. intros j sl Hj. simpl. unfold feed1, addReplyProto. by destruct (_ =? _), (muted sl).
Qed.

(** The backlog and the slaves get the same bytes. *)
Lemma both_fed st stream partial p st1 : node_ok st stream partial -> fed st stream p st1 ->
  node_ok (add_to_slaves p st1) (stream ++ p) partial /\ no_backlog (add_to_slaves p st1) = false /\ grown st (zlen p) st1 /\
  slaveseldb st1 = slaveseldb st /\ replid st1 = replid st /\ replid2 st1 = replid2 st /\ second_replid_offset st1 = second_replid_offset st /\
  has_masterhost st1 = has_masterhost st /\ rdb_child st1 = rdb_child st.
Proof.
  intros [Hb Hs Hk Hd] (Hb1 & Hn & Hg & H1). assert (slaves st1 = slaves st) as Hsl by (by rewrite H1). destruct (feed_slaves_ok stream partial p (slaves st) Hk) as [Hf Hi].
  split; [|split; [exact Hn|split; [exact Hg|rewrite H1; by split_and!]]].
  split; [exact Hb1|intros HE; change (no_backlog st1 = true) in HE; by rewrite HE in Hn| |].
  - unfold add_to_slaves. rewrite Hsl. exact Hf.
  - unfold add_to_slaves. rewrite Hsl. simpl. fold (feed1 p). by rewrite Hi.
Qed.

#[local] Opaque print.
Definition SELECT : bytes := [83; 69; 76; 69; 67; 84].
Lemma print_of s z : string2ll s = Some z -> print z = s.
Proof. intros Hs. apply string2ll_iff in Hs as [Hd Hz]. pose proof (string2ll_print z Hz) as Hp. apply string2ll_iff in Hp as [Hp _]. by eapply decimal_unique. Qed.
Lemma select_head : header 42 2 ++ bulk SELECT = [42; 50; 13; 10; 36; 54; 13; 10; 83; 69; 76; 69; 67; 84; 13; 10].
Proof.
  unfold bulk, header. change (zlen SELECT) with 6.
  by rewrite (print_of [50] 2 ltac:(vm_compute; reflexivity)), (print_of [54] 6 ltac:(vm_compute; reflexivity)).
Qed.
Lemma select_text (s : bytes) :
  command [SELECT; s] = [42; 50; 13; 10; 36; 54; 13; 10; 83; 69; 76; 69; 67; 84; 13; 10; 36] ++ print (zlen s) ++ CRLF ++ s ++ CRLF.
Proof.
  unfold command. rewrite !fmap_cons, fmap_nil. cbn [concat]. rewrite app_nil_r. change (zlen [SELECT; s]) with 2.
  rewrite (app_assoc (header 42 2)), select_head. unfold bulk, header. cbn [app]. by rewrite <- app_assoc.
Qed.
Lemma select_ok dictid : is_s 64 dictid -> select_command dictid = Some (command [SELECT; print dictid]).
Proof.
  intros Hd. rewrite select_text. pose proof (string2ll_print dictid Hd) as Hp. apply string2ll_iff in Hp as [Hp _]. pose proof (short_decimal _ _ Hd Hp).
  assert (is_s 64 (zlen (print dictid))) as Hl by (apply len_s64; lia). revert Hl. pose proof (ll_str_print 21 dictid Hd ltac:(lia)) as Hs.
  unfold select_command, LONG_STR_SIZE. rewrite Hs. generalize (print dictid). intros s Hl. cbn [mbind option_bind].
  by rewrite (ll_str_print 21 _ Hl) by lia.
Qed.

(** What a command adds to the stream *)
Definition logged st (dictid : Z) (ss : list bytes) : bytes :=
  if has_masterhost st || no_backlog st then [] else (if slaveseldb st =? dictid then [] else command [SELECT; print dictid]) ++ command ss.

(** The identifiers and the role *)
Definition same_ids st st' : Prop :=
  replid st' = replid st /\ replid2 st' = replid2 st /\ second_replid_offset st' = second_replid_offset st /\
  has_masterhost st' = has_masterhost st /\ rdb_child st' = rdb_child st /\ no_backlog st' = no_backlog st.
Lemma same_ids_trans st st1 st2 : same_ids st st1 -> same_ids st1 st2 -> same_ids st st2.
Proof. unfold same_ids. intros H1 H2. destruct H1 as (H1 & ? & ? & ? & ? & ?), H2 as (H2 & ? & ? & ? & ? & ?). split_and!; congruence. Qed.

(** ... and, with data added to the backlog *)
Definition same_ids_fed st p st' : Prop := same_ids st st' /\ (no_backlog st = false -> grown st (zlen p) st').
Lemma same_ids_fed_refl st stream : backlog_ok st stream -> same_ids_fed st [] st.
Proof. intros Hb. split; [by split_and!|]. intros Hn. by eapply grown_0. Qed.
Lemma same_ids_fed_trans st p st1 q st2 : same_ids_fed st p st1 -> same_ids_fed st1 q st2 -> same_ids_fed st (p ++ q) st2.
Proof.
  intros [H1 G1] [H2 G2]. split; [by eapply same_ids_trans|]. intros Hn. rewrite zlen_app. eapply grown_trans; [zlen_pos; lia|by apply G1|].
  apply G2. destruct H1 as (_ & _ & _ & _ & _ & Hb). by rewrite Hb.
Qed.

Lemma seldb_ok n st stream partial : node_ok st stream partial -> node_ok (set_seldb n st) stream partial.
Proof. intros []. by split. Qed.

Lemma feed_both st stream partial p f :
  node_ok st stream partial -> no_backlog st = false -> (exists st', f st = Some st' /\ fed st stream p st') ->
  exists st1, f st = Some st1 /\ node_ok (add_to_slaves p st1) (stream ++ p) partial /\ same_ids_fed st p (add_to_slaves p st1).
Proof.
  intros Hok Hn (st1 & HE & Hf). exists st1. destruct (both_fed st stream partial p st1 Hok Hf) as (Hok1 & Hn1 & Hg & H1 & H2 & H3 & H4 & H5 & H6).
  split; [done|]. split; [done|]. split; [|done]. unfold same_ids. rewrite Hn. by split_and!.
Qed.

Lemma feed_select_ok st stream partial dictid : is_s 64 dictid -> node_ok st stream partial -> no_backlog st = false ->
  exists st', (if slaveseldb st =? dictid then Some st else
               let! cmd := select_command dictid in
               let! st := if no_backlog st then Some st else feedReplicationBacklogWithObject (SRaw cmd) st in
               Some (add_to_slaves cmd st)) = Some st' /\
    node_ok st' (stream ++ if slaveseldb st =? dictid then [] else command [SELECT; print dictid]) partial /\
    same_ids_fed st (if slaveseldb st =? dictid then [] else command [SELECT; print dictid]) st'.
Proof.
  intros Hd Hok Hn. destruct (slaveseldb st =? dictid); [exists st; rewrite app_nil_r; split_and!; [done..|by eapply same_ids_fed_refl, Hok]|].
  rewrite (select_ok dictid Hd), Hn. cbn [mbind option_bind]. generalize (command [SELECT; print dictid]). intros cmd.
  destruct (feed_both st stream partial cmd (feedReplicationBacklogWithObject (SRaw cmd)) Hok Hn) as (st1 & -> & H1 & H2); [by apply feed_ok; [apply Hok|]|].
  cbn [mbind option_bind]. by exists (add_to_slaves cmd st1).
Qed.

Lemma feed_command_ok st stream partial argv ss : Forall2 arg_ok argv ss -> zlen argv < 2 ^ 63 -> node_ok st stream partial -> no_backlog st = false ->
  exists st', (let! st := if no_backlog st then Some st else
                          let! h := aux_header 42 (zlen argv) in
                          let! st := feedReplicationBacklog h st in
                          feed_args argv st in
               let! h := addReplyArrayLen (zlen argv) in
               let! l := bulks argv in
               Some (add_to_slaves (h ++ l) st)) = Some st' /\ node_ok st' (stream ++ command ss) partial /\ same_ids_fed st (command ss) st'.
Proof.
  intros Ha Hl Hok Hn. destruct (headers_ok 42 (zlen argv) (len_s64 argv Hl)) as [Hh Hh']. unfold addReplyArrayLen. rewrite Hh, Hh', (bulks_ok argv ss Ha), Hn.
  cbn [mbind option_bind]. assert (header 42 (zlen argv) ++ concat (bulk <$> ss) = command ss) as Hc.
  { unfold command, zlen. by rewrite (Forall2_length _ _ _ Ha). }
  destruct (feed_both st stream partial (command ss) (fun st => let! st := feedReplicationBacklog (header 42 (zlen argv)) st in feed_args argv st) Hok Hn)
    as (st1 & HE & H1 & H2).
  { destruct (feed_ok st stream (header 42 (zlen argv)) (n_backlog _ _ _ Hok) Hn) as (st2 & -> & F2). cbn [mbind option_bind].
    destruct (feed_args_ok argv ss Ha st2 _ (proj1 F2) (proj1 (proj2 F2))) as (st3 & -> & F3). exists st3. split; [done|].
    rewrite <- Hc. by eapply fed_trans. }
  cbv beta in HE. rewrite HE. cbn [mbind option_bind]. rewrite Hc. by exists (add_to_slaves (command ss) st1).
Qed.

(** A command goes to the backlog and to the slaves with the same bytes. *)
Lemma feed_slaves_correct st stream partial dictid argv ss :
  node_ok st stream partial -> Forall2 arg_ok argv ss -> zlen argv < 2 ^ 63 -> is_s 64 dictid ->
  exists st', replicationFeedSlaves dictid argv st = Some st' /\ node_ok st' (stream ++ logged st dictid ss) partial /\ same_ids_fed st (logged st dictid ss) st'.
Proof.
  intros Hok Ha Hl Hd. pose proof (same_ids_fed_refl st stream (n_backlog _ _ _ Hok)) as Hrefl.
  unfold replicationFeedSlaves, logged. destruct (has_masterhost st) eqn:Eh; simpl; [exists st; rewrite app_nil_r; by split_and!|].
  destruct (no_backlog st) eqn:En; simpl.
  { rewrite (n_slaves _ _ _ Hok En). simpl. exists st. rewrite app_nil_r. by split_and!. }
  rewrite andb_false_r. destruct (feed_select_ok st stream partial dictid Hd Hok En) as (st1 & HE & H1 & H2). rewrite En in HE. rewrite HE. cbn [mbind option_bind].
  assert (no_backlog (set_seldb dictid st1) = false) as Hn1 by (destruct H2 as [(_ & _ & _ & _ & _ & Hb) _]; change (no_backlog st1 = false); by rewrite Hb).
  destruct (feed_command_ok (set_seldb dictid st1) _ partial argv ss Ha Hl (seldb_ok dictid _ _ _ H1) Hn1) as (st2 & -> & H3 & H4).
  exists st2. rewrite app_assoc. split_and!; try done. eapply same_ids_fed_trans; [exact H2|exact H4].
Qed.

Lemma master_stream_ok st stream partial buf : node_ok st stream partial -> no_backlog st = false ->
  exists st', replicationFeedSlavesFromMasterStream buf st = Some st' /\ node_ok st' (stream ++ buf) partial /\ same_ids_fed st buf st'.
Proof.
  intros Hok Hn. unfold replicationFeedSlavesFromMasterStream. rewrite Hn.
  destruct (feed_both st stream partial buf (feedReplicationBacklog buf) Hok Hn) as (st1 & -> & H1 & H2); [by apply feed_ok; [apply Hok|]|].
  cbn [mbind option_bind]. by exists (add_to_slaves buf st1).
Qed.

(** ** Partial resynchronization *)

(** The bytes from an offset on *)
Lemma window_ok st stream o : backlog_ok st stream -> no_backlog st = false ->
  repl_backlog_off st <= o <= repl_backlog_off st + repl_backlog_histlen st ->
  0 <= o - 1 <= zlen stream /\ exists n, addReplyReplicationBacklog o st = Some (drop (Z.to_nat (o - 1)) stream, n).
Proof.
  unfold backlog_ok, no_backlog, addReplyReplicationBacklog. intros (Hs & Hl & Hb) Hn Ho. destruct (repl_backlog st) as [b|]; [|done].
  destruct Hb as (Hc & Hh & Hoff). pose proof Hc as (_ & _ & Hr & _). split; [lia|]. destruct (Z.eqb_spec (repl_backlog_histlen st) 0) as [Hz|Hz].
  - exists 0. rewrite drop_ge; [done|]. unfold zlen in *. lia.
  - cbn [mbind option_bind]. destruct (read_end b _ _ _ stream (o - repl_backlog_off st) Hc Hh) as (x & HE & ->); [lia|]. rewrite HE. cbn [mbind option_bind].
    eexists. repeat f_equal. lia.
Qed.

Lemma slave_ok_other stream partial partial' sl : from partial' !! sid sl = from partial !! sid sl -> (sid sl ∈ faulty partial -> sid sl ∈ faulty partial') ->
  slave_ok stream partial sl -> slave_ok stream partial' sl.
Proof. unfold slave_ok, begin. intros -> Hf (H1 & H2 & H3). split_and!; [done..|]. intros Hn. apply H3. auto. Qed.

(** What is noted of the other clients stays. *)
Definition same_but (n : nat) partial partial' : Prop :=
  forall k, k <> n -> from partial' !! k = from partial !! k /\ (k ∈ faulty partial -> k ∈ faulty partial').
Lemma slaves_ok_other stream partial partial' n l : same_but n partial partial' -> n ∉ sid <$> l ->
  Forall (slave_ok stream partial) l -> Forall (slave_ok stream partial') l.
Proof.
  intros Hp Hn Hl. rewrite Forall_forall in *. intros sl Hin. assert (sid sl <> n) as Hne by (intros <-; apply Hn, list_elem_of_fmap; eauto).
  destruct (Hp _ Hne). by apply (slave_ok_other stream partial); [..|auto].
Qed.
Lemma nodup_snoc (l : list slave) c c' : NoDup (sid <$> l) -> sid c ∉ sid <$> l -> sid c' = sid c -> NoDup (sid <$> (l ++ [c'])).
Proof.
  intros Hd Hn He. rewrite fmap_app, NoDup_app. simpl. rewrite He. split_and!; [done| |apply NoDup_singleton].
  intros x Hx ->%list_elem_of_singleton. done.
Qed.
Lemma add_slave_ok st stream partial partial' c c' :
  node_ok st stream partial -> same_but (sid c) partial partial' -> sid c ∉ sid <$> slaves st -> sid c' = sid c ->
  no_backlog st = false -> slave_ok stream partial' c' -> node_ok (set_slaves (slaves st ++ [c']) st) stream partial'.
Proof.
  intros [Hb Hs Hk Hd] Hp Hn Hc Hbk Hc'. split; [done|simpl; intros HE; change (no_backlog st = true) in HE; by rewrite Hbk in HE| |by eapply nodup_snoc].
  simpl. apply Forall_app. split; [by apply (slaves_ok_other stream partial partial' (sid c))|by constructor].
Qed.

Lemma psync_ok e st stream partial partial' c id offset o :
  node_ok st stream partial -> sid c ∉ sid <$> slaves st -> out c = [] -> string2ll offset = Some o ->
  same_but (sid c) partial partial' -> from partial' !! sid c = Some (o - 1) ->
  (sid c ∉ faulty partial' -> muted c = false /\ connWrite_ok e (sid c) = true) ->
  if psync_refused id o st then masterTryPartialResynchronization e c id offset st = Some (inl c)
  else exists c', masterTryPartialResynchronization e c id offset st = Some (inr (set_slaves (slaves st ++ [c']) st)) /\
    node_ok (set_slaves (slaves st ++ [c']) st) stream partial' /\ sid c' = sid c /\ no_backlog st = false /\
    (connWrite_ok e (sid c) = true -> muted c = false -> out c' = drop (Z.to_nat (o - 1)) stream).
Proof.
  intros Hok Hn Hc Ho Hp Hfrom Hgood. unfold masterTryPartialResynchronization. rewrite Ho. destruct (psync_refused id o st) eqn:Er; [done|].
  unfold psync_refused in Er. apply orb_false_iff in Er as [_ Er]. apply orb_false_iff in Er as [Er E3]. apply orb_false_iff in Er as [E1 E2].
  apply Z.ltb_ge in E2. rewrite Z.gtb_ltb in E3. apply Z.ltb_ge in E3.
  destruct (window_ok st stream o (n_backlog _ _ _ Hok) E1 (conj E2 E3)) as [Hr (n & HE)].
  set (buf := if negb _ then _ else _). unfold connWrite. simpl sid. destruct (connWrite_ok e (sid c)) eqn:Ec; simpl negb; cbv iota; [rewrite HE; cbn [mbind option_bind]|];
    (eexists; split; [reflexivity|]); (split; [|split; [|split; [done|]]]).
  - apply (add_slave_ok st stream partial _ c); try done; [simpl; by destruct (muted c)|]. unfold slave_ok, begin, waits_start, waits_end, addReplyProto. simpl.
    destruct (muted c) eqn:Em; simpl; rewrite Hfrom; (split_and!; [by intros [?|?]|done|]); intros Hf; destruct (Hgood Hf) as [Hm _]; [done|].
    by rewrite Hc.
  - simpl. by destruct (muted c).
  - intros _ Hm. unfold addReplyProto. simpl. by rewrite Hm, Hc.
  - apply (add_slave_ok st stream partial _ c); try done. unfold slave_ok, waits_start, waits_end. simpl.
    split_and!; [by intros [?|?]|done|]. intros Hf. destruct (Hgood Hf). congruence.
  - done.
  - intros ?. congruence.
Qed.

(** ** Full resynchronization *)

Lemma setup_ok e off sl st : is_s 64 off ->
  exists sl', replicationSetupSlaveForFullResync e off sl st = Some (sl', set_seldb (-1) st) /\ sid sl' = sid sl /\
    replstate sl' = SLAVE_STATE_WAIT_BGSAVE_END /\ psync_initial_offset sl' = off /\ out sl' = out sl /\ muted sl' = muted sl.
Proof.
  intros Ho. unfold replicationSetupSlaveForFullResync. simpl pre_psync. destruct (pre_psync sl); [by eexists|].
  rewrite (ll_str_print _ _ Ho) by (unfold LONG_STR_SIZE; lia). cbn [mbind option_bind]. generalize (print off). intros s.
  unfold connWrite. simpl sid. destruct (connWrite_ok e (sid sl)); simpl snd; eexists; split_and!; reflexivity.
Qed.

(** A slave whose data set is about to be saved *)
Lemma waits_end_ok stream partial sl : replstate sl = SLAVE_STATE_WAIT_BGSAVE_END -> from partial !! sid sl = None ->
  0 <= psync_initial_offset sl <= zlen stream ->
  (sid sl ∉ faulty partial -> muted sl = false /\ out sl = drop (Z.to_nat (psync_initial_offset sl)) stream) -> slave_ok stream partial sl.
Proof.
  intros Hs Hp Ho Hd. unfold slave_ok, begin, waits_start, waits_end. rewrite Hs, Hp. split_and!; [done..|]. intros Hf.
  destruct (Hd Hf). by split_and!.
Qed.

Lemma setup_waiting_ok e stream partial l : zlen stream < 2 ^ 63 -> forall st, master_repl_offset st = zlen stream ->
  Forall (slave_ok stream partial) l ->
  exists l' n, setup_waiting e l st = Some (l', set_seldb n st) /\ Forall (slave_ok stream partial) l' /\ sid <$> l' = sid <$> l.
Proof.
  intros Hl. pose proof (zlen_nonneg stream). induction l as [|sl l IH]; intros st Hm Hf; cbn [setup_waiting].
  { exists [], (slaveseldb st). split_and!; try done. by destruct st. }
  apply Forall_cons in Hf as [Hs Hf]. destruct (waits_start sl) eqn:Ew.
  - destruct (setup_ok e (getPsyncInitialOffset st) sl st) as (sl' & -> & Hi & Hr & Ho & Hout & Hmu); [unfold getPsyncInitialOffset; rewrite Hm; apply len_s64; lia|].
    cbn [mbind option_bind]. destruct (IH (set_seldb (-1) st) Hm Hf) as (l' & n & -> & Hf' & Hi'). cbn [mbind option_bind]. exists (sl' :: l'), n.
    split; [done|]. split; [|by rewrite !fmap_cons, Hi, Hi']. constructor; [|done]. destruct Hs as (H1 & _ & H3). unfold getPsyncInitialOffset in Ho.
    apply waits_end_ok; [done|rewrite Hi; auto|lia|]. rewrite Hi. intros Hfa. destruct (H3 Hfa) as (H4 & H5 & _).
    rewrite Hmu, Hout, Ho, H5, Hm by done. by rewrite drop_ge by (unfold zlen; lia).
  - cbn [mbind option_bind]. destruct (IH st Hm Hf) as (l' & n & -> & Hf' & Hi'). cbn [mbind option_bind]. exists (sl :: l'), n.
    split_and!; [done|by constructor|by rewrite !fmap_cons, Hi'].
Qed.

(** Nothing but the slaves has changed, and these are in order. *)
Definition slaves_changed st stream partial st' : Prop :=
  same st st' /\ node_ok st' stream partial.
Lemma slaves_changed_intro st stream partial l n ch : node_ok st stream partial -> Forall (slave_ok stream partial) l -> NoDup (sid <$> l) ->
  (no_backlog st = true -> l = []) -> slaves_changed st stream partial (set_child ch (set_slaves l (set_seldb n st))).
Proof. intros [Hb Hs Hk Hd] Hf Hn Hl. split; [done|]. by split. Qed.

Lemma filter_slaves_ok stream partial (P : slave -> Prop) `{!forall sl, Decision (P sl)} l : Forall (slave_ok stream partial) l -> NoDup (sid <$> l) ->
  Forall (slave_ok stream partial) (filter P l) /\ NoDup (sid <$> filter P l).
Proof.
  intros Hf Hd. split.
  - rewrite Forall_forall in *. intros sl Hin. apply list_elem_of_filter in Hin as [_ Hin]. auto.
  - eapply sublist_NoDup; [exact Hd|]. apply fmap_sublist, sublist_filter.
Qed.

Definition back_to_start sl : slave := if waits_end sl then set_replstate SLAVE_STATE_WAIT_BGSAVE_START sl else sl.
Lemma dropped_ok stream partial l : Forall (slave_ok stream partial) l -> NoDup (sid <$> l) ->
  Forall (slave_ok stream partial) (filter (fun sl => waits_start sl = false) (back_to_start <$> l)) /\
  NoDup (sid <$> filter (fun sl => waits_start sl = false) (back_to_start <$> l)).
Proof.
  intros Hf Hd. split.
  - rewrite Forall_forall in *. intros sl Hin. apply list_elem_of_filter in Hin as [Hw Hin]. apply list_elem_of_fmap in Hin as (sl' & -> & Hin).
    unfold back_to_start in *. destruct (waits_end sl'); [done|auto].
  - eapply sublist_NoDup; [|apply fmap_sublist, sublist_filter]. rewrite <- list_fmap_compose. erewrite list_fmap_ext; [exact Hd|].
    intros _ sl _. simpl. unfold back_to_start. by destruct (waits_end sl).
Qed.

(** The failure of a save, from any state that differs in the slaves *)
Lemma failed_ok st stream partial l n : node_ok st stream partial ->
  Forall (slave_ok stream partial) (filter (fun sl => waits_start sl = false) l) -> NoDup (sid <$> filter (fun sl => waits_start sl = false) l) ->
  (no_backlog st = true -> l = []) ->
  slaves_changed st stream partial (set_slaves (filter (fun sl => waits_start sl = false) l) (set_seldb n st)).
Proof. intros Hok Hf Hd Hl. apply (slaves_changed_intro st stream partial (filter (fun sl => waits_start sl = false) l) n (rdb_child st)); try done. intros Hn. by rewrite Hl. Qed.

Lemma failed_now_ok st stream partial : node_ok st stream partial ->
  slaves_changed st stream partial (set_slaves (filter (fun sl => waits_start sl = false) (slaves st)) st).
Proof.
  intros Hok. pose proof Hok as [Hb Hs Hk Hd]. destruct (filter_slaves_ok stream partial (fun sl => waits_start sl = false) (slaves st) Hk Hd).
  apply (slaves_changed_intro st stream partial (filter (fun sl => waits_start sl = false) (slaves st)) (slaveseldb st) (rdb_child st)); try done.
  intros Hn. by rewrite Hs.
Qed.

Lemma sockets_ok e st stream partial : zlen stream < 2 ^ 63 -> node_ok st stream partial ->
  exists ok st', rdbSaveToSlavesSockets e st = Some (ok, st') /\
    if ok then slaves_changed st stream partial st'
    else slaves_changed st stream partial (set_slaves (filter (fun sl => waits_start sl = false) (slaves st')) st').
Proof.
  intros Hl Hok. pose proof Hok as [Hb Hs Hk Hd]. unfold rdbSaveToSlavesSockets.
  pose proof (failed_now_ok st stream partial Hok) as Hfail.
  destruct (hasActiveChildProcess e st); [by eexists false, st|]. destruct (rdb_pipe_conns e); [by eexists false, st|].
  destruct (pipe_ok e); simpl negb; cbv iota; [|by eexists false, st].
  destruct (setup_waiting_ok e stream partial (slaves st) Hl st) as (l & n & -> & Hf & Hi); [symmetry; apply Hb|done|]. cbn [mbind option_bind].
  assert (NoDup (sid <$> l)) as Hd' by by rewrite Hi. assert (no_backlog st = true -> l = []) as Hnil.
  { intros Hn. rewrite (Hs Hn) in Hi. by destruct l. }
  destruct (fork_ok e); eexists _, _; (split; [reflexivity|]).
  - apply (slaves_changed_intro st stream partial l n); done.
  - destruct (dropped_ok stream partial l Hf Hd'). apply (failed_ok st stream partial (back_to_start <$> l) n); try done. intros Hn. by rewrite Hnil.
Qed.

Lemma bgsave_ok e mincapa st stream partial : zlen stream < 2 ^ 63 -> node_ok st stream partial ->
  exists ok st', startBgsaveForReplication e mincapa st = Some (ok, st') /\ slaves_changed st stream partial st'.
Proof.
  intros Hl Hok. unfold startBgsaveForReplication. set (socket := repl_diskless_sync e && _).
  assert (exists ok st', (if rdbPopulateSaveInfo e st then if socket then rdbSaveToSlavesSockets e st else Some (rdbSaveBackground e st) else Some (false, st)) = Some (ok, st') /\
    if ok then (if socket then slaves_changed st stream partial st' else slaves_changed st stream partial st')
    else slaves_changed st stream partial (set_slaves (filter (fun sl => waits_start sl = false) (slaves st')) st')) as (ok & st1 & -> & H1).
  { pose proof (failed_now_ok st stream partial Hok) as Hfail.
    destruct (rdbPopulateSaveInfo e st); [|by eexists false, st]. destruct socket.
    - destruct (sockets_ok e st stream partial Hl Hok) as (ok & st' & -> & H'). exists ok, st'. split; [done|]. by destruct ok.
    - unfold rdbSaveBackground. destruct (hasActiveChildProcess e st); [by eexists false, st|]. destruct (fork_ok e); [|by eexists false, st].
      eexists true, _. split; [done|]. apply (slaves_changed_intro st stream partial (slaves st) (slaveseldb st)); [done|apply Hok..]. }
  cbn [mbind option_bind]. destruct ok; simpl negb; cbv iota; [|by eexists false, _]. destruct socket; [by eexists true, _|].
  destruct H1 as [Hsame Hok1]. destruct (setup_waiting_ok e stream partial (slaves st1) Hl st1) as (l & n & -> & Hf & Hi); [symmetry; apply Hok1|apply Hok1|].
  cbn [mbind option_bind]. eexists true, _. split; [done|].
  destruct (slaves_changed_intro st1 stream partial l n (rdb_child st1) Hok1 Hf) as [H2 H3]; [rewrite Hi; apply Hok1| |].
  { intros Hn. rewrite (n_slaves _ _ _ Hok1 Hn) in Hi. by destruct l. }
  split; [|done]. eapply same_trans; [exact Hsame|exact H2].
Qed.

(** A new client: unless it is noted as faulty, it has no output yet, and may take over the buffer of any slave that waits. *)
Definition fresh e partial st c : Prop :=
  from partial !! sid c = None /\
  (sid c ∉ faulty partial -> muted c = false /\ out c = [] /\
     forall sl, sl ∈ slaves st -> waits_end sl = true -> sid sl ∉ faulty partial /\ gone e (sid sl) = 0%nat).

(** A save of the data set another slave waits for *)
Lemma attach_ok e st stream partial l c sl :
  zlen stream < 2 ^ 63 -> node_ok st stream partial -> slaves st = l ++ [c] -> sl ∈ slaves st -> waits_end sl = true -> fresh e partial st c ->
  exists st', attach e c sl st = Some st' /\ slaves_changed st stream partial st'.
Proof.
  intros Hl Hok Hs Hin Hw [Hp Hfr]. pose proof Hok as [Hb Hn Hk Hd]. rewrite Forall_forall in Hk. destruct (Hk sl Hin) as (H1 & H2 & H3).
  assert (waits_start sl = false) as Hw' by (unfold waits_start, waits_end in *; apply Z.eqb_eq in Hw; by rewrite Hw). specialize (H2 Hw).
  unfold attach. destruct (setup_ok e (psync_initial_offset sl) (set_out (drop (gone e (sid sl)) (out sl)) c) st) as (c' & -> & Hi & Hst & Hoff & Hout & Hmu); [unfold is_s; lia|].
  cbn [mbind option_bind]. eexists. split; [reflexivity|]. simpl slaves. rewrite Hs, removelast_last. simpl in Hi, Hout, Hmu.
  apply (slaves_changed_intro st stream partial (l ++ [c']) (-1) (rdb_child st)); [done| | |].
  - apply Forall_app. split.
    + apply Forall_forall. intros x Hx. apply Hk. rewrite Hs. set_solver.
    + constructor; [|done]. apply waits_end_ok; [done|by rewrite Hi|by rewrite Hoff|]. rewrite Hi. intros Hf. destruct (Hfr Hf) as (Hm & _ & Hall).
      destruct (Hall sl Hin Hw) as [Hf' Hg]. destruct (H3 Hf') as (_ & _ & H4). destruct (H4 Hw') as [_ Ho]. unfold begin in Ho.
      rewrite (H1 (or_intror Hw)) in Ho. by rewrite Hmu, Hm, Hout, Hoff, Hg, drop_0.
  - rewrite Hs in Hd. by rewrite fmap_app in *; simpl in *; rewrite Hi.
  - intros HE. rewrite (Hn HE) in Hs. by destruct l.
Qed.

Definition zeros : bytes := replicate (Z.to_nat CONFIG_RUN_ID_SIZE) 48.
(** The server after a new slave: nothing but the slaves has changed, or a backlog was created with a new identifier *)
Definition resynced e st st' : Prop :=
  same st st' \/
  (no_backlog st = true /\ no_backlog st' = false /\ replid st' = random_id e /\ replid2 st' = zeros /\ second_replid_offset st' = -1 /\
   has_masterhost st' = has_masterhost st /\ master_repl_offset st' = master_repl_offset st /\ rdb_child st' = rdb_child st').

Lemma resynced_same e st st1 st2 : resynced e st st1 -> same st1 st2 -> resynced e st st2.
Proof.
  intros [H1|H1] H2; [left; by eapply same_trans|right]. destruct H1 as (? & ? & ? & ? & ? & ? & ? & ?). rewrite H2. by split_and!.
Qed.

Lemma find_waits_end l sl n : list_find (fun sl => waits_end sl = true) l = Some (n, sl) -> sl ∈ l /\ waits_end sl = true.
Proof. intros (Hl & Hw & _)%list_find_Some. split; [by eapply list_elem_of_lookup_2|done]. Qed.

(** The client with its list and, when it is the first one, the backlog *)
Lemma joined_ok e st stream partial c : node_ok st stream partial -> fresh e partial st c -> waits_start c = true -> sid c ∉ sid <$> slaves st ->
  exists st', (if (zlen (slaves (set_slaves (slaves st ++ [c]) st)) =? 1) && no_backlog (set_slaves (slaves st ++ [c]) st)
               then createReplicationBacklog (clearReplicationId2 (changeReplicationId e (set_slaves (slaves st ++ [c]) st)))
               else Some (set_slaves (slaves st ++ [c]) st)) = Some st' /\
    node_ok st' stream partial /\ resynced e st st' /\ slaves st' = slaves st ++ [c] /\ rdb_child st' = rdb_child st.
Proof.
  intros Hok [Hp Hfr] Hw Hi. pose proof Hok as [Hb Hn Hk Hd]. assert (waits_end c = false) as Hw' by (unfold waits_start, waits_end in *; apply Z.eqb_eq in Hw; by rewrite Hw).
  assert (slave_ok stream partial c) as Hcok.
  { unfold slave_ok. rewrite Hw, Hw'. split_and!; [done..|]. intros Hf. destruct (Hfr Hf) as (? & ? & _). by split_and!. }
  change (no_backlog (set_slaves (slaves st ++ [c]) st)) with (no_backlog st). simpl slaves. destruct (no_backlog st) eqn:En.
  - rewrite (Hn eq_refl) in *. cbn [app]. change (zlen [c] =? 1) with true. cbv iota. simpl andb. cbv iota.
    set (st1 := clearReplicationId2 (changeReplicationId e (set_slaves [c] st))).
    destruct (backlog_created st1 stream Hb En) as (b & -> & Hb1). eexists. split; [reflexivity|]. split; [|split; [|done]].
    + split; [done|done|by constructor|apply NoDup_singleton].
    + right. by split_and!.
  - rewrite andb_false_r. eexists. split; [reflexivity|]. split; [|split; [by left|done]]. by apply (add_slave_ok st stream partial partial c).
Qed.

Lemma full_resync_ok e c st stream partial :
  zlen stream < 2 ^ 63 -> node_ok st stream partial -> fresh e partial st c -> sid c ∉ sid <$> slaves st ->
  exists st', full_resync e c st = Some st' /\ node_ok st' stream partial /\ resynced e st st'.
Proof.
  intros Hl Hok Hfr Hi. unfold full_resync. set (c' := set_replstate SLAVE_STATE_WAIT_BGSAVE_START c).
  destruct (joined_ok e st stream partial c') as (st1 & HE & H1 & H2 & H3 & H4); [done..|]. rewrite HE. cbn [mbind option_bind].
  destruct (rdb_child st1) as [[]|].
  - destruct (list_find (fun sl => waits_end sl = true) (slaves st1)) as [[n sl]|] eqn:Ef; [|exists st1; by split_and!]. destruct (Z.land (slave_capa c') (slave_capa sl) =? slave_capa sl); [|exists st1; by split_and!].
    destruct (find_waits_end _ _ _ Ef) as [Hin Hw]. destruct (attach_ok e st1 stream partial (slaves st) c' sl Hl H1 H3 Hin Hw) as (st2 & -> & Hs & Hok2).
    { destruct Hfr as [Hp Hfr]. split; [done|]. intros Hf. destruct (Hfr Hf) as (Hm & Ho & Hall). split_and!; [done..|]. rewrite H3.
      intros x [Hx| ->%list_elem_of_singleton]%elem_of_app; [by apply Hall|done]. }
    exists st2. split_and!; try done. by eapply resynced_same.
  - exists st1. by split_and!.
  - destruct (repl_diskless_sync e && _); [exists st1; by split_and!|]. destruct (hasActiveChildProcess e st1); [exists st1; by split_and!|].
    destruct (bgsave_ok e (slave_capa c') st1 stream partial Hl H1) as (ok & st2 & -> & Hs & Hok2). cbn [mbind option_bind]. exists st2. split_and!; try done. by eapply resynced_same.
Qed.
End Spec.
