(* ===== verification/ReplRun.v ===== *)
(** * Runs of a server with its replicas

    The server handles commands, requests to follow it, the end of saves, changes of its own role and of its
    settings, in any order.  Beside its state a run keeps what no server has in one place: the whole stream of the
    server, the histories that go by each identifier anywhere, and whether commands were executed that the stream
    lacks. *)

From Stdlib Require Import ZArith Lia String.
From stdpp Require Import base numbers option fin_maps gmap list.
From S2P Require Import Prelude Memory Util UtilFacts Glob Sds Server Keyspace StringCmd StringSpec Repl ReplFacts ReplSpec.

Local Open Scope Z_scope.
Local Open Scope redis_scope.

Record sys := Sys {
  node : repl;
  stream : bytes;
  hist : gmap bytes bytes;
  partial : track;
  unlogged : bool }.

(** An identifier as it is compared *)
Definition canon (id : bytes) : bytes := map (fun c => tolower c) (c_str id).
Lemma same_nocase_canon a b : same_nocase a b = bool_decide (canon a = canon b).
Proof. done. Qed.

Inductive event :=
| EWrite (dictid : Z) (argv : list svalue)
| EStream (buf : bytes)
| ESync (e : renv) (c : slave) (psync : option (bytes * bytes))
| EBgsaveDone (e : renv) (ok : bool) (type : child)
| ECron (e : renv)
| EDisconnect (n : nat)
| EOwnCommand (n : nat) (reply : bytes) (m : bool)
| EOnline (e : renv) (n : nat)
| EResize (n : Z)
| EPromote (e : renv)
| EDemote
| EPsyncFailed
| EFullSync (id : bytes) (h : bytes)
| EContinue (id : bytes)
| EOthers (h : gmap bytes bytes).

Section Run.
Context `{!Alloc}.
Implicit Types (e : renv) (st : repl) (s : sys).

Definition arg_bytes (o : svalue) : bytes := default [] (reply_string o).

(** The node with a new identifier for its stream, when it has taken one *)
Definition new_id s st : gmap bytes bytes := if bool_decide (replid st = replid (node s)) then hist s else <[canon (replid st) := stream s]> (hist s).

(** What is noted of a new client.  One that is to be sent a data set is faulty from the start if a faulty one waits for the end
    of a save, whose buffer it may take over. *)
Definition noted e c (psync : option (bytes * bytes)) s : track :=
  let t := partial s in
  let note (f : gmap nat Z) (bad : bool) := Track f (if bad then {[ sid c ]} ∪ faulty t else faulty t ∖ {[ sid c ]}) in
  let full := note (delete (sid c) (from t))
                (muted c || existsb (fun sl => waits_end sl && bool_decide (sid sl ∈ faulty t)) (slaves (node s))) in
  match psync with
  | Some (id, offset) =>
      match string2ll offset with
      | Some o => if psync_refused id o (node s) then full else note (<[sid c := o - 1]> (from t)) (muted c || negb (connWrite_ok e (sid c)))
      | None => note (delete (sid c) (from t)) true
      end
  | None => full
  end.

Definition apply (ev : event) s : option sys :=
  let st := node s in
  match ev with
  | EWrite dictid argv =>
      let! st' := replicationFeedSlaves dictid argv st in
      let str := stream s ++ logged st dictid (arg_bytes <$> argv) in
      Some (Sys st' str (if has_masterhost st then hist s else <[canon (replid st) := str]> (hist s)) (partial s)
              (unlogged s || (negb (has_masterhost st) && no_backlog st)))
  | EStream buf =>
      let! st' := replicationFeedSlavesFromMasterStream buf st in
      Some (Sys st' (stream s ++ buf) (hist s) (partial s) (unlogged s))
  | ESync e c psync =>
      let! (_, st') := syncCommand e c psync st in
      Some (Sys st' (stream s) (new_id s st')
              (if bool_decide (sid c ∈ sid <$> slaves st) then partial s else noted e c psync s)
              (unlogged s && negb (no_backlog st && negb (no_backlog st'))))
  | EBgsaveDone e ok type =>
      let! st' := updateSlavesWaitingBgsave e ok type (set_child None st) in
      Some (Sys st' (stream s) (hist s) (partial s) (unlogged s))
  | ECron e =>
      let! st' := cron_free_backlog e st in
      let! st' := cron_start_bgsave e st' in
      Some (Sys st' (stream s) (new_id s st') (partial s) (unlogged s))
  | EDisconnect n => Some (Sys (free_slave n st) (stream s) (hist s) (partial s) (unlogged s))
  | EOwnCommand n reply m =>
      Some (Sys (own_command n reply m st) (stream s) (hist s) (Track (from (partial s)) ({[ n ]} ∪ faulty (partial s))) (unlogged s))
  | EOnline e n => Some (Sys (putSlaveOnline e n st) (stream s) (hist s) (partial s) (unlogged s))
  | EResize n => Some (Sys (resizeReplicationBacklog n st) (stream s) (hist s) (partial s) (unlogged s))
  | EPromote e =>
      let st' := replicationUnsetMaster e st in
      Some (Sys st' (stream s) (new_id s st') (partial s) (unlogged s))
  | EDemote => Some (Sys (replicationSetMaster st) (stream s) (hist s) (partial s) (unlogged s))
  | EPsyncFailed =>
      let! st' := psync_failed st in
      Some (Sys st' (stream s) (hist s) (partial s) (unlogged s))
  | EFullSync id h =>
      let! st' := full_sync_done id (zlen h) st in
      Some (Sys st' h (hist s) (partial s) false)
  | EContinue id =>
      let! st' := psync_continued (replid st) id st in
      Some (Sys st' (stream s) (hist s) (partial s) (unlogged s))
  | EOthers h => Some (Sys st (stream s) h (partial s) (unlogged s))
  end.

(** What may happen.  Random identifiers are new.  The output of a replica that waits for a save is not sent, unless it has
    other bytes than the stream.  A replica is given the history of the identifier it was told; before a full synchronization it has dropped its own
    backlog, and its master lets it continue only from a history they share.  The other servers add to histories, but not to
    that of a master, which is this server's own. *)
Definition allowed (ev : event) s : Prop :=
  let st := node s in
  match ev with
  | EWrite dictid argv => Forall2 arg_ok argv (arg_bytes <$> argv) /\ zlen argv < 2 ^ 63 /\ is_s 32 dictid
  | EStream buf => has_masterhost st = true /\ no_backlog st = false /\ exists h, hist s !! canon (replid st) = Some h /\ (stream s ++ buf) `prefix_of` h
  | ESync e _ _ => hist s !! canon (random_id e) = None /\
      Forall (fun sl => waits_end sl = true -> sid sl ∉ faulty (partial s) -> gone e (sid sl) = 0%nat) (slaves st)
  | ECron e | EPromote e => hist s !! canon (random_id e) = None
  | EOnline _ n => Forall (fun sl => sid sl = n -> replstate sl = SLAVE_STATE_SEND_BULK \/ replstate sl = SLAVE_STATE_ONLINE) (slaves st)
  | EFullSync id h => has_masterhost st = true /\ no_backlog st = true /\ exists h', hist s !! canon id = Some h' /\ h `prefix_of` h'
  | EContinue id => has_masterhost st = true /\ unlogged s = false /\ (exists h', hist s !! canon id = Some h' /\ stream s `prefix_of` h')
  | EOthers h => (forall id x, hist s !! id = Some x -> exists y, h !! id = Some (x ++ y)) /\
                 (has_masterhost st = false -> h !! canon (replid st) = hist s !! canon (replid st))
  | _ => True
  end /\ zlen (stream s) < 2 ^ 63.

(** The stream is a history of the first identifier, all of it on a master, and agrees with that of the second one up to its
    offset; nothing was executed beside it while there is a backlog. *)
Definition ids_ok s : Prop :=
  (exists h, hist s !! canon (replid (node s)) = Some h /\ stream s `prefix_of` h /\ (has_masterhost (node s) = false -> h = stream s)) /\
  (0 < second_replid_offset (node s) -> second_replid_offset (node s) - 1 <= zlen (stream s) /\
     exists h, hist s !! canon (replid2 (node s)) = Some h /\ second_replid_offset (node s) - 1 <= zlen h /\
       take (Z.to_nat (second_replid_offset (node s) - 1)) h = take (Z.to_nat (second_replid_offset (node s) - 1)) (stream s)) /\
  (no_backlog (node s) = false -> unlogged s = false).

Definition ok s : Prop := node_ok (node s) (stream s) (partial s) /\ ids_ok s.

(** A new server *)
Definition init (size : Z) (id : bytes) : sys :=
  Sys (Repl None size 0 0 0 0 (-1) id zeros (-1) false [] None) [] {[ canon id := [] ]} (Track ∅ ∅) false.

Inductive reachable (size : Z) (id : bytes) : sys -> Prop :=
| reach_init : reachable size id (init size id)
| reach_step s ev s' : reachable size id s -> allowed ev s -> apply ev s = Some s' -> reachable size id s'.

(** ** Histories *)

(** A step that leaves the stream, the histories, the identifiers and the role alone *)
Lemma ids_frame s s' : ids_ok s -> stream s' = stream s -> hist s' = hist s ->
  replid (node s') = replid (node s) -> replid2 (node s') = replid2 (node s) -> second_replid_offset (node s') = second_replid_offset (node s) ->
  has_masterhost (node s') = has_masterhost (node s) -> (no_backlog (node s') = false -> unlogged s' = false) -> ids_ok s'.
Proof. intros (H1 & H2 & H3) E1 E2 E3 E4 E5 E6 Hu. unfold ids_ok. rewrite E1, E2, E3, E4, E5, E6. done. Qed.

(** The stream grows with the history of its identifier. *)
Lemma ids_grow s s' d : ids_ok s -> stream s' = stream s ++ d -> replid (node s') = replid (node s) -> replid2 (node s') = replid2 (node s) ->
  second_replid_offset (node s') = second_replid_offset (node s) -> has_masterhost (node s') = has_masterhost (node s) ->
  (no_backlog (node s') = false -> unlogged s' = false) ->
  (if has_masterhost (node s) then hist s' = hist s /\ exists h, hist s !! canon (replid (node s)) = Some h /\ (stream s ++ d) `prefix_of` h
   else hist s' = <[canon (replid (node s)) := stream s ++ d]> (hist s)) -> ids_ok s'.
Proof.
  intros (H1 & H2 & H3) E1 E2 E3 E4 E5 Hu Hh. unfold ids_ok. rewrite E1, E2, E3, E4, E5. split_and!; [| |done].
  - destruct (has_masterhost (node s)); [destruct Hh as [-> (h & Hh & Hp)]; by exists h|]. rewrite Hh. exists (stream s ++ d). by rewrite lookup_insert_eq.
  - intros Hs. destruct (H2 Hs) as (Hl & h & Hh2 & Hlh & Ht). split; [rewrite zlen_app; zlen_pos; lia|].
    assert (take (Z.to_nat (second_replid_offset (node s) - 1)) (stream s ++ d) = take (Z.to_nat (second_replid_offset (node s) - 1)) (stream s)) as ->.
    { rewrite take_app_le; [done|unfold zlen in *; lia]. }
    destruct (has_masterhost (node s)); [destruct Hh as [-> _]; by exists h|]. rewrite Hh.
    destruct (decide (canon (replid (node s)) = canon (replid2 (node s)))) as [Heq|Hne].
    + rewrite Heq, lookup_insert_eq. eexists. split_and!; [done|rewrite zlen_app; zlen_pos; lia|]. rewrite take_app_le; [done|unfold zlen in *; lia].
    + rewrite lookup_insert_ne by done. by exists h.
Qed.

(** A new identifier *)
Lemma ids_new s s' id : ids_ok s -> hist s !! canon id = None -> stream s' = stream s -> hist s' = <[canon id := stream s]> (hist s) -> replid (node s') = id ->
  (second_replid_offset (node s') <= 0 \/
   (replid2 (node s') = replid (node s) /\ second_replid_offset (node s') = zlen (stream s) + 1)) ->
  (no_backlog (node s') = false -> unlogged s' = false) -> ids_ok s'.
Proof.
  intros (H1 & H2 & H3) Hn E1 E2 E3 Hs Hu. unfold ids_ok. rewrite E1, E2, E3. split_and!; [| |done].
  - exists (stream s). rewrite lookup_insert_eq. by split_and!.
  - intros Hpos. destruct Hs as [Hs|[Hs1 Hs2]]; [lia|]. destruct H1 as (h & Hh & [x ->] & _). rewrite Hs1, Hs2.
    assert (canon id <> canon (replid (node s))) as Hne by (intros Heq; by rewrite Heq, Hh in Hn).
    rewrite Z.add_simpl_r. split; [done|]. exists (stream s ++ x). rewrite lookup_insert_ne by done. split_and!; [done|rewrite zlen_app; zlen_pos; lia|].
    rewrite take_app_le by (unfold zlen; lia). done.
Qed.

Lemma new_id_same s st : replid st = replid (node s) -> new_id s st = hist s.
Proof. intros Hid. unfold new_id. by rewrite bool_decide_eq_true_2. Qed.
Lemma new_id_new s st : ids_ok s -> hist s !! canon (replid st) = None -> new_id s st = <[canon (replid st) := stream s]> (hist s).
Proof.
  intros ((h & Hh & _) & _) Hn. unfold new_id. rewrite bool_decide_eq_false_2; [done|]. intros Heq. by rewrite Heq, Hh in Hn.
Qed.

Lemma same_ids_of st st' : same st st' -> same_ids (set_child (rdb_child st') st) st'.
Proof. unfold same. intros ->. done. Qed.

(** ** Every event *)

Lemma write_ok s dictid argv : ok s -> allowed (EWrite dictid argv) s -> exists s', apply (EWrite dictid argv) s = Some s' /\ ok s'.
Proof.
  intros [Hok Hids] [(Ha & Hl & Hd) _]. assert (is_s 64 dictid) as Hd' by (unfold is_s in *; lia). cbn [apply].
  destruct (feed_slaves_correct (node s) (stream s) (partial s) dictid argv (arg_bytes <$> argv) Hok Ha Hl Hd') as (st' & -> & Hok' & (E1 & E2 & E3 & E4 & E5 & E6) & _).
  cbn [mbind option_bind]. eexists. split; [reflexivity|]. split; [done|]. eapply (ids_grow s _ _ Hids); try done.
  - simpl. rewrite E6. intros Hn. rewrite Hn, (proj2 (proj2 Hids) Hn), andb_false_r. done.
  - simpl. destruct (has_masterhost (node s)) eqn:Em; [|done]. split; [done|]. unfold logged. rewrite Em. simpl. rewrite app_nil_r.
    destruct Hids as ((h & Hh & Hp & _) & _). by exists h.
Qed.

Lemma stream_ok s buf : ok s -> allowed (EStream buf) s -> exists s', apply (EStream buf) s = Some s' /\ ok s'.
Proof.
  intros [Hok Hids] [(Hm & Hn & Hh) _]. cbn [apply].
  destruct (master_stream_ok (node s) (stream s) (partial s) buf Hok Hn) as (st' & -> & Hok' & (E1 & E2 & E3 & E4 & E5 & E6) & _).
  cbn [mbind option_bind]. eexists. split; [reflexivity|]. split; [done|]. eapply (ids_grow s _ buf Hids); try done.
  - simpl. rewrite E6. apply Hids.
  - by rewrite Hm.
Qed.

(** A step that changes the slaves only *)
Lemma changed_ok s st' : ok s -> slaves_changed (node s) (stream s) (partial s) st' ->
  ok (Sys st' (stream s) (hist s) (partial s) (unlogged s)) /\ replid st' = replid (node s).
Proof.
  intros [Hok Hids] [Hs Hok']. pose proof (same_ids_of _ _ Hs) as (E1 & E2 & E3 & E4 & E5 & E6). split; [|done]. split; [done|]. eapply (ids_frame s _ Hids); try done.
  simpl. rewrite E6. apply Hids.
Qed.

Lemma set_child_ok s ch : ok s -> ok (Sys (set_child ch (node s)) (stream s) (hist s) (partial s) (unlogged s)).
Proof. intros [[] Hids]. split; [by split|]. eapply (ids_frame s _ Hids); try done. apply Hids. Qed.

Lemma after_bgsave_ok e r type stream0 partial0 l : Forall (slave_ok stream0 partial0) l -> NoDup (sid <$> l) ->
  Forall (slave_ok stream0 partial0) (omap (after_bgsave e r type) l) /\ (sid <$> omap (after_bgsave e r type) l) `sublist_of` (sid <$> l).
Proof.
  intros Hf _. induction Hf as [|sl l Hs _ [IH1 IH2]]; simpl; [done|].
  assert (forall sl', after_bgsave e r type sl = Some sl' -> slave_ok stream0 partial0 sl' /\ sid sl' = sid sl) as Ha.
  { intros sl'. unfold after_bgsave. destruct (waits_end sl) eqn:Ew; simpl; [|intros [= <-]; done]. destruct r; simpl; [|done].
    assert (waits_start sl = false) as Hw by (unfold waits_start, waits_end in *; apply Z.eqb_eq in Ew; by rewrite Ew).
    destruct Hs as (_ & _ & H3).
    assert (forall n, n = SLAVE_STATE_ONLINE \/ n = SLAVE_STATE_SEND_BULK -> slave_ok stream0 partial0 (set_replstate n sl) /\ sid (set_replstate n sl) = sid sl) as Hset.
    { intros n Hn. split; [|done]. unfold slave_ok, waits_start, waits_end. simpl.
      destruct Hn as [-> | ->]; (split_and!; [by intros [?|?]|done|]); intros Hfa; destruct (H3 Hfa) as (Hm & _ & Ho); by split_and!; [..|intros _; apply Ho]. }
    destruct type; [destruct (rdb_file_ok e (sid sl) && connSetWriteHandler_ok e (sid sl)); [|done]|]; intros [= <-]; auto. }
  destruct (after_bgsave e r type sl) as [sl'|]; [destruct (Ha sl' eq_refl) as [H1 H2]|].
  - split; [by constructor|]. simpl. rewrite H2. by constructor.
  - split; [done|]. simpl. by apply sublist_cons.
Qed.

Lemma bgsave_done_ok s e r type : ok s -> allowed (EBgsaveDone e r type) s -> exists s', apply (EBgsaveDone e r type) s = Some s' /\ ok s' /\ stream s' = stream s /\ same (node s) (node s').
Proof.
  intros Hok [_ Hl]. cbn [apply]. unfold updateSlavesWaitingBgsave. simpl slaves. set (l := omap (after_bgsave e r type) (slaves (node s))).
  pose proof (set_child_ok s None Hok) as Hok0. pose proof Hok0 as [[Hb Hn Hk Hd] _]. destruct (after_bgsave_ok e r type _ _ _ Hk Hd) as [Hf Hsub].
  assert (NoDup (sid <$> l)) as Hd' by (by eapply sublist_NoDup).
  assert (slaves_changed (set_child None (node s)) (stream s) (partial s) (set_slaves l (set_child None (node s)))) as Hc.
  { apply (slaves_changed_intro (set_child None (node s)) (stream s) (partial s) l (slaveseldb (node s)) None); [apply Hok0|done..|].
    intros HE. subst l. simpl in Hn. by rewrite (Hn HE). }
  destruct (changed_ok _ _ Hok0 Hc) as [Hok1 _]. pose proof (proj1 Hc : same (node s) _) as Hs.
  destruct (existsb waits_start (slaves (node s))); [|eexists; split; [reflexivity|by split_and!]].
  destruct (bgsave_ok e (mincapa_of (slaves (node s))) _ (stream s) (partial s) Hl (proj1 Hok1)) as (b & st2 & HE & Hc2). simpl node in HE. rewrite HE.
  cbn [mbind option_bind]. eexists. split; [reflexivity|]. split; [apply (changed_ok _ _ Hok1 Hc2)|]. split; [done|].
  eapply same_trans; [exact Hs|apply Hc2].
Qed.

Lemma cron_bgsave_ok s e : ok s -> zlen (stream s) < 2 ^ 63 ->
  exists st', cron_start_bgsave e (node s) = Some st' /\ ok (Sys st' (stream s) (hist s) (partial s) (unlogged s)) /\ replid st' = replid (node s) /\ same (node s) st'.
Proof.
  intros Hok Hl. pose proof (same_refl (node s)) as Hsame. unfold cron_start_bgsave. assert (Sys (node s) (stream s) (hist s) (partial s) (unlogged s) = s) as Hs by by destruct s.
  destruct (hasActiveChildProcess e (node s)); [exists (node s); by rewrite Hs|]. destruct (_ && _); [|exists (node s); by rewrite Hs].
  destruct (bgsave_ok e (mincapa_of (slaves (node s))) _ (stream s) (partial s) Hl (proj1 Hok)) as (b & st2 & -> & Hc2). cbn [mbind option_bind].
  exists st2. split; [done|]. destruct (changed_ok s st2 Hok Hc2). by split_and!; [..|apply Hc2].
Qed.

Lemma cron_ok s e : ok s -> allowed (ECron e) s -> exists s', apply (ECron e) s = Some s' /\ ok s' /\ stream s' = stream s /\ (no_backlog (node s') = true \/ same (node s) (node s')).
Proof.
  intros Hok [Hf Hl]. cbn [apply]. unfold cron_free_backlog. destruct (bool_decide (slaves (node s) = []) && _ && _ && _) eqn:E.
  - apply andb_true_iff in E as [E _]. apply andb_true_iff in E as [E _]. apply andb_true_iff in E as [E _]. apply bool_decide_eq_true in E.
    unfold freeReplicationBacklog. simpl slaves. rewrite E. cbn [mbind option_bind].
    set (st1 := set_backlog None _ _ _ _ _). destruct Hok as [[Hb Hn Hk Hd] Hids].
    assert (ok (Sys st1 (stream s) (<[canon (random_id e) := stream s]> (hist s)) (partial s) (unlogged s))) as Hok1.
    { split; [|by eapply (ids_new s _ (random_id e)); try done; left]. destruct Hb as (Hb1 & Hb2 & _).
      split; [by split_and!|intros _; exact E|simpl; rewrite E; by constructor|simpl; rewrite E; apply NoDup_nil_2]. }
    destruct (cron_bgsave_ok _ e Hok1 Hl) as (st2 & HE & Hok2 & Hid & Hsame). simpl node in HE. rewrite HE. cbn [mbind option_bind]. eexists. split; [reflexivity|].
    simpl replid in Hid. rewrite (new_id_new s st2 Hids) by by rewrite Hid. rewrite Hid. split_and!; [done|done|]. left.
    change (no_backlog st2 = true). by rewrite Hsame.
  - cbn [mbind option_bind]. destruct (cron_bgsave_ok _ e Hok Hl) as (st2 & -> & Hok2 & Hid & Hsame). cbn [mbind option_bind]. eexists. split; [reflexivity|].
    rewrite new_id_same by done. split_and!; [done|done|by right].
Qed.

Lemma disconnect_ok s n : ok s -> ok (Sys (free_slave n (node s)) (stream s) (hist s) (partial s) (unlogged s)).
Proof.
  intros Hok. apply changed_ok; [done|]. pose proof Hok as [[Hb Hn Hk Hd] _].
  destruct (filter_slaves_ok (stream s) (partial s) (fun sl => sid sl <> n) (slaves (node s)) Hk Hd).
  apply (slaves_changed_intro (node s) _ _ (filter (fun sl => sid sl <> n) (slaves (node s))) (slaveseldb (node s)) (rdb_child (node s))); try done.
  intros HE. by rewrite Hn.
Qed.

Definition online1 (n : nat) sl : slave := if bool_decide (sid sl = n) then set_replstate SLAVE_STATE_ONLINE sl else sl.
Lemma online_ok s e n : ok s -> allowed (EOnline e n) s -> ok (Sys (putSlaveOnline e n (node s)) (stream s) (hist s) (partial s) (unlogged s)).
Proof.
  intros Hok [Ha _]. unfold putSlaveOnline. destruct (connSetWriteHandler_ok e n); simpl negb; cbv iota; [|by apply disconnect_ok].
  apply changed_ok; [done|]. pose proof Hok as [[Hb Hn Hk Hd] _].
  change (set_slaves _ (node s)) with (set_child (rdb_child (node s)) (set_slaves (online1 n <$> slaves (node s)) (set_seldb (slaveseldb (node s)) (node s)))).
  apply slaves_changed_intro; [apply Hok| | |].
  - rewrite Forall_fmap. rewrite Forall_forall in *. intros sl Hin. unfold compose, online1. case_bool_decide as Hs; [|auto]. destruct (Hk sl Hin) as (_ & _ & H3).
    assert (waits_start sl = false) as Hw by (unfold waits_start; by destruct (Ha sl Hin Hs) as [-> | ->]).
    unfold slave_ok. split_and!; [by intros [?|?]|done|]. intros Hf. destruct (H3 Hf) as (Hm & _ & Ho). by split_and!; [..|intros _; apply Ho].
  - rewrite <- list_fmap_compose. erewrite list_fmap_ext; [exact Hd|]. intros _ sl _. unfold compose, online1. by case_bool_decide.
  - intros HE. by rewrite Hn.
Qed.

Definition own1 (n : nat) (reply : bytes) (m : bool) sl : slave := if bool_decide (sid sl = n) then set_muted m (addReplyProto reply sl) else sl.
Lemma own1_state n reply m sl : sid (own1 n reply m sl) = sid sl /\ replstate (own1 n reply m sl) = replstate sl /\
  psync_initial_offset (own1 n reply m sl) = psync_initial_offset sl.
Proof. unfold own1, addReplyProto. case_bool_decide; [by destruct (muted sl)|done]. Qed.
Lemma own_command_ok s n reply m : ok s ->
  ok (Sys (own_command n reply m (node s)) (stream s) (hist s) (Track (from (partial s)) ({[ n ]} ∪ faulty (partial s))) (unlogged s)).
Proof.
  intros [[Hb Hn Hk Hd] Hids]. split; [|eapply (ids_frame s _ Hids); try done; apply Hids]. split; [done| | |].
  - simpl. intros HE. by rewrite Hn.
  - unfold own_command. simpl. change (fun sl => if bool_decide (sid sl = n) then _ else sl) with (own1 n reply m). rewrite Forall_fmap.
    eapply Forall_impl; [exact Hk|]. intros sl (H1 & H2 & H3). unfold compose, slave_ok, waits_start, waits_end.
    destruct (own1_state n reply m sl) as (-> & -> & ->). split_and!; [done..|]. simpl. intros Hf. unfold own1. rewrite bool_decide_eq_false_2 by set_solver.
    apply H3. set_solver.
  - unfold own_command. simpl. rewrite <- list_fmap_compose. erewrite list_fmap_ext; [exact Hd|]. intros _ sl _. apply (own1_state n reply m).
Qed.

Lemma resize_event_ok s n : ok s -> ok (Sys (resizeReplicationBacklog n (node s)) (stream s) (hist s) (partial s) (unlogged s)).
Proof.
  intros [[Hb Hn Hk Hd] Hids]. destruct (resize_ok n (node s) (stream s) Hb) as [Hb' Hn'].
  assert (slaves (resizeReplicationBacklog n (node s)) = slaves (node s) /\ replid (resizeReplicationBacklog n (node s)) = replid (node s) /\
    replid2 (resizeReplicationBacklog n (node s)) = replid2 (node s) /\ second_replid_offset (resizeReplicationBacklog n (node s)) = second_replid_offset (node s) /\
    has_masterhost (resizeReplicationBacklog n (node s)) = has_masterhost (node s)) as (E1 & E2 & E3 & E4 & E5).
  { unfold resizeReplicationBacklog. destruct (_ =? _); [done|]. by destruct (no_backlog _). }
  split; [split; simpl; rewrite ?E1, ?Hn'; done|]. eapply (ids_frame s _ Hids); try done. simpl. rewrite Hn'. apply Hids.
Qed.

Lemma no_slaves_ok st stream0 partial0 : node_ok st stream0 partial0 -> node_ok (set_slaves [] st) stream0 partial0.
Proof. intros []. split; [done|done|by constructor|apply NoDup_nil_2]. Qed.

Lemma promote_ok s e : ok s -> allowed (EPromote e) s -> exists s', apply (EPromote e) s = Some s' /\ ok s'.
Proof.
  intros [Hok Hids] [Hf _]. cbn [apply]. eexists. split; [reflexivity|]. unfold replicationUnsetMaster. destruct (has_masterhost (node s)) eqn:Em; simpl negb; cbv iota.
  - rewrite (new_id_new s _ Hids) by done. pose proof (no_slaves_ok _ _ _ Hok) as [Hb Hn Hk Hd]. split; [by split|].
    eapply (ids_new s _ (random_id e) Hids); try done; [right|apply Hids]. split; [done|]. simpl. by rewrite (proj1 (proj2 (n_backlog _ _ _ Hok))).
  - rewrite new_id_same by done. by destruct s.
Qed.

Lemma demote_ok s : ok s -> ok (Sys (replicationSetMaster (node s)) (stream s) (hist s) (partial s) (unlogged s)).
Proof.
  intros [Hok Hids]. pose proof (no_slaves_ok _ _ _ Hok) as [Hb Hn Hk Hd]. split; [by split|]. destruct Hids as ((h & Hh & Hp & _) & H2 & H3).
  split_and!; [by exists h|done|done].
Qed.

Lemma psync_failed_ok s : ok s -> exists s', apply EPsyncFailed s = Some s' /\ ok s'.
Proof.
  intros [Hok Hids]. cbn [apply]. unfold psync_failed, freeReplicationBacklog. simpl slaves. cbn [mbind option_bind]. eexists. split; [reflexivity|].
  pose proof (no_slaves_ok _ _ _ Hok) as [(Hb1 & Hb2 & _) Hn Hk Hd]. split; [split; [by split_and!|done..]|]. by eapply (ids_frame s _ Hids).
Qed.

Lemma full_sync_ok s id h : ok s -> allowed (EFullSync id h) s -> exists s', apply (EFullSync id h) s = Some s' /\ ok s'.
Proof.
  intros [Hok Hids] [(Hm & Hn & Hh) _]. cbn [apply]. unfold full_sync_done. set (st1 := set_backlog _ _ _ _ (zlen h) _).
  assert (no_backlog st1 = true) as Hn1 by exact Hn. rewrite Hn1. pose proof Hok as [(Hb1 & Hb2 & _) Hsl _ _].
  assert (backlog_ok st1 h) as Hb.
  { split; [done|]. split; [done|]. unfold no_backlog in Hn1. by destruct (repl_backlog st1). }
  destruct (backlog_created st1 h Hb Hn1) as (b & -> & Hb'). cbn [mbind option_bind]. eexists. split; [reflexivity|]. split.
  - split; [done|done|simpl; rewrite (Hsl Hn); by constructor|simpl; rewrite (Hsl Hn); apply NoDup_nil_2].
  - destruct Hh as (h' & Hh' & Hp). split_and!; [exists h'; split_and!; try done; simpl; by rewrite Hm|done|done].
Qed.

(** A replica whose backlog is created when it continues *)
Lemma create_event_ok s : ok s -> unlogged s = false ->
  exists st', (if no_backlog (node s) then createReplicationBacklog (node s) else Some (node s)) = Some st' /\
    ok (Sys st' (stream s) (hist s) (partial s) (unlogged s)).
Proof.
  intros [Hok Hids] Hu. destruct (no_backlog (node s)) eqn:Hn; [|exists (node s); split; [done|by destruct s]].
  destruct (backlog_created (node s) (stream s) (n_backlog _ _ _ Hok) Hn) as (b & -> & Hb). eexists. split; [done|]. destruct Hok as [_ Hs Hk Hd].
  split; [by split|]. by eapply (ids_frame s _ Hids).
Qed.

Lemma continue_ok s id : ok s -> allowed (EContinue id) s -> exists s', apply (EContinue id) s = Some s' /\ ok s'.
Proof.
  intros Hok [(Hm & Hu & Hh) _]. cbn [apply]. unfold psync_continued. destruct (_ && _).
  - set (st1 := disconnectSlaves _).
    assert (ok (Sys st1 (stream s) (hist s) (partial s) (unlogged s))) as Hok1.
    { destruct Hok as [Hok Hids]. pose proof (no_slaves_ok _ _ _ Hok) as [Hb Hn Hk Hd]. split; [by split|].
      destruct Hids as ((h & Hr & [x ->] & _) & _). destruct Hh as (h' & Hh' & Hp). split_and!; [|intros _|done].
      - exists h'. split_and!; try done. simpl. by rewrite Hm.
      - pose proof (proj1 (proj2 (n_backlog _ _ _ Hok))) as Hlen. simpl. rewrite Z.add_simpl_r, <- Hlen. split; [done|]. eexists. split_and!; [done|rewrite zlen_app; zlen_pos; lia|].
        rewrite take_app_le by (unfold zlen; lia). done. }
    destruct (create_event_ok _ Hok1 Hu) as (st' & HE & Hok'). simpl node in HE. rewrite HE. cbn [mbind option_bind]. by eexists.
  - destruct (create_event_ok _ Hok Hu) as (st' & -> & Hok'). cbn [mbind option_bind]. by eexists.
Qed.

Lemma others_ok s h : ok s -> allowed (EOthers h) s -> ok (Sys (node s) (stream s) h (partial s) (unlogged s)).
Proof.
  intros [Hok Hids] [[Hg Hm] _]. split; [done|]. destruct Hids as ((x & Hx & Hp & He) & H2 & H3). split_and!; [| |done].
  - simpl. destruct (Hg _ _ Hx) as (y & Hy). exists (x ++ y). split_and!; [done|by apply prefix_app_r|]. intros Hmh. rewrite (Hm Hmh), Hx in Hy. injection Hy as Hy.
    rewrite <- Hy. by apply He.
  - simpl. intros Hs. destruct (H2 Hs) as (Hl & z & Hz & Hlz & Ht). split; [done|]. destruct (Hg _ _ Hz) as (y & Hy). exists (z ++ y).
    split_and!; [done|rewrite zlen_app; zlen_pos; lia|]. rewrite take_app_le by (unfold zlen in *; lia). done.
Qed.

Lemma partial_other_ok st stream0 t t' n : node_ok st stream0 t -> n ∉ sid <$> slaves st -> same_but n t t' -> node_ok st stream0 t'.
Proof. intros [Hb Hs Hk Hd] Hn Ht. split; [done..| |done]. by apply (slaves_ok_other stream0 t _ n). Qed.

Lemma noted_other s e c psync : same_but (sid c) (partial s) (noted e c psync s).
Proof.
  intros k Hk. unfold noted. destruct psync as [[id offset]|]; [destruct (string2ll offset); [destruct (psync_refused _ _ _)|]|]; simpl;
    rewrite ?lookup_delete_ne, ?lookup_insert_ne by done; (split; [done|]); repeat case_match; set_solver.
Qed.
(** A client that is to be sent a data set *)
Lemma noted_fresh s e c psync c' : out c = [] -> Forall (fun sl => waits_end sl = true -> sid sl ∉ faulty (partial s) -> gone e (sid sl) = 0%nat) (slaves (node s)) ->
  sid c ∉ sid <$> slaves (node s) -> sid c' = sid c -> muted c' = muted c ->
  match psync with
  | Some (id, offset) => match string2ll offset with Some o => psync_refused id o (node s) = true /\ out c' = out c | None => True end
  | None => out c' = out c
  end -> fresh e (noted e c psync s) (node s) c'.
Proof.
  intros Hc Hg Hi Hs Hm Hp. rewrite Forall_forall in Hg. unfold fresh, noted. rewrite Hs, Hm.
  assert (forall f bad, bad = muted c || existsb (fun sl => waits_end sl && bool_decide (sid sl ∈ faulty (partial s))) (slaves (node s)) -> out c' = out c ->
    let t := Track f (if bad then {[ sid c ]} ∪ faulty (partial s) else faulty (partial s) ∖ {[ sid c ]}) in
    sid c ∉ faulty t -> muted c = false /\ out c' = [] /\
      forall sl, sl ∈ slaves (node s) -> waits_end sl = true -> sid sl ∉ faulty t /\ gone e (sid sl) = 0%nat) as Hfull.
  { intros f bad -> Ho t Ht. subst t. simpl in *. destruct (_ || _) eqn:E; [set_solver|]. apply orb_false_iff in E as [Hmu E]. split_and!; [done|by rewrite Ho|].
    intros sl Hin Hw. assert (sid sl ∉ faulty (partial s)) as Hf.
    { intros Hf. eapply eq_true_false_abs; [|exact E]. apply existsb_exists. exists sl. rewrite Hw, bool_decide_eq_true_2 by done. by rewrite <- list_elem_of_In. }
    split; [set_solver|by apply Hg]. }
  destruct psync as [[id offset]|].
  - destruct (string2ll offset) as [o|]; [destruct Hp as [-> Ho]|]; simpl; (split; [apply lookup_delete_eq|]); [exact (Hfull ∅ _ eq_refl Ho)|set_solver].
  - simpl. split; [apply lookup_delete_eq|]. exact (Hfull ∅ _ eq_refl Hp).
Qed.

Lemma resynced_ids s e st' partial' : ids_ok s -> hist s !! canon (random_id e) = None -> resynced e (node s) st' ->
  ids_ok (Sys st' (stream s) (new_id s st') partial' (unlogged s && negb (no_backlog (node s) && negb (no_backlog st')))).
Proof.
  intros Hids Hf [Hs|(Hn & Hn' & E1 & E2 & E3 & E4 & E5 & _)].
  - pose proof (same_ids_of _ _ Hs) as (E1 & E2 & E3 & E4 & E5 & E6). rewrite new_id_same by done. eapply (ids_frame s _ Hids); try done.
    simpl. rewrite E6. intros Hn. change (no_backlog (node s) = false) in Hn. by rewrite (proj2 (proj2 Hids) Hn).
  - rewrite (new_id_new s st' Hids) by by rewrite E1. rewrite E1. eapply (ids_new s _ (random_id e) Hids); try done; [left; simpl; lia|].
    simpl. intros _. by rewrite Hn, Hn', andb_false_r.
Qed.

Lemma resync_ok s e c c' psync : ok s -> zlen (stream s) < 2 ^ 63 -> hist s !! canon (random_id e) = None -> sid c' = sid c -> sid c ∉ sid <$> slaves (node s) ->
  fresh e (noted e c psync s) (node s) c' ->
  exists st', full_resync e c' (node s) = Some st' /\ resynced e (node s) st' /\
    ok (Sys st' (stream s) (new_id s st') (noted e c psync s) (unlogged s && negb (no_backlog (node s) && negb (no_backlog st')))).
Proof.
  intros [Hok Hids] Hl Hf Hc Hi Hfr. pose proof (partial_other_ok _ _ _ _ (sid c) Hok Hi (noted_other s e c psync)) as Hok'. rewrite <- Hc in Hi.
  destruct (full_resync_ok e c' (node s) (stream s) _ Hl Hok' Hfr Hi) as (st' & HE & Hok2 & Hr).
  exists st'. split; [done|]. split; [done|]. split; [done|]. by eapply resynced_ids.
Qed.

(** A step that leaves the server alone, whatever is noted of a client that is not a slave *)
Lemma ignored_ok s t n : ok s -> n ∉ sid <$> slaves (node s) -> same_but n (partial s) t ->
  ok (Sys (node s) (stream s) (new_id s (node s)) t (unlogged s && negb (no_backlog (node s) && negb (no_backlog (node s))))).
Proof.
  intros [Hok Hids] Hn Hp. rewrite new_id_same by done. rewrite andb_negb_r. simpl negb. rewrite andb_true_r. split.
  - by eapply partial_other_ok.
  - by eapply (ids_frame s _ Hids); try done; apply Hids.
Qed.

Lemma psync_event_ok s e c id offset : ok s -> allowed (ESync e c (Some (id, offset))) s -> sid c ∉ sid <$> slaves (node s) -> out c = [] ->
  exists st', (let! r := masterTryPartialResynchronization e c id offset (node s) in
               match r with
               | inr st => Some ([], st)
               | inl c => let! st := full_resync e c (node s) in Some ([], st)
               end) = Some ([] : bytes, st') /\ resynced e (node s) st' /\
    ok (Sys st' (stream s) (new_id s st') (noted e c (Some (id, offset)) s) (unlogged s && negb (no_backlog (node s) && negb (no_backlog st')))).
Proof.
  intros Hok [[Hf Hg] Hl] Hi Hc. destruct (string2ll offset) as [o|] eqn:Eo; [destruct (psync_refused id o (node s)) eqn:Er|].
  - unfold masterTryPartialResynchronization. rewrite Eo, Er. cbn [mbind option_bind].
    destruct (resync_ok s e c c (Some (id, offset)) Hok Hl Hf eq_refl Hi) as (st' & -> & Hr & Hok'); [|cbn [mbind option_bind]; eauto].
    apply noted_fresh; try done. by rewrite Eo.
  - destruct Hok as [Hnode Hids].
    pose proof (psync_ok e (node s) (stream s) (partial s) (noted e c (Some (id, offset)) s) c id offset o Hnode Hi Hc Eo (noted_other _ _ _ _)) as Hps.
    rewrite Er in Hps. destruct Hps as (c' & -> & Hok' & _ & Hn & _).
    { unfold noted. rewrite Eo, Er. apply lookup_insert_eq. }
    { unfold noted. rewrite Eo, Er. simpl. destruct (muted c); simpl; [set_solver|]. destruct (connWrite_ok e (sid c)); simpl; [done|set_solver]. }
    cbn [mbind option_bind]. eexists. split; [reflexivity|]. split; [by left|]. split; [done|].
    rewrite new_id_same by done. eapply (ids_frame s _ Hids); try done. simpl. intros _. by rewrite (proj2 (proj2 Hids) Hn).
  - unfold masterTryPartialResynchronization. rewrite Eo. cbn [mbind option_bind]. set (c' := addReplyProto _ c).
    assert (sid c' = sid c /\ muted c' = muted c) as [Hs Hm] by (subst c'; unfold addReplyProto; destruct (muted c) eqn:E; simpl; by rewrite ?E).
    destruct (resync_ok s e c c' (Some (id, offset)) Hok Hl Hf Hs Hi) as (st' & -> & Hr & Hok'); [|cbn [mbind option_bind]; eauto].
    apply noted_fresh; try done. by rewrite Eo.
Qed.

Lemma sync_ok s e c psync : ok s -> allowed (ESync e c psync) s ->
  exists s', apply (ESync e c psync) s = Some s' /\ ok s' /\ stream s' = stream s /\ resynced e (node s) (node s').
Proof.
  intros Hok Ha. pose proof Ha as [[Hf Hg] Hl]. pose proof (or_introl (same_refl (node s)) : resynced e (node s) (node s)) as Hrefl.
  cbn [apply]. unfold syncCommand. case_bool_decide as Hi.
  { cbn [mbind option_bind]. eexists. split; [reflexivity|]. rewrite new_id_same, andb_negb_r, andb_true_r by done. by destruct s. }
  pose proof (ignored_ok s _ (sid c) Hok Hi (noted_other s e c psync)) as Hign.
  destruct (has_masterhost (node s) && negb (repl_connected e)); [cbn [mbind option_bind]; eexists; split; [reflexivity|split; [exact Hign|split; [reflexivity|exact Hrefl]]]|].
  case_bool_decide as Hc; simpl negb; cbv iota; [|cbn [mbind option_bind]; eexists; split; [reflexivity|split; [exact Hign|split; [reflexivity|exact Hrefl]]]]. destruct psync as [[id offset]|].
  - destruct (psync_event_ok s e c id offset Hok Ha Hi Hc) as (st' & -> & Hr & Hok'). cbn [mbind option_bind]. eexists. by split_and!.
  - destruct (resync_ok s e c (set_pre_psync c) None Hok Hl Hf eq_refl Hi) as (st' & -> & Hr & Hok'); [by apply noted_fresh|]. cbn [mbind option_bind]. eexists. by split_and!.
Qed.

Lemma event_ok s ev : ok s -> allowed ev s -> exists s', apply ev s = Some s' /\ ok s'.
Proof.
  intros Hok Ha. destruct ev; [by apply write_ok|by apply stream_ok| | | | | | | |by apply promote_ok| |by apply psync_failed_ok
    |by apply full_sync_ok|by apply continue_ok|]; [| | |eexists; split; [reflexivity|]..];
    [destruct (sync_ok s e c psync Hok Ha) as (s' & ? & ? & _); eauto|destruct (bgsave_done_ok s e ok0 type Hok Ha) as (s' & ? & ? & _); eauto|destruct (cron_ok s e Hok Ha) as (s' & ? & ? & _); eauto|by apply disconnect_ok|by apply own_command_ok|by apply online_ok|by apply resize_event_ok|by apply demote_ok|by apply others_ok].
Qed.

Lemma init_ok size id : 0 < size -> ok (init size id).
Proof.
  intros Hs. split; [split; [by split_and!|done|by constructor|apply NoDup_nil_2]|]. split_and!; [|done|done].
  exists []. simpl. rewrite lookup_singleton_eq. by split_and!.
Qed.
Lemma reachable_ok size id s : 0 < size -> reachable size id s -> ok s.
Proof.
  intros Hs. induction 1 as [|s ev s' _ IH Ha HE]; [by apply init_ok|]. destruct (event_ok s ev IH Ha) as (s2 & HE2 & Hok). congruence.
Qed.

(** ** The theorems *)

(** C3. Replication: in every run of a server, whatever commands, requests to follow it, saves, losses of clients, resizes and changes
    of role happen in any order, no assertion fails; every attached replica that no longer waits for a save to start has been
    given exactly the bytes of the stream from the offset it began at to the last one, also when it is to be closed, unless it is
    noted as faulty: its PSYNC offset was not a number, the line that lets it continue could not be written, it executed
    commands of its own such as CLIENT REPLY OFF, or it came for a data set while a faulty one waited for a save to end; and the
    circular backlog gives the bytes of the stream from any offset it covers. *)
Theorem replicas_in_sync size id s : 0 < size -> reachable size id s ->
  (forall sl, sl ∈ slaves (node s) -> waits_start sl = false -> sid sl ∉ faulty (partial s) ->
     0 <= begin (partial s) sl <= zlen (stream s) /\ out sl = drop (Z.to_nat (begin (partial s) sl)) (stream s)) /\
  (forall o, no_backlog (node s) = false -> repl_backlog_off (node s) <= o <= repl_backlog_off (node s) + repl_backlog_histlen (node s) ->
     exists n, addReplyReplicationBacklog o (node s) = Some (drop (Z.to_nat (o - 1)) (stream s), n)) /\
  (forall ev, allowed ev s -> exists s', apply ev s = Some s').
Proof.
  intros Hs Hr. pose proof (reachable_ok size id s Hs Hr) as Hok. split_and!.
  - intros sl Hin Hw Hf. destruct Hok as [[_ _ Hk _] _]. rewrite Forall_forall in Hk. by apply (Hk sl Hin).
  - intros o Hn Ho. by apply (window_ok (node s) (stream s) o (n_backlog _ _ _ (proj1 Hok))).
  - intros ev Ha. destruct (event_ok s ev Hok Ha) as (s' & HE & _). by exists s'.
Qed.

(** What a replica has, if the server accepts its offset *)
Lemma accepted_prefix s rid data h : ok s -> hist s !! canon rid = Some h -> data `prefix_of` h -> psync_refused rid (zlen data + 1) (node s) = false ->
  data = take (length data) (stream s) /\ zlen data <= zlen (stream s) /\ unlogged s = false.
Proof.
  intros [Hok (H1 & H2 & H3)] Hh [x ->] Hr. unfold psync_refused in Hr. rewrite !same_nocase_canon in Hr.
  apply orb_false_iff in Hr as [Hid Hr]. apply orb_false_iff in Hr as [Hr E3]. apply orb_false_iff in Hr as [E1 E2].
  apply Z.ltb_ge in E2. rewrite Z.gtb_ltb in E3. apply Z.ltb_ge in E3.
  destruct (window_ok (node s) (stream s) (zlen data + 1) (n_backlog _ _ _ Hok) E1 (conj E2 E3)) as [Hw _]. rewrite Z.add_simpl_r in Hw.
  split_and!; [|lia|by apply H3]. destruct H1 as (h & Hh1 & [y ->] & _).
  destruct (bool_decide_reflect (canon rid = canon (replid (node s)))) as [Heq|Hne].
  - rewrite Heq, Hh1 in Hh. injection Hh as Hh. apply (f_equal (take (length data))) in Hh. rewrite take_app_length in Hh.
    rewrite take_app_le in Hh by (unfold zlen in *; lia). done.
  - simpl in Hid. destruct (bool_decide_reflect (canon rid = canon (replid2 (node s)))) as [Heq|]; [|done]. simpl in Hid. rewrite Z.gtb_ltb in Hid. apply Z.ltb_ge in Hid.
    destruct H2 as (Hl & h2 & Hh2 & Hlh & Ht); [lia|]. rewrite Heq, Hh2 in Hh. injection Hh as ->.
    apply (f_equal (take (length data))) in Ht. rewrite !take_take, !Nat.min_l in Ht by (unfold zlen in *; lia). by rewrite take_app_length in Ht.
Qed.

(** C4. A replica that has a part of the history that goes by some identifier, and asks for the rest of it, is allowed to continue only if what
    it has is a prefix of this server's stream and nothing was executed here beside the stream; what it is then sent
    completes its part to the whole stream, whether the identifier is that of the server or the one it had before a failover. *)
Theorem psync_continues size id s e c rid offset data h :
  0 < size -> reachable size id s -> allowed (ESync e c (Some (rid, offset))) s ->
  hist s !! canon rid = Some h -> data `prefix_of` h -> string2ll offset = Some (zlen data + 1) ->
  psync_refused rid (zlen data + 1) (node s) = false -> sid c ∉ sid <$> slaves (node s) -> out c = [] ->
  (has_masterhost (node s) = true -> repl_connected e = true) -> connWrite_ok e (sid c) = true -> muted c = false ->
  exists s' sl, apply (ESync e c (Some (rid, offset))) s = Some s' /\ sl ∈ slaves (node s') /\ sid sl = sid c /\
    data ++ out sl = stream s' /\ unlogged s' = false.
Proof.
  intros Hs Hr Ha Hh Hd Ho Href Hi Hc Hm Hw Hmu. pose proof (reachable_ok size id s Hs Hr) as Hok.
  destruct (accepted_prefix s rid data h Hok Hh Hd Href) as (Hpre & Hle & Hu).
  pose proof (psync_ok e (node s) (stream s) (partial s) (noted e c (Some (rid, offset)) s) c rid offset _ (proj1 Hok) Hi Hc Ho (noted_other _ _ _ _)) as Hps.
  rewrite Href in Hps. destruct Hps as (c' & HE & _ & Hsid & Hn & Hout); [unfold noted; rewrite Ho, Href; apply lookup_insert_eq|done|]. cbn [apply]. unfold syncCommand. rewrite bool_decide_eq_false_2 by done.
  assert (has_masterhost (node s) && negb (repl_connected e) = false) as ->.
  { destruct (has_masterhost (node s)); [rewrite Hm by done|]; done. }
  rewrite bool_decide_eq_true_2 by done. simpl negb. cbv iota. rewrite HE. cbn [mbind option_bind]. eexists _, c'. split; [reflexivity|]. simpl.
  split_and!; [set_solver|done| |by rewrite Hu]. rewrite (Hout Hw Hmu), Z.add_simpl_r. rewrite Hpre at 1. unfold zlen. rewrite Nat2Z.id. apply take_drop.
Qed.

(** ** The backlog over many steps *)

(** The later server has the stream of the first one and more, and its backlog has grown by as much. *)
Definition gap s s' : Prop :=
  exists d, stream s' = stream s ++ d /\ grown (node s) (zlen d) (node s') /\
    replid2 (node s') = replid2 (node s) /\ second_replid_offset (node s') = second_replid_offset (node s).
(** A step in which the server keeps its backlog, at the same size, and its identifier *)
Definition kept s s' : Prop :=
  no_backlog (node s') = false /\ repl_backlog_size (node s') = repl_backlog_size (node s) /\ replid (node s') = replid (node s).
Inductive follows : sys -> sys -> Prop :=
| follows_refl s : follows s s
| follows_step s s1 ev s2 : follows s s1 -> allowed ev s1 -> apply ev s1 = Some s2 -> kept s1 s2 -> follows s s2.

Lemma fed_gap s s' d : stream s' = stream s ++ d -> no_backlog (node s) = false -> same_ids_fed (node s) d (node s') -> gap s s'.
Proof. intros Hd Hn [(_ & E2 & E3 & _) Hg]. exists d. split_and!; [done|by apply Hg|done..]. Qed.
(** The same, when nothing is added *)
Lemma quiet_gap s s' : ok s -> no_backlog (node s) = false -> stream s' = stream s ->
  repl_backlog_size (node s') = repl_backlog_size (node s) -> repl_backlog_histlen (node s') = repl_backlog_histlen (node s) ->
  replid2 (node s') = replid2 (node s) -> second_replid_offset (node s') = second_replid_offset (node s) -> gap s s'.
Proof.
  intros [Hok _] Hn Hs E1 E2 E3 E4. exists []. rewrite app_nil_r. split_and!; [done| |done..]. unfold grown. rewrite E1, E2.
  apply (grown_0 (node s) (stream s) (n_backlog _ _ _ Hok) Hn).
Qed.
Lemma same_gap s s' : ok s -> no_backlog (node s) = false -> stream s' = stream s -> same (node s) (node s') -> gap s s'.
Proof. intros Hok Hn Hs Hm. apply quiet_gap; try done; by rewrite Hm. Qed.
Lemma set_slaves_same st l : same st (set_slaves l st).
Proof. by destruct st. Qed.

Lemma sync_gap s e c psync s' : ok s -> allowed (ESync e c psync) s -> apply (ESync e c psync) s = Some s' -> no_backlog (node s) = false -> gap s s'.
Proof.
  intros Hok Ha HE Hn. destruct (sync_ok s e c psync Hok Ha) as (s2 & HE2 & _ & Hs & Hr). rewrite HE2 in HE. injection HE as ->.
  destruct Hr as [Hr|[Hr _]]; [by apply same_gap|congruence].
Qed.

Lemma step_gap s ev s' : ok s -> allowed ev s -> apply ev s = Some s' -> no_backlog (node s) = false -> kept s s' -> gap s s'.
Proof.
  intros Hok Ha HE Hn (K1 & K2 & K3). destruct ev; try (injection HE as <-).
  - destruct Ha as [(Ha & Hl & Hd) _]. destruct (feed_slaves_correct (node s) (stream s) (partial s) dictid argv (arg_bytes <$> argv) (proj1 Hok) Ha Hl) as (st' & HE' & _ & Hf);
      [unfold is_s in *; lia|]. cbn [apply] in HE. rewrite HE' in HE. injection HE as <-. by eapply fed_gap.
  - destruct (master_stream_ok (node s) (stream s) (partial s) buf (proj1 Hok) Hn) as (st' & HE' & _ & Hf). cbn [apply] in HE. rewrite HE' in HE. injection HE as <-.
    by eapply fed_gap.
  - by eapply sync_gap.
  - destruct (bgsave_done_ok s e ok0 type Hok Ha) as (s2 & HE2 & _ & Hs & Hm). rewrite HE2 in HE. injection HE as ->. by apply same_gap.
  - destruct (cron_ok s e Hok Ha) as (s2 & HE2 & _ & Hs & Hm). rewrite HE2 in HE. injection HE as ->. destruct Hm as [Hm|Hm]; [congruence|by apply same_gap].
  - by apply same_gap, set_slaves_same.
  - by apply same_gap, set_slaves_same.
  - apply same_gap; [done..|]. simpl. unfold putSlaveOnline. destruct (negb _); apply set_slaves_same.
  - apply same_gap; [done..|]. simpl in K2 |- *. revert K2. unfold resizeReplicationBacklog. set (n' := if _ <? _ then _ else _).
    destruct (Z.eqb_spec (repl_backlog_size (node s)) n'); [intros _; apply same_refl|]. destruct (no_backlog (set_size n' (node s))); simpl; lia.
  - simpl in K3. destruct (has_masterhost (node s)) eqn:Em; [|apply same_gap; [done..|]; simpl; unfold replicationUnsetMaster; rewrite Em; apply same_refl].
    unfold replicationUnsetMaster in K3. rewrite Em in K3. simpl in K3. destruct Ha as [Ha _], Hok as (_ & (h & Hh & _) & _). rewrite K3, Hh in Ha. done.
  - by apply quiet_gap.
  - done.
  - destruct Ha as [(_ & Hb & _) _]. congruence.
  - cbn [apply] in HE. unfold psync_continued in HE. destruct (_ && _) eqn:E.
    + apply andb_true_iff in E as [_ E]. apply negb_true_iff, bool_decide_eq_false in E. change (no_backlog (disconnectSlaves _)) with (no_backlog (node s)) in HE.
      rewrite Hn in HE. injection HE as <-. done.
    + rewrite Hn in HE. injection HE as <-. by apply quiet_gap.
  - by apply quiet_gap.
Qed.

Lemma gap_trans s s1 s2 : gap s s1 -> gap s1 s2 -> gap s s2.
Proof.
  intros (d & E1 & G1 & R1 & O1) (x & E2 & G2 & R2 & O2). exists (d ++ x). rewrite E2, E1, app_assoc, zlen_app. split_and!; [done| |congruence..].
  eapply grown_trans; [zlen_pos; lia|done..].
Qed.
Lemma follows_gap s s' : ok s -> no_backlog (node s) = false -> follows s s' ->
  ok s' /\ no_backlog (node s') = false /\ gap s s' /\ replid (node s') = replid (node s).
Proof.
  intros Hok Hn. induction 1 as [s|s s1 ev s2 _ IH Ha HE Hk].
  - by split_and!; [..|apply same_gap; [..|apply same_refl]|].
  - destruct (IH Hok Hn) as (Hok1 & Hn1 & Hg & Hid). destruct (event_ok s1 ev Hok1 Ha) as (s3 & HE3 & Hok3). rewrite HE3 in HE. injection HE as ->.
    pose proof (step_gap s1 ev s2 Hok1 Ha HE3 Hn1 Hk) as Hg2. destruct Hk as (K1 & _ & K3).
    split_and!; [done|done|by eapply gap_trans|congruence].
Qed.

(** The stream and the backlog of a server that becomes a master *)
Lemma promote_gap s e s' : ok s -> allowed (EPromote e) s -> apply (EPromote e) s = Some s' ->
  ok s' /\ stream s' = stream s /\ no_backlog (node s') = no_backlog (node s) /\
  repl_backlog_size (node s') = repl_backlog_size (node s) /\ repl_backlog_histlen (node s') = repl_backlog_histlen (node s) /\
  (replid (node s') = replid (node s) \/ (replid2 (node s') = replid (node s) /\ second_replid_offset (node s') = zlen (stream s) + 1)).
Proof.
  intros Hok Ha HE. destruct (promote_ok s e Hok Ha) as (s2 & HE2 & Hok2). rewrite HE2 in HE. injection HE as ->. split; [done|].
  injection HE2 as <-. simpl. pose proof (proj1 (proj2 (n_backlog _ _ _ (proj1 Hok)))) as Hl. unfold replicationUnsetMaster.
  destruct (has_masterhost (node s)); simpl; split_and!; try done; [right|left; done]. by rewrite Hl.
Qed.

Lemma promoted_gap s s' : ok s -> s' = s \/ (exists e, allowed (EPromote e) s /\ apply (EPromote e) s = Some s') ->
  ok s' /\ stream s' = stream s /\ no_backlog (node s') = no_backlog (node s) /\
  repl_backlog_size (node s') = repl_backlog_size (node s) /\ repl_backlog_histlen (node s') = repl_backlog_histlen (node s) /\
  (replid (node s') = replid (node s) \/ (replid2 (node s') = replid (node s) /\ second_replid_offset (node s') = zlen (stream s) + 1)).
Proof. intros Hok [->|(e & Ha & HE)]; [by split_and!; [..|left]|by eapply promote_gap]. Qed.

(** Where the backlog begins *)
Lemma backlog_window st stream0 : backlog_ok st stream0 -> no_backlog st = false ->
  0 <= repl_backlog_histlen st /\ repl_backlog_off st = zlen stream0 - repl_backlog_histlen st + 1.
Proof.
  unfold backlog_ok, no_backlog. intros (_ & -> & Hb) Hn. destruct (repl_backlog st); [|done]. by destruct Hb as ((_ & _ & [Hh _] & _) & _ & Ho).
Qed.
Lemma known_accepted st rid o : no_backlog st = false -> repl_backlog_off st <= o <= repl_backlog_off st + repl_backlog_histlen st ->
  replid st = rid \/ (replid2 st = rid /\ o <= second_replid_offset st) -> psync_refused rid o st = false.
Proof.
  intros Hn Hw Hid. unfold psync_refused. rewrite !same_nocase_canon, Hn, !Z.gtb_ltb. apply orb_false_iff. split.
  - destruct Hid as [->|[-> Ho]]; [by rewrite bool_decide_eq_true_2|]. rewrite (bool_decide_eq_true_2 (canon rid = canon rid)) by done. simpl.
    apply andb_false_iff. right. by apply Z.ltb_ge.
  - simpl. apply orb_false_iff. split; apply Z.ltb_ge; lia.
Qed.

(** C23. A replica that was up to date when it was cut off may continue after any steps of a run in which the server keeps its
    identifier, its backlog and the size of the backlog, and may become a master once in between, as long as no more
    bytes than the backlog holds were added in all; the replica is sent exactly these. *)
Theorem psync_after_gap size id s s1 s2 s3 :
  0 < size -> reachable size id s -> no_backlog (node s) = false ->
  follows s s1 -> s2 = s1 \/ (exists e, allowed (EPromote e) s1 /\ apply (EPromote e) s1 = Some s2) -> follows s2 s3 ->
  zlen (stream s3) - zlen (stream s) <= repl_backlog_size (node s) ->
  psync_refused (replid (node s)) (zlen (stream s) + 1) (node s3) = false /\
  exists d n, stream s3 = stream s ++ d /\ addReplyReplicationBacklog (zlen (stream s) + 1) (node s3) = Some (d, n).
Proof.
  intros Hs Hr Hn H1 Hp H2 Hle. pose proof (reachable_ok size id s Hs Hr) as Hok. destruct (follows_gap s s1 Hok Hn H1) as (Hok1 & Hn1 & (d1 & E1 & G1 & _) & I1).
  pose proof (zlen_nonneg d1). destruct (promoted_gap s1 s2 Hok1 Hp) as (Hok2 & E2 & B2 & S2 & L2 & I2). rewrite Hn1 in B2.
  destruct (follows_gap s2 s3 Hok2 B2 H2) as (Hok3 & Hn3 & (d2 & E3 & G3 & R3 & O3) & I3). pose proof (zlen_nonneg d2).
  assert (stream s3 = stream s ++ (d1 ++ d2)) as Hd by (by rewrite E3, E2, E1, app_assoc).
  pose proof (n_backlog _ _ _ (proj1 Hok3)) as Hb3. pose proof (backlog_window (node s3) (stream s3) Hb3 Hn3) as Ho3.
  pose proof (backlog_window (node s) (stream s) (n_backlog _ _ _ (proj1 Hok)) Hn) as Ho.
  assert (zlen (stream s3) = zlen (stream s) + zlen d1 + zlen d2) as Hz by (rewrite Hd, !zlen_app; lia).
  assert (repl_backlog_off (node s3) <= zlen (stream s) + 1 <= repl_backlog_off (node s3) + repl_backlog_histlen (node s3)) as Hw by (unfold grown in *; lia).
  split.
  - apply known_accepted; [done|exact Hw|]. destruct I2 as [I2|[I2 O2]]; [left; congruence|right]. rewrite R3, I2, I1, O3, O2, E1, zlen_app. split; [done|lia].
  - destruct (window_ok (node s3) (stream s3) _ Hb3 Hn3 Hw) as [_ (n & HE)]. exists (d1 ++ d2), n. split; [done|]. rewrite HE, Z.add_simpl_r, Hd.
    unfold zlen. by rewrite Nat2Z.id, drop_app_length.
Qed.
End Run.

Module Example_repl.

#[local] Instance junk_bytes : Alloc := fun i => i * 7 + 165.

(** The operating system does what it is asked, a save goes to disk. *)
Definition env (id : bytes) : renv := REnv id (fun _ => true) (fun _ => 0%nat) false false false false false false true true (fun _ => true) (fun _ => true) false false.
Definition client (n : nat) : slave := Slave n 0 0 2 false false false [] [].
Definition argv (w : bytes) : list svalue := [SRaw w; SInt true 7].

(** A replica follows the server and is cut off after a command; the server, whose backlog holds 64 bytes, executes two more.
    In another run a client whose offset is not a number comes instead, before another command. *)
Definition s0 : sys := init 64 [97].
Definition evs : list event :=
  [ESync (env [98]) (client 1) (Some ([63], [45; 49])); EBgsaveDone (env []) true RDB_CHILD_TYPE_DISK; EOnline (env []) 1; EWrite 0 (argv [115; 101; 116])].
Definition next (s : sys) (ev : event) : sys := default s (apply ev s).
Definition followed : sys := foldl next s0 evs.
Definition s1 : sys := next followed (EDisconnect 1).
Definition s2 : sys := foldl next s1 [EWrite 0 (argv [105]); EWrite 0 (argv [106])].
Definition misled : sys := foldl next followed [ESync (env [99]) (client 2) (Some ([98], [120])); EWrite 0 (argv [105])].

Lemma write_allowed s w : zlen w < 2 ^ 63 -> zlen (stream s) < 2 ^ 63 -> allowed (EWrite 0 (argv w)) s.
Proof.
  intros Hw Hs. split; [|done]. split_and!; [|done|done]. unfold argv. rewrite !fmap_cons, fmap_nil.
  assert (arg_bytes (SInt true 7) = [55]) as -> by (vm_compute; reflexivity).
  constructor; [by split|]. constructor; [|constructor]. split; vm_compute; reflexivity.
Qed.
Lemma reach_next s ev : reachable 64 [97] s -> allowed ev s -> is_Some (apply ev s) -> reachable 64 [97] (next s ev).
Proof. intros Hr Ha [s' HE]. unfold next. rewrite HE. by eapply reach_step. Qed.

Lemma sync_allowed s n id psync : hist s !! canon id = None -> zlen (stream s) < 2 ^ 63 -> allowed (ESync (env id) (client n) psync) s.
Proof. intros Hh Hs. split; [|done]. split; [done|]. by apply Forall_forall. Qed.

Lemma followed_reachable : reachable 64 [97] followed.
Proof.
  unfold followed, evs. cbn [foldl]. apply reach_next; [|by apply write_allowed|vm_compute; by eexists].
  apply reach_next; [|split; [|vm_compute; reflexivity]|vm_compute; by eexists].
  2: { apply Forall_forall. intros sl Hin _. left. vm_compute in Hin. apply list_elem_of_singleton in Hin as ->. reflexivity. }
  apply reach_next; [|split; [done|vm_compute; reflexivity]|vm_compute; by eexists].
  apply reach_next; [apply reach_init|apply sync_allowed|vm_compute; by eexists]; vm_compute; reflexivity.
Qed.
Lemma s1_reachable : reachable 64 [97] s1.
Proof. unfold s1. apply reach_next; [apply followed_reachable|by split|vm_compute; by eexists]. Qed.
Lemma misled_reachable : reachable 64 [97] misled.
Proof.
  unfold misled. cbn [foldl]. apply reach_next; [|apply write_allowed; vm_compute; reflexivity|vm_compute; by eexists].
  apply reach_next; [apply followed_reachable|apply sync_allowed; vm_compute; reflexivity|vm_compute; by eexists].
Qed.
Lemma s2_reachable : reachable 64 [97] s2.
Proof.
  unfold s2. cbn [foldl]. apply reach_next; [|apply write_allowed; vm_compute; reflexivity|vm_compute; by eexists].
  apply reach_next; [apply s1_reachable|apply write_allowed; vm_compute; reflexivity|vm_compute; by eexists].
Qed.

Definition slave_at (k : nat) (s : sys) : slave := default (client 0) (slaves (node s) !! k).

(** The first replica has what the server sends, the one with the wrong offset an error before it. *)
Lemma replicas_in_sync_witness :
  out (slave_at 0 misled) = stream misled /\
  out (slave_at 1 misled) = err_reply "value is not an integer or out of range" ++ drop 43 (stream misled) /\ sid (slave_at 1 misled) ∈ faulty (partial misled) /\
  exists n, addReplyReplicationBacklog 41 (node misled) = Some (drop 40 (stream misled), n).
Proof.
  destruct (replicas_in_sync 64 [97] misled eq_refl misled_reachable) as (Hin & Hb & _). split; [|split; [|split]].
  - destruct (Hin (slave_at 0 misled)) as [_ Ho]; [|vm_compute; reflexivity| |].
    + apply (list_elem_of_lookup_2 _ 0). vm_compute. reflexivity.
    + refine (bool_decide_unpack (sid (slave_at 0 misled) ∉ faulty (partial misled)) _). vm_compute. exact I.
    + rewrite Ho. vm_compute. reflexivity.
  - vm_compute. reflexivity.
  - refine (bool_decide_unpack (sid (slave_at 1 misled) ∈ faulty (partial misled)) _). vm_compute. exact I.
  - apply (Hb 41); [vm_compute; reflexivity|vm_compute; split; discriminate].
Defined.

(** The replica asks for the byte 44 and what follows. *)
Lemma psync_continues_witness :
  exists s' sl, apply (ESync (env [99]) (client 2) (Some ([98], [52; 52]))) s2 = Some s' /\ sl ∈ slaves (node s') /\ sid sl = 2%nat /\
    stream s1 ++ out sl = stream s' /\ unlogged s' = false.
Proof.
  apply (psync_continues 64 [97] s2 (env [99]) (client 2) [98] [52; 52] (stream s1) (stream s2) eq_refl s2_reachable).
  - apply sync_allowed; vm_compute; reflexivity.
  - vm_compute. reflexivity.
  - exists (drop 43 (stream s2)). vm_compute. reflexivity.
  - vm_compute. reflexivity.
  - vm_compute. reflexivity.
  - vm_compute. set_solver.
  - reflexivity.
  - vm_compute. discriminate.
  - reflexivity.
  - reflexivity.
Defined.

(** The replica that was cut off at the byte 43 of 79, after two commands *)
Lemma psync_after_gap_witness :
  psync_refused [98] 44 (node s2) = false /\ zlen (stream s2) = 79 /\
  exists d n, stream s2 = stream s1 ++ d /\ addReplyReplicationBacklog 44 (node s2) = Some (d, n).
Proof.
  assert (forall s ev, allowed ev s -> is_Some (apply ev s) -> kept s (next s ev) -> follows s1 s -> follows s1 (next s ev)) as Hnext.
  { intros s ev Ha [s' HE] Hk Hf. unfold next in *. rewrite HE in *. by eapply follows_step. }
  assert (follows s1 s2) as Hf.
  { unfold s2. cbn [foldl]. do 2 (apply Hnext; [apply write_allowed; vm_compute; reflexivity|vm_compute; by eexists|by vm_compute|]). apply follows_refl. }
  destruct (psync_after_gap 64 [97] s1 s2 s2 s2 eq_refl s1_reachable) as [Hr Hd];
    [vm_compute; reflexivity|exact Hf|by left|apply follows_refl|vm_compute; discriminate|].
  split; [exact Hr|]. split; [vm_compute; reflexivity|exact Hd].
Defined.
End Example_repl.
